(* ===== verification/_CoqProject ===== *)
-Q . S2P
Prelude.v
HttpChars.v
HttpRequestLine.v
NgxHashKey.v
HttpHeaderLine.v
HttpUri.v
NgxNumber.v
NgxParse.v
NgxSprintf.v
HttpChunked.v
HttpChunkedText.v
HttpStatusLine.v
NgxStrings.v
NgxUtf8.v
HttpArgs.v
NgxInet.v
NgxBase64.v
NgxEscape.v
NgxTime.v
UpstreamRoundRobin.v
UpstreamLeastConn.v
UpstreamIpHash.v
UpstreamKeepalive.v
NgxRadix.v
NgxCrc32.v
NgxMemory.v
NgxQueue.v
NgxRbtree.v
NgxRbtreeLogic.v
NgxRbtreeInsert.v
NgxRbtreeDelete.v
NgxKeyTree.v
NgxHash.v
NgxHashLayout.v
NgxHashWildcard.v
NgxHashNames.v
NgxHashKeys.v
HttpServerNames.v
NgxPalloc.v
NgxArray.v
HttpRange.v
HttpRangeBody.v
NgxSlab.v
NgxSlabInv.v
NgxSlabPages.v
NgxSlabChunks.v
NgxSlabAlloc.v
NgxSlabFree.v
NgxSlabPool.v
HttpLocations.v
HttpLocationTrees.v
HttpLocationPriority.v
HttpLimitConn.v
HttpLimitConnZone.v
HttpLimitReq.v
HttpLimitReqRate.v
HttpLimitReqWorkers.v
NgxEventTimer.v
