(* ===== verification/Prelude.v ===== *)
(** * A verification of the core of the server

    The repository is the HTTP server nginx 1.4.7 (src/nginx-1.4.7/src) with a
    recommendation module of its own (src/nginx-1.4.7/src/aret).  This
    development models the code that decides what a request means and where it
    goes: the incremental parsers of the HTTP engine, the string and number
    routines under them, the balancer of upstream servers, the tables of address
    prefixes, the tables of the names of servers, the locations of a server, the limits on connections and
    requests, and the timers of the
    event loop, with the red-black tree and the queues under these.

    ** How the parts fit together

    A connection's bytes arrive in buffers.  [ngx_http_parse_request_line] and
    [ngx_http_parse_header_line] (http/ngx_http_parse.c) read them byte by byte
    and may stop with [NGX_AGAIN] at any byte, to be called again with the
    state they saved; a target that needs it is normalised by
    [ngx_http_parse_complex_uri]; a request body with chunked coding goes
    through the filter of http/ngx_http_request_body.c over
    [ngx_http_parse_chunked], and a response body through the chunked filter
    module.  Header values are read by the functions for arguments, cookies,
    numbers and dates.  The host of the request selects a server in the hash
    tables of their names, and the path a location of it, which holds
    the configuration of all later steps.  When the request is proxied, the round-robin balancer
    picks an upstream peer, and the status line of its answer is parsed in
    turn.  Before that the limits on connections and on the rate of requests
    may refuse or delay the request; they count per key in trees in shared
    memory.  The geo module looks client addresses up in radix trees.  Between
    events the loop sleeps until the nearest timer and then expires the timers
    that are due, calling the handlers of their events.

    ** The files

    - [Prelude]: literals, machine integers, memory as byte lists, the loop
      combinator of the parsers with its lemmas, sums, tactics.
    - [HttpChars], [HttpRequestLine], [NgxHashKey], [HttpHeaderLine],
      [HttpUri], [HttpArgs], [HttpStatusLine], [HttpChunked], [HttpChunkedText]:
      the parsers of http/ngx_http_parse.c and the two body filters.  A parser is a step
      function on (state, record of the fields it writes), one definition per
      [case] of the C switch, run by [for_loop]; a pointer into a buffer is an
      offset, a pointer that can be NULL an [option].
    - [NgxNumber], [NgxSprintf], [NgxStrings], [NgxUtf8], [NgxBase64], [NgxEscape]:
      core/ngx_string.c.  Integers wrap at their width ([u64], [s64] and so
      on), and the doubles that are printed are the [spec_float] of the Standard
      Library.
    - [NgxParse]: core/ngx_parse.c.
    - [NgxTime]: core/ngx_times.c and http/ngx_http_parse_time.c.
    - [NgxInet]: the address functions of core/ngx_inet.c.
    - [UpstreamRoundRobin]: http/ngx_http_upstream_round_robin.c.  The peers
      are shared by all requests, so every operation takes and returns them;
      sequences of operations of many requests are a step relation.
      [UpstreamLeastConn] and [UpstreamIpHash] are the balancers by the number of
      connections and by the address of the client, over it;
      [UpstreamKeepalive] is the cache of connections, over any balancer (class
      [Balancer] with the laws [BalancerLaws]).
    - [NgxRadix]: core/ngx_radix_tree.c, with nodes in a memory of addresses,
      parent pointers and a free list; the two copies of the code for 32-bit
      and 128-bit keys are one definition over the class [RadixKey], whose laws
      [RadixLaws] both key types are shown to have.
    - [NgxCrc32]: the checksums of core/ngx_crc32.h.
    - [NgxMemory]: what it means that a memory holds a list of cells, for the
      files with pointers.
    - [NgxQueue]: core/ngx_queue.h and core/ngx_queue.c, rings of links in
      memory.
    - [NgxRbtree]: core/ngx_rbtree.c in a monad of computations on a memory of
      nodes, with parent pointers, the shared sentinel and the root pointer;
      the mirrored copies of the C code are one definition over a side.
      [NgxRbtreeLogic] is a small program logic for it (cells with distinct
      addresses, trees with a hole), [NgxRbtreeInsert] and [NgxRbtreeDelete]
      the proofs of the two operations.  Insertion is for any comparison that
      is an order on the keys in use (class [KeyOrder]).
    - [NgxKeyTree]: what the two limits share: the order of hashed keys, the
      search for one, and the class [SlabPool] of what the allocator of shared
      memory promises ([SlabLaws]), against which their theorems are proved.
    - [NgxHash]: the hash tables of core/ngx_hash.c, with the bytes of their
      elements; [NgxHashLayout] shows that they are laid out without overlap.
      [NgxHashWildcard] has the nested tables of names with wildcards,
      [NgxHashNames] what they mean on labels, and [NgxHashKeys] the collecting
      of names with their conflicts.
    - [HttpServerNames]: the tables of the names of servers (http/ngx_http.c),
      the check of the host of a request and the search for its server
      (http/ngx_http_request.c).  The sort of the C library and the regular
      expressions are parameters ([qsort_ok] is what is known of the sort).
    - [NgxPalloc]: the memory pools of core/ngx_palloc.c, over an allocator of
      the system that is the class [System] with the laws [SystemLaws].
      [NgxArray]: core/ngx_array.c and core/ngx_list.c over the pools, with the
      bytes of the elements.
    - [HttpRange], [HttpRangeBody]: the header and body filters of
      http/modules/ngx_http_range_filter_module.c.
    - [NgxSlab]: core/ngx_slab.c, the allocator of shared memory, on page
      descriptors that are linked by pointers and on bitmaps in the pages.
      [NgxSlabInv] is the invariant of a pool, [NgxSlabPages], [NgxSlabChunks],
      [NgxSlabAlloc] and [NgxSlabFree] show that each part keeps it and which
      blocks are in use after it, and [NgxSlabPool] has the allocator as a
      whole, as an instance of [SlabLaws].
    - [HttpLocations], [HttpLocationTrees], [HttpLocationPriority]: the
      locations of a server (http/ngx_http.c) and the search for that of a
      request (http/ngx_http_core_module.c), with queues as lists; then the
      nested lists and trees made of them, and the set-up and search as a whole.
    - [HttpLimitConn]: http/modules/ngx_http_limit_conn_module.c; the critical
      sections on a zone are functions, and requests that enter and leave are
      a step relation.  [HttpLimitConnZone]: the set-up of a zone, over the
      slab allocator.
    - [HttpLimitReq], [HttpLimitReqRate], [HttpLimitReqWorkers]:
      http/modules/ngx_http_limit_req_module.c, over the tree and the queue.
      The handler is a machine whose steps have at most one critical section
      each, and the system of all workers is a step relation over it.
    - [NgxEventTimer]: event/ngx_event_timer.c over the tree.  The handlers of
      events are a parameter; the class [TimerHandler] is what the loop needs
      of them, and handlers that set and clear timers are shown to have it.

    Each definition that models code names its file, lines and function in the
    comment above it, as in [http/ngx_http_parse.c:100-200].

    ** What is shown

    - Parsers: suspending and resuming gives the answer of one call (request
      line, header line, status line); what is accepted is well formed and all
      marks lie in the bytes consumed; parsing what is printed gives it back.
    - Paths: normalisation is the resolution of the dot segments before the last
      segment, on decoded segments (a dot segment at the end is kept); it refuses
      exactly the paths in which those leave the root, it terminates and stays in
      its buffer, and no dot segment followed by a slash is left.
    - Chunked bodies: the filter decodes every text of the grammar of the coding,
      cut anywhere into buffers and calls, decoding undoes the server's own
      encoding, and the limit on the size of a body is kept.
    - Numbers, printing, escaping, base64, dates: exact results with their
      overflow behaviour, bounds of the buffers, and round trips.
    - Addresses: printed IPv4 and IPv6 addresses are read back, with two
      exceptions; a prefix is masked to its network, and errors are exactly
      the malformed texts.
    - Balancer: an invariant of the shared peers under any interleaving, the
      exact outcome of a choice, distinct peers in the attempts of one request
      (so that retries end), and fairness: each peer serves exactly its weight
      in a round.
    - Other balancers: the counters of connections are exact under any
      interleaving and the lightest available peer is chosen; a client keeps the
      peer of its address as long as this is available; and connections in the
      cache are never shared, lost or used for another peer.
    - Radix trees: the memory refines a table of prefixes under any sequence of
      insertions and of deletions of prefixes that are not empty (deleting the
      empty one is shown to fault), an insertion fails only when there is no
      memory, and a lookup is the longest-prefix match.
    - Queues: the links in memory refine a list, and sorting is stable.
    - Red-black trees: insertion and deletion never follow a bad pointer, end,
      keep the balance and refine insertion into and deletion from the sorted
      list of nodes.
    - Slab allocator: in memory with any contents, under any sequence of
      allocations, of freeing what was allocated and of writing to it, the blocks stay disjoint and inside of the pool, nothing faults,
      and most wrong addresses are refused; those that are not are shown.
    - Pools: in a pool whose size is a multiple of 16 the pieces in use stay
      disjoint, inside of the memory of the pool and apart from the nodes of its
      lists, unless it is reset with cleanups in it, and destroying a pool returns
      what it took from the system.  An array in a pool is a list, and the
      elements of a list in a pool never move nor overlap.
    - Ranges: the Range header means what it says, accepted ranges lie in the
      body (unless the sum of their sizes overflows, which is shown to happen),
      and exactly the bytes announced are sent, however the body is cut.
    - Hash tables: with buckets of at most 2^15 bytes a table is made without a
      fault, unless it does not fit or there is no memory, and finds what a search
      through its entries finds; nested tables find the wildcard name with the
      most labels that matches.
    - Virtual servers: whatever the names, a request gets the server that the
      rules of priority tell, however its host is written.
    - Locations, when they are not nested and their names have at most 255 bytes:
      the set-up fails exactly for duplicates, and a request gets the location that
      the rules of priority tell, however sorting, nesting and trees have arranged
      them.
    - Limits: however workers and requests interleave, the nodes in shared
      memory stay consistent, held nodes are not deleted and the memory in use is
      that of the nodes held (a request whose cleanup can not be registered never
      leaves, and its node stays); connections per key stay within the limit, and
      the requests per key in an interval within the burst and the rate, except
      for keys of more than 255 bytes, which are not limited at all.  The limit on connections
      is also shown over the slab allocator itself.
    - Timers: the time to sleep is that to the nearest timer on a clock that
      wraps, setting a timer arms the event within the lazy delay, and a pass
      over the expired timers ends, leaves none, marks and handles each in order,
      unless a handler has cleared it.

    ** Fuel and bounds

    Loops over the bytes of a buffer are structural in the number of bytes.
    [ngx_http_parse_complex_uri] can read a byte twice, and runs on fuel that
    [complex_uri_safe] shows to be enough.  The loops over a radix tree run on
    one step more than the bits of a key, and the refinement theorem shows that
    they end in time.  The loops over a red-black tree run on one step more than
    the number of nodes in memory.  The pass over the timers runs on any number
    of rounds greater than that of the expired timers.  The lists of slab pages
    are walked with one step more than the number of pages, which is enough
    since a page is in one list once.  A bucket of a hash is
    searched with the number of elements that fit into 2^16 bytes, the tables of
    wildcard names are made and searched with one step for each byte of a name,
    which is more than its labels.  The nested lists and the
    trees of locations are made with as much fuel as there are locations, which
    their lemmas show to be enough; the search for a location takes the depth of
    nested locations.  Sizes are bounded only
    where the code would overflow; such a bound is a hypothesis of the theorem
    that needs it.

    ** What is not modelled

    In the other files allocation from memory pools is assumed to succeed (except
    in the radix tree and the hash tables, which get their memory from a given
    list), and logging is left out.  The event loop around
    the timers, system calls, configuration and process management, SSL, the
    modules over the request engine and the recommendation module are not
    modelled; neither are the NGX_WIN32 and NGX_THREADS branches.  The
    parsers of URLs and of the mail protocols would be the next parts. *)
From Stdlib Require Export ZArith Lia Ascii String.
From stdpp Require Export base numbers list.

#[export] Set Default Goal Selector "!".

(** ** Character and byte-string literals

    [C! "/"] is the code of a character and [B! "GET"] the list of the codes of
    a string; both are computed when the source is read, so that terms and
    goals contain plain numerals, on which [lia] and [vm_compute] work. *)

Declare Scope ngx_scope.
Delimit Scope ngx_scope with ngx.
Open Scope Z_scope.

(** Comparisons stay as written: [decide_tests] below resolves them. *)
#[global] Arguments Z.eqb : simpl never.
#[global] Arguments Z.ltb : simpl never.
#[global] Arguments Z.leb : simpl never.

Fixpoint bytes_of_string (s : string) : list Z :=
  match s with
  | EmptyString => []
  | String a s' => Z.of_N (N_of_ascii a) :: bytes_of_string s'
  end.

Ltac char_literal a :=
  let z := eval vm_compute in (Z.of_N (N_of_ascii a)) in exact z.
Ltac bytes_literal s :=
  let z := eval vm_compute in (bytes_of_string s) in exact z.

Notation "'C!' x" := (ltac:(char_literal (x%char)))
  (at level 1, x at level 0, only parsing) : Z_scope.
Notation "'B!' x" := (ltac:(bytes_literal (x%string)))
  (at level 1, x at level 0, only parsing) : list_scope.

Abbreviation LF := 10 (only parsing).
Abbreviation CR := 13 (only parsing).

(** ** Return codes of src/core/ngx_core.h *)

Abbreviation NGX_OK := 0 (only parsing).
Abbreviation NGX_ERROR := (-1) (only parsing).
Abbreviation NGX_AGAIN := (-2) (only parsing).
Abbreviation NGX_BUSY := (-3) (only parsing).
Abbreviation NGX_DONE := (-4) (only parsing).
Abbreviation NGX_DECLINED := (-5) (only parsing).

(** ** C integers: unsigned and signed wrap-around at a width *)

Definition u8 (z : Z) : Z := z mod 2 ^ 8.
Definition u16 (z : Z) : Z := z mod 2 ^ 16.
Definition u32 (z : Z) : Z := z mod 2 ^ 32.
Definition u64 (z : Z) : Z := z mod 2 ^ 64.
Definition s64 (z : Z) : Z := (z + 2 ^ 63) mod 2 ^ 64 - 2 ^ 63.

Definition is_byte (z : Z) : Prop := 0 <= z < 256.

(** Or-ing a shifted value with what fits below it is addition. *)
Lemma lor_shiftl_add a b n :
  0 <= n -> 0 <= b < 2 ^ n -> Z.lor (Z.shiftl a n) b = a * 2 ^ n + b.
Proof.
  intros Hn Hb. rewrite <- Z.shiftl_mul_pow2 by done. symmetry. apply Z.add_nocarry_lor.
  apply Z.bits_inj'. intros k Hk. rewrite Z.land_spec, Z.bits_0, Z.shiftl_spec by done.
  destruct (Z.lt_ge_cases k n).
  - by rewrite Z.testbit_neg_r by lia.
  - rewrite <- (Z.mod_small b (2 ^ n)) by done.
    rewrite Z.mod_pow2_bits_high by lia. apply andb_false_r.
Qed.

Lemma s64_mod a : s64 a mod 2 ^ 64 = a mod 2 ^ 64.
Proof. unfold s64. rewrite Zminus_mod_idemp_l. f_equal. lia. Qed.

(** On a 64-bit signed integer.
    [core/ngx_core.h:87-87] ngx_abs *)
Definition ngx_abs (value : Z) : Z := if 0 <=? value then value else s64 (- value).

Lemma s64_small a : - 2 ^ 63 <= a < 2 ^ 63 -> s64 a = a.
Proof. intros. unfold s64. rewrite Z.mod_small by lia. lia. Qed.

Lemma s64_range a : - 2 ^ 63 <= s64 a < 2 ^ 63.
Proof. unfold s64. pose proof (Z.mod_pos_bound (a + 2 ^ 63) (2 ^ 64)). lia. Qed.

Lemma s64_cong a b : a mod 2 ^ 64 = b mod 2 ^ 64 -> s64 a = s64 b.
Proof.
  intros H. unfold s64. f_equal. rewrite <- (Zplus_mod_idemp_l a), <- (Zplus_mod_idemp_l b).
  by rewrite H.
Qed.

(** Wrapping on the way is wrapping at the end. *)
Lemma s64_step v k d : s64 (s64 v * k + d) = s64 (v * k + d).
Proof.
  apply s64_cong. rewrite <- (Zplus_mod_idemp_l (s64 v * k)), <- (Zmult_mod_idemp_l (s64 v)).
  by rewrite s64_mod, Zmult_mod_idemp_l, Zplus_mod_idemp_l.
Qed.

Lemma s64_divide z : (2 ^ 64 | s64 z - z).
Proof.
  unfold s64. exists (- ((z + 2 ^ 63) / 2 ^ 64)). pose proof (Z.div_mod (z + 2 ^ 63) (2 ^ 64)). lia.
Qed.

Lemma u64_small z : 0 <= z < 2 ^ 64 -> u64 z = z.
Proof. apply Z.mod_small. Qed.
Lemma u64_range z : 0 <= u64 z < 2 ^ 64.
Proof. apply Z.mod_pos_bound. lia. Qed.
Lemma u32_range z : 0 <= u32 z < 2 ^ 32.
Proof. apply Z.mod_pos_bound. lia. Qed.

(** ** Sums over a list *)

Fixpoint sumZ {B : Type} (f : B -> Z) (l : list B) : Z :=
  match l with [] => 0 | x :: l' => f x + sumZ f l' end.

Lemma sumZ_alter {B} (f : B -> Z) g l k x :
  l !! k = Some x -> sumZ f (alter g k l) = sumZ f l + (f (g x) - f x).
Proof.
  revert k; induction l as [|y l IH]; intros [|k]; cbn; [done..| |].
  - intros [= ->]. lia.
  - intros E. change (alter g (S k) (y :: l)) with (y :: alter g k l). cbn. rewrite (IH _ E). lia.
Qed.

Lemma sumZ_ge {B} (f : B -> Z) l lo :
  (forall x, In x l -> lo <= f x) -> lo * Z.of_nat (length l) <= sumZ f l.
Proof.
  induction l as [|x l IH]; intros H; cbn [sumZ length]; [lia|].
  pose proof (H x (or_introl eq_refl)). specialize (IH (fun y Hy => H y (or_intror Hy))). lia.
Qed.

(** A sum of values above [lo] bounds each of them. *)
Lemma sumZ_le {B} (f : B -> Z) l lo x :
  (forall y, In y l -> lo <= f y) -> In x l ->
  f x <= sumZ f l - lo * (Z.of_nat (length l) - 1).
Proof.
  induction l as [|y l IH]; intros H Hx; [done|]. destruct Hx as [->|Hin]; cbn [sumZ length].
  - pose proof (sumZ_ge f l lo (fun y Hy => H y (or_intror Hy))). lia.
  - pose proof (H y (or_introl eq_refl)). specialize (IH (fun z Hz => H z (or_intror Hz)) Hin). lia.
Qed.

Lemma sumZ_zero {B} (f : B -> Z) l x :
  (forall y, In y l -> 0 <= f y) -> sumZ f l = 0 -> In x l -> f x = 0.
Proof. intros H H0 Hx. pose proof (sumZ_le f l 0 x H Hx). specialize (H x Hx). lia. Qed.

(** ** Memory and pointers

    A buffer is the list of its bytes; a pointer into it is an offset, and a
    pointer that may be NULL is an [option Z].  Reading outside of the list
    gives 0. *)

Definition mem_at (mem : list Z) (p : Z) : Z :=
  if p <? 0 then 0 else nth (Z.to_nat p) mem 0.

Definition slice (mem : list Z) (a b : Z) : list Z :=
  take (Z.to_nat (b - a)) (drop (Z.to_nat a) mem).

Definition ptr : Type := option Z.
Definition NULL : ptr := None.
Definition ptr_add (p : ptr) (n : Z) : ptr := (fun x => x + n) <$> p.

(** ** The byte loops of the parsers

    Every parser is [for (p = b->pos; p < b->last; p++) switch (state) ...]:
    [break] goes to the next byte, [goto] and [return] leave the loop at the
    current [p].  [for_loop step n p s] runs it over [n = last - p] bytes. *)

Inductive action (S X : Type) : Type :=
| Next (s : S)
| Exit (x : X) (s : S).
Arguments Next {S X} s.
Arguments Exit {S X} x s.

Inductive loop_end (S X : Type) : Type :=
| Ran (p : Z) (s : S)
| Broke (x : X) (p : Z) (s : S).
Arguments Ran {S X} p s.
Arguments Broke {S X} x p s.

Section ForLoop.
Context {S X : Type}.
Implicit Types step : Z -> S -> action S X.

Fixpoint for_loop step (n : nat) (p : Z) (s : S) : loop_end S X :=
  match n with
  | O => Ran p s
  | Datatypes.S n' =>
      match step p s with
      | Next s' => for_loop step n' (p + 1) s'
      | Exit x s' => Broke x p s'
      end
  end.

Lemma for_loop_add step n m p s :
  for_loop step (n + m) p s =
  match for_loop step n p s with
  | Ran p' s' => for_loop step m p' s'
  | Broke x p' s' => Broke x p' s'
  end.
Proof.
  revert p s; induction n as [|n IH]; intros p s; simpl; [done|].
  destruct (step p s); [apply IH|done].
Qed.

Lemma for_loop_ext step1 step2 n p s :
  (forall q s', p <= q < p + Z.of_nat n -> step1 q s' = step2 q s') ->
  for_loop step1 n p s = for_loop step2 n p s.
Proof.
  revert p s; induction n as [|n IH]; intros p s H; simpl; [done|].
  rewrite H by lia. destruct (step2 p s); [|done].
  apply IH. intros; apply H; lia.
Qed.

(** An invariant that every [Next] step preserves holds at the end of the
    loop, or just before the step that left it. *)
Lemma for_loop_inv step (I : Z -> S -> Prop) n p s :
  I p s ->
  (forall q s' s'', p <= q < p + Z.of_nat n -> I q s' ->
     step q s' = Next s'' -> I (q + 1) s'') ->
  match for_loop step n p s with
  | Ran p' s' => p' = p + Z.of_nat n /\ I p' s'
  | Broke x p' s' =>
      p <= p' < p + Z.of_nat n /\
      exists s0, I p' s0 /\ step p' s0 = Exit x s'
  end.
Proof.
  revert p s; induction n as [|n IH]; intros p s HI Hstep; simpl.
  - split; [lia|done].
  - destruct (step p s) as [s'|x s'] eqn:E.
    + assert (HI' : I (p + 1) s') by (eapply Hstep; [|done|done]; lia).
      specialize (IH (p + 1) s' HI').
      assert (Hs : forall q s1 s2, p + 1 <= q < p + 1 + Z.of_nat n -> I q s1 ->
                step q s1 = Next s2 -> I (q + 1) s2)
        by (intros; eapply Hstep; [|done|done]; lia).
      specialize (IH Hs). destruct (for_loop step n (p + 1) s').
      * destruct IH; split; [lia|done].
      * destruct IH; split; [lia|done].
    + split; [lia|]. eauto.
Qed.

(** [k] bytes on which the step is [Next] with the same state. *)
Lemma for_loop_stay step k m p s :
  (forall q, p <= q < p + Z.of_nat k -> step q s = Next s) ->
  for_loop step (k + m) p s = for_loop step m (p + Z.of_nat k) s.
Proof.
  revert p; induction k as [|k IH]; intros p H; simpl.
  - f_equal; lia.
  - rewrite H by lia. rewrite IH.
    + f_equal; lia.
    + intros; apply H; lia.
Qed.

(** [k] bytes on which the step is [Next] and keeps [P]. *)
Lemma for_loop_run step (P : Z -> S -> Prop) k p s :
  P p s ->
  (forall q s1, p <= q < p + Z.of_nat k -> P q s1 ->
     exists s2, step q s1 = Next s2 /\ P (q + 1) s2) ->
  exists s', P (p + Z.of_nat k) s' /\
    forall m, for_loop step (k + m) p s = for_loop step m (p + Z.of_nat k) s'.
Proof.
  revert p s; induction k as [|k IH]; intros p s HP Hstep.
  - exists s. replace (p + Z.of_nat 0) with p by lia. done.
  - destruct (Hstep p s) as (s2 & E & HP2); [lia|done|].
    destruct (IH (p + 1) s2 HP2) as (s' & HP' & Hrun).
    { intros; apply Hstep; [lia|done]. }
    exists s'. replace (p + Z.of_nat (Datatypes.S k)) with (p + 1 + Z.of_nat k) by lia.
    split; [done|]. intros m. simpl. rewrite E. apply Hrun.
Qed.

Lemma for_loop_next step m p s s' :
  step p s = Next s' ->
  for_loop step (Datatypes.S m) p s = for_loop step m (p + 1) s'.
Proof. simpl. by intros ->. Qed.

Lemma for_loop_exit step m p s x s' :
  step p s = Exit x s' -> for_loop step (Datatypes.S m) p s = Broke x p s'.
Proof. simpl. by intros ->. Qed.
End ForLoop.
#[global] Arguments for_loop {S X} step n p s : simpl never.

(** The numbers of an interval, for case analysis. *)
Lemma in_range (lo n : nat) (z : Z) :
  Z.of_nat lo <= z < Z.of_nat (lo + n) -> In z (map Z.of_nat (seq lo n)).
Proof.
  intros H. apply in_map_iff. exists (Z.to_nat z). split; [lia|]. apply in_seq. lia.
Qed.

(** ** Reading lists as memory *)

Lemma mem_at_app_r pre s i :
  0 <= i -> mem_at (pre ++ s) (Z.of_nat (length pre) + i) = mem_at s i.
Proof.
  intros Hi. unfold mem_at.
  destruct (Z.ltb_spec (Z.of_nat (length pre) + i) 0); [lia|].
  destruct (Z.ltb_spec i 0); [lia|].
  rewrite app_nth2 by lia. f_equal. lia.
Qed.

Lemma mem_at_app_l s post i :
  i < Z.of_nat (length s) -> mem_at (s ++ post) i = mem_at s i.
Proof.
  intros Hi. unfold mem_at. destruct (Z.ltb_spec i 0); [done|].
  apply app_nth1. lia.
Qed.

Lemma mem_at_cons_0 a s : mem_at (a :: s) 0 = a.
Proof. done. Qed.

Lemma mem_at_cons_S a s i : 0 < i -> mem_at (a :: s) i = mem_at s (i - 1).
Proof.
  intros Hi. unfold mem_at.
  destruct (Z.ltb_spec i 0); [lia|]. destruct (Z.ltb_spec (i - 1) 0); [lia|].
  replace (Z.to_nat i) with (S (Z.to_nat (i - 1))) by lia. done.
Qed.

Lemma mem_at_Forall (P : Z -> Prop) s i :
  Forall P s -> 0 <= i < Z.of_nat (length s) -> P (mem_at s i).
Proof.
  intros HP Hi. unfold mem_at. destruct (Z.ltb_spec i 0); [lia|].
  rewrite Forall_forall in HP. apply HP. rewrite list_elem_of_In.
  apply nth_In. lia.
Qed.

Lemma mem_at_byte mem q : Forall is_byte mem -> is_byte (mem_at mem q).
Proof.
  intros H. unfold mem_at. destruct (Z.ltb_spec q 0); [split; lia|].
  destruct (Nat.lt_ge_cases (Z.to_nat q) (length mem)).
  - rewrite Forall_forall in H. apply H. rewrite list_elem_of_In. by apply nth_In.
  - rewrite nth_overflow by lia. split; lia.
Qed.

(** [mem] holds the bytes [bs] at [p]. *)
Definition mem_has (mem : list Z) (p : Z) (bs : list Z) : Prop :=
  forall i, 0 <= i < Z.of_nat (length bs) -> mem_at mem (p + i) = mem_at bs i.

Lemma mem_has_cons mem p c bs :
  mem_has mem p (c :: bs) <-> mem_at mem p = c /\ mem_has mem (p + 1) bs.
Proof.
  unfold mem_has. cbn [length]. split.
  - intros H. split.
    + specialize (H 0). rewrite Z.add_0_r in H. by rewrite H by lia.
    + intros i Hi. specialize (H (i + 1)).
      replace (p + 1 + i) with (p + (i + 1)) by lia. rewrite H by lia.
      rewrite mem_at_cons_S by lia. f_equal. lia.
  - intros [H0 H] i Hi. destruct (Z.eq_dec i 0) as [->|].
    + by rewrite Z.add_0_r.
    + rewrite mem_at_cons_S by lia. rewrite <- H by lia. f_equal. lia.
Qed.

Lemma mem_has_app mem p bs1 bs2 :
  mem_has mem p (bs1 ++ bs2) <->
  mem_has mem p bs1 /\ mem_has mem (p + Z.of_nat (length bs1)) bs2.
Proof.
  revert p; induction bs1 as [|c bs1 IH]; intros p; cbn [app length].
  - replace (p + Z.of_nat 0) with p by lia. split; [|tauto].
    intros H; split; [|done]. intros i Hi. cbn in Hi. lia.
  - rewrite !mem_has_cons, IH.
    replace (p + Z.of_nat (S (length bs1))) with (p + 1 + Z.of_nat (length bs1)) by lia.
    tauto.
Qed.

Lemma mem_has_whole pre bs post :
  mem_has (pre ++ bs ++ post) (Z.of_nat (length pre)) bs.
Proof. intros i Hi. rewrite mem_at_app_r by lia. apply mem_at_app_l. lia. Qed.

Lemma mem_has_Forall (P : Z -> Prop) mem p bs q :
  mem_has mem p bs -> Forall P bs -> p <= q < p + Z.of_nat (length bs) ->
  P (mem_at mem q).
Proof.
  intros H HP Hq. replace q with (p + (q - p)) by lia. rewrite H by lia.
  apply mem_at_Forall; [done|lia].
Qed.

Lemma slice_length mem a b :
  0 <= a -> b <= Z.of_nat (length mem) ->
  Z.of_nat (length (slice mem a b)) = Z.max 0 (b - a).
Proof. intros. unfold slice. rewrite length_take, length_drop. lia. Qed.

Lemma mem_has_slice mem p bs :
  0 <= p -> p + Z.of_nat (length bs) <= Z.of_nat (length mem) ->
  mem_has mem p bs -> slice mem p (p + Z.of_nat (length bs)) = bs.
Proof.
  intros Hp Hl H. apply (nth_ext _ _ 0 0).
  - apply Nat2Z.inj. rewrite slice_length by lia. lia.
  - unfold slice. rewrite length_take, length_drop. intros n Hn.
    rewrite nth_firstn, nth_skipn. rewrite (proj2 (Nat.ltb_lt _ _)) by lia.
    specialize (H (Z.of_nat n)). unfold mem_at in H.
    destruct (Z.ltb_spec (p + Z.of_nat n) 0); [lia|].
    destruct (Z.ltb_spec (Z.of_nat n) 0); [lia|].
    rewrite Nat2Z.id in H. rewrite <- H by lia. f_equal. lia.
Qed.

(** ** Tactics *)

(** The hints of the development. *)
Create HintDb ngx.

(** Case split on every [if]/[match] of the goal, simplifying the boolean
    comparisons into propositions for [lia]. *)
Ltac zify_bool :=
  repeat match goal with
  | H : (_ && _)%bool = true |- _ => apply andb_prop in H; destruct H
  | H : (_ && _)%bool = false |- _ => apply andb_false_iff in H
  | H : (_ || _)%bool = false |- _ => apply orb_false_iff in H; destruct H
  | H : (_ || _)%bool = true |- _ => apply orb_true_iff in H
  | H : negb _ = true |- _ => apply negb_true_iff in H
  | H : negb _ = false |- _ => apply negb_false_iff in H
  | H : (_ =? _) = true |- _ => apply Z.eqb_eq in H
  | H : (_ =? _) = false |- _ => apply Z.eqb_neq in H
  | H : (_ <? _) = true |- _ => apply Z.ltb_lt in H
  | H : (_ <? _) = false |- _ => apply Z.ltb_ge in H
  | H : (_ <=? _) = true |- _ => apply Z.leb_le in H
  | H : (_ <=? _) = false |- _ => apply Z.leb_gt in H
  end.

(** Resolve one boolean test of the goal whose value [lia] can decide. *)
Ltac decide_test :=
  match goal with
  | |- context [?a =? ?b] =>
      first [ rewrite (proj2 (Z.eqb_eq a b)) by lia
            | rewrite (proj2 (Z.eqb_neq a b)) by lia ]
  | |- context [?a <? ?b] =>
      first [ rewrite (proj2 (Z.ltb_lt a b)) by lia
            | rewrite (proj2 (Z.ltb_ge a b)) by lia ]
  | |- context [?a <=? ?b] =>
      first [ rewrite (proj2 (Z.leb_le a b)) by lia
            | rewrite (proj2 (Z.leb_gt a b)) by lia ]
  end.
Ltac decide_tests := repeat (decide_test; cbn [andb orb negb]).
