(* ===== verification/HttpChars.v ===== *)
(** * Character classes of the HTTP parsers

    The bitmap [usual] of src/nginx-1.4.7/src/http/ngx_http_parse.c, the
    case-folding test [(ch | 0x20)] and the digit tests the parsers share,
    with their characterisation on every byte. *)
From S2P Require Import Prelude.

(** [http/ngx_http_parse.c:13-33] usual *)
Definition usual_table : list Z :=
  [ 0xffffdbfe; 0x7fff37d6; 0xffffffff; 0xffffffff;
    0xffffffff; 0xffffffff; 0xffffffff; 0xffffffff ].

(** [http/ngx_http_parse.c:481-481] usual[ch >> 5] & (1 << (ch & 0x1f)) *)
Definition usual (ch : Z) : bool :=
  negb (Z.land (nth (Z.to_nat (Z.shiftr ch 5)) usual_table 0)
               (Z.shiftl 1 (Z.land ch 0x1f)) =? 0).

(** [http/ngx_http_parse.c:285-286] (u_char) (ch | 0x20) *)
Definition lcase (ch : Z) : Z := u8 (Z.lor ch 0x20).

Definition is_alpha (ch : Z) : bool :=
  (C! "a" <=? lcase ch) && (lcase ch <=? C! "z").

Definition is_digit (ch : Z) : bool := (C! "0" <=? ch) && (ch <=? C! "9").

(** The method alphabet: [A-Z] and [_]. *)
Definition is_method_char (ch : Z) : bool :=
  negb (((ch <? C! "A") || (C! "Z" <? ch)) && negb (ch =? C! "_")).

(** A property of bytes that a boolean test decides holds of all of them when
    it holds of the 256 values. *)
Lemma byte_forall (P : Z -> bool) (ch : Z) :
  forallb (fun n => P (Z.of_nat n)) (seq 0 256) = true ->
  is_byte ch -> P ch = true.
Proof.
  intros H Hb. rewrite forallb_forall in H.
  specialize (H (Z.to_nat ch)). rewrite Z2Nat.id in H by (unfold is_byte in Hb; lia).
  apply H, in_seq. unfold is_byte in Hb. lia.
Qed.

(** The ten characters that the bitmap excludes. *)
Definition special (ch : Z) : bool :=
  (ch =? 0) || (ch =? LF) || (ch =? CR) || (ch =? C! " ") || (ch =? C! "#")
  || (ch =? C! "%") || (ch =? C! "+") || (ch =? C! ".") || (ch =? C! "/")
  || (ch =? C! "?").

Lemma usual_spec ch : is_byte ch -> usual ch = negb (special ch).
Proof.
  intros H. apply eqb_prop.
  by apply (byte_forall (fun ch => Bool.eqb (usual ch) (negb (special ch)))).
Qed.

Lemma is_alpha_spec ch :
  is_byte ch ->
  is_alpha ch = ((C! "A" <=? ch) && (ch <=? C! "Z"))
                || ((C! "a" <=? ch) && (ch <=? C! "z")).
Proof.
  intros H. apply eqb_prop.
  by apply (byte_forall (fun ch => Bool.eqb (is_alpha ch) (((C! "A" <=? ch) && (ch <=? C! "Z"))
                || ((C! "a" <=? ch) && (ch <=? C! "z"))))).
Qed.
