(* ===== verification/HttpRequestLine.v ===== *)
(** * The request line parser

    [ngx_http_parse_request_line] of src/nginx-1.4.7/src/http/ngx_http_parse.c:
    a byte-at-a-time state machine that can be suspended at the end of any
    buffer ([NGX_AGAIN]) and resumed when more bytes have arrived.  Every
    [case] of its switch is one definition; the loop is the [for_loop] of the
    prelude. *)
From S2P Require Import Prelude HttpChars.

Module RL.

(** [http/ngx_http_parse.c:107-135] the states of the parser *)
Inductive rl_sw : Type :=
| sw_start | sw_method | sw_spaces_before_uri | sw_schema | sw_schema_slash
| sw_schema_slash_slash | sw_host_start | sw_host | sw_host_end
| sw_host_ip_literal | sw_port | sw_host_http_09 | sw_after_slash_in_uri
| sw_check_uri | sw_check_uri_http_09 | sw_uri | sw_http_09 | sw_http_H
| sw_http_HT | sw_http_HTT | sw_http_HTTP | sw_first_major_digit
| sw_major_digit | sw_first_minor_digit | sw_minor_digit
| sw_spaces_after_digit | sw_almost_done.

End RL.
Import RL.

(** ** Constants of src/nginx-1.4.7/src/http/ngx_http_request.h *)

Abbreviation NGX_HTTP_UNKNOWN := 0x0001.
Abbreviation NGX_HTTP_GET := 0x0002.
Abbreviation NGX_HTTP_HEAD := 0x0004.
Abbreviation NGX_HTTP_POST := 0x0008.
Abbreviation NGX_HTTP_PUT := 0x0010.
Abbreviation NGX_HTTP_DELETE := 0x0020.
Abbreviation NGX_HTTP_MKCOL := 0x0040.
Abbreviation NGX_HTTP_COPY := 0x0080.
Abbreviation NGX_HTTP_MOVE := 0x0100.
Abbreviation NGX_HTTP_OPTIONS := 0x0200.
Abbreviation NGX_HTTP_PROPFIND := 0x0400.
Abbreviation NGX_HTTP_PROPPATCH := 0x0800.
Abbreviation NGX_HTTP_LOCK := 0x1000.
Abbreviation NGX_HTTP_UNLOCK := 0x2000.
Abbreviation NGX_HTTP_PATCH := 0x4000.
Abbreviation NGX_HTTP_TRACE := 0x8000.

Abbreviation NGX_HTTP_PARSE_INVALID_METHOD := 10.
Abbreviation NGX_HTTP_PARSE_INVALID_REQUEST := 11.
Abbreviation NGX_HTTP_PARSE_INVALID_09_METHOD := 12.

(** ** State *)

(** The fields of [ngx_http_request_t] the parser reads and writes;
    [http_major] and [http_minor] are 16-bit bit-fields.  The field [state],
    an integer that every parser of the file reads as its own enumeration, is
    kept beside the record with the type of the parser.
    [http/ngx_http_request.h:537-568] ngx_http_request_s *)
Record request : Type := {
  method : Z;
  request_start : ptr;
  request_end : ptr;
  method_end : ptr;
  uri_start : ptr;
  uri_end : ptr;
  uri_ext : ptr;
  args_start : ptr;
  schema_start : ptr;
  schema_end : ptr;
  host_start : ptr;
  host_end : ptr;
  port_end : ptr;
  http_protocol : ptr;
  http_major : Z;
  http_minor : Z;
  http_version : Z;
  complex_uri : bool;
  quoted_uri : bool;
  plus_in_uri : bool;
  space_in_uri : bool
}.

(** The zeroed request [ngx_http_create_request] hands to the parser.
    [http/ngx_http_request.c:559-559] r->method = NGX_HTTP_UNKNOWN *)
Definition request_init : request := {|
  method := NGX_HTTP_UNKNOWN;
  request_start := NULL; request_end := NULL; method_end := NULL;
  uri_start := NULL; uri_end := NULL; uri_ext := NULL; args_start := NULL;
  schema_start := NULL; schema_end := NULL; host_start := NULL;
  host_end := NULL; port_end := NULL; http_protocol := NULL;
  http_major := 0; http_minor := 0; http_version := 0;
  complex_uri := false; quoted_uri := false; plus_in_uri := false;
  space_in_uri := false |}.

(** [core/ngx_buf.h:20-22] ngx_buf_s: the memory with [pos] and [last] *)
Record buf : Type := { b_mem : list Z; b_pos : Z; b_last : Z }.

(** The two ways to leave the loop: [goto done] and [return rc]. *)
Inductive rl_exit : Type := RlDone | RlReturn (rc : Z).

Abbreviation rl_action := (action (rl_sw * request) rl_exit).

(** ** Method recognition

    [m[i]] reads the buffer at [m + i]. *)

(** [http/ngx_http_parse.c:70-71] ngx_str3_cmp *)
Definition ngx_str3_cmp (mem : list Z) (m c0 c1 c2 c3 : Z) : bool :=
  (mem_at mem m =? c0) && (mem_at mem (m + 1) =? c1) && (mem_at mem (m + 2) =? c2).

(** [http/ngx_http_parse.c:73-74] ngx_str3Ocmp *)
Definition ngx_str3Ocmp (mem : list Z) (m c0 c1 c2 c3 : Z) : bool :=
  (mem_at mem m =? c0) && (mem_at mem (m + 2) =? c2) && (mem_at mem (m + 3) =? c3).

(** [http/ngx_http_parse.c:76-77] ngx_str4cmp *)
Definition ngx_str4cmp (mem : list Z) (m c0 c1 c2 c3 : Z) : bool :=
  (mem_at mem m =? c0) && (mem_at mem (m + 1) =? c1)
  && (mem_at mem (m + 2) =? c2) && (mem_at mem (m + 3) =? c3).

(** [http/ngx_http_parse.c:79-80] ngx_str5cmp *)
Definition ngx_str5cmp (mem : list Z) (m c0 c1 c2 c3 c4 : Z) : bool :=
  ngx_str4cmp mem m c0 c1 c2 c3 && (mem_at mem (m + 4) =? c4).

(** [http/ngx_http_parse.c:82-84] ngx_str6cmp *)
Definition ngx_str6cmp (mem : list Z) (m c0 c1 c2 c3 c4 c5 : Z) : bool :=
  ngx_str4cmp mem m c0 c1 c2 c3
  && (mem_at mem (m + 4) =? c4) && (mem_at mem (m + 5) =? c5).

(** [http/ngx_http_parse.c:86-88] ngx_str7_cmp *)
Definition ngx_str7_cmp (mem : list Z) (m c0 c1 c2 c3 c4 c5 c6 c7 : Z) : bool :=
  ngx_str4cmp mem m c0 c1 c2 c3
  && (mem_at mem (m + 4) =? c4) && (mem_at mem (m + 5) =? c5)
  && (mem_at mem (m + 6) =? c6).

(** [http/ngx_http_parse.c:90-92] ngx_str8cmp *)
Definition ngx_str8cmp (mem : list Z) (m c0 c1 c2 c3 c4 c5 c6 c7 : Z) : bool :=
  ngx_str4cmp mem m c0 c1 c2 c3
  && (mem_at mem (m + 4) =? c4) && (mem_at mem (m + 5) =? c5)
  && (mem_at mem (m + 6) =? c6) && (mem_at mem (m + 7) =? c7).

(** [http/ngx_http_parse.c:94-96] ngx_str9cmp *)
Definition ngx_str9cmp (mem : list Z) (m c0 c1 c2 c3 c4 c5 c6 c7 c8 : Z) : bool :=
  ngx_str8cmp mem m c0 c1 c2 c3 c4 c5 c6 c7 && (mem_at mem (m + 8) =? c8).

(** The [uint32_t] at [m], on a little-endian machine. *)
Definition load32 (mem : list Z) (m : Z) : Z :=
  mem_at mem m + mem_at mem (m + 1) * 2 ^ 8 + mem_at mem (m + 2) * 2 ^ 16
  + mem_at mem (m + 3) * 2 ^ 24.

(** [(c3 << 24) | (c2 << 16) | (c1 << 8) | c0] *)
Definition pack32 (c0 c1 c2 c3 : Z) : Z :=
  Z.lor (Z.lor (Z.lor (Z.shiftl c3 24) (Z.shiftl c2 16)) (Z.shiftl c1 8)) c0.

(** The comparisons the [switch] uses, in the two versions of the source: by
    bytes, and by 32-bit words where unaligned loads are cheap. *)
Record method_cmp : Type := {
  str3_cmp : Z -> Z -> Z -> Z -> Z -> bool;
  str3Ocmp : Z -> Z -> Z -> Z -> Z -> bool;
  str4cmp : Z -> Z -> Z -> Z -> Z -> bool;
  str5cmp : Z -> Z -> Z -> Z -> Z -> Z -> bool;
  str6cmp : Z -> Z -> Z -> Z -> Z -> Z -> Z -> bool;
  str7_cmp : Z -> Z -> Z -> Z -> Z -> Z -> Z -> Z -> Z -> bool;
  str8cmp : Z -> Z -> Z -> Z -> Z -> Z -> Z -> Z -> Z -> bool;
  str9cmp : Z -> Z -> Z -> Z -> Z -> Z -> Z -> Z -> Z -> Z -> bool
}.

(** [http/ngx_http_parse.c:68-98] the portable macros *)
Definition portable_cmp (mem : list Z) : method_cmp := {|
  str3_cmp := ngx_str3_cmp mem; str3Ocmp := ngx_str3Ocmp mem;
  str4cmp := ngx_str4cmp mem; str5cmp := ngx_str5cmp mem;
  str6cmp := ngx_str6cmp mem; str7_cmp := ngx_str7_cmp mem;
  str8cmp := ngx_str8cmp mem; str9cmp := ngx_str9cmp mem |}.

(** [http/ngx_http_parse.c:36-66] the macros under
    NGX_HAVE_LITTLE_ENDIAN && NGX_HAVE_NONALIGNED *)
Definition little_endian_cmp (mem : list Z) : method_cmp :=
  let w32 m c0 c1 c2 c3 := load32 mem m =? pack32 c0 c1 c2 c3 in {|
  str3_cmp := w32; str3Ocmp := w32; str4cmp := w32;
  str5cmp m c0 c1 c2 c3 c4 := w32 m c0 c1 c2 c3 && (mem_at mem (m + 4) =? c4);
  str6cmp m c0 c1 c2 c3 c4 c5 :=
    w32 m c0 c1 c2 c3 &&
    (Z.land (load32 mem (m + 4)) 0xffff =? Z.lor (Z.shiftl c5 8) c4);
  str7_cmp m c0 c1 c2 c3 c4 c5 c6 c7 := w32 m c0 c1 c2 c3 && w32 (m + 4) c4 c5 c6 c7;
  str8cmp m c0 c1 c2 c3 c4 c5 c6 c7 := w32 m c0 c1 c2 c3 && w32 (m + 4) c4 c5 c6 c7;
  str9cmp m c0 c1 c2 c3 c4 c5 c6 c7 c8 :=
    w32 m c0 c1 c2 c3 && w32 (m + 4) c4 c5 c6 c7 && (mem_at mem (m + 8) =? c8) |}.

(** The [switch (p - m)] of [sw_method]: the new value of [r->method], which
    keeps its value [old] when no name matches.
    [http/ngx_http_parse.c:164-266] switch (p - m) *)
Definition rl_method_with (K : method_cmp) (mem : list Z) (m p old : Z) : Z :=
  if p - m =? 3 then
    if str3_cmp K m (C! "G") (C! "E") (C! "T") (C! " ") then NGX_HTTP_GET
    else if str3_cmp K m (C! "P") (C! "U") (C! "T") (C! " ") then NGX_HTTP_PUT
    else old
  else if p - m =? 4 then
    if mem_at mem (m + 1) =? C! "O" then
      if str3Ocmp K m (C! "P") (C! "O") (C! "S") (C! "T") then NGX_HTTP_POST
      else if str3Ocmp K m (C! "C") (C! "O") (C! "P") (C! "Y") then NGX_HTTP_COPY
      else if str3Ocmp K m (C! "M") (C! "O") (C! "V") (C! "E") then NGX_HTTP_MOVE
      else if str3Ocmp K m (C! "L") (C! "O") (C! "C") (C! "K") then NGX_HTTP_LOCK
      else old
    else if str4cmp K m (C! "H") (C! "E") (C! "A") (C! "D") then NGX_HTTP_HEAD
    else old
  else if p - m =? 5 then
    let r1 := if str5cmp K m (C! "M") (C! "K") (C! "C") (C! "O") (C! "L")
              then NGX_HTTP_MKCOL else old in
    let r2 := if str5cmp K m (C! "P") (C! "A") (C! "T") (C! "C") (C! "H")
              then NGX_HTTP_PATCH else r1 in
    if str5cmp K m (C! "T") (C! "R") (C! "A") (C! "C") (C! "E")
    then NGX_HTTP_TRACE else r2
  else if p - m =? 6 then
    if str6cmp K m (C! "D") (C! "E") (C! "L") (C! "E") (C! "T") (C! "E")
    then NGX_HTTP_DELETE
    else if str6cmp K m (C! "U") (C! "N") (C! "L") (C! "O") (C! "C") (C! "K")
    then NGX_HTTP_UNLOCK
    else old
  else if p - m =? 7 then
    if str7_cmp K m (C! "O") (C! "P") (C! "T") (C! "I") (C! "O") (C! "N") (C! "S") (C! " ")
    then NGX_HTTP_OPTIONS else old
  else if p - m =? 8 then
    if str8cmp K m (C! "P") (C! "R") (C! "O") (C! "P") (C! "F") (C! "I") (C! "N") (C! "D")
    then NGX_HTTP_PROPFIND else old
  else if p - m =? 9 then
    if str9cmp K m (C! "P") (C! "R") (C! "O") (C! "P") (C! "P") (C! "A") (C! "T") (C! "C") (C! "H")
    then NGX_HTTP_PROPPATCH else old
  else old.

Definition rl_method (mem : list Z) : Z -> Z -> Z -> Z :=
  rl_method_with (portable_cmp mem) mem.

(** ** The cases of the switch *)

(** [http/ngx_http_parse.c:145-157] case sw_start *)
Definition rl_sw_start (p ch : Z) (r : request) : rl_action :=
  let r := {| r with request_start := Some p |} in
  if (ch =? CR) || (ch =? LF) then Next (sw_start, r)
  else if ((ch <? C! "A") || (C! "Z" <? ch)) && negb (ch =? C! "_")
  then Exit (RlReturn NGX_HTTP_PARSE_INVALID_METHOD) (sw_start, r)
  else Next (sw_method, r).

(** [http/ngx_http_parse.c:159-274] case sw_method *)
Definition rl_sw_method (mem : list Z) (p ch : Z) (r : request) : rl_action :=
  if ch =? C! " " then
    let r := {| r with method_end := Some (p - 1) |} in
    let m := default 0 (request_start r) in
    Next (sw_spaces_before_uri, {| r with method := rl_method mem m p (method r) |})
  else if ((ch <? C! "A") || (C! "Z" <? ch)) && negb (ch =? C! "_")
  then Exit (RlReturn NGX_HTTP_PARSE_INVALID_METHOD) (sw_method, r)
  else Next (sw_method, r).

(** [http/ngx_http_parse.c:277-298] case sw_spaces_before_uri *)
Definition rl_sw_spaces_before_uri (p ch : Z) (r : request) : rl_action :=
  if ch =? C! "/" then Next (sw_after_slash_in_uri, {| r with uri_start := Some p |})
  else if is_alpha ch then Next (sw_schema, {| r with schema_start := Some p |})
  else if ch =? C! " " then Next (sw_spaces_before_uri, r)
  else Exit (RlReturn NGX_HTTP_PARSE_INVALID_REQUEST) (sw_spaces_before_uri, r).

(** [http/ngx_http_parse.c:300-315] case sw_schema *)
Definition rl_sw_schema (p ch : Z) (r : request) : rl_action :=
  if is_alpha ch then Next (sw_schema, r)
  else if ch =? C! ":" then Next (sw_schema_slash, {| r with schema_end := Some p |})
  else Exit (RlReturn NGX_HTTP_PARSE_INVALID_REQUEST) (sw_schema, r).

(** A state in which exactly one byte is accepted: the two slashes after the
    schema and the letters of HTTP/. *)
Definition rl_expect (from : rl_sw) (c : Z) (to : rl_sw)
    (ch : Z) (r : request) : rl_action :=
  if ch =? c then Next (to, r)
  else Exit (RlReturn NGX_HTTP_PARSE_INVALID_REQUEST) (from, r).

(** [http/ngx_http_parse.c:317-325] case sw_schema_slash *)
Definition rl_sw_schema_slash := rl_expect sw_schema_slash (C! "/") sw_schema_slash_slash.

(** [http/ngx_http_parse.c:327-335] case sw_schema_slash_slash *)
Definition rl_sw_schema_slash_slash :=
  rl_expect sw_schema_slash_slash (C! "/") sw_host_start.

(** [http/ngx_http_parse.c:363-387] case sw_host_end *)
Definition rl_sw_host_end (st : rl_sw) (p ch : Z) (r : request) : rl_action :=
  let r := {| r with host_end := Some p |} in
  if ch =? C! ":" then Next (sw_port, r)
  else if ch =? C! "/" then Next (sw_after_slash_in_uri, {| r with uri_start := Some p |})
  else if ch =? C! " " then
    Next (sw_host_http_09,
          {| r with uri_start := ptr_add (schema_end r) 1;
                    uri_end := ptr_add (schema_end r) 2 |})
  else Exit (RlReturn NGX_HTTP_PARSE_INVALID_REQUEST) (st, r).

(** [http/ngx_http_parse.c:350-361] case sw_host, which falls through into
    sw_host_end *)
Definition rl_sw_host (p ch : Z) (r : request) : rl_action :=
  if is_alpha ch then Next (sw_host, r)
  else if is_digit ch || (ch =? C! ".") || (ch =? C! "-") then Next (sw_host, r)
  else rl_sw_host_end sw_host p ch r.

(** [http/ngx_http_parse.c:337-348] case sw_host_start, which falls through
    into sw_host *)
Definition rl_sw_host_start (p ch : Z) (r : request) : rl_action :=
  let r := {| r with host_start := Some p |} in
  if ch =? C! "[" then Next (sw_host_ip_literal, r) else rl_sw_host p ch r.

(** [http/ngx_http_parse.c:389-428] case sw_host_ip_literal *)
Definition rl_sw_host_ip_literal (p ch : Z) (r : request) : rl_action :=
  if is_digit ch then Next (sw_host_ip_literal, r)
  else if is_alpha ch then Next (sw_host_ip_literal, r)
  else if ch =? C! ":" then Next (sw_host_ip_literal, r)
  else if ch =? C! "]" then Next (sw_host_end, r)
  else if (ch =? C! "-") || (ch =? C! ".") || (ch =? C! "_") || (ch =? C! "~")
  then Next (sw_host_ip_literal, r)
  else if (ch =? C! "!") || (ch =? C! "$") || (ch =? C! "&") || (ch =? C! "'")
       || (ch =? C! "(") || (ch =? C! ")") || (ch =? C! "*") || (ch =? C! "+")
       || (ch =? C! ",") || (ch =? C! ";") || (ch =? C! "=")
  then Next (sw_host_ip_literal, r)
  else Exit (RlReturn NGX_HTTP_PARSE_INVALID_REQUEST) (sw_host_ip_literal, r).

(** [http/ngx_http_parse.c:430-454] case sw_port *)
Definition rl_sw_port (p ch : Z) (r : request) : rl_action :=
  if is_digit ch then Next (sw_port, r)
  else if ch =? C! "/" then
    Next (sw_after_slash_in_uri, {| r with port_end := Some p; uri_start := Some p |})
  else if ch =? C! " " then
    Next (sw_host_http_09,
          {| r with port_end := Some p;
                    uri_start := ptr_add (schema_end r) 1;
                    uri_end := ptr_add (schema_end r) 2 |})
  else Exit (RlReturn NGX_HTTP_PARSE_INVALID_REQUEST) (sw_port, r).

(** [http/ngx_http_parse.c:457-475] case sw_host_http_09 *)
Definition rl_sw_host_http_09 (p ch : Z) (r : request) : rl_action :=
  if ch =? C! " " then Next (sw_host_http_09, r)
  else if ch =? CR then Next (sw_almost_done, {| r with http_minor := 9 |})
  else if ch =? LF then Exit RlDone (sw_host_http_09, {| r with http_minor := 9 |})
  else if ch =? C! "H" then Next (sw_http_H, {| r with http_protocol := Some p |})
  else Exit (RlReturn NGX_HTTP_PARSE_INVALID_REQUEST) (sw_host_http_09, r).

(** [http/ngx_http_parse.c:479-535] case sw_after_slash_in_uri *)
Definition rl_sw_after_slash_in_uri (p ch : Z) (r : request) : rl_action :=
  if usual ch then Next (sw_check_uri, r)
  else if ch =? C! " " then Next (sw_check_uri_http_09, {| r with uri_end := Some p |})
  else if ch =? CR then
    Next (sw_almost_done, {| r with uri_end := Some p; http_minor := 9 |})
  else if ch =? LF then
    Exit RlDone (sw_after_slash_in_uri, {| r with uri_end := Some p; http_minor := 9 |})
  else if ch =? C! "." then Next (sw_uri, {| r with complex_uri := true |})
  else if ch =? C! "%" then Next (sw_uri, {| r with quoted_uri := true |})
  else if ch =? C! "/" then Next (sw_uri, {| r with complex_uri := true |})
  else if ch =? C! "?" then Next (sw_uri, {| r with args_start := Some (p + 1) |})
  else if ch =? C! "#" then Next (sw_uri, {| r with complex_uri := true |})
  else if ch =? C! "+" then Next (sw_after_slash_in_uri, {| r with plus_in_uri := true |})
  else if ch =? 0 then
    Exit (RlReturn NGX_HTTP_PARSE_INVALID_REQUEST) (sw_after_slash_in_uri, r)
  else Next (sw_check_uri, r).

(** [http/ngx_http_parse.c:538-596] case sw_check_uri *)
Definition rl_sw_check_uri (p ch : Z) (r : request) : rl_action :=
  if usual ch then Next (sw_check_uri, r)
  else if ch =? C! "/" then Next (sw_after_slash_in_uri, {| r with uri_ext := NULL |})
  else if ch =? C! "." then Next (sw_check_uri, {| r with uri_ext := Some (p + 1) |})
  else if ch =? C! " " then Next (sw_check_uri_http_09, {| r with uri_end := Some p |})
  else if ch =? CR then
    Next (sw_almost_done, {| r with uri_end := Some p; http_minor := 9 |})
  else if ch =? LF then
    Exit RlDone (sw_check_uri, {| r with uri_end := Some p; http_minor := 9 |})
  else if ch =? C! "%" then Next (sw_uri, {| r with quoted_uri := true |})
  else if ch =? C! "?" then Next (sw_uri, {| r with args_start := Some (p + 1) |})
  else if ch =? C! "#" then Next (sw_uri, {| r with complex_uri := true |})
  else if ch =? C! "+" then Next (sw_check_uri, {| r with plus_in_uri := true |})
  else if ch =? 0 then Exit (RlReturn NGX_HTTP_PARSE_INVALID_REQUEST) (sw_check_uri, r)
  else Next (sw_check_uri, r).

(** The [p--] of the default branch makes the loop read the same byte again
    in state sw_check_uri.
    [http/ngx_http_parse.c:599-620] case sw_check_uri_http_09 *)
Definition rl_sw_check_uri_http_09 (p ch : Z) (r : request) : rl_action :=
  if ch =? C! " " then Next (sw_check_uri_http_09, r)
  else if ch =? CR then Next (sw_almost_done, {| r with http_minor := 9 |})
  else if ch =? LF then Exit RlDone (sw_check_uri_http_09, {| r with http_minor := 9 |})
  else if ch =? C! "H" then Next (sw_http_H, {| r with http_protocol := Some p |})
  else rl_sw_check_uri p ch {| r with space_in_uri := true |}.

(** [http/ngx_http_parse.c:624-650] case sw_uri *)
Definition rl_sw_uri (p ch : Z) (r : request) : rl_action :=
  if usual ch then Next (sw_uri, r)
  else if ch =? C! " " then Next (sw_http_09, {| r with uri_end := Some p |})
  else if ch =? CR then
    Next (sw_almost_done, {| r with uri_end := Some p; http_minor := 9 |})
  else if ch =? LF then
    Exit RlDone (sw_uri, {| r with uri_end := Some p; http_minor := 9 |})
  else if ch =? C! "#" then Next (sw_uri, {| r with complex_uri := true |})
  else if ch =? 0 then Exit (RlReturn NGX_HTTP_PARSE_INVALID_REQUEST) (sw_uri, r)
  else Next (sw_uri, r).

(** As in sw_check_uri_http_09, [p--] reads the byte again, in state sw_uri.
    [http/ngx_http_parse.c:653-674] case sw_http_09 *)
Definition rl_sw_http_09 (p ch : Z) (r : request) : rl_action :=
  if ch =? C! " " then Next (sw_http_09, r)
  else if ch =? CR then Next (sw_almost_done, {| r with http_minor := 9 |})
  else if ch =? LF then Exit RlDone (sw_http_09, {| r with http_minor := 9 |})
  else if ch =? C! "H" then Next (sw_http_H, {| r with http_protocol := Some p |})
  else rl_sw_uri p ch {| r with space_in_uri := true |}.

(** [http/ngx_http_parse.c:676-684] case sw_http_H *)
Definition rl_sw_http_H := rl_expect sw_http_H (C! "T") sw_http_HT.

(** [http/ngx_http_parse.c:686-694] case sw_http_HT *)
Definition rl_sw_http_HT := rl_expect sw_http_HT (C! "T") sw_http_HTT.

(** [http/ngx_http_parse.c:696-704] case sw_http_HTT *)
Definition rl_sw_http_HTT := rl_expect sw_http_HTT (C! "P") sw_http_HTTP.

(** [http/ngx_http_parse.c:706-714] case sw_http_HTTP *)
Definition rl_sw_http_HTTP := rl_expect sw_http_HTTP (C! "/") sw_first_major_digit.

(** [http/ngx_http_parse.c:717-724] case sw_first_major_digit *)
Definition rl_sw_first_major_digit (ch : Z) (r : request) : rl_action :=
  if (ch <? C! "1") || (C! "9" <? ch)
  then Exit (RlReturn NGX_HTTP_PARSE_INVALID_REQUEST) (sw_first_major_digit, r)
  else Next (sw_major_digit, {| r with http_major := u16 (ch - C! "0") |}).

(** [http/ngx_http_parse.c:727-738] case sw_major_digit *)
Definition rl_sw_major_digit (ch : Z) (r : request) : rl_action :=
  if ch =? C! "." then Next (sw_first_minor_digit, r)
  else if (ch <? C! "0") || (C! "9" <? ch)
  then Exit (RlReturn NGX_HTTP_PARSE_INVALID_REQUEST) (sw_major_digit, r)
  else Next (sw_major_digit,
             {| r with http_major := u16 (http_major r * 10 + ch - C! "0") |}).

(** [http/ngx_http_parse.c:741-748] case sw_first_minor_digit *)
Definition rl_sw_first_minor_digit (ch : Z) (r : request) : rl_action :=
  if (ch <? C! "0") || (C! "9" <? ch)
  then Exit (RlReturn NGX_HTTP_PARSE_INVALID_REQUEST) (sw_first_minor_digit, r)
  else Next (sw_minor_digit, {| r with http_minor := u16 (ch - C! "0") |}).

(** [http/ngx_http_parse.c:751-771] case sw_minor_digit *)
Definition rl_sw_minor_digit (ch : Z) (r : request) : rl_action :=
  if ch =? CR then Next (sw_almost_done, r)
  else if ch =? LF then Exit RlDone (sw_minor_digit, r)
  else if ch =? C! " " then Next (sw_spaces_after_digit, r)
  else if (ch <? C! "0") || (C! "9" <? ch)
  then Exit (RlReturn NGX_HTTP_PARSE_INVALID_REQUEST) (sw_minor_digit, r)
  else Next (sw_minor_digit,
             {| r with http_minor := u16 (http_minor r * 10 + ch - C! "0") |}).

(** [http/ngx_http_parse.c:773-785] case sw_spaces_after_digit *)
Definition rl_sw_spaces_after_digit (ch : Z) (r : request) : rl_action :=
  if ch =? C! " " then Next (sw_spaces_after_digit, r)
  else if ch =? CR then Next (sw_almost_done, r)
  else if ch =? LF then Exit RlDone (sw_spaces_after_digit, r)
  else Exit (RlReturn NGX_HTTP_PARSE_INVALID_REQUEST) (sw_spaces_after_digit, r).

(** [http/ngx_http_parse.c:788-795] case sw_almost_done *)
Definition rl_sw_almost_done (p ch : Z) (r : request) : rl_action :=
  let r := {| r with request_end := Some (p - 1) |} in
  if ch =? LF then Exit RlDone (sw_almost_done, r)
  else Exit (RlReturn NGX_HTTP_PARSE_INVALID_REQUEST) (sw_almost_done, r).

(** One iteration of the loop.
    [http/ngx_http_parse.c:139-144] switch (state) *)
Definition rl_step (mem : list Z) (p : Z) (s : rl_sw * request) : rl_action :=
  let ch := mem_at mem p in
  let r := s.2 in
  match s.1 with
  | sw_start => rl_sw_start p ch r
  | sw_method => rl_sw_method mem p ch r
  | sw_spaces_before_uri => rl_sw_spaces_before_uri p ch r
  | sw_schema => rl_sw_schema p ch r
  | sw_schema_slash => rl_sw_schema_slash ch r
  | sw_schema_slash_slash => rl_sw_schema_slash_slash ch r
  | sw_host_start => rl_sw_host_start p ch r
  | sw_host => rl_sw_host p ch r
  | sw_host_end => rl_sw_host_end sw_host_end p ch r
  | sw_host_ip_literal => rl_sw_host_ip_literal p ch r
  | sw_port => rl_sw_port p ch r
  | sw_host_http_09 => rl_sw_host_http_09 p ch r
  | sw_after_slash_in_uri => rl_sw_after_slash_in_uri p ch r
  | sw_check_uri => rl_sw_check_uri p ch r
  | sw_check_uri_http_09 => rl_sw_check_uri_http_09 p ch r
  | sw_uri => rl_sw_uri p ch r
  | sw_http_09 => rl_sw_http_09 p ch r
  | sw_http_H => rl_sw_http_H ch r
  | sw_http_HT => rl_sw_http_HT ch r
  | sw_http_HTT => rl_sw_http_HTT ch r
  | sw_http_HTTP => rl_sw_http_HTTP ch r
  | sw_first_major_digit => rl_sw_first_major_digit ch r
  | sw_major_digit => rl_sw_major_digit ch r
  | sw_first_minor_digit => rl_sw_first_minor_digit ch r
  | sw_minor_digit => rl_sw_minor_digit ch r
  | sw_spaces_after_digit => rl_sw_spaces_after_digit ch r
  | sw_almost_done => rl_sw_almost_done p ch r
  end.

(** The code at the label [done].
    [http/ngx_http_parse.c:804-819] done *)
Definition rl_done (p : Z) (r : request) : Z * request :=
  let r := match request_end r with
           | None => {| r with request_end := Some p |}
           | Some _ => r
           end in
  let r := {| r with http_version := http_major r * 1000 + http_minor r |} in
  ((if (http_version r =? 9) && negb (method r =? NGX_HTTP_GET)
    then NGX_HTTP_PARSE_INVALID_09_METHOD else NGX_OK), r).

(** What a call leaves behind: the return code, the saved [r->state], the
    request and the buffer. *)
Record rl_result : Type := {
  rl_rc : Z; rl_state : rl_sw; rl_request : request; rl_buf : buf
}.

(** The code after the loop: suspended, an error, or done.
    [http/ngx_http_parse.c:799-820] ngx_http_parse_request_line *)
Definition rl_finish (state : rl_sw) (b : buf)
    (e : loop_end (rl_sw * request) rl_exit) : rl_result :=
  match e with
  | Ran p (st, r) =>
      {| rl_rc := NGX_AGAIN; rl_state := st; rl_request := r;
         rl_buf := {| b with b_pos := p |} |}
  | Broke (RlReturn rc) _ (_, r) =>
      {| rl_rc := rc; rl_state := state; rl_request := r; rl_buf := b |}
  | Broke RlDone p (_, r) =>
      let '(rc, r') := rl_done p r in
      {| rl_rc := rc; rl_state := sw_start; rl_request := r';
         rl_buf := {| b with b_pos := p + 1 |} |}
  end.

(** [http/ngx_http_parse.c:103-820] ngx_http_parse_request_line *)
Definition ngx_http_parse_request_line (state : rl_sw) (r : request) (b : buf)
    : rl_result :=
  rl_finish state b
    (for_loop (rl_step (b_mem b)) (Z.to_nat (b_last b - b_pos b)) (b_pos b) (state, r)).

Example rl_get :
  let mem := B! "GET /a.txt?x=1 HTTP/1.1" ++ [CR; LF] in
  let x := ngx_http_parse_request_line sw_start request_init
     {| b_mem := mem; b_pos := 0; b_last := Z.of_nat (length mem) |} in
  let r := rl_request x in
  (rl_rc x, method r, uri_start r, uri_end r, args_start r, http_version r, b_pos (rl_buf x))
  = (NGX_OK, NGX_HTTP_GET, Some 4, Some 14, Some 11, 1001, 25).
Proof. vm_compute. reflexivity. Qed.


#[local] Arguments rl_done : simpl never.

(** The definition of the case at hand, unfolded. *)
Ltac rl_unfold :=
  unfold rl_sw_check_uri_http_09, rl_sw_http_09, rl_sw_host_start;
  unfold rl_sw_start, rl_sw_method, rl_sw_spaces_before_uri, rl_sw_schema,
    rl_sw_schema_slash, rl_sw_schema_slash_slash, rl_sw_host,
    rl_sw_host_ip_literal, rl_sw_port, rl_sw_host_http_09,
    rl_sw_after_slash_in_uri, rl_sw_check_uri, rl_sw_uri, rl_sw_http_H,
    rl_sw_http_HT, rl_sw_http_HTT, rl_sw_http_HTTP, rl_sw_first_major_digit,
    rl_sw_major_digit, rl_sw_first_minor_digit, rl_sw_minor_digit,
    rl_sw_spaces_after_digit, rl_sw_almost_done;
  unfold rl_sw_host_end, rl_expect.

(** One goal per transition of the machine. *)
Ltac rl_transitions :=
  cbn [fst snd]; rl_unfold; repeat case_match; intros; simplify_eq.

(** ** Independence from what lies after the bytes read *)

Definition mem_agree (m1 m2 : list Z) (p : Z) : Prop :=
  forall q, q < p -> mem_at m1 q = mem_at m2 q.

Lemma rl_method_agree m1 m2 m p old :
  mem_agree m1 m2 p -> rl_method m1 m p old = rl_method m2 m p old.
Proof.
  intros H. unfold rl_method, rl_method_with; cbn [portable_cmp str3_cmp str3Ocmp str4cmp
    str5cmp str6cmp str7_cmp str8cmp str9cmp]; unfold ngx_str9cmp, ngx_str8cmp, ngx_str7_cmp, ngx_str6cmp,
    ngx_str5cmp, ngx_str4cmp, ngx_str3Ocmp, ngx_str3_cmp.
  repeat match goal with
  | |- (if p - m =? ?n then _ else _) = _ =>
      destruct (Z.eqb_spec (p - m) n);
      [rewrite ?(H m), ?(H (m + 1)), ?(H (m + 2)) by lia;
       rewrite ?(H (m + 3)), ?(H (m + 4)), ?(H (m + 5)), ?(H (m + 6)), ?(H (m + 7)),
         ?(H (m + 8)) by lia; reflexivity|]
  end.
  reflexivity.
Qed.

Lemma rl_step_agree m1 m2 p s :
  mem_agree m1 m2 (p + 1) -> rl_step m1 p s = rl_step m2 p s.
Proof.
  intros H. unfold rl_step. rewrite (H p) by lia.
  destruct s as [[] r]; try reflexivity.
  cbn [fst snd]. unfold rl_sw_method. rewrite (rl_method_agree m1 m2); [done|].
  intros q Hq. apply H. lia.
Qed.

(** [return] inside the loop is always one of the two client errors. *)
Lemma rl_step_exit_rc mem p s rc s' :
  rl_step mem p s = Exit (RlReturn rc) s' -> rc = 10 \/ rc = 11.
Proof. unfold rl_step; destruct s as [[] r]; rl_transitions; auto. Qed.

Lemma rl_done_rc p r : (rl_done p r).1 = 0 \/ (rl_done p r).1 = 12.
Proof. unfold rl_done. cbn. repeat case_match; auto. Qed.

(** Two calls: one on [b1], and when it is suspended a second one on [b2],
    which holds more bytes, from where the first one stopped. *)
Definition rl_two_calls (state : rl_sw) (r : request) (b1 b2 : buf) : rl_result :=
  let first := ngx_http_parse_request_line state r b1 in
  if rl_rc first =? NGX_AGAIN
  then ngx_http_parse_request_line (rl_state first) (rl_request first)
         {| b2 with b_pos := b_pos (rl_buf first) |}
  else {| first with rl_buf := {| b2 with b_pos := b_pos (rl_buf first) |} |}.

(** C30: resuming the parser where it stopped with [NGX_AGAIN], after the buffer
    has grown, gives what one call on the grown buffer gives; and a call that
    answers gives its answer whatever follows in the buffer.  (On a client
    error [r->state] is not written, so it is not compared.) *)
Theorem request_line_resume (state : rl_sw) (r : request) (b1 b2 : buf) :
  b_pos b2 = b_pos b1 -> b_pos b1 <= b_last b1 <= b_last b2 ->
  mem_agree (b_mem b1) (b_mem b2) (b_last b1) ->
  let whole := ngx_http_parse_request_line state r b2 in
  let both := rl_two_calls state r b1 b2 in
  rl_rc both = rl_rc whole /\ rl_request both = rl_request whole /\
  (rl_rc whole = 10 \/ rl_rc whole = 11 \/ both = whole).
Proof.
  intros Hpos Hlast Hag. cbv zeta. unfold rl_two_calls, ngx_http_parse_request_line.
  set (n := Z.to_nat (b_last b1 - b_pos b1)).
  set (k := Z.to_nat (b_last b2 - b_last b1)).
  replace (Z.to_nat (b_last b2 - b_pos b2)) with (n + k)%nat by lia.
  rewrite for_loop_add, Hpos.
  rewrite <- (for_loop_ext (rl_step (b_mem b1)) (rl_step (b_mem b2)) n).
  2:{ intros q s Hq. apply rl_step_agree. intros q' Hq'. apply Hag. lia. }
  pose proof (for_loop_inv (rl_step (b_mem b1)) (fun _ _ => True) n (b_pos b1)
                (state, r)) as Hinv.
  destruct (for_loop (rl_step (b_mem b1)) n (b_pos b1) (state, r))
    as [p [st r']|x p [st r']].
  - destruct Hinv as [Hp _]; [done..|]. cbn.
    replace (Z.to_nat (b_last b2 - p)) with k by lia.
    destruct (for_loop (rl_step (b_mem b2)) k p (st, r')) as [? []|[] ? []] eqn:E;
      cbn; [by auto | by destruct rl_done; auto |].
    pose proof (for_loop_inv (rl_step (b_mem b2)) (fun _ _ => True) k p (st, r')) as Hinv.
    rewrite E in Hinv. destruct Hinv as (_ & s0 & _ & Hs); [done..|].
    apply rl_step_exit_rc in Hs. intuition auto.
  - destruct Hinv as (_ & s0 & _ & Hs); [done..|]. destruct x as [|rc]; cbn.
    + pose proof (rl_done_rc p r'). destruct (rl_done p r'); cbn in *.
      decide_tests. cbn. auto.
    + apply rl_step_exit_rc in Hs. decide_tests. cbn. intuition auto.
Qed.

Lemma request_line_resume_witness :
  let mem := B! "GET /a HTTP/1.0" ++ [CR; LF] in
  let b1 := {| b_mem := mem; b_pos := 0; b_last := 6 |} in
  let b2 := {| b_mem := mem; b_pos := 0; b_last := 17 |} in
  rl_rc (ngx_http_parse_request_line sw_start request_init b1) = NGX_AGAIN /\
  rl_request (rl_two_calls sw_start request_init b1 b2) =
  rl_request (ngx_http_parse_request_line sw_start request_init b2).
Proof.
  intros mem b1 b2. split; [reflexivity|].
  apply request_line_resume; [reflexivity|split; discriminate|intros q _; reflexivity].
Defined.

(** ** What an accepted request line guarantees *)

(** A byte that cannot end or truncate a request target. *)
Definition clean (c : Z) : Prop := c <> 0 /\ c <> LF /\ c <> CR.

Lemma usual_clean ch : usual ch = true -> clean ch.
Proof. intros H; repeat split; intros ->; vm_compute in H; discriminate. Qed.

(** [[us, ue)] holds a non-empty target that starts with a slash. *)
Definition target (mem : list Z) (us ue : Z) : Prop :=
  us < ue /\ mem_at mem us = C! "/" /\ forall q, us <= q < ue -> clean (mem_at mem q).

Lemma target_start mem p : mem_at mem p = C! "/" -> target mem p (p + 1).
Proof.
  intros H. split; [lia|]. split; [done|]. intros q Hq.
  replace q with p by lia. rewrite H. repeat split; lia.
Qed.

Lemma target_snoc mem us p :
  target mem us p -> clean (mem_at mem p) -> target mem us (p + 1).
Proof.
  intros (Hlt & Hs & Hc) Hp. split; [lia|]. split; [done|]. intros q Hq.
  destruct (Z.eq_dec q p) as [->|]; [done|]. apply Hc; lia.
Qed.

Definition ptr_within (q : ptr) (lo hi : Z) : Prop :=
  forall x, q = Some x -> lo < x <= hi.

(** [method_end] is set, after [request_start], and before [p]. *)
Definition method_read (lo : Z) (r : request) (p : Z) : Prop :=
  exists rs me, request_start r = Some rs /\ method_end r = Some me /\
    lo <= rs <= me /\ me < p.

Definition no_uri_marks (r : request) : Prop := args_start r = NULL /\ uri_ext r = NULL.

(** The schema of an absolute URI ends [k] bytes or more before [p], with the
    slashes read so far in place. *)
Definition schema_read (mem : list Z) (r : request) (k p : Z) : Prop :=
  exists me se, method_end r = Some me /\ schema_end r = Some se /\ me < se /\ se + k <= p
    /\ (2 <= k -> mem_at mem (se + 1) = C! "/").

(** The target is being read and [[uri_start, p)] is all target. *)
Definition uri_open (mem : list Z) (r : request) (p : Z) : Prop :=
  exists me us, method_end r = Some me /\ uri_start r = Some us /\ me < us /\
    target mem us p /\ ptr_within (args_start r) us p /\ ptr_within (uri_ext r) us p.

(** The target has been read: it is [[uri_start, uri_end)], below [p]. *)
Definition uri_closed (mem : list Z) (r : request) (p : Z) : Prop :=
  exists me us ue, method_end r = Some me /\ uri_start r = Some us /\ uri_end r = Some ue /\
    me < us /\ ue <= p /\ target mem us ue /\
    ptr_within (args_start r) us ue /\ ptr_within (uri_ext r) us ue.

(** The invariant of the loop: what is known in each state at position [p]. *)
Definition rl_inv (mem : list Z) (lo p : Z) (s : rl_sw * request) : Prop :=
  let r := s.2 in
  request_end r = NULL /\ lo <= p /\
  match s.1 with
  | sw_start => no_uri_marks r
  | sw_method => no_uri_marks r /\ exists rs, request_start r = Some rs /\ lo <= rs < p
  | sw_spaces_before_uri | sw_schema => method_read lo r p /\ no_uri_marks r
  | sw_schema_slash => method_read lo r p /\ no_uri_marks r /\ schema_read mem r 1 p
      /\ schema_end r = Some (p - 1)
  | sw_schema_slash_slash | sw_host_start | sw_host | sw_host_end
  | sw_host_ip_literal | sw_port =>
      method_read lo r p /\ no_uri_marks r /\ schema_read mem r 2 p
  | sw_after_slash_in_uri | sw_check_uri | sw_uri => method_read lo r p /\ uri_open mem r p
  | sw_check_uri_http_09 | sw_http_09 =>
      method_read lo r p /\ uri_open mem r p /\ uri_closed mem r p
  | sw_almost_done => method_read lo r p /\ uri_closed mem r (p - 1)
  | _ => method_read lo r p /\ uri_closed mem r p
  end.

Lemma method_read_mono lo r r' p :
  method_read lo r p ->
  request_start r' = request_start r -> method_end r' = method_end r ->
  method_read lo r' (p + 1).
Proof.
  intros (rs & me & ? & ? & ? & ?) E1 E2. exists rs, me. rewrite E1, E2.
  split_and!; done || lia.
Qed.

Lemma ptr_within_mono q lo hi hi' : ptr_within q lo hi -> hi <= hi' -> ptr_within q lo hi'.
Proof. intros H ? x Hx. specialize (H x Hx). lia. Qed.

Lemma ptr_within_some x lo hi : lo < x <= hi -> ptr_within (Some x) lo hi.
Proof. intros ? y [= <-]. done. Qed.

Lemma ptr_within_null lo hi : ptr_within NULL lo hi.
Proof. intros y [=]. Qed.

#[local] Hint Resolve ptr_within_null ptr_within_some : ngx.
#[local] Hint Extern 1 (ptr_within _ _ _) =>
  (eapply ptr_within_mono; [eassumption|lia]) : ngx.

(** Entering the target at a slash. *)
Lemma uri_open_start mem lo r r' p :
  method_read lo r p -> no_uri_marks r -> mem_at mem p = C! "/" ->
  method_end r' = method_end r -> uri_start r' = Some p ->
  args_start r' = args_start r -> uri_ext r' = uri_ext r ->
  uri_open mem r' (p + 1).
Proof.
  intros (rs & me & ? & ? & ? & ?) [Ha He] Hs E1 E2 E3 E4.
  exists me, p. rewrite E1, E2, E3, E4, Ha, He.
  split_and!; eauto using target_start with ngx lia.
Qed.

(** Reading one more byte of the target. *)
Lemma uri_open_snoc mem r r' p :
  uri_open mem r p -> clean (mem_at mem p) ->
  method_end r' = method_end r -> uri_start r' = uri_start r ->
  (args_start r' = args_start r \/ args_start r' = Some (p + 1)) ->
  (uri_ext r' = uri_ext r \/ uri_ext r' = Some (p + 1) \/ uri_ext r' = NULL) ->
  uri_open mem r' (p + 1).
Proof.
  intros (me & us & ? & ? & ? & Ht & Ha & He) Hc E1 E2 E3 E4.
  exists me, us. rewrite E1, E2.
  assert (us < p) by apply Ht.
  split_and!; try done; [by apply target_snoc|..].
  - destruct E3 as [-> | ->]; eauto with ngx lia.
  - destruct E4 as [-> | [-> | ->]]; eauto with ngx lia.
Qed.

(** The end of the target at [p]. *)
Lemma uri_open_close mem r r' p p' :
  uri_open mem r p -> p <= p' ->
  method_end r' = method_end r -> uri_start r' = uri_start r -> uri_end r' = Some p ->
  args_start r' = args_start r -> uri_ext r' = uri_ext r ->
  uri_closed mem r' p'.
Proof.
  intros (me & us & ? & ? & ? & Ht & Ha & He) Hp E1 E2 E3 E4 E5.
  exists me, us, p. rewrite E1, E2, E3, E4, E5. split_and!; done.
Qed.

Lemma uri_closed_mono mem r r' p p' :
  uri_closed mem r p -> p <= p' ->
  method_end r' = method_end r -> uri_start r' = uri_start r -> uri_end r' = uri_end r ->
  args_start r' = args_start r -> uri_ext r' = uri_ext r ->
  uri_closed mem r' p'.
Proof.
  intros (me & us & ue & ? & ? & ? & ? & ? & Ht & Ha & He) Hp E1 E2 E3 E4 E5.
  exists me, us, ue. rewrite E1, E2, E3, E4, E5. split_and!; done || lia.
Qed.

Lemma schema_read_mono mem r r' k p p' :
  schema_read mem r k p -> p <= p' -> method_end r' = method_end r ->
  schema_end r' = schema_end r -> schema_read mem r' k p'.
Proof.
  intros (me & se & ? & ? & ? & ? & ?) Hp E1 E2. exists me, se. rewrite E1, E2.
  split_and!; done || lia.
Qed.

(** The slash of the schema serves as the target of a URI without path. *)
Lemma uri_closed_schema mem r r' p :
  schema_read mem r 2 p -> no_uri_marks r ->
  method_end r' = method_end r ->
  uri_start r' = ptr_add (schema_end r) 1 -> uri_end r' = ptr_add (schema_end r) 2 ->
  args_start r' = args_start r -> uri_ext r' = uri_ext r ->
  uri_closed mem r' (p + 1).
Proof.
  intros (me & se & ? & Hse & ? & ? & Hs) [Ha He] E1 E2 E3 E4 E5.
  exists me, (se + 1), (se + 2). rewrite E1, E2, E3, E4, E5, Hse, Ha, He.
  split_and!; eauto with ngx; try (cbn; f_equal; lia); try lia.
  replace (se + 2) with (se + 1 + 1) by lia. apply target_start, Hs. lia.
Qed.

(** The byte at hand is clean when the tests of the transition say so. *)
Ltac clean_byte :=
  first [ by apply usual_clean
        | zify_bool; repeat split; lia ].

Lemma rl_inv_step mem lo p s s' :
  rl_inv mem lo p s -> rl_step mem p s = Next s' -> rl_inv mem lo (p + 1) s'.
Proof.
  intros HI. unfold rl_step. destruct s as [st r]. destruct HI as (Hre & Hlo & HI).
  cbn [fst snd] in *.
  destruct st; rl_transitions; unfold rl_inv; cbn [fst snd]; (split; [done|split; [lia|]]);
    destruct_and?; split_and?;
    try done;
    try (eapply method_read_mono; [eassumption|reflexivity..]);
    try (eapply uri_open_snoc; [eassumption|clean_byte|reflexivity|reflexivity|by auto|by auto]);
    try (eapply uri_open_close; [eassumption|lia|reflexivity..]);
    try (eapply uri_closed_mono; [eassumption|lia|reflexivity..]);
    try (eapply uri_open_start; [eassumption|eassumption|by zify_bool|reflexivity..]);
    try (eapply schema_read_mono; [eassumption|lia|reflexivity..]);
    try (eapply uri_closed_schema; [eassumption|eassumption|reflexivity..]).
  - exists p. split; [done|lia].
  - destruct select (exists _, _) as (rs & Hrs & ?).
    exists rs, (p - 1). cbn. split_and!; done || lia.
  - destruct select (exists _, _) as (rs & Hrs & ?). exists rs. split; [done|lia].
  - destruct select (method_read _ _ _) as (rs & me & Hrs & ? & ? & ?).
    exists me, p. cbn. split_and!; done || lia.
  - cbn. f_equal. lia.
  - destruct select (schema_read _ _ _ _) as (me & se & ? & Hse & ? & ? & _). exists me, se.
    assert (se = p - 1) as -> by congruence. zify_bool.
    split_and!; try done; [lia|]. intros _. by replace (p - 1 + 1) with p by lia.
Qed.

(** *** The marks of an absolute target and of the version *)

Definition all_in (P : Z -> bool) (mem : list Z) (a b : Z) : Prop :=
  forall q, a <= q < b -> P (mem_at mem q) = true.

(** The bytes of a host, or of an IP literal with its brackets. *)
Definition host_char (ch : Z) : bool :=
  is_alpha ch || is_digit ch || existsb (Z.eqb ch) (B! "[]:-._~!$&'()*+,;=").

(** No mark of an absolute target. *)
Definition no_authority (r : request) : Prop :=
  schema_start r = NULL /\ schema_end r = NULL /\ host_start r = NULL /\ host_end r = NULL /\
  port_end r = NULL.

(** The schema [[ss, se)]: letters, after the method. *)
Definition schema_at (mem : list Z) (r : request) (ss se : Z) : Prop :=
  (exists me, method_end r = Some me /\ me < ss) /\ ss < se /\ all_in is_alpha mem ss se /\
  schema_start r = Some ss.

(** [n] bytes of the three that follow the schema, up to [p]. *)
Definition slashes_at (mem : list Z) (r : request) (n : nat) (p : Z) : Prop :=
  exists ss, schema_at mem r ss (p - Z.of_nat n) /\ schema_end r = Some (p - Z.of_nat n) /\
    mem_has mem (p - Z.of_nat n) (take n (B! "://")).

(** The schema, the slashes, and the host from its start to [p]. *)
Definition host_at (mem : list Z) (r : request) (p : Z) : Prop :=
  exists hs, slashes_at mem r 3 hs /\ host_start r = Some hs /\ hs <= p /\ all_in host_char mem hs p.

(** The port from the colon after the host to [p]. *)
Definition port_at (mem : list Z) (r : request) (p : Z) : Prop :=
  exists he, host_at mem r he /\ host_end r = Some he /\ mem_at mem he = C! ":" /\ he < p /\
    all_in is_digit mem (he + 1) p.

(** The authority ends at [stop]. *)
Definition authority (mem : list Z) (r : request) (stop : Z) : Prop :=
  match port_end r with
  | None => host_at mem r stop /\ host_end r = Some stop
  | Some pe => pe = stop /\ port_at mem r stop
  end.

(** The target is relative, or it is the path after the authority, or there is no
    path and the second slash of the schema stands for it. *)
Definition absolute (mem : list Z) (r : request) : Prop :=
  no_authority r \/
  exists stop, authority mem r stop /\
    (uri_start r = Some stop \/ (uri_start r = ptr_add (schema_end r) 1 /\ mem_at mem stop = C! " ")).

(** [n] letters of HTTP/ have been read before [p], after the target. *)
Definition protocol_at (mem : list Z) (r : request) (n : nat) (p : Z) : Prop :=
  http_protocol r = Some (p - Z.of_nat n) /\ mem_has mem (p - Z.of_nat n) (take n (B! "HTTP/")) /\
  exists ue, uri_end r = Some ue /\ ue <= p - Z.of_nat n.

(** There is no version, or HTTP/ lies between the target and [p]. *)
Definition versioned (mem : list Z) (r : request) (p : Z) : Prop :=
  http_protocol r = NULL \/ exists p', protocol_at mem r 5 p' /\ p' <= p.

Definition rl_marks (mem : list Z) (p : Z) (s : rl_sw * request) : Prop :=
  let r := s.2 in
  match s.1 with
  | sw_start | sw_method | sw_spaces_before_uri => no_authority r /\ http_protocol r = NULL
  | sw_schema =>
      (exists ss, schema_at mem r ss p) /\ schema_end r = NULL /\ host_start r = NULL /\
      host_end r = NULL /\ port_end r = NULL /\ http_protocol r = NULL
  | sw_schema_slash =>
      slashes_at mem r 1 p /\ host_end r = NULL /\ port_end r = NULL /\ http_protocol r = NULL
  | sw_schema_slash_slash =>
      slashes_at mem r 2 p /\ host_end r = NULL /\ port_end r = NULL /\ http_protocol r = NULL
  | sw_host_start =>
      slashes_at mem r 3 p /\ host_end r = NULL /\ port_end r = NULL /\ http_protocol r = NULL
  | sw_host | sw_host_ip_literal | sw_host_end =>
      host_at mem r p /\ port_end r = NULL /\ http_protocol r = NULL
  | sw_port => port_at mem r p /\ port_end r = NULL /\ http_protocol r = NULL
  | sw_http_H => absolute mem r /\ protocol_at mem r 1 p
  | sw_http_HT => absolute mem r /\ protocol_at mem r 2 p
  | sw_http_HTT => absolute mem r /\ protocol_at mem r 3 p
  | sw_http_HTTP => absolute mem r /\ protocol_at mem r 4 p
  | sw_almost_done => absolute mem r /\ versioned mem r (p - 1)
  | sw_first_major_digit | sw_major_digit | sw_first_minor_digit | sw_minor_digit
  | sw_spaces_after_digit => absolute mem r /\ versioned mem r p
  | _ => absolute mem r /\ http_protocol r = NULL
  end.

Lemma all_in_snoc P mem a p : all_in P mem a p -> P (mem_at mem p) = true -> all_in P mem a (p + 1).
Proof. intros H Hp q Hq. destruct (Z.eq_dec q p) as [->|]; [done|]. apply H. lia. Qed.

Lemma all_in_empty P mem p : all_in P mem p p.
Proof. intros q Hq. lia. Qed.

Lemma mem_has_snoc mem a l c :
  mem_has mem a l -> mem_at mem (a + Z.of_nat (length l)) = c -> mem_has mem a (l ++ [c]).
Proof.
  intros H Hc. apply mem_has_app. split; [done|]. apply mem_has_cons. split; [done|]. intros i Hi. cbn in Hi. lia.
Qed.

Lemma schema_snoc mem r r' ss p :
  schema_at mem r ss p -> is_alpha (mem_at mem p) = true -> method_end r' = method_end r ->
  schema_start r' = schema_start r -> schema_at mem r' ss (p + 1).
Proof.
  intros (Hme & Hlt & Ha & Hs) Hp E1 E2. unfold schema_at. rewrite E1, E2.
  split_and!; [done|lia|by apply all_in_snoc|done].
Qed.

Lemma schema_same mem r r' ss p :
  schema_at mem r ss p -> method_end r' = method_end r -> schema_start r' = schema_start r ->
  schema_at mem r' ss p.
Proof. unfold schema_at. by intros ? -> ->. Qed.

Lemma slashes_same mem r r' n p :
  slashes_at mem r n p -> method_end r' = method_end r -> schema_start r' = schema_start r ->
  schema_end r' = schema_end r -> slashes_at mem r' n p.
Proof. unfold slashes_at, schema_at. by intros ? -> -> ->. Qed.

(** One more byte of a word of [k] bytes that is being read. *)
Lemma word_snoc mem w n p :
  (n < length w)%nat -> mem_has mem (p - Z.of_nat n) (take n w) -> mem_at mem p = nth n w 0 ->
  mem_has mem (p + 1 - Z.of_nat (S n)) (take (S n) w).
Proof.
  intros Hn Hm Hp. replace (p + 1 - Z.of_nat (S n)) with (p - Z.of_nat n) by lia.
  rewrite (take_S_r w n (nth n w 0)).
  - apply mem_has_snoc; [done|]. rewrite length_take, Nat.min_l by lia. rewrite <- Hp. f_equal. lia.
  - destruct (nth_lookup_or_length w n 0); [done|lia].
Qed.

Lemma slashes_snoc mem r r' n p :
  slashes_at mem r n p -> (n < 3)%nat -> mem_at mem p = nth n (B! "://") 0 ->
  method_end r' = method_end r -> schema_start r' = schema_start r -> schema_end r' = schema_end r ->
  slashes_at mem r' (S n) (p + 1).
Proof.
  intros (ss & Hs & He & Hm) Hn Hp E1 E2 E3. exists ss.
  split; [eapply schema_same; [|exact E1|exact E2]; by replace (p + 1 - Z.of_nat (S n)) with (p - Z.of_nat n) by lia|].
  rewrite E3. split; [rewrite He; f_equal; lia|]. by apply word_snoc.
Qed.

Lemma host_at_snoc mem r r' p :
  host_at mem r p -> host_char (mem_at mem p) = true -> method_end r' = method_end r ->
  schema_start r' = schema_start r -> schema_end r' = schema_end r -> host_start r' = host_start r ->
  host_at mem r' (p + 1).
Proof.
  intros (hs & Hs & Hh & Hle & Ha) Hp E1 E2 E3 E4. exists hs. rewrite E4.
  split_and!; [by eapply slashes_same|done|lia|by apply all_in_snoc].
Qed.

Lemma host_same mem r r' p :
  host_at mem r p -> method_end r' = method_end r ->
  schema_start r' = schema_start r -> schema_end r' = schema_end r -> host_start r' = host_start r ->
  host_at mem r' p.
Proof. unfold host_at, slashes_at, schema_at. by intros ? -> -> -> ->. Qed.

Lemma host_first mem r r' p :
  slashes_at mem r 3 p -> method_end r' = method_end r -> schema_start r' = schema_start r ->
  schema_end r' = schema_end r -> host_start r' = Some p -> host_at mem r' p.
Proof.
  intros Hs E1 E2 E3 E4. exists p. split_and!; [by eapply slashes_same|done|lia|apply all_in_empty].
Qed.

Lemma port_first mem r r' p :
  host_at mem r p -> mem_at mem p = C! ":" -> method_end r' = method_end r ->
  schema_start r' = schema_start r -> schema_end r' = schema_end r -> host_start r' = host_start r ->
  host_end r' = Some p -> port_at mem r' (p + 1).
Proof.
  intros Hh Hp E1 E2 E3 E4 E5. exists p. split_and!; [by eapply host_same|done|done|lia|apply all_in_empty].
Qed.

Lemma port_snoc mem r r' p :
  port_at mem r p -> is_digit (mem_at mem p) = true -> method_end r' = method_end r ->
  schema_start r' = schema_start r -> schema_end r' = schema_end r -> host_start r' = host_start r ->
  host_end r' = host_end r -> port_at mem r' (p + 1).
Proof.
  intros (he & Hh & He & Hc & Hlt & Ha) Hp E1 E2 E3 E4 E5. exists he. rewrite E5.
  split_and!; [by eapply host_same|done|done|lia|by apply all_in_snoc].
Qed.

Lemma absolute_host mem r r' p :
  host_at mem r p -> method_end r' = method_end r -> schema_start r' = schema_start r ->
  schema_end r' = schema_end r -> host_start r' = host_start r -> host_end r' = Some p ->
  port_end r' = NULL ->
  (uri_start r' = Some p \/ (uri_start r' = ptr_add (schema_end r) 1 /\ mem_at mem p = C! " ")) ->
  absolute mem r'.
Proof.
  intros Hh E1 E2 E3 E4 E5 E6 Hu. right. exists p. unfold authority. rewrite E6, E3.
  split; [|done]. split; [by eapply host_same|done].
Qed.

Lemma absolute_port mem r r' p :
  port_at mem r p -> method_end r' = method_end r -> schema_start r' = schema_start r ->
  schema_end r' = schema_end r -> host_start r' = host_start r -> host_end r' = host_end r ->
  port_end r' = Some p ->
  (uri_start r' = Some p \/ (uri_start r' = ptr_add (schema_end r) 1 /\ mem_at mem p = C! " ")) ->
  absolute mem r'.
Proof.
  intros (he & Hh & He & Hc & Hlt & Ha) E1 E2 E3 E4 E5 E6 Hu. right. exists p. unfold authority. rewrite E6, E3.
  split; [|done]. split; [done|]. exists he. rewrite E5. split_and!; [by eapply host_same|done..].
Qed.

Lemma absolute_same mem r r' :
  absolute mem r -> method_end r' = method_end r -> schema_start r' = schema_start r ->
  schema_end r' = schema_end r -> host_start r' = host_start r -> host_end r' = host_end r ->
  port_end r' = port_end r -> uri_start r' = uri_start r -> absolute mem r'.
Proof.
  unfold absolute, no_authority, authority, port_at, host_at, slashes_at, schema_at.
  by intros ? -> -> -> -> -> -> ->.
Qed.

Lemma protocol_first mem r r' p :
  uri_closed mem r p -> mem_at mem p = C! "H" -> uri_end r' = uri_end r ->
  http_protocol r' = Some p -> protocol_at mem r' 1 (p + 1).
Proof.
  intros (_ & _ & ue & _ & _ & Hue & _ & Hle & _) Hp E1 E2. unfold protocol_at.
  replace (p + 1 - Z.of_nat 1) with p by lia. rewrite E1, E2. split_and!; [done| |by exists ue].
  apply mem_has_cons. split; [done|]. intros i Hi. cbn in Hi. lia.
Qed.

Lemma protocol_snoc mem r r' n p :
  protocol_at mem r n p -> (n < 5)%nat -> mem_at mem p = nth n (B! "HTTP/") 0 ->
  uri_end r' = uri_end r -> http_protocol r' = http_protocol r -> protocol_at mem r' (S n) (p + 1).
Proof.
  intros (Hh & Hm & ue & Hue & Hle) Hn Hp E1 E2. unfold protocol_at. rewrite E1, E2.
  split_and!; [rewrite Hh; f_equal; lia|by apply word_snoc|]. exists ue. split; [done|lia].
Qed.

Lemma versioned_mono mem r r' p p' :
  versioned mem r p -> p <= p' -> uri_end r' = uri_end r -> http_protocol r' = http_protocol r ->
  versioned mem r' p'.
Proof.
  unfold versioned, protocol_at. intros H Hp -> ->. destruct H as [H|(q & H & Hq)]; [by left|].
  right. exists q. split; [done|lia].
Qed.

Lemma versioned_none mem r p : http_protocol r = NULL -> versioned mem r p.
Proof. by left. Qed.

Ltac host_byte :=
  unfold host_char; cbn [existsb];
  repeat match goal with
  | H : context [is_digit _] |- _ => revert H
  | H : context [is_alpha _] |- _ => revert H
  end;
  destruct (is_alpha _), (is_digit _); cbn [orb]; intros; first [done|lia].

Ltac same_marks :=
  first
    [ done
    | eapply absolute_same; [eassumption|reflexivity..]
    | by apply versioned_none
    | match goal with H : no_authority _ |- absolute _ _ => left; exact H end
    | match goal with H : no_authority _ |- _ = NULL => cbn; unfold no_authority in H; tauto end
    | eapply protocol_first; [eassumption|by zify_bool|reflexivity..]
    | eapply port_first; [eassumption|by zify_bool|reflexivity..]
    | eapply port_first; [eapply host_first; [eassumption|reflexivity..]|by zify_bool|reflexivity..]
    | eapply port_snoc; [eassumption|done|reflexivity..]
    | eapply absolute_host; [eassumption|reflexivity..|done|first [by left|right; split; [reflexivity|by zify_bool]]]
    | eapply absolute_host; [eapply host_first; [eassumption|reflexivity..]|reflexivity..|done|first [by left|right; split; [reflexivity|by zify_bool]]]
    | eapply absolute_port; [eassumption|reflexivity..|done|first [by left|right; split; [reflexivity|by zify_bool]]]
    | eexists; eapply schema_snoc; [eassumption|done|reflexivity..]
    | eapply versioned_mono; [eassumption|lia|reflexivity..]
    | eapply protocol_snoc; [eassumption|lia|by zify_bool|reflexivity..]
    | eapply slashes_snoc; [eassumption|lia|by zify_bool|reflexivity..]
    | eapply host_at_snoc; [eassumption|host_byte|reflexivity..]
    | eapply host_at_snoc; [eapply host_first; [eassumption|reflexivity..]|host_byte|reflexivity..] ].

Lemma rl_marks_step mem lo p s s' :
  rl_inv mem lo p s -> rl_marks mem p s -> rl_step mem p s = Next s' -> rl_marks mem (p + 1) s'.
Proof.
  intros HI HM. unfold rl_step. destruct s as [st r]. destruct HI as (_ & _ & HI).
  unfold rl_marks in HM. cbn [fst snd] in *.
  destruct st; rl_transitions; unfold rl_marks; cbn [fst snd]; destruct_and?; split_and?; try same_marks.
  - destruct select (method_read _ _ _) as (rs & me & _ & Hme & _ & Hlt). exists p.
    split_and!; [by exists me|lia|apply all_in_snoc; [apply all_in_empty|done]|done].
  - destruct select (exists _, _) as (ss & Hs). exists ss. by eapply schema_snoc.
  - destruct select (exists _, _) as (ss & Hs). exists ss. replace (p + 1 - Z.of_nat 1) with p by lia.
    split_and!; [by eapply schema_same|done|]. apply mem_has_cons. split; [by zify_bool|]. intros i Hi. cbn in Hi. lia.
  - eapply (host_at_snoc mem {| r with host_start := Some p |}); [by eapply host_first|host_byte|done..].
  - eapply (host_at_snoc mem {| r with host_start := Some p |}); [by eapply host_first|host_byte|done..].
  - eapply (host_at_snoc mem {| r with host_start := Some p |}); [by eapply host_first|host_byte|done..].
  - eapply (port_first mem {| r with host_start := Some p |}); [by eapply host_first|by zify_bool|done..].
  - eapply (absolute_host mem {| r with host_start := Some p |}); [by eapply host_first|done..|by left].
  - eapply (absolute_host mem {| r with host_start := Some p |}); [by eapply host_first|done..|].
    right. split; [done|by zify_bool].
  - right. exists (p + 1). split; [|lia]. eapply protocol_snoc; [eassumption|lia|by zify_bool|done..].
Qed.

Lemma rl_marks_done mem p s st r :
  rl_marks mem p s -> rl_step mem p s = Exit RlDone (st, r) ->
  absolute mem (rl_done p r).2 /\ versioned mem (rl_done p r).2 p.
Proof.
  intros HM. unfold rl_step. destruct s as [st0 r0]. unfold rl_marks in HM. cbn [fst snd] in *.
  destruct st0; rl_transitions; destruct_and?; unfold rl_done; cbn; repeat case_match; cbn;
    (split; [eapply absolute_same; [eassumption|reflexivity..]|]);
    first [by left|eapply versioned_mono; [eassumption|lia|reflexivity..]].
Qed.

(** The target and the pointers around it when the loop leaves through [done]. *)
Definition target_marks (mem : list Z) (lo hi : Z) (r : request) : Prop :=
  exists rs me us ue re,
    request_start r = Some rs /\ method_end r = Some me /\ uri_start r = Some us /\
    uri_end r = Some ue /\ request_end r = Some re /\
    lo <= rs <= me /\ me < us /\ ue <= re < hi /\ target mem us ue /\
    ptr_within (args_start r) us ue /\ ptr_within (uri_ext r) us ue.

Lemma target_marks_intro mem lo hi r r' p re :
  method_read lo r p -> uri_closed mem r re -> re < hi ->
  request_start r' = request_start r -> method_end r' = method_end r ->
  uri_start r' = uri_start r -> uri_end r' = uri_end r -> request_end r' = Some re ->
  args_start r' = args_start r -> uri_ext r' = uri_ext r ->
  target_marks mem lo hi r'.
Proof.
  intros (rs & me & ? & ? & ? & ?) (me' & us & ue & ? & ? & ? & ? & ? & ? & ? & ?) Hre
    E1 E2 E3 E4 E5 E6 E7.
  exists rs, me, us, ue, re. rewrite E1, E2, E3, E4, E5, E6, E7.
  assert (me' = me) as -> by congruence. split_and!; done || lia.
Qed.

Lemma rl_inv_done mem lo p s st r :
  rl_inv mem lo p s -> rl_step mem p s = Exit RlDone (st, r) ->
  target_marks mem lo (p + 1) (rl_done p r).2.
Proof.
  intros HI. unfold rl_step. destruct s as [st0 r0]. destruct HI as (Hre & Hlo & HI).
  cbn [fst snd] in *.
  assert (Hopen : forall r', method_read lo r0 p -> uri_open mem r0 p ->
    request_start r' = request_start r0 -> method_end r' = method_end r0 ->
    uri_start r' = uri_start r0 -> uri_end r' = Some p -> request_end r' = Some p ->
    args_start r' = args_start r0 -> uri_ext r' = uri_ext r0 -> target_marks mem lo (p + 1) r').
  { intros. eapply (target_marks_intro _ _ _ {| r0 with uri_end := Some p |} _ p p);
      [eassumption| |lia|done..]. by eapply uri_open_close. }
  destruct st0; rl_transitions; destruct_and?; unfold rl_done; cbn; rewrite ?Hre; cbn.
  all: first
    [ eapply (target_marks_intro _ _ _ _ _ p p); [eassumption|eassumption|lia|reflexivity..]
    | eapply (target_marks_intro _ _ _ _ _ p (p - 1)); [eassumption|eassumption|lia|reflexivity..]
    | eapply Hopen; [eassumption|eassumption|reflexivity..]
    | eapply (target_marks_intro _ _ _ _ _ p p); 
      [eassumption|eapply uri_closed_mono; [eassumption|lia|reflexivity..]|lia|reflexivity..] ].
Qed.

(** What an accepted request line has: the marks of the method, the target, its
    arguments and its extension; those of the schema, the host and the port;
    and that of the version. *)
Definition accepted (mem : list Z) (lo hi : Z) (r : request) : Prop :=
  target_marks mem lo hi r /\ absolute mem r /\ versioned mem r (hi - 1).

(** C24: an accepted request line has a non-empty target that starts with a slash
    and holds no NUL, CR or LF, and every pointer the parser leaves in the
    request is in order inside the bytes consumed and where it belongs: the
    target is relative, or there are a schema of letters, the bytes [://], a
    host and perhaps a colon and the digits of a port, in this order between
    the method and the path; and the mark of the version is at [HTTP/] after
    the target. *)
Theorem request_line_accepted (b : buf) :
  let x := ngx_http_parse_request_line sw_start request_init b in
  rl_rc x = NGX_OK ->
  b_pos b < b_pos (rl_buf x) <= b_last b /\
  accepted (b_mem b) (b_pos b) (b_pos (rl_buf x)) (rl_request x).
Proof.
  cbv zeta. unfold ngx_http_parse_request_line.
  pose proof (for_loop_inv (rl_step (b_mem b))
    (fun p s => rl_inv (b_mem b) (b_pos b) p s /\ rl_marks (b_mem b) p s)
    (Z.to_nat (b_last b - b_pos b)) (b_pos b) (sw_start, request_init)) as Hinv.
  specialize (Hinv ltac:(split; split_and!; done || lia)).
  specialize (Hinv ltac:(intros q s1 s2 _ [H1 H2] E; split; [by eapply rl_inv_step|by eapply rl_marks_step])).
  destruct (for_loop _ _ _ _) as [p [st r]|[|rc] p [st r]]; cbn; [done| |];
    destruct Hinv as (Hp & s0 & (HI & HM) & Hs).
  - intros _. pose proof (rl_inv_done _ _ _ _ _ _ HI Hs) as Hacc.
    pose proof (rl_marks_done _ _ _ _ _ HM Hs) as [Habs Hver].
    destruct (rl_done p r); cbn in *. split; [lia|]. unfold accepted. by replace (p + 1 - 1) with p by lia.
  - apply rl_step_exit_rc in Hs. lia.
Qed.

Lemma request_line_accepted_witness :
  let mem := B! "GET http://h.org:80/a?b HTTP/1.0" ++ [CR; LF] in
  let b := {| b_mem := mem; b_pos := 0; b_last := 34 |} in
  let x := ngx_http_parse_request_line sw_start request_init b in
  rl_rc x = NGX_OK /\ accepted mem 0 34 (rl_request x).
Proof.
  intros mem b x. split; [reflexivity|].
  destruct (request_line_accepted b) as [_ H]; [reflexivity|]. exact H.
Defined.

(** ** Printing and parsing *)

Definition method_table : list (list Z * Z) :=
  [ (B! "GET", NGX_HTTP_GET); (B! "HEAD", NGX_HTTP_HEAD); (B! "POST", NGX_HTTP_POST);
    (B! "PUT", NGX_HTTP_PUT); (B! "DELETE", NGX_HTTP_DELETE);
    (B! "MKCOL", NGX_HTTP_MKCOL); (B! "COPY", NGX_HTTP_COPY);
    (B! "MOVE", NGX_HTTP_MOVE); (B! "OPTIONS", NGX_HTTP_OPTIONS);
    (B! "PROPFIND", NGX_HTTP_PROPFIND); (B! "PROPPATCH", NGX_HTTP_PROPPATCH);
    (B! "LOCK", NGX_HTTP_LOCK); (B! "UNLOCK", NGX_HTTP_UNLOCK);
    (B! "PATCH", NGX_HTTP_PATCH); (B! "TRACE", NGX_HTTP_TRACE) ].

(** Decimal digits, as values, printed and read back. *)
Definition print_digits (ds : list Z) : list Z := (fun d => d + C! "0") <$> ds.
Definition dec_value (ds : list Z) : Z := foldl (fun a d => a * 10 + d) 0 ds.
Definition is_digit_value (d : Z) : Prop := 0 <= d <= 9.

Definition print_request_line (name target maj min : list Z) : list Z :=
  name ++ B! " " ++ target ++ B! " HTTP/" ++ print_digits maj ++ B! "."
       ++ print_digits min ++ [CR; LF].

(** A byte of a request target, where a space would end it. *)
Definition target_char (c : Z) : Prop := is_byte c /\ clean c /\ c <> C! " ".

Lemma rl_method_table mem m name code old :
  (name, code) ∈ method_table -> mem_has mem m name ->
  rl_method mem m (m + Z.of_nat (length name)) old = code.
Proof.
  intros Hin H.
  assert (H0 : 0 < Z.of_nat (length name) -> mem_at mem m = mem_at name 0).
  { intros ?. rewrite <- H by lia. f_equal. lia. }
  unfold rl_method, rl_method_with. rewrite Z.add_simpl_l.
  cbn [portable_cmp str3_cmp str3Ocmp str4cmp str5cmp str6cmp str7_cmp str8cmp str9cmp]. unfold method_table in Hin.
  repeat (apply elem_of_cons in Hin; destruct Hin as [[= -> ->]|Hin];
    [ unfold ngx_str9cmp, ngx_str8cmp, ngx_str7_cmp, ngx_str6cmp,
        ngx_str5cmp, ngx_str4cmp, ngx_str3Ocmp, ngx_str3_cmp; cbn [length Z.of_nat] in *;
      rewrite H0 by lia;
      repeat match goal with
      | |- context [mem_at mem (m + ?i)] => rewrite (H i) by (cbn; lia)
      end; reflexivity|]).
  by apply elem_of_nil in Hin.
Qed.

Lemma u16_step a d : u16 (u16 a * 10 + d) = u16 (a * 10 + d).
Proof.
  unfold u16. rewrite <- Z.add_mod_idemp_l, Z.mul_mod_idemp_l, Z.add_mod_idemp_l by lia.
  done.
Qed.

#[local] Arguments rl_method : simpl never.

Section ReadLine.
Context (mem : list Z).
Implicit Types (p : Z) (r : request).

(** The rewriting of one step whose byte is known. *)
Ltac rl_next :=
  erewrite for_loop_next;
  [| unfold rl_step; cbn [fst snd]; rl_unfold;
     repeat match goal with E : mem_at mem _ = _ |- _ => rewrite E end; reflexivity].

Lemma method_table_chars name code :
  (name, code) ∈ method_table ->
  exists c s, name = c :: s /\ Forall (fun c => is_method_char c = true /\ c <> C! " ") name
    /\ c <> CR /\ c <> LF.
Proof.
  intros Hin. unfold method_table in Hin.
  repeat (apply elem_of_cons in Hin; destruct Hin as [[= -> ->]|Hin];
    [eexists _, _; split; [reflexivity|]; split; [|lia];
     repeat constructor; by vm_compute|]).
  by apply elem_of_nil in Hin.
Qed.

Lemma rl_read_method p name code r m :
  (name, code) ∈ method_table -> mem_has mem p (name ++ B! " ") ->
  for_loop (rl_step mem) (length name + S m) p (sw_start, r) =
  for_loop (rl_step mem) m (p + Z.of_nat (length name) + 1)
    (sw_spaces_before_uri,
     {| r with request_start := Some p; method_end := Some (p + Z.of_nat (length name) - 1);
               method := code |}).
Proof.
  intros Hin H. apply mem_has_app in H as [Hn Hs]. apply mem_has_cons in Hs as [Hs _].
  destruct (method_table_chars _ _ Hin) as (c & s & -> & Hall & Hcr & Hlf).
  apply mem_has_cons in Hn as Hc. destruct Hc as [Hc Htl].
  apply Forall_cons in Hall as [[Hm _] Hall]. unfold is_method_char in Hm.
  apply negb_true_iff in Hm. cbn [length Nat.add].
  erewrite for_loop_next.
  2:{ unfold rl_step. cbn [fst snd]. unfold rl_sw_start. rewrite Hc, Hm. decide_tests. done. }
  rewrite for_loop_stay.
  2:{ intros q Hq. pose proof (mem_has_Forall _ _ _ _ q Htl Hall ltac:(lia)) as [Hm' Hsp].
      unfold is_method_char in Hm'. apply negb_true_iff in Hm'.
      unfold rl_step. cbn [fst snd]. unfold rl_sw_method. rewrite Hm'. decide_tests. done. }
  cbn [length] in Hs.
  replace (p + Z.of_nat (S (length s))) with (p + 1 + Z.of_nat (length s)) in * by lia.
  pose proof (rl_method_table mem p (c :: s) code (method r) Hin Hn) as Hmt.
  cbn [length] in Hmt.
  replace (p + Z.of_nat (S (length s))) with (p + 1 + Z.of_nat (length s)) in Hmt by lia.
  erewrite for_loop_next; [|unfold rl_step; cbn [fst snd]; unfold rl_sw_method; rewrite Hs;
    decide_tests; cbn; rewrite Hmt; reflexivity].
  done.
Qed.

(** The fields that reading the target and the version leaves alone. *)
Definition keeps_head r r' : Prop :=
  method r' = method r /\ request_start r' = request_start r /\
  method_end r' = method_end r /\ request_end r' = request_end r.

Definition in_target (p : Z) (r : request) (s : rl_sw * request) : Prop :=
  (s.1 = sw_after_slash_in_uri \/ s.1 = sw_check_uri \/ s.1 = sw_uri) /\
  keeps_head r s.2 /\ uri_start s.2 = Some p.

Lemma rl_target_byte p r q s :
  in_target p r s -> target_char (mem_at mem q) ->
  exists s', rl_step mem q s = Next s' /\ in_target p r s'.
Proof.
  intros (Hst & (? & ? & ? & ?) & Hus) (Hb & (? & ? & ?) & ?).
  unfold rl_step. destruct s as [st r0]. cbn [fst snd] in *.
  destruct Hst as [-> | [-> | ->]]; rl_unfold; repeat case_match; zify_bool; try done;
    (eexists; split; [reflexivity|]); (split; [by auto|]); split; done.
Qed.

Lemma rl_read_target p s r m :
  mem_has mem p (B! "/" ++ s ++ B! " ") -> Forall target_char s ->
  exists st r', (st = sw_check_uri_http_09 \/ st = sw_http_09) /\ keeps_head r r' /\
    uri_start r' = Some p /\ uri_end r' = Some (p + 1 + Z.of_nat (length s)) /\
    for_loop (rl_step mem) (S (length s + S m)) p (sw_spaces_before_uri, r) =
    for_loop (rl_step mem) m (p + 1 + Z.of_nat (length s) + 1) (st, r').
Proof.
  intros H Hall. apply mem_has_cons in H as [Hc H]. apply mem_has_app in H as [Hs Hsp].
  apply mem_has_cons in Hsp as [Hsp _].
  erewrite for_loop_next; [|unfold rl_step; cbn [fst snd]; unfold rl_sw_spaces_before_uri;
    rewrite Hc; reflexivity].
  destruct (for_loop_run (rl_step mem) (fun _ => in_target p r) (length s) (p + 1)
    (sw_after_slash_in_uri, {| r with uri_start := Some p |})) as ([st r1] & HP & Hrun).
  - split; [by auto|]. split; done.
  - intros q s1 Hq HP. apply rl_target_byte; [done|].
    eapply (mem_has_Forall target_char); [done..|lia].
  - rewrite Hrun. destruct HP as (Hst & Hk & Hus). cbn [fst snd] in *.
    assert (exists st', rl_step mem (p + 1 + Z.of_nat (length s)) (st, r1) =
      Next (st', {| r1 with uri_end := Some (p + 1 + Z.of_nat (length s)) |}) /\
      (st' = sw_check_uri_http_09 \/ st' = sw_http_09)) as (st' & E & Hst').
    { unfold rl_step. cbn [fst snd]. rewrite Hsp.
      destruct Hst as [-> | [-> | ->]]; (eexists; split; [reflexivity|by auto]). }
    erewrite for_loop_next by exact E.
    exists st', {| r1 with uri_end := Some (p + 1 + Z.of_nat (length s)) |}.
    split; [done|]. split; [exact Hk|]. split; [exact Hus|]. by split.
Qed.

Lemma rl_read_major p ds a r m :
  Forall is_digit_value ds -> mem_has mem p (print_digits ds) ->
  for_loop (rl_step mem) (length ds + m) p (sw_major_digit, {| r with http_major := u16 a |})
  = for_loop (rl_step mem) m (p + Z.of_nat (length ds))
      (sw_major_digit,
       {| r with http_major := u16 (foldl (fun a d => a * 10 + d) a ds) |}).
Proof.
  revert p a. induction ds as [|d ds IH]; intros p a Hd H.
  - cbn. by rewrite Z.add_0_r.
  - apply Forall_cons in Hd as [Hd Hds]. apply mem_has_cons in H as [Hc H].
    cbn [length Nat.add foldl]. unfold is_digit_value in Hd.
    erewrite for_loop_next; [|unfold rl_step; cbn [fst snd]; unfold rl_sw_major_digit;
      rewrite Hc; decide_tests; cbn [http_major];
      replace (u16 a * 10 + (d + 48) - 48) with (u16 a * 10 + d) by lia;
      rewrite u16_step; reflexivity].
    cbn. rewrite IH by done. f_equal; lia.
Qed.

Lemma rl_read_minor p ds a r m :
  Forall is_digit_value ds -> mem_has mem p (print_digits ds) ->
  for_loop (rl_step mem) (length ds + m) p (sw_minor_digit, {| r with http_minor := u16 a |})
  = for_loop (rl_step mem) m (p + Z.of_nat (length ds))
      (sw_minor_digit,
       {| r with http_minor := u16 (foldl (fun a d => a * 10 + d) a ds) |}).
Proof.
  revert p a. induction ds as [|d ds IH]; intros p a Hd H.
  - cbn. by rewrite Z.add_0_r.
  - apply Forall_cons in Hd as [Hd Hds]. apply mem_has_cons in H as [Hc H].
    cbn [length Nat.add foldl]. unfold is_digit_value in Hd.
    erewrite for_loop_next; [|unfold rl_step; cbn [fst snd]; unfold rl_sw_minor_digit;
      rewrite Hc; decide_tests; cbn [http_minor];
      replace (u16 a * 10 + (d + 48) - 48) with (u16 a * 10 + d) by lia;
      rewrite u16_step; reflexivity].
    cbn. rewrite IH by done. f_equal; lia.
Qed.

Lemma rl_read_version p st r maj0 maj min0 min :
  st = sw_check_uri_http_09 \/ st = sw_http_09 ->
  1 <= maj0 <= 9 -> is_digit_value min0 ->
  Forall is_digit_value maj -> Forall is_digit_value min ->
  let line := B! "HTTP/" ++ print_digits (maj0 :: maj) ++ B! "." ++
              print_digits (min0 :: min) ++ [CR; LF] in
  mem_has mem p line ->
  for_loop (rl_step mem) (length line) p (st, r) =
  Broke RlDone (p + Z.of_nat (length line) - 1)
    (sw_almost_done,
     {| r with http_protocol := Some p;
               http_major := u16 (dec_value (maj0 :: maj));
               http_minor := u16 (dec_value (min0 :: min));
               request_end := Some (p + Z.of_nat (length line) - 2) |}).
Proof.
  intros Hst Hmaj Hmin Hmajs Hmins line H. unfold is_digit_value in Hmin.
  assert (Hlen : (length line = 5 + S (length maj + S (S (length min + 2))))%nat).
  { unfold line, print_digits. cbn. rewrite !length_app, !length_fmap. cbn.
    rewrite length_app, length_fmap. cbn. lia. }
  rewrite Hlen. unfold line in H. clear Hlen. cbn in H.
  rewrite !mem_has_cons in H. destruct H as (E0 & E1 & E2 & E3 & E4 & E5 & H).
  apply mem_has_app in H as [Hj H]. apply mem_has_cons in H as [Edot H].
  apply mem_has_cons in H as [Em0 H]. apply mem_has_app in H as [Hi H].
  rewrite !mem_has_cons in H. destruct H as (Ecr & Elf & _).
  rewrite length_fmap in *.
  assert (Hh : rl_step mem p (st, r) = Next (sw_http_H, {| r with http_protocol := Some p |})).
  { unfold rl_step. cbn [fst snd]. rewrite E0. by destruct Hst as [-> | ->]. }
  cbn [Nat.add]. rewrite (for_loop_next _ _ _ _ _ Hh).
  do 4 (erewrite for_loop_next; [|unfold rl_step; cbn [fst snd]; rl_unfold;
    repeat match goal with E : mem_at mem _ = _ |- _ => rewrite E; clear E end; reflexivity]).
  erewrite for_loop_next; [|unfold rl_step; cbn [fst snd]; unfold rl_sw_first_major_digit;
    rewrite E5, Z.add_simpl_r; decide_tests; reflexivity].
  set (q := p + 1 + 1 + 1 + 1 + 1 + 1) in *.
  pose proof (rl_read_major q maj maj0 {| r with http_protocol := Some p |}
    (S (S (length min + 2))) Hmajs Hj) as X. cbn in X |- *. rewrite X. clear X.
  erewrite for_loop_next; [|unfold rl_step; cbn [fst snd]; unfold rl_sw_major_digit;
    rewrite Edot; reflexivity].
  erewrite for_loop_next; [|unfold rl_step; cbn [fst snd]; unfold rl_sw_first_minor_digit;
    rewrite Em0, Z.add_simpl_r; decide_tests; reflexivity].
  pose proof (rl_read_minor (q + Z.of_nat (length maj) + 1 + 1) min min0
    {| r with http_protocol := Some p;
              http_major := u16 (foldl (fun a d => a * 10 + d) maj0 maj) |}
    2 Hmins Hi) as X. cbn in X |- *. rewrite X. clear X.
  rewrite length_fmap in *.
  erewrite for_loop_next; [|unfold rl_step; cbn [fst snd]; unfold rl_sw_minor_digit;
    rewrite Ecr; reflexivity].
  erewrite for_loop_exit; [|unfold rl_step; cbn [fst snd]; unfold rl_sw_almost_done;
    rewrite Elf; reflexivity].
  unfold q. cbn. f_equal; [lia|]. do 3 f_equal. lia.
Qed.

Lemma rl_read_line p name code s maj0 maj min0 min :
  (name, code) ∈ method_table -> Forall target_char s ->
  1 <= maj0 <= 9 -> is_digit_value min0 ->
  Forall is_digit_value maj -> Forall is_digit_value min ->
  let line := print_request_line name (B! "/" ++ s) (maj0 :: maj) (min0 :: min) in
  mem_has mem p line ->
  exists r, for_loop (rl_step mem) (length line) p (sw_start, request_init)
      = Broke RlDone (p + Z.of_nat (length line) - 1) (sw_almost_done, r) /\
    method r = code /\ request_end r = Some (p + Z.of_nat (length line) - 2) /\
    http_major r = u16 (dec_value (maj0 :: maj)) /\
    http_minor r = u16 (dec_value (min0 :: min)) /\
    uri_start r = Some (p + Z.of_nat (length name) + 1) /\
    uri_end r = Some (p + Z.of_nat (length name) + 1 + 1 + Z.of_nat (length s)).
Proof.
  intros Hin Hs Hmaj Hmin Hmajs Hmins line H.
  set (ver := B! "HTTP/" ++ print_digits (maj0 :: maj) ++ B! "." ++
              print_digits (min0 :: min) ++ [CR; LF]).
  assert (Eline : line = (name ++ B! " ") ++ (B! "/" ++ s ++ B! " ") ++ ver).
  { unfold line, print_request_line, ver. cbn. by rewrite <- !app_assoc. }
  pose proof (rl_read_version (p + Z.of_nat (length name) + 1 + 1 + Z.of_nat (length s) + 1))
    as Hver.
  clearbody line. subst line. apply mem_has_app in H as [Hn H]. apply mem_has_app in H as [Ht Hv].
  rewrite !length_app in *. cbn [length] in *.
  replace (p + Z.of_nat (length name + 1)) with (p + Z.of_nat (length name) + 1) in * by lia.
  replace (length name + 1 + (1 + (length s + 1) + length ver))%nat
    with (length name + S (S (length s + S (length ver))))%nat by lia.
  rewrite (rl_read_method p name code) by done.
  destruct (rl_read_target (p + Z.of_nat (length name) + 1) s
    {| request_init with request_start := Some p;
       method_end := Some (p + Z.of_nat (length name) - 1); method := code |}
    (length ver) Ht Hs) as (st & r' & Hst & (Km & Kr & Kme & Kre) & Hus & Hue & ->).
  specialize (Hver st r' maj0 maj min0 min Hst Hmaj Hmin Hmajs Hmins).
  cbv zeta in Hver. fold ver in Hver. rewrite Hver.
  2:{ revert Hv. match goal with |- mem_has _ ?a _ -> mem_has _ ?b _ =>
        replace b with a by lia end. done. }
  clear Hver. clearbody ver. eexists. split; [f_equal; lia|].
  split; [exact Km|]. split; [cbn; f_equal; lia|]. by repeat split.
Qed.

End ReadLine.

(** Parsing a printed request line gives back its method, its target and its
    version, the two numbers of the version reduced to the 16 bits of the
    fields that hold them. *)
Theorem request_line_roundtrip (pre post name s : list Z) (code maj0 min0 : Z)
    (maj min : list Z) :
  (name, code) ∈ method_table -> Forall target_char s ->
  1 <= maj0 <= 9 -> is_digit_value min0 ->
  Forall is_digit_value maj -> Forall is_digit_value min ->
  let line := print_request_line name (B! "/" ++ s) (maj0 :: maj) (min0 :: min) in
  let mem := pre ++ line ++ post in
  let lo := Z.of_nat (length pre) in
  let hi := Z.of_nat (length pre + length line) in
  let x := ngx_http_parse_request_line sw_start request_init
             {| b_mem := mem; b_pos := lo; b_last := hi |} in
  let r := rl_request x in
  let version := u16 (dec_value (maj0 :: maj)) * 1000 + u16 (dec_value (min0 :: min)) in
  rl_rc x = (if (version =? 9) && negb (code =? NGX_HTTP_GET)
             then NGX_HTTP_PARSE_INVALID_09_METHOD else NGX_OK) /\
  rl_state x = sw_start /\ b_pos (rl_buf x) = hi /\
  method r = code /\ http_version r = version /\
  (exists us ue, uri_start r = Some us /\ uri_end r = Some ue /\
     slice mem us ue = B! "/" ++ s).
Proof.
  intros Hin Hs Hmaj Hmin Hmajs Hmins line mem lo hi x r version.
  destruct (rl_read_line mem lo name code s maj0 maj min0 min) as
    (r' & Hrun & Hm & Hre & Hj & Hi & Hus & Hue); [done..|apply mem_has_whole|].
  fold line in Hrun, Hre. subst r x. unfold ngx_http_parse_request_line. cbn [b_mem b_pos b_last].
  replace (Z.to_nat (hi - lo)) with (length line) by lia. rewrite Hrun.
  unfold rl_finish, rl_done. rewrite Hre.
  cbn [rl_rc rl_state rl_request rl_buf b_pos http_version method uri_start uri_end].
  rewrite Hm, Hj, Hi. repeat (split; [done || lia|]).
  eexists _, _. split; [exact Hus|]. split; [exact Hue|].
  replace (lo + Z.of_nat (length name) + 1 + 1 + Z.of_nat (length s))
    with (lo + Z.of_nat (length name) + 1 + Z.of_nat (length (B! "/" ++ s)))
    by (cbn [length app]; lia).
  assert (Hhas : mem_has mem lo line) by apply mem_has_whole.
  unfold line, print_request_line in Hhas. rewrite app_assoc in Hhas.
  apply mem_has_app in Hhas as [_ Hhas]. apply mem_has_app in Hhas as [Hhas _].
  rewrite length_app in Hhas. cbn [length] in Hhas.
  replace (lo + Z.of_nat (length name + 1)) with (lo + Z.of_nat (length name) + 1) in Hhas by lia.
  apply mem_has_slice; [lia| |done].
  unfold mem, lo, line, print_request_line. rewrite !length_app. cbn [length]. lia.
Qed.

Lemma request_line_roundtrip_witness :
  let line := print_request_line (B! "POST") (B! "/a") [6; 5; 5; 3; 7] [1] in
  let x := ngx_http_parse_request_line sw_start request_init
             {| b_mem := line; b_pos := 0; b_last := Z.of_nat (length line) |} in
  rl_rc x = NGX_OK /\ method (rl_request x) = NGX_HTTP_POST /\
  http_version (rl_request x) = 1001.
Proof.
  intros line x.
  destruct (request_line_roundtrip [] [] (B! "POST") (B! "a") NGX_HTTP_POST 6 1 [5; 5; 3; 7] [])
    as (Hrc & _ & _ & Hm & Hv & _).
  - apply list_elem_of_In. right; right; left. reflexivity.
  - repeat constructor; unfold is_byte, clean; lia.
  - lia.
  - unfold is_digit_value; lia.
  - repeat constructor; unfold is_digit_value; lia.
  - constructor.
  - split; [exact Hrc|]. split; [exact Hm|]. exact Hv.
Defined.

(** ** The two versions of the method comparisons agree *)

Lemma pack32_add c0 c1 c2 c3 :
  is_byte c0 -> is_byte c1 -> is_byte c2 -> is_byte c3 ->
  pack32 c0 c1 c2 c3 = c0 + c1 * 2 ^ 8 + c2 * 2 ^ 16 + c3 * 2 ^ 24.
Proof.
  unfold is_byte, pack32. intros.
  rewrite <- !Z.lor_assoc.
  rewrite (lor_shiftl_add c1 c0), (lor_shiftl_add c2), (lor_shiftl_add c3) by lia. lia.
Qed.

Section LittleEndian.
Context (mem : list Z) (Hmem : forall q, is_byte (mem_at mem q)).

Lemma load32_cmp m c0 c1 c2 c3 :
  is_byte c0 -> is_byte c1 -> is_byte c2 -> is_byte c3 ->
  (load32 mem m =? pack32 c0 c1 c2 c3) =
  ngx_str4cmp mem m c0 c1 c2 c3.
Proof using Hmem.
  intros. rewrite pack32_add by done. unfold load32, ngx_str4cmp, is_byte in *.
  pose proof (Hmem m). pose proof (Hmem (m + 1)). pose proof (Hmem (m + 2)).
  pose proof (Hmem (m + 3)).
  destruct (Z.eqb_spec (mem_at mem m) c0); cbn [andb]; [|apply Z.eqb_neq; lia].
  destruct (Z.eqb_spec (mem_at mem (m + 1)) c1); cbn [andb]; [|apply Z.eqb_neq; lia].
  destruct (Z.eqb_spec (mem_at mem (m + 2)) c2); cbn [andb]; [|apply Z.eqb_neq; lia].
  destruct (Z.eqb_spec (mem_at mem (m + 3)) c3); [apply Z.eqb_eq|apply Z.eqb_neq]; lia.
Qed.

Lemma load16_cmp m c4 c5 :
  is_byte c4 -> is_byte c5 ->
  (Z.land (load32 mem m) 0xffff =? Z.lor (Z.shiftl c5 8) c4) =
  (mem_at mem m =? c4) && (mem_at mem (m + 1) =? c5).
Proof using Hmem.
  intros. rewrite lor_shiftl_add by (unfold is_byte in *; lia).
  change 0xffff with (Z.ones 16). rewrite Z.land_ones by lia.
  unfold load32, is_byte in *.
  pose proof (Hmem m). pose proof (Hmem (m + 1)). pose proof (Hmem (m + 2)).
  pose proof (Hmem (m + 3)).
  replace (mem_at mem m + mem_at mem (m + 1) * 2 ^ 8 + mem_at mem (m + 2) * 2 ^ 16
    + mem_at mem (m + 3) * 2 ^ 24) with
    (mem_at mem m + mem_at mem (m + 1) * 2 ^ 8
     + (mem_at mem (m + 2) + mem_at mem (m + 3) * 2 ^ 8) * 2 ^ 16) by lia.
  rewrite Z_mod_plus_full, Z.mod_small by lia.
  destruct (Z.eqb_spec (mem_at mem m) c4); cbn [andb]; [|apply Z.eqb_neq; lia].
  destruct (Z.eqb_spec (mem_at mem (m + 1)) c5); [apply Z.eqb_eq|apply Z.eqb_neq]; lia.
Qed.
End LittleEndian.

(** The word-at-a-time macros recognise the same methods as the portable
    ones, where the parser uses them: at the space after the method. *)
Theorem method_cmp_equiv (mem : list Z) (m p old : Z) :
  (forall q, is_byte (mem_at mem q)) -> mem_at mem p = C! " " ->
  rl_method_with (little_endian_cmp mem) mem m p old =
  rl_method_with (portable_cmp mem) mem m p old.
Proof.
  intros Hmem Hsp. unfold rl_method_with.
  cbn [portable_cmp little_endian_cmp str3_cmp str3Ocmp str4cmp str5cmp str6cmp str7_cmp
       str8cmp str9cmp].
  rewrite !load32_cmp, !load16_cmp by (done || (unfold is_byte; lia)).
  unfold ngx_str9cmp, ngx_str8cmp, ngx_str7_cmp, ngx_str6cmp, ngx_str5cmp, ngx_str3Ocmp,
    ngx_str3_cmp, ngx_str4cmp. rewrite <- !Z.add_assoc.
  repeat match goal with
  | |- (if p - m =? ?n then _ else _) = _ =>
      destruct (Z.eqb_spec (p - m) n); [try replace p with (m + n) in Hsp by lia|]
  end; try reflexivity.
  all: change (4 + 1) with 5; change (4 + 2) with 6; change (4 + 3) with 7.
  all: rewrite ?Hsp; change (32 =? 32) with true; rewrite ?andb_true_r, <- ?andb_assoc;
    try reflexivity.
  destruct (Z.eqb_spec (mem_at mem (m + 1)) 79); reflexivity.
Qed.

Lemma method_cmp_equiv_witness :
  let mem := B! "OPTIONS /" in
  mem_at mem 7 = C! " " /\
  rl_method_with (little_endian_cmp mem) mem 0 7 NGX_HTTP_UNKNOWN =
  rl_method_with (portable_cmp mem) mem 0 7 NGX_HTTP_UNKNOWN.
Proof.
  intros mem. split; [reflexivity|]. apply method_cmp_equiv; [|reflexivity].
  intros q. apply mem_at_byte. repeat constructor; lia.
Defined.
