(* ===== verification/NgxHashKey.v ===== *)
(** * Hash keys and case folding

    [ngx_hash], [ngx_hash_key], [ngx_hash_key_lc] and [ngx_hash_strlow] of
    src/nginx-1.4.7/src/core/ngx_hash.{h,c}, and [ngx_tolower], [ngx_toupper]
    and [ngx_strlow] of src/nginx-1.4.7/src/core/ngx_string.{h,c}. *)
From S2P Require Import Prelude.

(** [core/ngx_string.h:47-47] ngx_tolower *)
Definition ngx_tolower (c : Z) : Z :=
  u8 (if (C! "A" <=? c) && (c <=? C! "Z") then Z.lor c 0x20 else c).

(** [core/ngx_string.h:48-48] ngx_toupper *)
Definition ngx_toupper (c : Z) : Z :=
  u8 (if (C! "a" <=? c) && (c <=? C! "z") then Z.land c (Z.lnot 0x20) else c).

(** [core/ngx_string.c:18-27] ngx_strlow *)
Fixpoint ngx_strlow (src : list Z) : list Z :=
  match src with
  | [] => []
  | c :: src' => ngx_tolower c :: ngx_strlow src'
  end.

(** [core/ngx_hash.h:111-111] ngx_hash *)
Definition ngx_hash (key c : Z) : Z := u64 (key * 31 + c).

#[global] Arguments ngx_hash : simpl never.
#[global] Arguments ngx_tolower : simpl never.

(** The loop of ngx_hash_key from a given key.
    [core/ngx_hash.c:603-615] ngx_hash_key *)
Fixpoint ngx_hash_key_from (key : Z) (data : list Z) : Z :=
  match data with
  | [] => key
  | c :: data' => ngx_hash_key_from (ngx_hash key c) data'
  end.

(** [core/ngx_hash.c:603-615] ngx_hash_key *)
Definition ngx_hash_key (data : list Z) : Z := ngx_hash_key_from 0 data.

(** [core/ngx_hash.c:618-630] ngx_hash_key_lc *)
Fixpoint ngx_hash_key_lc_from (key : Z) (data : list Z) : Z :=
  match data with
  | [] => key
  | c :: data' => ngx_hash_key_lc_from (ngx_hash key (ngx_tolower c)) data'
  end.

(** [core/ngx_hash.c:618-630] ngx_hash_key_lc *)
Definition ngx_hash_key_lc (data : list Z) : Z := ngx_hash_key_lc_from 0 data.

(** The key and the bytes written to [dst].
    [core/ngx_hash.c:633-648] ngx_hash_strlow *)
Fixpoint ngx_hash_strlow_from (key : Z) (src : list Z) : Z * list Z :=
  match src with
  | [] => (key, [])
  | c :: src' =>
      let d := ngx_tolower c in
      let '(k, dst) := ngx_hash_strlow_from (ngx_hash key d) src' in (k, d :: dst)
  end.

(** [core/ngx_hash.c:633-648] ngx_hash_strlow *)
Definition ngx_hash_strlow (src : list Z) : Z * list Z := ngx_hash_strlow_from 0 src.

Lemma ngx_tolower_byte c : is_byte c -> is_byte (ngx_tolower c).
Proof. intros _. unfold ngx_tolower, u8, is_byte. apply Z.mod_pos_bound. lia. Qed.

Lemma ngx_hash_key_from_app key l1 l2 :
  ngx_hash_key_from key (l1 ++ l2) = ngx_hash_key_from (ngx_hash_key_from key l1) l2.
Proof. revert key; induction l1 as [|c l1 IH]; intros key; cbn; auto. Qed.

Lemma ngx_hash_key_lc_strlow key data :
  ngx_hash_key_lc_from key data = ngx_hash_key_from key (ngx_strlow data).
Proof. revert key; induction data as [|c l IH]; intros key; cbn; auto. Qed.

Lemma ngx_hash_strlow_spec key src :
  ngx_hash_strlow_from key src = (ngx_hash_key_lc_from key src, ngx_strlow src).
Proof. revert key; induction src as [|c l IH]; intros key; cbn; [done|]. by rewrite IH. Qed.

Lemma ngx_strlow_length src : length (ngx_strlow src) = length src.
Proof. induction src; cbn; auto. Qed.
