(* ===== verification/HttpHeaderLine.v ===== *)
(** * The header line parser

    [ngx_http_parse_header_line] of src/nginx-1.4.7/src/http/ngx_http_parse.c,
    which reads one header line, folds the case of its name into
    [r->lowcase_header] and hashes it on the way. *)
From S2P Require Import Prelude HttpChars NgxHashKey HttpRequestLine.

Module HL.

(** [http/ngx_http_parse.c:829-838] the states of the parser *)
Inductive hl_sw : Type :=
| sw_start | sw_name | sw_space_before_value | sw_value | sw_space_after_value
| sw_ignore_line | sw_almost_done | sw_header_almost_done.

End HL.
Import HL.

Abbreviation NGX_HTTP_LC_HEADER_LEN := 32.
Abbreviation NGX_HTTP_PARSE_HEADER_DONE := 1.
Abbreviation NGX_HTTP_PARSE_INVALID_HEADER := 13.

(** [http/ngx_http_parse.c:842-850] lowcase *)
Definition lowcase_table : list Z :=
  repeat 0 32 ++
  repeat 0 13 ++ B! "-" ++ [0; 0] ++ B! "0123456789" ++ repeat 0 6 ++
  [0] ++ B! "abcdefghijklmnopqrstuvwxyz" ++ repeat 0 5 ++
  [0] ++ B! "abcdefghijklmnopqrstuvwxyz" ++ repeat 0 5 ++
  repeat 0 128.

(** [http/ngx_http_parse.c:842-850] lowcase[ch] *)
Definition lowcase (ch : Z) : Z := nth (Z.to_nat ch) lowcase_table 0.

#[global] Arguments lowcase : simpl never.

(** The fields of [ngx_http_request_t] the parser uses, [upstream] telling
    whether [r->upstream] is set; [r->state] is kept beside, as above.
    [http/ngx_http_request.h:537-546] ngx_http_request_s *)
Record header_req : Type := {
  header_hash : Z;
  lowcase_index : Z;
  lowcase_header : list Z;
  header_name_start : ptr;
  header_name_end : ptr;
  header_start : ptr;
  header_end : ptr;
  invalid_header : bool;
  upstream : bool
}.

(** The locals of the function that live across iterations. *)
Record hl_loc : Type := {
  hl_state : hl_sw; hl_hash : Z; hl_i : Z; hl_r : header_req
}.

Inductive hl_exit : Type := HlDone | HlHeaderDone | HlReturn (rc : Z).

Abbreviation hl_action := (action hl_loc hl_exit).

(** [r->lowcase_header[i++] = c; i &= (NGX_HTTP_LC_HEADER_LEN - 1);]
    [http/ngx_http_parse.c:902-904] the store of a folded byte *)
Definition hl_store (c : Z) (s : hl_loc) : hl_loc :=
  {| s with hl_hash := ngx_hash (hl_hash s) c;
            hl_i := Z.land (hl_i s + 1) (NGX_HTTP_LC_HEADER_LEN - 1);
            hl_r := {| (hl_r s) with
              lowcase_header := <[Z.to_nat (hl_i s) := c]> (lowcase_header (hl_r s)) |} |}.

(** [http/ngx_http_parse.c:862-895] case sw_start *)
Definition hl_sw_start (p ch : Z) (s : hl_loc) : hl_action :=
  let r := {| (hl_r s) with header_name_start := Some p; invalid_header := false |} in
  if ch =? CR then
    Next {| s with hl_state := sw_header_almost_done;
                   hl_r := {| r with header_end := Some p |} |}
  else if ch =? LF then
    Exit HlHeaderDone {| s with hl_r := {| r with header_end := Some p |} |}
  else
    let c := lowcase ch in
    if negb (c =? 0) then
      Next {| hl_state := sw_name; hl_hash := ngx_hash 0 c; hl_i := 1;
              hl_r := {| r with lowcase_header := <[0%nat := c]> (lowcase_header r) |} |}
    else if ch =? 0 then
      Exit (HlReturn NGX_HTTP_PARSE_INVALID_HEADER)
           {| s with hl_state := sw_name; hl_r := r |}
    else Next {| s with hl_state := sw_name; hl_r := {| r with invalid_header := true |} |}.

(** [p - r->header_name_start == 4 && ngx_strncmp(r->header_name_start, HTTP, 4) == 0]
    [http/ngx_http_parse.c:942-944] the duplicate status line of IIS *)
Definition hl_is_http (mem : list Z) (p : Z) (r : header_req) : bool :=
  match header_name_start r with
  | None => false
  | Some m =>
      (p - m =? 4) && (mem_at mem m =? C! "H") && (mem_at mem (m + 1) =? C! "T")
      && (mem_at mem (m + 2) =? C! "T") && (mem_at mem (m + 3) =? C! "P")
  end.

(** [http/ngx_http_parse.c:898-958] case sw_name *)
Definition hl_sw_name (mem : list Z) (allow_underscores : bool) (p ch : Z) (s : hl_loc)
    : hl_action :=
  let r := hl_r s in
  let c := lowcase ch in
  if negb (c =? 0) then Next (hl_store c s)
  else if ch =? C! "_" then
    if allow_underscores then Next (hl_store ch s)
    else Next {| s with hl_r := {| r with invalid_header := true |} |}
  else if ch =? C! ":" then
    Next {| s with hl_state := sw_space_before_value;
                   hl_r := {| r with header_name_end := Some p |} |}
  else if ch =? CR then
    Next {| s with hl_state := sw_almost_done;
                   hl_r := {| r with header_name_end := Some p; header_start := Some p;
                                     header_end := Some p |} |}
  else if ch =? LF then
    Exit HlDone {| s with hl_r := {| r with header_name_end := Some p;
                                            header_start := Some p; header_end := Some p |} |}
  else if (ch =? C! "/") && upstream r && hl_is_http mem p r then
    Next {| s with hl_state := sw_ignore_line |}
  else if ch =? 0 then Exit (HlReturn NGX_HTTP_PARSE_INVALID_HEADER) s
  else Next {| s with hl_r := {| r with invalid_header := true |} |}.

(** [http/ngx_http_parse.c:961-981] case sw_space_before_value *)
Definition hl_sw_space_before_value (p ch : Z) (s : hl_loc) : hl_action :=
  let r := hl_r s in
  if ch =? C! " " then Next s
  else if ch =? CR then
    Next {| s with hl_state := sw_almost_done;
                   hl_r := {| r with header_start := Some p; header_end := Some p |} |}
  else if ch =? LF then
    Exit HlDone {| s with hl_r := {| r with header_start := Some p; header_end := Some p |} |}
  else if ch =? 0 then Exit (HlReturn NGX_HTTP_PARSE_INVALID_HEADER) s
  else Next {| s with hl_state := sw_value; hl_r := {| r with header_start := Some p |} |}.

(** [http/ngx_http_parse.c:984-1000] case sw_value *)
Definition hl_sw_value (p ch : Z) (s : hl_loc) : hl_action :=
  let r := hl_r s in
  if ch =? C! " " then
    Next {| s with hl_state := sw_space_after_value;
                   hl_r := {| r with header_end := Some p |} |}
  else if ch =? CR then
    Next {| s with hl_state := sw_almost_done; hl_r := {| r with header_end := Some p |} |}
  else if ch =? LF then Exit HlDone {| s with hl_r := {| r with header_end := Some p |} |}
  else if ch =? 0 then Exit (HlReturn NGX_HTTP_PARSE_INVALID_HEADER) s
  else Next s.

(** [http/ngx_http_parse.c:1003-1018] case sw_space_after_value *)
Definition hl_sw_space_after_value (p ch : Z) (s : hl_loc) : hl_action :=
  if ch =? C! " " then Next s
  else if ch =? CR then Next {| s with hl_state := sw_almost_done |}
  else if ch =? LF then Exit HlDone s
  else if ch =? 0 then Exit (HlReturn NGX_HTTP_PARSE_INVALID_HEADER) s
  else Next {| s with hl_state := sw_value |}.

(** [http/ngx_http_parse.c:1021-1029] case sw_ignore_line *)
Definition hl_sw_ignore_line (p ch : Z) (s : hl_loc) : hl_action :=
  if ch =? LF then Next {| s with hl_state := sw_start |} else Next s.

(** [http/ngx_http_parse.c:1032-1041] case sw_almost_done *)
Definition hl_sw_almost_done (p ch : Z) (s : hl_loc) : hl_action :=
  if ch =? LF then Exit HlDone s
  else if ch =? CR then Next s
  else Exit (HlReturn NGX_HTTP_PARSE_INVALID_HEADER) s.

(** [http/ngx_http_parse.c:1044-1050] case sw_header_almost_done *)
Definition hl_sw_header_almost_done (p ch : Z) (s : hl_loc) : hl_action :=
  if ch =? LF then Exit HlHeaderDone s
  else Exit (HlReturn NGX_HTTP_PARSE_INVALID_HEADER) s.

(** [http/ngx_http_parse.c:856-859] switch (state) *)
Definition hl_step (mem : list Z) (allow_underscores : bool) (p : Z) (s : hl_loc)
    : hl_action :=
  let ch := mem_at mem p in
  match hl_state s with
  | sw_start => hl_sw_start p ch s
  | sw_name => hl_sw_name mem allow_underscores p ch s
  | sw_space_before_value => hl_sw_space_before_value p ch s
  | sw_value => hl_sw_value p ch s
  | sw_space_after_value => hl_sw_space_after_value p ch s
  | sw_ignore_line => hl_sw_ignore_line p ch s
  | sw_almost_done => hl_sw_almost_done p ch s
  | sw_header_almost_done => hl_sw_header_almost_done p ch s
  end.

Record hl_result : Type := {
  hl_rc : Z; hl_saved : hl_sw; hl_req : header_req; hl_buf : buf
}.

(** The code after the loop; [header_done] saves neither the hash nor the
    index.
    [http/ngx_http_parse.c:1054-1076] ngx_http_parse_header_line *)
Definition hl_finish (state : hl_sw) (b : buf) (e : loop_end hl_loc hl_exit) : hl_result :=
  match e with
  | Ran p s =>
      {| hl_rc := NGX_AGAIN; hl_saved := hl_state s;
         hl_req := {| (hl_r s) with header_hash := hl_hash s; lowcase_index := hl_i s |};
         hl_buf := {| b with b_pos := p |} |}
  | Broke HlDone p s =>
      {| hl_rc := NGX_OK; hl_saved := sw_start;
         hl_req := {| (hl_r s) with header_hash := hl_hash s; lowcase_index := hl_i s |};
         hl_buf := {| b with b_pos := p + 1 |} |}
  | Broke HlHeaderDone p s =>
      {| hl_rc := NGX_HTTP_PARSE_HEADER_DONE; hl_saved := sw_start; hl_req := hl_r s;
         hl_buf := {| b with b_pos := p + 1 |} |}
  | Broke (HlReturn rc) p s =>
      {| hl_rc := rc; hl_saved := state; hl_req := hl_r s; hl_buf := b |}
  end.

(** The locals at entry.
    [http/ngx_http_parse.c:852-854] ngx_http_parse_header_line *)
Definition hl_enter (state : hl_sw) (r : header_req) : hl_loc :=
  {| hl_state := state; hl_hash := header_hash r; hl_i := lowcase_index r; hl_r := r |}.

(** [http/ngx_http_parse.c:823-1076] ngx_http_parse_header_line *)
Definition ngx_http_parse_header_line (state : hl_sw) (r : header_req) (b : buf)
    (allow_underscores : bool) : hl_result :=
  hl_finish state b
    (for_loop (hl_step (b_mem b) allow_underscores) (Z.to_nat (b_last b - b_pos b))
       (b_pos b) (hl_enter state r)).

(** The zeroed request. *)
Definition header_init : header_req := {|
  header_hash := 0; lowcase_index := 0; lowcase_header := repeat 0 32;
  header_name_start := NULL; header_name_end := NULL; header_start := NULL;
  header_end := NULL; invalid_header := false; upstream := false |}.

(** The lower-case key that [ngx_http_process_request_headers] stores for a
    parsed line.
    [http/ngx_http_request.c:1207-1226] h->lowcase_key *)
Definition header_lowcase_key (mem : list Z) (r : header_req) : list Z :=
  let key := slice mem (default 0 (header_name_start r)) (default 0 (header_name_end r)) in
  if Z.of_nat (length key) =? lowcase_index r
  then take (length key) (lowcase_header r)
  else ngx_strlow key.

Example hl_host :
  let mem := B! "Host:  a b " ++ [CR; LF] in
  let x := ngx_http_parse_header_line sw_start header_init
     {| b_mem := mem; b_pos := 0; b_last := Z.of_nat (length mem) |} false in
  let r := hl_req x in
  (hl_rc x, header_name_end r, header_start r, header_end r, header_lowcase_key mem r)
  = (NGX_OK, Some 4, Some 7, Some 10, B! "host").
Proof. vm_compute. reflexivity. Qed.

(** ** Suspension and resumption *)

Ltac hl_unfold :=
  unfold hl_sw_start, hl_sw_name, hl_sw_space_before_value, hl_sw_value,
    hl_sw_space_after_value, hl_sw_ignore_line, hl_sw_almost_done,
    hl_sw_header_almost_done.

(** One goal per transition of the machine. *)
Ltac hl_transitions := hl_unfold; cbv zeta; repeat case_match; intros; simplify_eq.

Lemma hl_step_agree m1 m2 au p s :
  mem_agree m1 m2 (p + 1) -> hl_step m1 au p s = hl_step m2 au p s.
Proof.
  intros H. unfold hl_step. rewrite (H p) by lia.
  destruct (hl_state s); try done. unfold hl_sw_name.
  assert (hl_is_http m1 p (hl_r s) = hl_is_http m2 p (hl_r s)) as ->; [|done].
  unfold hl_is_http. destruct (header_name_start (hl_r s)) as [m|]; [|done].
  destruct (Z.eqb_spec (p - m) 4); [|done]. by rewrite !H by lia.
Qed.

Lemma hl_step_exit_rc mem au p s rc s' :
  hl_step mem au p s = Exit (HlReturn rc) s' -> rc = NGX_HTTP_PARSE_INVALID_HEADER.
Proof. unfold hl_step. destruct (hl_state s); hl_transitions; done. Qed.

(** The saved hash and index have no effect on what the loop does to the
    rest of the request. *)
Definition hl_forget (r : header_req) : header_req :=
  {| r with header_hash := 0; lowcase_index := 0 |}.

Definition hl_forget_loc (s : hl_loc) : hl_loc := {| s with hl_r := hl_forget (hl_r s) |}.

Definition forget_action (a : hl_action) : hl_action :=
  match a with Next s => Next (hl_forget_loc s) | Exit x s => Exit x (hl_forget_loc s) end.

Lemma hl_step_forget mem au p s :
  hl_step mem au p (hl_forget_loc s) = forget_action (hl_step mem au p s).
Proof.
  unfold hl_step. destruct s as [[] h i []]; cbn; hl_unfold; cbv zeta; cbn;
    unfold hl_is_http, hl_forget_loc, hl_forget, hl_store; cbn; by repeat case_match.
Qed.

Definition forget_end (e : loop_end hl_loc hl_exit) : loop_end hl_loc hl_exit :=
  match e with
  | Ran p s => Ran p (hl_forget_loc s)
  | Broke x p s => Broke x p (hl_forget_loc s)
  end.

Lemma hl_loop_forget mem au n p s :
  for_loop (hl_step mem au) n p (hl_forget_loc s) = forget_end (for_loop (hl_step mem au) n p s).
Proof.
  revert p s. induction n as [|n IH]; intros p s; [done|].
  pose proof (hl_step_forget mem au p s) as E.
  destruct (hl_step mem au p s) as [s'|x s'] eqn:E'; cbn in E.
  - by rewrite (for_loop_next _ _ _ _ _ E), (for_loop_next _ _ _ _ _ E').
  - by rewrite (for_loop_exit _ _ _ _ _ _ E), (for_loop_exit _ _ _ _ _ _ E').
Qed.

Lemma hl_loop_forget_eq mem au n p s1 s2 :
  hl_forget_loc s1 = hl_forget_loc s2 ->
  forget_end (for_loop (hl_step mem au) n p s1) = forget_end (for_loop (hl_step mem au) n p s2).
Proof. intros E. by rewrite <- !hl_loop_forget, E. Qed.

Lemma hl_finish_forget st1 st2 b p e1 e2 :
  forget_end e1 = forget_end e2 ->
  (forall rc q s, e2 = Broke (HlReturn rc) q s -> rc = NGX_HTTP_PARSE_INVALID_HEADER) ->
  let x1 := hl_finish st1 {| b with b_pos := p |} e1 in
  let x2 := hl_finish st2 b e2 in
  hl_rc x1 = hl_rc x2 /\ hl_forget (hl_req x1) = hl_forget (hl_req x2) /\
  (hl_rc x2 = NGX_OK \/ hl_rc x2 = NGX_AGAIN -> x1 = x2).
Proof.
  intros E Hrc. destruct e1 as [p1 [st h i []]|x1 p1 [st h i []]],
    e2 as [p2 [st' h' i' []]|x2 p2 [st' h' i' []]]; cbn in E; try done;
    injection E; intros; subst; [by cbn|]. destruct x2; cbn; try done.
  - split; [done|]. split; [done|]. lia.
  - rewrite (Hrc _ _ _ eq_refl). split; [done|]. split; [done|]. lia.
Qed.

Definition hl_two_calls (state : hl_sw) (r : header_req) (b1 b2 : buf) (au : bool) : hl_result :=
  let first := ngx_http_parse_header_line state r b1 au in
  if hl_rc first =? NGX_AGAIN
  then ngx_http_parse_header_line (hl_saved first) (hl_req first)
         {| b2 with b_pos := b_pos (hl_buf first) |} au
  else {| first with hl_buf := {| b2 with b_pos := b_pos (hl_buf first) |} |}.

(** Reading a header line in two pieces is reading it in one: the return
    code and the marks are the same, and on [NGX_OK] and [NGX_AGAIN] so is
    everything else (the other answers do not save the hash and the index). *)
Theorem header_line_resume (state : hl_sw) (r : header_req) (b1 b2 : buf) (au : bool) :
  b_pos b2 = b_pos b1 -> b_pos b1 <= b_last b1 <= b_last b2 ->
  mem_agree (b_mem b1) (b_mem b2) (b_last b1) ->
  let whole := ngx_http_parse_header_line state r b2 au in
  let both := hl_two_calls state r b1 b2 au in
  hl_rc both = hl_rc whole /\ hl_forget (hl_req both) = hl_forget (hl_req whole) /\
  (hl_rc whole = NGX_OK \/ hl_rc whole = NGX_AGAIN -> both = whole).
Proof.
  intros Hpos Hlast Hag. cbv zeta. unfold hl_two_calls, ngx_http_parse_header_line.
  set (n := Z.to_nat (b_last b1 - b_pos b1)).
  set (k := Z.to_nat (b_last b2 - b_last b1)).
  replace (Z.to_nat (b_last b2 - b_pos b2)) with (n + k)%nat by lia.
  rewrite for_loop_add, Hpos.
  rewrite <- (for_loop_ext (hl_step (b_mem b1) au) (hl_step (b_mem b2) au) n).
  2:{ intros q s Hq. apply hl_step_agree. intros q' Hq'. apply Hag. lia. }
  pose proof (for_loop_inv (hl_step (b_mem b1) au) (fun _ _ => True) n (b_pos b1)
                (hl_enter state r)) as Hinv.
  destruct (for_loop (hl_step (b_mem b1) au) n (b_pos b1) (hl_enter state r)) as [p s|x p s].
  - destruct Hinv as [Hp _]; [done..|]. cbn [hl_finish hl_rc hl_saved hl_req hl_buf b_pos b_last
      b_mem]. replace (Z.to_nat (b_last b2 - p)) with k by lia. rewrite Z.eqb_refl.
    apply hl_finish_forget.
    + by apply hl_loop_forget_eq.
    + intros rc q s' E.
      pose proof (for_loop_inv (hl_step (b_mem b2) au) (fun _ _ => True) k p s) as Hinv.
      rewrite E in Hinv. destruct Hinv as (_ & s0 & _ & Hs); [done..|].
      by apply hl_step_exit_rc in Hs.
  - destruct Hinv as (_ & s0 & _ & Hs); [done..|]. destruct x as [| |rc]; cbn; try done.
    apply hl_step_exit_rc in Hs as ->. cbn. split; [done|]. split; [done|]. lia.
Qed.

Lemma header_line_resume_witness :
  let mem := B! "Host: a" ++ [CR; LF] in
  let b1 := {| b_mem := mem; b_pos := 0; b_last := 3 |} in
  let b2 := {| b_mem := mem; b_pos := 0; b_last := 9 |} in
  hl_rc (ngx_http_parse_header_line sw_start header_init b1 false) = NGX_AGAIN /\
  hl_two_calls sw_start header_init b1 b2 false =
  ngx_http_parse_header_line sw_start header_init b2 false.
Proof.
  intros mem b1 b2. split; [reflexivity|].
  apply header_line_resume; [reflexivity|split; discriminate|intros q _; reflexivity|].
  left. reflexivity.
Defined.

(** ** The index into [r->lowcase_header] *)

Definition index_ok (s : hl_loc) : Prop :=
  0 <= hl_i s < NGX_HTTP_LC_HEADER_LEN /\
  length (lowcase_header (hl_r s)) = Z.to_nat NGX_HTTP_LC_HEADER_LEN.

Lemma hl_store_index c s : index_ok s -> index_ok (hl_store c s).
Proof.
  intros [Hi Hl]. unfold hl_store, index_ok. cbn. rewrite length_insert. split; [|done].
  change (32 - 1) with (Z.ones 5). rewrite Z.land_ones by lia.
  apply Z.mod_pos_bound. lia.
Qed.

Lemma hl_step_index mem au p s :
  index_ok s ->
  match hl_step mem au p s with Next s' => index_ok s' | Exit _ s' => index_ok s' end.
Proof.
  intros H. unfold hl_step. destruct (hl_state s); hl_unfold; cbv zeta; repeat case_match;
    simplify_eq; try done; try (by apply hl_store_index).
  destruct H as [Hi Hl]. split; cbn; [lia|]. by rewrite length_insert.
Qed.

(** C25: from a request whose index is inside [r->lowcase_header], the index
    stays inside it, at every byte of the loop and in what the call saves. *)
Theorem header_line_index_bound (mem : list Z) (au : bool) (state : hl_sw) (r : header_req)
    (b : buf) (n : nat) :
  0 <= lowcase_index r < NGX_HTTP_LC_HEADER_LEN ->
  length (lowcase_header r) = Z.to_nat NGX_HTTP_LC_HEADER_LEN ->
  let x := ngx_http_parse_header_line state r b au in
  (forall p s, for_loop (hl_step mem au) n (b_pos b) (hl_enter state r) = Ran p s ->
     0 <= hl_i s < NGX_HTTP_LC_HEADER_LEN) /\
  (hl_rc x = NGX_OK \/ hl_rc x = NGX_AGAIN ->
     0 <= lowcase_index (hl_req x) < NGX_HTTP_LC_HEADER_LEN) /\
  length (lowcase_header (hl_req x)) = Z.to_nat NGX_HTTP_LC_HEADER_LEN.
Proof.
  intros Hi Hl. cbv zeta.
  assert (H0 : index_ok (hl_enter state r)) by done.
  assert (Hstep : forall m q s s', index_ok s -> hl_step m au q s = Next s' -> index_ok s').
  { intros m q s s' H E. pose proof (hl_step_index m au q s H) as H'. by rewrite E in H'. }
  split.
  - intros p s E.
    pose proof (for_loop_inv (hl_step mem au) (fun _ => index_ok) n (b_pos b) (hl_enter state r))
      as Hinv.
    rewrite E in Hinv. destruct Hinv as [_ [H _]]; [done|eauto|done].
  - unfold ngx_http_parse_header_line.
    pose proof (for_loop_inv (hl_step (b_mem b) au) (fun _ => index_ok)
      (Z.to_nat (b_last b - b_pos b)) (b_pos b) (hl_enter state r)) as Hinv.
    destruct (for_loop _ _ _ _) as [p s|x p s].
    + destruct Hinv as [_ [H Hl']]; [done|eauto|]. done.
    + destruct Hinv as (_ & s0 & H & E); [done|eauto|].
      pose proof (hl_step_index (b_mem b) au p s0 H) as H'. rewrite E in H'.
      destruct H' as [H' Hl']. destruct x as [| |rc]; cbn; [done| |]; (split; [|done]).
      * lia.
      * apply hl_step_exit_rc in E as ->. lia.
Qed.

Lemma header_line_index_bound_witness :
  let b := {| b_mem := repeat (C! "a") 70; b_pos := 0; b_last := 70 |} in
  let x := ngx_http_parse_header_line sw_start header_init b false in
  hl_rc x = NGX_AGAIN /\ 0 <= lowcase_index (hl_req x) < NGX_HTTP_LC_HEADER_LEN.
Proof.
  intros b x. split; [reflexivity|].
  apply (header_line_index_bound [] false sw_start header_init b 0);
    [split; [discriminate|reflexivity]|reflexivity|right; reflexivity].
Defined.

(** ** Reading a well-formed line *)

(** The bytes a header name may hold. *)
Definition name_char (au : bool) (c : Z) : Prop :=
  is_byte c /\ (lowcase c <> 0 \/ (c = C! "_" /\ au = true)).

Lemma lowcase_tolower c : is_byte c -> lowcase c <> 0 -> lowcase c = ngx_tolower c.
Proof.
  intros Hb Hc.
  assert (H : (lowcase c =? 0) || (lowcase c =? ngx_tolower c) = true).
  { by apply (byte_forall (fun c => (lowcase c =? 0) || (lowcase c =? ngx_tolower c))). }
  zify_bool. destruct H as [H|H]; zify_bool; done.
Qed.

(** The locals after the bytes [done] of a name. *)
Definition name_read (done : list Z) (s : hl_loc) : Prop :=
  hl_state s = sw_name /\ hl_hash s = ngx_hash_key (ngx_strlow done) /\
  hl_i s = Z.of_nat (length done) mod 32 /\ invalid_header (hl_r s) = false /\
  length (lowcase_header (hl_r s)) = 32%nat /\
  ((length done < 32)%nat -> take (length done) (lowcase_header (hl_r s)) = ngx_strlow done).

Lemma ngx_strlow_app l1 l2 : ngx_strlow (l1 ++ l2) = ngx_strlow l1 ++ ngx_strlow l2.
Proof. induction l1; cbn; [done|]. by f_equal. Qed.

Lemma hl_store_name done c s :
  name_read done s ->
  let s' := hl_store (ngx_tolower c) s in
  name_read (done ++ [c]) s' /\ header_name_start (hl_r s') = header_name_start (hl_r s).
Proof.
  intros (Hst & Hh & Hi & Hinv & Hl & Ht). split; [|done].
  unfold name_read, hl_store. cbn [hl_state hl_hash hl_i hl_r invalid_header lowcase_header].
  rewrite ngx_strlow_app. unfold ngx_hash_key in *.
  rewrite ngx_hash_key_from_app, Hh, length_insert, length_app. cbn [length ngx_strlow].
  split_and!; try done.
  - rewrite Hi. change (32 - 1) with (Z.ones 5). rewrite Z.land_ones by lia.
    change (2 ^ 5) with 32. rewrite Zplus_mod_idemp_l. f_equal. lia.
  - intros Hlen. rewrite Hi. rewrite Z.mod_small by lia. rewrite Nat2Z.id.
    rewrite Nat.add_1_r, (take_S_r _ _ (ngx_tolower c)).
    + rewrite take_insert_ge by lia. by rewrite Ht by lia.
    + apply list_lookup_insert_eq. lia.
Qed.

Section ReadHeader.
Context (mem : list Z) (au : bool).

Lemma hl_name_byte s c q :
  hl_state s = sw_name -> mem_at mem q = c -> name_char au c ->
  hl_step mem au q s = Next (hl_store (ngx_tolower c) s).
Proof.
  intros Hst Hc [Hb Hn]. unfold hl_step. rewrite Hst, Hc. unfold hl_sw_name.
  destruct (Z.eqb_spec (lowcase c) 0) as [E|E]; cbn [negb].
  - destruct Hn as [|[-> ->]]; [done|]. reflexivity.
  - by rewrite lowcase_tolower.
Qed.

Lemma hl_read_name p c0 cs s :
  hl_state s = sw_start -> length (lowcase_header (hl_r s)) = 32%nat ->
  lowcase c0 <> 0 -> Forall (name_char au) (c0 :: cs) -> mem_has mem p (c0 :: cs) ->
  exists s', name_read (c0 :: cs) s' /\ header_name_start (hl_r s') = Some p /\
    forall m, for_loop (hl_step mem au) (S (length cs) + m) p s =
              for_loop (hl_step mem au) m (p + 1 + Z.of_nat (length cs)) s'.
Proof.
  intros Hst Hl Hc0 Hall H. apply Forall_cons in Hall as [[Hb0 _] Hall].
  apply mem_has_cons in H as [E0 H].
  set (s1 := {| hl_state := sw_name; hl_hash := ngx_hash 0 (lowcase c0); hl_i := 1;
     hl_r := {| (hl_r s) with header_name_start := Some p; invalid_header := false;
                lowcase_header := <[0%nat := lowcase c0]> (lowcase_header (hl_r s)) |} |}).
  assert (Hs1 : hl_step mem au p s = Next s1).
  { unfold hl_step, hl_sw_start. rewrite Hst, E0. cbv zeta.
    destruct (Z.eqb_spec c0 13) as [->|]; [by vm_compute in Hc0|].
    destruct (Z.eqb_spec c0 10) as [->|]; [by vm_compute in Hc0|].
    by destruct (Z.eqb_spec (lowcase c0) 0). }
  destruct (for_loop_run (hl_step mem au)
    (fun q s => name_read (c0 :: take (Z.to_nat (q - (p + 1))) cs) s /\
                header_name_start (hl_r s) = Some p) (length cs) (p + 1) s1)
    as (s' & [HP Hnm] & Hrun).
  - rewrite Z.sub_diag. split; [|done]. unfold name_read, s1. cbn.
    rewrite length_insert, lowcase_tolower by done. split_and!; try done.
    intros _. destruct (lowcase_header (hl_r s)); [done|]. reflexivity.
  - intros q s2 Hq [HP Hnm]. set (k := Z.to_nat (q - (p + 1))) in *.
    destruct (lookup_lt_is_Some_2 cs k) as [c Hc]; [lia|].
    assert (Hmem : mem_at mem q = c).
    { replace q with (p + 1 + Z.of_nat k) by lia. rewrite H by lia.
      unfold mem_at. destruct (Z.ltb_spec (Z.of_nat k) 0); [lia|]. rewrite Nat2Z.id.
      by apply nth_lookup_Some. }
    exists (hl_store (ngx_tolower c) s2). split.
    + apply hl_name_byte; [apply HP|done|]. by eapply Forall_lookup_1.
    + destruct (hl_store_name _ c s2 HP) as [HP' Hnm'].
      replace (Z.to_nat (q + 1 - (p + 1))) with (S k) by lia.
      rewrite (take_S_r _ _ c) by done. split; [done|]. by rewrite Hnm'.
  - exists s'. replace (Z.to_nat (p + 1 + Z.of_nat (length cs) - (p + 1))) with (length cs) in HP
      by lia. rewrite take_ge in HP by lia. split; [done|]. split; [done|].
    intros m. cbn [Nat.add]. rewrite (for_loop_next _ _ _ _ _ Hs1). apply Hrun.
Qed.

(** Inside a value that starts at [vs]. *)
Definition in_value (vs : Z) (s0 : hl_loc) (q : Z) (s : hl_loc) : Prop :=
  (hl_state s = sw_value \/ hl_state s = sw_space_after_value) /\
  (mem_at mem (q - 1) <> C! " " -> hl_state s = sw_value) /\
  hl_hash s = hl_hash s0 /\ hl_i s = hl_i s0 /\
  hl_forget {| (hl_r s) with header_end := NULL |} =
  hl_forget {| (hl_r s0) with header_end := NULL; header_start := Some vs |} /\
  header_hash (hl_r s) = header_hash (hl_r s0) /\
  lowcase_index (hl_r s) = lowcase_index (hl_r s0).

Lemma hl_value_byte vs s0 q s :
  in_value vs s0 q s -> clean (mem_at mem q) ->
  exists s', hl_step mem au q s = Next s' /\ in_value vs s0 (q + 1) s'.
Proof.
  intros (Hst & Hsp & ? & ? & ? & ? & ?) (? & ? & ?). unfold hl_step.
  destruct Hst as [Hst|Hst]; rewrite Hst; hl_unfold; cbv zeta;
    repeat case_match; zify_bool; try done;
    (eexists; split; [reflexivity|]); unfold in_value; rewrite Z.add_simpl_r; cbn;
    split_and!; auto; intros; congruence.
Qed.

Lemma hl_read_value p v0 v s :
  hl_state s = sw_space_before_value -> mem_has mem p (v0 :: v) ->
  Forall clean (v0 :: v) -> v0 <> C! " " ->
  exists s', in_value p s (p + 1 + Z.of_nat (length v)) s' /\
    forall m, for_loop (hl_step mem au) (S (length v) + m) p s =
              for_loop (hl_step mem au) m (p + 1 + Z.of_nat (length v)) s'.
Proof.
  intros Hst H Hall Hv0. apply mem_has_cons in H as [E0 H].
  apply Forall_cons in Hall as [(? & ? & ?) Hall].
  set (s1 := {| s with hl_state := sw_value;
                       hl_r := {| (hl_r s) with header_start := Some p |} |}).
  assert (Hs1 : hl_step mem au p s = Next s1).
  { unfold hl_step, hl_sw_space_before_value. rewrite Hst, E0. by decide_tests. }
  destruct (for_loop_run (hl_step mem au) (in_value p s) (length v) (p + 1) s1)
    as (s' & HP & Hrun).
  - unfold in_value, s1. cbn. split_and!; auto.
  - intros q s2 Hq HP. apply hl_value_byte; [done|].
    eapply (mem_has_Forall clean); [done..|lia].
  - exists s'. split; [done|]. intros m. cbn [Nat.add].
    rewrite (for_loop_next _ _ _ _ _ Hs1). apply Hrun.
Qed.

Lemma hl_read_end q s k :
  hl_state s = sw_value -> mem_has mem q (repeat (C! " ") k ++ [CR; LF]) ->
  for_loop (hl_step mem au) (k + 2) q s =
  Broke HlDone (q + Z.of_nat k + 1)
    {| s with hl_state := sw_almost_done; hl_r := {| (hl_r s) with header_end := Some q |} |}.
Proof.
  intros Hst H. apply mem_has_app in H as [Hs H]. rewrite repeat_length in H.
  rewrite !mem_has_cons in H. destruct H as (Ecr & Elf & _).
  destruct k as [|k].
  - rewrite Z.add_0_r in *. cbn [Nat.add].
    erewrite for_loop_next; [|unfold hl_step, hl_sw_value; rewrite Hst, Ecr; reflexivity].
    erewrite for_loop_exit; [|unfold hl_step, hl_sw_almost_done; cbn [hl_state];
      rewrite Elf; reflexivity]. done.
  - apply mem_has_cons in Hs as [Esp Hs]. cbn [Nat.add].
    erewrite for_loop_next; [|unfold hl_step, hl_sw_value; rewrite Hst, Esp; reflexivity].
    rewrite for_loop_stay.
    2:{ intros j Hj.
        assert (mem_at mem j = C! " ") as E.
        { eapply (mem_has_Forall (fun c => c = C! " ")); [done| |rewrite repeat_length; lia].
          apply Forall_forall. intros x Hx. rewrite list_elem_of_In in Hx.
          by apply repeat_spec in Hx. }
        unfold hl_step, hl_sw_space_after_value. cbn [hl_state]. by rewrite E. }
    replace (q + Z.of_nat (S k)) with (q + 1 + Z.of_nat k) in * by lia.
    erewrite for_loop_next; [|unfold hl_step, hl_sw_space_after_value; cbn [hl_state];
      rewrite Ecr; reflexivity].
    erewrite for_loop_exit; [|unfold hl_step, hl_sw_almost_done; cbn [hl_state];
      rewrite Elf; reflexivity]. done.
Qed.

(** The colon and the spaces before the value. *)
Lemma hl_read_colon q s k m :
  hl_state s = sw_name -> mem_has mem q (C! ":" :: repeat (C! " ") k) ->
  for_loop (hl_step mem au) (S k + m) q s =
  for_loop (hl_step mem au) m (q + 1 + Z.of_nat k)
    {| s with hl_state := sw_space_before_value;
              hl_r := {| (hl_r s) with header_name_end := Some q |} |}.
Proof.
  intros Hst H. apply mem_has_cons in H as [E H]. cbn [Nat.add].
  erewrite for_loop_next; [|unfold hl_step, hl_sw_name; rewrite Hst, E; reflexivity].
  apply for_loop_stay. intros j Hj.
  assert (mem_at mem j = C! " ") as E'.
  { eapply (mem_has_Forall (fun c => c = C! " ")); [done| |rewrite repeat_length; lia].
    apply Forall_forall. intros x Hx. rewrite list_elem_of_In in Hx.
    by apply repeat_spec in Hx. }
  unfold hl_step, hl_sw_space_before_value. cbn [hl_state]. by rewrite E'.
Qed.

(** A whole line. *)
Lemma hl_read_line p n0 cs v0 v vl k1 k2 s :
  hl_state s = sw_start -> length (lowcase_header (hl_r s)) = 32%nat ->
  lowcase n0 <> 0 -> Forall (name_char au) (n0 :: cs) ->
  v0 <> C! " " -> last (v0 :: v) = Some vl -> vl <> C! " " -> Forall clean (v0 :: v) ->
  mem_has mem p (n0 :: cs) ->
  let q := p + Z.of_nat (length (n0 :: cs)) in
  mem_has mem q (C! ":" :: repeat (C! " ") k1) ->
  let vs := q + 1 + Z.of_nat k1 in
  mem_has mem vs (v0 :: v) ->
  let ve := vs + Z.of_nat (length (v0 :: v)) in
  mem_has mem ve (repeat (C! " ") k2 ++ [CR; LF]) ->
  exists sn s', name_read (n0 :: cs) sn /\
    for_loop (hl_step mem au) (S (length cs) + (S k1 + (S (length v) + (k2 + 2)))) p s =
      Broke HlDone (ve + Z.of_nat k2 + 1) s' /\
    hl_hash s' = hl_hash sn /\ hl_i s' = hl_i sn /\
    lowcase_header (hl_r s') = lowcase_header (hl_r sn) /\
    invalid_header (hl_r s') = false /\
    header_name_start (hl_r s') = Some p /\ header_name_end (hl_r s') = Some q /\
    header_start (hl_r s') = Some vs /\ header_end (hl_r s') = Some ve.
Proof.
  intros Hst Hl Hlc Hnames Hsp0 Hvl Hspl Hclean H1 q H2 vs H3 ve H4.
  destruct (hl_read_name p n0 cs s) as (sn & Hn & Hns & Hrun1); [done..|].
  rewrite Hrun1. replace (p + 1 + Z.of_nat (length cs)) with q by (unfold q; cbn [length]; lia).
  rewrite hl_read_colon; [|apply Hn|done]. fold vs.
  edestruct (hl_read_value vs v0 v) as (s2 & HP & Hrun2); [|done..|rewrite Hrun2]; [done|].
  replace (vs + 1 + Z.of_nat (length v)) with ve in * by (unfold ve; cbn [length]; lia).
  destruct HP as (_ & Hval & Hh & Hi & Hreq & _ & _).
  assert (Hlast : mem_at mem (ve - 1) = vl).
  { replace (ve - 1) with (vs + Z.of_nat (length v)) by (unfold ve; cbn [length]; lia).
    rewrite H3 by (cbn [length]; lia). rewrite last_lookup in Hvl. cbn [length pred] in Hvl.
    unfold mem_at. destruct (Z.ltb_spec (Z.of_nat (length v)) 0); [lia|]. rewrite Nat2Z.id.
    by apply nth_lookup_Some. }
  rewrite hl_read_end; [|apply Hval; congruence|done].
  exists sn. eexists. split; [done|]. split; [reflexivity|]. cbn in Hh, Hi, Hreq |- *.
  injection Hreq as Hr1 Hr2 Hr3 Hr4 Hr5 Hr6.
  split_and!; try done; [by rewrite Hr5; apply Hn|by rewrite Hr2].
Qed.
End ReadHeader.

(** A header line with [k1] spaces before the value and [k2] after it. *)
Definition print_header_line (name v : list Z) (k1 k2 : nat) : list Z :=
  name ++ B! ":" ++ repeat (C! " ") k1 ++ v ++ repeat (C! " ") k2 ++ [CR; LF].

Lemma header_lowcase_key_read mem name s r p :
  name_read name s -> header_name_start r = Some p ->
  header_name_end r = Some (p + Z.of_nat (length name)) ->
  lowcase_index r = hl_i s -> lowcase_header r = lowcase_header (hl_r s) ->
  slice mem p (p + Z.of_nat (length name)) = name ->
  header_lowcase_key mem r = ngx_strlow name.
Proof.
  intros (_ & _ & Hi & _ & _ & Ht) E1 E2 E3 E4 Hsl. unfold header_lowcase_key.
  rewrite E1, E2. simpl. rewrite Hsl, E3, E4, Hi.
  destruct (Z.eqb_spec (Z.of_nat (length name)) (Z.of_nat (length name) mod 32)) as [E|];
    [|done].
  apply Ht. pose proof (Z.mod_pos_bound (Z.of_nat (length name)) 32). lia.
Qed.

(** A header line whose name has only letters, digits, hyphens (and
    underscores after the first byte, when they are allowed) and whose value
    is non-empty, without NUL, CR and LF and without spaces at its ends, is
    accepted with exactly that name and value marked; the hash saved is
    [ngx_hash_key_lc] of the name and the stored key is the name in lower case. *)
Theorem header_line_roundtrip (pre post name v : list Z) (n0 v0 vl : Z) (au : bool)
    (k1 k2 : nat) (r0 : header_req) :
  length (lowcase_header r0) = 32%nat ->
  head name = Some n0 -> lowcase n0 <> 0 -> Forall (name_char au) name ->
  head v = Some v0 -> v0 <> C! " " -> last v = Some vl -> vl <> C! " " -> Forall clean v ->
  let line := print_header_line name v k1 k2 in
  let mem := pre ++ line ++ post in
  let lo := Z.of_nat (length pre) in
  let hi := Z.of_nat (length pre + length line) in
  let x := ngx_http_parse_header_line sw_start r0 {| b_mem := mem; b_pos := lo; b_last := hi |} au in
  let r := hl_req x in
  hl_rc x = NGX_OK /\ hl_saved x = sw_start /\ b_pos (hl_buf x) = hi /\
  invalid_header r = false /\ header_hash r = ngx_hash_key_lc name /\
  header_lowcase_key mem r = ngx_strlow name /\
  exists ns ne vs ve,
    header_name_start r = Some ns /\ header_name_end r = Some ne /\
    header_start r = Some vs /\ header_end r = Some ve /\
    slice mem ns ne = name /\ slice mem vs ve = v.
Proof.
  intros Hl0 Hn0 Hlc Hnames Hv0 Hsp0 Hvl Hspl Hclean line mem lo hi x r.
  destruct name as [|n0' cs]; [done|]. injection Hn0 as ->.
  destruct v as [|v0' vs]; [done|]. injection Hv0 as ->.
  assert (Hhas : mem_has mem lo line) by apply mem_has_whole.
  unfold line, print_header_line in Hhas. rewrite (app_assoc (B! ":")) in Hhas.
  rewrite !mem_has_app in Hhas. destruct Hhas as (H1 & H2 & H3 & H4).
  rewrite <- mem_has_app in H2, H4.
  change (B! ":" ++ repeat (C! " ") k1) with (C! ":" :: repeat (C! " ") k1) in *.
  cbn [length] in H3, H4. rewrite repeat_length in H3, H4.
  replace (Z.of_nat (S k1)) with (1 + Z.of_nat k1) in H3, H4 by lia.
  rewrite Z.add_assoc in H3, H4.
  destruct (hl_read_line mem au lo n0 cs v0 vs vl k1 k2 (hl_enter sw_start r0))
    as (sn & s' & Hn & Hrun & Hh & Hi & Hlow & Hinv & M1 & M2 & M3 & M4); [done..|].
  assert (Hlen : length line = (S (length cs) + (S k1 + (S (length vs) + (k2 + 2))))%nat).
  { unfold line, print_header_line. rewrite !length_app, !repeat_length. cbn [length]. lia. }
  subst r x. unfold ngx_http_parse_header_line. cbn [b_mem b_pos b_last].
  replace (Z.to_nat (hi - lo)) with (length line) by lia. rewrite Hlen, Hrun.
  cbn [hl_finish hl_rc hl_saved hl_req hl_buf b_pos invalid_header header_hash header_name_start
       header_name_end header_start header_end].
  rewrite Hinv, M1, M2, M3, M4, Hh.
  assert (Hsl : forall p bs, 0 <= p -> p + Z.of_nat (length bs) <= hi -> mem_has mem p bs ->
    slice mem p (p + Z.of_nat (length bs)) = bs).
  { intros p bs ? ? ?. apply mem_has_slice; [done| |done].
    unfold mem. rewrite !length_app. lia. }
  split; [done|]. split; [done|]. split; [unfold hi; rewrite Hlen; cbn [length]; lia|].
  split; [done|]. split.
  { unfold ngx_hash_key_lc. rewrite ngx_hash_key_lc_strlow. apply Hn. }
  split.
  - eapply header_lowcase_key_read; [exact Hn|done..|].
    apply Hsl; [lia|unfold hi; rewrite Hlen; cbn [length]; lia|done].
  - eexists _, _, _, _. split_and!; [done..| |]; apply Hsl; try done; try lia;
      unfold hi; rewrite Hlen; cbn [length]; lia.
Qed.

Lemma header_line_roundtrip_witness :
  let line := print_header_line (B! "X-Id") (B! "a b") 1 0 in
  let x := ngx_http_parse_header_line sw_start header_init
             {| b_mem := line; b_pos := 0; b_last := Z.of_nat (length line) |} false in
  hl_rc x = NGX_OK /\ header_hash (hl_req x) = ngx_hash_key_lc (B! "X-Id").
Proof.
  intros line x.
  destruct (header_line_roundtrip [] [] (B! "X-Id") (B! "a b") (C! "X") (C! "a") (C! "b")
    false 1 0 header_init) as (Hrc & _ & _ & _ & Hh & _);
    [reflexivity|reflexivity|vm_compute; discriminate
    |unfold name_char, is_byte; rewrite !Forall_cons, Forall_nil; split_and!; try done; try lia;
     left; vm_compute; discriminate
    |reflexivity|lia|reflexivity|lia|repeat constructor; lia|].
  split; [exact Hrc|exact Hh].
Defined.

(** The hash and the index are reset only when the first byte of a name is
    a letter, a digit or a hyphen: after a line named Hos, a line named @@@t
    (marked invalid, but kept when [ignore_invalid_headers] is off) is stored
    under the key host and with the hash of host. *)
Theorem header_line_stale_name :
  let line1 := B! "Hos: x" ++ [CR; LF] in
  let line2 := B! "@@@t: y" ++ [CR; LF] in
  let mem := line1 ++ line2 in
  let x1 := ngx_http_parse_header_line sw_start header_init
    {| b_mem := mem; b_pos := 0; b_last := Z.of_nat (length mem) |} false in
  let x2 := ngx_http_parse_header_line (hl_saved x1) (hl_req x1) (hl_buf x1) false in
  let r := hl_req x2 in
  hl_rc x1 = NGX_OK /\ hl_rc x2 = NGX_OK /\ invalid_header r = true /\
  slice mem (default 0 (header_name_start r)) (default 0 (header_name_end r)) = B! "@@@t" /\
  header_lowcase_key mem r = B! "host" /\ header_hash r = ngx_hash_key_lc (B! "host").
Proof. vm_compute. split_and!; reflexivity. Qed.
