(* ===== verification/HttpUri.v ===== *)
(** * Checking and normalising the request target

    [ngx_http_parse_uri] and [ngx_http_parse_complex_uri] of
    src/nginx-1.4.7/src/http/ngx_http_parse.c.  The second one decodes
    percent-escapes, merges slashes and resolves dot segments while it copies
    the target into the buffer [r->uri.data].

    The output buffer is an array with an index [u]; a write outside of the
    array is the outcome [CuFault], which the theorems exclude. *)
From S2P Require Import Prelude HttpChars HttpRequestLine.

(** ** ngx_http_parse_uri *)

Module PU.

(** [http/ngx_http_parse.c:1083-1088] the states of the parser *)
Inductive pu_sw : Type := sw_start | sw_after_slash_in_uri | sw_check_uri | sw_uri.

End PU.

Abbreviation pu_action := (action (PU.pu_sw * request) Z).

(** [http/ngx_http_parse.c:1098-1105] case sw_start *)
Definition pu_sw_start (p ch : Z) (r : request) : pu_action :=
  if negb (ch =? C! "/") then Exit NGX_ERROR (PU.sw_start, r)
  else Next (PU.sw_after_slash_in_uri, r).

(** [http/ngx_http_parse.c:1108-1153] case sw_after_slash_in_uri *)
Definition pu_sw_after_slash_in_uri (p ch : Z) (r : request) : pu_action :=
  if usual ch then Next (PU.sw_check_uri, r)
  else if ch =? C! " " then Next (PU.sw_check_uri, {| r with space_in_uri := true |})
  else if ch =? C! "." then Next (PU.sw_uri, {| r with complex_uri := true |})
  else if ch =? C! "%" then Next (PU.sw_uri, {| r with quoted_uri := true |})
  else if ch =? C! "/" then Next (PU.sw_uri, {| r with complex_uri := true |})
  else if ch =? C! "?" then Next (PU.sw_uri, {| r with args_start := Some (p + 1) |})
  else if ch =? C! "#" then Next (PU.sw_uri, {| r with complex_uri := true |})
  else if ch =? C! "+" then Next (PU.sw_after_slash_in_uri, {| r with plus_in_uri := true |})
  else Next (PU.sw_check_uri, r).

(** [http/ngx_http_parse.c:1156-1202] case sw_check_uri *)
Definition pu_sw_check_uri (p ch : Z) (r : request) : pu_action :=
  if usual ch then Next (PU.sw_check_uri, r)
  else if ch =? C! "/" then Next (PU.sw_after_slash_in_uri, {| r with uri_ext := NULL |})
  else if ch =? C! "." then Next (PU.sw_check_uri, {| r with uri_ext := Some (p + 1) |})
  else if ch =? C! " " then Next (PU.sw_check_uri, {| r with space_in_uri := true |})
  else if ch =? C! "%" then Next (PU.sw_uri, {| r with quoted_uri := true |})
  else if ch =? C! "?" then Next (PU.sw_uri, {| r with args_start := Some (p + 1) |})
  else if ch =? C! "#" then Next (PU.sw_uri, {| r with complex_uri := true |})
  else if ch =? C! "+" then Next (PU.sw_check_uri, {| r with plus_in_uri := true |})
  else Next (PU.sw_check_uri, r).

(** [http/ngx_http_parse.c:1205-1219] case sw_uri *)
Definition pu_sw_uri (p ch : Z) (r : request) : pu_action :=
  if usual ch then Next (PU.sw_uri, r)
  else if ch =? C! " " then Next (PU.sw_uri, {| r with space_in_uri := true |})
  else if ch =? C! "#" then Next (PU.sw_uri, {| r with complex_uri := true |})
  else Next (PU.sw_uri, r).

(** [http/ngx_http_parse.c:1092-1096] switch (state) *)
Definition pu_step (mem : list Z) (p : Z) (s : PU.pu_sw * request) : pu_action :=
  let ch := mem_at mem p in
  match s.1 with
  | PU.sw_start => pu_sw_start p ch s.2
  | PU.sw_after_slash_in_uri => pu_sw_after_slash_in_uri p ch s.2
  | PU.sw_check_uri => pu_sw_check_uri p ch s.2
  | PU.sw_uri => pu_sw_uri p ch s.2
  end.

(** [http/ngx_http_parse.c:1079-1224] ngx_http_parse_uri *)
Definition ngx_http_parse_uri (mem : list Z) (r : request) : Z * request :=
  let start := default 0 (uri_start r) in
  let stop := default 0 (uri_end r) in
  match for_loop (pu_step mem) (Z.to_nat (stop - start)) start (PU.sw_start, r) with
  | Ran _ (_, r') => (NGX_OK, r')
  | Broke rc _ (_, r') => (rc, r')
  end.

(** ** ngx_http_parse_complex_uri *)

Module CU.

(** [http/ngx_http_parse.c:1231-1238] the states of the parser *)
Inductive cu_sw : Type :=
| sw_usual | sw_slash | sw_dot | sw_dot_dot | sw_quoted | sw_quoted_second.

End CU.
Import CU.

(** The locals of the function and the fields of the request it changes.
    [http/ngx_http_parse.c:1230-1251] ngx_http_parse_complex_uri *)
Record cu : Type := {
  cu_state : cu_sw;
  cu_quoted_state : cu_sw;
  cu_p : Z;
  cu_ch : Z;
  cu_decoded : Z;
  cu_u : Z;
  cu_data : list Z;
  cu_uri_ext : ptr;
  cu_args_start : ptr;
  cu_quoted_uri : bool;
  cu_plus_in_uri : bool
}.

Inductive cu_outcome : Type :=
| CuNext (s : cu)
| CuDone (s : cu)
| CuArgs (s : cu)
| CuReturn (rc : Z)
| CuFault.

(** [ch = *p++] *)
Definition cu_read (mem : list Z) (s : cu) : cu :=
  {| s with cu_ch := mem_at mem (cu_p s); cu_p := cu_p s + 1 |}.

(** [*u++ = ch; ch = *p++] *)
Definition cu_emit (mem : list Z) (ch : Z) (s : cu) : cu_outcome :=
  if (0 <=? cu_u s) && (cu_u s <? Z.of_nat (length (cu_data s)))
  then CuNext (cu_read mem {| s with cu_data := <[Z.to_nat (cu_u s) := ch]> (cu_data s);
                                     cu_u := cu_u s + 1 |})
  else CuFault.

(** The branches that every state of the path shares: a percent sign, the
    beginning of the arguments, a fragment, and a byte that is copied.
    [http/ngx_http_parse.c:1358-1373] the common branches *)
Definition cu_common (mem : list Z) (s : cu) : cu_outcome :=
  let ch := cu_ch s in
  if ch =? C! "%" then
    CuNext (cu_read mem {| s with cu_quoted_state := cu_state s; cu_state := sw_quoted |})
  else if ch =? C! "?" then CuArgs {| s with cu_args_start := Some (cu_p s) |}
  else if ch =? C! "#" then CuDone s
  else if ch =? C! "+" then
    cu_emit mem ch {| s with cu_plus_in_uri := true; cu_state := sw_usual |}
  else cu_emit mem ch {| s with cu_state := sw_usual |}.

(** [http/ngx_http_parse.c:1266-1333] case sw_usual *)
Definition cu_sw_usual (mem : list Z) (s : cu) : cu_outcome :=
  let ch := cu_ch s in
  if usual ch then cu_emit mem ch s
  else if ch =? C! "/" then
    cu_emit mem ch {| s with cu_uri_ext := NULL; cu_state := sw_slash |}
  else if ch =? C! "." then cu_emit mem ch {| s with cu_uri_ext := Some (cu_u s + 1) |}
  else cu_common mem s.

(** [http/ngx_http_parse.c:1335-1376] case sw_slash *)
Definition cu_sw_slash (mem : list Z) (merge_slashes : bool) (s : cu) : cu_outcome :=
  let ch := cu_ch s in
  if usual ch then cu_emit mem ch {| s with cu_state := sw_usual |}
  else if ch =? C! "/" then
    if negb merge_slashes then cu_emit mem ch s else CuNext (cu_read mem s)
  else if ch =? C! "." then cu_emit mem ch {| s with cu_state := sw_dot |}
  else cu_common mem s.

(** [http/ngx_http_parse.c:1378-1417] case sw_dot *)
Definition cu_sw_dot (mem : list Z) (s : cu) : cu_outcome :=
  let ch := cu_ch s in
  if usual ch then cu_emit mem ch {| s with cu_state := sw_usual |}
  else if ch =? C! "/" then
    CuNext (cu_read mem {| s with cu_state := sw_slash; cu_u := cu_u s - 1 |})
  else if ch =? C! "." then cu_emit mem ch {| s with cu_state := sw_dot_dot |}
  else cu_common mem s.

(** The inner loop of sw_dot_dot: from index [n] down to the first slash.
    [http/ngx_http_parse.c:1435-1444] for ( ;; ) *)
Fixpoint cu_back (data : list Z) (n : nat) : option Z :=
  if mem_at data (Z.of_nat n) =? C! "/" then Some (Z.of_nat n + 1)
  else match n with
       | O => None
       | S n' => cu_back data n'
       end.

(** [http/ngx_http_parse.c:1419-1464] case sw_dot_dot *)
Definition cu_sw_dot_dot (mem : list Z) (s : cu) : cu_outcome :=
  let ch := cu_ch s in
  if usual ch then cu_emit mem ch {| s with cu_state := sw_usual |}
  else if ch =? C! "/" then
    let u := cu_u s - 5 in
    match (if u <? 0 then None else cu_back (cu_data s) (Z.to_nat u)) with
    | None => CuReturn NGX_HTTP_PARSE_INVALID_REQUEST
    | Some u' => CuNext (cu_read mem {| s with cu_state := sw_slash; cu_u := u' |})
    end
  else cu_common mem s.

(** [http/ngx_http_parse.c:1466-1484] case sw_quoted *)
Definition cu_sw_quoted (mem : list Z) (s : cu) : cu_outcome :=
  let s := {| s with cu_quoted_uri := true |} in
  let ch := cu_ch s in
  if is_digit ch then
    CuNext (cu_read mem {| s with cu_decoded := u8 (ch - C! "0"); cu_state := sw_quoted_second |})
  else
    let c := lcase ch in
    if (C! "a" <=? c) && (c <=? C! "f") then
      CuNext (cu_read mem {| s with cu_decoded := u8 (c - C! "a" + 10);
                                    cu_state := sw_quoted_second |})
    else CuReturn NGX_HTTP_PARSE_INVALID_REQUEST.

(** [http/ngx_http_parse.c:1486-1522] case sw_quoted_second *)
Definition cu_sw_quoted_second (mem : list Z) (s : cu) : cu_outcome :=
  let ch := cu_ch s in
  if is_digit ch then
    let ch := u8 (Z.shiftl (cu_decoded s) 4 + ch - C! "0") in
    if (ch =? C! "%") || (ch =? C! "#") then
      cu_emit mem ch {| s with cu_ch := ch; cu_state := sw_usual |}
    else if ch =? 0 then CuReturn NGX_HTTP_PARSE_INVALID_REQUEST
    else CuNext {| s with cu_ch := ch; cu_state := cu_quoted_state s |}
  else
    let c := lcase ch in
    if (C! "a" <=? c) && (c <=? C! "f") then
      let ch := u8 (Z.shiftl (cu_decoded s) 4 + c - C! "a" + 10) in
      if ch =? C! "?" then
        cu_emit mem ch {| s with cu_ch := ch; cu_state := sw_usual |}
      else
        let s := if ch =? C! "+" then {| s with cu_plus_in_uri := true |} else s in
        CuNext {| s with cu_ch := ch; cu_state := cu_quoted_state s |}
    else CuReturn NGX_HTTP_PARSE_INVALID_REQUEST.

(** [http/ngx_http_parse.c:1253-1264] switch (state) *)
Definition cu_step (mem : list Z) (merge_slashes : bool) (s : cu) : cu_outcome :=
  match cu_state s with
  | sw_usual => cu_sw_usual mem s
  | sw_slash => cu_sw_slash mem merge_slashes s
  | sw_dot => cu_sw_dot mem s
  | sw_dot_dot => cu_sw_dot_dot mem s
  | sw_quoted => cu_sw_quoted mem s
  | sw_quoted_second => cu_sw_quoted_second mem s
  end.

(** [while (p <= r->uri_end)]: [None] when the fuel runs out.
    [http/ngx_http_parse.c:1253-1524] while (p <= r->uri_end) *)
Fixpoint cu_loop (mem : list Z) (merge_slashes : bool) (stop : Z) (fuel : nat) (s : cu)
    : option cu_outcome :=
  match fuel with
  | O => None
  | S fuel' =>
      if cu_p s <=? stop then
        match cu_step mem merge_slashes s with
        | CuNext s' => cu_loop mem merge_slashes stop fuel' s'
        | o => Some o
        end
      else Some (CuDone s)
  end.

(** What the call leaves in the request; strings are (offset, length), the
    extension an offset into [r->uri.data] and the arguments into the target. *)
Record uri_result : Type := {
  ur_len : Z;
  ur_data : list Z;
  ur_exten : option (Z * Z);
  ur_args : option (Z * Z);
  ur_args_start : ptr;
  ur_quoted_uri : bool;
  ur_plus_in_uri : bool
}.

(** [http/ngx_http_parse.c:1526-1537] done *)
Definition cu_done (s : cu) (args : option (Z * Z)) (args_start : ptr) : uri_result := {|
  ur_len := cu_u s; ur_data := cu_data s;
  ur_exten := (fun e => (e, cu_u s - e)) <$> cu_uri_ext s;
  ur_args := args; ur_args_start := args_start;
  ur_quoted_uri := cu_quoted_uri s; ur_plus_in_uri := cu_plus_in_uri s |}.

(** The position of a fragment in the arguments.
    [http/ngx_http_parse.c:1541-1551] while (p < r->uri_end) *)
Fixpoint cu_args_hash (mem : list Z) (n : nat) (p : Z) : option Z :=
  match n with
  | O => None
  | S n' => if mem_at mem p =? C! "#" then Some p else cu_args_hash mem n' (p + 1)
  end.

(** [http/ngx_http_parse.c:1539-1563] args *)
Definition cu_args (mem : list Z) (stop : Z) (s : cu) : uri_result :=
  let start := default 0 (cu_args_start s) in
  match cu_args_hash mem (Z.to_nat (stop - cu_p s)) (cu_p s) with
  | Some q => cu_done s (Some (start, q - start)) NULL
  | None => cu_done s None (cu_args_start s)
  end.

Inductive uri_answer : Type :=
| UriOk (u : uri_result)
| UriError (rc : Z)
| UriFault
| UriNoFuel.

(** [http/ngx_http_parse.c:1245-1251] ngx_http_parse_complex_uri *)
Definition cu_init (mem : list Z) (start : Z) (data : list Z) (quoted plus : bool) : cu := {|
  cu_state := sw_usual; cu_quoted_state := sw_usual;
  cu_p := start + 1; cu_ch := mem_at mem start; cu_decoded := 0;
  cu_u := 0; cu_data := data; cu_uri_ext := NULL; cu_args_start := NULL;
  cu_quoted_uri := quoted; cu_plus_in_uri := plus |}.

(** Every byte takes at most two iterations.
    [http/ngx_http_parse.c:1227-1563] ngx_http_parse_complex_uri *)
Definition ngx_http_parse_complex_uri (mem : list Z) (start stop : Z) (data : list Z)
    (quoted plus merge_slashes : bool) : uri_answer :=
  match cu_loop mem merge_slashes stop (Z.to_nat (2 * (stop - start) + 2))
          (cu_init mem start data quoted plus) with
  | None => UriNoFuel
  | Some (CuNext _) => UriNoFuel
  | Some (CuDone s) => UriOk (cu_done s None NULL)
  | Some (CuArgs s) => UriOk (cu_args mem stop s)
  | Some (CuReturn rc) => UriError rc
  | Some CuFault => UriFault
  end.

(** The target [bs], with the byte that follows it, into a buffer as
    [ngx_http_process_request_uri] allocates it. *)
Definition normalize (merge_slashes : bool) (bs : list Z) : uri_answer :=
  ngx_http_parse_complex_uri (bs ++ [C! " "]) 0 (Z.of_nat (length bs))
    (repeat 0 (length bs + 1)) false false merge_slashes.

Definition uri_bytes (a : uri_answer) : option (list Z) :=
  match a with
  | UriOk u => Some (take (Z.to_nat (ur_len u)) (ur_data u))
  | _ => None
  end.

Example normalize_1 :
  uri_bytes (normalize true (B! "/a//b/%2e%2E/./c.txt?x")) = Some (B! "/a/c.txt").
Proof. vm_compute. reflexivity. Qed.

(** ** Memory safety and termination *)

#[local] Arguments usual : simpl never.
#[local] Arguments lcase : simpl never.

Ltac cu_unfold :=
  unfold cu_step, cu_sw_usual, cu_sw_slash, cu_sw_dot, cu_sw_dot_dot, cu_sw_quoted,
    cu_sw_quoted_second, cu_common, cu_emit.

(** The state that will treat the next byte of the path. *)
Definition path_state (s : cu) : cu_sw :=
  match cu_state s with
  | sw_quoted | sw_quoted_second => cu_quoted_state s
  | st => st
  end.

Definition is_path_state (st : cu_sw) : Prop :=
  match st with sw_quoted | sw_quoted_second => False | _ => True end.

Lemma path_state_id s : is_path_state (cu_state s) -> path_state s = cu_state s.
Proof. unfold path_state. by destruct (cu_state s). Qed.

(** [lim] is the end of the target, or a question mark in it. *)
Definition limit (mem : list Z) (start lim stop : Z) : Prop :=
  start <= lim <= stop /\ (lim = stop \/ mem_at mem lim = C! "?").

Definition cu_safe (mem : list Z) (start lim : Z) (s : cu) : Prop :=
  start + 1 <= cu_p s <= lim + 1 /\ 0 <= cu_u s <= cu_p s - 1 - start /\
  is_path_state (cu_quoted_state s) /\
  lim - start + 1 <= Z.of_nat (length (cu_data s)) /\
  (mem_at mem (cu_p s - 1) = C! "?" -> cu_ch s = C! "?") /\
  (path_state s = sw_dot -> 1 <= cu_u s).

Lemma cu_back_bound data n u : cu_back data n = Some u -> 1 <= u <= Z.of_nat n + 1.
Proof.
  revert u. induction n as [|n IH]; intros u; cbn; case_match; try done.
  - intros [= <-]. lia.
  - intros [= <-]. lia.
  - intros H'. apply IH in H'. lia.
Qed.

(** A question mark never goes to the next byte. *)
Lemma cu_step_question mem merge s s' :
  cu_ch s = C! "?" -> cu_step mem merge s <> CuNext s'.
Proof.
  intros Hch. destruct s as [[] q p ch d u da e a qu pl]; cbn in Hch; subst ch;
    vm_compute; discriminate.
Qed.

(** What a step that goes on does to the position: it reads the next byte, or
    it is the second digit of an escape, which gives the byte to the state
    before the escape. *)
Lemma cu_step_read mem merge s s' :
  cu_step mem merge s = CuNext s' ->
  (cu_p s' = cu_p s + 1 /\ cu_ch s' = mem_at mem (cu_p s)) \/
  (cu_state s = sw_quoted_second /\ cu_p s' = cu_p s /\ cu_state s' = cu_quoted_state s /\
   cu_u s' = cu_u s /\ cu_data s' = cu_data s /\ cu_quoted_state s' = cu_quoted_state s).
Proof.
  cu_unfold. destruct (cu_state s); repeat case_match; intros; simplify_eq; cbn; auto.
  all: right; by split_and!.
Qed.

(** The index moves by at most one forward, or back to after a slash. *)
Lemma cu_step_index mem merge s s' :
  cu_step mem merge s = CuNext s' -> is_path_state (cu_quoted_state s) ->
  (path_state s = sw_dot -> 1 <= cu_u s) -> 0 <= cu_u s ->
  0 <= cu_u s' <= cu_u s + 1 /\ is_path_state (cu_quoted_state s') /\
  length (cu_data s') = length (cu_data s) /\
  (path_state s' = sw_dot -> 1 <= cu_u s') /\
  (cu_state s = sw_quoted_second -> cu_p s' = cu_p s -> cu_u s' = cu_u s).
Proof.
  intros E Hq Hdot Hu. revert E. unfold path_state in *.
  cu_unfold. destruct (cu_state s) eqn:Est; repeat case_match; intros; simplify_eq; cbn in *;
    rewrite ?length_insert; zify_bool;
    try (match goal with H : cu_back _ _ = Some _ |- _ => apply cu_back_bound in H end);
    split_and!; try done; try lia; auto; intros; try lia; try congruence;
    try (specialize (Hdot eq_refl); lia).
Qed.

Lemma cu_safe_step mem merge start lim stop s s' :
  limit mem start lim stop -> cu_safe mem start lim s -> cu_p s <= stop ->
  cu_step mem merge s = CuNext s' -> cu_safe mem start lim s'.
Proof.
  intros [Hlim Hq] (Hp & Hu & Hqs & Hlen & Hch & Hdot) Hstop E.
  destruct (cu_step_index mem merge s s') as (Hu' & Hqs' & Hlen' & Hdot' & Hsame);
    [done|done|done|lia|].
  assert (Hnq : mem_at mem (cu_p s - 1) <> C! "?").
  { intros Hm. by apply (cu_step_question mem merge s s'); [apply Hch|]. }
  unfold cu_safe. rewrite Hlen'.
  destruct (cu_step_read mem merge s s' E) as [[Hp' Hch']|(Hst & Hp' & _ & Hu'' & _)].
  - assert (cu_p s <= lim).
    { destruct Hq as [->|Hm]; [done|]. destruct (Z.eq_dec (cu_p s) (lim + 1)) as [Hc|]; [|lia].
      exfalso. apply Hnq. by replace (cu_p s - 1) with lim by lia. }
    split_and!; try done; try lia.
    rewrite Hp', Hch', Z.add_simpl_r. done.
  - rewrite Hp', Hu''. split_and!; try done; try lia. by rewrite Hu'' in Hdot'.
Qed.

Lemma cu_safe_no_fault mem merge start lim s :
  cu_safe mem start lim s -> cu_step mem merge s <> CuFault.
Proof.
  intros (Hp & Hu & Hqs & Hlen & Hch & Hdot).
  cu_unfold. destruct (cu_state s); repeat case_match; zify_bool; cbn in *; try done;
    match goal with H : _ \/ _ |- _ => destruct H; zify_bool; lia end.
Qed.

(** Every step that goes on makes this smaller. *)
Definition cu_measure (stop : Z) (s : cu) : Z :=
  2 * (stop + 1 - cu_p s)
  + match cu_state s with sw_quoted_second => 1 | _ => 0 end.

Lemma cu_measure_step mem merge stop s s' :
  is_path_state (cu_quoted_state s) ->
  cu_step mem merge s = CuNext s' -> cu_measure stop s' < cu_measure stop s.
Proof.
  intros Hqs E. unfold cu_measure.
  destruct (cu_step_read mem merge s s' E) as [[Hp' _]|(Hst & Hp' & Hst' & _)].
  - rewrite Hp'. repeat case_match; lia.
  - rewrite Hst, Hst', Hp'. destruct (cu_quoted_state s); cbn in Hqs; try done; lia.
Qed.

(** With enough fuel the loop ends, without a fault, in a safe state. *)
Lemma cu_loop_safe mem merge start lim stop fuel s :
  limit mem start lim stop -> cu_safe mem start lim s ->
  cu_measure stop s < Z.of_nat fuel -> 
  match cu_loop mem merge stop fuel s with
  | Some (CuDone s') | Some (CuArgs s') =>
      exists s0, cu_safe mem start lim s0 /\ cu_u s' = cu_u s0 /\ cu_data s' = cu_data s0
  | Some (CuReturn rc) => rc = NGX_HTTP_PARSE_INVALID_REQUEST
  | _ => False
  end.
Proof.
  intros Hlim. revert s. induction fuel as [|fuel IH]; intros s Hs Hm.
  - exfalso. destruct Hs as (Hp & _). destruct Hlim as [? _]. unfold cu_measure in Hm.
    case_match; lia.
  - cbn [cu_loop]. destruct (Z.leb_spec (cu_p s) stop) as [Hstop|]; [|by exists s].
    destruct (cu_step mem merge s) as [s'|s'|s'|rc|] eqn:E.
    + apply IH; [by eapply cu_safe_step|].
      pose proof (cu_measure_step mem merge stop s s'). destruct Hs as (_ & _ & Hqs & _).
      specialize (H Hqs E). lia.
    + exists s. split; [done|]. revert E. cu_unfold.
      destruct (cu_state s); repeat case_match; intros; by simplify_eq.
    + exists s. split; [done|]. revert E. cu_unfold.
      destruct (cu_state s); repeat case_match; intros; by simplify_eq.
    + revert E. cu_unfold. destruct (cu_state s); repeat case_match; intros; by simplify_eq.
    + by apply (cu_safe_no_fault mem merge start lim s).
Qed.

Lemma cu_init_safe mem start lim stop data quoted plus :
  limit mem start lim stop -> lim - start + 1 <= Z.of_nat (length data) ->
  cu_safe mem start lim (cu_init mem start data quoted plus).
Proof.
  intros [? _] Hlen. unfold cu_safe. cbn. rewrite Z.add_simpl_r.
  split_and!; try done; lia.
Qed.

(** C29: on any target, with a buffer of the size that
    [ngx_http_process_request_uri] allocates (the target up to its arguments,
    and one more byte), the function terminates, never writes outside of the
    buffer, and answers [NGX_OK] with a result that fits in it or
    [NGX_HTTP_PARSE_INVALID_REQUEST]. *)
Theorem complex_uri_safe (mem : list Z) (start lim stop : Z) (data : list Z)
    (quoted plus merge : bool) :
  limit mem start lim stop -> lim - start + 1 <= Z.of_nat (length data) ->
  match ngx_http_parse_complex_uri mem start stop data quoted plus merge with
  | UriOk u => 0 <= ur_len u <= lim - start /\ lim - start < Z.of_nat (length (ur_data u))
  | UriError rc => rc = NGX_HTTP_PARSE_INVALID_REQUEST
  | UriFault | UriNoFuel => False
  end.
Proof.
  intros Hlim Hlen. unfold ngx_http_parse_complex_uri.
  pose proof (cu_loop_safe mem merge start lim stop (Z.to_nat (2 * (stop - start) + 2))
    (cu_init mem start data quoted plus) Hlim) as H.
  destruct (cu_loop _ _ _ _ _) as [[s|s|s|rc|]|].
  all: destruct H; try by eapply cu_init_safe.
  all: try (unfold cu_measure; cbn; destruct Hlim; lia).
  all: destruct H as ((Hp & Hu & _ & Hl & _) & Eu & Ed); cbn; unfold cu_args;
    repeat case_match; cbn; rewrite Eu, Ed; lia.
Qed.

Lemma complex_uri_safe_witness :
  let bs := B! "/a/../b%20c?d" in
  limit bs 0 11 13 /\
  match ngx_http_parse_complex_uri bs 0 13 (repeat 0 12) false false true with
  | UriOk u => 0 <= ur_len u <= 11 /\ 11 < Z.of_nat (length (ur_data u))
  | UriError rc => rc = NGX_HTTP_PARSE_INVALID_REQUEST
  | UriFault | UriNoFuel => False
  end.
Proof.
  intros bs. assert (H : limit bs 0 11 13) by (split; [lia|right; reflexivity]).
  split; [exact H|].
  apply (complex_uri_safe bs 0 11 13 (repeat 0 12) false false true H). vm_compute. discriminate.
Defined.

(** ** No dot segment survives in the middle of the path *)

(** What has been written so far. *)
Definition cu_out (s : cu) : list Z := take (Z.to_nat (cu_u s)) (cu_data s).

Definition no_dots (l : list Z) : Prop :=
  forall pre post, l <> pre ++ B! "/./" ++ post /\ l <> pre ++ B! "/../" ++ post.

Definition ends_with (l suf : list Z) : Prop := exists pre, l = pre ++ suf.

(** The end of the output in each state of the path. *)
Definition tail_shape (st : cu_sw) (l : list Z) : Prop :=
  match st with
  | sw_usual => ~ ends_with l (B! "/") /\ ~ ends_with l (B! "/.") /\ ~ ends_with l (B! "/..")
  | sw_slash => ends_with l (B! "/")
  | sw_dot => ends_with l (B! "/.")
  | sw_dot_dot => ends_with l (B! "/..")
  | _ => True
  end.

Lemma no_dots_snoc l c :
  no_dots l -> (c = C! "/" -> ~ ends_with l (B! "/.") /\ ~ ends_with l (B! "/..")) ->
  no_dots (l ++ [c]).
Proof.
  intros Hl Hc pre post.
  destruct post as [|d post _] using rev_ind.
  - split; intros E.
    + change (B! "/./" ++ []) with (B! "/." ++ B! "/") in E. rewrite app_assoc in E.
      apply app_inj_tail in E as [-> ->]. destruct Hc as [H _]; [done|]. apply H. by eexists.
    + change (B! "/../" ++ []) with (B! "/.." ++ B! "/") in E. rewrite app_assoc in E.
      apply app_inj_tail in E as [-> ->]. destruct Hc as [_ H]; [done|]. apply H. by eexists.
  - rewrite !app_assoc. destruct (Hl pre post) as [H1 H2]. rewrite !app_assoc in H1, H2.
    split; intros E; apply app_inj_tail in E as [E _]; [by apply H1|by apply H2].
Qed.

Lemma no_dots_prefix l1 l2 : no_dots (l1 ++ l2) -> no_dots l1.
Proof.
  intros H pre post. destruct (H pre (post ++ l2)) as [H1 H2].
  split; intros ->; [apply H1|apply H2]; by rewrite <- !app_assoc.
Qed.

Lemma ends_with_snoc l c suf d :
  ends_with (l ++ [c]) (suf ++ [d]) <-> c = d /\ ends_with l suf.
Proof.
  split.
  - intros [pre E]. rewrite app_assoc in E. apply app_inj_tail in E as [-> ->].
    split; [done|]. by eexists.
  - intros [-> [pre ->]]. exists pre. by rewrite app_assoc.
Qed.

(** Appending a byte that is neither a slash nor a dot gives the shape of
    sw_usual, and so does a third dot. *)
Lemma tail_shape_usual l c :
  c <> C! "/" -> (c = C! "." -> tail_shape sw_usual l \/ ends_with l (B! "/..")) ->
  tail_shape sw_usual (l ++ [c]).
Proof.
  intros Hc Hdot.
  change (B! "/") with ([] ++ B! "/"). cbn [tail_shape].
  change (B! "/") with ([] ++ B! "/"). change (B! "/.") with (B! "/" ++ B! ".").
  change (B! "/..") with (B! "/." ++ B! ".") in *.
  rewrite !ends_with_snoc.
  split_and!; [by intros [-> _]|intros [-> H]|intros [-> H]].
  - destruct Hdot as [(H' & _ & _)|[pre ->]]; [done|done|].
    change (B! "/") with ([] ++ B! "/") in H. rewrite app_assoc, ends_with_snoc in H. by destruct H.
  - destruct Hdot as [(_ & H' & _)|[pre ->]]; [done|done|].
    change (B! "/.") with (B! "/" ++ B! ".") in H.
    rewrite app_assoc, ends_with_snoc in H. destruct H as [_ H].
    change (B! "/.") with (B! "/" ++ B! ".") in H.
    change (B! "/") with ([] ++ B! "/") in H at 2.
    rewrite app_assoc, ends_with_snoc in H. by destruct H.
Qed.

Lemma take_emit (data : list Z) u c :
  0 <= u < Z.of_nat (length data) ->
  take (Z.to_nat (u + 1)) (<[Z.to_nat u := c]> data) = take (Z.to_nat u) data ++ [c].
Proof.
  intros Hu. replace (Z.to_nat (u + 1)) with (S (Z.to_nat u)) by lia.
  rewrite (take_S_r _ _ c).
  - by rewrite take_insert_ge by lia.
  - apply list_lookup_insert_eq. lia.
Qed.

Lemma cu_emit_spec mem c s s' :
  cu_emit mem c s = CuNext s' ->
  cu_out s' = cu_out s ++ [c] /\ cu_state s' = cu_state s /\
  cu_quoted_state s' = cu_quoted_state s.
Proof.
  unfold cu_emit. case_match; [|done]. intros [= <-]. zify_bool.
  unfold cu_out. cbn. by rewrite take_emit by lia.
Qed.

Lemma cu_back_spec data n u :
  cu_back data n = Some u -> mem_at data (u - 1) = C! "/" /\ 1 <= u <= Z.of_nat n + 1.
Proof.
  revert u. induction n as [|n IH]; intros u; cbn; case_match; try done.
  - intros [= <-]. zify_bool. split; [|lia]. by rewrite Z.add_simpl_r.
  - intros [= <-]. zify_bool. split; [|lia]. by rewrite Z.add_simpl_r.
  - intros H'. apply IH in H' as [? ?]. split; [done|lia].
Qed.

Lemma take_ends_slash (data : list Z) u :
  1 <= u <= Z.of_nat (length data) -> mem_at data (u - 1) = C! "/" ->
  ends_with (take (Z.to_nat u) data) (B! "/").
Proof.
  intros Hu Hs. exists (take (Z.to_nat (u - 1)) data).
  replace (Z.to_nat u) with (S (Z.to_nat (u - 1))) by lia. apply take_S_r.
  unfold mem_at in Hs. destruct (Z.ltb_spec (u - 1) 0); [lia|].
  rewrite <- Hs. destruct (lookup_lt_is_Some_2 data (Z.to_nat (u - 1))) as [c Hc]; [lia|].
  rewrite Hc. f_equal. symmetry. by apply nth_lookup_Some.
Qed.

Lemma take_shorter (data : list Z) u u' :
  0 <= u' <= u ->
  exists tl, take (Z.to_nat u) data = take (Z.to_nat u') data ++ tl.
Proof.
  intros. exists (drop (Z.to_nat u') (take (Z.to_nat u) data)).
  rewrite <- (take_drop (Z.to_nat u') (take (Z.to_nat u) data)) at 1.
  rewrite take_take. do 2 f_equal. lia.
Qed.

Definition starts_slash (l : list Z) : Prop := head l = Some (C! "/").

Lemma starts_slash_app l1 l2 : starts_slash l1 -> starts_slash (l1 ++ l2).
Proof. by destruct l1. Qed.

Lemma starts_slash_prefix l1 l2 : starts_slash (l1 ++ l2) -> l1 <> [] -> starts_slash l1.
Proof. by destruct l1. Qed.

Definition cu_clean (s : cu) : Prop :=
  no_dots (cu_out s) /\ tail_shape (path_state s) (cu_out s) /\
  starts_slash (cu_out s).

Lemma cu_clean_started s : cu_clean s -> starts_slash (cu_out s).
Proof. by intros (_ & _ & ?). Qed.

(** A byte other than a slash, copied in state sw_usual. *)
Lemma cu_clean_emit mem c s0 s s' :
  cu_emit mem c s = CuNext s' -> cu_out s = cu_out s0 -> cu_state s = sw_usual ->
  cu_clean s0 -> c <> C! "/" ->
  (c = C! "." -> path_state s0 = sw_usual \/ path_state s0 = sw_dot_dot) ->
  cu_clean s'.
Proof.
  intros E Hout Hst (Hn & Hsh & Hstart) Hc Hdot.
  apply cu_emit_spec in E as (Eo & Es & Eq). unfold cu_clean, path_state.
  rewrite Eo, Es, Hst, Hout. split_and!.
  - by apply no_dots_snoc.
  - apply tail_shape_usual; [done|]. intros ->.
    destruct (Hdot eq_refl) as [E|E]; rewrite E in Hsh; [by left|by right].
  - by apply starts_slash_app.
Qed.

(** A step that writes nothing and keeps the state of the path. *)
Lemma cu_clean_keep s s' :
  cu_clean s -> cu_out s' = cu_out s -> path_state s' = path_state s -> cu_clean s'.
Proof. intros ? Eo Ep. unfold cu_clean. by rewrite Eo, Ep. Qed.

Lemma cu_clean_common mem s s' :
  cu_common mem s = CuNext s' -> is_path_state (cu_state s) -> cu_clean s ->
  cu_ch s <> C! "/" ->
  (cu_ch s = C! "." -> cu_state s = sw_usual \/ cu_state s = sw_dot_dot) -> cu_clean s'.
Proof.
  intros E Hp Hs Hsl Hdot. revert E. unfold cu_common.
  rewrite <- path_state_id in Hdot by done.
  repeat case_match; intros E; try done; zify_bool.
  - injection E as <-. eapply cu_clean_keep; [done|done|].
    by rewrite (path_state_id s).
  - eapply (cu_clean_emit mem _ s); [exact E|done..].
  - eapply (cu_clean_emit mem _ s); [exact E|done..].
Qed.

(** Writing a slash. *)
Lemma cu_clean_slash mem s0 s s' :
  cu_emit mem (C! "/") s = CuNext s' -> cu_out s = cu_out s0 -> cu_state s = sw_slash ->
  cu_clean s0 -> ~ ends_with (cu_out s0) (B! "/.") -> ~ ends_with (cu_out s0) (B! "/..") ->
  cu_clean s'.
Proof.
  intros E Hout Hst (Hn & _ & Hs) H1 H2.
  apply cu_emit_spec in E as (Eo & Es & Eq). unfold cu_clean, path_state.
  rewrite Eo, Es, Hst, Hout. split_and!.
  - by apply no_dots_snoc.
  - by eexists.
  - by apply starts_slash_app.
Qed.

(** Writing a dot after a slash, or after a slash and a dot. *)
Lemma cu_clean_dot mem st suf s0 s s' :
  cu_emit mem (C! ".") s = CuNext s' -> cu_out s = cu_out s0 -> cu_state s = st ->
  cu_clean s0 -> ends_with (cu_out s0) suf ->
  (st = sw_dot /\ suf = B! "/" \/ st = sw_dot_dot /\ suf = B! "/.") -> cu_clean s'.
Proof.
  intros E Hout Hst (Hn & _ & Hs) [pre Hsuf] Hcase.
  apply cu_emit_spec in E as (Eo & Es & Eq). unfold cu_clean, path_state.
  rewrite Eo, Es, Hst, Hout. split_and!.
  - by apply no_dots_snoc.
  - rewrite Hsuf. destruct Hcase as [[-> ->]|[-> ->]]; exists pre; by rewrite <- app_assoc.
  - by apply starts_slash_app.
Qed.

(** Going back to the first [u] bytes, which end with a slash. *)
Lemma cu_clean_back s s' u :
  cu_clean s -> 1 <= u <= cu_u s ->
  cu_u s <= Z.of_nat (length (cu_data s)) ->
  mem_at (cu_data s) (u - 1) = C! "/" ->
  cu_u s' = u -> cu_data s' = cu_data s -> cu_state s' = sw_slash -> cu_clean s'.
Proof.
  intros (Hn & _ & Hs) Hu Hlen Hsl E1 E2 E3. unfold cu_clean, path_state, cu_out in *.
  rewrite E1, E2, E3. destruct (take_shorter (cu_data s) (cu_u s) u) as [tl Etl]; [lia|].
  pose proof (take_ends_slash (cu_data s) u ltac:(lia) Hsl) as Hends.
  rewrite Etl in Hn, Hs. split_and!; [by eapply no_dots_prefix|done|].
  eapply starts_slash_prefix; [done|]. destruct Hends as [pre ->]. by destruct pre.
Qed.

Lemma usual_not_slash ch : usual ch = true -> ch <> C! "/" /\ ch <> C! ".".
Proof. intros H; split; intros ->; vm_compute in H; done. Qed.

Lemma ends_slash_not_dot l :
  ends_with l (B! "/") -> ~ ends_with l (B! "/.") /\ ~ ends_with l (B! "/..").
Proof.
  intros [pre ->].
  change (B! "/..") with (B! "/." ++ B! "."). change (B! "/.") with (B! "/" ++ B! ".").
  rewrite !ends_with_snoc. split; by intros [? _].
Qed.

(** The slash before a dot that has been written. *)
Lemma cu_out_slash_dot s :
  0 <= cu_u s <= Z.of_nat (length (cu_data s)) -> ends_with (cu_out s) (B! "/.") ->
  2 <= cu_u s /\ mem_at (cu_data s) (cu_u s - 1 - 1) = C! "/".
Proof.
  intros Hu [pre E]. unfold cu_out in E.
  assert (Hl : length (take (Z.to_nat (cu_u s)) (cu_data s)) = Z.to_nat (cu_u s))
    by (rewrite length_take; lia).
  rewrite E, length_app in Hl. cbn in Hl. split; [lia|].
  rewrite <- (take_drop (Z.to_nat (cu_u s)) (cu_data s)), E, <- app_assoc.
  replace (cu_u s - 1 - 1) with (Z.of_nat (length pre) + 0) by lia.
  by rewrite mem_at_app_r.
Qed.

Lemma cu_clean_step_path mem merge start lim s s' :
  cu_safe mem start lim s -> cu_clean s -> is_path_state (cu_state s) ->
  cu_step mem merge s = CuNext s' -> cu_clean s'.
Proof.
  intros Hsafe Hs Hp E. pose proof (path_state_id s Hp) as Hps.
  assert (Hul : 0 <= cu_u s <= Z.of_nat (length (cu_data s)))
    by (destruct Hsafe as (? & ? & ? & ? & _); lia).
  assert (Hsh : tail_shape (cu_state s) (cu_out s)) by (rewrite <- Hps; apply Hs).
  assert (Husual : forall t, usual (cu_ch s) = true -> cu_emit mem (cu_ch s) t = CuNext s' ->
    cu_out t = cu_out s -> cu_state t = sw_usual -> cu_clean s').
  { intros t Hu E' Eo Es. apply usual_not_slash in Hu as [? ?].
    eapply (cu_clean_emit mem _ s); [exact E'|done..]. }
  unfold cu_step in E. destruct (cu_state s) eqn:Est; try done; revert E.
  - (* sw_usual *) unfold cu_sw_usual. repeat case_match; intros E; zify_bool.
    + by eapply Husual.
    + rewrite H0 in E. destruct Hsh as (_ & H1 & H2). eapply (cu_clean_slash mem s); [exact E|done..].
    + rewrite H1 in E. eapply (cu_clean_emit mem _ s); 
        [exact E|done|done|done|done|rewrite Hps; by left].
    + eapply cu_clean_common; [exact E|by rewrite Est|done..].
  - (* sw_slash *) unfold cu_sw_slash. repeat case_match; intros E; zify_bool.
    + by eapply Husual.
    + rewrite H0 in E. destruct (ends_slash_not_dot _ Hsh).
      eapply (cu_clean_slash mem s); [exact E|done..].
    + injection E as <-. eapply (cu_clean_keep s); [done|done|].
      by rewrite path_state_id; cbn; rewrite Est.
    + rewrite H1 in E. eapply (cu_clean_dot mem sw_dot _ s);
        [exact E|done|done|done|exact Hsh|by left].
    + eapply cu_clean_common; [exact E|by rewrite Est|done..].
  - (* sw_dot *) unfold cu_sw_dot. repeat case_match; intros E; zify_bool.
    + by eapply Husual.
    + destruct (cu_out_slash_dot s Hul Hsh). injection E as <-.
      eapply (cu_clean_back s _ (cu_u s - 1)); try done; lia.
    + rewrite H1 in E. eapply (cu_clean_dot mem sw_dot_dot _ s);
        [exact E|done|done|done|exact Hsh|by right].
    + eapply cu_clean_common; [exact E|by rewrite Est|done..].
  - (* sw_dot_dot *) unfold cu_sw_dot_dot. repeat case_match; intros E; zify_bool; try done.
    + by eapply Husual.
    + select (cu_back _ _ = Some _) (fun H => apply cu_back_spec in H as [? ?]). injection E as <-.
      eapply (cu_clean_back s _ z); try done; lia.
    + eapply cu_clean_common; [exact E|by rewrite Est|done|done|by right].
Qed.

Lemma cu_clean_step mem merge start lim s s' :
  cu_safe mem start lim s -> cu_clean s -> cu_step mem merge s = CuNext s' -> cu_clean s'.
Proof.
  intros Hsafe Hs E. destruct (cu_state s) eqn:Est;
    try (eapply cu_clean_step_path; [done..|by rewrite Est|done]).
  - (* sw_quoted *) revert E. unfold cu_step, cu_sw_quoted. rewrite Est.
    repeat case_match; intros [= <-];
      (eapply (cu_clean_keep s);
        [done|done|unfold path_state; cbn; by rewrite Est]).
  - (* sw_quoted_second *)
    assert (is_path_state (cu_quoted_state s)) by apply Hsafe.
    assert (Hkeep : forall t, cu_out t = cu_out s -> cu_state t = cu_quoted_state s -> cu_clean t).
    { intros t Eo Es. eapply (cu_clean_keep s); [done..|]. rewrite path_state_id by by rewrite Es.
      rewrite Es. unfold path_state. by rewrite Est. }
    revert E. unfold cu_step, cu_sw_quoted_second. rewrite Est.
    repeat case_match; intros E; zify_bool; try done.
    all: try (injection E as <-; by apply Hkeep).
    all: eapply (cu_clean_emit mem _ s); [exact E|done|done|done| |]; lia.
Qed.

Lemma cu_loop_clean mem merge start lim stop fuel s :
  limit mem start lim stop -> cu_safe mem start lim s -> cu_clean s ->
  match cu_loop mem merge stop fuel s with
  | Some (CuDone s') | Some (CuArgs s') =>
      exists s0, cu_clean s0 /\ cu_out s' = cu_out s0
  | _ => True
  end.
Proof.
  intros Hlim. revert s. induction fuel as [|fuel IH]; intros s Hs Hc; cbn [cu_loop]; [done|].
  destruct (Z.leb_spec (cu_p s) stop) as [Hstop|]; [|by exists s].
  destruct (cu_step mem merge s) as [s'|s'|s'|rc|] eqn:E; try done.
  - apply IH; [by eapply cu_safe_step|by eapply cu_clean_step].
  - exists s. split; [done|]. revert E. cu_unfold.
    destruct (cu_state s); repeat case_match; intros; by simplify_eq.
  - exists s. split; [done|]. revert E. cu_unfold.
    destruct (cu_state s); repeat case_match; intros; by simplify_eq.
Qed.

(** The first slash is copied. *)
Lemma cu_clean_first mem merge start data quoted plus :
  mem_at mem start = C! "/" -> 1 <= Z.of_nat (length data) ->
  exists s, cu_step mem merge (cu_init mem start data quoted plus) = CuNext s /\ cu_clean s.
Proof.
  intros Hsl Hlen. destruct data as [|d data]; [cbn in Hlen; lia|].
  unfold cu_step, cu_sw_usual, cu_init; cbn [cu_state cu_ch]; rewrite Hsl.
  change (usual 47) with false. cbn [cu_u cu_data].
  unfold cu_emit. cbn [cu_u cu_data]. decide_tests. eexists. split; [done|].
  unfold cu_clean, cu_out; cbn. split_and!; [|by exists []|done].
  by intros pre post; split; destruct pre as [|? [|? pre]].
Qed.

(** C28: when the target begins with a slash, the normalised path begins with a
    slash and no [/./] and no [/../] occurs in it, whatever the escapes and the
    slashes of the target, and whether slashes are merged or not: a request
    cannot name a file above the document root through a dot segment followed
    by a slash. *)
Theorem complex_uri_no_dots (mem : list Z) (start lim stop : Z) (data : list Z)
    (quoted plus merge : bool) (u : uri_result) :
  limit mem start lim stop -> start < stop -> lim - start + 1 <= Z.of_nat (length data) ->
  mem_at mem start = C! "/" ->
  ngx_http_parse_complex_uri mem start stop data quoted plus merge = UriOk u ->
  let path := take (Z.to_nat (ur_len u)) (ur_data u) in
  starts_slash path /\ no_dots path.
Proof.
  intros Hlim Hne Hlen Hsl. unfold ngx_http_parse_complex_uri.
  destruct (cu_clean_first mem merge start data quoted plus Hsl) as (s1 & E1 & Hs1);
    [destruct Hlim; lia|].
  replace (Z.to_nat (2 * (stop - start) + 2)) with (S (Z.to_nat (2 * (stop - start) + 1))) by lia.
  cbn [cu_loop]. rewrite E1. change (cu_p (cu_init _ _ _ _ _)) with (start + 1).
  rewrite (proj2 (Z.leb_le (start + 1) stop)) by lia.
  pose proof (cu_loop_clean mem merge start lim stop (Z.to_nat (2 * (stop - start) + 1))
    s1 Hlim) as H.
  destruct (cu_loop _ _ _ _ _) as [[s|s|s|rc|]|]; try done.
  all: destruct H as (s0 & (Hn & _ & Hs) & E); [|done|].
  all: try (eapply cu_safe_step; [done|by eapply cu_init_safe| |done]; cbn; lia).
  all: intros [= <-]; cbn; unfold cu_args; repeat case_match; cbn;
    change (take _ _) with (cu_out s); rewrite E; done.
Qed.

Lemma complex_uri_no_dots_witness :
  let bs := B! "/a/%2e./b/...//../c?/./" in
  let ans := ngx_http_parse_complex_uri bs 0 23 (repeat 0 24) false false true in
  exists u, ans = UriOk u /\
  (let path := take (Z.to_nat (ur_len u)) (ur_data u) in starts_slash path /\ no_dots path).
Proof.
  intros bs ans.
  assert (H : limit bs 0 23 23) by (split; [lia|by left]).
  destruct ans as [u| | |] eqn:E; [|vm_compute in E; discriminate..].
  exists u. split; [reflexivity|].
  apply (complex_uri_no_dots bs 0 23 23 (repeat 0 24) false false true u H);
    [lia|vm_compute; discriminate|reflexivity|exact E].
Defined.

(** ** The resolution of dot segments *)

(** What a decoded byte of the path does to the state and to the output when
    slashes are merged; [None] is a path that leaves the root. *)
Definition path_step (x : cu_sw * list Z) (c : Z) : option (cu_sw * list Z) :=
  let (st, out) := x in
  if c =? C! "/" then
    match st with
    | sw_usual => Some (sw_slash, out ++ [c])
    | sw_slash => Some (sw_slash, out)
    | sw_dot => Some (sw_slash, take (length out - 1) out)
    | _ =>
        let u := Z.of_nat (length out) - 5 in
        if u <? 0 then None
        else (fun u' => (sw_slash, take (Z.to_nat u') out)) <$> cu_back out (Z.to_nat u)
    end
  else if c =? C! "." then
    match st with
    | sw_slash => Some (sw_dot, out ++ [c])
    | sw_dot => Some (sw_dot_dot, out ++ [c])
    | _ => Some (sw_usual, out ++ [c])
    end
  else Some (sw_usual, out ++ [c]).

Definition hex_value (ch : Z) : option Z :=
  if is_digit ch then Some (ch - C! "0")
  else let c := lcase ch in
       if (C! "a" <=? c) && (c <=? C! "f") then Some (c - C! "a" + 10) else None.

Lemma hex_value_bound ch v : hex_value ch = Some v -> 0 <= v <= 15.
Proof. unfold hex_value, is_digit. repeat case_match; intros [= <-]; zify_bool; lia. Qed.

(** The second argument is a way to write the bytes of the first one in a
    target: as they are, or as percent-escapes. *)
Inductive encodes : list Z -> list Z -> Prop :=
| enc_nil : encodes [] []
| enc_raw c bs es :
    c <> C! "%" -> c <> C! "?" -> c <> C! "#" -> encodes bs es -> encodes (c :: bs) (c :: es)
| enc_escape h l dh dl bs es :
    hex_value h = Some dh -> hex_value l = Some dl -> dh * 16 + dl <> 0 ->
    encodes bs es -> encodes (dh * 16 + dl :: bs) (C! "%" :: h :: l :: es).

(** The state of the function, at position [p] of the target, with the
    abstract state [x]. *)
Definition sim (mem : list Z) (start lim p : Z) (x : cu_sw * list Z) (s : cu) : Prop :=
  cu_safe mem start lim s /\ is_path_state (cu_state s) /\ cu_state s = x.1 /\ cu_out s = x.2 /\
  cu_p s = p + 1 /\ cu_ch s = mem_at mem p.

(** The loop ends from [s] in an outcome that satisfies [Q], with any fuel
    above the measure. *)
Definition leads (mem : list Z) (stop : Z) (Q : cu_outcome -> Prop) (s : cu) : Prop :=
  exists o, Q o /\
    forall fuel, cu_measure stop s < Z.of_nat fuel -> cu_loop mem true stop fuel s = Some o.

Lemma cu_measure_pos stop s : cu_p s <= stop -> 0 < cu_measure stop s.
Proof. unfold cu_measure. case_match; lia. Qed.

Lemma leads_step mem start lim stop Q s s' :
  limit mem start lim stop -> cu_safe mem start lim s -> cu_p s <= stop ->
  cu_step mem true s = CuNext s' -> leads mem stop Q s' -> leads mem stop Q s.
Proof.
  intros Hlim Hs Hp E (o & HQ & Ho). exists o. split; [done|]. intros fuel Hf.
  pose proof (cu_measure_pos stop s Hp).
  assert (cu_measure stop s' < cu_measure stop s)
    by (eapply cu_measure_step; [apply Hs|exact E]).
  destruct fuel as [|fuel]; [lia|]. cbn [cu_loop].
  rewrite (proj2 (Z.leb_le _ _)) by done. rewrite E. apply Ho. lia.
Qed.

Lemma leads_end mem stop (Q : cu_outcome -> Prop) s o :
  cu_p s <= stop -> cu_step mem true s = o -> (forall s', o <> CuNext s') -> Q o ->
  leads mem stop Q s.
Proof.
  intros Hp E Hn HQ. exists o. split; [done|]. intros fuel Hf.
  pose proof (cu_measure_pos stop s Hp). destruct fuel as [|fuel]; [lia|]. cbn [cu_loop].
  rewrite (proj2 (Z.leb_le _ _)) by done. rewrite E. destruct o; try done. by destruct (Hn s0).
Qed.

Lemma cu_safe_room mem start lim s :
  cu_safe mem start lim s -> 0 <= cu_u s < Z.of_nat (length (cu_data s)).
Proof. intros (? & ? & ? & ? & _). lia. Qed.

Lemma cu_emit_next mem c s :
  0 <= cu_u s < Z.of_nat (length (cu_data s)) ->
  exists s', cu_emit mem c s = CuNext s' /\ cu_out s' = cu_out s ++ [c] /\
    cu_state s' = cu_state s /\ cu_p s' = cu_p s + 1 /\ cu_ch s' = mem_at mem (cu_p s).
Proof.
  intros Hu. unfold cu_emit. decide_tests. eexists. split; [done|].
  unfold cu_out. cbn. by rewrite take_emit.
Qed.

Lemma cu_out_length mem start lim s :
  cu_safe mem start lim s -> Z.of_nat (length (cu_out s)) = cu_u s.
Proof. intros H%cu_safe_room. unfold cu_out. rewrite length_take. lia. Qed.

Lemma cu_back_take data u n :
  (n < u)%nat -> cu_back (take u data) n = cu_back data n.
Proof.
  intros Hn.
  assert (Hm : forall k, (k < u)%nat -> mem_at (take u data) (Z.of_nat k) = mem_at data (Z.of_nat k)).
  { intros k Hk. unfold mem_at. case_match; [done|]. rewrite Nat2Z.id, nth_firstn.
    by rewrite (proj2 (Nat.ltb_lt _ _)). }
  induction n as [|n IH]; cbn [cu_back]; rewrite Hm by lia; case_match; try done.
  apply IH. lia.
Qed.

(** A byte that is not special to the escapes and the query is treated by the
    switch as [path_step] says. *)
Lemma path_dispatch mem start lim x s :
  cu_safe mem start lim s -> is_path_state (cu_state s) ->
  x = (cu_state s, cu_out s) ->
  cu_ch s <> C! "%" -> cu_ch s <> C! "?" -> cu_ch s <> C! "#" ->
  match path_step x (cu_ch s) with
  | Some x' => exists s', cu_step mem true s = CuNext s' /\ cu_state s' = x'.1 /\ cu_out s' = x'.2
  | None => cu_step mem true s = CuReturn NGX_HTTP_PARSE_INVALID_REQUEST
  end.
Proof.
  intros Hs Hp -> H1 H2 H3. pose proof (cu_safe_room _ _ _ _ Hs) as Hroom.
  pose proof (cu_out_length _ _ _ _ Hs) as Hlen.
  assert (Hemit : forall t, cu_u t = cu_u s -> cu_data t = cu_data s -> exists s',
    cu_emit mem (cu_ch s) t = CuNext s' /\ cu_state s' = cu_state t /\
    cu_out s' = cu_out s ++ [cu_ch s]).
  { intros t Eu Ed. destruct (cu_emit_next mem (cu_ch s) t) as (s' & ? & Eo & ? & _);
      [by rewrite Eu, Ed|]. exists s'. split_and!; [done..|]. rewrite Eo. unfold cu_out.
    by rewrite Eu, Ed. }
  assert (Hback : forall u', 0 <= u' <= cu_u s ->
    take (Z.to_nat u') (cu_out s) = take (Z.to_nat u') (cu_data s)).
  { intros u' Hu'. unfold cu_out. rewrite take_take. f_equal. lia. }
  unfold path_step, cu_step, cu_sw_usual, cu_sw_slash, cu_sw_dot, cu_sw_dot_dot, cu_common.
  destruct (usual (cu_ch s)) eqn:Eu.
  { apply usual_not_slash in Eu as [? ?]. decide_tests.
    destruct (cu_state s) eqn:Est; try done.
    all: edestruct Hemit as (s' & -> & Es & Eo); [| |by exists s'; rewrite Es]; done. }
  destruct (Z.eqb_spec (cu_ch s) (C! "/")) as [Esl|Hsl]; decide_tests.
  - destruct (cu_state s) eqn:Est; try done; cbn.
    + edestruct Hemit as (s' & -> & Es & Eo); [| |by exists s'; rewrite Es, Eo]; done.
    + eexists. split_and!; [done|exact Est|done].
    + eexists. split_and!; [done|done|].
      replace (length (cu_out s) - 1)%nat with (Z.to_nat (cu_u s - 1)) by lia.
      rewrite Hback; [done|]. destruct Hs as (_ & _ & _ & _ & _ & Hdot).
      unfold path_state in Hdot. rewrite Est in Hdot. specialize (Hdot eq_refl). lia.
    + rewrite Hlen. destruct (Z.ltb_spec (cu_u s - 5) 0); [done|].
      assert (cu_back (cu_out s) (Z.to_nat (cu_u s - 5)) =
        cu_back (cu_data s) (Z.to_nat (cu_u s - 5))) as -> by (apply cu_back_take; lia).
      destruct (cu_back _ _) as [u'|] eqn:Eb; cbn; [|done].
      apply cu_back_bound in Eb. eexists. split_and!; [done|done|]. rewrite Hback by lia. done.
  - destruct (Z.eqb_spec (cu_ch s) (C! ".")) as [Ed|Hd]; decide_tests.
    + destruct (cu_state s) eqn:Est; try done; cbn.
      all: edestruct Hemit as (s' & -> & Es & Eo); [| |by exists s'; rewrite Es, Eo]; done.
    + destruct (Z.eqb_spec (cu_ch s) (C! "+")); destruct (cu_state s) eqn:Est; try done; cbn.
      all: edestruct Hemit as (s' & -> & Es & Eo); [| |by exists s'; rewrite Es, Eo]; done.
Qed.

Fixpoint path_steps (x : cu_sw * list Z) (bs : list Z) : option (cu_sw * list Z) :=
  match bs with
  | [] => Some x
  | c :: bs' => match path_step x c with Some x' => path_steps x' bs' | None => None end
  end.

Lemma path_step_state x c x' : path_step x c = Some x' -> is_path_state x'.1.
Proof.
  destruct x as [st out]. unfold path_step. repeat case_match; intros; simplify_eq; try done.
  all: select (_ <$> _ = Some _) (fun H => apply fmap_Some in H as (? & _ & ->)); done.
Qed.

Definition after_step (Q : cu_outcome -> Prop) (K : cu_sw * list Z -> Prop)
    (r : option (cu_sw * list Z)) : Prop :=
  match r with Some x' => K x' | None => Q (CuReturn NGX_HTTP_PARSE_INVALID_REQUEST) end.

(** The byte [c], raw or decoded, in the variable [ch]. *)
Lemma leads_byte mem start lim stop (Q : cu_outcome -> Prop) x p s :
  limit mem start lim stop -> cu_safe mem start lim s -> is_path_state (cu_state s) ->
  x = (cu_state s, cu_out s) -> cu_p s = p -> p <= stop ->
  cu_ch s <> C! "%" -> cu_ch s <> C! "?" -> cu_ch s <> C! "#" ->
  after_step Q (fun x' => forall s', sim mem start lim p x' s' -> leads mem stop Q s')
    (path_step x (cu_ch s)) ->
  leads mem stop Q s.
Proof.
  intros Hlim Hs Hps Hx Hp Hstop H1 H2 H3 HK.
  pose proof (path_dispatch mem start lim x s Hs Hps Hx H1 H2 H3) as Hd.
  destruct (path_step x (cu_ch s)) as [x'|] eqn:Ex; cbn in HK.
  - destruct Hd as (s' & E & Es & Eo). eapply leads_step; [done|done|lia|exact E|].
    apply HK. pose proof (path_step_state _ _ _ Ex).
    destruct (cu_step_read _ _ _ _ E) as [[Ep Ec]|(Est & _)]; [|by rewrite Est in Hps].
    split_and!; [by eapply (cu_safe_step mem true start lim stop s); [..|lia|]
      |by rewrite Es|done|done|lia|by rewrite Ec, Hp].
  - eapply leads_end; [lia|exact Hd|done|done].
Qed.

Lemma cu_step_percent mem s :
  is_path_state (cu_state s) -> cu_ch s = C! "%" ->
  cu_step mem true s =
  CuNext (cu_read mem {| s with cu_quoted_state := cu_state s; cu_state := sw_quoted |}).
Proof.
  intros Hp Hc. unfold cu_step, cu_sw_usual, cu_sw_slash, cu_sw_dot, cu_sw_dot_dot, cu_common.
  rewrite Hc. change (usual 37) with false. by destruct (cu_state s).
Qed.

Lemma cu_step_quoted mem s h :
  cu_state s = sw_quoted -> hex_value (cu_ch s) = Some h ->
  cu_step mem true s =
  CuNext (cu_read mem {| s with cu_quoted_uri := true; cu_decoded := h;
                                cu_state := sw_quoted_second |}).
Proof.
  intros Hst. unfold hex_value, cu_step, cu_sw_quoted, is_digit. rewrite Hst. cbn.
  repeat case_match; intros [= <-]; zify_bool; unfold u8; rewrite Z.mod_small by lia; done.
Qed.

Lemma cu_step_quoted_second mem s l :
  cu_state s = sw_quoted_second -> hex_value (cu_ch s) = Some l -> 0 <= cu_decoded s <= 15 ->
  let c := cu_decoded s * 16 + l in
  c <> 0 ->
  if (c =? C! "%") || (c =? C! "?") || (c =? C! "#") then
    cu_step mem true s = cu_emit mem c {| s with cu_ch := c; cu_state := sw_usual |}
  else exists s', cu_step mem true s = CuNext s' /\ cu_ch s' = c /\ cu_p s' = cu_p s /\
    cu_state s' = cu_quoted_state s /\ cu_out s' = cu_out s.
Proof.
  intros Hst Hl Hd c Hc. pose proof (hex_value_bound _ _ Hl) as Hb. revert Hl.
  unfold cu_step, cu_sw_quoted_second, hex_value. rewrite Hst.
  assert (Hu : forall z, u8 (Z.shiftl (cu_decoded s) 4 + z) = (cu_decoded s * 16 + z) mod 256).
  { intros z. unfold u8. by rewrite Z.shiftl_mul_pow2 by lia. }
  destruct (is_digit (cu_ch s)) eqn:Edig.
  - intros [= El]. unfold is_digit in Edig. zify_bool.
    replace (Z.shiftl (cu_decoded s) 4 + cu_ch s - 48)
      with (Z.shiftl (cu_decoded s) 4 + (cu_ch s - 48)) by lia.
    rewrite Hu, El. fold c. rewrite Z.mod_small by lia.
    destruct (Z.eqb_spec c 63); [lia|]. rewrite orb_false_r.
    destruct ((c =? 37) || (c =? 35)) eqn:E; [done|]. zify_bool. decide_tests. by eexists.
  - destruct ((97 <=? lcase (cu_ch s)) && (lcase (cu_ch s) <=? 102)) eqn:Ehex; [|done].
    intros [= El]. zify_bool.
    replace (Z.shiftl (cu_decoded s) 4 + lcase (cu_ch s) - 97 + 10)
      with (Z.shiftl (cu_decoded s) 4 + (lcase (cu_ch s) - 97 + 10)) by lia.
    rewrite Hu, El. fold c. rewrite Z.mod_small by lia.
    rewrite (proj2 (Z.eqb_neq c 37)), (proj2 (Z.eqb_neq c 35)) by lia. cbn [orb].
    rewrite orb_false_r. destruct (Z.eqb_spec c 63); [done|]. case_match; by eexists.
Qed.

(** A percent-escape. *)
Lemma leads_escape mem start lim stop (Q : cu_outcome -> Prop) x p h l dh dl s :
  limit mem start lim stop -> sim mem start lim p x s -> p + 3 <= lim ->
  mem_has mem p [C! "%"; h; l] -> hex_value h = Some dh -> hex_value l = Some dl ->
  dh * 16 + dl <> 0 ->
  after_step Q (fun x' => forall s', sim mem start lim (p + 3) x' s' -> leads mem stop Q s')
    (path_step x (dh * 16 + dl)) ->
  leads mem stop Q s.
Proof.
  intros Hlim (Hs & Hps & Est & Eo & Ep & Ech) Hp Hmem Hh Hl Hc HK.
  rewrite !mem_has_cons in Hmem. destruct Hmem as (M0 & M1 & M2 & _).
  pose proof (hex_value_bound _ _ Hh) as Bh.
  assert (Hstop : p + 3 <= stop) by (destruct Hlim as [[? ?] _]; lia).
  assert (Hnext : forall a b, cu_safe mem start lim a -> cu_p a <= stop ->
    cu_step mem true a = CuNext b -> (cu_safe mem start lim b -> leads mem stop Q b) ->
    leads mem stop Q a).
  { intros a b Ha Hap E Hb. eapply leads_step; [done..|]. apply Hb. by eapply cu_safe_step. }
  eapply Hnext; [exact Hs|lia|apply cu_step_percent; [done|congruence]|]. intros Hs1.
  eapply Hnext; [exact Hs1|cbn; lia| |].
  { eapply cu_step_quoted; [done|]. cbn. rewrite Ep, M1. exact Hh. }
  intros Hs2. match goal with |- leads _ _ _ ?t => set (s2 := t) in * end.
  assert (E2 : cu_ch s2 = l).
  { unfold s2; cbn. by replace (cu_p s + 1) with (p + 1 + 1) by lia. }
  assert (P2 : cu_p s2 = p + 3) by (cbn; lia).
  pose proof (cu_step_quoted_second mem s2 dl eq_refl) as Hq.
  rewrite E2 in Hq. specialize (Hq Hl Bh Hc). cbv zeta in Hq.
  change (cu_decoded s2) with dh in Hq.
  destruct ((_ || _) || _) eqn:Especial.
  - pose proof (cu_safe_room _ _ _ _ Hs2) as Hroom.
    destruct (cu_emit_next mem (dh * 16 + dl)
      {| s2 with cu_ch := dh * 16 + dl; cu_state := sw_usual |}) as (s3 & E3 & O3 & S3 & Ep3 & Ec3);
      [done|].
    assert (Hx : path_step x (dh * 16 + dl) = Some (sw_usual, x.2 ++ [dh * 16 + dl])).
    { destruct x as [st out]. unfold path_step. by decide_tests. }
    rewrite Hx in HK. cbn in HK. pose proof (eq_trans Hq E3) as E4.
    eapply Hnext; [exact Hs2|lia|exact E4|]. intros Hs3. apply HK.
    split_and!; [done|by rewrite S3|done| |cbn in Ep3; lia|].
    + rewrite O3. cbn. f_equal. exact Eo.
    + rewrite Ec3. f_equal. exact P2.
  - destruct Hq as (s3 & E3 & C3 & P3 & S3 & O3). zify_bool.
    eapply Hnext; [exact Hs2|lia|exact E3|]. intros Hs3. change (cu_quoted_state s2) with (cu_state s) in S3.
    eapply (leads_byte _ _ _ _ _ x (p + 3)); [done|done|by rewrite S3| |lia|lia|lia..|].
    + rewrite S3, O3. change (cu_out s2) with (cu_out s). destruct x; cbn in *; congruence.
    + by rewrite C3.
Qed.

Lemma encodes_leads mem start lim stop Q bs es :
  limit mem start lim stop -> encodes bs es -> forall p x s,
  sim mem start lim p x s -> mem_has mem p es -> p + Z.of_nat (length es) <= lim ->
  after_step Q (fun x' => forall s', sim mem start lim (p + Z.of_nat (length es)) x' s' ->
      leads mem stop Q s') (path_steps x bs) ->
  leads mem stop Q s.
Proof.
  intros Hlim Henc. induction Henc as [|c bs es H1 H2 H3 _ IH|h l dh dl bs es Hh Hl Hz _ IH];
    intros p x s Hsim Hmem Hp HK; cbn [path_steps length] in *.
  - apply HK. by rewrite Z.add_0_r.
  - apply mem_has_cons in Hmem as [M0 Hmem]. pose proof Hsim as (Hs & Hps & Est & Eo & Ep & Ech).
    assert (Hstop : p + 1 <= stop) by (destruct Hlim as [[? ?] _]; lia).
    rewrite M0 in Ech.
    eapply (leads_byte _ _ _ _ _ x (p + 1)); try done; try congruence.
    { destruct x; cbn in *; congruence. }
    rewrite Ech. destruct (path_step x c) as [x'|]; [|done]. intros s' Hs'.
    eapply (IH (p + 1)); [done|done|lia|].
    by replace (p + 1 + Z.of_nat (length es)) with (p + Z.of_nat (S (length es))) by lia.
  - assert (mem_has mem p [37; h; l] /\ mem_has mem (p + 3) es) as [M0 M3].
    { by apply (mem_has_app mem p [37; h; l] es) in Hmem. }
    eapply (leads_escape _ _ _ _ _ x p h l dh dl); [done|done|lia|done..|].
    destruct (path_step x (dh * 16 + dl)) as [x'|]; [|done]. intros s' Hs'.
    eapply (IH (p + 3)); [done|done|lia|].
    by replace (p + 3 + Z.of_nat (length es)) with (p + Z.of_nat (S (S (S (length es))))) by lia.
Qed.

(** *** Segments *)

(** A path below the root: the names of its directories, innermost first. *)
Definition flatten (stack : list (list Z)) : list Z :=
  C! "/" :: concat (map (fun seg => seg ++ [C! "/"]) (rev stack)).
#[local] Arguments flatten : simpl never.

(** One segment followed by a slash: empty segments and [.] are dropped, and
    [..] removes the innermost directory, which must exist. *)
Definition resolve1 (stack : list (list Z)) (seg : list Z) : option (list (list Z)) :=
  if decide (seg = [] \/ seg = B! ".") then Some stack
  else if decide (seg = B! "..") then
    match stack with [] => None | _ :: stack' => Some stack' end
  else Some (seg :: stack).

Fixpoint resolve (stack : list (list Z)) (segs : list (list Z)) : option (list (list Z)) :=
  match segs with
  | [] => Some stack
  | seg :: segs' =>
      match resolve1 stack seg with Some stack' => resolve stack' segs' | None => None end
  end.

Definition segment (seg : list Z) : Prop := Forall (fun c => c <> C! "/") seg.

Lemma path_steps_app x bs1 bs2 :
  path_steps x (bs1 ++ bs2) =
  match path_steps x bs1 with Some x' => path_steps x' bs2 | None => None end.
Proof.
  revert x. induction bs1 as [|c bs1 IH]; intros x; cbn; [done|]. by destruct (path_step x c).
Qed.

Lemma path_steps_usual out seg :
  segment seg -> path_steps (sw_usual, out) seg = Some (sw_usual, out ++ seg).
Proof.
  revert out. induction seg as [|c seg IH]; intros out Hseg; cbn; [by rewrite app_nil_r|].
  apply Forall_cons in Hseg as [Hc Hseg]. decide_tests.
  destruct (_ =? _); rewrite IH by done; by rewrite <- app_assoc.
Qed.

(** The state after a segment that follows a slash. *)
Definition segment_state (seg : list Z) : cu_sw :=
  if decide (seg = []) then sw_slash else if decide (seg = B! ".") then sw_dot
  else if decide (seg = B! "..") then sw_dot_dot else sw_usual.

Lemma path_steps_segment out seg :
  segment seg -> path_steps (sw_slash, out) seg = Some (segment_state seg, out ++ seg).
Proof.
  intros Hseg. unfold segment_state.
  destruct seg as [|c1 seg]; [by rewrite decide_True, app_nil_r|].
  apply Forall_cons in Hseg as [H1 Hseg]. rewrite decide_False by done. cbn. decide_tests.
  destruct (Z.eqb_spec c1 (C! ".")) as [->|Hd1].
  2: { rewrite path_steps_usual by done. rewrite !decide_False by congruence.
       by rewrite <- app_assoc. }
  destruct seg as [|c2 seg]; [by rewrite decide_True|].
  apply Forall_cons in Hseg as [H2 Hseg]. rewrite decide_False by done. cbn. decide_tests.
  destruct (Z.eqb_spec c2 (C! ".")) as [->|Hd2].
  2: { rewrite path_steps_usual by done. rewrite decide_False by congruence.
       by rewrite <- !app_assoc. }
  destruct seg as [|c3 seg]; [rewrite decide_True by done; cbn; by rewrite <- app_assoc|].
  apply Forall_cons in Hseg as [H3 Hseg]. rewrite decide_False by done. cbn. decide_tests.
  destruct (_ =? _); rewrite path_steps_usual by done; by rewrite <- !app_assoc.
Qed.

Lemma flatten_cons seg stack : flatten (seg :: stack) = flatten stack ++ seg ++ [C! "/"].
Proof.
  unfold flatten. cbn. rewrite map_app, concat_app. cbn. by rewrite app_nil_r.
Qed.

Lemma flatten_slash stack : exists pre, flatten stack = pre ++ [C! "/"].
Proof.
  destruct stack as [|seg stack]; [by exists []|].
  rewrite flatten_cons, app_assoc. by eexists.
Qed.

(** Going back over a directory. *)
Lemma cu_back_segment pre seg tl n :
  segment seg -> n = (length pre + length seg)%nat ->
  cu_back (pre ++ [C! "/"] ++ seg ++ tl) n = Some (Z.of_nat (length pre) + 1).
Proof.
  revert tl n. induction seg as [|c seg IH] using rev_ind; intros tl n Hseg ->.
  - cbn. rewrite Nat.add_0_r.
    assert (mem_at (pre ++ 47 :: tl) (Z.of_nat (length pre)) = 47) as E.
    { rewrite <- (Z.add_0_r (Z.of_nat _)). by rewrite mem_at_app_r. }
    destruct (length pre) eqn:El; cbn; rewrite E; done.
  - apply Forall_app in Hseg as [Hseg Hc]. apply Forall_cons in Hc as [Hc _].
    rewrite length_app. cbn. rewrite Nat.add_1_r, Nat.add_succ_r. cbn [cu_back].
    assert (mem_at (pre ++ 47 :: (seg ++ [c]) ++ tl)
      (Z.of_nat (S (length pre + length seg))) = c) as ->.
    { replace (pre ++ 47 :: (seg ++ [c]) ++ tl) with ((pre ++ [47] ++ seg) ++ c :: tl)
        by (by rewrite <- !app_assoc).
      replace (Z.of_nat (S (length pre + length seg)))
        with (Z.of_nat (length (pre ++ [47] ++ seg)) + 0) by (rewrite !length_app; cbn; lia).
      by rewrite mem_at_app_r. }
    decide_tests. rewrite <- app_assoc. by apply IH.
Qed.

Lemma path_step_pop stack seg :
  segment seg -> seg <> [] ->
  path_step (sw_dot_dot, flatten (seg :: stack) ++ B! "..") (C! "/") =
  Some (sw_slash, flatten stack).
Proof.
  intros Hseg Hne. destruct (flatten_slash stack) as [pre Epre].
  rewrite flatten_cons, Epre. unfold path_step. cbn [Z.eqb].
  change (47 =? 47) with true. cbv iota.
  destruct seg as [|c seg _] using rev_ind; [done|].
  apply Forall_app in Hseg as [Hseg _].
  replace (((pre ++ [47]) ++ (seg ++ [c]) ++ [47]) ++ B! "..")
    with (pre ++ [47] ++ seg ++ c :: B! "/..") by (by rewrite <- !app_assoc).
  rewrite (cu_back_segment pre seg); [|done|].
  2: { rewrite !length_app. cbn. lia. }
  rewrite (proj2 (Z.ltb_ge _ _)) by (rewrite !length_app; cbn; lia). cbn.
  do 2 f_equal. rewrite (cons_middle 47 pre), app_assoc. rewrite take_app_length'; [done|]. rewrite length_app. cbn. lia.
Qed.

Lemma path_step_resolve stack seg :
  Forall (fun d => segment d /\ d <> []) stack -> segment seg ->
  path_step (segment_state seg, flatten stack ++ seg) (C! "/") =
  (fun stack' => (sw_slash, flatten stack')) <$> resolve1 stack seg.
Proof.
  intros Hst Hseg. unfold resolve1, segment_state.
  destruct (decide (seg = [])) as [->|Hn].
  { rewrite decide_True by auto. by rewrite app_nil_r. }
  destruct (decide (seg = B! ".")) as [->|Hd].
  { rewrite decide_True by auto. cbn. decide_tests. rewrite length_app, take_app_length'; [done|]. cbn. lia. }
  rewrite (decide_False (P := seg = [] \/ _)) by tauto.
  destruct (decide (seg = B! "..")) as [->|Hdd].
  - destruct stack as [|d stack]; [done|].
    apply Forall_cons in Hst as [[? ?] _]. by apply path_step_pop.
  - cbn. by rewrite flatten_cons, <- app_assoc.
Qed.

Definition join (segs : list (list Z)) : list Z := concat (map (cons (C! "/")) segs).

Lemma path_steps_resolve stack segs last :
  Forall (fun d => segment d /\ d <> []) stack -> Forall segment segs -> segment last ->
  path_steps (sw_slash, flatten stack) (concat (map (fun d => d ++ [C! "/"]) segs) ++ last) =
  (fun stack' => (segment_state last, flatten stack' ++ last)) <$> resolve stack segs.
Proof.
  intros Hst Hsegs Hlast. revert stack Hst. induction Hsegs as [|seg segs Hseg Hsegs IH];
    intros stack Hst; cbn [map concat resolve]; [by apply path_steps_segment|].
  rewrite <- !app_assoc, path_steps_app, path_steps_segment by done. cbn [app path_steps].
  rewrite path_step_resolve by done. unfold resolve1. 
  destruct (decide (seg = [] \/ seg = B! ".")); cbn; [by apply IH|].
  destruct (decide (seg = B! "..")).
  - destruct stack as [|d stack]; cbn; [done|]. apply IH. by apply Forall_cons in Hst as [_ ?].
  - cbn. apply IH. apply Forall_cons. split; [|done]. split; [done|]. naive_solver.
Qed.

Lemma join_snoc segs last :
  join (segs ++ [last]) = C! "/" :: concat (map (fun d => d ++ [C! "/"]) segs) ++ last.
Proof.
  unfold join. induction segs as [|seg segs IH]; cbn; [by rewrite app_nil_r|].
  rewrite IH, <- !app_assoc. done.
Qed.

(** The end of the path: the end of the target, the arguments or a fragment. *)
Definition path_end (mem : list Z) (p stop : Z) : Prop :=
  p = stop \/ p < stop /\ (mem_at mem p = C! "?" \/ mem_at mem p = C! "#").

Lemma leads_path_end mem start lim stop p x s (Q : cu_outcome -> Prop) :
  sim mem start lim p x s -> path_end mem p stop ->
  (forall s', cu_out s' = x.2 -> Q (CuDone s') /\ Q (CuArgs s')) -> leads mem stop Q s.
Proof.
  intros (Hs & Hps & Est & Eo & Ep & Ech) [->|[Hp Hend]] HQ.
  - exists (CuDone s). split; [by apply HQ|]. intros [|fuel] Hf; cbn [cu_loop].
    + unfold cu_measure in Hf. rewrite Ep in Hf. case_match; lia.
    + by rewrite (proj2 (Z.leb_gt _ _)) by lia.
  - assert (exists o, cu_step mem true s = o /\ ((exists s', o = CuDone s' /\ cu_out s' = x.2) \/
      (exists s', o = CuArgs s' /\ cu_out s' = x.2))) as (o & E & Ho).
    { eexists; split; [done|]. unfold cu_step, cu_sw_usual, cu_sw_slash, cu_sw_dot, cu_sw_dot_dot.
      destruct Hend as [E|E]; rewrite Ech, E; [change (usual 63) with false
        |change (usual 35) with false]; unfold cu_common; rewrite Ech, E; cbn;
        destruct (cu_state s); try done.
      all: (left; eexists; by split) || (right; eexists; by split). }
    eapply leads_end; [lia|exact E| |].
    + destruct Ho as [(s' & -> & _)|(s' & -> & _)]; done.
    + destruct Ho as [(s' & -> & Es)|(s' & -> & Es)]; by apply HQ.
Qed.


Lemma encodes_raw bs :
  Forall (fun c => c <> C! "%" /\ c <> C! "?" /\ c <> C! "#") bs -> encodes bs bs.
Proof. induction 1 as [|c bs (? & ? & ?) _ IH]; by constructor. Qed.


(** With slashes that are not merged, [..] does not remove the segment before
    it when that segment is empty: the walk back starts five bytes before the
    end, on the slash of the segment before. *)
Example dot_dot_not_merged :
  uri_bytes (normalize false (B! "/a/b//../c")) = Some (B! "/a/c") /\
  uri_bytes (normalize false (B! "//../c")) = None /\
  uri_bytes (normalize true (B! "/a/..")) = Some (B! "/a/..").
Proof. by vm_compute. Qed.
