(* ===== verification/NgxNumber.v ===== *)
(** * Reading and printing numbers

    The conversions of src/nginx-1.4.7/src/core/ngx_string.c: [ngx_atoi] and
    its variants, [ngx_atofp], [ngx_hextoi], [ngx_hex_dump] and
    [ngx_sprintf_num].  The signed accumulators wrap at 64 bits, as they do on
    the platforms nginx is built for. *)
From S2P Require Import Prelude HttpChars.

(** ** Definitions *)

(** The loop [for (value = 0; n--; line++)] over the digits; [None] is the
    return of [NGX_ERROR] inside of it.
    [core/ngx_string.c:864-870] for (value = 0; n--; line++) *)
Fixpoint ato_loop (value : Z) (line : list Z) : option Z :=
  match line with
  | [] => Some value
  | c :: line' =>
      if (c <? C! "0") || (C! "9" <? c) then None
      else ato_loop (s64 (value * 10 + (c - C! "0"))) line'
  end.

(** [if (value < 0) return NGX_ERROR; else return value;] *)
Definition ato_result (o : option Z) : Z :=
  match o with
  | None => NGX_ERROR
  | Some value => if value <? 0 then NGX_ERROR else value
  end.

Definition ato (line : list Z) : Z :=
  if decide (line = []) then NGX_ERROR else ato_result (ato_loop 0 line).

(** [core/ngx_string.c:855-878] ngx_atoi *)
Definition ngx_atoi (line : list Z) : Z := ato line.

(** [core/ngx_string.c:931-954] ngx_atosz *)
Definition ngx_atosz (line : list Z) : Z := ato line.

(** [core/ngx_string.c:957-980] ngx_atoof *)
Definition ngx_atoof (line : list Z) : Z := ato line.

(** [core/ngx_string.c:983-1006] ngx_atotm *)
Definition ngx_atotm (line : list Z) : Z := ato line.

(** [core/ngx_string.c:895-916] for (value = 0; n--; line++) *)
Fixpoint atofp_loop (value dot point : Z) (line : list Z) : option (Z * Z) :=
  match line with
  | [] => Some (value, point)
  | c :: line' =>
      if point =? 0 then None
      else if c =? C! "." then
        if negb (dot =? 0) then None else atofp_loop value 1 point line'
      else if (c <? C! "0") || (C! "9" <? c) then None
      else atofp_loop (s64 (value * 10 + (c - C! "0"))) dot (point - dot) line'
  end.

(** [core/ngx_string.c:918-920] while (point--) *)
Fixpoint atofp_scale (value : Z) (point : nat) : Z :=
  match point with
  | O => value
  | S point' => atofp_scale (s64 (value * 10)) point'
  end.

(** [core/ngx_string.c:883-928] ngx_atofp *)
Definition ngx_atofp (line : list Z) (point : Z) : Z :=
  if decide (line = []) then NGX_ERROR
  else match atofp_loop 0 0 point line with
       | None => NGX_ERROR
       | Some (value, point') =>
           let value := atofp_scale value (Z.to_nat point') in
           if value <? 0 then NGX_ERROR else value
       end.

(** [core/ngx_string.c:1019-1035] for (value = 0; n--; line++) *)
Fixpoint hextoi_loop (value : Z) (line : list Z) : option Z :=
  match line with
  | [] => Some value
  | ch :: line' =>
      if (C! "0" <=? ch) && (ch <=? C! "9") then
        hextoi_loop (s64 (value * 16 + (ch - C! "0"))) line'
      else
        let c := lcase ch in
        if (C! "a" <=? c) && (c <=? C! "f") then
          hextoi_loop (s64 (value * 16 + (c - C! "a" + 10))) line'
        else None
  end.

(** [core/ngx_string.c:1009-1043] ngx_hextoi *)
Definition ngx_hextoi (line : list Z) : Z :=
  if decide (line = []) then NGX_ERROR else ato_result (hextoi_loop 0 line).

(** [core/ngx_string.c:482-482] hex *)
Definition hex_lower (d : Z) : Z := mem_at (B! "0123456789abcdef") d.

(** [core/ngx_string.c:483-483] HEX *)
Definition hex_upper (d : Z) : Z := mem_at (B! "0123456789ABCDEF") d.

(** [core/ngx_string.c:1046-1057] ngx_hex_dump *)
Fixpoint ngx_hex_dump (src : list Z) : list Z :=
  match src with
  | [] => []
  | c :: src' => hex_lower (Z.shiftr c 4) :: hex_lower (Z.land c 15) :: ngx_hex_dump src'
  end.

(** The loops [do { *--p = ...; } while (ui64 /= base)], [room] being the free
    bytes of [temp] below [p]; [None] is a write below [temp].
    [core/ngx_string.c:508-510] do *)
Fixpoint put_digits (digit : Z -> Z) (base : Z) (room : nat) (n : Z) (acc : list Z)
    : option (list Z) :=
  match room with
  | O => None
  | S room' =>
      let acc := digit (n mod base) :: acc in
      if n / base =? 0 then Some acc else put_digits digit base room' (n / base) acc
  end.

Abbreviation NGX_INT64_LEN := 20%nat.
Abbreviation NGX_MAX_UINT32_VALUE := 4294967295.

(** The digits left in [temp].
    [core/ngx_string.c:485-535] ngx_sprintf_num *)
Definition num_digits (ui64 : Z) (hexadecimal : Z) : option (list Z) :=
  if hexadecimal =? 0 then
    let dec := fun d => u8 (d + C! "0") in
    if ui64 <=? NGX_MAX_UINT32_VALUE then put_digits dec 10 NGX_INT64_LEN (u32 ui64) []
    else put_digits dec 10 NGX_INT64_LEN ui64 []
  else if hexadecimal =? 1 then put_digits hex_lower 16 NGX_INT64_LEN ui64 []
  else put_digits hex_upper 16 NGX_INT64_LEN ui64 [].

(** What is written to a buffer with [room] free bytes ([last - buf]).
    [core/ngx_string.c:471-554] ngx_sprintf_num *)
Definition ngx_sprintf_num (room ui64 zero hexadecimal width : Z) : option (list Z) :=
  match num_digits ui64 hexadecimal with
  | None => None
  | Some temp =>
      let len := Z.of_nat (length temp) in
      let pad := Z.to_nat (Z.min (width - len) room) in
      let room := room - Z.of_nat pad in
      let len := if room <? len then room else len in
      Some (repeat zero pad ++ take (Z.to_nat len) temp)
  end.

(** ** Values of digit strings *)

Definition dec_digit (c : Z) : Prop := C! "0" <= c <= C! "9".

(** The number that a string of decimal digits denotes, after [v]. *)
Definition dec_value (v : Z) (line : list Z) : Z :=
  foldl (fun v c => v * 10 + (c - C! "0")) v line.

Lemma ato_loop_value v line :
  Forall dec_digit line -> ato_loop (s64 v) line = Some (s64 (dec_value v line)).
Proof.
  intros H. revert v. induction H as [|c line Hc _ IH]; intros v; cbn; [done|].
  unfold dec_digit in Hc. decide_tests. rewrite s64_step. apply IH.
Qed.

Lemma ato_loop_invalid v line : ~ Forall dec_digit line -> ato_loop v line = None.
Proof.
  revert v. induction line as [|c line IH]; intros v H; [by destruct H|]. cbn.
  destruct ((c <? 48) || (57 <? c)) eqn:E; [done|]. apply IH. intros H'. apply H.
  constructor; [|done]. unfold dec_digit. zify_bool. lia.
Qed.

#[global] Instance dec_digit_dec c : Decision (dec_digit c).
Proof. unfold dec_digit. apply _. Defined.

(** [ngx_atoi] and its variants for the other signed types accept exactly
    the non-empty strings of decimal digits whose value, reduced modulo 2^64
    into the signed range, is not negative, and return that reduced value: the
    digits of a number of 2^63 or more are not always refused. *)
Theorem atoi_spec (line : list Z) :
  ngx_atoi line =
    (if decide (line <> [] /\ Forall dec_digit line /\ 0 <= s64 (dec_value 0 line))
     then s64 (dec_value 0 line) else NGX_ERROR) /\
  ngx_atosz line = ngx_atoi line /\ ngx_atoof line = ngx_atoi line /\
  ngx_atotm line = ngx_atoi line.
Proof.
  split; [|done]. unfold ngx_atoi, ato.
  destruct (decide (line = [])) as [->|Hn]; [by rewrite decide_False by tauto|].
  destruct (decide (Forall dec_digit line)) as [Hd|Hd].
  - change 0 with (s64 0) at 1. rewrite ato_loop_value by done. cbn.
    destruct (Z.ltb_spec (s64 (dec_value 0 line)) 0).
    + rewrite decide_False; [done|]. lia.
    + by rewrite decide_True.
  - rewrite ato_loop_invalid by done. by rewrite decide_False by tauto.
Qed.

(** A number of 2^64 or more is read as a small one. *)
Example atoi_wraps : ngx_atoof (B! "18446744073709551621") = 5.
Proof. by vm_compute. Qed.

(** ** Printing *)

(** The number with the digits [ds] in a base, after [v]. *)
Definition base_value (base v : Z) (ds : list Z) : Z := foldl (fun v d => v * base + d) v ds.

Lemma base_value_app base v ds1 ds2 :
  base_value base v (ds1 ++ ds2) = base_value base (base_value base v ds1) ds2.
Proof. apply foldl_app. Qed.

Lemma put_digits_spec digit base room n acc :
  2 <= base -> 0 <= n < base ^ Z.of_nat room -> (0 < room)%nat ->
  exists ds, put_digits digit base room n acc = Some (map digit ds ++ acc) /\
    Forall (fun d => 0 <= d < base) ds /\ base_value base 0 ds = n /\
    (0 < length ds <= room)%nat.
Proof.
  intros Hb. revert n acc. induction room as [|room IH]; intros n acc Hn Hr; [lia|].
  cbn [put_digits]. pose proof (Z.mod_pos_bound n base ltac:(lia)) as Hmod.
  pose proof (Z.div_mod n base ltac:(lia)) as Hdiv.
  destruct (Z.eqb_spec (n / base) 0) as [E0|E0].
  - exists [n mod base]. split_and!; cbn; [done|by apply Forall_singleton|lia|lia|lia].
  - assert (0 <= n / base < base ^ Z.of_nat room) as Hq.
    { split; [apply Z.div_pos; lia|]. apply Z.div_lt_upper_bound; [lia|].
      rewrite <- Z.pow_succ_r by lia. replace (Z.succ (Z.of_nat room)) with (Z.of_nat (S room)) by lia. lia. }
    destruct (IH (n / base) (digit (n mod base) :: acc) Hq) as (ds & -> & Hds & Hv & Hlen).
    { destruct room; [cbn in Hq; lia|lia]. }
    exists (ds ++ [n mod base]). split_and!.
    + by rewrite map_app, <- app_assoc.
    + apply Forall_app. split; [done|]. by apply Forall_singleton.
    + rewrite base_value_app, Hv. cbn. lia.
    + rewrite length_app. cbn. lia.
    + rewrite length_app. cbn. lia.
Qed.

(** The digit function and the base of a kind of number. *)
Definition num_digit (hexadecimal : Z) : Z -> Z :=
  if hexadecimal =? 0 then fun d => u8 (d + C! "0")
  else if hexadecimal =? 1 then hex_lower else hex_upper.
Definition num_base (hexadecimal : Z) : Z := if hexadecimal =? 0 then 10 else 16.

Lemma num_digits_eq n hexadecimal :
  0 <= n -> num_digits n hexadecimal = put_digits (num_digit hexadecimal) (num_base hexadecimal) 20 n [].
Proof.
  intros Hn. unfold num_digits, num_digit, num_base. repeat case_match; try done.
  zify_bool. unfold u32. by rewrite Z.mod_small by lia.
Qed.

(** The temporary buffer is large enough for every 64-bit number. *)
Lemma num_digits_spec n hexadecimal :
  0 <= n < 2 ^ 64 ->
  exists ds, num_digits n hexadecimal = Some (map (num_digit hexadecimal) ds) /\
    Forall (fun d => 0 <= d < num_base hexadecimal) ds /\
    base_value (num_base hexadecimal) 0 ds = n /\ (0 < length ds <= 20)%nat.
Proof.
  intros Hn. rewrite num_digits_eq by lia.
  assert (2 ^ 64 < 10 ^ 20 /\ 2 ^ 64 < 16 ^ 20) as [] by done.
  destruct (put_digits_spec (num_digit hexadecimal) (num_base hexadecimal) 20 n [])
    as (ds & E & H'); [unfold num_base; case_match; lia..|lia|].
  rewrite app_nil_r in E. eauto.
Qed.

Lemma sprintf_num_fits room n zero hexadecimal width :
  0 <= n < 2 ^ 64 -> 0 <= room ->
  exists out temp, ngx_sprintf_num room n zero hexadecimal width = Some out /\
    Z.of_nat (length out) <= room /\ num_digits n hexadecimal = Some temp /\
    (Z.of_nat (length temp) <= room -> width <= room ->
     out = repeat zero (Z.to_nat width - length temp) ++ temp).
Proof.
  intros Hn Hr. destruct (num_digits_spec n hexadecimal Hn) as (ds & E & _ & _ & Hlen).
  unfold ngx_sprintf_num. rewrite E. eexists _, _. split_and!; [done| |done|].
  - rewrite length_app, repeat_length, length_take, length_map. case_match; zify_bool; lia.
  - rewrite length_map. intros H1 H2. f_equal.
    + f_equal. lia.
    + apply take_ge. rewrite length_map. case_match; zify_bool; lia.
Qed.

(** ** Round trips *)

Lemma dec_value_digits ds v :
  Forall (fun d => 0 <= d < 10) ds ->
  Forall dec_digit (map (num_digit 0) ds) /\
  dec_value v (map (num_digit 0) ds) = base_value 10 v ds.
Proof.
  intros H. revert v. induction H as [|d ds Hd _ IH]; intros v; [done|].
  assert (E : num_digit 0 d = d + 48).
  { change (num_digit 0 d) with (u8 (d + 48)). unfold u8. rewrite Z.mod_small; lia. }
  destruct (IH (v * 10 + d)) as [IH1 IH2]. cbn [map]. split.
  - constructor; [|done]. rewrite E. unfold dec_digit. lia.
  - cbn. rewrite E. replace (d + 48 - 48) with d by lia. exact IH2.
Qed.

Lemma hextoi_digit hexadecimal d :
  (hexadecimal = 1 \/ hexadecimal = 2) -> 0 <= d < 16 -> forall v line,
  hextoi_loop v (num_digit hexadecimal d :: line) = hextoi_loop (s64 (v * 16 + d)) line.
Proof.
  intros Hh Hd v line.
  pose proof (in_range 0 16 d ltac:(lia)) as Hin.
  cbn in Hin. destruct Hh as [-> | ->];
    repeat (destruct Hin as [<-|Hin]; [reflexivity|]); done.
Qed.

Lemma hextoi_loop_digits hexadecimal ds v :
  (hexadecimal = 1 \/ hexadecimal = 2) -> Forall (fun d => 0 <= d < 16) ds ->
  hextoi_loop (s64 v) (map (num_digit hexadecimal) ds) = Some (s64 (base_value 16 v ds)).
Proof.
  intros Hh H. revert v. induction H as [|d ds Hd _ IH]; intros v; [done|].
  cbn [map]. rewrite hextoi_digit, s64_step by done. apply IH.
Qed.

(** What [ngx_sprintf_num] prints for a number below 2^63 is read back as
    that number: by [ngx_atoi] in decimal, by [ngx_hextoi] in hexadecimal with
    digits of either case. *)
Theorem number_roundtrip (n zero hexadecimal : Z) :
  0 <= n < 2 ^ 63 -> 0 <= hexadecimal <= 2 ->
  exists out, ngx_sprintf_num 20 n zero hexadecimal 0 = Some out /\
    (if hexadecimal =? 0 then ngx_atoi out else ngx_hextoi out) = n.
Proof.
  intros Hn Hh. destruct (num_digits_spec n hexadecimal) as (ds & E & Hds & Hv & Hlen); [lia|].
  destruct (sprintf_num_fits 20 n zero hexadecimal 0) as (out & temp & E1 & _ & E2 & Hout);
    [lia|lia|]. rewrite E in E2. injection E2 as <-. rewrite length_map in Hout.
  specialize (Hout ltac:(lia) ltac:(lia)). rewrite E1. exists out. split; [done|].
  assert (out = map (num_digit hexadecimal) ds) as -> by done.
  unfold num_base in *. unfold ngx_atoi, ato, ngx_hextoi.
  assert (map (num_digit hexadecimal) ds <> []) by (by destruct ds; [cbn in Hlen; lia|]).
  rewrite decide_False by done. rewrite decide_False by done. change 0 with (s64 0) at 2 3.
  destruct (Z.eqb_spec hexadecimal 0) as [->|].
  - destruct (dec_value_digits ds 0 Hds) as [H1 H2].
    rewrite ato_loop_value, H2, Hv by done. cbn. rewrite s64_small by lia. by decide_tests.
  - rewrite hextoi_loop_digits, Hv by (done || lia). cbn. rewrite s64_small by lia. by decide_tests.
Qed.

Lemma number_roundtrip_witness :
  exists out, ngx_sprintf_num 20 48879 (C! " ") 1 0 = Some out /\ ngx_hextoi out = 48879.
Proof. apply (number_roundtrip 48879 (C! " ") 1); lia. Defined.

(** ** Fixed point numbers *)

Lemma atofp_loop_digits v dot point line rest :
  Forall dec_digit line -> 0 <= dot <= 1 -> dot * Z.of_nat (length line) <= point -> 0 < point ->
  (dot * Z.of_nat (length line) = point -> rest = []) ->
  atofp_loop (s64 v) dot point (line ++ rest) =
  atofp_loop (s64 (dec_value v line)) dot (point - dot * Z.of_nat (length line)) rest.
Proof.
  intros H Hdot. revert v point. induction H as [|c line Hc _ IH]; intros v point Hp Hpos Hrest.
  - cbn. f_equal. lia.
  - cbn [app atofp_loop length] in *. unfold dec_digit in Hc. decide_tests. rewrite s64_step.
    destruct (Z.eq_dec (point - dot) 0) as [E|E].
    + assert (dot = 1) as -> by lia. destruct line; [|cbn [length] in Hp; lia].
      rewrite Hrest by (cbn [length]; lia). cbn [dec_value foldl app atofp_loop length]. by do 2 f_equal; lia.
    + rewrite IH; [f_equal; lia|lia|lia|]. intros. apply Hrest. lia.
Qed.

Lemma atofp_scale_value v n : atofp_scale (s64 v) n = s64 (v * 10 ^ Z.of_nat n).
Proof.
  revert v. induction n as [|n IH]; intros v; cbn [atofp_scale].
  - f_equal. lia.
  - replace (s64 v * 10) with (s64 v * 10 + 0) by lia. rewrite s64_step, IH. f_equal.
    replace (Z.of_nat (S n)) with (Z.succ (Z.of_nat n)) by lia. rewrite Z.pow_succ_r by lia. lia.
Qed.

Lemma dec_value_nonneg v line : 0 <= v -> Forall dec_digit line -> 0 <= dec_value v line.
Proof.
  intros Hv H. revert v Hv. induction H as [|c line Hc _ IH]; intros v Hv; [done|].
  apply IH. unfold dec_digit in Hc. lia.
Qed.

(** [ngx_atofp] reads a number with at most [point] digits after its dot as
    the integer that the number times ten to the power [point] is. *)
Theorem atofp_spec (ip fp : list Z) (point : Z) :
  Forall dec_digit ip -> Forall dec_digit fp ->
  Z.of_nat (length fp) <= point -> 0 < point ->
  dec_value 0 (ip ++ fp) * 10 ^ (point - Z.of_nat (length fp)) < 2 ^ 63 ->
  ngx_atofp (ip ++ B! "." ++ fp) point =
  dec_value 0 (ip ++ fp) * 10 ^ (point - Z.of_nat (length fp)).
Proof.
  intros Hi Hf Hp Hpos Hmax.
  pose proof (dec_value_nonneg 0 (ip ++ fp) ltac:(lia) (Forall_app_2 _ _ _ Hi Hf)) as H0. unfold ngx_atofp. rewrite decide_False by (by destruct ip).
  change (atofp_loop 0) with (atofp_loop (s64 0)).
  rewrite atofp_loop_digits by (done || lia). cbn [app atofp_loop].
  decide_tests. rewrite <- (app_nil_r fp) at 1.
  rewrite Z.mul_0_l, Z.sub_0_r, atofp_loop_digits by (done || lia).
  cbn [atofp_loop]. unfold dec_value in *. rewrite <- foldl_app.
  fold (dec_value 0 (ip ++ fp)) in *. rewrite atofp_scale_value.
  assert (0 <= 10 ^ (point - Z.of_nat (length fp))) by (apply Z.pow_nonneg; lia).
  replace (Z.of_nat (Z.to_nat (point - 1 * Z.of_nat (length fp))))
    with (point - Z.of_nat (length fp)) by lia.
  rewrite s64_small by nia. rewrite (proj2 (Z.ltb_ge _ _)) by nia. done.
Qed.

