(* ===== verification/NgxParse.v ===== *)
(** * Sizes and times of the configuration

    src/nginx-1.4.7/src/core/ngx_parse.c: sizes with a unit of bytes, and times
    that are a sum of numbers with units. *)

From S2P Require Import Prelude HttpChars NgxNumber.

Abbreviation NGX_MAX_INT32_VALUE := 2147483647 (only parsing).

(** ** Sizes *)

(** The factor of a unit and whether it is a byte of its own; [giga] is the case
    of [ngx_parse_offset].
    [core/ngx_parse.c:62-83] switch (unit) *)
Definition size_unit (giga : bool) (unit : Z) : Z * bool :=
  if (unit =? C! "K") || (unit =? C! "k") then (1024, true)
  else if (unit =? C! "M") || (unit =? C! "m") then (1024 * 1024, true)
  else if giga && ((unit =? C! "G") || (unit =? C! "g")) then (1024 * 1024 * 1024, true)
  else (1, false).

Definition parse_units (giga : bool) (before : Z) (line : list Z) : option Z :=
  let len := length line in
  let unit := List.last line before in
  let '(scale, has) := size_unit giga unit in
  if has && (len =? 0)%nat then None
  else
    let size := ngx_atosz (if has : bool then take (len - 1) line else line) in
    Some (if size =? NGX_ERROR then NGX_ERROR else s64 (size * scale)).

(** [before] is the byte in memory before the text, which is read when the text
    is empty; [None] is a length that wraps.
    [core/ngx_parse.c:12-48] ngx_parse_size *)
Definition ngx_parse_size (before : Z) (line : list Z) : option Z := parse_units false before line.

(** [core/ngx_parse.c:51-93] ngx_parse_offset *)
Definition ngx_parse_offset (before : Z) (line : list Z) : option Z := parse_units true before line.

(** ** Times *)

(** [core/ngx_parse.c:102-113] step *)
Abbreviation st_start := 0 (only parsing).
Abbreviation st_year := 1 (only parsing).
Abbreviation st_month := 2 (only parsing).
Abbreviation st_week := 3 (only parsing).
Abbreviation st_day := 4 (only parsing).
Abbreviation st_hour := 5 (only parsing).
Abbreviation st_min := 6 (only parsing).
Abbreviation st_sec := 7 (only parsing).
Abbreviation st_msec := 8 (only parsing).
Abbreviation st_last := 9 (only parsing).

(** What a unit gives: the step, the greatest number and the factor, and whether
    a second byte belongs to it; [None] is NGX_ERROR.
    [core/ngx_parse.c:132-219] switch *)
Definition time_unit (is_sec : bool) (step c next : Z) : option (Z * Z * Z * bool) :=
  let unit (bad : bool) (st seconds : Z) :=
    if bad then None else Some (st, NGX_MAX_INT32_VALUE / seconds, seconds, false) in
  if c =? C! "y" then unit (st_start <? step) st_year (60 * 60 * 24 * 365)
  else if c =? C! "M" then unit (st_month <=? step) st_month (60 * 60 * 24 * 30)
  else if c =? C! "w" then unit (st_week <=? step) st_week (60 * 60 * 24 * 7)
  else if c =? C! "d" then unit (st_day <=? step) st_day (60 * 60 * 24)
  else if c =? C! "h" then unit (st_hour <=? step) st_hour (60 * 60)
  else if c =? C! "m" then
    if next =? C! "s" then
      if is_sec || (st_msec <=? step) then None else Some (st_msec, NGX_MAX_INT32_VALUE, 1, true)
    else unit (st_min <=? step) st_min 60
  else if c =? C! "s" then unit (st_sec <=? step) st_sec 1
  else if c =? C! " " then unit (st_sec <=? step) st_last 1
  else None.

Fixpoint skip_blanks (line : list Z) : list Z :=
  match line with
  | c :: rest => if c =? C! " " then skip_blanks rest else line
  | [] => []
  end.

(** [after] is the byte in memory after the text.
    [core/ngx_parse.c:124-242] while (p < last) *)
Fixpoint time_loop (fuel : nat) (is_sec : bool) (after : Z) (valid : bool) (value total step : Z) (line : list Z) : Z :=
  let scale := if is_sec then 1 else 1000 in
  match fuel, line with
  | _, [] => if valid then s64 (total + s64 (value * scale)) else NGX_ERROR
  | O, _ => NGX_ERROR
  | S fuel, c :: rest =>
      if (C! "0" <=? c) && (c <=? C! "9") then
        time_loop fuel is_sec after true (s64 (value * 10 + (c - C! "0"))) total step rest
      else
        match time_unit is_sec step c (hd after rest) with
        | None => NGX_ERROR
        | Some (step, max, scale, two) =>
            let rest := if two then tl rest else rest in
            let milli := negb (step =? st_msec) && negb is_sec in
            let scale := if milli then scale * 1000 else scale in
            let max := if milli then max / 1000 else max in
            if max <? u64 value then NGX_ERROR
            else
              let total := s64 (total + s64 (value * scale)) in
              if NGX_MAX_INT32_VALUE <? u64 total then NGX_ERROR
              else time_loop fuel is_sec after valid 0 total step (skip_blanks rest)
        end
  end.

(** [core/ngx_parse.c:96-249] ngx_parse_time *)
Definition ngx_parse_time (is_sec : bool) (after : Z) (line : list Z) : Z :=
  time_loop (length line) is_sec after false 0 0 (if is_sec then st_start else st_month) line.

(** ** What sizes mean *)

(** A number with a unit is the product, reduced to 64 bits. *)
Lemma parse_units_spec giga before ds unit :
  ds <> [] -> Forall dec_digit ds -> 0 <= dec_value 0 ds < 2 ^ 63 ->
  let '(scale, has) := size_unit giga unit in
  has = true -> parse_units giga before (ds ++ [unit]) = Some (s64 (dec_value 0 ds * scale)) /\ parse_units giga before ds = Some (dec_value 0 ds).
Proof.
  intros Hne Hd Hv. destruct (size_unit giga unit) as [scale has] eqn:Eu. intros ->.
  assert (Ea : ngx_atosz ds = dec_value 0 ds).
  { destruct (atoi_spec ds) as (E & -> & _). rewrite E, s64_small by lia. rewrite decide_True; [done|]. split_and!; [done|done|lia]. }
  assert (Hnum : size_unit giga (List.last ds before) = (1, false)).
  { assert (Hl : dec_digit (List.last ds before)).
    { destruct ds as [|a l _] using rev_ind; [done|]. rewrite last_last. by apply Forall_app in Hd as [_ ?%Forall_inv]. }
    unfold dec_digit in Hl. unfold size_unit. decide_tests. by rewrite andb_false_r. }
  split.
  - unfold parse_units. rewrite last_last, Eu, length_app. cbn [length]. rewrite (proj2 (Nat.eqb_neq _ 0)) by lia. cbn [andb].
    rewrite (Nat.add_sub (length ds) 1), take_app_length, Ea. by rewrite (proj2 (Z.eqb_neq _ _)) by lia.
  - unfold parse_units. rewrite Hnum. cbn [andb]. rewrite Ea, (proj2 (Z.eqb_neq _ _)) by lia. by rewrite Z.mul_1_r, s64_small by lia.
Qed.

(** A size of 2^64 bytes is read as none. *)
Example parse_size_wraps : ngx_parse_size 0 (B! "18014398509481984k") = Some 0.
Proof. by vm_compute. Qed.

(** ** What times mean *)

(** The units, with their steps and texts. *)
Inductive unit_name : Type := Years | Months | Weeks | Days | Hours | Minutes | Seconds | Milliseconds.

Definition unit_step (u : unit_name) : Z :=
  match u with
  | Years => st_year | Months => st_month | Weeks => st_week | Days => st_day
  | Hours => st_hour | Minutes => st_min | Seconds => st_sec | Milliseconds => st_msec
  end.
Definition unit_text (u : unit_name) : list Z :=
  match u with
  | Years => B! "y" | Months => B! "M" | Weeks => B! "w" | Days => B! "d"
  | Hours => B! "h" | Minutes => B! "m" | Seconds => B! "s" | Milliseconds => B! "ms"
  end.
Definition is_milli (u : unit_name) : bool := match u with Milliseconds => true | _ => false end.

(** The seconds of a unit, and its length in the unit of the result. *)
Definition unit_seconds (u : unit_name) : Z :=
  match u with
  | Years => 60 * 60 * 24 * 365 | Months => 60 * 60 * 24 * 30 | Weeks => 60 * 60 * 24 * 7 | Days => 60 * 60 * 24
  | Hours => 60 * 60 | Minutes => 60 | _ => 1
  end.
Definition unit_length (is_sec : bool) (u : unit_name) : Z := unit_seconds u * if is_sec || is_milli u then 1 else 1000.

(** A number with a unit and the blanks after it. *)
Record time_item : Type := { ti_digits : list Z; ti_unit : unit_name; ti_blanks : nat }.

Definition item_text (x : time_item) : list Z := ti_digits x ++ unit_text (ti_unit x) ++ repeat (C! " ") (ti_blanks x).
Definition item_value (is_sec : bool) (x : time_item) : Z :=
  dec_value 0 (ti_digits x) * unit_length is_sec (ti_unit x).

(** From [step] on each unit is smaller than the one before it. *)
Fixpoint descending (is_sec : bool) (step : Z) (items : list time_item) : Prop :=
  match items with
  | [] => True
  | x :: items =>
      Forall dec_digit (ti_digits x) /\ ti_digits x <> [] /\ step < unit_step (ti_unit x) /\
      (is_sec && is_milli (ti_unit x) = false) /\ descending is_sec (unit_step (ti_unit x)) items
  end.

Lemma time_loop_digits fuel is_sec after valid value total step ds rest :
  Forall dec_digit ds -> ds <> [] ->
  time_loop (length ds + fuel) is_sec after valid (s64 value) total step (ds ++ rest) =
  time_loop fuel is_sec after true (s64 (dec_value value ds)) total step rest.
Proof.
  intros Hd. revert valid value. induction Hd as [|c ds Hc Hd IH]; intros valid value Hne; [done|].
  cbn [length Nat.add app time_loop]. unfold dec_digit in Hc. rewrite (proj2 (andb_true_iff _ _)) by (split; zify_bool; lia).
  rewrite s64_step. destruct ds as [|c' ds]; [done|]. by rewrite IH.
Qed.

Lemma skip_blanks_app n line : skip_blanks (repeat (C! " ") n ++ line) = skip_blanks line.
Proof. by induction n. Qed.

Lemma dec_value_ge v ds : Forall dec_digit ds -> 0 <= v -> v <= dec_value v ds.
Proof.
  intros Hd. revert v. induction Hd as [|c ds Hc _ IH]; intros v Hv; cbn; [lia|]. unfold dec_digit in Hc.
  specialize (IH (v * 10 + (c - 48)) ltac:(lia)). unfold dec_value in IH. lia.
Qed.

(** The unit of an item is accepted with its step and factor. *)
Lemma time_unit_item is_sec step u next :
  0 <= step < unit_step u -> is_sec && is_milli u = false -> (u = Minutes -> next <> C! "s") -> (u = Milliseconds -> next = C! "s") ->
  time_unit is_sec step (hd 0 (unit_text u)) next =
  Some (unit_step u, NGX_MAX_INT32_VALUE / unit_seconds u, unit_seconds u, is_milli u).
Proof.
  intros Hs Hm Hmin Hms. unfold time_unit. destruct u; cbn [unit_text unit_step unit_seconds is_milli hd] in *; decide_tests; try done.
  - specialize (Hmin eq_refl). by decide_tests.
  - specialize (Hms eq_refl). rewrite andb_true_r in Hm. subst is_sec. cbn [orb]. by decide_tests.
Qed.

Definition time_text (items : list time_item) (tail : list Z) : list Z := flat_map item_text items ++ tail.

(** What follows an item begins with a digit, if there is anything. *)
Lemma text_starts is_sec step items tail :
  descending is_sec step items -> Forall dec_digit tail -> time_text items tail = [] \/ exists c rest, time_text items tail = c :: rest /\ dec_digit c.
Proof.
  intros Hd Ht. unfold time_text. destruct items as [|x items]; cbn [flat_map app].
  - destruct Ht as [|c tail Hc _]; [by left|right; eauto].
  - right. destruct Hd as (Hx & Hne & _). unfold item_text. destruct Hx as [|c ds Hc _]; [done|]. cbn. eauto.
Qed.

Lemma skip_blanks_text is_sec step items tail n :
  descending is_sec step items -> Forall dec_digit tail -> skip_blanks (repeat (C! " ") n ++ time_text items tail) = time_text items tail.
Proof.
  intros Hd Ht. rewrite skip_blanks_app. destruct (text_starts is_sec step items tail Hd Ht) as [->|(c & rest & -> & Hc)]; [done|].
  unfold dec_digit in Hc. cbn. by decide_tests.
Qed.

Lemma text_next is_sec step items tail n after :
  descending is_sec step items -> Forall dec_digit tail -> after <> C! "s" -> hd after (repeat (C! " ") n ++ time_text items tail) <> C! "s".
Proof.
  intros Hd Ht Ha. destruct n; [|done]. cbn [repeat app]. destruct (text_starts is_sec step items tail Hd Ht) as [->|(c & rest & -> & Hc)]; [done|].
  unfold dec_digit in Hc. cbn. lia.
Qed.

Lemma unit_length_pos is_sec u : 0 < unit_length is_sec u.
Proof. destruct is_sec, u; by vm_compute. Qed.

Lemma item_value_nonneg is_sec x : Forall dec_digit (ti_digits x) -> 0 <= item_value is_sec x.
Proof.
  intros H. unfold item_value. pose proof (unit_length_pos is_sec (ti_unit x)). pose proof (dec_value_ge 0 _ H ltac:(lia)). nia.
Qed.

Lemma items_value_nonneg is_sec step items : descending is_sec step items -> 0 <= sumZ (item_value is_sec) items.
Proof.
  revert step; induction items as [|x items IH]; intros step H; cbn [sumZ]; [lia|]. destruct H as (H1 & _ & _ & _ & H2).
  specialize (IH _ H2). pose proof (item_value_nonneg is_sec x H1). lia.
Qed.

(** One unit after a number that is in range. *)
Lemma time_loop_unit f is_sec after value total step u n items tail :
  0 <= step < unit_step u -> is_sec && is_milli u = false -> descending is_sec (unit_step u) items -> Forall dec_digit tail -> after <> C! "s" ->
  0 <= value -> 0 <= total -> total + value * unit_length is_sec u <= NGX_MAX_INT32_VALUE ->
  time_loop (S f) is_sec after true value total step (unit_text u ++ repeat (C! " ") n ++ time_text items tail) =
  time_loop f is_sec after true 0 (total + value * unit_length is_sec u) (unit_step u) (time_text items tail).
Proof.
  intros Hs Hm Hd Ht Ha Hv Htot Hle. set (rest := repeat (C! " ") n ++ time_text items tail).
  pose proof (text_next is_sec _ items tail n after Hd Ht Ha) as Hnext. fold rest in Hnext.
  pose proof (skip_blanks_text is_sec _ items tail n Hd Ht) as Hskip. fold rest in Hskip.
  assert (Hsec : 0 < unit_seconds u) by (destruct u; cbn; lia).
  assert (Etext : unit_text u ++ rest = hd 0 (unit_text u) :: (if is_milli u then C! "s" :: rest else rest)) by (clear; destruct u; reflexivity).
  assert (Edig : (C! "0" <=? hd 0 (unit_text u)) && (hd 0 (unit_text u) <=? C! "9") = false) by (by destruct u).
  assert (Emilli : negb (unit_step u =? st_msec) && negb is_sec = negb (is_sec || is_milli u)) by (by destruct u, is_sec).
  rewrite Etext. cbn [time_loop]. rewrite Edig, (time_unit_item is_sec step u) by (exact Hs || exact Hm || (intros ->; exact Hnext) || (intros ->; reflexivity)). rewrite Emilli.
  replace (if is_milli u then tl (if is_milli u then C! "s" :: rest else rest) else if is_milli u then C! "s" :: rest else rest) with rest by (by destruct (is_milli u)).
  assert (El : (if negb (is_sec || is_milli u) then unit_seconds u * 1000 else unit_seconds u) = unit_length is_sec u)
    by (unfold unit_length; destruct (is_sec || is_milli u); cbn [negb]; lia). rewrite El.
  assert (Emax : (if negb (is_sec || is_milli u) then 2147483647 / unit_seconds u / 1000 else 2147483647 / unit_seconds u) = 2147483647 / unit_length is_sec u).
  { rewrite <- El. destruct (negb (is_sec || is_milli u)); [|reflexivity]. by rewrite Z.div_div by lia. } rewrite Emax.
  pose proof (unit_length_pos is_sec u) as Hlen. assert (Hmul : 0 <= value * unit_length is_sec u <= NGX_MAX_INT32_VALUE) by nia.
  assert (Hvm : value <= 2147483647 / unit_length is_sec u) by (apply Z.div_le_lower_bound; lia). assert (value <= 2147483647) by nia.
  rewrite (u64_small value) by lia. rewrite (proj2 (Z.ltb_ge _ _)) by lia. rewrite (s64_small (value * _)) by lia. rewrite (s64_small (total + _)) by lia.
  rewrite u64_small by lia. rewrite (proj2 (Z.ltb_ge _ _)) by lia. by rewrite Hskip.
Qed.

Lemma time_loop_items items tail fuel is_sec after valid total step :
  descending is_sec step items -> 0 <= step -> Forall dec_digit tail -> after <> C! "s" -> 0 <= total ->
  total + sumZ (item_value is_sec) items <= NGX_MAX_INT32_VALUE -> (length (time_text items tail) <= fuel)%nat ->
  (items = [] -> tail = [] -> valid = true) ->
  time_loop fuel is_sec after valid 0 total step (time_text items tail) =
  s64 (total + sumZ (item_value is_sec) items + dec_value 0 tail * if is_sec then 1 else 1000).
Proof.
  revert fuel valid total step; induction items as [|x items IH]; intros fuel valid total step Hd Hs Ht Ha Htot Hle Hf Hvalid.
  - cbn [time_text flat_map app sumZ] in *. change 0 with (s64 0) at 1.
    assert (Hend : forall f v w, time_loop f is_sec after true v w step [] = s64 (w + s64 (v * if is_sec then 1 else 1000))) by (by intros []).
    destruct (decide (tail = [])) as [->|Hne].
    + rewrite (Hvalid eq_refl eq_refl), Hend. f_equal. change (dec_value 0 []) with 0. rewrite (s64_small 0), !Z.mul_0_l, (s64_small 0) by lia. lia.
    + destruct (Nat.le_exists_sub _ _ Hf) as (f & -> & _). rewrite Nat.add_comm. rewrite <- (app_nil_r tail) at 2. rewrite time_loop_digits by done.
      rewrite Hend.
      replace (s64 (s64 (dec_value 0 tail) * _)) with (s64 (dec_value 0 tail * if is_sec then 1 else 1000)) by (pose proof (s64_step (dec_value 0 tail) (if is_sec then 1 else 1000) 0) as E; by rewrite !Z.add_0_r in E).
      pose proof (s64_step (dec_value 0 tail * if is_sec then 1 else 1000) 1 total) as E. rewrite !Z.mul_1_r in E. rewrite Z.add_comm, E. f_equal. lia.
  - destruct Hd as (Hx & Hne & Hsx & Hmx & Hd). cbn [sumZ] in *. pose proof (items_value_nonneg _ _ _ Hd) as H0. pose proof (item_value_nonneg is_sec x Hx) as H1.
    assert (Etext : time_text (x :: items) tail = ti_digits x ++ unit_text (ti_unit x) ++ repeat (C! " ") (ti_blanks x) ++ time_text items tail)
      by (unfold time_text, item_text; cbn [flat_map]; by rewrite <- !(assoc_L (++))).
    assert (Hv0 : 0 <= dec_value 0 (ti_digits x)) by (apply dec_value_ge; [done|lia]).
    pose proof (unit_length_pos is_sec (ti_unit x)) as Hlen. unfold item_value at 1 in Hle. unfold item_value in H1.
    assert (Hvl : dec_value 0 (ti_digits x) <= dec_value 0 (ti_digits x) * unit_length is_sec (ti_unit x)) by nia. rewrite Etext in *. rewrite length_app in Hf.
    assert (Hul : (1 <= length (unit_text (ti_unit x)))%nat) by (destruct (ti_unit x); cbn; lia). rewrite !length_app in Hf.
    destruct (Nat.le_exists_sub (length (ti_digits x) + S (length (time_text items tail))) fuel ltac:(lia)) as (f & -> & _).
    replace (f + (length (ti_digits x) + S (length (time_text items tail))))%nat with (length (ti_digits x) + S (length (time_text items tail) + f))%nat by lia.
    change 0 with (s64 0) at 1. rewrite time_loop_digits by done. rewrite (s64_small (dec_value 0 (ti_digits x))) by lia.
    rewrite time_loop_unit by (done || lia). rewrite IH; [|done|lia|done|done|lia| | |done].
    + f_equal. unfold item_value. lia.
    + lia.
    + lia.
Qed.

(** A text of numbers with units, each smaller than the one before, gives their sum when that is at most 2^31 - 1; a number without a unit at the end is added to it with no check but the wrap at 64 bits. *)
Theorem parse_time_sum is_sec after items tail :
  descending is_sec (if is_sec then st_start else st_month) items -> Forall dec_digit tail -> after <> C! "s" ->
  sumZ (item_value is_sec) items <= NGX_MAX_INT32_VALUE -> items <> [] \/ tail <> [] ->
  ngx_parse_time is_sec after (time_text items tail) = s64 (sumZ (item_value is_sec) items + dec_value 0 tail * if is_sec then 1 else 1000).
Proof.
  intros Hd Ht Ha Hle Hne. unfold ngx_parse_time. rewrite time_loop_items; [f_equal; lia|done|destruct is_sec; lia|done|done|lia|lia|lia|]. tauto.
Qed.

Lemma parse_time_sum_witness : ngx_parse_time false 0 (B! "1h 30m 5") = 5405000.
Proof.
  apply (parse_time_sum false 0
    [{| ti_digits := B! "1"; ti_unit := Hours; ti_blanks := 1 |}; {| ti_digits := B! "30"; ti_unit := Minutes; ti_blanks := 1 |}] (B! "5")).
  - repeat split; try done; repeat constructor; done.
  - repeat constructor; done.
  - done.
  - vm_compute. done.
  - by left.
Defined.

(** A time that ends in a unit or a blank is an error or at most 2^31 - 1. *)
Lemma skip_blanks_suffix line : exists pre, line = pre ++ skip_blanks line.
Proof.
  induction line as [|c line [pre IH]]; [by exists []|]. cbn. destruct (c =? 32); [exists (c :: pre); cbn; by rewrite <- IH|by exists []].
Qed.

Definition ends_in_digit (line : list Z) : Prop := line <> [] /\ dec_digit (List.last line 0).

Lemma ends_suffix (pre line : list Z) : ends_in_digit line -> ends_in_digit (pre ++ line).
Proof.
  intros [Hne Hl]. split; [by destruct pre|]. destruct line as [|a l _] using rev_ind; [done|]. rewrite (assoc_L (++)), last_last. by rewrite last_last in Hl.
Qed.

Lemma time_loop_bounded fuel is_sec after valid value total step line :
  ~ ends_in_digit line -> (line = [] -> value = 0) -> 0 <= total <= NGX_MAX_INT32_VALUE ->
  let r := time_loop fuel is_sec after valid value total step line in r = NGX_ERROR \/ 0 <= r <= NGX_MAX_INT32_VALUE.
Proof.
  cbn zeta. revert valid value total step line; induction fuel as [|fuel IH]; intros valid value total step [|c rest] Hend Hv Ht; cbn [time_loop].
  1, 3: destruct valid; [right|by left]; rewrite (Hv eq_refl), Z.mul_0_l, (s64_small 0), Z.add_0_r, s64_small by lia; done.
  1: by left.
  destruct ((48 <=? c) && (c <=? 57)) eqn:Ed.
  - apply IH; [| |done].
    + intros H. apply Hend. by apply (ends_suffix [c]).
    + intros ->. exfalso. apply Hend. split; [done|]. unfold dec_digit. cbn. zify_bool. lia.
  - destruct (time_unit is_sec step c (hd after rest)) as [[[[st mx] sc] two]|]; [|by left].
    destruct (_ <? u64 value); [by left|]. set (t := s64 (total + _)). destruct (Z.ltb_spec 2147483647 (u64 t)) as [|Hu]; [by left|]. apply IH; [|done|].
    + intros H. apply Hend. destruct (skip_blanks_suffix (if two then tl rest else rest)) as [pre Epre].
      apply (ends_suffix pre) in H. rewrite <- Epre in H. destruct two; [|by apply (ends_suffix [c])].
      destruct rest as [|d rest]; [by destruct H|]. by apply (ends_suffix [c; d]).
    + assert (Hr : - 2 ^ 63 <= t < 2 ^ 63) by apply s64_range. unfold u64 in Hu.
      destruct (Z.lt_ge_cases t 0); [rewrite <- (Z_mod_plus_full _ 1), Z.mod_small in Hu by lia; lia|rewrite Z.mod_small in Hu by lia; lia].
Qed.

Lemma parse_time_bounded is_sec after line :
  ~ ends_in_digit line -> ngx_parse_time is_sec after line = NGX_ERROR \/ 0 <= ngx_parse_time is_sec after line <= NGX_MAX_INT32_VALUE.
Proof. intros H. apply time_loop_bounded; [done|done|lia]. Qed.

(** A number without a unit is not bounded, and wraps. *)
Example parse_time_unbounded : ngx_parse_time true 0 (B! "9999999999") = 9999999999 /\ ngx_parse_time false 0 (B! "18446744073709552") = 384.
Proof. by vm_compute. Qed.
