(* ===== verification/NgxSprintf.v ===== *)
(** * Formatted printing

    [ngx_vslprintf] of src/nginx-1.4.7/src/core/ngx_string.c and the functions
    that call it.  The function writes into [buf .. last); the model returns
    the bytes that it writes and takes the room [last - buf].  The format is
    the list of its characters, without the terminating NUL.

    A C double is a [spec_float] of the Standard Library, the inductive
    specification of IEEE 754 arithmetic: 53 bits of precision, exponents up to
    1024, rounding to the nearest even. *)
From Stdlib Require SpecFloat.
From S2P Require Import Prelude HttpChars NgxNumber.

(** ** Definitions *)

(** The variadic arguments: an integer of any type, an [ngx_str_t] or
    [ngx_variable_value_t], a C string, with the bytes from its pointer up to a
    NUL or for the length that [%*s] gives, and a double. *)
Inductive varg : Type :=
| VInt (z : Z)
| VStr (s : list Z)
| VCStr (s : list Z)
| VDouble (d : SpecFloat.spec_float).

(** The ways the function can leave its contract: a missing or mistyped
    argument, a double that the integer type it is cast to does not hold (the
    cast is undefined in C), a read after the end of the format, a write after
    [last]. *)
Inductive vs_error : Type := BadArgument | BadCast | PastFormat | PastLast | NoFuel.

(** ** Doubles *)

Abbreviation dadd := (SpecFloat.SFadd 53 1024).
Abbreviation dsub := (SpecFloat.SFsub 53 1024).
Abbreviation dmul := (SpecFloat.SFmul 53 1024).

(** The conversion of an integer to a double. *)
Definition double_of (z : Z) : SpecFloat.spec_float :=
  SpecFloat.binary_normalize 53 1024 z 0 false.

Definition one_half : SpecFloat.spec_float :=
  SpecFloat.S754_finite false (2 ^ 52) (-53).

(** The cast of a double to an integer type with the values [lo .. hi): it
    truncates towards zero. *)
Definition double_cast (lo hi : Z) (d : SpecFloat.spec_float) : option Z :=
  match d with
  | SpecFloat.S754_zero _ => Some 0
  | SpecFloat.S754_finite s m e =>
      let n := SpecFloat.cond_Zopp s (Z.shiftl (Zpos m) e) in
      if (lo <=? n) && (n <? hi) then Some n else None
  | _ => None
  end.

Definition s32 (z : Z) : Z := (z + 2 ^ 31) mod 2 ^ 32 - 2 ^ 31.

(** The flags of a conversion.
    [core/ngx_string.c:167-176] ngx_vslprintf *)
Record vs_flags : Type := {
  vs_zero : Z; vs_width : Z; vs_sign : bool; vs_hex : Z; vs_max_width : bool;
  vs_frac_width : Z; vs_slen : Z
}.

(** [while ( *fmt >= '0' && *fmt <= '9')]
    [core/ngx_string.c:178-180] the width *)
Fixpoint vs_number (n : Z) (fmt : list Z) : Z * list Z :=
  match fmt with
  | c :: fmt' => if is_digit c then vs_number (u64 (n * 10 + c - C! "0")) fmt' else (n, fmt)
  | [] => (n, [])
  end.

(** [core/ngx_string.c:183-227] for ( ;; ) *)
Fixpoint vs_modifiers (f : vs_flags) (fmt : list Z) (args : list varg)
    : option (vs_flags * list Z * list varg) :=
  match fmt with
  | [] => Some (f, fmt, args)
  | c :: fmt' =>
      if c =? C! "u" then vs_modifiers {| f with vs_sign := false |} fmt' args
      else if c =? C! "m" then vs_modifiers {| f with vs_max_width := true |} fmt' args
      else if c =? C! "X" then vs_modifiers {| f with vs_hex := 2; vs_sign := false |} fmt' args
      else if c =? C! "x" then vs_modifiers {| f with vs_hex := 1; vs_sign := false |} fmt' args
      else if c =? C! "." then
        let (n, fmt'') := vs_number (vs_frac_width f) fmt' in
        Some ({| f with vs_frac_width := n |}, fmt'', args)
      else if c =? C! "*" then
        match args with
        | VInt n :: args' => vs_modifiers {| f with vs_slen := u64 n |} fmt' args'
        | _ => None
        end
      else Some (f, fmt, args)
  end.

(** What a conversion does: it writes bytes, it prints a number, or it prints
    the integer part and the fraction of a double. *)
Inductive conversion : Type :=
| CBytes (bs : list Z)
| CChar (c : Z)
| CNum (signed : bool) (n : Z) (f : vs_flags)
| CFloat (minus : bool) (ui64 frac : Z) (f : vs_flags).

(** [while ( *p && buf < last) *buf++ = *p++]
    [core/ngx_string.c:253-261] a NUL-terminated string *)
Fixpoint vs_cstr (room : Z) (s : list Z) : list Z :=
  match s with
  | [] => []
  | c :: s' => if (c =? 0) || (room <=? 0) then [] else c :: vs_cstr (room - 1) s'
  end.

Definition vs_int (f : vs_flags) (args : list varg) (signed unsigned : Z -> Z)
    : vs_error + (conversion * list varg) :=
  match args with
  | VInt z :: args' =>
      inr (CNum (vs_sign f) (if vs_sign f then signed z else unsigned z) f, args')
  | _ => inl BadArgument
  end.

(** [for (n = frac_width; n; n--) scale *= 10]
    [core/ngx_string.c:372-375] scale *)
Definition vs_scale (frac_width : Z) : Z :=
  N.iter (Z.to_N frac_width) (fun scale => u64 (scale * 10)) 1.

(** The numbers that are printed for a double: its sign, its integer part and
    its fraction.
    [core/ngx_string.c:359-383] case 'f': *)
Definition vs_float (f : vs_flags) (args : list varg) : vs_error + (conversion * list varg) :=
  match args with
  | VDouble d :: args' =>
      let minus := SpecFloat.SFltb d (SpecFloat.S754_zero false) in
      let d := if minus then SpecFloat.SFopp d else d in
      match double_cast (- 2 ^ 63) (2 ^ 63) d with
      | None => inl BadCast
      | Some ui64 =>
          if vs_frac_width f =? 0 then inr (CFloat minus (u64 ui64) 0 f, args')
          else
            let scale := vs_scale (vs_frac_width f) in
            match double_cast 0 (2 ^ 64)
                    (dadd (dmul (dsub d (double_of (u64 ui64))) (double_of scale)) one_half) with
            | None => inl BadCast
            | Some frac =>
                if frac =? scale then inr (CFloat minus (u64 (ui64 + 1)) 0 f, args')
                else inr (CFloat minus (u64 ui64) frac f, args')
            end
      end
  | _ => inl BadArgument
  end.

Abbreviation NGX_PTR_SIZE := 8.

(** [switch ( *fmt)], the character [c] being [*fmt].
    [core/ngx_string.c:230-446] switch *)
Definition vs_conversion (room : Z) (f : vs_flags) (c : Z) (args : list varg)
    : vs_error + (conversion * list varg) :=
  let signed := {| f with vs_sign := true |} in
  if (c =? C! "V") || (c =? C! "v") then
    match args with
    | VStr s :: args' => inr (CBytes (take (Z.to_nat (Z.min room (Z.of_nat (length s)))) s), args')
    | _ => inl BadArgument
    end
  else if c =? C! "s" then
    match args with
    | VCStr s :: args' =>
        if vs_slen f =? u64 (-1) then inr (CBytes (vs_cstr room s), args')
        else
          let len := Z.min room (vs_slen f) in
          if Z.of_nat (length s) <? len then inl BadArgument
          else inr (CBytes (take (Z.to_nat len) s), args')
    | _ => inl BadArgument
    end
  else if (c =? C! "O") || (c =? C! "T") || (c =? C! "r") then vs_int signed args s64 s64
  else if c =? C! "P" then vs_int signed args s32 s32
  else if c =? C! "M" then
    match args with
    | VInt z :: args' =>
        if s64 z =? -1 then inr (CNum true (-1) signed, args')
        else inr (CNum false (u64 z) {| f with vs_sign := false |}, args')
    | _ => inl BadArgument
    end
  else if (c =? C! "z") || (c =? C! "l") || (c =? C! "L") then vs_int f args s64 u64
  else if (c =? C! "i") || (c =? C! "A") then
    vs_int (if vs_max_width f then {| f with vs_width := Z.of_nat NGX_INT64_LEN |} else f)
      args s64 u64
  else if (c =? C! "d") || (c =? C! "D") then vs_int f args s32 u32
  else if c =? C! "f" then vs_float f args
  else if c =? C! "p" then
    vs_int {| f with vs_hex := 2; vs_sign := false; vs_zero := C! "0";
                     vs_width := NGX_PTR_SIZE * 2 |} args u64 u64
  else if c =? C! "c" then
    match args with
    | VInt z :: args' => inr (CChar (Z.land z 255), args')
    | _ => inl BadArgument
    end
  else if c =? C! "Z" then inr (CChar 0, args)
  else if c =? C! "N" then inr (CChar LF, args)
  else inr (CChar c, args).

(** [core/ngx_string.c:448-458] the sign and the number *)
Definition vs_put_num (room : Z) (signed : bool) (n : Z) (f : vs_flags)
    : vs_error + list Z :=
  let minus := signed && (n <? 0) in
  let ui64 := if minus then u64 (- n) else n in
  let room' := if minus then room - 1 else room in
  match ngx_sprintf_num room' ui64 (vs_zero f) (vs_hex f) (vs_width f) with
  | None => inl PastLast
  | Some out => inr (if minus then C! "-" :: out else out)
  end.

(** [core/ngx_string.c:385-393] the integer part and the fraction *)
Definition vs_put_float (room : Z) (minus : bool) (ui64 frac : Z) (f : vs_flags)
    : vs_error + list Z :=
  let sign := if minus then [C! "-"] else [] in
  let room := room - Z.of_nat (length sign) in
  match ngx_sprintf_num room ui64 (vs_zero f) 0 (vs_width f) with
  | None => inl PastLast
  | Some whole =>
      if vs_frac_width f =? 0 then inr (sign ++ whole)
      else
        let room := room - Z.of_nat (length whole) in
        let point := if 0 <? room then [C! "."] else [] in
        let room := room - Z.of_nat (length point) in
        match ngx_sprintf_num room frac (C! "0") 0 (vs_frac_width f) with
        | None => inl PastLast
        | Some part => inr (sign ++ whole ++ point ++ part)
        end
  end.

(** One conversion, [fmt] being the characters after the percent sign; the
    answer is the output, and the rest of the format and of the arguments.
    [core/ngx_string.c:165-460] if ( *fmt == '%') *)
Definition vs_directive (room : Z) (fmt : list Z) (args : list varg)
    : vs_error + (list Z * list Z * list varg) :=
  let zero := match fmt with c :: _ => if c =? C! "0" then C! "0" else C! " " | [] => C! " " end in
  let (width, fmt) := vs_number 0 fmt in
  match vs_modifiers {| vs_zero := zero; vs_width := width; vs_sign := true; vs_hex := 0;
                        vs_max_width := false; vs_frac_width := 0; vs_slen := u64 (-1) |} fmt args with
  | None => inl BadArgument
  | Some (f, [], args) => inl PastFormat
  | Some (f, c :: fmt, args) =>
      match vs_conversion room f c args with
      | inl e => inl e
      | inr (CBytes bs, args) => inr (bs, fmt, args)
      | inr (CChar d, args) => inr ([d], fmt, args)
      | inr (CNum signed n f, args) =>
          match vs_put_num room signed n f with
          | inl e => inl e
          | inr out => inr (out, fmt, args)
          end
      | inr (CFloat minus ui64 frac f, args) =>
          match vs_put_float room minus ui64 frac f with
          | inl e => inl e
          | inr out => inr (out, fmt, args)
          end
      end
  end.

(** [core/ngx_string.c:144-468] ngx_vslprintf *)
Fixpoint vslprintf (fuel : nat) (room : Z) (fmt : list Z) (args : list varg)
    : vs_error + list Z :=
  match fuel with
  | O => inl NoFuel
  | S fuel' =>
      match fmt with
      | [] => inr []
      | c :: fmt' =>
          if (c =? 0) || (room <=? 0) then inr []
          else if c =? C! "%" then
            match vs_directive room fmt' args with
            | inl e => inl e
            | inr (out, fmt'', args') =>
                match vslprintf fuel' (room - Z.of_nat (length out)) fmt'' args' with
                | inl e => inl e
                | inr rest => inr (out ++ rest)
                end
            end
          else
            match vslprintf fuel' (room - 1) fmt' args with
            | inl e => inl e
            | inr rest => inr (c :: rest)
            end
      end
  end.

(** Every iteration consumes a character of the format. *)
Definition ngx_vslprintf (room : Z) (fmt : list Z) (args : list varg) : vs_error + list Z :=
  vslprintf (S (length fmt)) room fmt args.

(** [core/ngx_string.c:116-127] ngx_snprintf *)
Definition ngx_snprintf (max : Z) (fmt : list Z) (args : list varg) : vs_error + list Z :=
  ngx_vslprintf max fmt args.

(** [core/ngx_string.c:130-141] ngx_slprintf *)
Definition ngx_slprintf (buf last : Z) (fmt : list Z) (args : list varg) : vs_error + list Z :=
  ngx_vslprintf (last - buf) fmt args.

(** The end of the buffer is the end of the address space.
    [core/ngx_string.c:102-113] ngx_sprintf *)
Definition ngx_sprintf (fmt : list Z) (args : list varg) : vs_error + list Z :=
  ngx_vslprintf (2 ^ 63) fmt args.

Example sprintf_1 :
  ngx_sprintf (B! "%V %05d|%xO|%*s%N") [VStr (B! "GET"); VInt (-42); VInt 255; VInt 2; VCStr (B! "abc")]
  = inr (B! "GET -00042|ff|ab" ++ [LF]).
Proof. by vm_compute. Qed.

(** 3.1415, -0.5 and 1.9996. *)
Example sprintf_float :
  ngx_sprintf (B! "%.3f %05.1f %.3f %f")
    [VDouble (SpecFloat.S754_finite false 7074029114692207 (-51));
     VDouble (SpecFloat.S754_finite true (2 ^ 52) (-53));
     VDouble (SpecFloat.S754_finite false 9005397870866472 (-52));
     VDouble (SpecFloat.S754_finite false 9005397870866472 (-52))]
  = inr (B! "3.142 -00000.5 2.000 1").
Proof. by vm_compute. Qed.

(** A length of [(size_t) -1] is no length. *)
Example sprintf_no_length :
  ngx_sprintf (B! "%*s") [VInt (-1); VCStr (B! "abc")] = inr (B! "abc").
Proof. by vm_compute. Qed.

(** ** One character of the format *)

Lemma vslprintf_plain fuel room c fmt args :
  c <> 0 -> c <> C! "%" -> 0 < room ->
  vslprintf (S fuel) room (c :: fmt) args =
  match vslprintf fuel (room - 1) fmt args with inl e => inl e | inr rest => inr (c :: rest) end.
Proof. intros. cbn [vslprintf]. by decide_tests. Qed.

Lemma vslprintf_directive fuel room fmt args :
  0 < room ->
  vslprintf (S fuel) room (C! "%" :: fmt) args =
  match vs_directive room fmt args with
  | inl e => inl e
  | inr (out, fmt', args') =>
      match vslprintf fuel (room - Z.of_nat (length out)) fmt' args' with
      | inl e => inl e
      | inr rest => inr (out ++ rest)
      end
  end.
Proof. intros. cbn [vslprintf]. by decide_tests. Qed.

(** ** Bounds *)

Lemma vs_number_suffix n fmt : exists pre, fmt = pre ++ (vs_number n fmt).2.
Proof.
  revert n. induction fmt as [|c fmt IH]; intros n; cbn; [by exists []|].
  destruct (is_digit c); [|by exists []]. destruct (IH (u64 (n * 10 + c - 48))) as [pre E].
  exists (c :: pre). cbn. by rewrite <- E.
Qed.

Lemma vs_modifiers_suffix f fmt args f' fmt' args' :
  vs_modifiers f fmt args = Some (f', fmt', args') -> (length fmt' <= length fmt)%nat.
Proof.
  revert f args. induction fmt as [|c fmt IH]; intros f args; cbn; [by intros [= <- <- <-]|].
  repeat case_match; intros E; simplify_eq; try (apply IH in E; lia); cbn; try lia.
  destruct (vs_number_suffix (vs_frac_width f) fmt) as [pre Epre].
  select (vs_number _ _ = _) (fun H => rewrite H in Epre). cbn in Epre.
  apply (f_equal length) in Epre. rewrite length_app in Epre. lia.
Qed.

(** A conversion consumes at least one character of the format. *)
Lemma vs_directive_suffix room fmt args out fmt' args' :
  vs_directive room fmt args = inr (out, fmt', args') -> (length fmt' < length fmt)%nat.
Proof.
  unfold vs_directive. destruct (vs_number_suffix 0 fmt) as [pre Epre].
  destruct (vs_number 0 fmt) as [width fmt1]. cbn in Epre.
  apply (f_equal length) in Epre. rewrite length_app in Epre.
  destruct (vs_modifiers _ _ _) as [[[f [|c fmt2]] args1]|] eqn:Em; [done| |done].
  apply vs_modifiers_suffix in Em. cbn in Em.
  destruct (vs_conversion _ _ _ _) as [|[[] ]]; try done;
    [| |destruct (vs_put_num _ _ _ _)|destruct (vs_put_float _ _ _ _ _)];
    try done; intros [= <- <- <-]; lia.
Qed.

(** The number that a conversion prints is a 64-bit one. *)
Definition conversion_ok (room : Z) (c : conversion) : Prop :=
  match c with
  | CBytes bs => Z.of_nat (length bs) <= room
  | CChar _ => True
  | CNum signed n _ => if signed then - 2 ^ 63 <= n < 2 ^ 63 else 0 <= n < 2 ^ 64
  | CFloat _ ui64 frac _ => 0 <= ui64 < 2 ^ 64 /\ 0 <= frac < 2 ^ 64
  end.

Lemma double_cast_range lo hi d n : lo <= 0 < hi -> double_cast lo hi d = Some n -> lo <= n < hi.
Proof. unfold double_cast. intros H. repeat case_match; intros [= <-]; zify_bool; lia. Qed.

Lemma vs_float_ok room f args c args' :
  vs_float f args = inr (c, args') -> conversion_ok room c.
Proof.
  unfold vs_float. pose proof u64_range. destruct args as [|[| | |d] args1]; try done.
  destruct (double_cast (- 2 ^ 63) _ _) as [z|]; [|done].
  destruct (_ =? 0); [intros [= <- <-]; cbn; split; [auto|lia]|].
  destruct (double_cast 0 _ _) as [frac|] eqn:E; [|done]. apply double_cast_range in E; [|lia].
  destruct (_ =? _); intros [= <- <-]; cbn; (split; [auto|lia]).
Qed.

Lemma vs_float_error f args e : vs_float f args = inl e -> e = BadArgument \/ e = BadCast.
Proof. unfold vs_float. repeat case_match; intros [= <-]; auto. Qed.

Lemma s32_range z : - 2 ^ 31 <= s32 z < 2 ^ 31.
Proof. unfold s32. pose proof (Z.mod_pos_bound (z + 2 ^ 31) (2 ^ 32)). lia. Qed.

Lemma vs_cstr_room room s : 0 <= room -> Z.of_nat (length (vs_cstr room s)) <= room.
Proof.
  revert room. induction s as [|c s IH]; intros room Hr; cbn; [lia|].
  case_match; cbn; [lia|]. zify_bool. specialize (IH (room - 1)). lia.
Qed.

Lemma vs_int_ok room f args signed unsigned c args' :
  vs_int f args signed unsigned = inr (c, args') ->
  (forall z, if vs_sign f then - 2 ^ 63 <= signed z < 2 ^ 63 else 0 <= unsigned z < 2 ^ 64) ->
  conversion_ok room c.
Proof.
  unfold vs_int. intros E H. destruct args as [|[z| | |] args1]; simplify_eq.
  specialize (H z). cbn. by destruct (vs_sign f).
Qed.

Lemma vs_conversion_ok room f c args conv args' :
  0 <= room -> vs_conversion room f c args = inr (conv, args') -> conversion_ok room conv.
Proof.
  intros Hr. unfold vs_conversion.
  pose proof s64_range. pose proof u64_range. pose proof s32_range. pose proof u32_range.
  assert (forall z, - 2 ^ 63 <= s32 z < 2 ^ 63) by (intros z; specialize (H1 z); lia).
  assert (forall z, 0 <= u32 z < 2 ^ 64) by (intros z; specialize (H2 z); lia).
  repeat case_match; intros E; simplify_eq;
    try (eapply vs_int_ok; [exact E|intros z; cbn; by repeat case_match]);
    try (eapply vs_float_ok; exact E);
    cbn; rewrite ?length_take; try done; try (by apply vs_cstr_room); try lia; auto.
Qed.

Lemma vs_put_num_ok room signed n f :
  0 < room -> conversion_ok room (CNum signed n f) ->
  exists out, vs_put_num room signed n f = inr out /\ Z.of_nat (length out) <= room.
Proof.
  cbn. intros Hr Hn. unfold vs_put_num.
  destruct (signed && (n <? 0)) eqn:E.
  - destruct (sprintf_num_fits (room - 1) (u64 (- n)) (vs_zero f) (vs_hex f) (vs_width f))
      as (out & temp & -> & Hlen & _); [apply u64_range|lia|].
    eexists. split; [done|]. cbn. lia.
  - destruct (sprintf_num_fits room n (vs_zero f) (vs_hex f) (vs_width f))
      as (out & temp & -> & Hlen & _); [|lia|by eauto].
    destruct signed; zify_bool; [|lia]. destruct E; [done|zify_bool; lia].
Qed.

Lemma take_repeat (z : Z) n m : take n (repeat z m) = repeat z (Nat.min n m).
Proof. revert m. induction n as [|n IH]; intros [|m]; cbn; [done..|]. by rewrite IH. Qed.

Lemma sprintf_num_take room n zero hexadecimal width :
  0 <= room ->
  ngx_sprintf_num room n zero hexadecimal width =
  (fun temp => take (Z.to_nat room)
     (repeat zero (Z.to_nat (width - Z.of_nat (length temp))) ++ temp)) <$>
  num_digits n hexadecimal.
Proof.
  intros Hr. unfold ngx_sprintf_num. destruct (num_digits n hexadecimal) as [temp|]; [|done].
  cbn. f_equal. rewrite take_app, repeat_length.
  set (pad := Z.to_nat (width - Z.of_nat (length temp))).
  replace (Z.to_nat (Z.min (width - Z.of_nat (length temp)) room)) with (Nat.min (Z.to_nat room) pad)
    by lia.
  f_equal.
  - symmetry. apply take_repeat.
  - destruct (Z.ltb_spec (room - Z.of_nat (Z.to_nat room `min` pad)) (Z.of_nat (length temp))).
    + f_equal. lia.
    + rewrite !take_ge; [done|lia|lia].
Qed.

(** The digits of a number in its width, without a limit. *)
Definition num_text (ui64 zero width : Z) : list Z :=
  let temp := default [] (num_digits ui64 0) in
  repeat zero (Z.to_nat (width - Z.of_nat (length temp))) ++ temp.

Lemma sprintf_num_text room n zero width :
  0 <= n < 2 ^ 64 -> 0 <= room ->
  ngx_sprintf_num room n zero 0 width = Some (take (Z.to_nat room) (num_text n zero width)).
Proof.
  intros Hn Hr. rewrite sprintf_num_take by done. unfold num_text.
  by destruct (num_digits_spec n 0 Hn) as (ds & -> & _).
Qed.

(** What [%f] prints without a limit. *)
Definition float_text (minus : bool) (ui64 frac : Z) (f : vs_flags) : list Z :=
  (if minus then [C! "-"] else []) ++ num_text ui64 (vs_zero f) (vs_width f) ++
  (if vs_frac_width f =? 0 then [] else C! "." :: num_text frac (C! "0") (vs_frac_width f)).

Lemma take_step (r : Z) (a b : list Z) :
  0 <= r ->
  take (Z.to_nat r) (a ++ b) =
  take (Z.to_nat r) a ++ take (Z.to_nat (r - Z.of_nat (length (take (Z.to_nat r) a)))) b.
Proof.
  intros Hr. rewrite take_app, length_take. f_equal.
  destruct (Z.le_gt_cases r (Z.of_nat (length a))); [|f_equal; lia].
  replace (Z.to_nat r - length a)%nat with 0%nat by lia.
  by replace (Z.to_nat (r - Z.of_nat (Z.to_nat r `min` length a))) with 0%nat by lia.
Qed.

Lemma vs_put_float_text room minus ui64 frac f :
  0 < room -> conversion_ok room (CFloat minus ui64 frac f) ->
  vs_put_float room minus ui64 frac f = inr (take (Z.to_nat room) (float_text minus ui64 frac f)).
Proof.
  cbn. intros Hr [Hu Hf]. unfold vs_put_float, float_text.
  set (sign := if minus then [C! "-"] else []).
  assert (Z.of_nat (length sign) <= 1) by (by subst sign; destruct minus).
  rewrite sprintf_num_text by lia. set (whole := num_text ui64 _ _).
  rewrite take_step by lia. rewrite (take_ge sign) by lia.
  set (r1 := room - Z.of_nat (length sign)). destruct (_ =? 0).
  { by rewrite app_nil_r. }
  rewrite (take_step r1) by lia. set (w := take (Z.to_nat r1) whole).
  assert (Z.of_nat (length w) <= r1) by (subst w; rewrite length_take; lia).
  set (r2 := r1 - Z.of_nat (length w)). destruct (Z.ltb_spec 0 r2) as [H2|H2].
  - cbn [length]. rewrite sprintf_num_text by lia. do 3 f_equal.
    destruct (Z.to_nat r2) as [|k] eqn:E; [lia|]. cbn. do 2 f_equal. lia.
  - cbn [length]. rewrite sprintf_num_text by lia. do 3 f_equal.
    replace r2 with 0 by lia. done.
Qed.

Definition usage_error (e : vs_error) : Prop :=
  e = BadArgument \/ e = PastFormat \/ e = BadCast.

Lemma vs_int_error f args signed unsigned e :
  vs_int f args signed unsigned = inl e -> e = BadArgument.
Proof. unfold vs_int. by destruct args as [|[]]; intros; simplify_eq. Qed.

Lemma vs_conversion_error room f c args e :
  vs_conversion room f c args = inl e -> usage_error e.
Proof.
  unfold vs_conversion, usage_error.
  repeat case_match; intros E; simplify_eq; try apply vs_int_error in E;
    try (apply vs_float_error in E as [|]); auto.
Qed.

Lemma vs_directive_ok room fmt args :
  0 < room ->
  match vs_directive room fmt args with
  | inl e => usage_error e
  | inr (out, _, _) => Z.of_nat (length out) <= room
  end.
Proof.
  intros Hr. unfold vs_directive, usage_error. destruct (vs_number 0 fmt) as [width fmt1].
  destruct (vs_modifiers _ _ _) as [[[f [|c fmt2]] args1]|]; [auto| |auto].
  destruct (vs_conversion room f c args1) as [e|[conv args2]] eqn:Ec;
    [by eapply vs_conversion_error|].
  apply vs_conversion_ok in Ec; [|lia]. destruct conv as [bs|d|signed n f'|minus ui64 frac f'];
    [done|cbn; lia| |].
  - by destruct (vs_put_num_ok room signed n f' Hr Ec) as (out & -> & ?).
  - rewrite vs_put_float_text by done. rewrite length_take. lia.
Qed.

Lemma vslprintf_bound fuel room fmt args :
  (length fmt < fuel)%nat -> 0 <= room ->
  match vslprintf fuel room fmt args with
  | inl e => usage_error e
  | inr out => Z.of_nat (length out) <= room
  end.
Proof.
  revert room fmt args. induction fuel as [|fuel IH]; intros room fmt args Hf Hr; [lia|].
  destruct fmt as [|c fmt]; cbn; [lia|]. cbn in Hf.
  destruct ((c =? 0) || (room <=? 0)) eqn:E; [cbn; lia|]. zify_bool.
  destruct (c =? 37).
  - pose proof (vs_directive_ok room fmt args ltac:(lia)) as Hd.
    destruct (vs_directive room fmt args) as [e|[[out fmt2] args2]] eqn:Ed; [done|].
    apply vs_directive_suffix in Ed.
    specialize (IH (room - Z.of_nat (length out)) fmt2 args2 ltac:(lia) ltac:(lia)).
    destruct (vslprintf _ _ _ _); [done|]. rewrite length_app. lia.
  - specialize (IH (room - 1) fmt args ltac:(lia) ltac:(lia)).
    destruct (vslprintf _ _ _ _); [done|]. cbn. lia.
Qed.

(** C40: whatever the format and the arguments, formatted printing terminates
    and never writes after the end of its buffer; the only ways it can fail are
    a missing or mistyped argument, a double that does not fit in the 64-bit
    integer it is cast to, and a format that ends inside of a conversion. *)
Theorem snprintf_bounded (max : Z) (fmt : list Z) (args : list varg) :
  0 <= max ->
  match ngx_snprintf max fmt args with
  | inl e => usage_error e
  | inr out => Z.of_nat (length out) <= max
  end.
Proof. intros. apply vslprintf_bound; [lia|done]. Qed.

Lemma snprintf_bounded_witness :
  match ngx_snprintf 6 (B! "%d-%ui") [VInt (-7); VInt 123456] with
  | inl e => usage_error e
  | inr out => Z.of_nat (length out) <= 6
  end.
Proof. apply (snprintf_bounded 6 (B! "%d-%ui") [VInt (-7); VInt 123456]). lia. Defined.

(** ** Truncation *)

Lemma vs_put_num_take r1 r2 signed n f out :
  0 < r1 <= r2 -> vs_put_num r2 signed n f = inr out ->
  vs_put_num r1 signed n f = inr (take (Z.to_nat r1) out).
Proof.
  intros Hr. unfold vs_put_num. destruct (signed && (n <? 0)).
  - rewrite !sprintf_num_take by lia. destruct (num_digits _ _); cbn; [|done]. intros [= <-].
    do 2 f_equal. destruct (Z.to_nat r1) as [|k] eqn:E; [lia|]. cbn. f_equal.
    rewrite take_take. f_equal. lia.
  - rewrite !sprintf_num_take by lia. destruct (num_digits _ _); cbn; [|done]. intros [= <-].
    rewrite take_take. do 2 f_equal. lia.
Qed.

Definition conversion_take (room : Z) (c : conversion) : conversion :=
  match c with CBytes bs => CBytes (take (Z.to_nat room) bs) | _ => c end.

Lemma vs_cstr_take r1 r2 s :
  0 <= r1 <= r2 -> vs_cstr r1 s = take (Z.to_nat r1) (vs_cstr r2 s).
Proof.
  revert r1 r2. induction s as [|c s IH]; intros r1 r2 Hr; cbn; [by rewrite take_nil|].
  destruct (c =? 0); cbn; [by rewrite take_nil|].
  destruct (Z.leb_spec r1 0); [by replace r1 with 0 by lia|].
  destruct (Z.leb_spec r2 0); [lia|].
  destruct (Z.to_nat r1) as [|k] eqn:E; [lia|]. cbn. f_equal.
  rewrite (IH (r1 - 1) (r2 - 1)) by lia. f_equal. lia.
Qed.

Lemma vs_int_take room f args signed unsigned c args' :
  vs_int f args signed unsigned = inr (c, args') -> conversion_take room c = c.
Proof. unfold vs_int. by destruct args as [|[]]; intros; simplify_eq. Qed.

Lemma vs_float_take room f args c args' :
  vs_float f args = inr (c, args') -> conversion_take room c = c.
Proof. unfold vs_float. repeat case_match; intros; by simplify_eq. Qed.

Lemma vs_conversion_take r1 r2 f c args conv args' :
  0 < r1 <= r2 -> vs_conversion r2 f c args = inr (conv, args') ->
  vs_conversion r1 f c args = inr (conversion_take r1 conv, args').
Proof.
  intros Hr. unfold vs_conversion. repeat case_match; intros E; simplify_eq; try done;
    try (by erewrite vs_int_take); try (by erewrite vs_float_take); cbn; zify_bool; try lia.
  - rewrite take_take. do 3 f_equal. f_equal. lia.
  - by rewrite (vs_cstr_take r1 r2) by lia.
  - rewrite take_take. do 3 f_equal. f_equal. lia.
Qed.

Lemma vs_directive_take r1 r2 fmt args out fmt' args' :
  0 < r1 <= r2 -> vs_directive r2 fmt args = inr (out, fmt', args') ->
  vs_directive r1 fmt args = inr (take (Z.to_nat r1) out, fmt', args').
Proof.
  intros Hr. unfold vs_directive. destruct (vs_number 0 fmt) as [width fmt1].
  destruct (vs_modifiers _ _ _) as [[[f [|c fmt2]] args1]|]; [done| |done].
  destruct (vs_conversion r2 f c args1) as [e|[conv args2]] eqn:Ec; [done|].
  pose proof (vs_conversion_ok r2 _ _ _ _ _ ltac:(lia) Ec) as Hok.
  apply (vs_conversion_take r1) in Ec; [|done]. rewrite Ec.
  destruct conv as [bs|d|signed n f'|minus ui64 frac f']; cbn [conversion_take].
  - by intros [= <- <- <-].
  - intros [= <- <- <-]. rewrite take_ge; [done|cbn; lia].
  - destruct (vs_put_num r2 signed n f') as [|out'] eqn:En; [done|]. intros [= <- <- <-].
    by rewrite (vs_put_num_take r1 r2 _ _ _ out').
  - rewrite !vs_put_float_text by (done || lia). intros [= <- <- <-].
    rewrite take_take. do 3 f_equal. f_equal. lia.
Qed.

Lemma vslprintf_take fuel r1 r2 fmt args full :
  0 <= r1 <= r2 -> vslprintf fuel r2 fmt args = inr full ->
  vslprintf fuel r1 fmt args = inr (take (Z.to_nat r1) full).
Proof.
  revert r1 r2 fmt args full. induction fuel as [|fuel IH]; intros r1 r2 fmt args full Hr; [done|].
  destruct fmt as [|c fmt]; cbn; [intros [= <-]; by rewrite take_nil|].
  destruct (c =? 0); cbn [orb]; [intros [= <-]; by rewrite take_nil|].
  destruct (Z.leb_spec r1 0) as [H1|H1].
  { intros _. by replace (Z.to_nat r1) with 0%nat by lia. }
  destruct (Z.leb_spec r2 0); [lia|]. destruct (c =? 37).
  - destruct (vs_directive r2 fmt args) as [e|[[out fmt2] args2]] eqn:Ed; [done|].
    pose proof (vs_directive_ok r2 fmt args ltac:(lia)) as Hok. rewrite Ed in Hok.
    rewrite (vs_directive_take r1 r2 _ _ out fmt2 args2) by (done || lia).
    destruct (vslprintf fuel (r2 - Z.of_nat (length out)) fmt2 args2) as [|rest] eqn:E; [done|].
    intros [= <-]. rewrite length_take, take_app.
    destruct (Z.le_gt_cases r1 (Z.of_nat (length out))).
    + apply (IH 0) in E; [|lia].
      replace (r1 - Z.of_nat (Z.to_nat r1 `min` length out)) with 0 by lia. rewrite E. cbn.
      by replace (Z.to_nat r1 - length out)%nat with 0%nat by lia.
    + apply (IH (r1 - Z.of_nat (length out))) in E; [|lia].
      replace (r1 - Z.of_nat (Z.to_nat r1 `min` length out)) with (r1 - Z.of_nat (length out)) by lia.
      rewrite E. do 3 f_equal. lia.
  - destruct (vslprintf fuel (r2 - 1) fmt args) as [|rest] eqn:E; [done|]. intros [= <-].
    apply (IH (r1 - 1)) in E; [|lia]. rewrite E.
    destruct (Z.to_nat r1) as [|k] eqn:Ek; [lia|]. cbn. do 3 f_equal. lia.
Qed.

(** what is printed into a buffer of [max] bytes is the prefix of [max]
    bytes of what is printed into a larger one. *)
Theorem snprintf_truncates (max larger : Z) (fmt : list Z) (args : list varg) (full : list Z) :
  0 <= max <= larger -> ngx_snprintf larger fmt args = inr full ->
  ngx_snprintf max fmt args = inr (take (Z.to_nat max) full).
Proof. apply vslprintf_take. Qed.

Lemma snprintf_truncates_witness :
  ngx_snprintf 4 (B! "%V:%d") [VStr (B! "abc"); VInt 80] = inr (take 4 (B! "abc:80")).
Proof.
  apply (snprintf_truncates 4 100 (B! "%V:%d") [VStr (B! "abc"); VInt 80] (B! "abc:80"));
    [lia|reflexivity].
Defined.
