(* ===== verification/HttpChunked.v ===== *)
(** * The chunked transfer coding

    [ngx_http_parse_chunked] of src/nginx-1.4.7/src/http/ngx_http_parse.c, its
    client [ngx_http_request_body_chunked_filter] of
    src/nginx-1.4.7/src/http/ngx_http_request_body.c, which decodes a request
    body, and [ngx_http_chunked_body_filter] of
    src/nginx-1.4.7/src/http/modules/ngx_http_chunked_filter_module.c, which
    encodes a response body. *)
From S2P Require Import Prelude HttpChars HttpRequestLine NgxNumber NgxSprintf.

(** ** The parser *)

(** [http/ngx_http_parse.c:1979-1993] the states of the parser *)
Inductive ck_sw : Type :=
| sw_chunk_start | sw_chunk_size | sw_chunk_extension | sw_chunk_extension_almost_done
| sw_chunk_data | sw_after_data | sw_after_data_almost_done | sw_last_chunk_extension
| sw_last_chunk_extension_almost_done | sw_trailer | sw_trailer_almost_done
| sw_trailer_header | sw_trailer_header_almost_done.

#[global] Instance ck_sw_eq : EqDecision ck_sw.
Proof. solve_decision. Defined.

(** [http/ngx_http.h:63-67] ngx_http_chunked_s *)
Record chunked : Type := { ck_state : ck_sw; ck_size : Z; ck_length : Z }.

Inductive ck_exit : Type := CkData | CkDone | CkInvalid.

Abbreviation ck_action := (action (ck_sw * Z) ck_exit).

(** A hexadecimal digit, in either case.
    [http/ngx_http_parse.c:2013-2025] a digit of the size *)
Definition ck_hex (ch : Z) : option Z :=
  if (C! "0" <=? ch) && (ch <=? C! "9") then Some (ch - C! "0")
  else let c := lcase ch in
       if (C! "a" <=? c) && (c <=? C! "f") then Some (c - C! "a" + 10) else None.

(** The end of a size: carriage return, line feed or an extension.
    [http/ngx_http_parse.c:2063-2079] switch (ch) *)
Definition ck_size_end (on_cr on_lf on_ext : ck_sw) (ch size : Z) : ck_action :=
  if ch =? CR then Next (on_cr, size)
  else if ch =? LF then Next (on_lf, size)
  else if (ch =? C! ";") || (ch =? C! " ") || (ch =? 9) then Next (on_ext, size)
  else Exit CkInvalid (sw_chunk_size, size).

(** [http/ngx_http_parse.c:2029-2081] case sw_chunk_size *)
Definition ck_sw_chunk_size (ch size : Z) : ck_action :=
  match ck_hex ch with
  | Some d => Next (sw_chunk_size, s64 (size * 16 + d))
  | None =>
      if size =? 0 then
        ck_size_end sw_last_chunk_extension_almost_done sw_trailer sw_last_chunk_extension ch size
      else ck_size_end sw_chunk_extension_almost_done sw_chunk_data sw_chunk_extension ch size
  end.

(** A part that is skipped up to the end of its line.
    [http/ngx_http_parse.c:2081-2089] case sw_chunk_extension *)
Definition ck_skip (here on_cr on_lf : ck_sw) (ch size : Z) : ck_action :=
  if ch =? CR then Next (on_cr, size)
  else if ch =? LF then Next (on_lf, size)
  else Next (here, size).

(** The line feed after a carriage return.
    [http/ngx_http_parse.c:2091-2096] case sw_chunk_extension_almost_done *)
Definition ck_almost_done (here next : ck_sw) (ch size : Z) : ck_action :=
  if ch =? LF then Next (next, size) else Exit CkInvalid (here, size).

(** [http/ngx_http_parse.c:2010-2171] switch (state) *)
Definition ck_step (mem : list Z) (pos : Z) (s : ck_sw * Z) : ck_action :=
  let (state, size) := s in
  let ch := mem_at mem pos in
  match state with
  | sw_chunk_start =>
      match ck_hex ch with
      | Some d => Next (sw_chunk_size, d)
      | None => Exit CkInvalid (state, size)
      end
  | sw_chunk_size => ck_sw_chunk_size ch size
  | sw_chunk_extension => ck_skip state sw_chunk_extension_almost_done sw_chunk_data ch size
  | sw_chunk_extension_almost_done => ck_almost_done state sw_chunk_data ch size
  | sw_chunk_data => Exit CkData (state, size)
  | sw_after_data => ck_skip state sw_after_data_almost_done sw_chunk_start ch size
  | sw_after_data_almost_done => ck_almost_done state sw_chunk_start ch size
  | sw_last_chunk_extension =>
      ck_skip state sw_last_chunk_extension_almost_done sw_trailer ch size
  | sw_last_chunk_extension_almost_done => ck_almost_done state sw_trailer ch size
  | sw_trailer =>
      if ch =? CR then Next (sw_trailer_almost_done, size)
      else if ch =? LF then Exit CkDone (state, size)
      else Next (sw_trailer_header, size)
  | sw_trailer_almost_done =>
      if ch =? LF then Exit CkDone (state, size) else Exit CkInvalid (state, size)
  | sw_trailer_header => ck_skip state sw_trailer_header_almost_done sw_trailer ch size
  | sw_trailer_header_almost_done => ck_almost_done state sw_trailer ch size
  end.

(** The number of bytes the parser expects.
    [http/ngx_http_parse.c:2179-2212] ctx->length *)
Definition ck_expects (state : ck_sw) (size : Z) : Z :=
  match state with
  | sw_chunk_start => 3
  | sw_chunk_size => s64 (2 + (if size =? 0 then 0 else size + 4))
  | sw_chunk_extension | sw_chunk_extension_almost_done => s64 (1 + size + 4)
  | sw_chunk_data => s64 (size + 4)
  | sw_after_data | sw_after_data_almost_done => 4
  | sw_last_chunk_extension | sw_last_chunk_extension_almost_done => 2
  | sw_trailer | sw_trailer_almost_done => 1
  | sw_trailer_header | sw_trailer_header_almost_done => 2
  end.

(** [if (state == sw_chunk_data && ctx->size == 0) state = sw_after_data;]
    [http/ngx_http_parse.c:1995-1999] the state at the beginning of a call *)
Definition ck_enter (state : ck_sw) (size : Z) : ck_sw :=
  if decide (state = sw_chunk_data) then if size =? 0 then sw_after_data else state else state.

(** The return code, [b->pos] and [ctx].
    [http/ngx_http_parse.c:1973-2230] ngx_http_parse_chunked *)
Definition ngx_http_parse_chunked (mem : list Z) (pos last : Z) (ctx : chunked)
    : Z * Z * chunked :=
  let data rc p s :=
    let ctx' := {| ck_state := s.1; ck_size := s.2; ck_length := ck_expects s.1 s.2 |} in
    if (ck_size ctx' <? 0) || (ck_length ctx' <? 0) then (NGX_ERROR, p, ctx')
    else (rc, p, ctx') in
  match for_loop (ck_step mem) (Z.to_nat (last - pos)) pos
          (ck_enter (ck_state ctx) (ck_size ctx), ck_size ctx) with
  | Ran p s => data NGX_AGAIN p s
  | Broke CkData p s => data NGX_OK p s
  | Broke CkDone p s => (NGX_DONE, p + 1, {| ctx with ck_state := sw_chunk_start; ck_size := s.2 |})
  | Broke CkInvalid p s => (NGX_ERROR, pos, {| ctx with ck_size := s.2 |})
  end.

(** ** Decoding a request body *)

(** A buffer of a chain: its memory and the part that is still to be read. *)
Record cbuf : Type := { cb_mem : list Z; cb_pos : Z; cb_last : Z }.

(** The fields of the request body and of the request that the filter changes.
    [rb_bufs] are the buffers given to [ngx_http_request_body_save_filter], each
    with its contents (in nginx a window of the buffer that was read) and its
    flag [last_buf].
    [http/ngx_http_request_body.c:908-928] ngx_http_request_body_chunked_filter *)
Record body : Type := {
  rb_rest : Z;
  rb_chunked : chunked;
  content_length_n : Z;
  rb_bufs : list (list Z * bool)
}.

Abbreviation NGX_HTTP_BAD_REQUEST := 400.
Abbreviation NGX_HTTP_REQUEST_ENTITY_TOO_LARGE := 413.

Inductive body_answer : Type :=
| BodyOk (b : cbuf) (rb : body)
| BodyError (status : Z)
| BodyNoFuel.

(** The inner loop [for ( ;; )] on one buffer.
    [http/ngx_http_request_body.c:935-1044] for ( ;; ) *)
Fixpoint body_buf (fuel : nat) (client_max_body_size : Z) (b : cbuf) (rb : body) : body_answer :=
  match fuel with
  | O => BodyNoFuel
  | S fuel' =>
      let '(rc, pos, ctx) := ngx_http_parse_chunked (cb_mem b) (cb_pos b) (cb_last b) (rb_chunked rb) in
      if rc =? NGX_OK then
        if negb (client_max_body_size =? 0)
           && (client_max_body_size - content_length_n rb <? ck_size ctx)
        then BodyError NGX_HTTP_REQUEST_ENTITY_TOO_LARGE
        else
          let size := cb_last b - pos in
          let taken := if ck_size ctx <? size then ck_size ctx else size in
          body_buf fuel' client_max_body_size
            {| b with cb_pos := pos + taken |}
            {| rb_rest := rb_rest rb;
               rb_chunked := {| ctx with ck_size := ck_size ctx - taken |};
               content_length_n := content_length_n rb + taken;
               rb_bufs := rb_bufs rb ++ [(slice (cb_mem b) pos (pos + taken), false)] |}
      else if rc =? NGX_DONE then
        BodyOk {| b with cb_pos := pos |}
          {| rb with rb_rest := 0; rb_chunked := ctx; rb_bufs := rb_bufs rb ++ [([], true)] |}
      else if rc =? NGX_AGAIN then
        BodyOk {| b with cb_pos := pos |} {| rb with rb_rest := ck_length ctx; rb_chunked := ctx |}
      else BodyError NGX_HTTP_BAD_REQUEST
  end.

(** Every iteration of the inner loop but the last one takes a byte. *)
Definition body_fuel (b : cbuf) : nat := S (Z.to_nat (cb_last b - cb_pos b)).

(** [http/ngx_http_request_body.c:933-1045] for (cl = in; cl; cl = cl->next) *)
Fixpoint body_chain (client_max_body_size : Z) (chain : list cbuf) (rb : body)
    : body_answer + (list cbuf * body) :=
  match chain with
  | [] => inr ([], rb)
  | b :: chain' =>
      match body_buf (body_fuel b) client_max_body_size b rb with
      | BodyOk b' rb' =>
          match body_chain client_max_body_size chain' rb' with
          | inl e => inl e
          | inr (bs, rb'') => inr (b' :: bs, rb'')
          end
      | e => inl e
      end
  end.

(** The first call for a body makes a new context.
    [http/ngx_http_request_body.c:916-928] if (rb->rest == -1) *)
Definition body_enter (rb : body) : body :=
  if rb_rest rb =? -1 then
    {| rb with rb_chunked := {| ck_state := sw_chunk_start; ck_size := 0; ck_length := 0 |};
               content_length_n := 0; rb_rest := 3 |}
  else rb.

(** [http/ngx_http_request_body.c:904-1053] ngx_http_request_body_chunked_filter *)
Definition ngx_http_request_body_chunked_filter (client_max_body_size : Z) (chain : list cbuf)
    (rb : body) : body_answer + (list cbuf * body) :=
  body_chain client_max_body_size chain (body_enter rb).

(** ** Encoding a response body *)

(** The buffers of the output chain, with the bytes that they hold in memory
    or in a file.
    [core/ngx_buf.h:20-56] ngx_buf_s *)
Record obuf : Type := {
  ob_bytes : list Z; ob_in_memory : bool; ob_in_file : bool; ob_flush : bool; ob_sync : bool;
  ob_last_buf : bool
}.

Definition ob_memory (bs : list Z) (last : bool) : obuf := {|
  ob_bytes := bs; ob_in_memory := true; ob_in_file := false; ob_flush := false; ob_sync := false;
  ob_last_buf := last |}.

(** The buffers that go to the next filter.
    [http/modules/ngx_http_chunked_filter_module.c:128-141] the copied links *)
Definition ob_kept (b : obuf) : bool :=
  ob_flush b || ob_sync b || ob_in_memory b || ob_in_file b.

(** The flag [last_buf] of the last buffer of the chain is cleared.
    [http/modules/ngx_http_chunked_filter_module.c:196-196] cl->buf->last_buf = 0 *)
Definition ob_clear_last (chain : list obuf) : list obuf :=
  match last chain with
  | None => chain
  | Some b => removelast chain ++ [{| b with ob_last_buf := false |}]
  end.

(** The chain given to the next filter; the header filter has set [r->chunked].
    [http/modules/ngx_http_chunked_filter_module.c:100-230] ngx_http_chunked_body_filter *)
Definition ngx_http_chunked_body_filter (chain : list obuf) : vs_error + list obuf :=
  let size := foldr (fun b n => Z.of_nat (length (ob_bytes b)) + n) 0 chain in
  let last_buf := match last chain with Some b => ob_last_buf b | None => false end in
  let kept := filter (fun b => ob_kept b = true)
                (if last_buf then ob_clear_last chain else chain) in
  let trailer :=
    if last_buf then
      let s := [CR; LF] ++ B! "0" ++ [CR; LF; CR; LF] in
      [ob_memory (if size =? 0 then drop 2 s else s) true]
    else if 0 <? size then [ob_memory [CR; LF] false]
    else [] in
  if negb (size =? 0) then
    match ngx_sprintf (B! "%xO" ++ [CR; LF]) [VInt size] with
    | inl e => inl e
    | inr chunk => inr (ob_memory chunk false :: kept ++ trailer)
    end
  else inr (kept ++ trailer).

Definition chain_bytes (chain : list obuf) : list Z := concat (map ob_bytes chain).

Definition encoded (chain : list obuf) : option (list Z) :=
  match ngx_http_chunked_body_filter chain with
  | inl _ => None
  | inr out => Some (chain_bytes out)
  end.

Example encode_1 :
  encoded [ob_memory (B! "hello, ") false; ob_memory (B! "wor") true]
  = Some (B! "a" ++ [CR; LF] ++ B! "hello, wor" ++ [CR; LF] ++ B! "0" ++ [CR; LF; CR; LF]).
Proof. by vm_compute. Qed.

(** ** A decoder that takes one byte at a time

    The steps are those of the parser, but the sizes are unbounded integers, and
    a size that the counters of the program could not hold is refused; the filter
    is related to it, and it to the grammar of the coding. *)

Definition ck_max : Z := 2 ^ 63 - 7.

Inductive byte_answer : Type :=
| BNext (s : ck_sw * Z) (data : list Z)
| BDone
| BBad.

Definition ck_byte (s : ck_sw * Z) (c : Z) : byte_answer :=
  let generic :=
    match ck_step [c] 0 s with
    | Next s' => BNext s' []
    | Exit CkDone _ => BDone
    | Exit _ _ => BBad
    end in
  match s with
  | (sw_chunk_data, size) =>
      if size <=? 0 then BBad else BNext (ck_enter sw_chunk_data (size - 1), size - 1) [c]
  | (sw_chunk_size, size) =>
      match ck_hex c with
      | Some d =>
          if size * 16 + d <=? ck_max then BNext (sw_chunk_size, size * 16 + d) [] else BBad
      | None => generic
      end
  | _ => generic
  end.

Inductive stream_answer : Type :=
| SMore (s : ck_sw * Z) (data : list Z)
| SDone (data rest : list Z)
| SBad.

Definition stream_cons (data : list Z) (a : stream_answer) : stream_answer :=
  match a with
  | SMore s data' => SMore s (data ++ data')
  | SDone data' rest => SDone (data ++ data') rest
  | SBad => SBad
  end.

Fixpoint ck_stream (s : ck_sw * Z) (bs : list Z) : stream_answer :=
  match bs with
  | [] => SMore s []
  | c :: bs' =>
      match ck_byte s c with
      | BNext s' data => stream_cons data (ck_stream s' bs')
      | BDone => SDone [] bs'
      | BBad => SBad
      end
  end.

(** The states between the size of a chunk and the end of its data. *)
Definition in_chunk (st : ck_sw) : bool :=
  match st with
  | sw_chunk_extension | sw_chunk_extension_almost_done | sw_chunk_data => true
  | _ => false
  end.

(** The states the decoder goes through. *)
Definition ck_ok (s : ck_sw * Z) : Prop :=
  0 <= s.2 <= ck_max /\ (in_chunk s.1 = true -> 0 < s.2).

Lemma ck_hex_range c d : ck_hex c = Some d -> 0 <= d <= 15.
Proof. unfold ck_hex. repeat case_match; intros [= <-]; zify_bool; lia. Qed.

#[local] Arguments ck_hex : simpl never.

Lemma ck_enter_ok state size : ck_ok (state, size) -> ck_enter state size = state.
Proof.
  intros [_ H]. unfold ck_enter. case_decide as E; [|done]. cbn in H. rewrite E in H.
  specialize (H eq_refl). by decide_tests.
Qed.

Lemma ck_byte_ok s c s' data : ck_ok s -> ck_byte s c = BNext s' data -> ck_ok s'.
Proof.
  destruct s as [st size]. intros [H1 H2]. cbn in H1, H2. unfold ck_byte.
  destruct st; unfold ck_step, ck_sw_chunk_size, ck_size_end, ck_skip, ck_almost_done.
  all: change (mem_at [c] 0) with c.
  all: repeat case_match; intros; simplify_eq; zify_bool;
    repeat match goal with H : ck_hex _ = Some _ |- _ => apply ck_hex_range in H end.
  all: unfold ck_ok, ck_enter, ck_max in *; cbn; split; try done; try lia.
  rewrite decide_True by done. destruct (Z.eqb_spec (size - 1) 0); [done|lia].
Qed.

(** Outside of the data, a byte is a step of the parser. *)
Lemma ck_byte_step mem pos s c :
  ck_ok s -> s.1 <> sw_chunk_data -> mem_at mem pos = c ->
  match ck_byte s c with
  | BNext s' data => data = [] /\ ck_step mem pos s = Next s'
  | BDone => exists s', ck_step mem pos s = Exit CkDone s'
  | BBad => True
  end.
Proof.
  intros [H1 _] Hd Hc. assert (E : ck_step mem pos s = ck_step [c] 0 s).
  { unfold ck_step. destruct s. by rewrite Hc. }
  rewrite E. destruct s as [st size]. unfold ck_byte. cbn in H1, Hd.
  assert (Hgen : match (match ck_step [c] 0 (st, size) with
                        | Next s' => BNext s' [] | Exit CkDone _ => BDone | Exit _ _ => BBad end) with
    | BNext s' data => data = [] /\ ck_step [c] 0 (st, size) = Next s'
    | BDone => exists s', ck_step [c] 0 (st, size) = Exit CkDone s'
    | BBad => True
    end) by (destruct (ck_step [c] 0 (st, size)) as [|[]]; by eauto).
  destruct st; try done. destruct (ck_hex c) as [d|] eqn:Eh; [|done].
  destruct (Z.leb_spec (size * 16 + d) ck_max); [|done]. split; [done|].
  unfold ck_step, ck_sw_chunk_size. change (mem_at [c] 0) with c. rewrite Eh.
  apply ck_hex_range in Eh. unfold ck_max in *. by rewrite s64_small by lia.
Qed.

Lemma stream_cons_nil a : stream_cons [] a = a.
Proof. by destruct a. Qed.

(** One run of the parser's loop, on bytes that the specification accepts. *)
Lemma ck_loop_stream mem bs : forall pos s,
  ck_ok s -> mem_has mem pos bs -> ck_stream s bs <> SBad ->
  match for_loop (ck_step mem) (length bs) pos s with
  | Ran p s' => p = pos + Z.of_nat (length bs) /\ ck_ok s' /\ ck_stream s bs = SMore s' []
  | Broke CkDone p _ =>
      pos <= p < pos + Z.of_nat (length bs) /\
      ck_stream s bs = SDone [] (drop (Z.to_nat (p + 1 - pos)) bs)
  | Broke CkData p s' =>
      pos <= p < pos + Z.of_nat (length bs) /\ ck_ok s' /\ s'.1 = sw_chunk_data /\
      ck_stream s bs = ck_stream s' (drop (Z.to_nat (p - pos)) bs)
  | Broke CkInvalid _ _ => False
  end.
Proof.
  induction bs as [|c bs IH]; intros pos s Hok Hmem Hbad; cbn [length].
  { unfold for_loop. split; [lia|done]. }
  apply mem_has_cons in Hmem as [Hc Hmem].
  destruct (decide (s.1 = sw_chunk_data)) as [Ed|Ed].
  { erewrite for_loop_exit; [|unfold ck_step; destruct s; cbn in Ed; by rewrite Ed].
    replace (Z.to_nat (pos - pos)) with 0%nat by lia. destruct s; cbn in *. split_and!; try done; lia. }
  pose proof (ck_byte_step mem pos s c Hok Ed Hc) as Hstep.
  cbn [ck_stream] in *. destruct (ck_byte s c) as [s' data| |] eqn:Eb; [| |done].
  - destruct Hstep as [-> Hstep]. rewrite (for_loop_next _ _ _ _ s') by done.
    rewrite stream_cons_nil in *. apply ck_byte_ok in Eb; [|done].
    specialize (IH (pos + 1) s' Eb Hmem Hbad).
    destruct (for_loop _ _ _ _) as [p s1|[] p s1]; [| | |done].
    + destruct IH as (-> & ? & ?). split_and!; try done; lia.
    + destruct IH as (? & ? & ? & ->). split_and!; try done; try lia.
      by replace (Z.to_nat (p - pos)) with (S (Z.to_nat (p - (pos + 1)))) by lia.
    + destruct IH as (? & ->). split_and!; try lia.
      by replace (Z.to_nat (p + 1 - pos)) with (S (Z.to_nat (p + 1 - (pos + 1)))) by lia.
  - destruct Hstep as [s' Hstep]. rewrite (for_loop_exit _ _ _ _ CkDone s') by done.
    replace (Z.to_nat (pos + 1 - pos)) with 1%nat by lia. split; [lia|]. done.
Qed.

(** The data of a chunk, up to its end or to the end of the bytes. *)
Lemma ck_stream_data size bs n :
  (n <= length bs)%nat -> 0 < Z.of_nat n <= size -> size <= ck_max ->
  ck_stream (sw_chunk_data, size) bs =
  stream_cons (take n bs)
    (ck_stream (ck_enter sw_chunk_data (size - Z.of_nat n), size - Z.of_nat n) (drop n bs)).
Proof.
  revert size bs. induction n as [|n IH]; intros size bs Hlen Hn Hmax; [lia|].
  destruct bs as [|c bs]; [cbn in Hlen; lia|]. cbn [ck_stream ck_byte take drop].
  rewrite (proj2 (Z.leb_gt _ _)) by lia.
  destruct (decide (n = 0%nat)) as [->|Hn0].
  - by cbn.
  - assert (ck_enter sw_chunk_data (size - 1) = sw_chunk_data) as ->.
    { unfold ck_enter. rewrite decide_True by done. by decide_tests. }
    cbn in Hlen. rewrite IH by lia.
    replace (size - 1 - Z.of_nat n) with (size - Z.of_nat (S n)) by lia.
    by destruct (ck_stream _ _).
Qed.

(** ** The filter implements the specification *)

Definition body_bytes (rb : body) : list Z := concat (map fst (rb_bufs rb)).
Definition body_ended (rb : body) : bool := existsb snd (rb_bufs rb).

(** The state of the decoder that a parser context stands for. *)
Definition ctx_state (ctx : chunked) : ck_sw * Z :=
  (ck_enter (ck_state ctx) (ck_size ctx), ck_size ctx).

(** The buffer [b] holds the bytes [bs]. *)
Definition cb_holds (b : cbuf) (bs : list Z) : Prop :=
  0 <= cb_pos b /\ cb_last b = cb_pos b + Z.of_nat (length bs) /\
  cb_last b <= Z.of_nat (length (cb_mem b)) /\ mem_has (cb_mem b) (cb_pos b) bs.

(** What the filter leaves when the specification answers [a]. *)
Definition body_after (rb rb' : body) (a : stream_answer) : Prop :=
  match a with
  | SMore s data =>
      ctx_state (rb_chunked rb') = s /\ ck_ok s /\ rb_rest rb' = ck_expects s.1 s.2 /\
      body_bytes rb' = body_bytes rb ++ data /\ body_ended rb' = body_ended rb /\
      content_length_n rb' = content_length_n rb + Z.of_nat (length data)
  | SDone data rest =>
      rb_rest rb' = 0 /\ body_bytes rb' = body_bytes rb ++ data /\ body_ended rb' = true /\
      content_length_n rb' = content_length_n rb + Z.of_nat (length data)
  | SBad => True
  end.

Definition unread (a : stream_answer) : list Z :=
  match a with SDone _ rest => rest | _ => [] end.

Lemma unread_cons data a : unread (stream_cons data a) = unread a.
Proof. by destruct a. Qed.

Lemma ck_expects_ok s : ck_ok s -> 0 <= ck_expects s.1 s.2.
Proof.
  intros [H _]. unfold ck_max in H. unfold ck_expects.
  destruct s as [[] size]; cbn in *; try lia; try case_match; rewrite s64_small; lia.
Qed.

(** One call of the parser on a buffer. *)
Lemma parse_chunked_stream b ctx bs :
  cb_holds b bs -> ck_ok (ctx_state ctx) -> ck_stream (ctx_state ctx) bs <> SBad ->
  exists rc pos ctx', ngx_http_parse_chunked (cb_mem b) (cb_pos b) (cb_last b) ctx = (rc, pos, ctx') /\
  (rc = NGX_AGAIN /\ pos = cb_last b /\ ck_ok (ctx_state ctx') /\
     ck_length ctx' = ck_expects (ck_state ctx') (ck_size ctx') /\
     ck_state ctx' = (ctx_state ctx').1 /\
     ck_stream (ctx_state ctx) bs = SMore (ctx_state ctx') [] \/
   rc = NGX_DONE /\ (exists rest, pos = cb_last b - Z.of_nat (length rest) /\
     ck_stream (ctx_state ctx) bs = SDone [] rest) \/
   rc = NGX_OK /\ exists k, (k < length bs)%nat /\ pos = cb_pos b + Z.of_nat k /\
     ck_state ctx' = sw_chunk_data /\ ck_ok (sw_chunk_data, ck_size ctx') /\
     ck_stream (ctx_state ctx) bs = ck_stream (sw_chunk_data, ck_size ctx') (drop k bs)).
Proof.
  intros (Hp & Hl & Hlen & Hmem) Hok Hbad. unfold ngx_http_parse_chunked.
  replace (Z.to_nat (cb_last b - cb_pos b)) with (length bs) by lia.
  pose proof (ck_loop_stream (cb_mem b) bs (cb_pos b) (ctx_state ctx) Hok Hmem Hbad) as H.
  unfold ctx_state at 1 in H.
  destruct (for_loop _ _ _ _) as [p s|[] p s]; [| | |done].
  - destruct H as (-> & Hs & E). pose proof (ck_expects_ok s Hs) as He.
    cbn zeta. cbn [ck_size ck_length]. destruct Hs as [Hs1 Hs2].
    rewrite (proj2 (Z.ltb_ge s.2 0)), (proj2 (Z.ltb_ge (ck_expects s.1 s.2) 0)) by lia.
    eexists _, _, _. split; [done|]. left. unfold ctx_state. cbn.
    rewrite (ck_enter_ok s.1 s.2) by (by destruct s). destruct s. by split_and!.
  - destruct H as (Hpos & Hs & Est & E). pose proof (ck_expects_ok s Hs) as He.
    cbn zeta. cbn [ck_size ck_length]. destruct Hs as [Hs1 Hs2].
    rewrite (proj2 (Z.ltb_ge s.2 0)), (proj2 (Z.ltb_ge (ck_expects s.1 s.2) 0)) by lia.
    eexists _, _, _. split; [done|]. right; right. split; [done|].
    exists (Z.to_nat (p - cb_pos b)). destruct s as [st size]. cbn in *. subst st.
    split_and!; try done; lia.
  - destruct H as (Hpos & E). eexists _, _, _. split; [done|]. right; left. split; [done|].
    eexists. split; [|exact E]. rewrite length_drop. lia.
Qed.

Lemma cb_holds_skip b bs k :
  cb_holds b bs -> (k <= length bs)%nat ->
  cb_holds {| b with cb_pos := cb_pos b + Z.of_nat k |} (drop k bs).
Proof.
  intros (Hp & Hl & Hlen & Hmem) Hk. unfold cb_holds. cbn. rewrite length_drop.
  split_and!; try lia. rewrite <- (take_drop k bs), mem_has_app, length_take in Hmem.
  destruct Hmem as [_ Hmem]. by replace (k `min` length bs)%nat with k in Hmem by lia.
Qed.

Lemma cb_holds_slice b bs k n :
  cb_holds b bs -> (k + n <= length bs)%nat ->
  slice (cb_mem b) (cb_pos b + Z.of_nat k) (cb_pos b + Z.of_nat k + Z.of_nat n) = take n (drop k bs).
Proof.
  intros Hb Hk. destruct (cb_holds_skip b bs k Hb ltac:(lia)) as (Hp & Hl & Hlen & Hmem). cbn in *.
  rewrite <- (take_drop n (drop k bs)), mem_has_app in Hmem. destruct Hmem as [Hmem _].
  assert (E : length (take n (drop k bs)) = n) by (rewrite length_take, length_drop; lia).
  rewrite <- E at 1. apply mem_has_slice; [lia| |done]. rewrite E. rewrite length_drop in Hl. lia.
Qed.

Lemma body_after_cons rb rb1 rb' data a :
  body_bytes rb1 = body_bytes rb ++ data -> body_ended rb1 = body_ended rb ->
  content_length_n rb1 = content_length_n rb + Z.of_nat (length data) ->
  body_after rb1 rb' a -> body_after rb rb' (stream_cons data a).
Proof.
  intros E1 E2 E3. destruct a as [s d|d rest|]; cbn; [| |done];
    rewrite E1, ?E2, E3, ?length_app, ?app_assoc; intros H; destruct_and! H; split_and!; try done; lia.
Qed.

Lemma body_buf_stream fuel b rb bs :
  cb_holds b bs -> (length bs < fuel)%nat -> ck_ok (ctx_state (rb_chunked rb)) ->
  ck_stream (ctx_state (rb_chunked rb)) bs <> SBad ->
  exists rb', body_buf fuel 0 b rb =
    BodyOk {| b with cb_pos := cb_last b
                     - Z.of_nat (length (unread (ck_stream (ctx_state (rb_chunked rb)) bs))) |} rb' /\
    body_after rb rb' (ck_stream (ctx_state (rb_chunked rb)) bs).
Proof.
  revert b rb bs. induction fuel as [|fuel IH]; intros b rb bs Hb Hf Hok Hbad; [lia|].
  cbn [body_buf].
  destruct (parse_chunked_stream b (rb_chunked rb) bs Hb Hok Hbad)
    as (rc & pos & ctx & -> & [(-> & -> & Hok' & El & Est & E)|[(-> & rest & -> & E)|
        (-> & k & Hk & -> & Est & Hok' & E)]]).
  - change (-2 =? 0) with false. change (-2 =? -4) with false. change (-2 =? -2) with true.
    rewrite E. cbn [unread length]. rewrite Z.sub_0_r. eexists. split; [done|].
    cbn. rewrite El, app_nil_r. split_and!; try done; try lia.
    f_equal. exact Est.
  - change (-4 =? 0) with false. change (-4 =? -4) with true.
    rewrite E. cbn [unread]. eexists. split; [done|].
    cbn. unfold body_bytes, body_ended. cbn. rewrite map_app, concat_app, existsb_app. cbn.
    split_and!; rewrite ?app_nil_r, ?orb_true_r; try done; lia.
  - change (0 =? 0) with true. cbn [negb andb].
    set (size := ck_size ctx) in *. destruct Hok' as [Hs1 Hs2]. cbn in Hs1, Hs2.
    specialize (Hs2 eq_refl). destruct Hb as (Hp & Hl & Hlen & Hmem) eqn:Hb'.
    set (avail := (length bs - k)%nat).
    set (n := Z.to_nat (Z.min size (Z.of_nat avail))).
    replace (if size <? _ then _ else _) with (Z.of_nat n) by (case_match; zify_bool; lia).
    replace (cb_pos b + Z.of_nat k + Z.of_nat n) with (cb_pos b + Z.of_nat (k + n)) by lia.
    set (rb1 := {| rb_rest := _ |}).
    pose proof (ck_stream_data size (drop k bs) n) as Ed.
    rewrite length_drop, drop_drop in Ed.
    specialize (Ed ltac:(lia) ltac:(lia) ltac:(lia)). rewrite E, Ed.
    assert (Ec : ctx_state (rb_chunked rb1) =
      (ck_enter sw_chunk_data (size - Z.of_nat n), size - Z.of_nat n)).
    { unfold ctx_state. cbn. by rewrite Est. }
    rewrite <- Ec.
    destruct (IH {| b with cb_pos := cb_pos b + Z.of_nat (k + n) |} rb1 (drop (k + n) bs))
      as (rb' & -> & Hafter).
    + apply cb_holds_skip; [done|lia].
    + rewrite length_drop. lia.
    + rewrite Ec. split; cbn; [lia|]. unfold ck_enter. rewrite decide_True by done.
      destruct (Z.eqb_spec (size - Z.of_nat n) 0); [done|lia].
    + rewrite Ec. intros Ebad. apply Hbad. by rewrite E, Ed, Ebad.
    + exists rb'. split.
      * by rewrite unread_cons.
      * eapply body_after_cons; [| | |exact Hafter]; cbn.
        -- unfold body_bytes. cbn. rewrite map_app, concat_app. cbn. rewrite app_nil_r. f_equal.
           replace (cb_pos b + Z.of_nat (k + n)) with (cb_pos b + Z.of_nat k + Z.of_nat n) by lia.
           apply cb_holds_slice; [done|lia].
        -- unfold body_ended. cbn. rewrite existsb_app. cbn. by rewrite !orb_false_r.
        -- rewrite length_take, length_drop. lia.
Qed.

Lemma stream_cons_cons d1 d2 a : stream_cons d1 (stream_cons d2 a) = stream_cons (d1 ++ d2) a.
Proof. destruct a; cbn; by rewrite ?app_assoc. Qed.

(** The specification does not depend on how the bytes are cut. *)
Lemma ck_stream_app s bs1 bs2 :
  ck_stream s (bs1 ++ bs2) =
  match ck_stream s bs1 with
  | SMore s' data => stream_cons data (ck_stream s' bs2)
  | SDone data rest => SDone data (rest ++ bs2)
  | SBad => SBad
  end.
Proof.
  revert s. induction bs1 as [|c bs1 IH]; intros s; cbn [app ck_stream].
  - by rewrite stream_cons_nil.
  - destruct (ck_byte s c) as [s' data| |]; [|done..]. rewrite IH.
    destruct (ck_stream s' bs1); cbn; by rewrite ?stream_cons_cons.
Qed.

Lemma body_chain_app max chain1 chain2 rb :
  body_chain max (chain1 ++ chain2) rb =
  match body_chain max chain1 rb with
  | inl e => inl e
  | inr (bs, rb') =>
      match body_chain max chain2 rb' with
      | inl e => inl e
      | inr (bs', rb'') => inr (bs ++ bs', rb'')
      end
  end.
Proof.
  revert rb. induction chain1 as [|b chain1 IH]; intros rb; cbn [app body_chain].
  - by destruct (body_chain max chain2 rb) as [|[]].
  - destruct (body_buf _ _ _ _) as [b' rb'| |]; try done. rewrite IH.
    destruct (body_chain max chain1 rb') as [|[bs rb1]]; [done|].
    by destruct (body_chain max chain2 rb1) as [|[]].
Qed.

Lemma body_after_trans rb rb1 rb' s data a :
  body_after rb rb1 (SMore s data) -> body_after rb1 rb' a ->
  body_after rb rb' (stream_cons data a).
Proof. intros (_ & _ & _ & E1 & E2 & E3). by apply body_after_cons. Qed.

(** Buffers that do not end the body. *)
Lemma body_chain_more chain bss rb s data :
  Forall2 cb_holds chain bss -> ck_ok (ctx_state (rb_chunked rb)) ->
  rb_rest rb = ck_expects (ctx_state (rb_chunked rb)).1 (ctx_state (rb_chunked rb)).2 ->
  ck_stream (ctx_state (rb_chunked rb)) (concat bss) = SMore s data ->
  exists chain' rb', body_chain 0 chain rb = inr (chain', rb') /\
    body_after rb rb' (SMore s data).
Proof.
  intros Hchain. revert rb data. induction Hchain as [|b bs chain bss Hb _ IH];
    intros rb data Hok Hrest E; cbn [concat body_chain] in *.
  - injection E as <- <-. eexists _, _. split; [done|]. cbn. rewrite app_nil_r.
    split_and!; try done. lia.
  - rewrite ck_stream_app in E.
    destruct (ck_stream _ bs) as [s1 d1| |] eqn:E1; [|done..].
    destruct (body_buf_stream (body_fuel b) b rb bs Hb) as (rb1 & Eb & Hafter);
      [destruct Hb as (?&?&?); unfold body_fuel; lia|done|by rewrite E1|].
    rewrite Eb. rewrite E1 in Hafter. pose proof Hafter as (Es & Hs1 & Hr & _).
    destruct (ck_stream s1 (concat bss)) as [s2 d2| |] eqn:E2; [|done..].
    injection E as <- <-. rewrite <- Es in E2.
    destruct (IH rb1 d2) as (chain' & rb' & -> & Hafter'); [by rewrite Es|by rewrite Hr, Es|done|].
    eexists _, _. split; [done|]. by apply (body_after_trans rb rb1 rb' s1 d1 (SMore s2 d2)).
Qed.

(** A body that has not begun, or one that a previous call has left in the
    middle. *)
Definition body_ready (rb : body) : Prop :=
  rb_rest rb = -1 \/
  ck_ok (ctx_state (rb_chunked rb)) /\
  rb_rest rb = ck_expects (ctx_state (rb_chunked rb)).1 (ctx_state (rb_chunked rb)).2.

Lemma body_enter_ready rb :
  body_ready rb ->
  ck_ok (ctx_state (rb_chunked (body_enter rb))) /\
  rb_rest (body_enter rb) = ck_expects (ctx_state (rb_chunked (body_enter rb))).1
                              (ctx_state (rb_chunked (body_enter rb))).2.
Proof.
  unfold body_enter. intros [->|[Hok Hr]].
  - split; [split; vm_compute; [split; discriminate|discriminate]|done].
  - pose proof (ck_expects_ok _ Hok). rewrite (proj2 (Z.eqb_neq _ _)) by lia. done.
Qed.

Lemma chunked_filter_spec (chain : list cbuf) (bss : list (list Z)) (b : cbuf) (bs : list Z)
    (rb : body) (s : ck_sw * Z) (data : list Z) :
  body_ready rb -> Forall2 cb_holds chain bss -> cb_holds b bs ->
  let s0 := ctx_state (rb_chunked (body_enter rb)) in
  ck_stream s0 (concat bss) = SMore s data -> ck_stream s bs <> SBad ->
  exists chain' rb',
    ngx_http_request_body_chunked_filter 0 (chain ++ [b]) rb =
      inr (chain' ++ [{| b with cb_pos := cb_last b
             - Z.of_nat (length (unread (ck_stream s bs))) |}], rb') /\
    body_after (body_enter rb) rb' (ck_stream s0 (concat bss ++ bs)).
Proof.
  intros Hready Hchain Hb s0 E Hbad. apply body_enter_ready in Hready as [Hok Hr].
  unfold ngx_http_request_body_chunked_filter.
  destruct (body_chain_more chain bss (body_enter rb) s data Hchain Hok Hr E)
    as (chain' & rb1 & E1 & Hafter).
  pose proof Hafter as (Es & Hs & _).
  destruct (body_buf_stream (body_fuel b) b rb1 bs Hb) as (rb' & Eb & Hafter');
    [destruct Hb as (?&?&?); unfold body_fuel; lia|by rewrite Es|by rewrite Es|].
  rewrite Es in Eb, Hafter'.
  exists chain', rb'. rewrite body_chain_app, E1. cbn [body_chain]. rewrite Eb. split; [done|].
  rewrite ck_stream_app, E. by apply (body_after_trans _ rb1 _ s data).
Qed.

(** ** Encoding, then decoding *)

Lemma ck_hex_digit d : 0 <= d < 16 -> ck_hex (num_digit 1 d) = Some d.
Proof.
  intros Hd. pose proof (in_range 0 16 d ltac:(lia)) as Hin.
  cbn in Hin. repeat (destruct Hin as [<-|Hin]; [reflexivity|]). done.
Qed.

Lemma base_value_ge v ds : 0 <= v -> Forall (fun d => 0 <= d < 16) ds -> v <= base_value 16 v ds.
Proof.
  intros Hv H. revert v Hv. induction H as [|d ds Hd _ IH]; intros v Hv; [done|].
  cbn. etrans; [|apply IH; lia]. lia.
Qed.

Lemma ck_stream_digits v ds rest :
  0 <= v -> Forall (fun d => 0 <= d < 16) ds -> base_value 16 v ds <= ck_max ->
  ck_stream (sw_chunk_size, v) (map (num_digit 1) ds ++ rest) =
  ck_stream (sw_chunk_size, base_value 16 v ds) rest.
Proof.
  intros Hv H. revert v Hv. induction H as [|d ds Hd Hds IH]; intros v Hv Hmax; [done|].
  cbn [map app ck_stream ck_byte]. rewrite ck_hex_digit by done.
  cbn [base_value foldl] in Hmax. pose proof (base_value_ge (v * 16 + d) ds ltac:(lia) Hds).
  unfold base_value in *. rewrite (proj2 (Z.leb_le _ _)) by lia.
  rewrite stream_cons_nil. by apply IH; [lia|].
Qed.

(** The size line of a chunk. *)
Lemma ck_stream_size n size ds rest :
  Forall (fun d => 0 <= d < 16) ds -> base_value 16 0 ds = n -> 0 < n <= ck_max -> ds <> [] ->
  ck_stream (sw_chunk_start, size) (map (num_digit 1) ds ++ [CR; LF] ++ rest) =
  ck_stream (sw_chunk_data, n) rest.
Proof.
  intros Hds Hv Hn Hne. destruct ds as [|d ds]; [done|].
  apply Forall_cons in Hds as [Hd Hds].
  cbn [map app ck_stream ck_byte ck_step]. rewrite mem_at_cons_0, ck_hex_digit by done.
  rewrite stream_cons_nil, ck_stream_digits; [|lia|done|].
  2: { change (base_value 16 0 (d :: ds) <= ck_max). lia. }
  change (base_value 16 d ds) with (base_value 16 0 (d :: ds)). rewrite Hv.
  assert (E1 : ck_byte (sw_chunk_size, n) CR = BNext (sw_chunk_extension_almost_done, n) [])
    by (destruct n; [lia|reflexivity|lia]).
  assert (E2 : ck_byte (sw_chunk_extension_almost_done, n) LF = BNext (sw_chunk_data, n) [])
    by reflexivity.
  cbn [ck_stream]. by rewrite E1, E2, !stream_cons_nil.
Qed.

Lemma ck_stream_chunk n size ds data rest :
  Forall (fun d => 0 <= d < 16) ds -> base_value 16 0 ds = n -> n = Z.of_nat (length data) ->
  0 < n <= ck_max -> ds <> [] ->
  ck_stream (sw_chunk_start, size) (map (num_digit 1) ds ++ [CR; LF] ++ data ++ rest) =
  stream_cons data (ck_stream (sw_after_data, 0) rest).
Proof.
  intros Hds Hv Hlen Hn Hne. rewrite (ck_stream_size n) by done.
  rewrite (ck_stream_data n _ (length data)) by (rewrite ?length_app; lia).
  rewrite take_app_length, drop_app_length. by replace (n - Z.of_nat (length data)) with 0 by lia.
Qed.

Lemma directive_xO room n rest :
  vs_directive room (C! "x" :: C! "O" :: rest) [VInt n] =
  match vs_put_num room true (s64 n)
    {| vs_zero := C! " "; vs_width := 0; vs_sign := true; vs_hex := 1; vs_max_width := false;
       vs_frac_width := 0; vs_slen := u64 (-1) |} with
  | inl e => inl e
  | inr out => inr (out, rest, [])
  end.
Proof. reflexivity. Qed.

Lemma sprintf_size n :
  0 <= n <= ck_max ->
  exists ds, ngx_sprintf (B! "%xO" ++ [CR; LF]) [VInt n] = inr (map (num_digit 1) ds ++ [CR; LF]) /\
    Forall (fun d => 0 <= d < 16) ds /\ base_value 16 0 ds = n /\ ds <> [].
Proof.
  unfold ck_max. intros Hn. destruct (num_digits_spec n 1) as (ds & E & Hds & Hv & Hlen); [lia|].
  exists ds. split_and!; [|done|done|by destruct ds; [cbn in Hlen; lia|]].
  destruct (sprintf_num_fits (2 ^ 63) n (C! " ") 1 0) as (out & temp & E1 & _ & E2 & Hout);
    [lia|lia|]. rewrite E in E2. injection E2 as <-. rewrite length_map in Hout.
  assert (out = map (num_digit 1) ds) as -> by (apply Hout; lia).
  unfold ngx_sprintf, ngx_vslprintf. cbn [app length].
  rewrite vslprintf_directive, directive_xO by done.
  unfold vs_put_num. cbn [vs_zero vs_hex vs_width].
  rewrite s64_small by lia. rewrite (proj2 (Z.ltb_ge n 0)) by lia. cbn [andb].
  rewrite E1, length_map. by rewrite !vslprintf_plain by lia.
Qed.

(** A buffer that holds bytes is in memory or in a file. *)
Definition obuf_ok (b : obuf) : Prop := ob_kept b = false -> ob_bytes b = [].

Definition ends_body (chain : list obuf) : bool :=
  match last chain with Some b => ob_last_buf b | None => false end.

Definition total_size (chain : list obuf) : Z := Z.of_nat (length (chain_bytes chain)).

Lemma fold_size chain :
  foldr (fun b n => Z.of_nat (length (ob_bytes b)) + n) 0 chain = total_size chain.
Proof.
  unfold total_size, chain_bytes. induction chain as [|b chain IH]; cbn; [done|].
  rewrite IH, length_app. lia.
Qed.

Lemma kept_bytes chain :
  Forall obuf_ok chain -> chain_bytes (filter (fun b => ob_kept b = true) chain) = chain_bytes chain.
Proof.
  induction 1 as [|b chain Hb _ IH]; [done|]. rewrite filter_cons. case_decide as E.
  - unfold chain_bytes in *. cbn. by rewrite IH.
  - apply not_true_is_false in E. unfold chain_bytes in *. cbn. by rewrite (Hb E), IH.
Qed.

Lemma clear_last_bytes chain :
  chain_bytes (ob_clear_last chain) = chain_bytes chain /\
  (Forall obuf_ok chain -> Forall obuf_ok (ob_clear_last chain)).
Proof.
  unfold ob_clear_last. destruct chain as [|b chain _] using rev_ind; [done|].
  rewrite last_snoc, removelast_last. unfold chain_bytes. rewrite !map_app. split; [done|].
  intros [H1 H2]%Forall_app. apply Forall_app. split; [done|].
  apply Forall_cons in H2 as [H2 _]. by apply Forall_singleton.
Qed.

(** The bytes of the encoded chain. *)
Lemma encoded_bytes chain :
  Forall obuf_ok chain -> total_size chain <= ck_max ->
  exists ds, Forall (fun d => 0 <= d < 16) ds /\ base_value 16 0 ds = total_size chain /\ ds <> [] /\
    encoded chain = Some (
      (if total_size chain =? 0 then []
       else map (num_digit 1) ds ++ [CR; LF] ++ chain_bytes chain ++ [CR; LF]) ++
      (if ends_body chain then B! "0" ++ [CR; LF; CR; LF] else [])).
Proof.
  intros Hok Hmax. assert (0 <= total_size chain) by (unfold total_size; lia).
  destruct (sprintf_size (total_size chain)) as (ds & E & Hds & Hv & Hne); [done|].
  exists ds. split_and!; try done. unfold encoded, ngx_http_chunked_body_filter.
  rewrite fold_size, E. fold (ends_body chain).
  assert (Hk : chain_bytes (filter (fun b => ob_kept b = true)
    (if ends_body chain then ob_clear_last chain else chain)) = chain_bytes chain).
  { destruct (clear_last_bytes chain) as [Eb Hb].
    destruct (ends_body chain); rewrite kept_bytes; auto. }
  assert (Happ : forall l1 l2, chain_bytes (l1 ++ l2) = chain_bytes l1 ++ chain_bytes l2).
  { intros. unfold chain_bytes. by rewrite map_app, concat_app. }
  destruct (Z.eqb_spec (total_size chain) 0) as [E0|E0]; cbn [negb].
  - assert (chain_bytes chain = []) as Enil.
    { unfold total_size in E0. apply length_zero_iff_nil. lia. }
    rewrite E0, Happ, Hk, Enil. by destruct (ends_body chain).
  - rewrite (proj2 (Z.ltb_lt 0 _)) by lia.
    change (ob_memory _ false :: ?l) with ([ob_memory (map (num_digit 1) ds ++ [13; 10]) false] ++ l).
    rewrite !Happ, Hk.
    assert (Hmem : forall bs l, chain_bytes [ob_memory bs l] = bs) by (intros; apply app_nil_r).
    destruct (ends_body chain); rewrite !Hmem; rewrite <- !app_assoc; [done|].
    by rewrite app_nil_r.
Qed.

(** One call of the encoder, then the decoder on its output. *)
Lemma ck_stream_encoded chain bytes rest :
  Forall obuf_ok chain -> total_size chain <= ck_max -> encoded chain = Some bytes ->
  ck_stream (sw_chunk_start, 0) (bytes ++ rest) =
  stream_cons (chain_bytes chain)
    (if ends_body chain then SDone [] rest else ck_stream (sw_chunk_start, 0) rest).
Proof.
  intros Hok Hmax. destruct (encoded_bytes chain Hok Hmax) as (ds & Hds & Hv & Hne & ->).
  intros [= <-]. assert (0 <= total_size chain) by (unfold total_size; lia).
  rewrite <- app_assoc. assert (Hend :
    ck_stream (sw_chunk_start, 0) ((if ends_body chain then B! "0" ++ [CR; LF; CR; LF] else []) ++ rest)
    = if ends_body chain then SDone [] rest else ck_stream (sw_chunk_start, 0) rest)
    by (by destruct (ends_body chain)).
  destruct (Z.eqb_spec (total_size chain) 0) as [E0|E0].
  - assert (chain_bytes chain = []) as ->.
    { unfold total_size in E0. apply length_zero_iff_nil. lia. }
    rewrite stream_cons_nil. exact Hend.
  - rewrite <- !app_assoc.
    change ((13 :: 10 :: chain_bytes chain ++ [13; 10]) ++ ?l)
      with ([13; 10] ++ (chain_bytes chain ++ [13; 10]) ++ l).
    rewrite <- app_assoc. rewrite (ck_stream_chunk (total_size chain)) by (done || lia).
    f_equal. rewrite <- Hend. cbn [app ck_stream].
    change (ck_byte (sw_after_data, 0) 13) with (BNext (sw_after_data_almost_done, 0) []).
    cbv beta iota.
    change (ck_byte (sw_after_data_almost_done, 0) 10) with (BNext (sw_chunk_start, 0) []).
    cbv beta iota. by rewrite !stream_cons_nil.
Qed.

(** Several calls of the encoder, the last one with the end of the body. *)
Fixpoint encoded_all (chains : list (list obuf)) : option (list Z) :=
  match chains with
  | [] => Some []
  | chain :: chains' =>
      match encoded chain, encoded_all chains' with
      | Some bs, Some bs' => Some (bs ++ bs')
      | _, _ => None
      end
  end.

Lemma ck_stream_encoded_all chains final bytes rest :
  Forall (fun c => Forall obuf_ok c /\ total_size c <= ck_max /\ ends_body c = false) chains ->
  Forall obuf_ok final -> total_size final <= ck_max -> ends_body final = true ->
  encoded_all (chains ++ [final]) = Some bytes ->
  ck_stream (sw_chunk_start, 0) (bytes ++ rest) =
  SDone (concat (map chain_bytes chains) ++ chain_bytes final) rest.
Proof.
  intros Hchains Hf1 Hf2 Hf3. revert bytes.
  induction Hchains as [|chain chains (H1 & H2 & H3) _ IH]; intros bytes; cbn [app encoded_all].
  - destruct (encoded final) as [bs|] eqn:E; [|done]. intros [= <-].
    rewrite app_nil_r, (ck_stream_encoded final) by done. rewrite Hf3. cbn. by rewrite app_nil_r.
  - destruct (encoded chain) as [bs|] eqn:E; [|done].
    destruct (encoded_all (chains ++ [final])) as [bs'|]; [|done]. intros [= <-].
    rewrite <- app_assoc, (ck_stream_encoded chain), H3, (IH bs') by done. cbn.
    by rewrite app_assoc.
Qed.

Lemma encoded_all_total chains :
  Forall (fun c => Forall obuf_ok c /\ total_size c <= ck_max) chains ->
  exists bytes, encoded_all chains = Some bytes.
Proof.
  induction 1 as [|c chains [H1 H2] _ [bytes IH]]; cbn; [by eexists|].
  destruct (encoded_bytes c H1 H2) as (ds & _ & _ & _ & ->). rewrite IH. by eexists.
Qed.

(** C2: what the response filter encodes, over any number of calls, is decoded
    by the request body filter to the same bytes, however the encoded bytes are
    cut into buffers; the bytes after the encoded body are left unread. *)
Theorem chunked_roundtrip (chains : list (list obuf)) (final : list obuf)
    (chain : list cbuf) (bss : list (list Z)) (b : cbuf) (bs rest : list Z) (rb : body) :
  Forall (fun c => Forall obuf_ok c /\ total_size c <= ck_max /\ ends_body c = false) chains ->
  Forall obuf_ok final -> total_size final <= ck_max -> ends_body final = true ->
  Forall2 cb_holds chain bss -> cb_holds b bs -> rb_rest rb = -1 ->
  exists bytes, encoded_all (chains ++ [final]) = Some bytes /\
    (concat bss ++ bs = bytes ++ rest -> (length (concat bss) < length bytes)%nat ->
     exists chain' rb',
       ngx_http_request_body_chunked_filter 0 (chain ++ [b]) rb =
         inr (chain' ++ [{| b with cb_pos := cb_last b - Z.of_nat (length rest) |}], rb') /\
       body_bytes rb' = body_bytes rb ++ concat (map chain_bytes chains) ++ chain_bytes final /\
       body_ended rb' = true /\ rb_rest rb' = 0).
Proof.
  intros Hchains Hf1 Hf2 Hf3 Hchain Hb Hrb.
  destruct (encoded_all_total (chains ++ [final])) as [bytes Eb].
  { apply Forall_app. split; [|by apply Forall_singleton].
    eapply Forall_impl; [exact Hchains|]. by intros c (? & ? & _). }
  exists bytes. split; [done|]. intros Ecut Hlen.
  pose proof (ck_stream_encoded_all chains final bytes rest Hchains Hf1 Hf2 Hf3 Eb) as E.
  pose proof E as E'. rewrite <- Ecut, ck_stream_app in E.
  assert (Henter : body_enter rb = {| rb with rb_chunked := {| ck_state := sw_chunk_start;
    ck_size := 0; ck_length := 0 |}; content_length_n := 0; rb_rest := 3 |})
    by (unfold body_enter; by rewrite Hrb).
  assert (Hs0 : ctx_state (rb_chunked (body_enter rb)) = (sw_chunk_start, 0))
    by (by rewrite Henter).
  destruct (ck_stream (sw_chunk_start, 0) (concat bss)) as [s d|d r|] eqn:E1; [| |done].
  - destruct (chunked_filter_spec chain bss b bs rb s d) as (chain' & rb' & Ef & Hafter);
      [by left|done|done|by rewrite Hs0|by intros E2; rewrite E2 in E|].
    exists chain', rb'. rewrite Hs0, Ecut, E' in Hafter. cbn in Hafter.
    assert (unread (ck_stream s bs) = rest) as Eu.
    { destruct (ck_stream s bs); cbn in E; try done. by injection E as _ ->. }
    rewrite Eu in Ef. destruct Hafter as (? & Ebytes & ? & _). split_and!; try done.
    rewrite Ebytes, Henter. done.
  - exfalso. injection E as _ E2. apply (f_equal length) in Ecut, E2.
    rewrite !length_app in Ecut. rewrite length_app in E2. lia.
Qed.

Lemma chunked_roundtrip_witness :
  let mem := B! "5" ++ [CR; LF] ++ B! "hello" ++ [CR; LF] ++ B! "0" ++ [CR; LF; CR; LF] ++ B! "GET" in
  let rb := {| rb_rest := -1;
               rb_chunked := {| ck_state := sw_chunk_start; ck_size := 0; ck_length := 0 |};
               content_length_n := 0; rb_bufs := [] |} in
  let chain := [{| cb_mem := mem; cb_pos := 0; cb_last := 5 |}] in
  let b := {| cb_mem := mem; cb_pos := 5; cb_last := 18 |} in
  exists bytes, encoded_all [[ob_memory (B! "hello") true]] = Some bytes /\
    (concat [take 5 mem] ++ drop 5 mem = bytes ++ B! "GET" ->
     (length (concat [take 5 mem]) < length bytes)%nat ->
     exists chain' rb',
       ngx_http_request_body_chunked_filter 0 (chain ++ [b]) rb =
         inr (chain' ++ [{| b with cb_pos := cb_last b - Z.of_nat (length (B! "GET")) |}], rb') /\
       body_bytes rb' = body_bytes rb ++ concat (map chain_bytes []) ++ B! "hello" /\
       body_ended rb' = true /\ rb_rest rb' = 0).
Proof.
  intros mem rb chain b.
  apply (chunked_roundtrip [] [ob_memory (B! "hello") true] chain [take 5 mem] b (drop 5 mem)
    (B! "GET") rb).
  - constructor.
  - constructor; [|constructor]. intros H. discriminate H.
  - vm_compute. discriminate.
  - reflexivity.
  - constructor; [|constructor]. split; [vm_compute; discriminate|]. split; [reflexivity|].
    split; [vm_compute; discriminate|]. apply (mem_has_whole [] (take 5 mem) (drop 5 mem)).
  - split; [vm_compute; discriminate|]. split; [reflexivity|].
    split; [vm_compute; discriminate|].
    pose proof (mem_has_whole (take 5 mem) (drop 5 mem) []) as H.
    rewrite app_nil_r, take_drop in H. exact H.
  - reflexivity.
Defined.

(** ** The number of bytes that the parser expects *)

(** The least number of bytes with which the body can end. *)
Definition least_left (s : ck_sw * Z) : Z :=
  match s with
  | (sw_chunk_size, size) => if size =? 0 then 2 else size + 5
  | (st, size) => ck_expects st size
  end.

Lemma ck_expects_no_wrap st size :
  ck_ok (st, size) ->
  ck_expects st size =
  match st with
  | sw_chunk_start => 3
  | sw_chunk_size => if size =? 0 then 2 else size + 6
  | sw_chunk_extension | sw_chunk_extension_almost_done => size + 5
  | sw_chunk_data => size + 4
  | sw_after_data | sw_after_data_almost_done => 4
  | sw_last_chunk_extension | sw_last_chunk_extension_almost_done => 2
  | sw_trailer | sw_trailer_almost_done => 1
  | sw_trailer_header | sw_trailer_header_almost_done => 2
  end.
Proof.
  intros [H _]. cbn in H. unfold ck_max in H.
  destruct st; cbn; try done; try case_match; rewrite ?s64_small; lia.
Qed.

Lemma least_left_step s c :
  ck_ok s ->
  match ck_byte s c with
  | BNext s' _ => least_left s <= 1 + least_left s'
  | BDone => least_left s <= 1
  | BBad => True
  end.
Proof.
  intros Hok. pose proof (fun s' d => ck_byte_ok s c s' d Hok) as Hok'. destruct s as [st size].
  revert Hok'. unfold ck_byte, ck_step, ck_sw_chunk_size, ck_size_end, ck_skip, ck_almost_done.
  change (mem_at [c] 0) with c.
  destruct st; repeat case_match; intros Hok'; try done; simplify_eq;
    try (specialize (Hok' _ _ eq_refl)); unfold least_left;
    rewrite ?ck_expects_no_wrap by done; zify_bool; try lia;
    try (destruct Hok; cbn in *; repeat case_match; zify_bool; lia).
  - select (ck_hex _ = Some _) (fun H => apply ck_hex_range in H). case_match; zify_bool; lia.
  - select (ck_hex _ = Some _) (fun H => apply ck_hex_range in H). destruct Hok as [? _]. cbn in *.
    repeat case_match; zify_bool; lia.
  - unfold ck_enter. rewrite decide_True by done. destruct (Z.eqb_spec (size - 1) 0); lia.
Qed.

Lemma least_left_bound s bs data rest :
  ck_ok s -> ck_stream s bs = SDone data rest ->
  least_left s <= Z.of_nat (length bs) - Z.of_nat (length rest).
Proof.
  revert s data. induction bs as [|c bs IH]; intros s data Hok; cbn [ck_stream length]; [done|].
  pose proof (least_left_step s c Hok) as Hstep.
  destruct (ck_byte s c) as [s' d| |] eqn:Eb; [| |done].
  - apply ck_byte_ok in Eb; [|done].
    destruct (ck_stream s' bs) as [|d' rest'|] eqn:E; [done| |done]. intros [= <- <-].
    specialize (IH s' d' Eb E). lia.
  - intros [= <- <-]. lia.
Qed.

(** A shortest way to end the body. *)
Definition completion (s : ck_sw * Z) : list Z :=
  let chunk := repeat 0 (Z.to_nat s.2) ++ [LF] ++ B! "0" ++ [LF; LF] in
  match s.1 with
  | sw_chunk_start => B! "0" ++ [LF; LF]
  | sw_chunk_size => if s.2 =? 0 then [LF; LF] else [LF] ++ chunk
  | sw_chunk_extension | sw_chunk_extension_almost_done => [LF] ++ chunk
  | sw_chunk_data => chunk
  | sw_after_data | sw_after_data_almost_done => [LF] ++ B! "0" ++ [LF; LF]
  | sw_trailer | sw_trailer_almost_done => [LF]
  | _ => [LF; LF]
  end.

Lemma completion_chunk size :
  0 < size <= ck_max ->
  ck_stream (sw_chunk_data, size) (repeat 0 (Z.to_nat size) ++ [LF] ++ B! "0" ++ [LF; LF]) =
  SDone (repeat 0 (Z.to_nat size)) [].
Proof.
  intros H. rewrite (ck_stream_data size _ (Z.to_nat size));
    [|rewrite length_app, repeat_length; lia|lia|lia].
  rewrite take_app_length', drop_app_length' by (by rewrite repeat_length).
  replace (size - Z.of_nat (Z.to_nat size)) with 0 by lia.
  change (ck_stream (ck_enter sw_chunk_data 0, 0) _) with (SDone [] []).
  cbn. by rewrite app_nil_r.
Qed.

Lemma completion_done s :
  ck_ok s ->
  exists data, ck_stream s (completion s) = SDone data [] /\
    Z.of_nat (length (completion s)) = least_left s.
Proof.
  intros Hok. destruct s as [st size]. pose proof Hok as [H1 H2]. cbn in H1, H2.
  assert (Hl : length (repeat 0 (Z.to_nat size) ++ [LF] ++ B! "0" ++ [LF; LF]) =
    (Z.to_nat size + 4)%nat) by (rewrite length_app, repeat_length; done).
  assert (Hstep : forall st', ck_byte (st, size) LF = BNext (st', size) [] ->
    forall bs, ck_stream (st, size) (LF :: bs) = ck_stream (st', size) bs).
  { intros st' E bs. cbn [ck_stream]. by rewrite E, stream_cons_nil. }
  unfold completion, least_left. cbn [fst snd].
  destruct st; rewrite ?ck_expects_no_wrap by done; try (by eexists);
    try (specialize (H2 eq_refl)).
  - destruct (Z.eqb_spec size 0) as [->|Hs]; [by eexists|]. cbn [app length].
    rewrite (Hstep sw_chunk_data), completion_chunk; [|lia|destruct size; [lia|done|lia]].
    eexists. split; [done|]. cbn [app] in Hl. rewrite Hl. lia.
  - cbn [app length]. rewrite (Hstep sw_chunk_data), completion_chunk; [|lia|done].
    eexists. split; [done|]. cbn [app] in Hl. rewrite Hl. lia.
  - cbn [app length]. rewrite (Hstep sw_chunk_data), completion_chunk; [|lia|done].
    eexists. split; [done|]. cbn [app] in Hl. rewrite Hl. lia.
  - rewrite completion_chunk by lia. eexists. split; [done|]. rewrite Hl. lia.
Qed.

(** The length that the parser asks for is the least number of bytes with
    which the body can end, in every state but one: after a digit of a non-zero
    chunk size it is one byte more than that. *)
Theorem chunked_expects_least (s : ck_sw * Z) :
  ck_ok s ->
  (forall bs data rest, ck_stream s bs = SDone data rest ->
     least_left s <= Z.of_nat (length bs) - Z.of_nat (length rest)) /\
  (exists bs data, ck_stream s bs = SDone data [] /\ Z.of_nat (length bs) = least_left s) /\
  ck_expects s.1 s.2 =
  least_left s + (if decide (s.1 = sw_chunk_size /\ s.2 <> 0) then 1 else 0).
Proof.
  intros Hok. split_and!.
  - intros bs data rest. by apply least_left_bound.
  - exists (completion s). by apply completion_done.
  - destruct s as [st size]. cbn [fst snd]. unfold least_left.
    destruct st; rewrite ?ck_expects_no_wrap by done; repeat case_decide; try case_match;
      zify_bool; first [lia|exfalso; intuition congruence].
Qed.

Lemma chunked_expects_least_witness :
  let s := (sw_chunk_size, 5) in
  (forall bs data rest, ck_stream s bs = SDone data rest ->
     least_left s <= Z.of_nat (length bs) - Z.of_nat (length rest)) /\
  (exists bs data, ck_stream s bs = SDone data [] /\ Z.of_nat (length bs) = least_left s) /\
  ck_expects sw_chunk_size 5 =
  least_left s + (if decide (sw_chunk_size = sw_chunk_size /\ 5 <> 0) then 1 else 0).
Proof.
  apply (chunked_expects_least (sw_chunk_size, 5)). split; vm_compute; [|discriminate].
  split; discriminate.
Defined.

(** A size of more than sixteen digits wraps: the parser reads 2^64 + 5 as 5. *)
Example chunked_size_wraps :
  ngx_http_parse_chunked (B! "10000000000000005" ++ [LF] ++ B! "hello") 0 23
    {| ck_state := sw_chunk_start; ck_size := 0; ck_length := 0 |} =
  (NGX_OK, 18, {| ck_state := sw_chunk_data; ck_size := 5; ck_length := 9 |}).
Proof. by vm_compute. Qed.

(** ** The limit on the size of a body *)

Lemma body_buf_limit fuel max b rb b' rb' :
  max <> 0 -> content_length_n rb <= max -> body_buf fuel max b rb = BodyOk b' rb' ->
  content_length_n rb' <= max.
Proof.
  intros Hmax. revert b rb. induction fuel as [|fuel IH]; intros b rb Hle; [done|].
  cbn [body_buf]. destruct (ngx_http_parse_chunked _ _ _ _) as [[rc pos] ctx].
  rewrite (proj2 (Z.eqb_neq max 0)) by done. cbn [negb andb].
  destruct (rc =? 0).
  - destruct (Z.ltb_spec (max - content_length_n rb) (ck_size ctx)); [done|].
    apply IH. cbn. case_match; zify_bool; lia.
  - destruct (rc =? -4); [by intros [= <- <-]|]. destruct (rc =? -2); [by intros [= <- <-]|done].
Qed.

(** With a limit on the size of a body, a request body that the filter
    accepts, in one or several calls, never counts more bytes than the limit. *)
Theorem chunked_body_limit (max : Z) (chain chain' : list cbuf) (rb rb' : body) :
  0 < max -> content_length_n rb <= max ->
  ngx_http_request_body_chunked_filter max chain rb = inr (chain', rb') ->
  content_length_n rb' <= max.
Proof.
  intros Hmax Hle. unfold ngx_http_request_body_chunked_filter.
  assert (content_length_n (body_enter rb) <= max) as Hle'.
  { unfold body_enter. case_match; cbn; lia. }
  revert Hle'. generalize (body_enter rb). clear Hle rb. revert chain'.
  induction chain as [|b chain IH]; intros chain' rb Hle; cbn [body_chain];
    [by intros [= <- <-]|].
  destruct (body_buf _ _ _ _) as [b1 rb1| |] eqn:E; [|done..].
  apply body_buf_limit in E; [|lia|done].
  destruct (body_chain max chain rb1) as [|[bs rb2]] eqn:Ec; [done|]. intros [= <- <-].
  by eapply IH.
Qed.

Lemma chunked_body_limit_witness :
  let rb := {| rb_rest := -1;
               rb_chunked := {| ck_state := sw_chunk_start; ck_size := 0; ck_length := 0 |};
               content_length_n := -1; rb_bufs := [] |} in
  let mem := B! "3" ++ [LF] ++ B! "abc" ++ [LF] in
  let chain := [{| cb_mem := mem; cb_pos := 0; cb_last := 6 |}] in
  exists chain' rb', ngx_http_request_body_chunked_filter 4 chain rb = inr (chain', rb') /\
    content_length_n rb' <= 4.
Proof.
  intros rb mem chain. eexists _, _. split; [reflexivity|].
  eapply (chunked_body_limit 4 chain _ rb); [lia|cbn; lia|reflexivity].
Defined.
