(* ===== verification/HttpChunkedText.v ===== *)
(** * The text of a chunked body

    The grammar of the chunked transfer coding as the request body filter of
    src/nginx-1.4.7/src/http/ngx_http_request_body.c reads it, stated without
    the states of the parser, and the theorem that the filter decodes every text
    of the grammar, however it is cut into buffers and calls. *)
From S2P Require Import Prelude HttpChars HttpRequestLine NgxNumber NgxSprintf HttpChunked.

(** ** The grammar *)

(** The end of a line. *)
Definition eol (e : list Z) : Prop := e = [LF] \/ e = [CR; LF].

(** A part of a line. *)
Definition no_eol (l : list Z) : Prop := Forall (fun c => c <> CR /\ c <> LF) l.

(** The hexadecimal digit [c] has the value [d]. *)
Definition hex_char (c d : Z) : Prop :=
  0 <= d < 16 /\ (nth_error (B! "0123456789abcdef") (Z.to_nat d) = Some c \/
                  nth_error (B! "0123456789ABCDEF") (Z.to_nat d) = Some c).

(** A size line: digits, perhaps an extension, and the end of the line. *)
Inductive size_line (n : Z) : list Z -> Prop :=
| size_line_intro t ds ext e :
    Forall2 hex_char t ds -> ds <> [] -> base_value 16 0 ds = n ->
    ext = [] \/ (exists c l, ext = c :: l /\ (c = C! ";" \/ c = C! " " \/ c = 9) /\ no_eol l) ->
    eol e -> size_line n (t ++ ext ++ e).

(** Lines that are not empty, and an empty one. *)
Inductive trailer : list Z -> Prop :=
| trailer_end e : eol e -> trailer e
| trailer_line l e t : l <> [] -> no_eol l -> eol e -> trailer t -> trailer (l ++ e ++ t).

(** A text and the bytes that it encodes: chunks, each a size line, its data and
    the end of a line before which anything but such an end is skipped; then a size
    line with 0 and the trailer. *)
Inductive chunked_text : list Z -> list Z -> Prop :=
| chunked_last line t : size_line 0 line -> trailer t -> chunked_text (line ++ t) []
| chunked_chunk line data junk e text rest :
    size_line (Z.of_nat (length data)) line -> 0 < Z.of_nat (length data) <= ck_max ->
    no_eol junk -> eol e -> chunked_text text rest ->
    chunked_text (line ++ data ++ junk ++ e ++ text) (data ++ rest).

(** ** The decoder reads the grammar *)

Lemma hex_char_value c d : hex_char c d -> ck_hex c = Some d.
Proof.
  intros [Hd H]. pose proof (in_range 0 16 d ltac:(lia)) as Hin. cbn in Hin.
  repeat (destruct Hin as [<-|Hin]; [by destruct H as [[= <-]|[= <-]]|]). done.
Qed.

Lemma hex_range t ds : Forall2 hex_char t ds -> Forall (fun d => 0 <= d < 16) ds.
Proof. induction 1 as [|c d t ds [H _] _ IH]; by constructor. Qed.

Ltac skip_state :=
  let c := fresh "c" in
  intros c; unfold ck_byte, ck_step, ck_skip; change (mem_at [c] 0) with c;
  by destruct (c =? CR), (c =? LF).

(** A state that skips up to the end of the line. *)
Lemma stream_skip st cr next size l e rest :
  (forall c, ck_byte (st, size) c =
     if c =? CR then BNext (cr, size) [] else if c =? LF then BNext (next, size) [] else BNext (st, size) []) ->
  ck_byte (cr, size) LF = BNext (next, size) [] -> no_eol l -> eol e ->
  ck_stream (st, size) (l ++ e ++ rest) = ck_stream (next, size) rest.
Proof.
  intros Hst Hcr Hl He. induction Hl as [|c l [H1 H2] _ IH]; cbn [app].
  - destruct He as [-> | ->]; cbn [app ck_stream]; rewrite Hst.
    + change (LF =? CR) with false. change (LF =? LF) with true. cbv iota. apply stream_cons_nil.
    + change (CR =? CR) with true. cbv iota. by rewrite Hcr, !stream_cons_nil.
  - cbn [ck_stream]. rewrite Hst. decide_tests. by rewrite stream_cons_nil.
Qed.

Lemma stream_digits t ds v rest :
  Forall2 hex_char t ds -> 0 <= v -> base_value 16 v ds <= ck_max ->
  ck_stream (sw_chunk_size, v) (t ++ rest) = ck_stream (sw_chunk_size, base_value 16 v ds) rest.
Proof.
  intros H. revert v. induction H as [|c d t ds Hc H IH]; intros v Hv Hmax; [done|].
  cbn [app ck_stream ck_byte]. rewrite (hex_char_value c d Hc).
  pose proof (hex_range _ _ H) as Hds. destruct Hc as [Hd _]. cbn [base_value foldl] in Hmax.
  pose proof (base_value_ge (v * 16 + d) ds ltac:(lia) Hds). unfold base_value in *.
  rewrite (proj2 (Z.leb_le _ _)) by lia. rewrite stream_cons_nil. by apply IH; [lia|].
Qed.

(** The state after the line of a size. *)
Definition after_size (n : Z) : ck_sw := if n =? 0 then sw_trailer else sw_chunk_data.

Lemma size_cr n : 0 <= n -> exists cr, ck_byte (sw_chunk_size, n) CR = BNext (cr, n) [] /\ ck_byte (cr, n) LF = BNext (after_size n, n) [].
Proof. intros Hn. destruct n as [|n|n]; [by eexists|by eexists|done]. Qed.

Lemma size_ext n c : 0 <= n -> c = C! ";" \/ c = C! " " \/ c = 9 ->
  exists st cr, ck_byte (sw_chunk_size, n) c = BNext (st, n) [] /\
    (forall c', ck_byte (st, n) c' = if c' =? CR then BNext (cr, n) []
       else if c' =? LF then BNext (after_size n, n) [] else BNext (st, n) []) /\
    ck_byte (cr, n) LF = BNext (after_size n, n) [].
Proof.
  intros Hn Hc. destruct n as [|n|n]; [| |done].
  - exists sw_last_chunk_extension, sw_last_chunk_extension_almost_done.
    split; [by destruct Hc as [->|[->| ->]]|]. split; [|done].
    skip_state.
  - exists sw_chunk_extension, sw_chunk_extension_almost_done.
    split; [by destruct Hc as [->|[->| ->]]|]. split; [|done].
    skip_state.
Qed.

Lemma stream_size_line n line size rest :
  size_line n line -> n <= ck_max ->
  ck_stream (sw_chunk_start, size) (line ++ rest) = ck_stream (after_size n, n) rest.
Proof.
  intros [t ds ext e Ht Hne Hv Hext He] Hmax. destruct Ht as [|c d t ds Hc Ht]; [done|].
  rewrite <- !app_assoc. cbn [app ck_stream ck_byte ck_step].
  rewrite mem_at_cons_0, (hex_char_value c d Hc), stream_cons_nil.
  change (base_value 16 0 (d :: ds)) with (base_value 16 d ds) in Hv. pose proof Hc as [Hd _].
  rewrite (stream_digits t ds d) by (done || lia). rewrite Hv.
  assert (Hn : 0 <= n) by (rewrite <- Hv; pose proof (base_value_ge d ds ltac:(lia) (hex_range _ _ Ht)); lia).
  clear Hv Hc Ht Hd Hne. destruct Hext as [->|(s & l & -> & Hs & Hl)].
  - assert (E1 : ck_byte (sw_chunk_size, n) LF = BNext (after_size n, n) []) by (by destruct n).
    destruct (size_cr n Hn) as (cr & E2 & E3).
    destruct He as [-> | ->]; cbn [app ck_stream]; [by rewrite E1, stream_cons_nil|].
    by rewrite E2, E3, !stream_cons_nil.
  - destruct (size_ext n s Hn Hs) as (st & cr & E1 & E2 & E3). cbn [app ck_stream].
    rewrite E1, stream_cons_nil. by apply (stream_skip _ cr).
Qed.

Lemma stream_trailer t size rest : trailer t -> ck_stream (sw_trailer, size) (t ++ rest) = SDone [] rest.
Proof.
  induction 1 as [e He|l e t Hne Hl He _ IH]; [by destruct He as [-> | ->]|].
  destruct Hl as [|c l [H1 H2] Hl]; [done|]. rewrite <- !app_assoc, <- IH. cbn [app ck_stream].
  assert (E : ck_byte (sw_trailer, size) c = BNext (sw_trailer_header, size) []).
  { unfold ck_byte, ck_step. change (mem_at [c] 0) with c. by decide_tests. }
  rewrite E, stream_cons_nil. by apply (stream_skip _ sw_trailer_header_almost_done); [skip_state|..].
Qed.

(** The decoder reads a text, and stops after it. *)
Lemma stream_text text data size rest :
  chunked_text text data -> ck_stream (sw_chunk_start, size) (text ++ rest) = SDone data rest.
Proof.
  intros H. revert size. induction H as [line t Hs Ht|line data junk e text more Hs Hn Hj He _ IH]; intros size.
  - rewrite <- app_assoc, (stream_size_line 0) by (done || vm_compute; discriminate).
    by apply stream_trailer.
  - rewrite <- !app_assoc, (stream_size_line (Z.of_nat (length data))) by (done || lia).
    unfold after_size. rewrite (proj2 (Z.eqb_neq _ _)) by lia.
    rewrite (ck_stream_data _ _ (length data)) by (rewrite ?length_app; lia).
    rewrite take_app_length, drop_app_length, Z.sub_diag.
    change (ck_enter sw_chunk_data 0) with sw_after_data.
    rewrite (stream_skip _ sw_after_data_almost_done sw_chunk_start); [|skip_state|done..].
    by rewrite IH.
Qed.

(** ** The filter decodes the grammar *)

(** Calls of the filter, each with a chain, as long as they succeed. *)
Fixpoint filter_calls (calls : list (list cbuf)) (rb : body) : body_answer + body :=
  match calls with
  | [] => inr rb
  | chain :: calls =>
      match ngx_http_request_body_chunked_filter 0 chain rb with
      | inl e => inl e
      | inr (_, rb) => filter_calls calls rb
      end
  end.

Lemma filter_calls_app calls1 calls2 rb :
  filter_calls (calls1 ++ calls2) rb =
  match filter_calls calls1 rb with inl e => inl e | inr rb => filter_calls calls2 rb end.
Proof.
  revert rb. induction calls1 as [|c calls1 IH]; intros rb; cbn [app filter_calls]; [done|].
  destruct (ngx_http_request_body_chunked_filter 0 c rb) as [|[c' rb1]]; [done|]. apply IH.
Qed.

Lemma ck_expects_pos s : ck_ok s -> 0 < ck_expects s.1 s.2.
Proof.
  destruct s as [st size]. intros Hok. cbn [fst snd]. rewrite ck_expects_no_wrap by done.
  destruct Hok as [H _]. cbn in H. destruct st; try lia. case_match; lia.
Qed.

Lemma ck_expects_least s : ck_ok s -> ck_expects s.1 s.2 <= least_left s + 1.
Proof.
  destruct s as [st size]. intros Hok. cbn [fst snd]. unfold least_left.
  destruct st; try lia. rewrite ck_expects_no_wrap by done. case_match; lia.
Qed.

Lemma enter_again rb : 0 <= rb_rest rb -> body_enter rb = rb.
Proof. intros H. unfold body_enter. by rewrite (proj2 (Z.eqb_neq _ _)) by lia. Qed.

(** Calls that do not end the body. *)
Lemma calls_more calls bsss rb s data :
  Forall2 (Forall2 cb_holds) calls bsss -> body_ready rb ->
  ck_stream (ctx_state (rb_chunked (body_enter rb))) (concat (map (@concat Z) bsss)) = SMore s data ->
  exists rb', filter_calls calls rb = inr rb' /\ body_ready rb' /\
    body_after (body_enter rb) (body_enter rb') (SMore s data).
Proof.
  intros Hcalls. revert rb data. induction Hcalls as [|chain bss calls bsss Hc _ IH]; intros rb data Hr E.
  - injection E as <- <-. exists rb. split_and!; [done|done|].
    apply body_enter_ready in Hr as [Hok Hrest]. cbn. rewrite app_nil_r. split_and!; try done. lia.
  - cbn [map concat] in E. rewrite ck_stream_app in E.
    destruct (ck_stream _ (concat bss)) as [s1 d1| |] eqn:E1; [|done..].
    pose proof (body_enter_ready rb Hr) as [Hok Hrest].
    destruct (body_chain_more chain bss (body_enter rb) s1 d1 Hc Hok Hrest E1) as (chain' & rb1 & Ef & Ha).
    cbn [filter_calls]. unfold ngx_http_request_body_chunked_filter. rewrite Ef.
    pose proof Ha as (Es & Hs & Hr1 & _). pose proof (ck_expects_ok s1 Hs).
    destruct (ck_stream s1 (concat (map (@concat Z) bsss))) as [s2 d2| |] eqn:E2; [|done..].
    injection E as <- <-. rewrite <- Es in E2. rewrite <- (enter_again rb1) in E2 at 1 by lia.
    destruct (IH rb1 d2) as (rb' & E' & Hr' & Ha'); [right; by rewrite Es|done|].
    exists rb'. split_and!; [done|done|]. rewrite (enter_again rb1) in Ha' by lia.
    by apply (body_after_trans _ rb1 _ s1 d1 (SMore s2 d2)).
Qed.

(** The last of several calls. *)
Lemma calls_last calls bsss chain bss b bs rb s data :
  Forall2 (Forall2 cb_holds) calls bsss -> Forall2 cb_holds chain bss -> cb_holds b bs -> body_ready rb ->
  let s0 := ctx_state (rb_chunked (body_enter rb)) in
  let before := concat (map (@concat Z) bsss) ++ concat bss in
  ck_stream s0 before = SMore s data -> ck_stream s bs <> SBad ->
  exists rb1 chain' rb', filter_calls calls rb = inr rb1 /\
    ngx_http_request_body_chunked_filter 0 (chain ++ [b]) rb1 =
      inr (chain' ++ [{| b with cb_pos := cb_last b - Z.of_nat (length (unread (ck_stream s bs))) |}], rb') /\
    body_after (body_enter rb) rb' (ck_stream s0 (before ++ bs)).
Proof.
  intros Hcalls Hchain Hb Hready s0 before E Hbad. pose proof E as E'. unfold before in E'. rewrite ck_stream_app in E'.
  destruct (ck_stream s0 (concat (map (@concat Z) bsss))) as [s1 d1| |] eqn:E1; [|done..].
  destruct (calls_more calls bsss rb s1 d1 Hcalls Hready E1) as (rb1 & Ef & Hr1 & Ha1).
  destruct (ck_stream s1 (concat bss)) as [s2 d2| |] eqn:E2; [|done..]. injection E' as -> <-.
  pose proof Ha1 as (Es1 & _). rewrite <- Es1 in E2.
  destruct (chunked_filter_spec chain bss b bs rb1 s d2 Hr1 Hchain Hb E2 Hbad) as (chain' & rb' & Eg & Ha2).
  exists rb1, chain', rb'. split_and!; [done|done|]. rewrite ck_stream_app, E.
  rewrite ck_stream_app, E2 in Ha2. pose proof (body_after_trans _ _ _ _ _ _ Ha1 Ha2) as Ha.
  by rewrite stream_cons_cons in Ha.
Qed.

(** C27: a text of the grammar of the chunked coding, with chunks of at most
    2^63 - 7 bytes, that is cut in any way into buffers and calls of the filter,
    without a limit on the size of the body: when the last call gets the rest of
    the text, perhaps with bytes after it, the filter has put exactly the bytes
    that the text encodes into the buffers of the body, which it ends, and has
    left the bytes after the text unread; before that no call fails or ends the
    body, what is decoded is a beginning of the encoded bytes, and [rb->rest] is
    positive and at most one more than the number of bytes of the text that are
    missing. *)
Theorem chunked_filter_refines (text data : list Z) (calls : list (list cbuf))
    (bsss : list (list (list Z))) (chain : list cbuf) (bss : list (list Z)) (b : cbuf) (bs : list Z)
    (rb : body) :
  chunked_text text data -> Forall2 (Forall2 cb_holds) calls bsss -> Forall2 cb_holds chain bss ->
  cb_holds b bs -> rb_rest rb = -1 ->
  let before := concat (map (@concat Z) bsss) ++ concat bss in
  (forall rest, before ++ bs = text ++ rest -> (length before < length text)%nat ->
   exists rb1 chain' rb', filter_calls calls rb = inr rb1 /\
     ngx_http_request_body_chunked_filter 0 (chain ++ [b]) rb1 =
       inr (chain' ++ [{| b with cb_pos := cb_last b - Z.of_nat (length rest) |}], rb') /\
     body_bytes rb' = body_bytes rb ++ data /\ body_ended rb' = true /\ rb_rest rb' = 0) /\
  (forall missing, before ++ bs ++ missing = text -> missing <> [] ->
   exists rb' got todo, filter_calls (calls ++ [chain ++ [b]]) rb = inr rb' /\
     data = got ++ todo /\ body_bytes rb' = body_bytes rb ++ got /\ body_ended rb' = body_ended rb /\
     0 < rb_rest rb' <= Z.of_nat (length missing) + 1).
Proof.
  intros Htext Hcalls Hchain Hb Hrb before.
  assert (Hready : body_ready rb) by (by left).
  assert (Hs0 : ctx_state (rb_chunked (body_enter rb)) = (sw_chunk_start, 0)) by (unfold body_enter; by rewrite Hrb).
  assert (Hbytes : body_bytes (body_enter rb) = body_bytes rb /\ body_ended (body_enter rb) = body_ended rb)
    by (unfold body_enter; by rewrite Hrb).
  destruct Hbytes as [Hbytes Hended]. split.
  - intros rest Ecut Hlen. pose proof (stream_text text data 0 rest Htext) as E. rewrite <- Ecut in E.
    pose proof E as E'. rewrite ck_stream_app in E'.
    destruct (ck_stream _ before) as [s d|d r|] eqn:E1; [| |done].
    2: { exfalso. injection E' as _ E'. apply (f_equal length) in E', Ecut. rewrite !length_app in *. lia. }
    destruct (calls_last calls bsss chain bss b bs rb s d Hcalls Hchain Hb Hready) as (rb1 & chain' & rb' & Ef & Eg & Ha).
    { by rewrite Hs0. } { intros E2. by rewrite E2 in E'. }
    destruct (ck_stream s bs) as [s3 d3|d3 r3|]; [done| |done]. injection E' as _ ->.
    fold before in Ha. rewrite Hs0, E in Ha. destruct Ha as (H1 & H2 & H3 & _). rewrite Hbytes in H2.
    by exists rb1, chain', rb'.
  - intros missing Ecut Hne. pose proof (stream_text text data 0 [] Htext) as E. rewrite app_nil_r in E.
    rewrite <- Ecut, (app_assoc before), ck_stream_app in E.
    destruct (ck_stream _ (before ++ bs)) as [s d|d r|] eqn:E1; [| |done].
    2: { injection E as _ E. by apply app_eq_nil in E as [_ ?]. }
    pose proof E1 as E2. rewrite ck_stream_app in E2.
    destruct (ck_stream _ before) as [s' d'| |] eqn:E3; [|done..].
    destruct (calls_last calls bsss chain bss b bs rb s' d' Hcalls Hchain Hb Hready) as (rb1 & chain' & rb' & Ef & Eg & Ha).
    { by rewrite Hs0. } { intros E4. by rewrite E4 in E2. }
    fold before in Ha. rewrite Hs0, E1 in Ha. destruct Ha as (_ & Hok & Hr & H2 & H3 & _).
    destruct (ck_stream s missing) as [|d2 r2|] eqn:E5; [done| |done]. injection E as <- ->.
    exists rb', d, d2. rewrite filter_calls_app, Ef. cbn [filter_calls]. rewrite Eg, H2, H3, Hbytes, Hended, Hr.
    split_and!; [done..|by apply ck_expects_pos|]. pose proof (least_left_bound s missing d2 [] Hok E5) as Hl. cbn in Hl.
    pose proof (ck_expects_least s Hok). lia.
Qed.

(** ** Samples *)

Definition sample_text : list Z :=
  B! "3;x" ++ [LF] ++ B! "abc" ++ [CR; LF] ++ B! "0" ++ [CR; LF] ++ B! "T: 1" ++ [LF; LF].

Lemma sample_chunked_text : chunked_text sample_text (B! "abc").
Proof.
  apply (chunked_chunk (B! "3;x" ++ [LF]) (B! "abc") [] [CR; LF]
           (B! "0" ++ [CR; LF] ++ B! "T: 1" ++ [LF; LF]) []).
  - apply (size_line_intro _ (B! "3") [3] (B! ";x") [LF]); [|done|done| |by left].
    + constructor; [|constructor]. split; [lia|by left].
    + right. exists (C! ";"), (B! "x"). split_and!; [done|by left|]. by repeat constructor.
  - vm_compute. split; [reflexivity|discriminate].
  - constructor.
  - by right.
  - apply (chunked_last (B! "0" ++ [CR; LF])).
    + apply (size_line_intro _ (B! "0") [0] [] [CR; LF]); [|done|done|by left|by right].
      constructor; [|constructor]. split; [lia|by left].
    + apply (trailer_line (B! "T: 1") [LF] [LF]); [done|by repeat constructor|by left|].
      constructor. by left.
Qed.

Definition sample_body : body :=
  {| rb_rest := -1; rb_chunked := {| ck_state := sw_chunk_start; ck_size := 0; ck_length := 0 |};
     content_length_n := -1; rb_bufs := [] |}.

Lemma chunked_filter_refines_witness :
  let mem := sample_text ++ B! "GET" in
  let call := [{| cb_mem := mem; cb_pos := 0; cb_last := 2 |}] in
  let first := {| cb_mem := mem; cb_pos := 2; cb_last := 5 |} in
  let b := {| cb_mem := mem; cb_pos := 5; cb_last := 21 |} in
  exists rb1 chain' rb', filter_calls [call] sample_body = inr rb1 /\
    ngx_http_request_body_chunked_filter 0 ([first] ++ [b]) rb1 =
      inr (chain' ++ [{| b with cb_pos := cb_last b - Z.of_nat (length (B! "GET")) |}], rb') /\
    body_bytes rb' = body_bytes sample_body ++ B! "abc" /\ body_ended rb' = true /\ rb_rest rb' = 0.
Proof.
  intros mem call first b.
  assert (Hh : forall i n, (i + n <= length mem)%nat ->
    cb_holds {| cb_mem := mem; cb_pos := Z.of_nat i; cb_last := Z.of_nat (i + n) |} (take n (drop i mem))).
  { intros i n Hi. assert (Hl : length (take n (drop i mem)) = n) by (rewrite length_take, length_drop; lia).
    unfold cb_holds. cbn [cb_pos cb_last cb_mem]. rewrite Hl. split_and!; [lia|lia|lia|].
    pose proof (mem_has_whole (take i mem) (take n (drop i mem)) (drop n (drop i mem))) as H.
    rewrite take_drop, take_drop, length_take, Nat.min_l in H by lia. exact H. }
  apply (chunked_filter_refines sample_text (B! "abc") [call] [[take 2 mem]] [first] [take 3 (drop 2 mem)]
           b (take 16 (drop 5 mem)) sample_body).
  - exact sample_chunked_text.
  - constructor; [|constructor]. constructor; [|constructor]. apply (Hh 0%nat 2%nat). vm_compute. lia.
  - constructor; [|constructor]. apply (Hh 2%nat 3%nat). vm_compute. lia.
  - apply (Hh 5%nat 16%nat). vm_compute. lia.
  - reflexivity.
  - reflexivity.
  - vm_compute. lia.
Defined.
