(* ===== verification/HttpStatusLine.v ===== *)
(** * The status line parser

    [ngx_http_parse_status_line] of src/nginx-1.4.7/src/http/ngx_http_parse.c,
    which reads the status line of an upstream server. *)
From S2P Require Import Prelude HttpChars NgxNumber.

Module SL.

(** [http/ngx_http_parse.c:1572-1586] the states of the parser *)
Inductive sl_sw : Type :=
| sw_start | sw_H | sw_HT | sw_HTT | sw_HTTP | sw_first_major_digit | sw_major_digit
| sw_first_minor_digit | sw_minor_digit | sw_status | sw_space_after_status | sw_status_text
| sw_almost_done.

End SL.
Import SL.

(** [ngx_http_status_t], with the fields of the request that the parser uses.
    [http/ngx_http.h:70-76] ngx_http_status_t *)
Record status_line : Type := {
  sl_state : sl_sw;
  sl_major : Z;
  sl_minor : Z;
  sl_version : Z;
  sl_code : Z;
  sl_count : Z;
  sl_start : ptr;
  sl_end : ptr
}.

Inductive sl_exit : Type := SlDone | SlError.

Abbreviation sl_action := (action status_line sl_exit).

(** One letter of the protocol name.
    [http/ngx_http_parse.c:1595-1604] case sw_start *)
Definition sl_expect (c : Z) (next : sl_sw) (ch : Z) (s : status_line) : sl_action :=
  if ch =? c then Next {| s with sl_state := next |} else Exit SlError s.

(** [http/ngx_http_parse.c:1646-1668] the major version *)
Definition sl_sw_major (ch : Z) (first : bool) (s : status_line) : sl_action :=
  if first then
    if (ch <? C! "1") || (C! "9" <? ch) then Exit SlError s
    else Next {| s with sl_major := u16 (ch - C! "0"); sl_state := sw_major_digit |}
  else if ch =? C! "." then Next {| s with sl_state := sw_first_minor_digit |}
  else if (ch <? C! "0") || (C! "9" <? ch) then Exit SlError s
  else Next {| s with sl_major := u16 (sl_major s * 10 + ch - C! "0") |}.

(** [http/ngx_http_parse.c:1670-1692] the minor version *)
Definition sl_sw_minor (ch : Z) (first : bool) (s : status_line) : sl_action :=
  if first then
    if (ch <? C! "0") || (C! "9" <? ch) then Exit SlError s
    else Next {| s with sl_minor := u16 (ch - C! "0"); sl_state := sw_minor_digit |}
  else if ch =? C! " " then Next {| s with sl_state := sw_status |}
  else if (ch <? C! "0") || (C! "9" <? ch) then Exit SlError s
  else Next {| s with sl_minor := u16 (sl_minor s * 10 + ch - C! "0") |}.

(** [http/ngx_http_parse.c:1694-1711] case sw_status *)
Definition sl_sw_status (p ch : Z) (s : status_line) : sl_action :=
  if ch =? C! " " then Next s
  else if (ch <? C! "0") || (C! "9" <? ch) then Exit SlError s
  else
    let s := {| s with sl_code := u64 (sl_code s * 10 + ch - C! "0");
                       sl_count := u64 (sl_count s + 1) |} in
    if sl_count s =? 3 then
      Next {| s with sl_state := sw_space_after_status; sl_start := Some (p - 2) |}
    else Next s.

(** [http/ngx_http_parse.c:1713-1730] case sw_space_after_status *)
Definition sl_sw_space_after_status (ch : Z) (s : status_line) : sl_action :=
  if ch =? C! " " then Next {| s with sl_state := sw_status_text |}
  else if ch =? C! "." then Next {| s with sl_state := sw_status_text |}
  else if ch =? CR then Next {| s with sl_state := sw_almost_done |}
  else if ch =? LF then Exit SlDone s
  else Exit SlError s.

(** [http/ngx_http_parse.c:1732-1742] case sw_status_text *)
Definition sl_sw_status_text (ch : Z) (s : status_line) : sl_action :=
  if ch =? CR then Next {| s with sl_state := sw_almost_done |}
  else if ch =? LF then Exit SlDone s
  else Next s.

(** [http/ngx_http_parse.c:1744-1752] case sw_almost_done *)
Definition sl_sw_almost_done (p ch : Z) (s : status_line) : sl_action :=
  let s := {| s with sl_end := Some (p - 1) |} in
  if ch =? LF then Exit SlDone s else Exit SlError s.

(** [http/ngx_http_parse.c:1590-1754] switch (state) *)
Definition sl_step (mem : list Z) (p : Z) (s : status_line) : sl_action :=
  let ch := mem_at mem p in
  match sl_state s with
  | sw_start => sl_expect (C! "H") sw_H ch s
  | sw_H => sl_expect (C! "T") sw_HT ch s
  | sw_HT => sl_expect (C! "T") sw_HTT ch s
  | sw_HTT => sl_expect (C! "P") sw_HTTP ch s
  | sw_HTTP => sl_expect (C! "/") sw_first_major_digit ch s
  | sw_first_major_digit => sl_sw_major ch true s
  | sw_major_digit => sl_sw_major ch false s
  | sw_first_minor_digit => sl_sw_minor ch true s
  | sw_minor_digit => sl_sw_minor ch false s
  | sw_status => sl_sw_status p ch s
  | sw_space_after_status => sl_sw_space_after_status ch s
  | sw_status_text => sl_sw_status_text ch s
  | sw_almost_done => sl_sw_almost_done p ch s
  end.

(** [http/ngx_http_parse.c:1761-1772] done *)
Definition sl_done (p : Z) (s : status_line) : status_line :=
  {| s with sl_end := (match sl_end s with None => Some p | e => e end);
            sl_version := u64 (sl_major s * 1000 + sl_minor s);
            sl_state := sw_start |}.

(** The return code, [b->pos] and the status; [pos] is unchanged after an
    error, and so is [r->state].
    [http/ngx_http_parse.c:1566-1773] ngx_http_parse_status_line *)
Definition ngx_http_parse_status_line (mem : list Z) (pos last : Z) (s : status_line)
    : Z * Z * status_line :=
  match for_loop (sl_step mem) (Z.to_nat (last - pos)) pos s with
  | Ran p s' => (NGX_AGAIN, p, s')
  | Broke SlDone p s' => (NGX_OK, p + 1, sl_done p s')
  | Broke SlError p s' => (NGX_ERROR, pos, {| s' with sl_state := sl_state s |})
  end.

(** The status that [ngx_http_proxy_process_status_line] starts with. *)
Definition sl_fresh : status_line := {|
  sl_state := sw_start; sl_major := 0; sl_minor := 0; sl_version := 0; sl_code := 0;
  sl_count := 0; sl_start := NULL; sl_end := NULL |}.

(** ** Properties *)

(** A status line as servers print it. *)
Definition print_status_line (major minor code text : list Z) : list Z :=
  B! "HTTP/" ++ major ++ B! "." ++ minor ++ B! " " ++ code ++ B! " " ++ text ++ [CR; LF].

Definition no_eol (c : Z) : Prop := c <> CR /\ c <> LF.

(** A run of digits folded into a 16-bit field. *)
Lemma sl_u16_step v k d : u16 (u16 v * k + d) = u16 (v * k + d).
Proof.
  unfold u16. rewrite <- (Zplus_mod_idemp_l (v mod 2 ^ 16 * k)), Zmult_mod_idemp_l.
  by rewrite Zplus_mod_idemp_l.
Qed.

Section Roundtrip.
Context (mem : list Z).

Lemma sl_major_digits ds : forall p m v s,
  mem_has mem p ds -> Forall dec_digit ds -> sl_state s = sw_major_digit -> sl_major s = u16 v ->
  for_loop (sl_step mem) (length ds + m) p s =
  for_loop (sl_step mem) m (p + Z.of_nat (length ds))
    {| s with sl_major := u16 (dec_value v ds) |}.
Proof.
  induction ds as [|c ds IH]; intros p m v s Hmem Hds Hst Hv.
  - unfold dec_value. cbn [length Nat.add foldl]. rewrite Z.add_0_r, <- Hv. by destruct s.
  - apply mem_has_cons in Hmem as [Hc Hmem]. apply Forall_cons in Hds as [Hd Hds].
    unfold dec_digit in Hd. cbn [length Nat.add].
    rewrite (for_loop_next _ _ _ _ {| s with sl_major := u16 (v * 10 + (c - C! "0")) |}).
    + rewrite (IH _ _ (v * 10 + (c - C! "0"))) by done. cbn. f_equal; [lia].
    + unfold sl_step. rewrite Hst, Hc. unfold sl_sw_major. decide_tests.
      rewrite Hv. by rewrite <- Z.add_sub_assoc, sl_u16_step, ?Hst.
Qed.

Lemma sl_minor_digits ds : forall p m v s,
  mem_has mem p ds -> Forall dec_digit ds -> sl_state s = sw_minor_digit -> sl_minor s = u16 v ->
  for_loop (sl_step mem) (length ds + m) p s =
  for_loop (sl_step mem) m (p + Z.of_nat (length ds))
    {| s with sl_minor := u16 (dec_value v ds) |}.
Proof.
  induction ds as [|c ds IH]; intros p m v s Hmem Hds Hst Hv.
  - unfold dec_value. cbn [length Nat.add foldl]. rewrite Z.add_0_r, <- Hv. by destruct s.
  - apply mem_has_cons in Hmem as [Hc Hmem]. apply Forall_cons in Hds as [Hd Hds].
    unfold dec_digit in Hd. cbn [length Nat.add].
    rewrite (for_loop_next _ _ _ _ {| s with sl_minor := u16 (v * 10 + (c - C! "0")) |}).
    + rewrite (IH _ _ (v * 10 + (c - C! "0"))) by done. cbn. f_equal; [lia].
    + unfold sl_step. rewrite Hst, Hc. unfold sl_sw_minor. decide_tests.
      rewrite Hv. by rewrite <- Z.add_sub_assoc, sl_u16_step, ?Hst.
Qed.

(** A byte that the current state expects. *)
Lemma sl_run1 c st next p m s :
  mem_at mem p = c -> sl_state s = st -> sl_step mem p s = Next {| s with sl_state := next |} ->
  for_loop (sl_step mem) (S m) p s =
  for_loop (sl_step mem) m (p + 1) {| s with sl_state := next |}.
Proof. intros _ _ E. by apply for_loop_next. Qed.

Lemma sl_http p m s :
  mem_has mem p (B! "HTTP/") -> sl_state s = sw_start ->
  for_loop (sl_step mem) (S (S (S (S (S m))))) p s =
  for_loop (sl_step mem) m (p + 5) {| s with sl_state := sw_first_major_digit |}.
Proof.
  intros Hmem Hst. rewrite !mem_has_cons in Hmem. destruct Hmem as (H0 & H1 & H2 & H3 & H4 & _).
  rewrite (sl_run1 _ _ sw_H) by (done || by unfold sl_step; rewrite Hst, H0).
  rewrite (sl_run1 _ _ sw_HT) by (done || by unfold sl_step; cbn; rewrite H1).
  rewrite (sl_run1 _ _ sw_HTT) by (done || by unfold sl_step; cbn; rewrite H2).
  rewrite (sl_run1 _ _ sw_HTTP) by (done || by unfold sl_step; cbn; rewrite H3).
  rewrite (sl_run1 _ _ sw_first_major_digit) by (done || by unfold sl_step; cbn; rewrite H4).
  f_equal. lia.
Qed.

(** The three digits of the code. *)
Lemma sl_code_digits c1 c2 c3 p m s :
  mem_has mem p [c1; c2; c3] -> Forall dec_digit [c1; c2; c3] -> sl_state s = sw_status ->
  sl_code s = 0 -> sl_count s = 0 ->
  for_loop (sl_step mem) (S (S (S m))) p s =
  for_loop (sl_step mem) m (p + 3)
    {| s with sl_state := sw_space_after_status; sl_code := dec_value 0 [c1; c2; c3];
              sl_count := 3; sl_start := Some p |}.
Proof.
  intros Hmem Hds Hst Hc Hn. rewrite !mem_has_cons in Hmem. destruct Hmem as (H1 & H2 & H3 & _).
  rewrite !Forall_cons in Hds. destruct Hds as (D1 & D2 & D3 & _). unfold dec_digit in *.
  assert (Hu : forall z, 0 <= z < 1000 -> u64 z = z) by (intros; unfold u64; rewrite Z.mod_small; lia).
  rewrite (for_loop_next _ _ _ _ {| s with sl_code := c1 - 48; sl_count := 1 |}).
  2: { unfold sl_step. rewrite Hst, H1. unfold sl_sw_status. decide_tests. cbn.
       rewrite Hn, Hc, !Hu by lia. decide_tests. by rewrite ?Hst. }
  rewrite (for_loop_next _ _ _ _ {| s with sl_code := (c1 - 48) * 10 + (c2 - 48); sl_count := 2 |}).
  2: { unfold sl_step. cbn. rewrite Hst, H2. unfold sl_sw_status. decide_tests. cbn.
       rewrite !Hu by lia. decide_tests. rewrite Z.add_sub_assoc. by rewrite ?Hst. }
  rewrite (for_loop_next _ _ _ _ {| s with sl_state := sw_space_after_status;
    sl_code := dec_value 0 [c1; c2; c3]; sl_count := 3; sl_start := Some p |}); [f_equal; lia|].
  unfold sl_step. cbn. rewrite Hst, H3. unfold sl_sw_status. decide_tests. cbn.
  rewrite !Hu by lia. decide_tests. do 2 f_equal; [unfold dec_value; cbn; lia|f_equal; lia].
Qed.

Lemma sl_text text p m s :
  mem_has mem p text -> Forall no_eol text -> sl_state s = sw_status_text ->
  for_loop (sl_step mem) (length text + m) p s =
  for_loop (sl_step mem) m (p + Z.of_nat (length text)) s.
Proof.
  intros Hmem Htext Hst. apply for_loop_stay. intros q Hq.
  pose proof (mem_has_Forall no_eol mem p text q Hmem Htext Hq) as [H1 H2].
  unfold sl_step. rewrite Hst. unfold sl_sw_status_text. by decide_tests.
Qed.
End Roundtrip.
(** The loop on a printed status line. *)
Lemma status_line_run mem pos d1 major e1 minor c1 c2 c3 text m :
  let line := print_status_line (d1 :: major) (e1 :: minor) [c1; c2; c3] text in
  Forall dec_digit (d1 :: major) -> d1 <> C! "0" -> Forall dec_digit (e1 :: minor) ->
  Forall dec_digit [c1; c2; c3] -> Forall no_eol text -> mem_has mem pos line ->
  for_loop (sl_step mem) (length line + m) pos sl_fresh =
  Broke SlDone (pos + Z.of_nat (length line) - 1)
    {| sl_fresh with sl_state := sw_almost_done;
         sl_major := u16 (dec_value (d1 - C! "0") major);
         sl_minor := u16 (dec_value (e1 - C! "0") minor);
         sl_code := dec_value 0 [c1; c2; c3]; sl_count := 3;
         sl_start := Some (pos + Z.of_nat (length line - length text - 6));
         sl_end := Some (pos + Z.of_nat (length line) - 2) |}.
Proof.
  intros line Hmaj Hd1' Hmin Hcode Htext Hmem.
  apply Forall_cons in Hmaj as [Hd1 Hmaj]. apply Forall_cons in Hmin as [He1 Hmin].
  unfold dec_digit in Hd1, He1.
  assert (Hline : length line = (5 + (1 + (length major + (1 + (1 + (length minor + (1 + (3 + (1 +
    (length text + 2)))))))))) %nat).
  { unfold line, print_status_line. cbn [app length]. rewrite !length_app. cbn [length].
    rewrite !length_app. cbn [length]. rewrite !length_app. cbn [length]. lia. }
  rewrite Hline, <- !Nat.add_assoc. unfold line, print_status_line in Hmem.
  rewrite !mem_has_app in Hmem. cbn [length] in Hmem.
  destruct Hmem as (M1 & M2 & M3 & M4 & M5 & M6 & M7 & M8 & M9).
  apply mem_has_cons in M2 as [M2 M2']. apply mem_has_cons in M4 as [M4 M4'].
  apply mem_has_cons in M3 as [M3 _]. apply mem_has_cons in M5 as [M5 _].
  apply mem_has_cons in M7 as [M7 _]. rewrite !mem_has_cons in M9. destruct M9 as (M9 & M10 & _).
  set (p2 := pos + 5). set (p3 := p2 + 1 + Z.of_nat (length major)).
  set (p5 := p3 + 1 + 1 + Z.of_nat (length minor)). set (p8 := p5 + 1 + 3 + 1).
  set (p9 := p8 + Z.of_nat (length text)).
  assert (N2 : mem_at mem p2 = d1) by (rewrite <- M2; f_equal; lia).
  assert (N3 : mem_at mem p3 = C! ".") by (rewrite <- M3; f_equal; lia).
  assert (N4 : mem_at mem (p3 + 1) = e1) by (rewrite <- M4; f_equal; lia).
  assert (N5 : mem_at mem p5 = C! " ") by (rewrite <- M5; f_equal; lia).
  assert (N7 : mem_at mem (p5 + 1 + 3) = C! " ") by (rewrite <- M7; f_equal; lia).
  assert (N9 : mem_at mem p9 = CR) by (rewrite <- M9; f_equal; lia).
  assert (N10 : mem_at mem (p9 + 1) = LF) by (rewrite <- M10; f_equal; lia).
  cbn [Nat.add]. rewrite sl_http by done. fold p2.
  rewrite (for_loop_next _ _ _ _ {| sl_fresh with sl_state := sw_major_digit;
    sl_major := u16 (d1 - C! "0") |}).
  2: { unfold sl_step. cbn. rewrite N2. unfold sl_sw_major. by decide_tests. }
  rewrite (sl_major_digits mem major _ _ (d1 - C! "0")) by done. fold p3.
  rewrite (sl_run1 mem _ _ sw_first_minor_digit) by (done || by unfold sl_step; cbn; rewrite N3).
  rewrite (for_loop_next _ _ _ _ {| sl_fresh with sl_state := sw_minor_digit;
    sl_major := u16 (dec_value (d1 - C! "0") major); sl_minor := u16 (e1 - C! "0") |}).
  2: { unfold sl_step. cbn. rewrite N4. unfold sl_sw_minor. by decide_tests. }
  rewrite (sl_minor_digits mem minor _ _ (e1 - C! "0")); [|by replace (p3 + 1 + 1) with
    (pos + Z.of_nat 5 + Z.of_nat (S (length major)) + Z.of_nat 1 + 1) by lia|done..].
  fold p5.
  rewrite (sl_run1 mem _ _ sw_status) by (done || by unfold sl_step; cbn; rewrite N5).
  rewrite (sl_code_digits mem c1 c2 c3); [| |done..].
  2: { replace (p5 + 1) with (pos + Z.of_nat 5 + Z.of_nat (S (length major)) + Z.of_nat 1 +
         Z.of_nat (S (length minor)) + Z.of_nat 1) by lia. done. }
  rewrite (sl_run1 mem _ _ sw_status_text) by (done || by unfold sl_step; cbn; rewrite N7).
  fold p8. rewrite (sl_text mem text); [|by replace p8 with (pos + Z.of_nat 5 +
    Z.of_nat (S (length major)) + Z.of_nat 1 + Z.of_nat (S (length minor)) + Z.of_nat 1 +
    Z.of_nat 3 + Z.of_nat 1) by lia|done..].
  fold p9.
  rewrite (sl_run1 mem _ _ sw_almost_done) by (done || by unfold sl_step; cbn; rewrite N9).
  erewrite for_loop_exit; [|unfold sl_step; cbn; rewrite N10; reflexivity].
  f_equal; [lia|]. f_equal; [cbn [sl_start]|]; f_equal; lia.
Qed.

(** Parsing a printed status line gives back its version, its code and,
    between [start] and [end], the code and the text, and consumes exactly the
    line; the two version numbers are kept modulo 2^16, the width of the
    bit-fields of the request. *)
Theorem status_line_roundtrip (pre major minor code text post : list Z) :
  Forall dec_digit major -> head major <> Some (C! "0") -> major <> [] ->
  Forall dec_digit minor -> minor <> [] -> Forall dec_digit code -> length code = 3%nat ->
  Forall no_eol text ->
  let line := print_status_line major minor code text in
  let pos := Z.of_nat (length pre) in
  exists s st en,
    ngx_http_parse_status_line (pre ++ line ++ post) pos
      (Z.of_nat (length (pre ++ line ++ post))) sl_fresh =
      (NGX_OK, pos + Z.of_nat (length line), s) /\
    sl_version s = u16 (dec_value 0 major) * 1000 + u16 (dec_value 0 minor) /\
    sl_code s = dec_value 0 code /\ sl_state s = sw_start /\
    sl_start s = Some st /\ sl_end s = Some en /\
    slice (pre ++ line ++ post) st en = code ++ B! " " ++ text.
Proof.
  intros Hmaj Hmaj0 Hmajn Hmin Hminn Hcode Hclen Htext line pos.
  set (mem := pre ++ line ++ post).
  destruct major as [|d1 major]; [done|]. destruct minor as [|e1 minor]; [done|].
  destruct code as [|c1 [|c2 [|c3 [|]]]]; try done.
  pose proof (mem_has_whole pre line post) as Hmem. fold mem pos in Hmem.
  assert (Hlen : Z.of_nat (length mem) = pos + Z.of_nat (length line) + Z.of_nat (length post))
    by (unfold mem, pos; rewrite !length_app; lia).
  unfold ngx_http_parse_status_line.
  replace (Z.to_nat (Z.of_nat (length mem) - pos)) with (length line + length post)%nat by lia.
  pose proof (status_line_run mem pos d1 major e1 minor c1 c2 c3 text (length post)) as Hrun.
  cbv zeta in Hrun. fold line in Hrun.
  rewrite Hrun by (done || (intros ->; by apply Hmaj0)).
  eexists _, _, _. split_and!; [do 2 f_equal; lia| |done|done|done|done|].
  - cbn. unfold u64. rewrite Z.mod_small; [done|].
    assert (Hu : forall z, 0 <= u16 z < 2 ^ 16) by (intros; apply Z.mod_pos_bound; lia).
    pose proof (Hu (dec_value (d1 - 48) major)). pose proof (Hu (dec_value (e1 - 48) minor)). lia.
  - set (front := B! "HTTP/" ++ (d1 :: major) ++ B! "." ++ (e1 :: minor) ++ B! " ").
    set (status := [c1; c2; c3] ++ B! " " ++ text).
    assert (El : line = front ++ status ++ [CR; LF]).
    { unfold line, print_status_line, front, status. by rewrite <- !app_assoc. }
    rewrite El, !mem_has_app in Hmem. destruct Hmem as (_ & Hmem & _).
    assert (length status = (4 + length text)%nat) by done.
    assert (length line = (length front + length status + 2)%nat)
      by (rewrite El, !length_app; cbn [length]; lia).
    replace (pos + Z.of_nat (length line - length text - 6)) with (pos + Z.of_nat (length front)) by lia.
    replace (pos + Z.of_nat (length line) - 2)
      with (pos + Z.of_nat (length front) + Z.of_nat (length status)) by lia.
    apply mem_has_slice; [lia|lia|done].
Qed.

Lemma status_line_roundtrip_witness :
  let line := print_status_line (B! "1") (B! "1") (B! "404") (B! "Not Found") in
  exists s st en,
    ngx_http_parse_status_line ([] ++ line ++ B! "Server: x") 0
      (Z.of_nat (length ([] ++ line ++ B! "Server: x"))) sl_fresh =
      (NGX_OK, 0 + Z.of_nat (length line), s) /\
    sl_version s = u16 (dec_value 0 (B! "1")) * 1000 + u16 (dec_value 0 (B! "1")) /\
    sl_code s = dec_value 0 (B! "404") /\ sl_state s = sw_start /\
    sl_start s = Some st /\ sl_end s = Some en /\
    slice ([] ++ line ++ B! "Server: x") st en = B! "404" ++ B! " " ++ B! "Not Found".
Proof.
  apply (status_line_roundtrip [] (B! "1") (B! "1") (B! "404") (B! "Not Found") (B! "Server: x"));
    try discriminate; try reflexivity; repeat constructor; unfold dec_digit, no_eol; lia.
Defined.

(** ** Suspension and safety *)

(** The parser as an invariant of its loop: [pos] is where the line begins. *)
Definition sl_inv (pos p : Z) (s : status_line) : Prop :=
  sl_end s = NULL /\
  match sl_state s with
  | sw_space_after_status | sw_status_text | sw_almost_done =>
      0 <= sl_code s < 1000 /\
      exists st, sl_start s = Some st /\ pos <= st /\
        st + 3 + match sl_state s with sw_almost_done => 1 | _ => 0 end <= p
  | sw_status =>
      (sl_count s = 0 /\ sl_code s = 0 \/ sl_count s = 1 /\ 0 <= sl_code s < 10 \/
       sl_count s = 2 /\ 0 <= sl_code s < 100) /\ pos + sl_count s <= p
  | _ => sl_count s = 0 /\ sl_code s = 0 /\ pos <= p
  end.

Lemma sl_inv_step mem pos q s s' :
  sl_inv pos q s -> sl_step mem q s = Next s' -> sl_inv pos (q + 1) s'.
Proof.
  intros [He Hs]. assert (Hu : forall z, 0 <= z < 1000 -> u64 z = z)
    by (intros; unfold u64; rewrite Z.mod_small; lia).
  unfold sl_step, sl_expect, sl_sw_major, sl_sw_minor, sl_sw_space_after_status,
    sl_sw_status_text, sl_sw_almost_done, sl_sw_status.
  destruct (sl_state s) eqn:Est; repeat case_match; intros E; simplify_eq; unfold sl_inv; cbn in *;
    rewrite ?Est; split; try done; zify_bool; try lia.
  1,2: destruct Hs as [Hs Hp]; rewrite !Hu in * by lia.
  1: split; [lia|]; exists (q - 2); split_and!; (done || lia).
  1: lia.
  all: destruct Hs as (? & st & ? & ? & ?); split; [done|]; exists st; split_and!; (done || lia).
Qed.

(** When the parser accepts a status line, the code has at most three
    digits and the bytes between [start] and [end], which the upstream modules
    copy, are a non-empty part of the bytes consumed. *)
Theorem status_line_accepted (mem : list Z) (pos last p : Z) (s : status_line) :
  ngx_http_parse_status_line mem pos last sl_fresh = (NGX_OK, p, s) ->
  0 <= sl_code s <= 999 /\
  exists st en, sl_start s = Some st /\ sl_end s = Some en /\
    pos <= st /\ st + 3 <= en /\ en < p /\ p <= last.
Proof.
  unfold ngx_http_parse_status_line.
  pose proof (for_loop_inv (sl_step mem) (sl_inv pos) (Z.to_nat (last - pos)) pos sl_fresh) as H.
  destruct (for_loop _ _ _ _) as [|[] p' s']; [done| |done]. intros [= <- <-].
  destruct H as (Hp & s0 & [He Hs] & E).
  { split; [done|]. cbn. lia. }
  { intros q s1 s2 _ HI Hstep. by eapply sl_inv_step. }
  revert E. unfold sl_step, sl_expect, sl_sw_major, sl_sw_minor, sl_sw_space_after_status,
    sl_sw_status_text, sl_sw_almost_done, sl_sw_status.
  destruct (sl_state s0) eqn:Est; repeat case_match; intros E; simplify_eq; cbn in *;
    destruct Hs as (? & st & Est' & ? & ?); rewrite ?He; (split; [lia|]);
    eexists st, _; split_and!; (done || lia).
Qed.

(** Suspending the parser with [NGX_AGAIN] at any point of the buffer and
    calling it again for the rest gives the answer of one call. *)
Theorem status_line_resume (mem : list Z) (pos mid last p : Z) (s s' : status_line) :
  pos <= mid <= last -> ngx_http_parse_status_line mem pos mid s = (NGX_AGAIN, p, s') ->
  let a := ngx_http_parse_status_line mem pos last s in
  let b := ngx_http_parse_status_line mem p last s' in
  a.1.1 = b.1.1 /\ (a.1.1 <> NGX_ERROR -> a = b).
Proof.
  intros Hle. unfold ngx_http_parse_status_line.
  replace (Z.to_nat (last - pos)) with (Z.to_nat (mid - pos) + Z.to_nat (last - mid))%nat by lia.
  rewrite for_loop_add.
  pose proof (for_loop_inv (sl_step mem) (fun _ _ => True) (Z.to_nat (mid - pos)) pos s) as H.
  destruct (for_loop _ (Z.to_nat (mid - pos)) pos s) as [q t|[] q t]; [|done..].
  intros [= <- <-]. destruct H as [Hq _]; [done|done|].
  replace mid with q by lia. by destruct (for_loop _ _ q t) as [|[]].
Qed.

Lemma status_line_resume_witness :
  let mem := B! "HTTP/1.1 302" ++ [CR; LF] in
  exists p s', ngx_http_parse_status_line mem 0 7 sl_fresh = (NGX_AGAIN, p, s') /\
  let a := ngx_http_parse_status_line mem 0 14 sl_fresh in
  let b := ngx_http_parse_status_line mem p 14 s' in
  a.1.1 = b.1.1 /\ (a.1.1 <> NGX_ERROR -> a = b).
Proof.
  intros mem.
  assert (E : (ngx_http_parse_status_line mem 0 7 sl_fresh).1.1 = NGX_AGAIN) by reflexivity.
  destruct (ngx_http_parse_status_line mem 0 7 sl_fresh) as [[rc p] s] eqn:E2.
  cbn in E. subst rc. exists p, s. split; [reflexivity|].
  apply (status_line_resume mem 0 7 14 p sl_fresh s); [lia|exact E2].
Defined.

(** Spaces between the digits of the code are skipped. *)
Example status_spaces :
  (ngx_http_parse_status_line (B! "HTTP/1.1 4 0 4" ++ [LF]) 0 15 sl_fresh).2.(sl_code) = 404.
Proof. by vm_compute. Qed.
