(* ===== verification/NgxStrings.v ===== *)
(** * Comparing and searching strings

    The string functions of src/nginx-1.4.7/src/core/ngx_string.c.  A pointer
    into a string is the list of the bytes that follow it; a NUL follows the
    last byte of the list. *)
From S2P Require Import Prelude.

(** ** Definitions *)

(** The byte that a pointer points to, and the next pointer. *)
Definition byte (s : list Z) : Z := hd 0 s.

(** [(c >= 'A' && c <= 'Z') ? (c | 0x20) : c]
    [core/ngx_string.c:573-574] case folding *)
Definition fold_case (c : Z) : Z :=
  if (C! "A" <=? c) && (c <=? C! "Z") then Z.lor c 0x20 else c.

(** What is written to [dst], the terminating NUL included.
    [core/ngx_string.c:30-51] ngx_cpystrn *)
Fixpoint ngx_cpystrn (src : list Z) (n : nat) : list Z :=
  match n with
  | O => []
  | S O => [0]
  | S n' => if byte src =? 0 then [0] else byte src :: ngx_cpystrn (tl src) n'
  end.

(** [core/ngx_string.c:564-587] ngx_strcasecmp *)
Fixpoint ngx_strcasecmp (s1 s2 : list Z) : Z :=
  let c1 := fold_case (byte s1) in
  let c2 := fold_case (byte s2) in
  if c1 =? c2 then
    if negb (c1 =? 0) then
      match s1 with [] => 0 | _ :: s1' => ngx_strcasecmp s1' (tl s2) end
    else 0
  else c1 - c2.

(** [core/ngx_string.c:590-616] ngx_strncasecmp *)
Fixpoint ngx_strncasecmp (s1 s2 : list Z) (n : nat) : Z :=
  match n with
  | O => 0
  | S n' =>
      let c1 := fold_case (byte s1) in
      let c2 := fold_case (byte s2) in
      if c1 =? c2 then
        if negb (c1 =? 0) then ngx_strncasecmp (tl s1) (tl s2) n' else 0
      else c1 - c2
  end.

(** [strncmp] of the C library. *)
Fixpoint strncmp (s1 s2 : list Z) (n : nat) : Z :=
  match n with
  | O => 0
  | S n' =>
      if byte s1 =? byte s2 then
        if byte s1 =? 0 then 0 else strncmp (tl s1) (tl s2) n'
      else byte s1 - byte s2
  end.

(** The two nested loops, [off] being the offset of [s1] from the beginning and
    [c2], [s2] the first character of the substring and the others.
    [core/ngx_string.c:629-647] do *)
Fixpoint strnstr_loop (c2 : Z) (s2 : list Z) (n : nat) (s1 : list Z) (len : nat) (off : Z)
    : option Z :=
  match len with
  | O => None
  | S len' =>
      let c1 := byte s1 in
      if c1 =? 0 then None
      else if negb (c1 =? c2) then strnstr_loop c2 s2 n (tl s1) len' (off + 1)
      else if (len' <? n)%nat then None
      else if strncmp (tl s1) s2 n =? 0 then Some off
      else strnstr_loop c2 s2 n (tl s1) len' (off + 1)
  end.

(** [strlen] of the C library. *)
Fixpoint strlen (s : list Z) : nat :=
  match s with
  | [] => O
  | c :: s' => if c =? 0 then O else S (strlen s')
  end.

(** The offset of the substring that is found.
    [core/ngx_string.c:619-650] ngx_strnstr *)
Definition ngx_strnstr (s1 s2 : list Z) (len : nat) : option Z :=
  strnstr_loop (byte s2) (tl s2) (strlen (tl s2)) s1 len 0.

(** [core/ngx_string.c:666-676] do *)
Fixpoint strstrn_loop (c2 : Z) (s2 : list Z) (n : nat) (s1 : list Z) (off : Z) : option Z :=
  match s1 with
  | [] => None
  | c1 :: s1' =>
      if c1 =? 0 then None
      else if (c1 =? c2) && (strncmp s1' s2 n =? 0) then Some off
      else strstrn_loop c2 s2 n s1' (off + 1)
  end.

(** [core/ngx_string.c:659-679] ngx_strstrn *)
Definition ngx_strstrn (s1 s2 : list Z) (n : nat) : option Z :=
  strstrn_loop (byte s2) (tl s2) n s1 0.

(** [core/ngx_string.c:690-702] do *)
Fixpoint strcasestrn_loop (c2 : Z) (s2 : list Z) (n : nat) (s1 : list Z) (off : Z) : option Z :=
  match s1 with
  | [] => None
  | c1 :: s1' =>
      if c1 =? 0 then None
      else if (fold_case c1 =? c2) && (ngx_strncasecmp s1' s2 n =? 0) then Some off
      else strcasestrn_loop c2 s2 n s1' (off + 1)
  end.

(** [core/ngx_string.c:682-705] ngx_strcasestrn *)
Definition ngx_strcasestrn (s1 s2 : list Z) (n : nat) : option Z :=
  strcasestrn_loop (fold_case (byte s2)) (tl s2) n s1 0.

(** [count] is [last - n - s1].
    [core/ngx_string.c:723-735] do *)
Fixpoint strlcasestrn_loop (c2 : Z) (s2 : list Z) (n : nat) (s1 : list Z) (count : nat) (off : Z)
    : option Z :=
  match count with
  | O => None
  | S count' =>
      if (fold_case (byte s1) =? c2) && (ngx_strncasecmp (tl s1) s2 n =? 0) then Some off
      else strlcasestrn_loop c2 s2 n (tl s1) count' (off + 1)
  end.

(** [len] is [last - s1].
    [core/ngx_string.c:714-738] ngx_strlcasestrn *)
Definition ngx_strlcasestrn (s1 : list Z) (len : Z) (s2 : list Z) (n : nat) : option Z :=
  strlcasestrn_loop (fold_case (byte s2)) (tl s2) n s1 (Z.to_nat (len - Z.of_nat n)) 0.

(** [core/ngx_string.h:65-78] ngx_strlchr *)
Fixpoint ngx_strlchr (s : list Z) (len : nat) (c : Z) (off : Z) : option Z :=
  match len with
  | O => None
  | S len' => if byte s =? c then Some off else ngx_strlchr (tl s) len' c (off + 1)
  end.

(** The loop from index [n] down.
    [core/ngx_string.c:741-761] ngx_rstrncmp *)
Fixpoint ngx_rstrncmp (s1 s2 : list Z) (n : nat) : Z :=
  match n with
  | O => 0
  | S n' =>
      if negb (mem_at s1 (Z.of_nat n') =? mem_at s2 (Z.of_nat n'))
      then mem_at s1 (Z.of_nat n') - mem_at s2 (Z.of_nat n')
      else ngx_rstrncmp s1 s2 n'
  end.

(** [core/ngx_string.c:776-784] upper case *)
Definition fold_upper (c : Z) : Z :=
  if (C! "a" <=? c) && (c <=? C! "z") then u8 (c - (C! "a" - C! "A")) else c.

(** [core/ngx_string.c:764-796] ngx_rstrncasecmp *)
Fixpoint ngx_rstrncasecmp (s1 s2 : list Z) (n : nat) : Z :=
  match n with
  | O => 0
  | S n' =>
      let c1 := fold_upper (mem_at s1 (Z.of_nat n')) in
      let c2 := fold_upper (mem_at s2 (Z.of_nat n')) in
      if negb (c1 =? c2) then c1 - c2 else ngx_rstrncasecmp s1 s2 n'
  end.

(** [memcmp] of the C library. *)
Fixpoint memcmp (s1 s2 : list Z) (n : nat) : Z :=
  match n with
  | O => 0
  | S n' => if byte s1 =? byte s2 then memcmp (tl s1) (tl s2) n' else byte s1 - byte s2
  end.

(** [core/ngx_string.c:799-821] ngx_memn2cmp *)
Definition ngx_memn2cmp (s1 s2 : list Z) (n1 n2 : nat) : Z :=
  let '(n, z) := if (n1 <=? n2)%nat then (n1, -1) else (n2, 1) in
  let m := memcmp s1 s2 n in
  if negb (m =? 0) || (n1 =? n2)%nat then m else z.

(** [core/ngx_string.c:824-852] ngx_dns_strcmp *)
Fixpoint ngx_dns_strcmp (s1 s2 : list Z) : Z :=
  let c1 := fold_case (byte s1) in
  let c2 := fold_case (byte s2) in
  if c1 =? c2 then
    if negb (c1 =? 0) then
      match s1 with [] => 0 | _ :: s1' => ngx_dns_strcmp s1' (tl s2) end
    else 0
  else
    (if c1 =? C! "." then C! " " else c1) - (if c2 =? C! "." then C! " " else c2).

(** ** Copying *)

(** The bytes of a C string. *)
Definition cstr (s : list Z) : list Z := take (strlen s) s.

(** [ngx_cpystrn] writes at most [n] bytes, always ends what it writes with
    a NUL, and writes the string truncated to [n - 1] bytes. *)
Theorem cpystrn_spec (src : list Z) (n : nat) :
  (0 < n)%nat ->
  ngx_cpystrn src n = take (n - 1) (cstr src) ++ [0] /\ (length (ngx_cpystrn src n) <= n)%nat.
Proof.
  intros Hn. assert (H : ngx_cpystrn src n = take (n - 1) (cstr src) ++ [0]).
  { destruct n as [|n]; [lia|]. clear Hn. revert src. induction n as [|n IH]; intros src; [done|].
    change (ngx_cpystrn src (S (S n))) with
      (if byte src =? 0 then [0] else byte src :: ngx_cpystrn (tl src) (S n)).
    destruct src as [|c src]; [done|]. cbn [byte hd tl]. unfold cstr. cbn [strlen].
    destruct (c =? 0); [done|]. rewrite IH. cbn. by rewrite Nat.sub_0_r. }
  split; [done|]. rewrite H, length_app, length_take. cbn. lia.
Qed.

Lemma cpystrn_spec_witness :
  ngx_cpystrn (B! "nginx") 4 = take (4 - 1) (cstr (B! "nginx")) ++ [0] /\
  (length (ngx_cpystrn (B! "nginx") 4) <= 4)%nat.
Proof. apply (cpystrn_spec (B! "nginx") 4). lia. Defined.

(** ** Searching *)

(** [r] is the first of the positions [0 .. count) that satisfy [P]. *)
Definition first_position (P : nat -> Prop) (count : nat) (r : option Z) : Prop :=
  match r with
  | Some z => exists i, z = Z.of_nat i /\ (i < count)%nat /\ P i /\ forall j, (j < i)%nat -> ~ P j
  | None => forall j, (j < count)%nat -> ~ P j
  end.

Lemma first_position_0 (P : nat -> Prop) count : P 0%nat -> first_position P (S count) (Some 0).
Proof. intros. exists 0%nat. split_and!; [done|lia|done|lia]. Qed.

Lemma first_position_S (P : nat -> Prop) count r :
  ~ P 0%nat -> first_position (fun i => P (S i)) count r ->
  first_position P (S count) (Z.succ <$> r).
Proof.
  intros H0 H. destruct r as [z|]; cbn in *.
  - destruct H as (i & -> & Hi & HP & Hmin). exists (S i). split_and!; [lia|lia|done|].
    intros [|j] Hj; [done|]. apply Hmin. lia.
  - intros [|j] Hj; [done|]. apply H. lia.
Qed.

(** The search functions count from an offset. *)
Lemma strnstr_loop_off c2 s2 n s1 len off :
  strnstr_loop c2 s2 n s1 len (off + 1) = Z.succ <$> strnstr_loop c2 s2 n s1 len off.
Proof.
  revert s1 off. induction len as [|len IH]; intros s1 off; cbn; [done|].
  repeat case_match; try done. 
Qed.

Lemma strlcasestrn_loop_off c2 s2 n s1 count off :
  strlcasestrn_loop c2 s2 n s1 count (off + 1) = Z.succ <$> strlcasestrn_loop c2 s2 n s1 count off.
Proof.
  revert s1 off. induction count as [|count IH]; intros s1 off; cbn; [done|].
  repeat case_match; try done.
Qed.

(** [s] begins with [name], up to the case of letters. *)
Definition ci_prefix (name s : list Z) : Prop :=
  map fold_case (take (length name) s) = map fold_case name.

#[global] Instance ci_prefix_dec name s : Decision (ci_prefix name s).
Proof. unfold ci_prefix. apply _. Defined.

Lemma fold_case_0 c : is_byte c -> fold_case c = 0 -> c = 0.
Proof.
  intros Hb. unfold fold_case. case_match; [|done]. zify_bool. intros E.
  apply Z.lor_eq_0_iff in E. lia.
Qed.

Definition no_nul (s : list Z) : Prop := Forall (fun c => is_byte c /\ c <> 0) s.

Lemma strncasecmp_prefix s name :
  no_nul name -> ngx_strncasecmp s name (length name) = 0 <-> ci_prefix name s.
Proof.
  intros H. revert s. induction H as [|c name [Hb Hc] _ IH]; intros s; [done|].
  unfold ci_prefix in *. cbn [length ngx_strncasecmp byte hd tl].
  assert (fold_case c <> 0) by (intros E; by apply Hc, fold_case_0).
  destruct s as [|d s]; cbn [take map byte hd tl].
  - change (fold_case 0) with 0. rewrite (proj2 (Z.eqb_neq _ _)) by done. split; [lia|done].
  - destruct (Z.eqb_spec (fold_case d) (fold_case c)) as [E|E].
    + rewrite E, (proj2 (Z.eqb_neq _ _)) by done. cbn [negb]. rewrite IH.
      split; [by intros ->|by intros [= ?]].
    + split; [lia|]. by intros [= ? ?].
Qed.

Lemma strlcasestrn_loop_first c name s count :
  no_nul (c :: name) ->
  first_position (fun i => ci_prefix (c :: name) (drop i s)) count
    (strlcasestrn_loop (fold_case c) name (length name) s count 0).
Proof.
  intros H. apply Forall_cons in H as [[Hb Hc] Hname].
  revert s. induction count as [|count IH]; intros s; [intros j Hj; lia|].
  cbn [strlcasestrn_loop].
  assert (Hhead : (fold_case (byte s) =? fold_case c) &&
    (ngx_strncasecmp (tl s) name (length name) =? 0) = true <-> ci_prefix (c :: name) s).
  { rewrite andb_true_iff, !Z.eqb_eq, strncasecmp_prefix by done.
    unfold ci_prefix. destruct s as [|d s]; cbn.
    - split; [|done]. intros [E _]. exfalso. by apply Hc, fold_case_0.
    - split; [by intros [-> ->]|by intros [= -> ->]]. }
  destruct (_ && _) eqn:E.
  - apply first_position_0. by apply Hhead.
  - rewrite (strlcasestrn_loop_off _ _ _ _ _ 0). apply first_position_S.
    + intros HP. apply Hhead in HP. congruence.
    + specialize (IH (tl s)). destruct s as [|d s]; cbn [tl drop] in *; [|done].
      destruct (strlcasestrn_loop _ _ _ _ _ _); cbn in *; 
        setoid_rewrite drop_nil in IH; [|done].
      destruct IH as (i & ? & ? & ? & Hmin). exists i. split_and!; try done.
Qed.

(** [ngx_strlcasestrn] returns the first position of a substring in a
    string of [len] bytes, up to the case of letters, and NULL exactly when the
    substring does not occur in it. *)
Theorem strlcasestrn_first (s name : list Z) (len : Z) :
  no_nul name -> name <> [] -> Z.of_nat (length name) <= len ->
  first_position (fun i => ci_prefix name (drop i s)) (S (Z.to_nat len - length name))
    (ngx_strlcasestrn s len name (length name - 1)).
Proof.
  intros Hn Hne Hlen. destruct name as [|c name]; [done|]. unfold ngx_strlcasestrn. cbn [byte hd tl].
  cbn [length] in *. replace (S (length name) - 1)%nat with (length name) by lia.
  replace (S (Z.to_nat len - S (length name))) with (Z.to_nat (len - Z.of_nat (length name))) by lia.
  by apply strlcasestrn_loop_first.
Qed.

Lemma strlcasestrn_first_witness :
  first_position (fun i => ci_prefix (B! "foo") (drop i (B! "barFOO=1"))) (S (Z.to_nat 8 - 3))
    (ngx_strlcasestrn (B! "barFOO=1") 8 (B! "foo") (3 - 1)).
Proof.
  apply (strlcasestrn_first (B! "barFOO=1") (B! "foo") 8);
    [repeat constructor; unfold is_byte; lia|discriminate|vm_compute; discriminate].
Defined.

Lemma strncmp_prefix s name :
  no_nul name -> strncmp s name (length name) = 0 <-> take (length name) s = name.
Proof.
  intros H. revert s. induction H as [|c name [Hb Hc] _ IH]; intros s; [done|].
  cbn [length strncmp byte hd tl]. destruct s as [|d s]; cbn [take byte hd tl].
  - rewrite (proj2 (Z.eqb_neq _ _)) by done. split; [lia|done].
  - destruct (Z.eqb_spec d c) as [->|E].
    + rewrite (proj2 (Z.eqb_neq _ _)) by done. rewrite IH. split; [by intros ->|by intros [= ?]].
    + split; [lia|]. by intros [= ? ?].
Qed.

Lemma strlen_no_nul s : no_nul s -> strlen s = length s.
Proof.
  induction 1 as [|c s [_ Hc] _ IH]; [done|]. cbn. rewrite (proj2 (Z.eqb_neq _ _)) by done.
  by rewrite IH.
Qed.

Lemma strnstr_loop_first c name s len :
  no_nul (c :: name) -> no_nul (take len s) -> (len <= length s)%nat ->
  first_position (fun i => take (S (length name)) (drop i s) = c :: name) (len - length name)
    (strnstr_loop c name (length name) s len 0).
Proof.
  intros H. apply Forall_cons in H as [_ Hname].
  revert s. induction len as [|len IH]; intros s Hs Hlen; [intros j Hj; lia|].
  destruct s as [|d s]; [cbn in Hlen; lia|]. cbn in Hlen.
  cbn [take] in Hs. apply Forall_cons in Hs as [[_ Hd] Hs]. specialize (IH s Hs ltac:(lia)).
  assert (Hnext : d <> c \/ take (length name) s <> name ->
    (length name <= len)%nat ->
    first_position (fun i => take (S (length name)) (drop i (d :: s)) = c :: name)
      (S len - length name) (Z.succ <$> strnstr_loop c name (length name) s len 0)).
  { intros Hne Hle. replace (S len - length name)%nat with (S (len - length name)) by lia.
    apply first_position_S; [|done]. cbn. intros [= E1 E2]. by destruct Hne. }
  assert (Hnone : (len < length name)%nat -> strnstr_loop c name (length name) s len 0 = None).
  { intros Hlt. destruct (strnstr_loop _ _ _ _ _ _); [|done]. destruct IH as (i & _ & Hi & _). lia. }
  cbn [strnstr_loop byte hd tl]. rewrite (proj2 (Z.eqb_neq d 0)) by done.
  destruct (Z.eqb_spec d c) as [->|Hdc]; cbn [negb].
  - destruct (Nat.ltb_spec len (length name)); [intros j Hj; lia|].
    destruct (Z.eqb_spec (strncmp s name (length name)) 0) as [E|E].
    + apply strncmp_prefix in E; [|done].
      replace (S len - length name)%nat with (S (len - length name)) by lia.
      apply first_position_0. cbn. by rewrite E.
    + rewrite (strnstr_loop_off _ _ _ _ _ 0). apply Hnext; [|lia]. right. intros E'.
      by apply E, strncmp_prefix.
  - rewrite (strnstr_loop_off _ _ _ _ _ 0).
    destruct (Nat.le_gt_cases (length name) len); [apply Hnext; auto|].
    rewrite Hnone by lia. intros j Hj. replace j with 0%nat by lia. cbn. intros [= ? ?]. done.
Qed.

(** [ngx_strnstr] returns the first position of a substring in the first
    [len] bytes of a string, and NULL exactly when it does not occur in them. *)
Theorem strnstr_first (s name : list Z) (len : nat) :
  no_nul name -> name <> [] -> no_nul (take len s) -> (len <= length s)%nat ->
  (length name <= len)%nat ->
  first_position (fun i => take (length name) (drop i s) = name) (S (len - length name))
    (ngx_strnstr s name len).
Proof.
  intros Hn Hne Hs Hlen Hfit. destruct name as [|c name]; [done|]. unfold ngx_strnstr.
  cbn [byte hd tl length] in *. rewrite strlen_no_nul by (by apply Forall_cons in Hn as [_ ?]).
  replace (S (len - S (length name))) with (len - length name)%nat by lia.
  by apply strnstr_loop_first.
Qed.

(** ** Comparing *)

Lemma strcasecmp_zero s1 s2 :
  no_nul s1 -> no_nul s2 -> ngx_strcasecmp s1 s2 = 0 <-> map fold_case s1 = map fold_case s2.
Proof.
  intros H1. revert s2. induction H1 as [|c1 s1 [Hb1 Hc1] _ IH]; intros s2 H2.
  - destruct H2 as [|c2 s2 [Hb2 Hc2] _]; [done|]. cbn. change (fold_case 0) with 0.
    assert (fold_case c2 <> 0) by (intros E; by apply Hc2, fold_case_0).
    rewrite (proj2 (Z.eqb_neq _ _)) by done. split; [lia|done].
  - assert (fold_case c1 <> 0) by (intros E; by apply Hc1, fold_case_0).
    destruct H2 as [|c2 s2 [Hb2 Hc2] H2]; cbn [ngx_strcasecmp byte hd tl map].
    + change (fold_case 0) with 0. rewrite (proj2 (Z.eqb_neq _ _)) by done. split; [lia|done].
    + destruct (Z.eqb_spec (fold_case c1) (fold_case c2)) as [E|E].
      * rewrite E in *. rewrite (proj2 (Z.eqb_neq _ _)) by done. cbn [negb]. rewrite IH by done.
        split; [by intros ->|by intros [= ?]].
      * split; [lia|]. by intros [= ? ?].
Qed.

(** Only letters fold to letters. *)
Lemma fold_case_other c d : ~ (C! "a" <= d <= C! "z") -> fold_case c = d -> c = d.
Proof.
  intros Hd. unfold fold_case. case_match; [|done]. zify_bool. intros E. exfalso. apply Hd.
  pose proof (in_range 65 26 c ltac:(lia)) as Hin.
  cbn in Hin. repeat (destruct Hin as [<-|Hin]; [vm_compute in E; lia|]). done.
Qed.

(** The order of domain names differs from the other one only in the place of
    the dot. *)
Lemma dns_strcmp_zero s1 s2 :
  Forall (fun c => c <> C! " ") s1 -> Forall (fun c => c <> C! " ") s2 ->
  ngx_dns_strcmp s1 s2 = 0 <-> ngx_strcasecmp s1 s2 = 0.
Proof.
  assert (Hsp : forall s, Forall (fun c => c <> C! " ") s -> fold_case (byte s) <> C! " ").
  { intros s Hs E. apply fold_case_other in E; [|lia]. destruct Hs; cbn in E; lia. }
  intros H1. revert s2. induction H1 as [|c1 s1 Hc1 H1 IH]; intros s2 H2.
  - cbn. change (fold_case 0) with 0. specialize (Hsp s2 H2). repeat case_match; zify_bool; lia.
  - pose proof (Hsp s2 H2) as Hs2. assert (Hs1 : fold_case (byte (c1 :: s1)) <> 32) by (apply Hsp; by constructor).
    cbn [ngx_dns_strcmp ngx_strcasecmp]. set (a := fold_case (byte (c1 :: s1))) in *.
    set (b := fold_case (byte s2)) in *. destruct (Z.eqb_spec a b).
    + destruct (a =? 0); cbn [negb]; [done|]. apply IH. by destruct H2.
    + repeat case_match; zify_bool; lia.
Qed.

Lemma rstrncmp_zero s1 s2 n :
  (n <= length s1)%nat -> (n <= length s2)%nat ->
  ngx_rstrncmp s1 s2 n = 0 <-> take n s1 = take n s2.
Proof.
  intros H1 H2. induction n as [|n IH]; [done|]. cbn [ngx_rstrncmp].
  destruct (lookup_lt_is_Some_2 s1 n) as [a Ha]; [lia|].
  destruct (lookup_lt_is_Some_2 s2 n) as [b Hb]; [lia|].
  assert (Hm : forall s c, s !! n = Some c -> mem_at s (Z.of_nat n) = c).
  { intros s c Hs. unfold mem_at. rewrite (proj2 (Z.ltb_ge _ _)), Nat2Z.id by lia.
    by apply nth_lookup_Some. }
  rewrite (Hm s1 a), (Hm s2 b) by done. rewrite (take_S_r s1 n a), (take_S_r s2 n b) by done.
  destruct (Z.eqb_spec a b) as [->|Hne]; cbn [negb].
  - rewrite IH by lia. split; [by intros ->|]. intros E. by apply app_inj_tail in E as [? _].
  - split; [lia|]. intros E. by apply app_inj_tail in E as [_ ?].
Qed.

Lemma memcmp_zero s1 s2 n :
  (n <= length s1)%nat -> (n <= length s2)%nat -> memcmp s1 s2 n = 0 <-> take n s1 = take n s2.
Proof.
  revert s1 s2. induction n as [|n IH]; intros s1 s2 H1 H2; [done|].
  destruct s1 as [|a s1]; [cbn in H1; lia|]. destruct s2 as [|b s2]; [cbn in H2; lia|].
  cbn in *. destruct (Z.eqb_spec a b) as [->|Hne].
  - rewrite IH by lia. split; [by intros ->|by intros [= ?]].
  - split; [lia|]. by intros [= ? ?].
Qed.

(** the comparison functions return 0 exactly for equal strings:
    [ngx_strcasecmp] up to the case of letters, [ngx_dns_strcmp] likewise for
    names without spaces, [ngx_rstrncmp] on the first [n] bytes although it
    reads them backwards, and [ngx_memn2cmp] on strings of any two lengths. *)
Theorem comparisons_zero (s1 s2 : list Z) (n : nat) :
  no_nul s1 -> no_nul s2 -> (n <= length s1)%nat -> (n <= length s2)%nat ->
  (ngx_strcasecmp s1 s2 = 0 <-> map fold_case s1 = map fold_case s2) /\
  (Forall (fun c => c <> C! " ") s1 -> Forall (fun c => c <> C! " ") s2 ->
   (ngx_dns_strcmp s1 s2 = 0 <-> map fold_case s1 = map fold_case s2)) /\
  (ngx_rstrncmp s1 s2 n = 0 <-> take n s1 = take n s2) /\
  (ngx_memn2cmp s1 s2 (length s1) (length s2) = 0 <-> s1 = s2).
Proof.
  intros H1 H2 L1 L2. split_and!.
  - by apply strcasecmp_zero.
  - intros. rewrite dns_strcmp_zero by done. by apply strcasecmp_zero.
  - by apply rstrncmp_zero.
  - unfold ngx_memn2cmp. destruct (Nat.leb_spec (length s1) (length s2)) as [H|H].
    + pose proof (memcmp_zero s1 s2 (length s1) ltac:(lia) H) as Hm.
      rewrite take_ge in Hm by lia. destruct (Z.eqb_spec (memcmp s1 s2 (length s1)) 0) as [E|E].
      * rewrite E. destruct (Nat.eqb_spec (length s1) (length s2)) as [El|El]; cbn.
        -- rewrite take_ge in Hm by lia. tauto.
        -- split; [lia|]. intros ->. done.
      * cbn. split; [done|]. intros ->. exfalso. apply E, Hm. by rewrite take_ge.
    + pose proof (memcmp_zero s1 s2 (length s2) ltac:(lia) ltac:(lia)) as Hm.
      destruct (Z.eqb_spec (memcmp s1 s2 (length s2)) 0) as [E|E].
      * rewrite (proj2 (Nat.eqb_neq _ _)) by lia. cbn. split; [lia|]. intros ->. lia.
      * cbn. split; [done|]. intros ->. lia.
Qed.

Lemma comparisons_zero_witness :
  (ngx_strcasecmp (B! "Host") (B! "hosT") = 0 <->
   map fold_case (B! "Host") = map fold_case (B! "hosT")) /\
  (Forall (fun c => c <> C! " ") (B! "Host") -> Forall (fun c => c <> C! " ") (B! "hosT") ->
   (ngx_dns_strcmp (B! "Host") (B! "hosT") = 0 <->
    map fold_case (B! "Host") = map fold_case (B! "hosT"))) /\
  (ngx_rstrncmp (B! "Host") (B! "hosT") 2 = 0 <-> take 2 (B! "Host") = take 2 (B! "hosT")) /\
  (ngx_memn2cmp (B! "Host") (B! "hosT") 4 4 = 0 <-> B! "Host" = B! "hosT").
Proof.
  apply (comparisons_zero (B! "Host") (B! "hosT") 2);
    [repeat constructor; unfold is_byte; lia..|cbn; lia|cbn; lia].
Defined.

(** ** The order of byte strings *)

Fixpoint lex (s1 s2 : list Z) : comparison :=
  match s1, s2 with
  | [], [] => Eq
  | [], _ => Lt
  | _, [] => Gt
  | a :: s1, b :: s2 => match a ?= b with Eq => lex s1 s2 | c => c end
  end.

Lemma lex_eq s1 s2 : lex s1 s2 = Eq <-> s1 = s2.
Proof.
  revert s2; induction s1 as [|a s1 IH]; intros [|b s2]; cbn; try done.
  destruct (Z.compare_spec a b) as [->|H|H]; [|split; [done|intros [= -> ->]; lia]..].
  rewrite IH. split; [by intros ->|by intros [= ->]].
Qed.

Lemma lex_antisym s1 s2 : lex s2 s1 = CompOpp (lex s1 s2).
Proof.
  revert s2; induction s1 as [|a s1 IH]; intros [|b s2]; cbn; try done.
  rewrite (Z.compare_antisym a b). destruct (a ?= b); cbn; [apply IH|done..].
Qed.

Lemma lex_trans s1 s2 s3 : lex s1 s2 <> Gt -> lex s2 s3 <> Gt -> lex s1 s3 <> Gt.
Proof.
  revert s2 s3; induction s1 as [|a s1 IH]; intros [|b s2] [|c s3]; cbn; try done.
  destruct (Z.compare_spec a b), (Z.compare_spec b c), (Z.compare_spec a c); try done || lia. by apply IH.
Qed.

(** [memcmp] and [ngx_memn2cmp] compare in this order. *)
Lemma memcmp_lex s1 s2 n :
  (n <= length s1)%nat -> (n <= length s2)%nat -> (memcmp s1 s2 n ?= 0) = lex (take n s1) (take n s2).
Proof.
  revert s1 s2. induction n as [|n IH]; intros s1 s2 H1 H2; [done|].
  destruct s1 as [|a s1]; [cbn in H1; lia|]. destruct s2 as [|b s2]; [cbn in H2; lia|].
  cbn in *. destruct (Z.eqb_spec a b) as [->|Hne].
  - rewrite Z.compare_refl. apply IH; lia.
  - destruct (Z.compare_spec a b); [done|rewrite Z.compare_lt_iff; lia|rewrite Z.compare_gt_iff; lia].
Qed.

Lemma lex_take s1 s2 n :
  n = Nat.min (length s1) (length s2) ->
  lex s1 s2 = match lex (take n s1) (take n s2) with Eq => Nat.compare (length s1) (length s2) | c => c end.
Proof.
  intros ->. revert s2; induction s1 as [|a s1 IH]; intros [|b s2]; cbn; try done.
  destruct (a ?= b); [apply IH|done..].
Qed.

Lemma memn2cmp_lex s1 s2 n1 n2 :
  (n1 <= length s1)%nat -> (n2 <= length s2)%nat ->
  (ngx_memn2cmp s1 s2 n1 n2 ?= 0) = lex (take n1 s1) (take n2 s2).
Proof.
  intros H1 H2. rewrite (lex_take (take n1 s1) (take n2 s2) _ eq_refl). rewrite !length_take.
  replace (n1 `min` length s1)%nat with n1 by lia. replace (n2 `min` length s2)%nat with n2 by lia.
  rewrite !take_take. replace ((n1 `min` n2) `min` n1)%nat with (n1 `min` n2)%nat by lia.
  replace ((n1 `min` n2) `min` n2)%nat with (n1 `min` n2)%nat by lia.
  rewrite <- memcmp_lex by lia. unfold ngx_memn2cmp.
  destruct (Nat.leb_spec n1 n2) as [H|H]; [replace (n1 `min` n2)%nat with n1 by lia|replace (n1 `min` n2)%nat with n2 by lia];
    set (m := memcmp s1 s2 _); destruct (Z.compare_spec m 0) as [Em|Em|Em];
    try (rewrite (proj2 (Z.eqb_neq m 0)) by lia; cbn; first [by rewrite Z.compare_lt_iff|by rewrite Z.compare_gt_iff]);
    rewrite Em; cbn [Z.eqb negb orb]; rewrite Z.eqb_refl; cbn [negb orb].
  - destruct (Nat.eqb_spec n1 n2) as [->|Hn]; [by rewrite Nat.compare_refl|]. symmetry. apply Nat.compare_lt_iff. lia.
  - rewrite (proj2 (Nat.eqb_neq n1 n2)) by lia. symmetry. apply Nat.compare_gt_iff. lia.
Qed.
