(* ===== verification/NgxUtf8.v ===== *)
(** * UTF-8

    The functions on UTF-8 of src/nginx-1.4.7/src/core/ngx_string.c.  A pointer is
    the list of the bytes that follow it in memory; there is no result when a byte
    after the last one is read. *)
From S2P Require Import Prelude.

(** ** Definitions *)

Abbreviation UTF8_INVALID := 0xffffffff (only parsing).
Abbreviation UTF8_INCOMPLETE := 0xfffffffe (only parsing).

(** [None] for the code when a byte is not one of a sequence.
    [core/ngx_string.c:1247-1257] while (len) *)
Fixpoint utf8_tail (len : nat) (u : Z) (p : list Z) : option (option Z * list Z) :=
  match len with
  | O => Some (Some u, p)
  | S len =>
      match p with
      | [] => None
      | i :: p => if i <? 0x80 then Some (None, p) else utf8_tail len (u32 (Z.lor (Z.shiftl u 6) (Z.land i 0x3f))) p
      end
  end.

(** The code and the pointer behind it; [n] is the number of bytes that can be read.
    [core/ngx_string.c:1210-1264] ngx_utf8_decode *)
Definition ngx_utf8_decode (p : list Z) (n : Z) : option (Z * list Z) :=
  match p with
  | [] => None
  | u :: p' =>
      let sequence u valid len :=
        if u64 (n - 1) <? Z.of_nat len then Some (UTF8_INCOMPLETE, p)
        else
          '(r, p) ← utf8_tail len u p';
          Some (match r with Some u => if valid <? u then u else UTF8_INVALID | None => UTF8_INVALID end, p) in
      if 0xf0 <=? u then sequence (Z.land u 0x07) 0xffff 3%nat
      else if 0xe0 <=? u then sequence (Z.land u 0x0f) 0x7ff 2%nat
      else if 0xc2 <=? u then sequence (Z.land u 0x1f) 0x7f 1%nat
      else Some (UTF8_INVALID, p')
  end.

(** [left] is the number of bytes behind the last one of the string.
    [core/ngx_string.c:1275-1288] for (len = 0; p < last; len++) *)
Fixpoint utf8_length_loop (fuel : nat) (p : list Z) (left : nat) (n len : Z) : option Z :=
  match fuel with
  | O => Some len
  | S fuel =>
      if (length p <=? left)%nat then Some len
      else
        c ← head p;
        if c <? 0x80 then utf8_length_loop fuel (tl p) left n (len + 1)
        else
          '(u, p) ← ngx_utf8_decode p n;
          if 0x10ffff <? u then Some n else utf8_length_loop fuel p left n (len + 1)
  end.

(** [after] are the bytes in memory behind the string.
    [core/ngx_string.c:1267-1291] ngx_utf8_length *)
Definition ngx_utf8_length (s after : list Z) : option Z :=
  utf8_length_loop (length s) (s ++ after) (length after) (Z.of_nat (length s)) 0.

(** [core/ngx_string.c:1303-1332] while (--n) *)
Fixpoint utf8_copy (n : nat) (src : list Z) (len : Z) : option (list Z) :=
  match n with
  | O => Some [0]
  | S n =>
      c ← head src;
      if c <? 0x80 then
        if negb (c =? 0) then option_map (cons c) (utf8_copy n (tl src) (u64 (len - 1)))
        else Some [0]
      else
        '(u, next) ← ngx_utf8_decode src len;
        if 0x10ffff <? u then Some [0]
        else
          let k := (length src - length next)%nat in
          option_map (app (take k src)) (utf8_copy n next (u64 (len - Z.of_nat k)))
  end.

(** What is written to [dst].
    [core/ngx_string.c:1294-1337] ngx_utf8_cpystrn *)
Definition ngx_utf8_cpystrn (src : list Z) (n : nat) (len : Z) : option (list Z) :=
  match n with
  | O => Some []
  | S n => utf8_copy n src len
  end.

(** ** Encoding *)

(** The sequence of a code up to 0x1fffff. *)
Definition utf8_encode (c : Z) : list Z :=
  if c <? 0x80 then [c]
  else if c <? 0x800 then [0xc0 + c / 64; 0x80 + c mod 64]
  else if c <? 0x10000 then [0xe0 + c / 4096; 0x80 + c / 64 mod 64; 0x80 + c mod 64]
  else [0xf0 + c / 262144; 0x80 + c / 4096 mod 64; 0x80 + c / 64 mod 64; 0x80 + c mod 64].

Lemma low_bits i k : 0 <= k -> Z.land i (Z.ones k) = i mod 2 ^ k.
Proof. intros. by apply Z.land_ones. Qed.

(** The value of the bytes of a sequence. *)
Definition tail_value (u : Z) (bytes : list Z) : Z := foldl (fun u i => u * 64 + i mod 64) u bytes.

Lemma utf8_tail_ok bytes u p : Forall (fun i => 0x80 <= i < 0x100) bytes -> 0 <= u -> (u + 1) * 64 ^ Z.of_nat (length bytes) <= 2 ^ 32 ->
  utf8_tail (length bytes) u (bytes ++ p) = Some (Some (tail_value u bytes), p).
Proof.
  intros H. revert u; induction H as [|i bytes Hi H IH]; intros u Hu Hb; [done|]. cbn [length utf8_tail app tail_value foldl] in *. rewrite (proj2 (Z.ltb_ge _ _)) by lia.
  rewrite Nat2Z.inj_succ, Z.pow_succ_r in Hb by lia. assert (H64 : 0 < 64 ^ Z.of_nat (length bytes)) by (apply Z.pow_pos_nonneg; lia).
  change 0x3f with (Z.ones 6). rewrite (low_bits i 6) by lia. change (2 ^ 6) with 64. pose proof (Z.mod_pos_bound i 64 ltac:(lia)).
  rewrite lor_shiftl_add by lia. change (2 ^ 6) with 64. unfold u32. rewrite Z.mod_small by nia. apply IH; nia.
Qed.

Lemma utf8_tail_cases len u p : Forall is_byte p -> (len <= length p)%nat ->
  (exists used p', p = used ++ p' /\ (length used <= len)%nat /\ utf8_tail len u p = Some (None, p')) \/
  (exists bytes p', p = bytes ++ p' /\ length bytes = len /\ Forall (fun i => 0x80 <= i < 0x100) bytes).
Proof.
  intros Hp. revert u p Hp; induction len as [|len IH]; intros u p Hp Hl; [right; by exists [], p|]. destruct p as [|i p]; [cbn in Hl; lia|]. apply Forall_cons in Hp as [Hi Hp]. unfold is_byte in Hi. cbn [utf8_tail]. destruct (Z.ltb_spec i 0x80).
  - left. exists [i], p. split_and!; [done|cbn; lia|done].
  - destruct (IH (u32 (Z.lor (Z.shiftl u 6) (Z.land i 0x3f))) p Hp ltac:(cbn in Hl; lia)) as [(used & p' & -> & H1 & H2)|(bytes & p' & -> & H1 & H2)].
    + left. exists (i :: used), p'. split_and!; [done|cbn; lia|done].
    + right. exists (i :: bytes), p'. split_and!; [done|cbn; lia|]. constructor; [lia|done].
Qed.

(** A sequence of [len] bytes after the first. *)
Lemma sequence_ok b p n len u valid :
  Forall is_byte p -> 1 <= n <= Z.of_nat (length (b :: p)) -> n < 2 ^ 64 -> 0 <= u -> (u + 1) * 64 ^ Z.of_nat len <= 2 ^ 32 ->
  let P r used := r = UTF8_INVALID \/ (r = UTF8_INCOMPLETE /\ used = []) \/
    exists bytes, used = b :: bytes /\ length bytes = len /\ Forall (fun i => 0x80 <= i < 0x100) bytes /\ valid < r /\ r = tail_value u bytes in
  exists r p' used, (if u64 (n - 1) <? Z.of_nat len then Some (UTF8_INCOMPLETE, b :: p)
    else '(r, p) ← utf8_tail len u p; Some (match r with Some u => if valid <? u then u else UTF8_INVALID | None => UTF8_INVALID end, p)) = Some (r, p') /\
    b :: p = used ++ p' /\ Z.of_nat (length used) <= n /\ P r used.
Proof.
  intros Hp Hn Hn64 Hu Hb P. unfold u64. rewrite Z.mod_small by lia. cbn [length] in Hn. destruct (Z.ltb_spec (n - 1) (Z.of_nat len)).
  { exists UTF8_INCOMPLETE, (b :: p), []. split_and!; [done|done|cbn; lia|]. right. left. done. }
  destruct (utf8_tail_cases len u p Hp ltac:(lia)) as [(used & p' & -> & H1 & ->)|(bytes & p' & -> & H1 & H2)].
  - cbn [mbind option_bind]. exists UTF8_INVALID, p', (b :: used). split_and!; [done|done|cbn; lia|by left].
  - rewrite <- H1, utf8_tail_ok by (rewrite ?H1; done). cbn [mbind option_bind]. eexists _, p', (b :: bytes). split_and!; [reflexivity|done|cbn; lia|]. destruct (Z.ltb_spec valid (tail_value u bytes)); [|by left]. right. right. by exists bytes.
Qed.

Definition decoded (r : Z) (used : list Z) : Prop :=
  0x80 <= r <= 0x1fffff /\ (hd 0 used < 0xf8 -> Forall (fun i => i < 0xc0) (tl used) -> used = utf8_encode r).

(** C26: decoding a sequence of UTF-8 reads no byte after the [n] given ones and returns a code of its type: one of the two error values, or a code from 0x80 to 0x1fffff, which is never in an overlong form; when the bytes have the form that the standard requires, they are the encoding of the code. *)
Theorem utf8_decode_type p n : Forall is_byte p -> 1 <= n <= Z.of_nat (length p) -> n < 2 ^ 64 ->
  exists r p' used, ngx_utf8_decode p n = Some (r, p') /\ p = used ++ p' /\ Z.of_nat (length used) <= n /\ (r = UTF8_INVALID \/ (r = UTF8_INCOMPLETE /\ used = []) \/ decoded r used).
Proof.
  intros Hp Hn Hn64. destruct p as [|b p]; [cbn in Hn; lia|]. apply Forall_cons in Hp as [Hb Hp]. unfold is_byte in Hb. unfold ngx_utf8_decode.
  change 7 with (Z.ones 3). change 0x0f with (Z.ones 4). change 0x1f with (Z.ones 5). rewrite !low_bits by lia.
  assert (Hdec : forall P Q : Z -> list Z -> Prop, (forall r used, P r used -> Q r used) -> forall X, (exists r p' used, X = Some (r, p') /\ b :: p = used ++ p' /\ Z.of_nat (length used) <= n /\ P r used) -> exists r p' used, X = Some (r, p') /\ b :: p = used ++ p' /\ Z.of_nat (length used) <= n /\ Q r used)
    by (intros P Q HPQ X (r & p' & used & H1 & H2 & H3 & H4); exists r, p', used; auto).
  destruct (Z.leb_spec 0xf0 b); [|destruct (Z.leb_spec 0xe0 b); [|destruct (Z.leb_spec 0xc2 b)]].
  - eapply Hdec; [|apply (sequence_ok b p n 3 (b mod 2 ^ 3) 0xffff Hp Hn Hn64); [apply Z.mod_pos_bound; lia|pose proof (Z.mod_pos_bound b (2 ^ 3) ltac:(lia)); cbn; lia]].
    intros r used [?|[?|(bytes & -> & L1 & L2 & L3 & ->)]]; [by left|right; by left|]. right. right. destruct bytes as [|i [|j [|k []]]]; [done..| |done]. repeat (apply Forall_cons in L2 as [? L2]).
    unfold decoded, utf8_encode, tail_value in *. cbn [foldl hd tl] in *. split; [Z.div_mod_to_equations; lia|]. intros Hhd Htl. repeat (apply Forall_cons in Htl as [? Htl]). repeat (rewrite (proj2 (Z.ltb_ge _ _)) by lia). repeat f_equal; Z.div_mod_to_equations; lia.
  - eapply Hdec; [|apply (sequence_ok b p n 2 (b mod 2 ^ 4) 0x7ff Hp Hn Hn64); [apply Z.mod_pos_bound; lia|pose proof (Z.mod_pos_bound b (2 ^ 4) ltac:(lia)); cbn; lia]].
    intros r used [?|[?|(bytes & -> & L1 & L2 & L3 & ->)]]; [by left|right; by left|]. right. right. destruct bytes as [|i [|j []]]; [done..| |done]. repeat (apply Forall_cons in L2 as [? L2]).
    unfold decoded, utf8_encode, tail_value in *. cbn [foldl hd tl] in *. assert ((b mod 2 ^ 4 * 64 + i mod 64) * 64 + j mod 64 < 0x10000) by (Z.div_mod_to_equations; lia). split; [lia|]. intros Hhd Htl. repeat (apply Forall_cons in Htl as [? Htl]). rewrite !(proj2 (Z.ltb_ge _ _)), (proj2 (Z.ltb_lt _ _)) by lia. repeat f_equal; Z.div_mod_to_equations; lia.
  - eapply Hdec; [|apply (sequence_ok b p n 1 (b mod 2 ^ 5) 0x7f Hp Hn Hn64); [apply Z.mod_pos_bound; lia|pose proof (Z.mod_pos_bound b (2 ^ 5) ltac:(lia)); cbn; lia]].
    intros r used [?|[?|(bytes & -> & L1 & L2 & L3 & ->)]]; [by left|right; by left|]. right. right. destruct bytes as [|i []]; [done| |done]. repeat (apply Forall_cons in L2 as [? L2]).
    unfold decoded, utf8_encode, tail_value in *. cbn [foldl hd tl] in *. assert (b mod 2 ^ 5 * 64 + i mod 64 < 0x800) by (Z.div_mod_to_equations; lia). split; [lia|]. intros Hhd Htl. repeat (apply Forall_cons in Htl as [? Htl]). rewrite (proj2 (Z.ltb_ge _ _)), (proj2 (Z.ltb_lt _ _)) by lia. repeat f_equal; Z.div_mod_to_equations; lia.
  - exists UTF8_INVALID, p, [b]. split_and!; [done|done|cbn; lia|by left].
Qed.

(** ** Encoded text *)

Ltac fold_tail l p := match goal with |- context [utf8_tail ?k ?u ?q] => change (utf8_tail k u q) with (utf8_tail (length l) u (l ++ p)) end.

(** The encoding of a code is decoded to it. *)
Lemma utf8_decode_encode c p n : 0x80 <= c <= 0x1fffff -> Z.of_nat (length (utf8_encode c)) <= n < 2 ^ 64 -> ngx_utf8_decode (utf8_encode c ++ p) n = Some (c, p).
Proof.
  intros Hc. unfold utf8_encode. rewrite (proj2 (Z.ltb_ge c 0x80)) by lia.
  destruct (Z.ltb_spec c 0x800); [|destruct (Z.ltb_spec c 0x10000)]; cbn [length app]; intros Hn; unfold ngx_utf8_decode, u64; rewrite !(Z.mod_small (n - 1)) by lia;
    change 7 with (Z.ones 3); change 0x0f with (Z.ones 4); change 0x1f with (Z.ones 5); rewrite !low_bits by lia.
  - rewrite !(proj2 (Z.leb_gt _ (_ + c / 64))) by (Z.div_mod_to_equations; lia). rewrite (proj2 (Z.leb_le _ _)) by (Z.div_mod_to_equations; lia). rewrite (proj2 (Z.ltb_ge _ _)) by lia.
    fold_tail [0x80 + c mod 64] p; rewrite utf8_tail_ok; [|repeat constructor; Z.div_mod_to_equations; lia|apply Z.mod_pos_bound; lia|pose proof (Z.mod_pos_bound (0xc0 + c / 64) (2 ^ 5) ltac:(lia)); cbn; lia].
    cbn [mbind option_bind tail_value foldl]. assert ((0xc0 + c / 64) mod 2 ^ 5 * 64 + (0x80 + c mod 64) mod 64 = c) as -> by (Z.div_mod_to_equations; lia). by rewrite (proj2 (Z.ltb_lt _ _)) by lia.
  - rewrite (proj2 (Z.leb_gt _ (_ + c / 4096))) by (Z.div_mod_to_equations; lia). rewrite (proj2 (Z.leb_le _ _)) by (Z.div_mod_to_equations; lia). rewrite (proj2 (Z.ltb_ge _ _)) by lia.
    fold_tail [0x80 + c / 64 mod 64; 0x80 + c mod 64] p; rewrite utf8_tail_ok; [|repeat constructor; Z.div_mod_to_equations; lia|apply Z.mod_pos_bound; lia|pose proof (Z.mod_pos_bound (0xe0 + c / 4096) (2 ^ 4) ltac:(lia)); cbn; lia].
    cbn [mbind option_bind tail_value foldl]. assert (((0xe0 + c / 4096) mod 2 ^ 4 * 64 + (0x80 + c / 64 mod 64) mod 64) * 64 + (0x80 + c mod 64) mod 64 = c) as -> by (Z.div_mod_to_equations; lia). by rewrite (proj2 (Z.ltb_lt _ _)) by lia.
  - rewrite (proj2 (Z.leb_le _ _)) by (Z.div_mod_to_equations; lia). rewrite (proj2 (Z.ltb_ge _ _)) by lia.
    fold_tail [0x80 + c / 4096 mod 64; 0x80 + c / 64 mod 64; 0x80 + c mod 64] p; rewrite utf8_tail_ok; [|repeat constructor; Z.div_mod_to_equations; lia|apply Z.mod_pos_bound; lia|pose proof (Z.mod_pos_bound (0xf0 + c / 262144) (2 ^ 3) ltac:(lia)); cbn; lia].
    cbn [mbind option_bind tail_value foldl]. assert ((((0xf0 + c / 262144) mod 2 ^ 3 * 64 + (0x80 + c / 4096 mod 64) mod 64) * 64 + (0x80 + c / 64 mod 64) mod 64) * 64 + (0x80 + c mod 64) mod 64 = c) as -> by (Z.div_mod_to_equations; lia). by rewrite (proj2 (Z.ltb_lt _ _)) by lia.
Qed.

Definition encode_all (cs : list Z) : list Z := concat (map utf8_encode cs).

Lemma utf8_encode_head c : 0 <= c <= 0x10ffff -> exists b l, utf8_encode c = b :: l /\ (if c <? 0x80 then b = c /\ l = [] else 0x80 <= b).
Proof. intros Hc. unfold utf8_encode. destruct (Z.ltb_spec c 0x80); [by exists c, []|]. destruct (_ <? 0x800); [|destruct (_ <? 0x10000)]; eexists _, _; (split; [reflexivity|]); Z.div_mod_to_equations; lia. Qed.

(** The length of encoded text is the number of its codes. *)
Lemma utf8_length_encoded cs after : Forall (fun c => 0 <= c <= 0x10ffff) cs -> Z.of_nat (length (encode_all cs)) < 2 ^ 64 -> ngx_utf8_length (encode_all cs) after = Some (Z.of_nat (length cs)).
Proof.
  intros Hcs Hlen. unfold ngx_utf8_length. set (n := Z.of_nat (length (encode_all cs))) in *. assert (Hn : Z.of_nat (length (encode_all cs)) <= n) by lia. clearbody n.
  assert (Hgen : forall fuel len, (length (encode_all cs) <= fuel)%nat -> utf8_length_loop fuel (encode_all cs ++ after) (length after) n len = Some (len + Z.of_nat (length cs))).
  { revert Hn; induction Hcs as [|c cs Hc Hcs IH]; intros Hn fuel len Hf; [destruct fuel; cbn; rewrite ?Nat.leb_refl; f_equal; lia|]. unfold encode_all in *. cbn [map concat] in *. rewrite length_app in *. destruct (utf8_encode_head c Hc) as (b & l & Eb & Hb). pose proof (f_equal length Eb) as Hlb. cbn [length] in Hlb.
    destruct fuel as [|fuel]; [lia|]. cbn [utf8_length_loop]. rewrite (proj2 (Nat.leb_gt _ _)) by (rewrite !length_app; lia). rewrite <- app_assoc. rewrite Eb at 1. cbn [app head mbind option_bind].
    specialize (IH ltac:(lia) fuel (len + 1) ltac:(lia)). destruct (Z.ltb_spec c 0x80).
    - destruct Hb as [-> ->]. rewrite (proj2 (Z.ltb_lt _ _)), Eb by lia. cbn [app tl]. rewrite IH. f_equal. cbn [length]. lia.
    - rewrite (proj2 (Z.ltb_ge _ _)) by lia. rewrite utf8_decode_encode by (try lia). cbn [mbind option_bind]. rewrite (proj2 (Z.ltb_ge _ _)), IH by lia. f_equal. cbn [length]. lia. }
  by rewrite Hgen.
Qed.

(** Copying with a limit of [n] takes the first [n - 1] codes, none of them cut. *)
Lemma utf8_cpystrn_encoded cs rest n len : Forall (fun c => 0 < c <= 0x10ffff) cs -> Z.of_nat (length (encode_all cs)) < len < 2 ^ 64 ->
  ngx_utf8_cpystrn (encode_all cs ++ 0 :: rest) (S n) len = Some (encode_all (take n cs) ++ [0]).
Proof.
  intros Hcs. cbn [ngx_utf8_cpystrn]. revert n len; induction Hcs as [|c cs Hc Hcs IH]; intros n len Hlen; [by destruct n|]. destruct n as [|n]; [done|]. unfold encode_all in *. cbn [map concat take] in *. rewrite length_app in Hlen. destruct (utf8_encode_head c ltac:(lia)) as (b & l & Eb & Hb). pose proof (f_equal length Eb) as Hlb. cbn [length] in Hlb.
  cbn [utf8_copy]. rewrite <- app_assoc. rewrite Eb at 1. cbn [app head mbind option_bind]. destruct (Z.ltb_spec c 0x80).
  - destruct Hb as [-> ->]. rewrite (proj2 (Z.ltb_lt _ _)), (proj2 (Z.eqb_neq _ _)), Eb by lia. cbn [negb app tl]. unfold u64. rewrite Z.mod_small by lia. by rewrite IH by lia.
  - rewrite (proj2 (Z.ltb_ge _ _)) by lia. rewrite utf8_decode_encode by lia. cbn [mbind option_bind]. rewrite (proj2 (Z.ltb_ge _ _)) by lia. rewrite (length_app (utf8_encode c)), Nat.add_sub, take_app_length. unfold u64. rewrite Z.mod_small by lia. rewrite IH by lia. cbn. by rewrite <- app_assoc.
Qed.

(** A text that ends within a sequence is read past its end, as the length of all of it is passed for that of the rest. *)
Lemma utf8_length_overread : ngx_utf8_length (B! "text" ++ [0xe2]) [] = None /\ ngx_utf8_length (B! "text" ++ [0xe2]) [0x82; 0xac] = Some 5.
Proof. by split. Qed.

(** Bytes after the first that are not continuation bytes, and first bytes over 0xf7, are taken for others. *)
Lemma utf8_decode_lenient : ngx_utf8_decode [0xc3; 0xe9] 2 = Some (0xe9, []) /\ ngx_utf8_decode [0xf8; 0x90; 0x80; 0x80] 4 = Some (0x10000, []).
Proof. by split. Qed.

(** The sign of the euro. *)
Lemma utf8_decode_type_witness : exists r p' used, ngx_utf8_decode [0xe2; 0x82; 0xac; 0x41] 4 = Some (r, p') /\ r = 0x20ac /\ decoded r used /\ used = utf8_encode r.
Proof.
  destruct (utf8_decode_type [0xe2; 0x82; 0xac; 0x41] 4) as (r & p' & used & E & Ep & _ & Hd); [repeat constructor; lia|cbn; lia|lia|].
  pose proof E as E'. vm_compute in E'. injection E' as <- <-. destruct Hd as [?|[[? _]|Hd]]; [discriminate|discriminate|]. assert (used = [0xe2; 0x82; 0xac]) as -> by (apply (app_inv_tail [0x41]); by rewrite <- Ep).
  exists 0x20ac, [0x41], [0xe2; 0x82; 0xac]. split_and!; [exact E|done|exact Hd|done].
Defined.
