(* ===== verification/HttpArgs.v ===== *)
(** * Arguments, cookies and unsafe targets

    The functions of src/nginx-1.4.7/src/http/ngx_http_parse.c that look into a
    target or into header values: [ngx_http_parse_unsafe_uri],
    [ngx_http_parse_multi_header_lines], [ngx_http_arg] and
    [ngx_http_split_args]. *)
From S2P Require Import Prelude HttpChars NgxStrings.

(** ** Unsafe targets *)

(** A string: an offset into the memory and a length. *)
Definition str : Type := Z * Z.

Definition ngx_path_separator (c : Z) : bool := c =? C! "/".

(** The loop, [p] being the position of the next byte and [len] the bytes left;
    the answer is [None] for the label [unsafe], or the position of the
    arguments.
    [http/ngx_http_parse.c:1794-1822] for *)
Fixpoint unsafe_loop (mem : list Z) (p : Z) (len : nat) : option (option Z) :=
  match len with
  | O => Some None
  | S len' =>
      let ch := mem_at mem p in
      let p := p + 1 in
      if usual ch then unsafe_loop mem p len'
      else if ch =? C! "?" then Some (Some p)
      else if ch =? 0 then None
      else if ngx_path_separator ch && (2 <? len)%nat
              && ((mem_at mem p =? C! ".") && (mem_at mem (p + 1) =? C! ".")
                  && ngx_path_separator (mem_at mem (p + 2)))
      then None
      else unsafe_loop mem p len'
  end.

(** The return code, the path and the arguments.
    [http/ngx_http_parse.c:1776-1834] ngx_http_parse_unsafe_uri *)
Definition ngx_http_parse_unsafe_uri (mem : list Z) (uri args : str) : Z * str * str :=
  let (p, len) := uri in
  if (len =? 0) || (mem_at mem p =? C! "?") then (NGX_ERROR, uri, args)
  else if (mem_at mem p =? C! ".") && (len =? 3) && (mem_at mem (p + 1) =? C! ".")
          && ngx_path_separator (mem_at mem (p + 2))
  then (NGX_ERROR, uri, args)
  else
    match unsafe_loop mem p (Z.to_nat len) with
    | None => (NGX_ERROR, uri, args)
    | Some None => (NGX_OK, uri, args)
    | Some (Some q) => (NGX_OK, (p, q - 1 - p), (q, p + len - q))
    end.

(** ** Splitting the arguments *)

(** The target and the arguments, as offsets from the beginning of the target;
    without a question mark the data of the arguments is left unchanged.
    [http/ngx_http_parse.c:1952-1970] ngx_http_split_args *)
Definition ngx_http_split_args (uri : list Z) (args_data : Z) : str * str :=
  let len := Z.of_nat (length uri) in
  match ngx_strlchr uri (length uri) (C! "?") 0 with
  | Some p => ((0, p), (p + 1, len - (p + 1)))
  | None => ((0, len), (args_data, 0))
  end.

(** ** An argument of the query *)

(** The loop over the occurrences of the name; [p] is the offset of the next
    search, and the answer is the offset and the length of the value.
    [http/ngx_http_parse.c:1922-1946] for ( ; p < last; p++) *)
Fixpoint arg_loop (fuel : nat) (args name : list Z) (p : nat) : option str :=
  match fuel with
  | O => None
  | S fuel' =>
      let last := Z.of_nat (length args) in
      if negb (Z.of_nat p <? last) then None
      else
        match ngx_strlcasestrn (drop p args) (last - 1 - Z.of_nat p) name (length name - 1) with
        | None => None
        | Some off =>
            let q := (p + Z.to_nat off)%nat in
            let len := length name in
            if ((q =? 0)%nat || (mem_at args (Z.of_nat q - 1) =? C! "&"))
               && (mem_at args (Z.of_nat (q + len)) =? C! "=")
            then
              let data := Z.of_nat (q + len + 1) in
              match ngx_strlchr (drop q args) (length args - q) (C! "&") (Z.of_nat q) with
              | None => Some (data, last - data)
              | Some e => Some (data, e - data)
              end
            else arg_loop fuel' args name (S q)
        end
  end.

(** The value of the argument, or [None] for [NGX_DECLINED]; every turn of the
    loop goes forward.
    [http/ngx_http_parse.c:1910-1949] ngx_http_arg *)
Definition ngx_http_arg (args name : list Z) : option str :=
  if decide (args = []) then None else arg_loop (S (length args)) args name 0.

(** ** A value of a header with several values *)

(** [while (start < end && *start == ' ') start++]
    [http/ngx_http_parse.c:1882-1882] spaces *)
Fixpoint skip_spaces (s : list Z) : list Z :=
  match s with
  | c :: s' => if c =? C! " " then skip_spaces s' else s
  | [] => []
  end.

(** [http/ngx_http_parse.c:1895-1900] while (start < end) *)
Fixpoint skip_value (s : list Z) : list Z :=
  match s with
  | [] => []
  | ch :: s' => if (ch =? C! ";") || (ch =? C! ",") then s' else skip_value s'
  end.

(** [http/ngx_http_parse.c:1884-1886] up to a semicolon *)
Fixpoint until_semicolon (s : list Z) : list Z :=
  match s with
  | [] => []
  | c :: s' => if c =? C! ";" then [] else c :: until_semicolon s'
  end.

(** One header, [start] being the bytes from [start] to [end]; with
    [want = false] the argument [value] is NULL and the answer is empty.
    [http/ngx_http_parse.c:1859-1903] while (start < end) *)
Fixpoint multi_loop (fuel : nat) (name : list Z) (want : bool) (start : list Z)
    : option (list Z) :=
  match fuel with
  | O => None
  | S fuel' =>
      if decide (start = []) then None
      else
        let skip s := multi_loop fuel' name want (skip_spaces (skip_value s)) in
        if negb (ngx_strncasecmp start name (length name) =? 0) then skip start
        else
          let start := skip_spaces (drop (length name) start) in
          if negb want then
            if decide (start = []) then Some [] 
            else if byte start =? C! "," then Some [] else skip start
          else
            match start with
            | [] => skip start
            | c :: start' =>
                if negb (c =? C! "=") then skip start'
                else Some (until_semicolon (skip_spaces start'))
            end
  end.

(** The index of the header and the value, or [None] for [NGX_DECLINED].
    [http/ngx_http_parse.c:1837-1907] ngx_http_parse_multi_header_lines *)
Fixpoint multi_header_lines (i : Z) (headers : list (list Z)) (name : list Z) (want : bool)
    : option (Z * list Z) :=
  match headers with
  | [] => None
  | h :: headers' =>
      if (length h <? length name)%nat then multi_header_lines (i + 1) headers' name want
      else match multi_loop (S (length h)) name want h with
           | Some v => Some (i, v)
           | None => multi_header_lines (i + 1) headers' name want
           end
  end.

Definition ngx_http_parse_multi_header_lines (headers : list (list Z)) (name : list Z) (want : bool)
    : option (Z * list Z) := multi_header_lines 0 headers name want.

Example cookie_1 :
  ngx_http_parse_multi_header_lines [B! "a=1"; B! "bb=2; B = 34; c=5"] (B! "b") true = Some (1, B! "34").
Proof. by vm_compute. Qed.

(** ** The query *)

(** The argument [name] begins at the position [q]. *)
Definition arg_at (args name : list Z) (q : nat) : Prop :=
  (q = 0%nat \/ mem_at args (Z.of_nat q - 1) = C! "&") /\ ci_prefix name (drop q args) /\
  mem_at args (Z.of_nat (q + length name)) = C! "=".

Lemma mem_at_end s i : Z.of_nat (length s) <= i -> mem_at s i = 0.
Proof.
  intros H. unfold mem_at. case_match; [done|]. zify_bool. apply nth_overflow. lia.
Qed.

(** The value of an argument at [q]: up to the next ampersand. *)
Definition arg_value (args name : list Z) (q : nat) : str :=
  let data := Z.of_nat (q + length name + 1) in
  match ngx_strlchr (drop q args) (length args - q) (C! "&") (Z.of_nat q) with
  | None => (data, Z.of_nat (length args) - data)
  | Some e => (data, e - data)
  end.

Lemma arg_loop_first args c name fuel p :
  no_nul (c :: name) -> (length args < p + fuel)%nat ->
  match arg_loop fuel args (c :: name) p with
  | Some v => exists q, (p <= q)%nat /\ arg_at args (c :: name) q /\
      (forall j, (p <= j < q)%nat -> ~ arg_at args (c :: name) j) /\
      v = arg_value args (c :: name) q
  | None => forall j, (p <= j)%nat -> ~ arg_at args (c :: name) j
  end.
Proof.
  intros Hn. revert p. induction fuel as [|fuel IH]; intros p Hf.
  { intros j Hj (_ & _ & E). rewrite mem_at_end in E by lia. done. }
  cbn [arg_loop]. destruct (Z.ltb_spec (Z.of_nat p) (Z.of_nat (length args))) as [Hp|Hp]; cbn [negb].
  2: { intros j Hj (_ & _ & E). rewrite mem_at_end in E by lia. done. }
  unfold ngx_strlcasestrn. cbn [byte hd tl length].
  set (count := Z.to_nat _).
  pose proof (strlcasestrn_loop_first c name (drop p args) count Hn) as Hfirst.
  replace (S (length name) - 1)%nat with (length name) by lia.
  destruct (strlcasestrn_loop _ _ _ _ _ _) as [off|]; cbn [first_position] in Hfirst.
  - destruct Hfirst as (i & -> & Hi & Hci & Hmin). rewrite Nat2Z.id.
    assert (Hbetween : forall j, (p <= j < p + i)%nat -> ~ arg_at args (c :: name) j).
    { intros j Hj (_ & Hpre & _). apply (Hmin (j - p)%nat); [lia|].
      rewrite drop_drop. by replace (p + (j - p))%nat with j by lia. }
    rewrite drop_drop in Hci.
    destruct (((p + i =? 0)%nat || _) && _) eqn:E.
    + apply andb_true_iff in E as [E1 E2]. apply Z.eqb_eq in E2. apply orb_true_iff in E1.
      match goal with |- match ?x with _ => _ end =>
        replace x with (Some (arg_value args (c :: name) (p + i)))
          by (unfold arg_value; cbn [length]; by case_match) end.
      exists (p + i)%nat. split_and!; [lia| |done|done]. split_and!; [|done|done].
      destruct E1 as [E1|E1]; [left; by apply Nat.eqb_eq|right; by apply Z.eqb_eq].
    + specialize (IH (S (p + i)) ltac:(lia)).
      assert (Hnot : ~ arg_at args (c :: name) (p + i)).
      { intros (H1 & _ & H2). cbn [length] in H2. rewrite H2 in E.
        destruct H1 as [H1|H1]; [|rewrite H1 in E].
        - rewrite (proj2 (Nat.eqb_eq _ _) H1) in E. done.
        - rewrite orb_true_r in E. done. }
      assert (Hall : forall j, (p <= j < S (p + i))%nat -> ~ arg_at args (c :: name) j).
      { intros j Hj. destruct (decide (j = p + i)%nat) as [->|]; [done|]. apply Hbetween. lia. }
      destruct (arg_loop fuel args (c :: name) (S (p + i))) as [v|].
      * destruct IH as (q & Hq & Hat & Hmin' & ->). exists q. split_and!; [lia|done| |done].
        intros j Hj. destruct (decide (j < S (p + i))%nat); [apply Hall; lia|apply Hmin'; lia].
      * intros j Hj. destruct (decide (j < S (p + i))%nat); [apply Hall; lia|apply IH; lia].
  - intros j Hj (_ & Hpre & E). cbn [length] in E.
    destruct (decide (j + S (length name) < length args)%nat).
    + apply (Hfirst (j - p)%nat); [lia|]. rewrite drop_drop.
      by replace (p + (j - p))%nat with j by lia.
    + rewrite mem_at_end in E by lia. done.
Qed.

(** A query: its pieces, with an ampersand between them. *)
Fixpoint query (pieces : list (list Z)) : list Z :=
  match pieces with
  | [] => []
  | [piece] => piece
  | piece :: pieces' => piece ++ C! "&" :: query pieces'
  end.

(** The piece is [name=...], up to the case of the name. *)
Definition piece_has (name piece : list Z) : Prop :=
  ci_prefix name piece /\ nth (length name) piece 0 = C! "=".

#[global] Instance piece_has_dec name piece : Decision (piece_has name piece).
Proof. unfold piece_has. apply _. Defined.

(** The value of the first piece with this name. *)
Fixpoint query_value (name : list Z) (pieces : list (list Z)) : option (list Z) :=
  match pieces with
  | [] => None
  | piece :: pieces' =>
      if decide (piece_has name piece) then Some (drop (S (length name)) piece)
      else query_value name pieces'
  end.

Definition no_amp (s : list Z) : Prop := Forall (fun c => c <> C! "&") s.

(** What follows a piece: nothing, or an ampersand. *)
Definition after_piece (rest : list Z) : Prop := rest = [] \/ exists s, rest = C! "&" :: s.

(** A name without ampersands is found in the piece only. *)
Lemma ci_prefix_piece name piece rest :
  no_amp name -> no_amp piece -> after_piece rest ->
  ci_prefix name (piece ++ rest) <-> ci_prefix name piece.
Proof.
  intros Hn. revert piece. unfold ci_prefix.
  induction Hn as [|c name Hc Hn IH]; intros piece Hp Hr; [done|].
  destruct piece as [|d piece].
  - cbn. split; [|done]. destruct Hr as [->|[s ->]]; [done|]. cbn. intros [= E _].
    symmetry in E. change (fold_case 38) with 38 in E. apply fold_case_other in E; [done|lia].
  - apply Forall_cons in Hp as [_ Hp]. cbn. specialize (IH piece Hp Hr).
    split; intros [= -> E]; f_equal; by apply IH.
Qed.

Lemma mem_at_nth s n : mem_at s (Z.of_nat n) = nth n s 0.
Proof. unfold mem_at. rewrite (proj2 (Z.ltb_ge _ _)), Nat2Z.id by lia. done. Qed.

Lemma arg_at_piece pre piece rest name :
  (pre = [] \/ exists s, pre = s ++ [C! "&"]) -> no_amp piece -> after_piece rest -> no_amp name ->
  arg_at (pre ++ piece ++ rest) name (length pre) <-> piece_has name piece.
Proof.
  intros Hpre Hp Hr Hn. unfold arg_at, piece_has.
  rewrite drop_app_length, ci_prefix_piece, mem_at_nth, app_nth2 by (done || lia).
  replace (length pre + length name - length pre)%nat with (length name) by lia.
  assert (Hfirst : length pre = 0%nat \/
    mem_at (pre ++ piece ++ rest) (Z.of_nat (length pre) - 1) = C! "&").
  { destruct Hpre as [->|[s ->]]; [by left|]. right. rewrite <- app_assoc, length_app. cbn [length].
    replace (Z.of_nat (length s + 1) - 1) with (Z.of_nat (length s) + 0) by lia.
    by rewrite mem_at_app_r. }
  split; [intros (_ & H1 & H2)|intros (H1 & H2)].
  - split; [done|]. destruct (decide (length name < length piece)%nat).
    + by rewrite app_nth1 in H2.
    + rewrite app_nth2 in H2 by lia. apply (f_equal length) in H1.
      rewrite !length_map, length_take in H1.
      replace (length name - length piece)%nat with 0%nat in H2 by lia.
      by destruct Hr as [->|[s ->]].
  - split_and!; [done|done|]. destruct (decide (length name < length piece)%nat).
    + by rewrite app_nth1.
    + rewrite nth_overflow in H2 by lia. done.
Qed.

(** No argument begins inside of a piece. *)
Lemma arg_at_inside pre piece rest name j :
  no_amp piece -> (length pre < j <= length pre + length piece)%nat ->
  ~ arg_at (pre ++ piece ++ rest) name j.
Proof.
  intros Hp Hj ([->|E] & _); [lia|].
  replace (Z.of_nat j - 1) with (Z.of_nat (length pre) + Z.of_nat (j - 1 - length pre)) in E by lia.
  rewrite mem_at_app_r, mem_at_app_l in E by lia.
  pose proof (mem_at_Forall (fun c => c <> C! "&") piece (Z.of_nat (j - 1 - length pre)) Hp). 
  apply H; [lia|done].
Qed.

Lemma strlchr_piece piece rest off :
  no_amp piece -> after_piece rest ->
  ngx_strlchr (piece ++ rest) (length (piece ++ rest)) (C! "&") off =
  if decide (rest = []) then None else Some (off + Z.of_nat (length piece)).
Proof.
  intros Hp Hr. revert off. induction Hp as [|c piece Hc _ IH]; intros off; cbn.
  - destruct Hr as [->|[s ->]]; cbn; [done|]. f_equal. lia.
  - rewrite (proj2 (Z.eqb_neq _ _)) by done. rewrite IH. case_decide; [done|]. f_equal. lia.
Qed.

Definition str_bytes (mem : list Z) (v : str) : list Z := slice mem v.1 (v.1 + v.2).

Lemma arg_value_piece pre piece rest name :
  no_amp piece -> after_piece rest -> piece_has name piece ->
  str_bytes (pre ++ piece ++ rest) (arg_value (pre ++ piece ++ rest) name (length pre)) =
  drop (S (length name)) piece.
Proof.
  intros Hp Hr [_ Hn].
  assert (Hl : (length name < length piece)%nat).
  { destruct (decide (length name < length piece)%nat); [done|]. rewrite nth_overflow in Hn by lia. done. }
  unfold arg_value. rewrite drop_app_length.
  replace (length (pre ++ piece ++ rest) - length pre)%nat with (length (piece ++ rest))
    by (rewrite !length_app; lia).
  rewrite strlchr_piece by done.
  set (data := Z.of_nat (length pre + length name + 1)).
  assert (E : forall v, v = (data, Z.of_nat (length piece - length name - 1)) ->
    str_bytes (pre ++ piece ++ rest) v = drop (S (length name)) piece).
  { intros v ->. unfold str_bytes, slice. cbn [fst snd].
    replace (Z.to_nat data) with (length pre + S (length name))%nat by lia.
    rewrite <- drop_drop, drop_app_length, drop_app_le by lia.
    rewrite take_app_length'; [done|]. rewrite length_drop. lia. }
  apply E. case_decide as Er; f_equal; [|lia].
  rewrite Er, !length_app. cbn [length]. lia.
Qed.

Lemma query_first name pieces : forall pre,
  (pre = [] \/ exists s, pre = s ++ [C! "&"]) -> Forall no_amp pieces -> no_amp name ->
  let args := pre ++ query pieces in
  match query_value name pieces with
  | Some v => exists q, (length pre <= q)%nat /\ arg_at args name q /\
      (forall j, (length pre <= j < q)%nat -> ~ arg_at args name j) /\
      str_bytes args (arg_value args name q) = v
  | None => pieces <> [] -> forall j, (length pre <= j)%nat -> ~ arg_at args name j
  end.
Proof.
  induction pieces as [|piece pieces IH]; intros pre Hpre Hps Hn args;
    [by intros Hne; destruct Hne|].
  apply Forall_cons in Hps as [Hp Hps].
  set (rest := match pieces with [] => [] | _ => C! "&" :: query pieces end).
  assert (Hargs : args = pre ++ piece ++ rest).
  { unfold args, rest. destruct pieces; cbn; [by rewrite app_nil_r|done]. }
  assert (Hr : after_piece rest) by (unfold rest; destruct pieces; [by left|right; by eexists]).
  pose proof (arg_at_piece pre piece rest name Hpre Hp Hr Hn) as Hat. rewrite <- Hargs in Hat.
  assert (Hin : forall j, (length pre < j <= length pre + length piece)%nat -> ~ arg_at args name j).
  { intros j Hj. rewrite Hargs. by apply arg_at_inside. }
  cbn [query_value]. case_decide as Ep.
  - exists (length pre). split_and!; [lia|by apply Hat|intros; lia|].
    rewrite Hargs. by apply arg_value_piece.
  - assert (Hbefore : forall j, (length pre <= j <= length pre + length piece)%nat ->
      ~ arg_at args name j).
    { intros j Hj. destruct (decide (j = length pre)) as [->|]; [by rewrite Hat|apply Hin; lia]. }
    specialize (IH (pre ++ piece ++ [C! "&"])). cbv zeta in IH.
    assert (Hargs' : pieces <> [] -> (pre ++ piece ++ [C! "&"]) ++ query pieces = args).
    { intros Hne. rewrite Hargs. unfold rest. destruct pieces; [done|]. by rewrite <- !app_assoc. }
    assert (Hlen : length (pre ++ piece ++ [C! "&"]) = (length pre + length piece + 1)%nat)
      by (rewrite !length_app; cbn; lia).
    destruct pieces as [|piece2 pieces].
    + cbn [query_value]. intros _ j Hj. destruct (decide (j <= length pre + length piece)%nat);
        [by apply Hbefore|]. intros (_ & _ & E). rewrite mem_at_end in E; [done|].
      rewrite Hargs, !length_app. cbn [length rest]. subst rest. cbn [length]. lia.
    + rewrite Hargs' in IH by done. specialize (IH ltac:(right; exists (pre ++ piece); by rewrite app_assoc) Hps Hn).
      destruct (query_value name (piece2 :: pieces)) as [v|].
      * destruct IH as (q & Hq & Haq & Hmin & Hv). exists q. split_and!; [lia|done| |done].
        intros j Hj. destruct (decide (j <= length pre + length piece)%nat);
          [apply Hbefore; lia|apply Hmin; lia].
      * intros _ j Hj. destruct (decide (j <= length pre + length piece)%nat);
          [apply Hbefore; lia|apply IH; [done|lia]].
Qed.

(** [ngx_http_arg] returns the value of the first argument of the query
    with the given name, up to the case of the name, and declines exactly when
    the query has no such argument. *)
Theorem http_arg_value (pieces : list (list Z)) (name : list Z) :
  Forall no_amp pieces -> pieces <> [] -> no_nul name -> name <> [] -> no_amp name ->
  (str_bytes (query pieces)) <$> (ngx_http_arg (query pieces) name) = query_value name pieces.
Proof.
  intros Hps Hne Hnul Hnn Hn. destruct name as [|c name]; [done|].
  pose proof (query_first (c :: name) pieces [] (or_introl eq_refl) Hps Hn) as Href.
  cbn [app length] in Href. unfold ngx_http_arg.
  pose proof (arg_loop_first (query pieces) c name (S (length (query pieces))) 0 Hnul ltac:(lia))
    as Hloop.
  assert (Hres : str_bytes (query pieces) <$>
    arg_loop (S (length (query pieces))) (query pieces) (c :: name) 0 = query_value (c :: name) pieces).
  { destruct (arg_loop _ _ _ _) as [v|], (query_value _ _) as [w|].
    - destruct Hloop as (q & _ & Hq & Hqmin & ->), Href as (q' & _ & Hq' & Hqmin' & <-).
      assert (q = q') as ->; [|done]. destruct (Nat.lt_trichotomy q q') as [H|[H|H]]; [|done|].
      + exfalso. by apply (Hqmin' q); [lia|].
      + exfalso. by apply (Hqmin q'); [lia|].
    - destruct Hloop as (q & _ & Hq & _). exfalso. by apply (Href Hne q); [lia|].
    - destruct Href as (q & _ & Hq & _). exfalso. by apply (Hloop q); [lia|].
    - done. }
  case_decide as E; [|done]. rewrite <- Hres, E. done.
Qed.

Lemma http_arg_value_witness :
  str_bytes (query [B! "ab=1"; B! "x"; B! "B=2"; B! "b=3"]) <$>
    ngx_http_arg (query [B! "ab=1"; B! "x"; B! "B=2"; B! "b=3"]) (B! "b") = Some (B! "2").
Proof.
  apply (http_arg_value [B! "ab=1"; B! "x"; B! "B=2"; B! "b=3"] (B! "b"));
    try discriminate; repeat constructor; unfold is_byte; lia.
Defined.

(** ** Unsafe targets *)

Lemma usual_safe ch : usual ch = true -> ch <> 0 /\ ch <> C! "?" /\ ch <> C! "/".
Proof. intros H; split_and!; intros ->; vm_compute in H; done. Qed.

(** The bytes that the loop has gone over. *)
Definition checked (mem : list Z) (lim i : Z) : Prop :=
  mem_at mem i <> 0 /\ mem_at mem i <> C! "?" /\
  (mem_at mem i = C! "/" -> i + 2 < lim ->
   ~ (mem_at mem (i + 1) = C! "." /\ mem_at mem (i + 2) = C! "." /\ mem_at mem (i + 3) = C! "/")).

Lemma unsafe_loop_checked mem len p r :
  unsafe_loop mem p len = Some r ->
  let stop := match r with None => p + Z.of_nat len | Some q => q - 1 end in
  p <= stop <= p + Z.of_nat len /\
  (forall i, p <= i < stop -> checked mem (p + Z.of_nat len) i) /\
  (r <> None -> stop < p + Z.of_nat len /\ mem_at mem stop = C! "?").
Proof.
  revert p. induction len as [|len IH]; intros p E.
  - injection E as <-. cbn. split_and!; [lia|lia|lia|done].
  - assert (Hnext : unsafe_loop mem (p + 1) len = Some r -> checked mem (p + Z.of_nat (S len)) p ->
      let stop := match r with None => p + Z.of_nat (S len) | Some q => q - 1 end in
      p <= stop <= p + Z.of_nat (S len) /\
      (forall i, p <= i < stop -> checked mem (p + Z.of_nat (S len)) i) /\
      (r <> None -> stop < p + Z.of_nat (S len) /\ mem_at mem stop = C! "?")).
    { intros E' Hc. apply IH in E'. cbv zeta in E'.
      replace (p + 1 + Z.of_nat len) with (p + Z.of_nat (S len)) in E' by lia.
      cbv zeta. destruct E' as (H1 & H2 & H3). split_and!; try done; try lia.
      intros i Hi. destruct (Z.eq_dec i p) as [->|]; [done|]. apply H2. lia. }
    cbn [unsafe_loop] in E. revert E. set (ch := mem_at mem p).
    destruct (usual ch) eqn:Eu.
    { intros E. apply usual_safe in Eu as (? & ? & ?). by apply Hnext. }
    destruct (Z.eqb_spec ch (C! "?")) as [Eq|Hq].
    { intros [= <-]. cbv zeta. split_and!; try lia. intros _. split; [lia|].
      by replace (p + 1 - 1) with p by lia. }
    destruct (Z.eqb_spec ch 0) as [|Hz]; [done|].
    destruct (ngx_path_separator ch && _ && _) eqn:Es; [done|]. intros E. apply Hnext; [done|].
    split_and!; [done|done|]. intros Hs Hlim (D1 & D2 & D3). fold ch in Hs. rewrite Hs in Es.
    rewrite D1 in Es. replace (p + 1 + 1) with (p + 2) in Es by lia.
    replace (p + 1 + 2) with (p + 3) in Es by lia. rewrite D2, D3 in Es.
    replace (2 <? S len)%nat with true in Es; [done|]. symmetry. apply Nat.ltb_lt. lia.
Qed.

(** A target that [ngx_http_parse_unsafe_uri] accepts is cut at its first
    question mark, and the path before it is not empty, holds no NUL and no
    [/../]. *)
Theorem unsafe_uri_accepted (mem : list Z) (p len : Z) (args uri' args' : str) :
  0 <= len -> ngx_http_parse_unsafe_uri mem (p, len) args = (NGX_OK, uri', args') ->
  uri'.1 = p /\ 0 < uri'.2 <= len /\
  (forall i, p <= i < p + uri'.2 -> mem_at mem i <> 0 /\ mem_at mem i <> C! "?") /\
  (forall i, p <= i -> i + 3 < p + uri'.2 ->
     ~ (mem_at mem i = C! "/" /\ mem_at mem (i + 1) = C! "." /\ mem_at mem (i + 2) = C! "." /\
        mem_at mem (i + 3) = C! "/")) /\
  (uri'.2 < len -> mem_at mem (p + uri'.2) = C! "?" /\
     args' = (p + uri'.2 + 1, len - uri'.2 - 1)) /\
  (uri'.2 = len -> args' = args).
Proof.
  intros Hlen. unfold ngx_http_parse_unsafe_uri.
  destruct ((len =? 0) || (mem_at mem p =? 63)) eqn:E0; [done|]. zify_bool.
  destruct (_ && _ && _ && _); [done|].
  destruct (unsafe_loop mem p (Z.to_nat len)) as [r|] eqn:E; [|done].
  apply unsafe_loop_checked in E. cbv zeta in E. rewrite Z2Nat.id in E by done.
  destruct E as (Hstop & Hc & Hq).
  assert (Hdots : forall i stop, stop <= p + len -> (forall i, p <= i < stop -> checked mem (p + len) i) ->
    p <= i -> i + 3 < stop -> ~ (mem_at mem i = C! "/" /\ mem_at mem (i + 1) = C! "." /\
      mem_at mem (i + 2) = C! "." /\ mem_at mem (i + 3) = C! "/")).
  { intros i stop Hs Hc' Hi1 Hi2 (D0 & D1 & D2 & D3). destruct (Hc' i) as (_ & _ & Hd); [lia|].
    by apply Hd; [|lia|]. }
  destruct r as [q|]; intros [= <- <-]; cbn [fst snd].
  - destruct Hq as [Hq1 Hq2]; [done|].
    assert (q - 1 <> p) by (intros Eq; rewrite Eq in Hq2; done).
    replace (p + (q - 1 - p)) with (q - 1) by lia.
    split_and!; try lia; try done.
    + intros i Hi. by destruct (Hc i Hi) as (? & ? & _).
    + intros i Hi1 Hi2. apply (Hdots i (q - 1)); [lia|done|done|done].
    + intros _. split; [done|]. f_equal; lia.
  - split_and!; try lia; try done.
    + intros i Hi. by destruct (Hc i Hi) as (? & ? & _).
    + intros i Hi1 Hi2. apply (Hdots i (p + len)); [lia|done|done|done].
Qed.

Lemma unsafe_uri_accepted_witness :
  let mem := B! "/a/b?x" in
  let a := ngx_http_parse_unsafe_uri mem (0, 6) (9, 9) in
  a.1.1 = NGX_OK /\
  (forall i, 0 <= i < 0 + a.1.2.2 -> mem_at mem i <> 0 /\ mem_at mem i <> C! "?").
Proof.
  intros mem a. split; [reflexivity|].
  apply (unsafe_uri_accepted mem 0 6 (9, 9) a.1.2 a.2); [lia|reflexivity].
Defined.

(** Two targets that name the parent directory and are accepted: the first
    check looks at targets of exactly three bytes, and the search for [/../]
    reads the byte after the end of a target that ends with [/..], so that the
    answer depends on it. *)
Example unsafe_uri_accepts_parent :
  (ngx_http_parse_unsafe_uri (B! "../etc/passwd") (0, 13) (0, 0)).1.1 = NGX_OK /\
  (ngx_http_parse_unsafe_uri (B! "a/.. ") (0, 4) (0, 0)).1.1 = NGX_OK /\
  (ngx_http_parse_unsafe_uri (B! "a/../") (0, 4) (0, 0)).1.1 = NGX_ERROR.
Proof. by vm_compute. Qed.

(** ** Cookies *)

(** A header value as clients send it: [name=value] pairs, with a semicolon and
    a space between them. *)
Definition pair_bytes (kv : list Z * list Z) : list Z := kv.1 ++ C! "=" :: kv.2.

Fixpoint cookie_line (pairs : list (list Z * list Z)) : list Z :=
  match pairs with
  | [] => []
  | [kv] => pair_bytes kv
  | kv :: pairs' => pair_bytes kv ++ C! ";" :: C! " " :: cookie_line pairs'
  end.

Fixpoint cookie_value (name : list Z) (pairs : list (list Z * list Z)) : option (list Z) :=
  match pairs with
  | [] => None
  | kv :: pairs' =>
      if decide (map fold_case kv.1 = map fold_case name) then Some kv.2
      else cookie_value name pairs'
  end.

(** The characters of a name, and of a value. *)
Definition cookie_char (c : Z) : Prop :=
  is_byte c /\ c <> 0 /\ c <> C! ";" /\ c <> C! "," /\ c <> C! " " /\ c <> C! "=".
Definition cookie_name (s : list Z) : Prop :=
  s <> [] /\ Forall cookie_char s.
Definition cookie_bytes (s : list Z) : Prop :=
  Forall (fun c => c <> C! ";" /\ c <> C! ",") s /\ head s <> Some (C! " ").

Lemma cookie_chars s :
  Forall cookie_char s ->
  no_nul s /\ Forall (fun c => c <> C! "=") s /\ Forall (fun c => c <> C! ";" /\ c <> C! ",") s.
Proof.
  unfold no_nul. induction 1 as [|c s (? & ? & ? & ? & ? & ?) _ (IH1 & IH2 & IH3)]; [done|].
  split_and!; by constructor.
Qed.

(** What follows a pair. *)
Definition cookie_tail (pairs : list (list Z * list Z)) : list Z :=
  match pairs with [] => [] | _ => C! ";" :: C! " " :: cookie_line pairs end.

Lemma cookie_line_cons kv pairs : cookie_line (kv :: pairs) = pair_bytes kv ++ cookie_tail pairs.
Proof. destruct pairs; cbn; [by rewrite app_nil_r|done]. Qed.

Definition cookie_pairs (pairs : list (list Z * list Z)) : Prop :=
  Forall (fun kv => cookie_name kv.1 /\ cookie_bytes kv.2) pairs.

Lemma skip_spaces_line pairs : cookie_pairs pairs -> skip_spaces (cookie_line pairs) = cookie_line pairs.
Proof.
  intros H. destruct H as [|[k v] pairs [[Hk1 Hk2] _] _]; [done|]. rewrite cookie_line_cons.
  unfold pair_bytes. cbn in *. destruct k as [|c k]; [done|]. cbn.
  apply Forall_cons in Hk2 as [(_ & _ & _ & _ & Hc & _) _]. by rewrite (proj2 (Z.eqb_neq _ _)).
Qed.

(** Skipping the rest of a pair. *)
Lemma skip_rest s pairs :
  Forall (fun c => c <> C! ";" /\ c <> C! ",") s -> cookie_pairs pairs ->
  skip_spaces (skip_value (s ++ cookie_tail pairs)) = cookie_line pairs.
Proof.
  intros Hs Hp. induction Hs as [|c s [H1 H2] _ IH]; cbn.
  - destruct pairs; [done|]. cbn [cookie_tail skip_value skip_spaces].
    change (59 =? 59) with true. change (32 =? 32) with true. cbn [orb]. cbv iota.
    by apply skip_spaces_line.
  - rewrite !(proj2 (Z.eqb_neq _ _)) by done. done.
Qed.

Lemma until_semicolon_tail v pairs :
  Forall (fun c => c <> C! ";" /\ c <> C! ",") v -> until_semicolon (v ++ cookie_tail pairs) = v.
Proof.
  induction 1 as [|c v [Hc _] _ IH]; cbn; [by destruct pairs|].
  rewrite (proj2 (Z.eqb_neq _ _)) by done. by rewrite IH.
Qed.

Lemma ci_prefix_length name s : ci_prefix name s -> (length name <= length s)%nat.
Proof. intros H. apply (f_equal length) in H. rewrite !length_map, length_take in H. lia. Qed.

(** A name without an equals sign that matches a pair matches its key. *)
Lemma ci_prefix_key name k rest :
  Forall (fun c => c <> C! "=") name ->
  ci_prefix name (k ++ C! "=" :: rest) -> ci_prefix name k /\ (length name <= length k)%nat.
Proof.
  intros Hn. revert k. unfold ci_prefix. induction Hn as [|c name Hc _ IH]; intros k E; [by cbn; split; [|lia]|].
  destruct k as [|d k]; cbn in E.
  - injection E as E _. symmetry in E. change (fold_case 61) with 61 in E. apply fold_case_other in E; [done|lia].
  - injection E as E1 E2. destruct (IH k E2) as [IH1 IH2]. cbn. split; [by rewrite E1, IH1|lia].
Qed.

Lemma multi_loop_cookies name pairs fuel :
  cookie_name name -> cookie_pairs pairs -> (length (cookie_line pairs) < fuel)%nat ->
  multi_loop fuel name true (cookie_line pairs) = cookie_value name pairs.
Proof.
  intros [Hn0 Hn] Hps. revert fuel. induction Hps as [|[k v] pairs [[Hk0 Hk] [Hv Hv0]] Hps IH];
    intros fuel Hf; destruct fuel as [|fuel]; try (cbn in Hf; lia); [done|].
  cbn [multi_loop]. cbn [fst snd] in *.
  destruct (cookie_chars name Hn) as (Hnul & Hneq & _). destruct (cookie_chars k Hk) as (_ & _ & Hk2).
  assert (Hkp : Forall (fun c => c <> C! ";" /\ c <> C! ",") (k ++ C! "=" :: v)).
  { apply Forall_app. split; [done|by constructor]. }
  rewrite cookie_line_cons in *. unfold pair_bytes in *. cbn [fst snd] in *.
  rewrite decide_False by (by destruct k).
  assert (Hskip : forall s, Forall (fun c => c <> C! ";" /\ c <> C! ",") s ->
    (0 < length s <= length (k ++ C! "=" :: v))%nat ->
    multi_loop fuel name true (skip_spaces (skip_value (s ++ cookie_tail pairs))) =
    cookie_value name pairs).
  { intros s Hs Hlen. rewrite skip_rest by done. apply IH.
    assert (length (cookie_line pairs) <= length (cookie_tail pairs))%nat
      by (destruct pairs; [done|cbn [cookie_tail length]; lia]).
    rewrite length_app in Hf. lia. }
  cbn [cookie_value fst snd].
  destruct (Z.eqb_spec (ngx_strncasecmp ((k ++ C! "=" :: v) ++ cookie_tail pairs) name (length name)) 0)
    as [E|E]; cbn [negb].
  - apply strncasecmp_prefix in E; [|done]. rewrite <- app_assoc in E. cbn [app] in E.
    apply ci_prefix_key in E as [Eci Hle]; [|done].
    destruct (decide (length name = length k)) as [El|El].
    + rewrite decide_True by (unfold ci_prefix in Eci; rewrite take_ge in Eci by lia; done).
      rewrite <- app_assoc, drop_app_length' by lia. cbn [app skip_spaces].
      change (61 =? 32) with false. cbv iota. change (61 =? 61) with true. cbn [negb].
      replace (skip_spaces (v ++ cookie_tail pairs)) with (v ++ cookie_tail pairs);
        [by rewrite until_semicolon_tail|].
      destruct v as [|c v]; [by destruct pairs|]. cbn.
      rewrite (proj2 (Z.eqb_neq c 32)); [done|]. intros ->. by apply Hv0.
    + rewrite decide_False by (intros E; apply (f_equal length) in E; rewrite !length_map in E; lia).
      destruct (drop (length name) k) as [|c k'] eqn:Ed;
        [apply (f_equal length) in Ed; rewrite length_drop in Ed; cbn in Ed; lia|].
      assert (Hc : c <> C! " " /\ c <> C! "=" /\ Forall (fun c => c <> C! ";" /\ c <> C! ",") k').
      { rewrite <- (take_drop (length name) k), Ed in Hk. apply Forall_app in Hk as [_ Hk].
        apply Forall_cons in Hk as [(_ & _ & _ & _ & ? & ?) Hk]. split_and!; [done|done|].
        by apply cookie_chars. }
      destruct Hc as (Hc1 & Hc2 & Hk').
      rewrite <- app_assoc, drop_app_le, Ed by lia. cbn [app skip_spaces].
      rewrite (proj2 (Z.eqb_neq c 32)) by done. rewrite (proj2 (Z.eqb_neq c 61)) by done. cbn [negb].
      specialize (Hskip (k' ++ C! "=" :: v)). rewrite <- app_assoc in Hskip. apply Hskip.
      * apply Forall_app. split; [done|by constructor].
      * apply (f_equal length) in Ed. rewrite length_drop in Ed. rewrite !length_app. cbn in *. lia.
  - rewrite decide_False; [apply Hskip; [done|rewrite length_app; cbn; lia]|].
    intros Eq. apply E, strncasecmp_prefix; [done|]. unfold ci_prefix. rewrite <- Eq.
    apply (f_equal length) in Eq. rewrite !length_map in Eq.
    by rewrite <- app_assoc, take_app_length' by lia.
Qed.

(** Looking a name up in a header made of [name=value] pairs gives the
    value of the first pair with that name, up to the case of the name, and
    nothing when no pair has it; a name that is a prefix of another one, or
    occurs in a value, is not mistaken for it. *)
Theorem multi_header_cookie (name : list Z) (pairs : list (list Z * list Z)) :
  cookie_name name -> cookie_pairs pairs ->
  snd <$> ngx_http_parse_multi_header_lines [cookie_line pairs] name true = cookie_value name pairs.
Proof.
  intros Hn Hp. unfold ngx_http_parse_multi_header_lines. cbn [multi_header_lines].
  rewrite multi_loop_cookies by (done || lia).
  destruct (Nat.ltb_spec (length (cookie_line pairs)) (length name)) as [Hl|Hl].
  - cbn. destruct (cookie_value name pairs) as [v|] eqn:E; [|done]. exfalso.
    clear Hp. induction pairs as [|[k w] pairs IH]; [done|]. cbn [cookie_value fst snd] in E.
    rewrite cookie_line_cons in Hl. unfold pair_bytes in Hl. cbn [fst snd] in Hl.
    rewrite !length_app in Hl. cbn [length] in Hl. case_decide as Ek.
    + apply (f_equal length) in Ek. rewrite !length_map in Ek. lia.
    + apply IH; [destruct pairs; cbn in *; lia|done].
  - by destruct (cookie_value name pairs).
Qed.

Lemma multi_header_cookie_witness :
  snd <$> ngx_http_parse_multi_header_lines
    [cookie_line [(B! "uid2", B! "uid=7"); (B! "UID", B! "abc")]] (B! "uid") true = Some (B! "abc").
Proof.
  apply (multi_header_cookie (B! "uid") [(B! "uid2", B! "uid=7"); (B! "UID", B! "abc")]).
  - split; [discriminate|]. repeat constructor; unfold is_byte; lia.
  - repeat constructor; try discriminate; unfold is_byte; lia.
Defined.
