(* ===== verification/NgxInet.v ===== *)
(** * Addresses

    The functions of src/nginx-1.4.7/src/core/ngx_inet.c that read and print
    IPv4 and IPv6 addresses and prefixes.  An [in_addr_t] is the number that the
    machine reads from its four bytes in network order, on a little-endian
    machine; an IPv6 address is the list of its 16 bytes. *)
From S2P Require Import Prelude NgxNumber NgxSprintf NgxStrings.

(** ** Reading *)

Definition INADDR_NONE : Z := 4294967295.

Definition htonl (z : Z) : Z :=
  Z.lor (Z.lor (Z.shiftl (Z.land z 255) 24) (Z.shiftl (Z.land (Z.shiftr z 8) 255) 16))
        (Z.lor (Z.shiftl (Z.land (Z.shiftr z 16) 255) 8) (Z.land (Z.shiftr z 24) 255)).
Definition ntohl (z : Z) : Z := htonl z.

(** The bytes of an [in_addr_t] in memory. *)
Definition in_addr_bytes (z : Z) : list Z :=
  [Z.land z 255; Z.land (Z.shiftr z 8) 255; Z.land (Z.shiftr z 16) 255; Z.land (Z.shiftr z 24) 255].

(** [core/ngx_inet.c:28-45] for *)
Fixpoint inet_loop (text : list Z) (addr octet n : Z) : option (Z * Z * Z) :=
  match text with
  | [] => Some (addr, octet, n)
  | c :: text' =>
      if (C! "0" <=? c) && (c <=? C! "9") then inet_loop text' addr (u64 (octet * 10 + (c - C! "0"))) n
      else if (c =? C! ".") && (octet <? 256) then inet_loop text' (u32 (Z.shiftl addr 8 + octet)) 0 (n + 1)
      else None
  end.

(** [core/ngx_inet.c:17-53] ngx_inet_addr *)
Definition ngx_inet_addr (text : list Z) : Z :=
  match inet_loop text 0 0 0 with
  | None => INADDR_NONE
  | Some (addr, octet, n) =>
      if (n =? 3) && (octet <? 256) then htonl (u32 (Z.shiftl addr 8 + octet)) else INADDR_NONE
  end.

(** The variables of the loop; [i6_addr] holds the bytes written so far,
    [i6_zero] the place of the double colon in it, and [i6_digit] the text from
    the last colon on, which is what the pointer [digit] and [len4 - 1] give.
    [core/ngx_inet.c:61-74] ngx_inet6_addr *)
Record i6_vars : Type := {
  i6_addr : list Z; i6_zero : option nat; i6_digit : option (list Z);
  i6_nibbles : Z; i6_word : Z; i6_n : Z
}.

(** [*addr++ = (u_char) (word >> 8); *addr++ = (u_char) (word & 0xff)]
    [core/ngx_inet.c:88-89] ngx_inet6_addr *)
Definition put_word (word : Z) (addr : list Z) : list Z :=
  addr ++ [u8 (Z.shiftr word 8); u8 (Z.land word 255)].

(** [None] is [return NGX_ERROR].
    [core/ngx_inet.c:81-143] for *)
Fixpoint inet6_loop (p : list Z) (s : i6_vars) : option i6_vars :=
  match p with
  | [] => Some s
  | c :: p =>
      if c =? C! ":" then
        if negb (i6_nibbles s =? 0) then
          let n := i6_n s - 1 in
          if negb (n =? 0) then
            inet6_loop p {| i6_addr := put_word (i6_word s) (i6_addr s); i6_zero := i6_zero s; i6_digit := Some p;
                            i6_nibbles := 0; i6_word := 0; i6_n := n |}
          else None
        else
          match i6_zero s with
          | None => inet6_loop p {| s with i6_digit := Some p; i6_zero := Some (length (i6_addr s)) |}
          | Some _ => None
          end
      else if (c =? C! ".") && negb (i6_nibbles s =? 0) then
        match i6_digit s with
        | None => None
        | Some digit =>
            if i6_n s <? 2 then None
            else
              let word := ngx_inet_addr digit in
              if word =? INADDR_NONE then None
              else
                let word := ntohl word in
                Some {| s with i6_addr := i6_addr s ++ [u8 (Z.land (Z.shiftr word 24) 255); u8 (Z.land (Z.shiftr word 16) 255)];
                               i6_word := word; i6_n := i6_n s - 1 |}
        end
      else
        let nibbles := i6_nibbles s + 1 in
        if 4 <? nibbles then None
        else if (C! "0" <=? c) && (c <=? C! "9") then
          inet6_loop p {| s with i6_nibbles := nibbles; i6_word := i6_word s * 16 + (c - C! "0") |}
        else
          let c := Z.lor c 32 in
          if (C! "a" <=? c) && (c <=? C! "f") then
            inet6_loop p {| s with i6_nibbles := nibbles; i6_word := i6_word s * 16 + (c - C! "a") + 10 |}
          else None
  end.

(** The bytes from [zero] on move to the end, and zeros take their place.
    [core/ngx_inet.c:152-171] if (--n) *)
Definition inet6_end (addr : list Z) (zero : option nat) (n : Z) : option (list Z) :=
  if negb (n =? 0) then
    match zero with
    | Some z => Some (take z addr ++ repeat 0 (Z.to_nat (n * 2)) ++ drop z addr)
    | None => None
    end
  else match zero with None => Some addr | Some _ => None end.

(** The 16 bytes, or [None] for [NGX_ERROR].
    [core/ngx_inet.c:58-171] ngx_inet6_addr *)
Definition ngx_inet6_addr (p : list Z) : option (list Z) :=
  match p with
  | [] => None
  | c :: p' =>
      let p := if c =? C! ":" then p' else p in
      match inet6_loop p {| i6_addr := []; i6_zero := None; i6_digit := None; i6_nibbles := 0; i6_word := 0; i6_n := 8 |} with
      | None => None
      | Some s =>
          if (i6_nibbles s =? 0) && bool_decide (i6_zero s = None) then None
          else inet6_end (put_word (i6_word s) (i6_addr s)) (i6_zero s) (i6_n s - 1)
      end
  end.

(** ** Printing *)

Definition NGX_INET6_ADDRSTRLEN : Z := 45.

(** The longest run of zero groups: [zero] and [max].
    [core/ngx_inet.c:291-312] for *)
Fixpoint ntop_scan (k : nat) (p : list Z) (i zero last max n : Z) : Z * Z :=
  match k with
  | O => if max <? n then (last, n) else (zero, max)
  | S k =>
      if negb (mem_at p i =? 0) || negb (mem_at p (i + 1) =? 0) then
        if max <? n then ntop_scan k p (i + 2) last last n 0 else ntop_scan k p (i + 2) zero last max 0
      else if n =? 0 then ntop_scan k p (i + 2) zero i max 1
      else ntop_scan k p (i + 2) zero last max (n + 1)
  end.

Definition print_hex (z : Z) : vs_error + list Z := ngx_sprintf (B! "%uxi") [VInt z].

Definition vs_append (a b : vs_error + list Z) : vs_error + list Z :=
  match a, b with inl e, _ => inl e | _, inl e => inl e | inr x, inr y => inr (x ++ y) end.

(** [core/ngx_inet.c:329-342] for *)
Fixpoint ntop_print (k : nat) (p : list Z) (i zero max n : Z) : vs_error + list Z :=
  match k with
  | O => inl NoFuel
  | S k =>
      if i <? n then
        if i =? zero then vs_append (inr (B! ":")) (ntop_print k p (i + (max - 1) * 2 + 2) zero max n)
        else
          vs_append (vs_append (print_hex (mem_at p i * 256 + mem_at p (i + 1))) (inr (if i <? 14 then B! ":" else [])))
            (ntop_print k p (i + 2) zero max n)
      else inr []
  end.

(** [core/ngx_inet.c:315-324] n *)
Definition ntop_groups (p : list Z) (zero max : Z) : Z :=
  if zero =? 0 then
    if ((max =? 5) && (mem_at p 10 =? 255) && (mem_at p 11 =? 255)) || (max =? 6)
       || ((max =? 7) && negb (mem_at p 14 =? 0) && negb (mem_at p 15 =? 1))
    then 12 else 16
  else 16.

Definition print_dotted (a b c d : Z) : vs_error + list Z :=
  ngx_sprintf (B! "%ud.%ud.%ud.%ud") [VInt a; VInt b; VInt c; VInt d].

(** [core/ngx_inet.c:275-349] ngx_inet6_ntop *)
Definition ngx_inet6_ntop (p : list Z) (len : Z) : vs_error + list Z :=
  if len <? NGX_INET6_ADDRSTRLEN then inr []
  else
    let (zero, max) := ntop_scan 8 p 0 (u64 (-1)) (u64 (-1)) 1 0 in
    let n := ntop_groups p zero max in
    vs_append (inr (if zero =? 0 then B! ":" else []))
      (vs_append (ntop_print 9 p 0 zero max n)
         (if n =? 12 then print_dotted (mem_at p 12) (mem_at p 13) (mem_at p 14) (mem_at p 15) else inr [])).

Inductive inet_family : Type := AF_INET | AF_INET6 | AF_OTHER.

(** [core/ngx_inet.c:245-270] ngx_inet_ntop *)
Definition ngx_inet_ntop (family : inet_family) (p : list Z) (len : Z) : vs_error + list Z :=
  match family with
  | AF_INET => ngx_snprintf len (B! "%ud.%ud.%ud.%ud")
                 [VInt (mem_at p 0); VInt (mem_at p 1); VInt (mem_at p 2); VInt (mem_at p 3)]
  | AF_INET6 => ngx_inet6_ntop p len
  | AF_OTHER => inr []
  end.

(** The socket addresses of the families that the code knows, with the port in
    host order. *)
Inductive sockaddr : Type :=
| SockInet (addr : list Z) (port : Z)
| SockInet6 (addr : list Z) (port : Z)
| SockUnix (path : list Z)
| SockOther.

(** The text and its length; of a path the length leaves out the NUL.
    [core/ngx_inet.c:176-242] ngx_sock_ntop *)
Definition ngx_sock_ntop (sa : sockaddr) (len : Z) (port : bool) : vs_error + list Z :=
  match sa with
  | SockInet p sin_port =>
      if port then
        ngx_snprintf len (B! "%ud.%ud.%ud.%ud:%d")
          [VInt (mem_at p 0); VInt (mem_at p 1); VInt (mem_at p 2); VInt (mem_at p 3); VInt sin_port]
      else
        ngx_snprintf len (B! "%ud.%ud.%ud.%ud")
          [VInt (mem_at p 0); VInt (mem_at p 1); VInt (mem_at p 2); VInt (mem_at p 3)]
  | SockInet6 p sin6_port =>
      if port then
        vs_append (inr (B! "[")) (vs_append (ngx_inet6_ntop p len) (ngx_sprintf (B! "]:%d") [VInt sin6_port]))
      else ngx_inet6_ntop p len
  | SockUnix path =>
      match ngx_snprintf len (B! "unix:%s%Z") [VCStr path] with
      | inl e => inl e
      | inr out => inr (take (length out - 1) out)
      end
  | SockOther => inr []
  end.

(** A colon too many at either end is not noticed. *)
Example inet6_stray_colons :
  ngx_inet6_addr (B! ":1:2:3:4:5:6:7:8") = ngx_inet6_addr (B! "1:2:3:4:5:6:7:8") /\
  ngx_inet6_addr (B! "::1:") = ngx_inet6_addr (B! "::1:0") /\ ngx_inet6_addr (B! "::1:") <> None.
Proof. by vm_compute. Qed.

(** Empty octets are read as 0, and octets wrap. *)
Example inet_odd_octets :
  in_addr_bytes (ngx_inet_addr (B! "...")) = [0; 0; 0; 0] /\
  in_addr_bytes (ngx_inet_addr (B! "18446744073709551617.0.0.1")) = [1; 0; 0; 1].
Proof. by vm_compute. Qed.

(** ** Digits *)

Lemma put_digits_mono digit base room room' n acc out :
  put_digits digit base room n acc = Some out -> (room <= room')%nat -> put_digits digit base room' n acc = Some out.
Proof.
  revert room' n acc; induction room as [|room IH]; intros room' n acc; [done|]. destruct room' as [|room']; [lia|].
  cbn [put_digits]. destruct (n / base =? 0); [done|]. intros H Hr. apply (IH room' _ _ H). lia.
Qed.

(** Numbers with few digits. *)
Lemma num_digits_short n hexadecimal room :
  0 <= n < num_base hexadecimal ^ Z.of_nat room -> (0 < room <= 20)%nat ->
  exists ds, num_digits n hexadecimal = Some (map (num_digit hexadecimal) ds) /\
    Forall (fun d => 0 <= d < num_base hexadecimal) ds /\
    base_value (num_base hexadecimal) 0 ds = n /\ (0 < length ds <= room)%nat.
Proof.
  intros Hn Hr. assert (2 <= num_base hexadecimal) by (unfold num_base; case_match; lia).
  destruct (put_digits_spec (num_digit hexadecimal) (num_base hexadecimal) room n []) as (ds & E & H'); [done|done|lia|].
  rewrite app_nil_r in E. exists ds. split; [|done]. rewrite num_digits_eq by (by destruct Hn).
  apply (put_digits_mono _ _ room); [done|lia].
Qed.

(** The text of a byte in decimal, and of 16 bits in hexadecimal. *)
Definition dec_text (n : Z) : list Z := default [] (num_digits n 0).
Definition hex_text (n : Z) : list Z := default [] (num_digits n 1).

Lemma dec_text_spec n :
  0 <= n < 256 -> num_digits n 0 = Some (dec_text n) /\ (0 < length (dec_text n) <= 3)%nat /\
  Forall dec_digit (dec_text n) /\ dec_value 0 (dec_text n) = n.
Proof.
  intros Hn. destruct (num_digits_short n 0 3) as (ds & E & Hds & Hv & Hl); [change (0 <= n < 1000); lia|lia|].
  assert (Et : dec_text n = map (num_digit 0) ds) by (unfold dec_text; by rewrite E).
  rewrite Et, length_map. destruct (dec_value_digits ds 0 Hds) as [H1 H2].
  split_and!; [done|lia|lia|done|by rewrite H2].
Qed.

Lemma hex_text_spec n :
  0 <= n < 65536 -> exists ds, num_digits n 1 = Some (hex_text n) /\ hex_text n = map hex_lower ds /\
    Forall (fun d => 0 <= d < 16) ds /\ base_value 16 0 ds = n /\ (0 < length ds <= 4)%nat.
Proof.
  intros Hn. destruct (num_digits_short n 1 4) as (ds & E & H'); [done|lia|].
  exists ds. unfold hex_text. by rewrite E.
Qed.

(** ** Conversions *)

Lemma vs_put_num_short room n f out :
  vs_width f = 0 -> 0 <= n < 2 ^ 64 -> num_digits n (vs_hex f) = Some out -> Z.of_nat (length out) <= room ->
  vs_put_num room false n f = inr out.
Proof.
  intros Hw Hn Hd Hr. unfold vs_put_num. cbn [andb].
  destruct (sprintf_num_fits room n (vs_zero f) (vs_hex f) (vs_width f)) as (o & temp & -> & _ & E & Ho); [lia|lia|].
  rewrite Hd in E. injection E as <-. rewrite Ho by lia. rewrite Hw. done.
Qed.

Lemma directive_ud room n fmt args :
  0 <= n < 256 -> 3 <= room ->
  vs_directive room (C! "u" :: C! "d" :: fmt) (VInt n :: args) = inr (dec_text n, fmt, args).
Proof.
  intros Hn Hr. destruct (dec_text_spec n Hn) as (Hd & Hl & _).
  change (vs_directive room (C! "u" :: C! "d" :: fmt) (VInt n :: args)) with
    (match vs_put_num room false (u32 n) {| vs_zero := C! " "; vs_width := 0; vs_sign := false; vs_hex := 0;
       vs_max_width := false; vs_frac_width := 0; vs_slen := u64 (-1) |} with
     | inl e => inl e | inr out => inr (out, fmt, args) end).
  rewrite (vs_put_num_short room (u32 n) _ (dec_text n)); [done|done| |unfold u32; by rewrite Z.mod_small by lia|lia].
  pose proof (u32_range n). lia.
Qed.

Lemma print_hex_text n : 0 <= n < 65536 -> print_hex n = inr (hex_text n).
Proof.
  intros Hn. destruct (hex_text_spec n Hn) as (ds & Hd & Et & _ & _ & Hl).
  assert (Hlen : (length (hex_text n) <= 4)%nat) by (rewrite Et, length_map; lia).
  unfold print_hex, ngx_sprintf, ngx_vslprintf. cbn [length]. rewrite vslprintf_directive by lia.
  change (vs_directive (2 ^ 63) (B! "uxi") [VInt n]) with
    (match vs_put_num (2 ^ 63) false (u64 n) {| vs_zero := C! " "; vs_width := 0; vs_sign := false; vs_hex := 1;
       vs_max_width := false; vs_frac_width := 0; vs_slen := u64 (-1) |} with
     | inl e => inl e | inr out => inr (out, @nil Z, @nil varg) end).
  rewrite (vs_put_num_short _ (u64 n) _ (hex_text n)); [cbn; by rewrite app_nil_r|done| |by rewrite u64_small by lia|lia].
  rewrite u64_small; lia.
Qed.

(** The four octets with dots. *)
Definition dotted (a b c d : Z) : list Z :=
  dec_text a ++ C! "." :: dec_text b ++ C! "." :: dec_text c ++ C! "." :: dec_text d.

Lemma snprintf_dotted room a b c d :
  is_byte a -> is_byte b -> is_byte c -> is_byte d -> 15 <= room ->
  ngx_snprintf room (B! "%ud.%ud.%ud.%ud") [VInt a; VInt b; VInt c; VInt d] = inr (dotted a b c d).
Proof.
  unfold is_byte. intros Ha Hb Hc Hd Hr. unfold ngx_snprintf, ngx_vslprintf, dotted. cbn [length].
  destruct (dec_text_spec a Ha) as (_ & La & _), (dec_text_spec b Hb) as (_ & Lb & _),
    (dec_text_spec c Hc) as (_ & Lc & _), (dec_text_spec d Hd) as (_ & Ld & _).
  repeat (rewrite vslprintf_directive, directive_ud by lia; cbv iota; try (rewrite vslprintf_plain by lia)).
  cbn [vslprintf]. by rewrite app_nil_r.
Qed.

(** ** IPv4 *)

Lemma land_255 z : Z.land z 255 = z mod 256.
Proof. exact (Z.land_ones z 8 ltac:(lia)). Qed.

(** Four bytes as a number. *)
Definition be32 (a b c d : Z) : Z := ((a * 256 + b) * 256 + c) * 256 + d.

Lemma be32_bytes a b c d :
  is_byte a -> is_byte b -> is_byte c -> is_byte d ->
  Z.land (be32 a b c d) 255 = d /\ Z.land (Z.shiftr (be32 a b c d) 8) 255 = c /\
  Z.land (Z.shiftr (be32 a b c d) 16) 255 = b /\ Z.land (Z.shiftr (be32 a b c d) 24) 255 = a.
Proof.
  unfold is_byte, be32. intros Ha Hb Hc Hd. rewrite !land_255, !Z.shiftr_div_pow2 by lia.
  change (2 ^ 8) with 256. change (2 ^ 16) with 65536. change (2 ^ 24) with 16777216.
  split_and!; Z.to_euclidean_division_equations; lia.
Qed.

Lemma lor_bytes a b c d :
  is_byte a -> is_byte b -> is_byte c -> is_byte d ->
  Z.lor (Z.lor (Z.shiftl a 24) (Z.shiftl b 16)) (Z.lor (Z.shiftl c 8) d) = be32 a b c d.
Proof.
  unfold is_byte, be32. intros Ha Hb Hc Hd. rewrite (lor_shiftl_add c d 8) by lia.
  replace (Z.shiftl a 24) with (Z.shiftl (Z.shiftl a 8) 16) by (by rewrite Z.shiftl_shiftl by lia).
  rewrite <- Z.shiftl_lor, (lor_shiftl_add a b 8) by lia. rewrite lor_shiftl_add by lia. lia.
Qed.

Lemma htonl_be32 a b c d :
  is_byte a -> is_byte b -> is_byte c -> is_byte d -> htonl (be32 a b c d) = be32 d c b a.
Proof.
  intros Ha Hb Hc Hd. unfold htonl. destruct (be32_bytes a b c d) as (-> & -> & -> & ->); [done..|]. by apply lor_bytes.
Qed.

Lemma in_addr_bytes_htonl a b c d :
  is_byte a -> is_byte b -> is_byte c -> is_byte d -> in_addr_bytes (htonl (be32 a b c d)) = [a; b; c; d].
Proof.
  intros Ha Hb Hc Hd. rewrite htonl_be32 by done. unfold in_addr_bytes.
  by destruct (be32_bytes d c b a) as (-> & -> & -> & ->).
Qed.

Lemma u64_step v k d : u64 (u64 v * k + d) = u64 (v * k + d).
Proof. unfold u64. by rewrite <- Zplus_mod_idemp_l, Zmult_mod_idemp_l, Zplus_mod_idemp_l. Qed.

Lemma inet_loop_digits ds rest addr o n :
  Forall dec_digit ds -> inet_loop (ds ++ rest) addr (u64 o) n = inet_loop rest addr (u64 (dec_value o ds)) n.
Proof.
  intros Hd. revert o. induction Hd as [|c ds Hc _ IH]; intros o; [done|]. unfold dec_digit in Hc. cbn [app inet_loop].
  decide_tests. rewrite u64_step. apply IH.
Qed.

Lemma inet_loop_octet x rest addr n :
  is_byte x -> inet_loop (dec_text x ++ C! "." :: rest) addr 0 n = inet_loop rest (u32 (Z.shiftl addr 8 + x)) 0 (n + 1).
Proof.
  intros Hx. destruct (dec_text_spec x Hx) as (_ & _ & Hd & Hv). unfold is_byte in Hx.
  change 0 with (u64 0) at 1. rewrite inet_loop_digits, Hv, u64_small by (done || lia). cbn [inet_loop]. by decide_tests.
Qed.

Lemma shift_octet addr x : 0 <= addr < 2 ^ 24 -> is_byte x -> u32 (Z.shiftl addr 8 + x) = addr * 256 + x.
Proof. unfold is_byte. intros Ha Hx. rewrite Z.shiftl_mul_pow2 by lia. unfold u32. rewrite Z.mod_small by lia. lia. Qed.

Lemma inet_addr_dotted a b c d :
  is_byte a -> is_byte b -> is_byte c -> is_byte d -> ngx_inet_addr (dotted a b c d) = htonl (be32 a b c d).
Proof.
  intros Ha Hb Hc Hd. unfold ngx_inet_addr, dotted. rewrite !inet_loop_octet by done.
  destruct (dec_text_spec d Hd) as (_ & _ & Hds & Hv). rewrite <- (app_nil_r (dec_text d)).
  rewrite (inet_loop_digits _ _ _ 0 _ Hds : inet_loop _ _ 0 _ = _), Hv. cbn [inet_loop].
  unfold is_byte, be32 in *. rewrite u64_small by lia. decide_tests. f_equal.
  rewrite (shift_octet 0) by (unfold is_byte; lia). rewrite (shift_octet (0 * 256 + a)) by (unfold is_byte; lia).
  rewrite (shift_octet ((0 * 256 + a) * 256 + b)) by (unfold is_byte; lia). rewrite shift_octet; unfold is_byte; lia.
Qed.

(** ** IPv6: reading *)

(** An address as its groups of two bytes. *)
Abbreviation group := (Z * Z)%type (only parsing).
Definition group_ok (g : group) : Prop := is_byte g.1 /\ is_byte g.2.
Definition group_val (g : group) : Z := g.1 * 256 + g.2.

Fixpoint group_bytes (gs : list group) : list Z :=
  match gs with [] => [] | g :: gs' => g.1 :: g.2 :: group_bytes gs' end.

Lemma group_bytes_app gs gs' : group_bytes (gs ++ gs') = group_bytes gs ++ group_bytes gs'.
Proof. induction gs as [|g gs IH]; cbn; [done|]. by rewrite IH. Qed.

Lemma length_group_bytes gs : length (group_bytes gs) = (2 * length gs)%nat.
Proof. induction gs as [|g gs IH]; cbn [group_bytes length]; [done|]. rewrite IH. lia. Qed.

Lemma group_bytes_zeros m : group_bytes (repeat (0, 0) m) = repeat 0 (2 * m).
Proof.
  induction m as [|m IH]; [done|]. cbn [repeat group_bytes fst snd]. rewrite IH.
  by replace (2 * S m)%nat with (S (S (2 * m))) by lia.
Qed.

Lemma put_group g addr : group_ok g -> put_word (group_val g) addr = addr ++ [g.1; g.2].
Proof.
  intros [H1 H2]. unfold is_byte in *. unfold put_word, group_val, u8. rewrite land_255, Z.shiftr_div_pow2 by lia.
  change (2 ^ 8) with 256. do 2 f_equal; [|f_equal]; Z.to_euclidean_division_equations; lia.
Qed.

Lemma hex_lower_step d p s :
  0 <= d < 16 -> i6_nibbles s < 4 ->
  inet6_loop (hex_lower d :: p) s =
  inet6_loop p {| s with i6_nibbles := i6_nibbles s + 1; i6_word := i6_word s * 16 + d |}.
Proof.
  intros Hd Hn. pose proof (in_range 0 16 d ltac:(lia)) as Hin. cbn in Hin.
  repeat (destruct Hin as [<-|Hin];
    [match goal with |- inet6_loop (hex_lower ?k :: _) _ = _ =>
       let c := eval vm_compute in (hex_lower k) in change (hex_lower k) with c end;
     cbn [inet6_loop]; decide_tests; cbv zeta; decide_tests;
     try (match goal with |- context [Z.lor ?a 32] => change (Z.lor a 32) with a end; decide_tests); apply (f_equal (inet6_loop p)); f_equal; lia|]).
  done.
Qed.

Lemma loop_hex ds p s :
  Forall (fun d => 0 <= d < 16) ds -> i6_nibbles s + Z.of_nat (length ds) <= 4 ->
  inet6_loop (map hex_lower ds ++ p) s =
  inet6_loop p {| s with i6_nibbles := i6_nibbles s + Z.of_nat (length ds); i6_word := base_value 16 (i6_word s) ds |}.
Proof.
  intros Hd. revert s. induction Hd as [|d ds Hd _ IH]; intros s Hn; cbn [map app length] in *.
  - destruct s. cbn. by rewrite Z.add_0_r.
  - rewrite hex_lower_step by (done || lia). rewrite IH by (cbn; lia). cbn. do 2 f_equal. lia.
Qed.

(** A group and its colon. *)
Definition fresh (addr : list Z) (zero : option nat) (digit : option (list Z)) (n : Z) : i6_vars :=
  {| i6_addr := addr; i6_zero := zero; i6_digit := digit; i6_nibbles := 0; i6_word := 0; i6_n := n |}.

Lemma group_val_range g : group_ok g -> 0 <= group_val g < 65536.
Proof. unfold group_ok, is_byte, group_val. lia. Qed.

Lemma loop_group_digits g p addr zero digit n :
  group_ok g -> exists k, 0 < k <= 4 /\
  inet6_loop (hex_text (group_val g) ++ p) (fresh addr zero digit n) =
  inet6_loop p {| i6_addr := addr; i6_zero := zero; i6_digit := digit; i6_nibbles := k; i6_word := group_val g; i6_n := n |}.
Proof.
  intros Hg. destruct (hex_text_spec _ (group_val_range g Hg)) as (ds & _ & -> & Hds & Hv & Hl).
  exists (Z.of_nat (length ds)). split; [lia|]. rewrite loop_hex by (done || (cbn; lia)). cbn. by rewrite Hv.
Qed.

Lemma loop_group g p addr zero digit n :
  group_ok g -> 2 <= n ->
  inet6_loop (hex_text (group_val g) ++ C! ":" :: p) (fresh addr zero digit n) =
  inet6_loop p (fresh (addr ++ [g.1; g.2]) zero (Some p) (n - 1)).
Proof.
  intros Hg Hn. destruct (loop_group_digits g (C! ":" :: p) addr zero digit n Hg) as (k & Hk & ->).
  cbn [inet6_loop i6_nibbles i6_n i6_addr i6_word i6_zero fresh]. decide_tests. cbv zeta. decide_tests.
  by rewrite put_group.
Qed.

Fixpoint groups_text (gs : list group) : list Z :=
  match gs with [] => [] | g :: gs' => (hex_text (group_val g) ++ [C! ":"]) ++ groups_text gs' end.

Lemma loop_groups gs p addr zero digit n :
  Forall group_ok gs -> Z.of_nat (length gs) < n ->
  inet6_loop (groups_text gs ++ p) (fresh addr zero digit n) =
  inet6_loop p (fresh (addr ++ group_bytes gs) zero (if decide (gs = []) then digit else Some p) (n - Z.of_nat (length gs))).
Proof.
  intros Hg. revert addr digit n. induction Hg as [|g gs Hg _ IH]; intros addr digit n Hn; cbn [length] in Hn.
  - cbn. by rewrite app_nil_r, Z.sub_0_r.
  - cbn [groups_text group_bytes]. rewrite <- !app_assoc. cbn [app]. rewrite loop_group by (done || lia).
    rewrite IH by lia. rewrite <- app_assoc. cbn [app length]. rewrite (decide_False (P := g :: gs = [])) by done.
    replace (n - 1 - Z.of_nat (length gs)) with (n - Z.of_nat (S (length gs))) by lia. by destruct (decide (gs = [])) as [->|].
Qed.

(** Groups with colons between them, to the end of the text. *)
Fixpoint post_text (gs : list group) : list Z :=
  match gs with
  | [] => []
  | [g] => hex_text (group_val g)
  | g :: gs' => (hex_text (group_val g) ++ [C! ":"]) ++ post_text gs'
  end.

Lemma post_text_snoc gs g : post_text (gs ++ [g]) = groups_text gs ++ hex_text (group_val g).
Proof.
  induction gs as [|g1 gs IH]; [done|]. cbn [app groups_text]. rewrite <- app_assoc, <- IH.
  by destruct gs.
Qed.

Lemma loop_post gs addr zero digit n :
  Forall group_ok gs -> Z.of_nat (length gs) <= n -> gs <> [] ->
  exists s, inet6_loop (post_text gs) (fresh addr zero digit n) = Some s /\ i6_nibbles s <> 0 /\ i6_zero s = zero /\
    put_word (i6_word s) (i6_addr s) = addr ++ group_bytes gs /\ i6_n s - 1 = n - Z.of_nat (length gs).
Proof.
  intros Hg Hn Hne. destruct gs as [|g gs _] using rev_ind; [done|].
  apply Forall_app in Hg as [Hgs Hg]. apply Forall_cons in Hg as [Hg _]. rewrite length_app in Hn. cbn in Hn.
  rewrite post_text_snoc, loop_groups by (done || lia).
  rewrite <- (app_nil_r (hex_text _)).
  destruct (loop_group_digits g [] (addr ++ group_bytes gs) zero
    (if decide (gs = []) then digit else Some (hex_text (group_val g) ++ [])) (n - Z.of_nat (length gs)) Hg) as (k & Hk & ->).
  eexists. split; [done|]. cbn [i6_nibbles i6_zero i6_word i6_addr i6_n fresh].
  split_and!; [lia|done| |rewrite length_app; cbn; lia].
  rewrite put_group by done. rewrite group_bytes_app, <- app_assoc. done.
Qed.

Lemma hex_text_head g rest : group_ok g -> exists c t, hex_text (group_val g) ++ rest = c :: t /\ c <> C! ":".
Proof.
  intros Hg. destruct (hex_text_spec _ (group_val_range g Hg)) as (ds & _ & -> & Hds & _ & Hl).
  destruct Hds as [|d ds Hd _]; [cbn in Hl; lia|]. eexists _, _. split; [done|].
  pose proof (in_range 0 16 d ltac:(lia)) as Hin. cbn in Hin.
  by repeat (destruct Hin as [<-|Hin]; [by vm_compute|]).
Qed.

Lemma groups_text_head gs rest : Forall group_ok gs -> gs <> [] -> exists c t, groups_text gs ++ rest = c :: t /\ c <> C! ":".
Proof. intros [|g gs' Hg _] Hne; [done|]. cbn [groups_text]. rewrite <- !app_assoc. by apply hex_text_head. Qed.

(** The start of the text, which may skip a colon. *)
Lemma inet6_addr_start text rest :
  text = C! ":" :: rest \/ (text = rest /\ exists c t, rest = c :: t /\ c <> C! ":") ->
  ngx_inet6_addr text =
  match inet6_loop rest (fresh [] None None 8) with
  | None => None
  | Some s =>
      if (i6_nibbles s =? 0) && bool_decide (i6_zero s = None) then None
      else inet6_end (put_word (i6_word s) (i6_addr s)) (i6_zero s) (i6_n s - 1)
  end.
Proof.
  intros [->|[-> (c & t & -> & Hc)]]; unfold ngx_inet6_addr; [by rewrite Z.eqb_refl|].
  by rewrite (proj2 (Z.eqb_neq _ _) Hc).
Qed.

Lemma inet6_addr_full gs :
  Forall group_ok gs -> length gs = 8%nat -> ngx_inet6_addr (post_text gs) = Some (group_bytes gs).
Proof.
  intros Hg Hl. destruct (loop_post gs [] None None 8 Hg) as (s & E & Hn & Hz & Hw & He); [lia|by intros ->|].
  rewrite (inet6_addr_start _ (post_text gs)).
  - rewrite E, Hz, Hw, He, Hl. by rewrite (proj2 (Z.eqb_neq _ _) Hn).
  - right. split; [done|]. destruct gs as [|g gs _] using rev_ind; [done|]. rewrite post_text_snoc.
    apply Forall_app in Hg as [Hgs Hg]. destruct gs as [|g1 gs]; [|by apply groups_text_head].
    cbn [groups_text app]. rewrite <- (app_nil_r (hex_text _)). apply hex_text_head. by apply Forall_cons in Hg as [Hg _].
Qed.

Lemma insert_zeros (pre post : list Z) n m :
  0 <= n -> (2 * Z.to_nat n)%nat = m ->
  take (length pre) (pre ++ post) ++ repeat 0 (Z.to_nat (n * 2)) ++ drop (length pre) (pre ++ post) =
  pre ++ repeat 0 m ++ post.
Proof.
  intros Hn <-. rewrite take_app_length, drop_app_length. do 3 f_equal. lia.
Qed.

(** A run of zeros between [pre] and [post]. *)
Lemma inet6_addr_run pre post :
  Forall group_ok pre -> Forall group_ok post -> (length pre + length post <= 6)%nat ->
  ngx_inet6_addr ((if decide (pre = []) then B! ":" else []) ++ groups_text pre ++ C! ":" :: post_text post) =
  Some (group_bytes pre ++ repeat 0 (2 * (8 - length pre - length post)) ++ group_bytes post).
Proof.
  intros Hpre Hpost Hl. rewrite (inet6_addr_start _ (groups_text pre ++ C! ":" :: post_text post)).
  2:{ destruct (decide (pre = [])) as [->|Hne]; [by left|]. right. split; [done|]. by apply groups_text_head. }
  rewrite loop_groups by (done || lia). cbn [inet6_loop fresh i6_nibbles i6_zero i6_addr i6_n i6_word]. decide_tests.
  cbn [app]. set (pb := group_bytes pre). set (n := 8 - Z.of_nat (length pre)). fold (fresh pb (Some (length pb)) (Some (post_text post)) n).
  destruct (decide (post = [])) as [->|Hne].
  - cbn [post_text inet6_loop fresh i6_nibbles i6_zero i6_addr i6_n i6_word]. cbn [bool_decide]. rewrite andb_false_r.
    unfold inet6_end, put_word. cbn [length] in *. subst n. decide_tests. cbv iota. f_equal.
    rewrite (insert_zeros pb _ _ (2 * (7 - length pre))) by lia. cbn [group_bytes]. rewrite app_nil_r. f_equal.
    replace (2 * (8 - length pre - 0))%nat with (2 * (7 - length pre) + 2)%nat by lia. by rewrite repeat_app.
  - destruct (loop_post post pb (Some (length pb)) (Some (post_text post)) n Hpost) as (s & E & Hn & Hz & Hw & He);
      [lia|done|]. rewrite E, Hz, Hw, He. cbn [bool_decide]. rewrite andb_false_r. unfold inet6_end. subst n. decide_tests.
    cbv iota. f_equal. apply insert_zeros; lia.
Qed.

(** An address that ends as an IPv4 address does. *)
Lemma dec_text_hex n : is_byte n ->
  exists ds, dec_text n = map hex_lower ds /\ Forall (fun d => 0 <= d < 16) ds /\ (0 < length ds <= 4)%nat.
Proof.
  unfold is_byte. intros Hn. destruct (num_digits_short n 0 3) as (ds & E & Hds & _ & Hl); [change (0 <= n < 1000); lia|lia|].
  change (num_base 0) with 10 in Hds. exists ds. split_and!; [| |lia|lia].
  - unfold dec_text. rewrite E. cbn. apply map_ext_in. intros d Hd%list_elem_of_In. rewrite Forall_forall in Hds.
    specialize (Hds d Hd). pose proof (in_range 0 10 d ltac:(lia)) as Hin. cbn in Hin.
    by repeat (destruct Hin as [<-|Hin]; [by vm_compute|]).
  - eapply Forall_impl; [exact Hds|]. cbn. lia.
Qed.

Lemma u8_small z : is_byte z -> u8 z = z.
Proof. apply Z.mod_small. Qed.

Lemma loop_dotted a b c d addr zero n :
  is_byte a -> is_byte b -> is_byte c -> is_byte d -> be32 a b c d <> INADDR_NONE -> 2 <= n ->
  exists k, inet6_loop (dotted a b c d) (fresh addr zero (Some (dotted a b c d)) n) =
  Some {| i6_addr := addr ++ [a; b]; i6_zero := zero; i6_digit := Some (dotted a b c d); i6_nibbles := k;
          i6_word := be32 a b c d; i6_n := n - 1 |}.
Proof.
  intros Ha Hb Hc Hd Hne Hn. destruct (dec_text_hex a Ha) as (ds & Et & Hds & Hl). exists (Z.of_nat (length ds)).
  unfold dotted at 1. rewrite Et, loop_hex by (done || (cbn; lia)).
  cbn [inet6_loop fresh i6_nibbles i6_zero i6_addr i6_n i6_word i6_digit]. decide_tests.
  rewrite inet_addr_dotted by done.
  assert (Hneq : htonl (be32 a b c d) <> INADDR_NONE).
  { rewrite htonl_be32 by done. unfold be32, INADDR_NONE, is_byte in *. lia. }
  rewrite (proj2 (Z.eqb_neq _ _) Hneq). unfold ntohl. rewrite !htonl_be32 by done.
  destruct (be32_bytes a b c d) as (_ & _ & -> & ->); [done..|]. by rewrite !u8_small.
Qed.

Lemma inet6_addr_dotted mid a b c d :
  Forall group_ok mid -> (length mid <= 5)%nat ->
  is_byte a -> is_byte b -> is_byte c -> is_byte d -> be32 a b c d <> INADDR_NONE ->
  ngx_inet6_addr (C! ":" :: C! ":" :: groups_text mid ++ dotted a b c d) =
  Some (repeat 0 (2 * (6 - length mid)) ++ group_bytes mid ++ [a; b; c; d]).
Proof.
  intros Hmid Hl Ha Hb Hc Hd Hne. rewrite (inet6_addr_start _ (C! ":" :: groups_text mid ++ dotted a b c d)) by (by left).
  cbn [inet6_loop fresh i6_nibbles i6_zero i6_addr i6_n i6_word length]. decide_tests.
  fold (fresh [] (Some 0%nat) (Some (groups_text mid ++ dotted a b c d)) 8). rewrite loop_groups by (done || lia).
  assert (Hdig : (if decide (mid = []) then Some (groups_text mid ++ dotted a b c d) else Some (dotted a b c d)) =
    Some (dotted a b c d)) by (by destruct (decide (mid = [])) as [->|]). rewrite Hdig. clear Hdig. cbn [app].
  destruct (loop_dotted a b c d (group_bytes mid) (Some 0%nat) (8 - Z.of_nat (length mid))) as (k & ->); [done..|lia|].
  cbn [i6_nibbles i6_zero i6_word i6_addr i6_n bool_decide]. rewrite andb_false_r.
  unfold inet6_end, put_word. decide_tests. cbv iota. f_equal.
  destruct (be32_bytes a b c d) as (-> & Ec & _); [done..|]. rewrite (u8_small d) by done.
  assert (u8 (Z.shiftr (be32 a b c d) 8) = c) as ->.
  { rewrite <- Ec at 2. rewrite land_255. done. }
  rewrite take_0, drop_0. cbn [app]. f_equal; [f_equal; lia|]. by rewrite <- app_assoc.
Qed.

(** ** IPv6: printing *)

(** What the loop prints, as a list of items. *)
Inductive item : Type := IColon | IHex (i : Z) (colon : bool).

Fixpoint ntop_items (k : nat) (i zero max n : Z) : option (list item) :=
  match k with
  | O => None
  | S k =>
      if i <? n then
        if i =? zero then cons IColon <$> ntop_items k (i + (max - 1) * 2 + 2) zero max n
        else cons (IHex i (i <? 14)) <$> ntop_items k (i + 2) zero max n
      else Some []
  end.

Definition render (p : list Z) (it : item) : list Z :=
  match it with
  | IColon => B! ":"
  | IHex i colon => hex_text (mem_at p i * 256 + mem_at p (i + 1)) ++ if colon then B! ":" else []
  end.

Lemma ntop_print_items k p i zero max n items :
  Forall is_byte p -> ntop_items k i zero max n = Some items ->
  ntop_print k p i zero max n = inr (concat (map (render p) items)).
Proof.
  intros Hp. revert i items; induction k as [|k IH]; intros i items; [done|]. cbn [ntop_items ntop_print].
  destruct (i <? n); [|by intros [= <-]]. destruct (i =? zero).
  - destruct (ntop_items k _ zero max n) as [its|] eqn:E; [|done]. intros [= <-]. by rewrite (IH _ _ E).
  - destruct (ntop_items k _ zero max n) as [its|] eqn:E; [|done]. intros [= <-]. rewrite (IH _ _ E).
    pose proof (mem_at_byte p i Hp). pose proof (mem_at_byte p (i + 1) Hp). unfold is_byte in *.
    rewrite print_hex_text by lia. done.
Qed.

(** The scan only looks at which groups are zero. *)
Fixpoint scan_bits (bl : list bool) (i zero last max n : Z) : Z * Z :=
  match bl with
  | [] => if max <? n then (last, n) else (zero, max)
  | b :: bl =>
      if b : bool then
        if max <? n then scan_bits bl (i + 2) last last n 0 else scan_bits bl (i + 2) zero last max 0
      else if n =? 0 then scan_bits bl (i + 2) zero i max 1
      else scan_bits bl (i + 2) zero last max (n + 1)
  end.

Definition nonzero (g : group) : bool := negb (g.1 =? 0) || negb (g.2 =? 0).

Lemma mem_at_middle pre a b (rest : list Z) :
  mem_at (pre ++ a :: b :: rest) (Z.of_nat (length pre)) = a /\
  mem_at (pre ++ a :: b :: rest) (Z.of_nat (length pre) + 1) = b.
Proof.
  unfold mem_at. decide_tests. rewrite Nat2Z.id. replace (Z.to_nat (Z.of_nat (length pre) + 1)) with (S (length pre)) by lia.
  rewrite !app_nth2 by lia. rewrite Nat.sub_diag. by replace (S (length pre) - length pre)%nat with 1%nat by lia.
Qed.

Lemma ntop_scan_bits pre gs zero last max n :
  ntop_scan (length gs) (pre ++ group_bytes gs) (Z.of_nat (length pre)) zero last max n =
  scan_bits (map nonzero gs) (Z.of_nat (length pre)) zero last max n.
Proof.
  revert pre zero last max n; induction gs as [|[a b] gs IH]; intros pre zero last max n; [done|].
  cbn [length ntop_scan map scan_bits group_bytes fst snd].
  destruct (mem_at_middle pre a b (group_bytes gs)) as [-> ->]. unfold nonzero at 1. cbn [fst snd].
  assert (Hi : Z.of_nat (length pre) + 2 = Z.of_nat (length (pre ++ [a; b]))) by (rewrite length_app; cbn; lia).
  rewrite Hi. assert (Hp : pre ++ a :: b :: group_bytes gs = (pre ++ [a; b]) ++ group_bytes gs) by (by rewrite <- app_assoc).
  rewrite Hp. by repeat case_match.
Qed.

(** Either no run is chosen, or a run of at least two zero groups. *)
Definition scan_good (bl : list bool) : bool :=
  let (zero, max) := scan_bits bl 0 (u64 (-1)) (u64 (-1)) 1 0 in
  (zero =? u64 (-1)) ||
  existsb (fun z => existsb (fun m => (zero =? 2 * Z.of_nat z) && (max =? Z.of_nat m) &&
    forallb negb (take m (drop z bl))) (seq 2 (7 - z))) (seq 0 7).

Fixpoint bit_lists (k : nat) : list (list bool) :=
  match k with O => [[]] | S k => map (cons true) (bit_lists k) ++ map (cons false) (bit_lists k) end.

Lemma bit_lists_all bl : In bl (bit_lists (length bl)).
Proof.
  induction bl as [|b bl IH]; [by left|]. cbn. apply in_or_app.
  destruct b; [left|right]; by apply in_map.
Qed.

Lemma scan_good_all bl : length bl = 8%nat -> scan_good bl = true.
Proof.
  intros Hl. pose proof (bit_lists_all bl) as Hin. rewrite Hl in Hin.
  assert (H : forallb scan_good (bit_lists 8) = true) by (by vm_compute). rewrite forallb_forall in H. by apply H.
Qed.

Lemma all_zero gs : forallb negb (map nonzero gs) = true -> gs = repeat (0, 0) (length gs).
Proof.
  induction gs as [|[a b] gs IH]; [done|]. cbn [map forallb length repeat].
  intros [Hz Hr]%andb_true_iff. rewrite <- (IH Hr). unfold nonzero in Hz. cbn [fst snd] in Hz. f_equal.
  f_equal; zify_bool; lia.
Qed.

Lemma scan_shape gs zero max :
  Forall group_ok gs -> length gs = 8%nat ->
  ntop_scan 8 (group_bytes gs) 0 (u64 (-1)) (u64 (-1)) 1 0 = (zero, max) ->
  zero = u64 (-1) \/
  exists pre m post, gs = pre ++ repeat (0, 0) m ++ post /\ (2 <= m)%nat /\
    zero = 2 * Z.of_nat (length pre) /\ max = Z.of_nat m.
Proof.
  intros Hg Hl E. pose proof (ntop_scan_bits [] gs (u64 (-1)) (u64 (-1)) 1 0) as Hs. cbn [app length] in Hs.
  rewrite Hl in Hs. change (Z.of_nat 0) with 0 in Hs. rewrite E in Hs.
  pose proof (scan_good_all (map nonzero gs)) as Hgood. rewrite length_map in Hgood. specialize (Hgood Hl).
  unfold scan_good in Hgood. rewrite <- Hs in Hgood. apply orb_true_iff in Hgood as [Hz|Hr]; [left; by apply Z.eqb_eq|right].
  apply existsb_exists in Hr as (z & Hz & (m & Hm & Hr)%existsb_exists). apply in_seq in Hz, Hm.
  apply andb_true_iff in Hr as [[Ez Em]%andb_true_iff Hr]. apply Z.eqb_eq in Ez, Em.
  exists (take z gs), m, (drop (z + m) gs). rewrite length_take. split_and!; [|lia|rewrite Ez; lia|done].
  rewrite <- (take_drop z gs) at 1. f_equal. rewrite <- (take_drop m (drop z gs)) at 1. rewrite drop_drop. f_equal.
  rewrite skipn_map, firstn_map in Hr. rewrite (all_zero _ Hr). f_equal. rewrite length_take, length_drop. lia.
Qed.

(** The items for a run of [m] zero groups after [pre]. *)
Lemma print_run pre m post :
  Forall group_ok (pre ++ repeat (0, 0) m ++ post) -> length (pre ++ repeat (0, 0) m ++ post) = 8%nat -> (2 <= m)%nat ->
  ntop_print 9 (group_bytes (pre ++ repeat (0, 0) m ++ post)) 0 (2 * Z.of_nat (length pre)) (Z.of_nat m) 16 =
  inr (groups_text pre ++ C! ":" :: post_text post).
Proof.
  intros Hg Hl Hm.
  assert (Hb : Forall is_byte (group_bytes (pre ++ repeat (0, 0) m ++ post))).
  { clear Hl. induction Hg as [|g gs [H1 H2] _ IH]; cbn [group_bytes]; repeat constructor; try done; apply H1 || apply H2. }
  assert (Hlen := Hl). rewrite !length_app, repeat_length in Hlen.
  do 7 (try destruct pre as [|? pre]); cbn [length] in Hlen; try lia;
    do 9 (try destruct m as [|m]); try lia; cbn [repeat app] in *;
    repeat (destruct post as [|? post]; cbn [length] in Hlen; try lia).
  all: erewrite ntop_print_items; [|exact Hb|by vm_compute].
  all: f_equal; cbn [map concat render groups_text post_text app]; rewrite ?app_nil_r; repeat (rewrite <- app_assoc; cbn [app]); reflexivity.
Qed.

Lemma group_bytes_byte gs : Forall group_ok gs -> Forall is_byte (group_bytes gs).
Proof. induction 1 as [|g gs [H1 H2] _ IH]; cbn [group_bytes]; repeat constructor; try done; apply H1 || apply H2. Qed.

(** Without a run, all eight groups. *)
Lemma print_full gs max :
  Forall group_ok gs -> length gs = 8%nat ->
  ntop_print 9 (group_bytes gs) 0 (u64 (-1)) max 16 = inr (post_text gs).
Proof.
  intros Hg Hl. pose proof (group_bytes_byte gs Hg) as Hb.
  repeat (destruct gs as [|? gs]; cbn [length] in Hl; try lia).
  erewrite ntop_print_items; [|exact Hb|reflexivity].
  f_equal; cbn [map concat render post_text app]; rewrite ?app_nil_r; repeat (rewrite <- app_assoc; cbn [app]); reflexivity.
Qed.

(** A run of five, six or seven zero groups before an IPv4 address. *)
Lemma print_mixed m mid a b c d max :
  Forall group_ok (repeat (0, 0) m ++ mid ++ [(a, b); (c, d)]) -> (m + length mid = 6)%nat -> (5 <= m)%nat ->
  max = Z.of_nat m \/ m = 6%nat /\ max = 7 ->
  ntop_print 9 (group_bytes (repeat (0, 0) m ++ mid ++ [(a, b); (c, d)])) 0 0 max 12 =
  inr (C! ":" :: groups_text mid).
Proof.
  intros Hg Hl Hm Hmax. assert (Hcases : max = Z.of_nat m \/ max = 7 /\ m = 6%nat) by tauto.
  clear Hmax. pose proof (group_bytes_byte _ Hg) as Hb.
  do 7 (try destruct m as [|m]); try lia; destruct mid as [|? [|? mid]]; cbn [length] in Hl; try lia; cbn [repeat app] in *;
    destruct Hcases as [->|[-> Hm6]]; try lia.
  all: erewrite ntop_print_items; [|exact Hb|by vm_compute].
  all: f_equal; cbn [map concat render groups_text app]; rewrite ?app_nil_r; reflexivity.
Qed.

Lemma print_dotted_ok a b c d :
  is_byte a -> is_byte b -> is_byte c -> is_byte d -> print_dotted a b c d = inr (dotted a b c d).
Proof. intros. unfold print_dotted. apply (snprintf_dotted (2 ^ 63)); (done || lia). Qed.

(** What the choice of the dotted form requires. *)
Lemma ntop_groups_12 m post max :
  length (repeat (0, 0) m ++ post) = 8%nat -> max = Z.of_nat m -> (2 <= m)%nat ->
  ntop_groups (group_bytes (repeat (0, 0) m ++ post)) 0 max = 16 \/
  ntop_groups (group_bytes (repeat (0, 0) m ++ post)) 0 max = 12 /\
  exists m' mid a b c d, repeat (0, 0) m ++ post = repeat (0, 0) m' ++ mid ++ [(a, b); (c, d)] /\
    (m' + length mid = 6)%nat /\ (max = Z.of_nat m' \/ m' = 6%nat /\ max = 7) /\
    (mid = [] \/ mid = [(255, 255)]).
Proof.
  intros Hl -> Hm. unfold ntop_groups. change (0 =? 0) with true. cbv iota.
  assert (Hlen := Hl). rewrite length_app, repeat_length in Hlen.
  do 9 (try destruct m as [|m]); try lia; repeat (destruct post as [|[? ?] post]; cbn [length] in Hlen; try lia).
  all: cbn [repeat app] in *.
  all: destruct (_ || _) eqn:Ec; [right; split; [done|]|by left].
  all: try (exfalso; revert Ec; by vm_compute).
  - eexists 5%nat, [_], _, _, _, _. split; [reflexivity|]. split; [done|]. split; [by left|]. right.
    apply orb_true_iff in Ec as [[[[_ E1]%andb_true_iff E2]%andb_true_iff|Ec]%orb_true_iff|Ec]; [|done|].
    + apply Z.eqb_eq in E1, E2. vm_compute in E1, E2. by subst.
    + apply andb_true_iff in Ec as [[Ec _]%andb_true_iff _]. done.
  - eexists 6%nat, [], _, _, _, _. split; [reflexivity|]. split; [done|]. split; by left.
  - eexists 6%nat, [], 0, 0, _, _. split; [reflexivity|]. split; [done|]. split; [by right|by left].
Qed.

(** The two addresses whose dotted form ends in the value that stands for an
    error. *)
Definition all_ones_v4 : list (list Z) :=
  [repeat 0 10 ++ repeat 255 6; repeat 0 12 ++ repeat 255 4].

Lemma inet6_ntop_text gs len :
  Forall group_ok gs -> length gs = 8%nat -> NGX_INET6_ADDRSTRLEN <= len ->
  exists text, ngx_inet6_ntop (group_bytes gs) len = inr text /\
    (group_bytes gs ∉ all_ones_v4 -> ngx_inet6_addr text = Some (group_bytes gs)).
Proof.
  intros Hg Hl Hlen. unfold ngx_inet6_ntop. decide_tests.
  destruct (ntop_scan 8 (group_bytes gs) 0 (u64 (-1)) (u64 (-1)) 1 0) as [zero max] eqn:Es.
  destruct (scan_shape gs zero max Hg Hl Es) as [->|(pre & m & post & -> & Hm & -> & ->)].
  { change (ntop_groups (group_bytes gs) (u64 (-1)) max) with 16. change (u64 (-1) =? 0) with false. change (16 =? 12) with false.
    rewrite (print_full gs max Hg Hl). cbn [vs_append]. rewrite app_nil_r. eexists; split; [done|]. intros _. by apply inet6_addr_full. }
  clear Es. assert (Hlen8 := Hl). rewrite !length_app, repeat_length in Hlen8.
  assert (Hg' := Hg). apply Forall_app in Hg' as [Hpre [_ Hpost]%Forall_app].
  assert (Hrun : Some (group_bytes pre ++ repeat 0 (2 * (8 - length pre - length post)) ++ group_bytes post) =
    Some (group_bytes (pre ++ repeat (0, 0) m ++ post))).
  { rewrite !group_bytes_app, group_bytes_zeros. repeat f_equal; lia. }
  pose proof (inet6_addr_run pre post Hpre Hpost ltac:(lia)) as Haddr. rewrite Hrun in Haddr. clear Hrun.
  pose proof (print_run pre m post Hg Hl Hm) as Hprint.
  destruct (decide (pre = [])) as [->|Hne].
  2:{ assert (Hz : 2 * Z.of_nat (length pre) <> 0) by (destruct pre; [done|cbn [length]; lia]).
      unfold ntop_groups. rewrite (proj2 (Z.eqb_neq _ _) Hz). change (16 =? 12) with false.
      rewrite Hprint. cbn [vs_append]. rewrite app_nil_r. by eexists. }
  cbn [length app] in *. change (2 * Z.of_nat 0) with 0 in *. change (0 =? 0) with true. cbv iota.
  destruct (ntop_groups_12 m post (Z.of_nat m) Hl eq_refl Hm) as [->|(-> & m' & mid & a & b & c & d & Egs & Hm' & Hmax & Hmid)].
  { rewrite Hprint. change (16 =? 12) with false. cbn [vs_append]. rewrite app_nil_r. by eexists. }
  change (12 =? 12) with true. cbv iota. clear Hprint Haddr Hpre Hpost. rewrite Egs in *. 
  assert (Hm5 : (5 <= m')%nat) by (destruct Hmid as [->| ->]; cbn in Hm'; lia).
  rewrite (print_mixed m' mid a b c d (Z.of_nat m) Hg Hm' Hm5 Hmax).
  apply Forall_app in Hg as [_ [Hgm Hgd]%Forall_app]. apply Forall_cons in Hgd as [[Ha Hb] Hgd].
  apply Forall_cons in Hgd as [[Hc Hd] _]. cbn [fst snd] in *.
  set (p := group_bytes _).
  assert (Hp : mem_at p 12 = a /\ mem_at p 13 = b /\ mem_at p 14 = c /\ mem_at p 15 = d).
  { subst p. destruct Hmid as [-> | ->]; cbn [length] in Hm'; do 7 (try destruct m' as [|m']); try lia; done. }
  destruct Hp as (-> & -> & -> & ->). rewrite print_dotted_ok by done. cbn [vs_append app].
  eexists; split; [done|]. intros Hnot. rewrite inet6_addr_dotted; [|done|lia|done..|].
  - subst p. f_equal. rewrite !group_bytes_app, group_bytes_zeros. cbn [group_bytes fst snd]. by replace (6 - length mid)%nat with m' by lia.
  - intros Heq. apply Hnot. unfold be32, INADDR_NONE, is_byte in *. assert (a = 255 /\ b = 255 /\ c = 255 /\ d = 255) as (-> & -> & -> & ->) by lia.
    subst p. unfold all_ones_v4.
    destruct Hmid as [-> | ->]; cbn [length] in Hm'; do 7 (try destruct m' as [|m']); try lia; [right; left|left].
Qed.

(** Groups of any 16 bytes. *)
Lemma groups_of p : length p = 16%nat -> Forall is_byte p -> exists gs, p = group_bytes gs /\ length gs = 8%nat /\ Forall group_ok gs.
Proof.
  assert (Hany : forall k p, length p = (2 * k)%nat -> Forall is_byte p ->
    exists gs, p = group_bytes gs /\ length gs = k /\ Forall group_ok gs).
  { induction k as [|k IH]; intros [|a [|b q]] Hl Hp; cbn in Hl; try lia; [by exists []|].
    apply Forall_cons in Hp as [Ha Hp]. apply Forall_cons in Hp as [Hb Hp].
    destruct (IH q) as (gs & -> & Hg & Hok); [lia|done|]. exists ((a, b) :: gs). split_and!; [done|cbn; lia|by constructor]. }
  intros Hl. by apply (Hany 8%nat).
Qed.

(** C37: An address that is printed is read back as the same bytes: an IPv4
    address from its dotted form, an IPv6 address from the form with its longest
    run of zeros left out and perhaps an IPv4 address at its end.  The only
    exceptions are the IPv6 addresses that end in the IPv4 address of all ones,
    which the reader takes for an error. *)
Theorem inet_ntop_roundtrip family p len :
  Forall is_byte p ->
  match family with
  | AF_INET => length p = 4%nat /\ 15 <= len
  | AF_INET6 => length p = 16%nat /\ NGX_INET6_ADDRSTRLEN <= len
  | AF_OTHER => False
  end ->
  exists text, ngx_inet_ntop family p len = inr text /\
    match family with
    | AF_INET => in_addr_bytes (ngx_inet_addr text) = p
    | _ => ngx_inet6_addr text = if decide (p ∈ all_ones_v4) then None else Some p
    end.
Proof.
  intros Hp Hf. destruct family; [| |done]; destruct Hf as [Hl Hlen].
  - do 5 (try destruct p as [|? p]); try done. repeat (apply Forall_cons in Hp as [? Hp]).
    eexists; split; [by apply snprintf_dotted|]. rewrite inet_addr_dotted by done. by apply in_addr_bytes_htonl.
  - destruct (groups_of p Hl Hp) as (gs & -> & Hgl & Hok).
    destruct (inet6_ntop_text gs len Hok Hgl Hlen) as (text & E & Htext). cbn [ngx_inet_ntop].
    destruct (decide (group_bytes gs ∈ all_ones_v4)) as [Hin|Hn]; [|eauto].
    exists text. split; [done|]. clear Htext. unfold ngx_inet6_ntop in E. revert E. decide_tests. intros E.
    apply list_elem_of_In in Hin. destruct Hin as [Hg|[Hg|[]]]; rewrite <- Hg in E; vm_compute in E; injection E as <-; by vm_compute.
Qed.

Lemma inet_ntop_roundtrip_witness :
  exists text, ngx_inet_ntop AF_INET6 [32; 1; 13; 184; 0; 0; 0; 0; 0; 0; 0; 0; 0; 0; 0; 7] 46 = inr text /\
    ngx_inet6_addr text =
    if decide ([32; 1; 13; 184; 0; 0; 0; 0; 0; 0; 0; 0; 0; 0; 0; 7] ∈ all_ones_v4) then None
    else Some [32; 1; 13; 184; 0; 0; 0; 0; 0; 0; 0; 0; 0; 0; 0; 7].
Proof.
  apply (inet_ntop_roundtrip AF_INET6 [32; 1; 13; 184; 0; 0; 0; 0; 0; 0; 0; 0; 0; 0; 0; 7] 46).
  - repeat (apply Forall_cons; split; [unfold is_byte; lia|]). constructor.
  - by split.
Defined.

(** The same address is refused. *)
Example inet_all_ones :
  ngx_inet_addr (B! "255.255.255.255") = INADDR_NONE /\ ngx_inet6_addr (B! "::ffff:255.255.255.255") = None.
Proof. by vm_compute. Qed.

(** ** Prefixes *)

(** [core/ngx_inet.h:43-67] ngx_cidr_t *)
Inductive cidr : Type :=
| CidrIn (addr mask : Z)
| CidrIn6 (addr mask : list Z).

(** [core/ngx_inet.c:410-427] for *)
Fixpoint cidr6_loop (addr : list Z) (shift : Z) (rc : Z) : Z * list Z * list Z :=
  match addr with
  | [] => (rc, [], [])
  | x :: addr =>
      let s := if 8 <? shift then 8 else shift in
      let mask := u8 (Z.shiftl 255 (8 - s)) in
      let (rc, x) := if negb (x =? Z.land x mask) then (NGX_DONE, Z.land x mask) else (rc, x) in
      let '(rc, addrs, masks) := cidr6_loop addr (shift - s) rc in
      (rc, x :: addrs, mask :: masks)
  end.

(** [core/ngx_inet.c:430-449] default *)
Definition cidr4 (addr shift : Z) : Z * option cidr :=
  if 32 <? shift then (NGX_ERROR, None)
  else
    let mask := if negb (shift =? 0) then htonl (u32 (Z.shiftl 4294967295 (32 - shift))) else 0 in
    if addr =? Z.land addr mask then (NGX_OK, Some (CidrIn addr mask))
    else (NGX_DONE, Some (CidrIn (Z.land addr mask) mask)).

(** [core/ngx_inet.c:354-451] ngx_ptocidr *)
Definition ngx_ptocidr (text : list Z) : Z * option cidr :=
  let mask := ngx_strlchr text (length text) (C! "/") 0 in
  let len := match mask with Some m => Z.to_nat m | None => length text end in
  let shift := match mask with Some m => ngx_atoi (drop (S (Z.to_nat m)) text) | None => 0 end in
  let addr := ngx_inet_addr (take len text) in
  if negb (addr =? INADDR_NONE) then
    match mask with
    | None => (NGX_OK, Some (CidrIn addr 4294967295))
    | Some _ => if shift =? NGX_ERROR then (NGX_ERROR, None) else cidr4 addr shift
    end
  else
    match ngx_inet6_addr (take len text) with
    | None => (NGX_ERROR, None)
    | Some addr =>
        match mask with
        | None => (NGX_OK, Some (CidrIn6 addr (repeat 255 16)))
        | Some _ =>
            if shift =? NGX_ERROR then (NGX_ERROR, None)
            else if 128 <? shift then (NGX_ERROR, None)
            else let '(rc, addr, mask) := cidr6_loop addr shift NGX_OK in (rc, Some (CidrIn6 addr mask))
        end
    end.

(** The pool is assumed to have room; [NGX_DECLINED] is [None].
    [core/ngx_inet.c:454-511] ngx_parse_addr *)
Definition ngx_parse_addr (text : list Z) : option sockaddr :=
  let inaddr := ngx_inet_addr text in
  if negb (inaddr =? INADDR_NONE) then Some (SockInet (in_addr_bytes inaddr) 0)
  else match ngx_inet6_addr text with Some p => Some (SockInet6 p 0) | None => None end.

Example ptocidr_1 :
  map ngx_ptocidr [B! "10.1.2.3/8"; B! "10.0.0.0/8"; B! "2001:db8::1/33"; B! "::/0"; B! "1.2.3.4/33"; B! "1.2.3.4/"; B! "1.2.3.4"] =
  [(NGX_DONE, Some (CidrIn (htonl (be32 10 0 0 0)) (htonl (be32 255 0 0 0))));
   (NGX_OK, Some (CidrIn (htonl (be32 10 0 0 0)) (htonl (be32 255 0 0 0))));
   (NGX_DONE, Some (CidrIn6 [32; 1; 13; 184; 0; 0; 0; 0; 0; 0; 0; 0; 0; 0; 0; 0] [255; 255; 255; 255; 128; 0; 0; 0; 0; 0; 0; 0; 0; 0; 0; 0]));
   (NGX_OK, Some (CidrIn6 (repeat 0 16) (repeat 0 16))); (NGX_ERROR, None); (NGX_ERROR, None);
   (NGX_OK, Some (CidrIn (htonl (be32 1 2 3 4)) 4294967295))].
Proof. by vm_compute. Qed.

(** What [ngx_inet6_addr] answers is 16 bytes, all of them written. *)
Definition i6_inv (s : i6_vars) : Prop :=
  1 <= i6_n s <= 8 /\ Z.of_nat (length (i6_addr s)) = 2 * (8 - i6_n s) /\ Forall is_byte (i6_addr s) /\
  (forall z, i6_zero s = Some z -> (z <= length (i6_addr s))%nat).

Lemma u8_byte z : is_byte (u8 z).
Proof. unfold is_byte, u8. apply Z.mod_pos_bound. lia. Qed.

Lemma put_word_ok word addr :
  Forall is_byte addr -> Forall is_byte (put_word word addr) /\ length (put_word word addr) = (length addr + 2)%nat.
Proof.
  intros H. unfold put_word. rewrite length_app. split; [|done]. apply Forall_app. split; [done|].
  repeat constructor; apply u8_byte.
Qed.

Lemma inet6_loop_inv p s s' : i6_inv s -> inet6_loop p s = Some s' -> i6_inv s'.
Proof.
  revert s; induction p as [|c p IH]; intros s Hs; cbn [inet6_loop]; [by intros [= <-]|].
  destruct Hs as (Hn & Hl & Hb & Hz). destruct (c =? 58).
  { destruct (negb (i6_nibbles s =? 0)).
    - destruct (negb (i6_n s - 1 =? 0)) eqn:En; [|done]. apply IH. destruct (put_word_ok (i6_word s) (i6_addr s) Hb) as [H1 H2].
      split_and!; cbn; [zify_bool; lia|lia|lia|done|]. intros z E. specialize (Hz z E). lia.
    - destruct (i6_zero s) eqn:Ez; [done|]. apply IH. split_and!; cbn; [lia|lia|lia|done|]. by intros z [= <-]. }
  destruct ((c =? 46) && negb (i6_nibbles s =? 0)).
  { destruct (i6_digit s); [|done]. destruct (i6_n s <? 2) eqn:En; [done|]. destruct (_ =? INADDR_NONE); [done|].
    intros [= <-]. split_and!; cbn; rewrite ?length_app; cbn; [zify_bool; lia|lia|lia| |].
    - apply Forall_app. split; [done|]. repeat constructor; apply u8_byte.
    - intros z E. specialize (Hz z E). lia. }
  destruct (4 <? _); [done|]. destruct (_ && _); [apply IH; split_and!; cbn; (done || lia)|].
  destruct (_ && _); [apply IH; split_and!; cbn; (done || lia)|done].
Qed.

Lemma inet6_addr_16 text p : ngx_inet6_addr text = Some p -> length p = 16%nat /\ Forall is_byte p.
Proof.
  unfold ngx_inet6_addr. destruct text as [|c text]; [done|].
  destruct (inet6_loop _ _) as [s|] eqn:E; [|done]. apply inet6_loop_inv in E.
  2:{ split_and!; cbn; [lia|lia|lia|constructor|done]. }
  destruct E as (Hn & Hl & Hb & Hz). destruct (_ && _); [done|]. unfold inet6_end.
  destruct (put_word_ok (i6_word s) (i6_addr s) Hb) as [H1 H2].
  destruct (negb (i6_n s - 1 =? 0)) eqn:En.
  - destruct (i6_zero s) as [z|]; [|done]. specialize (Hz z eq_refl). intros [= <-]. split.
    + rewrite !length_app, repeat_length, length_take, length_drop. lia.
    + rewrite !Forall_app. split_and!; [by apply Forall_take| |by apply Forall_drop].
      apply Forall_forall. intros x Hx%list_elem_of_In%repeat_spec. subst x. unfold is_byte. lia.
  - destruct (i6_zero s); [done|]. intros [= <-]. split; [zify_bool; lia|done].
Qed.

(** Conjunction by digits of a power of two. *)
Lemma land_split x y r t k :
  0 <= k -> 0 <= r < 2 ^ k -> 0 <= t < 2 ^ k ->
  Z.land (x * 2 ^ k + r) (y * 2 ^ k + t) = Z.land x y * 2 ^ k + Z.land r t.
Proof.
  intros Hk Hr Ht.
  assert (Hrt : 0 <= Z.land r t < 2 ^ k).
  { split; [apply Z.land_nonneg; lia|]. destruct (Z.eq_dec (Z.land r t) 0) as [->|Hne]; [lia|].
    apply Z.log2_lt_cancel. rewrite Z.log2_pow2 by lia. pose proof (Z.log2_land r t ltac:(lia) ltac:(lia)).
    assert (0 < r) by (assert (r <> 0) by (intros ->; by rewrite Z.land_0_l in Hne); lia).
    pose proof (Z.log2_lt_pow2 r k ltac:(lia)). lia. }
  rewrite <- !lor_shiftl_add by done. apply Z.bits_inj'. intros i Hi.
  rewrite !Z.land_spec, !Z.lor_spec, Z.land_spec, !Z.shiftl_spec, Z.land_spec by done.
  destruct (Z.lt_ge_cases i k) as [Hlt|Hge].
  - rewrite !(Z.testbit_neg_r _ (i - k)) by lia. done.
  - assert (Hhigh : forall v, 0 <= v < 2 ^ k -> Z.testbit v i = false).
    { intros v Hv. rewrite <- (Z.mod_small v (2 ^ k)) by done. apply Z.mod_pow2_bits_high. lia. }
    rewrite (Hhigh r Hr), (Hhigh t Ht). by rewrite !orb_false_r.
Qed.

(** Masking the low [k] bits of a number of [j + k] bits. *)
Lemma land_mask x j k :
  0 <= j -> 0 <= k -> 0 <= x < 2 ^ (j + k) -> Z.land x (2 ^ (j + k) - 2 ^ k) = x - x mod 2 ^ k.
Proof.
  intros Hj Hk Hx. pose proof (Z.pow_pos_nonneg 2 k ltac:(lia) Hk) as H2.
  rewrite (Z.div_mod x (2 ^ k)) at 1 by lia. rewrite (Z.mul_comm (2 ^ k)).
  replace (2 ^ (j + k) - 2 ^ k) with (Z.ones j * 2 ^ k + 0) by (rewrite Z.ones_equiv, Z.pow_add_r by lia; lia).
  rewrite land_split by (try apply Z.mod_pos_bound; lia). rewrite Z.land_0_r, Z.land_ones by done.
  rewrite Z.mod_small; [pose proof (Z.div_mod x (2 ^ k)); lia|].
  split; [apply Z.div_pos; lia|]. apply Z.div_lt_upper_bound; [lia|]. rewrite <- Z.pow_add_r, (Z.add_comm k) by lia. apply Hx.
Qed.

(** Bytes as a number, the first byte being the greatest. *)
Fixpoint be (p : list Z) : Z :=
  match p with [] => 0 | x :: p' => x * 2 ^ (8 * Z.of_nat (length p')) + be p' end.

Lemma be_range p : Forall is_byte p -> 0 <= be p < 2 ^ (8 * Z.of_nat (length p)).
Proof.
  induction 1 as [|x p Hx _ IH]; cbn [be length]; [done|]. unfold is_byte in Hx.
  replace (8 * Z.of_nat (S (length p))) with (8 + 8 * Z.of_nat (length p)) by lia. rewrite Z.pow_add_r by lia.
  change (2 ^ 8) with 256. nia.
Qed.

Lemma byte_mask s : 0 <= s <= 8 -> u8 (Z.shiftl 255 (8 - s)) = 2 ^ 8 - 2 ^ (8 - s).
Proof.
  intros Hs. assert (Hcases : In s (map Z.of_nat (seq 0 9))) by (apply in_range; lia). cbn in Hcases.
  by repeat (destruct Hcases as [<-|Hcases]; [by vm_compute|]).
Qed.

Lemma cidr6_zero addr rc :
  Forall is_byte addr ->
  cidr6_loop addr 0 rc = (if be addr =? 0 then rc else NGX_DONE, repeat 0 (length addr), repeat 0 (length addr)).
Proof.
  intros Hb. revert rc. induction Hb as [|x addr Hx Hb IH]; intros rc; [done|]. cbn [cidr6_loop be length repeat].
  change (8 <? 0) with false. change (u8 (Z.shiftl 255 (8 - 0))) with 0. rewrite Z.land_0_r. cbv iota. change (0 - 0) with 0.
  pose proof (be_range addr Hb) as Hr. unfold is_byte in Hx.
  pose proof (Z.pow_pos_nonneg 2 (8 * Z.of_nat (length addr)) ltac:(lia) ltac:(lia)) as H2.
  destruct (x =? 0) eqn:Ex; cbn [negb].
  - apply Z.eqb_eq in Ex. subst x. rewrite IH. by rewrite Z.mul_0_l, Z.add_0_l.
  - rewrite IH. zify_bool. assert (E : (x * 2 ^ (8 * Z.of_nat (length addr)) + be addr =? 0) = false) by (apply Z.eqb_neq; nia).
    rewrite E. by case_match.
Qed.

(** Masking an address, byte by byte. *)
Lemma cidr6_loop_ok addr shift rc :
  Forall is_byte addr -> 0 <= shift <= 8 * Z.of_nat (length addr) ->
  let w := 8 * Z.of_nat (length addr) in
  let low := be addr mod 2 ^ (w - shift) in
  exists addr' mask, cidr6_loop addr shift rc = (if low =? 0 then rc else NGX_DONE, addr', mask) /\
    be addr' = be addr - low /\ be mask = 2 ^ w - 2 ^ (w - shift) /\
    length addr' = length addr /\ length mask = length addr.
Proof.
  intros Hb. revert shift rc. induction Hb as [|x addr Hx Hb IH]; intros shift rc Hs; cbn [length] in *.
  { eexists _, _. split; [done|]. cbn. assert (shift = 0) as -> by lia. done. }
  cbv zeta. set (k := 8 * Z.of_nat (length addr)). replace (8 * Z.of_nat (S (length addr))) with (8 + k) in * by lia.
  pose proof (be_range addr Hb) as Hr. fold k in Hr. unfold is_byte in Hx.
  pose proof (Z.pow_pos_nonneg 2 k ltac:(lia) ltac:(lia)) as H2.
  cbn [cidr6_loop]. destruct (8 <? shift) eqn:E8.
  - change (u8 (Z.shiftl 255 (8 - 8))) with (Z.ones 8). rewrite Z.land_ones by lia. rewrite Z.mod_small by lia.
    rewrite Z.eqb_refl. cbn [negb]. destruct (IH (shift - 8) rc ltac:(zify_bool; lia)) as (addr' & mask & -> & Ha & Hm & L1 & L2).
    fold k in Ha, Hm. replace (8 + k - shift) with (k - (shift - 8)) by lia.
    assert (Hmod : (x * 2 ^ k + be addr) mod 2 ^ (k - (shift - 8)) = be addr mod 2 ^ (k - (shift - 8))).
    { replace (2 ^ k) with (2 ^ (shift - 8) * 2 ^ (k - (shift - 8))) by (rewrite <- Z.pow_add_r by (zify_bool; lia); f_equal; lia).
      rewrite Z.mul_assoc, Z.add_comm. apply Z.mod_add. apply Z.pow_nonzero; zify_bool; lia. }
    eexists _, _. split; [cbn [be]; fold k; rewrite Hmod; reflexivity|]. cbn [be length]. rewrite L1, L2. fold k. rewrite Hmod, Ha, Hm.
    split_and!; [lia| |done|done]. change (Z.ones 8) with 255. rewrite Z.pow_add_r by lia. change (2 ^ 8) with 256. lia.
  - rewrite byte_mask by (zify_bool; lia).
    assert (Hland : Z.land x (2 ^ 8 - 2 ^ (8 - shift)) = x - x mod 2 ^ (8 - shift)).
    { replace (2 ^ 8) with (2 ^ (shift + (8 - shift))) by (f_equal; lia). apply land_mask; [zify_bool; lia..|].
      replace (shift + (8 - shift)) with 8 by lia. exact Hx. }
    rewrite Hland. pose proof (Z.pow_pos_nonneg 2 (8 - shift) ltac:(lia) ltac:(zify_bool; lia)) as H3.
    pose proof (Z.mod_pos_bound x (2 ^ (8 - shift)) ltac:(lia)) as Hxm.
    assert (Hmod : (x * 2 ^ k + be addr) mod 2 ^ (8 + k - shift) = (x mod 2 ^ (8 - shift)) * 2 ^ k + be addr).
    { replace (8 + k - shift) with ((8 - shift) + k) by lia. rewrite Z.pow_add_r by (zify_bool; lia).
      rewrite (Z.div_mod x (2 ^ (8 - shift))) at 1 by lia. symmetry. apply (Z.mod_unique_pos _ _ (x / 2 ^ (8 - shift))); nia. }
    set (q := x mod 2 ^ (8 - shift)) in *.
    assert (Hlow : (q * 2 ^ k + be addr =? 0) = (q =? 0) && (be addr =? 0)).
    { destruct (q =? 0) eqn:Eq, (be addr =? 0) eqn:Eb; zify_bool; cbn [andb]; apply Z.eqb_eq || apply Z.eqb_neq; nia. }
    rewrite (Z.sub_diag shift). cbn [be]. fold k. rewrite Hmod, Hlow.
    replace (x =? x - q) with (q =? 0) by (destruct (q =? 0) eqn:Eq; symmetry; zify_bool; lia).
    exists ((if q =? 0 then x else x - q) :: repeat 0 (length addr)), ((2 ^ 8 - 2 ^ (8 - shift)) :: repeat 0 (length addr)).
    assert (Hz : be (repeat 0 (length addr)) = 0) by (clear; induction (length addr) as [|m IHm]; cbn; [done|]; rewrite IHm; lia).
    split_and!; [| | |cbn; by rewrite repeat_length|cbn; by rewrite repeat_length].
    + destruct (q =? 0); cbn [negb andb]; rewrite cidr6_zero by done; [done|]. by case_match.
    + cbn [be]. rewrite repeat_length, Hz. fold k. destruct (q =? 0) eqn:Eq; zify_bool; nia.
    + cbn [be]. rewrite repeat_length, Hz. fold k. replace (8 + k - shift) with ((8 - shift) + k) by lia.
      rewrite !Z.pow_add_r by (zify_bool; lia). lia.
Qed.

(** Byte order and conjunction. *)
Lemma u32_be32 z : 0 <= z < 2 ^ 32 ->
  exists a b c d, z = be32 a b c d /\ is_byte a /\ is_byte b /\ is_byte c /\ is_byte d.
Proof.
  intros Hz. exists (z / 16777216), (z / 65536 mod 256), (z / 256 mod 256), (z mod 256).
  unfold be32, is_byte. split_and!; Z.to_euclidean_division_equations; lia.
Qed.

Lemma htonl_htonl z : 0 <= z < 2 ^ 32 -> htonl (htonl z) = z.
Proof. intros (a & b & c & d & -> & Ha & Hb & Hc & Hd)%u32_be32. by rewrite !htonl_be32. Qed.

Lemma land_byte x y : is_byte x -> is_byte y -> is_byte (Z.land x y).
Proof.
  unfold is_byte. intros Hx Hy. pose proof (land_split 0 0 x y 8 ltac:(lia) ltac:(lia) ltac:(lia)).
  split; [apply Z.land_nonneg; lia|]. destruct (Z.eq_dec (Z.land x y) 0) as [->|Hne]; [lia|].
  apply (Z.log2_lt_cancel _ 256). pose proof (Z.log2_land x y ltac:(lia) ltac:(lia)).
  assert (Z.log2 x <= Z.log2 255) by (apply Z.log2_le_mono; lia). change (Z.log2 255) with 7 in *. change (Z.log2 256) with 8. lia.
Qed.

Lemma land_be32 a b c d a' b' c' d' :
  is_byte a -> is_byte b -> is_byte c -> is_byte d -> is_byte a' -> is_byte b' -> is_byte c' -> is_byte d' ->
  Z.land (be32 a b c d) (be32 a' b' c' d') = be32 (Z.land a a') (Z.land b b') (Z.land c c') (Z.land d d').
Proof.
  unfold be32, is_byte. intros. change 256 with (2 ^ 8). by rewrite !land_split by lia.
Qed.

Lemma htonl_land x y : 0 <= x < 2 ^ 32 -> 0 <= y < 2 ^ 32 -> Z.land (htonl x) (htonl y) = htonl (Z.land x y).
Proof.
  intros (a & b & c & d & -> & Ha & Hb & Hc & Hd)%u32_be32 (a' & b' & c' & d' & -> & Ha' & Hb' & Hc' & Hd')%u32_be32.
  rewrite !htonl_be32, !land_be32, htonl_be32 by (done || by apply land_byte). done.
Qed.

Lemma htonl_range z : 0 <= z < 2 ^ 32 -> 0 <= htonl z < 2 ^ 32.
Proof.
  intros (a & b & c & d & -> & Ha & Hb & Hc & Hd)%u32_be32. rewrite htonl_be32 by done. unfold be32, is_byte in *. lia.
Qed.

Lemma inet_addr_range text : exists z, 0 <= z < 2 ^ 32 /\ ngx_inet_addr text = htonl z.
Proof.
  unfold ngx_inet_addr. destruct (inet_loop text 0 0 0) as [[[addr octet] n]|]; [|by exists INADDR_NONE].
  case_match; [|by exists INADDR_NONE]. eexists; split; [apply u32_range|done].
Qed.

(** The number that an address text stands for, with its width in bits. *)
Definition addr_value (text : list Z) : option (Z * Z) :=
  if ngx_inet_addr text =? INADDR_NONE then
    match ngx_inet6_addr text with Some p => Some (128, be p) | None => None end
  else Some (32, ntohl (ngx_inet_addr text)).

Definition cidr_value (c : cidr) : Z * Z :=
  match c with CidrIn addr mask => (ntohl addr, ntohl mask) | CidrIn6 addr mask => (be addr, be mask) end.

Lemma cidr4_ok z n :
  0 <= z < 2 ^ 32 -> 0 <= n <= 32 ->
  exists c, cidr4 (htonl z) n = (if z mod 2 ^ (32 - n) =? 0 then NGX_OK else NGX_DONE, Some c) /\
    cidr_value c = (z - z mod 2 ^ (32 - n), 2 ^ 32 - 2 ^ (32 - n)).
Proof.
  intros Hz Hn. unfold cidr4. decide_tests. set (m := 2 ^ 32 - 2 ^ (32 - n)).
  pose proof (Z.pow_pos_nonneg 2 (32 - n) ltac:(lia) ltac:(lia)) as H2.
  assert (Hle : 2 ^ (32 - n) <= 2 ^ 32) by (apply Z.pow_le_mono_r; lia).
  assert (Hm : (if negb (n =? 0) then htonl (u32 (Z.shiftl 4294967295 (32 - n))) else 0) = htonl m).
  { destruct (n =? 0) eqn:E0; cbn [negb]; [by assert (n = 0) as -> by (zify_bool; lia)|]. f_equal. subst m.
    assert (Hin : In n (map Z.of_nat (seq 1 32))) by (apply in_range; zify_bool; lia). cbn in Hin.
    clear -Hin. by repeat (destruct Hin as [<-|Hin]; [by vm_compute|]). }
  rewrite Hm. clear Hm. rewrite htonl_land by lia.
  assert (Hland : Z.land z m = z - z mod 2 ^ (32 - n)).
  { subst m. replace 32 with (n + (32 - n)) at 1 by lia. apply land_mask; [lia..|]. by replace (n + (32 - n)) with 32 by lia. }
  pose proof (Z.mod_pos_bound z (2 ^ (32 - n)) ltac:(lia)) as Hmod. pose proof (Z.mod_le z (2 ^ (32 - n)) ltac:(lia) ltac:(lia)).
  rewrite Hland. destruct (z mod 2 ^ (32 - n) =? 0) eqn:E0.
  - apply Z.eqb_eq in E0. rewrite E0, Z.sub_0_r, Z.eqb_refl. eexists; split; [done|]. cbn [cidr_value]. unfold ntohl.
    by rewrite !htonl_htonl, ?Z.sub_0_r by lia.
  - assert (Hne : htonl z <> htonl (z - z mod 2 ^ (32 - n))).
    { intros E. apply (f_equal htonl) in E. rewrite !htonl_htonl in E by lia. zify_bool. lia. }
    rewrite (proj2 (Z.eqb_neq _ _) Hne). eexists; split; [done|]. cbn [cidr_value]. unfold ntohl. by rewrite !htonl_htonl by lia.
Qed.

Lemma strlchr_found text ds off :
  Forall (fun c => c <> C! "/") text ->
  ngx_strlchr (text ++ C! "/" :: ds) (length (text ++ C! "/" :: ds)) (C! "/") off = Some (off + Z.of_nat (length text)).
Proof.
  intros H. revert off. induction H as [|c text Hc _ IH]; intros off; cbn [app length ngx_strlchr]; unfold byte; cbn [hd tl].
  - rewrite Z.eqb_refl. f_equal. lia.
  - rewrite (proj2 (Z.eqb_neq _ _) Hc), IH. f_equal. lia.
Qed.

Lemma atoi_nonneg ds : ngx_atoi ds = NGX_ERROR \/ 0 <= ngx_atoi ds.
Proof.
  unfold ngx_atoi, ato. case_match; [by left|]. destruct (ato_loop 0 ds) as [v|]; cbn; [|by left].
  destruct (v <? 0) eqn:E; [by left|]. right. zify_bool. lia.
Qed.

(** C38: [ngx_ptocidr] of an address and a length gives the network of the
    address: with [w] bits in an address of value [v], the address without its
    low [w - n] bits and the mask of the others, [NGX_OK] if those bits were
    zero already and [NGX_DONE] if not.  Anything that is not an address, a
    length that is not a number and one that is greater than [w] are refused. *)
Theorem ptocidr_network text ds :
  Forall (fun c => c <> C! "/") text ->
  let n := ngx_atoi ds in
  match addr_value text with
  | Some (w, v) =>
      if decide (0 <= n <= w) then
        exists c, ngx_ptocidr (text ++ C! "/" :: ds) = (if v mod 2 ^ (w - n) =? 0 then NGX_OK else NGX_DONE, Some c) /\
          cidr_value c = (v - v mod 2 ^ (w - n), 2 ^ w - 2 ^ (w - n))
      else ngx_ptocidr (text ++ C! "/" :: ds) = (NGX_ERROR, None)
  | None => ngx_ptocidr (text ++ C! "/" :: ds) = (NGX_ERROR, None)
  end.
Proof.
  intros Ht n. unfold ngx_ptocidr. rewrite strlchr_found by done. rewrite Z.add_0_l, Nat2Z.id, take_app_length.
  replace (drop (S (length text)) (text ++ C! "/" :: ds)) with ds
    by (rewrite drop_app_ge by lia; by replace (S (length text) - length text)%nat with 1%nat by lia).
  fold n. pose proof (atoi_nonneg ds) as Hn. fold n in Hn. unfold addr_value.
  destruct (ngx_inet_addr text =? INADDR_NONE); cbn [negb].
  - destruct (ngx_inet6_addr text) as [p|] eqn:Ep; [|done]. destruct (inet6_addr_16 text p Ep) as [Hl Hb].
    case_decide as Hd.
    + assert (Hne : n <> NGX_ERROR) by lia. rewrite (proj2 (Z.eqb_neq _ _) Hne). decide_tests.
      destruct (cidr6_loop_ok p n NGX_OK Hb) as (addr' & mask & -> & Ha & Hm & _); [rewrite Hl; lia|].
      rewrite Hl in *. eexists; split; [done|]. cbn [cidr_value]. by rewrite Ha, Hm.
    + destruct Hn as [->|Hn]; [done|]. destruct (n =? NGX_ERROR); [done|]. by decide_tests.
  - destruct (inet_addr_range text) as (z & Hz & ->). unfold ntohl. rewrite htonl_htonl by done. case_decide as Hd.
    + assert (Hne : n <> NGX_ERROR) by lia. rewrite (proj2 (Z.eqb_neq _ _) Hne). by apply cidr4_ok.
    + destruct Hn as [->|Hn]; [done|]. destruct (n =? NGX_ERROR); [done|]. unfold cidr4. by decide_tests.
Qed.

Lemma ptocidr_network_witness :
  exists c, ngx_ptocidr (B! "10.1.2.3/8") = (NGX_DONE, Some c) /\ cidr_value c = (be32 10 0 0 0, be32 255 0 0 0).
Proof.
  assert (H : Forall (fun c => c <> C! "/") (B! "10.1.2.3")) by (repeat constructor; lia).
  exact (ptocidr_network (B! "10.1.2.3") (B! "8") H).
Defined.
