(* ===== verification/NgxBase64.v ===== *)
(** * Base64

    [ngx_encode_base64], [ngx_decode_base64] and [ngx_decode_base64url] of
    src/nginx-1.4.7/src/core/ngx_string.c. *)
From S2P Require Import Prelude.

(** ** Definitions *)

(** [core/ngx_string.c:1065-1066] basis64 *)
Definition encode_basis64 : list Z :=
  B! "ABCDEFGHIJKLMNOPQRSTUVWXYZabcdefghijklmnopqrstuvwxyz0123456789+/".

Definition enc64 (i : Z) : Z := mem_at encode_basis64 i.

(** [(s[0] & 3) << 4] and the like are below 64: the basis has 64 characters.
    [core/ngx_string.c:1060-1098] ngx_encode_base64 *)
Fixpoint ngx_encode_base64 (s : list Z) : list Z :=
  match s with
  | s0 :: s1 :: s2 :: rest =>
      enc64 (Z.land (Z.shiftr s0 2) 0x3f)
      :: enc64 (Z.lor (Z.shiftl (Z.land s0 3) 4) (Z.shiftr s1 4))
      :: enc64 (Z.lor (Z.shiftl (Z.land s1 0x0f) 2) (Z.shiftr s2 6))
      :: enc64 (Z.land s2 0x3f)
      :: ngx_encode_base64 rest
  | [s0; s1] =>
      [ enc64 (Z.land (Z.shiftr s0 2) 0x3f);
        enc64 (Z.lor (Z.shiftl (Z.land s0 3) 4) (Z.shiftr s1 4));
        enc64 (Z.shiftl (Z.land s1 0x0f) 2);
        C! "=" ]
  | [s0] =>
      [ enc64 (Z.land (Z.shiftr s0 2) 0x3f);
        enc64 (Z.shiftl (Z.land s0 3) 4);
        C! "="; C! "=" ]
  | [] => []
  end.

(** The first and the second half of the table for the standard alphabet.
    [core/ngx_string.c:1104-1122] basis64 *)
Definition decode_basis64 : list Z :=
  repeat 77 43 ++ [62; 77; 77; 77; 63; 52; 53; 54; 55; 56; 57; 58; 59; 60; 61] ++ repeat 77 7 ++
  [0; 1; 2; 3; 4; 5; 6; 7; 8; 9; 10; 11; 12; 13; 14; 15; 16; 17; 18; 19; 20; 21; 22; 23; 24; 25] ++
  repeat 77 6 ++
  [26; 27; 28; 29; 30; 31; 32; 33; 34; 35; 36; 37; 38; 39; 40; 41; 42; 43; 44; 45; 46; 47; 48; 49;
   50; 51] ++ repeat 77 5 ++ repeat 77 128.

(** [core/ngx_string.c:1131-1149] basis64 *)
Definition decode_basis64url : list Z :=
  repeat 77 45 ++ [62; 77; 77; 52; 53; 54; 55; 56; 57; 58; 59; 60; 61] ++ repeat 77 7 ++
  [0; 1; 2; 3; 4; 5; 6; 7; 8; 9; 10; 11; 12; 13; 14; 15; 16; 17; 18; 19; 20; 21; 22; 23; 24; 25] ++
  [77; 77; 77; 77; 63; 77] ++
  [26; 27; 28; 29; 30; 31; 32; 33; 34; 35; 36; 37; 38; 39; 40; 41; 42; 43; 44; 45; 46; 47; 48; 49;
   50; 51] ++ repeat 77 5 ++ repeat 77 128.

(** The length of the part before a padding character; [None] is the return of
    [NGX_ERROR] for a byte outside of the alphabet.
    [core/ngx_string.c:1161-1169] for (len = 0; len < src->len; len++) *)
Fixpoint base64_len (basis s : list Z) : option nat :=
  match s with
  | [] => Some O
  | c :: s' =>
      if c =? C! "=" then Some O
      else if mem_at basis c =? 77 then None
      else S <$> base64_len basis s'
  end.

(** [core/ngx_string.c:1178-1193] while (len > 3) *)
Fixpoint base64_groups (basis s : list Z) : list Z :=
  let b := mem_at basis in
  match s with
  | s0 :: s1 :: s2 :: s3 :: rest =>
      u8 (Z.lor (Z.shiftl (b s0) 2) (Z.shiftr (b s1) 4))
      :: u8 (Z.lor (Z.shiftl (b s1) 4) (Z.shiftr (b s2) 2))
      :: u8 (Z.lor (Z.shiftl (b s2) 6) (b s3))
      :: base64_groups basis rest
  | [s0; s1; s2] =>
      [ u8 (Z.lor (Z.shiftl (b s0) 2) (Z.shiftr (b s1) 4));
        u8 (Z.lor (Z.shiftl (b s1) 4) (Z.shiftr (b s2) 2)) ]
  | [s0; s1] => [ u8 (Z.lor (Z.shiftl (b s0) 2) (Z.shiftr (b s1) 4)) ]
  | _ => []
  end.

(** [None] is [NGX_ERROR].
    [core/ngx_string.c:1155-1198] ngx_decode_base64_internal *)
Definition ngx_decode_base64_internal (src basis : list Z) : option (list Z) :=
  match base64_len basis src with
  | None => None
  | Some len => if (len mod 4 =? 1)%nat then None else Some (base64_groups basis (take len src))
  end.

(** [core/ngx_string.c:1101-1125] ngx_decode_base64 *)
Definition ngx_decode_base64 (src : list Z) : option (list Z) :=
  ngx_decode_base64_internal src decode_basis64.

(** [core/ngx_string.c:1128-1152] ngx_decode_base64url *)
Definition ngx_decode_base64url (src : list Z) : option (list Z) :=
  ngx_decode_base64_internal src decode_basis64url.

(** [core/ngx_string.h:181-181] ngx_base64_encoded_length *)
Definition ngx_base64_encoded_length (len : Z) : Z := (len + 2) / 3 * 4.

(** [core/ngx_string.h:182-182] ngx_base64_decoded_length *)
Definition ngx_base64_decoded_length (len : Z) : Z := (len + 3) / 4 * 3.

Example base64_1 :
  ngx_encode_base64 (B! "nginx") = B! "bmdpbng=" /\
  ngx_decode_base64 (B! "bmdpbng=") = Some (B! "nginx") /\
  ngx_decode_base64url (B! "_-8") = Some [255; 239].
Proof. by vm_compute. Qed.

(** ** Lengths *)

(** Induction by groups of three and of four elements. *)
Lemma list_ind3 (P : list Z -> Prop) :
  P [] -> (forall a, P [a]) -> (forall a b, P [a; b]) ->
  (forall a b c l, P l -> P (a :: b :: c :: l)) -> forall l, P l.
Proof.
  intros H0 H1 H2 H3. fix IH 1. intros [|a [|b [|c l]]]; [done|apply H1|apply H2|].
  apply H3, IH.
Qed.

Lemma list_ind4 (P : list Z -> Prop) :
  P [] -> (forall a, P [a]) -> (forall a b, P [a; b]) -> (forall a b c, P [a; b; c]) ->
  (forall a b c d l, P l -> P (a :: b :: c :: d :: l)) -> forall l, P l.
Proof.
  intros H0 H1 H2 H3 H4. fix IH 1.
  intros [|a [|b [|c [|d l]]]]; [done|apply H1|apply H2|apply H3|]. apply H4, IH.
Qed.

Lemma base64_len_le basis s n : base64_len basis s = Some n -> (n <= length s)%nat.
Proof.
  revert n. induction s as [|c s IH]; intros n; cbn; [intros [= <-]; lia|].
  repeat case_match; intros E; simplify_eq; try lia.
  destruct (base64_len basis s) as [m|]; [|done]. injection E as <-. specialize (IH m eq_refl). lia.
Qed.

Lemma base64_groups_length basis s :
  Z.of_nat (length (base64_groups basis s)) <= Z.of_nat (length s) * 3 / 4.
Proof.
  induction s as [|a|a b|a b c|a b c d s IH] using list_ind4; try done.
  cbn [base64_groups length]. Z.div_mod_to_equations. lia.
Qed.

(** the buffers sized by [ngx_base64_encoded_length] and
    [ngx_base64_decoded_length] are large enough: encoding fills its buffer
    exactly, and decoding any input, valid or not, with either alphabet never
    writes more than its buffer holds. *)
Theorem base64_lengths (src : list Z) :
  Z.of_nat (length (ngx_encode_base64 src)) = ngx_base64_encoded_length (Z.of_nat (length src)) /\
  forall basis dst, ngx_decode_base64_internal src basis = Some dst ->
    Z.of_nat (length dst) <= ngx_base64_decoded_length (Z.of_nat (length src)).
Proof.
  split.
  - unfold ngx_base64_encoded_length. induction src as [|a|a b|a b c s IH] using list_ind3; try done.
    cbn [ngx_encode_base64 length]. rewrite !Nat2Z.inj_succ, IH. Z.div_mod_to_equations. lia.
  - intros basis dst. unfold ngx_decode_base64_internal, ngx_base64_decoded_length.
    destruct (base64_len basis src) as [len|] eqn:E; [|done]. case_match; [done|]. intros [= <-].
    apply base64_len_le in E. pose proof (base64_groups_length basis (take len src)) as H'.
    rewrite length_take in H'. Z.div_mod_to_equations. lia.
Qed.

(** ** Round trip *)

Lemma enc64_spec i :
  0 <= i < 64 ->
  mem_at decode_basis64 (enc64 i) = i /\ enc64 i <> C! "=".
Proof.
  intros Hi. assert (H : forallb (fun n => (mem_at decode_basis64 (enc64 (Z.of_nat n)) =? Z.of_nat n)
    && negb (enc64 (Z.of_nat n) =? 61)) (seq 0 64) = true) by (by vm_compute).
  rewrite forallb_forall in H. specialize (H (Z.to_nat i)). rewrite Z2Nat.id in H by lia.
  apply andb_prop in H as [H1 H2]; [|apply in_seq; lia]. zify_bool. done.
Qed.

(** The four six-bit numbers of three bytes. *)
Lemma sextets a b c :
  is_byte a -> is_byte b -> is_byte c ->
  Z.land (Z.shiftr a 2) 0x3f = a / 4 /\
  Z.lor (Z.shiftl (Z.land a 3) 4) (Z.shiftr b 4) = a mod 4 * 16 + b / 16 /\
  Z.shiftl (Z.land a 3) 4 = a mod 4 * 16 /\
  Z.lor (Z.shiftl (Z.land b 0x0f) 2) (Z.shiftr c 6) = b mod 16 * 4 + c / 64 /\
  Z.shiftl (Z.land b 0x0f) 2 = b mod 16 * 4 /\
  Z.land c 0x3f = c mod 64.
Proof.
  unfold is_byte. intros Ha Hb Hc.
  change 0x3f with (Z.ones 6). change 3 with (Z.ones 2). change 0x0f with (Z.ones 4).
  rewrite !Z.land_ones, !Z.shiftr_div_pow2 by lia.
  assert (0 <= b / 2 ^ 4 < 2 ^ 4 /\ 0 <= c / 2 ^ 6 < 2 ^ 2 /\ a / 2 ^ 2 < 2 ^ 6) as (? & ? & ?)
    by (Z.div_mod_to_equations; lia).
  rewrite !lor_shiftl_add, !Z.shiftl_mul_pow2 by lia.
  split_and!; try done. rewrite Z.mod_small; [done|]. Z.div_mod_to_equations. lia.
Qed.

(** Putting them together again. *)
Lemma join_sextets x1 x2 x3 x4 :
  0 <= x1 < 64 -> 0 <= x2 < 64 -> 0 <= x3 < 64 -> 0 <= x4 < 64 ->
  u8 (Z.lor (Z.shiftl x1 2) (Z.shiftr x2 4)) = (x1 * 4 + x2 / 16) mod 256 /\
  u8 (Z.lor (Z.shiftl x2 4) (Z.shiftr x3 2)) = (x2 * 16 + x3 / 4) mod 256 /\
  u8 (Z.lor (Z.shiftl x3 6) x4) = (x3 * 64 + x4) mod 256.
Proof.
  intros. rewrite !Z.shiftr_div_pow2 by lia.
  assert (0 <= x2 / 2 ^ 4 < 2 ^ 2 /\ 0 <= x3 / 2 ^ 2 < 2 ^ 4) as [] by (Z.div_mod_to_equations; lia).
  by rewrite !lor_shiftl_add by lia.
Qed.

Lemma base64_len_cons i s :
  0 <= i < 64 -> base64_len decode_basis64 (enc64 i :: s) = S <$> base64_len decode_basis64 s.
Proof.
  intros Hi. destruct (enc64_spec i Hi) as [H1 H2]. cbn [base64_len].
  rewrite (proj2 (Z.eqb_neq _ _)) by done. rewrite H1.
  by rewrite (proj2 (Z.eqb_neq _ _)) by lia.
Qed.

Lemma base64_decode_encode s :
  Forall is_byte s ->
  exists len, base64_len decode_basis64 (ngx_encode_base64 s) = Some len /\
    (len mod 4 <> 1)%nat /\ base64_groups decode_basis64 (take len (ngx_encode_base64 s)) = s.
Proof.
  assert (H0 : is_byte 0) by (unfold is_byte; lia).
  assert (Hdec : forall i, 0 <= i < 64 -> mem_at decode_basis64 (enc64 i) = i)
    by (intros i Hi; by apply enc64_spec).
  induction s as [|a|a b|a b c s IH] using list_ind3; intros Hs; rewrite ?Forall_cons in Hs.
  - exists 0%nat. done.
  - destruct Hs as [Ha _]. destruct (sextets a 0 0 Ha H0 H0) as (E1 & _ & E2 & _).
    cbn [ngx_encode_base64]. rewrite E1, E2. unfold is_byte in Ha.
    assert (R : 0 <= a / 4 < 64 /\ 0 <= a mod 4 * 16 < 64) by (Z.div_mod_to_equations; lia).
    destruct R as [R1 R2]. exists 2%nat. rewrite !base64_len_cons by done.
    split_and!; [done|done|]. cbn [take base64_groups]. rewrite !Hdec by done.
    destruct (join_sextets (a / 4) (a mod 4 * 16) 0 0) as (-> & _); [done|done|lia|lia|].
    f_equal. Z.div_mod_to_equations. lia.
  - destruct Hs as (Ha & Hb & _). destruct (sextets a b 0 Ha Hb H0) as (E1 & E2 & _ & _ & E3 & _).
    cbn [ngx_encode_base64]. rewrite E1, E2, E3. unfold is_byte in Ha, Hb.
    assert (R : 0 <= a / 4 < 64 /\ 0 <= a mod 4 * 16 + b / 16 < 64 /\ 0 <= b mod 16 * 4 < 64)
      by (Z.div_mod_to_equations; lia).
    destruct R as (R1 & R2 & R3). exists 3%nat. rewrite !base64_len_cons by done.
    split_and!; [done|done|]. cbn [take base64_groups]. rewrite !Hdec by done.
    destruct (join_sextets (a / 4) (a mod 4 * 16 + b / 16) (b mod 16 * 4) 0) as (-> & -> & _);
      [done|done|done|lia|].
    f_equal; [|f_equal]; Z.div_mod_to_equations; lia.
  - destruct Hs as (Ha & Hb & Hc & Hs). destruct (IH Hs) as (len & El & Hmod & Eg).
    destruct (sextets a b c Ha Hb Hc) as (E1 & E2 & _ & E3 & _ & E4).
    cbn [ngx_encode_base64]. rewrite E1, E2, E3, E4. unfold is_byte in Ha, Hb, Hc.
    assert (R : 0 <= a / 4 < 64 /\ 0 <= a mod 4 * 16 + b / 16 < 64 /\
      0 <= b mod 16 * 4 + c / 64 < 64 /\ 0 <= c mod 64 < 64) by (Z.div_mod_to_equations; lia).
    destruct R as (R1 & R2 & R3 & R4). exists (4 + len)%nat.
    rewrite !base64_len_cons, El by done. split_and!; [done| |].
    + rewrite Nat.add_comm. change 4%nat with (1 * 4)%nat at 1. by rewrite Nat.Div0.mod_add.
    + cbn [Nat.add take base64_groups]. rewrite !Hdec, Eg by done.
      destruct (join_sextets (a / 4) (a mod 4 * 16 + b / 16) (b mod 16 * 4 + c / 64) (c mod 64))
        as (-> & -> & ->); [done..|].
      f_equal; [|f_equal; [|f_equal]]; Z.div_mod_to_equations; lia.
Qed.

(** Decoding what [ngx_encode_base64] makes of any bytes gives them back. *)
Theorem base64_roundtrip (src : list Z) :
  Forall is_byte src -> ngx_decode_base64 (ngx_encode_base64 src) = Some src.
Proof.
  intros H. destruct (base64_decode_encode src H) as (len & El & Hmod & Eg).
  unfold ngx_decode_base64, ngx_decode_base64_internal. rewrite El.
  rewrite (proj2 (Nat.eqb_neq _ _)) by done. by rewrite Eg.
Qed.

Lemma base64_roundtrip_witness :
  ngx_decode_base64 (ngx_encode_base64 (B! "Aladdin:open sesame")) = Some (B! "Aladdin:open sesame").
Proof.
  apply (base64_roundtrip (B! "Aladdin:open sesame")). repeat constructor; unfold is_byte; lia.
Defined.
