(* ===== verification/NgxEscape.v ===== *)
(** * Escaping

    [ngx_escape_uri], [ngx_unescape_uri] and [ngx_escape_html] of
    src/nginx-1.4.7/src/core/ngx_string.c. *)
From S2P Require Import Prelude HttpChars NgxNumber.

(** ** Percent-escapes *)

(** [core/ngx_string.c:1349-1365] uri *)
Definition escape_uri_map : list Z :=
  [ 0xffffffff; 0x80000029; 0x00000000; 0x80000000; 0xffffffff; 0xffffffff; 0xffffffff; 0xffffffff ].

(** [core/ngx_string.c:1369-1385] args *)
Definition escape_args_map : list Z :=
  [ 0xffffffff; 0x88000869; 0x00000000; 0x80000000; 0xffffffff; 0xffffffff; 0xffffffff; 0xffffffff ].

(** [core/ngx_string.c:1389-1405] uri_component *)
Definition escape_component_map : list Z :=
  [ 0xffffffff; 0xfc009fff; 0x78000001; 0xb8000001; 0xffffffff; 0xffffffff; 0xffffffff; 0xffffffff ].

(** [core/ngx_string.c:1409-1425] html *)
Definition escape_html_map : list Z :=
  [ 0xffffffff; 0x000000ad; 0x00000000; 0x80000000; 0xffffffff; 0xffffffff; 0xffffffff; 0xffffffff ].

(** [core/ngx_string.c:1429-1445] refresh *)
Definition escape_refresh_map : list Z :=
  [ 0xffffffff; 0x00000085; 0x00000000; 0x80000000; 0xffffffff; 0xffffffff; 0xffffffff; 0xffffffff ].

(** [core/ngx_string.c:1449-1465] memcached *)
Definition escape_memcached_map : list Z :=
  [ 0xffffffff; 0x00000021; 0x00000000; 0x00000000; 0x00000000; 0x00000000; 0x00000000; 0x00000000 ].

(** [core/ngx_string.h:193-199] NGX_ESCAPE_URI *)
Inductive escape_type : Type :=
| NGX_ESCAPE_URI | NGX_ESCAPE_ARGS | NGX_ESCAPE_URI_COMPONENT | NGX_ESCAPE_HTML
| NGX_ESCAPE_REFRESH | NGX_ESCAPE_MEMCACHED | NGX_ESCAPE_MAIL_AUTH.

(** [core/ngx_string.c:1467-1473] map[type] *)
Definition escape_map (type : escape_type) : list Z :=
  match type with
  | NGX_ESCAPE_URI => escape_uri_map
  | NGX_ESCAPE_ARGS => escape_args_map
  | NGX_ESCAPE_URI_COMPONENT => escape_component_map
  | NGX_ESCAPE_HTML => escape_html_map
  | NGX_ESCAPE_REFRESH => escape_refresh_map
  | NGX_ESCAPE_MEMCACHED | NGX_ESCAPE_MAIL_AUTH => escape_memcached_map
  end.

(** [escape[*src >> 5] & (1 << ( *src & 0x1f))]
    [core/ngx_string.c:1482-1482] the test of a byte *)
Definition escaped (map : list Z) (c : Z) : bool :=
  negb (Z.land (mem_at map (Z.shiftr c 5)) (Z.shiftl 1 (Z.land c 0x1f)) =? 0).

(** The number of characters to be escaped, when [dst] is NULL.
    [core/ngx_string.c:1475-1490] dst == NULL *)
Fixpoint escape_count (map src : list Z) : Z :=
  match src with
  | [] => 0
  | c :: src' => (if escaped map c then 1 else 0) + escape_count map src'
  end.

(** [core/ngx_string.c:1492-1503] while (size) *)
Fixpoint escape_bytes (map src : list Z) : list Z :=
  match src with
  | [] => []
  | c :: src' =>
      if escaped map c
      then C! "%" :: hex_lower (Z.shiftr c 4) :: hex_lower (Z.land c 0xf) :: escape_bytes map src'
      else c :: escape_bytes map src'
  end.

(** The number of characters, or what is written to [dst].
    [core/ngx_string.c:1340-1506] ngx_escape_uri *)
Definition ngx_escape_uri (dst_null : bool) (src : list Z) (type : escape_type) : Z + list Z :=
  if dst_null then inl (escape_count (escape_map type) src)
  else inr (escape_bytes (escape_map type) src).

Module UN.

(** [core/ngx_string.c:1513-1517] the states *)
Inductive un_sw : Type := sw_usual | sw_quoted | sw_quoted_second.

End UN.
Import UN.

Abbreviation NGX_UNESCAPE_URI := 1.
Abbreviation NGX_UNESCAPE_REDIRECT := 2.

Definition has_flag (type flag : Z) : bool := negb (Z.land type flag =? 0).

(** What a decoded byte is for a redirect: itself when it is printable, or the
    escape as it was written, [c1] and [c2] being its two digits.
    [core/ngx_string.c:1576-1585] NGX_UNESCAPE_REDIRECT *)
Definition redirect_byte (ch c1 c2 : Z) : list Z :=
  if (C! "%" <? ch) && (ch <? 0x7f) then [ch] else [C! "%"; c1; c2].

(** The loop [while (size--)]: the bytes written to [dst] and the bytes left in
    the source after [goto done].  [prev] is [s - 2].
    [core/ngx_string.c:1525-1630] while (size--) *)
Fixpoint unescape_loop (type : Z) (state : un_sw) (decoded prev : Z) (src : list Z)
    : list Z * list Z :=
  match src with
  | [] => ([], [])
  | ch :: src' =>
      let put bs st := let (d, s) := unescape_loop type st decoded ch src' in (bs ++ d, s) in
      match state with
      | sw_usual =>
          if (ch =? C! "?") && has_flag type (Z.lor NGX_UNESCAPE_URI NGX_UNESCAPE_REDIRECT)
          then ([ch], src')
          else if ch =? C! "%" then unescape_loop type sw_quoted decoded ch src'
          else put [ch] sw_usual
      | sw_quoted =>
          if is_digit ch then unescape_loop type sw_quoted_second (u8 (ch - C! "0")) ch src'
          else
            let c := lcase ch in
            if (C! "a" <=? c) && (c <=? C! "f")
            then unescape_loop type sw_quoted_second (u8 (c - C! "a" + 10)) ch src'
            else put [ch] sw_usual
      | sw_quoted_second =>
          if is_digit ch then
            let d := u8 (Z.shiftl decoded 4 + ch - C! "0") in
            if has_flag type NGX_UNESCAPE_REDIRECT then put (redirect_byte d prev ch) sw_usual
            else put [d] sw_usual
          else
            let c := lcase ch in
            if (C! "a" <=? c) && (c <=? C! "f") then
              let d := u8 (Z.shiftl decoded 4 + c - C! "a" + 10) in
              if has_flag type NGX_UNESCAPE_URI then
                if d =? C! "?" then ([d], src') else put [d] sw_usual
              else if has_flag type NGX_UNESCAPE_REDIRECT then
                if d =? C! "?" then ([d], src') else put (redirect_byte d prev ch) sw_usual
              else put [d] sw_usual
            else put [] sw_usual
      end
  end.

(** [core/ngx_string.c:1509-1636] ngx_unescape_uri *)
Definition ngx_unescape_uri (src : list Z) (type : Z) : list Z * list Z :=
  unescape_loop type sw_usual 0 0 src.

(** ** HTML *)

(** [core/ngx_string.c:1650-1670] switch ( *src++) *)
Definition html_extra (c : Z) : Z :=
  if c =? C! "<" then 3 else if c =? C! ">" then 3 else if c =? C! "&" then 4
  else if c =? 34 then 5 else 0.

(** The number of additional bytes, when [dst] is NULL.
    [core/ngx_string.c:1645-1675] dst == NULL *)
Fixpoint escape_html_extra (src : list Z) : Z :=
  match src with
  | [] => 0
  | c :: src' => html_extra c + escape_html_extra src'
  end.

(** [core/ngx_string.c:1680-1703] switch (ch) *)
Definition html_bytes (c : Z) : list Z :=
  if c =? C! "<" then B! "&lt;" else if c =? C! ">" then B! "&gt;"
  else if c =? C! "&" then B! "&amp;" else if c =? 34 then B! "&quot;" else [c].

(** [core/ngx_string.c:1639-1708] ngx_escape_html *)
Definition ngx_escape_html (dst_null : bool) (src : list Z) : Z + list Z :=
  if dst_null then inl (escape_html_extra src) else inr (concat (map html_bytes src)).

(** ** Round trip *)

(** The bitmaps that escape the percent sign itself. *)
Definition escapes_percent (type : escape_type) : bool := escaped (escape_map type) (C! "%").

Lemma unescape_first d type prev dec rest :
  0 <= d < 16 ->
  unescape_loop type sw_quoted dec prev (hex_lower d :: rest) =
  unescape_loop type sw_quoted_second d (hex_lower d) rest.
Proof.
  intros Hd. pose proof (in_range 0 16 d ltac:(lia)) as Hin.
  cbn in Hin. repeat (destruct Hin as [<-|Hin]; [reflexivity|]). done.
Qed.

Lemma unescape_second h d prev rest :
  0 <= h < 16 -> 0 <= d < 16 ->
  unescape_loop 0 sw_quoted_second h prev (hex_lower d :: rest) =
  (let (o, s) := unescape_loop 0 sw_usual h (hex_lower d) rest in (h * 16 + d :: o, s)).
Proof.
  intros Hh Hd. pose proof (in_range 0 16 h ltac:(lia)) as Hh'.
  pose proof (in_range 0 16 d ltac:(lia)) as Hd'. cbn in Hh', Hd'.
  repeat (destruct Hd' as [<-|Hd'];
    [repeat (destruct Hh' as [<-|Hh']; [reflexivity|]); done|]). done.
Qed.

(** The state variables that the state does not use do not matter. *)
Lemma unescape_usual_irrel d1 d2 p1 p2 s :
  unescape_loop 0 sw_usual d1 p1 s = unescape_loop 0 sw_usual d2 p2 s.
Proof.
  assert (H : forall s st d1 d2 p1 p2, (st = sw_quoted_second -> d1 = d2) ->
    unescape_loop 0 st d1 p1 s = unescape_loop 0 st d2 p2 s); [|by apply H].
  clear. induction s as [|ch s IH]; intros st d1 d2 p1 p2 Hd; [done|].
  cbn [unescape_loop]. destruct st.
  - rewrite (IH sw_usual d1 d2 ch ch), (IH sw_quoted d1 d2 ch ch) by done. done.
  - by rewrite (IH sw_usual d1 d2 ch ch) by done.
  - rewrite Hd by done. done.
Qed.

Lemma unescape_escape map s :
  escaped map (C! "%") = true -> Forall is_byte s ->
  unescape_loop 0 sw_usual 0 0 (escape_bytes map s) = (s, []).
Proof.
  intros Hp H. induction H as [|c s Hc _ IH]; [done|]. cbn [escape_bytes].
  destruct (escaped map c) eqn:E.
  - assert (Hh : 0 <= Z.shiftr c 4 < 16 /\ 0 <= Z.land c 15 < 16 /\ Z.shiftr c 4 * 16 + Z.land c 15 = c).
    { unfold is_byte in Hc. change 15 with (Z.ones 4).
      rewrite Z.land_ones, Z.shiftr_div_pow2 by lia. Z.div_mod_to_equations. lia. }
    destruct Hh as (H1 & H2 & H3).
    change (unescape_loop 0 sw_usual 0 0 (37 :: ?l)) with (unescape_loop 0 sw_quoted 0 37 l).
    rewrite unescape_first, unescape_second by done. rewrite (unescape_usual_irrel _ 0 _ 0), IH. by rewrite H3.
  - cbn [unescape_loop]. rewrite andb_false_r. destruct (Z.eqb_spec c 37) as [->|]; [congruence|].
    rewrite (unescape_usual_irrel _ 0 _ 0), IH. done.
Qed.

Lemma escape_length map s :
  Z.of_nat (length (escape_bytes map s)) = Z.of_nat (length s) + 2 * escape_count map s.
Proof. induction s as [|c s IH]; cbn; [done|]. destruct (escaped map c); cbn; lia. Qed.

(** For every kind of escaping but the one of the refresh header, undoing
    the escapes gives the string back; and the buffers that the callers
    allocate, the length and twice the count, are exactly filled. *)
Theorem escape_uri_roundtrip (src : list Z) (type : escape_type) :
  Forall is_byte src ->
  exists n out, ngx_escape_uri true src type = inl n /\ ngx_escape_uri false src type = inr out /\
    Z.of_nat (length out) = Z.of_nat (length src) + 2 * n /\
    (type <> NGX_ESCAPE_REFRESH -> ngx_unescape_uri out 0 = (src, [])).
Proof.
  intros H. eexists _, _. split_and!; [done|done|apply escape_length|].
  intros Ht. apply unescape_escape; [|done]. by destruct type.
Qed.

Lemma escape_uri_roundtrip_witness :
  exists n out, ngx_escape_uri true (B! "a b%c?") NGX_ESCAPE_ARGS = inl n /\
    ngx_escape_uri false (B! "a b%c?") NGX_ESCAPE_ARGS = inr out /\
    Z.of_nat (length out) = Z.of_nat (length (B! "a b%c?")) + 2 * n /\
    (NGX_ESCAPE_ARGS <> NGX_ESCAPE_REFRESH -> ngx_unescape_uri out 0 = (B! "a b%c?", [])).
Proof.
  apply (escape_uri_roundtrip (B! "a b%c?") NGX_ESCAPE_ARGS). repeat constructor; unfold is_byte; lia.
Defined.

(** The comments of two bitmaps do not agree with them: the one of [refresh]
    names the percent sign, which is not escaped, and the one of [args] does
    not name the semicolon, which is. *)
Example escape_comments :
  escaped escape_refresh_map (C! "%") = false /\ escaped escape_args_map (C! ";") = true.
Proof. by vm_compute. Qed.

(** ** HTML *)

Definition html_safe (c : Z) : Prop := c <> C! "<" /\ c <> C! ">" /\ c <> 34.

(** Escaped HTML holds no angle bracket and no double quote, and it has
    the length of its source and of the additional bytes that a first call
    computes. *)
Theorem escape_html_spec (src : list Z) :
  exists n out, ngx_escape_html true src = inl n /\ ngx_escape_html false src = inr out /\
    Z.of_nat (length out) = Z.of_nat (length src) + n /\ Forall html_safe out.
Proof.
  eexists _, _. split_and!; [done|done| |].
  - induction src as [|c src IH]; cbn; [done|]. rewrite length_app, Nat2Z.inj_add, IH.
    unfold html_bytes, html_extra. repeat case_match; cbn [length]; lia.
  - induction src as [|c src IH]; cbn; [done|]. apply Forall_app. split; [|done].
    unfold html_bytes, html_safe. repeat case_match; zify_bool; repeat constructor; lia.
Qed.
