(* ===== verification/NgxTime.v ===== *)
(** * Dates

    [ngx_gmtime] and [ngx_http_time] of src/nginx-1.4.7/src/core/ngx_times.c and
    [ngx_http_parse_time] of src/nginx-1.4.7/src/http/ngx_http_parse_time.c: the
    dates of the headers, from and to seconds since the epoch.  [time_t] and
    [ngx_uint_t] have 64 bits. *)
From S2P Require Import Prelude HttpChars NgxNumber NgxSprintf.

(** ** From seconds to a date *)

(** [os/unix/ngx_time.h:19-36] ngx_tm_t *)
Record tm : Type := {
  tm_sec : Z; tm_min : Z; tm_hour : Z; tm_mday : Z; tm_mon : Z; tm_year : Z; tm_wday : Z
}.

(** [core/ngx_times.c:324-324] leap *)
Definition gm_leap (year : Z) : Z :=
  if (year mod 4 =? 0) && (negb (year mod 100 =? 0) || (year mod 400 =? 0)) then 1 else 0.

(** The year, counted from March, and the day of it.
    [core/ngx_times.c:319-327] yday *)
Definition gm_year_day (days : Z) : Z * Z :=
  let year := u64 ((days + 2) * 400) / (365 * 400 + 100 - 4 + 1) in
  let yday := s64 (days - (365 * year + year / 4 - year / 100 + year / 400)) in
  if yday <? 0 then (year - 1, 365 + gm_leap year + yday) else (year, yday).

(** [core/ngx_times.c:282-372] ngx_gmtime *)
Definition ngx_gmtime (t : Z) : tm :=
  let n := u64 t in
  let days := n / 86400 in
  let wday := (4 + days) mod 7 in
  let n := n mod 86400 in
  let hour := n / 3600 in
  let n := n mod 3600 in
  let min := n / 60 in
  let sec := n mod 60 in
  let days := u64 (days - (31 + 28) + 719527) in
  let (year, yday) := gm_year_day days in
  let mon := (yday + 31) * 10 / 306 in
  let mday := yday - (367 * mon / 12 - 30) + 1 in
  let (year, mon) := if 306 <=? yday then (year + 1, mon - 10) else (year, mon + 2) in
  {| tm_sec := sec; tm_min := min; tm_hour := hour; tm_mday := mday; tm_mon := mon;
     tm_year := s32 year; tm_wday := wday |}.

(** [core/ngx_times.c:55-55] week *)
Definition week (i : Z) : list Z :=
  nth (Z.to_nat i) [B! "Sun"; B! "Mon"; B! "Tue"; B! "Wed"; B! "Thu"; B! "Fri"; B! "Sat"] [].

(** [core/ngx_times.c:56-57] months *)
Definition months (i : Z) : list Z :=
  nth (Z.to_nat i) [B! "Jan"; B! "Feb"; B! "Mar"; B! "Apr"; B! "May"; B! "Jun"; B! "Jul"; B! "Aug";
                    B! "Sep"; B! "Oct"; B! "Nov"; B! "Dec"] [].

(** [core/ngx_times.c:237-252] ngx_http_time *)
Definition ngx_http_time (t : Z) : vs_error + list Z :=
  let tm := ngx_gmtime t in
  ngx_sprintf (B! "%s, %02d %s %4d %02d:%02d:%02d GMT")
    [ VCStr (week (tm_wday tm)); VInt (tm_mday tm); VCStr (months (tm_mon tm - 1));
      VInt (tm_year tm); VInt (tm_hour tm); VInt (tm_min tm); VInt (tm_sec tm) ].

(** The years after 2037 have a short form in cookies for the sake of some
    browsers: [tm_year > 2037] prints four digits, the others two.
    [core/ngx_times.c:255-279] ngx_http_cookie_time *)
Definition ngx_http_cookie_time (t : Z) : vs_error + list Z :=
  let tm := ngx_gmtime t in
  ngx_sprintf (if 2037 <? tm_year tm then B! "%s, %02d-%s-%d %02d:%02d:%02d GMT"
               else B! "%s, %02d-%s-%02d %02d:%02d:%02d GMT")
    [ VCStr (week (tm_wday tm)); VInt (tm_mday tm); VCStr (months (tm_mon tm - 1));
      VInt (if 2037 <? tm_year tm then tm_year tm else Z.rem (tm_year tm) 100);
      VInt (tm_hour tm); VInt (tm_min tm); VInt (tm_sec tm) ].

Example http_time_1 : ngx_http_time 784111777 = inr (B! "Sun, 06 Nov 1994 08:49:37 GMT").
Proof. by vm_compute. Qed.

(** ** From a date to seconds *)

(** [http/ngx_http_parse_time.c:22-27] fmt *)
Inductive time_fmt : Type := no | rfc822 | rfc850 | isoc.

#[global] Instance time_fmt_eq : EqDecision time_fmt.
Proof. solve_decision. Defined.

(** [http/ngx_http_parse_time.c:13-13] mday *)
Definition mday (month : Z) : Z :=
  nth (Z.to_nat month) [31; 28; 31; 30; 31; 30; 31; 31; 30; 31; 30; 31] 0.

(** Up to the comma or the space.
    [http/ngx_http_parse_time.c:37-46] for (p = value; p < end; p++) *)
Fixpoint pt_weekday (s : list Z) (p : Z) : Z * time_fmt :=
  match s with
  | [] => (p, no)
  | c :: s' =>
      if c =? C! "," then (p, no) else if c =? C! " " then (p, isoc) else pt_weekday s' (p + 1)
  end.

(** [http/ngx_http_parse_time.c:48-51] for (p++; p < end; p++) *)
Fixpoint pt_spaces (s : list Z) (p : Z) : Z :=
  match s with
  | c :: s' => if negb (c =? C! " ") then p else pt_spaces s' (p + 1)
  | [] => p
  end.

Section ParseTime.
Context (value : list Z).

(** [*(p + i)] *)
Abbreviation at_ p := (mem_at value p).

(** [*p < '0' || *p > '9'] is an error. *)
Definition pt_digit (p : Z) : bool := negb ((at_ p <? C! "0") || (C! "9" <? at_ p)).
Definition pt_digits2 (p : Z) : bool := pt_digit p && pt_digit (p + 1).
Definition pt_digits4 (p : Z) : bool := pt_digits2 p && pt_digits2 (p + 2).

(** [( *p - '0') * 10 + *(p + 1) - '0'] *)
Definition pt_number2 (p : Z) : Z := (at_ p - C! "0") * 10 + at_ (p + 1) - C! "0".

(** [http/ngx_http_parse_time.c:135-136] year *)
Definition pt_number4 (p : Z) : Z :=
  (at_ p - C! "0") * 1000 + (at_ (p + 1) - C! "0") * 100 + (at_ (p + 2) - C! "0") * 10
  + at_ (p + 3) - C! "0".

(** [http/ngx_http_parse_time.c:81-117] switch ( *p) *)
Definition pt_month (p : Z) : option Z :=
  let c := at_ p in
  if c =? C! "J" then
    Some (if at_ (p + 1) =? C! "a" then 0 else if at_ (p + 2) =? C! "n" then 5 else 6)
  else if c =? C! "F" then Some 1
  else if c =? C! "M" then Some (if at_ (p + 2) =? C! "r" then 2 else 4)
  else if c =? C! "A" then Some (if at_ (p + 1) =? C! "p" then 3 else 7)
  else if c =? C! "S" then Some 8
  else if c =? C! "O" then Some 9
  else if c =? C! "N" then Some 10
  else if c =? C! "D" then Some 11
  else None.

(** The day, in the first place for the formats of RFC 822 and RFC 850: the
    format, the day and the position of the month.
    [http/ngx_http_parse_time.c:57-79] if (fmt != isoc) *)
Definition pt_day_first (end_ p : Z) : option (time_fmt * Z * Z) :=
  if negb (pt_digits2 p) then None
  else
    let day := pt_number2 p in
    let p := p + 2 in
    if at_ p =? C! " " then
      if end_ - p <? 18 then None else Some (rfc822, day, p + 1)
    else if at_ p =? C! "-" then Some (rfc850, day, p + 1)
    else None.

(** The year after the month, in those two formats.
    [http/ngx_http_parse_time.c:127-147] year *)
Definition pt_year_middle (fmt : time_fmt) (p : Z) : option (Z * Z) :=
  match fmt with
  | rfc822 => if negb (pt_digits4 p) then None else Some (pt_number4 p, p + 4)
  | rfc850 =>
      if negb (pt_digits2 p) then None
      else let year := pt_number2 p in
           Some (year + (if year <? 70 then 2000 else 1900), p + 2)
  | _ => Some (0, p)
  end.

(** The day after the month, in the format of asctime().
    [http/ngx_http_parse_time.c:149-171] if (fmt == isoc) *)
Definition pt_day_isoc (end_ p : Z) : option (Z * Z) :=
  let p := if at_ p =? C! " " then p + 1 else p in
  if negb (pt_digit p) then None
  else
    let day := at_ p - C! "0" in
    let p := p + 1 in
    let second := if negb (at_ p =? C! " ") then
                    if negb (pt_digit p) then None else Some (day * 10 + at_ p - C! "0", p + 1)
                  else Some (day, p) in
    match second with
    | None => None
    | Some (day, p) => if end_ - p <? 14 then None else Some (day, p)
    end.

(** Hours, minutes and seconds from the space before them, and the position
    after the minutes and the second colon.
    [http/ngx_http_parse_time.c:173-203] hour, min, sec *)
Definition pt_clock (p : Z) : option (Z * Z * Z * Z) :=
  if negb (at_ p =? C! " ") then None
  else if negb (pt_digits2 (p + 1)) then None
  else if negb (at_ (p + 3) =? C! ":") then None
  else if negb (pt_digits2 (p + 4)) then None
  else if negb (at_ (p + 6) =? C! ":") then None
  else if negb (pt_digits2 (p + 7)) then None
  else Some (pt_number2 (p + 1), pt_number2 (p + 4), pt_number2 (p + 7), p + 7).

(** The year at the end, in the format of asctime().
    [http/ngx_http_parse_time.c:205-221] if (fmt == isoc) *)
Definition pt_year_isoc (p : Z) : option Z :=
  let p := p + 2 in
  if negb (at_ p =? C! " ") then None
  else if negb (pt_digits4 (p + 1)) then None
  else Some (pt_number4 (p + 1)).
End ParseTime.

(** The checks and Gauss' formula; [month] counts from 0.
    [http/ngx_http_parse_time.c:223-277] time *)
Definition pt_seconds (year month day hour min sec : Z) : Z :=
  if (23 <? hour) || (59 <? min) || (59 <? sec) then NGX_ERROR
  else
    let bad_day :=
      if (day =? 29) && (month =? 1)
      then negb (Z.land year 3 =? 0) || ((year mod 100 =? 0) && negb (year mod 400 =? 0))
      else mday month <? day in
    if bad_day then NGX_ERROR
    else
      let month := month - 1 in
      let (month, year) := if month <=? 0 then (month + 12, u64 (year - 1)) else (month, year) in
      s64 (u64 ((365 * year + year / 4 - year / 100 + year / 400 + 367 * month / 12 - 30
                 + day - 1 - 719527 + 31 + 28) * 86400 + hour * 3600 + min * 60 + sec)).

(** [http/ngx_http_parse_time.c:15-277] ngx_http_parse_time *)
Definition ngx_http_parse_time (value : list Z) : Z :=
  let end_ := Z.of_nat (length value) in
  let (p, fmt) := pt_weekday value 0 in
  let p := pt_spaces (drop (Z.to_nat (p + 1)) value) (p + 1) in
  if end_ - p <? 18 then NGX_ERROR
  else
    match (if decide (fmt = isoc) then Some (isoc, 0, p) else pt_day_first value end_ p) with
    | None => NGX_ERROR
    | Some (fmt, day, p) =>
        match pt_month value p with
        | None => NGX_ERROR
        | Some month =>
            let p := p + 3 in
            if (bool_decide (fmt = rfc822) && negb (mem_at value p =? C! " "))
               || (bool_decide (fmt = rfc850) && negb (mem_at value p =? C! "-"))
            then NGX_ERROR
            else
              match pt_year_middle value fmt (p + 1) with
              | None => NGX_ERROR
              | Some (year, p) =>
                  match (if decide (fmt = isoc) then pt_day_isoc value end_ p else Some (day, p)) with
                  | None => NGX_ERROR
                  | Some (day, p) =>
                      match pt_clock value p with
                      | None => NGX_ERROR
                      | Some (hour, min, sec, p) =>
                          match (if decide (fmt = isoc) then pt_year_isoc value p else Some year) with
                          | None => NGX_ERROR
                          | Some year => pt_seconds year month day hour min sec
                          end
                      end
                  end
              end
        end
    end.

Example parse_time_1 :
  ngx_http_parse_time (B! "Sun, 06 Nov 1994 08:49:37 GMT") = 784111777 /\
  ngx_http_parse_time (B! "Sunday, 06-Nov-94 08:49:37 GMT") = 784111777 /\
  ngx_http_parse_time (B! "Sun Nov  6 08:49:37 1994") = 784111777.
Proof. by vm_compute. Qed.


(** ** The calendar *)

(** The days from March 1, 1 BC to March 1 of a year. *)
Definition gauss (y : Z) : Z := 365 * y + y / 4 - y / 100 + y / 400.

Lemma gm_leap_range y : 0 <= gm_leap y <= 1.
Proof. unfold gm_leap. case_match; lia. Qed.

(** A year has 365 days and the leap day. *)
Lemma div_pred y k : 0 < k -> (y - 1) / k = y / k - (if y mod k =? 0 then 1 else 0).
Proof.
  intros Hk. pose proof (Z.div_mod y k ltac:(lia)). pose proof (Z.mod_pos_bound y k Hk).
  case_match; zify_bool; symmetry.
  - apply (Z.div_unique (y - 1) k (y / k - 1) (k - 1)); lia.
  - apply (Z.div_unique (y - 1) k (y / k - 0) (y mod k - 1)); lia.
Qed.

Lemma gauss_step y : gauss y = gauss (y - 1) + 365 + gm_leap y.
Proof.
  unfold gauss, gm_leap. rewrite !div_pred by lia.
  assert (H1 : y mod 100 = 0 -> y mod 4 = 0) by (Z.div_mod_to_equations; lia).
  assert (H2 : y mod 400 = 0 -> y mod 100 = 0) by (Z.div_mod_to_equations; lia).
  destruct (Z.eqb_spec (y mod 4) 0), (Z.eqb_spec (y mod 100) 0), (Z.eqb_spec (y mod 400) 0);
    cbn; try lia; exfalso; auto.
Qed.

(** A year in its cycle of 400 years, its century and its cycle of 4 years. *)
Lemma year_parts y :
  exists q c b a, y = 400 * q + 100 * c + 4 * b + a /\ 0 <= c <= 3 /\ 0 <= b <= 24 /\ 0 <= a <= 3 /\
    gauss y = 365 * y + 97 * q + 24 * c + b.
Proof.
  exists (y / 400), (y mod 400 / 100), (y mod 400 mod 100 / 4), (y mod 400 mod 100 mod 4).
  unfold gauss. set (q := y / 400). set (r := y mod 400). set (c := r / 100). set (s := r mod 100).
  set (b := s / 4). set (a := s mod 4).
  assert (y = 400 * q + r /\ 0 <= r < 400) as [] by (subst q r; Z.div_mod_to_equations; lia).
  assert (r = 100 * c + s /\ 0 <= s < 100) as [] by (subst c s; Z.div_mod_to_equations; lia).
  assert (s = 4 * b + a /\ 0 <= a < 4) as [] by (subst b a; Z.div_mod_to_equations; lia).
  assert (y / 100 = 4 * q + c) as -> by (symmetry; apply (Z.div_unique y 100 _ s); lia).
  assert (y / 4 = 100 * q + 25 * c + b) as -> by (symmetry; apply (Z.div_unique y 4 _ a); lia).
  clearbody q r c s b a. lia.
Qed.

Definition last_day : Z := 3652365.

Lemma gm_year_day_spec days y yd :
  719468 <= days < last_day -> gm_year_day days = (y, yd) ->
  days = gauss y + yd /\ 0 <= yd <= 364 + gm_leap (y + 1) /\ 1969 <= y <= 9999.
Proof.
  unfold last_day. intros Hd. unfold gm_year_day.
  assert (Hu : u64 ((days + 2) * 400) = (days + 2) * 400) by (unfold u64; rewrite Z.mod_small; lia).
  rewrite Hu. set (y0 := (days + 2) * 400 / (365 * 400 + 100 - 4 + 1)).
  fold (gauss y0). pose proof (gauss_step y0) as Hstep.
  assert (Hb : -2 <= days - gauss y0 <= 364 /\ 1969 <= y0 <= 9999).
  { destruct (year_parts y0) as (q & c & b & a & Ey & ? & ? & ? & ->).
    assert (146097 * y0 <= (days + 2) * 400 < 146097 * y0 + 146097)
      by (subst y0; Z.div_mod_to_equations; lia).
    clearbody y0. lia. }
  rewrite s64_small by lia. pose proof (gm_leap_range y0). pose proof (gm_leap_range (y0 + 1)).
  case_match; intros [= <- <-]; zify_bool.
  - replace (y0 - 1 + 1) with y0 by lia.
    assert (y0 <> 1969) by (intros E; rewrite E in *; vm_compute (gauss 1969) in *; lia).
    split_and!; lia.
  - split_and!; lia.
Qed.


(** The month and the day of the month of each day of a year that begins in
    March. *)
Definition month_ok (yd : Z) : bool :=
  let m := (yd + 31) * 10 / 306 in
  let md := yd - (367 * m / 12 - 30) + 1 in
  (1 <=? md) && (md <=? 31) &&
  if 306 <=? yd
  then (11 <=? m) && (m <=? 12) &&
       if (md =? 29) && (m =? 12) then yd =? 365 else md <=? mday (m - 11)
  else (1 <=? m) && (m <=? 10) && (md <=? mday (m + 1)).

Lemma month_ok_all yd : 0 <= yd <= 365 -> month_ok yd = true.
Proof.
  intros H. assert (Hall : forallb (fun n => month_ok (Z.of_nat n)) (seq 0 366) = true)
    by (by vm_compute).
  rewrite forallb_forall in Hall. specialize (Hall (Z.to_nat yd)). rewrite Z2Nat.id in Hall by lia.
  apply Hall, in_seq. lia.
Qed.

Lemma pt_seconds_gauss y m md h mi s :
  0 <= y <= 9999 -> 1 <= m <= 12 -> 0 <= h <= 23 -> 0 <= mi <= 59 -> 0 <= s <= 59 -> 1 <= md <= 31 ->
  0 <= (gauss y + (367 * m / 12 - 30) + md - 1 - 719468) ->
  let (year, month) := if 11 <=? m then (y + 1, m - 11) else (y, m + 1) in
  (if (md =? 29) && (month =? 1) then gm_leap year = 1 else md <= mday month) ->
  pt_seconds year month md h mi s =
  (gauss y + (367 * m / 12 - 30) + md - 1 - 719468) * 86400 + h * 3600 + mi * 60 + s.
Proof.
  intros Hy Hm Hh Hmi Hs Hmd Hpos.
  assert (Hg : gauss y <= 3652425) by (unfold gauss; Z.div_mod_to_equations; lia).
  assert (H367 : 0 <= 367 * m / 12 <= 367) by (Z.div_mod_to_equations; lia).
  assert (Hwrap : forall z, 0 <= z < 2 ^ 63 -> s64 (u64 z) = z).
  { intros z Hz. unfold u64. rewrite Z.mod_small by lia. apply s64_small. lia. }
  destruct (Z.leb_spec 11 m) as [H11|H11]; intros Hday; unfold pt_seconds; decide_tests.
  - assert (Hbad : (if (md =? 29) && (m - 11 =? 1)
      then negb (Z.land (y + 1) 3 =? 0) || (((y + 1) mod 100 =? 0) && negb ((y + 1) mod 400 =? 0))
      else mday (m - 11) <? md) = false).
    { destruct ((md =? 29) && (m - 11 =? 1)); [|by apply Z.ltb_ge].
      unfold gm_leap in Hday. destruct (_ && _) eqn:E in Hday; [|done].
      change 3 with (Z.ones 2). rewrite Z.land_ones by lia. change (2 ^ 2) with 4.
      destruct ((y + 1) mod 4 =? 0), ((y + 1) mod 100 =? 0), ((y + 1) mod 400 =? 0); done. }
    rewrite Hbad. decide_tests.
    replace (u64 (y + 1 - 1)) with y by (unfold u64; rewrite Z.mod_small; lia).
    replace (m - 11 - 1 + 12) with m by lia. fold (gauss y). rewrite Hwrap by lia. lia.
  - destruct (Z.eqb_spec (m + 1) 1) as [|_]; [lia|]. rewrite andb_false_r in *.
    rewrite (proj2 (Z.ltb_ge _ _)) by done. decide_tests.
    replace (m + 1 - 1) with m by lia. fold (gauss y). rewrite Hwrap by lia. lia.
Qed.


(** The seconds before the year 10000. *)
Definition end_of_time : Z := 253402300800.

(** A date with all its fields in their ranges, and the day in its month. *)
Definition tm_ok (d : tm) : Prop :=
  0 <= tm_sec d <= 59 /\ 0 <= tm_min d <= 59 /\ 0 <= tm_hour d <= 23 /\ 1 <= tm_mday d <= 31 /\
  1 <= tm_mon d <= 12 /\ 1970 <= tm_year d <= 9999 /\ 0 <= tm_wday d <= 6.

Lemma gmtime_spec t :
  0 <= t < end_of_time ->
  let d := ngx_gmtime t in
  tm_ok d /\
  pt_seconds (tm_year d) (tm_mon d - 1) (tm_mday d) (tm_hour d) (tm_min d) (tm_sec d) = t /\
  tm_wday d = (4 + t / 86400) mod 7.
Proof.
  intros Ht. cbv zeta. unfold end_of_time in Ht. unfold ngx_gmtime.
  replace (u64 t) with t by (unfold u64; rewrite Z.mod_small; lia).
  set (dd := t / 86400). assert (Hdd : 0 <= dd < 2932897) by (subst dd; Z.div_mod_to_equations; lia).
  replace (u64 (dd - (31 + 28) + 719527)) with (dd + 719468) by (unfold u64; rewrite Z.mod_small; lia).
  destruct (gm_year_day (dd + 719468)) as [y yd] eqn:E.
  apply gm_year_day_spec in E as (Edays & Hyd & Hy); [|unfold last_day; lia].
  pose proof (gm_leap_range (y + 1)) as Hleap.
  pose proof (month_ok_all yd ltac:(lia)) as Hm. unfold month_ok in Hm.
  set (m := (yd + 31) * 10 / 306) in *. set (md := yd - (367 * m / 12 - 30) + 1) in *.
  set (r := t mod 86400).
  assert (Hr : 0 <= r < 86400 /\ t = dd * 86400 + r) by (subst dd r; Z.div_mod_to_equations; lia).
  assert (Hclock : 0 <= r / 3600 <= 23 /\ 0 <= r mod 3600 / 60 <= 59 /\ 0 <= r mod 3600 mod 60 <= 59 /\
    r = r / 3600 * 3600 + r mod 3600 / 60 * 60 + r mod 3600 mod 60)
    by (Z.div_mod_to_equations; lia).
  assert (Hw : 0 <= (4 + dd) mod 7 <= 6) by (Z.div_mod_to_equations; lia).
  assert (Hs : forall z, 0 <= z < 10001 -> s32 z = z)
    by (intros z Hz; unfold s32; rewrite Z.mod_small; lia).
  pose proof (pt_seconds_gauss y m md (r / 3600) (r mod 3600 / 60) (r mod 3600 mod 60)) as Hpt.
  destruct (Z.leb_spec 306 yd) as [H306|H306]; apply andb_prop in Hm as [Hmd Hm]; cbn [fst snd];
    unfold tm_ok; cbn [tm_sec tm_min tm_hour tm_mday tm_mon tm_year tm_wday]; rewrite Hs by lia.
  - zify_bool. rewrite (proj2 (Z.leb_le 11 m)) in Hpt by lia.
    assert (Hyear : y + 1 <= 9999).
    { destruct (Z.eq_dec y 9999) as [->|]; [|lia]. vm_compute (gauss 9999) in Edays. lia. }
    split_and!; try lia. replace (m - 10 - 1) with (m - 11) by lia.
    rewrite Hpt; try lia. destruct ((md =? 29) && (m - 11 =? 1)) eqn:E29; zify_bool.
    + replace (m =? 12) with true in * by (symmetry; apply Z.eqb_eq; lia).
      replace (md =? 29) with true in * by (symmetry; apply Z.eqb_eq; lia). cbn [andb] in *.
      zify_bool. lia.
    + destruct ((md =? 29) && (m =? 12)) eqn:E29'; zify_bool; lia.
  - zify_bool. rewrite (proj2 (Z.leb_gt 11 m)) in Hpt by lia.
    assert (Hyear : 1970 <= y).
    { destruct (Z.eq_dec y 1969) as [->|]; [|lia]. vm_compute (gauss 1969) in Edays. lia. }
    split_and!; try lia. replace (m + 2 - 1) with (m + 1) by lia.
    rewrite Hpt; try lia. rewrite (proj2 (Z.eqb_neq (m + 1) 1)), andb_false_r by lia. done.
Qed.


(** ** Printing a date *)

Definition dec2 (n : Z) : list Z := [C! "0" + n / 10; C! "0" + n mod 10].
Definition dec4 (n : Z) : list Z :=
  [C! "0" + n / 1000; C! "0" + n / 100 mod 10; C! "0" + n / 10 mod 10; C! "0" + n mod 10].

Lemma num_digit_0 d : 0 <= d < 10 -> num_digit 0 d = C! "0" + d.
Proof. intros. change (num_digit 0 d) with (u8 (d + 48)). unfold u8. rewrite Z.mod_small; lia. Qed.

(** The last digit of a number, and the others. *)
Lemma put_digits_dec room n acc :
  0 <= n ->
  put_digits (num_digit 0) 10 (S room) n acc =
  if n / 10 =? 0 then Some (C! "0" + n mod 10 :: acc)
  else put_digits (num_digit 0) 10 room (n / 10) (C! "0" + n mod 10 :: acc).
Proof. intros. cbn [put_digits]. rewrite num_digit_0 by (Z.div_mod_to_equations; lia). done. Qed.

Lemma put_num_dec2 room n f :
  2 <= room -> 0 <= n <= 99 -> vs_zero f = C! "0" -> vs_width f = 2 -> vs_hex f = 0 ->
  vs_put_num room true n f = inr (dec2 n).
Proof.
  intros Hr Hn Ez Ew Eh. unfold vs_put_num. rewrite Ez, Ew, Eh.
  rewrite (proj2 (Z.ltb_ge n 0)) by lia. cbn [andb].
  rewrite sprintf_num_take, num_digits_eq by lia. change (num_base 0) with 10.
  rewrite put_digits_dec by lia. unfold dec2.
  destruct (Z.eqb_spec (n / 10) 0) as [E|E].
  - cbn [fmap option_fmap option_map]. rewrite take_ge by (rewrite length_app, repeat_length; cbn [length]; lia). rewrite E. done.
  - rewrite put_digits_dec by (Z.div_mod_to_equations; lia).
    replace (n / 10 / 10) with 0 by (Z.div_mod_to_equations; lia).
    change (0 =? 0) with true. cbv iota.
    cbn [fmap option_fmap option_map]. rewrite take_ge by (rewrite length_app, repeat_length; cbn [length]; lia).
    replace ((n / 10) mod 10) with (n / 10) by (Z.div_mod_to_equations; lia). done.
Qed.

Lemma put_num_dec4 room n f :
  4 <= room -> 1000 <= n <= 9999 -> vs_width f = 4 -> vs_hex f = 0 ->
  vs_put_num room true n f = inr (dec4 n).
Proof.
  intros Hr Hn Ew Eh. unfold vs_put_num. rewrite Ew, Eh.
  rewrite (proj2 (Z.ltb_ge n 0)) by lia. cbn [andb].
  rewrite sprintf_num_take, num_digits_eq by lia. change (num_base 0) with 10.
  assert (n / 10 / 10 = n / 100 /\ n / 100 / 10 = n / 1000 /\ n / 1000 / 10 = 0 /\ 0 < n / 10 /\
    0 < n / 100 /\ 0 < n / 1000 < 10) as (E1 & E2 & E3 & ? & ? & ?) by (Z.div_mod_to_equations; lia).
  rewrite put_digits_dec, (proj2 (Z.eqb_neq (n / 10) 0)) by lia.
  rewrite put_digits_dec, E1, (proj2 (Z.eqb_neq (n / 100) 0)) by lia.
  rewrite put_digits_dec, E2, (proj2 (Z.eqb_neq (n / 1000) 0)) by lia.
  rewrite put_digits_dec, E3 by lia. change (0 =? 0) with true. cbv iota.
  rewrite (Z.mod_small (n / 1000)) by lia. unfold dec4.
  cbn [fmap option_fmap option_map]. rewrite take_ge by (rewrite length_app, repeat_length; cbn [length]; lia). done.
Qed.

(** The conversions of the format of dates. *)
Lemma directive_02d room n rest args :
  2 <= room -> 0 <= n <= 99 ->
  vs_directive room (B! "02d" ++ rest) (VInt n :: args) = inr (dec2 n, rest, args).
Proof.
  intros Hr Hn. transitivity (match vs_put_num room true (s32 n)
    {| vs_zero := C! "0"; vs_width := 2; vs_sign := true; vs_hex := 0; vs_max_width := false;
       vs_frac_width := 0; vs_slen := u64 (-1) |} with
    | inl e => inl e | inr out => inr (out, rest, args) end); [reflexivity|].
  replace (s32 n) with n by (unfold s32; rewrite Z.mod_small; lia). by rewrite put_num_dec2.
Qed.

Lemma directive_4d room n rest args :
  4 <= room -> 1000 <= n <= 9999 ->
  vs_directive room (B! "4d" ++ rest) (VInt n :: args) = inr (dec4 n, rest, args).
Proof.
  intros Hr Hn. transitivity (match vs_put_num room true (s32 n)
    {| vs_zero := C! " "; vs_width := 4; vs_sign := true; vs_hex := 0; vs_max_width := false;
       vs_frac_width := 0; vs_slen := u64 (-1) |} with
    | inl e => inl e | inr out => inr (out, rest, args) end); [reflexivity|].
  replace (s32 n) with n by (unfold s32; rewrite Z.mod_small; lia). by rewrite put_num_dec4.
Qed.

Lemma directive_s3 room a b c rest args :
  3 <= room -> a <> 0 -> b <> 0 -> c <> 0 ->
  vs_directive room (B! "s" ++ rest) (VCStr [a; b; c] :: args) = inr ([a; b; c], rest, args).
Proof.
  intros Hr Ha Hb Hc. transitivity (inr (vs_cstr room [a; b; c], rest, args) : vs_error + _);
    [reflexivity|]. cbn [vs_cstr]. by decide_tests.
Qed.

(** The name of a day or of a month. *)
Definition name3 (s : list Z) : Prop :=
  exists a b c, s = [a; b; c] /\ a <> 0 /\ b <> 0 /\ c <> 0 /\ a <> C! "," /\ b <> C! "," /\ c <> C! "," /\
    a <> C! " " /\ b <> C! " " /\ c <> C! " ".

Lemma week_name3 i : 0 <= i <= 6 -> name3 (week i).
Proof.
  intros Hi. pose proof (in_range 0 7 i ltac:(lia)) as Hin. cbn in Hin.
  repeat (destruct Hin as [<-|Hin]; [by eexists _, _, _; split_and!|]). done.
Qed.

Lemma months_name3 i : 0 <= i <= 11 -> name3 (months i).
Proof.
  intros Hi. pose proof (in_range 0 12 i ltac:(lia)) as Hin. cbn in Hin.
  repeat (destruct Hin as [<-|Hin]; [by eexists _, _, _; split_and!|]). done.
Qed.

Definition date_bytes (d : tm) : list Z :=
  week (tm_wday d) ++ B! ", " ++ dec2 (tm_mday d) ++ B! " " ++ months (tm_mon d - 1) ++ B! " " ++
  dec4 (tm_year d) ++ B! " " ++ dec2 (tm_hour d) ++ B! ":" ++ dec2 (tm_min d) ++ B! ":" ++
  dec2 (tm_sec d) ++ B! " GMT".

Ltac fmt_s :=
  change (115 :: ?l) with (B! "s" ++ l); rewrite directive_s3 by lia; cbn [length dec2 dec4].
Ltac fmt_02d :=
  change (48 :: 50 :: 100 :: ?l) with (B! "02d" ++ l); rewrite directive_02d by lia;
  cbn [length dec2 dec4].
Ltac fmt_4d :=
  change (52 :: 100 :: ?l) with (B! "4d" ++ l); rewrite directive_4d by lia; cbn [length dec2 dec4].

Lemma http_time_bytes t :
  tm_ok (ngx_gmtime t) -> ngx_http_time t = inr (date_bytes (ngx_gmtime t)).
Proof.
  unfold ngx_http_time, date_bytes. set (d := ngx_gmtime t).
  intros (Hs & Hmi & Hh & Hmd & Hmo & Hy & Hw).
  destruct (week_name3 (tm_wday d) Hw) as (a & b & c & -> & ? & ? & ? & _).
  destruct (months_name3 (tm_mon d - 1) ltac:(lia)) as (a' & b' & c' & -> & ? & ? & ? & _).
  unfold ngx_sprintf, ngx_vslprintf. cbn [app length].
  rewrite vslprintf_directive by lia. fmt_s.
  do 2 rewrite vslprintf_plain by lia. rewrite vslprintf_directive by lia. fmt_02d.
  rewrite vslprintf_plain by lia. rewrite vslprintf_directive by lia. fmt_s.
  rewrite vslprintf_plain by lia. rewrite vslprintf_directive by lia. fmt_4d.
  rewrite vslprintf_plain by lia. rewrite vslprintf_directive by lia. fmt_02d.
  rewrite vslprintf_plain by lia. rewrite vslprintf_directive by lia. fmt_02d.
  rewrite vslprintf_plain by lia. rewrite vslprintf_directive by lia. fmt_02d.
  do 4 rewrite vslprintf_plain by lia. reflexivity.
Qed.

(** ** Reading the printed date *)

Definition digit_byte (c : Z) : Prop := C! "0" <= c <= C! "9".

Lemma dec2_digits n : 0 <= n <= 99 -> Forall digit_byte (dec2 n).
Proof. intros. unfold dec2, digit_byte. repeat constructor; Z.div_mod_to_equations; lia. Qed.

Lemma dec4_digits n : 1000 <= n <= 9999 -> Forall digit_byte (dec4 n).
Proof. intros. unfold dec4, digit_byte. repeat constructor; Z.div_mod_to_equations; lia. Qed.

(** The positions of a list whose elements are given. *)
Ltac read_mem :=
  repeat match goal with
  | |- context [mem_at ?l ?p] => let v := eval lazy in (mem_at l p) in change (mem_at l p) with v
  end.

Lemma pt_digits2_true value p :
  digit_byte (mem_at value p) -> digit_byte (mem_at value (p + 1)) -> pt_digits2 value p = true.
Proof. unfold digit_byte, pt_digits2, pt_digit. intros. by decide_tests. Qed.

Section ReadDate.
Context (w1 w2 w3 d1 d2 m1 m2 m3 y1 y2 y3 y4 h1 h2 i1 i2 s1 s2 month : Z).
Let date := [w1; w2; w3; C! ","; C! " "; d1; d2; C! " "; m1; m2; m3; C! " "; y1; y2; y3; y4; C! " ";
  h1; h2; C! ":"; i1; i2; C! ":"; s1; s2; C! " "; C! "G"; C! "M"; C! "T"].
Hypothesis weekday : Forall (fun c => c <> C! "," /\ c <> C! " ") [w1; w2; w3].
Hypothesis digits : Forall digit_byte [d1; d2; y1; y2; y3; y4; h1; h2; i1; i2; s1; s2].
Hypothesis month_name : pt_month [m1; m2; m3] 0 = Some month.

Ltac facts := rewrite !Forall_cons in weekday; rewrite !Forall_cons in digits; unfold digit_byte in digits.

Lemma read_weekday : pt_weekday date 0 = (3, no).
Proof. facts. unfold date. cbn [pt_weekday]. by decide_tests. Qed.

Lemma read_day : pt_day_first date 29 5 = Some (rfc822, (d1 - 48) * 10 + d2 - 48, 8).
Proof.
  facts. unfold pt_day_first. rewrite pt_digits2_true by (read_mem; unfold digit_byte; lia). done.
Qed.

Lemma read_month : pt_month date 8 = Some month.
Proof. by rewrite <- month_name. Qed.

Lemma read_year :
  pt_year_middle date rfc822 12 =
  Some ((y1 - 48) * 1000 + (y2 - 48) * 100 + (y3 - 48) * 10 + y4 - 48, 16).
Proof.
  facts. unfold pt_year_middle, pt_digits4.
  rewrite !pt_digits2_true by (read_mem; unfold digit_byte; lia). done.
Qed.

Lemma read_clock :
  pt_clock date 16 =
  Some ((h1 - 48) * 10 + h2 - 48, (i1 - 48) * 10 + i2 - 48, (s1 - 48) * 10 + s2 - 48, 23).
Proof.
  facts. unfold pt_clock.
  rewrite !pt_digits2_true by (read_mem; unfold digit_byte; lia). done.
Qed.

Lemma read_date :
  ngx_http_parse_time date =
  pt_seconds ((y1 - 48) * 1000 + (y2 - 48) * 100 + (y3 - 48) * 10 + y4 - 48) month
    ((d1 - 48) * 10 + d2 - 48) ((h1 - 48) * 10 + h2 - 48) ((i1 - 48) * 10 + i2 - 48)
    ((s1 - 48) * 10 + s2 - 48).
Proof.
  unfold ngx_http_parse_time. rewrite read_weekday. cbv beta iota.
  change (Z.of_nat (length date)) with 29.
  assert (pt_spaces (drop (Z.to_nat (3 + 1)) date) (3 + 1) = 5) as ->.
  { facts. unfold date. change (Z.to_nat (3 + 1)) with 4%nat. cbn [drop pt_spaces].
    change (C! " " =? C! " ") with true. cbn [negb]. by decide_tests. }
  change (29 - 5 <? 18) with false. cbv beta iota.
  rewrite decide_False by done. rewrite read_day. rewrite read_month. cbv beta iota zeta.
  change (_ || _) with false. cbv iota. change (8 + 3 + 1) with 12. rewrite read_year.
  rewrite decide_False by done. rewrite read_clock. by rewrite decide_False by done.
Qed.
End ReadDate.

(** Every name of a month is read back. *)
Lemma months_read i :
  0 <= i <= 11 -> exists a b c, months i = [a; b; c] /\ pt_month [a; b; c] 0 = Some i.
Proof.
  intros Hi. pose proof (in_range 0 12 i ltac:(lia)) as Hin. cbn in Hin.
  repeat (destruct Hin as [<-|Hin]; [by eexists _, _, _|]). done.
Qed.

Lemma dec2_value n : (C! "0" + n / 10 - 48) * 10 + (C! "0" + n mod 10) - 48 = n.
Proof. Z.div_mod_to_equations; lia. Qed.

Lemma dec4_value n :
  (C! "0" + n / 1000 - 48) * 1000 + (C! "0" + n / 100 mod 10 - 48) * 100 +
  (C! "0" + n / 10 mod 10 - 48) * 10 + (C! "0" + n mod 10) - 48 = n.
Proof.
  assert (n / 1000 = n / 10 / 10 / 10 /\ n / 100 = n / 10 / 10) as [-> ->].
  { rewrite !Z.div_div by lia. done. }
  Z.div_mod_to_equations; lia.
Qed.

Lemma date_bytes_read d :
  tm_ok d ->
  ngx_http_parse_time (date_bytes d) =
  pt_seconds (tm_year d) (tm_mon d - 1) (tm_mday d) (tm_hour d) (tm_min d) (tm_sec d).
Proof.
  intros (Hs & Hmi & Hh & Hmd & Hmo & Hy & Hw). unfold date_bytes.
  destruct (week_name3 (tm_wday d) Hw) as (a & b & c & -> & Hweek).
  destruct (months_read (tm_mon d - 1) ltac:(lia)) as (a' & b' & c' & -> & Hmonth).
  unfold dec2, dec4. cbn [app]. rewrite (read_date _ _ _ _ _ _ _ _ _ _ _ _ _ _ _ _ _ _ (tm_mon d - 1)).
  - by rewrite !dec2_value, dec4_value.
  - rewrite !Forall_cons. split_and!; try lia. apply Forall_nil_2.
  - pose proof (dec2_digits (tm_mday d) ltac:(lia)). pose proof (dec2_digits (tm_hour d) ltac:(lia)).
    pose proof (dec2_digits (tm_min d) ltac:(lia)). pose proof (dec2_digits (tm_sec d) ltac:(lia)).
    pose proof (dec4_digits (tm_year d) ltac:(lia)).
    change (Forall digit_byte (dec2 (tm_mday d) ++ dec4 (tm_year d) ++ dec2 (tm_hour d) ++
      dec2 (tm_min d) ++ dec2 (tm_sec d))). by rewrite !Forall_app.
  - done.
Qed.

(** C36: printing a second from 1970 up to the end of the year 9999 with
    [ngx_http_time] succeeds with 29 bytes, and [ngx_http_parse_time] reads the
    same second back from them. *)
Theorem http_time_roundtrip (t : Z) :
  0 <= t < end_of_time ->
  exists s, ngx_http_time t = inr s /\ length s = 29%nat /\ ngx_http_parse_time s = t.
Proof.
  intros Ht. destruct (gmtime_spec t Ht) as (Hok & Hsec & _).
  exists (date_bytes (ngx_gmtime t)). split_and!.
  - by apply http_time_bytes.
  - destruct Hok as (_ & _ & _ & _ & Hmo & _ & Hw).
    destruct (week_name3 _ Hw) as (a & b & c & Ew & _).
    destruct (months_read (tm_mon (ngx_gmtime t) - 1) ltac:(lia)) as (a' & b' & c' & Em & _).
    unfold date_bytes. by rewrite Ew, Em.
  - by rewrite date_bytes_read.
Qed.

Lemma http_time_roundtrip_witness :
  exists s, ngx_http_time 951782400 = inr s /\ length s = 29%nat /\ ngx_http_parse_time s = 951782400.
Proof. apply (http_time_roundtrip 951782400). unfold end_of_time. lia. Defined.
