(* ===== verification/UpstreamRoundRobin.v ===== *)
(** * The round-robin balancer of upstream servers

    src/nginx-1.4.7/src/http/ngx_http_upstream_round_robin.c: the smooth
    weighted choice of a peer, its backup groups, and what a failed or a
    successful connection changes.

    The peers are shared by all requests: an upstream is the list of its peer
    groups, the primary one and then the backup one ([peers->next] is the rest
    of the list), and every operation takes it and returns the changed one.
    What belongs to one request is [rr_peer_data] (its group as a position in
    the list, the last choice and the bitmap of tried peers) and
    [peer_connection].  The socket address and the printed name of a peer are
    one value of an arbitrary type [A].  Allocation succeeds, and the SSL
    sessions of a peer are left out. *)
From stdpp Require Import relations.
From S2P Require Import Prelude.

Abbreviation NGX_PEER_FAILED := 4 (only parsing).
Abbreviation WORD_BITS := 64%nat (only parsing).

Section RoundRobin.
Context {A : Type}.

(** ** Data *)

(** [http/ngx_http_upstream_round_robin.h:17-38] ngx_http_upstream_rr_peer_t *)
Record rr_peer : Type := {
  rp_addr : A;
  current_weight : Z; effective_weight : Z; weight : Z;
  fails : Z; accessed : Z; checked : Z;
  max_fails : Z; fail_timeout : Z; down : bool
}.

(** [peers->number] is the length of the array [peer].
    [http/ngx_http_upstream_round_robin.h:43-58] ngx_http_upstream_rr_peers_s *)
Record rr_peers : Type := {
  single : bool; weighted : bool; total_weight : Z; peer : list rr_peer
}.

Definition number (ps : rr_peers) : nat := length (peer ps).

(** [http/ngx_http_upstream_round_robin.h:61-66] ngx_http_upstream_rr_peer_data_t *)
Record rr_peer_data : Type := { rr_level : nat; current : nat; tried : list Z }.

(** The fields of a connection that the balancer writes; [pc_name] is [None]
    for the name of the upstream itself.
    [event/ngx_event_connect.h:37-67] ngx_peer_connection_t *)
Record peer_connection : Type := {
  tries : Z; pc_name : option A; pc_cached : bool; pc_connection : option Z
}.

(** [http/ngx_http_upstream.h:87-96] ngx_http_upstream_server_t *)
Record server : Type := {
  sv_addrs : list A; sv_weight : Z; sv_max_fails : Z; sv_fail_timeout : Z;
  sv_down : bool; sv_backup : bool
}.

(** ** Configuration *)

(** [http/ngx_http_upstream_round_robin.c:73-90] for (j = 0; j < server[i].naddrs; j++) *)
Definition rr_server_peers (sv : server) : list rr_peer :=
  map (fun a => {| rp_addr := a; current_weight := 0; effective_weight := sv_weight sv;
                   weight := sv_weight sv; fails := 0; accessed := 0; checked := 0;
                   max_fails := sv_max_fails sv; fail_timeout := sv_fail_timeout sv;
                   down := sv_down sv |}) (sv_addrs sv).

(** The addresses of the servers of one kind and the sum of their weights.
    [http/ngx_http_upstream_round_robin.c:43-50] for (i = 0; i < us->servers->nelts; i++) *)
Definition rr_count (backup : bool) (servers : list server) : nat * Z :=
  fold_left (fun '(n, w) sv =>
    if eqb (sv_backup sv) backup
    then ((n + length (sv_addrs sv))%nat, u64 (w + Z.of_nat (length (sv_addrs sv)) * sv_weight sv))
    else (n, w)) servers (0%nat, 0).

(** [http/ngx_http_upstream_round_robin.c:65-90] peers *)
Definition rr_group (backup : bool) (servers : list server) : rr_peers :=
  let (n, w) := rr_count backup servers in
  {| single := (n =? 1)%nat; weighted := negb (w =? Z.of_nat n); total_weight := w;
     peer := concat (map rr_server_peers
       (List.filter (fun sv => eqb (sv_backup sv) backup) servers)) |}.

(** An upstream block with its servers; [None] is [NGX_ERROR].
    [http/ngx_http_upstream_round_robin.c:26-149] ngx_http_upstream_init_round_robin *)
Definition ngx_http_upstream_init_round_robin (servers : list server) : option (list rr_peers) :=
  if ((rr_count false servers).1 =? 0)%nat then None
  else
    let peers := rr_group false servers in
    if ((rr_count true servers).1 =? 0)%nat then Some [peers]
    else Some [ {| peers with single := false |};
                {| (rr_group true servers) with single := false |} ].

(** An upstream of resolved addresses without a block of its own.
    [http/ngx_http_upstream_round_robin.c:184-205] peers->peer[i] *)
Definition rr_implicit (addrs : list A) : list rr_peers :=
  [ {| single := (length addrs =? 1)%nat; weighted := false;
       total_weight := Z.of_nat (length addrs);
       peer := map (fun a => {| rp_addr := a; current_weight := 0; effective_weight := 1;
                                weight := 1; fails := 0; accessed := 0; checked := 0;
                                max_fails := 1; fail_timeout := 10; down := false |}) addrs |} ].

(** ** A request *)

(** The words that hold [n] bits. *)
Definition words (n : nat) : nat := (n + (WORD_BITS - 1)) / WORD_BITS.

(** [http/ngx_http_upstream_round_robin.c:209-260] ngx_http_upstream_init_round_robin_peer *)
Definition ngx_http_upstream_init_round_robin_peer (u : list rr_peers) : rr_peer_data * Z :=
  let n := match u with
           | ps :: next :: _ =>
               if (number ps <? number next)%nat then number next else number ps
           | [ps] => number ps
           | [] => 0%nat
           end in
  let tried := if (n <=? WORD_BITS)%nat then [0] else repeat 0 (words n) in
  ({| rr_level := 0; current := 0; tried := tried |},
   match u with ps :: _ => Z.of_nat (number ps) | [] => 0 end).

(** The group made for the addresses that a name was resolved to at run time
    (their structures and printed names are values of [A]), with the data of the
    request.
    [http/ngx_http_upstream_round_robin.c:285-355] ngx_http_upstream_create_round_robin_peer *)
Definition ngx_http_upstream_create_round_robin_peer (addrs : list A)
    : list rr_peers * (rr_peer_data * Z) :=
  let u := map (fun g => {| g with total_weight := 0 |}) (rr_implicit addrs) in
  (u, ngx_http_upstream_init_round_robin_peer u).

(** [http/ngx_http_upstream_round_robin.c:480-483] rrp->tried[n] & m *)
Definition was_tried (tried : list Z) (i : nat) : bool :=
  let m := Z.shiftl 1 (Z.of_nat (i mod WORD_BITS)) in
  negb (Z.land (nth (i / WORD_BITS) tried 0) m =? 0).

(** [http/ngx_http_upstream_round_robin.c:520-523] rrp->tried[n] |= m *)
Definition mark_tried (tried : list Z) (i : nat) : list Z :=
  let m := Z.shiftl 1 (Z.of_nat (i mod WORD_BITS)) in
  <[(i / WORD_BITS)%nat := Z.lor (nth (i / WORD_BITS) tried 0) m]> tried.

(** A peer that the loop does not skip.
    [http/ngx_http_upstream_round_robin.c:483-498] continue *)
Definition available (tried : list Z) (now : Z) (i : nat) (p : rr_peer) : bool :=
  negb (was_tried tried i) && negb (down p) &&
  negb (negb (max_fails p =? 0) && (max_fails p <=? fails p)
        && (now - checked p <=? fail_timeout p)).

(** A peer that takes part in a choice gains its effective weight, which
    recovers by one.
    [http/ngx_http_upstream_round_robin.c:500-505] peer->current_weight *)
Definition gain (p : rr_peer) : rr_peer :=
  {| p with current_weight := s64 (current_weight p + effective_weight p);
            effective_weight := if effective_weight p <? weight p
                                then effective_weight p + 1 else effective_weight p |}.

(** The loop over the peers: the changed peers, the best one and its current
    weight, and the sum of the effective weights.
    [http/ngx_http_upstream_round_robin.c:478-510] for (i = 0; i < rrp->peers->number; i++) *)
Fixpoint get_peer_loop (tried : list Z) (now : Z) (i : nat) (ps : list rr_peer)
    (best : option (nat * Z)) (total : Z) : list rr_peer * option (nat * Z) * Z :=
  match ps with
  | [] => ([], best, total)
  | p :: ps' =>
      if available tried now i p then
        let p' := gain p in
        let total := s64 (total + effective_weight p) in
        let best' := match best with
                     | None => Some (i, current_weight p')
                     | Some (_, w) =>
                         if w <? current_weight p' then Some (i, current_weight p') else best
                     end in
        let '(out, best'', total') := get_peer_loop tried now (S i) ps' best' total in
        (p' :: out, best'', total')
      else
        let '(out, best'', total') := get_peer_loop tried now (S i) ps' best total in
        (p :: out, best'', total')
  end.

(** What the choice of a peer costs it.
    [http/ngx_http_upstream_round_robin.c:525-529] best->current_weight -= total *)
Definition pay (now total : Z) (p : rr_peer) : rr_peer :=
  {| p with current_weight := s64 (current_weight p - total);
            checked := if fail_timeout p <? now - checked p then now else checked p |}.

(** [http/ngx_http_upstream_round_robin.c:464-532] ngx_http_upstream_get_peer *)
Definition ngx_http_upstream_get_peer (now : Z) (ps : list rr_peer) (rrp : rr_peer_data)
    : list rr_peer * rr_peer_data * option rr_peer :=
  match get_peer_loop (tried rrp) now 0 ps None 0 with
  | (ps, None, _) => (ps, rrp, None)
  | (ps, Some (i, _), total) =>
      let ps := alter (pay now total) i ps in
      (ps, {| rrp with current := i; tried := mark_tried (tried rrp) i |}, ps !! i)
  end.

(** The choice inside of one group; [None] is [goto failed].
    [http/ngx_http_upstream_round_robin.c:387-407] if (rrp->peers->single) *)
Definition rr_choose (now : Z) (g : rr_peers) (rrp : rr_peer_data)
    : rr_peers * rr_peer_data * option rr_peer :=
  if single g then
    (g, rrp, match peer g with p :: _ => if down p then None else Some p | [] => None end)
  else
    let '(ps, rrp, p) := ngx_http_upstream_get_peer now (peer g) rrp in
    ({| g with peer := ps |}, rrp, p).

(** All peers of a group are marked as live.
    [http/ngx_http_upstream_round_robin.c:452-454] peers->peer[i].fails = 0 *)
Definition rr_revive (g : rr_peers) : rr_peers :=
  {| g with peer := map (fun p => {| p with fails := 0 |}) (peer g) |}.

(** The bitmap of tried peers, cleared for a group of [n] peers.
    [http/ngx_http_upstream_round_robin.c:434-439] rrp->tried[i] = 0 *)
Definition clear_tried (n : nat) (tried : list Z) : list Z :=
  repeat 0 (Nat.min (words n) (length tried)) ++ drop (words n) tried.

(** [u] is the list of groups from [rrp->peers] on, that is this group and
    its [next] one; the answer holds the code, the groups, and the request's
    data and connection.
    [http/ngx_http_upstream_round_robin.c:369-461] ngx_http_upstream_get_round_robin_peer *)
Fixpoint rr_get (now : Z) (u : list rr_peers) (rrp : rr_peer_data) (pc : peer_connection)
    : Z * list rr_peers * rr_peer_data * peer_connection :=
  match u with
  | [] => (NGX_BUSY, [], rrp, pc)
  | g :: next =>
      let pc := {| pc with pc_cached := false; pc_connection := None |} in
      let '(g, rrp, p) := rr_choose now g rrp in
      match p with
      | Some p =>
          (NGX_OK, g :: next, rrp,
           {| pc with pc_name := Some (rp_addr p);
                      tries := match next with
                               | b :: _ => if tries pc =? 1 then tries pc + Z.of_nat (number b)
                                           else tries pc
                               | [] => tries pc
                               end |})
      | None =>
          let '(rc, next, rrp, pc) :=
            match next with
            | b :: _ =>
                rr_get now next
                  {| rrp with rr_level := S (rr_level rrp);
                              tried := clear_tried (number b) (tried rrp) |}
                  {| pc with tries := Z.of_nat (number b) |}
            | [] => (NGX_BUSY, next, rrp, pc)
            end in
          if rc =? NGX_BUSY then (NGX_BUSY, rr_revive g :: next, rrp, {| pc with pc_name := None |})
          else (rc, g :: next, rrp, pc)
      end
  end.

(** The same from the first group of the upstream on.
    [http/ngx_http_upstream_round_robin.c:369-461] ngx_http_upstream_get_round_robin_peer *)
Definition ngx_http_upstream_get_round_robin_peer (now : Z) (u : list rr_peers)
    (rrp : rr_peer_data) (pc : peer_connection)
    : Z * list rr_peers * rr_peer_data * peer_connection :=
  let '(rc, u', rrp', pc') := rr_get now (drop (rr_level rrp) u) rrp pc in
  (rc, take (rr_level rrp) u ++ u', rrp', pc').

(** A connection to the peer failed, or the peer answered.
    [http/ngx_http_upstream_round_robin.c:556-586] if (state & NGX_PEER_FAILED) *)
Definition free_peer (now state : Z) (p : rr_peer) : rr_peer :=
  if negb (Z.land state NGX_PEER_FAILED =? 0) then
    let ew := if negb (max_fails p =? 0)
              then s64 (effective_weight p - u64 (weight p) / max_fails p)
              else effective_weight p in
    {| p with fails := u64 (fails p + 1); accessed := now; checked := now;
              effective_weight := if ew <? 0 then 0 else ew |}
  else if accessed p <? checked p then {| p with fails := 0 |} else p.

(** [http/ngx_http_upstream_round_robin.c:535-593] ngx_http_upstream_free_round_robin_peer *)
Definition ngx_http_upstream_free_round_robin_peer (now : Z) (u : list rr_peers)
    (rrp : rr_peer_data) (pc : peer_connection) (state : Z) : list rr_peers * peer_connection :=
  match u !! rr_level rrp with
  | None => (u, pc)
  | Some g =>
      if single g then (u, {| pc with tries := 0 |})
      else
        (<[rr_level rrp := {| g with peer := alter (free_peer now state) (current rrp) (peer g) |}]> u,
         if negb (tries pc =? 0) then {| pc with tries := tries pc - 1 |} else pc)
  end.
End RoundRobin.
Arguments rr_peer : clear implicits.
Arguments rr_peers : clear implicits.
Arguments peer_connection : clear implicits.
Arguments server : clear implicits.

(** ** The bitmap of tried peers *)

Lemma land_bit x k : 0 <= k -> negb (Z.land x (Z.shiftl 1 k) =? 0) = Z.testbit x k.
Proof.
  intros Hk. destruct (Z.testbit x k) eqn:E.
  - apply negb_true_iff, Z.eqb_neq. intros H. apply (f_equal (fun z => Z.testbit z k)) in H.
    rewrite Z.land_spec, E, Z.shiftl_spec, Z.sub_diag, Z.bits_0 in H by done. done.
  - apply negb_false_iff, Z.eqb_eq, Z.bits_inj'. intros j Hj.
    rewrite Z.land_spec, Z.shiftl_spec, Z.bits_0 by done.
    destruct (Z.eq_dec j k) as [->|]; [by rewrite E|].
    destruct (Z.testbit 1 (j - k)) eqn:E1; [|by rewrite andb_false_r].
    destruct (Z.lt_ge_cases (j - k) 0); [by rewrite Z.testbit_neg_r in E1|].
    rewrite (Z.bits_above_log2 1) in E1; [done|lia|change (Z.log2 1) with 0; lia].
Qed.

Lemma was_tried_bit t i :
  was_tried t i = Z.testbit (nth (i / 64) t 0) (Z.of_nat (i mod 64)).
Proof. apply land_bit. lia. Qed.

Lemma nth_insert_list (l : list Z) (k j : nat) x :
  (k < length l)%nat -> nth j (<[k := x]> l) 0 = if decide (j = k) then x else nth j l 0.
Proof.
  intros Hk. rewrite !nth_lookup. case_decide as E.
  - subst. by rewrite list_lookup_insert_eq.
  - by rewrite list_lookup_insert_ne by done.
Qed.

Lemma mark_tried_spec t i j :
  (i / 64 < length t)%nat -> was_tried (mark_tried t i) j = was_tried t j || bool_decide (i = j).
Proof.
  intros Hi. rewrite !was_tried_bit. unfold mark_tried. rewrite nth_insert_list by done.
  destruct (decide (j / 64 = i / 64)%nat) as [E|E].
  - rewrite Z.lor_spec, Z.shiftl_spec by lia. rewrite E. f_equal.
    destruct (decide (i = j)) as [->|Hne].
    + by rewrite Z.sub_diag, bool_decide_true.
    + rewrite bool_decide_false by done.
      assert (i mod 64 <> j mod 64)%nat.
      { intros E2. apply Hne. pose proof (Nat.div_mod i 64 ltac:(lia)). pose proof (Nat.div_mod j 64 ltac:(lia)). lia. }
      destruct (Z.lt_ge_cases (Z.of_nat (j mod 64) - Z.of_nat (i mod 64)) 0).
      * by rewrite Z.testbit_neg_r.
      * apply Z.bits_above_log2; [lia|]. change (Z.log2 1) with 0. lia.
  - rewrite bool_decide_false; [by rewrite orb_false_r|]. intros ->. done.
Qed.

Lemma mark_tried_length t i : length (mark_tried t i) = length t.
Proof. apply length_insert. Qed.

Lemma words_div n i : (i < n -> i / 64 < words n)%nat.
Proof.
  intros H. unfold words. apply (Nat.lt_le_trans _ (S (i / 64))); [lia|].
  apply Nat.div_le_lower_bound; [lia|]. pose proof (Nat.div_mod i 64 ltac:(lia)).
  pose proof (Nat.mod_upper_bound i 64 ltac:(lia)). lia.
Qed.

Lemma nth_repeat0 k n : nth k (repeat 0 n) 0 = 0.
Proof. revert k; induction n as [|n IH]; intros [|k]; cbn; [done..|apply IH]. Qed.

Lemma clear_tried_spec n t i : (i < n)%nat -> was_tried (clear_tried n t) i = false.
Proof.
  intros Hi. rewrite was_tried_bit. apply words_div in Hi.
  assert (nth (i / 64) (clear_tried n t) 0 = 0) as ->; [|apply Z.bits_0].
  unfold clear_tried. destruct (Nat.lt_ge_cases (i / 64) (length t)).
  - rewrite app_nth1 by (rewrite repeat_length; lia). apply nth_repeat0.
  - rewrite nth_overflow; [done|]. rewrite length_app, repeat_length, length_drop. lia.
Qed.

Lemma clear_tried_length n t : length (clear_tried n t) = length t.
Proof. unfold clear_tried. rewrite length_app, repeat_length, length_drop. lia. Qed.

(** ** The choice of a peer *)

Section Choice.
Context {A : Type}.
Implicit Types (ps : list (rr_peer A)) (p q : rr_peer A) (u : list (rr_peers A)).

Definition gain_if (t : list Z) (now : Z) (i : nat) (p : rr_peer A) : rr_peer A :=
  if available t now i p then gain p else p.

Definition share (t : list Z) (now : Z) (i : nat) (p : rr_peer A) : Z :=
  if available t now i p then effective_weight p else 0.

Lemma loop_peers t now i ps b tot :
  (get_peer_loop t now i ps b tot).1.1 = imap (fun k => gain_if t now (i + k)) ps.
Proof.
  revert i b tot; induction ps as [|p ps IH]; intros i b tot; [done|].
  cbn [get_peer_loop imap]. unfold gain_if at 1. rewrite Nat.add_0_r.
  assert (Hf : imap ((fun k => gain_if t now (i + k)) ∘ S) ps = imap (fun k => gain_if t now (S i + k)) ps).
  { apply imap_ext. intros k x _. cbn. by rewrite Nat.add_succ_r. }
  destruct (available t now i p).
  - specialize (IH (S i) (match b with None => Some (i, current_weight (gain p))
      | Some (_, w) => if w <? current_weight (gain p) then Some (i, current_weight (gain p)) else b end)
      (s64 (tot + effective_weight p))).
    destruct (get_peer_loop _ _ _ _ _ _) as [[out b'] tot']. cbn in IH |- *. by rewrite Hf, IH.
  - specialize (IH (S i) b tot).
    destruct (get_peer_loop _ _ _ _ _ _) as [[out b'] tot']. cbn in IH |- *. by rewrite Hf, IH.
Qed.

(** What the loop finds: the first peer with the greatest current weight. *)
Definition best_of (t : list Z) (now : Z) (i : nat) ps (b b' : option (nat * Z)) : Prop :=
  match b' with
  | None => b = None /\ forall k p, ps !! k = Some p -> available t now (i + k) p = false
  | Some (j, w) =>
      (b' = b \/ exists k p, j = (i + k)%nat /\ ps !! k = Some p /\ available t now j p = true /\
                    w = current_weight (gain p)) /\
      (forall j0 w0, b = Some (j0, w0) -> w0 <= w) /\
      (forall k p, ps !! k = Some p -> available t now (i + k) p = true ->
         current_weight (gain p) <= w)
  end.

Lemma loop_best t now i ps b tot : best_of t now i ps b (get_peer_loop t now i ps b tot).1.2.
Proof.
  revert i b tot; induction ps as [|p ps IH]; intros i b tot.
  { cbn. destruct b as [[j w]|]; cbn; [|done]. split_and!; [by left| |done]. by intros ?? [= -> ->]. }
  cbn [get_peer_loop]. destruct (available t now i p) eqn:Ha.
  - set (b1 := match b with None => Some (i, current_weight (gain p))
      | Some (_, w) => if w <? current_weight (gain p) then Some (i, current_weight (gain p)) else b end).
    specialize (IH (S i) b1 (s64 (tot + effective_weight p))).
    destruct (get_peer_loop _ _ _ _ _ _) as [[out b'] tot']. cbn [fst snd best_of] in IH |- *.
    assert (Hb1 : exists j1 w1, b1 = Some (j1, w1) /\ current_weight (gain p) <= w1 /\
        (b1 = b \/ (j1 = i /\ w1 = current_weight (gain p))) /\
        (forall j0 w0, b = Some (j0, w0) -> w0 <= w1)).
    { subst b1. destruct b as [[j w]|].
      - destruct (Z.ltb_spec w (current_weight (gain p))); eexists _, _; (split; [done|]).
        + split_and!; [lia|by right|]. intros ?? [= -> ->]. lia.
        + split_and!; [lia|by left|]. intros ?? [= -> ->]. lia.
      - eexists _, _; split; [done|]. split_and!; [lia|by right|done]. }
    clearbody b1. destruct Hb1 as (j1 & w1 & Eb1 & Hw1 & Hor & Hb0). destruct b' as [[j w]|]; cbn [fst snd best_of] in IH |- *.
    + destruct IH as (Hj & Hle & Hall). specialize (Hle _ _ Eb1). split_and!.
      * destruct Hj as [Hj|(k & q & -> & Ek & Hq)].
        -- destruct Hor as [E|[-> ->]]; [left; congruence|]. rewrite Eb1 in Hj. injection Hj as -> ->.
           right. exists 0%nat, p. by rewrite Nat.add_0_r.
        -- right. exists (S k), q. by rewrite Nat.add_succ_r.
      * intros j0 w0 E0. specialize (Hb0 _ _ E0). lia.
      * intros [|k] q Ek; [injection Ek as <-; intros _; lia|]. rewrite Nat.add_succ_r. by apply Hall.
    + destruct IH as [IH _]. by rewrite Eb1 in IH.
  - specialize (IH (S i) b tot). destruct (get_peer_loop _ _ _ _ _ _) as [[out b'] tot'].
    cbn [fst snd best_of] in IH |- *. destruct b' as [[j w]|]; cbn [fst snd best_of] in IH |- *.
    + destruct IH as (Hj & Hle & Hall). split_and!; [|done|].
      * destruct Hj as [Hj|(k & q & -> & Ek & Hq)]; [by left|].
        right. exists (S k), q. by rewrite Nat.add_succ_r.
      * intros [|k] q Ek; [injection Ek as <-; rewrite Nat.add_0_r; congruence|].
        rewrite Nat.add_succ_r. by apply Hall.
    + destruct IH as [-> Hall]. split; [done|].
      intros [|k] q Ek; [injection Ek as <-; by rewrite Nat.add_0_r|].
      rewrite Nat.add_succ_r. by apply Hall.
Qed.

(** The sum of the current weights grows by what [total] counts, modulo 2^64. *)
Lemma loop_balance t now i ps b tot :
  let x := get_peer_loop t now i ps b tot in
  (2 ^ 64 | sumZ current_weight x.1.1 - sumZ current_weight ps - (x.2 - tot)).
Proof.
  revert i b tot; induction ps as [|p ps IH]; intros i b tot.
  { cbn. exists 0. lia. }
  cbn [get_peer_loop]. destruct (available t now i p).
  - specialize (IH (S i) (match b with None => Some (i, current_weight (gain p))
      | Some (_, w) => if w <? current_weight (gain p) then Some (i, current_weight (gain p)) else b end)
      (s64 (tot + effective_weight p))).
    destruct (get_peer_loop _ _ _ _ _ _) as [[out b'] tot']. cbn [sumZ fst snd] in IH |- *.
    destruct (s64_divide (current_weight p + effective_weight p)) as [a Ea].
    destruct (s64_divide (tot + effective_weight p)) as [c Ec]. destruct IH as [d Ed].
    cbn [gain current_weight]. exists (a + d - c). lia.
  - specialize (IH (S i) b tot). destruct (get_peer_loop _ _ _ _ _ _) as [[out b'] tot'].
    cbn [sumZ fst snd] in IH |- *. destruct IH as [d Ed]. exists d. lia.
Qed.

(** The loop when no sum overflows. *)
Lemma loop_total t now i ps b tot :
  - 2 ^ 63 <= tot -> tot + sumZ effective_weight ps < 2 ^ 63 ->
  (forall k p, ps !! k = Some p -> 0 <= effective_weight p /\ available t now (i + k) p = true) ->
  (get_peer_loop t now i ps b tot).2 = tot + sumZ effective_weight ps.
Proof.
  revert i b tot; induction ps as [|p ps IH]; intros i b tot Hlo Hhi Hall; [cbn; lia|].
  destruct (Hall 0%nat p eq_refl) as [Hp Ha]. rewrite Nat.add_0_r in Ha.
  assert (Hall' : forall k q, ps !! k = Some q ->
      0 <= effective_weight q /\ available t now (S i + k) q = true).
  { intros k q Ek. specialize (Hall (S k) q Ek). by rewrite Nat.add_succ_r in Hall. }
  assert (0 <= sumZ effective_weight ps).
  { pose proof (sumZ_ge effective_weight ps 0). rewrite Z.mul_0_l in *. apply H.
    intros x [k Ek]%list_elem_of_In%list_elem_of_lookup. by apply (Hall' k). }
  cbn [get_peer_loop sumZ] in *. rewrite Ha.
  assert (Es : s64 (tot + effective_weight p) = tot + effective_weight p).
  { unfold s64. rewrite Z.mod_small by lia. lia. }
  rewrite Es.
  match goal with |- context [get_peer_loop t now (S i) ps ?b' ?tot'] =>
    specialize (IH (S i) b' tot'); destruct (get_peer_loop t now (S i) ps b' tot') as [[out b''] tot''] end.
  cbn in IH |- *. rewrite IH; [lia|lia|lia|done].
Qed.
End Choice.

(** ** The outcome of a request for a peer *)

Section Outcome.
Context {A : Type}.
Implicit Types (ps : list (rr_peer A)) (p q : rr_peer A) (g : rr_peers A) (u : list (rr_peers A)).

Definition none_available (t : list Z) (now : Z) g : Prop :=
  forall i p, peer g !! i = Some p -> available t now i p = false.

(** The specification of a choice: [got now u t k i p] when the first group of
    [u] with an available peer is the [k]-th, and its available peer of the
    greatest gained weight is [p], at [i]; [t] is the bitmap of the peers of
    the first group that were tried. *)
Inductive got (now : Z) : list (rr_peers A) -> list Z -> nat -> nat -> rr_peer A -> Prop :=
| got_here g next t i p :
    peer g !! i = Some p -> available t now i p = true ->
    (forall j q, peer g !! j = Some q -> available t now j q = true ->
       current_weight (gain q) <= current_weight (gain p)) ->
    got now (g :: next) t 0 i p
| got_next g next t k i p :
    none_available t now g -> got now next [] k i p -> got now (g :: next) t (S k) i p.

Definition all_down (now : Z) u (t : list Z) : Prop :=
  match u with
  | [] => True
  | g :: next => none_available t now g /\ Forall (none_available [] now) next
  end.

Lemma available_clear t now g i p :
  peer g !! i = Some p ->
  available (clear_tried (number g) t) now i p = available [] now i p.
Proof.
  intros Hi%lookup_lt_Some. unfold available. rewrite clear_tried_spec by done.
  rewrite was_tried_bit. by rewrite nth_overflow, Z.bits_0 by (cbn; lia).
Qed.

Lemma got_clear now g next t k i p :
  got now (g :: next) (clear_tried (number g) t) k i p -> got now (g :: next) [] k i p.
Proof.
  inversion 1 as [???? ? Hi Ha Hmax|?????? Hnone]; subst.
  - rewrite available_clear in Ha by done. constructor; [done..|]. intros j q Hj Hq.
    apply (Hmax j); [done|]. by rewrite available_clear.
  - constructor; [|done]. intros j q Hj. rewrite <- (available_clear t now g) by done. by apply Hnone.
Qed.

Lemma all_down_clear now g next t :
  all_down now (g :: next) (clear_tried (number g) t) -> Forall (none_available [] now) (g :: next).
Proof.
  intros [H Hn]. constructor; [|done]. intros i p Hi. rewrite <- (available_clear t now g) by done. by apply H.
Qed.

Lemma get_peer_spec now ps rrp :
  let '(ps', rrp', r) := ngx_http_upstream_get_peer now ps rrp in
  rr_level rrp' = rr_level rrp /\ length (tried rrp') = length (tried rrp) /\ length ps' = length ps /\
  match r with
  | None => ps' = ps /\ rrp' = rrp /\ forall i p, ps !! i = Some p -> available (tried rrp) now i p = false
  | Some r =>
      tried rrp' = mark_tried (tried rrp) (current rrp') /\
      exists p, ps !! current rrp' = Some p /\ rp_addr r = rp_addr p /\
        available (tried rrp) now (current rrp') p = true /\
        forall j q, ps !! j = Some q -> available (tried rrp) now j q = true ->
          current_weight (gain q) <= current_weight (gain p)
  end.
Proof.
  unfold ngx_http_upstream_get_peer.
  pose proof (loop_peers (tried rrp) now 0 ps None 0) as Hps.
  pose proof (loop_best (tried rrp) now 0 ps None 0) as Hb.
  destruct (get_peer_loop _ _ _ _ _ _) as [[ps' [[i w]|]] tot]; cbn [fst snd best_of] in Hps, Hb.
  - destruct Hb as ([Hb|(k & p & -> & Ek & Ha & ->)] & _ & Hmax); [done|]. cbn in Ek, Ha.
    assert (Hl : alter (pay now tot) k ps' !! k = Some (pay now tot (gain p))).
    { rewrite list_lookup_alter_eq, Hps, list_lookup_imap, Ek. cbn. unfold gain_if. by rewrite Ha. }
    change (0 + k)%nat with k. rewrite Hl. cbn [rr_level tried current].
    split_and!; [done|apply mark_tried_length|by rewrite length_alter, Hps, length_imap|done|].
    exists p. split_and!; [done..|]. intros j q Ej Hq. by apply (Hmax j).
  - destruct Hb as [_ Hnone]. split_and!; [done|done|by rewrite Hps, length_imap| |done|done].
    rewrite Hps. apply list_eq. intros k. rewrite list_lookup_imap.
    destruct (ps !! k) as [p|] eqn:Ek; [|done]. cbn. unfold gain_if. by rewrite (Hnone k p Ek : available (tried rrp) now k p = false).
Qed.

Lemma rr_get_spec now u rrp pc :
  Forall (fun g => single g = false) u ->
  let '(rc, u', rrp', pc') := rr_get now u rrp pc in
  length (tried rrp') = length (tried rrp) /\
  ((rc = NGX_OK /\ exists k i p, got now u (tried rrp) k i p /\ rr_level rrp' = (rr_level rrp + k)%nat /\
      current rrp' = i /\ pc_name pc' = Some (rp_addr p)) \/
   (rc = NGX_BUSY /\ all_down now u (tried rrp) /\
      Forall (fun g => Forall (fun p => fails p = 0) (peer g)) u')).
Proof.
  revert rrp pc; induction u as [|g next IH]; intros rrp pc Hsingle; cbn [rr_get]; [by split; [|right]|].
  apply Forall_cons in Hsingle as [Hs Hsingle]. unfold rr_choose. rewrite Hs.
  pose proof (get_peer_spec now (peer g) rrp) as Hg.
  destruct (ngx_http_upstream_get_peer now (peer g) rrp) as [[ps' rrp'] [r|]];
    destruct Hg as (Hlv & Hlen & _ & Hg).
  - destruct Hg as (Et & p & Hp & Haddr & Ha & Hmax). cbn [pc_name]. split; [done|]. left. split; [done|].
    exists 0%nat, (current rrp'), p. split_and!; [by constructor|lia|done|by rewrite Haddr].
  - destruct Hg as (-> & -> & Hnone).
    assert (Hdead : Forall (fun p => fails p = 0) (peer (rr_revive {| g with peer := peer g |}))).
    { apply Forall_map, Forall_true. done. }
    destruct next as [|b next]; [split; [done|right]; split_and!; [done|by split|by constructor]|].
    specialize (IH {| rrp with rr_level := S (rr_level rrp); tried := clear_tried (number b) (tried rrp) |}
      {| pc with pc_cached := false; pc_connection := None; tries := Z.of_nat (number b) |} Hsingle).
    destruct (rr_get now (b :: next) _ _) as [[[rc u'] rrp1] pc'].
    cbn [rr_level tried] in IH. rewrite clear_tried_length in IH.
    destruct IH as [Hlen1 [(-> & k & i & p & Hgot & Hlv1 & Hi & Hn)|(-> & Hdown & Hu')]];
      (split; [done|]).
    + left. change (NGX_OK =? NGX_BUSY) with false. cbv iota. split; [done|].
      exists (S k), i, p. split_and!; [|lia|done|done]. constructor; [done|by eapply got_clear].
    + right. change (NGX_BUSY =? NGX_BUSY) with true. cbv iota.
      split_and!; [done|split; [done|by eapply all_down_clear]|by constructor].
Qed.

(** A request for a peer, with several peers in each group, gets the
    available peer with the greatest gained weight of the first group that has
    an available one (a peer is available unless it is down, was tried for this
    request, or failed too often too recently), and it gets [NGX_BUSY] exactly
    when no group has one; then every failure count is reset. *)
Theorem rr_get_outcome now u rrp pc :
  Forall (fun g => single g = false) u ->
  let '(rc, u', rrp', pc') := ngx_http_upstream_get_round_robin_peer now u rrp pc in
  let here := drop (rr_level rrp) u in
  (rc = NGX_OK /\ exists k i p, got now here (tried rrp) k i p /\
     rr_level rrp' = (rr_level rrp + k)%nat /\ current rrp' = i /\ pc_name pc' = Some (rp_addr p)) \/
  (rc = NGX_BUSY /\ all_down now here (tried rrp) /\
     Forall (fun g => Forall (fun p => fails p = 0) (peer g)) (drop (rr_level rrp) u')).
Proof.
  intros Hs. unfold ngx_http_upstream_get_round_robin_peer.
  pose proof (rr_get_spec now (drop (rr_level rrp) u) rrp pc (Forall_drop _ _ _ Hs)) as H.
  destruct (Nat.lt_ge_cases (rr_level rrp) (length u)) as [Hl|Hl].
  - destruct (rr_get _ _ _ _) as [[[rc u'] rrp'] pc']. destruct H as [_ H]. cbv zeta.
    by rewrite drop_app_length' by (rewrite length_take; lia).
  - rewrite (drop_ge u) by done. cbn [rr_get all_down]. right.
    rewrite app_nil_r, take_ge, drop_ge by done. split_and!; [done..|constructor].
Qed.
End Outcome.

(** ** The invariant of the shared peers *)

Section Invariant.
Context {A : Type}.
Implicit Types (ps : list (rr_peer A)) (p : rr_peer A) (g : rr_peers A) (u : list (rr_peers A)).

(** An effective weight is between 0 and the weight. *)
Definition peer_ok p : Prop :=
  0 <= effective_weight p <= weight p /\ weight p < 2 ^ 63 /\ 0 <= max_fails p.

(** The current weights of a group sum up to 0 modulo 2^64. *)
Definition group_ok g : Prop :=
  Forall peer_ok (peer g) /\ (2 ^ 64 | sumZ current_weight (peer g)).

(** What the configuration of a peer fixes. *)
Definition peer_conf p : A * Z * Z * Z * bool :=
  (rp_addr p, weight p, max_fails p, fail_timeout p, down p).
Definition conf u : list (bool * list (A * Z * Z * Z * bool)) :=
  map (fun g => (single g, map peer_conf (peer g))) u.

(** Any request, at any time, asks for a peer or gives one back. *)
Inductive rr_step u : list (rr_peers A) -> Prop :=
| step_get now rrp pc rc u' rrp' pc' :
    ngx_http_upstream_get_round_robin_peer now u rrp pc = (rc, u', rrp', pc') -> rr_step u u'
| step_free now rrp pc state u' pc' :
    ngx_http_upstream_free_round_robin_peer now u rrp pc state = (u', pc') -> rr_step u u'.

(** A change of the peers of a group that keeps all that matters. *)
Definition keeps ps ps' : Prop :=
  map peer_conf ps' = map peer_conf ps /\
  (Forall peer_ok ps -> Forall peer_ok ps') /\
  (2 ^ 64 | sumZ current_weight ps' - sumZ current_weight ps).

Lemma keeps_refl ps : keeps ps ps.
Proof. split_and!; [done..|]. exists 0. lia. Qed.

Lemma keeps_trans ps1 ps2 ps3 : keeps ps1 ps2 -> keeps ps2 ps3 -> keeps ps1 ps3.
Proof.
  intros (E1 & H1 & [a Ha]) (E2 & H2 & [b Hb]). split_and!; [congruence|auto|]. exists (a + b). lia.
Qed.

(** A change of one peer. *)
Lemma keeps_alter f ps i :
  (forall p, peer_conf (f p) = peer_conf p /\ (peer_ok p -> peer_ok (f p)) /\
             current_weight (f p) = current_weight p) -> keeps ps (alter f i ps).
Proof.
  intros Hf. destruct (ps !! i) as [p|] eqn:Ei.
  - split_and!.
    + apply list_eq. intros k. rewrite !list_lookup_fmap. destruct (decide (k = i)) as [->|].
      * rewrite list_lookup_alter_eq, Ei. cbn. f_equal. apply Hf.
      * by rewrite list_lookup_alter_ne by done.
    + intros Hall. apply Forall_alter; [done|]. intros q _ Hq. by apply Hf.
    + rewrite (sumZ_alter _ _ _ _ _ Ei). destruct (Hf p) as (_ & _ & ->). exists 0. lia.
  - assert (alter f i ps = ps) as ->; [|apply keeps_refl]. apply list_eq. intros k.
    destruct (decide (k = i)) as [->|]; [|by rewrite list_lookup_alter_ne by done].
    by rewrite list_lookup_alter_eq, Ei.
Qed.

Lemma keeps_map f ps :
  (forall p, peer_conf (f p) = peer_conf p /\ (peer_ok p -> peer_ok (f p)) /\
             current_weight (f p) = current_weight p) -> keeps ps (map f ps).
Proof.
  intros Hf. induction ps as [|p ps (IH1 & IH2 & [a IH3])]; [apply keeps_refl|].
  destruct (Hf p) as (Hc & Ho & Hw). split_and!; cbn [map sumZ].
  - cbn. by rewrite Hc, IH1.
  - rewrite !Forall_cons. intros []. auto.
  - exists a. lia.
Qed.

Lemma gain_ok p : peer_ok p -> peer_ok (gain p).
Proof. intros (He & Hw & Hm). unfold peer_ok, gain. cbn. case_match; zify_bool; lia. Qed.

Lemma get_peer_keeps now ps rrp : keeps ps (ngx_http_upstream_get_peer now ps rrp).1.1.
Proof.
  unfold ngx_http_upstream_get_peer.
  pose proof (loop_peers (tried rrp) now 0 ps None 0) as Hps.
  pose proof (loop_best (tried rrp) now 0 ps None 0) as Hb.
  pose proof (loop_balance (tried rrp) now 0 ps None 0) as [a Ha].
  destruct (get_peer_loop _ _ _ _ _ _) as [[ps' b] tot]; cbn [fst snd best_of] in Hps, Hb, Ha.
  assert (Hconf : map peer_conf ps' = map peer_conf ps).
  { rewrite Hps. apply list_eq. intros k. rewrite !list_lookup_fmap, list_lookup_imap.
    destruct (ps !! k); [|done]. cbn. unfold gain_if. by case_match. }
  assert (Hok : Forall peer_ok ps -> Forall peer_ok ps').
  { rewrite Hps, !Forall_lookup. intros H k x. rewrite list_lookup_imap.
    destruct (ps !! k) as [p|] eqn:Ek; [|done]. cbn. intros [= <-]. unfold gain_if.
    case_match; [apply gain_ok|]; by eapply H. }
  destruct b as [[i w]|]; cbn [fst snd].
  - destruct Hb as ([Hb|(k & p & -> & Ek & Hav & ->)] & _ & _); [done|]. cbn in Ek.
    assert (El : ps' !! k = Some (gain_if (tried rrp) now k p)) by (by rewrite Hps, list_lookup_imap, Ek).
    change (0 + k)%nat with k. split_and!.
    + rewrite <- Hconf. apply list_eq. intros j. rewrite !list_lookup_fmap.
      destruct (decide (j = k)) as [->|]; [|by rewrite list_lookup_alter_ne by done].
      by rewrite list_lookup_alter_eq, El.
    + intros H. apply Forall_alter; [by apply Hok|]. done.
    + rewrite (sumZ_alter _ _ _ _ _ El). cbn [pay current_weight].
      destruct (s64_divide (current_weight (gain_if (tried rrp) now k p) - tot)) as [b Eb].
      exists (a + b). lia.
  - destruct Hb as [_ Hnone]. assert (ps' = ps) as ->; [|apply keeps_refl].
    rewrite Hps. apply list_eq. intros k. rewrite list_lookup_imap.
    destruct (ps !! k) as [p|] eqn:Ek; [|done]. cbn. unfold gain_if.
    by rewrite (Hnone k p Ek : available (tried rrp) now k p = false).
Qed.

Definition group_keeps g g' : Prop := single g' = single g /\ keeps (peer g) (peer g').

Lemma rr_get_keeps now u rrp pc :
  Forall2 group_keeps u (rr_get now u rrp pc).1.1.2.
Proof.
  assert (Hrefl : forall u, Forall2 group_keeps u u)
    by (intros v; induction v; constructor; [split; [done|apply keeps_refl]|done]).
  revert rrp pc; induction u as [|g next IH]; intros rrp pc; cbn [rr_get]; [constructor|].
  assert (Hg : forall r, group_keeps g (rr_choose now g r).1.1).
  { intros r. unfold rr_choose. destruct (single g) eqn:Es; [by split; [|apply keeps_refl]|].
    pose proof (get_peer_keeps now (peer g) r).
    destruct (ngx_http_upstream_get_peer _ _ _) as [[ps' r'] q]. by split. }
  specialize (Hg rrp). destruct (rr_choose now g rrp) as [[g' rrp'] [q|]]; cbn [fst snd] in *;
    [by constructor|].
  assert (Hr : group_keeps g (rr_revive g')).
  { destruct Hg as [Hs Hk]. split; [done|]. eapply keeps_trans; [done|]. apply keeps_map. done. }
  destruct next as [|b next]; [by constructor|].
  match goal with |- context [rr_get now (b :: next) ?r ?c] =>
    specialize (IH r c); destruct (rr_get now (b :: next) r c) as [[[rc u'] rrp1] pc'] end.
  cbn [fst snd] in IH. destruct (rc =? NGX_BUSY); by constructor.
Qed.

Lemma free_peer_keeps now state p :
  peer_conf (free_peer now state p) = peer_conf p /\ (peer_ok p -> peer_ok (free_peer now state p)) /\
  current_weight (free_peer now state p) = current_weight p.
Proof.
  unfold free_peer. split_and!; [repeat case_match; done| |repeat case_match; done].
  intros (He & Hw & Hm). destruct (negb _); [|repeat case_match; done]. unfold peer_ok.
  cbn [effective_weight weight max_fails]. split; [|done].
  assert (Hq : forall m, 0 < m -> 0 <= u64 (weight p) / m <= weight p).
  { intros m Hm'. unfold u64. rewrite Z.mod_small by lia. split; [apply Z.div_pos; lia|].
    apply Z.div_le_upper_bound; nia. }
  destruct (Z.eqb_spec (max_fails p) 0); cbn [negb].
  - rewrite (proj2 (Z.ltb_ge _ _)) by lia. lia.
  - specialize (Hq (max_fails p) ltac:(lia)).
    assert (s64 (effective_weight p - u64 (weight p) / max_fails p) =
            effective_weight p - u64 (weight p) / max_fails p) as ->.
    { set (z := u64 _ / _) in *. clearbody z. unfold s64. rewrite Z.mod_small; lia. }
    case_match; zify_bool; lia.
Qed.

Lemma rr_step_keeps u u' : rr_step u u' -> Forall2 group_keeps u u'.
Proof.
  assert (Hrefl : forall u, Forall2 group_keeps u u)
    by (intros v; induction v; constructor; [split; [done|apply keeps_refl]|done]).
  intros [now rrp pc rc v rrp' pc' E|now rrp pc state v pc' E].
  - unfold ngx_http_upstream_get_round_robin_peer in E.
    pose proof (rr_get_keeps now (drop (rr_level rrp) u) rrp pc) as H.
    destruct (rr_get _ _ _ _) as [[[rc0 u0] r0] c0]. injection E as <- <- <- <-.
    rewrite <- (take_drop (rr_level rrp) u) at 1. by apply Forall2_app.
  - unfold ngx_http_upstream_free_round_robin_peer in E.
    destruct (u !! rr_level rrp) as [g|] eqn:Eg; [|by injection E as <- <-].
    destruct (single g) eqn:Es; injection E as <- <-; [done|].
    rewrite <- (list_insert_id u (rr_level rrp) g) at 1 by done.
    apply Forall2_insert; [done|]. split; [done|]. apply keeps_alter. intros p. apply free_peer_keeps.
Qed.

Lemma keeps_conf u u' : Forall2 group_keeps u u' -> conf u' = conf u.
Proof. induction 1 as [|g g' u u' [Hs (Hc & _)] _ IH]; [done|]. unfold conf in *. cbn [map]. by rewrite Hs, Hc, IH. Qed.

Lemma keeps_ok u u' : Forall2 group_keeps u u' -> Forall group_ok u -> Forall group_ok u'.
Proof.
  induction 1 as [|g g' u u' [Hs (_ & Ho & Hd)] _ IH]; [done|]. rewrite !Forall_cons.
  intros [[H1 H2] H3]. split; [|by apply IH]. split; [by apply Ho|].
  apply (Z.divide_add_r _ _ _ Hd) in H2. by replace (_ - _ + _) with (sumZ current_weight (peer g')) in H2 by lia.
Qed.

(** The servers that the configuration can describe. *)
Definition server_ok (sv : server A) : Prop := 0 <= sv_weight sv < 2 ^ 63 /\ 0 <= sv_max_fails sv.

Lemma rr_group_ok b servers s :
  Forall server_ok servers -> group_ok {| (rr_group b servers) with single := s |}.
Proof.
  intros H. unfold rr_group. destruct (rr_count b servers) as [n w]. cbn [peer].
  set (ps := concat _).
  assert (Hall : Forall (fun p => peer_ok p /\ current_weight p = 0) ps).
  { apply Forall_concat, Forall_map, Forall_forall. intros sv [Hsv _]%list_elem_of_In%filter_In.
    rewrite Forall_forall in H. apply list_elem_of_In in Hsv. destruct (H sv Hsv) as [Hw Hm].
    apply Forall_map, Forall_true. intros a. unfold peer_ok. cbn. lia. }
  split; [eapply Forall_impl; [exact Hall|by intros p [? _]]|]. clearbody ps.
  cbn [peer]. replace (sumZ _ _) with 0; [apply Z.divide_0_r|].
  induction Hall as [|p ps [_ Hp] _ IH]; cbn; [done|]. rewrite Hp. by rewrite <- IH.
Qed.

(** C31: whatever requests do, in whatever order and at whatever times, to the
    peers of a configured upstream, its configuration never changes, effective
    weights stay between 0 and the weights, and the current weights of a group
    sum up to 0 (modulo 2^64): the balancer neither makes nor loses turns. *)
Theorem rr_invariant (servers : list (server A)) (u0 u : list (rr_peers A)) :
  Forall server_ok servers -> ngx_http_upstream_init_round_robin servers = Some u0 ->
  rtc rr_step u0 u -> Forall group_ok u /\ conf u = conf u0.
Proof.
  intros Hs Hi. assert (Hu0 : Forall group_ok u0).
  { unfold ngx_http_upstream_init_round_robin in Hi. case_match; [done|].
    pose proof (rr_group_ok false servers) as Hf. pose proof (rr_group_ok true servers false Hs) as Ht.
    case_match; injection Hi as <-.
    - constructor; [|done]. apply (Hf (single (rr_group false servers)) Hs).
    - constructor; [by apply Hf|]. by constructor. }
  clear Hi. induction 1 as [u|u v w Hstep _ IH]; [done|].
  apply rr_step_keeps in Hstep. destruct IH as [IH1 IH2]; [by eapply keeps_ok|].
  split; [done|]. rewrite IH2. by apply keeps_conf.
Qed.
End Invariant.

(** ** Retries of one request *)

Section Retries.
Context {A : Type}.
Implicit Types (g : rr_peers A) (u : list (rr_peers A)).

(** The peers that successive calls of one request got, the last one first:
    between two calls other requests may have changed the shared peers in any
    way, but not their number. *)
Inductive attempts (ns : list nat) (rrp0 : rr_peer_data) :
    list (nat * nat) -> rr_peer_data -> Prop :=
| no_attempt : attempts ns rrp0 [] rrp0
| attempt l rrp now u pc u' rrp' pc' :
    attempts ns rrp0 l rrp -> map number u = ns -> Forall (fun g => single g = false) u ->
    ngx_http_upstream_get_round_robin_peer now u rrp pc = (NGX_OK, u', rrp', pc') ->
    attempts ns rrp0 ((rr_level rrp', current rrp') :: l) rrp'.

(** A request remembers the peers that it tried in its group, and its bitmap
    has a bit for each peer. *)
Definition remembers (ns : list nat) (l : list (nat * nat)) (rrp : rr_peer_data) : Prop :=
  NoDup l /\ Forall (fun n => words n <= length (tried rrp))%nat ns /\
  Forall (fun '(lv, i) => (exists n, ns !! lv = Some n /\ i < n)%nat /\
    ((lv < rr_level rrp)%nat \/ (lv = rr_level rrp /\ was_tried (tried rrp) i = true))) l.

Lemma rr_get_tried now u rrp pc rrp' u' pc' :
  Forall (fun g => single g = false) u -> Forall (fun n => words n <= length (tried rrp))%nat (map number u) ->
  rr_get now u rrp pc = (NGX_OK, u', rrp', pc') ->
  length (tried rrp') = length (tried rrp) /\ was_tried (tried rrp') (current rrp') = true /\
  exists k, rr_level rrp' = (rr_level rrp + k)%nat /\
    (exists g, u !! k = Some g /\ (current rrp' < number g)%nat) /\
    (k = 0%nat -> was_tried (tried rrp) (current rrp') = false /\
       forall j, was_tried (tried rrp) j = true -> was_tried (tried rrp') j = true).
Proof.
  revert rrp pc u'; induction u as [|g next IH]; intros rrp pc u' Hs Hw; cbn [rr_get]; [done|].
  cbn [map] in Hw. apply Forall_cons in Hs as [Hs Hs'], Hw as [Hw Hw']. unfold rr_choose. rewrite Hs.
  pose proof (get_peer_spec now (peer g) rrp) as Hg.
  destruct (ngx_http_upstream_get_peer now (peer g) rrp) as [[ps' rrp1] [r|]];
    destruct Hg as (Hlv & Hlen & _ & Hg).
  - destruct Hg as (Et & p & Hp & _ & Ha & _). intros [= _ -> _].
    assert (Hn : (current rrp' < number g)%nat) by (by eapply lookup_lt_Some).
    assert (Hm : forall j, was_tried (tried rrp') j = was_tried (tried rrp) j || bool_decide (current rrp' = j)).
    { intros j. rewrite Et. apply mark_tried_spec. pose proof (words_div _ _ Hn). lia. }
    split_and!; [done|by rewrite Hm, bool_decide_true, orb_true_r|]. exists 0%nat.
    split_and!; [lia|by exists g|]. intros _. unfold available in Ha. zify_bool.
    split; [done|]. intros j Hj. by rewrite Hm, Hj.
  - destruct Hg as (_ & -> & _). destruct next as [|b next]; [done|].
    match goal with |- context [rr_get now (b :: next) ?r ?c] =>
      specialize (IH r c); destruct (rr_get now (b :: next) r c) as [[[rc v] rrp1] pc1] eqn:E end.
    destruct (rc =? NGX_BUSY); [done|]. intros [= -> <- -> ->].
    cbn [tried rr_level] in IH. rewrite clear_tried_length in IH.
    destruct (IH v Hs' Hw' eq_refl) as (Hl & Ht & k & Hk & Hg & _). split_and!; [done..|].
    exists (S k). split_and!; [lia|done|done].
Qed.

Lemma attempts_remembers ns rrp0 l rrp :
  Forall (fun n => words n <= length (tried rrp0))%nat ns -> attempts ns rrp0 l rrp ->
  remembers ns l rrp.
Proof.
  intros Hns. induction 1 as [|l rrp now u pc u' rrp' pc' _ (Hnd & Hw & Hl) <- Hs E].
  { split_and!; [constructor|done|constructor]. }
  unfold ngx_http_upstream_get_round_robin_peer in E.
  destruct (rr_get now (drop (rr_level rrp) u) rrp pc) as [[[rc v] rrp1] pc1] eqn:Eg.
  injection E as -> <- -> ->.
  apply rr_get_tried in Eg as (Hlen & Ht & k & Hk & (g & Hg & Hn) & Hk0);
    [|by apply Forall_drop|rewrite fmap_drop; by apply Forall_drop].
  rewrite lookup_drop in Hg.
  assert (Hns' : map number u !! rr_level rrp' = Some (number g))
    by (by rewrite list_lookup_fmap, Hk, Hg).
  split_and!; [|by rewrite Hlen|].
  - apply NoDup_cons. split; [|done]. intros Hin. rewrite Forall_forall in Hl.
    destruct (Hl _ Hin) as [_ [?|[Elv Htr]]]; [lia|].
    destruct (Hk0 ltac:(lia)) as [Hfalse _]. congruence.
  - constructor; [by eauto 10|]. eapply Forall_impl; [exact Hl|].
    intros [lv i] [Hb Hcase]. split; [done|].
    destruct (decide (k = 0%nat)) as [->|].
    + destruct Hcase as [?|[-> Htr]]; [left; lia|]. right. split; [lia|]. by apply Hk0.
    + left. destruct Hcase as [?|[-> _]]; lia.
Qed.

(** The peers of groups of the given sizes. *)
Definition all_peers (ns : list nat) : list (nat * nat) :=
  concat (imap (fun lv n => map (pair lv) (seq 0 n)) ns).

Lemma all_peers_length ns : length (all_peers ns) = sum_list ns.
Proof.
  unfold all_peers. generalize 0%nat as o. revert ns.
  assert (H : forall ns (f : nat -> nat -> list (nat * nat)), (forall lv n, length (f lv n) = n) ->
    length (concat (imap f ns)) = sum_list ns).
  { induction ns as [|n ns IH]; intros f Hf; [done|]. cbn. rewrite length_app, Hf.
    f_equal. apply IH. intros; apply Hf. }
  intros ns o. apply H. intros. by rewrite length_map, length_seq.
Qed.

Lemma all_peers_in ns lv i n : ns !! lv = Some n -> (i < n)%nat -> In (lv, i) (all_peers ns).
Proof.
  intros Hn Hi. apply in_concat. exists (map (pair lv) (seq 0 n)). split.
  - apply list_elem_of_In, list_elem_of_lookup. exists lv. by rewrite list_lookup_imap, Hn.
  - apply in_map, in_seq. lia.
Qed.

Lemma init_peer_words u :
  (length u <= 2)%nat ->
  Forall (fun n => words n <= length (tried (ngx_http_upstream_init_round_robin_peer u).1))%nat
    (map number u).
Proof.
  intros Hu. unfold ngx_http_upstream_init_round_robin_peer. cbn [fst tried].
  set (n := match u with [] => _ | _ => _ end).
  assert (Hn : Forall (fun k => k <= n)%nat (map number u)).
  { subst n. destruct u as [|a [|b []]]; cbn [map length] in *; [constructor|..|lia].
    - by repeat constructor.
    - destruct (Nat.ltb_spec (number a) (number b)); repeat constructor; lia. }
  clearbody n. eapply Forall_impl; [exact Hn|]. intros k Hk. cbv beta in Hk.
  assert (words k <= words n)%nat by (unfold words; apply Nat.Div0.div_le_mono; lia).
  destruct (Nat.leb_spec n WORD_BITS).
  - cbn [length]. etransitivity; [done|]. unfold words. apply Nat.lt_succ_r, Nat.Div0.div_lt_upper_bound. lia.
  - rewrite repeat_length. done.
Qed.

(** A request never gets the same peer twice, however it interleaves with
    the other requests: the peers it gets in successive attempts are distinct,
    so that it makes at most as many attempts as there are peers before
    [NGX_BUSY]. *)
Theorem rr_attempts_distinct (u0 : list (rr_peers A)) (l : list (nat * nat)) (rrp : rr_peer_data) :
  (length u0 <= 2)%nat ->
  attempts (map number u0) (ngx_http_upstream_init_round_robin_peer u0).1 l rrp ->
  NoDup l /\ (length l <= sum_list (map number u0))%nat.
Proof.
  intros Hu Ha. destruct (attempts_remembers _ _ _ _ (init_peer_words u0 Hu) Ha) as (Hnd & _ & Hl).
  split; [done|]. rewrite <- all_peers_length. apply NoDup_incl_length; [by apply NoDup_ListNoDup|].
  intros [lv i] Hin. rewrite Forall_forall in Hl. apply list_elem_of_In in Hin.
  destruct (Hl _ Hin) as [(n & Hn & Hi) _]. by eapply all_peers_in.
Qed.
End Retries.

(** ** Fairness *)

Section Fairness.
Context {A : Type}.
Implicit Types (ps : list (rr_peer A)) (p : rr_peer A) (g : rr_peers A) (u : list (rr_peers A)).

(** One request that is served by the first peer it gets, at time [now]: its
    answer, the peer and the changed upstream. *)
Definition serve (now : Z) u : Z * nat * list (rr_peers A) :=
  let (rrp, tries) := ngx_http_upstream_init_round_robin_peer u in
  let pc := {| tries := tries; pc_name := None; pc_cached := false; pc_connection := None |} in
  let '(rc, u, rrp, pc) := ngx_http_upstream_get_round_robin_peer now u rrp pc in
  let (u, _) := ngx_http_upstream_free_round_robin_peer now u rrp pc 0 in
  (rc, current rrp, u).

(** The requests at the given times. *)
Fixpoint serve_all (times : list Z) u : list (Z * nat) * list (rr_peers A) :=
  match times with
  | [] => ([], u)
  | now :: times' =>
      let '(rc, i, u) := serve now u in
      let (l, u) := serve_all times' u in
      ((rc, i) :: l, u)
  end.

(** A peer that is up, has not failed and has its full weight. *)
Definition healthy p : Prop :=
  down p = false /\ fails p = 0 /\ 0 <= max_fails p /\ effective_weight p = weight p /\ 0 < weight p.

Definition picks (i : nat) (l : list nat) : Z := Z.of_nat (count_occ Nat.eq_dec l i).

(** Where the current weights are after the requests that picked [l]. *)
Definition fair_state (W : Z) (l : list nat) ps : Prop :=
  sumZ weight ps = W /\ sumZ current_weight ps = 0 /\
  forall i p, ps !! i = Some p -> healthy p /\ - W < current_weight p /\
    current_weight p = Z.of_nat (length l) * weight p - W * picks i l.

Lemma healthy_available p now i t :
  healthy p -> was_tried t i = false -> available t now i p = true.
Proof.
  intros (Hd & Hf & Hm & _) Ht. unfold available. rewrite Hd, Ht, Hf. cbn.
  destruct (Z.eqb_spec (max_fails p) 0); cbn; [done|]. by rewrite (proj2 (Z.leb_gt _ _)) by lia.
Qed.

Lemma sumZ_lookup_le (f : rr_peer A -> Z) ps lo i p :
  (forall k q, ps !! k = Some q -> lo <= f q) -> ps !! i = Some p ->
  f p <= sumZ f ps - lo * (Z.of_nat (length ps) - 1).
Proof.
  intros H Hi. apply sumZ_le.
  - intros q [k Hk]%list_elem_of_In%list_elem_of_lookup. by apply (H k).
  - by apply list_elem_of_In, list_elem_of_lookup_2 with i.
Qed.

(** The weights of a fair state do not overflow. *)
Lemma fair_bounds W l ps i p :
  fair_state W l ps -> Z.of_nat (length ps) * W < 2 ^ 63 -> ps !! i = Some p ->
  0 < weight p <= W /\ - W < current_weight p /\ current_weight p + weight p < 2 ^ 63.
Proof.
  intros (Hw & Hc & Hall) Hn Hi. destruct (Hall i p Hi) as ((_ & _ & _ & _ & Hp) & Hlo & _).
  pose proof (sumZ_lookup_le weight ps 0 i p) as H1.
  pose proof (sumZ_lookup_le current_weight ps (1 - W) i p) as H2.
  assert (weight p <= W). { rewrite <- Hw. enough (weight p <= sumZ weight ps - 0) by lia. apply H1; [|done].
    intros k q Hk. destruct (Hall k q Hk) as ((_ & _ & _ & _ & ?) & _). lia. }
  rewrite Hc in H2. apply lookup_lt_Some in Hi as Hlen.
  assert (current_weight p <= 0 - (1 - W) * (Z.of_nat (length ps) - 1)).
  { apply H2; [|done]. intros k q Hk. destruct (Hall k q Hk) as (_ & ? & _). lia. }
  split_and!; [lia..|]. nia.
Qed.

Lemma gain_fair W l ps i p :
  fair_state W l ps -> Z.of_nat (length ps) * W < 2 ^ 63 -> ps !! i = Some p ->
  gain p = {| p with current_weight := current_weight p + weight p |}.
Proof.
  intros Hf Hn Hi. destruct (fair_bounds W l ps i p Hf Hn Hi) as (Hw & Hlo & Hhi).
  destruct Hf as (_ & _ & Hall). destruct (Hall i p Hi) as ((_ & _ & _ & He & _) & _).
  apply lookup_lt_Some in Hi.
  unfold gain. rewrite He, Z.ltb_irrefl. unfold s64. rewrite Z.mod_small by nia.
  destruct p; cbn in *; subst. f_equal. lia.
Qed.

(** The sum of the gained weights is the sum of the weights. *)
Lemma gained_sum W l ps :
  fair_state W l ps -> Z.of_nat (length ps) * W < 2 ^ 63 ->
  sumZ current_weight (map gain ps) = W.
Proof.
  intros Hf Hn. pose proof Hf as (Hw & Hc & _).
  enough (H : sumZ current_weight (map gain ps) = sumZ current_weight ps + sumZ weight ps) by lia.
  assert (Hg : Forall (fun p => current_weight (gain p) = current_weight p + weight p) ps).
  { apply Forall_lookup. intros i p Hi. by rewrite (gain_fair W l ps i p). }
  clear -Hg. induction Hg as [|p ps Hp _ IH]; [done|]. cbn [map sumZ]. lia.
Qed.

Lemma fresh_tried u i : was_tried (tried (ngx_http_upstream_init_round_robin_peer u).1) i = false.
Proof.
  rewrite was_tried_bit. unfold ngx_http_upstream_init_round_robin_peer. cbn [fst tried].
  case_match.
  - destruct (i / 64)%nat as [|[]]; apply Z.bits_0.
  - rewrite nth_repeat0. apply Z.bits_0.
Qed.

Lemma get_peer_fair W l ps now rrp :
  fair_state W l ps -> Z.of_nat (length ps) * W < 2 ^ 63 -> 0 < W ->
  (forall i, was_tried (tried rrp) i = false) ->
  exists k p, ps !! k = Some p /\ 0 < current_weight (gain p) /\
    ngx_http_upstream_get_peer now ps rrp =
    (alter (pay now W) k (map gain ps), {| rrp with current := k; tried := mark_tried (tried rrp) k |},
     Some (pay now W (gain p))).
Proof.
  intros Hf Hn HW Hfresh. pose proof Hf as (Hw & Hc & Hall).
  assert (Hav : forall k p, ps !! k = Some p -> available (tried rrp) now (0 + k) p = true).
  { intros k p Hk. apply healthy_available; [|done]. by apply (Hall k). }
  assert (Hew : sumZ effective_weight ps = W).
  { rewrite <- Hw. assert (He : Forall (fun p => effective_weight p = weight p) ps).
    { apply Forall_lookup. intros i p Hi. by destruct (Hall i p Hi) as ((_ & _ & _ & ? & _) & _). }
    clear -He. induction He as [|p ps Hp _ IH]; [done|]. cbn. lia. }
  assert (Hlen : ps <> []) by (intros ->; cbn in Hw; lia).
  assert (HWn : W < 2 ^ 63) by (destruct ps; cbn [length] in *; [done|nia]).
  unfold ngx_http_upstream_get_peer.
  pose proof (loop_peers (tried rrp) now 0 ps None 0) as Hps.
  pose proof (loop_best (tried rrp) now 0 ps None 0) as Hb.
  pose proof (loop_total (tried rrp) now 0 ps None 0) as Htot.
  destruct (get_peer_loop _ _ _ _ _ _) as [[ps' b] tot]; cbn [fst snd best_of] in Hps, Hb, Htot.
  rewrite Htot; [|lia|lia|]; [|intros k p Hk; split; [|by apply Hav]].
  2:{ destruct (Hall k p Hk) as ((_ & _ & _ & -> & ?) & _). lia. }
  assert (Eps : ps' = map gain ps).
  { rewrite Hps. apply list_eq. intros k. rewrite list_lookup_imap, list_lookup_fmap.
    destruct (ps !! k) as [p|] eqn:Ek; [|done]. cbn. unfold gain_if.
    by rewrite (Hav k p Ek : available (tried rrp) now k p = true). }
  rewrite Hew, Z.add_0_l. clear Htot Hps. destruct b as [[k w]|].
  - destruct Hb as ([Hb|(k' & p & -> & Ek & _ & ->)] & _ & Hmax); [done|]. cbn in Ek |- *.
    exists k', p. split_and!; [done| |].
    + destruct (Z.lt_ge_cases 0 (current_weight (gain p))) as [|Hle]; [done|exfalso].
      pose proof (gained_sum W l ps Hf Hn) as Hsum.
      enough (sumZ current_weight (map gain ps) <= 0) by lia.
      assert (Hall' : Forall (fun q => current_weight q <= 0) (map gain ps)).
      { apply Forall_map, Forall_lookup. intros j q Hj. specialize (Hmax j q Hj (Hav j q Hj)). cbv beta. lia. }
      clear -Hall'. induction Hall'; cbn [sumZ]; lia.
    + rewrite Eps. f_equal. by rewrite list_lookup_alter_eq, list_lookup_fmap, Ek.
  - destruct Hb as [_ Hnone]. destruct ps as [|p ps]; [done|].
    specialize (Hnone 0%nat p eq_refl). by rewrite (Hav 0%nat p eq_refl) in Hnone.
Qed.

(** What a served request does to the peers. *)
Definition served (now W : Z) (k : nat) ps : list (rr_peer A) :=
  alter (free_peer now 0) k (alter (pay now W) k (map gain ps)).

Lemma serve_fair W l g next now :
  single g = false -> fair_state W l (peer g) -> Z.of_nat (number g) * W < 2 ^ 63 -> 0 < W ->
  exists k p, peer g !! k = Some p /\ 0 < current_weight (gain p) /\
    serve now (g :: next) = (NGX_OK, k, {| g with peer := served now W k (peer g) |} :: next).
Proof.
  intros Hs Hf Hn HW. unfold serve.
  pose proof (fresh_tried (g :: next)) as Hfresh.
  destruct (ngx_http_upstream_init_round_robin_peer (g :: next)) as [rrp tries0] eqn:Ei.
  assert (Hlv : rr_level rrp = 0%nat) by (unfold ngx_http_upstream_init_round_robin_peer in Ei; by injection Ei as <- _).
  destruct (get_peer_fair W l (peer g) now rrp Hf Hn HW Hfresh) as (k & p & Hk & Hpos & E).
  exists k, p. split_and!; [done..|].
  unfold ngx_http_upstream_get_round_robin_peer, ngx_http_upstream_free_round_robin_peer.
  rewrite Hlv. cbn [drop take rr_get]. unfold rr_choose. rewrite Hs, E. cbn [app rr_level current].
  by rewrite Hlv.
Qed.

Lemma served_lookup now W k ps i :
  served now W k ps !! i =
  (fun p => if decide (i = k) then free_peer now 0 (pay now W (gain p)) else gain p) <$> ps !! i.
Proof.
  unfold served. case_decide as E.
  - subst. rewrite !list_lookup_alter_eq, list_lookup_fmap. by destruct (ps !! k).
  - by rewrite !list_lookup_alter_ne, list_lookup_fmap by done.
Qed.

(** A served request keeps the state fair, with one more turn for its peer. *)
Lemma served_fair W l ps now k p :
  fair_state W l ps -> Z.of_nat (length ps) * W < 2 ^ 63 -> 0 < W ->
  ps !! k = Some p -> 0 < current_weight (gain p) -> fair_state W (k :: l) (served now W k ps).
Proof.
  intros Hf Hn HW Hk Hpos. pose proof Hf as (Hw & Hc & Hall).
  pose proof (fair_bounds W l ps k p Hf Hn Hk) as (Hwk & Hlk & Hhk).
  pose proof (gain_fair W l ps k p Hf Hn Hk) as Eg. rewrite Eg in Hpos. cbn in Hpos.
  assert (Epay : current_weight (pay now W (gain p)) = current_weight p + weight p - W).
  { rewrite Eg. cbn. apply lookup_lt_Some in Hk. apply s64_small. nia. }
  assert (Efree : forall q, healthy q -> healthy (free_peer now 0 q) /\
    current_weight (free_peer now 0 q) = current_weight q /\ weight (free_peer now 0 q) = weight q).
  { intros q (Hd & Hq & Hm & He & Hpw). unfold free_peer. change (negb (Z.land 0 4 =? 0)) with false.
    cbv iota. case_match; [|by split_and!]. split; [|done]. by split_and!. }
  assert (Hhp : healthy (pay now W (gain p))).
  { destruct (Hall k p Hk) as [(? & ? & ? & ? & ?) _]. rewrite Eg. by split_and!. }
  destruct (Efree _ Hhp) as (Hh & Ec & Ew).
  assert (Hm : map gain ps !! k = Some (gain p)) by (by rewrite list_lookup_fmap, Hk).
  assert (Ha : alter (pay now W) k (map gain ps) !! k = Some (pay now W (gain p)))
    by (by rewrite list_lookup_alter_eq, Hm).
  split_and!.
  - unfold served. rewrite (sumZ_alter _ _ _ _ _ Ha), (sumZ_alter _ _ _ _ _ Hm), Ew. rewrite <- Hw.
    enough (sumZ weight (map gain ps) = sumZ weight ps) by (cbn [pay weight]; lia).
    clear. induction ps as [|q ps IH]; [done|]. cbn [map sumZ]. rewrite IH. done.
  - unfold served. rewrite (sumZ_alter _ _ _ _ _ Ha), (sumZ_alter _ _ _ _ _ Hm), Ec, Epay.
    rewrite (gained_sum W l ps Hf Hn), Eg. cbn [current_weight]. lia.
  - intros i q. rewrite served_lookup. destruct (ps !! i) as [q0|] eqn:Ei; [|done]. cbn [fmap option_fmap option_map].
    intros [= <-]. pose proof (gain_fair W l ps i q0 Hf Hn Ei) as Eq.
    destruct (Hall i q0 Ei) as (Hhq & Hlq & Ecq). unfold picks in *. cbn [count_occ length].
    case_decide as Hik.
    + subst k. rewrite Hk in Ei. injection Ei as <-. rewrite Ec, Ew, Epay. split_and!; [done|lia|].
      destruct (Nat.eq_dec i i) as [_|]; [|done]. rewrite Eg. cbn [pay weight]. lia.
    + rewrite Eq. split_and!; [by destruct Hhq as (? & ? & ? & ? & ?); split_and!|cbn [current_weight]|].
      * destruct Hhq as (_ & _ & _ & _ & ?). lia.
      * cbn [current_weight weight]. destruct (Nat.eq_dec k i) as [|_]; [congruence|]. lia.
Qed.

Lemma serve_all_fair W times l g next :
  single g = false -> fair_state W l (peer g) -> Z.of_nat (number g) * W < 2 ^ 63 -> 0 < W ->
  exists js ps, serve_all times (g :: next) =
      (map (pair NGX_OK) js, {| g with peer := ps |} :: next) /\
    length js = length times /\ fair_state W (rev js ++ l) ps /\ length ps = number g /\
    map weight ps = map weight (peer g).
Proof.
  revert g l; induction times as [|now times IH]; intros g l Hs Hf Hn HW.
  { exists [], (peer g). cbn. split_and!; [|done..]. by destruct g. }
  destruct (serve_fair W l g next now Hs Hf Hn HW) as (k & p & Hk & Hpos & E).
  cbn [serve_all]. rewrite E.
  assert (Hlen : length (served now W k (peer g)) = number g)
    by (unfold served, number; by rewrite !length_alter, length_map).
  assert (Hwt : map weight (served now W k (peer g)) = map weight (peer g)).
  { apply list_eq. intros i. rewrite !list_lookup_fmap, served_lookup.
    destruct (peer g !! i) as [q|]; [|done]. cbn [fmap option_fmap option_map].
    case_decide; [|done]. f_equal. unfold free_peer. by repeat case_match. }
  destruct (IH {| g with peer := served now W k (peer g) |} (k :: l)) as (js & ps & E2 & Hjs & Hf2 & Hl2 & Hw2);
    [done|by eapply served_fair|by rewrite <- Hlen in Hn|done|].
  rewrite E2. exists (k :: js), ps. cbn [peer number] in *. unfold number in *. cbn [peer] in *.
  split_and!; [done|by cbn; f_equal| |lia|congruence].
  cbn [rev]. by rewrite <- app_assoc.
Qed.

(** C5: when all peers of the first group are up and none has failed, and their
    total weight is [W], then of any [W] requests in a row each peer serves
    exactly as many as its weight, whatever the times of the requests, and the
    current weights are back at 0 for the next [W] requests. *)
Theorem rr_fair (g : rr_peers A) (next : list (rr_peers A)) (times : list Z) :
  let W := sumZ weight (peer g) in
  single g = false -> peer g <> [] ->
  Forall (fun p => healthy p /\ current_weight p = 0) (peer g) ->
  Z.of_nat (number g) * W < 2 ^ 63 -> Z.of_nat (length times) = W ->
  exists js ps, serve_all times (g :: next) =
      (map (pair NGX_OK) js, {| g with peer := ps |} :: next) /\
    Forall (fun p => healthy p /\ current_weight p = 0) ps /\
    forall i p, peer g !! i = Some p -> picks i js = weight p.
Proof.
  intros W Hs Hne Hall Hn Ht. rewrite Forall_lookup in Hall.
  assert (HW : 0 < W).
  { destruct (peer g) as [|p ps] eqn:E; [done|]. subst W.
    pose proof (sumZ_lookup_le weight (p :: ps) 0 0 p) as H.
    destruct (Hall 0%nat p eq_refl) as ((_ & _ & _ & _ & Hp) & _).
    enough (weight p <= sumZ weight (p :: ps) - 0) by lia. apply H; [|done].
    intros k q Hk. destruct (Hall k q Hk) as ((_ & _ & _ & _ & ?) & _). lia. }
  assert (Hf : fair_state W [] (peer g)).
  { split_and!; [done| |].
    - assert (H0 : Forall (fun p => current_weight p = 0) (peer g))
        by (apply Forall_lookup; intros i p Hi; by apply (Hall i)).
      clear -H0. induction H0 as [|p ps Hp _ IH]; [done|]. cbn [sumZ]. lia.
    - intros i p Hi. destruct (Hall i p Hi) as [Hh Hc]. unfold picks. cbn. rewrite Hc. split_and!; [done|lia..]. }
  destruct (serve_all_fair W times [] g next Hs Hf Hn HW) as (js & ps & E & Hjs & (Hw & Hc & Hps) & Hl & Hwt).
  rewrite app_nil_r, length_rev, Hjs, Ht in Hps.
  assert (Hz : forall i p, ps !! i = Some p -> current_weight p = 0).
  { intros i p Hi. eapply sumZ_zero; [|exact Hc|by apply list_elem_of_In, list_elem_of_lookup_2 with i].
    intros q [k Hk]%list_elem_of_In%list_elem_of_lookup. destruct (Hps k q Hk) as (_ & Hlo & Eq).
    rewrite <- Z.mul_sub_distr_l in Eq. rewrite Eq in Hlo |- *.
    assert (-1 < weight q - picks k (rev js)) by (apply (Z.mul_lt_mono_pos_l W); lia).
    apply Z.mul_nonneg_nonneg; lia. }
  exists js, ps. split_and!; [done| |].
  - apply Forall_lookup. intros i p Hi. split; [by apply (Hps i)|by eapply Hz].
  - intros i p Hi. assert (Hi' : map weight ps !! i = Some (weight p)) by (by rewrite Hwt, list_lookup_fmap, Hi).
    rewrite list_lookup_fmap in Hi'. destruct (ps !! i) as [q|] eqn:Eq; [|done]. injection Hi' as <-.
    destruct (Hps i q Eq) as (_ & _ & E3). rewrite (Hz i q Eq) in E3.
    unfold picks in *. rewrite count_occ_rev, <- Z.mul_sub_distr_l in E3.
    symmetry in E3. apply Z.mul_eq_0 in E3. lia.
Qed.
End Fairness.

(** ** Witnesses *)

Definition sample_servers : list (server Z) :=
  [ {| sv_addrs := [101]; sv_weight := 5; sv_max_fails := 1; sv_fail_timeout := 10;
       sv_down := false; sv_backup := false |};
    {| sv_addrs := [102; 103]; sv_weight := 1; sv_max_fails := 1; sv_fail_timeout := 10;
       sv_down := false; sv_backup := false |};
    {| sv_addrs := [104; 105]; sv_weight := 1; sv_max_fails := 1; sv_fail_timeout := 10;
       sv_down := false; sv_backup := true |} ].

Definition sample : list (rr_peers Z) :=
  Eval vm_compute in default [] (ngx_http_upstream_init_round_robin sample_servers).

(** The seven requests of a round of weights 5, 1 and 1 are spread out. *)
Example rr_sequence :
  map snd (serve_all (repeat 1000 7) sample).1 = [0; 0; 1; 0; 2; 0; 0]%nat.
Proof. by vm_compute. Qed.

Definition sample_pc : peer_connection Z :=
  {| tries := 3; pc_name := None; pc_cached := false; pc_connection := None |}.

Lemma rr_get_outcome_witness :
  let '(rc, u', rrp', pc') := ngx_http_upstream_get_round_robin_peer 1000 sample
    {| rr_level := 0; current := 0; tried := [1] |} sample_pc in
  (rc = NGX_OK /\ exists k i p, got 1000 sample [1] k i p /\
     rr_level rrp' = (0 + k)%nat /\ current rrp' = i /\ pc_name pc' = Some (rp_addr p)) \/
  (rc = NGX_BUSY /\ all_down 1000 sample [1] /\
     Forall (fun g => Forall (fun p => fails p = 0) (peer g)) (drop 0 u')).
Proof.
  apply (rr_get_outcome 1000 sample {| rr_level := 0; current := 0; tried := [1] |} sample_pc).
  by repeat constructor.
Defined.

Lemma rr_invariant_witness : exists u', rr_step sample u' /\ Forall group_ok u' /\ conf u' = conf sample.
Proof.
  destruct (ngx_http_upstream_get_round_robin_peer 1000 sample
    {| rr_level := 0; current := 0; tried := [1] |} sample_pc) as [[[rc u'] rrp'] pc'] eqn:E.
  exists u'. assert (Hs : rr_step sample u') by (by eapply step_get). split; [done|].
  apply (rr_invariant sample_servers sample u').
  - repeat constructor; cbn; lia.
  - reflexivity.
  - by eapply rtc_l, rtc_refl.
Defined.

Lemma rr_attempts_distinct_witness :
  exists i j rrp, attempts (A:=Z) (map number sample) (ngx_http_upstream_init_round_robin_peer sample).1
      [(0%nat, i); (0%nat, j)] rrp /\ NoDup [(0%nat, i); (0%nat, j)].
Proof.
  exists 1%nat, 0%nat, {| rr_level := 0; current := 1; tried := [3] |}.
  assert (H : attempts (A:=Z) (map number sample) (ngx_http_upstream_init_round_robin_peer sample).1
      [(0%nat, 1%nat); (0%nat, 0%nat)] {| rr_level := 0; current := 1; tried := [3] |}).
  { eapply (attempt _ _ _ {| rr_level := 0; current := 0; tried := [1] |} 1000 sample sample_pc _
      {| rr_level := 0; current := 1; tried := [3] |} _);
      [|done|by repeat constructor|reflexivity].
    eapply (attempt _ _ _ {| rr_level := 0; current := 0; tried := [0] |} 1000 sample sample_pc _
      {| rr_level := 0; current := 0; tried := [1] |} _);
      [constructor|done|by repeat constructor|reflexivity]. }
  split; [done|]. apply (rr_attempts_distinct sample _ _ ltac:(cbn; lia) H).
Defined.

Lemma rr_fair_witness :
  exists g next js ps, sample = g :: next /\
    serve_all (repeat 1000 7) (g :: next) = (map (pair NGX_OK) js, {| g with peer := ps |} :: next) /\
    Forall (fun p => healthy p /\ current_weight p = 0) ps /\
    forall i p, peer g !! i = Some p -> picks i js = weight p.
Proof.
  eexists _, _. destruct (rr_fair (nth 0 sample {| single := false; weighted := false; total_weight := 0; peer := [] |})
    (drop 1 sample) (repeat 1000 7)) as (js & ps & H).
  - done.
  - done.
  - repeat constructor; cbn; lia.
  - done.
  - done.
  - exists js, ps. split; [reflexivity|exact H].
Defined.
