(* ===== verification/UpstreamLeastConn.v ===== *)
(** * The balancer by the number of connections

    src/nginx-1.4.7/src/http/modules/ngx_http_upstream_least_conn_module.c, over
    the round-robin balancer of [UpstreamRoundRobin]: a request gets the available
    peer with the fewest connections for its weight, and the smooth weighted choice
    decides between equal ones.

    The counters of connections are one array for all groups, shared by the
    requests; [lcp_conns] is the position in it of the group of a request. *)
From stdpp Require Import gmap relations.
From S2P Require Import Prelude UpstreamRoundRobin.

Section LeastConn.
Context {A : Type}.
Implicit Types (ps : list (rr_peer A)) (q : rr_peer A) (g : rr_peers A) (u : list (rr_peers A)) (cs : list Z).

(** ** Definitions *)

(** [http/modules/ngx_http_upstream_least_conn_module.c:18-26] ngx_http_upstream_lc_peer_data_t *)
Record lc_peer_data : Type := { lcp_rrp : rr_peer_data; lcp_conns : nat }.

(** The groups and the counters of an upstream; [None] is [NGX_ERROR].
    [http/modules/ngx_http_upstream_least_conn_module.c:84-118] ngx_http_upstream_init_least_conn *)
Definition ngx_http_upstream_init_least_conn (servers : list (server A)) : option (list (rr_peers A) * list Z) :=
  u ← ngx_http_upstream_init_round_robin servers;
  let n := match u with
           | [] => 0%nat
           | [g] => number g
           | g :: next :: _ => (number g + number next)%nat
           end in
  Some (u, repeat 0 n).

(** With the number of tries of the connection.
    [http/modules/ngx_http_upstream_least_conn_module.c:121-154] ngx_http_upstream_init_least_conn_peer *)
Definition ngx_http_upstream_init_least_conn_peer u : lc_peer_data * Z :=
  let '(rrp, tries) := ngx_http_upstream_init_round_robin_peer u in
  ({| lcp_rrp := rrp; lcp_conns := 0 |}, tries).

(** The first loop: the position and the weight of the best peer, and whether there
    are more with the same load; [cs] are the counters of the group.
    [http/modules/ngx_http_upstream_least_conn_module.c:191-231] for (i = 0; i < peers->number; i++) *)
Fixpoint least_loop (tried : list Z) (now : Z) cs (i : nat) ps (best : option (nat * Z)) (many : bool) : option (nat * Z) * bool :=
  match ps with
  | [] => (best, many)
  | q :: ps =>
      if available tried now i q then
        match best with
        | None => least_loop tried now cs (S i) ps (Some (i, weight q)) false
        | Some (p, w) =>
            let a := u64 (nth i cs 0 * w) in
            let b := u64 (nth p cs 0 * weight q) in
            if a <? b then least_loop tried now cs (S i) ps (Some (i, weight q)) false
            else least_loop tried now cs (S i) ps best ((a =? b) || many)
        end
      else least_loop tried now cs (S i) ps best many
  end.

(** The second loop, from the best peer on: the changed peers, the best one of equal
    load and the sum of the effective weights.  [w] is the weight of the best peer
    [p] so far and [cw] its current weight.
    [http/modules/ngx_http_upstream_least_conn_module.c:244-281] for (i = p; i < peers->number; i++) *)
Fixpoint many_loop (tried : list Z) (now : Z) cs (i : nat) ps (p : nat) (w cw total : Z) : list (rr_peer A) * nat * Z :=
  match ps with
  | [] => ([], p, total)
  | q :: ps =>
      if available tried now i q && (u64 (nth i cs 0 * w) =? u64 (nth p cs 0 * weight q)) then
        let q' := gain q in
        let total := s64 (total + effective_weight q) in
        let cw := if (i =? p)%nat then current_weight q' else cw in
        let '(out, p, total) :=
          if cw <? current_weight q' then many_loop tried now cs (S i) ps i (weight q) (current_weight q') total
          else many_loop tried now cs (S i) ps p w cw total in
        (q' :: out, p, total)
      else
        let '(out, p, total) := many_loop tried now cs (S i) ps p w cw total in
        (q :: out, p, total)
  end.

(** The choice inside of one group of several peers; [None] is [goto failed].
    [http/modules/ngx_http_upstream_least_conn_module.c:184-306] best *)
Definition least_choose (tried : list Z) (now : Z) cs ps : option (nat * list (rr_peer A)) :=
  match least_loop tried now cs 0 ps None false with
  | (None, _) => None
  | (Some (p, w), many) =>
      let '(ps, p, total) :=
        if many then
          let '(out, p', total) := many_loop tried now cs p (drop p ps) p w (from_option current_weight 0 (ps !! p)) 0 in
          (take p ps ++ out, p', total)
        else (ps, p, 0) in
      Some (p, alter (pay now total) p ps)
  end.

(** [u] is the list of groups from that of the request on.
    [http/modules/ngx_http_upstream_least_conn_module.c:157-342] ngx_http_upstream_get_least_conn_peer *)
Fixpoint lc_get (now : Z) u (conns : list Z) (lcp : lc_peer_data) (pc : peer_connection A)
    : Z * list (rr_peers A) * list Z * lc_peer_data * peer_connection A :=
  match u with
  | [] => (NGX_BUSY, [], conns, lcp, pc)
  | g :: next =>
      let rrp := lcp_rrp lcp in
      if single g then
        let '(rc, u, rrp, pc) := rr_get now u rrp pc in (rc, u, conns, {| lcp with lcp_rrp := rrp |}, pc)
      else
        let pc := {| pc with pc_cached := false; pc_connection := None |} in
        match least_choose (tried rrp) now (drop (lcp_conns lcp) conns) (peer g) with
        | Some (p, ps) =>
            (NGX_OK, {| g with peer := ps |} :: next, alter (fun c => u64 (c + 1)) (lcp_conns lcp + p)%nat conns,
             {| lcp with lcp_rrp := {| rrp with current := p; tried := mark_tried (tried rrp) p |} |},
             {| pc with pc_name := option_map rp_addr (ps !! p);
                        tries := match next with
                                 | b :: _ => if tries pc =? 1 then tries pc + Z.of_nat (number b) else tries pc
                                 | [] => tries pc
                                 end |})
        | None =>
            let '(rc, next, conns, lcp, pc) :=
              match next with
              | b :: _ =>
                  lc_get now next conns
                    {| lcp_rrp := {| rrp with rr_level := S (rr_level rrp); tried := clear_tried (number b) (tried rrp) |};
                       lcp_conns := lcp_conns lcp + number g |}
                    {| pc with tries := Z.of_nat (number b) |}
              | [] => (NGX_BUSY, next, conns, lcp, pc)
              end in
            if rc =? NGX_BUSY then (NGX_BUSY, rr_revive g :: next, conns, lcp, {| pc with pc_name := None |})
            else (rc, g :: next, conns, lcp, pc)
        end
  end.

(** [http/modules/ngx_http_upstream_least_conn_module.c:157-342] ngx_http_upstream_get_least_conn_peer *)
Definition ngx_http_upstream_get_least_conn_peer (now : Z) u (conns : list Z) (lcp : lc_peer_data) (pc : peer_connection A)
    : Z * list (rr_peers A) * list Z * lc_peer_data * peer_connection A :=
  let lv := rr_level (lcp_rrp lcp) in
  let '(rc, u', conns, lcp, pc) := lc_get now (drop lv u) conns lcp pc in
  (rc, take lv u ++ u', conns, lcp, pc).

(** [http/modules/ngx_http_upstream_least_conn_module.c:345-362] ngx_http_upstream_free_least_conn_peer *)
Definition ngx_http_upstream_free_least_conn_peer (now : Z) u (conns : list Z) (lcp : lc_peer_data) (pc : peer_connection A) (state : Z)
    : list (rr_peers A) * list Z * peer_connection A :=
  let rrp := lcp_rrp lcp in
  let conns := if from_option single false (u !! rr_level rrp) then conns
               else alter (fun c => u64 (c - 1)) (lcp_conns lcp + current rrp)%nat conns in
  let '(u, pc) := ngx_http_upstream_free_round_robin_peer now u rrp pc state in
  (u, conns, pc).

(** ** The choice in a group *)

Section Load.
Context (tried : list Z) (now : Z) (cs : list Z) (N W : Z).

Definition count (i : nat) : Z := nth i cs 0.

(** Counters and weights whose products fit into a word. *)
Context (HNW : N * W < 2 ^ 64) (Hcs : Forall (fun c => 0 <= c <= N) cs) (HN : 0 <= N).

Lemma count_bound i : 0 <= count i <= N.
Proof using Hcs HN. unfold count. rewrite nth_lookup. destruct (cs !! i) as [c|] eqn:E; cbn; [|lia]. rewrite Forall_lookup in Hcs. by eapply Hcs. Qed.

Lemma load_small i w : 0 < w <= W -> u64 (nth i cs 0 * w) = count i * w.
Proof using HNW Hcs HN. intros Hw. pose proof (count_bound i). fold (count i). apply u64_small. nia. Qed.

Lemma lighter_trans i wi j wj k wk : 0 < wi -> 0 < wj -> 0 < wk -> count i * wj <= count j * wi -> count j * wk <= count k * wj -> count i * wk <= count k * wi.
Proof. intros Hi Hj Hk H1 H2. apply (Z.mul_le_mono_pos_r _ _ wj); [done|]. nia. Qed.

(** The available peers with their positions, of which the best one is searched. *)
Definition candidate (i : nat) ps (j : nat) (w : Z) : Prop := exists k q, j = (i + k)%nat /\ ps !! k = Some q /\ available tried now j q = true /\ w = weight q.

Lemma candidate_cons i q ps j w : candidate i (q :: ps) j w <-> (j = i /\ available tried now i q = true /\ w = weight q) \/ candidate (S i) ps j w.
Proof.
  split.
  - intros ([|k] & q' & -> & Hk & Ha & ->); [left; injection Hk as <-; by rewrite Nat.add_0_r in *|]. right. exists k, q'. by replace (i + S k)%nat with (S i + k)%nat in * by lia.
  - intros [(-> & Ha & ->)|(k & q' & -> & Hk & Ha & ->)]; [exists 0%nat, q; by rewrite Nat.add_0_r|]. exists (S k), q'. by replace (i + S k)%nat with (S i + k)%nat by lia.
Qed.

Lemma candidate_after i ps j w : candidate i ps j w -> (i <= j)%nat.
Proof. intros (k & q & -> & _). lia. Qed.

Lemma candidate_weight i ps j w : Forall (fun q => 0 < weight q <= W) ps -> candidate i ps j w -> 0 < w <= W.
Proof. intros Hw (k & q & _ & Hk & _ & ->). rewrite Forall_lookup in Hw. by eapply Hw. Qed.

(** The first one of the least load, and whether it is the only one. *)
Definition least (P : nat -> Z -> Prop) (p : nat) (w : Z) (many : bool) : Prop :=
  P p w /\ forall j v, P j v -> count p * v <= count j * w /\ (count p * v = count j * w -> (p <= j)%nat /\ (many = false -> j = p)).

Lemma least_ext (P Q : nat -> Z -> Prop) p w many : (forall j v, P j v <-> Q j v) -> least P p w many -> least Q p w many.
Proof. intros H [H1 H2]. split; [by apply H|]. intros j v Hq. by apply H2, H. Qed.

Lemma least_loop_some i ps (P : nat -> Z -> Prop) p w many :
  Forall (fun q => 0 < weight q <= W) ps -> (forall j v, P j v -> (j < i)%nat /\ 0 < v <= W) -> least P p w many ->
  exists p' w' many', least_loop tried now cs i ps (Some (p, w)) many = (Some (p', w'), many') /\ least (fun j v => P j v \/ candidate i ps j v) p' w' many'.
Proof using HNW Hcs HN.
  intros Hps. revert i P p w many; induction Hps as [|q ps Hq Hps IH]; intros i P p w many HP Hl; cbn [least_loop].
  { exists p, w, many. split; [done|]. eapply least_ext; [|exact Hl]. intros j v. split; [by left|]. intros [?|(k & q & _ & Hk & _)]; done. }
  assert (Hext : forall Q : nat -> Z -> Prop, (forall j v, Q j v <-> P j v \/ (j = i /\ available tried now i q = true /\ v = weight q)) ->
    forall j v, (Q j v \/ candidate (S i) ps j v) <-> (P j v \/ candidate i (q :: ps) j v)) by (intros Q HQ j v; rewrite candidate_cons, HQ; tauto).
  destruct (available tried now i q) eqn:Ha.
  2: { destruct (IH (S i) P p w many) as (p' & w' & many' & -> & Hl'); [intros j v Hj; destruct (HP j v Hj); lia|done|]. exists p', w', many'. split; [done|]. eapply least_ext; [|exact Hl']. apply Hext. intros j v. split; [by left|]. by intros [?|(_ & ? & _)]. }
  set (Q := fun (j : nat) v => P j v \/ (j = i /\ v = weight q)). assert (HQ : forall j v, Q j v -> (j < S i)%nat /\ 0 < v <= W) by (intros j v [Hj|[-> ->]]; [destruct (HP j v Hj)|]; lia).
  assert (HQext : forall j v, Q j v <-> P j v \/ (j = i /\ true = true /\ v = weight q)) by (unfold Q; tauto).
  destruct Hl as [Hp Hl]. destruct (HP _ _ Hp) as [Hpi Hw]. rewrite !load_small by done.
  destruct (Z.ltb_spec (count i * w) (count p * weight q)) as [Hlt|Hge].
  - destruct (IH (S i) Q i (weight q) false HQ) as (p' & w' & many' & -> & Hl').
    + split; [by right|]. intros j v [Hj|[-> ->]]; [|split; [lia|done]]. destruct (Hl j v Hj) as [Hle _]. destruct (HP _ _ Hj). 
      assert (count i * v < count j * weight q) by (apply (Z.mul_lt_mono_pos_r w); nia). split; [lia|]. lia.
    + exists p', w', many'. split; [done|]. eapply least_ext; [|exact Hl']. by apply Hext.
  - destruct (IH (S i) Q p w ((count i * w =? count p * weight q) || many) HQ) as (p' & w' & many' & -> & Hl').
    + split; [by left|]. intros j v [Hj|[-> ->]].
      * destruct (Hl j v Hj) as [Hle Htie]. split; [done|]. intros Ht. destruct (Htie Ht) as [? Hm]. split; [done|]. intros [_ Hm']%orb_false_iff. auto.
      * split; [lia|]. intros Ht. split; [lia|]. intros [Hm _]%orb_false_iff. apply Z.eqb_neq in Hm. lia.
    + exists p', w', many'. split; [done|]. eapply least_ext; [|exact Hl']. by apply Hext.
Qed.

Lemma least_loop_none i ps many : Forall (fun q => 0 < weight q <= W) ps ->
  match least_loop tried now cs i ps None many with
  | (None, _) => forall j v, ~ candidate i ps j v
  | (Some (p, w), many') => least (candidate i ps) p w many'
  end.
Proof using HNW Hcs HN.
  intros Hps. revert i; induction Hps as [|q ps Hq Hps IH]; intros i; cbn [least_loop]; [by intros j v (k & q & _ & Hk & _)|].
  destruct (available tried now i q) eqn:Ha.
  - destruct (least_loop_some (S i) ps (fun j v => j = i /\ v = weight q) i (weight q) false Hps ltac:(intros j v [-> ->]; lia)) as (p & w & many' & -> & Hl).
    { split; [done|]. intros j v [-> ->]. split; [lia|done]. }
    eapply least_ext; [|exact Hl]. intros j v. rewrite candidate_cons, Ha. tauto.
  - specialize (IH (S i)). destruct (least_loop _ _ _ _ _ _ _) as [[[p w]|] many'].
    + eapply least_ext; [|exact IH]. intros j v. rewrite candidate_cons, Ha. split; [by right|]. by intros [(_ & ? & _)|?].
    + intros j v [(_ & ? & _)|Hc]%candidate_cons; [by rewrite Ha in *|]. by eapply IH.
Qed.

Lemma same_load i wi p w j v : 0 < wi -> 0 < w -> count i * w = count p * wi -> count j * wi = count i * v <-> count j * w = count p * v.
Proof.
  intros Hi Hw E. split; intros H.
  - apply (Z.mul_reg_l _ _ wi); [lia|]. transitivity (count i * v * w); [rewrite <- H; ring|]. transitivity (count i * w * v); [ring|]. rewrite E. ring.
  - apply (Z.mul_reg_l _ _ w); [lia|]. transitivity (count p * v * wi); [rewrite <- H; ring|]. transitivity (count p * wi * v); [ring|]. rewrite <- E. ring.
Qed.

Definition gain_same (p : nat) (w : Z) (i : nat) q : rr_peer A := if available tried now i q && (count i * w =? count p * weight q) then gain q else q.

Lemma gain_same_conf p w i ps : map peer_conf (imap (fun k => gain_same p w (i + k)) ps) = map peer_conf ps.
Proof. apply list_eq. intros k. rewrite !list_lookup_fmap, list_lookup_imap. destruct (ps !! k); [|done]. cbn. unfold gain_same. by case_match. Qed.

(** The loop gives the peers of the least load their weights and finds the one with the most. *)
Lemma many_loop_ok i ps (p : nat) w cw total : Forall (fun q => 0 < weight q <= W) ps -> (p < i)%nat -> 0 < w <= W ->
  let '(out, p', _) := many_loop tried now cs i ps p w cw total in
  out = imap (fun k => gain_same p w (i + k)) ps /\
  exists cw', ((p', cw') = (p, cw) \/ exists k q, p' = (i + k)%nat /\ ps !! k = Some q /\ available tried now p' q = true /\ count p' * w = count p * weight q /\ cw' = current_weight (gain q)) /\
    cw <= cw' /\ forall k q, ps !! k = Some q -> available tried now (i + k) q = true -> count (i + k) * w = count p * weight q -> current_weight (gain q) <= cw'.
Proof using HNW Hcs HN.
  intros Hps. revert i p w cw total; induction Hps as [|q ps Hq Hps IH]; intros i p w cw total Hpi Hw; cbn [many_loop].
  { split; [done|]. exists cw. split_and!; [by left|lia|done]. }
  rewrite !load_small by done. rewrite (proj2 (Nat.eqb_neq i p)) by lia. cbn [imap]. rewrite Nat.add_0_r. unfold gain_same at 1.
  assert (Hf : forall p w, imap ((fun k => gain_same p w (i + k)) ∘ S) ps = imap (fun k => gain_same p w (S i + k)) ps) by (intros p0 w0; apply imap_ext; intros k x _; cbn; by rewrite Nat.add_succ_r).
  rewrite Hf. destruct (available tried now i q) eqn:Ha; cbn [andb]; [destruct (Z.eqb_spec (count i * w) (count p * weight q)) as [E|E]|].
  - destruct (Z.ltb_spec cw (current_weight (gain q))) as [Hlt|Hge].
    + pose proof (IH (S i) i (weight q) (current_weight (gain q)) (s64 (total + effective_weight q)) ltac:(lia) Hq) as H. destruct (many_loop _ _ _ _ _ _ _ _ _) as [[out p'] tot]. destruct H as (-> & cw' & Hor & Hle & Hall).
      assert (Hs : forall j v, count j * weight q = count i * v <-> count j * w = count p * v) by (intros j v; apply same_load; done || lia). split.
      * f_equal. apply imap_ext. intros k x _. unfold gain_same. destruct (available tried now (S i + k) x); cbn [andb]; [|done]. specialize (Hs (S i + k)%nat (weight x)).
        destruct (Z.eqb_spec (count (S i + k) * weight q) (count i * weight x)), (Z.eqb_spec (count (S i + k) * w) (count p * weight x)); tauto.
      * exists cw'. split_and!; [|lia|].
        -- right. destruct Hor as [[= -> ->]|(k & x & -> & Hk & Hx & Et & ->)]; [exists 0%nat, q; by rewrite Nat.add_0_r|]. exists (S k), x. replace (i + S k)%nat with (S i + k)%nat by lia. split_and!; [done|done|done|by apply Hs|done].
        -- intros [|k] x Hk Hx Et; [injection Hk as <-; lia|]. replace (i + S k)%nat with (S i + k)%nat in * by lia. apply (Hall k x Hk Hx). by apply Hs.
    + pose proof (IH (S i) p w cw (s64 (total + effective_weight q)) ltac:(lia) Hw) as H. destruct (many_loop _ _ _ _ _ _ _ _ _) as [[out p'] tot]. destruct H as (-> & cw' & Hor & Hle & Hall). split; [done|]. exists cw'. split_and!; [|lia|].
      * destruct Hor as [?|(k & x & -> & Hk & Hx)]; [by left|]. right. exists (S k), x. by replace (i + S k)%nat with (S i + k)%nat by lia.
      * intros [|k] x Hk Hx Et; [injection Hk as <-; lia|]. replace (i + S k)%nat with (S i + k)%nat in * by lia. by apply (Hall k x Hk Hx).
  - pose proof (IH (S i) p w cw total ltac:(lia) Hw) as H. destruct (many_loop _ _ _ _ _ _ _ _ _) as [[out p'] tot]. destruct H as (-> & cw' & Hor & Hle & Hall). split; [done|]. exists cw'. split_and!; [|lia|].
    + destruct Hor as [?|(k & x & -> & Hk & Hx)]; [by left|]. right. exists (S k), x. by replace (i + S k)%nat with (S i + k)%nat by lia.
    + intros [|k] x Hk Hx Et; [injection Hk as <-; rewrite Nat.add_0_r in *; done|]. replace (i + S k)%nat with (S i + k)%nat in * by lia. by apply (Hall k x Hk Hx).
  - pose proof (IH (S i) p w cw total ltac:(lia) Hw) as H. destruct (many_loop _ _ _ _ _ _ _ _ _) as [[out p'] tot]. destruct H as (-> & cw' & Hor & Hle & Hall). split; [done|]. exists cw'. split_and!; [|lia|].
    + destruct Hor as [?|(k & x & -> & Hk & Hx)]; [by left|]. right. exists (S k), x. by replace (i + S k)%nat with (S i + k)%nat by lia.
    + intros [|k] x Hk Hx Et; [injection Hk as <-; rewrite Nat.add_0_r in *; congruence|]. replace (i + S k)%nat with (S i + k)%nat in * by lia. by apply (Hall k x Hk Hx).
Qed.

(** The specification of the choice in a group: an available peer of the least load, and of the greatest gained weight among these. *)
Definition lightest ps (i : nat) q : Prop :=
  ps !! i = Some q /\ available tried now i q = true /\
  forall j x, ps !! j = Some x -> available tried now j x = true ->
    count i * weight x <= count j * weight q /\ (count i * weight x = count j * weight q -> current_weight (gain x) <= current_weight (gain q)).

Lemma least_choose_ok ps : Forall (fun q => 0 < weight q <= W) ps ->
  match least_choose tried now cs ps with
  | None => forall i q, ps !! i = Some q -> available tried now i q = false
  | Some (p, ps') => map peer_conf ps' = map peer_conf ps /\ exists q, lightest ps p q
  end.
Proof using HNW Hcs HN.
  intros Hps. unfold least_choose. pose proof (least_loop_none 0 ps false Hps) as Hl. destruct (least_loop _ _ _ _ _ _ _) as [[[p w]|] many].
  2: { intros i q Hi. destruct (available tried now i q) eqn:Ha; [|done]. destruct (Hl i (weight q)). by exists i, q. }
  destruct Hl as [(k & q & Ep & Hk & Ha & ->) Hl]. cbn in Ep. subst k. assert (Hq : 0 < weight q <= W) by (rewrite Forall_lookup in Hps; by eapply Hps).
  assert (Hle : forall j x, ps !! j = Some x -> available tried now j x = true -> count p * weight x <= count j * weight q /\ (count p * weight x = count j * weight q -> (p <= j)%nat /\ (many = false -> j = p))) by (intros j x Hj Hx; apply Hl; by exists j, x).
  assert (Hpay : forall t j (l : list (rr_peer A)), map peer_conf (alter (pay now t) j l) = map peer_conf l).
  { intros t j l. apply list_eq. intros i. rewrite !list_lookup_fmap. destruct (decide (i = j)) as [->|]; [|by rewrite list_lookup_alter_ne by done]. rewrite list_lookup_alter_eq. by destruct (l !! j). }
  destruct many.
  2: { rewrite Hpay. split; [done|]. exists q. split_and!; [done|done|]. intros j x Hj Hx. destruct (Hle j x Hj Hx) as [H1 H2]. split; [done|]. intros Et. destruct (H2 Et) as [_ Hj']. rewrite (Hj' eq_refl), Hk in Hj. by injection Hj as <-. }
  rewrite Hk. cbn [from_option]. erewrite (drop_S ps) by exact Hk. cbn [many_loop]. rewrite !load_small by done. rewrite Ha, Z.eqb_refl, Nat.eqb_refl, Z.ltb_irrefl. cbn [andb].
  pose proof (many_loop_ok (S p) (drop (S p) ps) p (weight q) (current_weight (gain q)) (s64 (0 + effective_weight q)) ltac:(by apply Forall_drop) ltac:(lia) Hq) as H.
  destruct (many_loop _ _ _ _ _ _ _ _ _) as [[out p'] tot]. destruct H as (-> & cw' & Hor & Hcw & Hall). rewrite Hpay. split.
  { rewrite map_app. cbn [map]. rewrite gain_same_conf, <- map_cons, (map_cons peer_conf (gain q)). change (peer_conf (gain q)) with (peer_conf q). rewrite <- map_cons, <- map_app, <- (drop_S ps q p Hk). by rewrite take_drop. }
  assert (Hlook : forall j x, (p < j)%nat -> ps !! j = Some x -> drop (S p) ps !! (j - S p)%nat = Some x) by (intros j x Hj Hx; rewrite lookup_drop; by replace (S p + (j - S p))%nat with j by lia).
  assert (Hmax : forall j x, ps !! j = Some x -> available tried now j x = true -> count p * weight x = count j * weight q -> current_weight (gain x) <= cw').
  { intros j x Hj Hx Et. destruct (decide (j = p)) as [->|Hne]; [rewrite Hk in Hj; injection Hj as <-; lia|]. destruct (Hle j x Hj Hx) as [_ H2]. destruct (H2 Et) as [Hpj _].
    apply (Hall (j - S p)%nat x); [apply Hlook; [lia|done]|by replace (S p + (j - S p))%nat with j by lia|replace (S p + (j - S p))%nat with j by lia; lia]. }
  destruct Hor as [[= -> ->]|(k & y & -> & Hy & Hya & Et & ->)].
  - exists q. split_and!; [done|done|]. intros j x Hj Hx. split; [by apply Hle|]. by apply Hmax.
  - rewrite lookup_drop in Hy. exists y. split_and!; [done|done|]. intros j x Hj Hx. assert (0 < weight y <= W) by (rewrite Forall_lookup in Hps; by eapply Hps). assert (0 < weight x <= W) by (rewrite Forall_lookup in Hps; by eapply Hps).
    destruct (Hle j x Hj Hx) as [H1 _]. split.
    + apply (Z.mul_le_mono_pos_r _ _ (weight q)); nia.
    + intros E. apply (Hmax j x Hj Hx). apply (Z.mul_reg_l _ _ (weight y)); nia.
Qed.
End Load.

(** ** The choice over all groups *)

Definition offset u (k : nat) : nat := sum_list (map number (take k u)).

(** As [got] of the round robin, by load: the first group with an available peer is
    the [k]-th, and [q] is its lightest one. *)
Inductive lc_got (now : Z) : list (rr_peers A) -> list Z -> list Z -> nat -> nat -> rr_peer A -> Prop :=
| lc_got_here g next cs t i q : lightest t now cs (peer g) i q -> lc_got now (g :: next) cs t 0 i q
| lc_got_next g next cs t k i q : none_available t now g -> lc_got now next (drop (number g) cs) [] k i q -> lc_got now (g :: next) cs t (S k) i q.

Lemma lightest_clear t now cs g i q : lightest (clear_tried (number g) t) now cs (peer g) i q -> lightest [] now cs (peer g) i q.
Proof.
  intros (Hi & Ha & Hl). rewrite available_clear in Ha by done. split_and!; [done|done|]. intros j x Hj Hx. apply Hl; [done|]. by rewrite available_clear.
Qed.

Lemma lc_got_clear now g next cs t k i q : lc_got now (g :: next) cs (clear_tried (number g) t) k i q -> lc_got now (g :: next) cs [] k i q.
Proof.
  inversion 1 as [?????? Hl|??????? Hnone]; subst; [constructor; by eapply lightest_clear|]. constructor; [|done]. intros j x Hj. rewrite <- (available_clear t now g) by done. by apply Hnone.
Qed.

Lemma conf_number u u' : conf u' = conf u -> map number u' = map number u.
Proof.
  revert u'; induction u as [|g u IH]; intros [|g' u']; [done..|]. unfold conf. cbn. intros [= _ Hg Hu]. f_equal; [|by apply IH]. apply (f_equal length) in Hg. by rewrite !length_map in Hg.
Qed.

Lemma conf_offset u u' k : conf u' = conf u -> offset u' k = offset u k.
Proof. intros H%conf_number. unfold offset. rewrite <- !firstn_map. by rewrite H. Qed.

Section Get.
Context (N W : Z) (HNW : N * W < 2 ^ 64) (HN : 0 <= N).

Definition weights_ok u : Prop := Forall (fun g => single g = false /\ Forall (fun q => 0 < weight q <= W) (peer g)) u.

Lemma lc_get_spec now u conns lcp pc : weights_ok u -> Forall (fun c => 0 <= c <= N) conns ->
  let '(rc, u', conns', lcp', pc') := lc_get now u conns lcp pc in
  conf u' = conf u /\ length (tried (lcp_rrp lcp')) = length (tried (lcp_rrp lcp)) /\
  exists k, rr_level (lcp_rrp lcp') = (rr_level (lcp_rrp lcp) + k)%nat /\ lcp_conns lcp' = (lcp_conns lcp + offset u k)%nat /\ (k < length u \/ u = [])%nat /\
  ((rc = NGX_OK /\ exists q, lc_got now u (drop (lcp_conns lcp) conns) (tried (lcp_rrp lcp)) k (current (lcp_rrp lcp')) q /\ pc_name pc' = Some (rp_addr q) /\
      conns' = alter (fun c => u64 (c + 1)) (lcp_conns lcp' + current (lcp_rrp lcp'))%nat conns) \/
   (rc = NGX_BUSY /\ all_down now u (tried (lcp_rrp lcp)) /\ conns' = conns)).
Proof using HNW HN.
  intros Hu Hc. revert lcp pc; induction Hu as [|g next [Hs Hw] Hu IH]; intros lcp pc; cbn [lc_get].
  { split_and!; [done|done|]. exists 0%nat. unfold offset. cbn. rewrite !Nat.add_0_r. split_and!; [done|done|by right|by right]. }
  rewrite Hs. pose proof (least_choose_ok (tried (lcp_rrp lcp)) now (drop (lcp_conns lcp) conns) N W HNW ltac:(by apply Forall_drop) HN (peer g) Hw) as Hch.
  destruct (least_choose _ _ _ _) as [[p ps]|].
  - destruct Hch as [Hconf (q & Hq)]. split_and!; [unfold conf; cbn [map single peer]; by rewrite Hconf, Hs|apply mark_tried_length|]. exists 0%nat. unfold offset. cbn. rewrite !Nat.add_0_r. split_and!; [done|done|left; lia|].
    left. split; [done|]. exists q. split_and!; [by constructor| |done]. apply (f_equal (fun l => l !! p)) in Hconf. rewrite !list_lookup_fmap in Hconf. destruct Hq as [Hp _]. rewrite Hp in Hconf.
    destruct (ps !! p) as [q'|]; [|done]. cbn in *. injection Hconf as Haddr _. by rewrite Haddr.
  - destruct next as [|b next].
    { cbn. split_and!; [unfold conf; cbn [map rr_revive single peer]; by rewrite map_map|done|]. exists 0%nat. unfold offset. cbn. rewrite !Nat.add_0_r. split_and!; [done|done|left; lia|]. right. by split_and!. }
    specialize (IH {| lcp_rrp := {| (lcp_rrp lcp) with rr_level := S (rr_level (lcp_rrp lcp)); tried := clear_tried (number b) (tried (lcp_rrp lcp)) |}; lcp_conns := lcp_conns lcp + number g |}
      {| pc with pc_cached := false; pc_connection := None; tries := Z.of_nat (number b) |}).
    destruct (lc_get now (b :: next) _ _ _) as [[[[rc u'] conns'] lcp'] pc']. cbn [lcp_rrp lcp_conns rr_level tried] in IH. rewrite clear_tried_length in IH.
    destruct IH as (Hconf & Hlen & k & Hlv & Hoff & Hk & H). destruct Hk as [Hk|?]; [|done].
    assert (Hoff' : lcp_conns lcp' = (lcp_conns lcp + offset (g :: b :: next) (S k))%nat) by (revert Hoff; unfold offset; cbn; lia).
    destruct H as [(-> & q & Hgot & Hname & Hcs)|(-> & Hdown & ->)].
    + change (NGX_OK =? NGX_BUSY) with false. cbv iota. split_and!; [unfold conf in *; rewrite !(map_cons _ g); by rewrite Hconf|done|]. exists (S k). split_and!; [lia|done|left; cbn in *; lia|]. left. split; [done|]. exists q. split_and!; [|done|done].
      constructor; [done|]. rewrite drop_drop. by eapply lc_got_clear.
    + change (NGX_BUSY =? NGX_BUSY) with true. cbv iota. split_and!; [unfold conf in *; rewrite (map_cons _ g), (map_cons _ (rr_revive g)), Hconf; unfold rr_revive; cbn [single peer]; by rewrite map_map|done|]. exists (S k). split_and!; [lia|done|left; cbn in *; lia|]. right. split_and!; [done|split; [done|by eapply all_down_clear]|done].
Qed.

(** ** All requests *)

(** A request that asks an upstream for peers; [rq_held] says that it has one. *)
Record up_request : Type := { rq_lcp : lc_peer_data; rq_pc : peer_connection A; rq_held : bool }.

Record lc_state : Type := { st_groups : list (rr_peers A); st_conns : list Z; st_reqs : list up_request }.

(** Requests begin, as long as there are less than [N], ask for a peer when they have
    none, give it back and end without one, in any order and at any time. *)
Inductive lc_step : lc_state -> lc_state -> Prop :=
| lc_start u conns rs pc lcp n :
    Z.of_nat (length rs) < N -> ngx_http_upstream_init_least_conn_peer u = (lcp, n) ->
    lc_step {| st_groups := u; st_conns := conns; st_reqs := rs |}
            {| st_groups := u; st_conns := conns; st_reqs := {| rq_lcp := lcp; rq_pc := {| pc with tries := n |}; rq_held := false |} :: rs |}
| lc_ask u conns l1 r l2 now rc u' conns' lcp' pc' :
    rq_held r = false -> ngx_http_upstream_get_least_conn_peer now u conns (rq_lcp r) (rq_pc r) = (rc, u', conns', lcp', pc') ->
    lc_step {| st_groups := u; st_conns := conns; st_reqs := l1 ++ r :: l2 |}
            {| st_groups := u'; st_conns := conns'; st_reqs := l1 ++ {| rq_lcp := lcp'; rq_pc := pc'; rq_held := rc =? NGX_OK |} :: l2 |}
| lc_give u conns l1 r l2 now state u' conns' pc' :
    rq_held r = true -> ngx_http_upstream_free_least_conn_peer now u conns (rq_lcp r) (rq_pc r) state = (u', conns', pc') ->
    lc_step {| st_groups := u; st_conns := conns; st_reqs := l1 ++ r :: l2 |}
            {| st_groups := u'; st_conns := conns'; st_reqs := l1 ++ {| rq_lcp := rq_lcp r; rq_pc := pc'; rq_held := false |} :: l2 |}
| lc_end u conns l1 r l2 :
    rq_held r = false ->
    lc_step {| st_groups := u; st_conns := conns; st_reqs := l1 ++ r :: l2 |} {| st_groups := u; st_conns := conns; st_reqs := l1 ++ l2 |}.

(** The requests that have the [i]-th peer of the group [lv]. *)
Definition holder (lv i : nat) (r : up_request) : bool := rq_held r && (rr_level (lcp_rrp (rq_lcp r)) =? lv)%nat && (current (lcp_rrp (rq_lcp r)) =? i)%nat.
Definition held (lv i : nat) (rs : list up_request) : Z := sumZ (fun r => Z.b2z (holder lv i r)) rs.

Definition request_ok u (r : up_request) : Prop :=
  exists g, u !! rr_level (lcp_rrp (rq_lcp r)) = Some g /\ lcp_conns (rq_lcp r) = offset u (rr_level (lcp_rrp (rq_lcp r))) /\
    (rq_held r = true -> (current (lcp_rrp (rq_lcp r)) < number g)%nat).

Record lc_inv u (s : lc_state) : Prop := {
  li_conf : conf (st_groups s) = conf u;
  li_limit : Z.of_nat (length (st_reqs s)) <= N;
  li_length : length (st_conns s) = offset u (length u);
  li_counts : forall lv g i, u !! lv = Some g -> (i < number g)%nat -> st_conns s !! (offset u lv + i)%nat = Some (held lv i (st_reqs s));
  li_requests : Forall (request_ok u) (st_reqs s)
}.

Lemma held_app lv i l1 l2 : held lv i (l1 ++ l2) = held lv i l1 + held lv i l2.
Proof. unfold held. induction l1 as [|r l1 IH]; cbn [app sumZ]; lia. Qed.

Lemma held_bound lv i rs : 0 <= held lv i rs <= Z.of_nat (length rs).
Proof. unfold held. induction rs as [|r rs IH]; cbn [sumZ length]; [lia|]. destruct (holder lv i r); cbn [Z.b2z]; lia. Qed.

Lemma held_mid lv i l1 r l2 : held lv i (l1 ++ r :: l2) = held lv i (l1 ++ l2) + Z.b2z (holder lv i r).
Proof. rewrite !held_app. unfold held at 2. cbn [sumZ]. fold (held lv i l2). lia. Qed.

Lemma offset_S u lv g : u !! lv = Some g -> offset u (S lv) = (offset u lv + number g)%nat.
Proof. intros H. unfold offset. rewrite (take_S_r _ _ _ H), map_app, sum_list_with_app. cbn. lia. Qed.

Lemma offset_mono u lv lv' : (lv <= lv')%nat -> (offset u lv <= offset u lv')%nat.
Proof.
  intros H. unfold offset. rewrite <- (take_drop lv (take lv' u)), map_app, sum_list_with_app, take_take, Nat.min_l by done. lia.
Qed.

Lemma offset_inj u lv lv' g g' i i' : u !! lv = Some g -> u !! lv' = Some g' -> (i < number g)%nat -> (i' < number g')%nat -> (offset u lv + i = offset u lv' + i')%nat -> lv = lv' /\ i = i'.
Proof.
  intros H H' Hi Hi' E. pose proof (offset_S u lv g H). pose proof (offset_S u lv' g' H'). destruct (Nat.lt_trichotomy lv lv') as [Hl|[->|Hl]]; [|by split; [|lia]|].
  - pose proof (offset_mono u (S lv) lv' ltac:(lia)). lia.
  - pose proof (offset_mono u (S lv') lv ltac:(lia)). lia.
Qed.

Lemma offset_split u k : (k < offset u (length u))%nat -> exists lv g i, u !! lv = Some g /\ (i < number g)%nat /\ k = (offset u lv + i)%nat.
Proof.
  revert k; induction u as [|g u IH]; intros k Hk; [cbn in Hk; lia|]. destruct (Nat.lt_ge_cases k (number g)) as [Hlt|Hge]; [exists 0%nat, g, k; done|].
  destruct (IH (k - number g)%nat) as (lv & g' & i & H1 & H2 & H3); [cbn in Hk; unfold offset; lia|]. exists (S lv), g', i. split_and!; [done|done|]. unfold offset in *. cbn. lia.
Qed.

Lemma offset_drop u lv k : offset u (lv + k) = (offset u lv + offset (drop lv u) k)%nat.
Proof. unfold offset. rewrite <- sum_list_with_app, <- map_app. do 2 f_equal. by rewrite take_take_drop. Qed.

Lemma lc_got_lookup now u cs t k i q : lc_got now u cs t k i q -> exists g, u !! k = Some g /\ peer g !! i = Some q.
Proof. induction 1 as [g next cs t i q Hl|g next cs t k i q _ _ IH]; [exists g; split; [done|apply Hl]|done]. Qed.

Lemma conf_lookup u u' lv g : conf u' = conf u -> u !! lv = Some g -> exists g', u' !! lv = Some g' /\ number g' = number g /\ single g' = single g.
Proof.
  intros H Hg. apply (f_equal (fun l => l !! lv)) in H. unfold conf in H. rewrite !list_lookup_fmap, Hg in H. destruct (u' !! lv) as [g'|]; [|done]. cbn in H. injection H as Hs Hp. exists g'. split_and!; [done| |done].
  apply (f_equal length) in Hp. by rewrite !length_map in Hp.
Qed.

Lemma conf_weights u u' : conf u' = conf u -> weights_ok u -> weights_ok u'.
Proof.
  intros H Hw. unfold weights_ok in *. rewrite Forall_lookup in *. intros lv g' Hg'. apply (f_equal (fun l => l !! lv)) in H. unfold conf in H. rewrite !list_lookup_fmap, Hg' in H. destruct (u !! lv) as [g|] eqn:Hg; [|done]. cbn in H. injection H as Hs Hp.
  destruct (Hw _ _ Hg) as [H1 H2]. split; [congruence|]. rewrite Forall_lookup in *. intros i q' Hq'. apply (f_equal (fun l => l !! i)) in Hp. rewrite !list_lookup_fmap, Hq' in Hp. destruct (peer g !! i) as [q|] eqn:Hq; [|done].
  cbn in Hp. injection Hp as _ Hwt _ _ _. rewrite Hwt. by eapply H2.
Qed.

Lemma counts_bounded u s : lc_inv u s -> Forall (fun c => 0 <= c <= N) (st_conns s).
Proof.
  intros [_ Hlim Hlen Hc _]. apply Forall_lookup. intros k c Hk. pose proof (lookup_lt_Some _ _ _ Hk) as Hlt. rewrite Hlen in Hlt. destruct (offset_split u k Hlt) as (lv & g & i & Hg & Hi & ->).
  rewrite (Hc lv g i Hg Hi) in Hk. injection Hk as <-. pose proof (held_bound lv i (st_reqs s)). lia.
Qed.

Lemma request_set u l1 r r' l2 : Forall (request_ok u) (l1 ++ r :: l2) -> request_ok u r' -> Forall (request_ok u) (l1 ++ r' :: l2).
Proof. rewrite !Forall_app, !Forall_cons. tauto. Qed.

(** One counter changes with one request. *)
Lemma counts_alter u (conns : list Z) l1 r r' l2 lv0 i0 g0 d :
  u !! lv0 = Some g0 -> (i0 < number g0)%nat ->
  (forall lv i, Z.b2z (holder lv i r') = Z.b2z (holder lv i r) + (if decide (lv = lv0 /\ i = i0) then d else 0)) ->
  Z.of_nat (length (l1 ++ r :: l2)) <= N -> N < 2 ^ 64 ->
  (forall lv g i, u !! lv = Some g -> (i < number g)%nat -> conns !! (offset u lv + i)%nat = Some (held lv i (l1 ++ r :: l2))) ->
  forall lv g i, u !! lv = Some g -> (i < number g)%nat -> alter (fun c => u64 (c + d)) (offset u lv0 + i0)%nat conns !! (offset u lv + i)%nat = Some (held lv i (l1 ++ r' :: l2)).
Proof.
  intros Hg0 Hi0 Hd Hlim HN2 Hc lv g i Hg Hi. assert (Hsum : held lv i (l1 ++ r' :: l2) = held lv i (l1 ++ r :: l2) + (if decide (lv = lv0 /\ i = i0) then d else 0)) by (rewrite !held_mid, Hd; lia).
  pose proof (held_bound lv i (l1 ++ r' :: l2)) as Hb. rewrite length_app in *. cbn [length] in *.
  destruct (decide (lv = lv0 /\ i = i0)) as [[-> ->]|Hne].
  - rewrite list_lookup_alter_eq, (Hc lv0 g0 i0 Hg0 Hi0). cbn [option_map fmap option_fmap]. by rewrite <- Hsum, u64_small by lia.
  - rewrite list_lookup_alter_ne; [by rewrite (Hc lv g i Hg Hi), Hsum, Z.add_0_r|]. intros E. apply Hne. symmetry in E. by destruct (offset_inj u lv lv0 g g0 i i0 Hg Hg0 Hi Hi0 E).
Qed.

Lemma lc_ask_inv u s l1 r l2 now rc u' conns' lcp' pc' : weights_ok u -> lc_inv u s -> st_reqs s = l1 ++ r :: l2 -> rq_held r = false ->
  ngx_http_upstream_get_least_conn_peer now (st_groups s) (st_conns s) (rq_lcp r) (rq_pc r) = (rc, u', conns', lcp', pc') ->
  lc_inv u {| st_groups := u'; st_conns := conns'; st_reqs := l1 ++ {| rq_lcp := lcp'; rq_pc := pc'; rq_held := rc =? NGX_OK |} :: l2 |}.
Proof using HNW HN.
  intros Hw Hinv Hr Hheld E. pose proof (counts_bounded u s Hinv) as Hb. destruct Hinv as [H1 H2 H3 H4 H5]. rewrite Hr in *. pose proof H5 as H5'. apply Forall_app in H5' as [_ H5']. apply Forall_cons in H5' as [(g & Hg & Hoff & _) _].
  unfold ngx_http_upstream_get_least_conn_peer in E. set (lv := rr_level (lcp_rrp (rq_lcp r))) in *. pose proof (conf_weights _ _ H1 Hw) as Hw'.
  pose proof (lc_get_spec now (drop lv (st_groups s)) (st_conns s) (rq_lcp r) (rq_pc r) ltac:(by apply Forall_drop) Hb) as Hspec. fold lv in Hspec.
  destruct (lc_get _ _ _ _ _) as [[[[rc0 u0] conns0] lcp0] pc0]. injection E as <- <- <- <- <-. destruct Hspec as (Hconf & _ & k & Hlv & Hcn & Hk & Hres).
  destruct (conf_lookup _ _ _ _ H1 Hg) as (gs & Hgs & Hnum & _). destruct Hk as [Hk|Hk]; [|apply (f_equal length) in Hk; rewrite length_drop in Hk; apply lookup_lt_Some in Hgs; cbn in Hk; lia].
  assert (Hconf' : conf (take lv (st_groups s) ++ u0) = conf u) by (rewrite <- H1; unfold conf in *; rewrite map_app, Hconf, <- map_app, take_drop; done).
  assert (Hcn' : lcp_conns lcp0 = offset u (rr_level (lcp_rrp lcp0))) by (rewrite Hlv, <- (conf_offset u (st_groups s)) by done; rewrite offset_drop, Hcn, Hoff; by rewrite (conf_offset u (st_groups s)) by done).
  assert (Hlk : exists g', u !! rr_level (lcp_rrp lcp0) = Some g') by (apply lookup_lt_is_Some_2; rewrite Hlv; rewrite length_drop in Hk; apply (f_equal length) in H1; unfold conf in H1; rewrite !length_map in H1; lia).
  destruct Hres as [(-> & q & Hgot & _ & ->)|(-> & _ & ->)].
  - apply lc_got_lookup in Hgot as (gk & Hgk & Hq). rewrite lookup_drop, <- Hlv in Hgk. destruct Hlk as [g' Hg']. destruct (conf_lookup _ _ _ _ H1 Hg') as (gk' & Hgk' & Hnum' & _). rewrite Hgk in Hgk'. injection Hgk' as <-.
    assert (Hi : (current (lcp_rrp lcp0) < number g')%nat) by (rewrite <- Hnum'; by eapply lookup_lt_Some).
    assert (HN64 : N < 2 ^ 64). { unfold weights_ok in Hw'. rewrite Forall_lookup in Hw'. destruct (Hw' _ _ Hgk) as [_ Hwq]. rewrite Forall_lookup in Hwq. pose proof (Hwq _ _ Hq). nia. }
    constructor; cbn [st_groups st_conns st_reqs]; [done| |by rewrite length_alter| |].
    + rewrite length_app in *. cbn [length] in *. lia.
    + rewrite Hcn'. apply (counts_alter u (st_conns s) l1 r _ l2 _ _ g' 1 Hg' Hi); [|done|done|done]. intros lv' i'. unfold holder. cbn [rq_held rq_lcp]. rewrite Hheld. change (NGX_OK =? NGX_OK) with true. cbn [andb].
      destruct (decide (lv' = rr_level (lcp_rrp lcp0) /\ i' = current (lcp_rrp lcp0))) as [[-> ->]|Hne]; [by rewrite !Nat.eqb_refl|].
      destruct (Nat.eqb_spec (rr_level (lcp_rrp lcp0)) lv'), (Nat.eqb_spec (current (lcp_rrp lcp0)) i'); cbn; [|done..]. destruct Hne. by split.
    + eapply request_set; [exact H5|]. exists g'. by split_and!.
  - constructor; cbn [st_groups st_conns st_reqs]; [done| |done| |].
    + rewrite length_app in *. cbn [length] in *. lia.
    + intros lv' g' i' Hg' Hi'. rewrite (H4 _ _ _ Hg' Hi'), !held_mid. unfold holder. cbn [rq_held]. by rewrite Hheld.
    + eapply request_set; [exact H5|]. destruct Hlk as [g' Hg']. exists g'. by split_and!.
Qed.

Lemma lc_give_inv u s l1 r l2 now state u' conns' pc' : weights_ok u -> lc_inv u s -> st_reqs s = l1 ++ r :: l2 -> rq_held r = true ->
  ngx_http_upstream_free_least_conn_peer now (st_groups s) (st_conns s) (rq_lcp r) (rq_pc r) state = (u', conns', pc') ->
  lc_inv u {| st_groups := u'; st_conns := conns'; st_reqs := l1 ++ {| rq_lcp := rq_lcp r; rq_pc := pc'; rq_held := false |} :: l2 |}.
Proof using HNW HN.
  intros Hw [H1 H2 H3 H4 H5] Hr Hheld E. rewrite Hr in *. pose proof H5 as H5'. apply Forall_app in H5' as [_ H5']. apply Forall_cons in H5' as [(g & Hg & Hoff & Hcur) _]. specialize (Hcur Hheld).
  unfold ngx_http_upstream_free_least_conn_peer in E. destruct (conf_lookup _ _ _ _ H1 Hg) as (gs & Hgs & Hnum & Hsin). rewrite Hgs in E. cbn [from_option] in E.
  assert (Hs : single g = false) by (unfold weights_ok in Hw; rewrite Forall_lookup in Hw; by destruct (Hw _ _ Hg)). rewrite Hsin, Hs in E.
  destruct (ngx_http_upstream_free_round_robin_peer _ _ _ _ _) as [u1 pc1] eqn:Ef. injection E as <- <- <-.
  pose proof (keeps_conf _ _ (rr_step_keeps _ _ (step_free _ _ _ _ _ _ _ Ef))) as Hconf.
  assert (HN64 : N < 2 ^ 64). { unfold weights_ok in Hw. rewrite Forall_lookup in Hw. destruct (Hw _ _ Hg) as [_ Hwq]. destruct (peer g) as [|q ps] eqn:Ep; [unfold number in Hcur; rewrite Ep in Hcur; cbn in Hcur; lia|]. apply Forall_cons in Hwq as [Hq _]. nia. }
  constructor; cbn [st_groups st_conns st_reqs]; [congruence| |by rewrite length_alter| |].
  - rewrite length_app in *. cbn [length] in *. lia.
  - rewrite Hoff. apply (counts_alter u (st_conns s) l1 r _ l2 _ _ g (-1) Hg Hcur); [|done|done|done]. intros lv' i'. unfold holder. cbn [rq_held rq_lcp]. rewrite Hheld. cbn [andb Z.b2z].
    destruct (decide (lv' = rr_level (lcp_rrp (rq_lcp r)) /\ i' = current (lcp_rrp (rq_lcp r)))) as [[-> ->]|Hne]; [by rewrite !Nat.eqb_refl|].
    destruct (Nat.eqb_spec (rr_level (lcp_rrp (rq_lcp r))) lv'), (Nat.eqb_spec (current (lcp_rrp (rq_lcp r))) i'); cbn; [|done..]. destruct Hne. by split.
  - eapply request_set; [exact H5|]. exists g. by split_and!.
Qed.

Lemma least_step_inv u s s' : u <> [] -> weights_ok u -> lc_inv u s -> lc_step s s' -> lc_inv u s'.
Proof using HNW HN.
  intros Hne Hw Hinv Hstep. inversion Hstep as [v conns rs pc lcp n Hlt Ei|v conns l1 r l2 now rc v' conns' lcp' pc' Hh E|v conns l1 r l2 now state v' conns' pc' Hh E|v conns l1 r l2 Hh]; subst.
  - destruct Hinv as [H1 H2 H3 H4 H5]. cbn [st_groups st_conns st_reqs] in *. unfold ngx_http_upstream_init_least_conn_peer in Ei. destruct (ngx_http_upstream_init_round_robin_peer v) as [rrp k] eqn:Er. injection Ei as <- <-. unfold ngx_http_upstream_init_round_robin_peer in Er. injection Er as <- _.
    constructor; cbn [st_groups st_conns st_reqs]; [done|cbn [length]; lia|done|done|].
    constructor; [|done].
    destruct u as [|g u]; [done|]. exists g. by split_and!.
  - eapply (lc_ask_inv u _ l1 r l2 now _ _ _ _ _ Hw Hinv eq_refl Hh E).
  - eapply (lc_give_inv u _ l1 r l2 now _ _ _ _ Hw Hinv eq_refl Hh E).
  - destruct Hinv as [H1 H2 H3 H4 H5]. cbn [st_groups st_conns st_reqs] in *. constructor; cbn [st_groups st_conns st_reqs]; [done| |done| |].
    + rewrite length_app in *. cbn [length] in *. lia.
    + intros lv g i Hg Hi. rewrite (H4 lv g i Hg Hi), held_mid. unfold holder. by rewrite Hh, Z.add_0_r.
    + rewrite Forall_app, Forall_cons in H5. apply Forall_app. tauto.
Qed.

Lemma lc_reach_inv u s s' : u <> [] -> weights_ok u -> lc_inv u s -> rtc lc_step s s' -> lc_inv u s'.
Proof using HNW HN. intros Hne Hw Hinv Hr. induction Hr as [s|s s1 s' Hs _ IH]; [done|]. apply IH. by eapply least_step_inv. Qed.

Definition tried_in (r : up_request) (lv : nat) : list Z := if decide (lv = rr_level (lcp_rrp (rq_lcp r))) then tried (lcp_rrp (rq_lcp r)) else [].

Lemma lc_got_levels now u cs t k i q : lc_got now u cs t k i q ->
  exists g, u !! k = Some g /\ lightest (match k with 0%nat => t | _ => [] end) now (drop (offset u k) cs) (peer g) i q /\
    forall k' g', (k' < k)%nat -> u !! k' = Some g' -> none_available (match k' with 0%nat => t | _ => [] end) now g'.
Proof.
  induction 1 as [g next cs t i q Hl|g next cs t k i q Hnone Hgot IH].
  - exists g. cbn. rewrite drop_0. split_and!; [done|done|]. intros k' g' Hk'. lia.
  - destruct IH as (g' & Hg' & Hl & Hbefore). exists g'. split_and!; [done| |].
    + unfold offset. cbn. unfold offset in Hl. rewrite drop_drop in Hl. by destruct k.
    + intros [|k'] g'' Hk' Hg''; [injection Hg'' as <-; done|]. specialize (Hbefore k' g'' ltac:(lia) Hg''). by destruct k'.
Qed.

(** A choice by the counters is one by the requests that have the peers. *)
Lemma lightest_held u s lv g gs t now i q : lc_inv u s -> u !! lv = Some g -> st_groups s !! lv = Some gs -> lightest t now (drop (offset u lv) (st_conns s)) (peer gs) i q ->
  forall j x, peer gs !! j = Some x -> available t now j x = true ->
    held lv i (st_reqs s) * weight x <= held lv j (st_reqs s) * weight q /\
    (held lv i (st_reqs s) * weight x = held lv j (st_reqs s) * weight q -> current_weight (gain x) <= current_weight (gain q)).
Proof.
  intros Hinv Hg Hgs (Hi & Ha & Hl) j x Hj Hx. specialize (Hl j x Hj Hx). destruct Hinv as [H1 _ _ H4 _].
  assert (Hn : number gs = number g) by (destruct (conf_lookup _ _ _ _ H1 Hg) as (g' & Hg' & Hn & _); congruence).
  assert (Hc : forall k y, peer gs !! k = Some y -> count (drop (offset u lv) (st_conns s)) k = held lv k (st_reqs s)).
  { intros k y Hk. unfold count. rewrite nth_lookup, lookup_drop, (H4 lv g k Hg); [done|]. rewrite <- Hn. by eapply lookup_lt_Some. }
  by rewrite (Hc i q Hi), (Hc j x Hj) in Hl.
Qed.

Definition servers_ok (servers : list (server A)) : Prop := Forall (fun sv => 0 < sv_weight sv <= W) servers.

Lemma group_weights b servers : servers_ok servers -> Forall (fun q => 0 < weight q <= W) (peer (rr_group b servers)).
Proof.
  intros H. unfold rr_group. destruct (rr_count b servers) as [n w]. cbn. apply Forall_concat, Forall_map, Forall_forall. intros sv Hsv. apply list_elem_of_In, filter_In in Hsv as [Hsv _].
  unfold servers_ok in H. rewrite Forall_forall in H. apply list_elem_of_In in Hsv. specialize (H sv Hsv). cbn. unfold rr_server_peers. apply Forall_map, Forall_true. intros a. exact H.
Qed.

Lemma init_least_conn_ok servers u conns : servers_ok servers -> Forall (fun g => single g = false) u -> ngx_http_upstream_init_least_conn servers = Some (u, conns) ->
  u <> [] /\ weights_ok u /\ lc_inv u {| st_groups := u; st_conns := conns; st_reqs := [] |}.
Proof using HN.
  intros Hs Hsingle E. unfold ngx_http_upstream_init_least_conn, ngx_http_upstream_init_round_robin in E. cbv zeta in E.
  assert (Hu : (exists g, u = [g] /\ conns = repeat 0 (number g) /\ peer g = peer (rr_group false servers)) \/
    (exists g b, u = [g; b] /\ conns = repeat 0 (number g + number b) /\ peer g = peer (rr_group false servers) /\ peer b = peer (rr_group true servers))).
  { destruct (_ =? _)%nat; [done|]. destruct (_ =? _)%nat; injection E as <- <-; [left; by eexists|right; by do 2 eexists]. }
  clear E. assert (Hz : forall n k, (k < n)%nat -> repeat 0 n !! k = Some 0) by (intros n; induction n as [|n IH]; intros [|k] Hk; cbn; [lia..|done|apply IH; lia]).
  pose proof (group_weights false servers Hs) as Wf. pose proof (group_weights true servers Hs) as Wt.
  assert (Hinv : length conns = offset u (length u) -> (forall k, (k < length conns)%nat -> conns !! k = Some 0) -> lc_inv u {| st_groups := u; st_conns := conns; st_reqs := [] |}).
  { intros Hlen Hk. constructor; cbn [st_groups st_conns st_reqs length]; [done|lia|done| |constructor]. intros lv g i Hg Hi. apply Hk. rewrite Hlen. pose proof (offset_S u lv g Hg). pose proof (offset_mono u (S lv) (length u) ltac:(by apply lookup_lt_Some in Hg)). lia. }
  destruct Hu as [(g & -> & -> & Eg)|(g & b & -> & -> & Eg & Eb)]; rewrite !repeat_length in Hinv; (split; [done|]); (split; [|apply Hinv; [cbn; lia|apply Hz]]).
  - rewrite Forall_singleton in Hsingle. constructor; [split; [done|by rewrite Eg]|constructor].
  - apply Forall_cons in Hsingle as [H1 H2]. rewrite Forall_singleton in H2. repeat (apply Forall_cons; split; [split; [done|by rewrite ?Eg, ?Eb]|]). constructor.
Qed.

(** The requests that hold a peer are counted, and a request gets the lightest peer. *)
Definition counted u (s : lc_state) : Prop :=
  forall lv g i, u !! lv = Some g -> (i < number g)%nat -> st_conns s !! (offset u lv + i)%nat = Some (held lv i (st_reqs s)).

Definition chosen_lightest (s : lc_state) (r : up_request) (now : Z) (lcp' : lc_peer_data) (pc' : peer_connection A) : Prop :=
  let lv := rr_level (lcp_rrp lcp') in
  exists g q, st_groups s !! lv = Some g /\ peer g !! current (lcp_rrp lcp') = Some q /\ available (tried_in r lv) now (current (lcp_rrp lcp')) q = true /\ pc_name pc' = Some (rp_addr q) /\
    (forall j x, peer g !! j = Some x -> available (tried_in r lv) now j x = true ->
      held lv (current (lcp_rrp lcp')) (st_reqs s) * weight x <= held lv j (st_reqs s) * weight q /\
      (held lv (current (lcp_rrp lcp')) (st_reqs s) * weight x = held lv j (st_reqs s) * weight q -> current_weight (gain x) <= current_weight (gain q))) /\
    (forall lv' g', (rr_level (lcp_rrp (rq_lcp r)) <= lv' < lv)%nat -> st_groups s !! lv' = Some g' -> none_available (tried_in r lv') now g').

Lemma ask_ok u s r now : weights_ok u -> lc_inv u s -> r ∈ st_reqs s ->
  let '(rc, _, _, lcp', pc') := ngx_http_upstream_get_least_conn_peer now (st_groups s) (st_conns s) (rq_lcp r) (rq_pc r) in
  (rc = NGX_OK /\ chosen_lightest s r now lcp' pc') \/
  (rc = NGX_BUSY /\ all_down now (drop (rr_level (lcp_rrp (rq_lcp r))) (st_groups s)) (tried (lcp_rrp (rq_lcp r)))).
Proof using HNW HN.
  intros Hw Hinv Hr. pose proof (counts_bounded u s Hinv) as Hb. pose proof Hinv as [H1 _ _ _ H5]. rewrite Forall_forall in H5. destruct (H5 r Hr) as (g & Hg & Hoff & _).
  unfold ngx_http_upstream_get_least_conn_peer. set (lv := rr_level (lcp_rrp (rq_lcp r))) in *. pose proof (conf_weights _ _ H1 Hw) as Hw'.
  pose proof (lc_get_spec now (drop lv (st_groups s)) (st_conns s) (rq_lcp r) (rq_pc r) ltac:(by apply Forall_drop) Hb) as Hspec. fold lv in Hspec.
  destruct (lc_get _ _ _ _ _) as [[[[rc u'] conns'] lcp'] pc']. destruct Hspec as (_ & _ & k & Hlv & Hcn & Hk & [(-> & q & Hgot & Hname & _)|(-> & Hdown & _)]); [left|right; done]. split; [done|].
  apply lc_got_levels in Hgot as (gk & Hgk & Hl & Hbefore). rewrite lookup_drop, <- Hlv in Hgk. rewrite drop_drop, Hoff in Hl.
  assert (Ho : (offset u lv + offset (drop lv (st_groups s)) k)%nat = offset u (rr_level (lcp_rrp lcp'))) by (rewrite Hlv, <- !(conf_offset u (st_groups s)) by done; by rewrite offset_drop). rewrite Ho in Hl.
  assert (Ht : forall k', (match k' with 0%nat => tried (lcp_rrp (rq_lcp r)) | S _ => [] end) = tried_in r (lv + k')) by (intros [|k']; unfold tried_in; fold lv; [by rewrite Nat.add_0_r, decide_True|rewrite decide_False by lia; done]).
  rewrite Ht, <- Hlv in Hl.
  assert (Hgu : exists g0, u !! rr_level (lcp_rrp lcp') = Some g0) by (apply lookup_lt_is_Some_2; apply (f_equal length) in H1; unfold conf in H1; rewrite !length_map in H1; apply lookup_lt_Some in Hgk; lia). destruct Hgu as [g0 Hg0].
  exists gk, q. split_and!; [done|apply Hl|apply Hl|done|by eapply lightest_held|].
  intros lv' g' Hlv' Hg'. specialize (Hbefore (lv' - lv)%nat g' ltac:(lia)). rewrite Ht in Hbefore. replace (lv + (lv' - lv))%nat with lv' in Hbefore by lia. apply Hbefore. rewrite lookup_drop. by replace (lv + (lv' - lv))%nat with lv' by lia.
Qed.
End Get.

(** C6: whatever up to [N] requests do in whatever order, the counter of a peer is the number of requests that have it, and a request that asks gets, in the first group with an available peer, one with the fewest such requests for its weight, and of the greatest gained weight among these; it gets [NGX_BUSY] only when no peer is available. *)
Theorem least_conn_chosen N W servers u conns s :
  0 <= N -> N * W < 2 ^ 64 -> servers_ok W servers -> ngx_http_upstream_init_least_conn servers = Some (u, conns) -> Forall (fun g => single g = false) u ->
  rtc (lc_step N) {| st_groups := u; st_conns := conns; st_reqs := [] |} s ->
  counted u s /\
  forall r now, r ∈ st_reqs s ->
    let '(rc, _, _, lcp', pc') := ngx_http_upstream_get_least_conn_peer now (st_groups s) (st_conns s) (rq_lcp r) (rq_pc r) in
    (rc = NGX_OK /\ chosen_lightest s r now lcp' pc') \/
    (rc = NGX_BUSY /\ all_down now (drop (rr_level (lcp_rrp (rq_lcp r))) (st_groups s)) (tried (lcp_rrp (rq_lcp r)))).
Proof.
  intros HN HNW Hs Hi Hsingle Hr. destruct (init_least_conn_ok N W HN servers u conns Hs Hsingle Hi) as (Hne & Hw & Hinv).
  pose proof (lc_reach_inv N W HNW HN u _ s Hne Hw Hinv Hr) as Hinv'. split; [exact (li_counts _ _ _ Hinv')|]. intros r now Hin. by eapply ask_ok.
Qed.
End LeastConn.

(** Three peers: of weight 3, of weight 1, and a backup. *)
Definition lc_servers : list (server Z) :=
  [ {| sv_addrs := [1]; sv_weight := 3; sv_max_fails := 1; sv_fail_timeout := 10; sv_down := false; sv_backup := false |};
    {| sv_addrs := [2]; sv_weight := 1; sv_max_fails := 1; sv_fail_timeout := 10; sv_down := false; sv_backup := false |};
    {| sv_addrs := [3]; sv_weight := 1; sv_max_fails := 1; sv_fail_timeout := 10; sv_down := false; sv_backup := true |} ].
Definition lc_sample : list (rr_peers Z) * list Z := default ([], []) (ngx_http_upstream_init_least_conn lc_servers).

(** One request has the first peer; the next one gets the second, whose load is 0. *)
Lemma least_conn_chosen_witness :
  exists s r lcp pc u' conns', rtc (lc_step 100) {| st_groups := lc_sample.1; st_conns := lc_sample.2; st_reqs := [] |} s /\ counted lc_sample.1 s /\ st_conns s = [1; 0; 0] /\ r ∈ st_reqs s /\
    ngx_http_upstream_get_least_conn_peer 1000 (st_groups s) (st_conns s) (rq_lcp r) (rq_pc r) = (NGX_OK, u', conns', lcp, pc) /\ chosen_lightest s r 1000 lcp pc /\ pc_name pc = Some 2.
Proof.
  eassert (Hr : rtc (lc_step 100) {| st_groups := lc_sample.1; st_conns := lc_sample.2; st_reqs := [] |} _).
  { eapply rtc_l; [apply (lc_start 100 lc_sample.1 lc_sample.2 [] sample_pc (ngx_http_upstream_init_least_conn_peer lc_sample.1).1 2); [cbn; lia|reflexivity]|].
    eapply rtc_l; [eapply (lc_ask 100 _ _ [] _ [] 1000); [reflexivity|vm_compute; reflexivity]|]. cbn [app].
    eapply rtc_l; [eapply (lc_start 100 _ _ _ sample_pc _ 2); [cbn; lia|vm_compute; reflexivity]|]. apply rtc_refl. }
  destruct (least_conn_chosen 100 10 lc_servers lc_sample.1 lc_sample.2 _ ltac:(lia) ltac:(lia) ltac:(repeat constructor; cbn; lia) ltac:(vm_compute; reflexivity) ltac:(vm_compute; repeat constructor) Hr) as [Hc Hall].
  eexists _, _, _, _, _, _. split; [exact Hr|]. split; [exact Hc|]. split; [reflexivity|]. split; [left|].
  specialize (Hall _ 1000 (list_elem_of_here _ _)). cbn [st_groups st_conns] in Hall |- *. vm_compute ngx_http_upstream_get_least_conn_peer in Hall.
  destruct Hall as [[_ Hch]|[? _]]; [|discriminate]. split; [vm_compute; reflexivity|]. split; [exact Hch|reflexivity].
Defined.
