(* ===== verification/UpstreamIpHash.v ===== *)
(** * The balancer by the address of the client

    src/nginx-1.4.7/src/http/modules/ngx_http_upstream_ip_hash_module.c, over the
    round-robin balancer of [UpstreamRoundRobin]: the first three bytes of an IPv4
    address, or all of an IPv6 address, select a peer; when it is not available, the
    hash goes on to other ones, and after twenty tries the choice is left to the
    round robin.  Peers have no backup groups here (the directive does not allow
    them). *)
From S2P Require Import Prelude UpstreamRoundRobin.

Section IpHash.
Context {A : Type}.
Implicit Types (ps : list (rr_peer A)) (q : rr_peer A) (g : rr_peers A).

(** ** Definitions *)

(** The address of a client, by its family; [s_addr] has 4 bytes, [s6_addr] 16. *)
Inductive client_addr : Type := AF_INET (s_addr : list Z) | AF_INET6 (s6_addr : list Z) | AF_OTHER.

(** The bytes of [addr] are those up to [addrlen].
    [http/modules/ngx_http_upstream_ip_hash_module.c:13-25] ngx_http_upstream_ip_hash_peer_data_t *)
Record ip_hash_data : Type := { iph_rrp : rr_peer_data; iph_hash : Z; iph_addr : list Z; iph_tries : Z }.

(** With the number of tries of the connection.
    [http/modules/ngx_http_upstream_ip_hash_module.c:96-145] ngx_http_upstream_init_ip_hash_peer *)
Definition ngx_http_upstream_init_ip_hash_peer (sockaddr : client_addr) (u : list (rr_peers A)) : ip_hash_data * Z :=
  let '(rrp, tries) := ngx_http_upstream_init_round_robin_peer u in
  let addr := match sockaddr with
              | AF_INET s_addr => take 3 s_addr
              | AF_INET6 s6_addr => take 16 s6_addr
              | AF_OTHER => [0; 0; 0]
              end in
  ({| iph_rrp := rrp; iph_hash := 89; iph_addr := addr; iph_tries := 0 |}, tries).

(** [http/modules/ngx_http_upstream_ip_hash_module.c:177-179] for (i = 0; i < iphp->addrlen; i++) *)
Definition addr_hash (addr : list Z) (hash : Z) : Z := foldl (fun hash b => u64 (hash * 113 + b) mod 6271) hash addr.

(** [http/modules/ngx_http_upstream_ip_hash_module.c:187-192] for (i = 0; i < iphp->rrp.peers->number; i++) *)
Fixpoint weight_index (w : Z) (i : nat) ps : nat :=
  match ps with
  | [] => i
  | p :: ps => let w := s64 (w - weight p) in if w <? 0 then i else weight_index w (S i) ps
  end.

(** [http/modules/ngx_http_upstream_ip_hash_module.c:181-195] if (!iphp->rrp.peers->weighted) *)
Definition hash_peer g (hash : Z) : nat :=
  if weighted g then weight_index (hash mod total_weight g) 0 (peer g)
  else Z.to_nat (hash mod Z.of_nat (number g)).

(** The peer can be used; the time of the check is set when its failures are old.
    [http/modules/ngx_http_upstream_ip_hash_module.c:209-219] if (!peer->down) *)
Definition usable (now : Z) q : option (rr_peer A) :=
  if down q then None
  else if (max_fails q =? 0) || (fails q <? max_fails q) then Some q
  else if fail_timeout q <? now - checked q then Some {| q with checked := now |}
  else None.

(** The loop: the peers, the bitmap, the counters of tries, and the peer with its
    hash, or [None] when the round robin is asked; there is no result when a peer
    outside of the array is read.
    [http/modules/ngx_http_upstream_ip_hash_module.c:175-231] for ( ;; ) *)
Fixpoint ip_hash_loop (fuel : nat) (now : Z) (addr : list Z) g (t : list Z) (hash iph_tries pc_tries : Z)
    : option (rr_peers A * list Z * Z * Z * option (nat * Z)) :=
  match fuel with
  | 0%nat => None
  | S fuel =>
      let hash := addr_hash addr hash in
      let p := hash_peer g hash in
      let next t pc_tries :=
        let iph_tries := u8 (iph_tries + 1) in
        if 20 <=? iph_tries then Some (g, t, iph_tries, pc_tries, None)
        else ip_hash_loop fuel now addr g t hash iph_tries pc_tries in
      if was_tried t p then next t pc_tries
      else
        q ← peer g !! p;
        match usable now q with
        | Some q => Some ({| g with peer := <[p := q]> (peer g) |}, t, iph_tries, pc_tries, Some (p, hash))
        | None => next (mark_tried t p) (u64 (pc_tries - 1))
        end
  end.

(** [http/modules/ngx_http_upstream_ip_hash_module.c:148-245] ngx_http_upstream_get_ip_hash_peer *)
Definition ngx_http_upstream_get_ip_hash_peer (now : Z) g (iphp : ip_hash_data) (pc : peer_connection A)
    : option (Z * rr_peers A * ip_hash_data * peer_connection A) :=
  let get_rr_peer g iphp pc :=
    let '(rc, u, rrp, pc) := rr_get now [g] (iph_rrp iphp) pc in
    g ← head u;
    Some (rc, g, {| iphp with iph_rrp := rrp |}, pc) in
  if (20 <? iph_tries iphp) || single g then get_rr_peer g iphp pc
  else
    let pc := {| pc with pc_cached := false; pc_connection := None |} in
    '(g, t, iph_tries, pc_tries, r) ← ip_hash_loop 21 now (iph_addr iphp) g (tried (iph_rrp iphp)) (iph_hash iphp) (iph_tries iphp) (tries pc);
    let iphp := {| iphp with iph_rrp := {| (iph_rrp iphp) with tried := t |}; iph_tries := iph_tries |} in
    let pc := {| pc with tries := pc_tries |} in
    match r with
    | None => get_rr_peer g iphp pc
    | Some (p, hash) =>
        Some (NGX_OK, g, {| iphp with iph_rrp := {| (iph_rrp iphp) with current := p; tried := mark_tried t p |}; iph_hash := hash |},
              {| pc with pc_name := option_map rp_addr (peer g !! p) |})
    end.

(** ** The peer of an address *)

(** A group as it is configured: its weights sum up to the total. *)
Definition group_fits g : Prop :=
  (0 < number g)%nat /\ Forall (fun q => 0 <= weight q < 2 ^ 63) (peer g) /\
  (weighted g = true -> 0 < total_weight g /\ total_weight g = sumZ weight (peer g)).

Lemma weight_index_lt w i ps : Forall (fun q => 0 <= weight q < 2 ^ 63) ps -> 0 <= w < 2 ^ 63 -> w < sumZ weight ps -> (i <= weight_index w i ps < i + length ps)%nat.
Proof.
  intros H. revert w i; induction H as [|q ps Hq H IH]; intros w i Hw Hs; cbn [weight_index sumZ length] in *; [lia|].
  assert (s64 (w - weight q) = w - weight q) as -> by (unfold s64; rewrite Z.mod_small; lia). destruct (Z.ltb_spec (w - weight q) 0); [lia|]. specialize (IH (w - weight q) (S i) ltac:(lia) ltac:(lia)). lia.
Qed.

Lemma hash_peer_lt g h : group_fits g -> 0 <= h < 6271 -> (hash_peer g h < number g)%nat.
Proof.
  intros (Hn & Hw & Ht) Hh. unfold hash_peer. destruct (weighted g).
  - destruct (Ht eq_refl) as [Hpos Hsum]. pose proof (Z.mod_pos_bound h (total_weight g) Hpos). pose proof (Z.mod_le h (total_weight g) ltac:(lia) Hpos).
    destruct (weight_index_lt (h mod total_weight g) 0 (peer g) Hw ltac:(lia) ltac:(lia)). unfold number. lia.
  - pose proof (Z.mod_pos_bound h (Z.of_nat (number g)) ltac:(lia)). lia.
Qed.

Lemma addr_hash_range addr h : 0 <= h < 6271 -> 0 <= addr_hash addr h < 6271.
Proof. unfold addr_hash. revert h; induction addr as [|b addr IH]; intros h Hh; [done|]. cbn [foldl]. apply IH. apply Z.mod_pos_bound. lia. Qed.

(** The position of the peer depends only on the weights. *)
Lemma hash_peer_conf g g' h : weighted g' = weighted g -> total_weight g' = total_weight g -> map peer_conf (peer g') = map peer_conf (peer g) -> hash_peer g' h = hash_peer g h.
Proof.
  intros Hw Ht Hc. unfold hash_peer, number. rewrite Hw, Ht. assert (length (peer g') = length (peer g)) as -> by (apply (f_equal length) in Hc; by rewrite !length_map in Hc).
  destruct (weighted g); [|done]. generalize (h mod total_weight g) as w, 0%nat as i. clear Hw Ht. revert Hc. generalize (peer g') as ps'. intros ps'. generalize (peer g) as ps. intros ps. revert ps'.
  induction ps as [|q ps IH]; intros [|q' ps'] Hc w i; [done..|]. cbn [map] in Hc. injection Hc as _ Hwt _ _ _ Hc. cbn [weight_index]. rewrite Hwt. destruct (_ <? 0); [done|]. by apply IH.
Qed.

(** ** The peers that were not tried *)

Definition untried (n : nat) (t : list Z) : Z := Z.of_nat (length (List.filter (fun i => negb (was_tried t i)) (seq 0 n))).

Lemma filter_one (f f' : nat -> bool) l i : NoDup l -> i ∈ l -> f i = true -> f' i = false -> (forall j, j <> i -> f' j = f j) ->
  length (List.filter f l) = S (length (List.filter f' l)).
Proof.
  intros Hnd Hi Hf Hf' Hj. induction Hnd as [|x l Hx Hnd IH]; [by apply elem_of_nil in Hi|]. cbn. apply elem_of_cons in Hi as [<-|Hi].
  - rewrite Hf, Hf'. cbn. do 2 f_equal. apply List.filter_ext_in. intros j Hin. symmetry. apply Hj. intros ->. apply Hx. by apply list_elem_of_In.
  - assert (x <> i) by (intros ->; by apply Hx). specialize (IH Hi). rewrite (Hj x) by done. destruct (f x); cbn; lia.
Qed.

Lemma untried_mark n t i : (i < n)%nat -> (i / 64 < length t)%nat -> was_tried t i = false -> untried n (mark_tried t i) = untried n t - 1.
Proof.
  intros Hi Hl Ht. unfold untried. rewrite (filter_one (fun j => negb (was_tried t j)) (fun j => negb (was_tried (mark_tried t i) j)) (seq 0 n) i); [lia|apply NoDup_ListNoDup, seq_NoDup|apply elem_of_seq; lia|by rewrite Ht| |].
  - rewrite mark_tried_spec by done. by rewrite bool_decide_true, orb_true_r.
  - intros j Hj. rewrite mark_tried_spec by done. by rewrite bool_decide_false, orb_false_r.
Qed.

Lemma untried_pos n t i : (i < n)%nat -> was_tried t i = false -> 0 < untried n t.
Proof.
  intros Hi Ht. unfold untried. assert (Hin : In i (List.filter (fun i => negb (was_tried t i)) (seq 0 n))) by (apply filter_In; rewrite Ht; split; [apply in_seq; lia|done]).
  destruct (List.filter _ _); [done|cbn; lia].
Qed.

Lemma usable_available t now i q : was_tried t i = false ->
  match usable now q with
  | Some q' => available t now i q = true /\ peer_conf q' = peer_conf q
  | None => available t now i q = false
  end.
Proof.
  intros Ht. unfold usable, available. rewrite Ht. destruct (down q) eqn:Hd; [done|]. cbn [negb andb]. destruct (Z.eqb_spec (max_fails q) 0); cbn [negb andb orb]; [done|].
  destruct (Z.ltb_spec (fails q) (max_fails q)); cbn [orb].
  - rewrite (proj2 (Z.leb_gt _ _)) by lia. done.
  - rewrite (proj2 (Z.leb_le (max_fails q) (fails q))) by lia. cbn [andb]. destruct (Z.ltb_spec (fail_timeout q) (now - checked q)).
    + rewrite (proj2 (Z.leb_gt _ _)) by lia. split; [done|]. unfold peer_conf. cbn. by rewrite Hd.
    + rewrite (proj2 (Z.leb_le _ _)) by lia. done.
Qed.

(** ** The loop *)

(** Between [t] and [t'] only peers were marked that are not available. *)
Definition passed (now : Z) g (t t' : list Z) : Prop :=
  length t' = length t /\ (forall i, was_tried t i = true -> was_tried t' i = true) /\
  forall i q, peer g !! i = Some q -> was_tried t i = false -> was_tried t' i = true -> available t now i q = false.

Lemma available_tried t t' now i q : was_tried t i = false -> was_tried t' i = false -> available t' now i q = available t now i q.
Proof. intros H H'. unfold available. by rewrite H, H'. Qed.

Lemma passed_refl now g t : passed now g t t.
Proof. split_and!; [done|done|]. intros i q _ H H'. congruence. Qed.

Lemma passed_mark now g t i q : peer g !! i = Some q -> (i / 64 < length t)%nat -> was_tried t i = false -> available t now i q = false -> passed now g t (mark_tried t i).
Proof.
  intros Hi Hl Ht Ha. split_and!; [apply mark_tried_length| |].
  - intros j Hj. rewrite mark_tried_spec by done. by rewrite Hj.
  - intros j x Hj Htj. rewrite mark_tried_spec, Htj by done. intros ->%bool_decide_eq_true. congruence.
Qed.

Lemma passed_trans now g t1 t2 t3 : passed now g t1 t2 -> passed now g t2 t3 -> passed now g t1 t3.
Proof.
  intros (L1 & M1 & A1) (L2 & M2 & A2). split_and!; [congruence|auto|]. intros i q Hi H1 H3. destruct (was_tried t2 i) eqn:H2; [by eapply A1|]. rewrite <- (available_tried t1 t2) by done. by eapply A2.
Qed.

Lemma passed_available now g t t' i q : passed now g t t' -> peer g !! i = Some q -> available t' now i q = true -> available t now i q = true.
Proof.
  intros (_ & M & _) Hi Ha. assert (Ht' : was_tried t' i = false) by (unfold available in Ha; by destruct (was_tried t' i)). assert (Ht : was_tried t i = false) by (destruct (was_tried t i) eqn:E; [by rewrite (M i E) in Ht'|done]).
  by rewrite <- (available_tried t t').
Qed.

Lemma passed_none now g t t' : passed now g t t' -> none_available t' now g -> none_available t now g.
Proof.
  intros (_ & M & Hp) Hn i q Hi. destruct (was_tried t i) eqn:Ht; [unfold available; by rewrite Ht|]. destruct (was_tried t' i) eqn:Ht'; [by eapply Hp|]. rewrite <- (available_tried t t') by done. by apply Hn.
Qed.

Lemma ip_hash_loop_ok fuel now addr g t hash it pt :
  group_fits g -> (words (number g) <= length t)%nat -> 0 <= hash < 6271 -> 0 <= it <= 20 -> Z.max 1 (20 - it) <= Z.of_nat fuel -> untried (number g) t <= pt < 2 ^ 64 ->
  exists g' t' it' pt' r, ip_hash_loop fuel now addr g t hash it pt = Some (g', t', it', pt', r) /\
    passed now g t t' /\ 0 <= it' <= 21 /\ pt' = pt + untried (number g) t' - untried (number g) t /\ 
    match r with
    | None => g' = g
    | Some (p, h) => exists q q', peer g !! p = Some q /\ available t' now p q = true /\ g' = {| g with peer := <[p := q']> (peer g) |} /\ peer_conf q' = peer_conf q /\ 0 <= h < 6271
    end /\
    (forall q, peer g !! hash_peer g (addr_hash addr hash) = Some q -> available t now (hash_peer g (addr_hash addr hash)) q = true -> r = Some (hash_peer g (addr_hash addr hash), addr_hash addr hash)).
Proof.
  intros Hg Hl. revert t hash it pt Hl; induction fuel as [|fuel IH]; intros t hash it pt Hl Hh Hit Hf Hpt; [lia|]. cbn [ip_hash_loop].
  pose proof (addr_hash_range addr hash Hh) as Hh'. set (h := addr_hash addr hash) in *. pose proof (hash_peer_lt g h Hg Hh') as Hp. set (p := hash_peer g h) in *.
  assert (Hnext : forall t1 pt1, passed now g t t1 -> untried (number g) t1 <= pt1 < 2 ^ 64 -> pt1 = pt + untried (number g) t1 - untried (number g) t -> 
    (forall q, peer g !! p = Some q -> available t now p q = false) ->
    exists g' t' it' pt' r, (let it1 := u8 (it + 1) in if 20 <=? it1 then Some (g, t1, it1, pt1, None) else ip_hash_loop fuel now addr g t1 h it1 pt1) = Some (g', t', it', pt', r) /\
    passed now g t t' /\ 0 <= it' <= 21 /\ pt' = pt + untried (number g) t' - untried (number g) t /\
    match r with
    | None => g' = g
    | Some (p, h) => exists q q', peer g !! p = Some q /\ available t' now p q = true /\ g' = {| g with peer := <[p := q']> (peer g) |} /\ peer_conf q' = peer_conf q /\ 0 <= h < 6271
    end /\ (forall q, peer g !! p = Some q -> available t now p q = true -> r = Some (p, h))).
  { intros t1 pt1 Hps Hpt1 Ept1 Hna. cbv zeta. assert (Eu : u8 (it + 1) = it + 1) by (unfold u8; rewrite Z.mod_small; lia). rewrite Eu. destruct (Z.leb_spec 20 (it + 1)).
    - eexists _, _, _, _, _. split; [reflexivity|]. split_and!; [done|lia|lia|done|done|]. intros q Hq Ha. by rewrite (Hna q Hq) in Ha.
    - destruct (IH t1 h (it + 1) pt1) as (g' & t' & it' & pt' & r & -> & Hps' & Hit' & Ept' & Hr & _); [by destruct Hps as [-> _]|done|lia|lia|done|].
      exists g', t', it', pt', r. split_and!; [done|by eapply passed_trans|lia|lia|lia|done|]. intros q Hq Ha. by rewrite (Hna q Hq) in Ha. }
  destruct (was_tried t p) eqn:Ht.
  - destruct (Hnext t pt (passed_refl now g t) Hpt ltac:(lia)) as (g' & t' & it' & pt' & r & E & Hres); [|exists g', t', it', pt', r; split; [exact E|exact Hres]]. intros q Hq. unfold available. by rewrite Ht.
  - destruct (lookup_lt_is_Some_2 (peer g) p Hp) as [q Hq]. rewrite Hq. cbn [mbind option_bind]. pose proof (usable_available t now p q Ht) as Hu. destruct (usable now q) as [q'|].
    + destruct Hu as [Ha Hc]. eexists _, _, _, _, _. split; [reflexivity|]. split_and!; [apply passed_refl|lia|lia|lia|by exists q, q'|]. done.
    + assert (Hbit : (p / 64 < length t)%nat) by (pose proof (words_div _ _ Hp); lia). pose proof (untried_pos _ _ _ Hp Ht). pose proof (untried_mark _ _ _ Hp Hbit Ht) as Hm.
      rewrite (u64_small (pt - 1)) by lia. destruct (Hnext (mark_tried t p) (pt - 1) (passed_mark now g t p q Hq Hbit Ht Hu) ltac:(lia) ltac:(lia)) as (g' & t' & it' & pt' & r & E & Hres); [|exists g', t', it', pt', r; split; [exact E|by rewrite Hq in Hres]]. intros q0 Hq0. congruence.
Qed.

(** ** A request for a peer *)

Lemma rr_one_group now g rrp pc : single g = false ->
  exists rc g' rrp' pc', rr_get now [g] rrp pc = (rc, [g'], rrp', pc') /\ tries pc' = tries pc /\
    ((rc = NGX_OK /\ tried rrp' = mark_tried (tried rrp) (current rrp') /\
      exists q, peer g !! current rrp' = Some q /\ available (tried rrp) now (current rrp') q = true /\ pc_name pc' = Some (rp_addr q)) \/
     (rc = NGX_BUSY /\ tried rrp' = tried rrp /\ none_available (tried rrp) now g)).
Proof.
  intros Hs. cbn [rr_get]. unfold rr_choose. rewrite Hs. pose proof (get_peer_spec now (peer g) rrp) as H. destruct (ngx_http_upstream_get_peer now (peer g) rrp) as [[ps' rrp'] [r|]]; destruct H as (_ & _ & _ & H).
  - destruct H as (Et & p & Hp & Haddr & Ha & _). eexists _, _, _, _. split; [reflexivity|]. split; [done|]. left. split_and!; [done|done|]. exists p. cbn. by rewrite Haddr.
  - destruct H as (-> & -> & Hnone). cbn. eexists _, _, _, _. split; [reflexivity|]. split; [done|]. right. by split_and!.
Qed.

(** The data of a request: as it begins, or as it is left by an earlier choice. *)
Definition request_fits g (iphp : ip_hash_data) (pc : peer_connection A) : Prop :=
  (words (number g) <= length (tried (iph_rrp iphp)))%nat /\ 0 <= iph_hash iphp < 6271 /\ 0 <= iph_tries iphp <= 21 /\ untried (number g) (tried (iph_rrp iphp)) <= tries pc < 2 ^ 64.

(** The peer that the address of the client selects next. *)
Definition slot g (iphp : ip_hash_data) : nat := hash_peer g (addr_hash (iph_addr iphp) (iph_hash iphp)).

(** What a request gets: an available peer, that of the address when this is available, or none when there is none. *)
Definition ip_outcome (now : Z) g (iphp : ip_hash_data) (pc : peer_connection A) (rc : Z) (iphp' : ip_hash_data) (pc' : peer_connection A) : Prop :=
  let t := tried (iph_rrp iphp) in
  let t' := tried (iph_rrp iphp') in
  let i := current (iph_rrp iphp') in
  (rc = NGX_OK /\ (exists q, peer g !! i = Some q /\ available t now i q = true /\ pc_name pc' = Some (rp_addr q)) /\ was_tried t' i = true /\
    (forall q, iph_tries iphp <= 20 -> peer g !! slot g iphp = Some q -> available t now (slot g iphp) q = true -> i = slot g iphp) /\
    tries pc' = tries pc - (untried (number g) t - untried (number g) t') + 1) \/
  (rc = NGX_BUSY /\ none_available t now g /\ tries pc' = tries pc - (untried (number g) t - untried (number g) t')).

Lemma untried_le n t t' : (forall i, was_tried t i = true -> was_tried t' i = true) -> untried n t' <= untried n t.
Proof.
  intros H. unfold untried. apply inj_le. induction (seq 0 n) as [|i l IH]; cbn; [done|]. specialize (H i). destruct (was_tried t i) eqn:E; [rewrite H by done; cbn; lia|]. destruct (was_tried t' i); cbn; lia.
Qed.

(** A peer of the group is taken. *)
Lemma take_ok now g iphp pc t1 i q iphp' (pc' : peer_connection A) :
  request_fits g iphp pc -> passed now g (tried (iph_rrp iphp)) t1 -> peer g !! i = Some q -> available t1 now i q = true ->
  current (iph_rrp iphp') = i -> tried (iph_rrp iphp') = mark_tried t1 i -> 0 <= iph_hash iphp' < 6271 -> 0 <= iph_tries iphp' <= 21 -> pc_name pc' = Some (rp_addr q) ->
  tries pc' = tries pc - (untried (number g) (tried (iph_rrp iphp)) - untried (number g) t1) ->
  (forall q, iph_tries iphp <= 20 -> peer g !! slot g iphp = Some q -> available (tried (iph_rrp iphp)) now (slot g iphp) q = true -> i = slot g iphp) ->
  ip_outcome now g iphp pc NGX_OK iphp' pc' /\ request_fits g iphp' pc'.
Proof.
  intros (Hl & Hh & Hit & Hpt) Hps Hq Ha Hc Hm Hh' Hit' Hn Ht Hslot. assert (Hi : (i < number g)%nat) by (by eapply lookup_lt_Some). pose proof Hps as (Hlen & Hmono & _).
  assert (Hbit : (i / 64 < length t1)%nat) by (pose proof (words_div _ _ Hi); lia). assert (Hnt : was_tried t1 i = false) by (unfold available in Ha; by destruct (was_tried _ _)).
  pose proof (untried_mark _ _ _ Hi Hbit Hnt) as Hu. pose proof (untried_le (number g) _ _ Hmono). pose proof (untried_pos _ _ _ Hi Hnt). split.
  - left. rewrite Hc, Hm. split_and!; [done| | |done|lia].
    + exists q. split_and!; [done| |done]. by eapply passed_available.
    + rewrite mark_tried_spec by done. by rewrite bool_decide_true, orb_true_r.
  - unfold request_fits. rewrite Hm, mark_tried_length, Hu. split_and!; lia.
Qed.

(** The round robin is asked. *)
Lemma fall_back now g iphp pc (iphp1 : ip_hash_data) (pc1 : peer_connection A) :
  single g = false -> request_fits g iphp pc -> passed now g (tried (iph_rrp iphp)) (tried (iph_rrp iphp1)) -> 0 <= iph_hash iphp1 < 6271 -> 0 <= iph_tries iphp1 <= 21 ->
  tries pc1 = tries pc - (untried (number g) (tried (iph_rrp iphp)) - untried (number g) (tried (iph_rrp iphp1))) ->
  (forall q, iph_tries iphp <= 20 -> peer g !! slot g iphp = Some q -> available (tried (iph_rrp iphp)) now (slot g iphp) q = true -> False) ->
  exists rc g' iphp' pc', (let '(rc, u, rrp, pc2) := rr_get now [g] (iph_rrp iphp1) pc1 in g ← head u; Some (rc, g, {| iphp1 with iph_rrp := rrp |}, pc2)) = Some (rc, g', iphp', pc') /\
    ip_outcome now g iphp pc rc iphp' pc' /\ request_fits g iphp' pc'.
Proof.
  intros Hs Hf Hps Hh1 Hit1 Hpt1 Hslot. destruct (rr_one_group now g (iph_rrp iphp1) pc1 Hs) as (rc & g' & rrp' & pc' & -> & Et & H). cbn [mbind option_bind head].
  exists rc, g', {| iphp1 with iph_rrp := rrp' |}, pc'. split; [done|]. destruct H as [(-> & Hm & q & Hq & Ha & Hn)|(-> & Hm & Hnone)].
  - eapply (take_ok now g iphp pc (tried (iph_rrp iphp1)) (current rrp') q); try done; [cbn; lia|]. intros q0 H1 H2 H3. destruct (Hslot q0 H1 H2 H3).
  - pose proof Hps as (Hlen & Hmono & _). pose proof (untried_le (number g) _ _ Hmono). destruct Hf as (Hl & Hh & Hit & Hpt). split.
    + right. cbn [iph_rrp]. rewrite Hm. split_and!; [done|by eapply passed_none|lia].
    + unfold request_fits. cbn [iph_rrp iph_hash iph_tries]. rewrite Hm. split_and!; lia.
Qed.

(** C32: a request for a peer by the address of the client reads no peer outside of the group, ends, and gets an available peer, or [NGX_BUSY] only when there is none; when the peer that the address selects is available, the request gets this one, whatever the state of the other peers; and the number of tries of the connection goes down by one for each peer that is marked as tried without being used, so that it does not wrap. *)
Theorem ip_hash_outcome now g iphp pc :
  group_fits g -> single g = false -> request_fits g iphp pc ->
  exists rc g' iphp' pc', ngx_http_upstream_get_ip_hash_peer now g iphp pc = Some (rc, g', iphp', pc') /\ ip_outcome now g iphp pc rc iphp' pc' /\ request_fits g iphp' pc'.
Proof.
  intros Hg Hs Hf. pose proof Hf as (Hl & Hh & Hit & Hpt). unfold ngx_http_upstream_get_ip_hash_peer. rewrite Hs, orb_false_r.
  destruct (Z.ltb_spec 20 (iph_tries iphp)) as [Hbig|Hsmall]; [apply fall_back; try done; [apply passed_refl|lia|intros; lia]|].
  destruct (ip_hash_loop_ok 21 now (iph_addr iphp) g _ (iph_hash iphp) (iph_tries iphp) (tries pc) Hg Hl Hh ltac:(lia) ltac:(lia) Hpt) as (g1 & t1 & it1 & pt1 & r & E & Hps & Hit1 & Hpt1 & Hr & Hslot).
  cbn [tries]. rewrite E. cbn [mbind option_bind]. destruct r as [[p h]|].
  - destruct Hr as (q & q' & Hq & Ha & -> & Hc & Hh1). eexists _, _, _, _. split; [reflexivity|]. eapply (take_ok now g iphp pc t1 p q); try done.
    + cbn. rewrite list_lookup_insert_eq by (by eapply lookup_lt_Some). cbn. injection Hc as -> _ _ _ _. done.
    + cbn. lia.
    + intros q0 _ Hq0 Ha0. specialize (Hslot q0 Hq0 Ha0). by injection Hslot as ->.
  - subst g1. apply fall_back; try done; [cbn; lia|]. intros q0 _ Hq0 Ha0. by specialize (Hslot q0 Hq0 Ha0).
Qed.

(** A request that begins has the data that it needs. *)
Lemma init_fits g sockaddr (pc : peer_connection A) : Z.of_nat (number g) < 2 ^ 64 ->
  let '(iphp, n) := ngx_http_upstream_init_ip_hash_peer sockaddr [g] in request_fits g iphp {| pc with tries := n |}.
Proof.
  intros Hn. unfold ngx_http_upstream_init_ip_hash_peer. pose proof (init_peer_words [g] ltac:(cbn; lia)) as Hw. pose proof (fresh_tried [g]) as Hfr.
  destruct (ngx_http_upstream_init_round_robin_peer [g]) as [rrp n] eqn:E. cbn [fst map] in *. apply Forall_cons in Hw as [Hw _]. unfold request_fits. cbn [iph_rrp iph_hash iph_tries tries]. unfold ngx_http_upstream_init_round_robin_peer in E. injection E as _ <-.
  assert (Hu : untried (number g) (tried rrp) <= Z.of_nat (number g)) by (unfold untried; apply inj_le; etransitivity; [apply List.filter_length_le|by rewrite length_seq]). split_and!; lia.
Qed.

(** Clients of one IPv4 network of 256 addresses select the same peer. *)
Lemma slot_network g g' a1 a2 u u' : take 3 a1 = take 3 a2 -> weighted g' = weighted g -> total_weight g' = total_weight g -> map peer_conf (peer g') = map peer_conf (peer g) ->
  slot g' (ngx_http_upstream_init_ip_hash_peer (AF_INET a1) u').1 = slot g (ngx_http_upstream_init_ip_hash_peer (AF_INET a2) u).1.
Proof.
  intros Ha Hw Ht Hc. unfold slot, ngx_http_upstream_init_ip_hash_peer. destruct (ngx_http_upstream_init_round_robin_peer u'), (ngx_http_upstream_init_round_robin_peer u). cbn [fst iph_addr iph_hash]. rewrite Ha. by apply hash_peer_conf.
Qed.

(** The hash is less than 6271, so that peers behind a weight of 6271 are selected by no address. *)
Lemma ip_hash_unreachable g q ps sockaddr u : peer g = q :: ps -> weighted g = true -> 6271 <= weight q < 2 ^ 63 -> weight q <= total_weight g ->
  slot g (ngx_http_upstream_init_ip_hash_peer sockaddr u).1 = 0%nat.
Proof.
  intros Hp Hw Hq Ht. unfold slot, ngx_http_upstream_init_ip_hash_peer. destruct (ngx_http_upstream_init_round_robin_peer u). cbn [fst iph_addr iph_hash]. match goal with |- context [addr_hash ?a _] => generalize a as addr end. intros addr. pose proof (addr_hash_range addr 89 ltac:(lia)).
  unfold hash_peer. rewrite Hw, Hp, Z.mod_small by lia. cbn [weight_index]. assert (s64 (addr_hash addr 89 - weight q) = addr_hash addr 89 - weight q) as -> by (unfold s64; rewrite Z.mod_small; lia). by rewrite (proj2 (Z.ltb_lt _ _)) by lia.
Qed.
End IpHash.
Arguments ip_hash_outcome {A}.

Definition ip_group : rr_peers Z := Eval vm_compute in nth 0 sample {| single := true; weighted := false; total_weight := 0; peer := [] |}.

(** The request of a client, and the group with the peer of its address down. *)
Definition ip_client : ip_hash_data := Eval vm_compute in (ngx_http_upstream_init_ip_hash_peer (AF_INET [192; 0; 2; 1]) [ip_group]).1.
Definition ip_down : rr_peers Z := Eval vm_compute in {| ip_group with peer := alter (fun q => {| q with down := true |}) (slot ip_group ip_client) (peer ip_group) |}.

(** The hash goes on to another peer. *)
Lemma ip_hash_outcome_witness :
  exists g' iphp' pc', ngx_http_upstream_get_ip_hash_peer 1000 ip_down ip_client sample_pc = Some (NGX_OK, g', iphp', pc') /\ ip_outcome 1000 ip_down ip_client sample_pc NGX_OK iphp' pc' /\
    current (iph_rrp iphp') <> slot ip_down ip_client /\ tries pc' = 2.
Proof.
  destruct (ip_hash_outcome 1000 ip_down ip_client sample_pc) as (rc & g' & iphp' & pc' & E & Ho & _).
  - split_and!; [cbn; lia| |intros _; vm_compute; split; reflexivity]. repeat (apply Forall_cons; split; [cbn; lia|]). constructor.
  - reflexivity.
  - assert (Eu : untried (number ip_down) (tried (iph_rrp ip_client)) = 3) by reflexivity. unfold request_fits. rewrite Eu. split_and!; cbn; lia.
  - pose proof E as E'. vm_compute in E'. injection E' as <- <- <- <-. eexists _, _, _. split; [exact E|]. split; [exact Ho|]. split; [vm_compute; lia|reflexivity].
Defined.
