(* ===== verification/UpstreamKeepalive.v ===== *)
(** * The cache of connections to upstream servers

    src/nginx-1.4.7/src/http/modules/ngx_http_upstream_keepalive_module.c: a
    balancer of any kind chooses the peer, and an idle connection to it is taken
    from a cache of a fixed number of items, where connections are put when requests
    end; the least recently used one is closed when the cache is full.

    The balancer is the class [Balancer], with the round robin and the balancer by
    connections as instances.  The two queues are lists of the numbers of the items
    ([NgxQueue] shows that a queue is a list), and the open connections are a map.
    What the system answers (events, the result of [recv]) is given with each
    operation.  SSL is left out. *)
From stdpp Require Import gmap.
From S2P Require Import Prelude UpstreamRoundRobin UpstreamLeastConn.

(** ** Balancers *)

(** What a kind of balancer has: the state that requests share, that of one request,
    and the operations [init], [get] and [free] of [u->peer]. *)
Class Balancer (A P D : Type) := {
  bal_init : P -> D * Z;
  bal_get : Z -> P -> D -> peer_connection A -> Z * P * D * peer_connection A;
  bal_free : Z -> P -> D -> peer_connection A -> Z -> P * peer_connection A
}.

(** What the cache relies on: [NGX_DONE] is left to it, a peer that was got has an
    address and no connection yet, and giving it back does not touch the connection. *)
Class BalancerLaws (A P D : Type) `{!Balancer A P D} := {
  bal_get_rc now p d (pc : peer_connection A) : (bal_get now p d pc).1.1.1 <> NGX_DONE;
  bal_get_ok now p d pc p' d' pc' : bal_get now p d pc = (NGX_OK, p', d', pc') -> pc_connection pc' = None /\ exists a, pc_name pc' = Some a;
  bal_free_ok now p d (pc : peer_connection A) state p' pc' : bal_free now p d pc state = (p', pc') -> pc_connection pc' = pc_connection pc
}.

(** ** Definitions *)

Section Keepalive.
Context {A P D : Type} `{!EqDecision A} `{!Balancer A P D}.

(** An open connection: [k_bad] says that an event of it has an end of file, an error
    or a timeout; [k_item] is the item in [c->data] and [k_addr] the peer that it was
    connected to.
    [core/ngx_connection.h:113-181] ngx_connection_s *)
Record ka_conn : Type := { k_addr : A; k_bad : bool; k_ready : bool; k_close : bool; k_idle : bool; k_item : option nat }.

(** [http/modules/ngx_http_upstream_keepalive_module.c:43-52] ngx_http_upstream_keepalive_cache_t *)
Record ka_item : Type := { it_conn : Z; it_addr : A }.

(** The queues and the items; an item that was never used holds nothing.
    [http/modules/ngx_http_upstream_keepalive_module.c:13-22] ngx_http_upstream_keepalive_srv_conf_t *)
Record ka_conf : Type := { ka_cache : list nat; ka_free : list nat; ka_items : list (option ka_item) }.

(** [http/modules/ngx_http_upstream_keepalive_module.c:145-161] allocate cache items and add to free queue *)
Definition init_keepalive (max_cached : nat) : ka_conf :=
  {| ka_cache := []; ka_free := rev (seq 0 max_cached); ka_items := repeat None max_cached |}.

(** The first item in the queue for the address.
    [http/modules/ngx_http_upstream_keepalive_module.c:233-243] for (q = ngx_queue_head(cache) *)
Fixpoint find_item (a : A) (items : list (option ka_item)) (cache : list nat) : option (nat * Z) :=
  match cache with
  | [] => None
  | q :: cache =>
      match mjoin (items !! q) with
      | Some item => if decide (it_addr item = a) then Some (q, it_conn item) else find_item a items cache
      | None => find_item a items cache
      end
  end.

Definition queue_remove (q : nat) (l : list nat) : list nat := filter (fun x => x <> q) l.

(** There is no result when no address was set with [NGX_OK].
    [http/modules/ngx_http_upstream_keepalive_module.c:208-264] ngx_http_upstream_get_keepalive_peer *)
Definition ngx_http_upstream_get_keepalive_peer (now : Z) (kcf : ka_conf) (net : gmap Z ka_conn) (p : P) (d : D) (pc : peer_connection A)
    : option (Z * ka_conf * gmap Z ka_conn * P * D * peer_connection A) :=
  let '(rc, p, d, pc) := bal_get now p d pc in
  if negb (rc =? NGX_OK) then Some (rc, kcf, net, p, d, pc)
  else
    a ← pc_name pc;
    match find_item a (ka_items kcf) (ka_cache kcf) with
    | Some (q, c) =>
        Some (NGX_DONE, {| kcf with ka_cache := queue_remove q (ka_cache kcf); ka_free := q :: ka_free kcf |},
              alter (fun k => {| k with k_idle := false |}) c net, p, d,
              {| pc with pc_connection := Some c; pc_cached := true |})
    | None => Some (NGX_OK, kcf, net, p, d, pc)
    end.

(** [http/modules/ngx_http_upstream_keepalive_module.c:410-430] ngx_http_upstream_keepalive_close *)
Definition ngx_http_upstream_keepalive_close (c : Z) (net : gmap Z ka_conn) : gmap Z ka_conn := delete c net.

(** [again] says that [recv] finds nothing to read yet, and [handled] that the event
    could be added.
    [http/modules/ngx_http_upstream_keepalive_module.c:367-407] ngx_http_upstream_keepalive_close_handler *)
Definition ngx_http_upstream_keepalive_close_handler (c : Z) (again handled : bool) (kcf : ka_conf) (net : gmap Z ka_conn) : option (ka_conf * gmap Z ka_conn) :=
  k ← net !! c;
  if negb (k_close k) && again && handled then Some (kcf, net)
  else
    item ← k_item k;
    Some ({| kcf with ka_cache := queue_remove item (ka_cache kcf); ka_free := item :: queue_remove item (ka_free kcf) |},
          ngx_http_upstream_keepalive_close c net).

(** The item for a connection: the first free one, or the last of the cache, whose
    connection is closed.
    [http/modules/ngx_http_upstream_keepalive_module.c:308-322] if (ngx_queue_empty(&kp->conf->free)) *)
Definition take_item (kcf : ka_conf) (net : gmap Z ka_conn) : option (nat * ka_conf * gmap Z ka_conn) :=
  match ka_free kcf with
  | q :: free => Some (q, {| kcf with ka_free := free |}, net)
  | [] =>
      q ← last (ka_cache kcf);
      item ← mjoin (ka_items kcf !! q);
      Some (q, {| kcf with ka_cache := queue_remove q (ka_cache kcf) |}, ngx_http_upstream_keepalive_close (it_conn item) net)
  end.

(** [keepalive] is [u->keepalive], [added] the result of the first call of
    [ngx_handle_read_event], and [again] and [handled] are for the handler.
    [http/modules/ngx_http_upstream_keepalive_module.c:267-356] ngx_http_upstream_free_keepalive_peer *)
Definition ngx_http_upstream_free_keepalive_peer (now : Z) (kcf : ka_conf) (net : gmap Z ka_conn) (p : P) (d : D) (pc : peer_connection A)
    (state : Z) (keepalive added again handled : bool) : option (ka_conf * gmap Z ka_conn * P * peer_connection A) :=
  let invalid kcf net pc := let '(p, pc) := bal_free now p d pc state in Some (kcf, net, p, pc) in
  match pc_connection pc with
  | None => invalid kcf net pc
  | Some c =>
      k ← net !! c;
      if negb (Z.land state NGX_PEER_FAILED =? 0) || k_bad k || negb keepalive || negb added then invalid kcf net pc
      else
        '(q, kcf, net) ← take_item kcf net;
        a ← pc_name pc;
        let kcf := {| kcf with ka_items := <[q := Some {| it_conn := c; it_addr := a |}]> (ka_items kcf); ka_cache := q :: ka_cache kcf |} in
        let pc := {| pc with pc_connection := None |} in
        let net := alter (fun k => {| k with k_item := Some q; k_idle := true |}) c net in
        '(kcf, net) ← (if k_ready k then ngx_http_upstream_keepalive_close_handler c again handled kcf net else Some (kcf, net));
        invalid kcf net pc
  end.
End Keepalive.
Arguments ka_conn : clear implicits.
Arguments ka_item : clear implicits.
Arguments ka_conf : clear implicits.

(** ** The balancers *)

#[export] Instance rr_balancer {A} : Balancer A (list (rr_peers A)) rr_peer_data := {|
  bal_init := ngx_http_upstream_init_round_robin_peer;
  bal_get := ngx_http_upstream_get_round_robin_peer;
  bal_free := ngx_http_upstream_free_round_robin_peer
|}.

#[export] Instance lc_balancer {A} : Balancer A (list (rr_peers A) * list Z) lc_peer_data := {|
  bal_init := fun p => ngx_http_upstream_init_least_conn_peer p.1;
  bal_get := fun now p lcp pc => let '(rc, u, conns, lcp, pc) := ngx_http_upstream_get_least_conn_peer now p.1 p.2 lcp pc in (rc, (u, conns), lcp, pc);
  bal_free := fun now p lcp pc state => let '(u, conns, pc) := ngx_http_upstream_free_least_conn_peer now p.1 p.2 lcp pc state in (u, conns, pc)
|}.

Section Instances.
Context {A : Type}.

Lemma rr_get_connection now (u : list (rr_peers A)) rrp pc u' rrp' pc' : rr_get now u rrp pc = (NGX_OK, u', rrp', pc') -> pc_connection pc' = None /\ exists a, pc_name pc' = Some a.
Proof.
  revert rrp pc u' rrp' pc'; induction u as [|g next IH]; intros rrp pc u' rrp' pc'; cbn [rr_get]; [done|]. destruct (rr_choose now g rrp) as [[g' rrp1] [p|]]; [intros [= <- <- <-]; by eauto|].
  destruct next as [|b next]; [done|]. destruct (rr_get now (b :: next) _ _) as [[[rc u1] rrp2] pc1] eqn:E. destruct (Z.eqb_spec rc NGX_BUSY); [done|]. intros [= -> <- <- <-]. by eapply IH.
Qed.

Lemma rr_get_not_done now (u : list (rr_peers A)) rrp pc : (rr_get now u rrp pc).1.1.1 <> NGX_DONE.
Proof.
  revert rrp pc; induction u as [|g next IH]; intros rrp pc; cbn [rr_get]; [done|]. destruct (rr_choose now g rrp) as [[g' rrp1] [p|]]; [done|]. destruct next as [|b next]; [done|].
  match goal with |- context [rr_get now (b :: next) ?r ?c] => specialize (IH r c); destruct (rr_get now (b :: next) r c) as [[[rc u1] rrp2] pc1] end. by destruct (Z.eqb_spec rc NGX_BUSY).
Qed.

Lemma rr_free_connection now (u : list (rr_peers A)) rrp pc state u' pc' : ngx_http_upstream_free_round_robin_peer now u rrp pc state = (u', pc') -> pc_connection pc' = pc_connection pc.
Proof. unfold ngx_http_upstream_free_round_robin_peer. destruct (u !! _) as [g|]; [|by intros [= _ <-]]. destruct (single g); [by intros [= _ <-]|]. destruct (negb _); by intros [= _ <-]. Qed.

#[export] Instance rr_balancer_laws : BalancerLaws A (list (rr_peers A)) rr_peer_data.
Proof.
  split.
  - intros now u rrp pc. cbn. unfold ngx_http_upstream_get_round_robin_peer. pose proof (rr_get_not_done now (drop (rr_level rrp) u) rrp pc). by destruct (rr_get _ _ _ _) as [[[rc u1] rrp1] pc1].
  - intros now u rrp pc u' rrp' pc'. cbn. unfold ngx_http_upstream_get_round_robin_peer. destruct (rr_get _ _ _ _) as [[[rc u1] rrp1] pc1] eqn:E. intros [= -> <- <- <-]. by eapply rr_get_connection.
  - intros now u rrp pc state u' pc'. apply rr_free_connection.
Qed.

Lemma least_choose_lookup t now cs (ps ps' : list (rr_peer A)) p : least_choose t now cs ps = Some (p, ps') -> exists q, ps' !! p = Some q.
Proof.
  assert (Hl : forall i (ps : list (rr_peer A)) b many p w many', (forall p0 w0, b = Some (p0, w0) -> (p0 < i)%nat) -> least_loop t now cs i ps b many = (Some (p, w), many') -> (p < i + length ps)%nat).
  { intros i l. revert i. induction l as [|q l IH]; intros i b many p0 w many' Hb; cbn [least_loop length]; [intros [= -> _]; specialize (Hb _ _ eq_refl); lia|]. replace (i + S (length l))%nat with (S i + length l)%nat by lia.
    assert (Hb' : forall p0 w0, b = Some (p0, w0) -> (p0 < S i)%nat) by (intros p1 w1 E1; specialize (Hb _ _ E1); lia). assert (Hi : forall (w : Z) p0 w0, Some (i, w) = Some (p0, w0) -> (p0 < S i)%nat) by (intros ? ? ? [= -> _]; lia).
    destruct (available t now i q); [|intros E; by eapply IH]. destruct b as [[pb wb]|]; [cbv zeta; destruct (_ <? _)|]; intros E; (eapply IH; [|exact E]); first [exact Hb'|apply Hi]. }
  assert (Hm : forall i (ps : list (rr_peer A)) p w cw total, (p < i + length ps)%nat -> let '(out, p', _) := many_loop t now cs i ps p w cw total in length out = length ps /\ (p' < i + length ps)%nat).
  { intros i l. revert i. induction l as [|q l IH]; intros i p0 w cw total Hp; cbn [many_loop length] in *; [done|]. replace (i + S (length l))%nat with (S i + length l)%nat in * by lia. destruct (_ && _).
    - cbv zeta. match goal with |- context [if ?b <? _ then _ else _] => destruct (b <? current_weight (gain q)) end.
      + specialize (IH (S i) i (weight q) (current_weight (gain q)) (s64 (total + effective_weight q)) ltac:(lia)). destruct (many_loop _ _ _ _ _ _ _ _ _) as [[out p'] tot]. cbn. lia.
      + match goal with |- context [many_loop _ _ _ _ _ _ _ ?c ?s] => specialize (IH (S i) p0 w c s Hp) end. destruct (many_loop _ _ _ _ _ _ _ _ _) as [[out p'] tot]. cbn. lia.
    - specialize (IH (S i) p0 w cw total Hp). destruct (many_loop _ _ _ _ _ _ _ _ _) as [[out p'] tot]. cbn. lia. }
  unfold least_choose. destruct (least_loop t now cs 0 ps None false) as [[[p0 w]|] many] eqn:E; [|done]. apply Hl in E; [|done]. cbn in E. destruct many.
  - specialize (Hm p0 (drop p0 ps) p0 w (from_option current_weight 0 (ps !! p0)) 0). rewrite length_drop in Hm. destruct (many_loop _ _ _ _ _ _ _ _ _) as [[out p'] tot]. intros [= <- <-]. destruct Hm as [H1 H2]; [lia|].
    apply lookup_lt_is_Some_2. rewrite length_alter, length_app, length_take. lia.
  - intros [= <- <-]. apply lookup_lt_is_Some_2. by rewrite length_alter.
Qed.

Lemma lc_get_connection now (u : list (rr_peers A)) conns lcp pc u' conns' lcp' pc' : lc_get now u conns lcp pc = (NGX_OK, u', conns', lcp', pc') -> pc_connection pc' = None /\ exists a, pc_name pc' = Some a.
Proof.
  revert conns lcp pc u' conns' lcp' pc'; induction u as [|g next IH]; intros conns lcp pc u' conns' lcp' pc'; cbn [lc_get]; [done|]. destruct (single g).
  - destruct (rr_get now (g :: next) _ _) as [[[rc u1] rrp1] pc1] eqn:E. intros [= -> <- <- <- <-]. by eapply rr_get_connection.
  - destruct (least_choose _ _ _ _) as [[p ps]|] eqn:E.
    + intros [= <- <- <- <-]. destruct (least_choose_lookup _ _ _ _ _ _ E) as [q Hq]. cbn. rewrite Hq. by eauto.
    + destruct next as [|b next]; [done|]. destruct (lc_get now (b :: next) _ _ _) as [[[[rc u1] conns1] lcp1] pc1] eqn:E1. destruct (Z.eqb_spec rc NGX_BUSY); [done|]. intros [= -> <- <- <- <-]. by eapply IH.
Qed.

Lemma lc_get_not_done now (u : list (rr_peers A)) conns lcp pc : (lc_get now u conns lcp pc).1.1.1.1 <> NGX_DONE.
Proof.
  revert conns lcp pc; induction u as [|g next IH]; intros conns lcp pc; cbn [lc_get]; [done|]. destruct (single g).
  - pose proof (rr_get_not_done now (g :: next) (lcp_rrp lcp) pc). by destruct (rr_get _ _ _ _) as [[[rc u1] rrp1] pc1].
  - destruct (least_choose _ _ _ _) as [[p ps]|]; [done|]. destruct next as [|b next]; [done|].
    match goal with |- context [lc_get now (b :: next) ?cs ?r ?c] => specialize (IH cs r c); destruct (lc_get now (b :: next) cs r c) as [[[[rc u1] conns1] lcp1] pc1] end. by destruct (Z.eqb_spec rc NGX_BUSY).
Qed.

#[export] Instance lc_balancer_laws : BalancerLaws A (list (rr_peers A) * list Z) lc_peer_data.
Proof.
  split.
  - intros now [u conns] lcp pc. cbn. unfold ngx_http_upstream_get_least_conn_peer. pose proof (lc_get_not_done now (drop (rr_level (lcp_rrp lcp)) u) conns lcp pc). by destruct (lc_get _ _ _ _ _) as [[[[rc u1] conns1] lcp1] pc1].
  - intros now [u conns] lcp pc p' lcp' pc'. cbn. unfold ngx_http_upstream_get_least_conn_peer. destruct (lc_get _ _ _ _ _) as [[[[rc u1] conns1] lcp1] pc1] eqn:E. intros [= -> <- <- <-]. by eapply lc_get_connection.
  - intros now [u conns] lcp pc state p' pc'. cbn. unfold ngx_http_upstream_free_least_conn_peer. destruct (ngx_http_upstream_free_round_robin_peer _ _ _ _ _) as [u1 pc1] eqn:E. intros [= <- <-]. by eapply rr_free_connection.
Qed.
End Instances.

(** ** Requests and connections *)

Section System.
Context {A P D : Type} `{!EqDecision A} `{!Balancer A P D, !BalancerLaws A P D}.

(** A request; [kr_held] says that it has a peer. *)
Record ka_req : Type := { kr_data : D; kr_pc : peer_connection A; kr_held : bool }.

Record ka_sys : Type := { sy_conf : ka_conf A; sy_net : gmap Z (ka_conn A); sy_bal : P; sy_reqs : list ka_req }.

(** What happens: a request begins; it asks for a peer, and when there is no idle
    connection a new one may be opened; it gives the peer back, and a connection that
    was not cached is closed; the handler of an idle connection is called; the
    network or the server changes the state of a connection. *)
Inductive ka_event : Type :=
| ev_start (pc : peer_connection A)
| ev_ask (r : nat) (now : Z) (connect : option Z)
| ev_give (r : nat) (now state : Z) (keepalive added again handled : bool)
| ev_idle (c : Z) (again handled : bool)
| ev_change (c : Z) (bad ready close : bool).

Definition set_req (r : nat) (req : ka_req) (s : ka_sys) : ka_sys := {| s with sy_reqs := <[r := req]> (sy_reqs s) |}.

(** A connection that is opened after [NGX_OK]; the number of an open one is not used
    again.  [None] when the socket or the connection cannot be made. *)
Definition connect_peer (connect : option Z) (net : gmap Z (ka_conn A)) (pc : peer_connection A) : gmap Z (ka_conn A) * peer_connection A :=
  match connect, pc_name pc with
  | Some c, Some a =>
      match net !! c with
      | None => (<[c := {| k_addr := a; k_bad := false; k_ready := false; k_close := false; k_idle := false; k_item := None |}]> net, {| pc with pc_connection := Some c |})
      | Some _ => (net, pc)
      end
  | _, _ => (net, pc)
  end.

Definition ka_step (e : ka_event) (s : ka_sys) : option ka_sys :=
  match e with
  | ev_start pc =>
      let '(d, n) := bal_init (sy_bal s) in
      Some {| s with sy_reqs := sy_reqs s ++ [{| kr_data := d; kr_pc := {| pc with tries := n; pc_connection := None |}; kr_held := false |}] |}
  | ev_ask r now connect =>
      match sy_reqs s !! r with
      | Some req =>
          if kr_held req then Some s
          else
            '(rc, kcf, net, p, d, pc) ← ngx_http_upstream_get_keepalive_peer now (sy_conf s) (sy_net s) (sy_bal s) (kr_data req) (kr_pc req);
            let '(net, pc) := if rc =? NGX_OK then connect_peer connect net pc else (net, pc) in
            let pc := if (rc =? NGX_OK) || (rc =? NGX_DONE) then pc else {| pc with pc_connection := None |} in
            Some (set_req r {| kr_data := d; kr_pc := pc; kr_held := (rc =? NGX_OK) || (rc =? NGX_DONE) |} {| s with sy_conf := kcf; sy_net := net; sy_bal := p |})
      | None => Some s
      end
  | ev_give r now state keepalive added again handled =>
      match sy_reqs s !! r with
      | Some req =>
          if kr_held req then
            '(kcf, net, p, pc) ← ngx_http_upstream_free_keepalive_peer now (sy_conf s) (sy_net s) (sy_bal s) (kr_data req) (kr_pc req) state keepalive added again handled;
            let net := match pc_connection pc with Some c => delete c net | None => net end in
            Some (set_req r {| kr_data := kr_data req; kr_pc := {| pc with pc_connection := None |}; kr_held := false |} {| s with sy_conf := kcf; sy_net := net; sy_bal := p |})
          else Some s
      | None => Some s
      end
  | ev_idle c again handled =>
      match sy_net s !! c with
      | Some k =>
          if k_idle k then
            '(kcf, net) ← ngx_http_upstream_keepalive_close_handler c again handled (sy_conf s) (sy_net s);
            Some {| s with sy_conf := kcf; sy_net := net |}
          else Some s
      | None => Some s
      end
  | ev_change c bad ready close => Some {| s with sy_net := alter (fun k => {| k with k_bad := bad; k_ready := ready; k_close := close |}) c (sy_net s) |}
  end.

Fixpoint ka_run (es : list ka_event) (s : ka_sys) : option ka_sys :=
  match es with
  | [] => Some s
  | e :: es => s ← ka_step e s; ka_run es s
  end.

(** ** The invariant *)

(** The connection of a request. *)
Definition uses (reqs : list ka_req) (r : nat) (c : Z) : Prop := exists req, reqs !! r = Some req /\ pc_connection (kr_pc req) = Some c.

(** The idle connections, with their peer and item, and those in use, with their peer. *)
Definition idle (net : gmap Z (ka_conn A)) (c : Z) : option (A * option nat) := k ← net !! c; if k_idle k then Some (k_addr k, k_item k) else None.
Definition busy (net : gmap Z (ka_conn A)) (c : Z) : option A := k ← net !! c; if k_idle k then None else Some (k_addr k).

(** The cache: the items are in one of the queues, and an idle connection in just one item. *)
Record cache_ok (max : nat) (kcf : ka_conf A) (v : Z -> option (A * option nat)) : Prop := {
  co_queues : ka_cache kcf ++ ka_free kcf ≡ₚ seq 0 max;
  co_items : length (ka_items kcf) = max;
  co_cached : forall q, q ∈ ka_cache kcf -> exists c a, ka_items kcf !! q = Some (Some {| it_conn := c; it_addr := a |}) /\ v c = Some (a, Some q);
  co_idle : forall c a i, v c = Some (a, i) -> exists q, i = Some q /\ q ∈ ka_cache kcf /\ ka_items kcf !! q = Some (Some {| it_conn := c; it_addr := a |})
}.

(** The requests: a connection in use is open, was made to the peer of the request, and is used by one request only. *)
Record reqs_ok (b : Z -> option A) (reqs : list ka_req) : Prop := {
  ro_held : forall r req, reqs !! r = Some req -> if kr_held req then is_Some (pc_name (kr_pc req)) else pc_connection (kr_pc req) = None;
  ro_used : forall r req c, reqs !! r = Some req -> pc_connection (kr_pc req) = Some c -> exists a, b c = Some a /\ pc_name (kr_pc req) = Some a;
  ro_one : forall r r' c, uses reqs r c -> uses reqs r' c -> r = r';
  ro_all : forall c a, b c = Some a -> exists r, uses reqs r c
}.

Definition upd {X} (v : Z -> option X) (c : Z) (o : option X) : Z -> option X := fun x => if decide (x = c) then o else v x.

Lemma cache_ext max kcf v v' : (forall c, v' c = v c) -> cache_ok max kcf v -> cache_ok max kcf v'.
Proof.
  intros H [H1 H2 H3 H4]. split; [done|done| |].
  - intros q Hq. destruct (H3 q Hq) as (c & a & Hi & Hv). exists c, a. by rewrite H.
  - intros c a i Hv. rewrite H in Hv. by apply H4.
Qed.

Lemma reqs_ext b b' reqs : (forall c, b' c = b c) -> reqs_ok b reqs -> reqs_ok b' reqs.
Proof.
  intros H [H1 H2 H3 H4]. split; [done| |done|].
  - intros r req c Hr Hc. destruct (H2 r req c Hr Hc) as (a & Hb & Hn). exists a. by rewrite H.
  - intros c a Hb. rewrite H in Hb. by eapply H4.
Qed.

(** ** The queues *)

Lemma queue_remove_absent q l : q ∉ l -> queue_remove q l = l.
Proof. intros Hq. unfold queue_remove. induction l as [|x l IH]; [done|]. rewrite elem_of_cons in Hq. rewrite filter_cons_True; [rewrite IH; tauto|]. intros ->. tauto. Qed.

Lemma queue_remove_perm q l l' max : l ++ l' ≡ₚ seq 0 max -> q ∈ l -> queue_remove q l ++ q :: l' ≡ₚ seq 0 max.
Proof.
  intros Hp Hq. assert (Hnd : NoDup (l ++ l')) by (rewrite Hp; apply NoDup_ListNoDup, seq_NoDup). apply NoDup_app in Hnd as (Hl & _ & _).
  assert (Hr : q :: queue_remove q l ≡ₚ l).
  { clear Hp. unfold queue_remove. induction l as [|x l IH]; [by apply elem_of_nil in Hq|]. apply NoDup_cons in Hl as [Hx Hl]. destruct (decide (x = q)) as [->|Hne].
    - rewrite filter_cons_False by (intros H; by apply H). fold (queue_remove q l). by rewrite queue_remove_absent.
    - rewrite filter_cons_True by done. apply elem_of_cons in Hq as [->|Hq]; [done|]. rewrite perm_swap. by rewrite (IH Hq Hl). }
  transitivity ((q :: queue_remove q l) ++ l'); [by rewrite <- Permutation_middle|]. by rewrite Hr.
Qed.

Lemma queue_remove_in q x l : x ∈ queue_remove q l <-> x ∈ l /\ x <> q.
Proof. unfold queue_remove. rewrite list_elem_of_filter. tauto. Qed.

(** An item leaves the cache with its connection. *)
Lemma cache_remove max kcf v q c a : cache_ok max kcf v -> v c = Some (a, Some q) ->
  cache_ok max {| kcf with ka_cache := queue_remove q (ka_cache kcf); ka_free := q :: queue_remove q (ka_free kcf) |} (upd v c None) /\ q ∉ ka_free kcf.
Proof.
  intros [H1 H2 H3 H4] Hv. destruct (H4 c a (Some q) Hv) as (q' & [= <-] & Hq & Hi).
  assert (Hf : q ∉ ka_free kcf). { intros Hf. assert (Hnd : NoDup (ka_cache kcf ++ ka_free kcf)) by (rewrite H1; apply NoDup_ListNoDup, seq_NoDup). apply NoDup_app in Hnd as (_ & Hd & _). by apply (Hd q). }
  split; [|done]. rewrite (queue_remove_absent q (ka_free kcf)) by done. split; cbn [ka_cache ka_free ka_items]; [by apply queue_remove_perm|done| |].
  - intros x [Hx Hne]%queue_remove_in. destruct (H3 x Hx) as (c' & a' & Hi' & Hv'). exists c', a'. split; [done|]. unfold upd. rewrite decide_False; [done|]. intros ->. congruence.
  - intros c' a' i Hc'. unfold upd in Hc'. case_decide as Hne; [done|]. destruct (H4 c' a' i Hc') as (x & -> & Hx & Hxi). exists x. split_and!; [done| |done]. apply queue_remove_in. split; [done|]. intros ->. congruence.
Qed.

Lemma find_item_some (a : A) items cache q c : find_item a items cache = Some (q, c) -> q ∈ cache /\ items !! q = Some (Some {| it_conn := c; it_addr := a |}).
Proof.
  induction cache as [|x cache IH]; cbn [find_item]; [done|]. destruct (items !! x) as [[[c' a']|]|] eqn:E; cbn [mjoin option_join it_addr it_conn].
  - case_decide as Ha; [intros [= <- <-]; subst; by split; [left|]|]. intros H. destruct (IH H). by split; [right|].
  - intros H. destruct (IH H). by split; [right|].
  - intros H. destruct (IH H). by split; [right|].
Qed.

Lemma cache_find max kcf v (a : A) q c : cache_ok max kcf v -> find_item a (ka_items kcf) (ka_cache kcf) = Some (q, c) -> v c = Some (a, Some q).
Proof. intros [_ _ H3 _] H. apply find_item_some in H as [Hq Hi]. destruct (H3 q Hq) as (c' & a' & Hi' & Hv). rewrite Hi in Hi'. by injection Hi' as <- <-. Qed.

(** ** The map of connections *)

Lemma idle_delete (net : gmap Z (ka_conn A)) c x : idle (delete c net) x = upd (idle net) c None x.
Proof. unfold idle, upd. case_decide as H; [subst; by rewrite lookup_delete_eq|by rewrite lookup_delete_ne]. Qed.

Lemma busy_delete net c x : busy (delete c net) x = upd (busy net) c None x.
Proof. unfold busy, upd. case_decide as H; [subst; by rewrite lookup_delete_eq|by rewrite lookup_delete_ne]. Qed.

Lemma idle_busy net c a i : idle net c = Some (a, i) -> busy net c = None.
Proof. unfold idle, busy. destruct (net !! c) as [k|]; [|done]. cbn. by destruct (k_idle k). Qed.

Lemma idle_set net c f x : idle (alter f c net) x = upd (idle net) c (k ← net !! c; if k_idle (f k) then Some (k_addr (f k), k_item (f k)) else None) x.
Proof. unfold idle, upd. case_decide as H; [subst; rewrite lookup_alter_eq; by destruct (net !! c)|by rewrite lookup_alter_ne]. Qed.

Lemma busy_set net c f x : busy (alter f c net) x = upd (busy net) c (k ← net !! c; if k_idle (f k) then None else Some (k_addr (f k))) x.
Proof. unfold busy, upd. case_decide as H; [subst; rewrite lookup_alter_eq; by destruct (net !! c)|by rewrite lookup_alter_ne]. Qed.

Lemma upd_same {X} (v : Z -> option X) c x : upd v c (v c) x = v x.
Proof. unfold upd. case_decide; congruence. Qed.

(** ** The item for a connection *)

Lemma take_item_ok max kcf net : (0 < max)%nat -> cache_ok max kcf (idle net) ->
  exists q kcf' net' e, take_item kcf net = Some (q, kcf', net') /\ (q < max)%nat /\ ka_items kcf' = ka_items kcf /\ q :: ka_cache kcf' ++ ka_free kcf' ≡ₚ seq 0 max /\
    ((e = None /\ net' = net /\ (q ∉ ka_cache kcf) /\ ka_cache kcf' = ka_cache kcf) \/
     exists c a, e = Some c /\ net' = delete c net /\ idle net c = Some (a, Some q) /\ ka_cache kcf' = queue_remove q (ka_cache kcf)).
Proof.
  intros Hmax [H1 H2 H3 H4]. assert (Hlt : forall x, x ∈ ka_cache kcf ++ ka_free kcf -> (x < max)%nat) by (intros x Hx; rewrite H1 in Hx; apply elem_of_seq in Hx; lia).
  assert (Hnd : NoDup (ka_cache kcf ++ ka_free kcf)) by (rewrite H1; apply NoDup_ListNoDup, seq_NoDup).
  unfold take_item. destruct (ka_free kcf) as [|q free] eqn:Ef.
  - rewrite app_nil_r in *. assert (Hl : exists l q, ka_cache kcf = l ++ [q]).
    { destruct (ka_cache kcf) as [|x l'] eqn:Ec using rev_ind; [|by eauto]. apply Permutation_length in H1. rewrite length_seq in H1. cbn in H1. lia. }
    destruct Hl as (l & q & Ec). assert (Hq : q ∈ ka_cache kcf) by (rewrite Ec; apply elem_of_app; right; left). destruct (H3 q Hq) as (c & a & Hi & Hv). assert (last (ka_cache kcf) = Some q) as -> by (by rewrite Ec, last_snoc). cbn [mbind option_bind]. rewrite Hi. cbn [mjoin option_join mbind option_bind it_conn].
    eexists q, _, _, (Some c). split; [reflexivity|]. cbn [ka_items ka_cache ka_free]. split_and!; [by apply Hlt|done| |right; by exists c, a]. rewrite app_nil_r.
    pose proof (queue_remove_perm q (ka_cache kcf) [] max ltac:(by rewrite app_nil_r) Hq) as Hp. by rewrite <- Permutation_cons_append in Hp.
  - eexists q, _, _, None. split; [reflexivity|]. cbn [ka_items ka_cache ka_free]. split_and!; [apply Hlt, elem_of_app; right; left|done| |].
    + by rewrite <- H1, <- Permutation_middle.
    + left. split_and!; [done|done| |done]. intros Hq. apply NoDup_app in Hnd as (_ & Hd & _). apply (Hd q Hq). left.
Qed.

(** The connection [c] is put to the item [q]. *)
Lemma put_item_ok max kcf kcf' v q c a :
  cache_ok max kcf v -> (q < max)%nat -> ka_items kcf' = ka_items kcf -> q :: ka_cache kcf' ++ ka_free kcf' ≡ₚ seq 0 max ->
  (forall x, x ∈ ka_cache kcf' <-> x ∈ ka_cache kcf /\ x <> q) -> (forall x, v x <> None -> x <> c) ->
  cache_ok max {| kcf' with ka_items := <[q := Some {| it_conn := c; it_addr := a |}]> (ka_items kcf'); ka_cache := q :: ka_cache kcf' |}
    (upd (fun x => match v x with Some (b, i) => if decide (i = Some q) then None else Some (b, i) | None => None end) c (Some (a, Some q))).
Proof.
  intros [H1 H2 H3 H4] Hq Hit Hp Hc Hv. split; cbn [ka_cache ka_free ka_items]; [done|by rewrite length_insert, Hit| |].
  - intros x [->|Hx]%elem_of_cons.
    + exists c, a. rewrite list_lookup_insert_eq by (rewrite Hit; lia). unfold upd. by rewrite decide_True.
    + apply Hc in Hx as [Hx Hne]. destruct (H3 x Hx) as (c' & a' & Hi & Hv'). exists c', a'. rewrite list_lookup_insert_ne, Hit by done. split; [done|]. unfold upd. rewrite decide_False by (apply Hv; by rewrite Hv'). rewrite Hv'. rewrite decide_False; [done|]. congruence.
  - intros c' a' i Hc'. unfold upd in Hc'. case_decide as Hcc.
    + injection Hc' as <- <-. subst c'. exists q. split_and!; [done|left|]. rewrite list_lookup_insert_eq by (rewrite Hit; lia). done.
    + destruct (v c') as [[b i']|] eqn:Ev; [|done]. case_decide as Hi; [done|]. injection Hc' as -> ->. destruct (H4 c' a' i Ev) as (x & -> & Hx & Hxi). exists x. assert (x <> q) by congruence. split_and!; [done|right; by apply Hc|]. by rewrite list_lookup_insert_ne, Hit.
Qed.

(** ** The requests *)

Lemma uses_insert reqs r req req' x c : reqs !! r = Some req -> uses (<[r := req']> reqs) x c <-> if decide (x = r) then pc_connection (kr_pc req') = Some c else uses reqs x c.
Proof.
  intros Hr. unfold uses. case_decide as H; [subst x; rewrite list_lookup_insert_eq by (by eapply lookup_lt_Some)|by rewrite list_lookup_insert_ne].
  split; [by intros (? & [= <-] & ?)|by eauto].
Qed.

Lemma reqs_attach b reqs r req req' c a : reqs_ok b reqs -> reqs !! r = Some req -> pc_connection (kr_pc req) = None -> b c = None ->
  kr_held req' = true -> pc_name (kr_pc req') = Some a -> pc_connection (kr_pc req') = Some c -> reqs_ok (upd b c (Some a)) (<[r := req']> reqs).
Proof.
  intros [H1 H2 H3 H4] Hr Hn Hb Hh Ha Hc. assert (Hother : forall x, ~ uses reqs x c) by (intros x (rq & Hx & Hxc); destruct (H2 _ _ _ Hx Hxc) as (? & ? & _); congruence). split.
  - intros x rq Hx. apply list_lookup_insert_Some in Hx as [(<- & <- & _)|[_ Hx]]; [rewrite Hh, Ha; by eauto|by eapply H1].
  - intros x rq c' Hx Hc'. apply list_lookup_insert_Some in Hx as [(<- & <- & _)|[Hne Hx]]; [rewrite Hc in Hc'; injection Hc' as <-; exists a; unfold upd; by rewrite decide_True|].
    destruct (H2 _ _ _ Hx Hc') as (a' & Hb' & Hn'). exists a'. unfold upd. rewrite decide_False; [done|]. intros ->. congruence.
  - intros x y c'. rewrite !(uses_insert _ _ _ _ _ _ Hr). do 2 case_decide; intros Hx Hy; subst; [done|..|by eapply H3].
    + rewrite Hc in Hx. injection Hx as <-. destruct (Hother y Hy).
    + rewrite Hc in Hy. injection Hy as <-. destruct (Hother x Hx).
  - intros c' a' Hb'. unfold upd in Hb'. case_decide as Hcc; [subst c'; exists r; apply (uses_insert _ _ _ _ _ _ Hr); by rewrite decide_True|]. destruct (H4 c' a' Hb') as [x Hx]. exists x. apply (uses_insert _ _ _ _ _ _ Hr). rewrite decide_False; [done|]. intros ->. destruct Hx as (rq & Hx & Hxc). congruence.
Qed.

Lemma reqs_detach b reqs r req req' : reqs_ok b reqs -> reqs !! r = Some req -> pc_connection (kr_pc req') = None -> (kr_held req' = true -> is_Some (pc_name (kr_pc req'))) ->
  reqs_ok (match pc_connection (kr_pc req) with Some c => upd b c None | None => b end) (<[r := req']> reqs).
Proof.
  intros [H1 H2 H3 H4] Hr Hn Hh. split.
  - intros x rq Hx. apply list_lookup_insert_Some in Hx as [(<- & <- & _)|[_ Hx]]; [destruct (kr_held req'); [by apply Hh|done]|by eapply H1].
  - intros x rq c' Hx Hc'. apply list_lookup_insert_Some in Hx as [(<- & <- & _)|[Hne Hx]]; [congruence|]. destruct (H2 _ _ _ Hx Hc') as (a' & Hb' & Hn'). exists a'. split; [|done].
    destruct (pc_connection (kr_pc req)) as [c|] eqn:Ec; [|done]. unfold upd. rewrite decide_False; [done|]. intros ->. apply Hne. apply (H3 r x c); [by exists req|by exists rq].
  - intros x y c'. rewrite !(uses_insert _ _ _ _ _ _ Hr). do 2 case_decide; intros Hx Hy; subst; [done|congruence|congruence|by eapply H3].
  - intros c' a' Hb'. assert (Hb : b c' = Some a' /\ pc_connection (kr_pc req) <> Some c') by (destruct (pc_connection (kr_pc req)) as [c|]; [unfold upd in Hb'; case_decide; [done|split; congruence]|done]). destruct Hb as [Hb Hne].
    destruct (H4 c' a' Hb) as [x Hx]. exists x. apply (uses_insert _ _ _ _ _ _ Hr). rewrite decide_False; [done|]. intros ->. destruct Hx as (rq & Hx & Hxc). congruence.
Qed.

(** ** Every event *)

Definition sys_ok (max : nat) (s : ka_sys) : Prop := cache_ok max (sy_conf s) (idle (sy_net s)) /\ reqs_ok (busy (sy_net s)) (sy_reqs s).

Lemma upd_ext {X} (v v' : Z -> option X) c o : (forall x, v' x = v x) -> forall x, upd v' c o x = upd v c o x.
Proof. intros H x. unfold upd. by case_decide. Qed.

Lemma close_handler_ok max kcf net c a q again handled : cache_ok max kcf (idle net) -> idle net c = Some (a, Some q) ->
  exists kcf' net', ngx_http_upstream_keepalive_close_handler c again handled kcf net = Some (kcf', net') /\ cache_ok max kcf' (idle net') /\ forall x, busy net' x = busy net x.
Proof.
  intros Hc Hv. unfold ngx_http_upstream_keepalive_close_handler. pose proof Hv as Hv'. unfold idle in Hv'. destruct (net !! c) as [k|] eqn:Ek; [|done]. cbn [mbind option_bind] in *. destruct (k_idle k) eqn:Ei; [|done]. injection Hv' as _ Hi.
  destruct (_ && _); [by exists kcf, net|]. rewrite Hi. cbn [mbind option_bind]. eexists _, _. split; [reflexivity|]. unfold ngx_http_upstream_keepalive_close. split.
  - eapply cache_ext; [apply idle_delete|]. by apply (cache_remove _ _ _ _ _ _ Hc Hv).
  - intros x. rewrite busy_delete. pose proof (idle_busy _ _ _ _ Hv) as Hb. rewrite <- Hb. apply upd_same.
Qed.

Lemma connect_peer_ok max kcf net reqs r req connect d pc a : cache_ok max kcf (idle net) -> reqs_ok (busy net) reqs -> reqs !! r = Some req -> pc_connection (kr_pc req) = None ->
  pc_connection pc = None -> pc_name pc = Some a ->
  let '(net', pc') := connect_peer connect net pc in
  cache_ok max kcf (idle net') /\ reqs_ok (busy net') (<[r := {| kr_data := d; kr_pc := pc'; kr_held := true |}]> reqs).
Proof.
  intros Hc Hr Hq Hn Hpc Ha. unfold connect_peer. rewrite Ha. assert (Hsame : reqs_ok (busy net) (<[r := {| kr_data := d; kr_pc := pc; kr_held := true |}]> reqs)).
  { pose proof (reqs_detach _ _ _ _ {| kr_data := d; kr_pc := pc; kr_held := true |} Hr Hq Hpc) as H. rewrite Hn in H. apply H. cbn. rewrite Ha. by eauto. }
  destruct connect as [c|]; [|done]. destruct (net !! c) as [k|] eqn:Ek; [done|]. assert (Hb : busy net c = None) by (unfold busy; by rewrite Ek). split.
  - eapply cache_ext; [|exact Hc]. intros x. unfold idle. destruct (decide (x = c)) as [->|]; [by rewrite lookup_insert_eq, Ek|by rewrite lookup_insert_ne].
  - eapply reqs_ext; [|by eapply (reqs_attach (busy net) reqs r req _ c a Hr Hq Hn Hb)]. intros x. unfold busy, upd. case_decide; [subst; by rewrite lookup_insert_eq|by rewrite lookup_insert_ne].
Qed.

Lemma ask_step_ok max s r now connect : sys_ok max s -> exists s', ka_step (ev_ask r now connect) s = Some s' /\ sys_ok max s'.
Proof using BalancerLaws0.
  intros [Hc Hr]. cbn [ka_step]. destruct (sy_reqs s !! r) as [req|] eqn:Eq; [|by exists s]. destruct (kr_held req) eqn:Eh; [by exists s|].
  assert (Hn : pc_connection (kr_pc req) = None) by (pose proof (ro_held _ _ Hr _ _ Eq) as H; by rewrite Eh in H).
  unfold ngx_http_upstream_get_keepalive_peer. pose proof (bal_get_rc now (sy_bal s) (kr_data req) (kr_pc req)) as Hdone. destruct (bal_get now (sy_bal s) (kr_data req) (kr_pc req)) as [[[rc p] d] pc] eqn:Eg. cbn [fst snd] in Hdone.
  destruct (Z.eqb_spec rc NGX_OK) as [->|Hrc]; cbn [negb].
  2: { cbn [mbind option_bind]. rewrite (proj2 (Z.eqb_neq rc NGX_OK)), (proj2 (Z.eqb_neq rc NGX_DONE)) by done. cbn [orb]. eexists. split; [reflexivity|]. split; [done|]. cbn [sy_net sy_reqs set_req].
       pose proof (reqs_detach _ _ _ _ {| kr_data := d; kr_pc := {| pc with pc_connection := None |}; kr_held := false |} Hr Eq eq_refl) as H. rewrite Hn in H. by apply H. }
  destruct (bal_get_ok _ _ _ _ _ _ _ Eg) as [Hpc [a Ha]]. rewrite Ha. cbn [mbind option_bind]. destruct (find_item a _ _) as [[q c]|] eqn:Ef; cbn [mbind option_bind].
  - pose proof (cache_find _ _ _ _ _ _ Hc Ef) as Hv. destruct (cache_remove _ _ _ _ _ _ Hc Hv) as [Hrem Hfree]. rewrite (queue_remove_absent q (ka_free _)) in Hrem by done.
    change (NGX_DONE =? NGX_OK) with false. change (NGX_DONE =? NGX_DONE) with true. cbn [orb]. eexists. split; [reflexivity|]. pose proof Hv as Hv'. unfold idle in Hv'. destruct (sy_net s !! c) as [k|] eqn:Ek; [|done]. cbn [mbind option_bind] in Hv'. destruct (k_idle k); [|done]. injection Hv' as Hka _.
    split; cbn [sy_conf sy_net sy_reqs set_req].
    + eapply cache_ext; [|exact Hrem]. intros x. rewrite idle_set, Ek. done.
    + eapply reqs_ext; [|eapply (reqs_attach (busy (sy_net s)) (sy_reqs s) r req _ c a); try done; by eapply idle_busy]. intros x. rewrite busy_set, Ek. cbn. by rewrite Hka.
  - change (NGX_OK =? NGX_OK) with true. cbn [orb]. pose proof (connect_peer_ok max _ _ _ r req connect d pc a Hc Hr Eq Hn Hpc Ha) as H. destruct (connect_peer connect (sy_net s) pc) as [net' pc']. eexists. split; [reflexivity|]. done.
Qed.

(** A connection of a request goes to the cache. *)
Lemma store_ok max kcf net c k : (0 < max)%nat -> cache_ok max kcf (idle net) -> net !! c = Some k -> k_idle k = false ->
  exists q kcf' net', take_item kcf net = Some (q, kcf', net') /\
    let kcf'' := {| kcf' with ka_items := <[q := Some {| it_conn := c; it_addr := k_addr k |}]> (ka_items kcf'); ka_cache := q :: ka_cache kcf' |} in
    let net'' := alter (fun k => {| k with k_item := Some q; k_idle := true |}) c net' in
    cache_ok max kcf'' (idle net'') /\ idle net'' c = Some (k_addr k, Some q) /\ forall x, busy net'' x = upd (busy net) c None x.
Proof.
  intros Hmax Hc Hk Hidle. destruct (take_item_ok max kcf net Hmax Hc) as (q & kcf' & net' & e & E & Hq & Hit & Hp & He). exists q, kcf', net'. split; [done|]. cbv zeta.
  assert (Hnc : idle net c = None) by (unfold idle; rewrite Hk; cbn; by rewrite Hidle). pose proof Hc as [H1 H2 H3 H4].
  assert (Hk' : net' !! c = Some k). { destruct He as [(_ & -> & _)|(c' & a' & _ & -> & Hv & _)]; [done|]. rewrite lookup_delete_ne; [done|]. intros ->. congruence. }
  assert (Hcache : forall x, x ∈ ka_cache kcf' <-> x ∈ ka_cache kcf /\ x <> q).
  { destruct He as [(_ & _ & Hnq & ->)|(c' & a' & _ & _ & _ & ->)]; intros x; [|apply queue_remove_in]. split; [|tauto]. intros Hx. split; [done|]. intros ->. done. }
  split_and!.
  - eapply cache_ext; [|apply (put_item_ok max kcf kcf' (idle net) q c (k_addr k) Hc Hq Hit Hp Hcache); intros x Hx ->; congruence]. intros x. rewrite idle_set, Hk'. cbn. unfold upd. case_decide as Hx; [done|].
    destruct He as [(_ & -> & Hnq & _)|(c' & a' & _ & -> & Hv & _)].
    + destruct (idle net x) as [[b i]|] eqn:Ex; [|done]. case_decide; [|done]. subst i. destruct (H4 _ _ _ Ex) as (q' & [= <-] & Hin & _). done.
    + rewrite idle_delete. unfold upd. case_decide as Hxc; [subst x; rewrite Hv; by rewrite decide_True|]. destruct (idle net x) as [[b i]|] eqn:Ex; [|done]. case_decide; [|done]. subst i.
      destruct (H4 _ _ _ Ex) as (q1 & [= <-] & _ & I1). destruct (H4 _ _ _ Hv) as (q2 & [= <-] & _ & I2). congruence.
  - rewrite idle_set, Hk'. unfold upd. by rewrite decide_True.
  - intros x. rewrite busy_set, Hk'. cbn. unfold upd. case_decide as Hx; [done|]. destruct He as [(_ & -> & _)|(c' & a' & _ & -> & Hv & _)]; [done|]. rewrite busy_delete. pose proof (idle_busy _ _ _ _ Hv) as Hb. rewrite <- Hb. apply upd_same.
Qed.

Lemma give_step_ok max s r now state keepalive added again handled : (0 < max)%nat -> sys_ok max s -> exists s', ka_step (ev_give r now state keepalive added again handled) s = Some s' /\ sys_ok max s'.
Proof using BalancerLaws0.
  intros Hmax [Hc Hr]. cbn [ka_step]. destruct (sy_reqs s !! r) as [req|] eqn:Eq; [|by exists s]. destruct (kr_held req) eqn:Eh; [|by exists s]. unfold ngx_http_upstream_free_keepalive_peer.
  assert (Hfree : forall pc, pc_connection (bal_free now (sy_bal s) (kr_data req) pc state).2 = pc_connection pc) by (intros pc; destruct (bal_free _ _ _ _ _) as [p' pc'] eqn:E; cbn; by eapply bal_free_ok).
  assert (Hend : forall kcf' net' (pc' : peer_connection A), cache_ok max kcf' (idle net') -> (forall x, busy net' x = (match pc_connection (kr_pc req) with Some c => upd (busy (sy_net s)) c None | None => busy (sy_net s) end) x) ->
    forall p', sys_ok max (set_req r {| kr_data := kr_data req; kr_pc := {| pc' with pc_connection := None |}; kr_held := false |} {| s with sy_conf := kcf'; sy_net := net'; sy_bal := p' |})).
  { intros kcf' net' pc' Hc' Hb' p'. split; cbn [sy_conf sy_net sy_reqs set_req]; [done|]. eapply reqs_ext; [exact Hb'|]. by apply (reqs_detach _ _ _ _ _ Hr Eq). }
  destruct (pc_connection (kr_pc req)) as [c|] eqn:Ec.
  2: { specialize (Hfree (kr_pc req)). destruct (bal_free now (sy_bal s) (kr_data req) (kr_pc req) state) as [p' pc'] eqn:Ef. cbn [snd] in Hfree. cbn [mbind option_bind]. rewrite Hfree, Ec. eexists. split; [reflexivity|]. by apply Hend. }
  destruct (ro_used _ _ Hr _ _ _ Eq Ec) as (a & Hb & Hname). pose proof Hb as Hb'. unfold busy in Hb'. destruct (sy_net s !! c) as [k|] eqn:Ek; [|done]. cbn [mbind option_bind] in *. destruct (k_idle k) eqn:Eidle; [done|]. injection Hb' as Hka.
  destruct (_ || _).
  - specialize (Hfree (kr_pc req)). destruct (bal_free now (sy_bal s) (kr_data req) (kr_pc req) state) as [p' pc'] eqn:Ef. cbn [snd] in Hfree. cbn [mbind option_bind]. rewrite Hfree, Ec. eexists. split; [reflexivity|]. apply Hend; [|intros x; apply busy_delete].
    eapply cache_ext; [|exact Hc]. intros x. rewrite idle_delete. assert (Hi : idle (sy_net s) c = None) by (unfold idle; rewrite Ek; cbn; by rewrite Eidle). rewrite <- Hi. apply upd_same.
  - destruct (store_ok max _ _ c k Hmax Hc Ek Eidle) as (q & kcf' & net' & -> & Hc' & Hi' & Hbusy). cbn [mbind option_bind]. rewrite Hname. cbn [mbind option_bind]. rewrite Hka in Hc', Hi'.
    set (kcf'' := {| kcf' with ka_items := _; ka_cache := _ |}) in *. set (net'' := alter _ c net') in *.
    assert (Hh : exists kcf3 net3, (if k_ready k then ngx_http_upstream_keepalive_close_handler c again handled kcf'' net'' else Some (kcf'', net'')) = Some (kcf3, net3) /\ cache_ok max kcf3 (idle net3) /\ forall x, busy net3 x = upd (busy (sy_net s)) c None x).
    { destruct (k_ready k); [|by exists kcf'', net'']. destruct (close_handler_ok max kcf'' net'' c a q again handled Hc' Hi') as (kcf3 & net3 & E3 & Hc3 & Hb3). exists kcf3, net3. split_and!; [done|done|]. intros x. by rewrite Hb3. }
    destruct Hh as (kcf3 & net3 & -> & Hc3 & Hb3). cbn [mbind option_bind]. match goal with |- context [bal_free _ _ _ ?pc _] => specialize (Hfree pc) end.
    destruct (bal_free now (sy_bal s) (kr_data req) _ state) as [p' pc'] eqn:Ef. cbn [snd pc_connection] in Hfree. cbn [mbind option_bind]. rewrite Hfree. eexists. split; [reflexivity|]. by apply Hend.
Qed.

Lemma ka_step_ok max e s : (0 < max)%nat -> sys_ok max s -> exists s', ka_step e s = Some s' /\ sys_ok max s'.
Proof using BalancerLaws0.
  intros Hmax Hs. destruct e as [pc|r now connect|r now state keepalive added again handled|c again handled|c bad ready close].
  - cbn [ka_step]. destruct (bal_init (sy_bal s)) as [d n]. eexists. split; [reflexivity|]. destruct Hs as [Hc Hr]. split; [done|]. cbn [sy_net sy_reqs]. destruct Hr as [H1 H2 H3 H4].
    assert (Hu : forall x c, uses (sy_reqs s ++ [{| kr_data := d; kr_pc := {| pc with tries := n; pc_connection := None |}; kr_held := false |}]) x c <-> uses (sy_reqs s) x c).
    { intros x c. unfold uses. split; intros (req & Hx & Hc'); [|exists req; split; [by apply lookup_app_l_Some|done]]. apply lookup_app_Some in Hx as [Hx|[_ Hx]]; [by eauto|]. apply list_lookup_singleton_Some in Hx as [_ <-]. done. }
    split.
    + intros x req Hx. apply lookup_app_Some in Hx as [Hx|[_ Hx]]; [by eapply H1|]. apply list_lookup_singleton_Some in Hx as [_ <-]. done.
    + intros x req c Hx Hcn. apply lookup_app_Some in Hx as [Hx|[_ Hx]]; [by eapply H2|]. apply list_lookup_singleton_Some in Hx as [_ <-]. done.
    + intros x y c. rewrite !Hu. apply H3.
    + intros c a Hb. destruct (H4 c a Hb) as [x Hx]. exists x. by apply Hu.
  - by apply ask_step_ok.
  - by apply give_step_ok.
  - cbn [ka_step]. destruct (sy_net s !! c) as [k|] eqn:Ek; [|by exists s]. destruct (k_idle k) eqn:Ei; [|by exists s]. destruct Hs as [Hc Hr].
    assert (Hv : idle (sy_net s) c = Some (k_addr k, k_item k)) by (unfold idle; rewrite Ek; cbn; by rewrite Ei). destruct (co_idle _ _ _ Hc _ _ _ Hv) as (q & Hi & _ & _). rewrite Hi in Hv.
    destruct (close_handler_ok max _ _ c (k_addr k) q again handled Hc Hv) as (kcf' & net' & -> & Hc' & Hb'). eexists. split; [reflexivity|]. split; [done|]. by eapply reqs_ext.
  - cbn [ka_step]. eexists. split; [reflexivity|]. destruct Hs as [Hc Hr]. split; cbn [sy_conf sy_net sy_reqs].
    + eapply cache_ext; [|exact Hc]. intros x. rewrite idle_set. cbn. apply (upd_same (idle (sy_net s))).
    + eapply reqs_ext; [|exact Hr]. intros x. rewrite busy_set. cbn. apply (upd_same (busy (sy_net s))).
Qed.

Lemma ka_run_ok max es s : (0 < max)%nat -> sys_ok max s -> exists s', ka_run es s = Some s' /\ sys_ok max s'.
Proof using BalancerLaws0.
  intros Hmax. revert s; induction es as [|e es IH]; intros s Hs; [by exists s|]. cbn [ka_run]. destruct (ka_step_ok max e s Hmax Hs) as (s1 & -> & Hs1). by apply IH.
Qed.

Definition ka_init (max : nat) (p : P) : ka_sys := {| sy_conf := init_keepalive max; sy_net := ∅; sy_bal := p; sy_reqs := [] |}.

Lemma ka_init_ok max p : sys_ok max (ka_init max p).
Proof.
  assert (Hnone : forall c, (∅ : gmap Z (ka_conn A)) !! c = None) by (intros c; apply lookup_empty). split.
  - split; cbn; [by rewrite <- Permutation_rev|apply repeat_length|intros q Hq; by apply elem_of_nil in Hq|]. intros c a i Hv. unfold idle in Hv. by rewrite Hnone in Hv.
  - split; cbn; [done|done|by intros r r' c (req & Hr & _)|]. intros c a Hb. unfold busy in Hb. by rewrite Hnone in Hb.
Qed.

(** C7: whatever requests, peers and the network do, in whatever order and for any balancer, nothing faults; a request uses a connection that was made to the peer its balancer has chosen, and no other request uses it; and each other open connection is idle and in just one item of the cache, of which there are never more than configured, so that no connection is lost. *)
Theorem keepalive_safe max p es : (0 < max)%nat ->
  exists s, ka_run es (ka_init max p) = Some s /\ (length (ka_cache (sy_conf s)) <= max)%nat /\ NoDup (ka_cache (sy_conf s)) /\
    (forall r req c, sy_reqs s !! r = Some req -> pc_connection (kr_pc req) = Some c -> exists k, sy_net s !! c = Some k /\ k_idle k = false /\ pc_name (kr_pc req) = Some (k_addr k)) /\
    (forall r r' c, uses (sy_reqs s) r c -> uses (sy_reqs s) r' c -> r = r') /\
    (forall c k, sy_net s !! c = Some k ->
       if k_idle k then exists q, k_item k = Some q /\ q ∈ ka_cache (sy_conf s) /\ ka_items (sy_conf s) !! q = Some (Some {| it_conn := c; it_addr := k_addr k |})
       else exists r, uses (sy_reqs s) r c).
Proof using BalancerLaws0.
  intros Hmax. destruct (ka_run_ok max es _ Hmax (ka_init_ok max p)) as (s & Hrun & [C1 C2 C3 C4] & [R1 R2 R3 R4]). exists s. split; [done|].
  split_and!; [apply Permutation_length in C1; rewrite length_app, length_seq in C1; lia| | |done|].
  - assert (Hnd : NoDup (ka_cache (sy_conf s) ++ ka_free (sy_conf s))) by (rewrite C1; apply NoDup_ListNoDup, seq_NoDup). by apply NoDup_app in Hnd as (? & _ & _).
  - intros r req c Hr Hc. destruct (R2 r req c Hr Hc) as (a & Hb & Hn). unfold busy in Hb. destruct (sy_net s !! c) as [k|]; [|done]. cbn in Hb. exists k. destruct (k_idle k); [done|]. injection Hb as <-. done.
  - intros c k Hk. destruct (k_idle k) eqn:Ei.
    + destruct (C4 c (k_addr k) (k_item k)) as (q & Hi & Hq & Hit); [unfold idle; rewrite Hk; cbn; by rewrite Ei|]. by exists q.
    + apply (R4 c (k_addr k)). unfold busy. rewrite Hk. cbn. by rewrite Ei.
Qed.
End System.

(** Two requests to the same peers; the second one uses the connection of the first, and the third has to open one. *)
Definition ka_events : list (ka_event (A := Z)) :=
  [ev_start sample_pc; ev_ask 0 1000 (Some 7); ev_give 0 1001 0 true true true true; ev_start sample_pc; ev_start sample_pc; ev_start sample_pc;
   ev_ask 1 1002 (Some 8); ev_ask 2 1002 (Some 9); ev_ask 3 1002 (Some 10)].

Lemma keepalive_safe_witness :
  exists s, ka_run ka_events (ka_init 2 sample) = Some s /\ (forall r r' c, uses (sy_reqs s) r c -> uses (sy_reqs s) r' c -> r = r') /\
    map (fun req => pc_connection (kr_pc req)) (sy_reqs s) = [None; Some 7; Some 9; Some 10].
Proof.
  destruct (keepalive_safe 2 sample ka_events ltac:(lia)) as (s & E & _ & _ & _ & H & _). exists s. split_and!; [done|done|].
  assert (Hx : match ka_run ka_events (ka_init 2 sample) with Some s => map (fun req => pc_connection (kr_pc req)) (sy_reqs s) = [None; Some 7; Some 9; Some 10] | None => False end) by (vm_compute; reflexivity).
  by rewrite E in Hx.
Defined.
