(* ===== verification/NgxRadix.v ===== *)
(** * Radix trees of address prefixes

    src/nginx-1.4.7/src/core/ngx_radix_tree.c, which the geo module uses for
    its networks: nodes in memory with [right], [left] and [parent] pointers,
    allocated from pages and recycled through a free list that is threaded
    through [right].

    The functions for 32-bit keys and the ones for 128-bit keys are copies of
    each other that differ in how they go from one bit of the key to the next;
    here they are written once, over the operations of [RadixKey] that the two
    key types provide.  The memory is a finite map from addresses to nodes, and
    what [ngx_pmemalign] gives is the list [rt_pages] of the pages it will
    return (an empty list is out of memory).  A fault is the dereference of a
    NULL pointer; loops run on fuel and the theorems show that it is enough. *)
From stdpp Require Import gmap.
From S2P Require Import Prelude.

Inductive rfault : Type := NullDeref | OutOfFuel.

Abbreviation NGX_RADIX_NO_VALUE := (2 ^ 64 - 1) (only parsing).
Abbreviation NODE_SIZE := 32 (only parsing).
Abbreviation NGX_PAGESIZE := 4096 (only parsing).

(** [core/ngx_radix_tree.h:20-25] ngx_radix_node_s *)
Record rnode : Type := { rn_right : option Z; rn_left : option Z; rn_parent : option Z; rn_value : Z }.

(** [core/ngx_radix_tree.h:28-34] ngx_radix_tree_t *)
Record rtree : Type := {
  rt_mem : gmap Z rnode; rt_root : Z; rt_free : option Z; rt_start : Z; rt_size : Z;
  rt_pages : list Z
}.

(** [core/ngx_radix_tree.c:463-488] ngx_radix_alloc *)
Definition ngx_radix_alloc (tr : rtree) : option Z * rtree :=
  match rt_free tr with
  | Some p =>
      (Some p, {| tr with rt_free := match rt_mem tr !! p with Some n => rn_right n | None => None end |})
  | None =>
      let page := if rt_size tr <? NODE_SIZE then
                    match rt_pages tr with
                    | [] => None
                    | start :: pages =>
                        Some {| tr with rt_start := start; rt_size := NGX_PAGESIZE; rt_pages := pages |}
                    end
                  else Some tr in
      match page with
      | None => (None, tr)
      | Some tr =>
          (Some (rt_start tr),
           {| tr with rt_start := rt_start tr + NODE_SIZE; rt_size := rt_size tr - NODE_SIZE |})
      end
  end.

(** Whether another node can be had. *)
Definition memory_left (tr : rtree) : bool := bool_decide (is_Some (ngx_radix_alloc tr).1).

(** ** Keys *)

(** How a loop walks over the bits of a key: the first bit, the step of the
    loops of insert and delete, the step of the loop of find, and the test of a
    bit of a key or of a mask. *)
Class RadixKey (K : Type) : Type := {
  rk_cursor : Type;
  rk_first : rk_cursor;
  rk_next : rk_cursor -> rk_cursor;
  rk_find_next : rk_cursor -> rk_cursor;
  rk_test : K -> rk_cursor -> bool;
  rk_width : nat
}.

(** [bit = 0x80000000], [bit >>= 1], [key & bit].
    [core/ngx_radix_tree.c:115-134] bit *)
Definition radix32 : RadixKey Z := {|
  rk_cursor := Z; rk_first := 2 ^ 31;
  rk_next bit := Z.shiftr bit 1; rk_find_next bit := Z.shiftr bit 1;
  rk_test key bit := negb (Z.land key bit =? 0);
  rk_width := 32
|}.

#[export] Existing Instance radix32.

(** [i] and [bit]; the loops of insert and delete leave with [bit == 0] after
    the last byte.
    [core/ngx_radix_tree.c:276-304] bit *)
Definition radix128 : RadixKey (list Z) := {|
  rk_cursor := Z * Z; rk_first := (0, 2 ^ 7);
  rk_next '(i, bit) :=
    let bit := Z.shiftr bit 1 in
    if bit =? 0 then if i + 1 =? 16 then (16, 0) else (i + 1, 2 ^ 7) else (i, bit);
  rk_find_next '(i, bit) :=
    let bit := Z.shiftr bit 1 in
    if bit =? 0 then (i + 1, 2 ^ 7) else (i, bit);
  rk_test key '(i, bit) := negb (Z.land (mem_at key i) bit =? 0);
  rk_width := 128
|}.

#[export] Existing Instance radix128.

(** ** The operations *)

Section Operations.
Context {K : Type} `{RadixKey K}.

Definition deref (tr : rtree) (p : option Z) : rfault + rnode :=
  match p with
  | Some p => match rt_mem tr !! p with Some n => inr n | None => inl NullDeref end
  | None => inl NullDeref
  end.

Definition child (right : bool) (n : rnode) : option Z := if right then rn_right n else rn_left n.

Definition set_node (tr : rtree) (p : Z) (n : rnode) : rtree :=
  {| tr with rt_mem := <[p := n]> (rt_mem tr) |}.

Definition set_child (right : bool) (c : option Z) (n : rnode) : rnode :=
  if right then {| n with rn_right := c |} else {| n with rn_left := c |}.

(** The walk down to the node of the key or to its last node in the tree:
    the bit, [node] and whether [next] is not NULL.
    [core/ngx_radix_tree.c:117-134] while (bit & mask) *)
Fixpoint radix_walk (fuel : nat) (tr : rtree) (key mask : K) (bit : rk_cursor) (node : Z)
    : rfault + rk_cursor * Z * bool :=
  match fuel with
  | O => inl OutOfFuel
  | S fuel =>
      if negb (rk_test mask bit) then inr (bit, node, true)
      else
        match deref tr (Some node) with
        | inl e => inl e
        | inr n =>
            match child (rk_test key bit) n with
            | None => inr (bit, node, false)
            | Some next => radix_walk fuel tr key mask (rk_next bit) next
            end
        end
  end.

(** The nodes that are missing on the path of the key; the last of them, or
    [None] when there is no memory.
    [core/ngx_radix_tree.c:145-165] while (bit & mask) *)
Fixpoint radix_grow (fuel : nat) (tr : rtree) (key mask : K) (bit : rk_cursor) (node : Z)
    : rfault + rtree * option Z :=
  match fuel with
  | O => inl OutOfFuel
  | S fuel =>
      if negb (rk_test mask bit) then inr (tr, Some node)
      else
        match ngx_radix_alloc tr with
        | (None, tr) => inr (tr, None)
        | (Some next, tr) =>
            let tr := set_node tr next {| rn_right := None; rn_left := None; rn_parent := Some node;
                                          rn_value := NGX_RADIX_NO_VALUE |} in
            match deref tr (Some node) with
            | inl e => inl e
            | inr n =>
                let tr := set_node tr node (set_child (rk_test key bit) (Some next) n) in
                radix_grow fuel tr key mask (rk_next bit) next
            end
        end
  end.

(** [core/ngx_radix_tree.c:108-170] ngx_radix32tree_insert *)
Definition radix_insert (tr : rtree) (key mask : K) (value : Z) : rfault + Z * rtree :=
  match radix_walk (S rk_width) tr key mask rk_first (rt_root tr) with
  | inl e => inl e
  | inr (_, node, true) =>
      match deref tr (Some node) with
      | inl e => inl e
      | inr n =>
          if negb (rn_value n =? NGX_RADIX_NO_VALUE) then inr (NGX_BUSY, tr)
          else inr (NGX_OK, set_node tr node {| n with rn_value := value |})
      end
  | inr (bit, node, false) =>
      match radix_grow (S rk_width) tr key mask bit node with
      | inl e => inl e
      | inr (tr, None) => inr (NGX_ERROR, tr)
      | inr (tr, Some node) =>
          match deref tr (Some node) with
          | inl e => inl e
          | inr n => inr (NGX_OK, set_node tr node {| n with rn_value := value |})
          end
      end
  end.

(** [core/ngx_radix_tree.c:179-191] while (node && (bit & mask)) *)
Fixpoint radix_seek (fuel : nat) (tr : rtree) (key mask : K) (bit : rk_cursor) (node : option Z)
    : rfault + option Z :=
  match fuel with
  | O => inl OutOfFuel
  | S fuel =>
      match node with
      | None => inr None
      | Some _ =>
          if negb (rk_test mask bit) then inr node
          else
            match deref tr node with
            | inl e => inl e
            | inr n => radix_seek fuel tr key mask (rk_next bit) (child (rk_test key bit) n)
            end
      end
  end.

(** The removal of a leaf, and of the nodes above it that it leaves without
    children and without a value.
    [core/ngx_radix_tree.c:206-230] for ( ;; ) *)
Fixpoint radix_prune (fuel : nat) (tr : rtree) (node : Z) : rfault + rtree :=
  match fuel with
  | O => inl OutOfFuel
  | S fuel =>
      match deref tr (Some node) with
      | inl e => inl e
      | inr n =>
          match rn_parent n with
          | None => inl NullDeref
          | Some parent =>
              match deref tr (Some parent) with
              | inl e => inl e
              | inr np =>
                  let np := if decide (rn_right np = Some node) then {| np with rn_right := None |}
                            else {| np with rn_left := None |} in
                  let tr := set_node tr parent np in
                  let tr := set_node tr node {| n with rn_right := rt_free tr |} in
                  let tr := {| tr with rt_free := Some node |} in
                  if bool_decide (is_Some (rn_right np)) || bool_decide (is_Some (rn_left np))
                     || negb (rn_value np =? NGX_RADIX_NO_VALUE)
                     || bool_decide (rn_parent np = None)
                  then inr tr
                  else radix_prune fuel tr parent
              end
          end
      end
  end.

(** [core/ngx_radix_tree.c:173-233] ngx_radix32tree_delete *)
Definition radix_delete (tr : rtree) (key mask : K) : rfault + Z * rtree :=
  match radix_seek (S rk_width) tr key mask rk_first (Some (rt_root tr)) with
  | inl e => inl e
  | inr None => inr (NGX_ERROR, tr)
  | inr (Some node) =>
      match deref tr (Some node) with
      | inl e => inl e
      | inr n =>
          if bool_decide (is_Some (rn_right n)) || bool_decide (is_Some (rn_left n)) then
            if negb (rn_value n =? NGX_RADIX_NO_VALUE)
            then inr (NGX_OK, set_node tr node {| n with rn_value := NGX_RADIX_NO_VALUE |})
            else inr (NGX_ERROR, tr)
          else
            match radix_prune (S rk_width) tr node with
            | inl e => inl e
            | inr tr => inr (NGX_OK, tr)
            end
      end
  end.

(** [core/ngx_radix_tree.c:247-260] while (node) *)
Fixpoint radix_find_loop (fuel : nat) (tr : rtree) (key : K) (bit : rk_cursor) (node : option Z)
    (value : Z) : rfault + Z :=
  match fuel with
  | O => inl OutOfFuel
  | S fuel =>
      match node with
      | None => inr value
      | Some _ =>
          match deref tr node with
          | inl e => inl e
          | inr n =>
              let value := if negb (rn_value n =? NGX_RADIX_NO_VALUE) then rn_value n else value in
              radix_find_loop fuel tr key (rk_find_next bit) (child (rk_test key bit) n) value
          end
      end
  end.

(** [core/ngx_radix_tree.c:236-263] ngx_radix32tree_find *)
Definition radix_find (tr : rtree) (key : K) : rfault + Z :=
  radix_find_loop (S (S rk_width)) tr key rk_first (Some (rt_root tr)) NGX_RADIX_NO_VALUE.
End Operations.

(** [core/ngx_radix_tree.c:108-170] ngx_radix32tree_insert *)
Definition ngx_radix32tree_insert (tr : rtree) (key mask value : Z) : rfault + Z * rtree :=
  radix_insert tr key mask value.

(** [core/ngx_radix_tree.c:173-233] ngx_radix32tree_delete *)
Definition ngx_radix32tree_delete (tr : rtree) (key mask : Z) : rfault + Z * rtree :=
  radix_delete tr key mask.

(** [core/ngx_radix_tree.c:236-263] ngx_radix32tree_find *)
Definition ngx_radix32tree_find (tr : rtree) (key : Z) : rfault + Z := radix_find tr key.

(** [core/ngx_radix_tree.c:268-348] ngx_radix128tree_insert *)
Definition ngx_radix128tree_insert (tr : rtree) (key mask : list Z) (value : Z) : rfault + Z * rtree :=
  radix_insert tr key mask value.

(** [core/ngx_radix_tree.c:351-421] ngx_radix128tree_delete *)
Definition ngx_radix128tree_delete (tr : rtree) (key mask : list Z) : rfault + Z * rtree :=
  radix_delete tr key mask.

(** [core/ngx_radix_tree.c:424-458] ngx_radix128tree_find *)
Definition ngx_radix128tree_find (tr : rtree) (key : list Z) : rfault + Z := radix_find tr key.

(** ** Creation *)

(** One row of preallocated nodes: the keys from [key] on, in steps of [inc],
    until the 32-bit key wraps to 0.
    [core/ngx_radix_tree.c:90-99] do *)
Fixpoint radix_row (fuel : nat) (tr : rtree) (key mask inc : Z) : rfault + option rtree :=
  match fuel with
  | O => inl OutOfFuel
  | S fuel =>
      match ngx_radix32tree_insert tr key mask NGX_RADIX_NO_VALUE with
      | inl e => inl e
      | inr (rc, tr) =>
          if negb (rc =? NGX_OK) then inr None
          else
            let key := u32 (key + inc) in
            if key =? 0 then inr (Some tr) else radix_row fuel tr key mask inc
      end
  end.

(** [core/ngx_radix_tree.c:84-102] while (preallocate--) *)
Fixpoint radix_rows (preallocate : nat) (tr : rtree) (mask inc : Z) : rfault + option rtree :=
  match preallocate with
  | O => inr (Some tr)
  | S preallocate =>
      let mask := Z.lor (Z.shiftr mask 1) (2 ^ 31) in
      match radix_row (Z.to_nat (2 ^ 32 / inc)) tr 0 mask inc with
      | inl e => inl e
      | inr None => inr None
      | inr (Some tr) => radix_rows preallocate tr mask (Z.shiftr inc 1)
      end
  end.

(** On the pages given, with [preallocate = -1] for the default of 64-bit
    platforms with pages of 4K.
    [core/ngx_radix_tree.c:15-105] ngx_radix_tree_create *)
Definition ngx_radix_tree_create (pages : list Z) (preallocate : Z) : rfault + option rtree :=
  let tr := {| rt_mem := ∅; rt_root := 0; rt_free := None; rt_start := 0; rt_size := 0;
               rt_pages := pages |} in
  match ngx_radix_alloc tr with
  | (None, _) => inr None
  | (Some root, tr) =>
      let tr := set_node {| tr with rt_root := root |} root
        {| rn_right := None; rn_left := None; rn_parent := None; rn_value := NGX_RADIX_NO_VALUE |} in
      if preallocate =? 0 then inr (Some tr)
      else
        let preallocate := if preallocate =? -1 then 6 else preallocate in
        radix_rows (Z.to_nat preallocate) tr 0 (2 ^ 31)
  end.

(** ** Tries *)

(** The shape of a tree in memory: each node with its address and its value. *)
Inductive trie : Type :=
| Tip
| Node (p v : Z) (l r : trie).

Definition ptr_of (t : trie) : option Z := match t with Tip => None | Node p _ _ _ => Some p end.

Fixpoint addrs (t : trie) : list Z :=
  match t with Tip => [] | Node p _ l r => p :: addrs l ++ addrs r end.

Fixpoint depth (t : trie) : nat :=
  match t with Tip => 0 | Node _ _ l r => S (Nat.max (depth l) (depth r)) end.

(** The memory holds the tree, under the node [par]. *)
Fixpoint rep (m : gmap Z rnode) (par : option Z) (t : trie) : Prop :=
  match t with
  | Tip => True
  | Node p v l r =>
      m !! p = Some {| rn_right := ptr_of r; rn_left := ptr_of l; rn_parent := par; rn_value := v |} /\
      rep m (Some p) l /\ rep m (Some p) r
  end.

(** The value stored under a prefix. *)
Fixpoint look (t : trie) (bs : list bool) : option Z :=
  match t, bs with
  | Tip, _ => None
  | Node _ v _ _, [] => if v =? NGX_RADIX_NO_VALUE then None else Some v
  | Node _ _ l r, b :: bs => look (if b then r else l) bs
  end.

(** The value of the longest prefix of [bs] that has one. *)
Fixpoint longest (f : list bool -> option Z) (bs : list bool) : option Z :=
  match bs with
  | [] => f []
  | b :: bs' =>
      match longest (fun q => f (b :: q)) bs' with
      | Some v => Some v
      | None => f []
      end
  end.

Lemma longest_spec f bs v :
  longest f bs = Some v <->
  exists n, (n <= length bs)%nat /\ f (take n bs) = Some v /\
    forall k, (n < k <= length bs)%nat -> f (take k bs) = None.
Proof.
  revert f v; induction bs as [|b bs IH]; intros f v; cbn [longest length].
  - split; [intros E; exists 0%nat; split_and!; [lia|done|intros; lia]|].
    intros (n & Hn & E & _). by replace n with 0%nat in E by lia.
  - destruct (longest (fun q => f (b :: q)) bs) as [w|] eqn:E.
    + apply IH in E as (n & Hn & E & Hmax). split.
      * intros [= ->]. exists (S n). split_and!; [lia|done|]. intros [|k] Hk; [lia|]. apply Hmax. lia.
      * intros (n' & Hn' & E' & Hmax'). destruct (Nat.lt_trichotomy n' (S n)) as [Hlt|[->|Hlt]].
        -- specialize (Hmax' (S n)). cbn [take] in Hmax'. rewrite E in Hmax'. discriminate Hmax'. lia.
        -- cbn [take] in E'. by rewrite <- E, E'.
        -- destruct n' as [|n']; [lia|]. cbn [take] in E'. rewrite Hmax in E' by lia. done.
    + assert (Hnone : forall n, (n <= length bs)%nat -> f (b :: take n bs) = None).
      { assert (Hall : forall w, ~ (exists n, (n <= length bs)%nat /\ f (b :: take n bs) = Some w /\
          forall k, (n < k <= length bs)%nat -> f (b :: take k bs) = None))
          by (intros w Hw; apply (IH (fun q => f (b :: q)) w) in Hw; congruence).
        enough (H : forall m n, (n <= length bs)%nat -> (length bs - n < m)%nat -> f (b :: take n bs) = None)
          by (intros n Hn; apply (H (S (length bs))); lia).
        induction m as [|m IHm]; intros n Hn Hm; [lia|]. destruct (f (b :: take n bs)) as [w|] eqn:Ew; [|done].
        destruct (Hall w). exists n. split_and!; [done..|]. intros k Hk. apply IHm; lia. }
      split.
      * intros Ef. exists 0%nat. split_and!; [lia|done|]. intros [|k] Hk; [lia|]. apply Hnone. lia.
      * intros ([|n] & Hn & Ef & _); [done|]. cbn [take] in Ef. rewrite Hnone in Ef by lia. done.
Qed.

(** *** A tree with a hole *)

(** A node above the hole: the side of the hole, the address, the value and
    the other child. *)
Record frame : Type := { fr_right : bool; fr_p : Z; fr_v : Z; fr_other : trie }.

Definition plug_frame (f : frame) (t : trie) : trie :=
  if fr_right f then Node (fr_p f) (fr_v f) (fr_other f) t else Node (fr_p f) (fr_v f) t (fr_other f).

(** The frames from the hole up to the root. *)
Fixpoint plug (ctx : list frame) (t : trie) : trie :=
  match ctx with [] => t | f :: ctx' => plug ctx' (plug_frame f t) end.

Definition path (ctx : list frame) : list bool := rev (map fr_right ctx).

Definition ctx_parent (ctx : list frame) : option Z :=
  match ctx with [] => None | f :: _ => Some (fr_p f) end.

Fixpoint ctx_addrs (ctx : list frame) : list Z :=
  match ctx with [] => [] | f :: ctx' => fr_p f :: addrs (fr_other f) ++ ctx_addrs ctx' end.

Definition frame_node (f : frame) (hole par : option Z) : rnode :=
  {| rn_right := if fr_right f then hole else ptr_of (fr_other f);
     rn_left := if fr_right f then ptr_of (fr_other f) else hole;
     rn_parent := par; rn_value := fr_v f |}.

Fixpoint rep_ctx (m : gmap Z rnode) (ctx : list frame) (hole : option Z) : Prop :=
  match ctx with
  | [] => True
  | f :: ctx' =>
      m !! fr_p f = Some (frame_node f hole (ctx_parent ctx')) /\
      rep m (Some (fr_p f)) (fr_other f) /\ rep_ctx m ctx' (Some (fr_p f))
  end.

Lemma rep_plug m ctx t :
  rep m None (plug ctx t) <-> rep m (ctx_parent ctx) t /\ rep_ctx m ctx (ptr_of t).
Proof.
  revert t; induction ctx as [|f ctx IH]; intros t; cbn [plug rep_ctx ctx_parent]; [tauto|].
  rewrite IH. destruct f as [[] p v o]; cbn; unfold frame_node; cbn; tauto.
Qed.

Lemma addrs_plug ctx t : addrs (plug ctx t) ≡ₚ addrs t ++ ctx_addrs ctx.
Proof.
  revert t; induction ctx as [|f ctx IH]; intros t; cbn [plug ctx_addrs]; [by rewrite app_nil_r|].
  rewrite IH. destruct f as [[] p v o]; cbn [plug_frame fr_right fr_p fr_v fr_other addrs].
  - rewrite (Permutation_app_comm (addrs o)). rewrite <- Permutation_middle. cbn. by rewrite <- app_assoc.
  - rewrite <- Permutation_middle. cbn. by rewrite <- app_assoc.
Qed.

Lemma rep_set m par t a n : a ∉ addrs t -> rep m par t -> rep (<[a := n]> m) par t.
Proof.
  revert par; induction t as [|p v l IHl r IHr]; intros par; cbn; [done|].
  rewrite not_elem_of_cons, not_elem_of_app. intros (Hp & Hl & Hr) (E & Rl & Rr).
  split_and!; [by rewrite lookup_insert_ne|auto|auto].
Qed.

Lemma rep_ctx_set m ctx h a n : a ∉ ctx_addrs ctx -> rep_ctx m ctx h -> rep_ctx (<[a := n]> m) ctx h.
Proof.
  revert h; induction ctx as [|f ctx IH]; intros h; cbn; [done|].
  rewrite not_elem_of_cons, not_elem_of_app. intros (Hp & Hl & Hr) (E & Ro & Rc).
  split_and!; [by rewrite lookup_insert_ne|by apply rep_set|auto].
Qed.

Lemma path_cons f ctx : path (f :: ctx) = path ctx ++ [fr_right f].
Proof. done. Qed.

Lemma length_path ctx : length (path ctx) = length ctx.
Proof. unfold path. by rewrite length_rev, length_map. Qed.

Lemma look_plug ctx t bs : look (plug ctx t) (path ctx ++ bs) = look t bs.
Proof.
  revert t bs; induction ctx as [|f ctx IH]; intros t bs; [done|].
  rewrite path_cons, <- app_assoc. cbn [plug app]. rewrite IH. by destruct f as [[] p v o].
Qed.

(** A change of the tree in the hole at [s] only changes the whole at the path
    of the hole and [s]. *)
Lemma look_plug_change ctx t t' s q :
  (forall bs, bs <> s -> look t' bs = look t bs) -> q <> path ctx ++ s ->
  look (plug ctx t') q = look (plug ctx t) q.
Proof.
  revert t t' s; induction ctx as [|f ctx IH]; intros t t' s Hch Hq; [by apply Hch|].
  cbn [plug]. apply (IH _ _ (fr_right f :: s)).
  - intros [|b bs] Hbs; destruct f as [[] p v o]; cbn; [done..| |]; destruct b; try done;
      apply Hch; cbn in Hbs; congruence.
  - rewrite path_cons, <- app_assoc in Hq. done.
Qed.

(** A hole filled with another tree without values. *)
Lemma look_plug_same ctx t t' q :
  (forall bs, look t' bs = look t bs) -> look (plug ctx t') q = look (plug ctx t) q.
Proof.
  revert t t'; induction ctx as [|f ctx IH]; intros t t' H; [by apply H|].
  cbn [plug]. apply IH. intros [|b bs]; destruct f as [[] p v o]; cbn; [done..| |]; by destruct b.
Qed.

(** ** Memory *)

Fixpoint free_list (m : gmap Z rnode) (f : option Z) (fl : list Z) : Prop :=
  match fl with
  | [] => f = None
  | p :: fl' => f = Some p /\ exists n, m !! p = Some n /\ free_list m (rn_right n) fl'
  end.

Definition ranges (tr : rtree) : list (Z * Z) :=
  (rt_start tr, rt_size tr) :: map (fun pg => (pg, NGX_PAGESIZE)) (rt_pages tr).

(** An address that was not handed out yet. *)
Definition unused (tr : rtree) (a : Z) : Prop := Exists (fun '(s, n) => s <= a < s + n) (ranges tr).

Definition apart (x y : Z * Z) : Prop := x.1 + x.2 <= y.1 \/ y.1 + y.2 <= x.1.

(** The addresses [used] by the tree and the ones of the free list are
    distinct, and the allocator will not give them again. *)
Record heap_ok (tr : rtree) (used fl : list Z) : Prop := {
  hp_free : free_list (rt_mem tr) (rt_free tr) fl;
  hp_nodup : NoDup (used ++ fl);
  hp_used : Forall (fun a => ~ unused tr a) (used ++ fl);
  hp_size : 0 <= rt_size tr;
  hp_apart : ForallOrdPairs apart (ranges tr)
}.

Lemma heap_ok_perm tr used used' fl : used ≡ₚ used' -> heap_ok tr used fl -> heap_ok tr used' fl.
Proof. intros E [H1 H2 H3 H4 H5]. constructor; [done|by rewrite <- E|by rewrite <- E|done|done]. Qed.

Lemma free_list_set m f fl a n : a ∉ fl -> free_list m f fl -> free_list (<[a := n]> m) f fl.
Proof.
  revert f; induction fl as [|p fl IH]; intros f; cbn; [done|]. rewrite not_elem_of_cons.
  intros [Ha Hfl] [-> (n' & E & H)]. split; [done|]. exists n'. split; [by rewrite lookup_insert_ne|auto].
Qed.

(** Writing to a node of the tree. *)
Lemma heap_ok_set tr used fl a n : a ∈ used -> heap_ok tr used fl -> heap_ok (set_node tr a n) used fl.
Proof.
  intros Ha [H1 H2 H3 H4 H5]. constructor; [|done..]. apply free_list_set; [|done].
  intros Hfl. apply NoDup_app in H2 as (_ & H2 & _). by apply (H2 a).
Qed.

Lemma range_head_unused tr a :
  rt_start tr <= a < rt_start tr + rt_size tr -> unused tr a.
Proof. intros. unfold unused, ranges. by left. Qed.

(** Handing out the first node of the range. *)
Lemma heap_ok_bump tr used fl :
  NODE_SIZE <= rt_size tr -> heap_ok tr used fl ->
  heap_ok {| tr with rt_start := rt_start tr + NODE_SIZE; rt_size := rt_size tr - NODE_SIZE |}
    (rt_start tr :: used) fl.
Proof.
  intros Hs [H1 H2 H3 H4 H5]. set (tr' := {| tr with rt_start := _; rt_size := _ |}).
  assert (Hsub : forall a, unused tr' a -> unused tr a).
  { intros a Hu. unfold unused, ranges in *. rewrite Exists_cons in *. subst tr'. cbn in Hu.
    destruct Hu; [left; lia|by right]. }
  assert (Hfirst : unused tr (rt_start tr)) by (apply range_head_unused; lia).
  constructor; [done|..].
  - cbn. apply NoDup_cons. split; [|done]. intros Hin. rewrite Forall_forall in H3. by apply (H3 _ Hin).
  - cbn. constructor; [|eapply Forall_impl; [exact H3|cbn; eauto]].
    unfold unused, ranges. rewrite Exists_cons. cbn. intros [?|Hex]; [lia|].
    unfold ranges in H5. inversion H5 as [|x xs Hx Hxs]; subst. rewrite Exists_exists in Hex.
    destruct Hex as ([s n] & Hin & Hr). rewrite Forall_forall in Hx. specialize (Hx _ Hin).
    unfold apart in Hx. cbn in Hx. lia.
  - cbn. lia.
  - unfold ranges in *. cbn. inversion H5 as [|x xs Hx Hxs]; subst. constructor; [|done].
    eapply Forall_impl; [exact Hx|]. intros [s n]. unfold apart. cbn. lia.
Qed.

Lemma radix_alloc_spec tr used fl p tr' :
  heap_ok tr used fl -> ngx_radix_alloc tr = (p, tr') ->
  rt_mem tr' = rt_mem tr /\ rt_root tr' = rt_root tr /\
  match p with
  | None => tr' = tr
  | Some p => exists fl', heap_ok tr' (p :: used) fl'
  end.
Proof.
  intros Hh. unfold ngx_radix_alloc. destruct (rt_free tr) as [q|] eqn:Ef.
  - intros [= <- <-]. split_and!; [done..|]. destruct Hh as [H1 H2 H3 H4 H5].
    destruct fl as [|q' fl]; cbn in H1; [by rewrite Ef in H1|].
    rewrite Ef in H1. destruct H1 as [[= <-] (n & E & H1)]. exists fl.
    constructor; [cbn; by rewrite E|..|done|done].
    + cbn. by rewrite Permutation_middle.
    + change (Forall (fun a => ~ unused tr a) ((q :: used) ++ fl)). cbn.
      by rewrite <- (Permutation_middle used fl q) in H3.
  - destruct (Z.ltb_spec (rt_size tr) NODE_SIZE).
    + destruct (rt_pages tr) as [|pg pages] eqn:Ep; intros [= <- <-]; split_and!; try done.
      exists fl. pose proof Hh as [H1 H2 H3 H4 H5].
      set (tr1 := {| tr with rt_free := None; rt_start := pg; rt_size := NGX_PAGESIZE; rt_pages := pages |}).
      apply (heap_ok_bump tr1); [cbn; lia|].
      assert (Hsub : forall a, unused tr1 a -> unused tr a).
      { intros a Hu. unfold unused, ranges in *. rewrite Ep. right. exact Hu. }
      constructor; [by rewrite Ef in H1|done|eapply Forall_impl; [exact H3|cbn; eauto]|cbn; lia|].
      unfold ranges in *. rewrite Ep in H5. by inversion H5.
    + intros [= <- <-]. split_and!; [done..|]. exists fl. by apply heap_ok_bump.
Qed.

(** Giving a node back. *)
Lemma heap_ok_release tr a n used fl :
  heap_ok tr (a :: used) fl -> rn_right n = rt_free tr ->
  heap_ok {| (set_node tr a n) with rt_free := Some a |} used (a :: fl).
Proof.
  intros [H1 H2 H3 H4 H5] En. cbn in H2, H3. constructor; [|..|done|done].
  - cbn. split; [done|]. exists n. rewrite lookup_insert_eq, En. split; [done|].
    apply free_list_set; [|done]. apply NoDup_cons in H2 as [H2 _]. set_solver.
  - by rewrite <- Permutation_middle.
  - change (Forall (fun b => ~ unused tr b) (used ++ a :: fl)). by rewrite <- Permutation_middle.
Qed.

(** ** Keys *)

Section Keys.
Context {K : Type} `{RadixKey K}.

Definition cur (d : nat) : rk_cursor := Nat.iter d rk_next rk_first.

Definition kbits (k : K) : list bool := map (fun d => rk_test k (cur d)) (seq 0 rk_width).

Fixpoint leading (bs : list bool) : nat :=
  match bs with true :: bs' => S (leading bs') | _ => 0 end.

(** The prefix that a key and a mask denote: the bits of the key under the
    leading ones of the mask. *)
Definition mlen (mask : K) : nat := leading (kbits mask).
Definition prefix (key mask : K) : list bool := take (mlen mask) (kbits key).
End Keys.

(** What the operations rely on: the bits after the last one are not in any
    mask, and the loop of find walks over the same bits. *)
Class RadixLaws (K : Type) `{RadixKey K} : Prop := {
  rk_end : forall k : K, rk_test k (cur rk_width) = false;
  rk_same : forall d, (d < rk_width)%nat -> Nat.iter d rk_find_next rk_first = cur d
}.

#[export] Instance radix32_laws : RadixLaws Z.
Proof.
  split; [|done]. intros k. change (cur rk_width) with 0. cbn. by rewrite Z.land_0_r.
Qed.

#[export] Instance radix128_laws : RadixLaws (list Z).
Proof.
  split.
  - intros k. change (cur rk_width) with (16, 0). cbn [rk_test radix128]. by rewrite Z.land_0_r.
  - intros d Hd. assert (Hall : forallb (fun d => bool_decide (Nat.iter d rk_find_next rk_first = cur d))
      (seq 0 128) = true) by (by vm_compute).
    rewrite forallb_forall in Hall. specialize (Hall d). apply bool_decide_eq_true in Hall; [done|].
    apply in_seq. cbn in Hd. lia.
Qed.

Section KeyLemmas.
Context {K : Type} `{RadixLaws K}.

Lemma kbits_length k : length (kbits k) = rk_width.
Proof. unfold kbits. by rewrite length_map, length_seq. Qed.

Lemma kbits_lookup k d : (d < rk_width)%nat -> kbits k !! d = Some (rk_test k (cur d)).
Proof. intros Hd. unfold kbits. by rewrite list_lookup_fmap, lookup_seq_lt. Qed.

Lemma leading_spec bs :
  (leading bs <= length bs)%nat /\ (forall d, (d < leading bs)%nat -> bs !! d = Some true) /\
  (leading bs < length bs -> bs !! leading bs = Some false)%nat.
Proof.
  induction bs as [|[] bs (IH1 & IH2 & IH3)]; cbn; [split_and!; intros; lia| |].
  - split_and!; [lia| |intros; apply IH3; lia]. intros [|d] Hd; [done|]. apply IH2. lia.
  - split_and!; [lia|intros; lia|done].
Qed.

Lemma mlen_width (mask : K) : (mlen mask <= rk_width)%nat.
Proof. pose proof (leading_spec (kbits mask)) as (? & _). by rewrite kbits_length in *. Qed.

Lemma mask_bits (mask : K) d : (d <= mlen mask)%nat -> rk_test mask (cur d) = bool_decide (d < mlen mask)%nat.
Proof.
  intros Hd. pose proof (leading_spec (kbits mask)) as (Hle & Hlt & Hend).
  pose proof (mlen_width mask) as Hw. unfold mlen in *. rewrite kbits_length in *.
  destruct (decide (d < leading (kbits mask))%nat) as [Hl|Hl].
  - rewrite bool_decide_true by done. specialize (Hlt d Hl). rewrite kbits_lookup in Hlt by lia. congruence.
  - rewrite bool_decide_false by done. replace d with (leading (kbits mask)) by lia.
    destruct (decide (leading (kbits mask) < rk_width)%nat) as [Hl'|Hl'].
    + specialize (Hend Hl'). rewrite kbits_lookup in Hend by lia. congruence.
    + replace (leading (kbits mask)) with rk_width by lia. apply rk_end.
Qed.

Lemma take_kbits_S (k : K) d : (d < rk_width)%nat -> take (S d) (kbits k) = take d (kbits k) ++ [rk_test k (cur d)].
Proof. intros Hd. apply take_S_r. by apply kbits_lookup. Qed.
End KeyLemmas.

(** ** The operations on tries *)

Section Refinement.
Context {K : Type} `{RadixLaws K}.
Implicit Types (key mask : K) (tr : rtree) (t : trie).

(** The memory of [tr] holds the trie [t]. *)
Record radix_ok tr t : Prop := {
  ro_root : ptr_of t = Some (rt_root tr);
  ro_rep : rep (rt_mem tr) None t;
  ro_heap : exists fl, heap_ok tr (addrs t) fl;
  ro_depth : (depth t <= S rk_width)%nat
}.

Lemma deref_rep tr par p v l r :
  rep (rt_mem tr) par (Node p v l r) ->
  deref tr (Some p) = inr {| rn_right := ptr_of r; rn_left := ptr_of l; rn_parent := par; rn_value := v |}.
Proof. intros (E & _). cbn. by rewrite E. Qed.

(** Where a walk ends: in front of the subtree of the prefix, or at the last
    node of its path. *)
Definition walked key mask t (node : Z) (d : nat) (found : bool) : Prop :=
  exists ctx v l r, t = plug ctx (Node node v l r) /\ path ctx = take d (kbits key) /\
    length ctx = d /\ (d <= mlen mask)%nat /\
    (if found then d = mlen mask
     else (d < mlen mask)%nat /\ (if rk_test key (cur d) then r else l) = Tip).

Lemma radix_walk_spec fuel tr key mask ctx node v l r d :
  rep (rt_mem tr) None (plug ctx (Node node v l r)) -> path ctx = take d (kbits key) ->
  length ctx = d -> (d <= mlen mask)%nat -> (mlen mask - d < fuel)%nat ->
  exists node' d' found,
    radix_walk fuel tr key mask (cur d) node = inr (cur d', node', found) /\
    radix_seek fuel tr key mask (cur d) (Some node) = inr (if found then Some node' else None) /\
    walked key mask (plug ctx (Node node v l r)) node' d' found.
Proof.
  revert ctx node v l r d; induction fuel as [|fuel IH]; intros ctx node v l r d Hrep Hpath Hlen Hd Hfuel; [lia|].
  cbn [radix_walk radix_seek]. rewrite mask_bits by done. pose proof (mlen_width mask) as Hw.
  destruct (decide (d < mlen mask)%nat) as [Hl|Hl].
  - rewrite bool_decide_true by done. cbn [negb].
    apply rep_plug in Hrep as Hr. destruct Hr as [Hnode _]. rewrite (deref_rep _ _ _ _ _ _ Hnode).
    set (b := rk_test key (cur d)).
    destruct (if b then r else l) as [|p' v' l' r'] eqn:Ec.
    + assert (child b {| rn_right := ptr_of r; rn_left := ptr_of l; rn_parent := ctx_parent ctx; rn_value := v |}
        = None) as -> by (destruct b; by rewrite Ec).
      exists node, d, false. split_and!; [done| |].
      * destruct fuel; [lia|]. done.
      * exists ctx, v, l, r. split_and!; done.
    + assert (child b {| rn_right := ptr_of r; rn_left := ptr_of l; rn_parent := ctx_parent ctx; rn_value := v |}
        = Some p') as -> by (destruct b; by rewrite Ec).
      set (f := {| fr_right := b; fr_p := node; fr_v := v; fr_other := if b then l else r |}).
      assert (Eplug : plug ctx (Node node v l r) = plug (f :: ctx) (Node p' v' l' r')).
      { cbn [plug]. f_equal. subst f. unfold plug_frame. cbn. destruct b; by rewrite Ec. }
      rewrite Eplug in *. change (rk_next (cur d)) with (cur (S d)).
      apply IH; [done| |by cbn; f_equal|lia|lia].
      rewrite path_cons, Hpath. cbn [fr_right f]. symmetry. apply take_kbits_S. lia.
  - rewrite bool_decide_false by done. cbn [negb]. exists node, d, true. split_and!; [done..|].
    exists ctx, v, l, r. split_and!; [done..|]. lia.
Qed.

Lemma radix_walk_root tr t key mask :
  radix_ok tr t ->
  exists node d found,
    radix_walk (S rk_width) tr key mask rk_first (rt_root tr) = inr (cur d, node, found) /\
    radix_seek (S rk_width) tr key mask rk_first (Some (rt_root tr)) = inr (if found then Some node else None) /\
    walked key mask t node d found.
Proof.
  intros [Hroot Hrep _ _]. destruct t as [|p v l r]; [done|]. cbn in Hroot. injection Hroot as ->.
  pose proof (mlen_width mask).
  apply (radix_walk_spec (S rk_width) tr key mask [] (rt_root tr) v l r 0); [done|done|done|lia|lia].
Qed.

(** Nothing is stored under a prefix whose path leaves the tree. *)
Lemma walked_none key mask t node d : walked key mask t node d false -> look t (prefix key mask) = None.
Proof.
  intros (ctx & v & l & r & -> & Hpath & Hlen & Hd & Hlt & Hc). pose proof (mlen_width mask).
  unfold prefix. rewrite <- (take_drop d (take (mlen mask) (kbits key))), take_take.
  replace (Nat.min d (mlen mask)) with d by lia. rewrite <- Hpath, look_plug.
  destruct (drop d (take (mlen mask) (kbits key))) as [|b bs] eqn:E.
  - apply (f_equal length) in E. rewrite length_drop, length_take, kbits_length in E. cbn in E. lia.
  - assert (Hb : kbits key !! d = Some b).
    { pose proof (f_equal (fun l => l !! 0%nat) E) as E0. cbv beta in E0.
      rewrite lookup_drop, Nat.add_0_r, lookup_take_lt in E0 by lia. exact E0. }
    rewrite kbits_lookup in Hb by lia. injection Hb as <-. cbn. by rewrite Hc.
Qed.

Lemma walked_found key mask t node d :
  walked key mask t node d true ->
  exists ctx v l r, t = plug ctx (Node node v l r) /\ path ctx = prefix key mask /\ length ctx = mlen mask.
Proof. intros (ctx & v & l & r & -> & Hpath & Hlen & _ & ->). exists ctx, v, l, r. done. Qed.

Lemma depth_plug ctx t t' : (depth t' <= depth t)%nat -> (depth (plug ctx t') <= depth (plug ctx t))%nat.
Proof.
  revert t t'; induction ctx as [|f ctx IH]; intros t t' Hd; [done|]. cbn [plug]. apply IH.
  unfold plug_frame. destruct (fr_right f); cbn; lia.
Qed.

Lemma depth_plug_leaf ctx p v :
  depth (plug ctx (Node p v Tip Tip)) = Nat.max (S (length ctx)) (depth (plug ctx Tip)).
Proof.
  assert (Hgen : forall ctx t, depth (plug ctx t) = Nat.max (length ctx + depth t) (depth (plug ctx Tip))).
  { clear. induction ctx as [|f ctx IH]; intros t; cbn [plug length]; [cbn; lia|].
    rewrite IH. rewrite (IH (plug_frame f Tip)). unfold plug_frame. destruct (fr_right f); cbn; lia. }
  rewrite Hgen. cbn. f_equal. lia.
Qed.

Lemma ptr_of_plug ctx p v l r p' v' l' r' :
  (ctx = [] -> p = p') ->
  ptr_of (plug ctx (Node p v l r)) = ptr_of (plug ctx (Node p' v' l' r')).
Proof.
  destruct ctx as [|f ctx]; [intros ->; done|]. intros _. revert p v l r p' v' l' r' f.
  induction ctx as [|g ctx IH]; intros p v l r p' v' l' r' f.
  - unfold plug, plug_frame. by destruct (fr_right f).
  - change (ptr_of (plug (g :: ctx) (plug_frame f (Node p v l r))) =
            ptr_of (plug (g :: ctx) (plug_frame f (Node p' v' l' r')))).
    unfold plug_frame. destruct (fr_right f); apply IH.
Qed.

(** Writing the value of a node. *)
Lemma radix_ok_value tr ctx node v v' l r :
  radix_ok tr (plug ctx (Node node v l r)) ->
  radix_ok (set_node tr node {| rn_right := ptr_of r; rn_left := ptr_of l; rn_parent := ctx_parent ctx;
                                rn_value := v' |}) (plug ctx (Node node v' l r)).
Proof.
  intros [Hroot Hrep [fl Hh] Hd].
  assert (Hadd : forall w, addrs (plug ctx (Node node w l r)) ≡ₚ node :: (addrs l ++ addrs r) ++ ctx_addrs ctx)
    by (intros w; by rewrite addrs_plug).
  assert (Hnd : NoDup (node :: (addrs l ++ addrs r) ++ ctx_addrs ctx)).
  { rewrite <- (Hadd v). destruct Hh as [_ Hnd _ _ _]. by apply NoDup_app in Hnd as (? & _). }
  apply NoDup_cons in Hnd as [Hn _]. rewrite !not_elem_of_app in Hn. destruct Hn as [[Hl Hr] Hc].
  apply rep_plug in Hrep as [(E & Rl & Rr) Rc]. constructor.
  - cbn [rt_root set_node]. rewrite <- Hroot. by apply ptr_of_plug.
  - apply rep_plug. cbn [set_node rt_mem rep]. split_and!; [by rewrite lookup_insert_eq|by apply rep_set..|].
    by apply rep_ctx_set.
  - exists fl. eapply heap_ok_perm; [by rewrite (Hadd v'), <- (Hadd v)|].
    apply heap_ok_set; [|done]. rewrite (Hadd v). left.
  - etransitivity; [|exact Hd]. by apply depth_plug.
Qed.

Lemma look_value ctx node v v' l r q :
  look (plug ctx (Node node v' l r)) q =
  if decide (q = path ctx) then (if v' =? NGX_RADIX_NO_VALUE then None else Some v')
  else look (plug ctx (Node node v l r)) q.
Proof.
  case_decide as E.
  - subst. rewrite <- (app_nil_r (path ctx)), look_plug. done.
  - apply (look_plug_change ctx _ _ []); [|by rewrite app_nil_r]. by intros [|b bs].
Qed.

(** *** Insertion *)

(** One node more on the path. *)
Lemma radix_ok_grow tr tr1 ctx node v l r (b : bool) next :
  radix_ok tr (plug ctx (Node node v l r)) -> (if b then r else l) = Tip -> (length ctx < rk_width)%nat ->
  ngx_radix_alloc tr = (Some next, tr1) ->
  let f := {| fr_right := b; fr_p := node; fr_v := v; fr_other := if b then l else r |} in
  let tr2 := set_node tr1 next {| rn_right := None; rn_left := None; rn_parent := Some node;
                                  rn_value := NGX_RADIX_NO_VALUE |} in
  exists n, deref tr2 (Some node) = inr n /\
    radix_ok (set_node tr2 node (set_child b (Some next) n))
      (plug (f :: ctx) (Node next NGX_RADIX_NO_VALUE Tip Tip)).
Proof.
  intros [Hroot Hrep [fl Hh] Hd] Hc Hlen Ha. cbv zeta.
  set (f := {| fr_right := b; fr_p := node; fr_v := v; fr_other := if b then l else r |}).
  assert (Et : plug ctx (Node node v l r) = plug (f :: ctx) Tip).
  { cbn [plug]. f_equal. unfold plug_frame. cbn. destruct b; by rewrite Hc. }
  rewrite Et in *. destruct (radix_alloc_spec _ _ _ _ _ Hh Ha) as (Em & Er & fl' & Hh').
  assert (Hadd : addrs (plug (f :: ctx) (Node next NGX_RADIX_NO_VALUE Tip Tip)) ≡ₚ
    next :: addrs (plug (f :: ctx) Tip)) by (by rewrite !addrs_plug).
  assert (Hnd : NoDup (next :: node :: addrs (fr_other f) ++ ctx_addrs ctx)).
  { pose proof (hp_nodup _ _ _ Hh') as Hnd. apply NoDup_app in Hnd as (Hnd & _).
    by rewrite addrs_plug in Hnd. }
  rewrite !NoDup_cons, !not_elem_of_cons, !not_elem_of_app in Hnd.
  destruct Hnd as ((Hne & Hnf & Hnc) & (Hf & Hc') & _).
  apply rep_plug in Hrep as [_ (En & Ro & Rc)]. cbn [fr_p f] in En.
  exists (frame_node f None (ctx_parent ctx)). split.
  { cbn. rewrite Em, lookup_insert_ne, En by done. done. }
  constructor.
  - cbn [rt_root set_node]. rewrite Er, <- Hroot. rewrite <- Et. cbn [plug].
    unfold plug_frame. cbn [fr_right f fr_p fr_v]. destruct b; by apply ptr_of_plug.
  - apply rep_plug. cbn [rep rep_ctx ptr_of rt_mem set_node ctx_parent fr_p f]. rewrite Em. split_and!.
    + by rewrite lookup_insert_ne, lookup_insert_eq by done.
    + done.
    + done.
    + rewrite lookup_insert_eq. unfold frame_node, set_child. cbn [fr_right f fr_v fr_other]. by destruct b.
    + by do 2 (apply rep_set; [done|]).
    + by do 2 (apply rep_ctx_set; [done|]).
  - exists fl'. eapply heap_ok_perm; [symmetry; exact Hadd|].
    apply heap_ok_set; [|by apply heap_ok_set; [left|]]. right. rewrite addrs_plug. cbn. left.
  - rewrite depth_plug_leaf. cbn [length]. lia.
Qed.

(** Nodes that were added on a path have no values. *)
Lemma look_grow (ctx : list frame) node v l r (b : bool) next q :
  (if b then r else l) = Tip ->
  look (plug ctx (plug_frame {| fr_right := b; fr_p := node; fr_v := v; fr_other := if b then l else r |}
    (Node next NGX_RADIX_NO_VALUE Tip Tip))) q = look (plug ctx (Node node v l r)) q.
Proof.
  intros Hc. apply look_plug_same. unfold plug_frame. cbn [fr_right fr_p fr_v fr_other].
  intros [|c bs]; destruct b; cbn; try done; destruct c; cbn; rewrite ?Hc; try done; by destruct bs as [|[]].
Qed.

Lemma radix_grow_spec fuel tr key mask ctx node v l r d :
  radix_ok tr (plug ctx (Node node v l r)) -> path ctx = take d (kbits key) -> length ctx = d ->
  (d <= mlen mask)%nat -> (mlen mask - d < fuel)%nat ->
  ((d < mlen mask)%nat -> (if rk_test key (cur d) then r else l) = Tip) ->
  (d < mlen mask \/ v = NGX_RADIX_NO_VALUE)%nat ->
  exists tr' last t', radix_grow fuel tr key mask (cur d) node = inr (tr', last) /\
    radix_ok tr' t' /\ (forall q, look t' q = look (plug ctx (Node node v l r)) q) /\
    match last with
    | None => memory_left tr' = false
    | Some last => exists ctx' l' r', t' = plug ctx' (Node last NGX_RADIX_NO_VALUE l' r') /\
                     path ctx' = prefix key mask
    end.
Proof.
  revert tr ctx node v l r d; induction fuel as [|fuel IH];
    intros tr ctx node v l r d Hok Hpath Hlen Hd Hfuel Hc Hv; [lia|].
  cbn [radix_grow]. rewrite mask_bits by done. pose proof (mlen_width mask) as Hw.
  destruct (decide (d < mlen mask)%nat) as [Hl|Hl].
  - rewrite bool_decide_true by done. cbn [negb]. specialize (Hc Hl).
    destruct (ngx_radix_alloc tr) as [[next|] tr1] eqn:Ea.
    + destruct (radix_ok_grow tr tr1 ctx node v l r _ next Hok Hc ltac:(lia) Ea) as (n & En & Hok').
      rewrite En. change (rk_next (cur d)) with (cur (S d)).
      edestruct (IH _ _ _ _ _ _ (S d) Hok') as (tr' & last & t' & E & Hokt & Hlook & Hlast);
        [|by cbn; f_equal|lia|lia|by destruct (rk_test key (cur (S d)))|by right|].
      * rewrite path_cons, Hpath. symmetry. apply take_kbits_S. lia.
      * exists tr', last, t'. split_and!; [done..| |done]. intros q. rewrite Hlook. cbn [plug]. by apply look_grow.
    + destruct Hok as [Hroot Hrep [fl Hh] Hdep].
      destruct (radix_alloc_spec _ _ _ _ _ Hh Ea) as (_ & _ & ->).
      eexists _, _, _. split; [done|]. split; [constructor; eauto|]. split; [done|].
      unfold memory_left. by rewrite Ea.
  - rewrite bool_decide_false by done. cbn [negb]. eexists _, _, _. split; [done|].
    split; [exact Hok|]. split; [done|]. exists ctx, l, r. destruct Hv as [Hv|Hv]; [lia|subst v]. split; [done|].
    rewrite Hpath. unfold prefix. f_equal. lia.
Qed.

Definition stored (value : Z) : option Z := if value =? NGX_RADIX_NO_VALUE then None else Some value.

Lemma radix_insert_spec tr t key mask value :
  radix_ok tr t ->
  exists rc tr' t', radix_insert tr key mask value = inr (rc, tr') /\ radix_ok tr' t' /\
    ((rc = NGX_BUSY /\ is_Some (look t (prefix key mask)) /\ tr' = tr /\ t' = t) \/
     (rc = NGX_ERROR /\ look t (prefix key mask) = None /\ memory_left tr' = false /\
        forall q, look t' q = look t q) \/
     (rc = NGX_OK /\ look t (prefix key mask) = None /\
        forall q, look t' q = if decide (q = prefix key mask) then stored value else look t q)).
Proof.
  intros Hok. destruct (radix_walk_root tr t key mask Hok) as (node & d & found & Ew & _ & Hw).
  unfold radix_insert. rewrite Ew. destruct found.
  - apply walked_found in Hw as (ctx & v & l & r & -> & Hpath & _).
    pose proof (ro_rep _ _ Hok) as Hrep. apply rep_plug in Hrep as [Hn _]. rewrite (deref_rep _ _ _ _ _ _ Hn).
    cbn [rn_value]. assert (Hlook : look (plug ctx (Node node v l r)) (prefix key mask) = stored v).
    { rewrite <- Hpath, <- (app_nil_r (path ctx)), look_plug. done. }
    unfold stored in Hlook. destruct (Z.eqb_spec v NGX_RADIX_NO_VALUE) as [->|]; cbn [negb].
    + eexists _, _, _. split; [done|]. split; [eapply radix_ok_value; exact Hok|].
      right. right. split_and!; [done..|]. intros q. rewrite (look_value ctx node (2 ^ 64 - 1)), Hpath. done.
    + eexists _, _, _. split; [done|]. split; [exact Hok|]. left. rewrite Hlook. by eauto.
  - pose proof (walked_none _ _ _ _ _ Hw) as Hnone.
    destruct Hw as (ctx & v & l & r & -> & Hpath & Hlen & Hd & Hlt & Hc). pose proof (mlen_width mask).
    destruct (radix_grow_spec (S rk_width) tr key mask ctx node v l r d Hok Hpath Hlen Hd ltac:(lia)
      (fun _ => Hc) (or_introl Hlt)) as (tr' & last & t' & Eg & Hok' & Hlook & Hlast).
    rewrite Eg. destruct last as [last|].
    + destruct Hlast as (ctx' & l' & r' & -> & Hpath').
      pose proof (ro_rep _ _ Hok') as Hrep. apply rep_plug in Hrep as [Hn _]. rewrite (deref_rep _ _ _ _ _ _ Hn).
      eexists _, _, _. split; [done|]. split; [eapply radix_ok_value; exact Hok'|].
      right. right. split_and!; [done..|]. intros q.
      rewrite (look_value ctx' last (2 ^ 64 - 1)), Hpath', Hlook. done.
    + eexists _, _, _. split; [done|]. split; [exact Hok'|]. right. left. by split_and!.
Qed.

(** *** Search *)

Lemma longest_none bs : longest (look Tip) bs = None.
Proof.
  change (look Tip) with (fun _ : list bool => @None Z).
  induction bs as [|b bs IH]; [done|]. cbn [longest]. by rewrite IH.
Qed.

Lemma radix_find_loop_spec fuel tr key par t d acc :
  rep (rt_mem tr) par t -> (d + depth t <= S rk_width)%nat -> (depth t < fuel)%nat ->
  radix_find_loop fuel tr key (Nat.iter d rk_find_next rk_first) (ptr_of t) acc =
  inr (default acc (longest (look t) (drop d (kbits key)))).
Proof.
  revert fuel par d acc; induction t as [|p v l IHl r IHr]; intros fuel par d acc Hrep Hd Hfuel.
  { destruct fuel; [lia|]. cbn. by rewrite longest_none. }
  destruct fuel as [|fuel]; [lia|]. cbn [depth] in *. cbn [radix_find_loop ptr_of].
  rewrite (deref_rep _ _ _ _ _ _ Hrep). destruct Hrep as (_ & Rl & Rr).
  set (b := rk_test key (Nat.iter d rk_find_next rk_first)). cbn [rn_value].
  set (acc' := if negb (v =? NGX_RADIX_NO_VALUE) then v else acc).
  change (rk_find_next (Nat.iter d rk_find_next rk_first)) with (Nat.iter (S d) rk_find_next rk_first).
  assert (IH : radix_find_loop fuel tr key (Nat.iter (S d) rk_find_next rk_first)
      (ptr_of (if b then r else l)) acc' =
      inr (default acc' (longest (look (if b then r else l)) (drop (S d) (kbits key))))).
  { destruct b; [eapply IHr|eapply IHl]; eauto; lia. }
  replace (child b _) with (ptr_of (if b then r else l)) by (by destruct b). rewrite IH. f_equal.
  destruct (Nat.lt_ge_cases d rk_width) as [Hlt|Hge].
  - rewrite (drop_S (kbits key) (rk_test key (cur d)) d) by (by apply kbits_lookup).
    subst b. rewrite rk_same by done. cbn [longest].
    change (fun q => look (Node p v l r) (rk_test key (cur d) :: q))
      with (look (if rk_test key (cur d) then r else l)).
    clear IH. destruct (longest (look (if rk_test key (cur d) then r else l)) (drop (S d) (kbits key)));
      [done|]. subst acc'. cbn [look]. by destruct (v =? NGX_RADIX_NO_VALUE).
  - assert (l = Tip /\ r = Tip) as [-> ->] by (split; [destruct l|destruct r]; cbn in *; [done|lia|done|lia]).
    rewrite !drop_ge by (rewrite kbits_length; lia). destruct b; subst acc'; cbn [longest look]; by destruct (v =? NGX_RADIX_NO_VALUE).
Qed.

Lemma radix_find_spec tr t key :
  radix_ok tr t ->
  radix_find tr key = inr (default NGX_RADIX_NO_VALUE (longest (look t) (kbits key))).
Proof.
  intros [Hroot Hrep _ Hd]. unfold radix_find. rewrite <- Hroot.
  rewrite (radix_find_loop_spec _ _ _ None t 0); [done|done|lia|lia].
Qed.

(** *** Deletion *)

Lemma ptr_of_addrs t p : ptr_of t = Some p -> p ∈ addrs t.
Proof. destruct t; [done|]. intros [= ->]. left. Qed.

(** One leaf less. *)
Lemma radix_ok_unlink tr f ctx node v :
  radix_ok tr (plug (f :: ctx) (Node node v Tip Tip)) ->
  let np := frame_node f None (ctx_parent ctx) in
  let n := {| rn_right := None; rn_left := None; rn_parent := Some (fr_p f); rn_value := v |} in
  let tr1 := set_node tr (fr_p f) np in
  deref tr (Some node) = inr n /\
  (exists np0, deref tr (Some (fr_p f)) = inr np0 /\
     (if decide (rn_right np0 = Some node) then {| np0 with rn_right := None |}
      else {| np0 with rn_left := None |}) = np) /\
  radix_ok {| (set_node tr1 node {| n with rn_right := rt_free tr1 |}) with rt_free := Some node |}
    (plug (f :: ctx) Tip).
Proof.
  intros [Hroot Hrep [fl Hh] Hd]. cbv zeta.
  assert (Hadd : addrs (plug (f :: ctx) (Node node v Tip Tip)) ≡ₚ node :: addrs (plug (f :: ctx) Tip))
    by (by rewrite !addrs_plug).
  apply (heap_ok_perm _ _ _ _ Hadd) in Hh.
  assert (Hnd : NoDup (node :: fr_p f :: addrs (fr_other f) ++ ctx_addrs ctx)).
  { pose proof (hp_nodup _ _ _ Hh) as Hnd. apply NoDup_app in Hnd as (Hnd & _). by rewrite addrs_plug in Hnd. }
  rewrite !NoDup_cons, !not_elem_of_cons, !not_elem_of_app in Hnd.
  destruct Hnd as ((Hne & Hno & Hnc) & (Hpo & Hpc) & _).
  apply rep_plug in Hrep as [(En & _) (Ep & Ro & Rc)]. cbn [ptr_of] in En, Ep, Rc.
  split_and!.
  - cbn. by rewrite En.
  - exists (frame_node f (Some node) (ctx_parent ctx)). split; [cbn; by rewrite Ep|].
    unfold frame_node. cbn [rn_right rn_left rn_parent rn_value]. destruct (fr_right f).
    + by rewrite decide_True.
    + rewrite decide_False; [done|]. intros E. by apply ptr_of_addrs in E.
  - constructor.
    + cbn [rt_root set_node]. rewrite <- Hroot. cbn [plug]. unfold plug_frame.
      destruct (fr_right f); by apply ptr_of_plug.
    + apply rep_plug. cbn [rep rep_ctx rt_mem set_node ptr_of]. split_and!; [done|..].
      * by rewrite lookup_insert_ne, lookup_insert_eq by done.
      * by do 2 (apply rep_set; [done|]).
      * by do 2 (apply rep_ctx_set; [done|]).
    + exists (node :: fl). apply heap_ok_release; [|done]. apply heap_ok_set; [|done].
      rewrite addrs_plug. right. left.
    + etransitivity; [|exact Hd]. apply depth_plug. cbn. lia.
Qed.

Lemma radix_prune_spec fuel tr f ctx node v :
  radix_ok tr (plug (f :: ctx) (Node node v Tip Tip)) -> (length ctx < fuel)%nat ->
  exists tr' t', radix_prune fuel tr node = inr tr' /\ radix_ok tr' t' /\
    forall q, look t' q = look (plug (f :: ctx) Tip) q.
Proof.
  revert tr f ctx node v; induction fuel as [|fuel IH]; intros tr f ctx node v Hok Hfuel; [lia|].
  destruct (radix_ok_unlink tr f ctx node v Hok) as (En & (np0 & Ep & Enp) & Hok').
  cbn [radix_prune]. rewrite En. cbn [rn_parent]. rewrite Ep, Enp. cbn [rn_right rn_left rn_value] in Hok'.
  destruct (_ || _) eqn:Estop.
  - eexists _, _. split; [done|]. split; [exact Hok'|done].
  - apply orb_false_iff in Estop as [Estop Hpar]. apply orb_false_iff in Estop as [Estop Hval].
    apply orb_false_iff in Estop as [Hr Hl]. rewrite bool_decide_eq_false in Hr, Hl, Hpar.
    apply negb_false_iff, Z.eqb_eq in Hval. unfold frame_node in Hr, Hl, Hval, Hpar.
    cbn [rn_right rn_left rn_value rn_parent] in Hr, Hl, Hval, Hpar.
    assert (Ho : fr_other f = Tip).
    { destruct (fr_other f) eqn:E; [done|exfalso]. destruct (fr_right f); [apply Hl|apply Hr]; cbn; eauto. }
    destruct ctx as [|g ctx]; [done|]. cbn in Hfuel.
    assert (Ef : plug_frame f Tip = Node (fr_p f) NGX_RADIX_NO_VALUE Tip Tip).
    { unfold plug_frame. rewrite Ho. destruct (fr_right f); by f_equal. }
    cbn [plug] in Hok'. rewrite Ef in Hok'. change (plug ctx (plug_frame g ?t)) with (plug (g :: ctx) t) in Hok'.
    destruct (IH _ g ctx (fr_p f) _ Hok' ltac:(lia)) as (tr' & t' & E & Hok2 & Hlook).
    eexists _, _. split; [exact E|]. split; [exact Hok2|]. intros q. rewrite Hlook.
    change (look (plug (g :: ctx) Tip) q = look (plug (g :: ctx) (plug_frame f Tip)) q). rewrite Ef.
    apply (look_plug_same (g :: ctx)). by intros [|[] [|[]]].
Qed.

Lemma radix_delete_spec tr t key mask :
  radix_ok tr t -> (prefix key mask = [] -> (1 < depth t)%nat) ->
  exists rc tr' t', radix_delete tr key mask = inr (rc, tr') /\ radix_ok tr' t' /\
    ((rc = NGX_ERROR /\ look t (prefix key mask) = None /\ tr' = tr /\ t' = t) \/
     (rc = NGX_OK /\ forall q, look t' q = if decide (q = prefix key mask) then None else look t q)).
Proof.
  intros Hok Hroot. destruct (radix_walk_root tr t key mask Hok) as (node & d & found & _ & Es & Hw).
  unfold radix_delete. rewrite Es. destruct found.
  2:{ eexists _, _, _. split; [done|]. split; [exact Hok|]. left. split_and!; try done. by eapply walked_none. }
  apply walked_found in Hw as (ctx & v & l & r & -> & Hpath & Hlen).
  pose proof (ro_rep _ _ Hok) as Hrep. apply rep_plug in Hrep as [Hn _]. rewrite (deref_rep _ _ _ _ _ _ Hn).
  cbn [rn_right rn_left rn_value].
  assert (Hlook : look (plug ctx (Node node v l r)) (prefix key mask) = stored v).
  { rewrite <- Hpath, <- (app_nil_r (path ctx)), look_plug. done. }
  destruct (_ || _) eqn:Ech.
  - unfold stored in Hlook. destruct (Z.eqb_spec v NGX_RADIX_NO_VALUE) as [Ev|Ev]; cbn [negb].
    + eexists _, _, _. split; [done|]. split; [exact Hok|]. left. done.
    + eexists _, _, _. split; [done|]. split; [eapply radix_ok_value; exact Hok|]. right. split; [done|].
      intros q. rewrite (look_value ctx node v), Hpath. done.
  - apply orb_false_iff in Ech as [Er El]. rewrite bool_decide_eq_false in Er, El.
    assert (l = Tip /\ r = Tip) as [-> ->].
    { split; [destruct l|destruct r]; try done; exfalso; [apply El|apply Er]; cbn; eauto. }
    destruct ctx as [|f ctx]; [by specialize (Hroot (eq_sym Hpath)); cbn in Hroot; lia|].
    pose proof (mlen_width mask). cbn in Hlen.
    destruct (radix_prune_spec (S rk_width) tr f ctx node v Hok ltac:(lia)) as (tr' & t' & E & Hok' & Hl').
    rewrite E. eexists _, _, _. split; [done|]. split; [exact Hok'|]. right. split; [done|].
    intros q. rewrite Hl', <- Hpath. case_decide as Eq.
    + subst. rewrite <- (app_nil_r (path _)), look_plug. done.
    + apply (look_plug_change (f :: ctx) _ _ []); [|by rewrite app_nil_r]. by intros [|[] [|[]]].
Qed.
End Refinement.

(** ** The abstract table of prefixes *)

Definition table : Type := list bool -> option Z.

Definition table_set (f : table) (p : list bool) (v : option Z) : table :=
  fun q => if decide (q = p) then v else f q.

Section Table.
Context {K : Type} `{RadixLaws K}.
Implicit Types (tr : rtree) (f : table).

(** A tree in memory represents a table. *)
Definition represents tr f : Prop := exists t, radix_ok (K := K) tr t /\ forall q, look t q = f q.

Inductive radix_op : Type := Insert (key mask : K) (value : Z) | Delete (key mask : K).

Definition radix_do (op : radix_op) tr : rfault + Z * rtree :=
  match op with
  | Insert key mask value => radix_insert tr key mask value
  | Delete key mask => radix_delete tr key mask
  end.

(** Several operations: the answer of each with whether there is memory left
    after it, and the tree after all of them. *)
Fixpoint radix_run (ops : list radix_op) tr : rfault + list (Z * bool) * rtree :=
  match ops with
  | [] => inr ([], tr)
  | op :: ops =>
      match radix_do op tr with
      | inl e => inl e
      | inr (rc, tr) =>
          match radix_run ops tr with
          | inl e => inl e
          | inr (rcs, tr') => inr ((rc, memory_left tr) :: rcs, tr')
          end
      end
  end.

(** The same operations on the table: an insertion finds its prefix taken, or
    stores its value, or fails, and this only when no memory is left ([left]);
    a deletion finds nothing, or leaves nothing. *)
Inductive table_step f : radix_op -> Z * bool -> table -> Prop :=
| table_busy key mask value left :
    is_Some (f (prefix key mask)) -> table_step f (Insert key mask value) (NGX_BUSY, left) f
| table_memory key mask value :
    f (prefix key mask) = None -> table_step f (Insert key mask value) (NGX_ERROR, false) f
| table_insert key mask value left :
    f (prefix key mask) = None ->
    table_step f (Insert key mask value) (NGX_OK, left) (table_set f (prefix key mask) (stored value))
| table_missing key mask left :
    f (prefix key mask) = None -> table_step f (Delete key mask) (NGX_ERROR, left) f
| table_delete key mask left :
    table_step f (Delete key mask) (NGX_OK, left) (table_set f (prefix key mask) None).

Inductive table_run : table -> list radix_op -> list (Z * bool) -> table -> Prop :=
| run_done f : table_run f [] [] f
| run_step f op rc f1 ops rcs f2 :
    table_step f op rc f1 -> table_run f1 ops rcs f2 -> table_run f (op :: ops) (rc :: rcs) f2.

(** A deletion names at least one bit of its prefix. *)
Definition op_ok (op : radix_op) : Prop :=
  match op with Insert _ _ _ => True | Delete _ mask => (0 < mlen mask)%nat end.

Lemma radix_do_step op tr f :
  op_ok op -> represents tr f ->
  exists rc tr' f', radix_do op tr = inr (rc, tr') /\ represents tr' f' /\
    table_step f op (rc, memory_left tr') f'.
Proof.
  intros Hop (t & Hok & Hf). destruct op as [key mask value|key mask]; cbn [radix_do op_ok] in *.
  - destruct (radix_insert_spec tr t key mask value Hok) as (rc & tr' & t' & E & Hok' & Hcase).
    exists rc, tr'. destruct Hcase as [(-> & Hs & -> & ->)|[(-> & Hn & Hm & Hl)|(-> & Hn & Hl)]].
    + exists f. split_and!; [done|by exists t|]. apply table_busy. by rewrite <- Hf.
    + exists f. split_and!; [done| |rewrite Hm; apply table_memory; by rewrite <- Hf]. exists t'. split; [done|]. intros q. by rewrite Hl.
    + exists (table_set f (prefix key mask) (stored value)). split_and!; [done| |apply table_insert; by rewrite <- Hf].
      exists t'. split; [done|]. intros q. rewrite Hl. unfold table_set. case_decide; [done|apply Hf].
  - destruct (radix_delete_spec tr t key mask Hok) as (rc & tr' & t' & E & Hok' & Hcase).
    { intros Hp. apply (f_equal length) in Hp. unfold prefix in Hp.
      pose proof (mlen_width mask). rewrite length_take, kbits_length in Hp. cbn in Hp. lia. }
    exists rc, tr'. destruct Hcase as [(-> & Hs & -> & ->)|(-> & Hl)].
    + exists f. split_and!; [done|by exists t|]. apply table_missing. by rewrite <- Hf.
    + exists (table_set f (prefix key mask) None). split_and!; [done| |apply table_delete].
      exists t'. split; [done|]. intros q. rewrite Hl. unfold table_set. case_decide; [done|apply Hf].
Qed.

(** C23: the tree in memory implements the table of prefixes: any sequence of
    insertions, and of deletions of prefixes of at least one bit, runs without a
    fault, and its answers and the tree after it are those of the table; an
    insertion of a new prefix fails only when no memory is left. *)
Theorem radix_refines (ops : list radix_op) (tr : rtree) (f : table) :
  Forall op_ok ops -> represents tr f ->
  exists rcs tr' f', radix_run ops tr = inr (rcs, tr') /\ represents tr' f' /\ table_run f ops rcs f'.
Proof.
  revert tr f; induction ops as [|op ops IH]; intros tr f Hops Hr.
  { eexists _, _, _. split; [done|]. split; [exact Hr|constructor]. }
  apply Forall_cons in Hops as [Hop Hops].
  destruct (radix_do_step op tr f Hop Hr) as (rc & tr1 & f1 & E & Hr1 & Hs).
  destruct (IH tr1 f1 Hops Hr1) as (rcs & tr2 & f2 & E2 & Hr2 & Hs2).
  cbn [radix_run]. rewrite E, E2. eexists _, _, _. split; [done|]. split; [exact Hr2|by econstructor].
Qed.

(** Looking a key up in a tree gives the value of the longest prefix of the
    key in the table, and [NGX_RADIX_NO_VALUE] when the table has none. *)
Theorem radix_find_longest (tr : rtree) (f : table) (key : K) (v : Z) :
  represents tr f -> v <> NGX_RADIX_NO_VALUE ->
  (radix_find tr key = inr v <->
   exists n, (n <= rk_width)%nat /\ f (take n (kbits key)) = Some v /\
     forall k, (n < k <= rk_width)%nat -> f (take k (kbits key)) = None) /\
  (radix_find tr key = inr NGX_RADIX_NO_VALUE <-> forall n, f (take n (kbits key)) = None).
Proof.
  intros (t & Hok & Hf) Hv. rewrite (radix_find_spec tr t key Hok).
  assert (Hstored : forall t q, look t q <> Some NGX_RADIX_NO_VALUE).
  { clear. induction t as [|p w l IHl r IHr]; intros [|[] q]; cbn; try done.
    case_match; zify_bool; congruence. }
  assert (Hspec : forall w, longest (look t) (kbits key) = Some w <->
    exists n, (n <= rk_width)%nat /\ f (take n (kbits key)) = Some w /\
      forall k, (n < k <= rk_width)%nat -> f (take k (kbits key)) = None).
  { intros w. rewrite longest_spec, kbits_length. by setoid_rewrite Hf. }
  split.
  - rewrite <- Hspec. destruct (longest (look t) (kbits key)) as [w|]; cbn; split; congruence.
  - destruct (longest (look t) (kbits key)) as [w|] eqn:E; cbn; split; try done.
    + intros [= ->]. destruct (proj1 (Hspec _) eq_refl) as (n & _ & E2 & _).
      rewrite <- Hf in E2. by apply Hstored in E2.
    + intros Hn. destruct (proj1 (Hspec _) eq_refl) as (n & _ & E2 & _). by rewrite Hn in E2.
    + intros _ n. destruct (f (take n (kbits key))) as [w|] eqn:En; [exfalso|done].
      assert (Hmax : forall m k, (k <= rk_width)%nat -> (rk_width - k < m)%nat -> f (take k (kbits key)) = None).
      { induction m as [|m IHm]; intros k Hk Hm; [lia|]. destruct (f (take k (kbits key))) as [x|] eqn:Ex; [|done].
        enough (@None Z = Some x) by congruence. apply Hspec. exists k.
        split_and!; [done..|]. intros j Hj. apply IHm; lia. }
      destruct (Nat.le_gt_cases n rk_width) as [Hle|Hgt].
      * rewrite (Hmax (S rk_width) n) in En by lia. done.
      * rewrite take_ge in En by (rewrite kbits_length; lia).
        rewrite <- (take_ge (kbits key) rk_width) in En by (rewrite kbits_length; lia).
        rewrite (Hmax (S rk_width) rk_width) in En by lia. done.
Qed.
End Table.
Arguments radix_op : clear implicits.

(** ** Creation *)

Definition empty_table : table := fun _ => None.

Lemma radix_row_spec n tr mask inc key :
  represents (K := Z) tr empty_table -> 0 < inc -> 0 <= key < 2 ^ 32 ->
  key + Z.of_nat n * inc = 2 ^ 32 ->
  exists r, radix_row n tr key mask inc = inr r /\
    match r with Some tr' => represents (K := Z) tr' empty_table | None => True end.
Proof.
  revert tr key; induction n as [|n IH]; intros tr key Hr Hinc Hkey Hn; [lia|]. cbn [radix_row].
  destruct (radix_do_step (Insert key mask NGX_RADIX_NO_VALUE) tr empty_table I Hr)
    as (rc & tr' & f' & E & Hr' & Hs).
  cbn [radix_do] in E. unfold ngx_radix32tree_insert. rewrite E.
  assert (Hf' : represents (K := Z) tr' empty_table).
  { inversion Hs; subst; [done..|]. destruct Hr' as (t & Hok & Hl). exists t. split; [done|].
    intros q. rewrite Hl. unfold table_set. by case_decide. }
  destruct (rc =? NGX_OK); cbn [negb]; [|by eexists].
  destruct (Z.eq_dec (key + inc) (2 ^ 32)) as [E2|E2].
  - rewrite E2. change (u32 (2 ^ 32) =? 0) with true. by eexists.
  - destruct n as [|n]; [lia|]. unfold u32. rewrite Z.mod_small by nia.
    rewrite (proj2 (Z.eqb_neq _ _)) by lia. apply IH; [done|done|nia|lia].
Qed.

Lemma radix_rows_spec n tr mask k :
  represents (K := Z) tr empty_table -> (n <= k <= 32)%nat ->
  exists r, radix_rows n tr mask (2 ^ (Z.of_nat k - 1)) = inr r /\
    match r with Some tr' => represents (K := Z) tr' empty_table | None => True end.
Proof.
  revert tr mask k; induction n as [|n IH]; intros tr mask k Hr Hk; cbn [radix_rows]; [by eexists|].
  set (inc := 2 ^ (Z.of_nat k - 1)).
  assert (Hinc : 2 ^ 32 / inc * inc = 2 ^ 32 /\ 0 < inc).
  { subst inc. assert (E : 2 ^ 32 = 2 ^ (33 - Z.of_nat k) * 2 ^ (Z.of_nat k - 1))
      by (rewrite <- Z.pow_add_r by lia; f_equal; lia).
    pose proof (Z.pow_pos_nonneg 2 (Z.of_nat k - 1) ltac:(lia) ltac:(lia)).
    rewrite E, Z.div_mul by lia. lia. }
  destruct (radix_row_spec (Z.to_nat (2 ^ 32 / inc)) tr (Z.lor (Z.shiftr mask 1) (2 ^ 31)) inc 0)
    as ([tr'|] & E & Hr'); [done|lia|lia| |rewrite E..].
  { rewrite Z2Nat.id by (apply Z.div_pos; lia). lia. }
  - assert (Z.shiftr inc 1 = 2 ^ (Z.of_nat (k - 1) - 1)) as ->.
    { subst inc. destruct (decide (k = 1%nat)) as [->|]; [done|].
      rewrite Z.shiftr_div_pow2, <- Z.pow_sub_r by lia. f_equal. lia. }
    apply IH; [done|lia].
  - by eexists.
Qed.

(** Pages that do not overlap. *)
Definition pages_ok (pages : list Z) : Prop :=
  ForallOrdPairs apart (map (fun pg => (pg, NGX_PAGESIZE)) pages) /\ Forall (fun pg => 0 <= pg) pages.

(** A created tree, whatever it preallocates, represents the empty table, for
    both kinds of keys. *)
Lemma radix_create_spec (pages : list Z) (preallocate : Z) :
  pages_ok pages -> -1 <= preallocate <= 32 ->
  exists r, ngx_radix_tree_create pages preallocate = inr r /\
    match r with
    | Some tr => represents (K := Z) tr empty_table /\ represents (K := list Z) tr empty_table
    | None => True
    end.
Proof.
  intros [Hp Hpos] Hpre. unfold ngx_radix_tree_create.
  set (tr0 := {| rt_mem := ∅; rt_root := 0; rt_free := None; rt_start := 0; rt_size := 0; rt_pages := pages |}).
  assert (Hh : heap_ok tr0 [] []).
  { constructor; [done|constructor|constructor|done|]. unfold ranges. cbn. constructor; [|done].
    apply Forall_map. eapply Forall_impl; [exact Hpos|]. intros pg. unfold apart. cbn. lia. }
  destruct (ngx_radix_alloc tr0) as [[root|] tr1] eqn:Ea; [|by eexists].
  destruct (radix_alloc_spec _ _ _ _ _ Hh Ea) as (Em & _ & fl & Hh1).
  set (tr2 := set_node _ root _).
  assert (Hr : represents (K := Z) tr2 empty_table).
  { exists (Node root NGX_RADIX_NO_VALUE Tip Tip). split; [|by intros [|[] ?]]. constructor; [done| |..].
    - cbn. by rewrite lookup_insert_eq.
    - exists fl. apply heap_ok_set; [left|]. destruct Hh1. by constructor.
    - cbn. lia. }
  assert (Hboth : forall tr, represents (K := Z) tr empty_table -> represents (K := list Z) tr empty_table).
  { intros tr (t & [H1 H2 H3 H4] & Hf). exists t. split; [|done]. constructor; [done..|]. cbn in *. lia. }
  destruct (Z.eqb_spec preallocate 0); [exists (Some tr2); split_and!; auto|].
  destruct (radix_rows_spec (Z.to_nat (if preallocate =? -1 then 6 else preallocate)) tr2 0 32 Hr)
    as ([tr'|] & E & Hr'); [case_match; lia| |]; eexists; (split; [exact E|]); [|done]. split; [done|auto].
Qed.

(** *** Witnesses *)

Definition sample_ops : list (radix_op Z) :=
  [ Insert (10 * 2 ^ 24) (255 * 2 ^ 24) 7; Insert (10 * 2 ^ 24 + 2 ^ 16) (2 ^ 32 - 2 ^ 16) 8;
    Insert (10 * 2 ^ 24) (255 * 2 ^ 24) 9; Delete (10 * 2 ^ 24) (255 * 2 ^ 24) ].

Lemma sample_represents :
  exists tr, ngx_radix_tree_create [4096] 0 = inr (Some tr) /\ represents (K := Z) tr empty_table.
Proof.
  destruct (radix_create_spec [4096] 0) as ([tr|] & E & Hr).
  - split; repeat constructor; lia.
  - lia.
  - exists tr. by destruct Hr.
  - discriminate E.
Qed.

Lemma radix_refines_witness :
  exists tr rcs tr' f', ngx_radix_tree_create [4096] 0 = inr (Some tr) /\
    radix_run sample_ops tr = inr (rcs, tr') /\ represents (K := Z) tr' f' /\
    table_run empty_table sample_ops rcs f'.
Proof.
  destruct sample_represents as (tr & E & Hr).
  destruct (radix_refines sample_ops tr empty_table) as (rcs & tr' & f' & H);
    [repeat constructor; cbn; lia|exact Hr|]. exists tr, rcs, tr', f'. split; [exact E|exact H].
Defined.

Lemma radix_find_longest_witness :
  exists tr, ngx_radix_tree_create [4096] 0 = inr (Some tr) /\
    (radix_find tr (10 * 2 ^ 24 + 1) = inr NGX_RADIX_NO_VALUE <->
     forall n, empty_table (take n (kbits (10 * 2 ^ 24 + 1))) = None).
Proof.
  destruct sample_represents as (tr & E & Hr). exists tr. split; [exact E|].
  apply (radix_find_longest tr empty_table (10 * 2 ^ 24 + 1) 0 Hr). lia.
Defined.

(** Networks inside of networks, and one taken out again. *)
Example radix_networks :
  match ngx_radix_tree_create [4096; 8192; 12288; 16384] (-1) with
  | inr (Some tr) =>
      match radix_run sample_ops tr with
      | inr (rcs, tr) =>
          rcs = [(NGX_OK, true); (NGX_OK, true); (NGX_BUSY, true); (NGX_OK, true)] /\
          ngx_radix32tree_find tr (10 * 2 ^ 24 + 2 ^ 16 + 5) = inr 8 /\
          ngx_radix32tree_find tr (10 * 2 ^ 24 + 2 ^ 17) = inr NGX_RADIX_NO_VALUE
      | inl _ => False
      end
  | _ => False
  end.
Proof. vm_compute. by split_and!. Qed.

(** Deleting the empty prefix from a tree that has only its root dereferences
    the NULL parent of the root. *)
Example radix_delete_root_faults :
  match ngx_radix_tree_create [4096] 0 with
  | inr (Some tr) => ngx_radix32tree_delete tr 0 0 = inl NullDeref
  | _ => False
  end.
Proof. by vm_compute. Qed.
