(* ===== verification/NgxMemory.v ===== *)
(** * Cells of memory

    What is known of a memory as a list of cells, each an address and what is
    there, with distinct addresses: the order of the list does not matter and a
    write changes one of its cells.  The linked structures of the core
    ([NgxQueue], [NgxRbtree]) are described by such lists. *)
From stdpp Require Import gmap.
From S2P Require Import Prelude.

Section Holds.
Context {V : Type}.
Implicit Types (m : gmap Z V) (cs : list (Z * V)).

Definition holds m cs : Prop := NoDup (map fst cs) /\ Forall (fun '(a, n) => m !! a = Some n) cs.

Lemma holds_perm m cs cs' : cs ≡ₚ cs' -> holds m cs -> holds m cs'.
Proof. intros E [H1 H2]. split; [|by rewrite <- E]. by rewrite <- E. Qed.

#[export] Instance holds_proper m : Proper ((≡ₚ) ==> iff) (holds m).
Proof. intros cs cs' E. split; by apply holds_perm. Qed.

Lemma holds_get m cs p n : holds m cs -> (p, n) ∈ cs -> m !! p = Some n.
Proof. intros [_ H] Hin. rewrite Forall_forall in H. by apply (H (p, n)). Qed.

Lemma holds_set m cs p n cs' n' :
  holds m cs -> cs ≡ₚ (p, n) :: cs' -> holds (<[p := n']> m) ((p, n') :: cs').
Proof.
  intros [H1 H2] E. rewrite E in H1, H2. cbn in H1. apply NoDup_cons in H1 as [Hp H1].
  apply Forall_cons in H2 as [_ H2]. split; [by apply NoDup_cons|].
  constructor; [by rewrite lookup_insert_eq|]. rewrite Forall_forall in H2 |- *.
  intros [a b] Hin. rewrite lookup_insert_ne; [by apply (H2 (a, b))|].
  intros ->. apply Hp. apply list_elem_of_fmap. by exists (a, b).
Qed.

Lemma holds_size m cs : holds m cs -> (length cs <= size m)%nat.
Proof.
  intros [Hnd Hall]. rewrite <- (length_map fst cs), <- size_dom.
  rewrite <- (size_list_to_set (C := gset Z) (map fst cs)) by done. apply subseteq_size.
  intros a Ha. apply elem_of_list_to_set, list_elem_of_fmap in Ha as ([b n] & -> & Hin).
  apply elem_of_dom. exists n. rewrite Forall_forall in Hall. by apply (Hall (b, n)).
Qed.
End Holds.
