(* ===== verification/NgxQueue.v ===== *)
(** * Queues

    src/nginx-1.4.7/src/core/ngx_queue.h and ngx_queue.c: intrusive doubly linked
    rings with a head that is not an element.  The memory is a finite map from
    addresses to links; an operation on an address that is not in it fails. *)
From stdpp Require Import gmap list_tactics sorting.
From S2P Require Import Prelude NgxMemory.

(** [core/ngx_queue.h:18-21] ngx_queue_s *)
Record ngx_queue_t : Type := { q_prev : Z; q_next : Z }.

Abbreviation qmem := (gmap Z ngx_queue_t) (only parsing).

Definition set_prev (p v : Z) (m : qmem) : option qmem :=
  n ← m !! p; Some (<[p := {| q_prev := v; q_next := q_next n |}]> m).
Definition set_next (p v : Z) (m : qmem) : option qmem :=
  n ← m !! p; Some (<[p := {| q_prev := q_prev n; q_next := v |}]> m).

(** [core/ngx_queue.h:62-63] ngx_queue_next *)
Definition ngx_queue_next (q : Z) (m : qmem) : option Z := q_next <$> m !! q.
(** [core/ngx_queue.h:66-67] ngx_queue_prev *)
Definition ngx_queue_prev (q : Z) (m : qmem) : option Z := q_prev <$> m !! q.
(** [core/ngx_queue.h:50-51] ngx_queue_head *)
Definition ngx_queue_head (h : Z) (m : qmem) : option Z := ngx_queue_next h m.
(** [core/ngx_queue.h:54-55] ngx_queue_last *)
Definition ngx_queue_last (h : Z) (m : qmem) : option Z := ngx_queue_prev h m.

(** [core/ngx_queue.h:24-26] ngx_queue_init *)
Definition ngx_queue_init (q : Z) (m : qmem) : option qmem := m ← set_prev q q m; set_next q q m.

(** [core/ngx_queue.h:29-30] ngx_queue_empty *)
Definition ngx_queue_empty (h : Z) (m : qmem) : option bool := p ← ngx_queue_prev h m; Some (h =? p).

(** [core/ngx_queue.h:33-37] ngx_queue_insert_head *)
Definition ngx_queue_insert_head (h x : Z) (m : qmem) : option qmem :=
  hn ← ngx_queue_next h m;
  m ← set_next x hn m;
  xn ← ngx_queue_next x m;
  m ← set_prev xn x m;
  m ← set_prev x h m;
  set_next h x m.

(** [core/ngx_queue.h:40-40] ngx_queue_insert_after *)
Definition ngx_queue_insert_after : Z -> Z -> qmem -> option qmem := ngx_queue_insert_head.

(** [core/ngx_queue.h:43-47] ngx_queue_insert_tail *)
Definition ngx_queue_insert_tail (h x : Z) (m : qmem) : option qmem :=
  hp ← ngx_queue_prev h m;
  m ← set_prev x hp m;
  xp ← ngx_queue_prev x m;
  m ← set_next xp x m;
  m ← set_next x h m;
  set_prev h x m.

(** Without NGX_DEBUG.
    [core/ngx_queue.h:80-82] ngx_queue_remove *)
Definition ngx_queue_remove (x : Z) (m : qmem) : option qmem :=
  xn ← ngx_queue_next x m;
  xp ← ngx_queue_prev x m;
  m ← set_prev xn xp m;
  xp ← ngx_queue_prev x m;
  xn ← ngx_queue_next x m;
  set_next xp xn m.

(** The elements from [q] on move to the new head [n].
    [core/ngx_queue.h:87-93] ngx_queue_split *)
Definition ngx_queue_split (h q n : Z) (m : qmem) : option qmem :=
  hp ← ngx_queue_prev h m;
  m ← set_prev n hp m;
  np ← ngx_queue_prev n m;
  m ← set_next np n m;
  m ← set_next n q m;
  qp ← ngx_queue_prev q m;
  m ← set_prev h qp m;
  hp ← ngx_queue_prev h m;
  m ← set_next hp h m;
  set_prev q n m.

(** The elements of [n] move to the end of [h].
    [core/ngx_queue.h:96-100] ngx_queue_add *)
Definition ngx_queue_add (h n : Z) (m : qmem) : option qmem :=
  hp ← ngx_queue_prev h m;
  nn ← ngx_queue_next n m;
  m ← set_next hp nn m;
  nn ← ngx_queue_next n m;
  hp ← ngx_queue_prev h m;
  m ← set_prev nn hp m;
  np ← ngx_queue_prev n m;
  m ← set_prev h np m;
  hp ← ngx_queue_prev h m;
  set_next hp h m.

(** [core/ngx_queue.c:30-44] for ( ;; ) *)
Fixpoint middle_loop (fuel : nat) (queue middle next : Z) (m : qmem) : option Z :=
  match fuel with
  | O => None
  | S fuel =>
      middle ← ngx_queue_next middle m;
      next ← ngx_queue_next next m;
      last ← ngx_queue_last queue m;
      if next =? last then Some middle
      else
        next ← ngx_queue_next next m;
        if next =? last then Some middle else middle_loop fuel queue middle next m
  end.

(** [core/ngx_queue.c:17-45] ngx_queue_middle *)
Definition ngx_queue_middle (queue : Z) (m : qmem) : option Z :=
  middle ← ngx_queue_head queue m;
  last ← ngx_queue_last queue m;
  if middle =? last then Some middle
  else
    next ← ngx_queue_head queue m;
    middle_loop (size m) queue middle next m.

(** The place after which [q] belongs.
    [core/ngx_queue.c:69-76] do *)
Fixpoint sort_place (fuel : nat) (cmp : Z -> Z -> Z) (queue q prev : Z) (m : qmem) : option Z :=
  match fuel with
  | O => None
  | S fuel =>
      if cmp prev q <=? 0 then Some prev
      else
        prev ← ngx_queue_prev prev m;
        if negb (prev =? queue) then sort_place fuel cmp queue q prev m else Some prev
  end.

(** [core/ngx_queue.c:62-79] for *)
Fixpoint sort_loop (fuel : nat) (cmp : Z -> Z -> Z) (queue q : Z) (m : qmem) : option qmem :=
  match fuel with
  | O => None
  | S fuel =>
      if negb (q =? queue) then
        prev ← ngx_queue_prev q m;
        next ← ngx_queue_next q m;
        m ← ngx_queue_remove q m;
        prev ← sort_place (size m) cmp queue q prev m;
        m ← ngx_queue_insert_after prev q m;
        sort_loop fuel cmp queue next m
      else Some m
  end.

(** [core/ngx_queue.c:50-80] ngx_queue_sort *)
Definition ngx_queue_sort (cmp : Z -> Z -> Z) (queue : Z) (m : qmem) : option qmem :=
  q ← ngx_queue_head queue m;
  last ← ngx_queue_last queue m;
  if q =? last then Some m
  else
    q ← ngx_queue_next q m;
    sort_loop (S (size m)) cmp queue q m.

(** The same on lists: [q] goes into a list in reverse, behind those that it must
    not precede.
    [core/ngx_queue.c:69-78] do *)
Fixpoint sort_insert {A} (cmp : A -> A -> Z) (q : A) (prevs : list A) : list A :=
  match prevs with
  | [] => [q]
  | prev :: rest => if cmp prev q <=? 0 then q :: prevs else prev :: sort_insert cmp q rest
  end.

(** [core/ngx_queue.c:50-80] ngx_queue_sort *)
Definition queue_sort {A} (cmp : A -> A -> Z) (l : list A) : list A :=
  rev (foldl (fun prevs q => sort_insert cmp q prevs) [] l).

(** ** Rings *)

(** The cells of a list between [p] and [n]. *)
Fixpoint seg (p : Z) (l : list Z) (n : Z) : list (Z * ngx_queue_t) :=
  match l with
  | [] => []
  | x :: l' => (x, {| q_prev := p; q_next := hd n l' |}) :: seg x l' n
  end.

(** The ring of [p] and the elements [l] after it. *)
Definition ring_cells (p : Z) (l : list Z) : list (Z * ngx_queue_t) :=
  (p, {| q_prev := List.last l p; q_next := hd p l |}) :: seg p l p.

Definition ring (p : Z) (l : list Z) (R : list (Z * ngx_queue_t)) (m : qmem) : Prop := holds m (ring_cells p l ++ R).

Lemma last_cons (y : Z) l p : List.last (y :: l) p = List.last l y.
Proof.
  revert y p; induction l as [|z l IH]; intros y p; [done|]. change (List.last (z :: l) p = List.last (z :: l) y).
  by rewrite !IH.
Qed.

Lemma last_snoc (l : list Z) x p : List.last (l ++ [x]) p = x.
Proof. apply List.last_last. Qed.

Lemma hd_snoc (l : list Z) x p : hd p (l ++ [x]) = hd x l.
Proof. by destruct l. Qed.

Lemma seg_app p l1 x l2 n : seg p (l1 ++ x :: l2) n = seg p l1 x ++ seg (List.last l1 p) (x :: l2) n.
Proof.
  revert p; induction l1 as [|y l1 IH]; intros p; [done|]. cbn [app seg]. rewrite IH, last_cons. by destruct l1.
Qed.

(** A ring seen from its next element. *)
Lemma ring_cells_turn p x l : ring_cells p (x :: l) ≡ₚ ring_cells x (l ++ [p]).
Proof.
  unfold ring_cells. rewrite last_snoc, last_cons, hd_snoc, seg_app. cbn [hd seg]. solve_Permutation.
Qed.

(** A ring seen from any of its elements. *)
Lemma ring_cells_from p l1 x l2 : ring_cells p (l1 ++ x :: l2) ≡ₚ ring_cells x (l2 ++ p :: l1).
Proof.
  revert p l2; induction l1 as [|y l1 IH]; intros p l2; cbn [app]; [apply ring_cells_turn|].
  rewrite ring_cells_turn, <- app_assoc. cbn [app]. rewrite IH. by rewrite <- app_assoc.
Qed.

Lemma ring_from p l1 x l2 R m : ring p (l1 ++ x :: l2) R m <-> ring x (l2 ++ p :: l1) R m.
Proof. unfold ring. by rewrite ring_cells_from. Qed.

(** ** One link at a time *)

Lemma set_prev_ok p v n cs cs' m :
  holds m cs -> cs ≡ₚ (p, n) :: cs' ->
  exists m', set_prev p v m = Some m' /\ holds m' ((p, {| q_prev := v; q_next := q_next n |}) :: cs').
Proof.
  intros H E. unfold set_prev. rewrite (holds_get m cs p n H) by (rewrite E; left). cbn.
  eexists; split; [done|]. by eapply holds_set.
Qed.

Lemma set_next_ok p v n cs cs' m :
  holds m cs -> cs ≡ₚ (p, n) :: cs' ->
  exists m', set_next p v m = Some m' /\ holds m' ((p, {| q_prev := q_prev n; q_next := v |}) :: cs').
Proof.
  intros H E. unfold set_next. rewrite (holds_get m cs p n H) by (rewrite E; left). cbn.
  eexists; split; [done|]. by eapply holds_set.
Qed.

Lemma queue_next_ok p n cs cs' m : holds m cs -> cs ≡ₚ (p, n) :: cs' -> ngx_queue_next p m = Some (q_next n).
Proof. intros H E. unfold ngx_queue_next. by rewrite (holds_get m cs p n H) by (rewrite E; left). Qed.

Lemma queue_prev_ok p n cs cs' m : holds m cs -> cs ≡ₚ (p, n) :: cs' -> ngx_queue_prev p m = Some (q_prev n).
Proof. intros H E. unfold ngx_queue_prev. by rewrite (holds_get m cs p n H) by (rewrite E; left). Qed.

(** The cell of an address in a list, and the rest of the list. *)
Ltac q_cell p cs :=
  lazymatch cs with
  | (p, ?n) :: ?l => constr:((n, l))
  | ?c :: ?l => lazymatch q_cell p l with (?n, ?l') => constr:((n, c :: l')) end
  | ?s ++ ?l => lazymatch q_cell p l with (?n, ?l') => constr:((n, s ++ l')) end
  end.

(** One read or write of the program; [H] is what the memory holds. *)
Ltac q_step H :=
  lazymatch goal with
  | |- context [set_prev ?p ?v ?m] =>
      lazymatch type of H with holds m ?cs => lazymatch q_cell p cs with (?n, ?cs') =>
        let m' := fresh "m" in let E := fresh in
        destruct (set_prev_ok p v n cs cs' m H ltac:(solve_Permutation)) as (m' & E & H'); rewrite E; clear E H;
        rename H' into H; cbn [q_prev q_next] in H; cbn [mbind option_bind] end end
  | |- context [set_next ?p ?v ?m] =>
      lazymatch type of H with holds m ?cs => lazymatch q_cell p cs with (?n, ?cs') =>
        let m' := fresh "m" in let E := fresh in
        destruct (set_next_ok p v n cs cs' m H ltac:(solve_Permutation)) as (m' & E & H'); rewrite E; clear E H;
        rename H' into H; cbn [q_prev q_next] in H; cbn [mbind option_bind] end end
  | |- context [ngx_queue_next ?p ?m] =>
      lazymatch type of H with holds m ?cs => lazymatch q_cell p cs with (?n, ?cs') =>
        rewrite (queue_next_ok p n cs cs' m H ltac:(solve_Permutation)); cbn [q_prev q_next mbind option_bind] end end
  | |- context [ngx_queue_prev ?p ?m] =>
      lazymatch type of H with holds m ?cs => lazymatch q_cell p cs with (?n, ?cs') =>
        rewrite (queue_prev_ok p n cs cs' m H ltac:(solve_Permutation)); cbn [q_prev q_next mbind option_bind] end end
  end.

Ltac q_done H := eexists; split; [done|]; (eapply holds_perm; [|exact H]); solve_Permutation.

Lemma insert_after_ok p x n l R m :
  ring p l ((x, n) :: R) m ->
  exists m', ngx_queue_insert_after p x m = Some m' /\ ring p (x :: l) R m'.
Proof.
  unfold ring, ring_cells, ngx_queue_insert_after, ngx_queue_insert_head. intros H. rewrite last_cons.
  destruct l as [|y l]; cbn [seg app hd] in *; [cbn [List.last] in *; do 6 q_step H; q_done H|].
  rewrite last_cons in H |- *. apply (holds_perm _ _ ((p, {| q_prev := List.last l y; q_next := y |}) ::
    (y, {| q_prev := p; q_next := hd p l |}) :: (x, n) :: seg y l p ++ R)) in H; [|solve_Permutation].
  do 6 q_step H. q_done H.
Qed.

Lemma insert_tail_ok p x n l R m :
  ring p l ((x, n) :: R) m ->
  exists m', ngx_queue_insert_tail p x m = Some m' /\ ring p (l ++ [x]) R m'.
Proof.
  unfold ring, ring_cells, ngx_queue_insert_tail. intros H. rewrite last_snoc, seg_app, hd_snoc. cbn [seg hd].
  destruct l as [|y l _] using rev_ind; [cbn [seg app hd List.last] in *; do 6 q_step H; q_done H|].
  rewrite last_snoc in H |- *. rewrite !seg_app, hd_snoc in H |- *. cbn [seg hd app] in H |- *.
  set (z := List.last l p) in *.
  apply (holds_perm _ _ ((p, {| q_prev := y; q_next := hd y l |}) ::
    (y, {| q_prev := z; q_next := p |}) :: (x, n) :: seg p l y ++ R)) in H; [|solve_Permutation].
  do 6 q_step H. q_done H.
Qed.

(** Taking the first element out: what [x] was stays in its cell. *)
Lemma remove_first_ok x y l R m :
  ring x (y :: l) R m ->
  exists m' n, ngx_queue_remove x m = Some m' /\ ring y l ((x, n) :: R) m'.
Proof.
  unfold ring, ngx_queue_remove. intros H.
  destruct l as [|z l _] using rev_ind; unfold ring_cells in *; cbn [seg app hd] in *.
  - cbn [List.last] in *. do 6 q_step H. eexists _, _. split; [done|]. (eapply holds_perm; [|exact H]); solve_Permutation.
  - rewrite last_cons in H. rewrite last_snoc, hd_snoc, seg_app in H |- *. cbn [seg hd] in H |- *.
    set (w := List.last l y) in *.
    apply (holds_perm _ _ ((x, {| q_prev := z; q_next := y |}) :: (y, {| q_prev := x; q_next := hd z l |}) ::
      (z, {| q_prev := w; q_next := x |}) :: seg y l z ++ R)) in H; [|solve_Permutation].
    do 6 q_step H. eexists _, _. split; [done|]. (eapply holds_perm; [|exact H]); solve_Permutation.
Qed.

Lemma remove_ok h l1 x l2 R m :
  ring h (l1 ++ x :: l2) R m ->
  exists m' n, ngx_queue_remove x m = Some m' /\ ring h (l1 ++ l2) ((x, n) :: R) m'.
Proof.
  intros H. rewrite ring_from in H. destruct l2 as [|y l2]; cbn [app] in H.
  - rewrite app_nil_r. by apply remove_first_ok.
  - apply remove_first_ok in H as (m' & n & E & H). exists m', n. split; [done|]. by rewrite ring_from.
Qed.

(** ** Splitting and joining *)

Lemma last_app_cons (l1 : list Z) x l2 p : List.last (l1 ++ x :: l2) p = List.last l2 x.
Proof.
  revert p; induction l1 as [|y l1 IH]; intros p; cbn [app]; rewrite last_cons; [done|apply IH].
Qed.

Lemma last_nil (p : Z) : List.last [] p = p.
Proof. done. Qed.

Lemma hd_app_cons (l1 : list Z) x l2 p : hd p (l1 ++ x :: l2) = hd x l1.
Proof. by destruct l1. Qed.

Ltac ring_norm H :=
  repeat first
    [ progress (cbn [seg app hd] in H |- *)
    | rewrite <- app_assoc in H | rewrite last_app_cons in H | rewrite last_cons in H | rewrite last_nil in H
    | rewrite hd_app_cons in H | rewrite seg_app in H
    | rewrite <- app_assoc | rewrite last_app_cons | rewrite last_cons | rewrite last_nil
    | rewrite hd_app_cons | rewrite seg_app ].

(** Splitting a queue before [q]. *)
Lemma split_ok h l1 q l2 n c R m :
  ring h (l1 ++ q :: l2) ((n, c) :: R) m ->
  exists m', ngx_queue_split h q n m = Some m' /\ holds m' (ring_cells h l1 ++ ring_cells n (q :: l2) ++ R).
Proof.
  unfold ring, ring_cells, ngx_queue_split. intros H.
  destruct l1 as [|a l1 _] using rev_ind; destruct l2 as [|b l2 _] using rev_ind; ring_norm H; do 10 q_step H; q_done H.
Qed.

(** Joining two queues. *)
Lemma add_ok h l1 n l2 R m :
  holds m (ring_cells h l1 ++ ring_cells n l2 ++ R) ->
  exists m' c, ngx_queue_add h n m = Some m' /\ ring h (l1 ++ l2) ((n, c) :: R) m'.
Proof.
  unfold ring, ring_cells, ngx_queue_add. intros H.
  destruct l1 as [|a l1 _] using rev_ind; (destruct l2 as [|b l2]; [|destruct l2 as [|d l2 _] using rev_ind]); ring_norm H;
    do 10 q_step H; (eexists _, _; split; [done|]); (eapply holds_perm; [|exact H]); ring_norm H; solve_Permutation.
Qed.

(** ** Reading *)

Lemma seg_fst p l n : map fst (seg p l n) = l.
Proof. revert p; induction l as [|x l IH]; intros p; cbn; [done|]. by rewrite IH. Qed.

Lemma ring_nodup h l R m : ring h l R m -> NoDup (h :: l ++ map fst R).
Proof. intros [H _]. unfold ring_cells in H. by rewrite map_app in H; cbn [map fst] in H; rewrite seg_fst in H. Qed.

Lemma ring_size h l R m : ring h l R m -> (S (length l + length R) <= size m)%nat.
Proof.
  intros H%holds_size. unfold ring_cells in H. cbn [app length] in H. rewrite length_app in H.
  rewrite <- (length_map fst (seg h l h)), seg_fst in H. lia.
Qed.

Lemma ring_head h l R m : ring h l R m -> ngx_queue_head h m = Some (hd h l) /\ ngx_queue_last h m = Some (List.last l h).
Proof.
  intros H. unfold ngx_queue_head, ngx_queue_last.
  by rewrite (queue_next_ok h _ _ _ m H (reflexivity _)), (queue_prev_ok h _ _ _ m H (reflexivity _)).
Qed.

Lemma ring_links h l1 x l2 R m :
  ring h (l1 ++ x :: l2) R m -> ngx_queue_next x m = Some (hd h l2) /\ ngx_queue_prev x m = Some (List.last l1 h).
Proof.
  rewrite ring_from. intros [Hn Hp]%ring_head. unfold ngx_queue_head, ngx_queue_last in *. rewrite Hn, Hp. split; f_equal.
  - by destruct l2.
  - clear. induction l2 as [|y l2 IH]; cbn [app]; [by rewrite last_cons|]. rewrite last_cons.
    revert IH. destruct (l2 ++ h :: l1) as [|z t] eqn:E; [by destruct l2|]. by rewrite !last_cons.
Qed.

(** ** The abstract queue *)

Inductive queue_op : Type :=
| InsertHead (x : Z)
| InsertTail (x : Z)
| Remove (x : Z).

Definition queue_do (h : Z) (op : queue_op) (m : qmem) : option qmem :=
  match op with
  | InsertHead x => ngx_queue_insert_head h x m
  | InsertTail x => ngx_queue_insert_tail h x m
  | Remove x => ngx_queue_remove x m
  end.

Definition queue_abs (op : queue_op) (l : list Z) : list Z :=
  match op with
  | InsertHead x => x :: l
  | InsertTail x => l ++ [x]
  | Remove x => filter (fun y => y <> x) l
  end.

(** Only elements that are out of the queue are inserted, and only elements in
    it removed. *)
Definition queue_can (E : gset Z) (op : queue_op) (l : list Z) : Prop :=
  match op with InsertHead x | InsertTail x => x ∈ E /\ x ∉ l | Remove x => x ∈ l end.

Fixpoint queue_can_all (E : gset Z) (ops : list queue_op) (l : list Z) : Prop :=
  match ops with [] => True | op :: ops => queue_can E op l /\ queue_can_all E ops (queue_abs op l) end.

(** The queue at [h] has the elements [l], out of the elements [E]. *)
Definition queue_is (h : Z) (E : gset Z) (l : list Z) (m : qmem) : Prop :=
  exists R, ring h l R m /\ forall x, x ∈ E <-> x ∈ l \/ x ∈ map fst R.

Lemma ring_take h l R m x : ring h l R m -> x ∈ map fst R -> exists n R', R ≡ₚ (x, n) :: R' /\ ring h l ((x, n) :: R') m.
Proof.
  intros H ([x' n] & Ex & Hin)%list_elem_of_fmap. cbn in Ex. subst x'. apply elem_of_Permutation in Hin as [R' HR].
  exists n, R'. split; [done|]. unfold ring in *. by rewrite HR in H.
Qed.

Lemma filter_keep (P : Z -> Prop) `{!forall x, Decision (P x)} (l : list Z) : Forall P l -> filter P l = l.
Proof. induction 1 as [|x l Hx _ IH]; [done|]. by rewrite filter_cons_True, IH. Qed.

Lemma remove_filter (l1 l2 : list Z) x : NoDup (l1 ++ x :: l2) -> filter (fun y => y <> x) (l1 ++ x :: l2) = l1 ++ l2.
Proof.
  intros (H1 & Hd & [Hx H2]%NoDup_cons)%NoDup_app. rewrite filter_app, filter_cons_False by tauto. f_equal.
  - apply filter_keep, Forall_forall. intros y Hy ->. apply (Hd x Hy). left.
  - apply filter_keep, Forall_forall. intros y Hy ->. done.
Qed.

Lemma queue_step h E op l m :
  queue_is h E l m -> queue_can E op l -> exists m', queue_do h op m = Some m' /\ queue_is h E (queue_abs op l) m'.
Proof.
  intros (R & H & HE) Hcan.
  destruct op as [x|x|x]; cbn [queue_can queue_do queue_abs] in *.
  1, 2: destruct Hcan as [Hx Hn]; apply HE in Hx as [Hx|Hx]; [done|];
    destruct (ring_take h l R m x H Hx) as (n & R' & HR & H').
  - destruct (insert_after_ok h x n l R' m H') as (m' & Em & Hm). exists m'. split; [done|]. exists R'. split; [done|].
    intros y. rewrite HE, HR, elem_of_cons. cbn [map fst]. rewrite elem_of_cons. tauto.
  - destruct (insert_tail_ok h x n l R' m H') as (m' & Em & Hm). exists m'. split; [done|]. exists R'. split; [done|].
    intros y. rewrite HE, HR, elem_of_app, list_elem_of_singleton. cbn [map fst]. rewrite elem_of_cons. tauto.
  - apply list_elem_of_split in Hcan as (l1 & l2 & ->). destruct (remove_ok h l1 x l2 R m H) as (m' & n & Em & Hm).
    exists m'. split; [done|]. exists ((x, n) :: R). apply ring_nodup, NoDup_cons in H as [_ [H _]%NoDup_app].
    rewrite remove_filter by done. split; [done|]. intros y. rewrite HE, !elem_of_app, elem_of_cons. cbn [map fst].
    rewrite elem_of_cons. tauto.
Qed.

Lemma queue_ends h E l m :
  queue_is h E l m -> ngx_queue_head h m = Some (hd h l) /\ ngx_queue_last h m = Some (List.last l h) /\
    ngx_queue_empty h m = Some (bool_decide (l = [])).
Proof.
  intros (R & H & _). destruct (ring_head h l R m H) as [H1 H2]. split_and!; [done..|]. unfold ngx_queue_empty.
  unfold ngx_queue_last in H2. rewrite H2. cbn. f_equal.
  apply ring_nodup, NoDup_cons in H as [Hh _]. destruct l as [|x l _] using rev_ind; [by rewrite Z.eqb_refl|].
  rewrite last_snoc, bool_decide_eq_false_2 by (by destruct l). apply Z.eqb_neq. intros ->. apply Hh.
  rewrite !elem_of_app. left. right. left.
Qed.

Fixpoint queue_do_all (h : Z) (ops : list queue_op) (m : qmem) : option qmem :=
  match ops with [] => Some m | op :: ops => m ← queue_do h op m; queue_do_all h ops m end.

(** C33: A ring of links implements a list: any sequence of insertions at the
    head or tail of elements that are out of the queue and of removals of
    elements in it runs without a fault and has the effect of these operations
    on the list; the head and the last element are those of the list, and the
    test for emptiness is right. *)
Theorem queue_refines h E ops l m :
  queue_is h E l m -> queue_can_all E ops l ->
  let l' := foldl (fun l op => queue_abs op l) l ops in
  exists m', queue_do_all h ops m = Some m' /\ queue_is h E l' m' /\
    ngx_queue_head h m' = Some (hd h l') /\ ngx_queue_last h m' = Some (List.last l' h) /\
    ngx_queue_empty h m' = Some (bool_decide (l' = [])).
Proof.
  revert l m; induction ops as [|op ops IH]; intros l m H Hcan; cbn [foldl queue_do_all].
  - exists m. split; [done|]. split; [done|]. by apply (queue_ends h E).
  - destruct Hcan as [Hc Hcan]. destruct (queue_step h E op l m H Hc) as (m1 & -> & H1). cbn. by apply IH.
Qed.

(** ** Sorting *)

Section Sort.
Context (cmp : Z -> Z -> Z) (h : Z).

(** The element [q] belongs between [S1] and [S2]. *)
Definition belongs (q : Z) (S1 S2 : list Z) : Prop :=
  (S1 <> [] -> cmp (List.last S1 h) q <= 0) /\ Forall (fun p => 0 < cmp p q) S2.

Lemma belongs_insert q S1 S2 : belongs q S1 S2 -> sort_insert cmp q (rev (S1 ++ S2)) = rev (S1 ++ q :: S2).
Proof.
  intros [H1 H2]. rewrite !rev_app_distr. cbn [rev]. rewrite <- app_assoc. cbn [app].
  induction S2 as [|p S2 IH] using rev_ind; cbn [app rev].
  - destruct S1 as [|y S1 _] using rev_ind; [done|]. rewrite last_snoc in H1. rewrite rev_app_distr. cbn [rev app sort_insert].
    rewrite (proj2 (Z.leb_le _ 0)); [done|]. apply H1. by destruct S1.
  - apply Forall_app in H2 as [H2 [Hp _]%Forall_cons]. rewrite rev_app_distr. cbn [rev app sort_insert].
    rewrite (proj2 (Z.leb_gt _ 0)) by done. f_equal. by apply IH.
Qed.

Lemma sort_place_ok fuel q S0 p X R m :
  ring h (S0 ++ p :: X) R m -> (length S0 < fuel)%nat ->
  exists S1 S2, S0 ++ [p] = S1 ++ S2 /\ sort_place fuel cmp h q p m = Some (List.last S1 h) /\ belongs q S1 S2.
Proof.
  revert S0 p X; induction fuel as [|fuel IH]; intros S0 p X H Hf; [lia|]. cbn [sort_place].
  destruct (cmp p q <=? 0) eqn:Ec.
  { exists (S0 ++ [p]), []. rewrite app_nil_r, last_snoc. split_and!; [done|done|]. split; [|constructor].
    intros _. rewrite last_snoc. zify_bool. lia. }
  assert (Hp : 0 < cmp p q) by (zify_bool; lia). destruct (ring_links h S0 p X R m H) as [_ ->]. cbn [mbind option_bind].
  destruct S0 as [|y S0 _] using rev_ind; cbn [List.last].
  { rewrite Z.eqb_refl. exists [], [p]. split_and!; [done|done|]. split; [done|by constructor]. }
  rewrite last_snoc. assert (Hy : y <> h).
  { apply ring_nodup, NoDup_cons in H as [Hh _]. intros ->. apply Hh. rewrite !elem_of_app. left. left. right. left. }
  rewrite (proj2 (Z.eqb_neq _ _) Hy). cbn [negb]. rewrite <- app_assoc in H. cbn [app] in H.
  destruct (IH S0 y (p :: X) H) as (S1 & S2 & ES & -> & Hb).
  { rewrite length_app in Hf. cbn in Hf. lia. }
  exists S1, (S2 ++ [p]). rewrite ES, <- app_assoc. split_and!; [done|done|]. destruct Hb as [H1 H2]. split; [done|].
  apply Forall_app. split; [done|by constructor].
Qed.

(** ** The order of the result *)

Definition le_elt (x y : Z) : Prop := cmp x y <= 0.
Definition eqv (x y : Z) : Prop := cmp x y <= 0 /\ cmp y x <= 0.

#[export] Instance eqv_dec x y : Decision (eqv x y).
Proof. unfold eqv. apply _. Defined.

(** [S'] is a stable sorting of [l]. *)
Record sorted_from (l S' : list Z) : Prop := {
  sf_list : S' = queue_sort cmp l;
  sf_perm : S' ≡ₚ l;
  sf_sorted : StronglySorted le_elt S';
  sf_stable : forall x, filter (eqv x) S' = filter (eqv x) l
}.

(** [cmp] is a total preorder. *)
Hypothesis cmp_total : forall x y, cmp x y <= 0 \/ cmp y x <= 0.
Hypothesis cmp_trans : forall x y z, cmp x y <= 0 -> cmp y z <= 0 -> cmp x z <= 0.

Lemma belongs_sorted l S1 S2 q :
  sorted_from l (S1 ++ S2) -> belongs q S1 S2 -> sorted_from (l ++ [q]) (S1 ++ q :: S2).
Proof.
  intros [Hl Hp Hs Hst] [Hb1 Hb2]. apply StronglySorted_app in Hs as (H12 & H1 & H2).
  assert (Hq1 : Forall (fun x => le_elt x q) S1).
  { destruct S1 as [|y S1 _] using rev_ind; [constructor|]. rewrite last_snoc in Hb1.
    assert (Hy : le_elt y q) by (apply Hb1; by destruct S1). apply Forall_app. split; [|by constructor].
    apply StronglySorted_app in H1 as (H1 & _ & _). apply Forall_forall. intros x Hx.
    apply (cmp_trans x y q); [|exact Hy]. apply H1; [done|left]. }
  assert (Hq2 : Forall (le_elt q) S2).
  { apply Forall_forall. intros x Hx. rewrite Forall_forall in Hb2. specialize (Hb2 x Hx).
    unfold le_elt. destruct (cmp_total q x); lia. }
  constructor.
  - unfold queue_sort in *. rewrite foldl_app. cbn [foldl]. rewrite <- (rev_involutive (foldl _ [] l)), <- Hl.
    rewrite belongs_insert by (by split). by rewrite rev_involutive.
  - rewrite <- Hp. solve_Permutation.
  - apply StronglySorted_app. split_and!; [|done|by constructor].
    intros x y Hx [->|Hy]%elem_of_cons; [by rewrite Forall_forall in Hq1; apply Hq1|by apply H12].
  - intros x. rewrite (filter_app _ l [q]). transitivity (filter (eqv x) (S1 ++ S2) ++ filter (eqv x) [q]);
      [|f_equal; apply Hst]. rewrite !filter_app, <- app_assoc. f_equal.
    destruct (decide (eqv x q)) as [[Hxq Hqx]|Hn].
    + rewrite filter_cons_True by done. rewrite (filter_cons_True (eqv x) q []) by done.
      rewrite filter_nil. assert (Hnil : filter (eqv x) S2 = []).
      { apply elem_of_nil_inv. intros y [[Hxy Hyx] Hy]%list_elem_of_filter. rewrite Forall_forall in Hb2.
        specialize (Hb2 y Hy). pose proof (cmp_trans y x q Hyx Hxq). lia. }
      by rewrite Hnil.
    + rewrite filter_cons_False by done. rewrite (filter_cons_False (eqv x) q []) by done. by rewrite filter_nil, app_nil_r.
Qed.

Lemma sort_loop_ok fuel done S' rest R m :
  ring h (S' ++ rest) R m -> S' <> [] -> sorted_from done S' -> (length rest < fuel)%nat ->
  exists m' S'', sort_loop fuel cmp h (hd h rest) m = Some m' /\ ring h S'' R m' /\ sorted_from (done ++ rest) S''.
Proof.
  revert done S' rest m; induction fuel as [|fuel IH]; intros done S' rest m H HS Hsort Hf; [lia|].
  destruct rest as [|q rest]; cbn [sort_loop hd].
  { rewrite Z.eqb_refl. cbn [negb]. rewrite app_nil_r in *. by exists m, S'. }
  assert (Hq : q <> h).
  { apply ring_nodup, NoDup_cons in H as [Hh _]. intros ->. apply Hh. rewrite !elem_of_app. left. right. left. }
  rewrite (proj2 (Z.eqb_neq _ _) Hq). cbn [negb]. destruct (ring_links h S' q rest R m H) as [-> ->]. cbn [mbind option_bind].
  destruct (remove_ok h S' q rest R m H) as (m1 & n & -> & H1). cbn [mbind option_bind].
  destruct S' as [|p S0 _] using rev_ind; [done|]. rewrite last_snoc. rewrite <- app_assoc in H1. cbn [app] in H1.
  destruct (sort_place_ok (size m1) q S0 p rest ((q, n) :: R) m1 H1) as (S1 & S2 & ES & -> & Hb).
  { apply ring_size in H1. rewrite length_app in H1. cbn in H1. lia. }
  cbn [mbind option_bind].
  assert (Hring : S0 ++ p :: rest = S1 ++ S2 ++ rest) by (rewrite app_assoc, <- ES, <- app_assoc; done).
  rewrite Hring in H1.
  assert (Hins : exists m2, ngx_queue_insert_after (List.last S1 h) q m1 = Some m2 /\ ring h ((S1 ++ q :: S2) ++ rest) R m2).
  { destruct S1 as [|z S1 _] using rev_ind; cbn [app List.last] in *.
    - by apply (insert_after_ok h q n (S2 ++ rest) R m1).
    - rewrite last_snoc. rewrite <- app_assoc in H1. cbn [app] in H1. apply ring_from in H1.
      apply insert_after_ok in H1 as (m2 & -> & H2). exists m2. split; [done|].
      change (q :: (S2 ++ rest) ++ h :: S1) with ((q :: S2 ++ rest) ++ h :: S1) in H2. apply ring_from in H2.
      rewrite <- !app_assoc. cbn [app]. done. }
  destruct Hins as (m2 & -> & H2). cbn [mbind option_bind].
  rewrite ES in Hsort. apply (belongs_sorted done S1 S2 q) in Hsort; [|done].
  destruct (IH (done ++ [q]) (S1 ++ q :: S2) rest m2 H2) as (m' & S'' & -> & H3 & Hs3); [by destruct S1|done|cbn in Hf; lia|].
  exists m', S''. rewrite <- app_assoc in Hs3. done.
Qed.
End Sort.

(** C35: [ngx_queue_sort] ends without a fault and leaves in the queue the same
    elements as the sorting by insertion of lists, in the order of [cmp], and those that [cmp] does not tell apart in
    the order in which they were: the sorting is stable, as its comment says. *)
Theorem queue_sort_stable cmp h l R m :
  (forall x y, cmp x y <= 0 \/ cmp y x <= 0) -> (forall x y z, cmp x y <= 0 -> cmp y z <= 0 -> cmp x z <= 0) ->
  ring h l R m ->
  exists m' l', ngx_queue_sort cmp h m = Some m' /\ ring h l' R m' /\ l' = queue_sort cmp l /\
    l' ≡ₚ l /\ StronglySorted (fun x y => cmp x y <= 0) l' /\ forall x, filter (eqv cmp x) l' = filter (eqv cmp x) l.
Proof.
  intros Htot Htrans H. unfold ngx_queue_sort. destruct (ring_head h l R m H) as [-> ->]. cbn [mbind option_bind].
  destruct l as [|x l]; cbn [hd].
  { cbn [List.last]. rewrite Z.eqb_refl. exists m, []. split_and!; try done. constructor. }
  rewrite last_cons. destruct (x =? List.last l x) eqn:El.
  { assert (l = []) as ->.
    { destruct l as [|z l _] using rev_ind; [done|]. rewrite last_snoc in El. apply Z.eqb_eq in El. subst z.
      apply ring_nodup, NoDup_cons in H as [_ H]. cbn in H. apply NoDup_cons in H as [Hn _]. exfalso. apply Hn.
      rewrite !elem_of_app. left. right. left. }
    exists m, [x]. split_and!; try done. repeat constructor. }
  destruct (ring_links h [] x l R m H) as [-> _]. cbn [mbind option_bind].
  destruct (sort_loop_ok cmp h Htot Htrans (S (size m)) [x] [x] l R m H) as (m' & l' & -> & H' & [Hl Hp Hs Hst]).
  - done.
  - constructor; [done|done|repeat constructor|done].
  - apply ring_size in H. cbn in H. lia.
  - by exists m', l'.
Qed.

(** ** The middle *)

Lemma ring_next_nth h l R m j x y :
  ring h l R m -> l !! j = Some x -> l !! S j = Some y -> ngx_queue_next x m = Some y.
Proof.
  intros H Hx Hy. rewrite <- (take_drop_middle l j x Hx) in H. destruct (ring_links _ _ _ _ _ _ H) as [-> _].
  f_equal. rewrite <- (take_drop_middle l (S j) y Hy). rewrite drop_app_ge by (rewrite length_take; lia).
  apply lookup_lt_Some in Hy. rewrite length_take. by replace (S j - S j `min` length l)%nat with 0%nat by lia.
Qed.

Lemma last_nth (l : list Z) p x j : NoDup l -> l !! j = Some x -> (x =? List.last l p) = bool_decide (S j = length l).
Proof.
  intros Hnd Hx. destruct l as [|z l _] using rev_ind; [done|]. rewrite last_snoc, length_app. cbn [length].
  assert (Hz : (l ++ [z]) !! length l = Some z) by (by rewrite list_lookup_middle).
  case_bool_decide as Hj.
  - replace j with (length l) in Hx by lia. rewrite Hz in Hx. injection Hx as ->. apply Z.eqb_refl.
  - apply Z.eqb_neq. intros ->. apply Hj. pose proof (NoDup_lookup _ _ _ _ Hnd Hx Hz). lia.
Qed.

Lemma middle_loop_ok h l R m fuel i mid next :
  ring h l R m -> l !! i = Some mid -> l !! (2 * i)%nat = Some next -> (2 * i + 1 < length l)%nat -> (length l < fuel + i)%nat ->
  middle_loop fuel h mid next m = l !! (length l / 2)%nat.
Proof.
  intros H. assert (Hnd : NoDup l) by (by apply ring_nodup, NoDup_cons in H as [_ [H _]%NoDup_app]).
  destruct (ring_head h l R m H) as [_ Hlast].
  assert (Hget : forall j, (j < length l)%nat -> exists x, l !! j = Some x) by (intros j Hj; by apply lookup_lt_is_Some_2).
  revert i mid next; induction fuel as [|fuel IH]; intros i mid next Hm Hn Hi Hf; [lia|]. cbn [middle_loop].
  destruct (Hget (S i)) as [mid' Hm']; [lia|]. destruct (Hget (S (2 * i))) as [next' Hn']; [lia|].
  rewrite (ring_next_nth h l R m i mid mid' H Hm Hm'), (ring_next_nth h l R m _ next next' H Hn Hn'), Hlast.
  cbn [mbind option_bind]. rewrite (last_nth l h next' _ Hnd Hn'). case_bool_decide as He.
  { rewrite <- Hm'. f_equal. rewrite <- He. apply (Nat.div_unique _ 2 _ 0); lia. }
  destruct (Hget (S (S (2 * i)))) as [next2 Hn2]; [lia|]. rewrite (ring_next_nth h l R m _ next' next2 H Hn' Hn2).
  cbn [mbind option_bind]. rewrite (last_nth l h next2 _ Hnd Hn2). case_bool_decide as He2.
  { rewrite <- Hm'. f_equal. rewrite <- He2. apply (Nat.div_unique _ 2 _ 1); lia. }
  apply (IH (S i) mid' next2); [done| |lia|lia]. by replace (2 * S i)%nat with (S (S (2 * i))) by lia.
Qed.

(** The middle element, or the first of the second half. *)
Lemma queue_middle_ok h l R m : ring h l R m -> l <> [] -> ngx_queue_middle h m = l !! (length l / 2)%nat.
Proof.
  intros H Hne. unfold ngx_queue_middle. destruct (ring_head h l R m H) as [Hh Hl]. rewrite Hh, Hl. cbn [mbind option_bind].
  assert (Hnd : NoDup l) by (by apply ring_nodup, NoDup_cons in H as [_ [H' _]%NoDup_app]).
  destruct l as [|x l]; [done|]. cbn [hd]. rewrite (last_nth (x :: l) h x 0 Hnd eq_refl). case_bool_decide as He.
  { destruct l; [done|]. cbn in He. lia. }
  apply (middle_loop_ok h (x :: l) R m (size m) 0 x x H); [done|done|cbn [length] in *; lia|].
  apply ring_size in H. cbn [length] in *. lia.
Qed.

(** A ring of four elements around the head at address 9. *)
Definition queue_sample : qmem :=
  list_to_map (ring_cells 9 [30; 10; 20; 11] ++ [(40, {| q_prev := 0; q_next := 0 |})]).

Lemma queue_sample_ring : ring 9 [30; 10; 20; 11] [(40, {| q_prev := 0; q_next := 0 |})] queue_sample.
Proof.
  split; [|repeat constructor]. cbn. apply NoDup_ListNoDup. repeat constructor; cbn; lia.
Qed.

Lemma queue_refines_witness :
  exists m', queue_do_all 9 [Remove 10; InsertHead 40; InsertTail 10; Remove 30] queue_sample = Some m' /\
    queue_is 9 {[30; 10; 20; 11; 40]} [40; 20; 11; 10] m' /\
    ngx_queue_head 9 m' = Some 40 /\ ngx_queue_last 9 m' = Some 10 /\ ngx_queue_empty 9 m' = Some false.
Proof.
  apply (queue_refines 9 {[30; 10; 20; 11; 40]} [Remove 10; InsertHead 40; InsertTail 10; Remove 30] [30; 10; 20; 11]).
  - exists [(40, {| q_prev := 0; q_next := 0 |})]. split; [exact queue_sample_ring|]. intros x. cbn [map fst].
    rewrite !elem_of_union, !elem_of_singleton, !elem_of_cons, elem_of_nil. tauto.
  - cbn [queue_can_all queue_can]. split_and!; try done; apply (bool_decide_unpack _); by vm_compute.
Defined.

(** Elements compared by their tens. *)
Lemma queue_sort_stable_witness :
  exists m' l', ngx_queue_sort (fun x y => x / 10 - y / 10) 9 queue_sample = Some m' /\
    ring 9 l' [(40, {| q_prev := 0; q_next := 0 |})] m' /\ l' = queue_sort (fun x y => x / 10 - y / 10) [30; 10; 20; 11] /\
    l' ≡ₚ [30; 10; 20; 11] /\
    StronglySorted (fun x y => x / 10 - y / 10 <= 0) l' /\
    forall x, filter (eqv (fun x y => x / 10 - y / 10) x) l' = filter (eqv (fun x y => x / 10 - y / 10) x) [30; 10; 20; 11].
Proof.
  apply (queue_sort_stable (fun x y => x / 10 - y / 10) 9 [30; 10; 20; 11]); [intros; lia|intros; lia|exact queue_sample_ring].
Defined.
