(* ===== verification/NgxRbtree.v ===== *)
(** * Red-black trees

    src/nginx-1.4.7/src/core/ngx_rbtree.c and ngx_rbtree.h: the intrusive
    red-black trees that hold the timers of the event loop, the nodes of the
    limits, of the file cache and of the resolver.

    The memory is a finite map from addresses to nodes, 0 is NULL, and the code
    is written in a monad of computations that change the memory and the root
    and that fail on an invalid pointer.  The C code writes every case twice,
    once for each side; here a side is a boolean ([true] is right) and the two
    copies are one definition.  Loops run on fuel, the number of nodes in
    memory or more; failing for want of fuel is a failure as well, and the
    theorems show that there is none.

    [tree->insert] is an argument: the insertion functions of the server differ
    only in how they compare two nodes, that is their addresses, at which there
    may be more data, and their keys; they share the walk down. *)
From stdpp Require Import gmap list_tactics.
From S2P Require Import Prelude.

(** ** Memory *)

(** [core/ngx_rbtree.h:22-29] ngx_rbtree_node_s *)
Record rb_node : Type := { rb_key : Z; rb_left : Z; rb_right : Z; rb_parent : Z; rb_red : bool }.

(** [core/ngx_rbtree.h:37-41] ngx_rbtree_s *)
Record rb_tree : Type := { rb_mem : gmap Z rb_node; rb_root : Z; rb_sentinel : Z }.

Abbreviation RB_NULL := 0 (only parsing).

Definition M (A : Type) : Type := rb_tree -> option (A * rb_tree).

Definition ret {A} (a : A) : M A := fun st => Some (a, st).
Definition fail {A} : M A := fun _ => None.
Definition bind {A B} (e : M A) (k : A -> M B) : M B :=
  fun st => match e st with Some (a, st) => k a st | None => None end.

Declare Scope rb_scope.
Delimit Scope rb_scope with rb.
Notation "x <- e ;; k" := (bind e (fun x => k))
  (at level 100, e at next level, k at level 200, right associativity) : rb_scope.
Notation "e ;;; k" := (bind e (fun _ => k))
  (at level 100, k at level 200, right associativity) : rb_scope.
Open Scope rb_scope.

(** [p->field] *)
Definition rd {A} (f : rb_node -> A) (p : Z) : M A :=
  fun st => match rb_mem st !! p with Some n => Some (f n, st) | None => None end.

(** [p->field = x] *)
Definition wr (g : rb_node -> rb_node) (p : Z) : M unit :=
  fun st => match rb_mem st !! p with
            | Some n => Some (tt, {| st with rb_mem := <[p := g n]> (rb_mem st) |})
            | None => None
            end.

Definition get_root : M Z := fun st => Some (rb_root st, st).
Definition set_root (p : Z) : M unit := fun st => Some (tt, {| st with rb_root := p |}).
Definition get_sentinel : M Z := fun st => Some (rb_sentinel st, st).
Definition nodes : M nat := fun st => Some (size (rb_mem st), st).

Definition rb_child (side : bool) (n : rb_node) : Z := if side then rb_right n else rb_left n.

Definition set_child (side : bool) (p q : Z) : M unit :=
  wr (fun n => if side then {| n with rb_right := q |} else {| n with rb_left := q |}) p.
Definition set_parent (p q : Z) : M unit := wr (fun n => {| n with rb_parent := q |}) p.
Definition set_red (red : bool) (p : Z) : M unit := wr (fun n => {| n with rb_red := red |}) p.

(** [core/ngx_rbtree.h:61-65] ngx_rbt_red *)
Definition ngx_rbt_red (p : Z) : M unit := set_red true p.
(** [core/ngx_rbtree.h:61-65] ngx_rbt_black *)
Definition ngx_rbt_black (p : Z) : M unit := set_red false p.
(** [core/ngx_rbtree.h:61-65] ngx_rbt_is_red *)
Definition ngx_rbt_is_red (p : Z) : M bool := rd rb_red p.

(** ** Rotations *)

(** The pointer to [node] in its parent becomes [temp]; the C code looks at
    [side] first.
    [core/ngx_rbtree.c:340-348] node == node->parent->left *)
Definition relink_child (side : bool) (node temp : Z) : M unit :=
  parent <- rd rb_parent node ;;
  c <- rd (rb_child side) parent ;;
  if node =? c then set_child side parent temp else set_child (negb side) parent temp.

(** The pointer to [node] from above becomes [temp].
    [core/ngx_rbtree.c:340-348] if (node == *root) *)
Definition relink (side : bool) (node temp : Z) : M unit :=
  root <- get_root ;;
  if node =? root then set_root temp else relink_child side node temp.

(** The child on [side] goes up: [rotate true] is the left rotation.
    [core/ngx_rbtree.c:325-352] ngx_rbtree_left_rotate *)
Definition rotate (side : bool) (node : Z) : M unit :=
  sentinel <- get_sentinel ;;
  temp <- rd (rb_child side) node ;;
  inner <- rd (rb_child (negb side)) temp ;;
  set_child side node inner ;;;
  (if negb (inner =? sentinel) then set_parent inner node else ret tt) ;;;
  parent <- rd rb_parent node ;;
  set_parent temp parent ;;;
  relink (negb side) node temp ;;;
  set_child (negb side) temp node ;;;
  set_parent node temp.

(** [core/ngx_rbtree.c:325-352] ngx_rbtree_left_rotate *)
Definition ngx_rbtree_left_rotate : Z -> M unit := rotate true.
(** [core/ngx_rbtree.c:355-382] ngx_rbtree_right_rotate *)
Definition ngx_rbtree_right_rotate : Z -> M unit := rotate false.

(** ** Insertion *)

(** The walk down from [temp] to the free place for [node]: the node above it
    and its side.
    [core/ngx_rbtree.c:103-112] for ( ;; ) *)
Fixpoint rb_descend (less : Z * Z -> Z * Z -> bool) (fuel : nat) (temp node : Z) : M (Z * bool) :=
  match fuel with
  | O => fail
  | S fuel =>
      sentinel <- get_sentinel ;;
      nk <- rd rb_key node ;;
      tk <- rd rb_key temp ;;
      let side := negb (less (node, nk) (temp, tk)) in
      next <- rd (rb_child side) temp ;;
      if next =? sentinel then ret (temp, side) else rb_descend less fuel next node
  end.

(** [core/ngx_rbtree.c:97-119] ngx_rbtree_insert_value *)
Definition rb_insert_leaf (less : Z * Z -> Z * Z -> bool) (temp node : Z) : M unit :=
  sentinel <- get_sentinel ;;
  n <- nodes ;;
  place <- rb_descend less (S n) temp node ;;
  let (temp, side) := place in
  set_child side temp node ;;;
  set_parent node temp ;;;
  set_child false node sentinel ;;;
  set_child true node sentinel ;;;
  ngx_rbt_red node.

(** [core/ngx_rbtree.c:97-119] ngx_rbtree_insert_value *)
Definition ngx_rbtree_insert_value : Z -> Z -> M unit := rb_insert_leaf (fun x y => x.2 <? y.2).

(** Keys are compared by the sign of their 64-bit difference.
    [core/ngx_rbtree.c:122-154] ngx_rbtree_insert_timer_value *)
Definition ngx_rbtree_insert_timer_value : Z -> Z -> M unit :=
  rb_insert_leaf (fun x y => s64 (x.2 - y.2) <? 0).

(** One round of the loop, with a red parent on [side] of the grandparent: the
    node of the next round.
    [core/ngx_rbtree.c:51-69] if (node->parent == node->parent->parent->left) *)
Definition rb_insert_case (side : bool) (node : Z) : M Z :=
  p <- rd rb_parent node ;;
  g <- rd rb_parent p ;;
  temp <- rd (rb_child (negb side)) g ;;
  red <- ngx_rbt_is_red temp ;;
  if red then
    p <- rd rb_parent node ;;
    ngx_rbt_black p ;;;
    ngx_rbt_black temp ;;;
    g <- rd rb_parent p ;;
    ngx_rbt_red g ;;;
    ret g
  else
    p <- rd rb_parent node ;;
    c <- rd (rb_child (negb side)) p ;;
    node <- (if node =? c then rotate (negb side) p ;;; ret p else ret node) ;;
    p <- rd rb_parent node ;;
    ngx_rbt_black p ;;;
    g <- rd rb_parent p ;;
    ngx_rbt_red g ;;;
    rotate side g ;;;
    ret node.

(** [core/ngx_rbtree.c:49-91] while (node != *root && ngx_rbt_is_red(node->parent)) *)
Fixpoint rb_insert_fix (fuel : nat) (node : Z) : M unit :=
  match fuel with
  | O => fail
  | S fuel =>
      root <- get_root ;;
      if node =? root then ret tt
      else
        p <- rd rb_parent node ;;
        red <- ngx_rbt_is_red p ;;
        if negb red then ret tt
        else
          g <- rd rb_parent p ;;
          gl <- rd rb_left g ;;
          node <- rb_insert_case (negb (p =? gl)) node ;;
          rb_insert_fix fuel node
  end.

(** [insert] is [tree->insert].
    [core/ngx_rbtree.c:24-94] ngx_rbtree_insert *)
Definition ngx_rbtree_insert (insert : Z -> Z -> M unit) (node : Z) : M unit :=
  root <- get_root ;;
  sentinel <- get_sentinel ;;
  if root =? sentinel then
    set_parent node RB_NULL ;;;
    set_child false node sentinel ;;;
    set_child true node sentinel ;;;
    ngx_rbt_black node ;;;
    set_root node
  else
    insert root node ;;;
    n <- nodes ;;
    rb_insert_fix (S n) node ;;;
    root <- get_root ;;
    ngx_rbt_black root.

(** ** Deletion *)

(** [core/ngx_rbtree.h:73-81] ngx_rbtree_min *)
Fixpoint ngx_rbtree_min (fuel : nat) (node : Z) : M Z :=
  match fuel with
  | O => fail
  | S fuel =>
      sentinel <- get_sentinel ;;
      l <- rd rb_left node ;;
      if l =? sentinel then ret node else ngx_rbtree_min fuel l
  end.

(** [subst], the node that leaves its place, and [temp], the one that takes it.
    [core/ngx_rbtree.c:169-185] subst *)
Definition rb_subst (node : Z) : M (Z * Z) :=
  sentinel <- get_sentinel ;;
  l <- rd rb_left node ;;
  r <- rd rb_right node ;;
  if l =? sentinel then ret (node, r)
  else if r =? sentinel then ret (node, l)
  else
    n <- nodes ;;
    subst <- ngx_rbtree_min (S n) r ;;
    sl <- rd rb_left subst ;;
    sr <- rd rb_right subst ;;
    ret (subst, if negb (sl =? sentinel) then sl else sr).

(** [core/ngx_rbtree.c:191-195] DEBUG stuff *)
Definition rb_wipe (node : Z) : M unit :=
  set_child false node RB_NULL ;;;
  set_child true node RB_NULL ;;;
  set_parent node RB_NULL ;;;
  wr (fun n => {| n with rb_key := 0 |}) node.

(** [subst] takes the place of [node].
    [core/ngx_rbtree.c:222-244] subst->left = node->left *)
Definition rb_take_place (node subst : Z) : M unit :=
  sentinel <- get_sentinel ;;
  l <- rd rb_left node ;; set_child false subst l ;;;
  r <- rd rb_right node ;; set_child true subst r ;;;
  p <- rd rb_parent node ;; set_parent subst p ;;;
  c <- rd rb_red node ;; set_red c subst ;;;
  relink false node subst ;;;
  l <- rd rb_left subst ;;
  (if negb (l =? sentinel) then set_parent l subst else ret tt) ;;;
  r <- rd rb_right subst ;;
  (if negb (r =? sentinel) then set_parent r subst else ret tt).

(** The sibling [w] is black and its child away from [temp] is red: the last
    round.
    [core/ngx_rbtree.c:283-287] ngx_rbt_copy_color(w, temp->parent) *)
Definition rb_delete_last (side : bool) (temp w : Z) : M Z :=
  p <- rd rb_parent temp ;;
  c <- rd rb_red p ;;
  set_red c w ;;;
  p <- rd rb_parent temp ;;
  ngx_rbt_black p ;;;
  far <- rd (rb_child (negb side)) w ;;
  ngx_rbt_black far ;;;
  p <- rd rb_parent temp ;;
  rotate (negb side) p ;;;
  get_root.

(** The sibling [w] is black.
    [core/ngx_rbtree.c:271-288] if (ngx_rbt_is_black(w->left) && ngx_rbt_is_black(w->right)) *)
Definition rb_delete_black (side : bool) (temp w : Z) : M Z :=
  red <- (l <- rd rb_left w ;;
          lred <- ngx_rbt_is_red l ;;
          if lred : bool then ret true else r <- rd rb_right w ;; ngx_rbt_is_red r) ;;
  if negb red then
    ngx_rbt_red w ;;;
    rd rb_parent temp
  else
    far <- rd (rb_child (negb side)) w ;;
    fred <- ngx_rbt_is_red far ;;
    w <- (if negb fred then
            near <- rd (rb_child side) w ;;
            ngx_rbt_black near ;;;
            ngx_rbt_red w ;;;
            rotate side w ;;;
            p <- rd rb_parent temp ;;
            rd (rb_child (negb side)) p
          else ret w) ;;
    rb_delete_last side temp w.

(** One round of the loop, with [temp] on [side] of its parent: the [temp] of
    the next round.
    [core/ngx_rbtree.c:261-289] if (temp == temp->parent->left) *)
Definition rb_delete_case (side : bool) (temp : Z) : M Z :=
  p <- rd rb_parent temp ;;
  w <- rd (rb_child (negb side)) p ;;
  red <- ngx_rbt_is_red w ;;
  w <- (if red : bool then
          ngx_rbt_black w ;;;
          p <- rd rb_parent temp ;;
          ngx_rbt_red p ;;;
          p <- rd rb_parent temp ;;
          rotate (negb side) p ;;;
          p <- rd rb_parent temp ;;
          rd (rb_child (negb side)) p
        else ret w) ;;
  rb_delete_black side temp w.

(** [core/ngx_rbtree.c:259-321] while (temp != *root && ngx_rbt_is_black(temp)) *)
Fixpoint rb_delete_fix (fuel : nat) (temp : Z) : M unit :=
  match fuel with
  | O => fail
  | S fuel =>
      root <- get_root ;;
      stop <- (if temp =? root then ret true else ngx_rbt_is_red temp) ;;
      if stop : bool then ngx_rbt_black temp
      else
        p <- rd rb_parent temp ;;
        pl <- rd rb_left p ;;
        temp <- rb_delete_case (negb (temp =? pl)) temp ;;
        rb_delete_fix fuel temp
  end.

(** [core/ngx_rbtree.c:157-322] ngx_rbtree_delete *)
Definition ngx_rbtree_delete (node : Z) : M unit :=
  st <- rb_subst node ;;
  let (subst, temp) := st in
  root <- get_root ;;
  if subst =? root then
    set_root temp ;;;
    ngx_rbt_black temp ;;;
    rb_wipe node
  else
    red <- ngx_rbt_is_red subst ;;
    relink_child false subst temp ;;;
    sp <- rd rb_parent subst ;;
    (if subst =? node then set_parent temp sp
     else (if sp =? node then set_parent temp subst else set_parent temp sp) ;;; rb_take_place node subst) ;;;
    rb_wipe node ;;;
    if red : bool then ret tt
    else
      n <- nodes ;;
      rb_delete_fix (S n) temp.

(** [core/ngx_rbtree.h:44-48] ngx_rbtree_init *)
Definition ngx_rbtree_init (mem : gmap Z rb_node) (s : Z) : option rb_tree :=
  match mem !! s with
  | Some n => Some {| rb_mem := <[s := {| n with rb_red := false |}]> mem; rb_root := s; rb_sentinel := s |}
  | None => None
  end.

(** The calls of the timers on a small tree. *)
Definition rb_blank (k : Z) : rb_node :=
  {| rb_key := k; rb_left := 0; rb_right := 0; rb_parent := 0; rb_red := false |}.

Fixpoint rb_inorder (fuel : nat) (st : rb_tree) (p : Z) : list Z :=
  match fuel with
  | O => []
  | S fuel =>
      match rb_mem st !! p with
      | Some n => if p =? rb_sentinel st then []
                  else rb_inorder fuel st (rb_left n) ++ [rb_key n] ++ rb_inorder fuel st (rb_right n)
      | None => []
      end
  end.

Example rb_example :
  match ngx_rbtree_init (list_to_map (map (fun k => (k, rb_blank (10 * k))) [1; 2; 3; 4; 5; 6; 7; 8; 9])) 1 with
  | Some st =>
      match (foldr (fun p e => ngx_rbtree_insert ngx_rbtree_insert_value p ;;; e)
               (foldr (fun p e => ngx_rbtree_delete p ;;; e) (ret tt) [4; 9; 2; 6]) [5; 9; 2; 7; 4; 3; 8; 6]) st with
      | Some (_, st) => rb_inorder 10 st (rb_root st) = [30; 50; 70; 80]
      | None => False
      end
  | None => False
  end.
Proof. by vm_compute. Qed.
