(* ===== verification/NgxRbtreeLogic.v ===== *)
(** * Reasoning about red-black trees in memory

    A small program logic for the monad of [NgxRbtree]: what is known of the
    memory is a list of cells (an address and its node) with distinct
    addresses, of which each write changes one, and trees are lists of cells.
    A tree with a hole is a list of frames, from the hole up to the root.  The
    last part shows what a rotation does to a tree. *)
From stdpp Require Import gmap list_tactics.
From S2P Require Import Prelude NgxMemory NgxRbtree.

Abbreviation cell := (Z * rb_node)%type (only parsing).

(** The memory holds [cs], the root is [root] and the sentinel [s]. *)
Record own (s root : Z) (cs : list cell) (st : rb_tree) : Prop := {
  own_holds : holds (rb_mem st) cs;
  own_root : rb_root st = root;
  own_sentinel : rb_sentinel st = s
}.

Lemma own_perm s root cs cs' st : cs ≡ₚ cs' -> own s root cs st -> own s root cs' st.
Proof. intros E [H1 H2 H3]. constructor; [by eapply holds_perm|done..]. Qed.

#[export] Instance own_proper s root : Proper ((≡ₚ) ==> eq ==> iff) (own s root).
Proof. intros cs cs' E st _ <-. split; by apply own_perm. Qed.

Lemma own_nodup s root cs st : own s root cs st -> NoDup (map fst cs).
Proof. by intros [[? _] _ _]. Qed.

Lemma own_size s root cs st : own s root cs st -> (length cs <= size (rb_mem st))%nat.
Proof. intros [H _ _]. by apply holds_size. Qed.

(** ** Weakest preconditions *)

Definition wp {A} (e : M A) (Q : A -> rb_tree -> Prop) (st : rb_tree) : Prop :=
  match e st with Some (a, st') => Q a st' | None => False end.

Lemma wp_some {A} (e : M A) Q st : wp e Q st -> exists a st', e st = Some (a, st') /\ Q a st'.
Proof. unfold wp. destruct (e st) as [[a st']|]; [by eauto|done]. Qed.

Lemma wp_ret {A} (a : A) Q st : Q a st -> wp (ret a) Q st.
Proof. done. Qed.

Lemma wp_bind {A B} (e : M A) (k : A -> M B) Q st :
  wp e (fun a st' => wp (k a) Q st') st -> wp (bind e k) Q st.
Proof. unfold wp, bind. by destruct (e st) as [[a st']|]. Qed.

Lemma wp_mono {A} (e : M A) (Q Q' : A -> rb_tree -> Prop) st :
  wp e Q st -> (forall a st', Q a st' -> Q' a st') -> wp e Q' st.
Proof. unfold wp. destruct (e st) as [[a st']|]; [auto|done]. Qed.

Lemma wp_get_root s root cs Q st : own s root cs st -> Q root st -> wp get_root Q st.
Proof. intros [_ <- _] HQ. exact HQ. Qed.

Lemma wp_get_sentinel s root cs Q st : own s root cs st -> Q s st -> wp get_sentinel Q st.
Proof. intros [_ _ <-] HQ. exact HQ. Qed.

Lemma wp_nodes s root cs Q st :
  own s root cs st -> (forall n, (length cs <= n)%nat -> Q n st) -> wp nodes Q st.
Proof. intros Ho HQ. apply HQ. by eapply own_size. Qed.

Lemma wp_set_root s root cs root' Q st :
  own s root cs st -> (forall st', own s root' cs st' -> Q tt st') -> wp (set_root root') Q st.
Proof. intros [H1 H2 H3] HQ. apply HQ. by constructor. Qed.

Lemma wp_rd {A} s root cs (f : rb_node -> A) p n Q st :
  own s root cs st -> (p, n) ∈ cs -> Q (f n) st -> wp (rd f p) Q st.
Proof. intros [H1 _ _] Hin HQ. unfold wp, rd. by rewrite (holds_get _ _ _ _ H1 Hin). Qed.

Lemma wp_wr s root cs g p n cs' Q st :
  own s root cs st -> cs ≡ₚ (p, n) :: cs' ->
  (forall st', own s root ((p, g n) :: cs') st' -> Q tt st') -> wp (wr g p) Q st.
Proof.
  intros [H1 H2 H3] E HQ. unfold wp, wr.
  assert (rb_mem st !! p = Some n) as ->.
  { eapply holds_get; [exact H1|]. rewrite E. left. }
  apply HQ. constructor; [|done..]. by eapply holds_set.
Qed.

(** ** Trees *)

Inductive rbt : Type :=
| E
| T (red : bool) (l : rbt) (p k : Z) (r : rbt).

(** A node with the child [x] on [side] and the child [y] on the other side. *)
Definition node (side red : bool) (x : rbt) (p k : Z) (y : rbt) : rbt :=
  if side then T red y p k x else T red x p k y.

Definition ptr (s : Z) (t : rbt) : Z := match t with E => s | T _ _ p _ _ => p end.

Definition mk_node (side red : bool) (x : Z) (k : Z) (y par : Z) : rb_node :=
  {| rb_key := k; rb_left := if side then y else x; rb_right := if side then x else y;
     rb_parent := par; rb_red := red |}.

(** The cells of a tree under [par]. *)
Fixpoint cells (s par : Z) (t : rbt) : list cell :=
  match t with
  | E => []
  | T red l p k r => (p, mk_node false red (ptr s l) k (ptr s r) par) :: cells s p l ++ cells s p r
  end.

Record frame : Type := { fr_side : bool; fr_red : bool; fr_p : Z; fr_k : Z; fr_other : rbt }.

Definition plug_frame (f : frame) (t : rbt) : rbt :=
  node (fr_side f) (fr_red f) t (fr_p f) (fr_k f) (fr_other f).

Fixpoint plug (ctx : list frame) (t : rbt) : rbt :=
  match ctx with [] => t | f :: ctx' => plug ctx' (plug_frame f t) end.

(** The parent of the hole; [rp] is what the root has as its parent. *)
Definition ctx_parent (rp : Z) (ctx : list frame) : Z :=
  match ctx with [] => rp | f :: _ => fr_p f end.

Fixpoint ctx_cells (s rp : Z) (ctx : list frame) (hole : Z) : list cell :=
  match ctx with
  | [] => []
  | f :: ctx' =>
      (fr_p f, mk_node (fr_side f) (fr_red f) hole (fr_k f) (ptr s (fr_other f)) (ctx_parent rp ctx'))
      :: cells s (fr_p f) (fr_other f) ++ ctx_cells s rp ctx' (fr_p f)
  end.

Lemma cells_node s par side red x p k y :
  cells s par (node side red x p k y) ≡ₚ
  (p, mk_node side red (ptr s x) k (ptr s y) par) :: cells s p x ++ cells s p y.
Proof. destruct side; cbn; [|done]. by rewrite (Permutation_app_comm (cells s p y)). Qed.

Lemma ptr_node s side red x p k y : ptr s (node side red x p k y) = p.
Proof. by destruct side. Qed.

Lemma cells_plug s rp ctx t :
  cells s rp (plug ctx t) ≡ₚ cells s (ctx_parent rp ctx) t ++ ctx_cells s rp ctx (ptr s t).
Proof.
  revert t; induction ctx as [|f ctx IH]; intros t; cbn [plug ctx_cells ctx_parent]; [by rewrite app_nil_r|].
  rewrite IH. unfold plug_frame. rewrite cells_node, ptr_node. solve_Permutation.
Qed.

(** The tree [t] is in memory, with its root and its sentinel, whose node is
    [sn], and the other cells [R]. *)
Definition at_tree (s : Z) (sn : rb_node) (rp : Z) (t : rbt) (R : list cell) (st : rb_tree) : Prop :=
  own s (ptr s t) ((s, sn) :: cells s rp t ++ R) st.

(** The root is not the tree in the hole. *)
Lemma ptr_plug_in s rp f ctx t hole :
  In (ptr s (plug (f :: ctx) t)) (map fst (ctx_cells s rp (f :: ctx) hole)).
Proof.
  revert f t hole; induction ctx as [|g ctx IH]; intros f t hole.
  - cbn [plug ctx_cells map fst]. unfold plug_frame. rewrite ptr_node. by left.
  - cbn [ctx_cells map]. right. rewrite map_app. apply in_or_app. right.
    apply (IH g (plug_frame f t)).
Qed.

(** ** Symbolic execution *)

(** The node at address [p] in a list of cells, and the rest of the list. *)
Ltac split_cell p cs :=
  lazymatch cs with
  | (p, ?n) :: ?l => constr:((n, l))
  | ?c :: ?l => lazymatch split_cell p l with (?n, ?l') => constr:((n, c :: l')) end
  end.

Ltac solve_in := repeat first [apply list_elem_of_here | apply list_elem_of_further].

(** One operation of the program; [H] is what is owned. *)
Ltac wp_step H :=
  cbv beta iota; cbn [negb]; cbv iota;
  lazymatch goal with
  | |- wp (bind _ _) _ _ => apply wp_bind
  | |- wp (ret _) _ _ => apply wp_ret
  | |- wp get_root _ _ => apply (wp_get_root _ _ _ _ _ H)
  | |- wp get_sentinel _ _ => apply (wp_get_sentinel _ _ _ _ _ H)
  | |- wp (set_root ?p) _ _ => eapply (wp_set_root _ _ _ p _ _ H); clear H; intros ? H
  | |- wp (rd ?f ?p) _ _ =>
      lazymatch type of H with own _ _ ?cs _ =>
        lazymatch split_cell p cs with (?n, _) =>
          apply (wp_rd _ _ _ f p n _ _ H); [solve_in|]; cbn [rb_child rb_left rb_right rb_parent rb_red rb_key negb]
        end
      end
  | |- wp (wr ?g ?p) _ _ =>
      lazymatch type of H with own _ _ ?cs _ =>
        lazymatch split_cell p cs with (?n, ?cs') =>
          eapply (wp_wr _ _ _ g p n cs' _ _ H); [solve_Permutation|]; clear H; intros ? H;
          cbn [rb_child rb_left rb_right rb_parent rb_red rb_key negb] in H
        end
      end
  | |- wp (set_child ?b _ _) _ _ => unfold set_child; cbn [negb]
  | |- wp (set_parent _ _) _ _ => unfold set_parent
  | |- wp (set_red _ _) _ _ => unfold set_red
  | |- wp (ngx_rbt_red _) _ _ => unfold ngx_rbt_red
  | |- wp (ngx_rbt_black _) _ _ => unfold ngx_rbt_black
  | |- wp (ngx_rbt_is_red _) _ _ => unfold ngx_rbt_is_red
  end.

(** Different cells of a list have different addresses. *)
Lemma own_ne (i j : nat) s root cs st p n q n' :
  own s root cs st -> cs !! i = Some (p, n) -> cs !! j = Some (q, n') -> i <> j -> p <> q.
Proof.
  intros Ho Hi Hj Hij ->. apply Hij. eapply (NoDup_lookup (map fst cs) i j q);
    [by eapply own_nodup|by rewrite list_lookup_fmap, Hi|by rewrite list_lookup_fmap, Hj].
Qed.

Lemma own_ne_in s root cs st p n cs' q :
  own s root cs st -> cs ≡ₚ (p, n) :: cs' -> In q (map fst cs') -> p <> q.
Proof.
  intros Ho Ep Hin ->. apply own_nodup in Ho. rewrite Ep in Ho. cbn in Ho.
  apply NoDup_cons in Ho as [Hn _]. by apply Hn, list_elem_of_In.
Qed.

(** Parts of a list of cells. *)
Ltac solve_incl :=
  let a := fresh in let Ha := fresh in
  intros a Ha; cbn [In app]; repeat (rewrite in_app_iff; cbn [In]); cbn [In] in Ha; tauto.

(** The address of a tree is not one of the other cells. *)
Lemma ptr_ne s sn root cs st par t p n L :
  own s root cs st -> cs ≡ₚ (p, n) :: L -> incl ((s, sn) :: cells s par t) L -> p <> ptr s t.
Proof.
  intros Ho Ep Hi. eapply own_ne_in; [exact Ho|exact Ep|].
  assert (In (ptr s t) (map fst ((s, sn) :: cells s par t))) as Hin
    by (destruct t; [by left|right; by left]).
  apply in_map_iff in Hin as (c & Ec & Hc). apply in_map_iff. exists c. split; [done|by apply Hi].
Qed.

(** [if (b != sentinel) b->parent = x], for a subtree [b] under [y]. *)
Lemma wp_reparent s sn root cs x y b cs' Q st :
  own s root cs st -> cs ≡ₚ cells s y b ++ (s, sn) :: cs' ->
  (forall st', own s root (cells s x b ++ (s, sn) :: cs') st' -> Q tt st') ->
  wp (if negb (ptr s b =? s) then set_parent (ptr s b) x else ret tt) Q st.
Proof.
  intros H Ep HQ. apply (own_perm _ _ _ _ _ Ep) in H. destruct b as [|red l p k r].
  - cbn [ptr]. rewrite Z.eqb_refl. by apply HQ.
  - cbn [cells app ptr] in *. rewrite (proj2 (Z.eqb_neq p s)).
    + wp_step H. wp_step H. apply HQ. exact H.
    + eapply own_ne_in; [exact H|reflexivity|]. rewrite map_app. apply in_or_app. right. by left.
Qed.

Lemma ptr_plug_cons s f ctx t t' : ptr s (plug (f :: ctx) t) = ptr s (plug (f :: ctx) t').
Proof.
  revert f t t'; induction ctx as [|g ctx IH]; intros f t t'.
  - cbn [plug]. unfold plug_frame. by rewrite !ptr_node.
  - change (ptr s (plug (g :: ctx) (plug_frame f t)) = ptr s (plug (g :: ctx) (plug_frame f t'))). apply IH.
Qed.

(** The root is not the node in a hole under a frame. *)
Lemma root_ne s rp f ctx t x n cs st root cs' :
  own s root cs st -> cs ≡ₚ (x, n) :: ctx_cells s rp (f :: ctx) x ++ cs' ->
  x <> ptr s (plug (f :: ctx) t).
Proof.
  intros Ho Ep. eapply own_ne_in; [exact Ho|exact Ep|]. rewrite map_app. apply in_or_app. left.
  apply ptr_plug_in.
Qed.

(** The pointer to [x] in its parent becomes [y]; [x] still has its parent. *)
Lemma wp_relink_child s sn rp f ctx side x n y root cs cs' Q st :
  own s root cs st -> cs ≡ₚ (x, n) :: ctx_cells s rp (f :: ctx) x ++ (s, sn) :: cs' -> rb_parent n = fr_p f ->
  (forall st', own s root ((x, n) :: ctx_cells s rp (f :: ctx) y ++ (s, sn) :: cs') st' -> Q tt st') ->
  wp (relink_child side x y) Q st.
Proof.
  intros H Ep Hpar HQ. apply (own_perm _ _ _ _ _ Ep) in H. unfold relink_child.
  assert (Ho : x <> ptr s (fr_other f)).
  { eapply (ptr_ne s sn _ _ _ (fr_p f)); [exact H|reflexivity|]. cbn [ctx_cells]. solve_incl. }
  cbn [ctx_cells app] in *. do 3 wp_step H. rewrite Hpar.
  unfold mk_node in *. destruct f as [fs fc fp fk fo]. cbn [fr_side fr_p fr_red fr_k fr_other] in *.
  wp_step H. destruct side, fs; cbn [rb_child rb_left rb_right] in *;
    rewrite ?Z.eqb_refl, ?(proj2 (Z.eqb_neq _ _) Ho); do 2 wp_step H; apply HQ;
    (eapply own_perm; [|exact H]); solve_Permutation.
Qed.

(** The pointer to [x] from above becomes [y]; [x] still has its old parent. *)
Lemma wp_relink s sn rp ctx side t t' x n y cs cs' Q st :
  own s (ptr s (plug ctx t)) cs st -> ptr s t = x -> ptr s t' = y ->
  cs ≡ₚ (x, n) :: ctx_cells s rp ctx x ++ (s, sn) :: cs' -> rb_parent n = ctx_parent rp ctx ->
  (forall st', own s (ptr s (plug ctx t')) ((x, n) :: ctx_cells s rp ctx y ++ (s, sn) :: cs') st' -> Q tt st') ->
  wp (relink side x y) Q st.
Proof.
  intros H Ex Ey Ep Hpar HQ. apply (own_perm _ _ _ _ _ Ep) in H. unfold relink. do 2 wp_step H.
  destruct ctx as [|f ctx].
  - cbn [plug ctx_cells app] in *. rewrite Ex, Z.eqb_refl. wp_step H. apply HQ. by rewrite Ey.
  - assert (Hroot : x <> ptr s (plug (f :: ctx) t)) by (by eapply root_ne; [exact H|reflexivity]).
    rewrite (proj2 (Z.eqb_neq _ _) Hroot). clear Hroot. rewrite (ptr_plug_cons s f ctx t t') in H.
    by eapply (wp_relink_child s sn rp f ctx side x n y); [exact H|reflexivity|exact Hpar|].
Qed.

(** ** Rotation *)

Definition rot_before (d : bool) (c c' : bool) (x kx y ky : Z) (a b e : rbt) : rbt :=
  node d c (node d c' e y ky b) x kx a.
Definition rot_after (d : bool) (c c' : bool) (x kx y ky : Z) (a b e : rbt) : rbt :=
  node d c' e y ky (node d c b x kx a).

Lemma wp_rotate s sn rp ctx d c c' x kx y ky a b e R Q st :
  at_tree s sn rp (plug ctx (rot_before d c c' x kx y ky a b e)) R st ->
  (forall st', at_tree s sn rp (plug ctx (rot_after d c c' x kx y ky a b e)) R st' -> Q tt st') ->
  wp (rotate d x) Q st.
Proof.
  unfold at_tree, rot_before, rot_after. intros H HQ.
  set (par := ctx_parent rp ctx) in *.
  set (rest := ctx_cells s rp ctx x ++ cells s y e ++ cells s x a ++ R).
  assert (Hown : own s (ptr s (plug ctx (node d c (node d c' e y ky b) x kx a)))
    ((x, mk_node d c y kx (ptr s a) par) :: (y, mk_node d c' (ptr s e) ky (ptr s b) x)
     :: cells s y b ++ (s, sn) :: rest) st).
  { eapply own_perm; [|exact H]. rewrite cells_plug, !cells_node, !ptr_node. fold par. subst rest. solve_Permutation. }
  clear H. rename Hown into H. unfold rotate. unfold mk_node in H.
  assert (Hstep : wp (set_child d x (ptr s b) ;;;
     (if negb (ptr s b =? s) then set_parent (ptr s b) x else ret tt) ;;;
     parent <- rd rb_parent x ;; set_parent y parent ;;; relink (negb d) x y ;;;
     set_child (negb d) y x ;;; set_parent x y) Q st).
  2:{ destruct d; do 6 wp_step H; exact Hstep. }
  apply wp_bind.
  assert (Hset : forall Q', (forall st', own s (ptr s (plug ctx (node d c (node d c' e y ky b) x kx a)))
    ((x, mk_node d c (ptr s b) kx (ptr s a) par) :: (y, mk_node d c' (ptr s e) ky (ptr s b) x)
     :: cells s y b ++ (s, sn) :: rest) st' -> Q' tt st') -> wp (set_child d x (ptr s b)) Q' st).
  { intros Q' HQ'. destruct d; do 2 wp_step H; by apply HQ'. }
  apply Hset. clear Hset H st. intros st H. apply wp_bind.
  set (cx := (x, mk_node d c (ptr s b) kx (ptr s a) par)) in *.
  set (cy := (y, mk_node d c' (ptr s e) ky (ptr s b) x)) in *.
  apply (wp_reparent s sn _ _ x y b (cx :: cy :: rest) _ _ H); [solve_Permutation|]. clear H st. intros st H.
  apply (own_perm _ _ _ (cx :: cy :: cells s x b ++ (s, sn) :: rest)) in H; [|solve_Permutation].
  subst cx cy. unfold mk_node in H. do 5 wp_step H.
  set (cy := (y, mk_node d c' (ptr s e) ky (ptr s b) par)).
  set (cx := (x, mk_node d c (ptr s b) kx (ptr s a) par)).
  apply wp_bind. eapply (wp_relink s sn rp ctx _ _ (node d c' e y ky (node d c b x kx a)) x
    (mk_node d c (ptr s b) kx (ptr s a) par) y _
    (cy :: cells s x b ++ cells s y e ++ cells s x a ++ R) _ _ H); [apply ptr_node|apply ptr_node| |done|].
  { subst rest cy. unfold mk_node. solve_Permutation. }
  clear H st. intros st H. subst cx cy. apply wp_bind.
  apply (own_perm _ _ _ ((y, mk_node d c' (ptr s e) ky (ptr s b) par) :: (x, mk_node d c (ptr s b) kx (ptr s a) par)
    :: cells s x b ++ ctx_cells s rp ctx y ++ cells s y e ++ cells s x a ++ (s, sn) :: R)) in H; [|solve_Permutation].
  assert (Hend : forall st', own s (ptr s (plug ctx (node d c' e y ky (node d c b x kx a))))
    ((x, mk_node d c (ptr s b) kx (ptr s a) y) :: (y, mk_node d c' (ptr s e) ky x par)
    :: cells s x b ++ ctx_cells s rp ctx y ++ cells s y e ++ cells s x a ++ (s, sn) :: R) st' -> Q tt st').
  { intros st2 H2. apply HQ. eapply own_perm; [|exact H2].
    rewrite cells_plug, !cells_node, !ptr_node. fold par. solve_Permutation. }
  clear HQ. unfold mk_node in *. destruct d; repeat wp_step H; by apply Hend.
Qed.

(** ** Reading and painting the node in a hole *)

Section Hole.
Context (s : Z) (sn : rb_node) (rp : Z).

Lemma at_tree_node ctx d c x p k y R st :
  at_tree s sn rp (plug ctx (node d c x p k y)) R st ->
  own s (ptr s (plug ctx (node d c x p k y)))
    ((p, mk_node d c (ptr s x) k (ptr s y) (ctx_parent rp ctx)) ::
     (s, sn) :: cells s p x ++ cells s p y ++ ctx_cells s rp ctx p ++ R) st.
Proof.
  intros H. eapply own_perm; [|exact H]. rewrite cells_plug, cells_node, ptr_node. solve_Permutation.
Qed.

Lemma wp_rd_node {A} (f : rb_node -> A) ctx d c x p k y R Q st :
  at_tree s sn rp (plug ctx (node d c x p k y)) R st ->
  Q (f (mk_node d c (ptr s x) k (ptr s y) (ctx_parent rp ctx))) st -> wp (rd f p) Q st.
Proof. intros H%at_tree_node HQ. eapply wp_rd; [exact H|left|exact HQ]. Qed.

Lemma ptr_plug_eq ctx t t' : ptr s t = ptr s t' -> ptr s (plug ctx t) = ptr s (plug ctx t').
Proof. destruct ctx; [done|]. intros _. apply ptr_plug_cons. Qed.

Lemma wp_set_red c' ctx d c x p k y R Q st :
  at_tree s sn rp (plug ctx (node d c x p k y)) R st ->
  (forall st', at_tree s sn rp (plug ctx (node d c' x p k y)) R st' -> Q tt st') -> wp (set_red c' p) Q st.
Proof.
  intros H%at_tree_node HQ.
  rewrite (ptr_plug_eq ctx _ (node d c' x p k y)) in H by (by rewrite !ptr_node).
  unfold mk_node in H. wp_step H. wp_step H. apply HQ. unfold at_tree. eapply own_perm; [|exact H].
  rewrite cells_plug, cells_node, ptr_node. unfold mk_node. solve_Permutation.
Qed.

Lemma wp_root_tree t R Q st : at_tree s sn rp t R st -> Q (ptr s t) st -> wp get_root Q st.
Proof. intros H HQ. by apply (wp_get_root _ _ _ _ _ H). Qed.

Lemma wp_sentinel_tree t R Q st : at_tree s sn rp t R st -> Q s st -> wp get_sentinel Q st.
Proof. intros H HQ. by apply (wp_get_sentinel _ _ _ _ _ H). Qed.

(** The node in a hole is neither the sentinel nor the other child of its
    parent, and it is the root only of the whole tree. *)
Lemma hole_ne_sentinel ctx d c x p k y R st :
  at_tree s sn rp (plug ctx (node d c x p k y)) R st -> p <> s.
Proof. intros H%at_tree_node. by eapply (own_ne 0 1); [exact H| | |]. Qed.

Lemma hole_ne_other ctx f d c x p k y R st :
  at_tree s sn rp (plug (f :: ctx) (node d c x p k y)) R st -> p <> ptr s (fr_other f).
Proof.
  intros H%at_tree_node. eapply (ptr_ne s sn _ _ _ (fr_p f)); [exact H|reflexivity|].
  cbn [ctx_cells]. solve_incl.
Qed.

Lemma hole_ne_root ctx f d c x p k y R st :
  at_tree s sn rp (plug (f :: ctx) (node d c x p k y)) R st ->
  p <> ptr s (plug (f :: ctx) (node d c x p k y)).
Proof.
  intros H%at_tree_node.
  eapply (root_ne s rp f ctx _ p _ _ _ _ ((s, sn) :: cells s p x ++ cells s p y ++ R)); [exact H|].
  solve_Permutation.
Qed.
End Hole.

(** A node seen from the other side. *)
Lemma node_swap d c x p k y : node d c x p k y = node (negb d) c y p k x.
Proof. by destruct d. Qed.

Lemma plug_other f ctx t :
  plug (f :: ctx) t =
  plug ({| fr_side := negb (fr_side f); fr_red := fr_red f; fr_p := fr_p f; fr_k := fr_k f; fr_other := t |} :: ctx)
    (fr_other f).
Proof. cbn [plug]. f_equal. unfold plug_frame. cbn [fr_side fr_red fr_p fr_k fr_other]. apply node_swap. Qed.

(** ** Order and balance *)

(** The nodes in order, with their keys. *)
Fixpoint inorder (t : rbt) : list (Z * Z) :=
  match t with E => [] | T _ l p k r => inorder l ++ (p, k) :: inorder r end.

Lemma inorder_plug ctx t t' : inorder t = inorder t' -> inorder (plug ctx t) = inorder (plug ctx t').
Proof.
  revert t t'; induction ctx as [|f ctx IH]; intros t t' Ht; [done|]. cbn [plug]. apply IH.
  unfold plug_frame, node. destruct (fr_side f); cbn; by rewrite Ht.
Qed.

Lemma inorder_rot d c c' x kx y ky a b e :
  inorder (rot_after d c c' x kx y ky a b e) = inorder (rot_before d c c' x kx y ky a b e).
Proof. destruct d; cbn; by rewrite <- ?app_assoc. Qed.

Lemma inorder_paint d c c' x p k y : inorder (node d c' x p k y) = inorder (node d c x p k y).
Proof. by destruct d. Qed.

Definition color (t : rbt) : bool := match t with E => false | T c _ _ _ _ => c end.

(** No red node has a red child, and [h] black nodes are on every path down. *)
Fixpoint ok (t : rbt) (h : nat) : Prop :=
  match t with
  | E => h = 0%nat
  | T true l _ _ r => color l = false /\ color r = false /\ ok l h /\ ok r h
  | T false l _ _ r => match h with O => False | S h => ok l h /\ ok r h end
  end.

(** The same of a tree with a hole for a tree of height [h]; a tree in a hole
    under a red node must be black. *)
Fixpoint ctx_ok (ctx : list frame) (h : nat) : Prop :=
  match ctx with
  | [] => True
  | f :: ctx' =>
      ok (fr_other f) h /\
      if fr_red f then color (fr_other f) = false /\
        match ctx' with g :: _ => fr_red g = false | [] => False end /\ ctx_ok ctx' h
      else ctx_ok ctx' (S h)
  end.

Definition fits (ctx : list frame) (t : rbt) : Prop :=
  match ctx with f :: _ => fr_red f = true -> color t = false | [] => color t = false end.

Lemma ok_node d c x p k y h :
  ok (node d c x p k y) h <->
  if c then color x = false /\ color y = false /\ ok x h /\ ok y h
  else match h with O => False | S h => ok x h /\ ok y h end.
Proof. destruct d, c; cbn; [tauto| |tauto|]; destruct h; tauto. Qed.

Lemma color_node d c x p k y : color (node d c x p k y) = c.
Proof. by destruct d. Qed.

(** A balanced tree: the root is black. *)
Definition balanced (t : rbt) : Prop := color t = false /\ exists h, ok t h.

Lemma ok_plug ctx t h : ctx_ok ctx h -> ok t h -> fits ctx t -> balanced (plug ctx t).
Proof.
  revert t h; induction ctx as [|f ctx IH]; intros t h Hc Ht Hf; [by split; [|exists h]|].
  cbn [plug]. destruct Hc as [Ho Hc]. destruct (fr_red f) eqn:Er.
  - destruct Hc as (Hoc & Hg & Hc). apply (IH _ h); [done| |].
    + unfold plug_frame. apply ok_node. rewrite Er. split_and!; [by apply Hf|done..].
    + destruct ctx as [|g ctx]; [done|]. cbn. intros Hg'. congruence.
  - apply (IH _ (S h)); [done| |].
    + unfold plug_frame. apply ok_node. by rewrite Er.
    + destruct ctx as [|g ctx]; cbn; [|intros _]; unfold plug_frame; by rewrite color_node, Er.
Qed.
