(* ===== verification/NgxRbtreeInsert.v ===== *)
(** * Insertion into a red-black tree

    [ngx_rbtree_insert] of src/nginx-1.4.7/src/core/ngx_rbtree.c keeps the tree
    balanced and puts the node at its place in the order. *)
From stdpp Require Import gmap list_tactics sorting.
From S2P Require Import Prelude NgxRbtree NgxRbtreeLogic.

Section Fix.
Context (s : Z) (sn : rb_node) (rp : Z) (R : list (Z * rb_node)).
Hypothesis sentinel_black : rb_red sn = false.

(** The color of a subtree that is the other child of a frame. *)
Lemma wp_color_other f ctx t Q st :
  at_tree s sn rp (plug (f :: ctx) t) R st -> Q (color (fr_other f)) st ->
  wp (ngx_rbt_is_red (ptr s (fr_other f))) Q st.
Proof.
  intros H HQ. rewrite plug_other in H. unfold ngx_rbt_is_red. destruct (fr_other f) as [|c l p k r].
  - cbn in *. eapply wp_rd; [exact H|left|]. by rewrite sentinel_black.
  - by eapply (wp_rd_node s sn rp rb_red _ false c l p k r); [exact H|].
Qed.

(** The parent and the uncle are red: they become black and the grandparent
    red. *)
Lemma wp_case_red ctx sf sg l p k r P kf w G kg ul U ku ur Q st :
  let t := T true l p k r in
  let f := {| fr_side := sf; fr_red := true; fr_p := P; fr_k := kf; fr_other := w |} in
  let g u := {| fr_side := sg; fr_red := false; fr_p := G; fr_k := kg; fr_other := u |} in
  at_tree s sn rp (plug (f :: g (T true ul U ku ur) :: ctx) t) R st ->
  (forall st', at_tree s sn rp (plug ctx (node sg true (node sf false t P kf w) G kg (T false ul U ku ur))) R st' ->
     Q G st') ->
  wp (rb_insert_case sg p) Q st.
Proof.
  intros t f g H HQ. set (u := T true ul U ku ur) in *. unfold rb_insert_case.
  apply wp_bind, (wp_rd_node s sn rp _ _ false true l p k r R _ _ H).
  apply wp_bind, (wp_rd_node s sn rp _ (g u :: ctx) sf true t P kf w R _ _ H).
  apply wp_bind, (wp_rd_node s sn rp _ ctx sg false (plug_frame f t) G kg u R _ _ H).
  replace (rb_child (negb sg) _) with U by (by destruct sg).
  apply wp_bind, (wp_color_other (g u) ctx (plug_frame f t) _ _ H). cbn [color g fr_other u].
  apply wp_bind, (wp_rd_node s sn rp _ _ false true l p k r R _ _ H). cbn [ctx_parent fr_p f mk_node rb_parent].
  apply wp_bind, (wp_set_red s sn rp false (g u :: ctx) sf true t P kf w R _ _ H). clear H st. intros st H.
  pose (g' := {| fr_side := negb sg; fr_red := false; fr_p := G; fr_k := kg; fr_other := node sf false t P kf w |}).
  rewrite plug_other in H. apply wp_bind, (wp_set_red s sn rp false (g' :: ctx) false true ul U ku ur R _ _ H).
  clear H st. intros st H. rewrite plug_other in H. cbn [g' fr_side fr_red fr_p fr_k fr_other] in H.
  rewrite negb_involutive in H. set (u' := node false false ul U ku ur) in *.
  apply wp_bind, (wp_rd_node s sn rp _ (g u' :: ctx) sf false t P kf w R _ _ H). cbn [ctx_parent fr_p g mk_node rb_parent].
  apply wp_bind, (wp_set_red s sn rp true ctx sg false (node sf false t P kf w) G kg u' R _ _ H).
  clear H st. intros st H. apply wp_ret, HQ. exact H.
Qed.

(** The parent [q] is red, the uncle is black and the node is on the outer
    side: one rotation. *)
Lemma wp_case_outer ctx sg z q kq b G kg u (v : Z) Q st :
  at_tree s sn rp (plug ctx (node sg false (node sg true z q kq b) G kg u)) R st ->
  (forall st', at_tree s sn rp (plug ctx (node sg false z q kq (node sg true b G kg u))) R st' -> Q v st') ->
  wp (ngx_rbt_black q ;;; g <- rd rb_parent q ;; ngx_rbt_red g ;;; rotate sg g ;;; ret v) Q st.
Proof.
  intros H HQ.
  pose (g := {| fr_side := sg; fr_red := false; fr_p := G; fr_k := kg; fr_other := u |}).
  apply wp_bind, (wp_set_red s sn rp false (g :: ctx) sg true z q kq b R _ _ H). clear H st. intros st H.
  apply wp_bind, (wp_rd_node s sn rp _ (g :: ctx) sg false z q kq b R _ _ H). cbn [ctx_parent fr_p g mk_node rb_parent].
  apply wp_bind, (wp_set_red s sn rp true ctx sg false (node sg false z q kq b) G kg u R _ _ H).
  clear H st. intros st H. by apply wp_bind, (wp_rotate s sn rp ctx sg true false G kg q kq u b z R _ st H).
Qed.

(** The parent is red and the uncle black: afterwards the subtree has a black
    root, the same nodes in the same order, and two red children. *)
Lemma wp_case_black ctx sf sg l p k r P kf w G kg u Q st :
  let t := T true l p k r in
  let f := {| fr_side := sf; fr_red := true; fr_p := P; fr_k := kf; fr_other := w |} in
  let g := {| fr_side := sg; fr_red := false; fr_p := G; fr_k := kg; fr_other := u |} in
  at_tree s sn rp (plug (f :: g :: ctx) t) R st -> color u = false ->
  (forall st' z zx zy zk a q kq b, at_tree s sn rp (plug ctx (node sg false (node sg true zx z zk zy) q kq
       (node sg true b G kg u))) R st' ->
     a = node sg true zx z zk zy ->
     inorder (node sg true a q kq b) = inorder (plug_frame f t) ->
     (forall h, ok l h -> ok r h -> ok w h -> color l = false -> color r = false -> color w = false ->
        ok a h /\ ok b h /\ color b = false) -> Q z st') ->
  wp (rb_insert_case sg p) Q st.
Proof.
  intros t f g H Hu HQ. unfold rb_insert_case.
  apply wp_bind, (wp_rd_node s sn rp _ _ false true l p k r R _ _ H).
  apply wp_bind, (wp_rd_node s sn rp _ (g :: ctx) sf true t P kf w R _ _ H).
  apply wp_bind, (wp_rd_node s sn rp _ ctx sg false (plug_frame f t) G kg u R _ _ H).
  replace (rb_child (negb sg) _) with (ptr s u) by (by destruct sg).
  apply wp_bind, (wp_color_other g ctx (plug_frame f t) _ _ H). cbn [g fr_other]. rewrite Hu.
  apply wp_bind, (wp_rd_node s sn rp _ _ false true l p k r R _ _ H). cbn [ctx_parent fr_p f mk_node rb_parent].
  apply wp_bind, (wp_rd_node s sn rp _ (g :: ctx) sf true t P kf w R _ _ H).
  assert (Hother : p <> ptr s w) by (exact (hole_ne_other s sn rp (g :: ctx) f false true l p k r R st H)).
  destruct (bool_dec sf sg) as [->|Hs].
  - replace (rb_child (negb sg) _) with (ptr s w) by (by destruct sg).
    rewrite (proj2 (Z.eqb_neq _ _) Hother). apply wp_bind, wp_ret.
    apply wp_bind, (wp_rd_node s sn rp _ _ false true l p k r R _ _ H). cbn [ctx_parent fr_p f mk_node rb_parent].
    apply (wp_case_outer ctx sg t P kf w G kg u p Q st H). clear H st. intros st H.
    eapply (HQ st p (if sg then r else l) (if sg then l else r) k t P kf w); [|by destruct sg..|].
    + by destruct sg.
    + intros h Hl Hr Hw Cl Cr Cw. by split_and!.
  - assert (sf = negb sg) as -> by (by destruct sf, sg).
    replace (rb_child (negb sg) _) with p by (by destruct sg). rewrite Z.eqb_refl. apply wp_bind.
    set (e := if sg then l else r). set (b := if sg then r else l).
    assert (Et : t = node (negb sg) true e p k b) by (by destruct sg). rewrite Et in *. clear Et.
    apply wp_bind, (wp_rotate s sn rp (g :: ctx) (negb sg) true true P kf p k w b e R _ st H).
    clear H st. intros st H. apply wp_ret. unfold rot_after in H.
    assert (Ea : node (negb sg) true b P kf w = node sg true w P kf b) by (by destruct sg). rewrite Ea in H. clear Ea.
    assert (Eq : node (negb sg) true e p k (node sg true w P kf b) = node sg true (node sg true w P kf b) p k e)
      by (by destruct sg). rewrite Eq in H. clear Eq.
    pose (f' := {| fr_side := sg; fr_red := true; fr_p := p; fr_k := k; fr_other := e |}).
    apply wp_bind, (wp_rd_node s sn rp _ (f' :: g :: ctx) sg true w P kf b R _ _ H).
    cbn [ctx_parent fr_p f' mk_node rb_parent].
    apply (wp_case_outer ctx sg (node sg true w P kf b) p k e G kg u P Q st H). clear H st. intros st H.
    eapply (HQ st P w b kf (node sg true w P kf b) p k e); [exact H|done| |].
    + unfold plug_frame. cbn [fr_side fr_red fr_p fr_k fr_other f]. subst e b.
      destruct sg; cbn; by rewrite <- ?app_assoc.
    + intros h Hl Hr Hw Cl Cr Cw. rewrite ok_node. subst e b. by destruct sg.
Qed.

Definition paint (t : rbt) : rbt := match t with E => E | T _ l p k r => T false l p k r end.

Lemma balanced_paint t : balanced t -> balanced (paint t).
Proof. intros [Hc [h Hh]]. destruct t as [|[] l p k r]; [by split; [|exists h]|done|by split; [|exists h]]. Qed.

(** A node under a black one is where the loop stops. *)
Lemma wp_fix_stop fuel f ctx d x p k y Q st :
  at_tree s sn rp (plug (f :: ctx) (node d true x p k y)) R st -> fr_red f = false ->
  Q tt st -> wp (rb_insert_fix (S fuel) p) Q st.
Proof.
  intros H Hf HQ. cbn [rb_insert_fix].
  apply wp_bind, (wp_root_tree s sn rp _ R _ _ H).
  rewrite (proj2 (Z.eqb_neq _ _) (hole_ne_root s sn rp ctx f d true x p k y R st H)).
  apply wp_bind, (wp_rd_node s sn rp _ (f :: ctx) d true x p k y R _ _ H). cbn [ctx_parent mk_node rb_parent].
  apply wp_bind, (wp_rd_node s sn rp _ ctx (fr_side f) (fr_red f) (node d true x p k y) (fr_p f) (fr_k f) (fr_other f) R _ _ H).
  cbn [mk_node rb_red]. rewrite Hf. by apply wp_ret.
Qed.

Lemma wp_insert_fix fuel ctx l p k r h Q st :
  at_tree s sn rp (plug ctx (T true l p k r)) R st ->
  ok l h -> ok r h -> color l = false -> color r = false -> ctx_ok ctx h -> (length ctx < fuel)%nat ->
  (forall st' t', at_tree s sn rp t' R st' -> inorder t' = inorder (plug ctx (T true l p k r)) ->
     balanced (paint t') -> Q tt st') ->
  wp (rb_insert_fix fuel p) Q st.
Proof.
  revert ctx l p k r h st; induction fuel as [|fuel IH]; intros ctx l p k r h st H Hl Hr Cl Cr Hc Hfuel HQ; [lia|].
  destruct ctx as [|[sf fc P kf w] ctx].
  { cbn [rb_insert_fix]. apply wp_bind, (wp_root_tree s sn rp _ R _ _ H). cbn [plug ptr].
    rewrite Z.eqb_refl. apply wp_ret. eapply HQ; [exact H|done|]. split; [done|]. by exists (S h). }
  destruct fc.
  2:{ apply (wp_fix_stop fuel _ ctx false l p k r Q st H); [done|]. eapply HQ; [exact H|done|].
      apply balanced_paint. eapply (ok_plug _ _ h); [exact Hc|by cbn; split_and!|done]. }
  destruct Hc as (Hw & Cw & Hg & Hc). cbn [fr_other] in Hw, Cw.
  destruct ctx as [|[sg gc G kg u] ctx]; [done|]. cbn [fr_red] in Hg. subst gc. destruct Hc as [Hu Hc]. cbn in Hu, Hc.
  set (f := {| fr_side := sf; fr_red := true; fr_p := P; fr_k := kf; fr_other := w |}) in *.
  set (t := T true l p k r) in *.
  cbn [rb_insert_fix]. apply wp_bind, (wp_root_tree s sn rp _ R _ _ H).
  rewrite (proj2 (Z.eqb_neq _ _) (hole_ne_root s sn rp _ f false true l p k r R st H :
    p <> ptr s (plug (f :: _ :: ctx) t))).
  apply wp_bind, (wp_rd_node s sn rp _ _ false true l p k r R _ _ H). cbn [ctx_parent mk_node rb_parent fr_p f].
  set (g := {| fr_side := sg; fr_red := false; fr_p := G; fr_k := kg; fr_other := u |}) in *.
  apply wp_bind, (wp_rd_node s sn rp _ (g :: ctx) sf true t P kf w R _ _ H). cbn [mk_node rb_red negb].
  apply wp_bind, (wp_rd_node s sn rp _ (g :: ctx) sf true t P kf w R _ _ H). cbn [ctx_parent mk_node rb_parent fr_p g].
  apply wp_bind, (wp_rd_node s sn rp _ ctx sg false (plug_frame f t) G kg u R _ _ H).
  assert (Hside : negb (P =? rb_left (mk_node sg false (ptr s (plug_frame f t)) kg (ptr s u) (ctx_parent rp ctx))) = sg).
  { pose proof (hole_ne_other s sn rp ctx g sf true t P kf w R st H) as Hne. cbn [fr_other g] in Hne.
    unfold plug_frame. cbn [mk_node rb_left]. destruct sg; [by rewrite (proj2 (Z.eqb_neq _ _) Hne)|].
    rewrite ptr_node. by rewrite Z.eqb_refl. }
  rewrite Hside. clear Hside. apply wp_bind. cbn [length] in Hfuel.
  destruct (color u) eqn:Cu.
  - destruct u as [|[] ul U ku ur]; [done| |done]. subst g. cbn [ok] in Hu.
    apply (wp_case_red ctx sf sg l p k r P kf w G kg ul U ku ur _ st H). clear H st. intros st H.
    assert (En : forall side x y, node side true x G kg y = T true (if side then y else x) G kg (if side then x else y))
      by (by intros []). rewrite En in H.
    eapply (IH ctx _ G kg _ (S h) st H); [..|exact Hc|lia|].
    + destruct sg; [by cbn; split_and!; destruct Hu as (? & ? & ? & ?)|].
      apply ok_node. cbn. by split_and!.
    + destruct sg; [apply ok_node; cbn; by split_and!|]. cbn. by destruct Hu as (? & ? & ? & ?).
    + destruct sg; [done|]. apply color_node.
    + destruct sg; [apply color_node|done].
    + intros st' t' H' Hio Hbal. eapply HQ; [exact H'| |done]. rewrite Hio, <- En.
      apply (inorder_plug ctx). subst f t. destruct sf, sg; cbn; by rewrite <- ?app_assoc.
  - apply (wp_case_black ctx sf sg l p k r P kf w G kg u _ st H Cu).
    clear H st. intros st z zx zy zk a q kq b H Ea Hio Hoks. destruct fuel as [|fuel]; [lia|].
    pose (f' := {| fr_side := sg; fr_red := false; fr_p := q; fr_k := kq; fr_other := node sg true b G kg u |}).
    apply (wp_fix_stop fuel f' ctx sg zx z zk zy Q st H eq_refl).
    destruct (Hoks h Hl Hr Hw Cl Cr Cw) as (Ha & Hb & Cb). rewrite <- Ea in H.
    eapply HQ; [exact H| |].
    + apply (inorder_plug ctx). transitivity (inorder (node sg false (node sg true a q kq b) G kg u)).
      * destruct sg; cbn; by rewrite <- ?app_assoc.
      * exact (inorder_plug [g] (node sg true a q kq b) (plug_frame f t) Hio).
    + apply balanced_paint. eapply (ok_plug ctx _ (S h)); [exact Hc| |].
      * apply ok_node. split; [done|]. apply ok_node. by split_and!.
      * destruct ctx; [|intros _]; apply color_node.
Qed.
End Fix.

(** ** The place of a new node *)

(** Nodes in an order: [less] is a strict order on the nodes in [P], and not
    being less is transitive. *)
Class KeyOrder (less : Z * Z -> Z * Z -> bool) (P : Z * Z -> Prop) : Prop := {
  less_asym : forall x y, P x -> P y -> less x y = true -> less y x = false;
  not_less_trans : forall x y z, P x -> P y -> P z ->
    less y x = false -> less z y = false -> less z x = false
}.

#[export] Instance value_order : KeyOrder (fun x y => x.2 <? y.2) (fun _ => True).
Proof. split; intros; zify_bool; lia. Qed.

(** Timers within half of the range of the clock from [base]. *)
Definition in_window (base k : Z) : Prop := 0 <= u64 (k - base) < 2 ^ 63.

Lemma timer_less base x y :
  in_window base x -> in_window base y -> s64 (x - y) = u64 (x - base) - u64 (y - base).
Proof.
  unfold in_window. intros Hx Hy. rewrite <- (s64_small (u64 (x - base) - u64 (y - base))) by lia.
  apply s64_cong. unfold u64. rewrite <- Zminus_mod. f_equal. lia.
Qed.

#[export] Instance timer_order base : KeyOrder (fun x y => s64 (x.2 - y.2) <? 0) (fun x => in_window base x.2).
Proof.
  split; [intros x y Hx Hy|intros x y z Hx Hy Hz]; rewrite ?(timer_less base) by done; intros; zify_bool; lia.
Qed.

Section Place.
Context (less : Z * Z -> Z * Z -> bool).

Definition not_after (x y : Z * Z) : Prop := less y x = false.

(** The side that a node takes at a frame. *)
Definition goes (x : Z * Z) (f : frame) : Prop := fr_side f = negb (less x (fr_p f, fr_k f)).

Fixpoint lefts (ctx : list frame) : list (Z * Z) :=
  match ctx with
  | [] => []
  | f :: ctx' => lefts ctx' ++ if fr_side f then inorder (fr_other f) ++ [(fr_p f, fr_k f)] else []
  end.

Fixpoint rights (ctx : list frame) : list (Z * Z) :=
  match ctx with
  | [] => []
  | f :: ctx' => (if fr_side f then [] else (fr_p f, fr_k f) :: inorder (fr_other f)) ++ rights ctx'
  end.

Lemma inorder_ctx ctx t : inorder (plug ctx t) = lefts ctx ++ inorder t ++ rights ctx.
Proof.
  revert t; induction ctx as [|f ctx IH]; intros t; cbn [plug lefts rights]; [by rewrite app_nil_r|].
  rewrite IH. unfold plug_frame, node. destruct (fr_side f); cbn; by rewrite <- ?app_assoc; cbn; rewrite <- ?app_assoc.
Qed.

Context (P : Z * Z -> Prop) `{!KeyOrder less P}.

Lemma lefts_before x ctx :
  P x -> Forall (goes x) ctx -> Forall P (lefts ctx) ->
  StronglySorted not_after (lefts ctx) -> Forall (fun y => less x y = false) (lefts ctx).
Proof.
  intros Px. induction ctx as [|f ctx IH]; cbn [lefts]; intros Hg HP Hs; [constructor|].
  apply Forall_cons in Hg as [Hf Hg]. apply Forall_app in HP as [HP1 HP2].
  apply StronglySorted_app in Hs as (Hs & Hs1 & Hs2).
  assert (IH' := IH Hg HP1 Hs1). apply Forall_app. split; [done|].
  destruct (fr_side f) eqn:Es; [|constructor]. unfold goes in Hf. rewrite Es in Hf.
  symmetry in Hf. apply negb_true_iff in Hf.
  apply Forall_app in HP2 as [HPo HPf]. apply Forall_cons in HPf as [Pf _].
  apply StronglySorted_app in Hs2 as (Hso & _ & _).
  apply Forall_app. split; [|by constructor]. rewrite Forall_forall in HPo |- *. intros y Hy.
  eapply not_less_trans; [| |exact Px| |exact Hf]; [by apply HPo|exact Pf|].
  apply (Hso y (fr_p f, fr_k f)); [done|left].
Qed.

Lemma rights_after x ctx :
  P x -> Forall (goes x) ctx -> Forall P (rights ctx) ->
  StronglySorted not_after (rights ctx) -> Forall (fun y => less x y = true) (rights ctx).
Proof.
  intros Px. induction ctx as [|f ctx IH]; cbn [rights]; intros Hg HP Hs; [constructor|].
  apply Forall_cons in Hg as [Hf Hg]. apply Forall_app in HP as [HP1 HP2].
  apply StronglySorted_app in Hs as (Hs & Hs1 & Hs2).
  assert (IH' := IH Hg HP2 Hs2). apply Forall_app. split; [|done].
  destruct (fr_side f) eqn:Es; [constructor|]. unfold goes in Hf. rewrite Es in Hf.
  symmetry in Hf. apply negb_false_iff in Hf. apply Forall_cons in HP1 as [Pf HPo].
  apply StronglySorted_inv in Hs1 as [_ Hso].
  constructor; [done|]. rewrite Forall_forall in HPo, Hso |- *. intros y Hy.
  apply not_false_iff_true. intros Hxy.
  rewrite (not_less_trans (fr_p f, fr_k f) y x Pf (HPo y Hy) Px (Hso y Hy) Hxy) in Hf. done.
Qed.

(** Insertion into a sorted list, after the equal nodes. *)
Fixpoint ordered_insert (x : Z * Z) (L : list (Z * Z)) : list (Z * Z) :=
  match L with
  | [] => [x]
  | y :: L' => if less x y then x :: L else y :: ordered_insert x L'
  end.

Lemma ordered_insert_split x L1 L2 :
  Forall (fun y => less x y = false) L1 -> Forall (fun y => less x y = true) L2 ->
  ordered_insert x (L1 ++ L2) = L1 ++ x :: L2.
Proof.
  induction 1 as [|y L1 Hy _ IH]; intros H2; cbn.
  - destruct H2 as [|y L2 Hy _]; cbn; [done|]. by rewrite Hy.
  - rewrite Hy. f_equal. by apply IH.
Qed.

(** Putting a node where it is led to is insertion into the list. *)
Lemma placed_inorder a k ctx :
  P (a, k) -> Forall (goes (a, k)) ctx -> Forall P (inorder (plug ctx E)) ->
  StronglySorted not_after (inorder (plug ctx E)) ->
  inorder (plug ctx (T true E a k E)) = ordered_insert (a, k) (inorder (plug ctx E)) /\
  StronglySorted not_after (inorder (plug ctx (T true E a k E))).
Proof.
  rewrite !inorder_ctx. cbn [inorder app]. intros Px Hg HP Hs. apply Forall_app in HP as [HPl HPr].
  apply StronglySorted_app in Hs as (Hlr & Hl & Hr).
  pose proof (lefts_before (a, k) ctx Px Hg HPl Hl) as Hbefore.
  pose proof (rights_after (a, k) ctx Px Hg HPr Hr) as Hafter.
  split; [by rewrite ordered_insert_split|].
  apply StronglySorted_app. split_and!; [|done|].
  - intros x y Hx [->|Hy]%elem_of_cons; [by rewrite Forall_forall in Hbefore; apply Hbefore|by apply Hlr].
  - constructor; [done|]. rewrite Forall_forall in Hafter, HPr |- *. intros x Hx.
    apply less_asym; [done|by apply HPr|by apply Hafter].
Qed.
End Place.

(** ** The walk down *)

Lemma length_cells s par t : length (cells s par t) = length (inorder t).
Proof.
  revert par; induction t as [|c l IHl p k r IHr]; intros par; [done|]. cbn [cells inorder].
  rewrite !length_app. cbn [length]. rewrite length_app, IHl, IHr. lia.
Qed.

Section Walk.
Context (s : Z) (sn : rb_node) (rp : Z) (less : Z * Z -> Z * Z -> bool).

Lemma wp_descend fuel ctx c l p k r a na R Q st :
  at_tree s sn rp (plug ctx (T c l p k r)) ((a, na) :: R) st ->
  (length (inorder (T c l p k r)) <= fuel)%nat -> Forall (goes less (a, rb_key na)) ctx ->
  (forall f ctx', plug (f :: ctx') E = plug ctx (T c l p k r) ->
     Forall (goes less (a, rb_key na)) (f :: ctx') -> Q (fr_p f, fr_side f) st) ->
  wp (rb_descend less fuel p a) Q st.
Proof.
  revert ctx c l p k r; induction fuel as [|fuel IH]; intros ctx c l p k r H Hfuel Hg HQ;
    cbn [inorder] in Hfuel; rewrite length_app in Hfuel; cbn [length] in Hfuel; [lia|].
  cbn [rb_descend]. apply wp_bind, (wp_get_sentinel _ _ _ _ _ H).
  assert (Ha : (a, na) ∈ (s, sn) :: cells s rp (plug ctx (T c l p k r)) ++ (a, na) :: R).
  { right. apply elem_of_app. right. left. }
  apply wp_bind, (wp_rd _ _ _ rb_key a na _ _ H Ha).
  apply wp_bind, (wp_rd_node s sn rp _ ctx false c l p k r _ _ _ H). cbn [mk_node rb_key].
  set (side := negb (less (a, rb_key na) (p, k))).
  apply wp_bind, (wp_rd_node s sn rp _ ctx false c l p k r _ _ _ H). cbv zeta.
  set (x := if side then r else l). set (y := if side then l else r).
  replace (rb_child side _) with (ptr s x) by (by subst x; destruct side).
  pose (f := {| fr_side := side; fr_red := c; fr_p := p; fr_k := k; fr_other := y |}).
  assert (Hf : plug (f :: ctx) x = plug ctx (T c l p k r)).
  { cbn [plug]. f_equal. unfold plug_frame. cbn. subst x y. by destruct side. }
  assert (Hg' : Forall (goes less (a, rb_key na)) (f :: ctx)) by (by constructor).
  assert (Hx : (length (inorder x) <= fuel)%nat) by (subst x; destruct side; lia).
  rewrite <- Hf in H, HQ. destruct x as [|c' l' p' k' r'].
  - cbn [ptr]. rewrite Z.eqb_refl. apply wp_ret. by apply (HQ f ctx).
  - cbn [ptr]. rewrite (proj2 (Z.eqb_neq _ _) (hole_ne_sentinel s sn rp (f :: ctx) false c' l' p' k' r' _ st H)).
    by eapply (IH (f :: ctx)).
Qed.

(** The new node becomes a red leaf. *)
Lemma wp_insert_leaf c l p k r a na R Q st :
  at_tree s sn rp (T c l p k r) ((a, na) :: R) st ->
  (forall st' ctx, at_tree s sn rp (plug ctx (T true E a (rb_key na) E)) R st' ->
     plug ctx E = T c l p k r -> Forall (goes less (a, rb_key na)) ctx -> Q tt st') ->
  wp (rb_insert_leaf less p a) Q st.
Proof.
  intros H HQ. unfold rb_insert_leaf.
  apply wp_bind, (wp_get_sentinel _ _ _ _ _ H).
  apply wp_bind, (wp_nodes _ _ _ _ _ H). intros n Hn. apply wp_bind.
  apply (wp_descend (S n) [] c l p k r a na R _ st H); [|constructor|].
  { cbn [length] in Hn. rewrite length_app, length_cells in Hn. lia. }
  intros f ctx Ef Hg. cbn [plug] in Ef.
  assert (Hown : own s (ptr s (plug (f :: ctx) E))
    ((fr_p f, mk_node (fr_side f) (fr_red f) s (fr_k f) (ptr s (fr_other f)) (ctx_parent rp ctx)) :: (a, na) ::
     (s, sn) :: cells s (fr_p f) (fr_other f) ++ ctx_cells s rp ctx (fr_p f) ++ R) st).
  { cbn [plug]. rewrite Ef. eapply own_perm; [|exact H]. rewrite <- Ef.
    rewrite (cells_plug s rp (f :: ctx) E : cells s rp (plug ctx (plug_frame f E)) ≡ₚ _).
    cbn [cells ctx_cells app ptr]. solve_Permutation. }
  clear H. rename Hown into H.
  rewrite (ptr_plug_cons s f ctx E (T true E a (rb_key na) E)) in H.
  assert (Hend : forall st', own s (ptr s (plug (f :: ctx) (T true E a (rb_key na) E)))
    ((fr_p f, mk_node (fr_side f) (fr_red f) a (fr_k f) (ptr s (fr_other f)) (ctx_parent rp ctx)) ::
     (a, mk_node false true s (rb_key na) s (fr_p f)) ::
     (s, sn) :: cells s (fr_p f) (fr_other f) ++ ctx_cells s rp ctx (fr_p f) ++ R) st' -> Q tt st').
  { intros st' H'. apply (HQ st' (f :: ctx)); [|done..]. unfold at_tree. eapply own_perm; [|exact H'].
    rewrite cells_plug. cbn [cells ctx_cells ctx_parent app ptr]. solve_Permutation. }
  clear HQ Ef Hg. destruct f as [fs fc fp fk fo], na as [ak al ar ap ac]. unfold mk_node in *.
  cbn [fr_side fr_red fr_p fr_k fr_other rb_key] in *.
  destruct fs; repeat wp_step H; apply Hend; (eapply own_perm; [|exact H]); solve_Permutation.
Qed.
End Walk.

(** ** Insertion *)

Lemma ok_unplug ctx t : balanced (plug ctx t) -> exists h, ctx_ok ctx h /\ ok t h /\ fits ctx t.
Proof.
  revert t; induction ctx as [|f ctx IH]; intros t; cbn [plug].
  - intros [Hc [h Hh]]. by exists h.
  - intros (h & Hc & Ht & Hf)%IH. unfold plug_frame in *. rewrite ok_node in Ht. cbn [ctx_ok fits].
    destruct (fr_red f) eqn:Er.
    + destruct Ht as (C1 & C2 & H1 & H2). exists h. split_and!; try done. destruct ctx as [|g ctx]; cbn in Hf;
        rewrite color_node in Hf; [done|]. destruct (fr_red g); [by specialize (Hf eq_refl)|done].
    + destruct h as [|h]; [done|]. destruct Ht as [H1 H2]. exists h. by split_and!.
Qed.

Lemma ctx_length ctx t : (length ctx <= length (inorder (plug ctx t)))%nat.
Proof.
  rewrite inorder_ctx, !length_app. induction ctx as [|f ctx IH]; cbn [lefts rights]; [cbn; lia|].
  rewrite !length_app. destruct (fr_side f); cbn [length]; rewrite ?length_app; cbn [length]; lia.
Qed.

(** The memory holds a balanced tree with the nodes [L] in the order of
    [less], its sentinel at [s], and the other cells [R]. *)
Definition represents (less : Z * Z -> Z * Z -> bool) (s : Z) (L : list (Z * Z)) (R : list (Z * rb_node)) (st : rb_tree) : Prop :=
  exists sn rp t, at_tree s sn rp t R st /\ rb_red sn = false /\ balanced t /\ inorder t = L /\
    StronglySorted (not_after less) L.

Lemma wp_insert_empty less s sn rp a na R Q st :
  at_tree s sn rp E ((a, na) :: R) st ->
  (forall st', at_tree s sn 0 (T false E a (rb_key na) E) R st' -> Q tt st') ->
  wp (ngx_rbtree_insert (rb_insert_leaf less) a) Q st.
Proof.
  unfold at_tree. cbn [cells app ptr]. intros H HQ. unfold ngx_rbtree_insert. do 4 wp_step H. rewrite Z.eqb_refl.
  destruct na as [ak al ar ap ac]. cbn [rb_key] in *.
  repeat wp_step H. apply HQ. eapply own_perm; [|exact H]. unfold mk_node. solve_Permutation.
Qed.

Lemma rb_insert_outcome less P `{!KeyOrder less P} s L R a na st :
  represents less s L ((a, na) :: R) st -> Forall P L -> P (a, rb_key na) ->
  wp (ngx_rbtree_insert (rb_insert_leaf less) a)
    (fun _ st' => represents less s (ordered_insert less (a, rb_key na) L) R st') st.
Proof.
  intros (sn & rp & t & H & Hsn & Hbal & <- & Hs) HP Pk. destruct t as [|c l p k r].
  { apply (wp_insert_empty less s sn rp a na R _ st H). intros st' H'.
    exists sn, 0, (T false E a (rb_key na) E). split_and!; try done; [split; [done|by exists 1%nat]|].
    cbn. repeat constructor. }
  unfold ngx_rbtree_insert. apply wp_bind, (wp_get_root _ _ _ _ _ H).
  apply wp_bind, (wp_get_sentinel _ _ _ _ _ H). cbn [ptr].
  rewrite (proj2 (Z.eqb_neq _ _) (hole_ne_sentinel s sn rp [] false c l p k r _ st H)).
  apply wp_bind, (wp_insert_leaf s sn rp less c l p k r a na R _ st H). clear H st. intros st ctx H Ec Hg.
  rewrite <- Ec in *. clear Ec c l p k r.
  destruct (placed_inorder less P a (rb_key na) ctx Pk Hg HP Hs) as [Hio Hsort].
  apply wp_bind, (wp_nodes _ _ _ _ _ H). intros n Hn. apply wp_bind.
  destruct (ok_unplug ctx E Hbal) as (h & Hctx & Hh & _).
  apply (wp_insert_fix s sn rp R Hsn (S n) ctx E a (rb_key na) E h _ st H); try done.
  { cbn [length] in Hn. rewrite length_app, length_cells in Hn.
    pose proof (ctx_length ctx (T true E a (rb_key na) E)). lia. }
  clear H st. intros st t H Hio' Hpaint. apply wp_bind, (wp_get_root _ _ _ _ _ H).
  rewrite Hio in Hio'. rewrite Hio in Hsort. destruct t as [|c l p k r].
  { exfalso. cbn in Hio'. destruct (inorder (plug ctx E)); cbn in Hio'; [done|]. by destruct (less _ _). }
  apply (wp_set_red s sn rp false [] false c l p k r R _ st H). clear H st. intros st H.
  by exists sn, rp, (T false l p k r).
Qed.

(** ** Trees and their lists *)

Lemma represents_perm less s L R R' st : R ≡ₚ R' -> represents less s L R st -> represents less s L R' st.
Proof.
  intros HR (sn & rp & t & H & Hrest). exists sn, rp, t. split; [|done]. unfold at_tree in *. by rewrite HR in H.
Qed.

Lemma represents_nodup less s L R st : represents less s L R st -> NoDup (map fst L ++ map fst R).
Proof.
  intros (sn & rp & t & H & _ & _ & <- & _). apply own_nodup in H. cbn [map fst] in H. apply NoDup_cons in H as [_ H].
  rewrite map_app in H. assert (Hp : map fst (inorder t) ≡ₚ map fst (cells s rp t)).
  { clear H. revert rp. induction t as [|c l IHl p k r IHr]; intros rp'; [done|]. cbn [inorder cells map fst].
    rewrite !map_app. cbn [map fst]. rewrite (IHl p), (IHr p). solve_Permutation. }
  by rewrite Hp.
Qed.

Lemma ordered_insert_perm less x L : ordered_insert less x L ≡ₚ x :: L.
Proof.
  induction L as [|y L IH]; cbn; [done|]. destruct (less _ _); [done|]. rewrite IH. apply Permutation_swap.
Qed.

Lemma wp_set_key less s key a n L R Q st :
  represents less s L ((a, n) :: R) st ->
  (forall st', represents less s L ((a, {| n with rb_key := key |}) :: R) st' -> Q tt st') ->
  wp (wr (fun n => {| n with rb_key := key |}) a) Q st.
Proof.
  intros (sn & rp & t & H & Hrest) HQ.
  apply (wp_wr _ _ _ _ a n ((s, sn) :: cells s rp t ++ R) _ _ H); [solve_Permutation|]. intros st' H'.
  apply HQ. exists sn, rp, t. split; [|done]. eapply own_perm; [|exact H']. solve_Permutation.
Qed.

(** C22: Insertion into a red-black tree succeeds on every balanced tree in
    memory, keeps it balanced (the root black, no red node with a red child,
    as many black nodes on every path down), with the same sentinel, and its
    nodes in order are those of before with the new one after the last that is
    not greater, so that equal keys stay in the order of their arrival; no
    other cell of the memory is used.  [less] is the comparison that
    [tree->insert] makes, which needs to be an order only on the nodes there:
    the timers compare by the sign of a wrapping difference. *)
Theorem rb_insert_correct less P `{!KeyOrder less P} s L R a na st :
  represents less s L ((a, na) :: R) st -> Forall P L -> P (a, rb_key na) ->
  exists st', ngx_rbtree_insert (rb_insert_leaf less) a st = Some (tt, st') /\
    represents less s (ordered_insert less (a, rb_key na) L) R st'.
Proof.
  intros H HP Pk. destruct (wp_some _ _ _ (rb_insert_outcome less P s L R a na st H HP Pk)) as ([] & st' & E' & H').
  by exists st'.
Qed.
