(* ===== verification/NgxRbtreeDelete.v ===== *)
(** * Deletion from a red-black tree

    [ngx_rbtree_delete] of src/nginx-1.4.7/src/core/ngx_rbtree.c takes a node
    out of the tree and restores the balance. *)
From stdpp Require Import gmap list_tactics sorting.
From S2P Require Import Prelude NgxRbtree NgxRbtreeLogic NgxRbtreeInsert.

Section Fixup.
Context (s : Z) (sn : rb_node) (rp : Z) (R : list (Z * rb_node)).
Hypothesis sentinel_black : rb_red sn = false.

(** The sentinel stands for the tree in the hole when that is empty, with the
    parent of the hole as its own. *)
Definition parented (ctx : list frame) (t : rbt) : Prop := t = E -> rb_parent sn = ctx_parent rp ctx.

Lemma wp_hole_parent ctx t Q st :
  at_tree s sn rp (plug ctx t) R st -> parented ctx t -> Q (ctx_parent rp ctx) st ->
  wp (rd rb_parent (ptr s t)) Q st.
Proof.
  intros H Hp HQ. destruct t as [|c l p k r].
  - eapply wp_rd; [exact H|left|]. by rewrite Hp.
  - by apply (wp_rd_node s sn rp _ ctx false c l p k r R _ _ H).
Qed.

Lemma wp_hole_red ctx t Q st :
  at_tree s sn rp (plug ctx t) R st -> Q (color t) st -> wp (ngx_rbt_is_red (ptr s t)) Q st.
Proof.
  intros H HQ. destruct t as [|c l p k r].
  - eapply wp_rd; [exact H|left|]. by rewrite sentinel_black.
  - by apply (wp_rd_node s sn rp _ ctx false c l p k r R _ _ H).
Qed.

Lemma wp_hole_black ctx t Q st :
  at_tree s sn rp (plug ctx t) R st -> (forall st', at_tree s sn rp (plug ctx (paint t)) R st' -> Q tt st') ->
  wp (ngx_rbt_black (ptr s t)) Q st.
Proof.
  intros H HQ. destruct t as [|c l p k r].
  - unfold at_tree in H. unfold ngx_rbt_black, set_red. cbn [ptr].
    eapply wp_wr; [exact H|reflexivity|]. intros st' H'. apply HQ. unfold at_tree. cbn [paint].
    destruct sn as [sk sl sr sp sc]. cbn in sentinel_black. subst sc. exact H'.
  - exact (wp_set_red s sn rp false ctx false c l p k r R _ _ H HQ).
Qed.

(** The sibling in the hole. *)
Lemma plug_sibling ctx d c t P kf w :
  plug ctx (node d c t P kf w) =
  plug ({| fr_side := negb d; fr_red := c; fr_p := P; fr_k := kf; fr_other := t |} :: ctx) w.
Proof. cbn [plug]. f_equal. apply node_swap. Qed.

(** The last round: the sibling takes the place of the parent. *)
Lemma wp_delete_last ctx d c t P kf wn W kw wf Q st :
  let f := {| fr_side := d; fr_red := c; fr_p := P; fr_k := kf; fr_other := node d false wn W kw wf |} in
  at_tree s sn rp (plug (f :: ctx) t) R st -> parented (f :: ctx) t -> color wf = true ->
  (forall st' t', t' = plug ctx (node d c (node d false t P kf wn) W kw (paint wf)) ->
     at_tree s sn rp t' R st' -> Q (ptr s t') st') ->
  wp (rb_delete_last d (ptr s t) W) Q st.
Proof.
  intros f H Hp Hwf HQ. unfold rb_delete_last.
  apply wp_bind, (wp_hole_parent _ _ _ _ H Hp). cbn [ctx_parent f fr_p].
  apply wp_bind, (wp_rd_node s sn rp _ ctx d c t P kf _ R _ _ H). cbn [mk_node rb_red].
  pose proof (fun c w => plug_sibling ctx d c t P kf w) as Hswap.
  change (at_tree s sn rp (plug ctx (node d c t P kf (node d false wn W kw wf))) R st) in H.
  rewrite Hswap in H. apply wp_bind, (wp_set_red s sn rp c _ d false wn W kw wf R _ _ H). clear H st. intros st H.
  rewrite <- Hswap in H.
  pose (f1 w := {| fr_side := d; fr_red := c; fr_p := P; fr_k := kf; fr_other := w |}).
  apply wp_bind, (wp_hole_parent (f1 (node d c wn W kw wf) :: ctx) t _ _ H Hp). cbn [ctx_parent f1 fr_p].
  apply wp_bind, (wp_set_red s sn rp false ctx d c t P kf _ R _ _ H). clear H st. intros st H.
  rewrite Hswap in H.
  apply wp_bind, (wp_rd_node s sn rp _ _ d c wn W kw wf R _ _ H).
  replace (rb_child (negb d) _) with (ptr s wf) by (by destruct d).
  set (g := {| fr_side := negb d; fr_red := false; fr_p := P; fr_k := kf; fr_other := t |}) in *.
  rewrite (plug_sibling (g :: ctx)) in H. apply wp_bind, (wp_hole_black _ _ _ _ H). clear H st. intros st H.
  rewrite <- plug_sibling in H. subst g. rewrite <- Hswap in H.
  pose (f2 := {| fr_side := d; fr_red := false; fr_p := P; fr_k := kf; fr_other := node d c wn W kw (paint wf) |}).
  apply wp_bind, (wp_hole_parent (f2 :: ctx) t _ _ H Hp). cbn [ctx_parent f2 fr_p].
  rewrite (node_swap d c), (node_swap d false t) in H.
  apply wp_bind, (wp_rotate s sn rp ctx (negb d) false c P kf W kw t wn (paint wf) R _ _ H).
  clear H st. intros st H. apply (wp_get_root _ _ _ _ _ H).
  eapply HQ; [|exact H]. unfold rot_after. rewrite (node_swap d c), (node_swap d false t). done.
Qed.

Lemma wp_children_red ctx d c wn W kw wf Q st :
  at_tree s sn rp (plug ctx (node d c wn W kw wf)) R st -> Q (color wn || color wf) st ->
  wp (l <- rd rb_left W ;; lred <- ngx_rbt_is_red l ;;
      if lred : bool then ret true else r <- rd rb_right W ;; ngx_rbt_is_red r) Q st.
Proof.
  assert (Hall : forall l r, at_tree s sn rp (plug ctx (T c l W kw r)) R st -> Q (color l || color r) st ->
    wp (l <- rd rb_left W ;; lred <- ngx_rbt_is_red l ;;
      if lred : bool then ret true else r <- rd rb_right W ;; ngx_rbt_is_red r) Q st).
  { intros l r H HQ. apply wp_bind, (wp_rd_node s sn rp _ ctx false c l W kw r R _ _ H). cbn [mk_node rb_left].
    pose (f d x := {| fr_side := d; fr_red := c; fr_p := W; fr_k := kw; fr_other := x |}).
    apply wp_bind, (wp_hole_red (f false r :: ctx) l _ _ H). destruct (color l); [by apply wp_ret|].
    apply wp_bind, (wp_rd_node s sn rp _ ctx false c l W kw r R _ _ H). cbn [mk_node rb_right].
    by apply (wp_hole_red (f true l :: ctx) r _ _ H). }
  destruct d; intros H HQ; (eapply Hall; [exact H|]); [by rewrite orb_comm|done].
Qed.

(** The sibling's red child is turned to the far side. *)
Lemma wp_turn ctx f nn N kn nf W kw wf Q st t :
  let d := fr_side f in
  let near := node d true nn N kn nf in
  fr_other f = node d false near W kw wf ->
  at_tree s sn rp (plug (f :: ctx) t) R st -> parented (f :: ctx) t ->
  (forall st', at_tree s sn rp (plug ctx (node d (fr_red f) t (fr_p f) (fr_k f)
     (node d false nn N kn (node d true nf W kw wf)))) R st' -> Q N st') ->
  wp (near <- rd (rb_child d) W ;; ngx_rbt_black near ;;; ngx_rbt_red W ;;; rotate d W ;;;
      p <- rd rb_parent (ptr s t) ;; rd (rb_child (negb d)) p) Q st.
Proof.
  intros d near Hf H Hp HQ. destruct f as [fd c P kf w]. cbn in d, Hf. subst w.
  cbn [fr_side fr_red fr_p fr_k] in HQ. subst d.
  change (at_tree s sn rp (plug ctx (node fd c t P kf (node fd false near W kw wf))) R st) in H.
  rewrite plug_sibling in H. set (g := {| fr_side := negb fd; fr_other := t |}) in *.
  apply wp_bind, (wp_rd_node s sn rp _ _ fd false near W kw wf R _ _ H).
  replace (rb_child fd _) with N by (by subst near; destruct fd).
  pose (h := {| fr_side := fd; fr_red := false; fr_p := W; fr_k := kw; fr_other := wf |}).
  apply wp_bind, (wp_set_red s sn rp false (h :: g :: ctx) fd true nn N kn nf R _ _ H). clear H st. intros st H.
  apply wp_bind, (wp_set_red s sn rp true (g :: ctx) fd false _ W kw wf R _ _ H). clear H st. intros st H.
  apply wp_bind, (wp_rotate s sn rp (g :: ctx) fd true false W kw N kn wf nf nn R _ _ H). clear H st. intros st H.
  unfold rot_after in H. subst g. rewrite <- (plug_sibling ctx) in H.
  set (w := node fd false nn N kn (node fd true nf W kw wf)) in *.
  pose (f1 := {| fr_side := fd; fr_red := c; fr_p := P; fr_k := kf; fr_other := w |}).
  apply wp_bind, (wp_hole_parent (f1 :: ctx) t _ _ H Hp). cbn [ctx_parent f1 fr_p].
  apply (wp_rd_node s sn rp _ ctx fd c t P kf w R _ _ H).
  replace (rb_child (negb fd) _) with N by (by subst w; destruct fd). by apply HQ.
Qed.

Lemma ok_paint t h : ok t h -> color t = true -> ok (paint t) (S h).
Proof. destruct t as [|[] l p k r]; try done. cbn. tauto. Qed.

Lemma inorder_node d c x p k y :
  inorder (node d c x p k y) = if d then inorder y ++ (p, k) :: inorder x else inorder x ++ (p, k) :: inorder y.
Proof. by destruct d. Qed.

Lemma inorder_paint_tree t : inorder (paint t) = inorder t.
Proof. by destruct t. Qed.

(** A black sibling: its color passes to the parent, or the subtree is whole
    again. *)
Lemma wp_delete_black ctx d c t P kf wn W kw wf h Q st :
  let f := {| fr_side := d; fr_red := c; fr_p := P; fr_k := kf; fr_other := node d false wn W kw wf |} in
  at_tree s sn rp (plug (f :: ctx) t) R st -> parented (f :: ctx) t ->
  ok t h -> ok wn h -> ok wf h ->
  (forall st', at_tree s sn rp (plug ctx (node d c t P kf (node d true wn W kw wf))) R st' ->
     ok (node d true wn W kw wf) h -> Q P st') ->
  (forall st' t1, at_tree s sn rp (plug ctx t1) R st' -> inorder t1 = inorder (plug_frame f t) ->
     ok t1 (if c then S h else S (S h)) -> color t1 = c -> Q (ptr s (plug ctx t1)) st') ->
  wp (rb_delete_black d (ptr s t) W) Q st.
Proof.
  intros f H Hp Ht Hn Hf HA HB. unfold rb_delete_black.
  pose proof (plug_sibling ctx d c t P kf (node d false wn W kw wf) : plug (f :: ctx) t = _) as Hswap.
  assert (H' := H). rewrite Hswap in H'. set (g := {| fr_side := negb d; fr_other := t |}) in *.
  apply wp_bind, (wp_children_red _ d false wn W kw wf _ _ H').
  destruct (color wn || color wf) eqn:Er; cbn [negb].
  2:{ apply orb_false_iff in Er as [En Ef].
      apply wp_bind, (wp_set_red s sn rp true _ d false wn W kw wf R _ _ H').
      clear H H' st. intros st H. subst g. rewrite <- plug_sibling in H.
      pose (f1 := {| fr_side := d; fr_red := c; fr_p := P; fr_k := kf; fr_other := node d true wn W kw wf |}).
      apply (wp_hole_parent (f1 :: ctx) t _ _ H Hp). apply (HA _ H). apply ok_node. done. }
  apply wp_bind, (wp_rd_node s sn rp _ _ d false wn W kw wf R _ _ H').
  replace (rb_child (negb d) _) with (ptr s wf) by (by destruct d).
  assert (H2 := H'). rewrite (plug_sibling (g :: ctx)) in H2. apply wp_bind, (wp_hole_red _ _ _ _ H2). clear H2.
  destruct (color wf) eqn:Ef; cbn [negb].
  - apply wp_bind, wp_ret. apply (wp_delete_last ctx d c t P kf wn W kw wf _ _ H Hp Ef).
    clear H H' st. intros st t1 -> H. apply (HB _ _ H).
    + unfold f, plug_frame. cbn. rewrite !inorder_node, inorder_paint_tree. destruct d; by rewrite <- ?app_assoc.
    + pose proof (ok_paint wf h Hf Ef). destruct c; apply ok_node; rewrite ?color_node, ok_node; split_and!; try done.
      destruct wf; done.
    + apply color_node.
  - rewrite orb_false_r in Er.
    assert (exists nn N kn nf, wn = node d true nn N kn nf /\ ok nn h /\ ok nf h /\ color nf = false)
      as (nn & N & kn & nf & -> & Hnn & Hnf & Cnf).
    { destruct wn as [|[] l N kn r]; try done. destruct Hn as (? & ? & ? & ?).
      exists (if d then r else l), N, kn, (if d then l else r). by destruct d. }
    apply wp_bind, (wp_turn ctx f nn N kn nf W kw wf _ _ t eq_refl H Hp).
    clear H H' st. intros st H.
    apply (wp_delete_last ctx d c t P kf nn N kn (node d true nf W kw wf) _ _ H Hp); [apply color_node|].
    clear H st. intros st t1 -> H. apply (HB _ _ H).
    + unfold f, plug_frame. cbn. rewrite !inorder_node, inorder_paint_tree, !inorder_node.
      destruct d; by repeat (rewrite <- ?app_assoc; cbn [app]).
    + assert (Hfar : ok (paint (node d true nf W kw wf)) (S h)).
      { apply ok_paint; [by apply ok_node|apply color_node]. }
      destruct c; apply ok_node; rewrite ?color_node, ok_node; split_and!; try done. by destruct d.
    + apply color_node.
Qed.

(** The tree in the hole has one black node too few on its paths: a red root
    will be painted black. *)
Definition short (t : rbt) (h : nat) : Prop := if color t then ok (paint t) (S h) else ok t h.

Lemma wp_fixup_stop fuel ctx t h Q st :
  at_tree s sn rp (plug ctx t) R st -> ctx = [] \/ color t = true -> short t h -> ctx_ok ctx (S h) ->
  (forall st' t', at_tree s sn rp t' R st' -> inorder t' = inorder (plug ctx t) -> balanced t' -> Q tt st') ->
  wp (rb_delete_fix (S fuel) (ptr s t)) Q st.
Proof.
  intros H Hstop Hs Hc HQ. cbn [rb_delete_fix]. apply wp_bind, (wp_get_root _ _ _ _ _ H).
  assert (Hend : wp (ngx_rbt_black (ptr s t)) Q st).
  { apply (wp_hole_black _ _ _ _ H). clear H st. intros st H. eapply HQ; [exact H| |].
    - apply inorder_plug, inorder_paint_tree.
    - unfold short in Hs. destruct (color t) eqn:Ct.
      + eapply ok_plug; [exact Hc|exact Hs|]. destruct ctx; cbn; by destruct t.
      + destruct Hstop as [->|]; [|done]. apply balanced_paint. split; [done|by exists h]. }
  destruct (ptr s t =? ptr s (plug ctx t)) eqn:Eq; [by apply wp_bind, wp_ret|].
  destruct Hstop as [->|Ct]; [cbn in Eq; by rewrite Z.eqb_refl in Eq|].
  apply wp_bind, (wp_hole_red _ _ _ _ H). by rewrite Ct.
Qed.

(** The side of the tree in the hole, from the pointers of its parent. *)
Lemma hole_side ctx f t wl W kw wr_ R' st c :
  at_tree s sn rp (plug (f :: ctx) t) R' st -> fr_other f = T c wl W kw wr_ ->
  negb (ptr s t =? (if fr_side f then ptr s (fr_other f) else ptr s t)) = fr_side f.
Proof.
  intros H Ef. destruct (fr_side f) eqn:Es; [|by rewrite Z.eqb_refl]. rewrite Ef. cbn [ptr].
  rewrite plug_other, Ef in H.
  pose proof (hole_ne_other s sn rp ctx _ false c wl W kw wr_ R' st H) as Hne. cbn [fr_other] in Hne.
  rewrite Z.eqb_sym. by rewrite (proj2 (Z.eqb_neq _ _) Hne).
Qed.

(** What a round leaves: the hole moves up, or it is at the root, or the tree in
    it is red. *)
Definition round_post (f : frame) (ctx : list frame) (t : rbt) (m : bool) (Q : Z -> rb_tree -> Prop) : Prop :=
  forall st' ctx' t1 h', at_tree s sn rp (plug ctx' t1) R st' -> t1 <> E -> short t1 h' -> ctx_ok ctx' (S h') ->
    inorder (plug ctx' t1) = inorder (plug (f :: ctx) t) ->
    ((length ctx' <= length ctx)%nat /\ (m = true -> ctx' = [] \/ color t1 = true)) -> Q (ptr s t1) st'.

Lemma wp_round_black ctx f t wn W kw wf h Q st :
  fr_other f = node (fr_side f) false wn W kw wf ->
  at_tree s sn rp (plug (f :: ctx) t) R st -> parented (f :: ctx) t -> ok t h -> ctx_ok (f :: ctx) (S h) ->
  round_post f ctx t (fr_red f) Q -> wp (rb_delete_black (fr_side f) (ptr s t) W) Q st.
Proof.
  destruct f as [d c P kf w]. cbn [fr_side fr_red fr_other]. intros -> H Hp Ht [Hw Hc] HQ.
  cbn [fr_other fr_red] in Hw, Hc. apply ok_node in Hw as [Hn Hf].
  apply (wp_delete_black ctx d c t P kf wn W kw wf h Q st H Hp Ht Hn Hf).
  - clear H st. intros st H Hw. rewrite <- (ptr_node s d c t P kf (node d true wn W kw wf)).
    eapply (HQ st ctx _ (if c then h else S h) H).
    + by destruct d.
    + unfold short. rewrite color_node. destruct c.
      * destruct d; by split.
      * by apply ok_node.
    + destruct c; [by destruct Hc as (_ & _ & Hc)|done].
    + cbn [plug]. apply (inorder_plug ctx). unfold plug_frame. cbn. by rewrite !inorder_node.
    + split; [done|]. intros ->. right. apply color_node.
  - clear H st. intros st t1 H Hio Hok Hcol.
    assert (Hb : balanced (plug ctx t1)).
    { destruct c; [destruct Hc as (_ & Hg & Hc)|]; (eapply ok_plug; [exact Hc|exact Hok|]).
      - by destruct ctx as [|g ctx]; [|cbn; congruence].
      - by destruct ctx; cbn; rewrite Hcol. }
    assert (Hio' : inorder (plug ctx t1) = inorder (plug ctx (plug_frame
      {| fr_side := d; fr_red := c; fr_p := P; fr_k := kf; fr_other := node d false wn W kw wf |} t)))
      by (by apply inorder_plug).
    destruct Hb as [Hcol' [h' Hh']].
    apply (HQ st [] (plug ctx t1) h'); cbn [length plug]; [done| | |done|done|split; [lia|by left]].
    + intros En. rewrite En in Hio'. rewrite inorder_ctx in Hio'. unfold plug_frame in Hio'. cbn in Hio'.
      rewrite inorder_node in Hio'. destruct d; cbn in Hio'; symmetry in Hio';
        apply app_eq_nil in Hio' as [_ Hio']; apply app_eq_nil in Hio' as [Hio' _]; by apply app_eq_nil in Hio' as [_ ?].
    + unfold short. by rewrite Hcol'.
Qed.

Lemma other_node d w h :
  ok w (S h) -> exists wn W kw wf, w = node d (color w) wn W kw wf /\
    if color w then color wn = false /\ ok wn (S h) /\ ok wf (S h) else ok wn h /\ ok wf h.
Proof.
  destruct w as [|c l W kw r]; [done|]. intros Hw.
  exists (if d then r else l), W, kw, (if d then l else r). split; [by destruct d|].
  cbn [color]. destruct c; cbn in Hw; destruct d; tauto.
Qed.

Lemma wp_delete_case ctx f t h Q st :
  at_tree s sn rp (plug (f :: ctx) t) R st -> parented (f :: ctx) t -> ok t h -> ctx_ok (f :: ctx) (S h) ->
  (forall st' ctx' t1 h', at_tree s sn rp (plug ctx' t1) R st' -> t1 <> E -> short t1 h' -> ctx_ok ctx' (S h') ->
    inorder (plug ctx' t1) = inorder (plug (f :: ctx) t) ->
    (length ctx' <= length ctx)%nat \/ color t1 = true -> Q (ptr s t1) st') ->
  wp (rb_delete_case (fr_side f) (ptr s t)) Q st.
Proof.
  intros H Hp Ht Hc HQ. destruct (other_node (fr_side f) (fr_other f) h (proj1 Hc)) as (wn & W & kw & wf & Ew & Hw).
  destruct f as [d c P kf w]. cbn [fr_side fr_red fr_other fr_p fr_k] in *. unfold rb_delete_case.
  apply wp_bind, (wp_hole_parent _ _ _ _ H Hp). cbn [ctx_parent fr_p].
  apply wp_bind, (wp_rd_node s sn rp _ ctx d c t P kf w R _ _ H).
  replace (rb_child (negb d) _) with (ptr s w) by (by destruct d).
  assert (H' := H). rewrite plug_other in H'. cbn [fr_side fr_red fr_p fr_k fr_other] in H'.
  apply wp_bind, (wp_hole_red _ _ _ _ H'). destruct (color w) eqn:Cw; subst w; rewrite ptr_node.
  2:{ apply wp_bind, wp_ret. pose (f := {| fr_side := d; fr_red := c; fr_p := P; fr_k := kf; fr_other := node d false wn W kw wf |}).
      apply (wp_round_black ctx f t wn W kw wf h Q st eq_refl H Hp Ht Hc).
      intros st' ctx' t1 h' H1 H2 H3 H4 H5 [H6 _]. eapply HQ; by eauto. }
  destruct Hc as [Hok Hc]. cbn [fr_red fr_other] in Hc. rewrite color_node in Hc.
  destruct c; [by destruct Hc|]. destruct Hw as (Cn & Hn & Hf).
  apply wp_bind, wp_bind, (wp_set_red s sn rp false _ d true wn W kw wf R _ _ H').
  clear H H' st. intros st H. rewrite <- plug_sibling in H.
  pose (f1 c w := {| fr_side := d; fr_red := c; fr_p := P; fr_k := kf; fr_other := w |}).
  apply wp_bind, (wp_hole_parent (f1 false (node d false wn W kw wf) :: ctx) t _ _ H Hp). cbn [ctx_parent f1 fr_p].
  apply wp_bind, (wp_set_red s sn rp true ctx d false t P kf _ R _ _ H). clear H st. intros st H.
  apply wp_bind, (wp_hole_parent (f1 true (node d false wn W kw wf) :: ctx) t _ _ H Hp). cbn [ctx_parent f1 fr_p].
  rewrite (node_swap d false wn), (node_swap d true t) in H.
  apply wp_bind, (wp_rotate s sn rp ctx (negb d) true false P kf W kw t wn wf R _ _ H). clear H st. intros st H.
  unfold rot_after in H.
  pose (f2 := {| fr_side := d; fr_red := false; fr_p := W; fr_k := kw; fr_other := wf |}).
  rewrite <- (node_swap d true t), <- (node_swap d false) in H.
  change (at_tree s sn rp (plug (f1 true wn :: f2 :: ctx) t) R st) in H.
  apply wp_bind, (wp_hole_parent (f1 true wn :: f2 :: ctx) t _ _ H Hp). cbn [ctx_parent f1 fr_p].
  apply (wp_rd_node s sn rp _ (f2 :: ctx) d true t P kf wn R _ _ H).
  replace (rb_child (negb d) _) with (ptr s wn) by (by destruct d).
  destruct (other_node d wn h Hn) as (nn & N & kn & nf & En & _). rewrite Cn in En. rewrite En at 1. rewrite ptr_node.
  apply (wp_round_black (f2 :: ctx) (f1 true wn) t nn N kn nf h Q st En H Hp Ht).
  { by cbn; split_and!. }
  intros st' ctx' t1 h' H1 H2 H3 H4 H5 [H6 H7]. eapply HQ; eauto.
  - rewrite H5. cbn [plug]. apply (inorder_plug ctx). unfold plug_frame. cbn. rewrite !inorder_node.
    destruct d; by repeat (rewrite <- ?app_assoc; cbn [app]).
  - destruct (H7 eq_refl) as [->|]; [left; cbn; lia|by right].
Qed.

Lemma hole_not_root ctx f t st :
  at_tree s sn rp (plug (f :: ctx) t) R st -> ptr s t <> ptr s (plug (f :: ctx) t).
Proof.
  intros H. destruct t as [|c l p k r]; [|exact (hole_ne_root s sn rp ctx f false c l p k r R st H)].
  intros En. apply own_nodup in H. cbn [map fst] in H. apply NoDup_cons in H as [Hn _].
  apply Hn. cbn [ptr] in En. rewrite En at 1. apply list_elem_of_In. rewrite map_app. apply in_or_app. left.
  apply (Permutation_in (l := map fst (cells s (ctx_parent rp (f :: ctx)) E ++ ctx_cells s rp (f :: ctx) s)));
    [by rewrite <- (cells_plug s rp (f :: ctx) E)|]. apply ptr_plug_in.
Qed.

Lemma wp_delete_fix fuel ctx t h Q st :
  at_tree s sn rp (plug ctx t) R st -> parented ctx t -> short t h -> ctx_ok ctx (S h) ->
  (length ctx + 2 <= fuel)%nat ->
  (forall st' t', at_tree s sn rp t' R st' -> inorder t' = inorder (plug ctx t) -> balanced t' -> Q tt st') ->
  wp (rb_delete_fix fuel (ptr s t)) Q st.
Proof.
  revert ctx t h st; induction fuel as [|fuel IH]; intros ctx t h st H Hp Hs Hc Hfuel HQ; [lia|].
  destruct ctx as [|f ctx]; [eapply wp_fixup_stop; by eauto|].
  destruct (color t) eqn:Ct; [eapply wp_fixup_stop; by eauto|].
  unfold short in Hs. rewrite Ct in Hs. cbn [rb_delete_fix length] in *.
  apply wp_bind, (wp_get_root _ _ _ _ _ H).
  rewrite (proj2 (Z.eqb_neq _ _) (hole_not_root ctx f t st H)).
  apply wp_bind, (wp_hole_red _ _ _ _ H). rewrite Ct.
  apply wp_bind, (wp_hole_parent _ _ _ _ H Hp). cbn [ctx_parent].
  apply wp_bind, (wp_rd_node s sn rp _ ctx (fr_side f) (fr_red f) t (fr_p f) (fr_k f) (fr_other f) R _ _ H).
  cbn [mk_node rb_left].
  destruct (other_node false (fr_other f) h (proj1 Hc)) as (wl & W & kw & wr_ & Ew & _).
  rewrite (hole_side ctx f t wl W kw wr_ R st (color (fr_other f)) H Ew).
  apply wp_bind, (wp_delete_case ctx f t h _ _ H Hp Hs Hc). clear H st.
  intros st ctx' t1 h' H Hne Hs1 Hc1 Hio Hstep.
  destruct (color t1) eqn:Ct1.
  - destruct fuel as [|fuel]; [lia|]. eapply wp_fixup_stop; [exact H|by right|exact Hs1|exact Hc1|].
    intros st' t' H' Hio' Hb. eapply HQ; [exact H'|by rewrite Hio'|done].
  - destruct Hstep as [Hlen|]; [|done]. eapply (IH ctx' t1 h'); [exact H|by intros ?|exact Hs1|exact Hc1|lia|].
    intros st' t' H' Hio' Hb. eapply HQ; [exact H'|by rewrite Hio'|done].
Qed.
End Fixup.

(** ** Taking a node out *)

Section Splice.
Context (s : Z).

(** [temp->parent = q], where [temp] may be the sentinel. *)
Lemma wp_adopt sn root cs q0 y q cs' Q st :
  own s root cs st -> cs ≡ₚ cells s q0 y ++ (s, sn) :: cs' ->
  (forall st' sn', own s root (cells s q y ++ (s, sn') :: cs') st' -> rb_red sn' = rb_red sn ->
     (y = E -> rb_parent sn' = q) -> Q tt st') ->
  wp (set_parent (ptr s y) q) Q st.
Proof.
  intros H Ep HQ. apply (own_perm _ _ _ _ _ Ep) in H. destruct y as [|c l p k r]; cbn [cells app ptr] in *.
  - destruct sn as [sk sl sr sp sc]. do 2 wp_step H. by eapply HQ; [exact H|..].
  - unfold mk_node in *. do 2 wp_step H. by eapply HQ; [exact H|..].
Qed.

(** What is left of a node that was taken out. *)
Definition wiped (c : bool) : rb_node :=
  {| rb_key := 0; rb_left := 0; rb_right := 0; rb_parent := 0; rb_red := c |}.

Lemma wp_wipe root a n cs cs' Q st :
  own s root cs st -> cs ≡ₚ (a, n) :: cs' ->
  (forall st', own s root ((a, wiped (rb_red n)) :: cs') st' -> Q tt st') -> wp (rb_wipe a) Q st.
Proof.
  intros H Ep HQ. apply (own_perm _ _ _ _ _ Ep) in H. unfold rb_wipe. destruct n as [nk nl nr np nc].
  repeat wp_step H. apply HQ, H.
Qed.

Lemma wp_take_place sn rp ctx c l a k r kb b nb q R Q st :
  own s (ptr s (plug ctx (node true c r a k l)))
    ((a, mk_node true c (ptr s r) k (ptr s l) (ctx_parent rp ctx)) :: (b, nb) ::
     cells s a l ++ cells s q r ++ (s, sn) :: ctx_cells s rp ctx a ++ R) st ->
  rb_key nb = kb ->
  (forall st', own s (ptr s (plug ctx (node true c r b kb l)))
    ((a, mk_node true c (ptr s r) k (ptr s l) (ctx_parent rp ctx)) ::
     (b, mk_node true c (ptr s r) kb (ptr s l) (ctx_parent rp ctx)) ::
     cells s b l ++ cells s b r ++ (s, sn) :: ctx_cells s rp ctx b ++ R) st' -> Q tt st') ->
  wp (rb_take_place a b) Q st.
Proof.
  intros H Hk HQ. unfold rb_take_place. destruct nb as [bk bl br bp bc]. cbn in Hk. subst bk.
  set (na := mk_node true c (ptr s r) k (ptr s l) (ctx_parent rp ctx)) in *.
  assert (Hna : na = {| rb_key := k; rb_left := ptr s l; rb_right := ptr s r; rb_parent := ctx_parent rp ctx; rb_red := c |})
    by done. rewrite Hna in H.
  do 22 wp_step H. rewrite <- Hna in H.
  set (nb := {| rb_key := kb; rb_left := ptr s l; rb_right := ptr s r; rb_parent := ctx_parent rp ctx; rb_red := c |}) in *.
  apply wp_bind. eapply (wp_relink s sn rp ctx false _ (node true c r b kb l) a na b _
    ((b, nb) :: cells s a l ++ cells s q r ++ R) _ _ H); [apply ptr_node|apply ptr_node|solve_Permutation|done|].
  clear H st. intros st H.
  apply (own_perm _ _ _ ((b, nb) :: (a, na) :: ctx_cells s rp ctx b ++ (s, sn) :: cells s a l ++ cells s q r ++ R)) in H;
    [|solve_Permutation]. subst nb. do 2 wp_step H. apply wp_bind.
  set (nb := {| rb_key := kb; rb_left := ptr s l; rb_right := ptr s r; rb_parent := ctx_parent rp ctx; rb_red := c |}) in *.
  eapply (wp_reparent s sn _ _ b a l ((b, nb) :: (a, na) :: ctx_cells s rp ctx b ++ cells s q r ++ R) _ _ H);
    [solve_Permutation|]. clear H st. intros st H.
  apply (own_perm _ _ _ ((b, nb) :: (a, na) :: ctx_cells s rp ctx b ++ (s, sn) :: cells s b l ++ cells s q r ++ R)) in H;
    [|solve_Permutation]. subst nb. do 2 wp_step H.
  set (nb := {| rb_key := kb; rb_left := ptr s l; rb_right := ptr s r; rb_parent := ctx_parent rp ctx; rb_red := c |}) in *.
  eapply (wp_reparent s sn _ _ b q r ((b, nb) :: (a, na) :: ctx_cells s rp ctx b ++ cells s b l ++ R) _ _ H);
    [solve_Permutation|]. clear H st. intros st H. apply HQ. eapply own_perm; [|exact H].
  change (mk_node true c (ptr s r) kb (ptr s l) (ctx_parent rp ctx)) with nb. solve_Permutation.
Qed.
End Splice.

Lemma plug_app ctx ctx' t : plug (ctx ++ ctx') t = plug ctx' (plug ctx t).
Proof. revert t; induction ctx as [|f ctx IH]; intros t; [done|]. apply IH. Qed.

Section Remove.
Context (s : Z) (sn : rb_node) (rp : Z).

(** The only child of a node with at most one child. *)
Definition only_child (l r : rbt) : rbt := match l with E => r | T _ _ _ _ _ => l end.

Lemma wp_subst_one ctx c l a k r R Q st :
  at_tree s sn rp (plug ctx (T c l a k r)) R st -> l = E \/ r = E ->
  Q (a, ptr s (only_child l r)) st -> wp (rb_subst a) Q st.
Proof.
  intros H He HQ. unfold rb_subst. apply wp_bind, (wp_get_sentinel _ _ _ _ _ H).
  apply wp_bind, (wp_rd_node s sn rp _ ctx false c l a k r R _ _ H). cbn [mk_node rb_left].
  apply wp_bind, (wp_rd_node s sn rp _ ctx false c l a k r R _ _ H). cbn [mk_node rb_right].
  destruct l as [|cl ll pl kl rl]; cbn [ptr]; [by rewrite Z.eqb_refl|].
  destruct He as [He|He]; [done|]. subst r. cbn [ptr]. rewrite Z.eqb_refl.
  pose (f := {| fr_side := false; fr_red := c; fr_p := a; fr_k := k; fr_other := E |}).
  by rewrite (proj2 (Z.eqb_neq _ _) (hole_ne_sentinel s sn rp (f :: ctx) false cl ll pl kl rl R st H)).
Qed.

Lemma wp_min fuel ctx c l p k r R Q st :
  at_tree s sn rp (plug ctx (T c l p k r)) R st -> (length (inorder (T c l p k r)) <= fuel)%nat ->
  (forall ctx2 c2 b kb y, T c l p k r = plug ctx2 (T c2 E b kb y) -> Forall (fun f => fr_side f = false) ctx2 ->
     Q b st) ->
  wp (ngx_rbtree_min fuel p) Q st.
Proof.
  revert ctx c l p k r; induction fuel as [|fuel IH]; intros ctx c l p k r H Hfuel HQ;
    cbn [inorder] in Hfuel; rewrite length_app in Hfuel; cbn [length] in Hfuel; [lia|].
  cbn [ngx_rbtree_min]. apply wp_bind, (wp_get_sentinel _ _ _ _ _ H).
  apply wp_bind, (wp_rd_node s sn rp _ ctx false c l p k r R _ _ H). cbn [mk_node rb_left].
  destruct l as [|cl ll pl kl rl]; cbn [ptr].
  - rewrite Z.eqb_refl. apply wp_ret. by apply (HQ [] c p k r).
  - pose (f := {| fr_side := false; fr_red := c; fr_p := p; fr_k := k; fr_other := r |}).
    rewrite (proj2 (Z.eqb_neq _ _) (hole_ne_sentinel s sn rp (f :: ctx) false cl ll pl kl rl R st H)).
    apply (IH (f :: ctx) cl ll pl kl rl H); [lia|]. intros ctx2 c2 b kb y Ey Hl.
    apply (HQ (ctx2 ++ [f]) c2 b kb y); [|by apply Forall_app; split; [|constructor]].
    rewrite plug_app, <- Ey. done.
Qed.

Lemma wp_subst_min ctx c l a k r R Q st :
  at_tree s sn rp (plug ctx (T c l a k r)) R st -> l <> E -> r <> E ->
  (forall ctx2 c2 b kb y, r = plug ctx2 (T c2 E b kb y) -> Forall (fun f => fr_side f = false) ctx2 ->
     Q (b, ptr s y) st) ->
  wp (rb_subst a) Q st.
Proof.
  intros H Hl Hr HQ. unfold rb_subst. apply wp_bind, (wp_get_sentinel _ _ _ _ _ H).
  apply wp_bind, (wp_rd_node s sn rp _ ctx false c l a k r R _ _ H). cbn [mk_node rb_left].
  apply wp_bind, (wp_rd_node s sn rp _ ctx false c l a k r R _ _ H). cbn [mk_node rb_right].
  destruct l as [|cl ll pl kl rl]; [done|]. destruct r as [|cr lr pr kr rr]; [done|]. cbn [ptr].
  pose (f1 := {| fr_side := false; fr_red := c; fr_p := a; fr_k := k; fr_other := T cr lr pr kr rr |}).
  pose (f2 := {| fr_side := true; fr_red := c; fr_p := a; fr_k := k; fr_other := T cl ll pl kl rl |}).
  rewrite (proj2 (Z.eqb_neq _ _) (hole_ne_sentinel s sn rp (f1 :: ctx) false cl ll pl kl rl R st H)).
  rewrite (proj2 (Z.eqb_neq _ _) (hole_ne_sentinel s sn rp (f2 :: ctx) false cr lr pr kr rr R st H)).
  apply wp_bind, (wp_nodes _ _ _ _ _ H). intros n Hn.
  apply wp_bind, (wp_min (S n) (f2 :: ctx) cr lr pr kr rr R _ st H).
  { cbn [length] in Hn. rewrite length_app, length_cells, inorder_ctx, !length_app in Hn. cbn [inorder] in Hn |- *.
    rewrite !length_app in Hn. cbn [length] in Hn. rewrite !length_app in *. cbn [length] in *. lia. }
  intros ctx2 c2 b kb y Er Hs. assert (H' := H).
  change (at_tree s sn rp (plug ctx (plug_frame f2 (T cr lr pr kr rr))) R st) in H'. rewrite Er in H'.
  change (at_tree s sn rp (plug (f2 :: ctx) (plug ctx2 (T c2 E b kb y))) R st) in H'. rewrite <- plug_app in H'.
  apply wp_bind, (wp_rd_node s sn rp _ (ctx2 ++ f2 :: ctx) false c2 E b kb y R _ _ H'). cbn [mk_node rb_left ptr].
  apply wp_bind, (wp_rd_node s sn rp _ (ctx2 ++ f2 :: ctx) false c2 E b kb y R _ _ H'). cbn [mk_node rb_right].
  rewrite Z.eqb_refl. by apply wp_ret, (HQ ctx2 c2 b kb y).
Qed.

(** The tree after [a] was taken out, with the hole where the tree may be short
    of a black node. *)
Record spliced (a : Z) (R : list (Z * rb_node)) (ctx : list frame) (y : rbt) (sn' : rb_node) (rp' : Z)
    (st : rb_tree) : Prop := {
  spl_tree : exists c', at_tree s sn' rp' (plug ctx y) ((a, wiped c') :: R) st;
  spl_black : rb_red sn' = rb_red sn;
  spl_parent : parented sn' rp' ctx y
}.

(** A node with at most one child, under a frame. *)
Lemma wp_splice_one f ctx c l a k r R (K : M unit) Q st :
  let y := only_child l r in
  at_tree s sn rp (plug (f :: ctx) (T c l a k r)) R st -> l = E \/ r = E ->
  (forall st' sn', spliced a R (f :: ctx) y sn' rp st' -> wp K Q st') ->
  wp (relink_child false a (ptr s y) ;;; sp <- rd rb_parent a ;; set_parent (ptr s y) sp ;;; rb_wipe a ;;; K) Q st.
Proof.
  intros y H He HQ. unfold at_tree in H.
  set (na := mk_node false c (ptr s l) k (ptr s r) (fr_p f)).
  assert (Hc : own s (ptr s (plug (f :: ctx) y))
    ((a, na) :: ctx_cells s rp (f :: ctx) a ++ (s, sn) :: cells s a y ++ R) st).
  { rewrite (ptr_plug_cons s f ctx y (T c l a k r)). eapply own_perm; [|exact H].
    rewrite cells_plug. cbn [cells ctx_parent ptr app]. subst y na.
    destruct He as [He|He]; subst; [|destruct l]; cbn [cells only_child app]; solve_Permutation. }
  clear H. apply wp_bind, (wp_relink_child s sn rp f ctx false a na (ptr s y) _ _ (cells s a y ++ R) _ _ Hc); [done..|].
  clear Hc st. intros st H. apply wp_bind.
  apply (wp_rd _ _ _ rb_parent a na _ _ H); [left|]. cbn [na mk_node rb_parent]. apply wp_bind.
  apply (wp_adopt s sn _ _ a y (fr_p f) ((a, na) :: ctx_cells s rp (f :: ctx) (ptr s y) ++ R) _ _ H); [solve_Permutation|].
  clear H st. intros st sn' H Hred Hpar.
  apply wp_bind, (wp_wipe s _ a na _ (cells s (fr_p f) y ++ (s, sn') :: ctx_cells s rp (f :: ctx) (ptr s y) ++ R) _ _ H);
    [solve_Permutation|]. clear H st. intros st H. apply (HQ st sn'). constructor; [|done|exact Hpar].
  exists c. unfold at_tree. eapply own_perm; [|exact H]. rewrite cells_plug. cbn [ctx_parent]. solve_Permutation.
Qed.

(** The successor [b] was spliced out below [a], whose right subtree is now
    under [q]. *)
Lemma wp_splice_rest ctx ctx2 c l a k b kb nb y q R (K : M unit) Q sn' st :
  let r := plug ctx2 y in
  let fb := {| fr_side := true; fr_red := c; fr_p := b; fr_k := kb; fr_other := l |} in
  own s (ptr s (plug ctx (node true c r a k l)))
    ((a, mk_node true c (ptr s r) k (ptr s l) (ctx_parent rp ctx)) :: (b, nb) :: cells s a l ++
     cells s q r ++ (s, sn') :: ctx_cells s rp ctx a ++ R) st -> rb_key nb = kb ->
  (forall st' sn', spliced a R (ctx2 ++ fb :: ctx) y sn' rp st' -> wp K Q st') ->
  rb_red sn' = rb_red sn -> parented sn' b ctx2 y ->
  wp (rb_take_place a b) (fun _ => wp (rb_wipe a ;;; K) Q) st.
Proof.
  intros r fb H Hk HQ Hred Hpar.
  apply (wp_take_place s sn' rp ctx c l a k r kb b nb q R _ _ H Hk). clear H st. intros st H. apply wp_bind.
  eapply wp_wipe; [exact H|reflexivity|]. clear H st. intros st H. apply (HQ st sn'). constructor; [|done|].
  - exists c. unfold at_tree. rewrite plug_app. fold r.
    change (plug (fb :: ctx) r) with (plug ctx (node true c r b kb l)).
    eapply own_perm; [|exact H]. rewrite cells_plug, cells_node, ptr_node. cbn [mk_node rb_red]. solve_Permutation.
  - intros Ey. rewrite (Hpar Ey). by destruct ctx2.
Qed.

(** The successor [b] of a node with two children takes its place. *)
Lemma wp_splice_two ctx ctx2 c l a k c2 b kb y R (K : M unit) Q st :
  let r := plug ctx2 (T c2 E b kb y) in
  let fb := {| fr_side := true; fr_red := c; fr_p := b; fr_k := kb; fr_other := l |} in
  at_tree s sn rp (plug ctx (T c l a k r)) R st ->
  (forall st' sn', spliced a R (ctx2 ++ fb :: ctx) y sn' rp st' -> wp K Q st') ->
  wp (relink_child false b (ptr s y) ;;; sp <- rd rb_parent b ;;
      ((if sp =? a then set_parent (ptr s y) b else set_parent (ptr s y) sp) ;;; rb_take_place a b) ;;;
      rb_wipe a ;;; K) Q st.
Proof.
  intros r fb H HQ. set (par := ctx_parent rp ctx).
  set (na x := mk_node true c x k (ptr s l) par).
  set (nb := mk_node false c2 s kb (ptr s y) (ctx_parent a ctx2)).
  set (root := ptr s (plug ctx (T c l a k r))).
  assert (H0 : own s root ((b, nb) :: (a, na (ptr s r)) :: cells s a l ++ cells s b y ++ ctx_cells s a ctx2 b ++
    (s, sn) :: ctx_cells s rp ctx a ++ R) st).
  { eapply own_perm; [|exact H]. rewrite cells_plug. cbn [cells ptr]. subst r. rewrite cells_plug. cbn [cells ptr app].
    change (mk_node false c (ptr s l) k (ptr s (plug ctx2 (T c2 E b kb y))) (ctx_parent rp ctx))
      with (na (ptr s (plug ctx2 (T c2 E b kb y)))). fold nb. solve_Permutation. }
  clear H.
  (* After the splice below [a], with its right subtree under [q]. *)
  assert (Hrest : forall q sn' st', own s root ((a, na (ptr s (plug ctx2 y))) :: (b, nb) :: cells s a l ++
      cells s q (plug ctx2 y) ++ (s, sn') :: ctx_cells s rp ctx a ++ R) st' -> rb_red sn' = rb_red sn ->
      parented sn' b ctx2 y -> wp (rb_take_place a b) (fun _ => wp (rb_wipe a ;;; K) Q) st').
  { intros q sn' st' H. replace root with (ptr s (plug ctx (node true c (plug ctx2 y) a k l))) in H
      by (apply ptr_plug_eq; done). exact (wp_splice_rest ctx ctx2 c l a k b kb nb y q R K Q sn' st' H eq_refl HQ). }
  assert (Hba : b <> a) by (eapply (own_ne 0 1); [exact H0|reflexivity..|done]).
  destruct ctx2 as [|f2 ctx2]; cbn [ctx_cells app plug] in *.
  - pose (fa := {| fr_side := true; fr_red := c; fr_p := a; fr_k := k; fr_other := l |}).
    apply wp_bind. eapply (wp_relink_child s sn rp fa ctx false b nb (ptr s y) _ _ (cells s b y ++ R) _ _ H0); [|done|].
    { cbn [ctx_cells fa fr_p fr_side fr_red fr_k fr_other]. fold par. fold (na b). solve_Permutation. }
    clear H0 st. intros st H. apply wp_bind, (wp_rd _ _ _ rb_parent b nb _ _ H); [left|].
    cbn [nb mk_node rb_parent ctx_parent]. rewrite Z.eqb_refl. apply wp_bind, wp_bind.
    cbn [ctx_cells fa fr_p fr_side fr_red fr_k fr_other] in H. fold par in H. fold (na (ptr s y)) in H.
    eapply (wp_adopt s sn _ _ b y b _ _ _ H);
      [|intros st' sn' H' Hred Hpar; eapply (Hrest b sn' st'); [|done|exact Hpar]; eapply own_perm; [|exact H']].
    + instantiate (1 := (a, na (ptr s y)) :: (b, nb) :: cells s a l ++ ctx_cells s rp ctx a ++ R). solve_Permutation.
    + solve_Permutation.
  - apply wp_bind. eapply (wp_relink_child s sn a f2 ctx2 false b nb (ptr s y) _ _
      ((a, na (ptr s r)) :: cells s a l ++ cells s b y ++ ctx_cells s rp ctx a ++ R) _ _ H0);
      [cbn [ctx_cells]; solve_Permutation|done|].
    clear H0 st. intros st H. apply wp_bind, (wp_rd _ _ _ rb_parent b nb _ _ H); [left|].
    cbn [nb mk_node rb_parent ctx_parent].
    assert (Hfa : fr_p f2 <> a).
    { eapply own_ne_in; [exact H|cbn [ctx_cells]; apply Permutation_swap|]. cbn [map fst]. right. rewrite map_app.
      apply in_or_app. right. right. by left. }
    rewrite (proj2 (Z.eqb_neq _ _) Hfa). apply wp_bind, wp_bind.
    eapply (wp_adopt s sn _ _ b y (fr_p f2) _ _ _ H);
      [|intros st' sn' H' Hred Hpar; eapply (Hrest a sn' st'); [|done|exact Hpar]; eapply own_perm; [|exact H']].
    + instantiate (1 := (a, na (ptr s r)) :: (b, nb) :: cells s a l ++ ctx_cells s a (f2 :: ctx2) (ptr s y) ++
        ctx_cells s rp ctx a ++ R). solve_Permutation.
    + rewrite (cells_plug s a (f2 :: ctx2) y : cells s a (plug ctx2 (plug_frame f2 y)) ≡ₚ _).
      subst r. cbn [ctx_parent]. rewrite (ptr_plug_cons s f2 ctx2 (T c2 E b kb y) y : ptr s (plug ctx2 (plug_frame f2 _)) = _).
      solve_Permutation.
Qed.
End Remove.

(** ** Deletion *)

(** What the missing node leaves in its place. *)
Lemma removed_short c l p k r h :
  ok (T c l p k r) h -> l = E \/ r = E ->
  if c then ok (only_child l r) h /\ color (only_child l r) = false
  else exists h', h = S h' /\ short (only_child l r) h'.
Proof.
  intros Hok He. set (y := only_child l r).
  assert (Hy : y = l \/ y = r) by (subst y; destruct l; auto).
  destruct c; cbn in Hok.
  - destruct Hok as (C1 & C2 & H1 & H2). destruct Hy as [-> | ->]; done.
  - destruct h as [|h]; [done|]. exists h. split; [done|]. unfold short.
    assert (Hh : ok y h) by (destruct Hy as [-> | ->]; tauto).
    destruct (color y) eqn:Cy; [by apply ok_paint|done].
Qed.

(** Only colors and subtrees matter for the balance, not names. *)
Lemma ctx_ok_rename ctx fa fb ctx2 h :
  fr_red fa = fr_red fb -> fr_other fa = fr_other fb -> ctx_ok (ctx2 ++ fa :: ctx) h -> ctx_ok (ctx2 ++ fb :: ctx) h.
Proof.
  intros Er Eo. revert h; induction ctx2 as [|f ctx2 IH]; intros h; cbn [app ctx_ok].
  - by rewrite Er, Eo.
  - intros [Ho Hc]. split; [done|]. destruct (fr_red f); [|by apply IH].
    destruct Hc as (C & Hg & Hc). split_and!; [done| |by apply IH]. destruct ctx2; cbn in *; [by rewrite <- Er|done].
Qed.

Section Main.
Context (s : Z).

(** The end of the deletion, from the color [c] of the missing node. *)
Lemma wp_delete_end sn rp R c ctx y h Q st :
  at_tree s sn rp (plug ctx y) R st -> rb_red sn = false -> parented sn rp ctx y ->
  ctx_ok ctx h -> (if c : bool then ok y h /\ color y = false else exists h', h = S h' /\ short y h') ->
  (forall st' t', at_tree s sn rp t' R st' -> inorder t' = inorder (plug ctx y) -> balanced t' -> Q tt st') ->
  wp (if c : bool then ret tt else n <- nodes ;; rb_delete_fix (S n) (ptr s y)) Q st.
Proof.
  intros H Hsn Hpar Hctx Hc HQ. destruct c.
  - destruct Hc as [Hok Hcol]. apply wp_ret. eapply HQ; [exact H|done|]. eapply ok_plug; [exact Hctx|exact Hok|].
    destruct ctx; cbn; [done|by intros _].
  - destruct Hc as (h' & -> & Hs). apply wp_bind, (wp_nodes _ _ _ _ _ H). intros n Hn.
    eapply (wp_delete_fix s sn rp R Hsn (S n) ctx y h'); [exact H|done|done|done| |exact HQ].
    cbn [length] in Hn. rewrite length_app, length_cells in Hn. pose proof (ctx_length ctx y). lia.
Qed.

(** After the deletion, the tree has lost the node [a], whose cell remains. *)
Definition deleted (a : Z) (L : list (Z * Z)) (R : list (Z * rb_node)) (st : rb_tree) : Prop :=
  exists sn rp t c, at_tree s sn rp t ((a, wiped c) :: R) st /\ rb_red sn = false /\ balanced t /\ inorder t = L.

Lemma wp_delete_root sn rp c l a k r R st :
  at_tree s sn rp (T c l a k r) R st -> rb_red sn = false -> balanced (T c l a k r) -> l = E \/ r = E ->
  wp (ngx_rbtree_delete a) (fun _ => deleted a (inorder l ++ inorder r) R) st.
Proof.
  intros H Hsn Hbal He. unfold ngx_rbtree_delete.
  apply wp_bind, (wp_subst_one s sn rp [] c l a k r R _ _ H He).
  apply wp_bind, (wp_get_root _ _ _ _ _ H). cbn [ptr]. rewrite Z.eqb_refl. set (y := only_child l r).
  apply wp_bind. eapply (wp_set_root _ _ _ (ptr s y) _ _ H).
  clear H st. intros st H. set (na := mk_node false c (ptr s l) k (ptr s r) rp).
  assert (Hy : at_tree s sn a y ((a, na) :: R) st).
  { unfold at_tree. eapply own_perm; [|exact H]. cbn [cells]. fold na. subst y.
    destruct He as [He|He]; subst; [|destruct l]; cbn [cells only_child app]; solve_Permutation. }
  clear H. apply wp_bind, (wp_hole_black s sn a _ Hsn [] y _ _ Hy). clear Hy st. intros st H. cbn [plug] in H.
  eapply (wp_wipe s _ a na _ ((s, sn) :: cells s a (paint y) ++ R) _ _ H); [solve_Permutation|].
  clear H st. intros st H. exists sn, a, (paint y), c. split_and!; [|done| |].
  - unfold at_tree. eapply own_perm; [|exact H]. cbn [na mk_node rb_red]. solve_Permutation.
  - destruct Hbal as [Hc [h Hh]]. pose proof (removed_short c l a k r h Hh He) as Hs. cbn in Hc. subst c.
    destruct Hs as (h' & -> & Hs). fold y in Hs. unfold short in Hs.
    destruct (color y) eqn:Cy; [split; [by destruct y|by exists (S h')]|]. apply balanced_paint. split; [done|by exists h'].
  - rewrite inorder_paint_tree. subst y. destruct He as [He|He]; subst; [done|]. rewrite app_nil_r. by destruct l.
Qed.

Lemma wp_delete_one sn rp f ctx c l a k r R st :
  at_tree s sn rp (plug (f :: ctx) (T c l a k r)) R st -> rb_red sn = false ->
  balanced (plug (f :: ctx) (T c l a k r)) -> l = E \/ r = E ->
  wp (ngx_rbtree_delete a) (fun _ => deleted a (inorder (plug (f :: ctx) (only_child l r))) R) st.
Proof.
  intros H Hsn Hbal He. unfold ngx_rbtree_delete.
  apply wp_bind, (wp_subst_one s sn rp _ c l a k r R _ _ H He).
  apply wp_bind, (wp_get_root _ _ _ _ _ H).
  rewrite (proj2 (Z.eqb_neq _ _) (hole_not_root s sn rp R ctx f (T c l a k r) st H : a <> _)).
  apply wp_bind, (wp_rd_node s sn rp _ (f :: ctx) false c l a k r R _ _ H). cbn [mk_node rb_red].
  set (y := only_child l r). rewrite Z.eqb_refl.
  destruct (ok_unplug _ _ Hbal) as (h & Hctx & Hok & _). pose proof (removed_short c l a k r h Hok He) as Hs.
  apply (wp_splice_one s sn rp f ctx c l a k r R _ _ st H He).
  clear H st. intros st sn' [[c' H] Hblack Hpar].
  eapply (wp_delete_end sn' rp _ c (f :: ctx) y h); [exact H|by rewrite Hblack|done|done|done|].
  clear H st. intros st t H Hio Hb. exists sn', rp, t, c'. split_and!; try done. by rewrite Hblack.
Qed.

Lemma lefts_left ctx : Forall (fun f => fr_side f = false) ctx -> lefts ctx = [].
Proof. induction 1 as [|f ctx Hf _ IH]; cbn [lefts]; [done|]. by rewrite IH, Hf. Qed.

Lemma wp_delete_two sn rp ctx c l a k r R st :
  at_tree s sn rp (plug ctx (T c l a k r)) R st -> rb_red sn = false ->
  balanced (plug ctx (T c l a k r)) -> l <> E -> r <> E ->
  wp (ngx_rbtree_delete a) (fun _ => deleted a (lefts ctx ++ inorder l ++ inorder r ++ rights ctx) R) st.
Proof.
  intros H Hsn Hbal Hl Hr. unfold ngx_rbtree_delete.
  apply wp_bind, (wp_subst_min s sn rp ctx c l a k r R _ _ H Hl Hr). intros ctx2 c2 b kb y -> Hside.
  pose (fa := {| fr_side := true; fr_red := c; fr_p := a; fr_k := k; fr_other := l |}).
  pose (fb := {| fr_side := true; fr_red := c; fr_p := b; fr_k := kb; fr_other := l |}).
  assert (Ht : plug ctx (T c l a k (plug ctx2 (T c2 E b kb y))) = plug (ctx2 ++ fa :: ctx) (T c2 E b kb y))
    by (by rewrite plug_app).
  assert (H' := H). rewrite Ht in H', Hbal.
  apply wp_bind, (wp_get_root _ _ _ _ _ H).
  assert (Hnr : b <> ptr s (plug (ctx2 ++ fa :: ctx) (T c2 E b kb y))).
  { destruct ctx2 as [|f2 ctx2]; cbn [app] in *; by eapply (hole_ne_root s sn rp _ _ false c2 E b kb y R st). }
  rewrite Ht, (proj2 (Z.eqb_neq _ _) Hnr).
  apply wp_bind, (wp_rd_node s sn rp _ (ctx2 ++ fa :: ctx) false c2 E b kb y R _ _ H'). cbn [mk_node rb_red].
  assert (Hba : b <> a).
  { assert (Ho : own s (ptr s (plug ctx (T c l a k (plug ctx2 (T c2 E b kb y))))) ((b, mk_node false c2 s kb (ptr s y) (ctx_parent a ctx2)) ::
      (a, mk_node false c (ptr s l) k (ptr s (plug ctx2 (T c2 E b kb y))) (ctx_parent rp ctx)) :: cells s a l ++ cells s b y ++
      ctx_cells s a ctx2 b ++ (s, sn) :: ctx_cells s rp ctx a ++ R) st).
    { eapply own_perm; [|exact H]. rewrite cells_plug. cbn [cells ptr]. rewrite (cells_plug s a ctx2). cbn [cells ptr app]. solve_Permutation. }
    by eapply (own_ne 0 1); [exact Ho|..]. }
  rewrite (proj2 (Z.eqb_neq _ _) Hba).
  destruct (ok_unplug _ _ Hbal) as (h & Hctx & Hok & _).
  pose proof (removed_short c2 E b kb y h Hok (or_introl eq_refl)) as Hs.
  apply (wp_splice_two s sn rp ctx ctx2 c l a k c2 b kb y R _ _ st H).
  clear H H' st Ht Hnr. intros st sn' [[c' H] Hblack Hpar].
  eapply (wp_delete_end sn' rp _ c2 (ctx2 ++ fb :: ctx) y h); [exact H|by rewrite Hblack|done|..|done|].
  { by eapply (ctx_ok_rename ctx fa fb). }
  clear H st. intros st t H Hio Hb. exists sn', rp, t, c'. split_and!; [done|by rewrite Hblack|done|].
  rewrite Hio, plug_app. cbn [plug]. rewrite inorder_ctx. unfold plug_frame. cbn [fb fr_side fr_red fr_p fr_k fr_other node inorder].
  rewrite !inorder_ctx, (lefts_left ctx2 Hside). cbn [inorder app]. by repeat (rewrite <- ?app_assoc; cbn [app]).
Qed.

Lemma lefts_app ctx ctx' : lefts (ctx ++ ctx') = lefts ctx' ++ lefts ctx.
Proof. induction ctx as [|f ctx IH]; cbn [lefts app]; [by rewrite app_nil_r|]. by rewrite IH, app_assoc. Qed.

Lemma rights_app ctx ctx' : rights (ctx ++ ctx') = rights ctx ++ rights ctx'.
Proof. induction ctx as [|f ctx IH]; cbn [rights app]; [done|]. by rewrite IH, app_assoc. Qed.

(** The place of a node of the tree. *)
Lemma inorder_locate t L1 a k L2 :
  inorder t = L1 ++ (a, k) :: L2 ->
  exists ctx c l r, t = plug ctx (T c l a k r) /\ L1 = lefts ctx ++ inorder l /\ L2 = inorder r ++ rights ctx.
Proof.
  revert L1 L2; induction t as [|c l IHl p kp r IHr]; intros L1 L2; cbn [inorder]; [by destruct L1|].
  intros Heq. apply app_eq_inv in Heq as [(m & E1 & E2)|(m & E1 & E2)].
  - destruct m as [|x m]; cbn in E2.
    + injection E2 as <- <- ->. rewrite app_nil_r in E1. subst L1. exists [], c, l, r. by rewrite app_nil_r.
    + injection E2 as <- ->. destruct (IHl L1 m E1) as (ctx & c' & l' & r' & -> & -> & ->).
      exists (ctx ++ [{| fr_side := false; fr_red := c; fr_p := p; fr_k := kp; fr_other := r |}]), c', l', r'.
      rewrite plug_app, lefts_app, rights_app. cbn. rewrite !app_nil_r, <- !app_assoc. done.
  - destruct m as [|x m]; cbn in E2.
    + injection E2 as -> -> <-. rewrite app_nil_r in E1. subst L1. exists [], c, l, r. by rewrite app_nil_r.
    + injection E2 as <- E2. destruct (IHr m L2 E2) as (ctx & c' & l' & r' & -> & -> & ->).
      exists (ctx ++ [{| fr_side := true; fr_red := c; fr_p := p; fr_k := kp; fr_other := l |}]), c', l', r'.
      rewrite plug_app, lefts_app, rights_app. cbn. rewrite !app_nil_r, <- !app_assoc. done.
Qed.

Lemma rb_delete_outcome L1 a k L2 sn rp t R st :
  at_tree s sn rp t R st -> rb_red sn = false -> balanced t -> inorder t = L1 ++ (a, k) :: L2 ->
  wp (ngx_rbtree_delete a) (fun _ => deleted a (L1 ++ L2) R) st.
Proof.
  intros H Hsn Hbal (ctx & c & l & r & -> & -> & ->)%inorder_locate. rewrite <- app_assoc.
  assert (Hd : (l = E \/ r = E) \/ (l <> E /\ r <> E)) by (destruct l, r; auto).
  destruct Hd as [He|[Hl Hr]].
  - destruct ctx as [|f ctx].
    + cbn [lefts rights app]. rewrite app_nil_r. by eapply wp_delete_root.
    + eapply wp_mono; [by eapply wp_delete_one|]. cbv beta. intros _ st'. rewrite inorder_ctx.
      destruct He as [He|He]; subst; cbn [inorder app]; [done|]. by destruct l.
  - eapply wp_delete_two; [exact H|done..].
Qed.
End Main.

Lemma not_after_skip less L1 x L2 :
  StronglySorted (not_after less) (L1 ++ x :: L2) -> StronglySorted (not_after less) (L1 ++ L2).
Proof.
  rewrite !StronglySorted_app. intros (H12 & H1 & [H2 _]%StronglySorted_inv).
  split_and!; [|done..]. intros y z Hy Hz. apply H12; [done|]. by right.
Qed.

Lemma rb_delete_represents less s L1 a k L2 R st :
  represents less s (L1 ++ (a, k) :: L2) R st ->
  wp (ngx_rbtree_delete a) (fun _ st' => exists c, represents less s (L1 ++ L2) ((a, wiped c) :: R) st') st.
Proof.
  intros (sn & rp & t & H & Hsn & Hbal & Hio & Hsort).
  eapply wp_mono; [by eapply (rb_delete_outcome s L1 a k L2)|].
  intros _ st' (sn' & rp' & t' & c & H' & Hsn' & Hbal' & Hio'). exists c, sn', rp', t'.
  split_and!; try done. by eapply not_after_skip.
Qed.

(** C3: Deletion of any node of a balanced tree in memory succeeds, whatever the
    number of its children and wherever the tree is short of a black node: the
    tree is balanced again, the other nodes keep their addresses, keys and
    order, and the deleted cell is cleared and out of the tree. *)
Theorem rb_delete_correct less s L1 a k L2 R st :
  represents less s (L1 ++ (a, k) :: L2) R st ->
  exists st' c, ngx_rbtree_delete a st = Some (tt, st') /\ represents less s (L1 ++ L2) ((a, wiped c) :: R) st'.
Proof.
  intros H. destruct (wp_some _ _ _ (rb_delete_represents less s L1 a k L2 R st H)) as ([] & st' & E' & c & H').
  by exists st', c.
Qed.

(** A tree of three timers around the wrap of the clock. *)
Definition rb_sample : rb_tree :=
  {| rb_mem := {[ 1 := rb_blank 0;
       2 := {| rb_key := 5; rb_left := 3; rb_right := 4; rb_parent := 0; rb_red := false |};
       3 := {| rb_key := 2 ^ 64 - 10; rb_left := 1; rb_right := 1; rb_parent := 2; rb_red := true |};
       4 := {| rb_key := 30; rb_left := 1; rb_right := 1; rb_parent := 2; rb_red := true |};
       5 := rb_blank 5 ]}; rb_root := 2; rb_sentinel := 1 |}.

Abbreviation timer_lt := (fun x y : Z * Z => s64 (x.2 - y.2) <? 0) (only parsing).

Lemma rb_sample_represents :
  represents timer_lt 1 [(3, 2 ^ 64 - 10); (2, 5); (4, 30)] [(5, rb_blank 5)] rb_sample.
Proof.
  exists (rb_blank 0), 0, (T false (T true E 3 (2 ^ 64 - 10) E) 2 5 (T true E 4 30 E)).
  split_and!; [|done|split; [done|by exists 1%nat]|done|repeat constructor].
  split; [split|done..].
  - cbn. apply NoDup_ListNoDup. repeat constructor; cbn; lia.
  - repeat constructor.
Qed.

Lemma rb_delete_correct_witness :
  exists st' c, ngx_rbtree_delete 2 rb_sample = Some (tt, st') /\
    represents timer_lt 1 ([(3, 2 ^ 64 - 10)] ++ [(4, 30)]) ((2, wiped c) :: [(5, rb_blank 5)]) st'.
Proof. exact (rb_delete_correct _ 1 [(3, 2 ^ 64 - 10)] 2 5 [(4, 30)] _ _ rb_sample_represents). Defined.

Lemma rb_insert_correct_witness :
  exists st', ngx_rbtree_insert ngx_rbtree_insert_timer_value 5 rb_sample = Some (tt, st') /\
    represents timer_lt 1 [(3, 2 ^ 64 - 10); (2, 5); (5, 5); (4, 30)] [] st'.
Proof.
  apply (rb_insert_correct timer_lt (fun x => in_window (2 ^ 64 - 10) x.2) 1 _ [] 5 (rb_blank 5) rb_sample rb_sample_represents).
  - repeat (apply Forall_cons; split; [by split; vm_compute|]). constructor.
  - by split; vm_compute.
Defined.
