(* ===== verification/NgxKeyTree.v ===== *)
(** * Trees of hashed keys

    The limits on requests and on connections keep their nodes in a red-black
    tree in shared memory, ordered by the hash of a key and then by the bytes of
    the key, which are stored in the node.  This file holds what they share: the
    order, the search for a key (the same loop in
    src/nginx-1.4.7/src/http/modules/ngx_http_limit_req_module.c and
    ngx_http_limit_conn_module.c), and what the allocator of the shared memory
    promises. *)
From stdpp Require Import gmap list_tactics sorting.
From S2P Require Import Prelude NgxStrings NgxMemory NgxRbtree NgxRbtreeLogic NgxRbtreeInsert NgxRbtreeDelete.

#[local] Set Warnings "-clear-no-such-hyp".

(** ** The order of nodes *)

Section KeyTree.
Context {N : Type} (kdata : N -> list Z) (klen : N -> Z).

(** The data of the node at an address, with its length; the memory of the
    nodes is that of the tree, where an invalid address is a fault. *)
Definition node_key (nodes : gmap Z N) (p : Z) : list Z * nat :=
  match nodes !! p with Some n => (kdata n, Z.to_nat (klen n)) | None => ([], O) end.

(** [http/modules/ngx_http_limit_req_module.c:334-349] node->key < temp->key *)
Definition key_less (nodes : gmap Z N) (x y : Z * Z) : bool :=
  if x.2 <? y.2 then true
  else if y.2 <? x.2 then false
  else ngx_memn2cmp (node_key nodes x.1).1 (node_key nodes y.1).1 (node_key nodes x.1).2 (node_key nodes y.1).2 <? 0.

(** The search for the node with the key [data].
    [http/modules/ngx_http_limit_req_module.c:387-405] while (node != sentinel) *)
Fixpoint rb_find (nodes : gmap Z N) (hash : Z) (data : list Z) (fuel : nat) (node : Z) : M (option Z) :=
  match fuel with
  | O => fail
  | S fuel =>
      sentinel <- get_sentinel ;;
      if node =? sentinel then ret None
      else
        key <- rd rb_key node ;;
        if hash <? key then node <- rd rb_left node ;; rb_find nodes hash data fuel node
        else if key <? hash then node <- rd rb_right node ;; rb_find nodes hash data fuel node
        else
          let rc := ngx_memn2cmp data (node_key nodes node).1 (length data) (node_key nodes node).2 in
          if rc =? 0 then ret (Some node)
          else
            node <- rd (if rc <? 0 then rb_left else rb_right) node ;;
            rb_find nodes hash data fuel node
  end.

(** The whole search, from the root. *)
Definition key_find (ns : gmap Z N) (hash : Z) (data : list Z) : M (option Z) :=
  root <- get_root ;;
  n <- nodes ;;
  rb_find ns hash data (S n) root.

(** The key stored in a node, and the order of keys with their hashes. *)
Definition stored (nodes : gmap Z N) (p : Z) : list Z := take (node_key nodes p).2 (node_key nodes p).1.

Definition hlex (x y : Z * list Z) : comparison := match x.1 ?= y.1 with Eq => lex x.2 y.2 | c => c end.

Definition hkey (nodes : gmap Z N) (x : Z * Z) : Z * list Z := (x.2, stored nodes x.1).

(** A node with as many bytes as it says. *)
Definition whole (nodes : gmap Z N) (x : Z * Z) : Prop :=
  exists n, nodes !! x.1 = Some n /\ (Z.to_nat (klen n) <= length (kdata n))%nat.

Lemma whole_length nodes x : whole nodes x -> ((node_key nodes x.1).2 <= length (node_key nodes x.1).1)%nat.
Proof. intros (n & E & H). unfold node_key. by rewrite E. Qed.

Lemma key_less_hlex nodes x y :
  whole nodes x -> whole nodes y ->
  key_less nodes x y = match hlex (hkey nodes x) (hkey nodes y) with Lt => true | _ => false end.
Proof.
  intros Hx%whole_length Hy%whole_length. unfold key_less, hlex, hkey. cbn [fst snd].
  destruct (Z.compare_spec x.2 y.2) as [E|H|H].
  - rewrite E, Z.ltb_irrefl. unfold stored. rewrite <- memn2cmp_lex by done. unfold Z.ltb. by destruct (_ ?= 0).
  - by rewrite (proj2 (Z.ltb_lt _ _) H).
  - rewrite (proj2 (Z.ltb_ge _ _)) by lia. by rewrite (proj2 (Z.ltb_lt _ _) H).
Qed.

Lemma hlex_eq x y : hlex x y = Eq <-> x = y.
Proof.
  unfold hlex. destruct x as [h k], y as [h' k']. cbn. destruct (Z.compare_spec h h') as [->|H|H].
  - rewrite lex_eq. split; [by intros ->|by intros [= ->]].
  - split; [done|intros [= -> ->]; lia].
  - split; [done|intros [= -> ->]; lia].
Qed.

Lemma hlex_antisym x y : hlex y x = CompOpp (hlex x y).
Proof. unfold hlex. rewrite (Z.compare_antisym x.1 y.1). destruct (x.1 ?= y.1); cbn; [apply lex_antisym|done..]. Qed.

Lemma hlex_trans x y z : hlex x y <> Gt -> hlex y z <> Gt -> hlex x z <> Gt.
Proof.
  unfold hlex. destruct x as [h k], y as [h' k'], z as [h'' k'']. cbn.
  destruct (Z.compare_spec h h'), (Z.compare_spec h' h''), (Z.compare_spec h h''); try done || lia. by apply lex_trans.
Qed.

#[export] Instance key_order nodes : KeyOrder (key_less nodes) (whole nodes).
Proof.
  split.
  - intros x y Hx Hy. rewrite !key_less_hlex by done. rewrite (hlex_antisym (hkey nodes x)). by destruct (hlex _ _).
  - intros x y z Hx Hy Hz. rewrite !key_less_hlex by done. intros H1 H2.
    assert (G : hlex (hkey nodes x) (hkey nodes z) <> Gt).
    { apply (hlex_trans _ (hkey nodes y)); rewrite hlex_antisym;
        [by destruct (hlex (hkey nodes y) (hkey nodes x))|by destruct (hlex (hkey nodes z) (hkey nodes y))]. }
    rewrite (hlex_antisym (hkey nodes x)). by destruct (hlex (hkey nodes x) (hkey nodes z)).
Qed.

(** ** The search *)

(** In a sorted list, what is after a node greater than the key is not the key,
    and neither is what is before a smaller one. *)
Lemma sorted_after nodes hk L1 x L2 y :
  StronglySorted (not_after (key_less nodes)) (L1 ++ x :: L2) -> Forall (whole nodes) (L1 ++ x :: L2) ->
  hlex hk (hkey nodes x) = Lt -> y ∈ x :: L2 -> hkey nodes y <> hk.
Proof.
  intros (_ & _ & [_ Hs]%StronglySorted_inv)%StronglySorted_app [_ [Wx W2]%Forall_cons]%Forall_app Hlt Hy <-.
  apply elem_of_cons in Hy as [->|Hy]; [by rewrite (proj2 (hlex_eq _ _) eq_refl) in Hlt|].
  rewrite Forall_forall in Hs, W2. specialize (Hs y Hy). unfold not_after in Hs.
  rewrite key_less_hlex, Hlt in Hs by auto. done.
Qed.

Lemma sorted_before nodes hk L1 x L2 y :
  StronglySorted (not_after (key_less nodes)) (L1 ++ x :: L2) -> Forall (whole nodes) (L1 ++ x :: L2) ->
  hlex hk (hkey nodes x) = Gt -> y ∈ L1 ++ [x] -> hkey nodes y <> hk.
Proof.
  intros (Hs & _ & _)%StronglySorted_app [W1 [Wx _]%Forall_cons]%Forall_app Hgt Hy <-.
  apply elem_of_app in Hy as [Hy| ->%list_elem_of_singleton]; [|by rewrite (proj2 (hlex_eq _ _) eq_refl) in Hgt].
  rewrite Forall_forall in W1. specialize (Hs y x Hy ltac:(left)). unfold not_after in Hs.
  rewrite key_less_hlex, hlex_antisym, Hgt in Hs by auto. done.
Qed.

Lemma find_step nodes hash data x :
  whole nodes x ->
  hlex (hash, data) (hkey nodes x) =
  if hash <? x.2 then Lt else if x.2 <? hash then Gt
  else ngx_memn2cmp data (node_key nodes x.1).1 (length data) (node_key nodes x.1).2 ?= 0.
Proof.
  intros Hx%whole_length. unfold hlex, hkey. cbn [fst snd]. destruct (Z.compare_spec hash x.2) as [->|H|H].
  - rewrite Z.ltb_irrefl, memn2cmp_lex by done. by rewrite take_ge.
  - by rewrite (proj2 (Z.ltb_lt _ _) H).
  - rewrite (proj2 (Z.ltb_ge _ _)) by lia. by rewrite (proj2 (Z.ltb_lt _ _) H).
Qed.

(** The nodes with a key. *)
Definition has_key (nodes : gmap Z N) (hash : Z) (data : list Z) (L : list (Z * Z)) (r : option Z) : Prop :=
  match r with
  | Some p => (p, hash) ∈ L /\ stored nodes p = data
  | None => forall p, (p, hash) ∈ L -> stored nodes p <> data
  end.

Lemma wp_find nodes hash data s sn rp t R ctx fuel st (Q : option Z -> rb_tree -> Prop) :
  at_tree s sn rp (plug ctx t) R st -> Forall (whole nodes) (inorder t) ->
  StronglySorted (not_after (key_less nodes)) (inorder t) -> (length (inorder t) < fuel)%nat ->
  (forall r, has_key nodes hash data (inorder t) r -> Q r st) ->
  wp (rb_find nodes hash data fuel (ptr s t)) Q st.
Proof.
  revert ctx t; induction fuel as [|fuel IH]; intros ctx t H W Hs Hf HQ; [lia|]. cbn [rb_find].
  apply wp_bind, (wp_get_sentinel _ _ _ _ _ H). destruct t as [|c l p k r]; cbn [ptr].
  { rewrite Z.eqb_refl. apply wp_ret, (HQ None). by intros p ?%elem_of_nil. }
  rewrite (proj2 (Z.eqb_neq _ _) (hole_ne_sentinel s sn rp ctx false c l p k r R st H)).
  apply wp_bind, (wp_rd_node s sn rp _ ctx false c l p k r R _ _ H). cbn [mk_node rb_key].
  cbn [inorder] in *. assert (Hx := W). apply Forall_app in Hx as [Wl [Hx Wr]%Forall_cons].
  assert (Hss := Hs). apply StronglySorted_app in Hss as (_ & Hl & [Hr _]%StronglySorted_inv).
  rewrite length_app in Hf. cbn [length] in Hf.
  pose proof (find_step nodes hash data (p, k) Hx) as Hstep. cbn [fst snd] in Hstep.
  assert (Hleft : hlex (hash, data) (hkey nodes (p, k)) = Lt ->
    wp (rb_find nodes hash data fuel (ptr s l)) Q st).
  { intros Hlt. apply (IH ({| fr_side := false; fr_red := c; fr_p := p; fr_k := k; fr_other := r |} :: ctx) l); [done..|lia|].
    intros [q|] Hq; apply HQ.
    - destruct Hq as [Hq ?]. split; [|done]. apply elem_of_app. by left.
    - intros q [Hin|Hin]%elem_of_app E'; [by apply (Hq q)|].
      apply (sorted_after nodes (hash, data) _ _ _ (q, hash) Hs W Hlt Hin). unfold hkey. cbn. by rewrite E'. }
  assert (Hright : hlex (hash, data) (hkey nodes (p, k)) = Gt ->
    wp (rb_find nodes hash data fuel (ptr s r)) Q st).
  { intros Hgt. apply (IH ({| fr_side := true; fr_red := c; fr_p := p; fr_k := k; fr_other := l |} :: ctx) r); [done..|lia|].
    intros [q|] Hq; apply HQ.
    - destruct Hq as [Hq ?]. split; [|done]. apply elem_of_app. right. by right.
    - intros q Hin E'. change ((p, k) :: inorder r) with ([(p, k)] ++ inorder r) in Hin. rewrite app_assoc in Hin.
      apply elem_of_app in Hin as [Hin|Hin]; [|by apply (Hq q)].
      apply (sorted_before nodes (hash, data) _ _ _ (q, hash) Hs W Hgt Hin). unfold hkey. cbn. by rewrite E'. }
  destruct (hash <? k) eqn:E1; [by apply wp_bind, (wp_rd_node s sn rp _ ctx false c l p k r R _ _ H), Hleft|].
  destruct (k <? hash) eqn:E2; [by apply wp_bind, (wp_rd_node s sn rp _ ctx false c l p k r R _ _ H), Hright|].
  assert (k = hash) as -> by (zify_bool; lia). cbv zeta. set (rc := ngx_memn2cmp _ _ _ _) in *.
  destruct (Z.compare_spec rc 0) as [Erc|Erc|Erc].
  - rewrite Erc. cbn [Z.eqb]. rewrite Z.eqb_refl. apply wp_ret, (HQ (Some p)). apply hlex_eq in Hstep.
    injection Hstep as Hd. split; [|done]. apply elem_of_app. right. left.
  - rewrite (proj2 (Z.eqb_neq rc 0)), (proj2 (Z.ltb_lt rc 0)) by lia.
    by apply wp_bind, (wp_rd_node s sn rp _ ctx false c l p hash r R _ _ H), Hleft.
  - rewrite (proj2 (Z.eqb_neq rc 0)), (proj2 (Z.ltb_ge rc 0)) by lia.
    by apply wp_bind, (wp_rd_node s sn rp _ ctx false c l p hash r R _ _ H), Hright.
Qed.

(** ** The tree in its zone *)

(** The tree with its sentinel at [s] has the nodes [A], each with its hash, out
    of the addresses [area], all of which are in memory. *)
Definition keyed (s : Z) (area : gset Z) (A : list (Z * Z)) (tree : rb_tree) (ns : gmap Z N) : Prop :=
  exists L R, represents (key_less ns) s L R tree /\ L ≡ₚ A /\ Forall (whole ns) A /\
    (forall a, a ∈ area <-> a ∈ map fst A \/ a ∈ map fst R) /\ (forall a, a ∈ area -> is_Some (ns !! a)).

#[export] Instance keyed_proper s area : Proper ((≡ₚ) ==> eq ==> eq ==> iff) (keyed s area).
Proof.
  intros A A' EA t _ <- ns _ <-. unfold keyed. split; intros (L & R & H1 & H2 & H3 & H4 & H5); exists L, R.
  - rewrite <- EA. split_and!; try done. intros a. rewrite H4. by rewrite EA.
  - rewrite EA. split_and!; try done. intros a. rewrite H4. by rewrite EA.
Qed.

Lemma keyed_nodup s area A tree ns : keyed s area A tree ns -> NoDup (map fst A).
Proof. intros (L & R & H & HL & _). apply represents_nodup, NoDup_app in H as [H _]. by rewrite <- HL. Qed.

Lemma keyed_in s area A tree ns x : keyed s area A tree ns -> x ∈ A -> x.1 ∈ area /\ whole ns x.
Proof.
  intros (L & R & _ & _ & W & HA & _) Hx. rewrite Forall_forall in W. split; [|by apply W].
  apply HA. left. by apply list_elem_of_fmap_2.
Qed.

Lemma key_find_ok s area A tree ns hash data :
  keyed s area A tree ns -> exists r, key_find ns hash data tree = Some (r, tree) /\ has_key ns hash data A r.
Proof.
  intros (L & R & (sn & rp & t & H & Hsn & Hbal & Hio & Hs) & HL & W & _).
  assert (Hw : wp (key_find ns hash data) (fun r st => st = tree /\ has_key ns hash data L r) tree).
  { unfold key_find. apply wp_bind, (wp_get_root _ _ _ _ _ H). apply wp_bind, (wp_nodes _ _ _ _ _ H). intros n Hn.
    subst L. apply (wp_find ns hash data s sn rp t R [] (S n) tree _ H); [by rewrite HL|done| |done].
    cbn [length] in Hn. rewrite length_app, length_cells in Hn. lia. }
  destruct (wp_some _ _ _ Hw) as (r & st & E' & -> & Hr). exists r. split; [done|].
  destruct r as [p|]; cbn in *; [by rewrite <- HL|]. intros p. rewrite <- HL. apply Hr.
Qed.

(** The order depends on the keys of the nodes only. *)
Lemma key_less_same ns ns' x y :
  node_key ns' x.1 = node_key ns x.1 -> node_key ns' y.1 = node_key ns y.1 -> key_less ns' x y = key_less ns x y.
Proof. intros Ex Ey. unfold key_less. by rewrite Ex, Ey. Qed.

Lemma represents_same ns ns' s L R st :
  (forall x, x ∈ L -> node_key ns' x.1 = node_key ns x.1) ->
  represents (key_less ns) s L R st -> represents (key_less ns') s L R st.
Proof.
  intros HL (sn & rp & t & H & Hsn & Hbal & Hio & Hs). exists sn, rp, t. split_and!; try done. clear -HL Hs.
  induction Hs as [|x L _ IH Hx]; [constructor|]. constructor.
  - apply IH. intros y Hy. apply HL. by right.
  - rewrite Forall_forall in Hx |- *. intros y Hy. unfold not_after in *.
    rewrite (key_less_same ns ns' y x (HL y ltac:(by right)) (HL x ltac:(left))). by apply Hx.
Qed.

Lemma node_key_ne ns p n q : q <> p -> node_key (<[p := n]> ns) q = node_key ns q.
Proof. intros Hne. unfold node_key. by rewrite lookup_insert_ne. Qed.

Lemma node_key_eq ns p n n' q :
  ns !! p = Some n -> kdata n' = kdata n -> klen n' = klen n -> node_key (<[p := n']> ns) q = node_key ns q.
Proof.
  intros Hp Ed El. destruct (decide (q = p)) as [->|Hne]; [|by apply node_key_ne].
  unfold node_key. by rewrite lookup_insert_eq, Hp, Ed, El.
Qed.

Lemma stored_ne ns p n q : q <> p -> stored (<[p := n]> ns) q = stored ns q.
Proof. intros Hne. unfold stored. by rewrite node_key_ne. Qed.

Lemma stored_eq ns p n n' q :
  ns !! p = Some n -> kdata n' = kdata n -> klen n' = klen n -> stored (<[p := n']> ns) q = stored ns q.
Proof. intros. unfold stored. by rewrite (node_key_eq ns p n n' q). Qed.

Lemma stored_new ns p n : stored (<[p := n]> ns) p = take (Z.to_nat (klen n)) (kdata n).
Proof. unfold stored, node_key. by rewrite lookup_insert_eq. Qed.

(** Writing fields other than the key. *)
Lemma keyed_write s area A tree ns p n n' :
  keyed s area A tree ns -> ns !! p = Some n -> kdata n' = kdata n -> klen n' = klen n ->
  keyed s area A tree (<[p := n']> ns).
Proof.
  intros (L & R & H & HL & W & HA & Hm) Hp Ed El.
  assert (Hk : forall q, node_key (<[p := n']> ns) q = node_key ns q) by (intros q; by apply (node_key_eq ns p n)).
  exists L, R. split_and!; [|done| |done|].
  - by eapply represents_same; [|exact H].
  - eapply Forall_impl; [exact W|]. intros x (m & Em & Hm'). unfold whole.
    destruct (decide (x.1 = p)) as [Ex|Hne]; [|rewrite lookup_insert_ne by done; by exists m].
    rewrite Ex in Em |- *. rewrite lookup_insert_eq. exists n'. split; [done|]. rewrite Em in Hp. injection Hp as ->.
    by rewrite Ed, El.
  - intros a Ha. destruct (decide (a = p)) as [->|Hne]; [rewrite lookup_insert_eq|rewrite lookup_insert_ne by done]; eauto.
Qed.

Lemma keyed_delete s area A A' a k tree ns :
  keyed s area A tree ns -> A ≡ₚ (a, k) :: A' ->
  exists tree', ngx_rbtree_delete a tree = Some (tt, tree') /\ keyed s area A' tree' ns.
Proof.
  intros (L & R & H & HL & W & HA & Hm) EA. assert (Hin : (a, k) ∈ L) by (rewrite HL, EA; left).
  apply list_elem_of_split in Hin as (L1 & L2 & ->).
  destruct (wp_some _ _ _ (rb_delete_represents _ _ _ _ _ _ _ _ H)) as ([] & t' & E' & c & H').
  exists t'. split; [done|]. exists (L1 ++ L2), ((a, wiped c) :: R).
  rewrite EA in W. apply Forall_cons in W as [_ W]. split_and!; [done| |done| |done].
  - apply (Permutation_cons_inv (a := (a, k))). rewrite <- EA, <- HL. solve_Permutation.
  - intros b. rewrite HA, EA. cbn [map fst]. rewrite !elem_of_cons. tauto.
Qed.

(** Writing all of a node that is not in the tree. *)
Lemma keyed_fresh s area A tree ns p n :
  keyed s area A tree ns -> p ∈ area -> p ∉ map fst A -> keyed s area A tree (<[p := n]> ns).
Proof.
  intros (L & R & H & HL & W & HA & Hm) Hp Hn.
  assert (Hne : forall x, x ∈ A -> x.1 <> p) by (intros x Hx <-; by apply Hn, list_elem_of_fmap_2).
  exists L, R. split_and!; [|done| |done|].
  - eapply represents_same; [|exact H]. intros x Hx. rewrite HL in Hx. by apply node_key_ne, Hne.
  - rewrite Forall_forall in W |- *. intros x Hx. unfold whole. rewrite lookup_insert_ne by (by apply not_eq_sym, Hne).
    by apply W.
  - intros a Ha. destruct (decide (a = p)) as [->|]; [rewrite lookup_insert_eq|rewrite lookup_insert_ne by done]; eauto.
Qed.

Lemma keyed_insert s area A tree ns p hash :
  keyed s area A tree ns -> p ∈ area -> p ∉ map fst A -> whole ns (p, hash) ->
  exists tree',
    (wr (fun n => {| n with rb_key := hash |}) p ;;; ngx_rbtree_insert (rb_insert_leaf (key_less ns)) p) tree = Some (tt, tree') /\
    keyed s area ((p, hash) :: A) tree' ns.
Proof.
  intros (L & R & H & HL & W & HA & Hm) Hp Hn Wp. apply HA in Hp as [Hp|Hp]; [done|].
  apply list_elem_of_fmap in Hp as ([p' n] & Ep & Hp). cbn in Ep. subst p'.
  apply elem_of_Permutation in Hp as [R' HR]. apply (represents_perm _ _ _ _ _ _ HR) in H.
  assert (Hw : wp (wr (fun n => {| n with rb_key := hash |}) p ;;; ngx_rbtree_insert (rb_insert_leaf (key_less ns)) p)
    (fun _ st' => represents (key_less ns) s (ordered_insert (key_less ns) (p, hash) L) R' st') tree).
  { apply wp_bind, (wp_set_key _ s hash p n L R' _ _ H). clear H. intros st H.
    refine (rb_insert_outcome _ (whole ns) s L R' p _ st H _ Wp). by rewrite HL. }
  destruct (wp_some _ _ _ Hw) as ([] & t' & E' & H'). exists t'. split; [done|].
  exists (ordered_insert (key_less ns) (p, hash) L), R'. split_and!; [done| |by constructor| |done].
  - by rewrite ordered_insert_perm, HL.
  - intros a. rewrite HA, HR. cbn [map fst]. rewrite !elem_of_cons. tauto.
Qed.

(** A new tree has no nodes. *)
Lemma keyed_init s area mem n R ns tree :
  holds mem ((s, n) :: R) -> (forall a, a ∈ area <-> a ∈ map fst R) -> (forall a, a ∈ area -> is_Some (ns !! a)) ->
  ngx_rbtree_init mem s = Some tree -> keyed s area [] tree ns.
Proof.
  intros Hm HR Hns. unfold ngx_rbtree_init. rewrite (holds_get _ _ s n Hm) by left. intros [= <-].
  exists [], R. split_and!; [|done|constructor| |done].
  - exists {| n with rb_red := false |}, 0, E. split_and!; [|done|split; [done|by exists O]|done|constructor].
    split; [|done..]. by eapply holds_set.
  - intros a. rewrite HR. cbn. rewrite elem_of_nil. tauto.
Qed.
End KeyTree.

(** ** The allocator of the zone *)

(** [ngx_slab_alloc_locked] and [ngx_slab_free_locked] on the state [S] of a
    pool; [slab_used] are the addresses in use. *)
Class SlabPool (S : Type) : Type := {
  slab_alloc : Z -> S -> option Z * S;
  slab_free : Z -> S -> S;
  slab_used : S -> gset Z
}.

(** What the clients need: memory that is handed out was not in use, and is in
    use until it is freed.  [area] are the addresses that the pool hands out. *)
Class SlabLaws (S : Type) `{!SlabPool S} (area : gset Z) : Prop := {
  slab_alloc_some size sp p sp' : slab_alloc size sp = (Some p, sp') ->
    (p ∈ area) /\ (p ∉ slab_used sp) /\ slab_used sp' = (slab_used sp ∪ {[p]});
  slab_alloc_none size sp sp' : slab_alloc size sp = (None, sp') -> slab_used sp' = slab_used sp;
  slab_free_used p sp : p ∈ slab_used sp -> slab_used (slab_free p sp) = slab_used sp ∖ {[p]}
}.

(** A pool of cells of one size, which hands out any free one. *)
Definition cell_pool (area : gset Z) : SlabPool (gset Z) := {|
  slab_alloc := fun _ used =>
    match elements (area ∖ used) with p :: _ => (Some p, used ∪ {[p]}) | [] => (None, used) end;
  slab_free := fun p used => used ∖ {[p]};
  slab_used := fun used => used
|}.

#[export] Instance cell_pool_laws area : @SlabLaws (gset Z) (cell_pool area) area.
Proof.
  split.
  - cbn. intros _ used p used' H. destruct (elements (area ∖ used)) as [|q l] eqn:El; [done|]. injection H as -> <-.
    assert (Hp : p ∈ area ∖ used) by (apply elem_of_elements; rewrite El; left). clear El. set_solver.
  - cbn. intros _ used used' H. by destruct (elements (area ∖ used)); simplify_eq.
  - done.
Qed.
