(* ===== verification/NgxHash.v ===== *)
(** * Hash tables

    src/nginx-1.4.7/src/core/ngx_hash.c: the tables of names that are made once,
    at the start, and then only read.  The size of a table is searched for so that
    the elements of every bucket fit into a given number of bytes; then the
    elements are laid out in memory one after another, each bucket ended by an
    element without a value.

    The memory of the elements is a finite map of bytes; [None] is an access
    outside of it, or a division by zero. *)
From stdpp Require Import gmap.
From S2P Require Import Prelude HttpChars NgxHashKey.

(** ** Memory *)

Abbreviation bytes := (gmap Z Z) (only parsing).

Fixpoint ld_bytes (m : bytes) (a : Z) (n : nat) : option (list Z) :=
  match n with
  | O => Some []
  | S n => b ← m !! a; l ← ld_bytes m (a + 1) n; Some (b :: l)
  end.

Fixpoint st_bytes (a : Z) (l : list Z) (m : bytes) : option bytes :=
  match l with
  | [] => Some m
  | b :: l => _ ← m !! a; st_bytes (a + 1) l (<[a := b]> m)
  end.

(** Integers of [n] bytes, the least significant one first. *)
Fixpoint le_bytes (n : nat) (v : Z) : list Z :=
  match n with O => [] | S n => v mod 256 :: le_bytes n (v / 256) end.
Fixpoint le_value (l : list Z) : Z := match l with [] => 0 | b :: l => b + 256 * le_value l end.

Definition ld_word (m : bytes) (a : Z) : option Z := le_value <$> ld_bytes m a 8.
Definition ld_short (m : bytes) (a : Z) : option Z := le_value <$> ld_bytes m a 2.
Definition st_word (a v : Z) (m : bytes) : option bytes := st_bytes a (le_bytes 8 v) m.
Definition st_short (a v : Z) (m : bytes) : option bytes := st_bytes a (le_bytes 2 v) m.

(** [n] bytes at [base], with any contents. *)
Definition region (junk : Z -> Z) (base n : Z) : bytes := list_to_map (map (fun a => (a, junk a)) (seqZ base n)).

(** [core/ngx_config.h:97-99] ngx_align *)
Definition ngx_align (d a : Z) : Z := Z.ldiff (d + (a - 1)) (a - 1).

(** ** Definitions *)

(** [hk_null] tells that the data of the key is NULL.
    [core/ngx_hash.h:35-39] ngx_hash_key_t *)
Record hash_key : Type := { hk_null : bool; hk_key : list Z; hk_hash : Z; hk_value : Z }.

(** [core/ngx_hash.h:52-62] ngx_hash_init_t *)
Record hash_params : Type := { hi_max_size : Z; hi_bucket_size : Z; ngx_cacheline_size : Z }.

(** The buckets are addresses of elements, 0 for NULL.
    [core/ngx_hash.h:23-26] ngx_hash_t *)
Record hash_table : Type := { h_buckets : list Z; h_size : Z; h_mem : bytes }.

(** [core/ngx_hash.c:248-249] NGX_HASH_ELT_SIZE *)
Definition NGX_HASH_ELT_SIZE (key : list Z) : Z := 8 + ngx_align (Z.of_nat (length key) + 2) 8.

(** [core/ngx_hash.c:28-46] while (elt->value) *)
Fixpoint find_elt (fuel : nat) (m : bytes) (elt : Z) (name : list Z) : option Z :=
  match fuel with
  | O => None
  | S fuel =>
      value ← ld_word m elt;
      if value =? 0 then Some 0
      else
        len ← ld_short m (elt + 8);
        let next := find_elt fuel m (ngx_align (elt + 10 + len) 8) name in
        if negb (Z.of_nat (length name) =? len) then next
        else
          l ← ld_bytes m (elt + 10) (length name);
          if bool_decide (name = l) then Some value else next
  end.

(** The value of a name, 0 for NULL.  A bucket has less than 2^16 bytes, and an
    element at least 16.
    [core/ngx_hash.c:12-49] ngx_hash_find *)
Definition ngx_hash_find (hash : hash_table) (key : Z) (name : list Z) : option Z :=
  elt ← h_buckets hash !! Z.to_nat (key mod h_size hash);
  if elt =? 0 then Some 0 else find_elt 4097 (h_mem hash) elt name.

(** The bytes of each bucket; [None] is [goto next].
    [core/ngx_hash.c:289-306] for (n = 0; n < nelts; n++) *)
Fixpoint try_size (names : list hash_key) (size bucket_size : Z) (test : Z -> Z) : option (Z -> Z) :=
  match names with
  | [] => Some test
  | n :: names =>
      if hk_null n then try_size names size bucket_size test
      else
        let key := hk_hash n mod size in
        let t := u16 (test key + NGX_HASH_ELT_SIZE (hk_key n)) in
        if u16 bucket_size <? t then None
        else try_size names size bucket_size (fun i => if i =? key then t else test i)
  end.

(** The first size that fits; [None] is the end of the loop.
    [core/ngx_hash.c:285-313] for (size = start; size < hinit->max_size; size++) *)
Fixpoint find_size (fuel : nat) (names : list hash_key) (size bucket_size : Z) : option Z :=
  match fuel with
  | O => None
  | S fuel =>
      match try_size names size bucket_size (fun _ => 0) with
      | Some _ => Some size
      | None => find_size fuel names (size + 1) bucket_size
      end
  end.

(** [core/ngx_hash.c:331-338] for (n = 0; n < nelts; n++) *)
Fixpoint add_sizes (names : list hash_key) (size : Z) (test : Z -> Z) : Z -> Z :=
  match names with
  | [] => test
  | n :: names =>
      if hk_null n then add_sizes names size test
      else
        let key := hk_hash n mod size in
        add_sizes names size (fun i => if i =? key then u16 (test key + NGX_HASH_ELT_SIZE (hk_key n)) else test i)
  end.

(** The length of the memory of the buckets from [i] on.
    [core/ngx_hash.c:342-350] for (i = 0; i < size; i++) *)
Fixpoint sizes_len (k : nat) (i : Z) (test : Z -> Z) : Z :=
  match k with
  | O => 0
  | S k => (if test i =? 8 then 0 else test i) + sizes_len k (i + 1) test
  end.

(** [core/ngx_hash.c:347-347] test\[i\] = (u_short) (ngx_align(test\[i\], ngx_cacheline_size)) *)
Definition align_sizes (cacheline : Z) (test : Z -> Z) (i : Z) : Z :=
  if test i =? 8 then 8 else u16 (ngx_align (test i) cacheline).

(** [core/ngx_hash.c:379-387] for (i = 0; i < size; i++) *)
Fixpoint place_buckets (k : nat) (i elts : Z) (test : Z -> Z) : list Z :=
  match k with
  | O => []
  | S k => if test i =? 8 then 0 :: place_buckets k (i + 1) elts test else elts :: place_buckets k (i + 1) (elts + test i) test
  end.

(** [core/ngx_hash.c:393-407] for (n = 0; n < nelts; n++) *)
Fixpoint put_elts (names : list hash_key) (size : Z) (buckets : list Z) (test : Z -> Z) (m : bytes) : option ((Z -> Z) * bytes) :=
  match names with
  | [] => Some (test, m)
  | n :: names =>
      if hk_null n then put_elts names size buckets test m
      else
        let key := hk_hash n mod size in
        b ← buckets !! Z.to_nat key;
        let elt := b + test key in
        m ← st_word elt (hk_value n) m;
        m ← st_short (elt + 8) (u16 (Z.of_nat (length (hk_key n)))) m;
        m ← st_bytes (elt + 10) (ngx_strlow (hk_key n)) m;
        put_elts names size buckets (fun i => if i =? key then u16 (test key + NGX_HASH_ELT_SIZE (hk_key n)) else test i) m
  end.

(** [core/ngx_hash.c:409-417] for (i = 0; i < size; i++) *)
Fixpoint put_ends (buckets : list Z) (i : Z) (test : Z -> Z) (m : bytes) : option bytes :=
  match buckets with
  | [] => Some m
  | b :: buckets =>
      m ← (if b =? 0 then Some m else st_word (b + test i) 0 m);
      put_ends buckets (i + 1) test m
  end.

(** The table when the size is found; [base] is the address that [ngx_palloc]
    returns for the elements.
    [core/ngx_hash.c:325-423] found *)
Definition hash_build (p : hash_params) (junk : Z -> Z) (base size : Z) (names : list hash_key) : option hash_table :=
  let n := Z.to_nat size in
  let test := align_sizes (ngx_cacheline_size p) (add_sizes names size (fun _ => 8)) in
  let m := region junk base (sizes_len n 0 test + ngx_cacheline_size p) in
  let buckets := place_buckets n 0 (ngx_align base (ngx_cacheline_size p)) test in
  '(test, m) ← put_elts names size buckets (fun _ => 0) m;
  m ← put_ends buckets 0 test m;
  Some {| h_buckets := buckets; h_size := size; h_mem := m |}.

(** The size that is tried first.
    [core/ngx_hash.c:278-283] start *)
Definition hash_start (p : hash_params) (nelts bucket_size : Z) : Z :=
  let start := nelts / (bucket_size / 16) in
  let start := if start =? 0 then 1 else start in
  if (10000 <? hi_max_size p) && negb (nelts =? 0) && (hi_max_size p / nelts <? 100) then hi_max_size p - 1000 else start.

(** The answers to the allocations: whether there is memory for the array [test] and
    for the table with its buckets, and the address of the elements, 0 for NULL. *)
Record hash_memory : Type := { hm_test : bool; hm_table : bool; hm_elts : Z }.

(** Only the memory for the elements may fail. *)
Definition memory_at (base : Z) : hash_memory := {| hm_test := true; hm_table := true; hm_elts := base |}.

(** The inner [None] is NGX_ERROR.
    [core/ngx_hash.c:251-455] ngx_hash_init *)
Definition ngx_hash_init (p : hash_params) (junk : Z -> Z) (mem : hash_memory) (names : list hash_key) : option (option hash_table) :=
  let nelts := Z.of_nat (length names) in
  if existsb (fun n => hi_bucket_size p <? NGX_HASH_ELT_SIZE (hk_key n) + 8) names then Some None
  else if negb (hm_test mem) then Some None
  else
    let bucket_size := u64 (hi_bucket_size p - 8) in
    if bucket_size / 16 =? 0 then None
    else
      let start := hash_start p nelts bucket_size in
      match find_size (Z.to_nat (hi_max_size p - start)) names start bucket_size with
      | None => Some None
      | Some size =>
          if negb (hm_table mem) then Some None
          else if hm_elts mem =? 0 then Some None
          else h ← hash_build p junk (hm_elts mem) size names; Some (Some h)
      end.

(** ** Samples *)

Definition name_key (name : list Z) (value : Z) : hash_key :=
  {| hk_null := false; hk_key := name; hk_hash := ngx_hash_key_lc name; hk_value := value |}.
