(* ===== verification/NgxHashLayout.v ===== *)
(** * The layout of hash tables

    The memory that [ngx_hash_init] fills: every bucket is the list of the elements
    with its names, in the order of the names, and a search in it is a search in
    that list. *)
From stdpp Require Import gmap.
From S2P Require Import Prelude HttpChars NgxHashKey NgxHash.

(** ** Memory *)

(** The bytes [l] are at [a]. *)
Definition bytes_at (m : gmap Z Z) (a : Z) (l : list Z) : Prop := forall i x, l !! i = Some x -> m !! (a + Z.of_nat i) = Some x.

Lemma bytes_at_cons m a b l : bytes_at m a (b :: l) <-> m !! a = Some b /\ bytes_at m (a + 1) l.
Proof.
  split.
  - intros H. split; [specialize (H O b eq_refl); by rewrite Z.add_0_r in H|]. intros i x Hx. specialize (H (S i) x Hx). by replace (a + 1 + Z.of_nat i) with (a + Z.of_nat (S i)) by lia.
  - intros [H1 H2] [|i] x Hx; [injection Hx as <-; by rewrite Z.add_0_r|]. specialize (H2 i x Hx). by replace (a + Z.of_nat (S i)) with (a + 1 + Z.of_nat i) by lia.
Qed.

Lemma ld_bytes_at m a l : bytes_at m a l -> ld_bytes m a (length l) = Some l.
Proof.
  revert a; induction l as [|b l IH]; intros a H; [done|]. apply bytes_at_cons in H as [H1 H2]. cbn. rewrite H1. cbn. by rewrite (IH _ H2).
Qed.

(** A store succeeds inside of the memory, and changes no other byte. *)
Lemma st_bytes_ok a l m :
  (forall x, a <= x < a + Z.of_nat (length l) -> is_Some (m !! x)) ->
  exists m', st_bytes a l m = Some m' /\ bytes_at m' a l /\ (forall x, ~ a <= x < a + Z.of_nat (length l) -> m' !! x = m !! x) /\
    forall x, is_Some (m !! x) -> is_Some (m' !! x).
Proof.
  revert a m; induction l as [|b l IH]; intros a m H; cbn [st_bytes length] in *.
  - exists m. split_and!; [done|by intros [] x|done|done].
  - destruct (H a ltac:(lia)) as [y ->]. cbn [mbind option_bind].
    destruct (IH (a + 1) (<[a := b]> m)) as (m' & -> & H1 & H2 & H3).
    { intros x Hx. rewrite lookup_insert_ne by lia. apply H. lia. }
    exists m'. split_and!; [done|apply bytes_at_cons; split; [|done]|..].
    + rewrite H2 by lia. apply lookup_insert_eq.
    + intros x Hx. rewrite H2 by lia. apply lookup_insert_ne. lia.
    + intros x Hx. apply H3. destruct (Z.eq_dec x a) as [->|]; [rewrite lookup_insert_eq; by eexists|by rewrite lookup_insert_ne by lia].
Qed.

Lemma bytes_at_frame m m' a l : bytes_at m a l -> (forall x, a <= x < a + Z.of_nat (length l) -> m' !! x = m !! x) -> bytes_at m' a l.
Proof. intros H Hf i x Hx. pose proof (lookup_lt_Some _ _ _ Hx). rewrite Hf by lia. by apply H. Qed.

Lemma le_bytes_length n v : length (le_bytes n v) = n.
Proof. revert v; induction n as [|n IH]; intros v; cbn; [done|]. by rewrite IH. Qed.

Lemma le_value_bytes n v : 0 <= v < 256 ^ Z.of_nat n -> le_value (le_bytes n v) = v.
Proof.
  revert v; induction n as [|n IH]; intros v Hv; cbn [le_bytes le_value]; [cbn in Hv; lia|].
  rewrite Nat2Z.inj_succ, Z.pow_succ_r in Hv by lia. pose proof (Z.div_mod v 256 ltac:(lia)). rewrite IH; [lia|]. split; [apply Z.div_pos; lia|apply Z.div_lt_upper_bound; lia].
Qed.

Definition word_at (m : gmap Z Z) (a v : Z) : Prop := bytes_at m a (le_bytes 8 v).

Lemma ld_word_at m a v : word_at m a v -> 0 <= v < 2 ^ 64 -> ld_word m a = Some v.
Proof. intros H Hv. unfold ld_word. apply ld_bytes_at in H. rewrite le_bytes_length in H. rewrite H. cbn [fmap option_fmap option_map]. f_equal. apply le_value_bytes. lia. Qed.

Lemma ld_short_at m a v : bytes_at m a (le_bytes 2 v) -> 0 <= v < 2 ^ 16 -> ld_short m a = Some v.
Proof. intros H Hv. unfold ld_short. apply ld_bytes_at in H. rewrite le_bytes_length in H. rewrite H. cbn [fmap option_fmap option_map]. f_equal. apply le_value_bytes. lia. Qed.

Lemma region_lookup junk base n x : is_Some (region junk base n !! x) <-> base <= x < base + n.
Proof.
  unfold region. rewrite <- (elem_of_dom (D := gset Z)), dom_list_to_map_L, elem_of_list_to_set, map_map, map_id. cbn. by rewrite elem_of_seqZ.
Qed.

(** ** Alignment *)

Lemma ngx_align_spec k d : 0 <= k -> d <= ngx_align d (2 ^ k) < d + 2 ^ k /\ (2 ^ k | ngx_align d (2 ^ k)).
Proof.
  intros Hk. assert (0 < 2 ^ k) by (apply Z.pow_pos_nonneg; lia). unfold ngx_align. replace (2 ^ k - 1) with (Z.ones k) by (rewrite Z.ones_equiv; lia).
  rewrite Z.ldiff_ones_r, Z.shiftl_mul_pow2, Z.shiftr_div_pow2, Z.ones_equiv by lia. set (e := d + Z.pred (2 ^ k)).
  pose proof (Z.div_mod e (2 ^ k) ltac:(lia)). pose proof (Z.mod_pos_bound e (2 ^ k) ltac:(lia)). split; [lia|]. by apply Z.divide_factor_r.
Qed.

Lemma align8_step a len : (8 | a) -> 0 <= len -> ngx_align (a + 10 + len) 8 = a + 8 + ngx_align (len + 2) 8.
Proof.
  intros [q ->] Hl. change 8 with (2 ^ 3) at 2 5. destruct (ngx_align_spec 3 (q * 8 + 10 + len) ltac:(lia)) as [H1 [x Hx]].
  destruct (ngx_align_spec 3 (len + 2) ltac:(lia)) as [H2 [y Hy]]. lia.
Qed.

Lemma elt_size_spec key : 16 <= NGX_HASH_ELT_SIZE key /\ 10 + Z.of_nat (length key) <= NGX_HASH_ELT_SIZE key /\ (8 | NGX_HASH_ELT_SIZE key).
Proof.
  unfold NGX_HASH_ELT_SIZE. destruct (ngx_align_spec 3 (Z.of_nat (length key) + 2) ltac:(lia)) as [H1 [y Hy]]. change (2 ^ 3) with 8 in *.
  split_and!; [lia|lia|]. rewrite Hy. exists (y + 1). lia.
Qed.

(** ** Buckets *)

Abbreviation element := (list Z * Z)%type (only parsing).

(** The elements [l] are at [a]. *)
Fixpoint elts_at (m : gmap Z Z) (a : Z) (l : list element) : Prop :=
  match l with
  | [] => True
  | (name, v) :: l =>
      word_at m a v /\ bytes_at m (a + 8) (le_bytes 2 (Z.of_nat (length name))) /\ bytes_at m (a + 10) name /\ elts_at m (a + NGX_HASH_ELT_SIZE name) l
  end.

Definition elts_len (l : list element) : Z := sumZ (fun x => NGX_HASH_ELT_SIZE x.1) l.

Lemma elts_len_app l1 l2 : elts_len (l1 ++ l2) = elts_len l1 + elts_len l2.
Proof. unfold elts_len. induction l1 as [|x l1 IH]; cbn; [done|]. rewrite IH. lia. Qed.

Lemma elts_len_ge l : 16 * Z.of_nat (length l) <= elts_len l.
Proof. unfold elts_len. induction l as [|x l IH]; cbn [sumZ length]; [lia|]. destruct (elt_size_spec x.1) as [? _]. lia. Qed.

Lemma elts_at_app m a l1 l2 : elts_at m a (l1 ++ l2) <-> elts_at m a l1 /\ elts_at m (a + elts_len l1) l2.
Proof.
  revert a; induction l1 as [|[name v] l1 IH]; intros a; cbn [app elts_at].
  - unfold elts_len. cbn. rewrite Z.add_0_r. tauto.
  - rewrite IH. unfold elts_len. cbn [sumZ fst]. rewrite Z.add_assoc. tauto.
Qed.

Lemma elts_at_frame m m' a l : elts_at m a l -> (forall x, a <= x < a + elts_len l -> m' !! x = m !! x) -> elts_at m' a l.
Proof.
  revert a; induction l as [|[name v] l IH]; intros a H Hf; [done|]. destruct H as (H1 & H2 & H3 & H4). pose proof (elts_len_ge l) as Hl.
  unfold elts_len in Hf, Hl. cbn [sumZ fst] in Hf. destruct (elt_size_spec name) as (S1 & S2 & _). cbn [elts_at]. split_and!.
  - eapply bytes_at_frame; [exact H1|]. intros x Hx. rewrite le_bytes_length in Hx. apply Hf. lia.
  - eapply bytes_at_frame; [exact H2|]. intros x Hx. rewrite le_bytes_length in Hx. apply Hf. lia.
  - eapply bytes_at_frame; [exact H3|]. intros x Hx. apply Hf. lia.
  - apply IH; [done|]. intros x Hx. apply Hf. unfold elts_len in Hx. lia.
Qed.

(** The value of the first element with a name, or 0. *)
Fixpoint assoc (name : list Z) (l : list element) : Z :=
  match l with [] => 0 | (n, v) :: l => if bool_decide (name = n) then v else assoc name l end.

Definition elt_ok (x : element) : Prop := (Z.of_nat (length x.1) < 2 ^ 16) /\ 0 < x.2 < 2 ^ 64.

Lemma find_elt_ok fuel m a l name :
  (8 | a) -> elts_at m a l -> word_at m (a + elts_len l) 0 -> Forall elt_ok l -> (length l < fuel)%nat -> find_elt fuel m a name = Some (assoc name l).
Proof.
  revert a fuel; induction l as [|[n v] l IH]; intros a [|fuel] Ha H Hend Hok Hf; cbn [length] in Hf; try lia; cbn [find_elt assoc].
  - unfold elts_len in Hend. cbn in Hend. rewrite Z.add_0_r in Hend. by rewrite (ld_word_at m a 0) by (done || lia).
  - destruct H as (H1 & H2 & H3 & H4). apply Forall_cons in Hok as [[Hn Hv] Hok]. cbn in Hn, Hv.
    rewrite (ld_word_at m a v) by (done || lia). cbn [mbind option_bind]. rewrite (proj2 (Z.eqb_neq v 0)) by lia.
    rewrite (ld_short_at m (a + 8) _ H2) by lia. cbn [mbind option_bind]. destruct (elt_size_spec n) as (S1 & S2 & S3).
    assert (Enext : find_elt fuel m (ngx_align (a + 10 + Z.of_nat (length n)) 8) name = Some (assoc name l)).
    { rewrite align8_step by (done || lia).
      replace (a + 8 + ngx_align (Z.of_nat (length n) + 2) 8) with (a + NGX_HASH_ELT_SIZE n) by (unfold NGX_HASH_ELT_SIZE; lia).
      apply IH; [by apply Z.divide_add_r|done| |done|lia]. unfold elts_len in *. cbn [sumZ fst] in Hend. by rewrite Z.add_assoc in Hend. }
    destruct (Z.eqb_spec (Z.of_nat (length name)) (Z.of_nat (length n))) as [El|El]; cbn [negb].
    + assert (length name = length n) as -> by lia. rewrite (ld_bytes_at m (a + 10) n H3). cbn [mbind option_bind]. by case_bool_decide.
    + rewrite Enext. rewrite bool_decide_eq_false_2; [done|]. intros ->. done.
Qed.

(** ** Sizes *)

Section Names.
Context (size : Z).
Hypothesis size_pos : 0 < size.

(** The elements of the bucket [i]. *)
Definition bucket_of (names : list hash_key) (i : Z) : list element :=
  flat_map (fun n => if negb (hk_null n) && (hk_hash n mod size =? i) then [(ngx_strlow (hk_key n), hk_value n)] else []) names.

Lemma bucket_of_cons n names i :
  bucket_of (n :: names) i = (if negb (hk_null n) && (hk_hash n mod size =? i) then [(ngx_strlow (hk_key n), hk_value n)] else []) ++ bucket_of names i.
Proof. done. Qed.

Lemma bucket_of_app l1 l2 i : bucket_of (l1 ++ l2) i = bucket_of l1 i ++ bucket_of l2 i.
Proof. apply flat_map_app. Qed.

Lemma elt_size_low key : NGX_HASH_ELT_SIZE (ngx_strlow key) = NGX_HASH_ELT_SIZE key.
Proof. unfold NGX_HASH_ELT_SIZE. by rewrite ngx_strlow_length. Qed.

Lemma elts_len_one key v : elts_len [(ngx_strlow key, v)] = NGX_HASH_ELT_SIZE key.
Proof. unfold elts_len. cbn [sumZ fst]. rewrite elt_size_low. lia. Qed.

Definition bucket_len (names : list hash_key) (i : Z) : Z := elts_len (bucket_of names i).

Lemma bucket_len_cons n names i :
  bucket_len (n :: names) i = (if negb (hk_null n) && (hk_hash n mod size =? i) then NGX_HASH_ELT_SIZE (hk_key n) else 0) + bucket_len names i.
Proof.
  unfold bucket_len. rewrite bucket_of_cons, elts_len_app. f_equal. destruct (_ && _); [|done]. unfold elts_len. cbn. rewrite elt_size_low. lia.
Qed.

Lemma bucket_len_nonneg names i : 0 <= bucket_len names i.
Proof. unfold bucket_len. pose proof (elts_len_ge (bucket_of names i)). lia. Qed.

(** The search for the size finds the sizes for which all buckets fit. *)
Lemma try_size_spec names B test :
  0 <= B < 2 ^ 15 -> Forall (fun n => NGX_HASH_ELT_SIZE (hk_key n) <= B) names -> (forall i, 0 <= test i <= B) ->
  match try_size names size B test with
  | Some _ => forall i, test i + bucket_len names i <= B
  | None => exists i, 0 <= i < size /\ B < test i + bucket_len names i
  end.
Proof.
  intros HB. revert test; induction names as [|n names IH]; intros test Hn Ht; cbn [try_size].
  - intros i. specialize (Ht i). unfold bucket_len, elts_len. cbn. lia.
  - apply Forall_cons in Hn as [Hs Hn]. destruct (hk_null n) eqn:En.
    + specialize (IH test Hn Ht). assert (Ec : forall i, bucket_len (n :: names) i = bucket_len names i) by (intros i; rewrite bucket_len_cons, En; cbn [negb andb]; lia).
      destruct (try_size names size B test); [intros i; rewrite Ec; apply IH|]. destruct IH as (j & Hj & HI). exists j. by rewrite Ec.
    + set (key := hk_hash n mod size). pose proof (Z.mod_pos_bound (hk_hash n) size size_pos) as Hk. fold key in Hk. destruct (elt_size_spec (hk_key n)) as [S1 _].
      pose proof (Ht key) as Htk. set (t := u16 (test key + NGX_HASH_ELT_SIZE (hk_key n))).
      assert (Et : t = test key + NGX_HASH_ELT_SIZE (hk_key n)) by (unfold t, u16; rewrite Z.mod_small by lia; done).
      assert (EB : u16 B = B) by (unfold u16; rewrite Z.mod_small by lia; done). rewrite EB.
      assert (Ec : forall i, bucket_len (n :: names) i = (if key =? i then NGX_HASH_ELT_SIZE (hk_key n) else 0) + bucket_len names i).
      { intros i. rewrite bucket_len_cons, En. cbn [negb andb]. by fold key. }
      destruct (Z.ltb_spec B t) as [Hlt|Hle].
      * exists key. split; [done|]. rewrite Ec, Z.eqb_refl. pose proof (bucket_len_nonneg names key). lia.
      * specialize (IH (fun i => if i =? key then t else test i) Hn). cbn beta in IH.
        assert (Ht' : forall i, 0 <= (if i =? key then t else test i) <= B) by (intros i; destruct (i =? key); [lia|apply Ht]). specialize (IH Ht').
        destruct (try_size names size B _).
        -- intros i. specialize (IH i). rewrite Ec, (Z.eqb_sym key i). destruct (Z.eqb_spec i key) as [E|]; [rewrite E in *|]; lia.
        -- destruct IH as (j & Hj & HI). exists j. split; [done|]. rewrite Ec, (Z.eqb_sym key j). destruct (Z.eqb_spec j key) as [E|]; [rewrite E in *|]; lia.
Qed.

Lemma add_sizes_spec names test :
  (forall i, 0 <= test i /\ test i + bucket_len names i < 2 ^ 16) -> forall i, add_sizes names size test i = test i + bucket_len names i.
Proof.
  revert test; induction names as [|n names IH]; intros test Ht i; cbn [add_sizes]; [unfold bucket_len, elts_len; cbn; lia|].
  destruct (hk_null n) eqn:En.
  - rewrite IH; [rewrite bucket_len_cons, En; cbn [negb andb]; lia|]. intros j. specialize (Ht j). rewrite bucket_len_cons, En in Ht. cbn [negb andb] in Ht. lia.
  - set (key := hk_hash n mod size). destruct (elt_size_spec (hk_key n)) as [S1 _].
    assert (Ec : forall i, bucket_len (n :: names) i = (if key =? i then NGX_HASH_ELT_SIZE (hk_key n) else 0) + bucket_len names i).
    { intros j. rewrite bucket_len_cons, En. cbn [negb andb]. by fold key. }
    assert (Et : u16 (test key + NGX_HASH_ELT_SIZE (hk_key n)) = test key + NGX_HASH_ELT_SIZE (hk_key n)).
    { unfold u16. rewrite Z.mod_small; [done|]. specialize (Ht key). rewrite Ec, Z.eqb_refl in Ht. pose proof (bucket_len_nonneg names key). lia. }
    rewrite Et, IH.
    + rewrite Ec. rewrite (Z.eqb_sym key i). destruct (Z.eqb_spec i key) as [E|]; [rewrite E|]; lia.
    + intros j. specialize (Ht j). rewrite Ec, (Z.eqb_sym key j) in Ht. destruct (Z.eqb_spec j key) as [E|]; [rewrite E in *|]; lia.
Qed.

(** ** Building *)

Context (names : list hash_key) (k base : Z) (junk : Z -> Z).
Hypothesis line_ok : 3 <= k <= 8.
Hypothesis base_pos : 0 < base.
Hypothesis fits : forall i, 8 + bucket_len names i <= 2 ^ 15.
Hypothesis names_ok : Forall (fun n => 0 < hk_value n < 2 ^ 64) names.

Let test := align_sizes (2 ^ k) (add_sizes names size (fun _ => 8)).
Let start := ngx_align base (2 ^ k).

Lemma line_size : 8 <= 2 ^ k <= 256.
Proof using All. split; [change 8 with (2 ^ 3)|change 256 with (2 ^ 8)]; apply Z.pow_le_mono_r; lia. Qed.

(** The bytes of a bucket, with the word at its end. *)
Lemma test_spec i : if decide (bucket_of names i = []) then test i = 8 else 8 + bucket_len names i <= test i /\ (8 | test i) /\ test i <> 8.
Proof using All.
  pose proof line_size as Hline. unfold test, align_sizes. rewrite add_sizes_spec by (intros j; specialize (fits j); pose proof (bucket_len_nonneg names j); lia).
  case_decide as Hb.
  - unfold bucket_len. rewrite Hb. done.
  - assert (16 <= bucket_len names i).
    { unfold bucket_len. pose proof (elts_len_ge (bucket_of names i)). destruct (bucket_of names i); [done|]. cbn [length] in *. lia. }
    rewrite (proj2 (Z.eqb_neq _ _)) by lia. destruct (ngx_align_spec k (8 + bucket_len names i) ltac:(lia)) as [H1 H2].
    specialize (fits i). unfold u16. rewrite Z.mod_small by lia. split_and!; [lia| |lia].
    eapply Z.divide_trans; [|exact H2]. exists (2 ^ (k - 3)). change 8 with (2 ^ 3). rewrite <- Z.pow_add_r by lia. f_equal. lia.
Qed.

Definition width (i : Z) : Z := if test i =? 8 then 0 else test i.

Lemma width_nonneg i : 0 <= width i.
Proof using All. unfold width. pose proof (test_spec i) as H. pose proof (bucket_len_nonneg names i). destruct (Z.eqb_spec (test i) 8); [lia|]. case_decide; lia. Qed.

Definition addr (i : nat) : Z := start + sizes_len i 0 test.

Lemma sizes_len_app a b i : sizes_len (a + b) i test = sizes_len a i test + sizes_len b (i + Z.of_nat a) test.
Proof using All.
  revert i; induction a as [|a IH]; intros i; cbn [Nat.add sizes_len]; [by rewrite Z.add_0_r|]. rewrite IH. replace (i + 1 + Z.of_nat a) with (i + Z.of_nat (S a)) by lia. lia.
Qed.

Lemma sizes_len_nonneg n i : 0 <= sizes_len n i test.
Proof using All. revert i; induction n as [|n IH]; intros i; cbn [sizes_len]; [lia|]. specialize (IH (i + 1)). pose proof (width_nonneg i). unfold width in *. lia. Qed.

Lemma addr_mono a b : (a < b)%nat -> addr a + width (Z.of_nat a) <= addr b.
Proof using All.
  intros H. unfold addr. replace (sizes_len b 0 test) with (sizes_len (a + S (b - S a)) 0 test) by (f_equal; lia). rewrite sizes_len_app. cbn [sizes_len]. pose proof (sizes_len_nonneg (b - S a) (0 + Z.of_nat a + 1)) as Hn.
  rewrite !Z.add_0_l in *. unfold width. lia.
Qed.

Lemma addr_le a b : (a <= b)%nat -> addr a <= addr b.
Proof using All. intros H. unfold addr. replace (sizes_len b 0 test) with (sizes_len (a + (b - a)) 0 test) by (f_equal; lia). rewrite sizes_len_app. pose proof (sizes_len_nonneg (b - a) (0 + Z.of_nat a)). lia. Qed.

Lemma addr_align a : (8 | addr a).
Proof using All.
  unfold addr. apply Z.divide_add_r.
  - unfold start. destruct (ngx_align_spec k base ltac:(lia)) as [_ H2]. eapply Z.divide_trans; [|exact H2]. exists (2 ^ (k - 3)). change 8 with (2 ^ 3). rewrite <- Z.pow_add_r by lia. f_equal. lia.
  - generalize 0. induction a as [|a IH]; intros i; cbn [sizes_len]; [apply Z.divide_0_r|]. apply Z.divide_add_r; [|apply IH].
    pose proof (test_spec i) as Ht. case_decide; [rewrite Ht; apply Z.divide_0_r|]. destruct Ht as (_ & Hdiv & Hne). rewrite (proj2 (Z.eqb_neq _ _)) by done. exact Hdiv.
Qed.

Lemma place_lookup n i elts j : (j < n)%nat ->
  place_buckets n i elts test !! j = Some (if test (i + Z.of_nat j) =? 8 then 0 else elts + sizes_len j i test).
Proof using All.
  revert i elts j; induction n as [|n IH]; intros i elts [|j] Hj; [lia|lia|..]; cbn [place_buckets].
  - rewrite Z.add_0_r. cbn [sizes_len]. destruct (test i =? 8); cbn; [done|]. by rewrite Z.add_0_r.
  - cbn [sizes_len]. replace (i + Z.of_nat (S j)) with (i + 1 + Z.of_nat j) by lia. destruct (test i =? 8); cbn [lookup list_lookup]; rewrite IH by lia; do 2 f_equal; case_match; lia.
Qed.

Let N := Z.to_nat size.
Let buckets := place_buckets N 0 start test.
Let lo := base.
Let hi := base + (sizes_len N 0 test + 2 ^ k).

Lemma start_spec : base <= start < base + 2 ^ k.
Proof using All. destruct (ngx_align_spec k base ltac:(lia)) as [H _]. exact H. Qed.

Lemma buckets_lookup i : (i < N)%nat -> buckets !! i = Some (if decide (bucket_of names (Z.of_nat i) = []) then 0 else addr i).
Proof using All.
  intros Hi. unfold buckets. rewrite place_lookup by done. rewrite Z.add_0_l. fold (addr i). pose proof (test_spec (Z.of_nat i)) as Ht.
  case_decide; [by rewrite Ht|]. by rewrite (proj2 (Z.eqb_neq _ _)) by tauto.
Qed.

(** The memory of a bucket with elements is inside of the region. *)
Lemma bucket_inside i : (i < N)%nat -> bucket_of names (Z.of_nat i) <> [] -> lo <= addr i /\ addr i + bucket_len names (Z.of_nat i) + 8 <= addr i + width (Z.of_nat i) <= hi.
Proof using All.
  intros Hi Hb. pose proof (test_spec (Z.of_nat i)) as Ht. rewrite decide_False in Ht by done. destruct Ht as (H1 & _ & H3).
  pose proof (addr_mono i N Hi) as Hm. pose proof start_spec. pose proof (sizes_len_nonneg i 0). unfold addr, width, lo, hi in *. rewrite (proj2 (Z.eqb_neq _ _)) in * by done. lia.
Qed.

(** The elements of [done] are stored. *)
Record built (done : list hash_key) (tst : Z -> Z) (m : gmap Z Z) : Prop := {
  bt_region x : lo <= x < hi -> is_Some (m !! x);
  bt_elts i : (i < N)%nat -> elts_at m (addr i) (bucket_of done (Z.of_nat i));
  bt_test i : tst i = bucket_len done i
}.

Lemma store_elt m a key v :
  (forall x, a <= x < a + NGX_HASH_ELT_SIZE key -> is_Some (m !! x)) -> Z.of_nat (length key) < 2 ^ 16 ->
  exists m', (m1 ← st_word a v m; m2 ← st_short (a + 8) (u16 (Z.of_nat (length key))) m1; st_bytes (a + 10) (ngx_strlow key) m2) = Some m' /\
    elts_at m' a [(ngx_strlow key, v)] /\ (forall x, ~ a <= x < a + NGX_HASH_ELT_SIZE key -> m' !! x = m !! x) /\ (forall x, is_Some (m !! x) -> is_Some (m' !! x)).
Proof using.
  clear. intros Hm Hl. destruct (elt_size_spec key) as (S1 & S2 & _).
  destruct (st_bytes_ok a (le_bytes 8 v) m) as (m1 & E1 & A1 & F1 & D1); [rewrite le_bytes_length; intros x Hx; apply Hm; lia|].
  destruct (st_bytes_ok (a + 8) (le_bytes 2 (Z.of_nat (length key))) m1) as (m2 & E2 & A2 & F2 & D2); [rewrite le_bytes_length; intros x Hx; apply D1, Hm; lia|].
  destruct (st_bytes_ok (a + 10) (ngx_strlow key) m2) as (m3 & E3 & A3 & F3 & D3); [rewrite ngx_strlow_length; intros x Hx; apply D2, D1, Hm; lia|].
  rewrite le_bytes_length in *. rewrite ngx_strlow_length in *. exists m3. unfold st_word, st_short. rewrite E1. cbn [mbind option_bind].
  replace (u16 (Z.of_nat (length key))) with (Z.of_nat (length key)) by (unfold u16; by rewrite Z.mod_small by lia).
  rewrite E2. cbn [mbind option_bind]. split_and!; [done|..].
  - cbn [elts_at]. rewrite ngx_strlow_length. split_and!; [| |done|done].
    + eapply bytes_at_frame; [exact A1|]. intros x Hx. rewrite le_bytes_length in Hx. rewrite F3, F2 by lia. done.
    + eapply bytes_at_frame; [exact A2|]. intros x Hx. rewrite le_bytes_length in Hx. rewrite F3 by lia. done.
  - intros x Hx. rewrite F3, F2, F1 by lia. done.
  - intros x Hx. by apply D3, D2, D1.
Qed.

Lemma put_elts_ok todo done tst m :
  names = done ++ todo -> built done tst m -> exists tst' m', put_elts todo size buckets tst m = Some (tst', m') /\ built names tst' m'.
Proof using All.
  revert done tst m; induction todo as [|n todo IH]; intros done tst m E Hb; cbn [put_elts].
  { exists tst, m. rewrite app_nil_r in E. rewrite E. done. }
  assert (E' : names = (done ++ [n]) ++ todo) by (by rewrite <- (assoc_L (++))). destruct (hk_null n) eqn:En.
  - apply (IH (done ++ [n])); [exact E'|]. assert (Eb : forall i, bucket_of (done ++ [n]) i = bucket_of done i) by (intros i; rewrite bucket_of_app; cbn; rewrite En; cbn; by rewrite app_nil_r).
    destruct Hb as [B1 B2 B3]. split; [done|by intros i Hi; rewrite Eb; apply B2|]. intros i. unfold bucket_len. rewrite Eb. apply B3.
  - set (key := hk_hash n mod size). pose proof (Z.mod_pos_bound (hk_hash n) size size_pos) as Hk. fold key in Hk. set (j := Z.to_nat key).
    assert (Hj : (j < N)%nat) by (unfold j, N; lia). assert (Ej : Z.of_nat j = key) by (unfold j; lia).
    assert (Eb : forall i, bucket_of (done ++ [n]) i = bucket_of done i ++ (if key =? i then [(ngx_strlow (hk_key n), hk_value n)] else [])).
    { intros i. rewrite bucket_of_app. cbn. rewrite En. cbn [negb andb]. fold key. by rewrite app_nil_r. }
    assert (Elen : bucket_len names key = bucket_len done key + NGX_HASH_ELT_SIZE (hk_key n) + bucket_len todo key).
    { unfold bucket_len. rewrite E', bucket_of_app, Eb, Z.eqb_refl, !elts_len_app, elts_len_one. lia. }
    assert (Hne : bucket_of names (Z.of_nat j) <> []) by (rewrite Ej, E', bucket_of_app, Eb, Z.eqb_refl; by destruct (bucket_of done key)).
    destruct Hb as [B1 B2 B3]. destruct (bucket_inside j Hj Hne) as (I1 & I2 & I3). rewrite Ej in I2, I3.
    rewrite (buckets_lookup j Hj), decide_False by done. cbn [mbind option_bind]. rewrite B3. set (a := addr j + bucket_len done key).
    destruct (elt_size_spec (hk_key n)) as (S1 & S2 & _). pose proof (bucket_len_nonneg done key). pose proof (bucket_len_nonneg todo key). pose proof (fits key).
    destruct (store_elt m a (hk_key n) (hk_value n)) as (m3 & E3 & A3 & F3 & D3); [intros x Hx; apply B1; unfold a in Hx; lia|lia|].
    destruct (st_word a (hk_value n) m) as [m1|]; [|done]. cbn [mbind option_bind] in *. destruct (st_short _ _ m1) as [m2|]; [|done]. cbn [mbind option_bind] in *.
    rewrite E3. cbn [mbind option_bind]. apply (IH (done ++ [n])); [exact E'|]. split.
    + intros x Hx. by apply D3, B1.
    + intros i Hi. rewrite Eb. assert (Hfr : elts_at m3 (addr i) (bucket_of done (Z.of_nat i))).
      { eapply elts_at_frame; [by apply B2|]. intros x Hx. fold (bucket_len done (Z.of_nat i)) in Hx. apply F3. unfold a.
        destruct (Nat.lt_trichotomy i j) as [Hij|[->|Hij]]; [| rewrite Ej in Hx; lia|].
        - pose proof (addr_mono i j Hij). destruct (decide (bucket_of names (Z.of_nat i) = [])) as [En'|Hn'].
          + assert (bucket_of done (Z.of_nat i) = []) as Ed by (rewrite E, bucket_of_app in En'; by apply app_eq_nil in En' as [-> _]). unfold bucket_len in Hx. rewrite Ed in Hx. unfold elts_len in Hx. cbn in Hx. lia.
          + destruct (bucket_inside i Hi Hn') as (_ & K2 & _). assert (bucket_len done (Z.of_nat i) <= bucket_len names (Z.of_nat i)).
            { unfold bucket_len. rewrite E, bucket_of_app, elts_len_app. pose proof (elts_len_ge (bucket_of (n :: todo) (Z.of_nat i))). lia. } lia.
        - pose proof (addr_mono j i Hij) as Hm. rewrite Ej in Hm. lia. }
      destruct (Z.eqb_spec key (Z.of_nat i)) as [Ei|Ei]; [|by rewrite app_nil_r]. assert (i = j) as -> by lia.
      apply elts_at_app. split; [done|]. rewrite Ej. exact A3.
    + intros i. cbn beta. unfold bucket_len. rewrite Eb, elts_len_app. fold (bucket_len done i). rewrite (Z.eqb_sym key i).
      destruct (Z.eqb_spec i key) as [Ei|Ei]; [|rewrite B3; unfold elts_len; cbn; lia]. rewrite Ei, elts_len_one. fold (bucket_len done key).
      unfold u16. rewrite Z.mod_small by lia. lia.
Qed.

(** The first [i] buckets are ended. *)
Definition ended (m : gmap Z Z) (i : nat) : Prop :=
  forall j, (j < i)%nat -> bucket_of names (Z.of_nat j) <> [] -> word_at m (addr j + bucket_len names (Z.of_nat j)) 0.

Lemma buckets_length : length buckets = N.
Proof using.
  unfold buckets. generalize 0 as i. generalize start as e. induction N as [|n IH]; intros e i; cbn [place_buckets]; [done|]. case_match; cbn; by rewrite IH.
Qed.

(** Two buckets with elements are apart. *)
Lemma buckets_apart i j : (i < N)%nat -> (j < N)%nat -> i <> j -> bucket_of names (Z.of_nat i) <> [] -> bucket_of names (Z.of_nat j) <> [] ->
  addr i + bucket_len names (Z.of_nat i) + 8 <= addr j \/ addr j + bucket_len names (Z.of_nat j) + 8 <= addr i.
Proof using All.
  intros Hi Hj Hne Bi Bj. destruct (bucket_inside i Hi Bi) as (_ & I2 & _). destruct (bucket_inside j Hj Bj) as (_ & J2 & _).
  destruct (Nat.lt_gt_cases i j) as [[H|H] _]; [done|..].
  - pose proof (addr_mono i j H). lia.
  - pose proof (addr_mono j i H). lia.
Qed.

Lemma put_ends_ok n i tst m :
  (i + n)%nat = N -> built names tst m -> ended m i -> exists m', put_ends (drop i buckets) (Z.of_nat i) tst m = Some m' /\ built names tst m' /\ ended m' N.
Proof using All.
  revert i m; induction n as [|n IH]; intros i m En Hb He.
  { assert (i = N) as -> by lia. rewrite drop_ge by (rewrite buckets_length; lia). by exists m. }
  assert (Hi : (i < N)%nat) by lia. rewrite (drop_S _ _ _ (buckets_lookup i Hi)). cbn [put_ends].
  replace (Z.of_nat i + 1) with (Z.of_nat (S i)) by lia. case_decide as Hn.
  - cbn [mbind option_bind]. change (0 =? 0) with true. cbn iota. apply IH; [lia|done|]. intros j Hj Hne. destruct (Nat.eq_dec j i) as [->|]; [done|]. apply He; [lia|done].
  - destruct (bucket_inside i Hi Hn) as (I1 & I2 & I3). pose proof (bucket_len_nonneg names (Z.of_nat i)) as Hl.
    rewrite (proj2 (Z.eqb_neq (addr i) 0)) by (unfold lo in I1; lia). rewrite (bt_test _ _ _ Hb). set (a := addr i + bucket_len names (Z.of_nat i)).
    destruct (st_bytes_ok a (le_bytes 8 0) m) as (m1 & E1 & A1 & F1 & D1); [rewrite le_bytes_length; intros x Hx; apply (bt_region _ _ _ Hb); unfold a in Hx; lia|].
    unfold st_word. rewrite E1. cbn [mbind option_bind]. rewrite le_bytes_length in F1. destruct Hb as [B1 B2 B3]. apply IH; [lia|split; [by intros x Hx; apply D1, B1| |done]|].
    + intros j Hj. destruct (decide (bucket_of names (Z.of_nat j) = [])) as [->|Hne]; [done|]. eapply elts_at_frame; [by apply B2|]. intros x Hx. fold (bucket_len names (Z.of_nat j)) in Hx. apply F1. unfold a.
      destruct (Nat.eq_dec j i) as [->|Hji]; [lia|]. destruct (buckets_apart i j Hi Hj ltac:(congruence) Hn Hne); lia.
    + intros j Hj Hne. destruct (Nat.eq_dec j i) as [->|Hji]; [exact A1|]. eapply bytes_at_frame; [apply He; [lia|done]|]. intros x Hx. rewrite le_bytes_length in Hx. apply F1. unfold a.
      assert (Hj2 : (j < N)%nat) by lia. pose proof (bucket_len_nonneg names (Z.of_nat j)). destruct (buckets_apart i j Hi Hj2 ltac:(congruence) Hn Hne); lia.
Qed.

(** A search in the table is a search in the bucket. *)
Lemma hash_build_ok bucket_size max_size :
  exists h, hash_build {| hi_max_size := max_size; hi_bucket_size := bucket_size; ngx_cacheline_size := 2 ^ k |} junk base size names = Some h /\
    forall key name, ngx_hash_find h key name = Some (assoc name (bucket_of names (key mod size))).
Proof using All.
  unfold hash_build. cbn [ngx_cacheline_size]. fold test N start buckets.
  destruct (put_elts_ok names [] (fun _ => 0) (region junk base (sizes_len N 0 test + 2 ^ k)) eq_refl) as (tst & m & -> & Hb).
  { split; [intros x Hx; by apply region_lookup|done|done]. }
  cbn [mbind option_bind]. destruct (put_ends_ok N O tst m eq_refl Hb) as (m' & E & Hb' & He); [intros j Hj; lia|].
  change (drop 0 buckets) with buckets in E. change (Z.of_nat 0) with 0 in E. rewrite E. cbn [mbind option_bind]. eexists. split; [reflexivity|].
  intros key name. unfold ngx_hash_find. cbn [h_buckets h_size h_mem]. pose proof (Z.mod_pos_bound key size size_pos) as Hk. set (i := Z.to_nat (key mod size)).
  assert (Hi : (i < N)%nat) by (unfold i, N; lia). assert (Ei : Z.of_nat i = key mod size) by (unfold i; lia). rewrite (buckets_lookup i Hi). cbn [mbind option_bind]. rewrite Ei.
  case_decide as Hn; [by rewrite Hn|]. assert (Hn' : bucket_of names (Z.of_nat i) <> []) by (by rewrite Ei). destruct (bucket_inside i Hi Hn') as (I1 & _). unfold lo in I1.
  rewrite (proj2 (Z.eqb_neq (addr i) 0)) by lia. pose proof (fits (key mod size)) as Hf. pose proof (elts_len_ge (bucket_of names (key mod size))) as Hl. fold (bucket_len names (key mod size)) in Hl.
  apply find_elt_ok; [apply addr_align|rewrite <- Ei; by apply (bt_elts _ _ _ Hb')|rewrite <- Ei; by apply He| |lia].
  apply Forall_forall. intros [nm v] Hin. pose proof Hin as Hin'. unfold bucket_of in Hin'. apply list_elem_of_In, in_flat_map in Hin' as (n & Hn1 & Hn2).
  destruct (_ && _); [|done]. destruct Hn2 as [[= <- <-]|[]]. split; cbn [fst snd].
  - rewrite ngx_strlow_length. destruct (elt_size_spec (hk_key n)) as (_ & S2 & _). unfold bucket_len in Hf.
    pose proof (sumZ_le (fun x => NGX_HASH_ELT_SIZE x.1) (bucket_of names (key mod size)) 0 (ngx_strlow (hk_key n), hk_value n)) as Hs.
    cbn [fst] in Hs. rewrite elt_size_low in Hs. unfold elts_len in Hf. apply list_elem_of_In in Hin. specialize (Hs ltac:(intros y _; destruct (elt_size_spec y.1) as [? _]; lia) Hin). lia.
  - rewrite Forall_forall in names_ok. apply names_ok. by apply list_elem_of_In.
Qed.
End Names.

(** ** Tables as maps *)

(** All names with their values. *)
Definition entries (names : list hash_key) : list element :=
  flat_map (fun n => if hk_null n then [] else [(ngx_strlow (hk_key n), hk_value n)]) names.

(** The hashes of the names are those of a function of the names in lower case. *)
Definition hashed_by (hashf : list Z -> Z) (names : list hash_key) : Prop :=
  Forall (fun n => hk_hash n = hashf (ngx_strlow (hk_key n))) names.

Lemma assoc_bucket size hashf names name : hashed_by hashf names -> assoc name (bucket_of size names (hashf name mod size)) = assoc name (entries names).
Proof.
  induction 1 as [|n names Hn _ IH]; [done|]. rewrite bucket_of_cons. unfold entries. cbn [flat_map]. fold (entries names).
  destruct (hk_null n); cbn [negb andb app]; [exact IH|]. cbn [assoc]. case_bool_decide as E.
  - rewrite Hn, <- E, Z.eqb_refl. cbn. by rewrite bool_decide_eq_true_2.
  - destruct (_ =? _); cbn; [by rewrite bool_decide_eq_false_2|exact IH].
Qed.

Lemma find_size_spec B names fuel size :
  0 < size -> 0 <= B < 2 ^ 15 -> Forall (fun n => NGX_HASH_ELT_SIZE (hk_key n) <= B) names ->
  match find_size fuel names size B with
  | Some s => size <= s < size + Z.of_nat fuel /\ forall i, bucket_len s names i <= B
  | None => forall s, size <= s < size + Z.of_nat fuel -> exists i, 0 <= i < s /\ B < bucket_len s names i
  end.
Proof.
  intros Hs HB Hn. revert size Hs; induction fuel as [|fuel IH]; intros size Hs; cbn [find_size]; [lia|].
  pose proof (try_size_spec size Hs names B (fun _ => 0) HB Hn ltac:(intros; lia)) as Ht. destruct (try_size names size B (fun _ => 0)) as [t|].
  - split; [lia|exact Ht].
  - specialize (IH (size + 1) ltac:(lia)). destruct (find_size fuel names (size + 1) B) as [s|].
    + destruct IH as [H1 H2]. split; [lia|exact H2].
    + intros s Hx. destruct (Z.eq_dec s size) as [->|]; [exact Ht|]. apply IH. lia.
Qed.

Lemma hash_start_pos p nelts B : 0 <= nelts -> 16 <= B -> 0 < hash_start p nelts B.
Proof.
  intros Hn HB. unfold hash_start. assert (0 < B / 16) by (apply Z.div_str_pos; lia). pose proof (Z.div_pos nelts (B / 16) ltac:(lia) ltac:(lia)).
  destruct (_ && _) eqn:E; [apply andb_true_iff in E as [[E%Z.ltb_lt _]%andb_true_iff _]; lia|]. destruct (Z.eqb_spec (nelts / (B / 16)) 0); lia.
Qed.

Record params_ok (p : hash_params) : Prop := {
  po_bucket : 24 <= hi_bucket_size p <= 2 ^ 15;
  po_line : exists k, 3 <= k <= 8 /\ ngx_cacheline_size p = 2 ^ k
}.

Definition no_memory (mem : hash_memory) : Prop := hm_test mem = false \/ hm_table mem = false \/ hm_elts mem = 0.

(** What [ngx_hash_init] gives. *)
Lemma hash_init_ok p junk mem names hashf :
  params_ok p -> 0 <= hm_elts mem -> Forall (fun n => 0 < hk_value n < 2 ^ 64) names -> hashed_by hashf names ->
  exists r, ngx_hash_init p junk mem names = Some r /\
    match r with
    | Some h => forall name, ngx_hash_find h (hashf name) name = Some (assoc name (entries names))
    | None =>
        no_memory mem \/
        (exists n, n ∈ names /\ hi_bucket_size p < NGX_HASH_ELT_SIZE (hk_key n) + 8) \/
        forall size, hash_start p (Z.of_nat (length names)) (hi_bucket_size p - 8) <= size < hi_max_size p ->
          exists i, 0 <= i < size /\ hi_bucket_size p < bucket_len size names i + 8
    end.
Proof.
  intros [Hb (k & Hk & Hline)] Hbase Hv Hh. unfold ngx_hash_init. destruct (existsb _ names) eqn:Ex.
  { exists None. split; [done|]. right. left. apply existsb_exists in Ex as (n & Hn & Hlt%Z.ltb_lt). exists n. split; [by apply list_elem_of_In|done]. }
  destruct (hm_test mem) eqn:Et; cbn [negb]; [|exists None; split; [done|by left; left]].
  rewrite u64_small by lia. set (B := hi_bucket_size p - 8). assert (HB : 16 <= B < 2 ^ 15) by (unfold B; lia).
  assert (Hn : Forall (fun n => NGX_HASH_ELT_SIZE (hk_key n) <= B) names).
  { apply Forall_forall. intros n Hn. apply list_elem_of_In in Hn. destruct (Z.le_gt_cases (NGX_HASH_ELT_SIZE (hk_key n)) B) as [|Hgt]; [done|]. exfalso.
    assert (existsb (fun n => hi_bucket_size p <? NGX_HASH_ELT_SIZE (hk_key n) + 8) names = true); [|congruence]. apply existsb_exists. exists n. split; [done|]. apply Z.ltb_lt. unfold B in Hgt. lia. }
  assert (0 < B / 16) by (apply Z.div_str_pos; lia). rewrite (proj2 (Z.eqb_neq (B / 16) 0)) by lia. set (start := hash_start p _ B).
  assert (Hst : 0 < start) by (apply hash_start_pos; lia). pose proof (find_size_spec B names (Z.to_nat (hi_max_size p - start)) start Hst ltac:(lia) Hn) as Hf.
  destruct (find_size _ names start B) as [size|].
  - destruct (hm_table mem) eqn:Em; cbn [negb]; [|exists None; split; [done|by left; right; left]].
    destruct (Z.eqb_spec (hm_elts mem) 0) as [Ez|Ez]; [exists None; split; [done|by left; right; right]|]. assert (Hb0 : 0 < hm_elts mem) by lia.
    destruct Hf as [Hsz Hfit]. destruct p as [mx bs cl]. cbn [hi_max_size hi_bucket_size ngx_cacheline_size] in *. subst cl.
    destruct (hash_build_ok size ltac:(lia) names k (hm_elts mem) junk Hk Hb0 ltac:(intros i; specialize (Hfit i); lia) Hv bs mx) as (h & -> & Hfind).
    cbn [mbind option_bind]. eexists. split; [reflexivity|]. intros name. by rewrite Hfind, assoc_bucket.
  - exists None. split; [done|]. right. right. intros size Hsz. destruct (Hf size ltac:(lia)) as (i & Hi & Hlt). exists i. unfold B in Hlt. split; [done|lia].
Qed.

(** C16: with buckets of 24 to 32768 bytes and a cache line of 8 to 256, making a hash table of any names ends without a fault: it gives a table in which a search for a name gives the value of the first entry with that name in lower case, and NULL when there is none; or it fails, and then only because an allocation failed, an element is too large for a bucket, or for every size that is tried the elements of some bucket do not fit. *)
Theorem hash_init_find p junk mem names :
  params_ok p -> 0 <= hm_elts mem -> Forall (fun n => 0 < hk_value n < 2 ^ 64) names -> hashed_by ngx_hash_key names ->
  exists r, ngx_hash_init p junk mem names = Some r /\
    match r with
    | Some h => forall name, ngx_hash_find h (ngx_hash_key name) name = Some (assoc name (entries names))
    | None =>
        no_memory mem \/
        (exists n, n ∈ names /\ hi_bucket_size p < NGX_HASH_ELT_SIZE (hk_key n) + 8) \/
        forall size, hash_start p (Z.of_nat (length names)) (hi_bucket_size p - 8) <= size < hi_max_size p ->
          exists i, 0 <= i < size /\ hi_bucket_size p < bucket_len size names i + 8
    end.
Proof. apply hash_init_ok. Qed.

(** ** Samples *)

Definition sample_params : hash_params := {| hi_max_size := 512; hi_bucket_size := 64; ngx_cacheline_size := 64 |}.

Lemma sample_params_ok : params_ok sample_params.
Proof. split; [cbn; lia|]. exists 6. split; [lia|done]. Qed.

Definition sample_names : list hash_key := [name_key (B! "Host") 8; name_key (B! "accept") 16; name_key (B! "x-real-ip") 24].

Lemma hash_init_find_witness : (h ← ngx_hash_init sample_params (fun _ => 7) (memory_at 1000) sample_names; h ← h; ngx_hash_find h (ngx_hash_key (B! "host")) (B! "host")) = Some 8.
Proof.
  destruct (hash_init_find sample_params (fun _ => 7) (memory_at 1000) sample_names sample_params_ok ltac:(cbn; lia)) as (r & E & Hr).
  - repeat constructor; vm_compute; done.
  - repeat constructor; vm_compute; done.
  - rewrite E. cbn [mbind option_bind]. destruct r as [h|]; [exact (Hr (B! "host"))|vm_compute in E; discriminate E].
Defined.

(** The size of a bucket is compared after it is cut to 16 bits: with a larger one no table can be made. *)
Lemma hash_bucket_truncated :
  ngx_hash_init {| hi_max_size := 100; hi_bucket_size := 65536 + 8; ngx_cacheline_size := 64 |} (fun _ => 7) (memory_at 1000) sample_names = Some None.
Proof. vm_compute. reflexivity. Qed.
