(* ===== verification/NgxHashWildcard.v ===== *)
(** * Hash tables of wildcard names

    src/nginx-1.4.7/src/core/ngx_hash.c: the names with wildcards of a server are
    kept in nested hash tables, one level for each label.  The value of a label is
    a pointer to data or to the table of the next labels, and its two low bits tell
    which.

    The tables are in a finite map of addresses.  The addresses that the memory
    pool returns are given: for each table one for the table and one for its
    elements; where the list ends, there is no more memory.  [Fault] is an access outside of memory, a wrapped length or the end
    of the fuel. *)
From stdpp Require Import gmap.
From S2P Require Import Prelude HttpChars NgxHashKey NgxStrings NgxHash.

(** ** Definitions *)

(** A table and the value of its wildcard name, 0 for NULL.
    [core/ngx_hash.h:29-32] ngx_hash_wildcard_t *)
Definition wildcard : Type := hash_table * Z.
Record wc_store : Type := { wc_tables : gmap Z wildcard; wc_pool : list (Z * Z) }.

Inductive res (A : Type) : Type := Fault | Error | Ok (x : A) (st : wc_store).
Arguments Fault {A}.
Arguments Error {A}.
Arguments Ok {A} x st.

Definition bind {A B} (m : res A) (f : A -> wc_store -> res B) : res B :=
  match m with Fault => Fault | Error => Error | Ok x st => f x st end.

(** A name with its value; the key is computed when it is stored. *)
Record wc_name : Type := { wn_key : list Z; wn_value : Z }.

(** The length up to the first dot, and whether there is one.
    [core/ngx_hash.c:492-497] for (len = 0; len < names\[n\].key.len; len++) *)
Fixpoint first_dot (key : list Z) : nat * bool :=
  match key with
  | [] => (O, false)
  | c :: key => if c =? C! "." then (O, true) else let (len, dot) := first_dot key in (S len, dot)
  end.

(** The names after [first] that share its first label, without it, and the rest;
    [None] is a length that wraps.
    [core/ngx_hash.c:539-565] for (i = n + 1; i < nelts; i++) *)
Fixpoint wc_group (first : list Z) (len : nat) (dot : bool) (dot_len : nat) (names : list wc_name) : option (list wc_name * list wc_name) :=
  match names with
  | [] => Some ([], [])
  | x :: names' =>
      if negb (strncmp first (wn_key x) len =? 0) then Some ([], names)
      else if negb dot && (len <? length (wn_key x))%nat && negb (nth len (wn_key x) 0 =? C! ".") then Some ([], names)
      else if (length (wn_key x) <? dot_len)%nat then None
      else
        '(next, rest) ← wc_group first len dot dot_len names';
        Some ({| wn_key := drop dot_len (wn_key x); wn_value := wn_value x |} :: next, rest)
  end.

Section Init.
Context (p : hash_params) (junk : Z -> Z).

(** A table of the names of one level.
    [core/ngx_hash.c:352-377] hinit->hash *)
Definition wc_table (curr : list hash_key) (st : wc_store) : res Z :=
  match wc_pool st with
  | [] => Error
  | (a, base) :: pool =>
      match ngx_hash_init p junk (memory_at base) curr with
      | None => Fault
      | Some None => Error
      | Some (Some h) => Ok a {| wc_tables := <[a := (h, 0)]> (wc_tables st); wc_pool := pool |}
      end
  end.

(** [wdc->value = names\[n\].value]
    [core/ngx_hash.c:581-583] if (names\[n\].key.len == len) *)
Definition wc_set_value (a v : Z) (st : wc_store) : wc_store :=
  {| st with wc_tables := alter (fun t => (t.1, v)) a (wc_tables st) |}.

(** [init] is the call for the next labels.
    [core/ngx_hash.c:483-590] for (n = 0; n < nelts; n = i) *)
Fixpoint wc_loop (init : list wc_name -> wc_store -> res Z) (k : nat) (names : list wc_name) (st : wc_store) : res (list hash_key) :=
  match k, names with
  | _, [] => Ok [] st
  | O, _ => Fault
  | S k, x :: names =>
      let key := wn_key x in
      let '(label, dot) := first_dot key in
      let dot_len := S label in
      let len := if dot then S label else label in
      let own := if (length key =? len)%nat then [] else [{| wn_key := drop len key; wn_value := wn_value x |}] in
      match wc_group key len dot dot_len names with
      | None => Fault
      | Some (next, rest) =>
          let name (value : Z) :=
            {| hk_null := false; hk_key := take label key; hk_hash := ngx_hash_key_lc (take label key); hk_value := value |} in
          bind
            (match own ++ next with
             | [] => Ok (if dot then Z.lor (wn_value x) 1 else wn_value x) st
             | next_names =>
                 bind (init next_names st) (fun wdc st =>
                 let st := if (length key =? len)%nat then wc_set_value wdc (wn_value x) st else st in
                 Ok (Z.lor wdc (if dot then 3 else 2)) st)
             end)
            (fun value st => bind (wc_loop init k rest st) (fun curr st => Ok (name value :: curr) st))
      end
  end.

(** The address of the table.
    [core/ngx_hash.c:458-600] ngx_hash_wildcard_init *)
Fixpoint ngx_hash_wildcard_init (fuel : nat) (names : list wc_name) (st : wc_store) : res Z :=
  match fuel with
  | O => Fault
  | S fuel => bind (wc_loop (ngx_hash_wildcard_init fuel) (length names) names st) wc_table
  end.
End Init.

(** ** Search *)

(** The bytes up to the last dot, without it; [None] when there is no dot.
    [core/ngx_hash.c:62-70] while (n) *)
Fixpoint before_last_dot (name : list Z) : option (list Z) :=
  match name with
  | [] => None
  | c :: name =>
      match before_last_dot name with
      | Some l => Some (c :: l)
      | None => if c =? C! "." then Some [] else None
      end
  end.

(** [core/ngx_hash.c:52-143] ngx_hash_find_wc_head *)
Fixpoint ngx_hash_find_wc_head (fuel : nat) (T : gmap Z wildcard) (hwc : Z) (name : list Z) : option Z :=
  match fuel with
  | O => None
  | S fuel =>
      t ← T !! hwc;
      let before := before_last_dot name in
      let label := match before with Some l => drop (S (length l)) name | None => name end in
      value ← ngx_hash_find t.1 (ngx_hash_key label) label;
      if value =? 0 then Some t.2
      else if negb (Z.land value 2 =? 0) then
        match before with
        | None =>
            if negb (Z.land value 1 =? 0) then Some 0
            else sub ← T !! Z.ldiff value 3; Some sub.2
        | Some l =>
            let hwc := Z.ldiff value 3 in
            sub ← T !! hwc;
            v ← ngx_hash_find_wc_head fuel T hwc l;
            Some (if v =? 0 then sub.2 else v)
        end
      else if negb (Z.land value 1 =? 0) then
        match before with None => Some 0 | Some _ => Some (Z.ldiff value 3) end
      else Some value
  end.

(** [core/ngx_hash.c:146-207] ngx_hash_find_wc_tail *)
Fixpoint ngx_hash_find_wc_tail (fuel : nat) (T : gmap Z wildcard) (hwc : Z) (name : list Z) : option Z :=
  match fuel with
  | O => None
  | S fuel =>
      let '(i, dot) := first_dot name in
      if negb dot then Some 0
      else
        t ← T !! hwc;
        value ← ngx_hash_find t.1 (ngx_hash_key (take i name)) (take i name);
        if value =? 0 then Some t.2
        else if negb (Z.land value 2 =? 0) then
          let hwc := Z.ldiff value 3 in
          sub ← T !! hwc;
          v ← ngx_hash_find_wc_tail fuel T hwc (drop (S i) name);
          Some (if v =? 0 then sub.2 else v)
        else Some value
  end.

(** Absent tables are [None].
    [core/ngx_hash.h:45-49] ngx_hash_combined_t *)
Record combined : Type := { cb_hash : option hash_table; cb_wc_head : option Z; cb_wc_tail : option Z }.

(** [core/ngx_hash.c:210-245] ngx_hash_find_combined *)
Definition ngx_hash_find_combined (T : gmap Z wildcard) (hash : combined) (key : Z) (name : list Z) : option Z :=
  let fuel := S (length name) in
  v ← match cb_hash hash with Some h => ngx_hash_find h key name | None => Some 0 end;
  if negb (v =? 0) then Some v
  else if (length name =? 0)%nat then Some 0
  else
    v ← match cb_wc_head hash with Some a => ngx_hash_find_wc_head fuel T a name | None => Some 0 end;
    if negb (v =? 0) then Some v
    else match cb_wc_tail hash with Some a => ngx_hash_find_wc_tail fuel T a name | None => Some 0 end.
