(* ===== verification/NgxHashNames.v ===== *)
(** * The names of servers

    What the nested tables of [NgxHashWildcard] mean: a search finds the wildcard
    name with the most labels that matches. *)
From stdpp Require Import gmap sorting.
From S2P Require Import Prelude HttpChars NgxHashKey NgxStrings NgxHash NgxHashLayout NgxHashWildcard.

(** ** Names and labels *)

Abbreviation labels := (list (list Z)) (only parsing).

(** Bytes of labels: after the blank, no dot, in lower case. *)
Definition letter (c : Z) : Prop := 32 < c < 256 /\ c <> C! "." /\ ngx_tolower c = c /\ fold_case c = c.

Definition label_ok (l : list Z) : Prop := l <> [] /\ Forall letter l.

#[export] Instance letter_dec c : Decision (letter c).
Proof. unfold letter. apply _. Defined.

#[export] Instance label_ok_dec l : Decision (label_ok l).
Proof. unfold label_ok. apply _. Defined.

Fixpoint join (P : labels) : list Z :=
  match P with
  | [] => []
  | [l] => l
  | l :: P => l ++ C! "." :: join P
  end.

(** A wildcard name: the labels with the last one first, and whether the name
    itself is not meant. *)
Record wc_entry : Type := { we_path : labels; we_star : bool; we_value : Z }.

(** [com.example.] for the star and [com.example] without it. *)
Definition entry_text (e : wc_entry) : list Z := join (we_path e) ++ if we_star e then [C! "."] else [].

Definition ptr_ok (v : Z) : Prop := 0 < v < 2 ^ 64 /\ v mod 4 = 0.

Definition entry_ok (e : wc_entry) : Prop := we_path e <> [] /\ Forall label_ok (we_path e) /\ ptr_ok (we_value e).

#[export] Instance entry_ok_dec e : Decision (entry_ok e).
Proof. unfold entry_ok, ptr_ok. apply _. Defined.

Definition to_name (e : wc_entry) : wc_name := {| wn_key := entry_text e; wn_value := we_value e |}.

(** The entry whose only label is [l], and the rests of the longer ones. *)
Definition own (l : list Z) (E : list wc_entry) : option wc_entry := head (filter (fun e => we_path e = [l]) E).

Definition strip (l : list Z) (e : wc_entry) : list wc_entry :=
  match we_path e with
  | m :: ((_ :: _) as P) => if bool_decide (m = l) then [{| we_path := P; we_star := we_star e; we_value := we_value e |}] else []
  | _ => []
  end.
Definition sub (l : list Z) (E : list wc_entry) : list wc_entry := flat_map (strip l) E.

(** The value for the labels of a host: that of the longest match, 0 when there is
    none.  [tail] is for the names that end in a wildcard. *)
Fixpoint best (tail : bool) (E : list wc_entry) (L : labels) : Z :=
  match L with
  | [] => 0
  | l :: L =>
      let b := best tail (sub l E) L in
      if b =? 0 then
        match own l E with
        | Some e => if bool_decide (L = []) && (tail || we_star e) then 0 else we_value e
        | None => 0
        end
      else b
  end.

Definition matches (tail : bool) (e : wc_entry) (L : labels) : Prop :=
  we_path e `prefix_of` L /\ (tail || we_star e = true -> we_path e <> L).

Lemma own_Some l E e : own l E = Some e -> e ∈ E /\ we_path e = [l].
Proof.
  unfold own. intros H. assert (Hin : e ∈ filter (fun e => we_path e = [l]) E) by (destruct (filter _ E); [done|injection H as ->; left]).
  by apply list_elem_of_filter in Hin as [? ?].
Qed.

Lemma own_None l E e : own l E = None -> e ∈ E -> we_path e <> [l].
Proof.
  unfold own. intros H He Hp. assert (Hin : e ∈ filter (fun e => we_path e = [l]) E) by (by apply list_elem_of_filter).
  destruct (filter _ E); [by apply elem_of_nil in Hin|done].
Qed.

Lemma elem_of_sub l E e : e ∈ sub l E <-> exists P, we_path e = P /\ P <> [] /\ {| we_path := l :: P; we_star := we_star e; we_value := we_value e |} ∈ E.
Proof.
  unfold sub. rewrite list_elem_of_In, in_flat_map. split.
  - intros (x & Hx & Hs). apply list_elem_of_In in Hx. unfold strip in Hs. destruct (we_path x) as [|m [|m' P]] eqn:Ep; [done|done|]. case_bool_decide as Em; [|done].
    destruct Hs as [<-|[]]. cbn. exists (m' :: P). split_and!; [done|done|]. destruct x; cbn in *. by subst.
  - intros (P & Ep & Hne & Hin). apply list_elem_of_In in Hin. eexists. split; [exact Hin|]. unfold strip. cbn. destruct P as [|m P]; [done|].
    rewrite bool_decide_eq_true_2 by done. left. destruct e; cbn in *. by subst.
Qed.

Lemma path_unique E e e' : NoDup (map we_path E) -> e ∈ E -> e' ∈ E -> we_path e = we_path e' -> e = e'.
Proof.
  intros Hnd He He' Hp. induction E as [|x E IH]; [by apply elem_of_nil in He|]. cbn in Hnd. apply NoDup_cons in Hnd as [Hx Hnd].
  apply elem_of_cons in He as [->|He], He' as [->|He']; [done|..|by apply IH]; exfalso; apply Hx; [rewrite Hp|rewrite <- Hp]; by apply list_elem_of_fmap_2.
Qed.

Lemma sub_nodup l E : NoDup (map we_path E) -> NoDup (map we_path (sub l E)).
Proof.
  induction E as [|x E IH]; [done|]. cbn [map]. intros [Hx Hnd]%NoDup_cons. unfold sub. cbn [flat_map]. fold (sub l E). specialize (IH Hnd).
  unfold strip. destruct (we_path x) as [|m [|m' P]] eqn:Ep; [done|done|]. case_bool_decide as Em; [|done]. cbn. constructor; [|done]. intros Hin. apply Hx.
  apply list_elem_of_fmap in Hin as (y & Ey & (Q & EQ & _ & Hin)%elem_of_sub). subst m. rewrite Ey, EQ.
  change (l :: Q) with (we_path {| we_path := l :: Q; we_star := we_star y; we_value := we_value y |}). by apply list_elem_of_fmap_2.
Qed.

Lemma sub_ok l E : Forall entry_ok E -> Forall entry_ok (sub l E).
Proof.
  rewrite !Forall_forall. intros HE e (P & Ep & Hne & Hin)%elem_of_sub. destruct (HE _ Hin) as (_ & H2 & H3). cbn in *.
  split_and!; [by rewrite Ep|rewrite Ep; by apply Forall_cons in H2 as [_ ?]|done].
Qed.

(** An entry matches by its only label or by the rest of its labels. *)
Lemma matches_cons tail l L e :
  we_path e <> [] ->
  matches tail e (l :: L) <-> (we_path e = [l] /\ (tail || we_star e = true -> L <> [])) \/ exists e', strip l e = [e'] /\ matches tail e' L.
Proof.
  intros Hne. unfold matches, strip. destruct (we_path e) as [|m [|m' P]]; [done|..].
  - split.
    + intros [[w Hw] Hs]. injection Hw as -> Hw. left. split; [done|]. intros Ht ->. by apply Hs.
    + intros [[[= ->] Hs]|(e' & ? & _)]; [|done]. split; [by exists L|]. intros Ht [= EL]. by apply (Hs Ht).
  - split.
    + intros [[w Hw] Hs]. injection Hw as -> Hw. right. rewrite bool_decide_eq_true_2 by done. eexists. split; [reflexivity|]. cbn. split; [by exists w|].
      intros Ht EL. apply Hs; [done|]. by rewrite EL.
    + intros [[? _]|(e' & Es & Hp & Hs)]; [done|]. case_bool_decide as Em; [|done]. injection Es as <-. cbn in *. subst m. split; [by apply prefix_cons|].
      intros Ht [= EL]. by apply (Hs Ht).
Qed.

Lemma strip_in l E e e' : e ∈ E -> strip l e = [e'] -> e' ∈ sub l E.
Proof. intros He Es. unfold sub. apply list_elem_of_In, in_flat_map. exists e. split; [by apply list_elem_of_In|]. rewrite Es. by left. Qed.

Lemma in_strip l E e' : e' ∈ sub l E -> exists e, e ∈ E /\ strip l e = [e'].
Proof.
  unfold sub. rewrite list_elem_of_In, in_flat_map. intros (e & He & Hs). exists e. split; [by apply list_elem_of_In|]. unfold strip in *.
  destruct (we_path e) as [|m [|m' P]]; [done..|]. case_bool_decide; [|done]. by destruct Hs as [->|[]].
Qed.

Lemma strip_length l e e' : strip l e = [e'] -> we_path e = l :: we_path e' /\ we_value e = we_value e'.
Proof. unfold strip. destruct (we_path e) as [|m [|m' P]]; [done..|]. case_bool_decide as Em; [|done]. intros [= <-]. cbn. by subst. Qed.

(** The value is that of a matching entry with the most labels. *)
Definition longest (tail : bool) (E : list wc_entry) (L : labels) (b : Z) : Prop :=
  (b = 0 /\ forall e, e ∈ E -> ~ matches tail e L) \/
  exists e, e ∈ E /\ matches tail e L /\ b = we_value e /\ forall e', e' ∈ E -> matches tail e' L -> (length (we_path e') <= length (we_path e))%nat.

Lemma best_longest tail E L : Forall entry_ok E -> NoDup (map we_path E) -> longest tail E L (best tail E L).
Proof.
  revert E; induction L as [|l L IH]; intros E HE Hnd; pose proof HE as HE'; rewrite Forall_forall in HE'.
  { left. split; [done|]. intros e He [Hp _]. destruct (HE' e He) as (Hne & _). by apply prefix_nil_inv in Hp. }
  specialize (IH (sub l E) (sub_ok l E HE) (sub_nodup l E Hnd)). cbn [best]. set (b := best tail (sub l E) L) in *.
  assert (Hm : forall e, e ∈ E -> matches tail e (l :: L) <-> (we_path e = [l] /\ (tail || we_star e = true -> L <> [])) \/ exists e', strip l e = [e'] /\ matches tail e' L).
  { intros e He. apply matches_cons. by apply HE'. }
  destruct IH as [[-> Hno]|(e' & He' & Hme & Eb & Hmax)].
  - change (0 =? 0) with true. cbn iota. assert (Hno' : forall e, e ∈ E -> ~ exists e', strip l e = [e'] /\ matches tail e' L).
    { intros e He (e' & Es & Hx). apply (Hno e'); [by eapply strip_in|done]. }
    destruct (own l E) as [e|] eqn:Eo.
    + apply own_Some in Eo as [He Ep]. assert (Huniq : forall x, x ∈ E -> we_path x = [l] -> x = e) by (intros x Hx Hp; eapply path_unique; [done|done|done|congruence]).
      case_bool_decide as EL; cbn [andb]; [destruct (tail || we_star e) eqn:Et|].
      * left. split; [done|]. intros x Hx [[Hp HL]|Hs]%Hm; [|by apply (Hno' x)|done]. rewrite (Huniq x Hx Hp) in HL. by apply (HL Et).
      * right. exists e. split_and!; [done|apply Hm; [done|left; split; [done|congruence]]|done|]. intros x Hx [[Hp _]|Hs]%Hm; [by rewrite Hp, Ep|by apply Hno' in Hs|done].
      * right. exists e. split_and!; [done|apply Hm; [done|by left]|done|]. intros x Hx [[Hp _]|Hs]%Hm; [by rewrite Hp, Ep|by apply Hno' in Hs|done].
    + left. split; [done|]. intros x Hx [[Hp _]|Hs]%Hm; [by apply (own_None l E x Eo Hx)|by apply Hno' in Hs|done].
  - destruct (in_strip l E e' He') as (e & He & Es). destruct (strip_length l e e' Es) as [Ep Ev].
    assert (b <> 0). { rewrite Eb, <- Ev. destruct (HE' e He) as (_ & _ & [? _]). lia. } rewrite (proj2 (Z.eqb_neq b 0)) by done.
    right. exists e. split_and!; [done|apply Hm; [done|right; eauto]|congruence|]. intros x Hx [[Hp _]|(x' & Ex & Hx')]%Hm; [rewrite Hp, Ep; cbn; lia| |done].
    destruct (strip_length l x x' Ex) as [Epx _]. rewrite Epx, Ep. cbn. specialize (Hmax x' (strip_in l E x x' Hx Ex) Hx'). lia.
Qed.

(** ** Tables *)

(** Pointers with a tag in their two low bits. *)
Lemma land_aligned v m : v mod 4 = 0 -> 0 <= m < 4 -> Z.land v m = 0.
Proof.
  intros Hv Hm. replace m with (Z.land (Z.ones 2) m) by (rewrite Z.land_comm, Z.land_ones by lia; apply Z.mod_small; lia).
  rewrite Z.land_assoc, Z.land_ones by lia. change (2 ^ 2) with 4. by rewrite Hv.
Qed.

Lemma tag_spec v t : v mod 4 = 0 -> 0 <= t < 4 ->
  Z.lor v t = v + t /\ (forall m, 0 <= m < 4 -> Z.land (Z.lor v t) m = Z.land t m) /\ Z.ldiff (Z.lor v t) 3 = v.
Proof.
  intros Hv Ht. assert (E : Z.lor v t = v + t).
  { pose proof (lor_shiftl_add (v / 4) t 2 ltac:(lia) ltac:(lia)) as H. rewrite Z.shiftl_mul_pow2 in H by lia. change (2 ^ 2) with 4 in H.
    replace (v / 4 * 4) with v in H by (pose proof (Z.div_mod v 4 ltac:(lia)); lia). done. }
  split_and!; [done| |].
  - intros m Hm. by rewrite Z.land_lor_distr_l, (land_aligned v m) by done.
  - rewrite E. change 3 with (Z.ones 2). rewrite Z.ldiff_ones_r, Z.shiftl_mul_pow2, Z.shiftr_div_pow2 by lia. change (2 ^ 2) with 4.
    pose proof (Z.div_mod (v + t) 4 ltac:(lia)). pose proof (Z.div_mod v 4 ltac:(lia)). pose proof (Z.mod_pos_bound (v + t) 4 ltac:(lia)). lia.
Qed.

(** The word of a label [l] in the table of [E]; [sub_is a E d] tells that at [a]
    there is a table of [E] with the value [d]. *)
Definition own_value (l : list Z) (E : list wc_entry) : Z := default 0 (we_value <$> own l E).
Definition own_star (l : list Z) (E : list wc_entry) : bool := default true (we_star <$> own l E).

Definition word_is (sub_is : Z -> list wc_entry -> Z -> Prop) (E : list wc_entry) (l : list Z) (w : Z) : Prop :=
  match sub l E with
  | [] => w = match own l E with Some e => Z.lor (we_value e) (if we_star e then 1 else 0) | None => 0 end
  | _ => exists a, ptr_ok a /\ w = Z.lor a (if own_star l E then 3 else 2) /\ sub_is a (sub l E) (own_value l E)
  end.

(** At [a] there is the table of [E], at most [n] levels deep, with the value [d]. *)
Fixpoint wc_is (n : nat) (T : gmap Z wildcard) (a : Z) (E : list wc_entry) (d : Z) : Prop :=
  match n with
  | O => False
  | S n => exists h, T !! a = Some (h, d) /\ forall l, label_ok l -> exists w, ngx_hash_find h (ngx_hash_key l) l = Some w /\ word_is (wc_is n T) E l w
  end.

Lemma word_is_mono (P Q : Z -> list wc_entry -> Z -> Prop) E l w : (forall a E d, P a E d -> Q a E d) -> word_is P E l w -> word_is Q E l w.
Proof. intros HPQ. unfold word_is. destruct (sub l E); [done|]. intros (a & H1 & H2 & H3). exists a. auto. Qed.

Lemma wc_is_mono n T T' a E d : T ⊆ T' -> wc_is n T a E d -> wc_is n T' a E d.
Proof.
  intros HT. revert a E d; induction n as [|n IH]; intros a E d; [done|]. intros (h & Ha & Hw). exists h. split; [by eapply lookup_weaken|].
  intros l Hl. destruct (Hw l Hl) as (w & Hf & Hx). exists w. split; [done|]. eapply word_is_mono; [|exact Hx]. exact IH.
Qed.

Lemma wc_is_deeper n m T a E d : (n <= m)%nat -> wc_is n T a E d -> wc_is m T a E d.
Proof.
  revert m a E d; induction n as [|n IH]; intros [|m] a E d Hm; [done|done|lia|]. intros (h & Ha & Hw). exists h. split; [done|].
  intros l Hl. destruct (Hw l Hl) as (w & Hf & Hx). exists w. split; [done|]. eapply word_is_mono; [|exact Hx]. intros. apply IH; [lia|done].
Qed.

(** ** Search *)

Lemma label_no_dot l : label_ok l -> Forall (fun c => c <> C! ".") l.
Proof. intros [_ H]. eapply Forall_impl; [exact H|]. by intros c (_ & Hc & _). Qed.

Lemma before_last_dot_none l : Forall (fun c => c <> C! ".") l -> before_last_dot l = None.
Proof. induction 1 as [|c l Hc _ IH]; [done|]. cbn. rewrite IH. by rewrite (proj2 (Z.eqb_neq c 46)). Qed.

Lemma before_last_dot_app x l : Forall (fun c => c <> C! ".") l -> before_last_dot (x ++ C! "." :: l) = Some x.
Proof. intros Hl. induction x as [|c x IH]; cbn; [by rewrite before_last_dot_none|]. by rewrite IH. Qed.

Lemma join_app P l : P <> [] -> join (P ++ [l]) = join P ++ C! "." :: l.
Proof.
  induction P as [|m P IH]; [done|]. intros _. destruct P as [|m' P]; [done|]. specialize (IH ltac:(done)).
  change (join ((m :: m' :: P) ++ [l])) with (m ++ C! "." :: join ((m' :: P) ++ [l])). rewrite IH.
  change (join (m :: m' :: P)) with (m ++ C! "." :: join (m' :: P)). by rewrite <- (assoc_L (++)).
Qed.

(** The name of a host with the labels [L], the last one first. *)
Definition host (L : labels) : list Z := join (rev L).

Lemma host_cons l L : host (l :: L) = match L with [] => l | _ => host L ++ C! "." :: l end.
Proof. unfold host. cbn [rev]. destruct L as [|l' L]; [done|]. rewrite join_app; [done|]. cbn. by destruct (rev L). Qed.

Definition fall (r d : Z) : Z := if r =? 0 then d else r.

Lemma own_value_ok l E e : Forall entry_ok E -> own l E = Some e -> ptr_ok (we_value e).
Proof. intros HE [He _]%own_Some. rewrite Forall_forall in HE. by destruct (HE e He) as (_ & _ & ?). Qed.

Lemma best_nil tail L : best tail [] L = 0.
Proof. induction L as [|l L IH]; [done|]. cbn. by rewrite IH. Qed.

(** A search with the default [d] of the table finds what [best] tells. *)
Lemma find_head_ok n T a E d L fuel :
  Forall entry_ok E -> wc_is n T a E d -> L <> [] -> Forall label_ok L -> (length L <= fuel)%nat ->
  exists r, ngx_hash_find_wc_head fuel T a (host L) = Some r /\ fall r d = fall (best false E L) d.
Proof.
  revert n a E d fuel; induction L as [|l L IH]; intros [|n] a E d [|fuel] HE; intros Hwc Hne HL Hf; try done; cbn [length] in Hf; [lia|].
  destruct Hwc as (h & Ha & Hw). apply Forall_cons in HL as [Hl HL]. destruct (Hw l Hl) as (w & Hfind & Hword). pose proof (label_no_dot l Hl) as Hnd.
  assert (Hlab : (match before_last_dot (host (l :: L)) with Some x => drop (S (length x)) (host (l :: L)) | None => host (l :: L) end) = l /\
    before_last_dot (host (l :: L)) = match L with [] => None | _ => Some (host L) end).
  { rewrite host_cons. destruct L as [|l' L]; [by rewrite before_last_dot_none|]. rewrite before_last_dot_app by done. split; [|done].
    change (host (l' :: L) ++ 46 :: l) with (host (l' :: L) ++ [46] ++ l). rewrite (assoc_L (++)), drop_app_length'; [done|]. rewrite length_app. cbn. lia. }
  destruct Hlab as [Hlab Hbefore]. cbn [ngx_hash_find_wc_head]. rewrite Ha. cbn [mbind option_bind fst snd]. rewrite Hlab, Hfind, Hbefore. cbn [mbind option_bind best].
  unfold word_is in Hword. destruct (sub l E) as [|e0 E0] eqn:Es.
  - rewrite best_nil. change (0 =? 0) with true. cbn iota. destruct (own l E) as [e|] eqn:Eo.
    + destruct (own_value_ok l E e HE Eo) as [Hv Hmod]. destruct (tag_spec (we_value e) (if we_star e then 1 else 0) Hmod ltac:(destruct (we_star e); lia)) as (T1 & T2 & T3).
      rewrite <- Hword in T1, T2, T3. rewrite (proj2 (Z.eqb_neq w 0)) by (destruct (we_star e); lia). rewrite !T2, T3 by lia.
      destruct (we_star e), L as [|l' L]; cbn; eexists; (split; [reflexivity|]); rewrite ?T1, ?Z.add_0_r; done.
    + rewrite Hword. change (0 =? 0) with true. cbn iota. exists d. split; [done|]. unfold fall. by destruct (d =? 0).
  - destruct Hword as (a' & [Ha' Hmod] & Ew & Hsub). destruct (tag_spec a' (if own_star l E then 3 else 2) Hmod ltac:(destruct (own_star l E); lia)) as (T1 & T2 & T3).
    rewrite <- Ew in T1, T2, T3. rewrite (proj2 (Z.eqb_neq w 0)) by (destruct (own_star l E); lia). rewrite !T2, T3 by lia. rewrite <- Es in *.
    replace (Z.land (if own_star l E then 3 else 2) 2 =? 0) with false by (by destruct (own_star l E)). cbn [negb].
    destruct L as [|l' L].
    + cbn [best]. change (0 =? 0) with true. cbn iota. rewrite bool_decide_eq_true_2 by done. cbn [andb orb]. unfold own_star, own_value in *.
      destruct n as [|n]; [done|]. destruct Hsub as (h' & Hh' & _). rewrite Hh'.
      destruct (own l E) as [e|]; cbn; [destruct (we_star e)|]; cbn; eexists; (split; [reflexivity|done]).
    + destruct (IH n a' (sub l E) (own_value l E) fuel (sub_ok l E HE) Hsub ltac:(done) HL ltac:(lia)) as (r & Er & Hr).
      destruct n as [|n]; [done|]. destruct Hsub as (h' & Hh' & _). rewrite Hh'. cbn [mbind option_bind snd]. rewrite Er. cbn [mbind option_bind]. eexists. split; [reflexivity|]. f_equal.
      change (if r =? 0 then own_value l E else r) with (fall r (own_value l E)). rewrite Hr. unfold fall, own_value. rewrite bool_decide_eq_false_2 by done. cbn [andb].
      destruct (best false (sub l E) (l' :: L) =? 0); [|done]. by destruct (own l E).
Qed.

Lemma first_dot_none l : Forall (fun c => c <> C! ".") l -> first_dot l = (length l, false).
Proof. induction 1 as [|c l Hc _ IH]; [done|]. cbn. by rewrite (proj2 (Z.eqb_neq c 46)), IH. Qed.

Lemma first_dot_app l x : Forall (fun c => c <> C! ".") l -> first_dot (l ++ C! "." :: x) = (length l, true).
Proof. induction 1 as [|c l Hc _ IH]; [done|]. cbn. by rewrite (proj2 (Z.eqb_neq c 46)), IH. Qed.

Lemma join_cons l l' P : join (l :: l' :: P) = l ++ C! "." :: join (l' :: P).
Proof. done. Qed.

Lemma drop_dot {A} (l x : list A) c : drop (S (length l)) (l ++ c :: x) = x.
Proof. replace (l ++ c :: x) with ((l ++ [c]) ++ x) by (by rewrite <- (assoc_L (++))). apply drop_app_length'. rewrite length_app. cbn. lia. Qed.

(** The same for names that end in a wildcard. *)
Lemma find_tail_ok n T a E d L fuel :
  Forall entry_ok E -> Forall (fun e => we_star e = false) E -> wc_is n T a E d -> L <> [] -> Forall label_ok L -> (length L <= fuel)%nat ->
  exists r, ngx_hash_find_wc_tail fuel T a (join L) = Some r /\ fall r d = fall (best true E L) d.
Proof.
  revert n a E d fuel; induction L as [|l L IH]; intros [|n] a E d [|fuel] HE HS; intros Hwc Hne HL Hf; try done; cbn [length] in Hf; [lia|].
  destruct Hwc as (h & Ha & Hw). apply Forall_cons in HL as [Hl HL]. destruct (Hw l Hl) as (w & Hfind & Hword). pose proof (label_no_dot l Hl) as Hnd.
  destruct L as [|l' L].
  { cbn [ngx_hash_find_wc_tail join]. rewrite first_dot_none by done. cbn. exists 0. split; [done|]. by destruct (own l E). }
  cbn [ngx_hash_find_wc_tail]. rewrite join_cons, first_dot_app, take_app_length, drop_dot by done. cbn [negb]. rewrite Ha. cbn [mbind option_bind fst snd]. rewrite Hfind.
  cbn [mbind option_bind]. change (best true E (l :: l' :: L)) with (fall (best true (sub l E) (l' :: L))
    (match own l E with Some e => if bool_decide (l' :: L = []) && (true || we_star e) then 0 else we_value e | None => 0 end)).
  rewrite bool_decide_eq_false_2 by done. cbn [andb]. unfold word_is in Hword.
  destruct (sub l E) as [|e0 E0] eqn:Es.
  - rewrite best_nil. destruct (own l E) as [e|] eqn:Eo.
    + destruct (own_value_ok l E e HE Eo) as [Hv Hmod]. apply own_Some in Eo as [He _]. rewrite Forall_forall in HS. rewrite (HS e He), Z.lor_0_r in Hword. rewrite Hword.
      rewrite (proj2 (Z.eqb_neq (we_value e) 0)) by lia. rewrite (land_aligned (we_value e) 2) by done. by exists (we_value e).
    + rewrite Hword. exists d. split; [done|]. unfold fall. by destruct (d =? 0).
  - destruct Hword as (a' & [Ha' Hmod] & Ew & Hsub). destruct (tag_spec a' (if own_star l E then 3 else 2) Hmod ltac:(destruct (own_star l E); lia)) as (T1 & T2 & T3).
    rewrite <- Ew in T1, T2, T3. rewrite (proj2 (Z.eqb_neq w 0)) by (destruct (own_star l E); lia). rewrite !T2, T3 by lia. rewrite <- Es in *.
    replace (Z.land (if own_star l E then 3 else 2) 2 =? 0) with false by (by destruct (own_star l E)). cbn [negb].
    assert (HS' : Forall (fun e => we_star e = false) (sub l E)).
    { apply Forall_forall. intros e (P & _ & _ & Hin)%elem_of_sub. rewrite Forall_forall in HS. apply (HS _ Hin). }
    destruct (IH n a' (sub l E) (own_value l E) fuel (sub_ok l E HE) HS' Hsub ltac:(done) HL ltac:(lia)) as (r & Er & Hr).
    destruct n as [|n]; [done|]. destruct Hsub as (h' & Hh' & _). rewrite Hh'. cbn [mbind option_bind snd]. rewrite Er. cbn [mbind option_bind]. eexists. split; [reflexivity|].
    change (if r =? 0 then own_value l E else r) with (fall r (own_value l E)). rewrite Hr. unfold own_value. by destruct (own l E).
Qed.

(** ** The order of names *)

Definition dns_le (x y : list Z) : Prop := ngx_dns_strcmp x y <= 0.

Definition in_order (E : list wc_entry) : Prop := StronglySorted (fun e e' => dns_le (entry_text e) (entry_text e')) E.

(** What follows a label in a name. *)
Definition ends (t : list Z) : Prop := t = [] \/ exists u, t = C! "." :: u.

Lemma dns_app l x y : Forall letter l -> ngx_dns_strcmp (l ++ x) (l ++ y) = ngx_dns_strcmp x y.
Proof.
  induction 1 as [|c l (Hc & _ & _ & Hf) _ IH]; [done|]. cbn [app ngx_dns_strcmp byte hd tl]. rewrite Hf, Z.eqb_refl.
  by rewrite (proj2 (Z.eqb_neq c 0)) by lia.
Qed.

Lemma dns_dot x y : ngx_dns_strcmp (C! "." :: x) (C! "." :: y) = ngx_dns_strcmp x y.
Proof. done. Qed.

Lemma dns_end_letter t c x : ends t -> letter c -> ngx_dns_strcmp t (c :: x) < 0 /\ 0 < ngx_dns_strcmp (c :: x) t.
Proof.
  intros Ht (Hc & Hd & _ & Hf). assert (Hb : fold_case (byte t) = 0 \/ fold_case (byte t) = 46) by (destruct Ht as [->|[u ->]]; [left|right]; done).
  destruct t; cbn [ngx_dns_strcmp]; cbn [byte hd tl] in *; rewrite !Hf; repeat case_match; zify_bool; lia.
Qed.

(** Names whose first labels differ are in the order of these labels. *)
Lemma dns_labels l m : Forall letter l -> Forall letter m -> l <> m ->
  (forall t' u', ends t' -> ends u' -> ngx_dns_strcmp (l ++ t') (m ++ u') < 0 /\ 0 < ngx_dns_strcmp (m ++ u') (l ++ t')) \/
  (forall t' u', ends t' -> ends u' -> 0 < ngx_dns_strcmp (l ++ t') (m ++ u') /\ ngx_dns_strcmp (m ++ u') (l ++ t') < 0).
Proof.
  intros Hl. revert m; induction Hl as [|c l Hc Hl IH]; intros [|d m] Hm Hne; [done|..].
  - left. intros t' u' Ht' Hu'. apply Forall_cons in Hm as [Hd _]. by apply dns_end_letter.
  - right. intros t' u' Ht' Hu'. apply and_comm. by apply dns_end_letter.
  - apply Forall_cons in Hm as [Hd Hm]. destruct Hc as (C1 & C2 & _ & C3), Hd as (D1 & D2 & _ & D3). cbn [app ngx_dns_strcmp byte hd tl]. rewrite C3, D3.
    rewrite !(Z.eqb_sym d c). destruct (Z.eqb_spec c d) as [E|E].
    + rewrite (proj2 (Z.eqb_neq c 0)), (proj2 (Z.eqb_neq d 0)) by lia. cbn [negb]. apply IH; [done|congruence].
    + rewrite (proj2 (Z.eqb_neq c 46)), (proj2 (Z.eqb_neq d 46)) by lia. destruct (Z.lt_ge_cases c d); [left|right]; intros; lia.
Qed.

Lemma label_letters l : label_ok l -> Forall letter l.
Proof. by intros [_ H]. Qed.

(** A name is its first label and the rest. *)
Lemma entry_text_cons e l P : we_path e = l :: P ->
  entry_text e = l ++ match P with
                      | [] => if we_star e then [C! "."] else []
                      | _ => C! "." :: entry_text {| we_path := P; we_star := we_star e; we_value := we_value e |}
                      end.
Proof. intros Ep. unfold entry_text. rewrite Ep. cbn [we_path we_star]. destruct P as [|m P]; [done|]. rewrite join_cons. by rewrite <- (assoc_L (++)). Qed.

Lemma entry_ends e l P : we_path e = l :: P -> exists t, entry_text e = l ++ t /\ ends t.
Proof.
  intros Ep. rewrite (entry_text_cons e l P Ep). eexists. split; [reflexivity|]. destruct P as [|m P]; [destruct (we_star e)|]; [right; by eexists|by left|right; by eexists].
Qed.

(** A name of one label is before the longer ones with this label. *)
Lemma own_before e x l m P : label_ok l -> label_ok m -> we_path e = [l] -> we_path x = l :: m :: P -> 0 < ngx_dns_strcmp (entry_text x) (entry_text e).
Proof.
  intros Hl [Hne Hm] Ee Ex. rewrite (entry_text_cons e l [] Ee), (entry_text_cons x l (m :: P) Ex), dns_app by by apply label_letters.
  destruct m as [|c m]; [done|]. apply Forall_cons in Hm as [Hc _].
  assert (Et : exists y, entry_text {| we_path := (c :: m) :: P; we_star := we_star x; we_value := we_value x |} = c :: y).
  { erewrite entry_text_cons by reflexivity. by eexists. }
  destruct Et as [y ->]. destruct (we_star e); [rewrite dns_dot; apply (dns_end_letter [] c y); [by left|done]|done].
Qed.

(** The names with the label [l] are next to one another. *)
Lemma in_order_split e l P x y : we_path e = l :: P -> Forall entry_ok [e; x; y] -> in_order [e; x; y] -> head (we_path x) <> Some l -> head (we_path y) <> Some l.
Proof.
  intros Ep Hok Hs Hx Hy. apply Forall_cons in Hok as [(_ & Oe & _) Hok]. apply Forall_cons in Hok as [(Nx & Ox & _) Hok]. apply Forall_cons in Hok as [(_ & Oy & _) _].
  destruct (we_path x) as [|m Q] eqn:Eqx; [done|]. destruct (we_path y) as [|l' Q'] eqn:Eqy; [done|]. cbn in Hx, Hy. injection Hy as ->.
  rewrite Ep in Oe. apply Forall_cons in Oe as [Hl%label_letters _]. apply Forall_cons in Ox as [Hm%label_letters _].
  destruct (entry_ends e l P Ep) as (t & Et & Ht), (entry_ends x m Q Eqx) as (u & Eu & Hu), (entry_ends y l Q' Eqy) as (v & Ev & Hv).
  apply StronglySorted_inv in Hs as [Hs He]. apply Forall_cons in He as [Hex _]. apply StronglySorted_inv in Hs as [_ Hxy]. apply Forall_cons in Hxy as [Hxy _].
  unfold dns_le in *. rewrite Et, Eu in Hex. rewrite Eu, Ev in Hxy.
  destruct (dns_labels l m Hl Hm ltac:(congruence)) as [H|H]; [destruct (H v u Hv Hu)|destruct (H t u Ht Hu)]; lia.
Qed.

(** ** Groups *)

Lemma strncmp_start p s x : Forall (fun c => 0 < c) p -> strncmp (p ++ s) x (length p) = 0 <-> p `prefix_of` x.
Proof.
  intros Hp. revert x; induction Hp as [|c p Hc _ IH]; intros x; [split; [intros _; apply prefix_nil|done]|].
  cbn [app length strncmp byte hd tl]. destruct x as [|d x]; cbn [byte hd tl].
  - rewrite (proj2 (Z.eqb_neq c 0)) by lia. split; [lia|]. intros H. by apply prefix_nil_inv in H.
  - destruct (Z.eqb_spec c d) as [E|E].
    + subst d. rewrite (proj2 (Z.eqb_neq c 0)), IH by lia. split; [apply prefix_cons|apply prefix_cons_inv_2].
    + split; [lia|]. intros H. by apply prefix_cons_inv_1 in H.
Qed.

Lemma letter_pos l : Forall letter l -> Forall (fun c => 0 < c) l.
Proof. intros H. eapply Forall_impl; [exact H|]. intros c [? _]. lia. Qed.

Lemma letter_no_dot l : Forall letter l -> Forall (fun c => c <> C! ".") l.
Proof. intros H. eapply Forall_impl; [exact H|]. by intros c (_ & ? & _). Qed.

Lemma first_dot_ends l t : Forall letter l -> ends t -> first_dot (l ++ t) = (length l, bool_decide (t <> [])).
Proof.
  intros Hl%letter_no_dot [->|[u ->]]; [rewrite app_nil_r; by apply first_dot_none|by apply first_dot_app].
Qed.

Lemma label_unique l m t u : Forall letter l -> Forall letter m -> ends t -> ends u -> l ++ t = m ++ u -> l = m.
Proof.
  intros Hl Hm Ht Hu E. pose proof (first_dot_ends l t Hl Ht) as H1. rewrite E, (first_dot_ends m u Hm Hu) in H1. injection H1 as H1 _.
  by apply app_inj_1 in E as [? _].
Qed.

Section Group.
Context (e : wc_entry) (l : list Z) (P : labels).
Hypotheses (e_ok : entry_ok e) (e_path : we_path e = l :: P).

Let label := (first_dot (entry_text e)).1.
Let dot := (first_dot (entry_text e)).2.
Let len := (if dot then S label else label).

Lemma e_letters : Forall letter l.
Proof using All. destruct e_ok as (_ & H & _). rewrite e_path in H. apply Forall_cons in H as [H _]. by apply label_letters. Qed.

Lemma e_first_dot : exists t, entry_text e = l ++ t /\ ends t /\ label = length l /\ dot = bool_decide (t <> []).
Proof using All.
  destruct (entry_ends e l P e_path) as (t & Et & Ht). exists t. unfold label, dot. rewrite Et, (first_dot_ends l t e_letters Ht). done.
Qed.

(** A later name with the same label is longer. *)
Lemma group_longer x : entry_ok x -> dns_le (entry_text e) (entry_text x) -> we_path x <> we_path e -> head (we_path x) = Some l ->
  exists x', strip l x = [x'] /\ entry_text x = l ++ C! "." :: entry_text x'.
Proof using All.
  intros (_ & Hx & _) Hle Hne Hh. destruct (we_path x) as [|l' [|m Q]] eqn:Ex; cbn in Hh; [done|..]; injection Hh as ->.
  - exfalso. destruct P as [|m Q]; [congruence|]. destruct e_ok as (_ & He & _). rewrite e_path in He. apply Forall_cons in He as [Hl He]. apply Forall_cons in He as [Hm _].
    pose proof (own_before x e l m Q Hl Hm Ex e_path). unfold dns_le in Hle. lia.
  - unfold strip. rewrite Ex, bool_decide_eq_true_2 by done. eexists. split; [reflexivity|]. by rewrite (entry_text_cons x l (m :: Q) Ex).
Qed.

Lemma group_take x x' : strip l x = [x'] -> entry_text x = l ++ C! "." :: entry_text x' ->
  (strncmp (entry_text e) (entry_text x) len =? 0) = true /\
  (negb dot && (len <? length (entry_text x))%nat && negb (nth len (entry_text x) 0 =? C! ".")) = false /\
  (length (entry_text x) <? S label)%nat = false /\ drop (S label) (entry_text x) = entry_text x'.
Proof using All.
  intros _ Ex. destruct e_first_dot as (t & Et & Ht & El & Ed). unfold len. rewrite El, Ed, Et, Ex. split_and!; [| | |by apply drop_dot].
  - apply Z.eqb_eq. destruct Ht as [->|[u ->]].
    + rewrite bool_decide_eq_false_2 by tauto. apply strncmp_start; [apply letter_pos, e_letters|]. by apply prefix_app_r.
    + rewrite bool_decide_eq_true_2 by done. replace (l ++ 46 :: u) with ((l ++ [46]) ++ u) by (by rewrite <- (assoc_L (++))).
      replace (S (length l)) with (length (l ++ [46])) by (rewrite length_app; cbn; lia).
      apply strncmp_start; [apply Forall_app; split; [apply letter_pos, e_letters|by repeat constructor]|]. exists (entry_text x'). by rewrite <- (assoc_L (++)).
  - case_bool_decide; [done|]. rewrite nth_middle. cbn. apply andb_false_r.
  - apply Nat.ltb_ge. rewrite length_app. cbn. lia.
Qed.

Lemma group_stop x : entry_ok x -> head (we_path x) <> Some l ->
  negb (strncmp (entry_text e) (entry_text x) len =? 0) = true \/
  (negb dot && (len <? length (entry_text x))%nat && negb (nth len (entry_text x) 0 =? C! ".")) = true.
Proof using All.
  intros (Hne & Hx & _) Hh. destruct (we_path x) as [|m Q] eqn:Eqx; [done|]. apply Forall_cons in Hx as [Hm%label_letters _]. cbn in Hh.
  destruct (entry_ends x m Q Eqx) as (u & Eu & Hu). destruct e_first_dot as (t & Et & Ht & El & Ed).
  destruct (strncmp (entry_text e) (entry_text x) len =? 0) eqn:Ez; [right|by left]. apply Z.eqb_eq in Ez. revert Ez. unfold len. rewrite El, Ed, Et, Eu.
  destruct Ht as [->|[w ->]].
  - rewrite bool_decide_eq_false_2 by tauto. intros [w Ew]%strncmp_start; [|apply letter_pos, e_letters]. cbn [negb andb]. rewrite Ew. destruct w as [|c w].
    { exfalso. apply Hh. f_equal. symmetry. apply (label_unique l m [] u e_letters Hm); [by left|done|by symmetry]. }
    rewrite (proj2 (Nat.ltb_lt _ _)) by (rewrite length_app; cbn; lia). rewrite nth_middle. cbn [andb]. apply negb_true_iff, Z.eqb_neq. intros Ec. apply Hh. f_equal. symmetry.
    apply (label_unique l m (c :: w) u e_letters Hm); [right; exists w; by rewrite Ec|done|by symmetry].
  - rewrite bool_decide_eq_true_2 by done. replace (l ++ 46 :: w) with ((l ++ [46]) ++ w) by (by rewrite <- (assoc_L (++))).
    replace (S (length l)) with (length (l ++ [46])) by (rewrite length_app; cbn; lia).
    intros [v Ev]%strncmp_start; [|apply Forall_app; split; [apply letter_pos, e_letters|by repeat constructor]]. exfalso. apply Hh. f_equal. symmetry.
    apply (label_unique l m (C! "." :: v) u e_letters Hm); [right; by eexists|done|]. rewrite Ev. by rewrite <- (assoc_L (++)).
Qed.

(** The loop over the names after [e] takes those with the same label. *)
Lemma wc_group_ok E :
  Forall entry_ok E -> NoDup (map we_path (e :: E)) -> in_order (e :: E) ->
  exists G R, E = G ++ R /\ Forall (fun x => exists m Q, we_path x = l :: m :: Q) G /\ Forall (fun x => head (we_path x) <> Some l) R /\
    wc_group (entry_text e) len dot (S label) (map to_name E) = Some (map to_name (flat_map (strip l) G), map to_name R).
Proof using All.
  induction E as [|x E IH]; intros Hok Hnd Hs; [by exists [], []|]. apply Forall_cons in Hok as [Hx Hok].
  cbn [map] in Hnd. apply NoDup_cons in Hnd as [He [Hx' Hnd]%NoDup_cons]. apply StronglySorted_inv in Hs as [Hs Hes]. apply StronglySorted_inv in Hs as [Hs Hxs].
  apply Forall_cons in Hes as [Hex Hes]. cbn [map wc_group wn_key wn_value to_name]. destruct (decide (head (we_path x) = Some l)) as [Hh|Hh].
  - destruct IH as (G & R & EGR & HG & HR & Eg); [done|apply NoDup_cons; split; [set_solver|done]|by constructor|].
    destruct (group_longer x Hx Hex ltac:(set_solver) Hh) as (x' & Ex' & Et). destruct (group_take x x' Ex' Et) as (T1 & T2 & T3 & T4). rewrite T1, T2, T3. cbn [negb].
    rewrite Eg. cbn [mbind option_bind]. exists (x :: G), R. split_and!; [by rewrite EGR| |done|].
    + constructor; [|done]. unfold strip in Ex'. destruct (we_path x) as [|l' [|m Q]]; [done..|]. case_bool_decide as El; [|done]. rewrite El. by exists m, Q.
    + cbn [flat_map]. rewrite map_app, Ex'. cbn. rewrite T4. do 2 f_equal. unfold to_name at 2. do 2 f_equal. destruct (strip_length l x x' Ex') as [_ Ev]. by rewrite Ev.
  - exists [], (x :: E). split_and!; [done|done| |].
    + constructor; [done|]. apply Forall_forall. intros y Hy. apply (in_order_split e l P x y e_path); [| |done].
      * rewrite Forall_forall in Hok. apply Forall_cons; split; [done|]. apply Forall_cons; split; [done|]. apply Forall_singleton. by apply Hok.
      * rewrite Forall_forall in Hes, Hxs. apply SSorted_cons; [apply SSorted_cons; [apply SSorted_cons; [constructor|constructor]|apply Forall_singleton; by apply Hxs]|]. apply Forall_cons; split; [done|]. apply Forall_singleton. by apply Hes.
    + destruct (group_stop x Hx Hh) as [H|H]; [by rewrite H|]. rewrite H. by destruct (negb (strncmp _ _ _ =? 0)).
Qed.
End Group.

(** ** Making the tables *)

Lemma sub_app l A B : sub l (A ++ B) = sub l A ++ sub l B.
Proof. apply flat_map_app. Qed.

Lemma own_app l A B : own l (A ++ B) = match own l A with Some e => Some e | None => own l B end.
Proof. unfold own. rewrite filter_app. by destruct (filter _ A). Qed.

Lemma own_other l E : Forall (fun x => we_path x <> [l]) E -> own l E = None.
Proof. intros H. destruct (own l E) as [e|] eqn:Eo; [|done]. apply own_Some in Eo as [He Hp]. rewrite Forall_forall in H. by apply H in He. Qed.

Lemma sub_other l E : Forall (fun x => head (we_path x) <> Some l) E -> sub l E = [].
Proof.
  induction 1 as [|x E Hx _ IH]; [done|]. unfold sub. cbn [flat_map]. fold (sub l E). rewrite IH, app_nil_r. unfold strip.
  destruct (we_path x) as [|m [|m' P]]; [done..|]. rewrite bool_decide_eq_false_2; [done|]. intros ->. by apply Hx.
Qed.

(** The addresses that are left are aligned, distinct and not of a table. *)
Record store_ok (st : wc_store) : Prop := {
  so_pool : Forall (fun x => ptr_ok x.1 /\ 0 < x.2) (wc_pool st);
  so_nodup : NoDup (map fst (wc_pool st));
  so_fresh : forall a, a ∈ map fst (wc_pool st) -> wc_tables st !! a = None
}.

Definition valued (d : Z) (t : wildcard) : wildcard := (t.1, d).

(** A new table of [E] at [a], which may be given any value. *)
Definition made (n : nat) (E : list wc_entry) (T0 : gmap Z wildcard) (a : Z) (T1 : gmap Z wildcard) : Prop :=
  ptr_ok a /\ alter (valued 0) a T1 = T1 /\ forall d, T0 ⊆ alter (valued d) a T1 /\ wc_is n (alter (valued d) a T1) a E d.

Lemma set_value_ok a v st : store_ok st -> store_ok (wc_set_value a v st).
Proof.
  intros [H1 H2 H3]. constructor; [done|done|]. intros b Hb. cbn. destruct (decide (a = b)) as [E|E]; [|by rewrite lookup_alter_ne by done; apply H3].
  rewrite E, lookup_alter_eq, (H3 b Hb). done.
Qed.

(** Entries that one call may be given. *)
Record entries_ok (n : nat) (E : list wc_entry) : Prop := {
  eo_ok : Forall entry_ok E;
  eo_nodup : NoDup (map we_path E);
  eo_order : in_order E;
  eo_depth : Forall (fun e => (length (we_path e) <= n)%nat) E
}.

Lemma sub_order l E : label_ok l -> in_order E -> in_order (sub l E).
Proof.
  intros Hl. induction 1 as [|x E Hs IH Hx]; [constructor|]. unfold sub. cbn [flat_map]. fold (sub l E).
  destruct (strip l x) as [|x' t] eqn:Ex; [done|]. assert (t = []) as -> by (unfold strip in Ex; repeat case_match; congruence).
  constructor; [done|]. apply Forall_forall. intros y' Hy'. destruct (in_strip l E y' Hy') as (y & Hy & Ey). rewrite Forall_forall in Hx. specialize (Hx y Hy).
  assert (Ht : forall x x', strip l x = [x'] -> entry_text x = l ++ C! "." :: entry_text x').
  { clear. intros x x' E. unfold strip in E. destruct (we_path x) as [|m [|m' P]] eqn:Ep; [done..|]. case_bool_decide as Em; [|done]. injection E as <-. rewrite Em in Ep.
    by rewrite (entry_text_cons x l (m' :: P) Ep). }
  unfold dns_le in *. rewrite (Ht x x' Ex), (Ht y y' Ey), dns_app, dns_dot in Hx by by apply label_letters. done.
Qed.

Lemma entries_ok_sub n l E : label_ok l -> entries_ok (S n) E -> entries_ok n (sub l E).
Proof.
  intros Hl [H1 H2 H3 H4]. constructor; [by apply sub_ok|by apply sub_nodup|by apply sub_order|]. apply Forall_forall. intros e' He'. destruct (in_strip l E e' He') as (e & He & Es).
  destruct (strip_length l e e' Es) as [Ep _]. rewrite Forall_forall in H4. specialize (H4 e He). rewrite Ep in H4. cbn in H4. lia.
Qed.

Lemma entries_ok_tail n e G R : entries_ok n (e :: G ++ R) -> entries_ok n R.
Proof.
  intros [H1 H2 H3 H4]. change (e :: G ++ R) with ((e :: G) ++ R) in *. apply Forall_app in H1 as [_ H1], H4 as [_ H4]. rewrite map_app in H2. apply NoDup_app in H2 as (_ & _ & H2).
  constructor; [done|done| |done]. clear -H3. unfold in_order in *. induction (e :: G) as [|x l IH]; [done|]. apply IH. cbn in H3. by apply StronglySorted_inv in H3 as [? _].
Qed.

Definition init_ok (n : nat) (init : list wc_name -> wc_store -> res Z) : Prop :=
  forall E st, E <> [] -> entries_ok n E -> store_ok st ->
    match init (map to_name E) st with
    | Fault => False
    | Error => True
    | Ok a st' => store_ok st' /\ made n E (wc_tables st) a (wc_tables st')
    end.

Lemma ptr_tag a t : ptr_ok a -> 0 <= t < 4 -> 0 < Z.lor a t < 2 ^ 64.
Proof. intros [Ha Hm] Ht. destruct (tag_spec a t Hm Ht) as (-> & _). pose proof (Z.div_mod a 4 ltac:(lia)). assert (a / 4 < 2 ^ 62) by (apply Z.div_lt_upper_bound; lia). lia. Qed.

Section Level.
Context (n : nat) (init : list wc_name -> wc_store -> res Z) (init_spec : init_ok n init).
Context (e : wc_entry) (l : list Z) (P : labels) (G R : list wc_entry).
Hypotheses (e_path : we_path e = l :: P) (E_ok : entries_ok (S n) (e :: G ++ R)).
Hypothesis (G_longer : Forall (fun x => exists m Q, we_path x = l :: m :: Q) G).
Hypothesis (R_other : Forall (fun x => head (we_path x) <> Some l) R).

Lemma sub_level m : sub m (e :: G ++ R) = if decide (m = l) then strip l e ++ flat_map (strip l) G else sub m R.
Proof using All.
  change (e :: G ++ R) with ([e] ++ G ++ R). rewrite !sub_app. case_decide as Em.
  - rewrite Em, (sub_other l R R_other), app_nil_r. unfold sub at 1. cbn. by rewrite app_nil_r.
  - rewrite (sub_other m [e]), (sub_other m G); [done| |apply Forall_singleton; rewrite e_path; cbn; congruence].
    eapply Forall_impl; [exact G_longer|]. intros x (m' & Q & ->). cbn. congruence.
Qed.

Lemma own_level m : own m (e :: G ++ R) = if decide (m = l) then own l [e] else own m R.
Proof using All.
  change (e :: G ++ R) with ([e] ++ G ++ R). rewrite !own_app. rewrite (own_other m G) by (eapply Forall_impl; [exact G_longer|]; intros x (m' & Q & ->); congruence).
  case_decide as Em.
  - rewrite Em, (own_other l R); [by destruct (own l [e])|]. eapply Forall_impl; [exact R_other|]. intros x Hx Ex. apply Hx. by rewrite Ex.
  - by rewrite (own_other m [e]) by (apply Forall_singleton; rewrite e_path; congruence).
Qed.

Let key := entry_text e.
Let label := (first_dot key).1.
Let dot := (first_dot key).2.
Let len := (if dot then S label else label).

Lemma level_label : label_ok l.
Proof using All. destruct E_ok as [H _ _ _]. apply Forall_cons in H as [(_ & H & _) _]. rewrite e_path in H. by apply Forall_cons in H as [? _]. Qed.

Lemma level_entry : entry_ok e.
Proof using All. destruct E_ok as [H _ _ _]. by apply Forall_cons in H as [? _]. Qed.

(** What is left of the first name itself. *)
Lemma level_own : take label key = l /\ dot = (we_star e || negb (bool_decide (P = []))) /\
  (length key =? len)%nat = bool_decide (P = []) /\
  (if (length key =? len)%nat then [] else [{| wn_key := drop len key; wn_value := we_value e |}]) = map to_name (strip l e).
Proof using All.
  assert (Hl : Forall letter l) by (apply label_letters, level_label). pose proof level_entry as (_ & Hpath & _). destruct (e_first_dot e l P level_entry e_path) as (t & Et & Ht & El & Ed).
  fold key in Et, El, Ed. fold label in El. fold dot in Ed. pose proof (entry_text_cons e l P e_path) as Etc. fold key in Etc. rewrite Et in Etc. apply app_inv_head in Etc.
  unfold len. rewrite El, Et, length_app. unfold strip. rewrite e_path.
  destruct P as [|m Q]; cbn [negb]; rewrite ?orb_false_r, ?orb_true_r.
  - rewrite Ed, Etc. split_and!; [by rewrite take_app_length| | |].
    + by destruct (we_star e).
    + apply Nat.eqb_eq. destruct (we_star e); cbn; lia.
    + rewrite (proj2 (Nat.eqb_eq _ _)); [done|]. destruct (we_star e); cbn; lia.
  - rewrite (bool_decide_eq_true_2 (l = l)) by done. rewrite Ed, Etc, !bool_decide_eq_true_2 by done. rewrite bool_decide_eq_false_2 by done. cbn [negb].
    assert (Hpos : (0 < length (entry_text {| we_path := m :: Q; we_star := we_star e; we_value := we_value e |}))%nat).
    { erewrite entry_text_cons by reflexivity. rewrite length_app. rewrite e_path in Hpath. apply Forall_cons in Hpath as [_ H]. apply Forall_cons in H as [[H _] _].
      destruct m; [done|cbn; lia]. }
    cbn [length]. rewrite (proj2 (Nat.eqb_neq _ _)) by lia. split_and!; [by rewrite take_app_length|done|done|]. by rewrite drop_dot.
Qed.

(** The value of the first label, when its table is made. *)
Definition level_value (next : list wc_name) (st : wc_store) : res Z :=
  match next with
  | [] => Ok (if dot then Z.lor (we_value e) 1 else we_value e) st
  | next_names =>
      bind (init next_names st) (fun wdc st =>
      let st := if (length key =? len)%nat then wc_set_value wdc (we_value e) st else st in
      Ok (Z.lor wdc (if dot then 3 else 2)) st)
  end.

Lemma own_one : own l [e] = if bool_decide (P = []) then Some e else None.
Proof using All.
  case_bool_decide as E; [unfold own; rewrite (filter_cons_True _ _ _) by (by rewrite e_path, E); done|]. apply own_other, Forall_singleton. rewrite e_path. congruence.
Qed.

Lemma level_value_ok st : store_ok st ->
  match level_value (map to_name (sub l (e :: G ++ R))) st with
  | Fault => False
  | Error => True
  | Ok w st' => store_ok st' /\ wc_tables st ⊆ wc_tables st' /\ 0 < w < 2 ^ 64 /\ word_is (wc_is n (wc_tables st')) (e :: G ++ R) l w
  end.
Proof using All.
  intros Hst. destruct level_own as (_ & Edot & Elen & _). destruct level_entry as (_ & _ & Hptr). unfold level_value, word_is, own_star, own_value.
  rewrite (own_level l), decide_True, own_one by done.
  pose proof (sub_level l) as Es. rewrite decide_True in Es by done.
  pose proof (entries_ok_sub n l _ level_label E_ok) as Hsub. destruct (sub l (e :: G ++ R)) as [|x S] eqn:Esub.
  - assert (EP : P = []). { destruct P as [|m Q]; [done|]. symmetry in Es. apply app_eq_nil in Es as [Es _]. unfold strip in Es. by rewrite e_path, bool_decide_eq_true_2 in Es by done. }
    cbn [map]. rewrite Edot, EP, bool_decide_eq_true_2 by done. cbn [negb]. rewrite orb_false_r. refine (conj _ (conj _ (conj _ _))); [done|done| |].
    + destruct (we_star e); [apply ptr_tag; [done|lia]|]. by destruct Hptr.
    + destruct (we_star e); [done|by rewrite Z.lor_0_r].
  - pose proof (init_spec (x :: S) st ltac:(done) Hsub Hst) as Hi. cbn [map] in *. destruct (init _ st) as [| |a st']; cbn [bind]; [done|done|].
    destruct Hi as (Hst' & Hptr' & Hzero & Hmade). rewrite Elen, Edot. case_bool_decide as EP; cbn [negb fmap option_fmap option_map default].
    + rewrite orb_false_r. destruct (Hmade (we_value e)) as [HT Hwc]. refine (conj _ (conj _ (conj _ _))); [by apply set_value_ok|done|apply ptr_tag; [done|destruct (we_star e); lia]|]. exists a. done.
    + rewrite orb_true_r. destruct (Hmade 0) as [HT Hwc]. rewrite Hzero in HT, Hwc. refine (conj _ (conj _ (conj _ _))); [done|done|by apply ptr_tag; [|lia]|]. exists a. done.
Qed.
End Level.

(** The elements of the table of [E], when the tables of the next labels are in [T]. *)
Record level_ok (n : nat) (E : list wc_entry) (T : gmap Z wildcard) (curr : list hash_key) : Prop := {
  lo_values : Forall (fun x => 0 < hk_value x < 2 ^ 64) curr;
  lo_hashed : hashed_by ngx_hash_key curr;
  lo_words : forall l, label_ok l -> word_is (wc_is n T) E l (assoc l (entries curr))
}.

Lemma label_low l : label_ok l -> ngx_strlow l = l.
Proof. intros [_ H]. induction H as [|c l (_ & _ & Hc & _) _ IH]; [done|]. cbn. by rewrite Hc, IH. Qed.

Lemma wc_loop_ok n init k E st : init_ok n init -> entries_ok (S n) E -> store_ok st -> (length E <= k)%nat ->
  match wc_loop init k (map to_name E) st with
  | Fault => False
  | Error => True
  | Ok curr st' => store_ok st' /\ wc_tables st ⊆ wc_tables st' /\ level_ok n E (wc_tables st') curr
  end.
Proof.
  intros Hinit. revert E st; induction k as [|k IH]; intros [|e E] st HE Hst Hk; cbn [length] in Hk; [by split_and!; [|done|constructor; constructor]|lia|by split_and!; [|done|constructor; constructor]|].
  destruct HE as [H1 H2 H3 H4] eqn:EHE. clear EHE. apply Forall_cons in H1 as [He H1]. destruct (we_path e) as [|l P] eqn:Ep; [by destruct He|].
  destruct (wc_group_ok e l P He Ep E H1 H2 H3) as (G & R & EGR & HG & HR & Eg). subst E. pose proof (level_value_ok n init Hinit e l P G R Ep HE HG HR st Hst) as Hlev.
  destruct (level_own n init Hinit e l P G R Ep HE HG HR) as (Etake & _ & _ & Eown). pose proof (level_label n init Hinit e l P G R Ep HE HG HR) as Hl.
  cbn [map wc_loop wn_key to_name wn_value]. fold (to_name e). rewrite (surjective_pairing (first_dot (entry_text e))). rewrite Eg, Etake, Eown, <- map_app.
  rewrite (sub_level n init Hinit e l P G R Ep HE HG HR l), decide_True in Hlev by done.
  match goal with |- match bind ?m _ with _ => _ end => replace m with (level_value init e (map to_name (strip l e ++ flat_map (strip l) G)) st) by (by destruct (strip l e ++ flat_map (strip l) G)) end.
  destruct (level_value init e _ st) as [| |w st']; cbn [bind]; [done|done|]. destruct Hlev as (Hst' & HT & Hw & Hword).
  specialize (IH R st' (entries_ok_tail _ _ _ _ HE) Hst' ltac:(rewrite length_app in Hk; lia)). destruct (wc_loop init k (map to_name R) st') as [| |curr st'']; cbn [bind]; [done|done|].
  destruct IH as (Hst'' & HT' & [L1 L2 L3]). split_and!; [done|by etransitivity|]. constructor.
  - by constructor.
  - constructor; [|done]. cbn. apply ngx_hash_key_lc_strlow.
  - intros m Hm. unfold entries. cbn [flat_map hk_null hk_key hk_value]. fold (entries curr). cbn [app assoc]. rewrite (label_low l Hl). case_bool_decide as Em.
    + rewrite Em. eapply word_is_mono; [|exact Hword]. intros a E d. by apply wc_is_mono.
    + specialize (L3 m Hm). unfold word_is, own_star, own_value in *. rewrite (sub_level n init Hinit e l P G R Ep HE HG HR m), (own_level n init Hinit e l P G R Ep HE HG HR m).
      by rewrite !decide_False by done.
Qed.

Lemma wc_table_ok p junk n E curr st : params_ok p -> store_ok st -> level_ok n E (wc_tables st) curr ->
  match wc_table p junk curr st with
  | Fault => False
  | Error => True
  | Ok a st' => store_ok st' /\ made (S n) E (wc_tables st) a (wc_tables st')
  end.
Proof.
  intros Hp [S1 S2 S3] [L1 L2 L3]. unfold wc_table. destruct (wc_pool st) as [|[a base] pool] eqn:Epool; [done|]. apply Forall_cons in S1 as [[Ha Hb] S1]. cbn in Ha, Hb, S2, S3.
  destruct (hash_init_ok p junk (memory_at base) curr ngx_hash_key Hp ltac:(cbn; lia) L1 L2) as (r & -> & Hr). destruct r as [h|]; [|done]. apply NoDup_cons in S2 as [Hna S2].
  assert (Hfresh : wc_tables st !! a = None) by (apply S3; left). split.
  - constructor; [done|done|]. intros b Hb'. cbn. rewrite lookup_insert_ne by (intros ->; done). apply S3. by right.
  - split; [done|]. cbn. split; [by rewrite alter_insert_eq|]. intros d. rewrite alter_insert_eq. unfold valued. cbn [fst]. assert (HT : wc_tables st ⊆ <[a:=(h, d)]> (wc_tables st)) by (by apply insert_subseteq).
    split; [done|]. exists h. split; [apply lookup_insert_eq|]. intros l Hl. exists (assoc l (entries curr)). split; [apply Hr|].
    eapply word_is_mono; [|by apply L3]. intros b E' d'. by apply wc_is_mono.
Qed.

(** [ngx_hash_wildcard_init] makes the tables of any entries in order. *)
Lemma wildcard_init_ok p junk fuel : params_ok p -> forall E st, entries_ok fuel E -> (0 < fuel)%nat -> store_ok st ->
  match ngx_hash_wildcard_init p junk fuel (map to_name E) st with
  | Fault => False
  | Error => True
  | Ok a st' => store_ok st' /\ made fuel E (wc_tables st) a (wc_tables st')
  end.
Proof.
  intros Hp. induction fuel as [|n IH]; intros E st HE Hf Hst; [lia|]. cbn [ngx_hash_wildcard_init].
  assert (Hinit : init_ok n (ngx_hash_wildcard_init p junk n)).
  { intros E' st' Hne HE' Hst'. apply IH; [done| |done]. destruct HE' as [H1 _ _ H4]. destruct E' as [|e E']; [done|]. apply Forall_cons in H1 as [(Hp1 & _) _], H4 as [H4 _].
    destruct (we_path e); [done|cbn in H4; lia]. }
  pose proof (wc_loop_ok n _ (length (map to_name E)) E st Hinit HE Hst ltac:(by rewrite length_map)) as Hloop.
  destruct (wc_loop _ _ (map to_name E) st) as [| |curr st1]; cbn [bind]; [done|done|]. destruct Hloop as (Hst1 & HT & Hlev).
  pose proof (wc_table_ok p junk n E curr st1 Hp Hst1 Hlev) as Ht. destruct (wc_table p junk curr st1) as [| |a st2]; [done|done|].
  destruct Ht as (Hst2 & Hptr & Hz & Hm). split_and!; [done|]. split; [done|]. split; [done|]. intros d. destruct (Hm d) as [H1 H2]. split; [by etransitivity|done].
Qed.

(** ** What a search finds *)

Lemma join_length L : Forall label_ok L -> (length L <= S (length (join L)))%nat.
Proof.
  induction 1 as [|l L [Hne _] _ IH]; [cbn; lia|]. destruct L as [|m L]; [cbn; lia|]. rewrite join_cons, length_app. destruct l; [done|]. cbn [length] in *. lia.
Qed.

Lemma host_length L : Forall label_ok L -> (length L <= S (length (host L)))%nat.
Proof. intros H. unfold host. rewrite <- (length_rev L). apply join_length. by apply Forall_rev. Qed.

Lemma fall_0 r b : fall r 0 = fall b 0 -> r = b.
Proof. unfold fall. destruct (Z.eqb_spec r 0), (Z.eqb_spec b 0); congruence. Qed.

Lemma made_tables n E T0 a T1 : made n E T0 a T1 -> T0 ⊆ T1 /\ wc_is n T1 a E 0.
Proof. intros (_ & Hz & Hm). specialize (Hm 0). by rewrite Hz in Hm. Qed.

Lemma find_head_best n T a E L : Forall entry_ok E -> wc_is n T a E 0 -> L <> [] -> Forall label_ok L ->
  ngx_hash_find_wc_head (S (length (host L))) T a (host L) = Some (best false E L).
Proof. intros HE Hwc Hne HL. destruct (find_head_ok n T a E 0 L _ HE Hwc Hne HL (host_length L HL)) as (r & -> & Hr). by rewrite (fall_0 _ _ Hr). Qed.

Lemma find_tail_best n T a E L : Forall entry_ok E -> Forall (fun e => we_star e = false) E -> wc_is n T a E 0 -> L <> [] -> Forall label_ok L ->
  ngx_hash_find_wc_tail (S (length (join L))) T a (join L) = Some (best true E L).
Proof. intros HE HS Hwc Hne HL. destruct (find_tail_ok n T a E 0 L _ HE HS Hwc Hne HL (join_length L HL)) as (r & -> & Hr). by rewrite (fall_0 _ _ Hr). Qed.

(** C15: making the nested tables of wildcard names in the order of [ngx_dns_strcmp] never faults, and when it does not fail, a search from the last label of a host gives the value of the name with the most labels that matches it, and NULL when none does; likewise the search from the first label for names that end in a wildcard. *)
Theorem wildcard_longest p junk fuel E st :
  params_ok p -> entries_ok fuel E -> (0 < fuel)%nat -> store_ok st ->
  match ngx_hash_wildcard_init p junk fuel (map to_name E) st with
  | Fault => False
  | Error => True
  | Ok a st' =>
      forall L, L <> [] -> Forall label_ok L ->
        (exists v, ngx_hash_find_wc_head (S (length (host L))) (wc_tables st') a (host L) = Some v /\ longest false E L v) /\
        (Forall (fun e => we_star e = false) E ->
         exists v, ngx_hash_find_wc_tail (S (length (join L))) (wc_tables st') a (join L) = Some v /\ longest true E L v)
  end.
Proof.
  intros Hp HE Hf Hst. pose proof (wildcard_init_ok p junk fuel Hp E st HE Hf Hst) as H. destruct (ngx_hash_wildcard_init p junk fuel (map to_name E) st) as [| |a st']; [done|done|].
  destruct H as [_ [_ Hwc]%made_tables]. destruct HE as [H1 H2 _ _]. intros L Hne HL. split.
  - exists (best false E L). split; [by eapply find_head_best|by apply best_longest].
  - intros HS. exists (best true E L). split; [by eapply find_tail_best|by apply best_longest].
Qed.

Definition sample_entries : list wc_entry :=
  [{| we_path := [B! "com"; B! "a"]; we_star := true; we_value := 8 |}; {| we_path := [B! "com"; B! "a"; B! "b"]; we_star := false; we_value := 16 |};
   {| we_path := [B! "net"]; we_star := false; we_value := 24 |}].
Definition sample_store : wc_store := {| wc_tables := ∅; wc_pool := map (fun i => (4096 * i, 4096 * i + 64)) (seqZ 1 8) |}.


Lemma sample_entries_ok : entries_ok 3 sample_entries.
Proof.
  constructor; [by apply (bool_decide_unpack _)|by apply (bool_decide_unpack _)| |by apply (bool_decide_unpack _)].
  repeat (constructor || (unfold dns_le; vm_compute; congruence)).
Qed.

Lemma sample_store_ok : store_ok sample_store.
Proof. constructor; [|by apply (bool_decide_unpack _)|done]. unfold ptr_ok. by apply (bool_decide_unpack _). Qed.

Lemma wildcard_longest_witness :
  match ngx_hash_wildcard_init sample_params (fun _ => 7) 3 (map to_name sample_entries) sample_store with
  | Ok a st' => ngx_hash_find_wc_head 9 (wc_tables st') a (B! "x.b.a.com") = Some 16 /\ exists v, longest false sample_entries [B! "com"; B! "a"; B! "x"] v
  | _ => False
  end.
Proof.
  pose proof (wildcard_longest sample_params (fun _ => 7) 3 sample_entries sample_store sample_params_ok sample_entries_ok ltac:(lia) sample_store_ok) as H.
  destruct (ngx_hash_wildcard_init _ _ _ _ _) as [| |a st'] eqn:Ei; [done|vm_compute in Ei; discriminate|]. split.
  - assert (Hx : match ngx_hash_wildcard_init sample_params (fun _ => 7) 3 (map to_name sample_entries) sample_store with
      | Ok a st' => ngx_hash_find_wc_head 9 (wc_tables st') a (B! "x.b.a.com") = Some 16 | _ => False end) by (vm_compute; reflexivity). by rewrite Ei in Hx.
  - destruct (H [B! "com"; B! "a"; B! "x"] ltac:(done) ltac:(by apply (bool_decide_unpack _))) as [(v & _ & Hv) _]. by exists v.
Defined.
