(* ===== verification/NgxHashKeys.v ===== *)
(** * Collecting the names of a hash

    [ngx_hash_keys_array_init] and [ngx_hash_add_key] of
    src/nginx-1.4.7/src/core/ngx_hash.c: names are collected from the
    configuration and told apart by kind; a name that was already given is found
    with a simple hash of arrays, and refused.

    The answers of the memory pool are given, one for each allocation and for each
    element that is pushed; an answer [false], or the end of the answers, is
    NULL. *)
From stdpp Require Import gmap.
From S2P Require Import Prelude HttpChars NgxHashKey NgxStrings NgxHash NgxHashWildcard NgxHashNames.

(** ** Definitions *)

(** [core/ngx_hash.h:69-69] NGX_HASH_LARGE_HSIZE *)
Definition NGX_HASH_LARGE_HSIZE : Z := 10007.

(** A hash of arrays of names.  An array without elements has not been
    initialized. *)
Abbreviation names_hash := (Z -> list (list Z)) (only parsing).

(** [core/ngx_hash.h:75-89] ngx_hash_keys_arrays_t *)
Record keys_arrays : Type := {
  ha_hsize : Z;
  ha_pool : list bool;
  ha_keys : list hash_key;
  ha_keys_hash : Z -> list (list Z);
  ha_dns_wc_head : list wc_name;
  ha_dns_wc_head_hash : Z -> list (list Z);
  ha_dns_wc_tail : list wc_name;
  ha_dns_wc_tail_hash : Z -> list (list Z)
}.

(** NGX_OK, NGX_BUSY and NGX_DECLINED. *)
Inductive add_rc : Type := add_ok | add_busy | add_declined.

(** Asks the pool; [None] is NGX_ERROR. *)
Definition palloc (ha : keys_arrays) : option keys_arrays :=
  match ha_pool ha with
  | true :: pool => Some {| ha with ha_pool := pool |}
  | _ => None
  end.

(** [small] is NGX_HASH_SMALL.
    [core/ngx_hash.c:651-703] ngx_hash_keys_array_init *)
Definition ngx_hash_keys_array_init (pool : list bool) (small : bool) : option keys_arrays :=
  let ha := {| ha_hsize := if small then 107 else NGX_HASH_LARGE_HSIZE; ha_pool := pool; ha_keys := []; ha_keys_hash := fun _ => [];
    ha_dns_wc_head := []; ha_dns_wc_head_hash := fun _ => []; ha_dns_wc_tail := []; ha_dns_wc_tail_hash := fun _ => [] |} in
  ha ← palloc ha;
  ha ← palloc ha;
  ha ← palloc ha;
  ha ← palloc ha;
  ha ← palloc ha;
  palloc ha.

(** The number of asterisks; [None] is NGX_DECLINED.
    [core/ngx_hash.c:728-739] for (i = 0; i < key->len; i++) *)
Fixpoint count_asterisks (n : nat) (key : list Z) : option nat :=
  match key with
  | [] => Some n
  | c :: key =>
      let n' := if c =? C! "*" then S n else n in
      if (c =? C! "*") && (1 <? n')%nat then None
      else if (c =? C! ".") && (byte key =? C! ".") then None
      else count_asterisks n' key
  end.

(** What a key is: a wildcard with the bytes to skip, an exact name, or
    NGX_DECLINED.
    [core/ngx_hash.c:719-763] if (flags & NGX_HASH_WILDCARD_KEY) *)
Inductive key_kind : Type := kind_wildcard (skip last : nat) | kind_exact | kind_declined.

(** [core/ngx_hash.c:719-763] if (flags & NGX_HASH_WILDCARD_KEY) *)
Definition key_kind_of (wildcard_key : bool) (key : list Z) : key_kind :=
  let len := length key in
  if wildcard_key then
    match count_asterisks 0 key with
    | None => kind_declined
    | Some n =>
        if (1 <? len)%nat && (nth 0 key 0 =? C! ".") then kind_wildcard 1 len
        else if (2 <? len)%nat && (nth 0 key 0 =? C! "*") && (nth 1 key 0 =? C! ".") then kind_wildcard 2 len
        else if (2 <? len)%nat && (nth (len - 2) key 0 =? C! ".") && (nth (len - 1) key 0 =? C! "*") then kind_wildcard 0 (len - 2)
        else if (n =? 0)%nat then kind_exact else kind_declined
    end
  else kind_exact.

(** Whether the array has the first [len] bytes of [data].
    [core/ngx_hash.c:783-791] for (i = 0; i < ha->keys_hash\[k\].nelts; i++) *)
Definition conflicts (names : list (list Z)) (data : list Z) (len : nat) : bool :=
  existsb (fun name => (len =? length name)%nat && (strncmp data name len =? 0)) names.

Definition push (k : Z) (name : list Z) (h : Z -> list (list Z)) : Z -> list (list Z) := fun i => if i =? k then h k ++ [name] else h i.

(** The bytes of the key in the hash of exact names, in lower case when they may be
    changed.
    [core/ngx_hash.c:769-774] for (i = 0; i < last; i++) *)
Definition exact_data (readonly : bool) (key : list Z) : list Z := if readonly then key else ngx_strlow key.

(** Pushing a name to an array that is initialized when it is empty.
    [core/ngx_hash.c:793-805] else *)
Definition array_push (empty : bool) (ha : keys_arrays) : option keys_arrays :=
  ha ← (if empty then palloc ha else Some ha);
  palloc ha.

(** [core/ngx_hash.c:765-818] exact hash *)
Definition add_exact (ha : keys_arrays) (key : list Z) (value : Z) (readonly : bool) : option (add_rc * list Z * keys_arrays) :=
  let data := exact_data readonly key in
  let last := length key in
  let k := ngx_hash_key data mod ha_hsize ha in
  let names := ha_keys_hash ha k in
  if conflicts names data last then Some (add_busy, data, ha)
  else
    ha ← array_push (match names with [] => true | _ => false end) ha;
    let ha := {| ha with ha_keys_hash := push k data (ha_keys_hash ha) |} in
    ha ← palloc ha;
    Some (add_ok, data, {| ha with ha_keys := ha_keys ha ++ [{| hk_null := false; hk_key := data; hk_hash := ngx_hash_key data; hk_value := value |}] |}).

(** The labels in reverse: [p] is written and [len] bytes after [i] are of the label.
    [core/ngx_hash.c:887-897] for (i = last - 1; i; i--) *)
Fixpoint reverse_labels (data : list Z) (i len : nat) (p : list Z) : list Z * nat :=
  match i with
  | O => (p, len)
  | S j =>
      if nth i data 0 =? C! "." then reverse_labels data j O (p ++ take len (drop (S i) data) ++ [C! "."])
      else reverse_labels data j (S len) p
  end.

(** [com.example.] for an asterisk and [com.example] without it.
    [core/ngx_hash.c:884-904] len = 0 *)
Definition reversed (data : list Z) (last : nat) : list Z :=
  let '(p, len) := reverse_labels data (last - 1) O [] in
  p ++ take len (drop 1 data) ++ [0].

(** [core/ngx_hash.c:829-869] if (skip == 1) *)
Definition add_dot_exact (ha : keys_arrays) (k : Z) (data : list Z) (last : nat) : option (bool * keys_arrays) :=
  let names := ha_keys_hash ha k in
  if conflicts names (drop 1 data) (last - 1) then Some (true, ha)
  else
    ha ← array_push (match names with [] => true | _ => false end) ha;
    ha ← palloc ha;
    Some (false, {| ha with ha_keys_hash := push k (take (last - 1) (drop 1 data)) (ha_keys_hash ha) |}).

(** [core/ngx_hash.c:821-977] wildcard *)
Definition add_wildcard (ha : keys_arrays) (key : list Z) (value : Z) (skip last : nat) : option (add_rc * list Z * keys_arrays) :=
  let '(h, low) := ngx_hash_strlow (take (last - skip) (drop skip key)) in
  let data := take skip key ++ low ++ drop last key in
  let k := h mod ha_hsize ha in
  '(busy, ha) ← (if (skip =? 1)%nat then add_dot_exact ha k data last else Some (false, ha));
  if busy : bool then Some (add_busy, data, ha)
  else
    ha ← palloc ha;
    let head := negb (skip =? 0)%nat in
    let last := if head then last else S last in
    let p := if head then reversed data last else ngx_cpystrn data last in
    let names := (if head then ha_dns_wc_head_hash ha else ha_dns_wc_tail_hash ha) k in
    if conflicts names (drop skip data) (last - skip) then Some (add_busy, data, ha)
    else
      ha ← array_push (match names with [] => true | _ => false end) ha;
      ha ← palloc ha;
      let name := take (last - skip) (drop skip data) in
      let ha := if head then {| ha with ha_dns_wc_head_hash := push k name (ha_dns_wc_head_hash ha) |}
                else {| ha with ha_dns_wc_tail_hash := push k name (ha_dns_wc_tail_hash ha) |} in
      ha ← palloc ha;
      let hk := {| wn_key := take (last - 1) p; wn_value := value |} in
      Some (add_ok, data,
            if head then {| ha with ha_dns_wc_head := ha_dns_wc_head ha ++ [hk] |} else {| ha with ha_dns_wc_tail := ha_dns_wc_tail ha ++ [hk] |}).

(** The result, the bytes of the key, which are changed in place, and the arrays;
    [None] is NGX_ERROR.
    [core/ngx_hash.c:706-978] ngx_hash_add_key *)
Definition ngx_hash_add_key (ha : keys_arrays) (key : list Z) (value : Z) (wildcard_key readonly : bool) : option (add_rc * list Z * keys_arrays) :=
  match key_kind_of wildcard_key key with
  | kind_declined => Some (add_declined, key, ha)
  | kind_exact => add_exact ha key value readonly
  | kind_wildcard skip last => add_wildcard ha key value skip last
  end.

(** ** Reversing labels *)

Lemma reverse_scan data a l b j p :
  data = a ++ C! "." :: l ++ b -> Forall (fun c => c <> C! ".") l -> (j <= length l)%nat ->
  reverse_labels data (length a + j) (length l - j) p = reverse_labels data (length a) (length l) p.
Proof.
  intros Ed Hl. induction j as [|j IH]; intros Hj; [by rewrite Nat.add_0_r, Nat.sub_0_r|].
  rewrite Nat.add_succ_r. cbn [reverse_labels].
  assert (Hn : exists c, l !! j = Some c /\ nth (S (length a + j)) data 0 = c).
  { destruct (lookup_lt_is_Some_2 l j ltac:(lia)) as [c Hc]. exists c. split; [done|]. apply nth_lookup_Some. rewrite Ed, lookup_app_r by lia.
    replace (S (length a + j) - length a)%nat with (S j) by lia. exact (lookup_app_l_Some l b j c Hc). }
  destruct Hn as (c & Hc & ->). rewrite Forall_lookup in Hl. specialize (Hl _ _ Hc). rewrite (proj2 (Z.eqb_neq c 46)) by done.
  replace (S (length l - S j)) with (length l - j)%nat by lia. apply IH. lia.
Qed.

(** One label, from its last byte on. *)
Lemma reverse_label a l b p : Forall (fun c => c <> C! ".") l ->
  reverse_labels (a ++ C! "." :: l ++ b) (length a + length l) 0 p =
  match a with
  | [] => (p, length l)
  | _ => reverse_labels (a ++ C! "." :: l ++ b) (length a - 1) 0 (p ++ l ++ [C! "."])
  end.
Proof.
  intros Hl. pose proof (reverse_scan _ a l b (length l) p eq_refl Hl ltac:(lia)) as H. rewrite Nat.sub_diag in H. rewrite H.
  destruct a as [|c a]; [done|]. cbn [length Nat.sub reverse_labels]. rewrite Nat.sub_0_r. set (a' := c :: a) in *. change (S (length a)) with (length a').
  rewrite nth_middle, Z.eqb_refl, drop_dot. by rewrite take_app_length.
Qed.

Lemma host_snoc l m R : host (l :: m :: R) = host (m :: R) ++ C! "." :: l.
Proof. by rewrite host_cons. Qed.

Lemma reverse_host R a b p : Forall label_ok R -> R <> [] ->
  match a with
  | [] => (fun '(p, len) => p ++ take len (drop 1 (C! "." :: host R ++ b))) (reverse_labels (C! "." :: host R ++ b) (length (host R)) 0 p) = p ++ join R
  | _ => reverse_labels (a ++ C! "." :: host R ++ b) (length a + length (host R)) 0 p =
         reverse_labels (a ++ C! "." :: host R ++ b) (length a - 1) 0 (p ++ join R ++ [C! "."])
  end.
Proof.
  intros HR Hne. revert a b p; induction R as [|l R IH]; intros a b p; [done|]. apply Forall_cons in HR as [Hl%label_no_dot HR]. destruct R as [|m R].
  - rewrite host_cons. pose proof (reverse_label a l b p Hl) as H. destruct a as [|c a]; [|exact H]. cbn [length Nat.add] in H. cbn [app] in H. rewrite H. f_equal. exact (take_app_length l b).
  - specialize (IH HR ltac:(done)). rewrite host_snoc, join_cons, <- (assoc_L (++)). change ((C! "." :: l) ++ b) with (C! "." :: l ++ b).
    assert (Hstep : reverse_labels (a ++ C! "." :: host (m :: R) ++ C! "." :: l ++ b) (length a + length (host (m :: R) ++ C! "." :: l)) 0 p =
                    reverse_labels (a ++ C! "." :: host (m :: R) ++ C! "." :: l ++ b) (length a + length (host (m :: R))) 0 (p ++ l ++ [C! "."])).
    { replace (a ++ C! "." :: host (m :: R) ++ C! "." :: l ++ b) with ((a ++ C! "." :: host (m :: R)) ++ C! "." :: l ++ b) by (by rewrite <- (assoc_L (++))).
      replace (length a + length (host (m :: R) ++ C! "." :: l))%nat with (length (a ++ C! "." :: host (m :: R)) + length l)%nat by (rewrite !length_app; cbn; lia).
      rewrite (reverse_label _ l b p Hl). destruct (a ++ C! "." :: host (m :: R)) as [|x y] eqn:Exy; [by destruct a|]. rewrite <- Exy. f_equal. rewrite length_app. cbn. lia. }
    specialize (IH a (C! "." :: l ++ b) (p ++ l ++ [C! "."])). destruct a as [|c a].
    + cbn [app length Nat.add] in Hstep. rewrite Hstep, IH. by rewrite <- !(assoc_L (++)).
    + rewrite Hstep, IH. by rewrite <- !(assoc_L (++)).
Qed.

Lemma reversed_dot R : Forall label_ok R -> R <> [] -> reversed (C! "." :: host R) (S (length (host R))) = join R ++ [0].
Proof.
  intros HR Hne. pose proof (reverse_host R [] [] [] HR Hne) as H. cbn [app] in H. rewrite app_nil_r in H. unfold reversed. cbn [Nat.sub]. rewrite Nat.sub_0_r.
  destruct (reverse_labels _ _ _ _) as [p len]. by rewrite (assoc_L (++)), H.
Qed.

Lemma reversed_star R : Forall label_ok R -> R <> [] -> reversed (C! "*" :: C! "." :: host R) (S (S (length (host R)))) = join R ++ [C! "."; 0].
Proof.
  intros HR Hne. pose proof (reverse_host R [C! "*"] [] [] HR Hne) as H. cbn [app length Nat.add Nat.sub] in H. rewrite app_nil_r in H. unfold reversed. cbn [Nat.sub].
  rewrite H. cbn [reverse_labels take app]. by rewrite <- (assoc_L (++)).
Qed.

(** ** Kinds of names *)

Inductive sn_kind : Type := Exact | Dot | Star | Tail.

(** A name of a server: its labels in lower case, in their order, its bytes in the
    configuration, and the server. *)
Record server_name : Type := { sn_kind_of : sn_kind; sn_labels : labels; sn_text : list Z; sn_server : Z }.

Definition render (k : sn_kind) (h : list Z) : list Z :=
  match k with
  | Exact => h
  | Dot => C! "." :: h
  | Star => C! "*" :: C! "." :: h
  | Tail => h ++ [C! "."; C! "*"]
  end.

Definition sn_host (n : server_name) : list Z := join (sn_labels n).

Record sn_ok (n : server_name) : Prop := {
  sn_ok_labels : Forall label_ok (sn_labels n);
  sn_ok_some : sn_labels n <> [];
  sn_ok_plain : Forall (Forall (fun c => c <> C! "*")) (sn_labels n);
  sn_ok_bytes : Forall is_byte (sn_text n);
  sn_ok_text : ngx_strlow (sn_text n) = render (sn_kind_of n) (sn_host n);
  sn_ok_server : ptr_ok (sn_server n)
}.

(** The tests of the bytes of a key do not depend on the case of letters. *)
Lemma tolower_test c d : is_byte c -> d = C! "." \/ d = C! "*" -> (ngx_tolower c =? d) = (c =? d).
Proof.
  intros Hc Hd. apply eqb_prop. destruct Hd as [-> | ->].
  - by apply (byte_forall (fun c => Bool.eqb (ngx_tolower c =? C! ".") (c =? C! "."))).
  - by apply (byte_forall (fun c => Bool.eqb (ngx_tolower c =? C! "*") (c =? C! "*"))).
Qed.

Lemma byte_low s : byte (ngx_strlow s) = match s with [] => 0 | c :: _ => ngx_tolower c end.
Proof. by destruct s. Qed.

Lemma count_low n s : Forall is_byte s -> count_asterisks n (ngx_strlow s) = count_asterisks n s.
Proof.
  intros H. revert n; induction H as [|c s Hc Hs IH]; intros n; [done|]. cbn [ngx_strlow count_asterisks]. rewrite !tolower_test by auto. rewrite byte_low, IH.
  destruct Hs as [|d s Hd Hs]; [done|]. by rewrite tolower_test by auto.
Qed.

Lemma nth_low i s d : Forall is_byte s -> d = C! "." \/ d = C! "*" -> (nth i (ngx_strlow s) 0 =? d) = (nth i s 0 =? d).
Proof. intros H Hd. revert i; induction H as [|c s Hc Hs IH]; intros [|i]; cbn [ngx_strlow nth]; [done|done|by apply tolower_test|apply IH]. Qed.

Lemma kind_low w s : Forall is_byte s -> key_kind_of w (ngx_strlow s) = key_kind_of w s.
Proof. intros H. unfold key_kind_of. rewrite ngx_strlow_length, count_low by done. by rewrite !nth_low by auto. Qed.

Lemma count_plain n l t : Forall (fun c => c <> C! "." /\ c <> C! "*") l -> count_asterisks n (l ++ t) = count_asterisks n t.
Proof.
  induction 1 as [|c l [Hd Hs] _ IH]; [done|]. cbn [app count_asterisks]. by rewrite (proj2 (Z.eqb_neq c 42)), (proj2 (Z.eqb_neq c 46)), IH by done.
Qed.

Lemma plain_label l : label_ok l -> Forall (fun c => c <> C! "*") l -> Forall (fun c => c <> C! "." /\ c <> C! "*") l.
Proof. intros Hl Hs. apply Forall_and. split; [by apply label_no_dot|done]. Qed.

Lemma count_join n P t : Forall label_ok P -> Forall (Forall (fun c => c <> C! "*")) P -> count_asterisks n (join P ++ t) = count_asterisks n t.
Proof.
  intros HP. induction HP as [|l P Hl HP IH]; intros HS; [done|]. apply Forall_cons in HS as [Hs HS]. specialize (IH HS). pose proof (plain_label l Hl Hs) as Hpl.
  destruct P as [|m P]; [by apply count_plain|]. rewrite join_cons, <- (assoc_L (++)), count_plain by done. cbn [app count_asterisks].
  apply Forall_cons in HP as [[Hm Hm'] _]. change (46 =? 42) with false. change (46 =? 46) with true. cbn [andb]. rewrite IH.
  assert (Hb : (byte (join (m :: P) ++ t) =? 46) = false); [|by rewrite Hb].
  destruct m as [|c m]; [done|]. apply Forall_cons in Hm' as [(_ & Hc & _) _]. apply Z.eqb_neq. by destruct P.
Qed.

Lemma join_first P : Forall label_ok P -> P <> [] -> exists c x, join P = c :: x /\ letter c /\ (Forall (Forall (fun c => c <> C! "*")) P -> c <> C! "*").
Proof.
  intros HP Hne. destruct HP as [|l P [Hl Hl'] HP]; [done|]. destruct l as [|c l]; [done|]. apply Forall_cons in Hl' as [Hc _].
  exists c, (match P with [] => l | _ => l ++ C! "." :: join P end). split_and!; [by destruct P|done|]. intros HS. apply Forall_cons in HS as [HS _]. by apply Forall_cons in HS as [? _].
Qed.

Lemma join_plain P : Forall (Forall (fun c => c <> C! "*")) P -> Forall (fun c => c <> C! "*") (join P).
Proof. induction 1 as [|l P Hl HP IH]; [constructor|]. destruct P as [|m P]; [done|]. rewrite join_cons. apply Forall_app. split; [done|by constructor]. Qed.

Definition expected_kind (k : sn_kind) (len : nat) : key_kind :=
  match k with Exact => kind_exact | Dot => kind_wildcard 1 (S len) | Star => kind_wildcard 2 (S (S len)) | Tail => kind_wildcard 0 len end.

Lemma kind_ok n : sn_ok n -> key_kind_of true (sn_text n) = expected_kind (sn_kind_of n) (length (sn_host n)).
Proof.
  intros [HL Hne HS Hb Ht _]. rewrite <- kind_low, Ht by done. unfold sn_host. set (P := sn_labels n) in *. destruct (join_first P HL Hne) as (c & x & Ej & (Hc1 & Hc2 & _) & Hc3). specialize (Hc3 HS).
  pose proof (count_join 0 P [] HL HS) as Hcnt. rewrite app_nil_r in Hcnt. pose proof (join_plain P HS) as Hpl. unfold key_kind_of. destruct (sn_kind_of n); cbn [render expected_kind].
  - rewrite Hcnt. cbn [count_asterisks]. assert (nth 0 (join P) 0 = c) as -> by by rewrite Ej. rewrite (proj2 (Z.eqb_neq c 46)), (proj2 (Z.eqb_neq c 42)) by done. rewrite !andb_false_r. cbn [andb].
    destruct (nth (length (join P) - 1) (join P) 0 =? 42) eqn:El; [|by rewrite andb_false_r].
    exfalso. apply Z.eqb_eq in El. rewrite (Forall_nth _ 0) in Hpl. apply (Hpl (length (join P) - 1)%nat); [|done]. rewrite Ej. cbn. lia.
  - cbn [count_asterisks]. change (46 =? 42) with false. change (46 =? 46) with true. cbn [andb]. rewrite Ej. cbn [byte hd]. rewrite (proj2 (Z.eqb_neq c 46)), <- Ej, Hcnt by done. cbn [count_asterisks].
    rewrite Ej. done.
  - cbn [count_asterisks byte hd]. change (42 =? 42) with true. change (42 =? 46) with false. change (46 =? 42) with false. change (46 =? 46) with true. cbn [andb Nat.ltb Nat.leb]. rewrite Ej. cbn [byte hd].
    rewrite (proj2 (Z.eqb_neq c 46)), <- Ej by done. rewrite <- (app_nil_r (join P)), count_join by done. rewrite app_nil_r. cbn [count_asterisks]. rewrite Ej. done.
  - rewrite count_join by done. cbn [count_asterisks byte hd]. change (46 =? 42) with false. change (42 =? 46) with false. change (42 =? 42) with true. change (46 =? 46) with true. change (1 <? 1)%nat with false. cbn [andb].
    assert (E1 : (length (join P ++ [C! "."; C! "*"]) - 2 = length (join P))%nat) by (rewrite length_app; cbn; lia). assert (E2 : (length (join P ++ [C! "."; C! "*"]) - 1 = S (length (join P)))%nat) by (rewrite length_app; cbn; lia).
    rewrite E1, E2, nth_middle. replace (nth (S (length (join P))) (join P ++ [C! "."; C! "*"]) 0) with 42.
    2: { symmetry. rewrite app_nth2 by lia. replace (S (length (join P)) - length (join P))%nat with 1%nat by lia. done. }
    assert (E3 : (2 <? length (join P ++ [C! "."; C! "*"]))%nat = true) by (apply Nat.ltb_lt; rewrite length_app, Ej; cbn; lia). rewrite E3. assert (nth 0 (join P ++ [C! "."; C! "*"]) 0 = c) as -> by by rewrite Ej.
    rewrite (proj2 (Z.eqb_neq c 46)), (proj2 (Z.eqb_neq c 42)) by done. rewrite !andb_false_r. done.
Qed.

(** ** Names that are taken *)

(** The exact names, the hosts that no later exact name may have, and the
    wildcards. *)
Record accepted : Type := { ac_exact : list (list Z * Z); ac_reserved : list (list Z); ac_head : list wc_entry; ac_tail : list wc_entry }.

Definition head_entry (n : server_name) : wc_entry :=
  {| we_path := rev (sn_labels n); we_star := match sn_kind_of n with Star => true | _ => false end; we_value := sn_server n |}.
Definition tail_entry (n : server_name) : wc_entry := {| we_path := sn_labels n; we_star := false; we_value := sn_server n |}.

Definition with_head (n : server_name) (a : accepted) : bool * accepted :=
  if bool_decide (rev (sn_labels n) ∈ map we_path (ac_head a)) then (false, a) else (true, {| a with ac_head := ac_head a ++ [head_entry n] |}).

Definition reserve (n : server_name) (a : accepted) : accepted := {| a with ac_reserved := sn_host n :: ac_reserved a |}.

(** Whether the name is taken, and the names after it. *)
Definition accept (n : server_name) (a : accepted) : bool * accepted :=
  match sn_kind_of n with
  | Exact =>
      if bool_decide (sn_host n ∈ ac_reserved a) then (false, a)
      else let b := reserve n a in (true, {| b with ac_exact := ac_exact a ++ [(sn_host n, sn_server n)] |})
  | Dot => if bool_decide (sn_host n ∈ ac_reserved a) then (false, a) else with_head n (reserve n a)
  | Star => with_head n a
  | Tail =>
      if bool_decide (sn_labels n ∈ map we_path (ac_tail a)) then (false, a)
      else (true, {| a with ac_tail := ac_tail a ++ [tail_entry n] |})
  end.

Definition none_accepted : accepted := {| ac_exact := []; ac_reserved := []; ac_head := []; ac_tail := [] |}.

(** [names] are in the buckets of their hashes; [stored] tells what is kept of a name. *)
Definition hashed_in (hsize : Z) (h : Z -> list (list Z)) (stored : list Z -> list Z) (names : list (list Z)) : Prop :=
  forall k x, x ∈ h k <-> exists y, y ∈ names /\ x = stored y /\ k = ngx_hash_key y mod hsize.

Definition entry_host (e : wc_entry) : list Z := host (we_path e).
Definition entry_join (e : wc_entry) : list Z := join (we_path e).
Definition exact_key (x : list Z * Z) : hash_key := {| hk_null := false; hk_key := x.1; hk_hash := ngx_hash_key x.1; hk_value := x.2 |}.

(** The arrays hold the names that are taken. *)
Record collected (ha : keys_arrays) (a : accepted) : Prop := {
  co_keys : ha_keys ha = map exact_key (ac_exact a);
  co_keys_hash : hashed_in (ha_hsize ha) (ha_keys_hash ha) id (ac_reserved a);
  co_head : ha_dns_wc_head ha = map to_name (ac_head a);
  co_head_hash : hashed_in (ha_hsize ha) (ha_dns_wc_head_hash ha) id (map entry_host (ac_head a));
  co_tail : ha_dns_wc_tail ha = map to_name (ac_tail a);
  co_tail_hash : hashed_in (ha_hsize ha) (ha_dns_wc_tail_hash ha) (fun y => y ++ [C! "."]) (map entry_join (ac_tail a));
  co_entries : Forall entry_ok (ac_head a ++ ac_tail a)
}.

Lemma palloc_pool ha ha' : palloc ha = Some ha' -> exists pool, ha_pool ha = true :: pool /\ ha' = {| ha with ha_pool := pool |}.
Proof. unfold palloc. destruct (ha_pool ha) as [|[] pool]; [done| |done]. intros [= <-]. by exists pool. Qed.

Lemma array_push_pool b ha ha' : array_push b ha = Some ha' -> exists pool, ha' = {| ha with ha_pool := pool |}.
Proof.
  unfold array_push. destruct b; cbn [mbind option_bind]; [|intros (pool & _ & ->)%palloc_pool; by exists pool].
  destruct (palloc ha) as [ha1|] eqn:E; [|done]. apply palloc_pool in E as (pool & _ & ->). intros (pool' & _ & ->)%palloc_pool. by exists pool'.
Qed.

Lemma push_hashed hsize h stored names y : hashed_in hsize h stored names -> hashed_in hsize (push (ngx_hash_key y mod hsize) (stored y) h) stored (names ++ [y]).
Proof.
  intros H k x. unfold push. set (ky := ngx_hash_key y mod hsize). destruct (Z.eqb_spec k ky) as [E|E].
  - rewrite E, elem_of_app, list_elem_of_singleton, (H ky x). split.
    + intros [(z & Hz & Ex & Ek)|Ex]; [exists z|exists y]; (split; [apply elem_of_app; rewrite list_elem_of_singleton; auto|done]).
    + intros (z & Hz & Ex & Ek). apply elem_of_app in Hz as [Hz|Hz%list_elem_of_singleton]; [left; by exists z|right; by rewrite Ex, Hz].
  - rewrite (H k x). split; [intros (z & Hz & ?); exists z; split; [set_solver|done]|]. intros (z & Hz & Ex & Ek). exists z.
    apply elem_of_app in Hz as [Hz|Hz%list_elem_of_singleton]; [done|]. rewrite Hz in Ek. done.
Qed.

Lemma hashed_in_cons hsize h stored names y : hashed_in hsize h stored (names ++ [y]) -> hashed_in hsize h stored (y :: names).
Proof. intros H k x. rewrite (H k x). setoid_rewrite elem_of_app. setoid_rewrite list_elem_of_singleton. setoid_rewrite elem_of_cons. split; intros (z & [Hz|Hz] & ?); exists z; auto. Qed.

Lemma conflicts_spec names data len : (len <= length data)%nat -> Forall (fun c => 0 < c) (take len data) -> conflicts names data len = bool_decide (take len data ∈ names).
Proof.
  intros Hlen Hpos. assert (El : length (take len data) = len) by (rewrite length_take; lia). apply eq_bool_prop_intro. rewrite bool_decide_spec. unfold conflicts. rewrite Is_true_true, existsb_exists. split.
  - intros (x & Hx & [E1%Nat.eqb_eq E2%Z.eqb_eq]%andb_prop). apply list_elem_of_In in Hx. assert (E3 : strncmp (take len data ++ drop len data) x (length (take len data)) = 0) by (by rewrite El, take_drop).
    apply strncmp_start in E3 as [w Hw]; [|done]. assert (w = []) as ->. { apply length_zero_iff_nil. apply (f_equal length) in Hw. rewrite length_app in Hw. lia. } by rewrite app_nil_r in Hw; rewrite <- Hw.
  - intros Hx. exists (take len data). split; [by apply list_elem_of_In|]. rewrite El, Nat.eqb_refl. cbn [andb]. apply Z.eqb_eq.
    pose proof (proj2 (strncmp_start (take len data) (drop len data) (take len data) Hpos) ltac:(done)) as H. by rewrite El, take_drop in H.
Qed.

(** A name is in the bucket of its hash when it is one of the names. *)
Lemma conflict_in hsize h stored names y data len :
  hashed_in hsize h stored names -> (forall z, stored y = stored z -> y = z) -> (len <= length data)%nat -> take len data = stored y -> Forall (fun c => 0 < c) (stored y) ->
  conflicts (h (ngx_hash_key y mod hsize)) data len = bool_decide (y ∈ names).
Proof.
  intros H Hinj Hlen Et Hpos. rewrite conflicts_spec by (done || by rewrite Et). apply bool_decide_ext. rewrite Et, (H _ (stored y)). split.
  - intros (z & Hz & Ez & _). by rewrite (Hinj z Ez).
  - intros Hy. by exists y.
Qed.

Lemma join_pos P : Forall label_ok P -> Forall (fun c => 0 < c) (join P).
Proof.
  induction 1 as [|l P [_ Hl] HP IH]; [constructor|]. apply letter_pos in Hl. destruct P as [|m P]; [done|]. rewrite join_cons. apply Forall_app. split; [done|constructor; [lia|done]].
Qed.

Lemma join_inj P Q : Forall label_ok P -> Forall label_ok Q -> P <> [] -> Q <> [] -> join P = join Q -> P = Q.
Proof.
  intros HP. revert Q; induction HP as [|l P Hl HP IH]; intros Q HQ Hne Hne' E; [done|]. destruct HQ as [|m Q Hm HQ]; [done|]. apply label_letters in Hl as Hl', Hm as Hm'.
  assert (Ht : forall l R, exists t, join (l :: R) = l ++ t /\ ends t /\ (t = [] <-> R = []) /\ (R <> [] -> t = C! "." :: join R)).
  { clear. intros l [|m R]; [exists []|exists (C! "." :: join (m :: R))]; cbn [join]; rewrite ?app_nil_r; (split_and!; [done|..]); [by left|done|done|right; by eexists|done|done]. }
  destruct (Ht l P) as (t & Et & Hend & Hnil & Hdot), (Ht m Q) as (u & Eu & Hend' & Hnil' & Hdot'). assert (l = m) as ->.
  { rewrite Et, Eu in E. by apply (label_unique l m t u). }
  f_equal. rewrite Et, Eu in E. apply app_inv_head in E. destruct P as [|x P], Q as [|y Q]; [done| | |].
  - rewrite (proj2 Hnil eq_refl) in E. symmetry in E. apply Hnil' in E. done.
  - rewrite (proj2 Hnil' eq_refl) in E. apply Hnil in E. done.
  - apply IH; [done|done|done|]. rewrite Hdot, Hdot' in E by done. by injection E.
Qed.

Lemma strlow_app x y : ngx_strlow (x ++ y) = ngx_strlow x ++ ngx_strlow y.
Proof. induction x as [|c x IH]; [done|]. cbn. by rewrite IH. Qed.

(** Dots and asterisks are not changed. *)
Lemma low_fixed s t : Forall is_byte s -> Forall (fun d => d = C! "." \/ d = C! "*") t -> ngx_strlow s = t -> s = t.
Proof.
  intros Hs. revert t; induction Hs as [|c s Hc Hs IH]; intros t Ht E; [done|]. destruct Ht as [|d t Hd Ht]; [done|]. cbn in E. injection E as E1 E2.
  f_equal; [|by apply IH]. pose proof (tolower_test c d Hc Hd) as H. rewrite E1, Z.eqb_refl in H. symmetry in H. by apply Z.eqb_eq in H.
Qed.

Definition kind_skip (k : sn_kind) : nat := match k with Exact | Tail => 0 | Dot => 1 | Star => 2 end.

(** What the lower case is made of, for all kinds with a wildcard. *)
Lemma wildcard_parts n : sn_ok n -> let skip := kind_skip (sn_kind_of n) in let last := (skip + length (sn_host n))%nat in let data := render (sn_kind_of n) (sn_host n) in
  ngx_strlow (take (last - skip) (drop skip (sn_text n))) = sn_host n /\
  take skip (sn_text n) ++ sn_host n ++ drop last (sn_text n) = data.
Proof.
  intros [HL Hne HS Hb Ht _]. cbn zeta. rewrite Nat.add_sub_swap, Nat.sub_diag by done. cbn [Nat.add]. set (h := sn_host n) in *. set (s := sn_text n) in *.
  set (k := sn_kind_of n) in *. set (skip := kind_skip k). assert (Hparts : exists A B, render k h = A ++ h ++ B /\ length A = skip /\ Forall (fun d => d = C! "." \/ d = C! "*") (A ++ B)).
  { unfold skip. destruct k; [exists [], []|exists [C! "."], []|exists [C! "*"; C! "."], []|exists [], [C! "."; C! "*"]]; cbn; rewrite ?app_nil_r; (split; [done|split; [done|]]); repeat (apply Forall_cons; split; [auto|]); apply Forall_nil_2. }
  destruct Hparts as (A & B & Er & HA & HAB). apply Forall_app in HAB as [HA' HB']. rewrite Er in Ht |- *.
  assert (Hlen : length s = (length A + (length h + length B))%nat) by (rewrite <- (ngx_strlow_length s), Ht, !length_app; done).
  rewrite <- (take_drop skip s), <- (take_drop (length h) (drop skip s)), !strlow_app in Ht.
  assert (L1 : length (ngx_strlow (take skip s)) = length A) by (rewrite ngx_strlow_length, length_take; lia).
  apply app_inj_1 in Ht as [E1 Ht]; [|done]. apply app_inj_1 in Ht as [E2 E3]; [|rewrite ngx_strlow_length, length_take, length_drop; lia].
  assert (F : forall m, Forall is_byte (take m s) /\ Forall is_byte (drop m s)) by (intros m; split; [by apply Forall_take|by apply Forall_drop]).
  apply low_fixed in E1; [|apply F|done]. rewrite drop_drop in E3. apply low_fixed in E3; [|apply F|done]. split; [done|]. by rewrite E1, E3.
Qed.

Lemma join_rev_length P : length (join (rev P)) = length (join P).
Proof.
  assert (H : forall Q, length (join Q) = (sum_list (length <$> Q) + (length Q - 1))%nat).
  { induction Q as [|l Q IH]; [done|]. destruct Q as [|m Q]; [cbn; lia|]. rewrite join_cons, length_app. cbn [length fmap list_fmap sum_list sum_list_with foldr] in *. rewrite IH. cbn. lia. }
  rewrite !H, length_rev. f_equal. by rewrite (Permutation_rev P) at 2.
Qed.

Lemma cpystrn_start h x : Forall (fun c => 0 < c) h -> take (length h) (ngx_cpystrn (h ++ x) (S (length h))) = h.
Proof.
  induction 1 as [|c h Hc _ IH]; [done|]. cbn [app length]. change (ngx_cpystrn (c :: h ++ x) (S (S (length h)))) with (if c =? 0 then [0] else c :: ngx_cpystrn (h ++ x) (S (length h))).
  rewrite (proj2 (Z.eqb_neq c 0)) by lia. cbn [take]. by rewrite IH.
Qed.

Lemma host_rev P : host (rev P) = join P.
Proof. unfold host. by rewrite rev_involutive. Qed.

(** The bytes of the new wildcard. *)
Lemma head_key n : sn_ok n -> sn_kind_of n = Dot \/ sn_kind_of n = Star ->
  let last := (kind_skip (sn_kind_of n) + length (sn_host n))%nat in take (last - 1) (reversed (render (sn_kind_of n) (sn_host n)) last) = entry_text (head_entry n).
Proof.
  intros [HL Hne HS Hb Ht _] Hk. assert (HR : Forall label_ok (rev (sn_labels n))) by (by apply Forall_rev).
  assert (HRne : rev (sn_labels n) <> []) by (intros E; apply Hne; by rewrite <- (rev_involutive (sn_labels n)), E). cbn zeta. unfold head_entry, entry_text, sn_host. rewrite <- host_rev.
  assert (El : length (host (rev (sn_labels n))) = length (join (rev (sn_labels n)))) by (rewrite host_rev; by rewrite join_rev_length).
  destruct Hk as [-> | ->]; cbn [render kind_skip Nat.add Nat.sub we_path we_star]; rewrite ?Nat.sub_0_r.
  - rewrite reversed_dot, El, take_app_length by done. by rewrite app_nil_r.
  - rewrite reversed_star by done. rewrite El. change [46; 0] with ([46] ++ [0]). rewrite (assoc_L (++)). rewrite take_app_length'; [done|]. rewrite length_app. cbn. lia.
Qed.

(** ** Adding a key *)

Definition rc_of (ok : bool) : add_rc := if ok then add_ok else add_busy.

Definition added (ha : keys_arrays) (n : server_name) (a : accepted) (r : add_rc * list Z * keys_arrays) : Prop :=
  let '(rc, data, ha') := r in
  rc = rc_of (accept n a).1 /\ data = ngx_strlow (sn_text n) /\ ha_hsize ha' = ha_hsize ha /\ collected ha' (accept n a).2.

Lemma collected_pool ha a pool : collected ha a -> collected {| ha with ha_pool := pool |} a.
Proof. by intros []. Qed.

Lemma hash_low s : ngx_hash_strlow s = (ngx_hash_key (ngx_strlow s), ngx_strlow s).
Proof. unfold ngx_hash_strlow, ngx_hash_key. by rewrite ngx_hash_strlow_spec, ngx_hash_key_lc_strlow. Qed.

Lemma sn_host_pos n : sn_ok n -> Forall (fun c => 0 < c) (sn_host n).
Proof. intros [HL _ _ _ _ _]. by apply join_pos. Qed.

Lemma add_exact_ok ha a n r : collected ha a -> sn_ok n -> sn_kind_of n = Exact -> add_exact ha (sn_text n) (sn_server n) false = Some r -> added ha n a r.
Proof.
  intros Hc Hn Hk. pose proof (sn_ok_text n Hn) as Ht. rewrite Hk in Ht. cbn [render] in Ht. unfold add_exact, exact_data, added, accept. rewrite Hk, Ht.
  assert (Hconf : conflicts (ha_keys_hash ha (ngx_hash_key (sn_host n) mod ha_hsize ha)) (sn_host n) (length (sn_text n)) = bool_decide (sn_host n ∈ ac_reserved a)).
  { rewrite <- (ngx_strlow_length (sn_text n)), Ht. apply (conflict_in _ _ id); [apply Hc|done|done|by rewrite take_ge|by apply sn_host_pos]. }
  rewrite Hconf. case_bool_decide; [by intros [= <-]|]. destruct (array_push _ ha) as [ha1|] eqn:E1; [|done]. apply array_push_pool in E1 as (pool1 & ->). cbn [mbind option_bind].
  destruct (palloc _) as [ha2|] eqn:E2; [|done]. apply palloc_pool in E2 as (pool2 & _ & ->). intros [= <-]. split_and!; [done|done|done|].
  destruct Hc as [C1 C2 C3 C4 C5 C6 C7]. constructor; cbn; try done.
  - by rewrite C1, map_app.
  - by apply hashed_in_cons, (push_hashed _ _ id).
Qed.

Lemma add_dot_exact_ok ha a n busy ha' :
  collected ha a -> sn_ok n ->
  add_dot_exact ha (ngx_hash_key (sn_host n) mod ha_hsize ha) (C! "." :: sn_host n) (S (length (sn_host n))) = Some (busy, ha') ->
  busy = bool_decide (sn_host n ∈ ac_reserved a) /\ ha_hsize ha' = ha_hsize ha /\ collected ha' (if busy then a else reserve n a).
Proof.
  intros Hc Hn. unfold add_dot_exact. change (drop 1 (C! "." :: sn_host n)) with (sn_host n). cbn [Nat.sub]. rewrite Nat.sub_0_r, take_ge by done.
  assert (Hconf : conflicts (ha_keys_hash ha (ngx_hash_key (sn_host n) mod ha_hsize ha)) (sn_host n) (length (sn_host n)) = bool_decide (sn_host n ∈ ac_reserved a)).
  { apply (conflict_in _ _ id); [apply Hc|done|done|by rewrite take_ge|by apply sn_host_pos]. }
  rewrite Hconf. case_bool_decide; [by intros [= <- <-]|]. destruct (array_push _ ha) as [ha1|] eqn:E1; [|done]. apply array_push_pool in E1 as (pool1 & ->). cbn [mbind option_bind].
  destruct (palloc _) as [ha2|] eqn:E2; [|done]. apply palloc_pool in E2 as (pool2 & _ & ->). intros [= <- <-]. split_and!; [done|done|].
  destruct Hc as [C1 C2 C3 C4 C5 C6 C7]. constructor; cbn; try done. by apply hashed_in_cons, (push_hashed _ _ id).
Qed.

Lemma path_host P E : Forall label_ok P -> P <> [] -> Forall entry_ok E -> host P ∈ map entry_host E <-> P ∈ map we_path E.
Proof.
  intros HP Hne HE. rewrite Forall_forall in HE. split; intros (e & Ee & He)%list_elem_of_fmap; apply list_elem_of_fmap; exists e; (split; [|done]); [|by rewrite Ee].
  destruct (HE e He) as (Hne' & HPe & _). unfold entry_host, host in Ee. apply join_inj in Ee; [|by apply Forall_rev..| |].
  - by rewrite <- (rev_involutive P), Ee, rev_involutive.
  - intros E0. apply Hne. by rewrite <- (rev_involutive P), E0.
  - intros E0. apply Hne'. by rewrite <- (rev_involutive (we_path e)), E0.
Qed.

Lemma path_join P E : Forall label_ok P -> P <> [] -> Forall entry_ok E -> join P ∈ map entry_join E <-> P ∈ map we_path E.
Proof.
  intros HP Hne HE. rewrite Forall_forall in HE. split; intros (e & Ee & He)%list_elem_of_fmap; apply list_elem_of_fmap; exists e; (split; [|done]); [|by rewrite Ee].
  destruct (HE e He) as (Hne' & HPe & _). by apply join_inj.
Qed.

Lemma head_entry_ok n : sn_ok n -> entry_ok (head_entry n).
Proof.
  intros [HL Hne _ _ _ Hv]. split; [|split; [by apply Forall_rev|done]]. cbn. intros E. apply Hne. by rewrite <- (rev_involutive (sn_labels n)), E.
Qed.

(** The rest of [add_wildcard], for a name that begins with a wildcard. *)
Lemma add_head_ok ha a n ha' :
  collected ha a -> sn_ok n -> sn_kind_of n = Dot \/ sn_kind_of n = Star ->
  let k := ngx_hash_key (sn_host n) mod ha_hsize ha in
  ha_hsize ha' = ha_hsize ha -> ha_dns_wc_head_hash ha' = push k (sn_host n) (ha_dns_wc_head_hash ha) ->
  ha_dns_wc_head ha' = ha_dns_wc_head ha ++ [to_name (head_entry n)] ->
  ha_keys ha' = ha_keys ha -> ha_keys_hash ha' = ha_keys_hash ha -> ha_dns_wc_tail ha' = ha_dns_wc_tail ha -> ha_dns_wc_tail_hash ha' = ha_dns_wc_tail_hash ha ->
  collected ha' {| a with ac_head := ac_head a ++ [head_entry n] |}.
Proof.
  intros [C1 C2 C3 C4 C5 C6 C7] Hn Hk k E0 E1 E2 E3 E4 E5 E6. constructor; cbn; rewrite ?E0, ?E1, ?E2, ?E3, ?E4, ?E5, ?E6; try done.
  - by rewrite map_app, C3.
  - rewrite map_app. cbn [map]. change (entry_host (head_entry n)) with (host (rev (sn_labels n))). rewrite host_rev. by apply (push_hashed _ _ id).
  - rewrite <- (assoc_L (++)). apply Forall_app in C7 as [C7 C8]. apply Forall_app. split; [done|]. constructor; [by apply head_entry_ok|done].
Qed.

Definition head_kind (k : sn_kind) : Prop := k = Dot \/ k = Star.

Lemma head_conflict ha a n : collected ha a -> sn_ok n -> head_kind (sn_kind_of n) ->
  let skip := kind_skip (sn_kind_of n) in
  conflicts (ha_dns_wc_head_hash ha (ngx_hash_key (sn_host n) mod ha_hsize ha)) (drop skip (render (sn_kind_of n) (sn_host n))) (skip + length (sn_host n) - skip) =
  bool_decide (rev (sn_labels n) ∈ map we_path (ac_head a)) /\
  take (skip + length (sn_host n) - skip) (drop skip (render (sn_kind_of n) (sn_host n))) = sn_host n.
Proof.
  intros Hc Hn Hk. cbn zeta. assert (Ed : drop (kind_skip (sn_kind_of n)) (render (sn_kind_of n) (sn_host n)) = sn_host n) by (by destruct Hk as [-> | ->]).
  rewrite Ed. replace (kind_skip (sn_kind_of n) + length (sn_host n) - kind_skip (sn_kind_of n))%nat with (length (sn_host n)) by lia. split; [|by rewrite take_ge].
  rewrite (conflict_in _ _ id _ _ _ _ (co_head_hash ha a Hc)); [|done|done|by rewrite take_ge|by apply sn_host_pos]. apply bool_decide_ext.
  unfold sn_host. rewrite <- host_rev. destruct (head_entry_ok n Hn) as (Hne & HL & _). apply path_host; [done|done|]. pose proof (co_entries ha a Hc) as C. by apply Forall_app in C as [? _].
Qed.

Lemma tail_conflict ha a n : collected ha a -> sn_ok n ->
  conflicts (ha_dns_wc_tail_hash ha (ngx_hash_key (sn_host n) mod ha_hsize ha)) (sn_host n ++ [C! "."; C! "*"]) (S (length (sn_host n))) =
  bool_decide (sn_labels n ∈ map we_path (ac_tail a)) /\
  take (S (length (sn_host n))) (sn_host n ++ [C! "."; C! "*"]) = sn_host n ++ [C! "."].
Proof.
  intros Hc Hn. assert (Et : take (S (length (sn_host n))) (sn_host n ++ [C! "."; C! "*"]) = sn_host n ++ [C! "."]).
  { change [C! "."; C! "*"] with ([C! "."] ++ [C! "*"]). rewrite (assoc_L (++)). apply take_app_length'. rewrite length_app. cbn. lia. }
  split; [|done]. rewrite (conflict_in _ _ (fun y => y ++ [C! "."]) _ _ _ _ (co_tail_hash ha a Hc)); [| | |done|].
  - apply bool_decide_ext. apply path_join; [apply Hn|apply Hn|]. pose proof (co_entries ha a Hc) as C. by apply Forall_app in C as [_ ?].
  - intros z E. by apply app_inj_tail in E as [? _].
  - rewrite length_app. cbn. lia.
  - apply Forall_app. split; [by apply sn_host_pos|by repeat constructor].
Qed.

(** The steps of [add_wildcard] after the check of the exact names. *)
Lemma wildcard_head_steps ha1 a1 n r : collected ha1 a1 -> sn_ok n -> head_kind (sn_kind_of n) ->
  let skip := kind_skip (sn_kind_of n) in let last := (skip + length (sn_host n))%nat in let data := render (sn_kind_of n) (sn_host n) in
  let k := ngx_hash_key (sn_host n) mod ha_hsize ha1 in
  (ha ← palloc ha1;
   if conflicts (ha_dns_wc_head_hash ha k) (drop skip data) (last - skip) then Some (add_busy, data, ha)
   else
     ha0 ← array_push (match ha_dns_wc_head_hash ha k with [] => true | _ => false end) ha;
     ha0 ← palloc ha0;
     let ha0 := {| ha0 with ha_dns_wc_head_hash := push k (take (last - skip) (drop skip data)) (ha_dns_wc_head_hash ha0) |} in
     ha0 ← palloc ha0;
     Some (add_ok, data, {| ha0 with ha_dns_wc_head := ha_dns_wc_head ha0 ++ [{| wn_key := take (last - 1) (reversed data last); wn_value := sn_server n |}] |})) = Some r ->
  exists ha', r = (rc_of (with_head n a1).1, data, ha') /\ ha_hsize ha' = ha_hsize ha1 /\ collected ha' (with_head n a1).2.
Proof.
  intros Hc Hn Hk. cbn zeta. destruct (palloc ha1) as [ha2|] eqn:E1; [|done]. apply palloc_pool in E1 as (pool2 & _ & ->). cbn [mbind option_bind ha_dns_wc_head_hash].
  destruct (head_conflict ha1 a1 n Hc Hn Hk) as [Hconf Etake]. rewrite Hconf, Etake, (head_key n Hn Hk). unfold with_head. case_bool_decide.
  { intros [= <-]. eexists. split_and!; [done|done|]. by apply collected_pool. }
  destruct (array_push _ _) as [ha3|] eqn:E2; [|done]. apply array_push_pool in E2 as (pool3 & ->). cbn [mbind option_bind].
  destruct (palloc _) as [ha4|] eqn:E3; [|done]. apply palloc_pool in E3 as (pool4 & _ & ->). cbn [mbind option_bind].
  destruct (palloc _) as [ha5|] eqn:E4; [|done]. apply palloc_pool in E4 as (pool5 & _ & ->). cbn [mbind option_bind]. intros [= <-].
  eexists. split_and!; [done|done|]. by apply (add_head_ok ha1 a1 n).
Qed.

Lemma render_low n : sn_ok n -> ngx_strlow (sn_text n) = render (sn_kind_of n) (sn_host n).
Proof. apply sn_ok_text. Qed.

Lemma add_wildcard_ok ha a n r : collected ha a -> sn_ok n -> sn_kind_of n <> Exact ->
  add_wildcard ha (sn_text n) (sn_server n) (kind_skip (sn_kind_of n)) (kind_skip (sn_kind_of n) + length (sn_host n)) = Some r -> added ha n a r.
Proof.
  intros Hc Hn Hk. destruct (wildcard_parts n Hn) as [Elow Edata]. unfold add_wildcard. rewrite hash_low, Elow, Edata. unfold added. rewrite (render_low n Hn). unfold accept.
  destruct (sn_kind_of n) eqn:Ek; [done|..]; cbn [kind_skip Nat.add Nat.eqb negb].
  - destruct (add_dot_exact _ _ _ _) as [[busy ha1]|] eqn:E1; [|done]. apply (add_dot_exact_ok ha a n busy ha1 Hc Hn) in E1 as (Eb & Eh & Hc1). cbn [mbind option_bind]. rewrite <- Eb.
    destruct busy; [by intros [= <-]|]. pose proof (wildcard_head_steps ha1 (reserve n a) n r Hc1 Hn) as H. rewrite Ek in H. cbn [kind_skip Nat.add] in H. rewrite Eh in H. intros Hr.
    destruct (H (or_introl eq_refl) Hr) as (ha' & -> & E1 & E2). done.
  - pose proof (wildcard_head_steps ha a n r Hc Hn) as H. rewrite Ek in H. cbn [kind_skip Nat.add] in H. cbn [mbind option_bind]. intros Hr.
    destruct (H (or_intror eq_refl) Hr) as (ha' & -> & E1 & E2). done.
  - cbn [mbind option_bind]. destruct (palloc ha) as [ha2|] eqn:E1; [|done]. apply palloc_pool in E1 as (pool2 & _ & ->). cbn [mbind option_bind ha_dns_wc_tail_hash render drop]. rewrite drop_0, !Nat.sub_0_r.
    destruct (tail_conflict ha a n Hc Hn) as [Hconf Etake]. rewrite Hconf, Etake. cbn [Nat.sub]. rewrite Nat.sub_0_r, cpystrn_start by by apply sn_host_pos.
    case_bool_decide; [intros [= <-]; split_and!; [done|done|done|by apply collected_pool]|].
    destruct (array_push _ _) as [ha3|] eqn:E2; [|done]. apply array_push_pool in E2 as (pool3 & ->). cbn [mbind option_bind].
    destruct (palloc _) as [ha4|] eqn:E3; [|done]. apply palloc_pool in E3 as (pool4 & _ & ->). cbn [mbind option_bind].
    destruct (palloc _) as [ha5|] eqn:E4; [|done]. apply palloc_pool in E4 as (pool5 & _ & ->). cbn [mbind option_bind]. intros [= <-]. split_and!; [done|done|done|].
    destruct Hc as [C1 C2 C3 C4 C5 C6 C7]. constructor; cbn; try done.
    + rewrite map_app, C5. cbn. unfold to_name, entry_text, tail_entry. cbn. by rewrite app_nil_r.
    + rewrite map_app. by apply (push_hashed _ _ (fun y => y ++ [C! "."])).
    + rewrite (assoc_L (++)). apply Forall_app. split; [done|]. apply Forall_singleton. destruct Hn as [HL Hne _ _ _ Hv]. split; [done|]. split; [done|done].
Qed.

Lemma add_key_ok ha a n r : collected ha a -> sn_ok n -> ngx_hash_add_key ha (sn_text n) (sn_server n) true false = Some r -> added ha n a r.
Proof.
  intros Hc Hn. unfold ngx_hash_add_key. rewrite (kind_ok n Hn). destruct (sn_kind_of n) eqn:Ek; cbn [expected_kind]; [by apply add_exact_ok|..].
  all: pose proof (add_wildcard_ok ha a n r Hc Hn) as H; rewrite Ek in H; by apply H.
Qed.

(** ** Enough memory *)

Definition rich (k : nat) (ha : keys_arrays) : Prop := replicate k true `prefix_of` ha_pool ha.

Lemma palloc_rich k ha : rich (S k) ha -> exists ha', palloc ha = Some ha' /\ rich k ha'.
Proof. intros [pool Hp]. unfold palloc. cbn in Hp. rewrite Hp. eexists. split; [done|]. by exists pool. Qed.

Lemma array_push_rich k b ha : rich (S (S k)) ha -> exists ha', array_push b ha = Some ha' /\ rich k ha'.
Proof.
  intros H. unfold array_push. destruct b; cbn [mbind option_bind].
  - destruct (palloc_rich _ _ H) as (ha1 & -> & H1). cbn [mbind option_bind]. by apply palloc_rich.
  - destruct (palloc_rich _ _ H) as (ha1 & -> & [pool Hp]). exists ha1. split; [done|]. exists (true :: pool). by rewrite Hp, replicate_S_end, <- (assoc_L (++)).
Qed.

Ltac rich_step :=
  match goal with
  | H : rich ?k ?ha |- context [palloc ?x] => destruct (palloc_rich (pred k) x H) as (? & -> & ?); cbn [mbind option_bind]
  | H : rich ?k ?ha |- context [array_push ?b ?x] => destruct (array_push_rich (pred (pred k)) b x H) as (? & -> & ?); cbn [mbind option_bind]
  end.

(** With memory every key gets an answer. *)
Lemma add_key_some ha key value w ro : rich 8 ha -> is_Some (ngx_hash_add_key ha key value w ro).
Proof.
  intros H. unfold ngx_hash_add_key. destruct (key_kind_of w key) as [skip last| |]; [| |by eexists].
  - unfold add_wildcard. destruct (ngx_hash_strlow _) as [h low]. set (data := take skip key ++ low ++ drop last key). set (k := h mod ha_hsize ha).
    assert (Hd : exists busy ha', (if (skip =? 1)%nat then add_dot_exact ha k data last else Some (false, ha)) = Some (busy, ha') /\ (busy = false -> rich 5 ha')).
    { destruct (skip =? 1)%nat; [|exists false, ha; split; [done|]; intros _; destruct H as [pool Hp]; exists (replicate 3 true ++ pool); by rewrite Hp].
      unfold add_dot_exact. destruct (conflicts _ _ _); [by exists true, ha|]. repeat rich_step. by eexists false, _. }
    destruct Hd as (busy & ha' & -> & Hr). cbn [mbind option_bind]. destruct busy; [by eexists|]. specialize (Hr eq_refl). clear H. rich_step.
    destruct (conflicts _ _ _); [by eexists|]. repeat rich_step. destruct (negb (skip =? 0)%nat); repeat rich_step; by eexists.
  - unfold add_exact. destruct (conflicts _ _ _); [by eexists|]. repeat rich_step. by eexists.
Qed.

(** A name with a dot that is refused because of a wildcard was already put to the exact names: a later exact name is refused, though no name that is taken has its host. *)
Lemma refused_reserves :
  (ha ← ngx_hash_keys_array_init (replicate 40 true) false;
   '(rc1, _, ha) ← ngx_hash_add_key ha (B! "*.example.com") 8 true false;
   '(rc2, _, ha) ← ngx_hash_add_key ha (B! ".example.com") 16 true false;
   '(rc3, _, ha) ← ngx_hash_add_key ha (B! "example.com") 24 true false;
   Some (rc1, rc2, rc3, ha_keys ha, map wn_key (ha_dns_wc_head ha))) = Some (add_ok, add_busy, add_busy, [], [B! "com.example."]).
Proof. vm_compute. reflexivity. Qed.
