(* ===== verification/HttpServerNames.v ===== *)
(** * Virtual servers

    How a request gets its server.  [ngx_http_server_names] of
    src/nginx-1.4.7/src/http/ngx_http.c makes the tables of all names of the
    servers of an address; [ngx_http_validate_host] and
    [ngx_http_find_virtual_server] of src/nginx-1.4.7/src/http/ngx_http_request.c
    take the host of a request and look it up: first the exact names, then the
    names that begin with a wildcard, then those that end with one, then regular
    expressions.

    [ngx_qsort] of the C library and the regular expressions of PCRE are
    parameters. *)
From stdpp Require Import gmap sorting.
From S2P Require Import Prelude HttpChars NgxHashKey NgxStrings NgxHash NgxHashLayout NgxHashWildcard NgxHashNames NgxHashKeys.

(** ** Definitions *)

(** [cn_regex] is the regular expression of a name that is one.
    [http/ngx_http_core_module.h:214-220] ngx_http_server_name_t *)
Record conf_name : Type := { cn_name : list Z; cn_regex : option Z; cn_server : Z }.

(** [None] is NGX_ERROR; a name that is already there is only warned of.
    [http/ngx_http.c:1495-1528] for (s = 0; s < addr->servers.nelts; s++) *)
Fixpoint add_names (names : list conf_name) (ha : keys_arrays) : option keys_arrays :=
  match names with
  | [] => Some ha
  | n :: names =>
      match cn_regex n with
      | Some _ => add_names names ha
      | None =>
          match ngx_hash_add_key ha (cn_name n) (cn_server n) true false with
          | None => None
          | Some (add_declined, _, _) => None
          | Some (_, _, ha) => add_names names ha
          end
      end
  end.

(** [http/ngx_http.c:1654-1663] ngx_http_cmp_dns_wildcards *)
Definition ngx_http_cmp_dns_wildcards (one two : wc_name) : Z := ngx_dns_strcmp (wn_key one) (wn_key two).

(** What the address keeps for its names.
    [http/ngx_http_core_module.h:276-291] ngx_http_conf_addr_t *)
Record conf_addr : Type := { addr_hash : combined; addr_regex : list (Z * Z) }.

(** Each level takes one label, so the length of a name is enough fuel. *)
Definition wc_fuel (names : list wc_name) : nat := S (foldr (fun n m => Nat.max (length (wn_key n)) m) O names).

Section ServerNames.
Context (p : hash_params) (junk : Z -> Z).
Context (qsort : (wc_name -> wc_name -> Z) -> list wc_name -> list wc_name).

(** [base] is the address of the elements, 0 when there is no memory for the table.
    [http/ngx_http.c:1536-1543] if (ha.keys.nelts) *)
Definition init_exact (base : Z) (keys : list hash_key) (st : wc_store) : res (option hash_table) :=
  match keys with
  | [] => Ok None st
  | _ =>
      match ngx_hash_init p junk (memory_at base) keys with
      | None => Fault
      | Some None => Error
      | Some (Some h) => Ok (Some h) st
      end
  end.

(** [http/ngx_http.c:1545-1561] if (ha.dns_wc_head.nelts) *)
Definition init_wildcards (names : list wc_name) (st : wc_store) : res (option Z) :=
  match names with
  | [] => Ok None st
  | _ =>
      let names := qsort ngx_http_cmp_dns_wildcards names in
      bind (ngx_hash_wildcard_init p junk (wc_fuel names) names st) (fun a st => Ok (Some a) st)
  end.

(** [pool] are the answers of the temporary pool.
    [http/ngx_http.c:1464-1617] ngx_http_server_names *)
Definition ngx_http_server_names (pool : list bool) (base : Z) (servers : list (list conf_name)) (st : wc_store) : res conf_addr :=
  match ngx_hash_keys_array_init pool false with
  | None => Error
  | Some ha =>
      match add_names (concat servers) ha with
      | None => Error
      | Some ha =>
          bind (init_exact base (ha_keys ha) st) (fun hash st =>
          bind (init_wildcards (ha_dns_wc_head ha) st) (fun wc_head st =>
          bind (init_wildcards (ha_dns_wc_tail ha) st) (fun wc_tail st =>
          let regex := flat_map (fun n => match cn_regex n with Some x => [(x, cn_server n)] | None => [] end) (concat servers) in
          Ok {| addr_hash := {| cb_hash := hash; cb_wc_head := wc_head; cb_wc_tail := wc_tail |}; addr_regex := regex |} st)))
      end
  end.
End ServerNames.

(** [http/ngx_http_request.c:1840-1844] sw_usual *)
Inductive host_state : Type := sw_usual | sw_literal | sw_rest.

(** The position of the last dot, the length of the host and whether there are
    letters in upper case; [None] is NGX_DECLINED.
    [http/ngx_http_request.c:1853-1900] for (i = 0; i < host->len; i++) *)
Fixpoint validate_loop (h : list Z) (i dot_pos host_len : Z) (state : host_state) (alloc : bool) : option (Z * Z * bool) :=
  match h with
  | [] => Some (dot_pos, host_len, alloc)
  | ch :: h =>
      if ch =? C! "." then
        if dot_pos =? u64 (i - 1) then None else validate_loop h (i + 1) i host_len state alloc
      else if ch =? C! ":" then
        match state with
        | sw_usual => validate_loop h (i + 1) dot_pos i sw_rest alloc
        | _ => validate_loop h (i + 1) dot_pos host_len state alloc
        end
      else if ch =? C! "[" then
        validate_loop h (i + 1) dot_pos host_len (if i =? 0 then sw_literal else state) alloc
      else if ch =? C! "]" then
        match state with
        | sw_literal => validate_loop h (i + 1) dot_pos (i + 1) sw_rest alloc
        | _ => validate_loop h (i + 1) dot_pos host_len state alloc
        end
      else if ch =? 0 then None
      else if ch =? C! "/" then None
      else validate_loop h (i + 1) dot_pos host_len state (alloc || ((C! "A" <=? ch) && (ch <=? C! "Z")))
  end.

Inductive host_rc : Type := host_declined | host_error | host_ok (host : list Z).

(** [memory] tells whether the pool has memory for a copy.
    [http/ngx_http_request.c:1834-1922] ngx_http_validate_host *)
Definition ngx_http_validate_host (host : list Z) (memory alloc : bool) : host_rc :=
  let len := Z.of_nat (length host) in
  match validate_loop host 0 len len sw_usual alloc with
  | None => host_declined
  | Some (dot_pos, host_len, alloc) =>
      let host_len := if dot_pos =? u64 (host_len - 1) then host_len - 1 else host_len in
      if host_len =? 0 then host_declined
      else if alloc then
        if memory then host_ok (ngx_strlow (take (Z.to_nat host_len) host)) else host_error
      else host_ok (take (Z.to_nat host_len) host)
  end.

Inductive regex_rc : Type := regex_declined | regex_ok | regex_error.
Inductive server_rc : Type := server_declined | server_error | server_ok (server : Z).

Section FindServer.
Context (exec : Z -> list Z -> regex_rc).

(** [http/ngx_http_request.c:2067-2081] for (i = 0; i < virtual_names->nregex; i++) *)
Fixpoint find_regex (regex : list (Z * Z)) (host : list Z) : server_rc :=
  match regex with
  | [] => server_declined
  | (x, server) :: regex =>
      match exec x host with
      | regex_declined => find_regex regex host
      | regex_ok => server_ok server
      | regex_error => server_error
      end
  end.

(** [None] is an access outside of memory.
    [http/ngx_http_request.c:2004-2087] ngx_http_find_virtual_server *)
Definition ngx_http_find_virtual_server (T : gmap Z wildcard) (names : option conf_addr) (host : list Z) : option server_rc :=
  match names with
  | None => Some server_declined
  | Some names =>
      cscf ← ngx_hash_find_combined T (addr_hash names) (ngx_hash_key host) host;
      if negb (cscf =? 0) then Some (server_ok cscf)
      else if negb (length host =? 0)%nat then Some (find_regex (addr_regex names) host)
      else Some server_declined
  end.
End FindServer.

(** ** The order of names *)

Definition dns_char (c : Z) : Prop := letter c \/ c = C! ".".
Definition rank (c : Z) : Z := if c =? C! "." then C! " " else c.

Lemma dns_strcmp_lex x y : Forall dns_char x -> Forall dns_char y -> (ngx_dns_strcmp x y ?= 0) = lex (map rank x) (map rank y).
Proof.
  assert (Hc : forall c, dns_char c -> fold_case c = c /\ 32 < c /\ 32 <= rank c /\ (if c =? 46 then 32 else c) = rank c).
  { intros c [(H & Hd & _ & Hf)|H]; [|by subst c]. unfold rank. rewrite (proj2 (Z.eqb_neq c 46)) by done. split_and!; [done|lia|lia|done]. }
  intros Hx. revert y; induction Hx as [|c x Hcx Hx IH]; intros y Hy.
  - destruct Hy as [|d y Hd Hy]; [done|]. destruct (Hc d Hd) as (E1 & E2 & E3 & E4). cbn [ngx_dns_strcmp byte hd]. rewrite E1. change (fold_case 0) with 0.
    rewrite (proj2 (Z.eqb_neq 0 d)), E4 by lia. cbn [map lex]. apply Z.compare_lt_iff. change (0 =? 46) with false. lia.
  - destruct (Hc c Hcx) as (C1 & C2 & C3 & C4). destruct Hy as [|d y Hd Hy].
    + cbn [ngx_dns_strcmp byte hd]. rewrite C1. change (fold_case 0) with 0. rewrite (proj2 (Z.eqb_neq c 0)), C4 by lia. cbn [map lex]. apply Z.compare_gt_iff. change (0 =? 46) with false. lia.
    + destruct (Hc d Hd) as (D1 & D2 & D3 & D4). cbn [ngx_dns_strcmp byte hd tl map lex]. rewrite C1, D1. destruct (Z.eqb_spec c d) as [E|E].
      * rewrite (proj2 (Z.eqb_neq c 0)) by lia. cbn [negb]. rewrite E, Z.compare_refl. by apply IH.
      * rewrite C4, D4. assert (Hr : rank c <> rank d). { unfold rank in *. destruct (Z.eqb_spec c 46), (Z.eqb_spec d 46); [congruence|lia|lia|done]. }
        rewrite <- Z.compare_sub. by destruct (Z.compare_spec (rank c) (rank d)).
Qed.

Lemma text_chars e : entry_ok e -> Forall dns_char (entry_text e).
Proof.
  intros (_ & HP & _). unfold entry_text. apply Forall_app. split; [|destruct (we_star e); [apply Forall_singleton; by right|constructor]].
  induction HP as [|l P [_ Hl] HP IH]; [constructor|]. assert (Hl' : Forall dns_char l) by (eapply Forall_impl; [exact Hl|]; by left).
  destruct P as [|m P]; [done|]. rewrite join_cons. apply Forall_app. split; [done|]. constructor; [by right|done].
Qed.

(** What is known of [qsort]: for a comparison that is consistent and transitive on
    the elements it puts them in order. *)
Record qsort_ok (qsort : (wc_name -> wc_name -> Z) -> list wc_name -> list wc_name) : Prop := {
  qs_perm : forall cmp l, qsort cmp l ≡ₚ l;
  qs_sorted : forall cmp l,
    (forall x y, x ∈ l -> y ∈ l -> (cmp y x ?= 0) = CompOpp (cmp x y ?= 0)) ->
    (forall x y z, x ∈ l -> y ∈ l -> z ∈ l -> cmp x y <= 0 -> cmp y z <= 0 -> cmp x z <= 0) ->
    StronglySorted (fun x y => cmp x y <= 0) (qsort cmp l)
}.

Lemma cmp_le x y : (ngx_dns_strcmp x y ?= 0) <> Gt <-> ngx_dns_strcmp x y <= 0.
Proof. by rewrite Z.compare_le_iff. Qed.

Lemma sorted_entries qsort E : qsort_ok qsort -> Forall entry_ok E -> exists E', E' ≡ₚ E /\ qsort ngx_http_cmp_dns_wildcards (map to_name E) = map to_name E' /\ in_order E'.
Proof.
  intros [Hp Hs] HE. destruct (Permutation_map_inv to_name E (Hp ngx_http_cmp_dns_wildcards (map to_name E))) as (E' & Eq & Hperm). symmetry in Hperm.
  exists E'. split; [done|]. split; [done|]. assert (HE' : Forall entry_ok E') by (by rewrite Hperm).
  assert (Hsort : StronglySorted (fun x y => ngx_http_cmp_dns_wildcards x y <= 0) (map to_name E')).
  { rewrite <- Eq. assert (Hc : forall x, x ∈ map to_name E -> Forall dns_char (wn_key x)).
    { intros x (e & -> & He)%list_elem_of_fmap. apply text_chars. rewrite Forall_forall in HE. by apply HE. }
    apply Hs; unfold ngx_http_cmp_dns_wildcards.
    - intros x y Hx Hy. rewrite !dns_strcmp_lex by auto. apply lex_antisym.
    - intros x y z Hx Hy Hz. rewrite <- !cmp_le, !dns_strcmp_lex by auto. apply lex_trans. }
  clear -Hsort. unfold in_order. induction E' as [|e E' IH]; [constructor|]. cbn in Hsort. apply StronglySorted_inv in Hsort as [H1 H2]. constructor; [by apply IH|].
  rewrite Forall_map in H2. exact H2.
Qed.

(** ** Names that are taken *)

Definition accept_all (l : list server_name) (a : accepted) : accepted := foldl (fun a n => (accept n a).2) a l.

Record accepted_ok (a : accepted) : Prop := {
  ao_entries : Forall entry_ok (ac_head a ++ ac_tail a);
  ao_head : NoDup (map we_path (ac_head a));
  ao_tail : NoDup (map we_path (ac_tail a));
  ao_plain : Forall (fun e => we_star e = false) (ac_tail a);
  ao_exact : Forall (fun x => ngx_strlow x.1 = x.1 /\ 0 < x.2 < 2 ^ 64) (ac_exact a)
}.

Lemma join_low P : Forall label_ok P -> ngx_strlow (join P) = join P.
Proof.
  induction 1 as [|l P Hl HP IH]; [done|]. destruct P as [|m P]; [by apply label_low|]. rewrite join_cons, strlow_app, (label_low l Hl). cbn [ngx_strlow]. rewrite IH. done.
Qed.

Lemma accepted_add_head n a : sn_ok n -> accepted_ok a -> accepted_ok (with_head n a).2.
Proof.
  intros Hn [A1 A2 A3 A4 A5]. unfold with_head. case_bool_decide as Hin; [done|]. constructor; cbn; try done.
  - apply Forall_app in A1 as [A1 A1']. rewrite !Forall_app, Forall_singleton. split_and!; [done|by apply head_entry_ok|done].
  - rewrite map_app. apply NoDup_app. split_and!; [done| |apply NoDup_singleton]. intros x Hx Hx'. apply list_elem_of_singleton in Hx'. subst x. done.
Qed.

Lemma accept_ok n a : sn_ok n -> accepted_ok a -> accepted_ok (accept n a).2.
Proof.
  intros Hn Ha. pose proof Hn as [HL Hne _ _ _ Hv]. unfold accept. destruct (sn_kind_of n) eqn:Ek.
  - case_bool_decide; [done|]. destruct Ha as [A1 A2 A3 A4 A5]. constructor; cbn; try done. apply Forall_app. split; [done|]. apply Forall_singleton. split; [by apply join_low|apply Hv].
  - case_bool_decide; [done|]. apply accepted_add_head; [done|]. by destruct Ha.
  - by apply accepted_add_head.
  - case_bool_decide as Hin; [done|]. destruct Ha as [A1 A2 A3 A4 A5]. constructor; cbn; try done.
    + rewrite (assoc_L (++)). apply Forall_app. split; [done|]. apply Forall_singleton. split; [done|]. split; [done|done].
    + rewrite map_app. apply NoDup_app. split_and!; [done| |apply NoDup_singleton]. intros x Hx Hx'. apply list_elem_of_singleton in Hx'. subst x. done.
    + apply Forall_app. split; [done|]. by apply Forall_singleton.
Qed.

(** A name of the configuration: one of a known form, or a regular expression. *)
Inductive conf_entry : Type := Name (n : server_name) | Regex (name : list Z) (x server : Z).

Definition to_conf (c : conf_entry) : conf_name :=
  match c with
  | Name n => {| cn_name := sn_text n; cn_regex := None; cn_server := sn_server n |}
  | Regex name x server => {| cn_name := name; cn_regex := Some x; cn_server := server |}
  end.
Definition names_of (l : list conf_entry) : list server_name := flat_map (fun c => match c with Name n => [n] | _ => [] end) l.
Definition regexes_of (l : list conf_entry) : list (Z * Z) := flat_map (fun c => match c with Regex _ x server => [(x, server)] | _ => [] end) l.

Lemma add_names_ok l ha ha' a : collected ha a -> accepted_ok a -> Forall sn_ok (names_of l) -> add_names (map to_conf l) ha = Some ha' ->
  collected ha' (accept_all (names_of l) a) /\ accepted_ok (accept_all (names_of l) a).
Proof.
  revert ha a; induction l as [|[n|name x server] l IH]; intros ha a Hc Ha Hl; cbn [map add_names to_conf cn_regex cn_name cn_server]; [by intros [= <-]| |by apply IH].
  unfold names_of in *. cbn [flat_map] in *. fold (names_of l) in *. apply Forall_cons in Hl as [Hn Hl].
  destruct (ngx_hash_add_key ha (sn_text n) (sn_server n) true false) as [[[rc data] ha1]|] eqn:E; [|done]. apply (add_key_ok ha a n _ Hc Hn) in E as (Erc & _ & _ & Hc1).
  cbn. intros H. apply (IH ha1 (accept n a).2); [done|by apply accept_ok|done|]. by destruct (accept n a).1; cbn in Erc; subst rc.
Qed.

Lemma init_collected pool ha : ngx_hash_keys_array_init pool false = Some ha -> collected ha none_accepted.
Proof.
  unfold ngx_hash_keys_array_init, palloc. cbn. intros H. assert (Hn : forall k x, x ∈ (fun _ : Z => @nil (list Z)) k <-> False) by (intros; split; [apply not_elem_of_nil|done]).
  repeat (case_match; cbn in *; try done; simplify_eq). constructor; cbn; try done; try (intros k x; split; [intros Hx; by apply elem_of_nil in Hx|intros (y & Hy & _); by apply elem_of_nil in Hy]).
Qed.

(** ** Tables *)

Lemma longest_perm tail E E' L v : E ≡ₚ E' -> longest tail E L v -> longest tail E' L v.
Proof.
  intros Hp [[-> Hno]|(e & He & Hm & Hv & Hmax)]; [left; split; [done|]; intros e He; apply Hno; by rewrite Hp|right].
  exists e. split_and!; [by rewrite <- Hp|done|done|]. intros e' He'. apply Hmax. by rewrite Hp.
Qed.

(** The table at [o] holds the entries [E]. *)
Definition holds (T : gmap Z wildcard) (o : option Z) (E : list wc_entry) : Prop :=
  match o with None => E = [] | Some a => exists n E', E' ≡ₚ E /\ wc_is n T a E' 0 end.

Lemma holds_mono T T' o E : T ⊆ T' -> holds T o E -> holds T' o E.
Proof. destruct o as [a|]; [|done]. intros HT (n & E' & Hp & Hw). exists n, E'. split; [done|]. by eapply wc_is_mono. Qed.

Lemma fuel_enough E : Forall entry_ok E -> Forall (fun e => (length (we_path e) <= wc_fuel (map to_name E))%nat) E.
Proof.
  intros HE. apply Forall_forall. intros e He. rewrite Forall_forall in HE. destruct (HE e He) as (_ & HP & _). pose proof (join_length _ HP) as Hj. unfold wc_fuel.
  assert (Hm : (length (entry_text e) <= foldr (fun n m => Nat.max (length (wn_key n)) m) O (map to_name E))%nat).
  { clear -He. induction E as [|x E IH]; [by apply elem_of_nil in He|]. cbn. apply elem_of_cons in He as [->|He]; [lia|specialize (IH He); lia]. }
  unfold entry_text in Hm. rewrite length_app in Hm. lia.
Qed.

Lemma init_wildcards_ok p junk qsort E st : params_ok p -> qsort_ok qsort -> Forall entry_ok E -> NoDup (map we_path E) -> store_ok st ->
  match init_wildcards p junk qsort (map to_name E) st with
  | Fault => False
  | Error => True
  | Ok o st' => store_ok st' /\ wc_tables st ⊆ wc_tables st' /\ holds (wc_tables st') o E
  end.
Proof.
  intros Hp Hq HE Hnd Hst. destruct E as [|e E]; [done|]. set (F := e :: E) in *. change (init_wildcards p junk qsort (map to_name F) st) with
    (bind (ngx_hash_wildcard_init p junk (wc_fuel (qsort ngx_http_cmp_dns_wildcards (map to_name F))) (qsort ngx_http_cmp_dns_wildcards (map to_name F)) st) (fun a st => Ok (Some a) st)).
  destruct (sorted_entries qsort F Hq HE) as (E' & Hperm & -> & Hord).
  assert (HE' : entries_ok (wc_fuel (map to_name E')) E') by (constructor; [by rewrite Hperm|by rewrite Hperm|done|apply fuel_enough; by rewrite Hperm]).
  pose proof (wildcard_init_ok p junk _ Hp E' st HE' ltac:(unfold wc_fuel; lia) Hst) as H. destruct (ngx_hash_wildcard_init _ _ _ _ _) as [| |a st']; cbn [bind]; [done|done|].
  destruct H as [Hst' [HT Hwc]%made_tables]. split_and!; [done|done|]. by eexists _, E'.
Qed.

Definition holds_exact (o : option hash_table) (l : list (list Z * Z)) : Prop :=
  match o with None => l = [] | Some h => forall name, ngx_hash_find h (ngx_hash_key name) name = Some (assoc name l) end.

Lemma entries_exact l : Forall (fun x => ngx_strlow x.1 = x.1 /\ 0 < x.2 < 2 ^ 64) l -> entries (map exact_key l) = l.
Proof. induction 1 as [|[h v] l [Hx _] _ IH]; [done|]. unfold entries. cbn [map flat_map]. fold (entries (map exact_key l)). cbn in *. by rewrite IH, Hx. Qed.

Lemma init_exact_ok p junk base l st : params_ok p -> 0 <= base -> Forall (fun x => ngx_strlow x.1 = x.1 /\ 0 < x.2 < 2 ^ 64) l ->
  match init_exact p junk base (map exact_key l) st with
  | Fault => False
  | Error => True
  | Ok o st' => st' = st /\ holds_exact o l
  end.
Proof.
  intros Hp Hb Hl. destruct l as [|x l]; [done|]. set (m := x :: l) in *. assert (Hv : Forall (fun n => 0 < hk_value n < 2 ^ 64) (map exact_key m)).
  { apply Forall_map. eapply Forall_impl; [exact Hl|]. by intros y [_ ?]. }
  assert (Hh : hashed_by ngx_hash_key (map exact_key m)). { apply Forall_map. eapply Forall_impl; [exact Hl|]. intros y [Hy _]. cbn. by rewrite Hy. }
  destruct (hash_init_ok p junk (memory_at base) (map exact_key m) ngx_hash_key Hp Hb Hv Hh) as (r & Er & Hr).
  change (init_exact p junk base (map exact_key m) st) with (match ngx_hash_init p junk (memory_at base) (map exact_key m) with None => Fault | Some None => Error | Some (Some h) => Ok (Some h) st end).
  rewrite Er. destruct r as [h|]; [|done]. split; [done|]. intros name. by rewrite Hr, entries_exact.
Qed.

(** The server for a host with the labels [L]: that of the exact name; without one,
    of the longest name that begins with a wildcard and matches; without one, of the
    longest name that ends with a wildcard and matches; 0 when there is none. *)
Definition chosen (a : accepted) (L : labels) (v : Z) : Prop :=
  let x := assoc (join L) (ac_exact a) in
  if x =? 0 then exists h, longest false (ac_head a) (rev L) h /\ (if h =? 0 then longest true (ac_tail a) L v else v = h)
  else v = x.

Lemma longest_nil tail L : longest tail [] L 0.
Proof. left. split; [done|]. intros e He. by apply elem_of_nil in He. Qed.

Lemma find_combined_ok T a o oh ot L :
  accepted_ok a -> holds_exact o (ac_exact a) -> holds T oh (ac_head a) -> holds T ot (ac_tail a) -> L <> [] -> Forall label_ok L ->
  exists v, ngx_hash_find_combined T {| cb_hash := o; cb_wc_head := oh; cb_wc_tail := ot |} (ngx_hash_key (join L)) (join L) = Some v /\ chosen a L v.
Proof.
  intros [A1 A2 A3 A4 A5] Ho Hoh Hot Hne HL. apply Forall_app in A1 as [A1 A1']. unfold ngx_hash_find_combined, chosen. cbn [cb_hash cb_wc_head cb_wc_tail].
  assert (Hx : (match o with Some h => ngx_hash_find h (ngx_hash_key (join L)) (join L) | None => Some 0 end) = Some (assoc (join L) (ac_exact a))).
  { destruct o as [h|]; [apply Ho|]. by rewrite Ho. }
  rewrite Hx. cbn [mbind option_bind]. destruct (assoc _ _ =? 0); cbn [negb]; [|by eexists].
  destruct (join_first L HL Hne) as (c & x & Ej & _). rewrite (proj2 (Nat.eqb_neq (length (join L)) 0)) by (rewrite Ej; cbn; lia).
  assert (Hh : exists h, (match oh with Some b => ngx_hash_find_wc_head (S (length (join L))) T b (join L) | None => Some 0 end) = Some h /\ longest false (ac_head a) (rev L) h).
  { destruct oh as [b|]; [|exists 0; split; [done|]; rewrite Hoh; apply longest_nil]. destruct Hoh as (n & E' & Hp & Hw). exists (best false E' (rev L)). split.
    - rewrite <- (host_rev L). apply (find_head_best n); [by rewrite Hp|done| |by apply Forall_rev]. intros E. apply Hne. by rewrite <- (rev_involutive L), E.
    - eapply longest_perm; [exact Hp|]. apply best_longest; by rewrite Hp. }
  destruct Hh as (h & -> & Hlong). cbn [mbind option_bind]. destruct (h =? 0) eqn:Eh; cbn [negb]; [|exists h; split; [done|]; exists h; split; [done|]; by rewrite Eh].
  assert (Ht : exists v, (match ot with Some b => ngx_hash_find_wc_tail (S (length (join L))) T b (join L) | None => Some 0 end) = Some v /\ longest true (ac_tail a) L v).
  { destruct ot as [b|]; [|exists 0; split; [done|]; rewrite Hot; apply longest_nil]. destruct Hot as (n & E' & Hp & Hw). exists (best true E' L). split.
    - apply (find_tail_best n); [by rewrite Hp|by rewrite Hp|done|done|done].
    - eapply longest_perm; [exact Hp|]. apply best_longest; by rewrite Hp. }
  destruct Ht as (v & -> & Hv). exists v. split; [done|]. exists h. split; [done|]. by rewrite Eh.
Qed.

Lemma none_ok : accepted_ok none_accepted.
Proof. constructor; constructor. Qed.

Lemma regex_conf l : flat_map (fun n => match cn_regex n with Some x => [(x, cn_server n)] | None => [] end) (map to_conf l) = regexes_of l.
Proof. induction l as [|[n|name x s] l IH]; [done|exact IH|]. cbn. by rewrite IH. Qed.

Lemma server_names_ok p junk qsort pool base servers st :
  params_ok p -> qsort_ok qsort -> 0 <= base -> store_ok st -> Forall sn_ok (names_of (concat servers)) ->
  match ngx_http_server_names p junk qsort pool base (map (map to_conf) servers) st with
  | Fault => False
  | Error => True
  | Ok addr st' =>
      addr_regex addr = regexes_of (concat servers) /\
      forall L, L <> [] -> Forall label_ok L ->
        exists v, ngx_hash_find_combined (wc_tables st') (addr_hash addr) (ngx_hash_key (join L)) (join L) = Some v /\
                  chosen (accept_all (names_of (concat servers)) none_accepted) L v
  end.
Proof.
  intros Hp Hq Hb Hst Hn. unfold ngx_http_server_names. destruct (ngx_hash_keys_array_init pool false) as [ha|] eqn:Ei; [|done]. apply init_collected in Ei.
  rewrite <- concat_map. destruct (add_names _ ha) as [ha'|] eqn:Ea; [|done]. destruct (add_names_ok _ _ _ _ Ei none_ok Hn Ea) as [Hc Hok].
  set (a := accept_all _ _) in *. destruct Hc as [C1 _ C3 _ C5 _ _]. rewrite C1, C3, C5. pose proof Hok as [A1 A2 A3 A4 A5]. apply Forall_app in A1 as [A1 A1'].
  pose proof (init_exact_ok p junk base _ st Hp Hb A5) as He. destruct (init_exact _ _ _ _ _) as [| |o st1]; cbn [bind]; [done|done|]. destruct He as [-> Ho].
  pose proof (init_wildcards_ok p junk qsort _ st Hp Hq A1 A2 Hst) as Hh. destruct (init_wildcards _ _ _ (map to_name (ac_head a)) st) as [| |oh st2]; cbn [bind]; [done|done|]. destruct Hh as (Hst2 & HT2 & Hoh).
  pose proof (init_wildcards_ok p junk qsort _ st2 Hp Hq A1' A3 Hst2) as Ht. destruct (init_wildcards _ _ _ _ st2) as [| |ot st3]; cbn [bind]; [done|done|]. destruct Ht as (Hst3 & HT3 & Hot).
  cbn [addr_regex addr_hash]. split; [apply regex_conf|]. intros L Hne HL. apply find_combined_ok; [done|done|by eapply holds_mono|done|done|done].
Qed.

(** ** The host of a request *)

Definition upper (c : Z) : bool := (C! "A" <=? c) && (c <=? C! "Z").

(** Bytes without a meaning in a host, whatever the case. *)
Definition plain_char (c : Z) : Prop := is_byte c /\ c <> C! "." /\ c <> C! ":" /\ c <> C! "[" /\ c <> C! "]" /\ c <> 0 /\ c <> C! "/".

(** The labels [L] in any case. *)
Fixpoint host_text (s : list Z) (L : labels) : Prop :=
  match L with
  | [] => False
  | [l] => ngx_strlow s = l /\ Forall plain_char s
  | l :: L => exists t s', s = t ++ C! "." :: s' /\ ngx_strlow t = l /\ Forall plain_char t /\ host_text s' L
  end.

Lemma validate_plain t rest i dp hl alloc : Forall plain_char t ->
  validate_loop (t ++ rest) i dp hl sw_usual alloc = validate_loop rest (i + Z.of_nat (length t)) dp hl sw_usual (alloc || existsb upper t).
Proof.
  intros Ht. revert i alloc; induction Ht as [|c t (Hb & H1 & H2 & H3 & H4 & H5 & H6) _ IH]; intros i alloc; [cbn; by rewrite Z.add_0_r, orb_false_r|].
  cbn [app validate_loop existsb length]. rewrite !(proj2 (Z.eqb_neq c _)) by done. rewrite IH. fold (upper c). rewrite <- orb_assoc. f_equal. lia.
Qed.

Lemma text_strlow s L : host_text s L -> ngx_strlow s = join L.
Proof.
  revert s; induction L as [|l L IH]; intros s H; [done|]. destruct L as [|m L]; [by destruct H|]. destruct H as (t & s' & -> & Ht & _ & Hs). rewrite strlow_app, Ht, join_cons. f_equal.
  cbn [ngx_strlow]. by rewrite (IH s' Hs).
Qed.

(** The loop over the labels: no two dots follow one another, and the last byte is
    not a dot. *)
Lemma validate_labels s L rest i dp n hl alloc : host_text s L -> Forall label_ok L -> 0 <= i -> i + Z.of_nat (length s) <= n < 2 ^ 64 -> dp = n \/ dp < i ->
  exists dp', validate_loop (s ++ rest) i dp hl sw_usual alloc = validate_loop rest (i + Z.of_nat (length s)) dp' hl sw_usual (alloc || existsb upper s) /\
    (dp' = n \/ dp' < i + Z.of_nat (length s) - 1).
Proof.
  revert s i dp alloc; induction L as [|l L IH]; intros s i dp alloc H HL Hi Hn Hdp; [done|]. apply Forall_cons in HL as [[Hl _] HL].
  assert (Hlen : forall t, ngx_strlow t = l -> (0 < length t)%nat) by (intros [|c t] Et; [by subst l|cbn; lia]). destruct L as [|m L].
  - destruct H as [Hs Hp]. specialize (Hlen s Hs). exists dp. split; [by apply validate_plain|lia].
  - destruct H as (t & s' & -> & Ht & Hp & Hs). specialize (Hlen t Ht). rewrite <- (assoc_L (++)), validate_plain by done. cbn [app validate_loop]. rewrite length_app in *. cbn [length] in *.
    change (46 =? 46) with true. cbn iota. rewrite u64_small by lia. rewrite (proj2 (Z.eqb_neq dp _)) by lia.
    destruct (IH s' (i + Z.of_nat (length t) + 1) (i + Z.of_nat (length t)) (alloc || existsb upper t) Hs HL ltac:(lia) ltac:(lia) ltac:(lia)) as (dp' & -> & Hdp').
    exists dp'. split; [|lia]. f_equal; [lia|]. rewrite existsb_app. cbn [existsb]. change (upper 46) with false. by rewrite orb_false_l, orb_assoc.
Qed.

(** A port, or nothing. *)
Definition port_text (s : list Z) : Prop := s = [] \/ exists u, s = C! ":" :: u /\ Forall (fun c => c <> C! "." /\ c <> 0 /\ c <> C! "/") u.

Lemma validate_rest u i dp hl alloc : 0 < i -> Forall (fun c => c <> C! "." /\ c <> 0 /\ c <> C! "/") u ->
  exists alloc', validate_loop u i dp hl sw_rest alloc = Some (dp, hl, alloc') /\ (alloc = true -> alloc' = true).
Proof.
  intros Hi Hu. revert i alloc Hi; induction Hu as [|c u (H1 & H2 & H3) _ IH]; intros i alloc Hi; [by exists alloc|]. cbn [validate_loop].
  rewrite (proj2 (Z.eqb_neq c 46)), (proj2 (Z.eqb_neq c 0)), (proj2 (Z.eqb_neq c 47)), (proj2 (Z.eqb_neq i 0)) by (done || lia).
  repeat (case_match; try (apply IH; lia)). all: destruct (IH (i + 1) (alloc || ((65 <=? c) && (c <=? 90))) ltac:(lia)) as (al & E & Hal); exists al; (split; [done|]); intros ->; by apply Hal.
Qed.

Lemma validate_port s i dp hl alloc : 0 < i -> port_text s -> hl = i + Z.of_nat (length s) -> 
  exists alloc', validate_loop s i dp hl sw_usual alloc = Some (dp, i, alloc') /\ (alloc = true -> alloc' = true).
Proof.
  intros Hi [->|(u & -> & Hu)] Hhl.
  - exists alloc. cbn in Hhl |- *. rewrite Z.add_0_r in Hhl. by rewrite Hhl.
  - cbn [validate_loop]. change (58 =? 46) with false. change (58 =? 58) with true. cbn iota. destruct (validate_rest u (i + 1) dp i alloc ltac:(lia) Hu) as (al & E & Hal). by exists al.
Qed.

Lemma not_upper_low s : Forall is_byte s -> existsb upper s = false -> ngx_strlow s = s.
Proof.
  induction 1 as [|c s Hc _ IH]; [done|]. cbn. intros [H1 H2]%orb_false_iff. rewrite (IH H2). f_equal. unfold upper in H1. unfold ngx_tolower. rewrite H1. unfold u8, is_byte in *. by apply Z.mod_small.
Qed.

Lemma text_bytes s L : host_text s L -> Forall is_byte s.
Proof.
  assert (Hp : forall t, Forall plain_char t -> Forall is_byte t) by (intros t H; eapply Forall_impl; [exact H|]; by intros c [? _]).
  revert s; induction L as [|l L IH]; intros s H; [done|]. destruct L as [|m L]; [destruct H; by apply Hp|]. destruct H as (t & s' & -> & _ & Ht & Hs). apply Forall_app. split; [by apply Hp|].
  constructor; [unfold is_byte; lia|by apply (IH s')].
Qed.

(** The host with its labels in any case, with or without a dot at the end and a port. *)
Lemma validate_host_ok s L dot port alloc : host_text s L -> Forall label_ok L -> (dot = [] \/ dot = [C! "."]) -> port_text port ->
  Z.of_nat (length (s ++ dot ++ port)) < 2 ^ 64 -> ngx_http_validate_host (s ++ dot ++ port) true alloc = host_ok (join L).
Proof.
  intros Hs HL Hdot Hport Hlen. unfold ngx_http_validate_host. set (n := Z.of_nat (length (s ++ dot ++ port))) in *.
  assert (En : n = Z.of_nat (length s) + Z.of_nat (length dot) + Z.of_nat (length port)) by (unfold n; rewrite !length_app; lia).
  assert (Hpos : 0 < Z.of_nat (length s)).
  { rewrite <- (ngx_strlow_length s), (text_strlow s L Hs). destruct (join_first L HL) as (c & x & -> & _); [by destruct L|cbn; lia]. }
  destruct (validate_labels s L (dot ++ port) 0 n n n alloc Hs HL ltac:(lia) ltac:(lia) ltac:(lia)) as (dp & -> & Hdp).
  assert (Hend : exists dp' hl al, validate_loop (dot ++ port) (0 + Z.of_nat (length s)) dp n sw_usual (alloc || existsb upper s) = Some (dp', hl, al) /\
    (if dp' =? u64 (hl - 1) then hl - 1 else hl) = Z.of_nat (length s) /\ (existsb upper s = true -> al = true)).
  { destruct Hdot as [-> | ->]; cbn [app length] in *.
    - destruct (validate_port port (0 + Z.of_nat (length s)) dp n (alloc || existsb upper s) ltac:(lia) Hport ltac:(lia)) as (al & E & Hal). exists dp, (0 + Z.of_nat (length s)), al. split; [done|].
      rewrite u64_small by lia. rewrite (proj2 (Z.eqb_neq dp _)) by lia. split; [lia|]. intros Hu. apply Hal. by rewrite Hu, orb_true_r.
    - cbn [validate_loop]. change (46 =? 46) with true. cbn iota. rewrite u64_small by lia. rewrite (proj2 (Z.eqb_neq dp _)) by lia.
      destruct (validate_port port (0 + Z.of_nat (length s) + 1) (0 + Z.of_nat (length s)) n (alloc || existsb upper s) ltac:(lia) Hport ltac:(lia)) as (al & E & Hal).
      eexists _, _, al. split; [exact E|]. rewrite u64_small by lia. rewrite (proj2 (Z.eqb_eq _ _)) by lia. split; [lia|]. intros Hu. apply Hal. by rewrite Hu, orb_true_r. }
  destruct Hend as (dp' & hl & al & -> & -> & Hal). rewrite (proj2 (Z.eqb_neq (Z.of_nat (length s)) 0)), Nat2Z.id, take_app_length by lia.
  rewrite <- (text_strlow s L Hs). destruct al; [done|]. f_equal. symmetry. apply not_upper_low; [by eapply text_bytes|]. destruct (existsb upper s); [by specialize (Hal eq_refl)|done].
Qed.

(** C14: for any names of servers that are hosts or hosts with a wildcard, making the tables never faults, and when it does not fail, a request with a host in any case, with a dot at its end or a port, gets the server of the exact name; without one, of the longest matching name that begins with a wildcard; without one, of the longest matching name that ends with one; and only then the regular expressions are tried, in their order.  Of names that conflict the first one counts. *)
Theorem virtual_server_chosen p junk qsort exec pool base servers st :
  params_ok p -> qsort_ok qsort -> 0 <= base -> store_ok st -> Forall sn_ok (names_of (concat servers)) ->
  match ngx_http_server_names p junk qsort pool base (map (map to_conf) servers) st with
  | Fault => False
  | Error => True
  | Ok addr st' =>
      forall L s dot port alloc, Forall label_ok L -> host_text s L -> (dot = [] \/ dot = [C! "."]) -> port_text port -> Z.of_nat (length (s ++ dot ++ port)) < 2 ^ 64 ->
        exists v, chosen (accept_all (names_of (concat servers)) none_accepted) L v /\
          ngx_http_validate_host (s ++ dot ++ port) true alloc = host_ok (join L) /\
          ngx_http_find_virtual_server exec (wc_tables st') (Some addr) (join L) =
            Some (if v =? 0 then find_regex exec (regexes_of (concat servers)) (join L) else server_ok v)
  end.
Proof.
  intros Hp Hq Hb Hst Hn. pose proof (server_names_ok p junk qsort pool base servers st Hp Hq Hb Hst Hn) as H. destruct (ngx_http_server_names _ _ _ _ _ _ _) as [| |addr st']; [done|done|].
  destruct H as [Hre H]. intros L s dot port alloc HL Hs Hdot Hport Hlen. assert (Hne : L <> []) by (by destruct L). destruct (H L Hne HL) as (v & Hv & Hch). exists v. split; [done|].
  split; [by apply validate_host_ok|]. unfold ngx_http_find_virtual_server. rewrite Hv, Hre. cbn [mbind option_bind]. destruct (v =? 0); [|done]. cbn [negb].
  destruct (join_first L HL Hne) as (c & x & Ej & _). by rewrite (proj2 (Nat.eqb_neq (length (join L)) 0)) by (rewrite Ej; cbn; lia).
Qed.

(** ** A sort, and a sample *)

Fixpoint insert_in {A} (cmp : A -> A -> Z) (x : A) (l : list A) : list A :=
  match l with [] => [x] | y :: l' => if cmp x y <=? 0 then x :: l else y :: insert_in cmp x l' end.
Definition insertion_sort {A} (cmp : A -> A -> Z) (l : list A) : list A := foldr (insert_in cmp) [] l.

Lemma insert_in_perm {A} (cmp : A -> A -> Z) x l : insert_in cmp x l ≡ₚ x :: l.
Proof. induction l as [|y l IH]; [done|]. cbn. destruct (cmp x y <=? 0); [done|]. rewrite IH. apply Permutation_swap. Qed.

Lemma insertion_sort_perm {A} (cmp : A -> A -> Z) l : insertion_sort cmp l ≡ₚ l.
Proof. induction l as [|x l IH]; [done|]. cbn. rewrite insert_in_perm. by apply perm_skip. Qed.

Lemma insert_in_sorted {A} (cmp : A -> A -> Z) x l :
  (forall y, y ∈ l -> (cmp y x ?= 0) = CompOpp (cmp x y ?= 0)) ->
  (forall y z, y ∈ l -> z ∈ l -> cmp x y <= 0 -> cmp y z <= 0 -> cmp x z <= 0) ->
  StronglySorted (fun x y => cmp x y <= 0) l -> StronglySorted (fun x y => cmp x y <= 0) (insert_in cmp x l).
Proof.
  induction l as [|y l IH]; intros Ho Ht Hs; [by repeat constructor|]. cbn. apply StronglySorted_inv in Hs as [Hs Hy]. destruct (Z.leb_spec (cmp x y) 0) as [Hle|Hgt].
  - constructor; [by constructor|]. constructor; [done|]. rewrite Forall_forall in Hy |- *. intros z Hz. apply (Ht y z); [left|by right|done|by apply Hy].
  - constructor; [apply IH; [intros z Hz; apply Ho; by right|intros z w Hz Hw; apply Ht; by right|done]|]. rewrite insert_in_perm. constructor; [|done].
    specialize (Ho y ltac:(left)). rewrite (proj2 (Z.compare_gt_iff (cmp x y) 0) Hgt) in Ho. cbn in Ho. pose proof (proj1 (Z.compare_lt_iff _ _) Ho). lia.
Qed.

Lemma insertion_sort_ok : qsort_ok insertion_sort.
Proof.
  constructor; [intros; apply insertion_sort_perm|]. intros cmp l. induction l as [|x l IH]; intros Ho Ht; [constructor|]. change (insertion_sort cmp (x :: l)) with (insert_in cmp x (insertion_sort cmp l)). apply insert_in_sorted.
  - intros y Hy. rewrite insertion_sort_perm in Hy. apply Ho; [left|by right].
  - intros y z Hy Hz. rewrite insertion_sort_perm in Hy, Hz. apply Ht; [left|by right..].
  - apply IH; [intros y z Hy Hz; apply Ho; by right|intros y z w Hy Hz Hw; apply Ht; by right].
Qed.

Definition sample_servers : list (list conf_entry) :=
  [[Name {| sn_kind_of := Exact; sn_labels := [B! "a"; B! "com"]; sn_text := B! "A.com"; sn_server := 8 |};
    Name {| sn_kind_of := Star; sn_labels := [B! "a"; B! "com"]; sn_text := B! "*.a.com"; sn_server := 16 |}];
   [Name {| sn_kind_of := Tail; sn_labels := [B! "www"]; sn_text := B! "www.*"; sn_server := 24 |}; Regex [] 5 32]].

Lemma sample_servers_ok : Forall sn_ok (names_of (concat sample_servers)).
Proof.
  cbn. do 3 (apply Forall_cons; split; [constructor; cbn; [by apply (bool_decide_unpack _)|done|by apply (bool_decide_unpack _)|unfold is_byte; by apply (bool_decide_unpack _)|done|by split]|]).
  apply Forall_nil_2.
Qed.

Lemma sample_text : host_text (B! "X.a.com") [B! "x"; B! "a"; B! "com"].
Proof.
  exists (B! "X"), (B! "a.com"). split_and!; [done|done|unfold plain_char, is_byte; by apply (bool_decide_unpack _)|]. exists (B! "a"), (B! "com").
  split_and!; [done|done|unfold plain_char, is_byte; by apply (bool_decide_unpack _)|]. split; [done|]. unfold plain_char, is_byte. by apply (bool_decide_unpack _).
Qed.

Lemma virtual_server_chosen_witness :
  match ngx_http_server_names sample_params (fun _ => 7) insertion_sort (replicate 40 true) 8192 (map (map to_conf) sample_servers) sample_store with
  | Ok addr st' =>
      ngx_http_find_virtual_server (fun _ _ => regex_declined) (wc_tables st') (Some addr) (B! "x.a.com") = Some (server_ok 16) /\
      exists v, chosen (accept_all (names_of (concat sample_servers)) none_accepted) [B! "x"; B! "a"; B! "com"] v
  | _ => False
  end.
Proof.
  pose proof (virtual_server_chosen sample_params (fun _ => 7) insertion_sort (fun _ _ => regex_declined) (replicate 40 true) 8192 sample_servers sample_store
    sample_params_ok insertion_sort_ok ltac:(lia) sample_store_ok sample_servers_ok) as H.
  assert (Hx : match ngx_http_server_names sample_params (fun _ => 7) insertion_sort (replicate 40 true) 8192 (map (map to_conf) sample_servers) sample_store with
    | Ok addr st' => ngx_http_find_virtual_server (fun _ _ => regex_declined) (wc_tables st') (Some addr) (B! "x.a.com") = Some (server_ok 16) | _ => False end) by (vm_compute; reflexivity).
  destruct (ngx_http_server_names _ _ _ _ _ _ _) as [| |addr st']; [done|done|]. split; [done|].
  destruct (H [B! "x"; B! "a"; B! "com"] (B! "X.a.com") [] [] false ltac:(by apply (bool_decide_unpack _)) sample_text ltac:(by left) ltac:(by left) ltac:(done)) as (v & Hv & _). by exists v.
Defined.
