(* ===== verification/NgxPalloc.v ===== *)
(** * Memory pools

    src/nginx-1.4.7/src/core/ngx_palloc.c: memory is handed out from the end of
    blocks that the pool gets from the system, and only returned all at once;
    pieces that are too large for a block are got from the system one by one, and
    kept in a list whose nodes are in the pool.

    A block is its address and the fields of its header; the blocks are in the order
    of the [next] pointers, and [current] is an index.  The system is a parameter.
    [None] as the result of an operation is a recursion without an end. *)
From stdpp Require Import gmap.
From S2P Require Import Prelude NgxHash NgxHashLayout.

(** ** The system *)

(** [ngx_memalign] and [ngx_alloc], which may have no memory, and [ngx_free];
    [sys_live] are the sizes of the pieces in use. *)
Class System (Y : Type) : Type := {
  sys_alloc : Z -> Z -> Y -> option Z * Y;
  sys_free : Z -> Y -> Y;
  sys_live : Y -> gmap Z Z
}.

(** Pieces of [n] and [m] bytes without a byte in common. *)
Definition apart (a n b m : Z) : Prop := n = 0 \/ m = 0 \/ a + n <= b \/ b + m <= a.

(** A new piece is aligned, in the lower half of the address space and apart from the others. *)
Class SystemLaws (Y : Type) `{!System Y} : Prop := {
  sys_alloc_some al size y p y' : 0 < al -> 0 <= size < 2 ^ 64 -> sys_alloc al size y = (Some p, y') ->
    0 < p /\ (al | p) /\ p + size < 2 ^ 63 /\ sys_live y !! p = None /\ sys_live y' = <[p := size]> (sys_live y) /\
    forall q n, sys_live y !! q = Some n -> apart p size q n;
  sys_alloc_none al size y y' : sys_alloc al size y = (None, y') -> sys_live y' = sys_live y;
  sys_free_live p y : sys_live (sys_free p y) = delete p (sys_live y)
}.

(** ** Definitions *)

(** [core/ngx_palloc.h:49-54] ngx_pool_data_t *)
Record pool_block : Type := { b_base : Z; b_last : Z; b_end : Z; b_failed : Z }.

(** A file to be closed, or another handler.
    [core/ngx_palloc.h:68-72] ngx_pool_cleanup_file_t *)
Inductive cleanup_handler : Type := cleanup_file (fd : Z) | cleanup_other (h : Z).

(** [core/ngx_palloc.h:34-38] ngx_pool_cleanup_s *)
Record cleanup_node : Type := { c_node : Z; c_handler : option cleanup_handler; c_data : Z }.

(** [l_alloc] is 0 for NULL.
    [core/ngx_palloc.h:43-46] ngx_pool_large_s *)
Record pool_large : Type := { l_node : Z; l_alloc : Z }.

(** [core/ngx_palloc.h:57-65] ngx_pool_s *)
Record pool : Type := { p_blocks : list pool_block; p_max : Z; p_current : nat; p_large : list pool_large; p_cleanup : list cleanup_node }.

Abbreviation sizeof_pool := 80 (only parsing).
Abbreviation sizeof_pool_data := 32 (only parsing).
Abbreviation sizeof_pool_large := 16 (only parsing).
Abbreviation sizeof_pool_cleanup := 24 (only parsing).

(** [core/ngx_palloc.h:24-24] NGX_POOL_ALIGNMENT *)
Definition NGX_POOL_ALIGNMENT : Z := 16.

(** [core/ngx_config.h:94-94] NGX_ALIGNMENT *)
Definition NGX_ALIGNMENT : Z := 8.

(** [core/ngx_palloc.c:126-137] do *)
Fixpoint palloc_loop (aligned : bool) (size : Z) (blocks : list pool_block) : option (Z * list pool_block) :=
  match blocks with
  | [] => None
  | p :: blocks =>
      let m := if aligned then ngx_align (b_last p) NGX_ALIGNMENT else b_last p in
      if size <=? u64 (b_end p - m) then Some (m, {| p with b_last := u64 (m + size) |} :: blocks)
      else '(m, blocks) ← palloc_loop aligned size blocks; Some (m, p :: blocks)
  end.

(** The blocks from [i] on, after a failure in all of them, and the block to begin
    with next time.
    [core/ngx_palloc.c:202-206] for (p = current; p->d.next; p = p->d.next) *)
Fixpoint count_failed (i : nat) (blocks : list pool_block) (current : nat) : list pool_block * nat :=
  match blocks with
  | p :: ((_ :: _) as blocks) =>
      let '(blocks, current) := count_failed (S i) blocks (if 4 <? b_failed p then S i else current) in
      ({| p with b_failed := u64 (b_failed p + 1) |} :: blocks, current)
  | _ => (blocks, current)
  end.

(** [malloc] aligns for any type. *)
Definition NGX_MALLOC_ALIGNMENT : Z := 16.

Section Pool.
Context {Y : Type} `{!System Y}.

Definition first_block (po : pool) : pool_block := nth 0 (p_blocks po) {| b_base := 0; b_last := 0; b_end := 0; b_failed := 0 |}.

(** [core/ngx_palloc.c:176-213] ngx_palloc_block *)
Definition ngx_palloc_block (po : pool) (size : Z) (y : Y) : option Z * pool * Y :=
  let psize := u64 (b_end (first_block po) - b_base (first_block po)) in
  let '(m, y) := sys_alloc NGX_POOL_ALIGNMENT psize y in
  match m with
  | None => (None, po, y)
  | Some base =>
      let m := ngx_align (base + sizeof_pool_data) NGX_ALIGNMENT in
      let new := {| b_base := base; b_last := u64 (m + size); b_end := base + psize; b_failed := 0 |} in
      let n := p_current po in
      let '(rest, current) := count_failed n (drop n (p_blocks po)) n in
      (Some m, {| po with p_blocks := take n (p_blocks po) ++ rest ++ [new]; p_current := current |}, y)
  end.

(** The branch for sizes that fit into a block.
    [core/ngx_palloc.c:122-140] if (size <= pool->max) *)
Definition palloc_small (aligned : bool) (po : pool) (size : Z) (y : Y) : option Z * pool * Y :=
  let n := p_current po in
  match palloc_loop aligned size (drop n (p_blocks po)) with
  | Some (m, blocks) => (Some m, {| po with p_blocks := take n (p_blocks po) ++ blocks |}, y)
  | None => ngx_palloc_block po size y
  end.

(** Whether one of the first nodes has no memory, which it gets then; [n] counts
    down from 5.
    [core/ngx_palloc.c:230-239] for (large = pool->large; large; large = large->next) *)
Fixpoint reuse_large (n : nat) (p : Z) (large : list pool_large) : option (list pool_large) :=
  match n, large with
  | S n, l :: large =>
      if l_alloc l =? 0 then Some ({| l with l_alloc := p |} :: large)
      else large ← reuse_large n p large; Some (l :: large)
  | _, _ => None
  end.

(** A new node for [p], which is returned to the system when there is no memory for
    the node.
    [core/ngx_palloc.c:241-251] large = ngx_palloc(pool, sizeof(ngx_pool_large_t)) *)
Definition add_large (po : pool) (p : Z) (y : Y) : option (option Z * pool * Y) :=
  if sizeof_pool_large <=? p_max po then
    let '(large, po, y) := palloc_small true po sizeof_pool_large y in
    match large with
    | None => Some (None, po, sys_free p y)
    | Some l => Some (Some p, {| po with p_large := {| l_node := l; l_alloc := p |} :: p_large po |}, y)
    end
  else None.

(** [core/ngx_palloc.c:216-252] ngx_palloc_large *)
Definition ngx_palloc_large (po : pool) (size : Z) (y : Y) : option (option Z * pool * Y) :=
  let '(p, y) := sys_alloc NGX_MALLOC_ALIGNMENT size y in
  match p with
  | None => Some (None, po, y)
  | Some p =>
      match reuse_large 5 p (p_large po) with
      | Some large => Some (Some p, {| po with p_large := large |}, y)
      | None => add_large po p y
      end
  end.

Definition palloc_any (aligned : bool) (po : pool) (size : Z) (y : Y) : option (option Z * pool * Y) :=
  if size <=? p_max po then Some (palloc_small aligned po size y) else ngx_palloc_large po size y.

(** [core/ngx_palloc.c:116-143] ngx_palloc *)
Definition ngx_palloc := palloc_any true.

(** [core/ngx_palloc.c:146-173] ngx_pnalloc *)
Definition ngx_pnalloc := palloc_any false.

(** [ngx_pagesize] is given.
    [core/ngx_palloc.c:16-41] ngx_create_pool *)
Definition ngx_create_pool (ngx_pagesize size : Z) (y : Y) : option pool * Y :=
  let '(p, y) := sys_alloc NGX_POOL_ALIGNMENT size y in
  match p with
  | None => (None, y)
  | Some p =>
      let n := u64 (size - sizeof_pool) in
      (Some {| p_blocks := [{| b_base := p; b_last := p + sizeof_pool; b_end := p + size; b_failed := 0 |}];
               p_max := if n <? ngx_pagesize - 1 then n else ngx_pagesize - 1; p_current := 0; p_large := []; p_cleanup := [] |}, y)
  end.

(** [core/ngx_palloc.c:255-277] ngx_pmemalign *)
Definition ngx_pmemalign (po : pool) (size alignment : Z) (y : Y) : option (option Z * pool * Y) :=
  let '(p, y) := sys_alloc alignment size y in
  match p with
  | None => Some (None, po, y)
  | Some p => add_large po p y
  end.

(** The list when [p] is found in it.
    [core/ngx_palloc.c:285-294] for (l = pool->large; l; l = l->next) *)
Fixpoint free_large (p : Z) (large : list pool_large) : option (list pool_large) :=
  match large with
  | [] => None
  | l :: large => if l_alloc l =? p then Some ({| l with l_alloc := 0 |} :: large) else large ← free_large p large; Some (l :: large)
  end.

(** [true] is NGX_OK and [false] NGX_DECLINED.
    [core/ngx_palloc.c:280-297] ngx_pfree *)
Definition ngx_pfree (po : pool) (p : Z) (y : Y) : bool * pool * Y :=
  match free_large p (p_large po) with
  | Some large => (true, {| po with p_large := large |}, if p =? 0 then y else sys_free p y)
  | None => (false, po, y)
  end.

(** [core/ngx_palloc.c:314-342] ngx_pool_cleanup_add *)
Definition ngx_pool_cleanup_add (po : pool) (size : Z) (y : Y) : option (option cleanup_node * pool * Y) :=
  '(c, po, y) ← ngx_palloc po sizeof_pool_cleanup y;
  match c with
  | None => Some (None, po, y)
  | Some c =>
      '(data, po, y) ← (if size =? 0 then Some (Some 0, po, y) else ngx_palloc po size y);
      match data with
      | None => Some (None, po, y)
      | Some data =>
          let c := {| c_node := c; c_handler := None; c_data := data |} in
          Some (Some c, {| po with p_cleanup := c :: p_cleanup po |}, y)
      end
  end.

(** [core/ngx_palloc.c:59-66] for (l = pool->large; l; l = l->next) *)
Definition free_all_large (large : list pool_large) (y : Y) : Y := foldl (fun y l => if l_alloc l =? 0 then y else sys_free (l_alloc l) y) y large.

(** The handlers that are run, in their order, and the system.
    [core/ngx_palloc.c:44-93] ngx_destroy_pool *)
Definition ngx_destroy_pool (po : pool) (y : Y) : list (cleanup_handler * Z) * Y :=
  (flat_map (fun c => match c_handler c with Some h => [(h, c_data c)] | None => [] end) (p_cleanup po),
   foldl (fun y b => sys_free (b_base b) y) (free_all_large (p_large po) y) (p_blocks po)).

(** [core/ngx_palloc.c:96-113] ngx_reset_pool *)
Definition ngx_reset_pool (po : pool) (y : Y) : pool * Y :=
  ({| po with p_large := []; p_blocks := map (fun b => {| b with b_last := b_base b + sizeof_pool |}) (p_blocks po) |}, free_all_large (p_large po) y).

(** The handlers after that of the file was run, and whether it was.
    [core/ngx_palloc.c:345-363] ngx_pool_run_cleanup_file *)
Fixpoint run_cleanup_file (fd : Z) (cs : list cleanup_node) : bool * list cleanup_node :=
  match cs with
  | [] => (false, [])
  | c :: cs =>
      match c_handler c with
      | Some (cleanup_file fd') =>
          if fd' =? fd then (true, {| c with c_handler := None |} :: cs)
          else let '(run, cs) := run_cleanup_file fd cs in (run, c :: cs)
      | _ => let '(run, cs) := run_cleanup_file fd cs in (run, c :: cs)
      end
  end.
End Pool.

(** ** The invariant of a pool *)

(** The place of a block, without the count of failures. *)
Record place : Type := { pl_base : Z; pl_last : Z; pl_end : Z }.
Definition geo (b : pool_block) : place := {| pl_base := b_base b; pl_last := b_last b; pl_end := b_end b |}.

Abbreviation piece := (Z * Z)%type (only parsing).
Definition papart (x z : piece) : Prop := apart x.1 x.2 z.1 z.2.

(** A block of [psize] bytes whose first [header] bytes are not handed out. *)
Record place_ok (psize : Z) (g : place) : Prop := {
  pk_base : 0 < pl_base g;
  pk_align : (16 | pl_base g);
  pk_size : pl_end g = pl_base g + psize;
  pk_last : pl_base g + sizeof_pool_data <= pl_last g <= pl_end g;
  pk_end : pl_end g < 2 ^ 63
}.

Definition place_piece (g : place) : piece := (pl_base g, pl_end g - pl_base g).

(** A piece that was handed out of a block. *)
Definition placed (G : list place) (x : piece) : Prop := exists g, g ∈ G /\ pl_base g + sizeof_pool_data <= x.1 /\ 0 <= x.2 /\ x.1 + x.2 <= pl_end g /\ (x.2 = 0 \/ x.1 + x.2 <= pl_last g).

(** What the pool has got from the system: its blocks and the large pieces [L]. *)
Definition owned (G : list place) (L : list piece) : list piece := map place_piece G ++ L.

Definition allocs (large : list pool_large) : list Z := filter (fun p => p <> 0) (map l_alloc large).

(** The pieces [O] are of the pool, and the other pieces [F] of the system are not. *)
Record own_ok {Y} `{!System Y} (F : gmap Z Z) (y : Y) (O : list piece) : Prop := {
  ow_live : sys_live y = list_to_map O ∪ F;
  ow_nodup : NoDup (map fst O);
  ow_frame : Forall (fun x => F !! x.1 = None /\ forall q n, F !! q = Some n -> apart x.1 x.2 q n) O;
  ow_apart : ForallOrdPairs papart O
}.

(** [R] are the pieces that were handed out of blocks. *)
Record pool_ok {Y} `{!System Y} (F : gmap Z Z) (psize : Z) (y : Y) (po : pool) (L R : list piece) : Prop := {
  pv_own : own_ok F y (owned (map geo (p_blocks po)) L);
  pv_large : map fst L ≡ₚ allocs (p_large po);
  pv_large_size : Forall (fun x => 0 < x.1 /\ 0 <= x.2 /\ x.1 + x.2 < 2 ^ 63) L;
  pv_places : Forall (place_ok psize) (map geo (p_blocks po));
  pv_header : exists g G, map geo (p_blocks po) = g :: G /\ pl_base g + sizeof_pool <= pl_last g /\ Forall (fun x => apart x.1 x.2 (pl_base g) sizeof_pool) R;
  pv_current : (p_current po < length (p_blocks po))%nat;
  pv_size : 96 <= psize < 2 ^ 64 /\ (16 | psize);
  pv_max : 24 <= p_max po <= psize - sizeof_pool;
  pv_inside : Forall (placed (map geo (p_blocks po))) R;
  pv_pieces : ForallOrdPairs papart R
}.

Lemma apart_sym a n b m : apart a n b m -> apart b m a n.
Proof. unfold apart. tauto. Qed.

Lemma pairs_forall {A} (P : A -> A -> Prop) l x z : (forall x z, P x z -> P z x) -> ForallOrdPairs P l -> x ∈ l -> z ∈ l -> x <> z -> P x z.
Proof.
  intros Hsym. induction 1 as [|w l Hw Hl IH]; intros Hx Hz Hne; [by apply elem_of_nil in Hx|]. rewrite Forall_forall in Hw.
  apply elem_of_cons in Hx as [->|Hx], Hz as [->|Hz]; [done|by apply Hw|by apply Hsym, Hw|by apply IH].
Qed.

Lemma papart_sym x z : papart x z -> papart z x.
Proof. apply apart_sym. Qed.

Lemma owned_apart G L g x : ForallOrdPairs papart (owned G L) -> NoDup (map fst (owned G L)) -> g ∈ G -> x ∈ owned G L -> x.1 <> pl_base g -> papart x (place_piece g).
Proof.
  intros Ha _ Hg Hx Hne. eapply pairs_forall; [exact papart_sym|exact Ha|done| |congruence || (intros ->; by apply Hne)].
  unfold owned. apply elem_of_app. left. by apply list_elem_of_fmap_2.
Qed.

Lemma places_distinct G L g h : NoDup (map fst (owned G L)) -> g ∈ G -> h ∈ G -> pl_base g = pl_base h -> g = h.
Proof.
  unfold owned. rewrite map_app. intros (Hnd & _ & _)%NoDup_app Hg Hh E. rewrite map_map in Hnd. cbn in Hnd.
  induction G as [|k G IH]; [by apply elem_of_nil in Hg|]. cbn in Hnd. apply NoDup_cons in Hnd as [Hk Hnd].
  apply elem_of_cons in Hg as [->|Hg], Hh as [->|Hh]; [done| | |by apply IH]; exfalso; apply Hk; [rewrite E|rewrite <- E]; by apply (list_elem_of_fmap_2 pl_base).
Qed.

Lemma align8_spec a : a <= ngx_align a 8 < a + 8 /\ (8 | ngx_align a 8).
Proof. apply (ngx_align_spec 3). lia. Qed.

(** ** Allocation from a block *)

Lemma palloc_loop_ok psize al size bs m bs' :
  0 <= size -> 0 <= psize < 2 ^ 64 -> (16 | psize) -> Forall (place_ok psize) (map geo bs) -> palloc_loop al size bs = Some (m, bs') ->
  exists l1 b l2, bs = l1 ++ b :: l2 /\ bs' = l1 ++ {| b with b_last := m + size |} :: l2 /\ b_last b <= m /\ m + size <= b_end b /\ (al = true -> (8 | m)).
Proof.
  intros Hs Hps Hdiv. revert bs'; induction bs as [|b bs IH]; intros bs' Hok; [done|]. cbn [map] in Hok. apply Forall_cons in Hok as [[K1 K2 K3 K4 K5] Hok]. cbn in *.
  set (p := if al then ngx_align (b_last b) NGX_ALIGNMENT else b_last b) in *.
  assert (Hp : b_last b <= p <= b_end b /\ (al = true -> (8 | p))).
  { unfold p. destruct al; [|split; [lia|done]]. unfold NGX_ALIGNMENT. destruct (align8_spec (b_last b)) as [A1 A2]. split; [|done]. split; [lia|]. destruct A2 as [u Hu], K2 as [v Hv], Hdiv as [w Hw]. lia. }
  rewrite u64_small by lia. destruct (Z.leb_spec size (b_end b - p)) as [Hle|Hgt].
  - intros [= <- <-]. exists [], b, bs. rewrite u64_small by lia. split_and!; [done|done|lia|lia|apply Hp].
  - destruct (palloc_loop al size bs) as [[m' bs'']|]; [|done]. cbn. intros [= <- <-]. destruct (IH bs'' Hok eq_refl) as (l1 & b' & l2 & -> & -> & H1 & H2 & H3).
    by exists (b :: l1), b', l2.
Qed.

(** A piece after the last one of its block is apart from all that were handed out. *)
Lemma new_piece psize G L g m size x :
  Forall (place_ok psize) G -> NoDup (map fst (owned G L)) -> ForallOrdPairs papart (owned G L) -> g ∈ G -> pl_last g <= m -> m + size <= pl_end g -> 0 <= size ->
  placed G x -> papart (m, size) x.
Proof.
  intros Hok Hnd Hap Hg Hm He Hs (h & Hh & H1 & H2 & H3 & H4). rewrite Forall_forall in Hok. pose proof (Hok g Hg) as [G1 G2 G3 G4 G5]. pose proof (Hok h Hh) as [K1 K2 K3 K4 K5].
  destruct (decide (pl_base g = pl_base h)) as [E|E].
  - assert (g = h) as -> by (by eapply places_distinct). unfold papart, apart. cbn. lia.
  - assert (Ha : papart (place_piece g) (place_piece h)).
    { apply (owned_apart G L); [done|done|done| |done]. apply elem_of_app. left. by apply list_elem_of_fmap_2. }
    unfold papart, apart, place_piece in *. cbn in *. lia.
Qed.

Section PoolOk.
Context {Y : Type} `{!System Y, !SystemLaws Y}.

Lemma bump_ok F psize (y : Y) po L R l1 b l2 m size :
  pool_ok F psize y po L R -> p_blocks po = l1 ++ b :: l2 -> b_last b <= m -> m + size <= b_end b -> 0 <= size ->
  pool_ok F psize y {| po with p_blocks := l1 ++ {| b with b_last := m + size |} :: l2 |} L ((m, size) :: R).
Proof.
  intros [VO V5 V6 V7 V8 V9 V10 V11 V12 V13] Eb Hm He Hs. set (b' := {| b with b_last := m + size |}). pose proof VO as [_ V2 _ V4].
  assert (Eo : owned (map geo (l1 ++ b' :: l2)) L = owned (map geo (p_blocks po)) L) by (rewrite Eb; unfold owned; by rewrite !map_app).
  assert (Hg : geo b ∈ map geo (p_blocks po)) by (rewrite Eb, map_app; apply elem_of_app; right; left).
  pose proof V7 as V7'. rewrite Forall_forall in V7'. pose proof (V7' _ Hg) as [K1 K2 K3 K4 K5]. cbn in K1, K2, K3, K4, K5.
  assert (Hnew : forall x, placed (map geo (p_blocks po)) x -> papart (m, size) x) by (intros x; by apply (new_piece psize _ L (geo b))).
  constructor; cbn [p_blocks p_max p_current p_large]; rewrite ?Eo; try done.
  - rewrite Eb, !map_app in V7. cbn [map] in V7. apply Forall_app in V7 as [W1 W2]. apply Forall_cons in W2 as [_ W2]. rewrite map_app. cbn [map]. apply Forall_app. split; [done|].
    constructor; [|done]. constructor; cbn; lia || done.
  - destruct V8 as (g & G & Eg & Hh & Hr). rewrite Eb in Eg. destruct l1 as [|b1 l1]; cbn [app map] in Eg |- *; injection Eg as <- <-.
    + eexists _, _. split; [reflexivity|]. cbn in *. split; [lia|]. constructor; [unfold apart; cbn; lia|done].
    + eexists _, _. split; [reflexivity|]. split; [done|]. constructor; [|done]. cbn [fst snd].
      assert (Ha : papart (place_piece (geo b)) (place_piece (geo b1))).
      { apply (owned_apart (map geo (p_blocks po)) L); [done|done|rewrite Eb; left| |].
        - unfold owned. apply elem_of_app. left. by apply list_elem_of_fmap_2.
        - intros E. cbn in E. unfold owned in V2. rewrite map_app, !map_map, Eb in V2. cbn [app map] in V2. apply NoDup_cons in V2 as [V2 _]. apply V2. apply elem_of_app. left.
          apply list_elem_of_fmap. exists b. split; [by symmetry|]. apply elem_of_app. right. left. }
      assert (Hb1 : place_ok psize (geo b1)) by (apply V7'; rewrite Eb; left). destruct Hb1 as [_ _ B3 B4 _]. unfold papart, apart, place_piece in *. cbn in *. lia.
  - rewrite Eb, length_app in V9. rewrite length_app. done.
  - constructor.
    + exists (geo b'). split; [rewrite map_app; apply elem_of_app; right; left|]. cbn. lia.
    + eapply Forall_impl; [exact V12|]. intros x (g & Hg' & H1 & H2 & H3 & H4). rewrite Eb, map_app in Hg'. apply elem_of_app in Hg' as [Hg'|Hg'].
      * exists g. split; [rewrite map_app; apply elem_of_app; by left|done].
      * cbn in Hg'. apply elem_of_cons in Hg' as [->|Hg'].
        -- exists (geo b'). split; [rewrite map_app; apply elem_of_app; right; left|]. cbn in *. lia.
        -- exists g. split; [rewrite map_app; apply elem_of_app; right; by right|done].
  - constructor; [|done]. eapply Forall_impl; [exact V12|]. apply Hnew.
Qed.

Lemma count_failed_ok i bs cur bs' cur' : count_failed i bs cur = (bs', cur') -> (cur < i + length bs)%nat -> bs <> [] ->
  map geo bs' = map geo bs /\ (cur' < i + length bs)%nat.
Proof.
  revert i cur bs' cur'; induction bs as [|b bs IH]; intros i cur bs' cur' E Hc Hne; [done|]. destruct bs as [|b2 bs]; [cbn in E; by simplify_eq|].
  change (count_failed i (b :: b2 :: bs) cur) with
    (let '(r, c) := count_failed (S i) (b2 :: bs) (if 4 <? b_failed b then S i else cur) in ({| b with b_failed := u64 (b_failed b + 1) |} :: r, c)) in E.
  destruct (count_failed (S i) (b2 :: bs) (if 4 <? b_failed b then S i else cur)) as [r c] eqn:E'. injection E as <- <-.
  destruct (IH _ _ _ _ E') as [H1 H2]; [cbn [length] in *; destruct (4 <? b_failed b); lia|done|]. cbn [map length] in *. split; [by rewrite H1|lia].
Qed.

(** Only the places of the blocks matter. *)
Lemma same_places F psize (y : Y) po L R bs cur : pool_ok F psize y po L R -> map geo bs = map geo (p_blocks po) -> (cur < length bs)%nat ->
  pool_ok F psize y {| po with p_blocks := bs; p_current := cur |} L R.
Proof. intros [VO V5 V6 V7 V8 V9 V10 V11 V12 V13] E Hc. constructor; cbn [p_blocks p_max p_current p_large]; rewrite ?E; done. Qed.

(** ** The pieces of the pool *)

Lemma pairs_perm {A} (P : A -> A -> Prop) l l' : (forall x z, P x z -> P z x) -> l ≡ₚ l' -> ForallOrdPairs P l -> ForallOrdPairs P l'.
Proof.
  intros Hsym. induction 1 as [|x l l' Hp IH|x z l|l l' l'' _ IH1 _ IH2]; intros H; [done| | |by apply IH2, IH1].
  - inversion_clear H. constructor; [by rewrite <- Hp|by apply IH].
  - inversion_clear H as [|? ? Hz Hl]. inversion_clear Hl as [|? ? Hx Hl']. apply Forall_cons in Hz as [Hzx Hz]. repeat constructor; auto.
Qed.

Lemma owned_perm F (y : Y) O O' : O ≡ₚ O' -> own_ok F y O -> own_ok F y O'.
Proof.
  intros Hp [H1 H2 H3 H4]. constructor; [| |by rewrite <- Hp|by eapply pairs_perm; [exact papart_sym| |]].
  - by rewrite H1, (list_to_map_proper O O').
  - by rewrite <- Hp.
Qed.

(** The system gives another piece. *)
Lemma own_new F (y y' : Y) O al size p : own_ok F y O -> 0 < al -> 0 <= size < 2 ^ 64 -> sys_alloc al size y = (Some p, y') ->
  own_ok F y' ((p, size) :: O) /\ 0 < p /\ (al | p) /\ p + size < 2 ^ 63.
Proof using SystemLaws0.
  intros [V1 V2 V3 V4] Hal Hs Ha. destruct (sys_alloc_some al size y p y' Hal Hs Ha) as (A1 & A2 & A3 & A4 & A5 & A6). split; [|done].
  rewrite V1 in A4, A5, A6. apply lookup_union_None in A4 as [A4 A4']. apply not_elem_of_list_to_map in A4. constructor.
  - rewrite A5. cbn. by rewrite insert_union_l.
  - cbn. by constructor.
  - constructor; [|done]. cbn. split; [done|]. intros q n Hq. apply A6. rewrite lookup_union_r; [done|]. apply not_elem_of_list_to_map. intros Hin.
    apply list_elem_of_fmap in Hin as (x & -> & Hx). rewrite Forall_forall in V3. destruct (V3 x Hx) as [E _]. congruence.
  - constructor; [|done]. apply Forall_forall. intros [q n] Hx. apply A6. apply lookup_union_Some_l. by apply elem_of_list_to_map_1.
Qed.

Lemma own_none F (y y' : Y) O al size : own_ok F y O -> sys_alloc al size y = (None, y') -> own_ok F y' O.
Proof using SystemLaws0. intros [V1 V2 V3 V4] Ha%sys_alloc_none. constructor; [congruence|done..]. Qed.

(** A piece is returned to the system. *)
Lemma own_free F (y : Y) O p n : own_ok F y ((p, n) :: O) -> own_ok F (sys_free p y) O.
Proof using SystemLaws0.
  intros [V1 V2 V3 V4]. cbn in V2. apply NoDup_cons in V2 as [Hp V2]. apply Forall_cons in V3 as [[Hf _] V3]. inversion_clear V4. constructor; [|done..].
  rewrite sys_free_live, V1. cbn. rewrite <- insert_union_l, delete_insert_id; [done|]. apply lookup_union_None. split; [by apply not_elem_of_list_to_map|done].
Qed.

(** ** Operations *)

Definition same_rest (po po' : pool) : Prop := p_max po' = p_max po /\ p_large po' = p_large po /\ p_cleanup po' = p_cleanup po.

Lemma append_block F psize (y y' : Y) po L R p size :
  pool_ok F psize y po L R -> own_ok F y' ((p, psize) :: owned (map geo (p_blocks po)) L) -> 0 < p -> (16 | p) -> p + psize < 2 ^ 63 -> 0 <= size <= p_max po ->
  pool_ok F psize y' {| po with p_blocks := p_blocks po ++ [{| b_base := p; b_last := p + sizeof_pool_data + size; b_end := p + psize; b_failed := 0 |}] |} L ((p + sizeof_pool_data, size) :: R).
Proof.
  intros [VO V5 V6 V7 V8 V9 [V10 V10d] V11 V12 V13] Ho Hp Hal Hend Hs. set (new := {| b_base := p; b_last := _; b_end := _; b_failed := _ |}).
  assert (Epp : place_piece (geo new) = (p, psize)) by (unfold place_piece; cbn; f_equal; lia).
  assert (Hperm : (p, psize) :: owned (map geo (p_blocks po)) L ≡ₚ owned (map geo (p_blocks po ++ [new])) L).
  { unfold owned. rewrite !map_app. cbn [map]. rewrite Epp, <- (assoc_L (++)). cbn [app]. apply Permutation_middle. }
  assert (Hfar : forall g x, g ∈ map geo (p_blocks po) -> pl_base g <= x.1 -> x.1 + x.2 <= pl_end g -> papart (p + sizeof_pool_data, size) x).
  { intros g x Hg H1 H2. pose proof V7 as V7'. rewrite Forall_forall in V7'. destruct (V7' g Hg) as [K1 K2 K3 K4 K5]. destruct Ho as [_ _ _ Ha]. inversion_clear Ha as [|? ? Hx _]. rewrite Forall_forall in Hx.
    assert (Hx' : papart (p, psize) (place_piece g)) by (apply Hx; unfold owned; apply elem_of_app; left; by apply list_elem_of_fmap_2).
    unfold papart, apart, place_piece in *. cbn in *. lia. }
  constructor; cbn [p_blocks p_max p_current p_large]; try done.
  - by eapply owned_perm.
  - rewrite map_app. apply Forall_app. split; [done|]. apply Forall_singleton. constructor; cbn; [done|done|lia|lia|lia].
  - destruct V8 as (g & G & Eg & Hh & Hr). rewrite map_app, Eg. eexists g, _. split; [reflexivity|]. split; [done|]. constructor; [|done].
    assert (Hg : g ∈ map geo (p_blocks po)) by (rewrite Eg; left). rewrite Forall_forall in V7. destruct (V7 g Hg) as [K1 K2 K3 K4 K5].
    apply (Hfar g (pl_base g, sizeof_pool) Hg); cbn; lia.
  - rewrite length_app. cbn. lia.
  - constructor.
    + exists (geo new). split; [rewrite map_app; apply elem_of_app; right; left|]. cbn. lia.
    + eapply Forall_impl; [exact V12|]. intros x (g & Hg & Hx). exists g. split; [rewrite map_app; apply elem_of_app; by left|done].
  - constructor; [|done]. eapply Forall_impl; [exact V12|]. intros x (g & Hg & H1 & H2 & H3 & H4). rewrite Forall_forall in V7. destruct (V7 g Hg) as [K1 K2 K3 K4 K5].
    apply (Hfar g x Hg); lia.
Qed.

Lemma first_size F psize (y : Y) po L R : pool_ok F psize y po L R -> u64 (b_end (first_block po) - b_base (first_block po)) = psize.
Proof.
  intros [VO V5 V6 V7 V8 V9 [V10 V10d] V11 V12 V13]. unfold first_block. destruct (p_blocks po) as [|b bs]; [cbn in V9; lia|]. cbn [nth]. cbn [map] in V7. apply Forall_cons in V7 as [[K1 K2 K3 K4 K5] _]. cbn in *.
  rewrite u64_small; lia.
Qed.

Lemma palloc_block_ok F psize (y : Y) po L R size r po' y' : pool_ok F psize y po L R -> 0 <= size <= p_max po -> ngx_palloc_block po size y = (r, po', y') ->
  same_rest po po' /\
  match r with
  | None => pool_ok F psize y' po' L R
  | Some m => pool_ok F psize y' po' L ((m, size) :: R) /\ (8 | m)
  end.
Proof using SystemLaws0.
  intros H Hs. unfold ngx_palloc_block. rewrite (first_size F psize y po L R H). pose proof H as [VO V5 V6 V7 V8 V9 [V10 V10d] V11 V12 V13].
  destruct (sys_alloc NGX_POOL_ALIGNMENT psize y) as [[p|] y1] eqn:Ea.
  - destruct (own_new F y y1 _ NGX_POOL_ALIGNMENT psize p VO ltac:(done) ltac:(lia) Ea) as (Ho & Hp & Hal & Hend). unfold NGX_POOL_ALIGNMENT in Hal.
    assert (Em : ngx_align (p + sizeof_pool_data) NGX_ALIGNMENT = p + sizeof_pool_data).
    { unfold NGX_ALIGNMENT. destruct (align8_spec (p + 32)) as [A1 [u Hu]], Hal as [v Hv]. lia. }
    rewrite Em. rewrite (u64_small (p + sizeof_pool_data + size)) by lia. destruct (count_failed _ _ _) as [rest cur] eqn:Ec. intros [= <- <- <-]. split; [done|].
    destruct (count_failed_ok _ _ _ _ _ Ec) as [Eg Hcur]; [rewrite length_drop; lia|intros E; apply (f_equal length) in E; rewrite length_drop in E; cbn in E; lia|].
    assert (Egeo : map geo (take (p_current po) (p_blocks po) ++ rest) = map geo (p_blocks po)) by (rewrite map_app, Eg, <- map_app, take_drop; done).
    assert (Hc : (cur < length (take (p_current po) (p_blocks po) ++ rest))%nat).
    { apply (f_equal length) in Egeo. rewrite !length_map in Egeo. rewrite Egeo. rewrite length_drop in Hcur. lia. }
    rewrite (assoc_L (++)). split.
    + pose proof (same_places F psize y po L R _ _ H Egeo Hc) as H1. apply (append_block F psize y y1 _ L R p size H1); cbn; rewrite ?Egeo; try done. 
    + destruct Hal as [v Hv]. exists (v * 2 + 4). lia.
  - intros [= <- <- <-]. split; [done|]. constructor; try done. by eapply own_none.
Qed.

Lemma palloc_small_ok F psize (y : Y) po L R al size r po' y' : pool_ok F psize y po L R -> 0 <= size <= p_max po -> palloc_small al po size y = (r, po', y') ->
  same_rest po po' /\
  match r with
  | None => pool_ok F psize y' po' L R
  | Some m => pool_ok F psize y' po' L ((m, size) :: R) /\ (al = true -> (8 | m))
  end.
Proof using SystemLaws0.
  intros H Hs. unfold palloc_small. pose proof H as [VO V5 V6 V7 V8 V9 [V10 V10d] V11 V12 V13].
  destruct (palloc_loop al size (drop (p_current po) (p_blocks po))) as [[m bs]|] eqn:El.
  - intros [= <- <- <-]. split; [done|].
    assert (Hd : Forall (place_ok psize) (map geo (drop (p_current po) (p_blocks po)))) by (rewrite <- (take_drop (p_current po) (p_blocks po)), map_app in V7; by apply Forall_app in V7 as [_ ?]).
    destruct (palloc_loop_ok psize al size _ m bs ltac:(lia) ltac:(lia) V10d Hd El) as (l1 & b & l2 & Ed & -> & H1 & H2 & H3). split; [|done].
    rewrite (assoc_L (++)). apply bump_ok; [done| |done|done|lia]. rewrite <- (take_drop (p_current po) (p_blocks po)) at 1. rewrite Ed. by rewrite (assoc_L (++)).
  - intros E. destruct (palloc_block_ok F psize y po L R size r po' y' H Hs E) as [Hsame Hr]. split; [done|]. destruct r; [|done]. destruct Hr. done.
Qed.

(** *** Large pieces *)

Lemma own_lend F (y : Y) O p n : own_ok F y ((p, n) :: O) -> own_ok (<[p := n]> F) y O /\ F !! p = None /\ forall q m, F !! q = Some m -> apart p n q m.
Proof.
  intros [V1 V2 V3 V4]. cbn in V2. apply NoDup_cons in V2 as [Hp V2]. apply Forall_cons in V3 as [[Hf Hfa] V3]. cbn in Hf, Hfa. inversion_clear V4 as [|? ? Hpo V4']. split; [|done].
  constructor; [|done| |done].
  - rewrite V1. cbn. rewrite <- insert_union_l, insert_union_r; [done|]. by apply not_elem_of_list_to_map.
  - apply Forall_forall. intros x Hx. rewrite Forall_forall in V3, Hpo. destruct (V3 x Hx) as [E1 E2]. assert (Hne : x.1 <> p) by (intros E; apply Hp; rewrite <- E; by apply list_elem_of_fmap_2).
    split; [by rewrite lookup_insert_ne|]. intros q m [[<- <-]|[_ Hq]]%lookup_insert_Some; [apply apart_sym; by apply (Hpo x)|by apply E2].
Qed.

Lemma own_return F (y : Y) O p n : own_ok (<[p := n]> F) y O -> F !! p = None -> (forall q m, F !! q = Some m -> apart p n q m) -> own_ok F y ((p, n) :: O).
Proof.
  intros [V1 V2 V3 V4] Hf Hfa. rewrite Forall_forall in V3. assert (Hp : p ∉ map fst O).
  { intros Hin. apply list_elem_of_fmap in Hin as (x & -> & Hx). destruct (V3 x Hx) as [E _]. by rewrite lookup_insert_eq in E. }
  constructor.
  - rewrite V1. cbn. rewrite <- insert_union_l, insert_union_r; [done|]. by apply not_elem_of_list_to_map.
  - cbn. by constructor.
  - constructor; [done|]. apply Forall_forall. intros x Hx. destruct (V3 x Hx) as [E1 E2]. assert (Hne : p <> x.1) by (intros E; rewrite <- E, lookup_insert_eq in E1; done).
    rewrite lookup_insert_ne in E1 by done. split; [done|]. intros q m Hq. apply E2. rewrite lookup_insert_ne; [done|]. intros E. congruence.
  - constructor; [|done]. apply Forall_forall. intros x Hx. destruct (V3 x Hx) as [_ E2]. apply papart_sym. apply E2. apply lookup_insert_eq.
Qed.

Lemma with_own F F' psize (y y' : Y) po L R : pool_ok F psize y po L R -> own_ok F' y' (owned (map geo (p_blocks po)) L) -> pool_ok F' psize y' po L R.
Proof. intros [VO V5 V6 V7 V8 V9 V10 V11 V12 V13] Ho. by constructor. Qed.

Lemma large_new F0 F psize (y y' : Y) po L R p n large : pool_ok F0 psize y po L R -> own_ok F y' ((p, n) :: owned (map geo (p_blocks po)) L) -> 0 < p -> 0 <= n -> p + n < 2 ^ 63 ->
  allocs large ≡ₚ p :: allocs (p_large po) -> pool_ok F psize y' {| po with p_large := large |} ((p, n) :: L) R.
Proof.
  intros [VO V5 V6 V7 V8 V9 V10 V11 V12 V13] Ho Hp Hn Hpn Hl. constructor; cbn [p_blocks p_max p_current p_large]; try done.
  - eapply owned_perm; [|exact Ho]. unfold owned. apply Permutation_middle.
  - cbn [map fst]. rewrite V5. by symmetry.
  - by constructor.
Qed.

Lemma allocs_cons l large : allocs (l :: large) = (if decide (l_alloc l = 0) then [] else [l_alloc l]) ++ allocs large.
Proof. unfold allocs. cbn [map]. rewrite filter_cons. repeat case_decide; tauto || done. Qed.

Lemma reuse_large_ok n p large large' : 0 < p -> reuse_large n p large = Some large' -> allocs large' ≡ₚ p :: allocs large.
Proof.
  intros Hp. revert large large'; induction n as [|n IH]; intros [|l large] large'; [done..|]. cbn [reuse_large]. destruct (Z.eqb_spec (l_alloc l) 0) as [E|E].
  - intros [= <-]. rewrite !allocs_cons, (decide_True _ _ E). cbn [l_alloc]. rewrite decide_False by lia. done.
  - destruct (reuse_large n p large) as [la|] eqn:Er; [|done]. cbn [mbind option_bind]. intros [= <-]. rewrite !allocs_cons. rewrite !(decide_False _ _ E). cbn [app]. rewrite (IH _ _ Er). apply Permutation_swap.
Qed.

Lemma add_large_ok F psize (y : Y) po L R p n r po' y' : pool_ok (<[p := n]> F) psize y po L R -> F !! p = None -> (forall q m, F !! q = Some m -> apart p n q m) -> 0 < p -> 0 <= n -> p + n < 2 ^ 63 ->
  add_large po p y = Some (r, po', y') -> p_max po' = p_max po /\ p_cleanup po' = p_cleanup po /\
  match r with
  | None => p_large po' = p_large po /\ pool_ok F psize y' po' L R
  | Some q => q = p /\ exists node, p_large po' = {| l_node := node; l_alloc := p |} :: p_large po /\ pool_ok F psize y' po' ((p, n) :: L) ((node, sizeof_pool_large) :: R)
  end.
Proof using SystemLaws0.
  intros H Hf Hfa Hp Hn Hpn. unfold add_large. pose proof (pv_max _ _ _ _ _ _ H) as Hmax. rewrite (proj2 (Z.leb_le _ _)) by lia.
  destruct (palloc_small true po sizeof_pool_large y) as [[[l|] po1] y1] eqn:Ep; destruct (palloc_small_ok _ _ _ _ _ _ _ sizeof_pool_large _ _ _ H ltac:(lia) Ep) as [(S1 & S2 & S3) Hr]; intros [= <- <- <-]; (split; [done|]); (split; [done|]).
  - split; [done|]. exists l. cbn [p_large]. split; [by rewrite S2|]. destruct Hr as [Hr _]. eapply large_new; [exact Hr| |done|done|done|].
    + eapply own_return; [apply Hr|done|done].
    + rewrite allocs_cons. cbn [l_alloc]. by rewrite decide_False by lia.
  - split; [done|]. eapply with_own; [exact Hr|]. eapply own_free, own_return; [apply Hr|done|done].
Qed.

(** *** The client's view *)

(** The nodes of the pool's lists, which are in the memory of its blocks. *)
Definition large_nodes (po : pool) : list piece := map (fun l => (l_node l, sizeof_pool_large)) (p_large po).
Definition cleanup_nodes (po : pool) : list piece := map (fun c => (c_node c, sizeof_pool_cleanup)) (p_cleanup po).

(** The pieces [H] are in the hands of the client, and [C] are others out of blocks. *)
Definition holds (C : list piece) (F : gmap Z Z) (psize : Z) (y : Y) (po : pool) (H : list piece) : Prop :=
  exists L R, pool_ok F psize y po L ((C ++ large_nodes po) ++ R) /\ H ⊆+ R ++ L.

Lemma reuse_large_nodes n p large large' : reuse_large n p large = Some large' -> map l_node large' = map l_node large.
Proof.
  revert large large'; induction n as [|n IH]; intros [|l large] large'; [done..|]. cbn [reuse_large]. destruct (_ =? _); [by intros [= <-]|].
  destruct (reuse_large n p large) as [la|] eqn:Er; [|done]. intros [= <-]. cbn. f_equal. by apply IH.
Qed.

Lemma free_large_nodes p large large' : free_large p large = Some large' -> map l_node large' = map l_node large.
Proof.
  revert large'; induction large as [|l large IH]; intros large'; [done|]. cbn [free_large]. destruct (_ =? _); [by intros [= <-]|].
  destruct (free_large p large) as [la|]; [|done]. intros [= <-]. cbn. f_equal. by apply IH.
Qed.

Lemma large_nodes_same po po' : map l_node (p_large po') = map l_node (p_large po) -> large_nodes po' = large_nodes po.
Proof. unfold large_nodes. intros E. rewrite <- (map_map l_node (fun a => (a, 16))), E. apply map_map. Qed.

Lemma pieces_perm F psize (y : Y) po L R R' : R ≡ₚ R' -> pool_ok F psize y po L R -> pool_ok F psize y po L R'.
Proof.
  intros Hp [VO V5 V6 V7 V8 V9 V10 V11 V12 V13]. constructor; try done.
  - destruct V8 as (g & G & E & H1 & H2). exists g, G. split_and!; [done|done|by rewrite <- Hp].
  - by rewrite <- Hp.
  - by eapply pairs_perm; [exact papart_sym| |].
Qed.

Lemma held_middle (R' R L H : list piece) x : H ⊆+ R ++ L -> x :: H ⊆+ R' ++ R ++ x :: L.
Proof. intros Hsub. rewrite <- Permutation_middle, <- Permutation_middle. apply submseteq_skip. by apply submseteq_inserts_l. Qed.

Lemma add_large_held C F psize (y : Y) po L R H p n r po' y' :
  pool_ok (<[p := n]> F) psize y po L ((C ++ large_nodes po) ++ R) -> H ⊆+ R ++ L -> F !! p = None -> (forall q m, F !! q = Some m -> apart p n q m) -> 0 < p -> 0 <= n -> p + n < 2 ^ 63 ->
  add_large po p y = Some (r, po', y') -> p_max po' = p_max po /\
  match r with
  | None => holds C F psize y' po' H
  | Some q => q = p /\ holds C F psize y' po' ((p, n) :: H)
  end.
Proof using SystemLaws0.
  intros Hp Hsub Hf Hfa Hp0 Hn Hend E. destruct (add_large_ok F psize y po L _ p n r po' y' Hp Hf Hfa Hp0 Hn Hend E) as (S1 & S2 & Hr). split; [done|].
  destruct r as [q|].
  - destruct Hr as (-> & node & El & Hr). split; [done|]. exists ((p, n) :: L), R. split; [|by apply (held_middle [])]. eapply pieces_perm; [|exact Hr].
    unfold large_nodes. rewrite El. cbn [map l_node]. rewrite <- !(assoc_L (++)). cbn [app]. apply Permutation_middle.
  - destruct Hr as [El Hr]. exists L, R. unfold large_nodes. by rewrite El.
Qed.

Lemma palloc_any_ok C F psize (y : Y) po H al size r po' y' : holds C F psize y po H -> 0 <= size < 2 ^ 64 -> palloc_any al po size y = Some (r, po', y') ->
  p_max po' = p_max po /\
  match r with
  | None => holds C F psize y' po' H
  | Some m => holds C F psize y' po' ((m, size) :: H) /\ (al = true -> (8 | m))
  end.
Proof using SystemLaws0.
  intros (L & R & Hp & Hsub) Hs. unfold palloc_any. destruct (Z.leb_spec size (p_max po)) as [Hle|Hgt].
  - intros [= E]. destruct (palloc_small_ok _ _ _ _ _ _ _ size _ _ _ Hp ltac:(lia) E) as [(S1 & S2 & S3) Hr]. split; [done|]. replace (large_nodes po) with (large_nodes po') in Hr by (unfold large_nodes; by rewrite S2). destruct r as [m|]; [|by exists L, R].
    destruct Hr as [Hr Hal]. split; [|done]. exists L, ((m, size) :: R). split; [|cbn; by apply submseteq_skip]. eapply pieces_perm; [|exact Hr]. apply Permutation_middle.
  - unfold ngx_palloc_large. destruct (sys_alloc _ size y) as [[p|] y1] eqn:Ea.
    + destruct (own_new F y y1 _ NGX_MALLOC_ALIGNMENT size p (pv_own _ _ _ _ _ _ Hp) ltac:(done) Hs Ea) as (Ho & Hp0 & Hal & Hend).
      assert (Hal8 : (8 | p)) by (destruct Hal as [v Hv]; exists (v * 2); unfold NGX_MALLOC_ALIGNMENT in Hv; lia).
      destruct (reuse_large 5 p (p_large po)) as [large|] eqn:Er.
      * intros [= <- <- <-]. split; [done|]. split; [|done]. exists ((p, size) :: L), R. split; [|by apply (held_middle [])].
        assert (En : large_nodes {| po with p_large := large |} = large_nodes po) by (apply large_nodes_same; by eapply reuse_large_nodes). rewrite En. eapply large_new; [exact Hp|exact Ho|done|lia|done|by eapply reuse_large_ok].
      * destruct (own_lend _ _ _ _ _ Ho) as (Ho' & Hf & Hfa). intros E. destruct (add_large_held C F psize y1 po L R H p size r po' y' ltac:(by eapply with_own) Hsub Hf Hfa Hp0 ltac:(lia) Hend E) as [S1 Hr].
        split; [done|]. destruct r as [q|]; [|done]. by destruct Hr as [-> Hr].
    + intros [= <- <- <-]. split; [done|]. exists L, R. split; [|done]. eapply with_own; [exact Hp|]. eapply own_none; [apply Hp|exact Ea].
Qed.

Lemma pmemalign_ok C F psize (y : Y) po H size al r po' y' : holds C F psize y po H -> 0 < al -> 0 <= size < 2 ^ 64 -> ngx_pmemalign po size al y = Some (r, po', y') ->
  p_max po' = p_max po /\
  match r with
  | None => holds C F psize y' po' H
  | Some m => holds C F psize y' po' ((m, size) :: H)
  end.
Proof using SystemLaws0.
  intros (L & R & Hp & Hsub) Hal0 Hs. unfold ngx_pmemalign. destruct (sys_alloc al size y) as [[p|] y1] eqn:Ea.
  - destruct (own_new F y y1 _ _ size p (pv_own _ _ _ _ _ _ Hp) Hal0 Hs Ea) as (Ho & Hp0 & Hal & Hend). destruct (own_lend _ _ _ _ _ Ho) as (Ho' & Hf & Hfa).
    intros E. destruct (add_large_held C F psize y1 po L R H p size r po' y' ltac:(by eapply with_own) Hsub Hf Hfa Hp0 ltac:(lia) Hend E) as [S1 Hr].
    split; [done|]. destruct r as [q|]; [|done]. by destruct Hr as [-> Hr].
  - intros [= <- <- <-]. split; [done|]. exists L, R. split; [|done]. eapply with_own; [exact Hp|]. eapply own_none; [apply Hp|exact Ea].
Qed.

Lemma filter_less {A} (P : A -> Prop) `{!forall x, Decision (P x)} l : filter P l ⊆+ l.
Proof. apply sublist_submseteq, sublist_filter. Qed.

Lemma filter_mono {A} (P : A -> Prop) `{!forall x, Decision (P x)} l k : l ⊆+ k -> filter P l ⊆+ filter P k.
Proof.
  induction 1 as [|x l k _ IH|x z l|x l k _ IH|l k m _ IH1 _ IH2]; [done| | | |by etransitivity].
  - rewrite !filter_cons. case_decide; [by apply submseteq_skip|done].
  - rewrite !filter_cons. repeat case_decide; [apply submseteq_swap|done..].
  - rewrite filter_cons. case_decide; [by apply submseteq_cons|done].
Qed.

Lemma free_large_ok p large large' : free_large p large = Some large' -> if decide (p = 0) then allocs large' ≡ₚ allocs large else allocs large ≡ₚ p :: allocs large'.
Proof.
  revert large'; induction large as [|l large IH]; intros large'; [done|]. cbn [free_large]. destruct (Z.eqb_spec (l_alloc l) p) as [E|E].
  - intros [= <-]. rewrite !allocs_cons. cbn [l_alloc]. rewrite (decide_True _ _ (eq_refl 0)), E. case_decide; done.
  - destruct (free_large p large) as [la|]; [|done]. cbn [mbind option_bind]. intros [= <-]. specialize (IH la eq_refl). rewrite !allocs_cons. case_decide as Ep.
    + by rewrite IH.
    + rewrite IH. symmetry. apply Permutation_middle.
Qed.

Lemma pfree_ok C F psize (y : Y) po H p r po' y' : holds C F psize y po H -> ngx_pfree po p y = (r, po', y') ->
  p_max po' = p_max po /\ holds C F psize y' po' (if r then filter (fun x => x.1 <> p) H else H).
Proof using SystemLaws0.
  intros (L & R & Hp & Hsub). unfold ngx_pfree. destruct (free_large p (p_large po)) as [large|] eqn:Ef; [|intros [= <- <- <-]; split; [done|]; by exists L, R].
  intros [= <- <- <-]. split; [done|]. set (po1 := {| po with p_large := large |}).
  assert (En : large_nodes po1 = large_nodes po) by (apply large_nodes_same; by eapply free_large_nodes). unfold holds. rewrite En. clear En. subst po1.
  apply free_large_ok in Ef. pose proof Hp as [VO V5 V6 V7 V8 V9 V10 V11 V12 V13]. case_decide as E0.
  - rewrite (proj2 (Z.eqb_eq p 0) E0). exists L, R. split; [constructor; cbn; try done; by rewrite Ef|]. etransitivity; [apply filter_less|done].
  - rewrite (proj2 (Z.eqb_neq p 0) E0). rewrite Ef in V5.
    assert (HL : exists n L', L ≡ₚ (p, n) :: L' /\ map fst L' ≡ₚ allocs large).
    { assert (Hin : p ∈ map fst L) by (rewrite V5; left). apply list_elem_of_fmap in Hin as ([q n] & E & Hin). cbn in E. subst q. apply elem_of_Permutation in Hin as [L' HL']. exists n, L'. split; [done|].
      rewrite HL' in V5. cbn in V5. by apply Permutation_cons_inv in V5. }
    destruct HL as (n & L' & HL & HL'). exists L', R. split.
    + constructor; cbn [p_blocks p_max p_current p_large]; try done.
      * apply (own_free F y _ p n). eapply owned_perm; [|exact VO]. unfold owned. rewrite HL. symmetry. apply Permutation_middle.
      * rewrite HL in V6. by apply Forall_cons in V6 as [_ ?].
    + transitivity (filter (fun x : piece => x.1 <> p) (R ++ L)); [by apply filter_mono|]. rewrite HL, !filter_app, filter_cons_False by (cbn; tauto).
      apply submseteq_app; apply filter_less.
Qed.

Lemma holds_less C F psize (y : Y) po H H' : H' ⊆+ H -> holds C F psize y po H -> holds C F psize y po H'.
Proof. intros Hs (L & R & Hp & Hsub). exists L, R. split; [done|]. by etransitivity. Qed.

Lemma holds_forget x C F psize (y : Y) po H : holds (x :: C) F psize y po H -> holds C F psize y po H.
Proof.
  intros (L & R & Hp & Hsub). exists L, (x :: R). split; [|cbn; by apply submseteq_cons]. eapply pieces_perm; [|exact Hp]. cbn. apply Permutation_middle.
Qed.

Lemma cleanup_list C F psize (y : Y) po H cs : holds C F psize y po H -> holds C F psize y {| po with p_cleanup := cs |} H.
Proof. intros (L & R & [VO V5 V6 V7 V8 V9 V10 V11 V12 V13] & Hsub). exists L, R. split; [by constructor|done]. Qed.

(** A node of a list. *)
Lemma palloc_node C F psize (y : Y) po H size r po' y' : holds C F psize y po H -> 0 <= size <= 24 -> ngx_palloc po size y = Some (r, po', y') ->
  same_rest po po' /\ match r with None => holds C F psize y' po' H | Some m => holds ((m, size) :: C) F psize y' po' H end.
Proof using SystemLaws0.
  intros (L & R & Hp & Hsub) Hs. unfold ngx_palloc, palloc_any. pose proof (pv_max _ _ _ _ _ _ Hp) as Hmax. rewrite (proj2 (Z.leb_le _ _)) by lia. intros [= E].
  destruct (palloc_small_ok _ _ _ _ _ _ _ size _ _ _ Hp ltac:(lia) E) as [(S1 & S2 & S3) Hr]. split; [done|]. unfold holds, large_nodes. rewrite S2. destruct r as [m|]; exists L, R; [|done]. by destruct Hr.
Qed.

Lemma palloc_small_cleanup al po size (y : Y) r po' y' : palloc_small al po size y = (r, po', y') -> p_cleanup po' = p_cleanup po.
Proof. unfold palloc_small, ngx_palloc_block. repeat case_match; intros; by simplify_eq. Qed.

Lemma add_large_cleanup po p (y : Y) r po' y' : add_large po p y = Some (r, po', y') -> p_cleanup po' = p_cleanup po.
Proof. unfold add_large. repeat case_match; intros; simplify_eq; cbn; by eapply palloc_small_cleanup. Qed.

Lemma palloc_any_cleanup al po size (y : Y) r po' y' : palloc_any al po size y = Some (r, po', y') -> p_cleanup po' = p_cleanup po.
Proof.
  unfold palloc_any, ngx_palloc_large. destruct (_ <=? _); [intros [= E]; by eapply palloc_small_cleanup|]. destruct (sys_alloc _ _ _) as [[p|] y1]; [|by intros; simplify_eq].
  destruct (reuse_large _ _ _); [by intros; simplify_eq|apply add_large_cleanup].
Qed.

Lemma pmemalign_cleanup po size al (y : Y) r po' y' : ngx_pmemalign po size al y = Some (r, po', y') -> p_cleanup po' = p_cleanup po.
Proof. unfold ngx_pmemalign. destruct (sys_alloc _ _ _) as [[p|] y1]; [apply add_large_cleanup|by intros; simplify_eq]. Qed.

Lemma pfree_cleanup po p (y : Y) r po' y' : ngx_pfree po p y = (r, po', y') -> p_cleanup po' = p_cleanup po.
Proof. unfold ngx_pfree. by destruct (free_large _ _); intros; simplify_eq. Qed.

Lemma cleanup_add_ok C F psize (y : Y) po H size r po' y' : holds C F psize y po H -> 0 <= size < 2 ^ 64 -> ngx_pool_cleanup_add po size y = Some (r, po', y') ->
  p_max po' = p_max po /\
  match r with
  | None => holds C F psize y' po' H /\ p_cleanup po' = p_cleanup po
  | Some c => holds ((c_node c, sizeof_pool_cleanup) :: C) F psize y' po' ((if size =? 0 then [] else [(c_data c, size)]) ++ H) /\ p_cleanup po' = c :: p_cleanup po
  end.
Proof using SystemLaws0.
  intros Hh Hs. unfold ngx_pool_cleanup_add. destruct (ngx_palloc po _ y) as [[[c po1] y1]|] eqn:E1; [|done]. cbn [mbind option_bind].
  destruct (palloc_node _ _ _ _ _ _ sizeof_pool_cleanup _ _ _ Hh ltac:(lia) E1) as [(M1 & _ & C1) H1]. destruct c as [c|]; [|by intros [= <- <- <-]].
  destruct (Z.eqb_spec size 0) as [E0|E0]; cbn [mbind option_bind].
  - intros [= <- <- <-]. split; [done|]. split; [by apply cleanup_list|cbn; by rewrite C1].
  - unfold ngx_palloc. destruct (palloc_any true po1 size y1) as [[[data po2] y2]|] eqn:E2; [|done]. cbn [mbind option_bind]. destruct (palloc_any_ok _ _ _ _ _ _ _ size _ _ _ H1 Hs E2) as (M2 & H2). apply palloc_any_cleanup in E2.
    destruct data as [data|]; intros [= <- <- <-]; (split; [cbn; congruence|]).
    + split; [|cbn; congruence]. apply cleanup_list. by destruct H2.
    + split; [by eapply holds_forget|congruence].
Qed.

(** *** Making, emptying and destroying a pool *)

Lemma create_ok pagesize size (y : Y) r y' : 4096 <= pagesize -> 112 <= size < 2 ^ 64 -> (16 | size) ->
  ngx_create_pool pagesize size y = (r, y') ->
  match r with None => sys_live y' = sys_live y | Some po => holds [] (sys_live y) size y' po [] /\ p_cleanup po = [] end.
Proof using SystemLaws0.
  intros Hpg Hs Hdiv. unfold ngx_create_pool. destruct (sys_alloc NGX_POOL_ALIGNMENT size y) as [[p|] y1] eqn:Ea; intros [= <- <-]; [|by eapply sys_alloc_none].
  assert (H0 : own_ok (sys_live y) y []) by (constructor; [cbn; by rewrite (left_id_L ∅ (∪))|constructor|constructor|constructor]).
  destruct (own_new _ _ _ _ NGX_POOL_ALIGNMENT size p H0 ltac:(done) ltac:(lia) Ea) as (Ho & Hp & Hal & Hend). unfold NGX_POOL_ALIGNMENT in Hal. rewrite u64_small by lia. split; [|done]. exists [], []. split; [|done].
  constructor; cbn; try done.
  - eapply owned_perm; [|exact Ho]. unfold owned, place_piece. cbn. by replace (p + size - p) with size by lia.
  - apply Forall_singleton. constructor; cbn; [done|done|lia|lia|lia].
  - eexists _, _. split; [reflexivity|]. cbn. split; [lia|constructor].
  - lia.
  - split; [lia|done].
  - destruct (Z.ltb_spec (size - 80) (pagesize - 1)); lia.
  - constructor.
Qed.

Lemma free_all_ok F (y : Y) G large L : own_ok F y (G ++ L) -> map fst L ≡ₚ allocs large -> own_ok F (free_all_large large y) G.
Proof using SystemLaws0.
  revert y L; induction large as [|l large IH]; intros y L Ho Hl.
  - cbn in Hl. apply Permutation_nil_r in Hl. destruct L; [|done]. by rewrite app_nil_r in Ho.
  - rewrite allocs_cons in Hl. unfold free_all_large. cbn [foldl]. fold (free_all_large large (if l_alloc l =? 0 then y else sys_free (l_alloc l) y)). case_decide as E.
    + rewrite (proj2 (Z.eqb_eq _ _) E). by apply (IH y L).
    + rewrite (proj2 (Z.eqb_neq _ _) E). cbn [app] in Hl. assert (Hin : l_alloc l ∈ map fst L) by (rewrite Hl; left). apply list_elem_of_fmap in Hin as ([q n] & E' & Hin). cbn in E'.
      apply elem_of_Permutation in Hin as [L' HL']. apply (IH _ L').
      * rewrite E'. apply (own_free F y _ q n). eapply owned_perm; [|exact Ho]. rewrite HL'. symmetry. apply Permutation_middle.
      * rewrite HL', E' in Hl. cbn in Hl. by apply Permutation_cons_inv in Hl.
Qed.

Lemma destroy_ok C F psize (y : Y) po H : holds C F psize y po H -> sys_live (ngx_destroy_pool po y).2 = F.
Proof using SystemLaws0.
  intros (L & R & [VO V5 _ _ _ _ _ _ _ _] & _). cbn [ngx_destroy_pool snd]. pose proof (free_all_ok F y _ _ L VO V5) as Ho. revert Ho. clear VO V5. generalize (free_all_large (p_large po) y).
  induction (p_blocks po) as [|b bs IH]; intros y1 Ho.
  { cbn. destruct Ho as [-> _ _ _]. cbn. by rewrite (left_id_L ∅ (∪)). }
  cbn [foldl]. apply IH. cbn in Ho. apply (own_free _ _ _ _ _ Ho).
Qed.

Lemma reset_ok C F psize (y : Y) po H : holds C F psize y po H -> holds [] F psize (ngx_reset_pool po y).2 (ngx_reset_pool po y).1 [].
Proof using SystemLaws0.
  intros (L & R & [VO V5 V6 V7 V8 V9 [V10 V10d] V11 V12 V13] & _). exists [], []. split; [|done]. cbn [ngx_reset_pool fst snd].
  assert (Eo : owned (map geo (map (fun b => {| b with b_last := b_base b + sizeof_pool |}) (p_blocks po))) [] = map place_piece (map geo (p_blocks po))).
  { unfold owned. rewrite app_nil_r, !map_map. by apply map_ext. }
  constructor; cbn [p_blocks p_max p_current p_large]; rewrite ?Eo; try done.
  - eapply free_all_ok; [exact VO|done].
  - rewrite map_map. apply Forall_map. rewrite (Forall_map geo) in V7. eapply Forall_impl; [exact V7|]. intros b [K1 K2 K3 K4 K5]. cbn in *. constructor; cbn; lia || done.
  - destruct V8 as (g & G & Eg & Hh & _). destruct (p_blocks po) as [|b bs]; [done|]. eexists _, _. split; [reflexivity|]. cbn. split; [lia|constructor].
  - by rewrite length_map.
  - constructor.
Qed.

(** ** Any sequence of operations *)

Inductive pool_op : Type := op_palloc (aligned : bool) (size : Z) | op_pmemalign (size alignment : Z) | op_pfree (p : Z) | op_cleanup (size : Z) (handler : option cleanup_handler) | op_reset.

Definition op_ok (o : pool_op) : Prop :=
  match o with
  | op_palloc _ size | op_cleanup size _ => 0 <= size < 2 ^ 64
  | op_pmemalign size alignment => 0 <= size < 2 ^ 64 /\ 0 < alignment
  | _ => True
  end.

(** The client sets the handler of the cleanup that was added last. *)
Definition set_handler (h : option cleanup_handler) (po : pool) : pool :=
  match p_cleanup po with
  | c :: cs => {| po with p_cleanup := {| c with c_handler := h |} :: cs |}
  | [] => po
  end.

(** No reset comes after a cleanup was added. *)
Fixpoint resets_ok (cleanups : bool) (ops : list pool_op) : bool :=
  match ops with
  | [] => true
  | op_reset :: ops => negb cleanups && resets_ok cleanups ops
  | op_cleanup _ _ :: ops => resets_ok true ops
  | _ :: ops => resets_ok cleanups ops
  end.

(** One operation with the pieces that the client holds; what is got is added, and
    what is freed is taken away. *)
Definition pool_step (o : pool_op) (po : pool) (y : Y) (H : list piece) : option (pool * Y * list piece) :=
  match o with
  | op_palloc aligned size =>
      '(r, po, y) ← (if aligned then ngx_palloc else ngx_pnalloc) po size y;
      Some (po, y, match r with Some p => (p, size) :: H | None => H end)
  | op_pmemalign size alignment =>
      '(r, po, y) ← ngx_pmemalign po size alignment y;
      Some (po, y, match r with Some p => (p, size) :: H | None => H end)
  | op_pfree p => let '(r, po, y) := ngx_pfree po p y in Some (po, y, if r : bool then filter (fun x => x.1 <> p) H else H)
  | op_cleanup size handler =>
      '(r, po, y) ← ngx_pool_cleanup_add po size y;
      match r with
      | Some c => Some (set_handler handler po, y, (if size =? 0 then [] else [(c_data c, size)]) ++ H)
      | None => Some (po, y, H)
      end
  | op_reset => let '(po, y) := ngx_reset_pool po y in Some (po, y, [])
  end.

Fixpoint pool_run (ops : list pool_op) (po : pool) (y : Y) (H : list piece) : option (pool * Y * list piece) :=
  match ops with
  | [] => Some (po, y, H)
  | o :: ops => '(po, y, H) ← pool_step o po y H; pool_run ops po y H
  end.

Lemma add_large_some po p (y : Y) : 16 <= p_max po -> is_Some (add_large po p y).
Proof. intros Hm. unfold add_large. rewrite (proj2 (Z.leb_le _ _) Hm). destruct (palloc_small _ _ _ _) as [[[l|] po1] y1]; by eexists. Qed.

Lemma palloc_any_some al po size (y : Y) : 16 <= p_max po -> is_Some (palloc_any al po size y).
Proof.
  intros Hm. unfold palloc_any. destruct (size <=? p_max po); [by eexists|]. unfold ngx_palloc_large. destruct (sys_alloc _ _ _) as [[p|] y1]; [|by eexists].
  destruct (reuse_large _ _ _); [by eexists|by apply add_large_some].
Qed.

Lemma holds_max C F psize (y : Y) po H : holds C F psize y po H -> 16 <= p_max po.
Proof. intros (L & R & [] & _). lia. Qed.

(** The pieces of the client; when [cl] is set, the nodes of the cleanups are none of them. *)
Definition client (cl : bool) (F : gmap Z Z) (psize : Z) (y : Y) (po : pool) (H : list piece) : Prop :=
  holds (if cl then cleanup_nodes po else []) F psize y po H.

Lemma client_same (cl : bool) F psize (y : Y) po po' H : p_cleanup po' = p_cleanup po -> holds (if cl then cleanup_nodes po else []) F psize y po' H -> client cl F psize y po' H.
Proof. unfold client, cleanup_nodes. by intros ->. Qed.

Lemma cleanup_step (cl : bool) F psize po (y : Y) H size h : client cl F psize y po H -> 0 <= size < 2 ^ 64 ->
  exists po' y' H', pool_step (op_cleanup size h) po y H = Some (po', y', H') /\ client cl F psize y' po' H'.
Proof using SystemLaws0.
  intros Hh Hs. pose proof (holds_max _ _ _ _ _ _ Hh) as Hm. cbn [pool_step]. destruct (ngx_pool_cleanup_add po size y) as [[[r po1] y1]|] eqn:E1.
  - destruct (cleanup_add_ok _ _ _ _ _ _ _ _ _ _ Hh Hs E1) as [_ Hr]. cbn. destruct r as [c|]; eexists _, _, _; (split; [reflexivity|]); destruct Hr as [Hr Ec].
    + unfold set_handler. rewrite Ec. apply (cleanup_list _ _ _ _ _ _ ({| c with c_handler := h |} :: p_cleanup po)) in Hr. destruct cl; [exact Hr|]. by eapply holds_forget.
    + by eapply client_same.
  - exfalso. unfold ngx_pool_cleanup_add, ngx_palloc in E1. destruct (palloc_any_some true po 24 y Hm) as [[[c po1] y1] Ec]. rewrite Ec in E1. cbn in E1. destruct c as [c|]; [|done].
    destruct (palloc_any_ok _ _ _ _ _ _ _ sizeof_pool_cleanup _ _ _ Hh ltac:(lia) Ec) as [Em _]. destruct (size =? 0); [done|].
    destruct (palloc_any_some true po1 size y1 ltac:(lia)) as [[[d po2] y2] Ed]. rewrite Ed in E1. cbn in E1. by destruct d.
Qed.

Lemma pool_step_ok cl F psize o po (y : Y) H : client cl F psize y po H -> op_ok o -> (o = op_reset -> cl = true -> p_cleanup po = []) ->
  exists po' y' H', pool_step o po y H = Some (po', y', H') /\ client cl F psize y' po' H' /\ match o with op_cleanup _ _ => True | _ => p_cleanup po' = p_cleanup po end.
Proof using SystemLaws0.
  intros Hh Ho Hreset. pose proof (holds_max _ _ _ _ _ _ Hh) as Hm. destruct o as [al size|size al|p|size h|]; cbn [op_ok] in *.
  - cbn [pool_step]. assert (E : (if al then ngx_palloc else ngx_pnalloc) po size y = palloc_any al po size y) by (by destruct al). rewrite E. destruct (palloc_any_some al po size y Hm) as [[[r po1] y1] E1]. rewrite E1.
    destruct (palloc_any_ok _ _ _ _ _ _ _ _ _ _ _ Hh Ho E1) as [_ Hr]. apply palloc_any_cleanup in E1. cbn. eexists _, _, _. split; [reflexivity|]. split; [|done]. apply (client_same cl F psize y1 po); [done|]. destruct r; [apply Hr|done].
  - cbn [pool_step]. destruct Ho as [Hs Hal]. destruct (ngx_pmemalign po size al y) as [[[r po1] y1]|] eqn:E1.
    + destruct (pmemalign_ok _ _ _ _ _ _ _ _ _ _ _ Hh Hal Hs E1) as [_ Hr]. apply pmemalign_cleanup in E1. cbn. eexists _, _, _. split; [reflexivity|]. split; [|done]. apply (client_same cl F psize y1 po); [done|]. by destruct r.
    + exfalso. unfold ngx_pmemalign in E1. destruct (sys_alloc al size y) as [[p|] y1]; [|done]. destruct (add_large_some po p y1 Hm). congruence.
  - cbn [pool_step]. destruct (ngx_pfree po p y) as [[r po1] y1] eqn:E1. destruct (pfree_ok _ _ _ _ _ _ _ _ _ _ Hh E1) as [_ Hr]. apply pfree_cleanup in E1. eexists _, _, _. split; [reflexivity|]. split; [|done]. by apply (client_same cl F psize y1 po).
  - destruct (cleanup_step cl F psize po y H size h Hh Ho) as (po' & y' & H' & E & Hc). by eexists _, _, _.
  - cbn [pool_step]. pose proof (reset_ok _ _ _ _ _ _ Hh) as Hr. eexists _, _, _. split; [reflexivity|]. split; [|done]. destruct cl; [|exact Hr].
    assert (E : cleanup_nodes (ngx_reset_pool po y).1 = []) by (unfold cleanup_nodes; cbn; by rewrite Hreset). change (holds (cleanup_nodes (ngx_reset_pool po y).1) F psize (ngx_reset_pool po y).2 (ngx_reset_pool po y).1 []). by rewrite E.
Qed.

Lemma pairs_app {A} (P : A -> A -> Prop) l k : ForallOrdPairs P l -> ForallOrdPairs P k -> (forall x z, x ∈ l -> z ∈ k -> P x z) -> ForallOrdPairs P (l ++ k).
Proof.
  induction 1 as [|x l Hx Hl IH]; intros Hk Hc; [done|]. cbn. constructor; [|apply IH; [done|]; intros; apply Hc; [by right|done]].
  apply Forall_app. split; [done|]. apply Forall_forall. intros z Hz. apply Hc; [left|done].
Qed.

Lemma pairs_split {A} (P : A -> A -> Prop) l k : ForallOrdPairs P (l ++ k) -> ForallOrdPairs P l /\ ForallOrdPairs P k /\ forall x z, x ∈ l -> z ∈ k -> P x z.
Proof.
  induction l as [|x l IH]; intros H; [split_and!; [constructor|done|]; intros x z Hx; by apply elem_of_nil in Hx|]. cbn in H. inversion_clear H as [|? ? Hx Hl]. destruct (IH Hl) as (H1 & H2 & H3).
  apply Forall_app in Hx as [Hx Hx']. rewrite Forall_forall in Hx'. split_and!; [by constructor|done|]. intros w z [->|Hw]%elem_of_cons Hz; [by apply Hx'|by apply H3].
Qed.

Lemma holds_apart C F psize (y : Y) po H : holds C F psize y po H ->
  ForallOrdPairs papart (C ++ large_nodes po ++ H) /\ Forall (fun x => 0 < x.1 /\ 0 <= x.2 /\ x.1 + x.2 < 2 ^ 63 /\ exists q n, sys_live y !! q = Some n /\ F !! q = None /\ q <= x.1 /\ x.1 + x.2 <= q + n) H.
Proof.
  intros (L & R' & [[O1 O2 O3 O4] V5 V6 V7 V8 V9 V10 V11 V12 V13] & Hsub). set (N := C ++ large_nodes po) in *. set (R := N ++ R') in *. assert (Hsub' : N ++ H ⊆+ R ++ L).
  { unfold R. rewrite <- (assoc_L (++)). by apply submseteq_app. }
  set (G := map geo (p_blocks po)) in *. pose proof (pairs_split _ _ _ O4) as (_ & PL & PGL).
  assert (Hall : ForallOrdPairs papart (R ++ L)).
  { apply pairs_app; [done|done|]. intros x z Hx Hz. rewrite Forall_forall in V12. destruct (V12 x Hx) as (g & Hg & H1 & H2 & H3 & H4).
    assert (Hp : papart (place_piece g) z) by (apply PGL; [by apply list_elem_of_fmap_2|done]). rewrite Forall_forall in V7. destruct (V7 g Hg) as [K1 K2 K3 K4 K5]. unfold papart, apart, place_piece in *. cbn in *. lia. }
  assert (Hlive : forall x, x ∈ owned G L -> sys_live y !! x.1 = Some x.2 /\ F !! x.1 = None).
  { intros [q n] Hx. rewrite Forall_forall in O3. destruct (O3 _ Hx) as [E _]. split; [|done]. rewrite O1. apply lookup_union_Some_l. by apply elem_of_list_to_map_1. }
  assert (Hin : forall x, x ∈ R ++ L -> 0 < x.1 /\ 0 <= x.2 /\ x.1 + x.2 < 2 ^ 63 /\ exists q n, sys_live y !! q = Some n /\ F !! q = None /\ q <= x.1 /\ x.1 + x.2 <= q + n).
  { intros x [Hx|Hx]%elem_of_app.
    - rewrite Forall_forall in V12. destruct (V12 x Hx) as (g & Hg & H1 & H2 & H3 & H4). rewrite Forall_forall in V7. destruct (V7 g Hg) as [K1 K2 K3 K4 K5]. split; [lia|]. split; [lia|]. split; [lia|].
      exists (pl_base g), (pl_end g - pl_base g). destruct (Hlive (place_piece g)) as [E1 E2]; [unfold owned; apply elem_of_app; left; by apply list_elem_of_fmap_2|]. split_and!; [done|done|lia|lia].
    - rewrite Forall_forall in V6. destruct (V6 x Hx) as (H1 & H2 & H3). split; [done|]. split; [done|]. split; [done|]. exists x.1, x.2. destruct (Hlive x) as [E1 E2]; [unfold owned; apply elem_of_app; by right|]. split_and!; [done|done|lia|lia]. }
  apply submseteq_Permutation in Hsub' as [K HK]. split.
  - rewrite (assoc_L (++)). fold N. by apply (pairs_perm papart _ _ papart_sym HK), pairs_split in Hall as (? & _).
  - apply Forall_forall. intros x Hx. apply Hin. rewrite HK. apply elem_of_app. left. apply elem_of_app. by right.
Qed.

Lemma pool_run_ok cl b F psize ops po (y : Y) H : client cl F psize y po H -> Forall op_ok ops ->
  (cl = true -> resets_ok b ops = true /\ (b = false -> p_cleanup po = [])) ->
  exists po' y' H', pool_run ops po y H = Some (po', y', H') /\ client cl F psize y' po' H'.
Proof using SystemLaws0.
  intros Hh Hops. revert b po y H Hh; induction Hops as [|o ops Ho _ IH]; intros b po y H Hh Hb; [by eexists _, _, _|]. cbn [pool_run].
  destruct (pool_step_ok cl F psize o po y H Hh Ho) as (po1 & y1 & H1 & -> & Hh1 & Hc).
  { intros -> Hcl. destruct (Hb Hcl) as [Hr Hn]. apply Hn. cbn in Hr. by destruct b. }
  cbn. apply (IH (match o with op_cleanup _ _ => true | _ => b end)); [done|]. intros Hcl. destruct (Hb Hcl) as [Hr Hn].
  destruct o; cbn in Hr, Hc; try rewrite Hc; try done. apply andb_prop in Hr as [_ Hr]. done.
Qed.

(** *** The end of the first block *)

(** [p->d.last = last], which arrays do. *)
Definition set_last (last : Z) (po : pool) : pool :=
  match p_blocks po with
  | b :: bs => {| po with p_blocks := {| b with b_last := last |} :: bs |}
  | [] => po
  end.

(** The piece that ends where the first block does is of this block. *)
Lemma last_piece C F psize (y : Y) po H e n : holds C F psize y po ((e, n) :: H) -> 0 < n -> e + n = b_last (first_block po) ->
  exists L R b bs, p_blocks po = b :: bs /\ pool_ok F psize y po L ((e, n) :: (C ++ large_nodes po) ++ R) /\ H ⊆+ R ++ L /\ b_base b + sizeof_pool <= e /\ first_block po = b.
Proof.
  intros (L & R & Hp & Hsub) Hn He. pose proof Hp as [[O1 O2 O3 O4] V5 V6 V7 V8 V9 [V10 V10d] V11 V12 V13]. unfold first_block in *. destruct (p_blocks po) as [|b bs] eqn:Eb; [cbn in V9; lia|]. cbn [nth] in *.
  set (G := map geo (b :: bs)) in *. assert (Hg : geo b ∈ G) by left. pose proof V7 as V7'. rewrite Forall_forall in V7'. destruct (V7' _ Hg) as [K1 K2 K3 K4 K5]. cbn in K1, K2, K3, K4, K5.
  destruct V8 as (g & G' & Eg & Hh & Hr). assert (g = geo b) as -> by (unfold G in Eg; cbn in Eg; congruence). cbn in Hh, Hr.
  assert (Hin : (e, n) ∈ R).
  { assert (Hx : (e, n) ∈ R ++ L) by (eapply elem_of_submseteq; [|exact Hsub]; left). apply elem_of_app in Hx as [?|Hx]; [done|]. exfalso.
    pose proof (pairs_split _ _ _ O4) as (_ & _ & PGL). specialize (PGL (place_piece (geo b)) (e, n) ltac:(by apply list_elem_of_fmap_2) Hx). unfold papart, apart, place_piece in PGL. cbn in PGL. lia. }
  apply elem_of_Permutation in Hin as [R' HR']. assert (HN : (C ++ large_nodes po) ++ R ≡ₚ (e, n) :: (C ++ large_nodes po) ++ R') by (rewrite HR'; symmetry; apply Permutation_middle).
  exists L, R', b, bs. split_and!; [done|by eapply pieces_perm| | |done].
  - apply submseteq_Permutation in Hsub as [K HK]. rewrite HR' in HK. cbn in HK. apply Permutation_cons_inv in HK. rewrite HK. by apply submseteq_inserts_r.
  - rewrite Forall_forall in Hr. specialize (Hr (e, n) ltac:(rewrite HN; left)). unfold apart in Hr. cbn in Hr.
    rewrite Forall_forall in V12. destruct (V12 (e, n) ltac:(rewrite HN; left)) as (h & Hh' & H1 & H2 & H3 & H4). cbn in H1, H2, H3, H4.
    destruct (V7' h Hh') as [B1 B2 B3 B4 B5]. destruct (decide (pl_base h = b_base b)) as [E|E]; [lia|].
    assert (Ha : papart (place_piece h) (place_piece (geo b))) by (apply (owned_apart G L); [done|done|done|unfold owned; apply elem_of_app; left; by apply list_elem_of_fmap_2|done]).
    unfold papart, apart, place_piece in Ha. cbn in Ha. lia.
Qed.

(** Moving the end of the first block when the last piece becomes [n'] bytes long. *)
Lemma set_last_ok C F psize (y : Y) po H e n n' : holds C F psize y po ((e, n) :: H) -> 0 < n -> e + n = b_last (first_block po) -> 0 <= n' -> e + n' <= b_end (first_block po) ->
  holds C F psize y (set_last (e + n') po) ((e, n') :: H).
Proof.
  intros Hh Hn He Hn' Hend. destruct (last_piece C F psize y po H e n Hh Hn He) as (L & R & b & bs & Eb & Hp & Hsub & Hhead & Ef). rewrite Ef in *. exists L, ((e, n') :: R). split; [|cbn; by apply submseteq_skip].
  assert (En : large_nodes (set_last (e + n') po) = large_nodes po) by (unfold set_last; by rewrite Eb). rewrite En.
  set (N := C ++ large_nodes po) in *. apply (pieces_perm _ _ _ _ _ ((e, n') :: N ++ R)); [apply Permutation_middle|]. revert Hp. generalize (N ++ R). clear R Hsub En N. intros R Hp.
  pose proof Hp as [VO V5 V6 V7 V8 V9 [V10 V10d] V11 V12 V13]. pose proof VO as [O1 O2 O3 O4]. unfold set_last. rewrite Eb in *. set (b' := {| b with b_last := e + n' |}).
  assert (Eo : owned (map geo (b' :: bs)) L = owned (map geo (b :: bs)) L) by done. cbn [map] in V7. apply Forall_cons in V7 as [[K1 K2 K3 K4 K5] V7]. cbn in K1, K2, K3, K4, K5.
  inversion_clear V13 as [|? ? Hap Hpairs]. apply Forall_cons in V12 as [_ V12]. rewrite Forall_forall in V12, Hap.
  assert (Hold : forall x, x ∈ R -> exists g, g ∈ map geo (b :: bs) /\ pl_base g + sizeof_pool_data <= x.1 /\ 0 <= x.2 /\ x.1 + x.2 <= pl_end g /\ (x.2 = 0 \/ x.1 + x.2 <= pl_last g) /\
    (g = geo b -> x.2 = 0 \/ x.1 + x.2 <= e)).
  { intros x Hx. destruct (V12 x Hx) as (g & Hg & H1 & H2 & H3 & H4). exists g. split_and!; try done. intros ->. specialize (Hap x Hx). unfold papart, apart in Hap. cbn in Hap, H4, H3. lia. }
  constructor; cbn [p_blocks p_max p_current p_large]; rewrite ?Eo; try done.
  - constructor; [|done]. constructor; cbn; lia || done.
  - destruct V8 as (g & G' & Eg & Hh' & Hr). cbn in Eg. injection Eg as <- <-. cbn in *. eexists _, _. split; [reflexivity|]. cbn. split; [lia|]. apply Forall_cons in Hr as [_ Hr]. constructor; [unfold apart; cbn; lia|done].
  - constructor.
    + exists (geo b'). split; [left|]. cbn. lia.
    + apply Forall_forall. intros x Hx. destruct (Hold x Hx) as (g & Hg & H1 & H2 & H3 & H4 & H5). cbn [map] in Hg. apply elem_of_cons in Hg as [->|Hg].
      * exists (geo b'). split; [left|]. specialize (H5 eq_refl). cbn in *. lia.
      * exists g. split; [by right|done].
  - constructor; [|done]. apply Forall_forall. intros x Hx. destruct (Hold x Hx) as (g & Hg & H1 & H2 & H3 & H4 & H5). cbn [map] in Hg. destruct (decide (pl_base g = b_base b)) as [E|E].
    + assert (g = geo b) as -> by (eapply (places_distinct (map geo (b :: bs)) L); [done|done|left|done]). specialize (H5 eq_refl). unfold papart, apart. cbn. lia.
    + assert (Ha : papart (place_piece g) (place_piece (geo b))) by (apply (owned_apart (map geo (b :: bs)) L); [done|done|left|unfold owned; apply elem_of_app; left; by apply list_elem_of_fmap_2|done]).
      assert (Hgok : place_ok psize g) by (apply elem_of_cons in Hg as [->|Hg]; [done|rewrite Forall_forall in V7; by apply V7]). destruct Hgok as [B1 B2 B3 B4 B5].
      unfold papart, apart, place_piece in *. cbn in *. lia.
Qed.

(** C13: whatever sequence of allocations of any sizes, of freeing, of cleanups and of resets is run on a new pool whose size is a multiple of 16, no operation recurses without end, the pieces that the client holds are disjoint from each other, from the nodes of the list of large pieces and, as long as the pool is not reset after a cleanup was added, from the nodes of the list of cleanups; they are inside of memory that the pool got from the system, which gives the pieces of others back untouched: when the pool is destroyed, the system has exactly the pieces that it had before. *)
Theorem pool_safe pagesize size (y : Y) ops po y1 :
  4096 <= pagesize -> 112 <= size < 2 ^ 64 -> (16 | size) -> Forall op_ok ops -> ngx_create_pool pagesize size y = (Some po, y1) ->
  exists po' y' H, pool_run ops po y1 [] = Some (po', y', H) /\
    ForallOrdPairs (fun x z => apart x.1 x.2 z.1 z.2) (large_nodes po' ++ H) /\
    (resets_ok false ops = true -> ForallOrdPairs (fun x z => apart x.1 x.2 z.1 z.2) (cleanup_nodes po' ++ large_nodes po' ++ H)) /\
    Forall (fun x => 0 < x.1 /\ 0 <= x.2 /\ x.1 + x.2 < 2 ^ 63 /\ exists q n, sys_live y' !! q = Some n /\ sys_live y !! q = None /\ q <= x.1 /\ x.1 + x.2 <= q + n) H /\
    sys_live (ngx_destroy_pool po' y').2 = sys_live y.
Proof using SystemLaws0.
  intros Hpg Hs Hdiv Hops Hc. pose proof (create_ok pagesize size y _ y1 Hpg Hs Hdiv Hc) as [H0 Hc0]. cbn in H0.
  destruct (pool_run_ok false false _ _ ops po y1 [] H0 Hops) as (po' & y' & H & Hrun & Hh); [done|].
  exists po', y', H. destruct (holds_apart _ _ _ _ _ _ Hh) as [H1 H2]. split_and!; [done|done| |done|by eapply destroy_ok].
  intros Hr. assert (H0' : client true (sys_live y) size y1 po []) by (unfold client, cleanup_nodes; by rewrite Hc0).
  destruct (pool_run_ok true false _ _ ops po y1 [] H0' Hops) as (po2 & y2 & H' & Hrun' & Hh'); [done|]. rewrite Hrun in Hrun'. injection Hrun' as <- <- <-.
  by destruct (holds_apart _ _ _ _ _ _ Hh').
Qed.
End PoolOk.

(** *** A system *)

(** Memory after all pieces in use. *)
Definition max_end (m : gmap Z Z) : Z := foldr (fun x a => Z.max (Z.max (x.1 + x.2) x.1) a) 0 (map_to_list m).

#[export] Instance heap_system : System (gmap Z Z) := {|
  sys_alloc := fun al size m =>
    let p := (max_end m / al + 1) * al in
    if p + size <? 2 ^ 63 then (Some p, <[p := size]> m) else (None, m);
  sys_free := fun p m => delete p m;
  sys_live := id
|}.

Lemma max_end_spec m q n : m !! q = Some n -> q + n <= max_end m /\ q <= max_end m.
Proof.
  intros H. apply elem_of_map_to_list in H. unfold max_end. induction (map_to_list m) as [|[q' n'] l IH]; [by apply elem_of_nil in H|]. cbn.
  apply elem_of_cons in H as [[= -> ->]|H]; [lia|specialize (IH H); lia].
Qed.

#[export] Instance heap_laws : SystemLaws (gmap Z Z).
Proof.
  constructor.
  - intros al size m p m' Hal Hs. cbn. set (e := max_end m). assert (He : 0 <= e) by (unfold e, max_end; induction (map_to_list m); cbn; lia).
    assert (Hp : e < (e / al + 1) * al). { pose proof (Z.div_mod e al ltac:(lia)). pose proof (Z.mod_pos_bound e al Hal). lia. }
    destruct (Z.ltb_spec ((e / al + 1) * al + size) (2 ^ 63)); intros [= <- <-]. split_and!; [lia|by eexists|lia| |done|].
    + destruct (m !! _) as [n|] eqn:E; [|done]. apply max_end_spec in E. fold e in E. lia.
    + intros q n E. apply max_end_spec in E. fold e in E. unfold apart. lia.
  - intros al size m m'. cbn. destruct (_ <? _); [done|]. by intros [= <-].
  - done.
Qed.

Definition sample_ops : list pool_op := [op_palloc true 100; op_palloc false 3; op_palloc true 5000; op_cleanup 8 (Some (cleanup_file 3)); op_pmemalign 64 64; op_pfree 4096].

Lemma pool_safe_witness :
  match ngx_create_pool 4096 1024 ∅ with
  | (Some po, y1) =>
      exists po' y' H, pool_run sample_ops po y1 [] = Some (po', y', H) /\ ForallOrdPairs (fun x z => apart x.1 x.2 z.1 z.2) (cleanup_nodes po' ++ large_nodes po' ++ H) /\
        length H = 5%nat /\ length (large_nodes po') = 2%nat /\ map fst (ngx_destroy_pool po' y').1 = [cleanup_file 3] /\ sys_live (ngx_destroy_pool po' y').2 = ∅
  | _ => False
  end.
Proof.
  destruct (ngx_create_pool 4096 1024 ∅) as [[po|] y1] eqn:Ec; [|vm_compute in Ec; discriminate].
  destruct (pool_safe 4096 1024 ∅ sample_ops po y1 ltac:(lia) ltac:(lia) ltac:(by exists 64) ltac:(repeat (apply Forall_cons; split; [cbn; lia|]); apply Forall_nil_2) Ec) as (po' & y' & H & E1 & _ & E2 & _ & E3).
  assert (Hx : match ngx_create_pool 4096 1024 ∅ with (Some po, y1) => match pool_run sample_ops po y1 [] with Some (po', y', H) => length H = 5%nat /\ length (large_nodes po') = 2%nat /\ map fst (ngx_destroy_pool po' y').1 = [cleanup_file 3] | _ => False end | _ => False end)
    by (vm_compute; split_and!; reflexivity).
  rewrite Ec, E1 in Hx. destruct Hx as (Hx1 & Hx2 & Hx3). exists po', y', H. split_and!; [done|by apply E2|done|done|done|done].
Defined.

(** The size of a pool must be a multiple of the alignment: otherwise the end of the aligned address is after that of the block, and the room that is left, as an unsigned number, is huge. *)
Lemma pool_unaligned :
  (let '(r, y) := ngx_create_pool (Y := gmap Z Z) 4096 1021 ∅ in
   po ← r; '(_, po, y) ← ngx_pnalloc po 940 y; '(r, po, y) ← ngx_palloc po 500 y; p ← r; Some (p - b_base (first_block po), b_end (first_block po) - b_base (first_block po))) = Some (1024, 1021).
Proof. vm_compute. reflexivity. Qed.

(** A reset does not forget the cleanups: their nodes are handed out again while they are still in the list. *)
Lemma reset_keeps_cleanups :
  match ngx_create_pool (Y := gmap Z Z) 4096 1024 ∅ with
  | (Some po, y) =>
      match ngx_pool_cleanup_add po 0 y with
      | Some (Some c, po, y) => exists p po' y', ngx_palloc (ngx_reset_pool po y).1 24 (ngx_reset_pool po y).2 = Some (Some p, po', y') /\ p = c_node c /\ p_cleanup po' = [c]
      | _ => False
      end
  | _ => False
  end.
Proof. vm_compute. do 3 eexists. split_and!; reflexivity. Qed.
