(* ===== verification/NgxArray.v ===== *)
(** * Arrays and lists

    src/nginx-1.4.7/src/core/ngx_array.{h,c} and ngx_list.{h,c}, over the pools of
    [NgxPalloc]: an array that is full grows in place when it is the last piece of
    the first block of its pool, and is copied to a piece of twice the size
    otherwise; a list has parts of a fixed number of elements.

    The memory is a function of addresses; the caller writes an element at the
    address that a push returns. *)
From stdpp Require Import gmap.
From S2P Require Import Prelude NgxHash NgxHashLayout NgxPalloc.

(** ** Definitions *)

Abbreviation memory := (Z -> Z) (only parsing).

Definition memcpy (d s n : Z) (m : memory) : memory := fun a => if (d <=? a) && (a <? d + n) then m (s + (a - d)) else m a.

Definition write (a : Z) (x : list Z) (m : memory) : memory :=
  fun b => if (a <=? b) && (b <? a + Z.of_nat (length x)) then nth (Z.to_nat (b - a)) x 0 else m b.

(** [core/ngx_array.h:16-22] ngx_array_t *)
Record array : Type := { a_elts : Z; a_nelts : Z; a_size : Z; a_nalloc : Z }.

Section Array.
Context {Y : Type} `{!System Y}.

(** [None] in the result is NGX_ERROR or NULL.
    [core/ngx_array.h:31-50] ngx_array_init *)
Definition ngx_array_init (po : pool) (n size : Z) (y : Y) : option (option array * pool * Y) :=
  '(elts, po, y) ← ngx_palloc po (u64 (n * size)) y;
  Some (option_map (fun elts => {| a_elts := elts; a_nelts := 0; a_size := size; a_nalloc := n |}) elts, po, y).

(** The address of the array and the array.
    [core/ngx_array.c:12-27] ngx_array_create *)
Definition ngx_array_create (po : pool) (n size : Z) (y : Y) : option (option (Z * array) * pool * Y) :=
  '(p, po, y) ← ngx_palloc po 40 y;
  match p with
  | None => Some (None, po, y)
  | Some p =>
      '(a, po, y) ← ngx_array_init po n size y;
      Some (option_map (pair p) a, po, y)
  end.

(** [core/ngx_array.c:30-44] ngx_array_destroy *)
Definition ngx_array_destroy (p : Z) (a : array) (po : pool) : pool :=
  let size := u64 (a_size a * a_nalloc a) in
  let last := b_last (first_block po) in
  let po := if u64 (a_elts a + size) =? last then set_last (u64 (last - size)) po else po in
  if p + 40 =? b_last (first_block po) then set_last p po else po.

(** Room for [k] elements more, got in place or by copying to a piece for [nalloc]
    elements; [None] is NULL.
    [core/ngx_array.c:62-84] the array allocation is the last in the pool *)
Definition array_grow (a : array) (k nalloc used : Z) (po : pool) (y : Y) (m : memory) : option (option array * pool * Y * memory) :=
  let size := u64 (a_size a * a_nalloc a) in
  let last := b_last (first_block po) in
  let more := u64 (k * a_size a) in
  if (u64 (a_elts a + size) =? last) && (u64 (last + more) <=? b_end (first_block po)) then
    Some (Some {| a with a_nalloc := u64 (a_nalloc a + k) |}, set_last (u64 (last + more)) po, y, m)
  else
    '(new, po, y) ← ngx_palloc po (u64 (nalloc * a_size a)) y;
    match new with
    | None => Some (None, po, y, m)
    | Some new => Some (Some {| a with a_elts := new; a_nalloc := nalloc |}, po, y, memcpy new (a_elts a) used m)
    end.

(** The address for the new element.
    [core/ngx_array.c:47-91] ngx_array_push *)
Definition ngx_array_push (a : array) (po : pool) (y : Y) (m : memory) : option (option Z * array * pool * Y * memory) :=
  '(r, po, y, m) ← (if a_nelts a =? a_nalloc a
    then array_grow a 1 (u64 (2 * a_nalloc a)) (u64 (a_size a * a_nalloc a)) po y m
    else Some (Some a, po, y, m));
  match r with
  | None => Some (None, a, po, y, m)
  | Some a => Some (Some (u64 (a_elts a + a_size a * a_nelts a)), {| a with a_nelts := u64 (a_nelts a + 1) |}, po, y, m)
  end.

(** The address for [n] new elements.
    [core/ngx_array.c:94-141] ngx_array_push_n *)
Definition ngx_array_push_n (a : array) (n : Z) (po : pool) (y : Y) (m : memory) : option (option Z * array * pool * Y * memory) :=
  '(r, po, y, m) ← (if a_nalloc a <? u64 (a_nelts a + n)
    then array_grow a n (u64 (2 * (if a_nalloc a <=? n then n else a_nalloc a))) (u64 (a_nelts a * a_size a)) po y m
    else Some (Some a, po, y, m));
  match r with
  | None => Some (None, a, po, y, m)
  | Some a => Some (Some (u64 (a_elts a + a_size a * a_nelts a)), {| a with a_nelts := u64 (a_nelts a + n) |}, po, y, m)
  end.

(** [core/ngx_list.h:18-22] ngx_list_part_s *)
Record list_part : Type := { lp_elts : Z; lp_nelts : Z }.

(** The parts in the order of [next]; [last] is the last one.
    [core/ngx_list.h:25-31] ngx_list_t *)
Record ngx_list : Type := { nl_parts : list list_part; nl_size : Z; nl_nalloc : Z }.

(** [core/ngx_list.h:36-52] ngx_list_init *)
Definition ngx_list_init (po : pool) (n size : Z) (y : Y) : option (option ngx_list * pool * Y) :=
  '(elts, po, y) ← ngx_palloc po (u64 (n * size)) y;
  Some (option_map (fun elts => {| nl_parts := [{| lp_elts := elts; lp_nelts := 0 |}]; nl_size := size; nl_nalloc := n |}) elts, po, y).

(** [core/ngx_list.c:12-35] ngx_list_create *)
Definition ngx_list_create (po : pool) (n size : Z) (y : Y) : option (option (Z * ngx_list) * pool * Y) :=
  '(p, po, y) ← ngx_palloc po 56 y;
  match p with
  | None => Some (None, po, y)
  | Some p =>
      '(l, po, y) ← ngx_list_init po n size y;
      Some (option_map (pair p) l, po, y)
  end.

Definition last_part (l : ngx_list) : list_part := List.last (nl_parts l) {| lp_elts := 0; lp_nelts := 0 |}.

(** [core/ngx_list.c:46-65] if (last->nelts == l->nalloc) *)
Definition list_grow (l : ngx_list) (po : pool) (y : Y) : option (option ngx_list * pool * Y) :=
  '(last, po, y) ← ngx_palloc po 24 y;
  match last with
  | None => Some (None, po, y)
  | Some _ =>
      '(elts, po, y) ← ngx_palloc po (u64 (nl_nalloc l * nl_size l)) y;
      Some (option_map (fun elts => {| l with nl_parts := nl_parts l ++ [{| lp_elts := elts; lp_nelts := 0 |}] |}) elts, po, y)
  end.

(** [core/ngx_list.c:38-71] ngx_list_push *)
Definition ngx_list_push (l : ngx_list) (po : pool) (y : Y) : option (option Z * ngx_list * pool * Y) :=
  '(r, po, y) ← (if lp_nelts (last_part l) =? nl_nalloc l then list_grow l po y else Some (Some l, po, y));
  match r with
  | None => Some (None, l, po, y)
  | Some l =>
      let last := last_part l in
      Some (Some (u64 (lp_elts last + nl_size l * lp_nelts last)),
            {| l with nl_parts := removelast (nl_parts l) ++ [{| last with lp_nelts := u64 (lp_nelts last + 1) |}] |}, po, y)
  end.
End Array.

(** ** Memory *)

Definition reads (m : memory) (a k : Z) : list Z := map m (seqZ a k).

Lemma reads_ext (m m' : memory) a k : (forall b, a <= b < a + k -> m' b = m b) -> reads m' a k = reads m a k.
Proof. intros H. unfold reads. apply map_ext_in. intros b Hb. apply list_elem_of_In, elem_of_seqZ in Hb. apply H. lia. Qed.

Lemma reads_app (m : memory) a k1 k2 : 0 <= k1 -> 0 <= k2 -> reads m a (k1 + k2) = reads m a k1 ++ reads m (a + k1) k2.
Proof. intros H1 H2. unfold reads. by rewrite seqZ_app, map_app by done. Qed.

Lemma reads_lookup (m : memory) a k i : 0 <= k -> reads m a k !! i = if decide (Z.of_nat i < k) then Some (m (a + Z.of_nat i)) else None.
Proof.
  intros Hk. unfold reads. rewrite list_lookup_fmap. case_decide as Hi.
  - by rewrite lookup_seqZ_lt by lia.
  - by rewrite lookup_seqZ_ge by lia.
Qed.

Lemma reads_write (m : memory) a x : reads (write a x m) a (Z.of_nat (length x)) = x.
Proof.
  apply list_eq. intros i. rewrite reads_lookup by lia. case_decide as Hi; [|symmetry; apply lookup_ge_None; lia]. unfold write.
  rewrite (proj2 (Z.leb_le _ _)), (proj2 (Z.ltb_lt _ _)) by lia. cbn. replace (Z.to_nat (a + Z.of_nat i - a)) with i by lia.
  destruct (lookup_lt_is_Some_2 x i ltac:(lia)) as [v Hv]. rewrite Hv. by rewrite (nth_lookup_Some _ _ _ _ Hv).
Qed.

Lemma reads_write_apart (m : memory) a x b k : apart a (Z.of_nat (length x)) b k -> reads (write a x m) b k = reads m b k.
Proof. intros H. apply reads_ext. intros c Hc. unfold write. unfold apart in H. destruct (Z.leb_spec a c), (Z.ltb_spec c (a + Z.of_nat (length x))); cbn; done || lia. Qed.

Lemma reads_memcpy (m : memory) d s n k : k <= n -> reads (memcpy d s n m) d k = reads m s k.
Proof.
  intros Hk. destruct (Z.le_gt_cases 0 k) as [H0|H0]; [|unfold reads; by rewrite !seqZ_nil by lia]. apply list_eq. intros i. rewrite !reads_lookup by done. case_decide; [|done]. unfold memcpy.
  rewrite (proj2 (Z.leb_le _ _)), (proj2 (Z.ltb_lt _ _)) by lia. cbn. do 2 f_equal. lia.
Qed.

Lemma concat_length (l : list (list Z)) size : Forall (fun x => Z.of_nat (length x) = size) l -> Z.of_nat (length (concat l)) = size * Z.of_nat (length l).
Proof. induction 1 as [|x l Hx _ IH]; cbn [concat length]; [lia|]. rewrite length_app. lia. Qed.

(** ** Arrays *)

Section ArrayOk.
Context {Y : Type} `{!System Y, !SystemLaws Y} (F : gmap Z Z) (psize : Z).

(** The array [a] holds the elements [l], and [H] are the other pieces; [C] elements
    are in the address space. *)
Record array_ok (C : Z) (po : pool) (y : Y) (m : memory) (a : array) (H : list (Z * Z)) (l : list (list Z)) : Prop := {
  ak_holds : holds [] F psize y po ((a_elts a, a_size a * a_nalloc a) :: H);
  ak_size : 0 < a_size a;
  ak_nalloc : 0 < a_nalloc a <= C;
  ak_limit : a_size a * C < 2 ^ 63;
  ak_nelts : a_nelts a = Z.of_nat (length l) /\ a_nelts a <= a_nalloc a;
  ak_elements : Forall (fun x => Z.of_nat (length x) = a_size a) l;
  ak_reads : reads m (a_elts a) (a_size a * a_nelts a) = concat l
}.

Lemma held_apart (y : Y) po x H z : holds [] F psize y po (x :: H) -> z ∈ H -> apart x.1 x.2 z.1 z.2.
Proof. intros Hh Hz. destruct (holds_apart [] F psize y po (x :: H) Hh) as [Hp _]. apply (pairs_split _ (large_nodes po)) in Hp as (_ & Hp & _). inversion_clear Hp as [|? ? Hx _]. rewrite Forall_forall in Hx. by apply Hx. Qed.

Lemma held_inside (y : Y) po x H : holds [] F psize y po (x :: H) -> 0 < x.1 /\ 0 <= x.2 /\ x.1 + x.2 < 2 ^ 63.
Proof. intros Hh. destruct (holds_apart [] F psize y po (x :: H) Hh) as [_ Hi]. apply Forall_cons in Hi as [(H1 & H2 & H3 & _) _]. done. Qed.

Lemma first_end (y : Y) po H : holds [] F psize y po H -> 0 < b_last (first_block po) <= b_end (first_block po) /\ b_end (first_block po) < 2 ^ 63.
Proof.
  intros (L & R & [_ _ _ V7 _ V9 _ _ _ _] & _). unfold first_block. destruct (p_blocks po) as [|b bs]; [cbn in V9; lia|]. cbn [map nth] in *. apply Forall_cons in V7 as [[K1 K2 K3 K4 K5] _]. cbn in *. lia.
Qed.

Lemma ngx_palloc_held (y : Y) po H size : holds [] F psize y po H -> 0 <= size < 2 ^ 64 ->
  exists r po' y', ngx_palloc po size y = Some (r, po', y') /\ match r with None => holds [] F psize y' po' H | Some p => holds [] F psize y' po' ((p, size) :: H) end.
Proof using SystemLaws0.
  intros Hh Hs. pose proof (holds_max _ _ _ _ _ _ Hh) as Hm. destruct (palloc_any_some true po size y Hm) as [[[r po'] y'] E]. exists r, po', y'. split; [done|].
  destruct (palloc_any_ok _ _ _ _ _ _ _ _ _ _ _ Hh Hs E) as [_ Hr]. destruct r; [apply Hr|done].
Qed.

Lemma array_grow_ok C po (y : Y) m a H l k nalloc used : array_ok C po y m a H l -> 0 < k -> a_nalloc a < a_nelts a + k -> 2 * (a_nelts a + k) <= C ->
  a_nelts a + k <= nalloc <= C -> a_size a * a_nelts a <= used <= a_size a * a_nalloc a ->
  exists r po' y' m', array_grow a k nalloc used po y m = Some (r, po', y', m') /\
    match r with
    | None => array_ok C po' y' m a H l /\ m' = m
    | Some a' => exists H', H ⊆+ H' /\ array_ok C po' y' m' a' H' l /\ a_nelts a' + k <= a_nalloc a' /\ a_size a' = a_size a /\
                  (forall z, z ∈ H -> reads m' z.1 z.2 = reads m z.1 z.2)
    end.
Proof using SystemLaws0.
  intros [K1 K2 K3 K4 [K5 K5'] K6 K7] Hk Hfull HC Hn Hu. pose proof (held_inside _ _ _ _ K1) as (I1 & I2 & I3). pose proof (first_end _ _ _ K1) as Hlast. cbn [fst snd] in *.
  assert (Hsz : a_size a * a_nalloc a < 2 ^ 63) by nia. assert (Hks : 0 < k * a_size a < 2 ^ 63) by nia. assert (Hns : 0 < nalloc * a_size a < 2 ^ 63) by nia.
  assert (Hus : used <= nalloc * a_size a) by nia.
  unfold array_grow. rewrite !(u64_small (a_size a * a_nalloc a)), (u64_small (k * a_size a)) by lia. rewrite (u64_small (a_elts a + a_size a * a_nalloc a)) by lia.
  rewrite (u64_small (b_last (first_block po) + k * a_size a)) by lia.
  destruct (Z.eqb_spec (a_elts a + a_size a * a_nalloc a) (b_last (first_block po))) as [El|El]; cbn [andb];
    [destruct (Z.leb_spec (b_last (first_block po) + k * a_size a) (b_end (first_block po))) as [Hle|Hle]|].
  1: { eexists _, _, _, _. split; [reflexivity|]. exists H. rewrite (u64_small (a_nalloc a + k)) by nia. cbn [a_elts a_nelts a_size a_nalloc]. split_and!; [done| |lia|done|done].
       constructor; cbn [a_elts a_nelts a_size a_nalloc]; try done; try lia.
       assert (E : b_last (first_block po) + k * a_size a = a_elts a + (a_size a * (a_nalloc a + k))) by lia. rewrite E.
       eapply set_last_ok; [exact K1|nia|done|nia|]. nia. }
  all: rewrite (u64_small (nalloc * a_size a)) by lia.
  all: destruct (ngx_palloc_held y po _ (nalloc * a_size a) K1 ltac:(lia)) as (r & po' & y' & -> & Hr); cbn [mbind option_bind].
  all: destruct r as [new|]; [|eexists _, _, _, _; split; [reflexivity|]; split; [by constructor|done]].
  all: eexists _, _, _, _; split; [reflexivity|]; cbn [a_elts a_nelts a_size a_nalloc]; exists ((a_elts a, a_size a * a_nalloc a) :: H).
  all: split_and!; [by apply submseteq_cons| |lia|done|].
  all: try (constructor; cbn [a_elts a_nelts a_size a_nalloc]; [by rewrite (Z.mul_comm (a_size a))|done|lia|done|lia|done|by rewrite reads_memcpy by lia]).
  all: intros z Hz; apply reads_ext; intros c Hc; unfold memcpy.
  all: pose proof (held_apart _ _ _ _ z Hr ltac:(by right)) as Ha; unfold apart in Ha; cbn in Ha; destruct (Z.leb_spec new c), (Z.ltb_spec c (new + used)); cbn; done || lia.
Qed.

(** New elements are written behind the others. *)
Lemma array_put C po (y : Y) m a H l xs : array_ok C po y m a H l -> Forall (fun x => Z.of_nat (length x) = a_size a) xs -> a_nelts a + Z.of_nat (length xs) <= a_nalloc a ->
  u64 (a_elts a + a_size a * a_nelts a) = a_elts a + a_size a * a_nelts a /\ u64 (a_nelts a + Z.of_nat (length xs)) = a_nelts a + Z.of_nat (length xs) /\
  array_ok C po y (write (a_elts a + a_size a * a_nelts a) (concat xs) m) {| a with a_nelts := a_nelts a + Z.of_nat (length xs) |} H (l ++ xs) /\
  forall z, z ∈ H -> reads (write (a_elts a + a_size a * a_nelts a) (concat xs) m) z.1 z.2 = reads m z.1 z.2.
Proof.
  intros [K1 K2 K3 K4 [K5 K5'] K6 K7] Hxs Hroom. pose proof (held_inside _ _ _ _ K1) as (I1 & I2 & I3). cbn [fst snd] in *. pose proof (concat_length xs _ Hxs) as Hlen.
  assert (Hroom' : a_size a * a_nelts a + a_size a * Z.of_nat (length xs) <= a_size a * a_nalloc a) by nia. assert (H0 : 0 <= a_size a * a_nelts a) by nia. assert (H0' : 0 <= a_size a * Z.of_nat (length xs)) by nia.
  assert (Hsmall : a_nalloc a < 2 ^ 63) by nia. split_and!; [apply u64_small; lia|apply u64_small; lia| |].
  - constructor; cbn [a_elts a_nelts a_size a_nalloc]; try done.
    + rewrite length_app. lia.
    + by apply Forall_app.
    + rewrite Z.mul_add_distr_l, reads_app, concat_app by done. f_equal.
      * rewrite reads_write_apart; [done|]. unfold apart. lia.
      * rewrite <- Hlen. apply reads_write.
  - intros z Hz. apply reads_write_apart. pose proof (held_apart _ _ _ _ z K1 Hz) as Ha. unfold apart in *. cbn in Ha. lia.
Qed.

Lemma array_push_ok C po (y : Y) m a H l x : array_ok C po y m a H l -> Z.of_nat (length x) = a_size a -> 2 * (a_nelts a + 1) <= C ->
  exists r a' po' y' m', ngx_array_push a po y m = Some (r, a', po', y', m') /\
    match r with
    | None => a' = a /\ array_ok C po' y' m a H l /\ m' = m
    | Some p => a_size a' = a_size a /\ exists H', H ⊆+ H' /\ array_ok C po' y' (write p x m') a' H' (l ++ [x]) /\ forall z, z ∈ H -> reads (write p x m') z.1 z.2 = reads m z.1 z.2
    end.
Proof using SystemLaws0.
  intros Ha Hx HC. unfold ngx_array_push.
  assert (Hg : exists r po' y' m', (if a_nelts a =? a_nalloc a then array_grow a 1 (u64 (2 * a_nalloc a)) (u64 (a_size a * a_nalloc a)) po y m else Some (Some a, po, y, m)) = Some (r, po', y', m') /\
    match r with
    | None => array_ok C po' y' m a H l /\ m' = m
    | Some a' => exists H', H ⊆+ H' /\ array_ok C po' y' m' a' H' l /\ a_nelts a' + 1 <= a_nalloc a' /\ a_size a' = a_size a /\ (forall z, z ∈ H -> reads m' z.1 z.2 = reads m z.1 z.2)
    end).
  { destruct (Z.eqb_spec (a_nelts a) (a_nalloc a)) as [E|E].
    - pose proof Ha as [K1 K2 K3 K4 [K5 K5'] K6 K7]. assert (a_nalloc a < 2 ^ 62) by nia. assert (a_size a * a_nalloc a < 2 ^ 63) by nia. rewrite !u64_small by nia.
      apply array_grow_ok; [done|lia|lia|lia|lia|nia].
    - eexists _, _, _, _. split; [reflexivity|]. exists H. destruct (ak_nelts _ _ _ _ _ _ _ Ha). split_and!; [done|done|lia|done|done]. }
  destruct Hg as (r & po' & y' & m' & -> & Hr). cbn [mbind option_bind]. destruct r as [a'|]; [|eexists _, _, _, _, _; split; [reflexivity|]; by destruct Hr].
  destruct Hr as (H' & HH & Ha' & Hroom & Esz & Hz). destruct (array_put C po' y' m' a' H' l [x] Ha' ltac:(apply Forall_singleton; congruence) Hroom) as (E1 & E2 & Hput & Hz').
  eexists _, _, _, _, _. split; [reflexivity|]. rewrite E1. cbn [length] in E2. change (Z.of_nat 1) with 1 in E2. rewrite E2. split; [done|]. exists H'. cbn [concat] in Hput, Hz'. rewrite app_nil_r in Hput, Hz'.
  split_and!; [done|done|]. intros z Hin. rewrite Hz'; [by apply Hz|]. by eapply elem_of_submseteq.
Qed.

Lemma array_push_n_ok C po (y : Y) m a H l xs : array_ok C po y m a H l -> Forall (fun x => Z.of_nat (length x) = a_size a) xs -> 2 * (a_nelts a + Z.of_nat (length xs)) <= C ->
  exists r a' po' y' m', ngx_array_push_n a (Z.of_nat (length xs)) po y m = Some (r, a', po', y', m') /\
    match r with
    | None => a' = a /\ array_ok C po' y' m a H l /\ m' = m
    | Some p => a_size a' = a_size a /\ exists H', H ⊆+ H' /\ array_ok C po' y' (write p (concat xs) m') a' H' (l ++ xs) /\ forall z, z ∈ H -> reads (write p (concat xs) m') z.1 z.2 = reads m z.1 z.2
    end.
Proof using SystemLaws0.
  intros Ha Hx HC. unfold ngx_array_push_n. set (n := Z.of_nat (length xs)) in *. pose proof Ha as [K1 K2 K3 K4 [K5 K5'] K6 K7]. assert (C < 2 ^ 63) by nia. rewrite (u64_small (a_nelts a + n)) by lia.
  assert (Hg : exists r po' y' m', (if a_nalloc a <? a_nelts a + n then array_grow a n (u64 (2 * (if a_nalloc a <=? n then n else a_nalloc a))) (u64 (a_nelts a * a_size a)) po y m else Some (Some a, po, y, m)) = Some (r, po', y', m') /\
    match r with
    | None => array_ok C po' y' m a H l /\ m' = m
    | Some a' => exists H', H ⊆+ H' /\ array_ok C po' y' m' a' H' l /\ a_nelts a' + n <= a_nalloc a' /\ a_size a' = a_size a /\ (forall z, z ∈ H -> reads m' z.1 z.2 = reads m z.1 z.2)
    end).
  { destruct (Z.ltb_spec (a_nalloc a) (a_nelts a + n)) as [E|E].
    - assert (Hnew : a_nelts a + n <= 2 * (if a_nalloc a <=? n then n else a_nalloc a) <= C) by (destruct (Z.leb_spec (a_nalloc a) n); lia).
      rewrite (u64_small (2 * _)) by lia. assert (0 <= a_nelts a * a_size a <= a_size a * a_nalloc a) by nia. assert (a_size a * a_nalloc a < 2 ^ 63) by nia. rewrite (u64_small (a_nelts a * a_size a)) by lia.
      apply array_grow_ok; [done|lia|lia|lia|lia|lia].
    - eexists _, _, _, _. split; [reflexivity|]. exists H. split_and!; [done|done|lia|done|done]. }
  destruct Hg as (r & po' & y' & m' & -> & Hr). cbn [mbind option_bind]. destruct r as [a'|]; [|eexists _, _, _, _, _; split; [reflexivity|]; by destruct Hr].
  destruct Hr as (H' & HH & Ha' & Hroom & Esz & Hz). destruct (array_put C po' y' m' a' H' l xs Ha' ltac:(by rewrite Esz) Hroom) as (E1 & E2 & Hput & Hz').
  eexists _, _, _, _, _. split; [reflexivity|]. rewrite E1. fold n in E2. rewrite E2. split; [done|]. exists H'. split_and!; [done|done|]. intros z Hin. rewrite Hz'; [by apply Hz|]. by eapply elem_of_submseteq.
Qed.

Lemma array_destroy_ok (y : Y) po p a H : holds [] F psize y po ((a_elts a, a_size a * a_nalloc a) :: (p, 40) :: H) -> 0 < a_size a * a_nalloc a ->
  holds [] F psize y (ngx_array_destroy p a po) H.
Proof.
  intros Hh Hpos. pose proof (held_inside _ _ _ _ Hh) as (I1 & I2 & I3). cbn [fst snd] in *. unfold ngx_array_destroy. rewrite (u64_small (a_size a * a_nalloc a)), (u64_small (a_elts a + _)) by lia.
  pose proof (first_end _ _ _ Hh) as Hlast. set (po1 := if _ =? _ then _ else po).
  assert (H1 : holds [] F psize y po1 ((p, 40) :: H)).
  { unfold po1. destruct (Z.eqb_spec (a_elts a + a_size a * a_nalloc a) (b_last (first_block po))) as [E|E]; [|eapply holds_less; [|exact Hh]; by apply submseteq_cons].
    rewrite (u64_small (b_last (first_block po) - _)) by lia. replace (b_last (first_block po) - a_size a * a_nalloc a) with (a_elts a + 0) by lia.
    eapply holds_less; [|eapply (set_last_ok [] F psize y po _ (a_elts a) _ 0 Hh); lia]. by apply submseteq_cons. }
  destruct (Z.eqb_spec (p + 40) (b_last (first_block po1))) as [E|E]; [|eapply holds_less; [|exact H1]; by apply submseteq_cons].
  pose proof (first_end _ _ _ H1) as Hlast1. assert (set_last p po1 = set_last (p + 0) po1) as -> by (f_equal; lia). eapply holds_less; [|eapply (set_last_ok [] F psize y po1 _ p 40 0 H1); lia]. by apply submseteq_cons.
Qed.

(** ** Any sequence of operations *)

(** Elements are pushed one by one or several at once; others get pieces of the same
    pool and write to them. *)
Inductive array_op : Type := arr_push (x : list Z) | arr_push_n (xs : list (list Z)) | arr_other (bytes : list Z).

(** The array in its pool; [s_list] are the elements that were pushed with success
    and [s_others] the pieces of others with their bytes; [s_failed] says that a push
    returned NULL. *)
Record array_state : Type := { s_array : array; s_pool : pool; s_sys : Y; s_mem : memory; s_list : list (list Z); s_others : list (Z * list Z); s_failed : bool }.

Definition array_step (o : array_op) (s : array_state) : option array_state :=
  match o with
  | arr_push x =>
      '(r, a, po, y, m) ← ngx_array_push (s_array s) (s_pool s) (s_sys s) (s_mem s);
      Some (match r with
            | Some p => {| s_array := a; s_pool := po; s_sys := y; s_mem := write p x m; s_list := s_list s ++ [x]; s_others := s_others s; s_failed := s_failed s |}
            | None => {| s_array := a; s_pool := po; s_sys := y; s_mem := m; s_list := s_list s; s_others := s_others s; s_failed := true |}
            end)
  | arr_push_n xs =>
      '(r, a, po, y, m) ← ngx_array_push_n (s_array s) (Z.of_nat (length xs)) (s_pool s) (s_sys s) (s_mem s);
      Some (match r with
            | Some p => {| s_array := a; s_pool := po; s_sys := y; s_mem := write p (concat xs) m; s_list := s_list s ++ xs; s_others := s_others s; s_failed := s_failed s |}
            | None => {| s_array := a; s_pool := po; s_sys := y; s_mem := m; s_list := s_list s; s_others := s_others s; s_failed := true |}
            end)
  | arr_other bytes =>
      '(r, po, y) ← ngx_palloc (s_pool s) (Z.of_nat (length bytes)) (s_sys s);
      Some (match r with
            | Some p => {| s_array := s_array s; s_pool := po; s_sys := y; s_mem := write p bytes (s_mem s); s_list := s_list s; s_others := (p, bytes) :: s_others s; s_failed := s_failed s |}
            | None => {| s_array := s_array s; s_pool := po; s_sys := y; s_mem := s_mem s; s_list := s_list s; s_others := s_others s; s_failed := s_failed s |}
            end)
  end.

Fixpoint array_run (ops : list array_op) (s : array_state) : option array_state :=
  match ops with
  | [] => Some s
  | o :: ops => s ← array_step o s; array_run ops s
  end.

Definition op_elements (o : array_op) : list (list Z) := match o with arr_push x => [x] | arr_push_n xs => xs | arr_other _ => [] end.

(** Every element has the size of the array, and a piece is in the address space. *)
Definition array_op_ok (size : Z) (o : array_op) : Prop :=
  Forall (fun x => Z.of_nat (length x) = size) (op_elements o) /\ match o with arr_other bytes => Z.of_nat (length bytes) < 2 ^ 64 | _ => True end.

Definition op_count (ops : list array_op) : Z := Z.of_nat (length (flat_map op_elements ops)).

Definition others_ok (m : memory) (H : list (Z * Z)) (others : list (Z * list Z)) : Prop :=
  Forall (fun x => (x.1, Z.of_nat (length x.2)) ∈ H /\ reads m x.1 (Z.of_nat (length x.2)) = x.2) others.

Definition state_ok (C size : Z) (s : array_state) : Prop :=
  exists H, array_ok C (s_pool s) (s_sys s) (s_mem s) (s_array s) H (s_list s) /\ a_size (s_array s) = size /\ others_ok (s_mem s) H (s_others s).

Lemma others_mono (m m' : memory) H H' others : H ⊆+ H' -> (forall z, z ∈ H -> reads m' z.1 z.2 = reads m z.1 z.2) -> others_ok m H others -> others_ok m' H' others.
Proof.
  intros HH Hr Ho. eapply Forall_impl; [exact Ho|]. intros [p bytes] [Hin Hb]. cbn in *. split; [by eapply elem_of_submseteq|]. pose proof (Hr _ Hin) as E. cbn in E. by rewrite E.
Qed.

Lemma array_step_ok C size o s : state_ok C size s -> array_op_ok size o -> 2 * (Z.of_nat (length (s_list s)) + Z.of_nat (length (op_elements o))) <= C ->
  exists s', array_step o s = Some s' /\ state_ok C size s' /\ (length (s_list s') <= length (s_list s) + length (op_elements o))%nat /\ (s_failed s' = false -> s_failed s = false /\ s_list s' = s_list s ++ op_elements o).
Proof using SystemLaws0.
  destruct s as [a po y m l others f]. intros (H & Ha & Es & Ho) [Hx Hb] HC. cbn [s_array s_pool s_sys s_mem s_list s_others s_failed] in *. destruct (ak_nelts _ _ _ _ _ _ _ Ha) as [En _]. destruct o as [x|xs|bytes]; cbn [array_step op_elements s_array s_pool s_sys s_mem s_list s_others s_failed] in *.
  - apply Forall_cons in Hx as [Hx _]. destruct (array_push_ok C po y m a H l x Ha ltac:(lia) ltac:(cbn in HC; lia)) as (r & a' & po' & y' & m' & E & Hr). rewrite E. cbn. eexists. split; [reflexivity|]. destruct r as [p|]; cbn.
    + destruct Hr as (Es' & H' & HH & Ha' & Hz). split; [|rewrite length_app; cbn; split; [lia|done]]. exists H'. cbn. split_and!; [done|congruence|by eapply others_mono].
    + destruct Hr as (-> & Ha' & ->). split; [|split; [lia|done]]. by exists H.
  - destruct (array_push_n_ok C po y m a H l xs Ha ltac:(by rewrite Es) ltac:(lia)) as (r & a' & po' & y' & m' & E & Hr). rewrite E. cbn. eexists. split; [reflexivity|]. destruct r as [p|]; cbn.
    + destruct Hr as (Es' & H' & HH & Ha' & Hz). split; [|rewrite length_app; split; [lia|done]]. exists H'. cbn. split_and!; [done|congruence|by eapply others_mono].
    + destruct Hr as (-> & Ha' & ->). split; [|split; [lia|done]]. by exists H.
  - destruct (ngx_palloc_held y po _ (Z.of_nat (length bytes)) (ak_holds _ _ _ _ _ _ _ Ha) ltac:(lia)) as (r & po' & y' & E & Hr). rewrite E. cbn. eexists. split; [reflexivity|]. pose proof Ha as [K1 K2 K3 K4 K5 K6 K7].
    destruct r as [p|]; cbn; (split; [|split; [lia|by rewrite app_nil_r]]).
    + exists ((p, Z.of_nat (length bytes)) :: H). cbn. pose proof (fun z Hz => held_apart _ _ _ _ z Hr Hz) as Hap. cbn [fst snd] in Hap. split_and!; [|done|].
      * constructor; try done.
        -- eapply holds_less; [|exact Hr]. apply submseteq_swap.
        -- rewrite reads_write_apart; [done|]. specialize (Hap (a_elts a, a_size a * a_nalloc a) ltac:(left)). cbn in Hap. unfold apart in *. nia.
      * constructor; [cbn; split; [left|apply reads_write]|]. eapply others_mono; [by apply submseteq_cons| |exact Ho]. intros z Hz. apply reads_write_apart. apply Hap. by right.
    + exists H. split_and!; [by constructor|done|done].
Qed.

Lemma array_run_ok C size ops s : state_ok C size s -> Forall (array_op_ok size) ops -> 2 * (Z.of_nat (length (s_list s)) + op_count ops) <= C ->
  exists s', array_run ops s = Some s' /\ state_ok C size s' /\ (s_failed s' = false -> s_failed s = false /\ s_list s' = s_list s ++ flat_map op_elements ops).
Proof using SystemLaws0.
  intros Hs Hops. revert s Hs; induction Hops as [|o ops Ho _ IH]; intros s Hs HC; [exists s; cbn; by rewrite app_nil_r|]. unfold op_count in *. cbn [flat_map] in HC. rewrite length_app in HC.
  destruct (array_step_ok C size o s Hs Ho ltac:(lia)) as (s1 & E & Hs1 & Hl & Hf). cbn [array_run]. rewrite E. cbn.
  destruct (IH s1 Hs1 ltac:(lia)) as (s2 & -> & Hs2 & Hf2). exists s2. split_and!; [done|done|]. intros Hn. destruct (Hf2 Hn) as [Hn1 ->]. destruct (Hf Hn1) as [Hn0 ->]. by rewrite <- app_assoc.
Qed.

Lemma array_init_ok C po (y : Y) m H n size r po' y' : holds [] F psize y po H -> 0 < n <= C -> 0 < size -> size * C < 2 ^ 63 -> ngx_array_init po n size y = Some (r, po', y') ->
  match r with None => holds [] F psize y' po' H | Some a => array_ok C po' y' m a H [] /\ a_size a = size end.
Proof using SystemLaws0.
  intros Hh Hn Hs HC. assert (Hns : 0 < n * size < 2 ^ 63) by nia. unfold ngx_array_init. rewrite (u64_small (n * size)) by lia. destruct (ngx_palloc_held y po H (n * size) Hh ltac:(lia)) as (e & po1 & y1 & -> & Hr).
  cbn. destruct e as [e|]; intros [= <- <- <-]; [|done]. split; [|done]. constructor; cbn; try done; try lia; [by rewrite Z.mul_comm|by rewrite Z.mul_0_r].
Qed.
End ArrayOk.

(** C34: an array that is made in a pool for one or more elements of one or more bytes is a list: after any sequence of pushes of one or of several elements, mixed with other allocations from the same pool, the bytes from the start of the array are the elements that were pushed (all of them unless a push returned NULL), in their order, whether the array grew in place or was copied, and no other piece was changed. *)
Theorem array_refines {Y} `{!System Y, !SystemLaws Y} pagesize psize (y0 y1 y2 : Y) po1 po2 m n size a ops :
  4096 <= pagesize -> 112 <= psize < 2 ^ 64 -> (16 | psize) -> ngx_create_pool pagesize psize y0 = (Some po1, y1) ->
  0 < n -> 0 < size -> Forall (array_op_ok size) ops -> size * (n + 2 * op_count ops) < 2 ^ 63 ->
  ngx_array_init po1 n size y1 = Some (Some a, po2, y2) ->
  exists s, array_run ops {| s_array := a; s_pool := po2; s_sys := y2; s_mem := m; s_list := []; s_others := []; s_failed := false |} = Some s /\
    (s_failed s = false -> s_list s = flat_map op_elements ops) /\
    a_nelts (s_array s) = Z.of_nat (length (s_list s)) /\
    reads (s_mem s) (a_elts (s_array s)) (a_size (s_array s) * a_nelts (s_array s)) = concat (s_list s) /\
    Forall (fun x => reads (s_mem s) x.1 (Z.of_nat (length x.2)) = x.2) (s_others s).
Proof.
  intros Hpg Hps Hdiv Hc Hn Hs Hops HC Ha. pose proof (create_ok pagesize psize y0 _ y1 Hpg Hps Hdiv Hc) as [H0 _]. assert (0 <= op_count ops) by (unfold op_count; lia).
  destruct (array_init_ok (sys_live y0) psize (n + 2 * op_count ops) po1 y1 m [] n size _ po2 y2 H0 ltac:(lia) Hs HC Ha) as [Hok Hsz].
  destruct (array_run_ok (sys_live y0) psize (n + 2 * op_count ops) size ops {| s_array := a; s_pool := po2; s_sys := y2; s_mem := m; s_list := []; s_others := []; s_failed := false |} ltac:(exists []; split_and!; [exact Hok|exact Hsz|constructor]) Hops ltac:(cbn; lia)) as (s & Hrun & (HH & Hs' & _ & Ho) & Hf).
  exists s. split; [done|]. destruct Hs' as [K1 K2 K3 K4 [K5 K5'] K6 K7]. split_and!; [by intros Hnf; apply Hf|done|done|]. eapply Forall_impl; [exact Ho|]. by intros x [_ ?].
Qed.

(** A push returns NULL only when the pool has no memory for twice the array. *)
Lemma array_push_null {Y} `{!System Y} a po (y : Y) m a' po' y' m' : ngx_array_push a po y m = Some (None, a', po', y', m') ->
  a_nelts a = a_nalloc a /\ ngx_palloc po (u64 (u64 (2 * a_nalloc a) * a_size a)) y = Some (None, po', y') /\ a' = a /\ m' = m.
Proof.
  unfold ngx_array_push. destruct (Z.eqb_spec (a_nelts a) (a_nalloc a)) as [E|E]; cbn [mbind option_bind]; [|done]. unfold array_grow. destruct (_ && _); cbn [mbind option_bind]; [done|].
  destruct (ngx_palloc _ _ _) as [[[r po1] y1]|]; cbn [mbind option_bind]; [|done]. destruct r; cbn [mbind option_bind]; [done|]. by intros [= <- <- <- <-].
Qed.

(** An array of one element of 24 bytes grows in place, is copied after a piece of another, and grows in place again. *)
Definition element (v : Z) : list Z := repeat v 24.
Definition sample_array_ops : list array_op := [arr_push (element 1); arr_push (element 2); arr_other (repeat 7 100); arr_push_n [element 3; element 4; element 5]; arr_push (element 6); arr_other (repeat 9 900); arr_push (element 8)].

Lemma array_refines_witness :
  match ngx_create_pool (Y := gmap Z Z) 4096 1024 ∅ with
  | (Some po, y) =>
      match ngx_array_init po 1 24 y with
      | Some (Some a, po, y) =>
          exists s, array_run sample_array_ops {| s_array := a; s_pool := po; s_sys := y; s_mem := fun _ => 0; s_list := []; s_others := []; s_failed := false |} = Some s /\ s_failed s = false /\
            a_elts (s_array s) <> a_elts a /\ reads (s_mem s) (a_elts (s_array s)) (24 * 7) = concat (map element [1; 2; 3; 4; 5; 6; 8])
      | _ => False
      end
  | _ => False
  end.
Proof.
  destruct (ngx_create_pool 4096 1024 ∅) as [[po|] y] eqn:Ec; [|vm_compute in Ec; discriminate].
  assert (Hx : match ngx_create_pool (Y := gmap Z Z) 4096 1024 ∅ with
    | (Some po, y) => match ngx_array_init po 1 24 y with
        | Some (Some a, po, y) => match array_run sample_array_ops {| s_array := a; s_pool := po; s_sys := y; s_mem := fun _ => 0; s_list := []; s_others := []; s_failed := false |} with
            | Some s => s_failed s = false /\ (a_elts (s_array s) =? a_elts a) = false /\ a_size (s_array s) = 24 /\ a_nelts (s_array s) = 7 | None => False end
        | _ => False end
    | _ => False end) by (vm_compute; repeat split).
  rewrite Ec in Hx. destruct (ngx_array_init po 1 24 y) as [[[[a|] po'] y']|] eqn:Ei; [|done|done].
  destruct (array_refines 4096 1024 ∅ y y' po po' (fun _ => 0) 1 24 a sample_array_ops ltac:(lia) ltac:(lia) ltac:(by exists 64) Ec ltac:(lia) ltac:(lia)
    ltac:(repeat (apply Forall_cons; split; [by split; [repeat constructor|vm_compute]|]); constructor) ltac:(vm_compute; done) Ei) as (s & Hs & Hall & Hn & Hr & Ho).
  exists s. rewrite Hs in Hx. destruct Hx as (Hf & Hne & E1 & E2). apply Z.eqb_neq in Hne. rewrite E1, E2 in Hr. split_and!; [done|done|done|]. rewrite Hr, Hall by done. reflexivity.
Defined.

(** An array for no element at all, which is not at the end of its block, stays so: doubling its size gives 0, and the address for the new element is that of the next piece. *)
Lemma array_zero_never_grows :
  match ngx_create_pool (Y := gmap Z Z) 4096 1024 ∅ with
  | (Some po, y) =>
      match ngx_array_init po 0 16 y with
      | Some (Some a, po, y) =>
          match ngx_palloc po 32 y with
          | Some (Some _, po, y) =>
              match ngx_array_push a po y (fun _ => 0) with
              | Some (Some p, a, po, y, _) => a_nalloc a = 0 /\ exists po' y', ngx_palloc po 16 y = Some (Some p, po', y')
              | _ => False
              end
          | _ => False
          end
      | _ => False
      end
  | _ => False
  end.
Proof. vm_compute. split; [done|]. do 2 eexists. reflexivity. Qed.

(** ** Lists *)

Definition part_pieces (l : ngx_list) : list (Z * Z) := map (fun p => (lp_elts p, nl_size l * nl_nalloc l)) (nl_parts l).

(** The addresses of the elements of a list, in the order of the loop of its users. *)
Definition element_addresses (l : ngx_list) : list Z := flat_map (fun p => map (fun i => lp_elts p + nl_size l * i) (seqZ 0 (lp_nelts p))) (nl_parts l).

Section ListOk.
Context {Y : Type} `{!System Y, !SystemLaws Y} (F : gmap Z Z) (psize : Z).

Record list_ok (po : pool) (y : Y) (l : ngx_list) (H : list (Z * Z)) : Prop := {
  lk_holds : holds [] F psize y po (part_pieces l ++ H);
  lk_size : 0 < nl_size l;
  lk_nalloc : 0 < nl_nalloc l /\ nl_size l * nl_nalloc l < 2 ^ 63;
  lk_parts : nl_parts l <> [];
  lk_nelts : Forall (fun p => 0 <= lp_nelts p <= nl_nalloc l) (nl_parts l)
}.

Lemma list_init_ok po (y : Y) H n size r po' y' : holds [] F psize y po H -> 0 < n -> 0 < size -> size * n < 2 ^ 63 -> ngx_list_init po n size y = Some (r, po', y') ->
  match r with None => holds [] F psize y' po' H | Some l => list_ok po' y' l H /\ element_addresses l = [] end.
Proof using SystemLaws0.
  intros Hh Hn Hs HC. unfold ngx_list_init. rewrite (u64_small (n * size)) by nia. destruct (ngx_palloc_held F psize y po H (n * size) Hh ltac:(nia)) as (e & po1 & y1 & -> & Hr).
  cbn. destruct e as [e|]; intros [= <- <- <-]; [|done]. split; [|done]. constructor; cbn; try done; [by rewrite Z.mul_comm|]. repeat constructor; cbn; lia.
Qed.

Lemma list_grow_ok po (y : Y) l H : list_ok po y l H ->
  exists r po' y' H', list_grow l po y = Some (r, po', y') /\ H ⊆+ H' /\
    match r with
    | None => list_ok po' y' l H'
    | Some l' => list_ok po' y' l' H' /\ nl_size l' = nl_size l /\ nl_nalloc l' = nl_nalloc l /\ exists e, nl_parts l' = nl_parts l ++ [{| lp_elts := e; lp_nelts := 0 |}]
    end.
Proof using SystemLaws0.
  intros [K1 K2 [K3 K3'] K4 K5]. unfold list_grow. destruct (ngx_palloc_held F psize y po _ 24 K1 ltac:(lia)) as (p & po1 & y1 & -> & H1). cbn [mbind option_bind].
  destruct p as [p|]; [|eexists _, _, _, H; split_and!; [reflexivity|done|by constructor]]. rewrite (u64_small (nl_nalloc l * nl_size l)) by nia.
  destruct (ngx_palloc_held F psize y1 po1 _ (nl_nalloc l * nl_size l) H1 ltac:(nia)) as (e & po2 & y2 & -> & H2). cbn [mbind option_bind]. eexists _, _, _, ((p, 24) :: H). split_and!; [reflexivity|by apply submseteq_cons|].
  destruct e as [e|]; cbn.
  - split_and!; [|done|done|by exists e]. constructor; cbn; try done.
    + eapply holds_less; [|exact H2]. unfold part_pieces. cbn. rewrite map_app. cbn. rewrite <- app_assoc. cbn. rewrite (Z.mul_comm (nl_size l)). apply Permutation_submseteq. solve_Permutation.
    + by destruct (nl_parts l).
    + apply Forall_app. split; [done|]. repeat constructor; cbn; lia.
  - constructor; try done. eapply holds_less; [|exact H2]. apply Permutation_submseteq. solve_Permutation.
Qed.

Lemma list_put po (y : Y) l H ps q : list_ok po y l H -> nl_parts l = ps ++ [q] -> lp_nelts q < nl_nalloc l ->
  let l' := {| l with nl_parts := ps ++ [{| q with lp_nelts := lp_nelts q + 1 |}] |} in
  list_ok po y l' H /\ element_addresses l' = element_addresses l ++ [lp_elts q + nl_size l * lp_nelts q] /\
  u64 (lp_elts q + nl_size l * lp_nelts q) = lp_elts q + nl_size l * lp_nelts q /\ u64 (lp_nelts q + 1) = lp_nelts q + 1.
Proof.
  intros [K1 K2 [K3 K3'] K4 K5] Ep Hq l'. rewrite Ep in K5. apply Forall_app in K5 as [Hps Hq0]. rewrite Forall_singleton in Hq0.
  assert (Hin : 0 < lp_elts q /\ lp_elts q + nl_size l * nl_nalloc l < 2 ^ 63).
  { destruct (holds_apart [] F psize y po _ K1) as [_ Hi]. rewrite Forall_forall in Hi. destruct (Hi (lp_elts q, nl_size l * nl_nalloc l)) as (H1 & H2 & H3 & _); [|cbn in *; lia].
    apply elem_of_app. left. unfold part_pieces. rewrite Ep, map_app. apply elem_of_app. right. left. }
  split_and!.
  - constructor; cbn; try done.
    + unfold part_pieces in *. cbn. rewrite Ep in K1. rewrite map_app in *. done.
    + by destruct ps.
    + apply Forall_app. split; [done|]. apply Forall_singleton. cbn. lia.
  - unfold element_addresses. cbn. rewrite Ep, !flat_map_app. cbn. rewrite !app_nil_r, <- app_assoc, seqZ_app, map_app by lia. cbn. by rewrite Z.add_0_l.
  - apply u64_small. nia.
  - apply u64_small. nia.
Qed.

Lemma list_push_ok po (y : Y) l H : list_ok po y l H ->
  exists r l' po' y' H', ngx_list_push l po y = Some (r, l', po', y') /\ H ⊆+ H' /\ list_ok po' y' l' H' /\
    match r with None => l' = l | Some p => nl_size l' = nl_size l /\ element_addresses l' = element_addresses l ++ [p] end.
Proof using SystemLaws0.
  intros Hl. unfold ngx_list_push.
  assert (Hg : exists r po' y' H', (if lp_nelts (last_part l) =? nl_nalloc l then list_grow l po y else Some (Some l, po, y)) = Some (r, po', y') /\ H ⊆+ H' /\
    match r with
    | None => list_ok po' y' l H'
    | Some l' => list_ok po' y' l' H' /\ nl_size l' = nl_size l /\ element_addresses l' = element_addresses l /\ exists ps q, nl_parts l' = ps ++ [q] /\ lp_nelts q < nl_nalloc l'
    end).
  { destruct (Z.eqb_spec (lp_nelts (last_part l)) (nl_nalloc l)) as [E|E].
    - destruct (list_grow_ok po y l H Hl) as (r & po' & y' & H' & Eg & HH & Hr). eexists _, _, _, H'. split; [exact Eg|]. split; [done|]. destruct r as [l'|]; [|done]. destruct Hr as (Hl' & E1 & E2 & e & E3).
      split_and!; [done|done| |eexists _, _; split; [exact E3|]; cbn; destruct (lk_nalloc _ _ _ _ Hl) as [? _]; lia]. unfold element_addresses. rewrite E1, E3, flat_map_app. cbn. by rewrite app_nil_r.
    - eexists _, _, _, H. split; [reflexivity|]. split; [done|]. split; [done|]. split; [done|]. split; [done|]. destruct (exists_last (lk_parts _ _ _ _ Hl)) as (ps & q & Ep). exists ps, q. split; [done|]. unfold last_part in E. rewrite Ep, List.last_last in E.
      pose proof (lk_nelts _ _ _ _ Hl) as Hn. rewrite Ep in Hn. apply Forall_app in Hn as [_ Hn]. rewrite Forall_singleton in Hn. lia. }
  destruct Hg as (r & po' & y' & H' & -> & HH & Hr). cbn [mbind option_bind]. destruct r as [l'|]; [|eexists _, _, _, _, H'; split_and!; [reflexivity|done|done|done]].
  destruct Hr as (Hl' & Es & Ee & ps & q & Ep & Hq). destruct (list_put po' y' l' H' ps q Hl' Ep Hq) as (Hl2 & Ea & E1 & E2). eexists _, _, _, _, H'. split_and!; [reflexivity|done| |].
  - unfold last_part. rewrite Ep, List.last_last, removelast_last, E2. done.
  - unfold last_part. rewrite Ep, List.last_last, removelast_last, E1, E2. by rewrite Ea, Ee.
Qed.

(** No two elements of a list overlap. *)
Lemma elements_apart po (y : Y) l H : list_ok po y l H -> ForallOrdPairs (fun a b => apart a (nl_size l) b (nl_size l)) (element_addresses l).
Proof.
  intros [K1 K2 [K3 K3'] K4 K5]. destruct (holds_apart [] F psize y po _ K1) as [Hap _]. apply (pairs_split _ (large_nodes po)) in Hap as (_ & Hap & _). clear K1 K4. unfold part_pieces, element_addresses in *. set (n := nl_nalloc l) in *. set (s := nl_size l) in *. clearbody n s.
  revert Hap; induction K5 as [|p ps Hp Hps IH]; intros Hap; cbn [flat_map map app] in *; [constructor|]. inversion_clear Hap as [|? ? Hx Hxs].
  assert (Hel : forall ps' a, Forall (fun p => 0 <= lp_nelts p <= n) ps' -> a ∈ flat_map (fun p => map (fun i => lp_elts p + s * i) (seqZ 0 (lp_nelts p))) ps' ->
    exists q, q ∈ ps' /\ lp_elts q <= a /\ a + s <= lp_elts q + s * n).
  { intros ps' a Hn Ha. apply list_elem_of_In, in_flat_map in Ha as (q & Hq & Ha). apply list_elem_of_In in Hq. apply in_map_iff in Ha as (i & <- & Hi). apply list_elem_of_In, elem_of_seqZ in Hi.
    rewrite Forall_forall in Hn. specialize (Hn q Hq). exists q. split_and!; [done|nia|nia]. }
  apply pairs_app.
  - clear - K2.
    assert (Hk : forall (k j : nat) b, ForallOrdPairs (fun a c => apart a s c s) (map (fun i => lp_elts p + s * i) (map (fun i : nat => Z.add (Z.of_nat i) b) (seq j k)))).
    { intros k. induction k as [|k IHk]; intros j b; cbn; [constructor|]. constructor; [|apply IHk]. apply Forall_forall. intros a Ha. rewrite map_map in Ha. apply list_elem_of_In, in_map_iff in Ha as (i & <- & Hi).
      apply in_seq in Hi. unfold apart. nia. }
    apply Hk.
  - by apply IH.
  - intros a b Ha Hb. destruct (Hel [p] a ltac:(by apply Forall_singleton) ltac:(cbn; by rewrite app_nil_r)) as (q & Hq & Ha1 & Ha2). rewrite list_elem_of_singleton in Hq; subst q.
    destruct (Hel ps b Hps Hb) as (q & Hq & Hb1 & Hb2). rewrite Forall_forall in Hx. specialize (Hx (lp_elts q, s * n)). unfold papart, apart in *. cbn in Hx.
    assert (Hin : (lp_elts q, s * n) ∈ map (fun p => (lp_elts p, s * n)) ps ++ H) by (apply elem_of_app; left; apply list_elem_of_In, in_map_iff; exists q; split; [done|by apply list_elem_of_In]).
    specialize (Hx Hin). lia.
Qed.
End ListOk.
