(* ===== verification/HttpRange.v ===== *)
(** * Ranges of a response: the header

    src/nginx-1.4.7/src/http/modules/ngx_http_range_filter_module.c: the filter
    reads the Range header of a request and decides which parts of the body are sent
    ([HttpRangeBody] cuts the body).

    The value of a header is followed by a NUL, so that a pointer into it is the list
    of the bytes that follow with a NUL behind them.  Offsets are signed and wrap at
    64 bits. *)
From S2P Require Import Prelude HttpChars NgxNumber NgxSprintf NgxStrings NgxTime.

(** ** Reading the header *)

Abbreviation NGX_HTTP_RANGE_NOT_SATISFIABLE := 416 (only parsing).

(** [start] and [end] of a range (ngx_http_range_t). *)
Abbreviation range := (Z * Z)%type.

(** [http/modules/ngx_http_range_filter_module.c:287-287] while ( *p == ' ') *)
Fixpoint range_spaces (p : list Z) : list Z :=
  match p with
  | c :: p' => if c =? C! " " then range_spaces p' else p
  | [] => []
  end.

(** [http/modules/ngx_http_range_filter_module.c:294-296] while ( *p >= '0' && *p <= '9') *)
Fixpoint read_offset (n : Z) (p : list Z) : Z * list Z :=
  match p with
  | c :: p' => if is_digit c then read_offset (s64 (n * 10 + c - C! "0")) p' else (n, p)
  | [] => (n, [])
  end.

(** The end of one range, [suffix] and [start] being read.
    [http/modules/ngx_http_range_filter_module.c:316-340] if (suffix) *)
Definition range_end (content_length : Z) (suffix : bool) (start : Z) (p : list Z) : option (range * list Z) :=
  if negb (is_digit (byte p)) then None
  else
    let '(end_, p) := read_offset 0 p in
    let p := range_spaces p in
    if negb (byte p =? C! ",") && negb (byte p =? 0) then None
    else
      let start := if suffix then s64 (content_length - end_) else start in
      let end_ := if suffix then s64 (content_length - 1) else end_ in
      let end_ := if content_length <=? end_ then content_length else s64 (end_ + 1) in
      Some ((start, end_), p).

(** One range, up to the comma or the end of the value; [None] is
    [NGX_HTTP_RANGE_NOT_SATISFIABLE].
    [http/modules/ngx_http_range_filter_module.c:283-340] start = 0 *)
Definition range_one (content_length : Z) (p : list Z) : option (range * list Z) :=
  let p := range_spaces p in
  if negb (byte p =? C! "-") then
    if negb (is_digit (byte p)) then None
    else
      let '(start, p) := read_offset 0 p in
      let p := range_spaces p in
      if negb (byte p =? C! "-") then None
      else
        let p := range_spaces (tl p) in
        if (byte p =? C! ",") || (byte p =? 0) then Some ((start, content_length), p)
        else range_end content_length false start p
  else range_end content_length true 0 (tl p).

(** The loop over the ranges; [found] are the ranges so far and [size] is their sum.
    A round takes a byte of the value, so that its length is enough fuel.
    [http/modules/ngx_http_range_filter_module.c:282-373] for ( ;; ) *)
Fixpoint range_loop (fuel : nat) (content_length : Z) (p : list Z) (ranges : Z) (found : list range) (size : Z) : Z * list range :=
  match fuel with
  | O => (NGX_ERROR, found)
  | S fuel =>
      match range_one content_length p with
      | None => (NGX_HTTP_RANGE_NOT_SATISFIABLE, found)
      | Some ((start, end_), p) =>
          let add := start <? end_ in
          let found := if add then found ++ [(start, end_)] else found in
          let size := if add then s64 (size + s64 (end_ - start)) else size in
          if add && (ranges =? 0) then (NGX_DECLINED, found)
          else
            let ranges := if add then u64 (ranges - 1) else ranges in
            if byte p =? C! "," then range_loop fuel content_length (tl p) ranges found size
            else if (length found =? 0)%nat then (NGX_HTTP_RANGE_NOT_SATISFIABLE, found)
            else if content_length <? size then (NGX_DECLINED, found)
            else (NGX_OK, found)
      end
  end.

(** [value] is what follows the unit in the header.
    [http/modules/ngx_http_range_filter_module.c:269-374] ngx_http_range_parse *)
Definition ngx_http_range_parse (value : list Z) (content_length ranges : Z) : Z * list range :=
  range_loop (S (length value)) content_length value ranges [] 0.

(** ** What a header means *)

(** A range as it is written, with its digits and with the spaces that may be around
    them: from one byte to another, from one byte on, or the last bytes. *)
Inductive range_spec : Type :=
| spec_from_to (i j k l : nat) (a b : list Z)
| spec_from (i j k : nat) (a : list Z)
| spec_suffix (i l : nat) (n : list Z).

Definition sp (n : nat) : list Z := repeat (C! " ") n.

Definition spec_text (s : range_spec) : list Z :=
  match s with
  | spec_from_to i j k l a b => sp i ++ a ++ sp j ++ B! "-" ++ sp k ++ b ++ sp l
  | spec_from i j k a => sp i ++ a ++ sp j ++ B! "-" ++ sp k
  | spec_suffix i l n => sp i ++ B! "-" ++ n ++ sp l
  end.

Definition number_ok (ds : list Z) : Prop := ds <> [] /\ Forall dec_digit ds /\ dec_value 0 ds < 2 ^ 63.

Definition spec_ok (s : range_spec) : Prop :=
  match s with
  | spec_from_to _ _ _ _ a b => number_ok a /\ number_ok b
  | spec_from _ _ _ a => number_ok a
  | spec_suffix _ _ n => number_ok n
  end.

(** The bytes of a body of length [L] that are meant. *)
Definition range_of (L : Z) (s : range_spec) : range :=
  match s with
  | spec_from_to _ _ _ _ a b => (dec_value 0 a, Z.min (dec_value 0 b + 1) L)
  | spec_from _ _ _ a => (dec_value 0 a, L)
  | spec_suffix _ _ n => (L - dec_value 0 n, L)
  end.

Fixpoint specs_text (s : range_spec) (specs : list range_spec) : list Z :=
  match specs with
  | [] => spec_text s
  | s' :: specs => spec_text s ++ B! "," ++ specs_text s' specs
  end.

Definition nonempty (r : range) : bool := r.1 <? r.2.
Definition sizes (rs : list range) : Z := sumZ (fun r => r.2 - r.1) rs.

(** The ranges that are not empty are sent, unless there are too many, none, or more
    bytes of them than the body has. *)
Definition range_answer (L max : Z) (specs : list range_spec) : Z * list range :=
  let rs := List.filter nonempty (map (range_of L) specs) in
  if max <? Z.of_nat (length rs) then (NGX_DECLINED, take (S (Z.to_nat max)) rs)
  else if (length rs =? 0)%nat then (NGX_HTTP_RANGE_NOT_SATISFIABLE, rs)
  else if L <? sizes rs then (NGX_DECLINED, rs)
  else (NGX_OK, rs).

Lemma dec_digit_is c : dec_digit c <-> is_digit c = true.
Proof. unfold dec_digit, is_digit. zify_bool. lia. Qed.

Lemma dec_value_pos ds v : 0 <= v -> Forall dec_digit ds -> 0 <= dec_value v ds.
Proof. intros Hv H. unfold dec_value. revert v Hv; induction H as [|c ds Hc H IH]; intros v Hv; cbn; [done|]. apply IH. unfold dec_digit in Hc. lia. Qed.

Lemma range_spaces_ok k p : byte p <> C! " " -> range_spaces (sp k ++ p) = p.
Proof. intros H. induction k as [|k IH]; cbn; [|done]. destruct p as [|c p]; [done|]. cbn in *. by rewrite (proj2 (Z.eqb_neq _ _)). Qed.

Lemma read_offset_ok n ds p : Forall dec_digit ds -> is_digit (byte p) = false -> read_offset (s64 n) (ds ++ p) = (s64 (dec_value n ds), p).
Proof.
  intros H Hp. revert n; induction H as [|c ds Hc H IH]; intros n; cbn [app read_offset].
  - destruct p as [|c p]; [done|]. cbn in *. by rewrite Hp.
  - rewrite (proj1 (dec_digit_is c) Hc). replace (s64 n * 10 + c - C! "0") with (s64 n * 10 + (c - C! "0")) by lia. rewrite s64_step. apply IH.
Qed.

Lemma read_number ds p : number_ok ds -> is_digit (byte p) = false -> read_offset 0 (ds ++ p) = (dec_value 0 ds, p).
Proof. intros (_ & Hd & Hv) Hp. change 0 with (s64 0) at 1. rewrite read_offset_ok by done. pose proof (dec_value_pos ds 0 ltac:(lia) Hd). by rewrite s64_small by lia. Qed.

Lemma number_head ds p : number_ok ds -> is_digit (byte (ds ++ p)) = true /\ byte (ds ++ p) <> C! " " /\ byte (ds ++ p) <> C! "-" /\ byte (ds ++ p) <> C! "," /\ byte (ds ++ p) <> 0.
Proof. intros (Hne & Hd & _). destruct ds as [|c ds]; [done|]. apply Forall_cons in Hd as [Hc _]. cbn. split; [by apply dec_digit_is|]. unfold dec_digit in Hc. split_and!; lia. Qed.

(** What follows a range. *)
Definition at_end (p : list Z) : Prop := byte p = C! "," \/ byte p = 0.

Lemma sp_head k p : is_digit (byte p) = false -> is_digit (byte (sp k ++ p)) = false.
Proof. by destruct k. Qed.

Lemma range_end_ok L suffix start ds l p : 0 <= L < 2 ^ 63 -> number_ok ds -> at_end p ->
  range_end L suffix start (ds ++ sp l ++ p) = Some (if suffix then (L - dec_value 0 ds, L) else (start, Z.min (dec_value 0 ds + 1) L), p).
Proof.
  intros HL Hds Hp. unfold range_end. destruct (number_head ds (sp l ++ p) Hds) as [-> _]. cbn [negb]. assert (Hd : is_digit (byte p) = false) by (destruct Hp as [-> | ->]; done).
  rewrite read_number by (done || by apply sp_head). rewrite range_spaces_ok by (destruct Hp as [-> | ->]; done). assert (negb (byte p =? C! ",") && negb (byte p =? 0) = false) as -> by (destruct Hp as [-> | ->]; done).
  destruct Hds as (_ & Hdig & Hv). pose proof (dec_value_pos ds 0 ltac:(lia) Hdig). destruct suffix.
  - rewrite (s64_small (L - dec_value 0 ds)), (s64_small (L - 1)) by lia. rewrite (proj2 (Z.leb_gt _ _)), s64_small by lia. do 3 f_equal. lia.
  - destruct (Z.leb_spec L (dec_value 0 ds)); [|rewrite s64_small by lia]; do 3 f_equal; lia.
Qed.

Lemma range_one_ok L s p : 0 <= L < 2 ^ 63 -> spec_ok s -> at_end p -> range_one L (spec_text s ++ p) = Some (range_of L s, p).
Proof.
  intros HL Hs Hp. assert (Hpd : is_digit (byte p) = false /\ byte p <> C! " ") by (destruct Hp as [-> | ->]; done). destruct Hpd as [Hpd Hps]. unfold range_one. destruct s as [i j k l a b|i j k a|i l n]; cbn [spec_text spec_ok range_of] in *.
  - destruct Hs as [Ha Hb]. rewrite <- !app_assoc. destruct (number_head a (sp j ++ B! "-" ++ sp k ++ b ++ sp l ++ p) Ha) as (H1 & H2 & H3 & _). rewrite range_spaces_ok by done. rewrite (proj2 (Z.eqb_neq _ _)), H1 by done. cbn [negb].
    rewrite read_number by (done || by apply sp_head). rewrite (range_spaces_ok j) by done. cbn [app byte hd]. change (C! "-" =? C! "-") with true. cbn [negb tl]. destruct (number_head b (sp l ++ p) Hb) as (H4 & H5 & H6 & H7 & H8). rewrite (range_spaces_ok k) by done. rewrite !(proj2 (Z.eqb_neq _ _)) by done. cbn [orb]. by rewrite range_end_ok.
  - rewrite <- !app_assoc. destruct (number_head a (sp j ++ B! "-" ++ sp k ++ p) Hs) as (H1 & H2 & H3 & _). rewrite range_spaces_ok by done. rewrite (proj2 (Z.eqb_neq _ _)), H1 by done. cbn [negb].
    rewrite read_number by (done || by apply sp_head). rewrite (range_spaces_ok j) by done. cbn [app byte hd]. change (C! "-" =? C! "-") with true. cbn [negb tl]. rewrite (range_spaces_ok k) by done. assert ((byte p =? C! ",") || (byte p =? 0) = true) as -> by (destruct Hp as [-> | ->]; done). done.
  - rewrite <- !app_assoc. rewrite range_spaces_ok by done. cbn [app byte hd]. change (C! "-" =? C! "-") with true. cbn [negb tl]. by rewrite range_end_ok.
Qed.

(** ** The loop *)

Lemma sizes_nonneg rs : Forall (fun r => nonempty r = true) rs -> 0 <= sizes rs.
Proof. unfold sizes, nonempty. induction 1 as [|r rs Hr H IH]; cbn [sumZ]; [lia|]. apply Z.ltb_lt in Hr. lia. Qed.

Lemma sizes_app rs rs' : sizes (rs ++ rs') = sizes rs + sizes rs'.
Proof. unfold sizes. induction rs as [|r rs IH]; cbn [app sumZ]; lia. Qed.

Lemma filter_nonempty rs : Forall (fun r => nonempty r = true) (List.filter nonempty rs).
Proof. apply Forall_forall. intros r Hr. apply list_elem_of_In, filter_In in Hr. apply Hr. Qed.

Lemma range_loop_ok L s specs : 0 <= L < 2 ^ 63 -> Forall spec_ok (s :: specs) -> forall fuel max found,
  (length specs < fuel)%nat -> 0 <= max < 2 ^ 64 -> 0 <= sizes found ->
  let rs := List.filter nonempty (map (range_of L) (s :: specs)) in
  sizes found + sizes rs < 2 ^ 63 ->
  range_loop fuel L (specs_text s specs) max found (sizes found) =
  if max <? Z.of_nat (length rs) then (NGX_DECLINED, found ++ take (S (Z.to_nat max)) rs)
  else if (length (found ++ rs) =? 0)%nat then (NGX_HTTP_RANGE_NOT_SATISFIABLE, found ++ rs)
  else if L <? sizes (found ++ rs) then (NGX_DECLINED, found ++ rs)
  else (NGX_OK, found ++ rs).
Proof.
  intros HL. revert s; induction specs as [|s' specs IH]; intros s Hs fuel max found Hf Hmax Hfound rs Hsum; (destruct fuel as [|fuel]; [cbn in Hf; lia|]); cbn [range_loop specs_text];
    (apply Forall_cons in Hs as [Hs1 Hs2]).
  - assert (E : range_one L (spec_text s) = Some (range_of L s, [])) by (rewrite <- (app_nil_r (spec_text s)); apply range_one_ok; [done|done|by right]). rewrite E. cbn [map List.filter] in rs. destruct (range_of L s) as [a b] eqn:Er. unfold nonempty in rs. cbn [fst snd] in rs. change (byte []) with 0. cbn [Z.eqb].
    destruct (Z.ltb_spec a b) as [Hab|Hab]; subst rs; cbn [andb length].
    + cbn [sizes sumZ fst snd] in Hsum. change (Z.of_nat 1) with 1. destruct (Z.eqb_spec max 0) as [->|Hm]; [done|]. rewrite (proj2 (Z.ltb_ge max 1)) by lia. rewrite (s64_small (b - a)), s64_small by (unfold sizes in *; cbn in *; lia).
      assert (sizes (found ++ [(a, b)]) = sizes found + (b - a)) as -> by (rewrite sizes_app; unfold sizes; cbn; lia). done.
    + rewrite (proj2 (Z.ltb_ge max (Z.of_nat 0))) by lia. by rewrite app_nil_r.
  - assert (E : range_one L (spec_text s ++ B! "," ++ specs_text s' specs) = Some (range_of L s, B! "," ++ specs_text s' specs)) by (apply range_one_ok; [done|done|by left]). rewrite E.
    specialize (IH s' Hs2 fuel). cbv zeta in IH. set (rs' := List.filter nonempty (map (range_of L) (s' :: specs))) in *.
    destruct (range_of L s) as [a b] eqn:Er. assert (Ers0 : rs = if a <? b then (a, b) :: rs' else rs') by (unfold rs; rewrite map_cons; cbn [List.filter]; by rewrite Er). clearbody rs. subst rs. cbn [app byte hd tl]. change (C! "," =? C! ",") with true. cbv iota. pose proof (sizes_nonneg rs' (filter_nonempty _)) as Hrs'.
    destruct (Z.ltb_spec a b) as [Hab|Hab]; cbn [andb].
    + assert (Esz : sizes ((a, b) :: rs') = b - a + sizes rs') by done. rewrite Esz in Hsum. destruct (Z.eqb_spec max 0) as [->|Hm].
      { rewrite (proj2 (Z.ltb_lt _ _)) by (cbn [length]; lia). done. }
      rewrite (s64_small (b - a)), s64_small by lia. unfold u64. rewrite Z.mod_small by lia. assert (Ef : sizes found + (b - a) = sizes (found ++ [(a, b)])) by (rewrite sizes_app; unfold sizes; cbn; lia).
      rewrite Ef. rewrite IH by (rewrite ?sizes_app; unfold sizes in *; cbn in *; lia). cbn [length]. replace (max - 1 <? Z.of_nat (length rs')) with (max <? Z.of_nat (S (length rs'))) by (destruct (Z.ltb_spec max (Z.of_nat (S (length rs')))), (Z.ltb_spec (max - 1) (Z.of_nat (length rs'))); lia || done).
      rewrite <- !app_assoc. cbn [app]. replace (S (Z.to_nat max)) with (S (S (Z.to_nat (max - 1)))) by lia. done.
    + apply IH; [cbn in Hf; lia|done|done|done].
Qed.

Lemma specs_text_length s specs : Forall spec_ok (s :: specs) -> (length specs < S (length (specs_text s specs)))%nat.
Proof. intros _. revert s; induction specs as [|s' specs IH]; intros s; cbn [specs_text length]; [lia|]. specialize (IH s'). rewrite !length_app. cbn [length]. lia. Qed.

(** C19: the parser of the Range header reads every list of ranges, with spaces around the numbers, as the ranges it means: those that are not empty, in their order, or a refusal when there are none, too many, or more bytes of them than the body has; and when it accepts them, each range lies within the body, provided that the numbers and the sum of the sizes do not overflow. *)
Theorem range_parse_correct L max s specs :
  0 <= L < 2 ^ 63 -> 0 <= max < 2 ^ 64 -> Forall spec_ok (s :: specs) -> sizes (List.filter nonempty (map (range_of L) (s :: specs))) < 2 ^ 63 ->
  let '(rc, rs) := ngx_http_range_parse (specs_text s specs) L max in
  (rc, rs) = range_answer L max (s :: specs) /\
  (rc = NGX_OK -> rs <> [] /\ sizes rs <= L /\ Forall (fun r => 0 <= r.1 < r.2 /\ r.2 <= L) rs).
Proof.
  intros HL Hmax Hs Hsum. unfold ngx_http_range_parse. pose proof (range_loop_ok L s specs HL Hs (S (length (specs_text s specs))) max [] ltac:(by apply specs_text_length) Hmax ltac:(cbn; lia) ltac:(cbn [sizes sumZ]; by rewrite Z.add_0_l)) as El. change (sizes []) with 0 in El. rewrite El. unfold range_answer. cbn [app].
  set (rs := List.filter nonempty (map (range_of L) (s :: specs))) in *. destruct (max <? _); [done|]. destruct (Nat.eqb_spec (length rs) 0) as [E|E]; [done|]. destruct (Z.ltb_spec L (sizes rs)) as [Hbig|Hsmall]; [done|].
  split; [done|]. intros _. split_and!; [by intros ->|lia|]. apply Forall_forall. intros r Hr. pose proof (filter_nonempty (map (range_of L) (s :: specs))) as Hne. fold rs in Hne. assert (Hle : r.2 - r.1 <= L).
  { destruct (list_elem_of_split _ _ Hr) as (l1 & l2 & Esp). rewrite Esp in Hne, Hsmall. apply Forall_app in Hne as [H1 H2]. apply Forall_cons in H2 as [_ H2]. pose proof (sizes_nonneg _ H1). pose proof (sizes_nonneg _ H2). rewrite sizes_app in Hsmall. unfold sizes in *. cbn [sumZ] in Hsmall. lia. }
  rewrite Forall_forall in Hne. specialize (Hne r Hr). apply Z.ltb_lt in Hne. apply list_elem_of_In, filter_In in Hr as [Hr _]. apply in_map_iff in Hr as (x & <- & Hx). apply list_elem_of_In in Hx. rewrite Forall_forall in Hs. specialize (Hs x Hx).
  destruct x as [i j k l a b|i j k a|i l n]; cbn [range_of spec_ok fst snd] in *; [destruct Hs as [(_ & Ha & _) _]|destruct Hs as (_ & Ha & _)|destruct Hs as (_ & Ha & _)]; pose proof (dec_value_pos _ 0 ltac:(lia) Ha); lia.
Qed.

(** The first and the last ten bytes. *)
Lemma range_parse_correct_witness :
  ngx_http_range_parse (B! "0-9, -10") 100 16 = (NGX_OK, [(0, 10); (90, 100)]) /\ Forall (fun r => 0 <= r.1 < r.2 /\ r.2 <= 100) [(0, 10); (90, 100)].
Proof.
  pose proof (range_parse_correct 100 16 (spec_from_to 0 0 0 0 (B! "0") (B! "9")) [spec_suffix 1 0 (B! "10")] ltac:(lia) ltac:(lia)
    ltac:(repeat (apply Forall_cons; split; [cbn; unfold number_ok; split_and!; first [done|repeat (apply Forall_cons; split; [unfold dec_digit; lia|]); constructor]|]); constructor) ltac:(vm_compute; done)) as H.
  change (specs_text (spec_from_to 0 0 0 0 (B! "0") (B! "9")) [spec_suffix 1 0 (B! "10")]) with (B! "0-9, -10") in H. assert (E : ngx_http_range_parse (B! "0-9, -10") 100 16 = (NGX_OK, [(0, 10); (90, 100)])) by (by vm_compute). rewrite E in H. split; [done|]. by apply H.
Defined.

(** Two suffixes whose sizes overflow are accepted although they begin before the body. *)
Lemma range_overflow : ngx_http_range_parse (B! "-200,-9223372036854775700") 100 16 = (NGX_OK, [(-100, 100); (-9223372036854775600, 100)]).
Proof. by vm_compute. Qed.

(** ** The filter of the header *)

Abbreviation NGX_HTTP_VERSION_10 := 1000 (only parsing).
Abbreviation NGX_HTTP_PARTIAL_CONTENT := 206 (only parsing).

(** What the filter reads of a request and of its response; [None] for a header that
    is not there, and -1 for a length or a time that is not known. *)
Record range_request : Type := {
  rq_version : Z; rq_main : bool; rq_allow_ranges : bool; rq_max_ranges : Z;
  rq_range : option (list Z); rq_if_range : option (list Z)
}.

(** What it changes of the response; [rs_boundary] and [rs_texts] are the texts before
    the parts of a body of several ranges. *)
Record range_response : Type := {
  rs_status : Z; rs_length : Z; rs_etag : option (list Z); rs_last_modified : Z;
  rs_type : list Z; rs_charset : list Z; rs_content_range : option (list Z); rs_accept_ranges : bool;
  rs_ranges : list range; rs_boundary : list Z; rs_texts : list (list Z)
}.

Definition CRLF : list Z := [CR; LF].

Definition right {X Y} (x : X + Y) : option Y := match x with inr y => Some y | inl _ => None end.

(** [http/modules/ngx_http_range_filter_module.c:377-418] ngx_http_range_singlepart_header *)
Definition ngx_http_range_singlepart_header (r : range) (h : range_response) : option range_response :=
  text ← right (ngx_sprintf (B! "bytes %O-%O/%O") [VInt r.1; VInt (s64 (r.2 - 1)); VInt (rs_length h)]);
  Some {| h with rs_content_range := Some text; rs_length := s64 (r.2 - r.1) |}.

(** The text before the parts.
    [http/modules/ngx_http_range_filter_module.c:454-481] ctx->boundary_header *)
Definition boundary_header (boundary : Z) (h : range_response) : option (list Z) :=
  if negb (length (rs_charset h) =? 0)%nat then
    right (ngx_sprintf (CRLF ++ B! "--%0muA" ++ CRLF ++ B! "Content-Type: %V; charset=%V" ++ CRLF ++ B! "Content-Range: bytes ") [VInt boundary; VStr (rs_type h); VStr (rs_charset h)])
  else if negb (length (rs_type h) =? 0)%nat then
    right (ngx_sprintf (CRLF ++ B! "--%0muA" ++ CRLF ++ B! "Content-Type: %V" ++ CRLF ++ B! "Content-Range: bytes ") [VInt boundary; VStr (rs_type h)])
  else right (ngx_sprintf (CRLF ++ B! "--%0muA" ++ CRLF ++ B! "Content-Range: bytes ") [VInt boundary]).

(** The texts of the ranges and the length of the body, [len] being that of the last
    boundary.
    [http/modules/ngx_http_range_filter_module.c:509-528] for (i = 0; i < ctx->ranges.nelts; i++) *)
Fixpoint range_texts (header : list Z) (content_length len : Z) (ranges : list range) : option (list (list Z) * Z) :=
  match ranges with
  | [] => Some ([], len)
  | r :: ranges =>
      text ← right (ngx_sprintf (B! "%O-%O/%O" ++ CRLF ++ CRLF) [VInt r.1; VInt (s64 (r.2 - 1)); VInt content_length]);
      '(texts, len) ← range_texts header content_length (u64 (len + Z.of_nat (length header) + Z.of_nat (length text) + u64 (r.2 - r.1))) ranges;
      Some (text :: texts, len)
  end.

Definition NGX_ATOMIC_T_LEN : Z := 20.

(** [boundary] is the next temporary number.
    [http/modules/ngx_http_range_filter_module.c:421-538] ngx_http_range_multipart_header *)
Definition ngx_http_range_multipart_header (boundary : Z) (ranges : list range) (h : range_response) : option range_response :=
  header ← boundary_header boundary h;
  type ← right (ngx_sprintf (B! "multipart/byteranges; boundary=%0muA") [VInt boundary]);
  '(texts, len) ← range_texts header (rs_length h) (2 + 2 + NGX_ATOMIC_T_LEN + 2 + 2) ranges;
  Some {| h with rs_type := type; rs_charset := []; rs_length := len; rs_boundary := header; rs_texts := texts |}.

(** [http/modules/ngx_http_range_filter_module.c:541-572] ngx_http_range_not_satisfiable *)
Definition ngx_http_range_not_satisfiable (h : range_response) : option range_response :=
  text ← right (ngx_sprintf (B! "bytes */%O") [VInt (rs_length h)]);
  Some {| h with rs_status := NGX_HTTP_RANGE_NOT_SATISFIABLE; rs_content_range := Some text; rs_length := -1 |}.

(** The condition on the validator of the response holds, or there is none.
    [http/modules/ngx_http_range_filter_module.c:178-215] if (r->headers_in.if_range) *)
Definition if_range_matches (r : range_request) (h : range_response) : bool :=
  match rq_if_range r with
  | None => true
  | Some v =>
      if (2 <=? length v)%nat && (List.last v 0 =? 34) then
        match rs_etag h with
        | None => false
        | Some etag => (length v =? length etag)%nat && (strncmp v etag (length etag) =? 0)
        end
      else negb (rs_last_modified h =? -1) && (ngx_http_parse_time v =? rs_last_modified h)
  end.

(** The code that is returned when it is not that of the next filter, and the
    response that this one gets.
    [http/modules/ngx_http_range_filter_module.c:146-266] ngx_http_range_header_filter *)
Definition ngx_http_range_header_filter (boundary : Z) (r : range_request) (h : range_response) : option (option Z * range_response) :=
  if (rq_version r <? NGX_HTTP_VERSION_10) || negb (rs_status h =? 200) || negb (rq_main r) || (rs_length h =? -1) || negb (rq_allow_ranges r) then Some (None, h)
  else if rq_max_ranges r =? 0 then Some (None, h)
  else
    let next_filter := Some (None, {| h with rs_accept_ranges := true |}) in
    match rq_range r with
    | None => next_filter
    | Some v =>
        if (length v <? 7)%nat || negb (ngx_strncasecmp v (B! "bytes=") 6 =? 0) then next_filter
        else if negb (if_range_matches r h) then next_filter
        else
          let '(rc, ranges) := ngx_http_range_parse (drop 6 v) (rs_length h) (rq_max_ranges r) in
          if rc =? NGX_OK then
            let h := {| h with rs_status := NGX_HTTP_PARTIAL_CONTENT; rs_ranges := ranges |} in
            match ranges with
            | [range] => h ← ngx_http_range_singlepart_header range h; Some (None, h)
            | _ => h ← ngx_http_range_multipart_header boundary ranges h; Some (None, h)
            end
          else if rc =? NGX_HTTP_RANGE_NOT_SATISFIABLE then
            h ← ngx_http_range_not_satisfiable h; Some (Some NGX_HTTP_RANGE_NOT_SATISFIABLE, h)
          else if rc =? NGX_ERROR then Some (Some NGX_ERROR, h)
          else next_filter
    end.

Example range_header_1 :
  let r := {| rq_version := 1001; rq_main := true; rq_allow_ranges := true; rq_max_ranges := 16; rq_range := Some (B! "bytes=0-9"); rq_if_range := None |} in
  let h := {| rs_status := 200; rs_length := 100; rs_etag := None; rs_last_modified := -1; rs_type := B! "text/plain"; rs_charset := []; rs_content_range := None;
              rs_accept_ranges := false; rs_ranges := []; rs_boundary := []; rs_texts := [] |} in
  match ngx_http_range_header_filter 1 r h with
  | Some (None, h) => (rs_status h, rs_length h, rs_content_range h) = (206, 10, Some (B! "bytes 0-9/100"))
  | _ => False
  end.
Proof. by vm_compute. Qed.
