(* ===== verification/HttpRangeBody.v ===== *)
(** * Ranges of a response: the body

    The body filter of src/nginx-1.4.7/src/http/modules/ngx_http_range_filter_module.c:
    a body with one range is cut as it passes in chains of buffers; one with several
    ranges has to be in one buffer, whose parts are sent with texts between them.

    A buffer is in memory, in a file, or in both; memory and file are functions of
    addresses and of offsets. *)
From S2P Require Import Prelude HttpChars NgxNumber NgxSprintf NgxArray HttpRange.

(** ** Definitions *)

(** [core/ngx_buf.h:20-56] ngx_buf_s *)
Record hbuf : Type := {
  hb_pos : Z; hb_last : Z; hb_file_pos : Z; hb_file_last : Z;
  hb_in_memory : bool; hb_in_file : bool; hb_flush : bool; hb_sync : bool; hb_last_buf : bool
}.

(** [core/ngx_buf.h:126-128] ngx_buf_special *)
Definition ngx_buf_special (b : hbuf) : bool := (hb_flush b || hb_last_buf b || hb_sync b) && negb (hb_in_memory b) && negb (hb_in_file b).

(** [core/ngx_buf.h:134-136] ngx_buf_size *)
Definition ngx_buf_size (b : hbuf) : Z := if hb_in_memory b then hb_last b - hb_pos b else hb_file_last b - hb_file_pos b.

(** A buffer out of the range.
    [http/modules/ngx_http_range_filter_module.c:686-691] http range body skip *)
Definition skip_buf (b : hbuf) : hbuf := {| b with hb_file_pos := if hb_in_file b then hb_file_last b else hb_file_pos b; hb_pos := hb_last b; hb_sync := true |}.

(** [http/modules/ngx_http_range_filter_module.c:696-705] if (range->start > start) *)
Definition cut_front (n : Z) (b : hbuf) : hbuf :=
  {| b with hb_file_pos := if hb_in_file b then hb_file_pos b + n else hb_file_pos b; hb_pos := if hb_in_memory b then hb_pos b + n else hb_pos b |}.

(** [http/modules/ngx_http_range_filter_module.c:709-717] buf->last_buf = 1 *)
Definition cut_back (n : Z) (b : hbuf) : hbuf :=
  {| b with hb_file_last := if hb_in_file b then hb_file_last b - n else hb_file_last b; hb_last := if hb_in_memory b then hb_last b - n else hb_last b; hb_last_buf := true |}.

(** [*ll = cl; ll = &cl->next]: the link after [buf] is still that of the chain when
    no later one is taken, and then the buffers that were skipped follow.
    [http/modules/ngx_http_range_filter_module.c:722-723] *ll = cl *)
Definition link_buf (buf : hbuf) (skipped out : list hbuf) : list hbuf := buf :: match out with [] => skipped | _ => out end.

(** The loop over the chain: the buffers that were skipped, the chain that goes to the
    next filter, and the offset in the body.
    [http/modules/ngx_http_range_filter_module.c:663-726] for (cl = in; cl; cl = cl->next) *)
Fixpoint singlepart_loop (r : range) (offset : Z) (chain : list hbuf) : list hbuf * list hbuf * Z :=
  match chain with
  | [] => ([], [], offset)
  | buf :: chain =>
      let start := offset in
      let last := s64 (offset + ngx_buf_size buf) in
      if ngx_buf_special buf then
        let '(skipped, out, offset) := singlepart_loop r last chain in (skipped, link_buf buf skipped out, offset)
      else if (r.2 <=? start) || (last <=? r.1) then
        let '(skipped, out, offset) := singlepart_loop r last chain in (skip_buf buf :: skipped, out, offset)
      else
        let buf := if start <? r.1 then cut_front (r.1 - start) buf else buf in
        if r.2 <=? last then ([], [cut_back (last - r.2) buf], last)
        else
          let '(skipped, out, offset) := singlepart_loop r last chain in (skipped, link_buf buf skipped out, offset)
  end.

(** What is passed to the next filter, if anything, and the offset.
    [http/modules/ngx_http_range_filter_module.c:650-733] ngx_http_range_singlepart_body *)
Definition ngx_http_range_singlepart_body (r : range) (offset : Z) (chain : list hbuf) : option (list hbuf) * Z :=
  let '(_, out, offset) := singlepart_loop r offset chain in
  (match out with [] => None | _ => Some out end, offset).

(** The offset, or [None] for [NGX_ERROR].
    [http/modules/ngx_http_range_filter_module.c:610-647] ngx_http_range_test_overlapped *)
Definition ngx_http_range_test_overlapped (ranges : list range) (offset : Z) (buf : hbuf) : option Z :=
  if negb (offset =? 0) then None
  else if negb (hb_last_buf buf) && existsb (fun r => (r.1 <? offset) || (s64 (offset + ngx_buf_size buf) <? r.2)) ranges then None
  else Some (ngx_buf_size buf).

(** A buffer of a chain: a text of the filter, or a part of the body. *)
Inductive out_buf : Type := out_text (t : list Z) | out_part (b : hbuf).

(** [http/modules/ngx_http_range_filter_module.c:797-816] the range data *)
Definition range_part (r : range) (b : hbuf) : hbuf :=
  {| hb_in_file := hb_in_file b; hb_in_memory := hb_in_memory b;
     hb_file_pos := if hb_in_file b then hb_file_pos b + r.1 else 0; hb_file_last := if hb_in_file b then hb_file_pos b + r.2 else 0;
     hb_pos := if hb_in_memory b then hb_pos b + r.1 else 0; hb_last := if hb_in_memory b then hb_pos b + r.2 else 0;
     hb_flush := false; hb_sync := false; hb_last_buf := false |}.

(** [http/modules/ngx_http_range_filter_module.c:749-829] for (i = 0; i < ctx->ranges.nelts; i++) *)
Fixpoint multipart_loop (header : list Z) (ranges : list range) (texts : list (list Z)) (buf : hbuf) : list out_buf :=
  match ranges, texts with
  | r :: ranges, t :: texts => out_text header :: out_text t :: out_part (range_part r buf) :: multipart_loop header ranges texts buf
  | _, _ => []
  end.

(** [http/modules/ngx_http_range_filter_module.c:736-863] ngx_http_range_multipart_body *)
Definition ngx_http_range_multipart_body (h : range_response) (buf : hbuf) : list out_buf :=
  multipart_loop (rs_boundary h) (rs_ranges h) (rs_texts h) buf ++
  [out_text (take (2 + 2 + Z.to_nat NGX_ATOMIC_T_LEN) (rs_boundary h) ++ B! "--" ++ [CR; LF])].

(** What the filter passes on for one chain, with the new offset; [None] is
    [NGX_ERROR].  A response without ranges has no context.
    [http/modules/ngx_http_range_filter_module.c:575-607] ngx_http_range_body_filter *)
Definition ngx_http_range_body_filter (h : range_response) (offset : Z) (chain : list hbuf) : option (option (list out_buf) * Z) :=
  match chain with
  | [] => Some (Some [], offset)
  | buf :: _ =>
      match rs_ranges h with
      | [] => Some (Some (map out_part chain), offset)
      | [r] => let '(out, offset) := ngx_http_range_singlepart_body r offset chain in Some (option_map (map out_part) out, offset)
      | _ =>
          if ngx_buf_special buf then Some (Some (map out_part chain), offset)
          else offset ← ngx_http_range_test_overlapped (rs_ranges h) offset buf; Some (Some (ngx_http_range_multipart_body h buf), offset)
      end
  end.

(** ** One range *)

Section Data.
Context (mem file : Z -> Z).

Definition buf_data (b : hbuf) : list Z := if hb_in_memory b then reads mem (hb_pos b) (ngx_buf_size b) else if hb_in_file b then reads file (hb_file_pos b) (ngx_buf_size b) else [].
Definition chain_data (chain : list hbuf) : list Z := flat_map buf_data chain.
Definition chain_size (chain : list hbuf) : Z := sumZ ngx_buf_size chain.

(** A buffer that is in memory and in a file has the same size in both. *)
Definition buf_ok (b : hbuf) : Prop :=
  0 <= ngx_buf_size b /\ (hb_in_memory b = true -> hb_in_file b = true -> hb_file_last b - hb_file_pos b = hb_last b - hb_pos b) /\
  (hb_in_memory b = false -> hb_in_file b = false -> ngx_buf_size b = 0).

(** The bytes of the range among those of a part of the body that begins at [offset]. *)
Definition slice (r : range) (offset : Z) (d : list Z) : list Z := drop (Z.to_nat (r.1 - offset)) (take (Z.to_nat (r.2 - offset)) d).

Lemma reads_length m a k : 0 <= k -> Z.of_nat (length (reads m a k)) = k.
Proof. intros. unfold reads. rewrite length_map, length_seqZ. lia. Qed.

Lemma buf_data_length b : buf_ok b -> Z.of_nat (length (buf_data b)) = ngx_buf_size b.
Proof. intros (H1 & _ & H3). unfold buf_data. destruct (hb_in_memory b); [by apply reads_length|]. destruct (hb_in_file b); [by apply reads_length|]. by rewrite H3. Qed.

Lemma chain_data_length chain : Forall buf_ok chain -> Z.of_nat (length (chain_data chain)) = chain_size chain.
Proof. unfold chain_data, chain_size. induction 1 as [|b chain Hb H IH]; cbn [flat_map sumZ]; [done|]. rewrite length_app, Nat2Z.inj_add, IH. by rewrite buf_data_length. Qed.

Lemma chain_size_nonneg chain : Forall buf_ok chain -> 0 <= chain_size chain.
Proof. intros H. rewrite <- chain_data_length by done. lia. Qed.

Lemma slice_app r offset d d' : r.1 <= r.2 -> slice r offset (d ++ d') = slice r offset d ++ slice r (offset + Z.of_nat (length d)) d'.
Proof.
  intros Hr. unfold slice. rewrite take_app, drop_app, length_take. f_equal. destruct (Nat.le_gt_cases (Z.to_nat (r.2 - offset)) (length d)) as [H|H].
  - replace (Z.to_nat (r.2 - offset) - length d)%nat with 0%nat by lia. replace (Z.to_nat (r.2 - (offset + Z.of_nat (length d)))) with 0%nat by lia. by rewrite !take_0, !drop_nil.
  - f_equal; [lia|]. f_equal. lia.
Qed.

Lemma slice_past r offset d : r.2 <= offset -> slice r offset d = [].
Proof. intros H. unfold slice. replace (Z.to_nat (r.2 - offset)) with 0%nat by lia. by rewrite take_0, drop_nil. Qed.

Lemma slice_before r offset d : offset + Z.of_nat (length d) <= r.1 -> slice r offset d = [].
Proof. intros H. unfold slice. apply drop_ge. rewrite length_take. lia. Qed.

Lemma reads_drop m a k n : 0 <= n <= k -> reads m (a + n) (k - n) = drop (Z.to_nat n) (reads m a k).
Proof.
  intros H. replace k with (n + (k - n)) at 2 by lia. rewrite reads_app by lia. assert (Hl : length (reads m a n) = Z.to_nat n) by (pose proof (reads_length m a n); lia). rewrite drop_app, Hl, Nat.sub_diag, drop_0, drop_ge by lia. done.
Qed.

Lemma reads_take m a k n : 0 <= n <= k -> reads m a (k - n) = take (Z.to_nat (k - n)) (reads m a k).
Proof.
  intros H. replace k with ((k - n) + n) at 3 by lia. rewrite reads_app by lia. assert (Hl : length (reads m a (k - n)) = Z.to_nat (k - n)) by (pose proof (reads_length m a (k - n)); lia). rewrite take_app, Hl, Nat.sub_diag, take_0, app_nil_r, take_ge by lia. done.
Qed.

Lemma cut_front_ok n b : buf_ok b -> 0 <= n <= ngx_buf_size b -> buf_ok (cut_front n b) /\ ngx_buf_size (cut_front n b) = ngx_buf_size b - n /\ buf_data (cut_front n b) = drop (Z.to_nat n) (buf_data b).
Proof.
  intros (H1 & H2 & H3) Hn. assert (Hs : ngx_buf_size (cut_front n b) = ngx_buf_size b - n).
  { unfold ngx_buf_size, cut_front in *. cbn. destruct (hb_in_memory b); [lia|]. destruct (hb_in_file b); [lia|]. specialize (H3 eq_refl eq_refl). lia. }
  split_and!; [|done|].
  - split_and!; [lia| |rewrite Hs; cbn; intros Hm Hf; specialize (H3 Hm Hf); lia]. cbn. intros Hm Hf. rewrite Hm, Hf. specialize (H2 Hm Hf). lia.
  - unfold buf_data. rewrite Hs. cbn. destruct (hb_in_memory b); [by apply reads_drop|]. destruct (hb_in_file b); [by apply reads_drop|]. by rewrite drop_nil.
Qed.

Lemma cut_back_ok n b : buf_ok b -> 0 <= n <= ngx_buf_size b -> buf_data (cut_back n b) = take (Z.to_nat (ngx_buf_size b - n)) (buf_data b).
Proof.
  intros (H1 & H2 & H3) Hn. assert (Hs : ngx_buf_size (cut_back n b) = ngx_buf_size b - n).
  { unfold ngx_buf_size, cut_back in *. cbn. destruct (hb_in_memory b); [lia|]. destruct (hb_in_file b); [lia|]. specialize (H3 eq_refl eq_refl). lia. }
  unfold buf_data. rewrite Hs. cbn. destruct (hb_in_memory b); [by apply reads_take|]. destruct (hb_in_file b); [by apply reads_take|]. by rewrite take_nil.
Qed.

Lemma special_data b : ngx_buf_special b = true -> buf_data b = [].
Proof. unfold ngx_buf_special, buf_data. destruct (hb_in_memory b), (hb_in_file b); rewrite ?andb_false_r; done. Qed.

Lemma skip_data b : buf_data (skip_buf b) = [].
Proof. unfold buf_data, skip_buf, ngx_buf_size. cbn. destruct (hb_in_memory b); [by rewrite Z.sub_diag|]. destruct (hb_in_file b); [by rewrite Z.sub_diag|done]. Qed.

Lemma link_data b sk out : chain_data sk = [] -> chain_data (link_buf b sk out) = buf_data b ++ chain_data out.
Proof. intros Hsk. unfold link_buf. cbn [chain_data flat_map]. f_equal. destruct out; [exact Hsk|done]. Qed.

Lemma singlepart_loop_ok r chain offset : r.1 < r.2 -> Forall buf_ok chain -> 0 <= offset -> offset + chain_size chain < 2 ^ 63 ->
  let '(sk, out, offset') := singlepart_loop r offset chain in
  chain_data sk = [] /\ chain_data out = slice r offset (chain_data chain) /\ offset <= offset' <= offset + chain_size chain /\ (offset' = offset + chain_size chain \/ r.2 <= offset').
Proof.
  intros Hr H. revert offset; induction H as [|b chain Hb H IH]; intros offset Ho Hs; cbn [singlepart_loop].
  { unfold chain_data, chain_size, slice. cbn. rewrite take_nil, drop_nil. split_and!; [done|done|lia|lia|by left; lia]. }
  pose proof (chain_size_nonneg chain H) as Hn. unfold chain_size in Hs. cbn [sumZ] in Hs. fold (chain_size chain) in Hs. pose proof (proj1 Hb) as Hb0. rewrite (s64_small (offset + ngx_buf_size b)) by lia.
  assert (Hsz : chain_size (b :: chain) = ngx_buf_size b + chain_size chain) by done. rewrite Hsz. change (chain_data (b :: chain)) with (buf_data b ++ chain_data chain). rewrite slice_app, buf_data_length by (done || lia).
  specialize (IH (offset + ngx_buf_size b) ltac:(lia) ltac:(lia)). destruct (ngx_buf_special b) eqn:Esp.
  { destruct (singlepart_loop r _ chain) as [[sk out] off']. destruct IH as (Hsk & Hd & Ho' & Hend). rewrite (link_data b sk out Hsk), Hd, (special_data b Esp). unfold slice at 2. rewrite take_nil, drop_nil. split_and!; [done|done|lia|lia|lia]. }
  destruct (Z.leb_spec r.2 offset) as [Hp|Hp]; cbn [orb]; [|destruct (Z.leb_spec (offset + ngx_buf_size b) r.1) as [Hq|Hq]].
  1,2: destruct (singlepart_loop r _ chain) as [[sk out] off']; destruct IH as (Hsk & Hd & Ho' & Hend); rewrite Hd; cbn [chain_data flat_map]; fold (chain_data sk); rewrite skip_data, Hsk; split_and!; [done| |lia|lia|lia]; first [by rewrite (slice_past r offset) by lia|by rewrite (slice_before r offset) by (rewrite buf_data_length by done; lia)].
  assert (Hcut : exists b', (if offset <? r.1 then cut_front (r.1 - offset) b else b) = b' /\ buf_ok b' /\ ngx_buf_size b' = ngx_buf_size b - Z.max 0 (r.1 - offset) /\ buf_data b' = drop (Z.to_nat (r.1 - offset)) (buf_data b)).
  { eexists. split; [reflexivity|]. destruct (Z.ltb_spec offset r.1).
    - destruct (cut_front_ok (r.1 - offset) b Hb ltac:(lia)) as (C1 & C2 & C3). split_and!; [done|lia|done].
    - split_and!; [done|lia|]. replace (Z.to_nat (r.1 - offset)) with 0%nat by lia. done. }
  destruct Hcut as (b' & -> & Hb' & Hs' & Hd'). destruct (Z.leb_spec r.2 (offset + ngx_buf_size b)) as [He|He].
  - rewrite (slice_past r (offset + ngx_buf_size b)), app_nil_r by lia. cbn [chain_data flat_map]. rewrite app_nil_r. split_and!; [done| |lia|lia|by right].
    rewrite cut_back_ok by (done || lia). rewrite Hd', Hs'. unfold slice. rewrite skipn_firstn_comm. f_equal. lia.
  - destruct (singlepart_loop r _ chain) as [[sk out] off']. destruct IH as (Hsk & Hd & Ho' & Hend). rewrite (link_data b' sk out Hsk), Hd, Hd'. split_and!; [done| |lia|lia|lia].
    unfold slice at 2. rewrite (take_ge (buf_data b)); [done|]. pose proof (buf_data_length b Hb). lia.
Qed.

(** All chains of a body. *)
Fixpoint singlepart_run (r : range) (offset : Z) (chains : list (list hbuf)) : list hbuf :=
  match chains with
  | [] => []
  | chain :: chains => let '(out, offset) := ngx_http_range_singlepart_body r offset chain in default [] out ++ singlepart_run r offset chains
  end.

Lemma singlepart_run_ok r chains offset done_ : r.1 < r.2 -> Forall (Forall buf_ok) chains -> 0 <= offset <= done_ -> (offset = done_ \/ r.2 <= offset) -> done_ + chain_size (concat chains) < 2 ^ 63 ->
  chain_data (singlepart_run r offset chains) = slice r done_ (chain_data (concat chains)).
Proof.
  intros Hr H. revert offset done_; induction H as [|chain chains Hc H IH]; intros offset done_ Ho Hd Hs; cbn [singlepart_run concat]; [unfold slice; cbn; by rewrite take_nil, drop_nil|].
  unfold ngx_http_range_singlepart_body. pose proof (chain_size_nonneg chain Hc). pose proof (chain_size_nonneg (concat chains) ltac:(by apply Forall_concat)).
  assert (Hsz : chain_size (chain ++ concat chains) = chain_size chain + chain_size (concat chains)) by (unfold chain_size; clear; induction chain as [|b l IH]; cbn [app sumZ]; lia). cbn [concat] in Hs. rewrite Hsz in Hs.
  pose proof (singlepart_loop_ok r chain offset Hr Hc ltac:(lia) ltac:(lia)) as Hl. destruct (singlepart_loop r offset chain) as [[sk out] off']. destruct Hl as (_ & Hdata & Hoff & Hend).
  assert (Eo : default [] (match out with [] => None | _ => Some out end) = out) by (by destruct out). rewrite Eo. unfold chain_data in *. rewrite !flat_map_app. fold (chain_data chain) (chain_data (concat chains)) in *. rewrite slice_app, chain_data_length by (done || lia). rewrite Hdata. f_equal.
  - destruct Hd as [->|Hd]; [done|]. by rewrite !slice_past by lia.
  - apply (IH off' (done_ + chain_size chain)); lia.
Qed.

(** C20: however a body is cut into buffers and chains, in memory or in a file, the body filter for one range passes on exactly the bytes of the range, in their order: as many as the header has announced when the body is as long as was said. *)
Theorem range_singlepart_exact r chains :
  0 <= r.1 < r.2 -> Forall (Forall buf_ok) chains -> chain_size (concat chains) < 2 ^ 63 ->
  chain_data (singlepart_run r 0 chains) = drop (Z.to_nat r.1) (take (Z.to_nat r.2) (chain_data (concat chains))) /\
  (r.2 <= chain_size (concat chains) -> Z.of_nat (length (chain_data (singlepart_run r 0 chains))) = r.2 - r.1).
Proof.
  intros Hr H Hs. rewrite (singlepart_run_ok r chains 0 0) by (done || lia). unfold slice. rewrite !Z.sub_0_r. split; [done|]. intros Hle. rewrite length_drop, length_take.
  pose proof (chain_data_length (concat chains) ltac:(by apply Forall_concat)). lia.
Qed.
End Data.

(** ** Several ranges *)

Lemma sprintf_boundary boundary fmt args t : 0 <= boundary < 2 ^ 64 -> ngx_sprintf (CRLF ++ B! "--%0muA" ++ fmt) (VInt boundary :: args) = inr t -> (24 <= length t)%nat.
Proof.
  intros Hb. unfold ngx_sprintf, ngx_vslprintf. change (CRLF ++ B! "--%0muA" ++ fmt) with (CR :: LF :: C! "-" :: C! "-" :: C! "%" :: B! "0muA" ++ fmt). cbn [length]. set (fuel := S (length (B! "0muA" ++ fmt))). change (2 ^ 63) with (2 ^ 63 - 4 + 1 + 1 + 1 + 1). remember (2 ^ 63 - 4) as room eqn:Er.
  do 4 (rewrite vslprintf_plain by (discriminate || lia); rewrite Z.add_simpl_r). rewrite vslprintf_directive by lia.
  assert (Ed : exists out, vs_directive room (B! "0muA" ++ fmt) (VInt boundary :: args) = inr (out, fmt, args) /\ length out = 20%nat).
  { unfold vs_directive. cbn [app vs_number]. change (is_digit (C! "0")) with true. change (is_digit (C! "m")) with false. cbv iota. cbn [vs_modifiers]. repeat (match goal with |- context [?a =? ?b] => let v := eval vm_compute in (a =? b) in change (a =? b) with v end; cbv iota).
    unfold vs_conversion. repeat (match goal with |- context [?a =? ?b] => let v := eval vm_compute in (a =? b) in change (a =? b) with v end; cbn [orb]; cbv iota). cbn [vs_int vs_sign vs_max_width vs_put_num]. unfold vs_put_num. cbn [andb vs_zero vs_hex vs_width].
    assert (u64 boundary = boundary) as -> by (unfold u64; by rewrite Z.mod_small). destruct (sprintf_num_fits room boundary (C! "0") 0 (Z.of_nat NGX_INT64_LEN) Hb ltac:(lia)) as (out & temp & E & _ & Ht & Hout). destruct (num_digits_spec boundary 0 Hb) as (ds & E' & _ & _ & Hlen). rewrite Ht in E'. injection E' as ->.
    change (C! "0") with 48 in *. rewrite E. exists out. split; [done|]. rewrite Hout by (rewrite ?length_map; cbn; lia). rewrite length_app, repeat_length, length_map. change (Z.to_nat (Z.of_nat NGX_INT64_LEN)) with 20%nat. lia. }
  destruct Ed as (out & -> & Hlen). destruct (vslprintf _ _ fmt args) as [e|rest]; [done|]. intros [= <-]. cbn [length]. rewrite length_app. lia.
Qed.

Lemma boundary_header_length boundary h t : 0 <= boundary < 2 ^ 64 -> boundary_header boundary h = Some t -> (24 <= length t)%nat.
Proof.
  intros Hb. unfold boundary_header, right. repeat case_match; try done; intros [= <-]; by eapply sprintf_boundary.
Qed.

(** The bytes before one part and those of the part. *)
Definition part_length (header text : list Z) (r : range) : Z := Z.of_nat (length header) + Z.of_nat (length text) + (r.2 - r.1).

Definition parts_length (header : list Z) (ranges : list range) (texts : list (list Z)) : Z := sumZ (fun x => part_length header x.2 x.1) (zip ranges texts).

Lemma u64_add_l a b : u64 (u64 a + b) = u64 (a + b).
Proof. unfold u64. by rewrite Zplus_mod_idemp_l. Qed.

Lemma range_texts_ok header L ranges len texts len' : range_texts header L len ranges = Some (texts, len') -> length texts = length ranges /\ u64 len' = u64 (len + parts_length header ranges texts).
Proof.
  revert len texts len'; induction ranges as [|r ranges IH]; intros len texts len'; cbn [range_texts]; [intros [= <- <-]; split; [done|]; f_equal; unfold parts_length; cbn; lia|].
  destruct (right _) as [text|]; [|done]. cbn [mbind option_bind]. destruct (range_texts _ _ _ ranges) as [[texts0 len0]|] eqn:E; [|done]. cbn [mbind option_bind]. intros [= <- <-]. destruct (IH _ _ _ E) as [H1 H2]. split; [cbn; lia|].
  rewrite H2, u64_add_l. unfold parts_length. cbn [zip zip_with sumZ fst snd]. unfold part_length at 2. set (x := sumZ _ _). unfold u64. rewrite <- Zplus_mod_idemp_l. rewrite (Zplus_mod _ (_ mod 2 ^ 64)). rewrite Zmod_mod, <- Zplus_mod, Zplus_mod_idemp_l. f_equal. lia.
Qed.

Section Parts.
Context (mem file : Z -> Z).

Definition out_data (o : out_buf) : list Z := match o with out_text t => t | out_part b => buf_data mem file b end.

(** The part of a buffer for a range is the bytes of the range. *)
Lemma range_part_data r b : buf_ok b -> hb_in_memory b || hb_in_file b = true -> 0 <= r.1 < r.2 -> r.2 <= ngx_buf_size b ->
  buf_data mem file (range_part r b) = slice r 0 (buf_data mem file b).
Proof.
  intros Hb Hin Hr Hl. assert (Hs : ngx_buf_size (range_part r b) = r.2 - r.1) by (unfold ngx_buf_size; cbn; destruct (hb_in_memory b); [lia|]; cbn in Hin; rewrite Hin; lia).
  assert (Hread : forall m a, reads m (a + r.1) (r.2 - r.1) = slice r 0 (reads m a (ngx_buf_size b))).
  { intros m a. unfold slice. rewrite !Z.sub_0_r. pose proof (reads_take m a (ngx_buf_size b) (ngx_buf_size b - r.2) ltac:(lia)) as E. replace (ngx_buf_size b - (ngx_buf_size b - r.2)) with r.2 in E by lia. rewrite <- E. apply reads_drop. lia. }
  unfold buf_data. rewrite Hs. cbn. destruct (hb_in_memory b); [apply Hread|]. cbn in Hin. rewrite Hin. apply Hread.
Qed.

Lemma multipart_loop_ok header ranges texts b : buf_ok b -> hb_in_memory b || hb_in_file b = true -> length texts = length ranges -> Forall (fun r => 0 <= r.1 < r.2 /\ r.2 <= ngx_buf_size b) ranges ->
  flat_map out_data (multipart_loop header ranges texts b) = concat (zip_with (fun r t => header ++ t ++ slice r 0 (buf_data mem file b)) ranges texts) /\
  Z.of_nat (length (flat_map out_data (multipart_loop header ranges texts b))) = parts_length header ranges texts.
Proof.
  intros Hb Hin. revert texts; induction ranges as [|r ranges IH]; intros [|t texts] Hl Hr; cbn in Hl; [done|done|done|]. apply Forall_cons in Hr as [[Hr1 Hr2] Hr]. destruct (IH texts ltac:(lia) Hr) as [H1 H2].
  cbn [multipart_loop flat_map zip_with concat out_data]. rewrite H1, (range_part_data r b Hb Hin Hr1 Hr2). split; [by rewrite <- !app_assoc|]. rewrite H1 in H2. unfold parts_length in *. cbn [zip zip_with sumZ fst snd]. rewrite !length_app, !Nat2Z.inj_add, H2. unfold part_length.
  assert (Z.of_nat (length (slice r 0 (buf_data mem file b))) = r.2 - r.1); [|lia]. unfold slice. rewrite length_drop, length_take. pose proof (buf_data_length mem file b Hb). lia.
Qed.

(** C21: a body of several ranges, which is in one buffer, is sent as the parts of the ranges, each after its boundary and its text, and a last boundary; and the length that the header has announced is the number of bytes sent. *)
Theorem range_multipart_length boundary ranges h h' b :
  0 <= boundary < 2 ^ 64 -> rs_ranges h = ranges -> ngx_http_range_multipart_header boundary ranges h = Some h' ->
  buf_ok b -> hb_in_memory b || hb_in_file b = true -> Forall (fun r => 0 <= r.1 < r.2 /\ r.2 <= ngx_buf_size b) ranges ->
  let bytes := flat_map out_data (ngx_http_range_multipart_body h' b) in
  bytes = concat (zip_with (fun r t => rs_boundary h' ++ t ++ slice r 0 (buf_data mem file b)) ranges (rs_texts h')) ++ take 24 (rs_boundary h') ++ B! "--" ++ [CR; LF] /\
  u64 (rs_length h') = u64 (Z.of_nat (length bytes)).
Proof.
  intros Hb Hrs Hh Hbuf Hin Hr bytes. unfold ngx_http_range_multipart_header in Hh. destruct (boundary_header boundary h) as [header|] eqn:Eh; [|done]. cbn [mbind option_bind] in Hh. destruct (right _) as [type|]; [|done]. cbn [mbind option_bind] in Hh.
  destruct (range_texts _ _ _ ranges) as [[texts len]|] eqn:Et; [|done]. cbn [mbind option_bind] in Hh. injection Hh as <-. destruct (range_texts_ok _ _ _ _ _ _ Et) as [Hlen Hu].
  pose proof (boundary_header_length _ _ _ Hb Eh) as H24. destruct (multipart_loop_ok header ranges texts b Hbuf Hin Hlen Hr) as [Hd Hdl].
  subst bytes. unfold ngx_http_range_multipart_body. cbn [rs_boundary rs_ranges rs_texts rs_length]. rewrite Hrs, flat_map_app. cbn [flat_map out_data]. rewrite app_nil_r. change (2 + 2 + Z.to_nat NGX_ATOMIC_T_LEN)%nat with 24%nat. split; [by rewrite Hd|].
  rewrite Hu. f_equal. rewrite length_app, Nat2Z.inj_add, Hdl. rewrite !length_app, length_take. cbn [length]. unfold NGX_ATOMIC_T_LEN. lia.
Qed.
End Parts.

(** ** Examples *)

(** Eleven bytes of memory and eleven of a file, in two chains. *)
Definition sample_bytes (a : Z) : Z := C! "a" + a mod 26.
Definition memory_buf (pos last : Z) : hbuf := {| hb_pos := pos; hb_last := last; hb_file_pos := 0; hb_file_last := 0; hb_in_memory := true; hb_in_file := false; hb_flush := false; hb_sync := false; hb_last_buf := false |}.
Definition file_buf (pos last : Z) : hbuf := {| hb_pos := 0; hb_last := 0; hb_file_pos := pos; hb_file_last := last; hb_in_memory := false; hb_in_file := true; hb_flush := false; hb_sync := false; hb_last_buf := false |}.
Definition flush_buf : hbuf := {| hb_pos := 0; hb_last := 0; hb_file_pos := 0; hb_file_last := 0; hb_in_memory := false; hb_in_file := false; hb_flush := true; hb_sync := false; hb_last_buf := false |}.
Definition sample_chains : list (list hbuf) := [[memory_buf 0 5; flush_buf]; [memory_buf 5 11; file_buf 0 4]; [file_buf 4 11]].

Lemma range_singlepart_exact_witness :
  chain_data sample_bytes sample_bytes (singlepart_run (3, 13) 0 sample_chains) = B! "defghijkab".
Proof.
  destruct (range_singlepart_exact sample_bytes sample_bytes (3, 13) sample_chains ltac:(cbn; lia)
    ltac:(repeat (apply Forall_cons; split; [repeat (apply Forall_cons; split; [unfold buf_ok, ngx_buf_size; cbn; split_and!; done || lia|]); constructor|]); constructor) ltac:(vm_compute; done)) as [E _].
  rewrite E. by vm_compute.
Defined.

Definition sample_response : range_response :=
  {| rs_status := 206; rs_length := 100; rs_etag := None; rs_last_modified := -1; rs_type := B! "text/plain"; rs_charset := []; rs_content_range := None;
     rs_accept_ranges := false; rs_ranges := [(0, 2); (90, 100)]; rs_boundary := []; rs_texts := [] |}.

Lemma range_multipart_length_witness :
  match ngx_http_range_multipart_header 7 [(0, 2); (90, 100)] sample_response with
  | Some h => u64 (rs_length h) = u64 (Z.of_nat (length (flat_map (out_data sample_bytes sample_bytes) (ngx_http_range_multipart_body h (memory_buf 0 100))))) /\ rs_length h = 210
  | None => False
  end.
Proof.
  destruct (ngx_http_range_multipart_header 7 [(0, 2); (90, 100)] sample_response) as [h|] eqn:E; [|vm_compute in E; discriminate].
  destruct (range_multipart_length sample_bytes sample_bytes 7 [(0, 2); (90, 100)] sample_response h (memory_buf 0 100) ltac:(lia) eq_refl E ltac:(unfold buf_ok, ngx_buf_size; cbn; split_and!; done || lia) eq_refl
    ltac:(repeat (apply Forall_cons; split; [cbn; lia|]); constructor)) as [_ H]. split; [exact H|]. vm_compute in E. injection E as <-. reflexivity.
Defined.
