(* ===== verification/NgxSlab.v ===== *)
(** * The slab allocator

    src/nginx-1.4.7/src/core/ngx_slab.c: the allocator of memory that workers
    share.  A pool is an array of pages with a descriptor for each.  Blocks of up
    to half a page are chunks of a page that is cut into chunks of one size; the
    pages that have a free chunk of a size are in the list of the slot of this
    size.  A bit for each chunk is in the page itself (small chunks), or in its
    descriptor.  Larger blocks are runs of pages, and free runs are in a list.

    The build is the one for 64-bit pointers and pages of 4096 bytes.  A pointer
    to a descriptor is that of the free list, of a slot or of a page; the two low
    bits of [prev], which hold the type of a page, are a component of their own.
    The fields of the descriptors are functions of these pointers, and the words
    of the bitmaps a function of addresses.  [None] is an access out of the
    descriptors or of the pages, the use of NULL, or the end of the fuel. *)
From stdpp Require Import functions.
From S2P Require Import Prelude.

#[local] Set Warnings "-register-all".

Abbreviation NGX_SLAB_PAGE := 0 (only parsing).
Abbreviation NGX_SLAB_BIG := 1 (only parsing).
Abbreviation NGX_SLAB_EXACT := 2 (only parsing).
Abbreviation NGX_SLAB_SMALL := 3 (only parsing).
Abbreviation NGX_SLAB_PAGE_FREE := 0 (only parsing).
Abbreviation NGX_SLAB_PAGE_BUSY := (2 ^ 64 - 1) (only parsing).
Abbreviation NGX_SLAB_PAGE_START := (2 ^ 63) (only parsing).
Abbreviation NGX_SLAB_SHIFT_MASK := 15 (only parsing).
Abbreviation NGX_SLAB_MAP_MASK := (2 ^ 64 - 2 ^ 32) (only parsing).
Abbreviation NGX_SLAB_MAP_SHIFT := 32 (only parsing).
Abbreviation NGX_SLAB_BUSY := (2 ^ 64 - 1) (only parsing).
Abbreviation PAGESIZE := 4096 (only parsing).
Abbreviation PAGESIZE_SHIFT := 12 (only parsing).
Abbreviation ngx_slab_max_size := 2048 (only parsing).
Abbreviation ngx_slab_exact_size := 64 (only parsing).
Abbreviation ngx_slab_exact_shift := 6 (only parsing).
Abbreviation SIZEOF_PAGE_T := 24 (only parsing).

(** [&pool->free], [&slots\[i\]] and [&pool->pages\[i\]]. *)
Inductive desc : Type := DFree | DSlot (i : Z) | DPage (i : Z).

#[export] Instance desc_eq_dec : EqDecision desc.
Proof. solve_decision. Defined.

(** The pool with its descriptors, and the words of its pages, in which the bitmaps of
    small chunks are kept next to the blocks of the clients.
    [core/ngx_slab.h:18-44] ngx_slab_pool_t *)
Record slab_pool : Type := {
  sp_min_size : Z; sp_min_shift : Z; sp_npages : Z; sp_start : Z; sp_end : Z;
  sp_slab : desc -> Z; sp_next : desc -> option desc; sp_prev : desc -> option desc * Z;
  sp_word : Z -> Z
}.

(** ** Access to the descriptors and bitmaps *)

Definition valid (s : slab_pool) (d : desc) : bool :=
  match d with
  | DFree => true
  | DSlot i => (0 <=? i) && (i <? PAGESIZE_SHIFT - sp_min_shift s)
  | DPage i => (0 <=? i) && (i <? sp_npages s)
  end.

Definition rd {A} (f : slab_pool -> desc -> A) (s : slab_pool) (p : option desc) : option A :=
  match p with Some d => if valid s d then Some (f s d) else None | None => None end.

Definition set_slab (d : desc) (v : Z) (s : slab_pool) : slab_pool := {| s with sp_slab := <[d := v]> (sp_slab s) |}.
Definition set_next (d : desc) (v : option desc) (s : slab_pool) : slab_pool := {| s with sp_next := <[d := v]> (sp_next s) |}.
Definition set_prev (d : desc) (v : option desc * Z) (s : slab_pool) : slab_pool := {| s with sp_prev := <[d := v]> (sp_prev s) |}.
Definition set_word (a v : Z) (s : slab_pool) : slab_pool := {| s with sp_word := <[a := v]> (sp_word s) |}.

Definition wr {A} (set : desc -> A -> slab_pool -> slab_pool) (p : option desc) (v : A) (s : slab_pool) : option slab_pool :=
  match p with Some d => if valid s d then Some (set d v s) else None | None => None end.

(** Words are accessed in the pages only. *)
Definition in_pages (s : slab_pool) (a : Z) : bool := (sp_start s <=? a) && (a + 8 <=? sp_start s + PAGESIZE * sp_npages s).
Definition rd_word (s : slab_pool) (a : Z) : option Z := if in_pages s a then Some (sp_word s a) else None.
Definition wr_word (a v : Z) (s : slab_pool) : option slab_pool := if in_pages s a then Some (set_word a v s) else None.

(** [page - pool->pages]; the difference is not defined for other descriptors. *)
Definition page_index (p : option desc) : option Z := match p with Some (DPage i) => Some i | _ => None end.

(** [(pool->start + ((page - pool->pages) << ngx_pagesize_shift))] *)
Definition page_addr (s : slab_pool) (i : Z) : Z := sp_start s + Z.shiftl i PAGESIZE_SHIFT.

(** [(ngx_slab_page_t * ) page->prev] of a descriptor whose type is 0. *)
Definition untagged (pv : option desc * Z) : option desc := if pv.2 =? 0 then pv.1 else None.

(** ** Pages *)

(** The same for some descriptors: NGX_SLAB_PAGE_BUSY, or all 0.
    [core/ngx_slab.c:649-654] for (p = page + 1; pages; pages--) *)
Fixpoint fill_pages (v : Z) (pages : nat) (i : Z) (s : slab_pool) : option slab_pool :=
  match pages with
  | O => Some s
  | S pages =>
      s ← wr set_slab (Some (DPage i)) v s;
      s ← wr set_next (Some (DPage i)) None s;
      s ← wr set_prev (Some (DPage i)) (None, NGX_SLAB_PAGE) s;
      fill_pages v pages (i + 1) s
  end.

(** [prev->next = page->next; page->next->prev = page->prev;]
    [core/ngx_slab.c:636-638] p->next = page->next *)
Definition unlink_page (page p : option desc) (s : slab_pool) : option slab_pool :=
  nx ← rd sp_next s page;
  s ← wr set_next p nx s;
  nx ← rd sp_next s page;
  pv ← rd sp_prev s page;
  wr set_prev nx pv s.

(** The first [pages] pages of the free run at [page], which has [slab] pages.
    [core/ngx_slab.c:624-657] if (page->slab >= pages) *)
Definition carve (page : option desc) (pages slab : Z) (s : slab_pool) : option (option Z * slab_pool) :=
  i ← page_index page;
  s ← (if pages <? slab then
         let rest := Some (DPage (i + pages)) in
         s ← wr set_slab rest (slab - pages) s;
         nx ← rd sp_next s page;
         s ← wr set_next rest nx s;
         pv ← rd sp_prev s page;
         s ← wr set_prev rest pv s;
         s ← wr set_next (untagged pv) rest s;
         nx ← rd sp_next s page;
         wr set_prev nx (rest, 0) s
       else
         pv ← rd sp_prev s page;
         unlink_page page (untagged pv) s);
  s ← wr set_slab page (Z.lor pages NGX_SLAB_PAGE_START) s;
  s ← wr set_next page None s;
  s ← wr set_prev page (None, NGX_SLAB_PAGE) s;
  s ← fill_pages NGX_SLAB_PAGE_BUSY (Z.to_nat (pages - 1)) (i + 1) s;
  Some (Some i, s).

(** [core/ngx_slab.c:622-658] for (page = pool->free.next; page != &pool->free; page = page->next) *)
Fixpoint alloc_pages_loop (fuel : nat) (pages : Z) (page : option desc) (s : slab_pool) : option (option Z * slab_pool) :=
  match fuel with
  | O => None
  | S fuel =>
      if decide (page = Some DFree) then Some (None, s)
      else
        slab ← rd sp_slab s page;
        if pages <=? slab then carve page pages slab s
        else
          nx ← rd sp_next s page;
          alloc_pages_loop fuel pages nx s
  end.

(** The index of the first of the pages; [None] is NULL.
    [core/ngx_slab.c:617-663] ngx_slab_alloc_pages *)
Definition ngx_slab_alloc_pages (pages : Z) (s : slab_pool) : option (option Z * slab_pool) :=
  alloc_pages_loop (Z.to_nat (sp_npages s + 1)) pages (sp_next s DFree) s.

(** [core/ngx_slab.c:666-690] ngx_slab_free_pages *)
Definition ngx_slab_free_pages (i pages : Z) (s : slab_pool) : option slab_pool :=
  let page := Some (DPage i) in
  s ← wr set_slab page pages s;
  s ← fill_pages 0 (Z.to_nat (pages - 1)) (i + 1) s;
  nx ← rd sp_next s page;
  s ← match nx with
      | Some _ =>
          pv ← rd sp_prev s page;
          unlink_page page pv.1 s
      | None => Some s
      end;
  s ← wr set_prev page (Some DFree, 0) s;
  s ← wr set_next page (sp_next s DFree) s;
  nx ← rd sp_next s page;
  s ← wr set_prev nx (page, 0) s;
  Some (set_next DFree page s).

(** ** Chunks *)

(** [core/ngx_slab.c:180-180] for (s = size - 1; s >>= 1; shift++) *)
Fixpoint shift_loop (fuel : nat) (s shift : Z) : Z :=
  match fuel with
  | O => shift
  | S fuel => let s := Z.shiftr s 1 in if s =? 0 then shift else shift_loop fuel s (shift + 1)
  end.

(** The size class of a size.
    [core/ngx_slab.c:178-187] if (size > pool->min_size) *)
Definition size_shift (s : slab_pool) (size : Z) : Z :=
  if sp_min_size s <? size then shift_loop 64 (size - 1) 1 else sp_min_shift s.

(** The first of the bits from [i] that is not set in [w].
    [core/ngx_slab.c:210-213] for (m = 1, i = 0; m; m <<= 1, i++) *)
Fixpoint first_zero (k : nat) (i w : Z) : option Z :=
  match k with
  | O => None
  | S k => if Z.land w (Z.shiftl 1 i) =? 0 then Some i else first_zero k (i + 1) w
  end.

(** [map]: the words of the bitmap of a page.
    [core/ngx_slab.c:203-204] map *)
Definition map_words (shift : Z) : Z := Z.shiftl 1 (PAGESIZE_SHIFT - shift) / 64.

(** The chunks that the bitmap itself takes.
    [core/ngx_slab.c:334-339] n *)
Definition map_chunks (shift : Z) : Z :=
  let n := Z.shiftl 1 (PAGESIZE_SHIFT - shift) / 8 / Z.shiftl 1 shift in if n =? 0 then 1 else n.

(** Is a word from [n] on not full?
    [core/ngx_slab.c:221-227] for (n = n + 1; n < map; n++) *)
Fixpoint free_word (k : nat) (bitmap n : Z) (s : slab_pool) : option bool :=
  match k with
  | O => Some false
  | S k =>
      w ← rd_word s (bitmap + 8 * n);
      if negb (w =? NGX_SLAB_BUSY) then Some true else free_word k bitmap (n + 1) s
  end.

(** A page that has become full leaves its list.
    [core/ngx_slab.c:229-235] prev *)
Definition page_full (page : option desc) (type : Z) (s : slab_pool) : option slab_pool :=
  pv ← rd sp_prev s page;
  s ← unlink_page page pv.1 s;
  s ← wr set_next page None s;
  wr set_prev page (None, type) s.

(** [core/ngx_slab.c:206-243] for (n = 0; n < map; n++) *)
Fixpoint small_words (k : nat) (page : option desc) (shift map bitmap n : Z) (s : slab_pool) : option (option Z * slab_pool) :=
  match k with
  | O => Some (None, s)
  | S k =>
      w ← rd_word s (bitmap + 8 * n);
      match (if negb (w =? NGX_SLAB_BUSY) then first_zero 64 0 w else None) with
      | Some i =>
          let w := Z.lor w (Z.shiftl 1 i) in
          s ← wr_word (bitmap + 8 * n) w s;
          let i := Z.shiftl (n * 64) shift + Z.shiftl i shift in
          s ← (if w =? NGX_SLAB_BUSY then
                 b ← free_word (Z.to_nat (map - (n + 1))) bitmap (n + 1) s;
                 if (b : bool) then Some s else page_full page NGX_SLAB_SMALL s
               else Some s);
          Some (Some (bitmap + i), s)
      | None => small_words k page shift map bitmap (n + 1) s
      end
  end.

(** [core/ngx_slab.c:199-247] do *)
Fixpoint small_pages (fuel : nat) (shift : Z) (page : option desc) (s : slab_pool) : option (option Z * slab_pool) :=
  match fuel with
  | O => None
  | S fuel =>
      i ← page_index page;
      '(p, s) ← small_words (Z.to_nat (map_words shift)) page shift (map_words shift) (page_addr s i) 0 s;
      match p with
      | Some p => Some (Some p, s)
      | None =>
          nx ← rd sp_next s page;
          match nx with None => Some (None, s) | Some _ => small_pages fuel shift nx s end
      end
  end.

(** [core/ngx_slab.c:251-281] do *)
Fixpoint exact_pages (fuel : nat) (shift : Z) (page : option desc) (s : slab_pool) : option (option Z * slab_pool) :=
  match fuel with
  | O => None
  | S fuel =>
      slab ← rd sp_slab s page;
      match (if negb (slab =? NGX_SLAB_BUSY) then first_zero 64 0 slab else None) with
      | Some i =>
          let slab := Z.lor slab (Z.shiftl 1 i) in
          s ← wr set_slab page slab s;
          s ← (if slab =? NGX_SLAB_BUSY then page_full page NGX_SLAB_EXACT s else Some s);
          n ← page_index page;
          Some (Some (page_addr s n + Z.shiftl i shift), s)
      | None =>
          nx ← rd sp_next s page;
          match nx with None => Some (None, s) | Some _ => exact_pages fuel shift nx s end
      end
  end.

(** The bits of the chunks of a page, in the upper half of [slab].
    [core/ngx_slab.c:285-288] mask *)
Definition big_mask (slab : Z) : Z :=
  let n := PAGESIZE_SHIFT - Z.land slab NGX_SLAB_SHIFT_MASK in
  let n := Z.shiftl 1 n in
  let n := u64 (Z.shiftl 1 n) - 1 in
  u64 (Z.shiftl n NGX_SLAB_MAP_SHIFT).

(** The first bit from [i] of the mask that is not set in [slab].
    [core/ngx_slab.c:293-299] for (m = (uintptr_t) 1 << NGX_SLAB_MAP_SHIFT, i = 0; m & mask; m <<= 1, i++) *)
Fixpoint big_zero (k : nat) (i mask slab : Z) : option Z :=
  match k with
  | O => None
  | S k =>
      let m := u64 (Z.shiftl 1 (NGX_SLAB_MAP_SHIFT + i)) in
      if Z.land m mask =? 0 then None
      else if Z.land slab m =? 0 then Some i else big_zero k (i + 1) mask slab
  end.

(** [core/ngx_slab.c:290-323] do *)
Fixpoint big_pages (fuel : nat) (shift mask : Z) (page : option desc) (s : slab_pool) : option (option Z * slab_pool) :=
  match fuel with
  | O => None
  | S fuel =>
      slab ← rd sp_slab s page;
      match (if negb (Z.land slab NGX_SLAB_MAP_MASK =? mask) then big_zero 64 0 mask slab else None) with
      | Some i =>
          let slab := Z.lor slab (Z.shiftl 1 (NGX_SLAB_MAP_SHIFT + i)) in
          s ← wr set_slab page slab s;
          s ← (if Z.land slab NGX_SLAB_MAP_MASK =? mask then page_full page NGX_SLAB_BIG s else Some s);
          n ← page_index page;
          Some (Some (page_addr s n + Z.shiftl i shift), s)
      | None =>
          nx ← rd sp_next s page;
          match nx with None => Some (None, s) | Some _ => big_pages fuel shift mask nx s end
      end
  end.

(** [slots\[slot\].next = page], with a page that has no other chunk in use.
    [core/ngx_slab.c:349-353] page->next = &slots\[slot\] *)
Definition fresh_page (i slot slab type : Z) (s : slab_pool) : option slab_pool :=
  let page := Some (DPage i) in
  s ← wr set_slab page slab s;
  s ← wr set_next page (Some (DSlot slot)) s;
  s ← wr set_prev page (Some (DSlot slot), type) s;
  wr set_next (Some (DSlot slot)) page s.

(** [core/ngx_slab.c:345-347] for (i = 1; i < map; i++) *)
Fixpoint clear_words (k : nat) (bitmap i : Z) (s : slab_pool) : option slab_pool :=
  match k with
  | O => Some s
  | S k => s ← wr_word (bitmap + 8 * i) 0 s; clear_words k bitmap (i + 1) s
  end.

(** A chunk of a new page.
    [core/ngx_slab.c:327-388] page = ngx_slab_alloc_pages(pool, 1) *)
Definition alloc_fresh (slot shift : Z) (s : slab_pool) : option (option Z * slab_pool) :=
  '(page, s) ← ngx_slab_alloc_pages 1 s;
  match page with
  | None => Some (None, s)
  | Some i =>
      if shift <? ngx_slab_exact_shift then
        let bitmap := page_addr s i in
        let n := map_chunks shift in
        s ← wr_word bitmap (Z.shiftl 2 n - 1) s;
        s ← clear_words (Z.to_nat (map_words shift - 1)) bitmap 1 s;
        s ← fresh_page i slot shift NGX_SLAB_SMALL s;
        Some (Some (page_addr s i + Z.shiftl 1 shift * n), s)
      else if shift =? ngx_slab_exact_shift then
        s ← fresh_page i slot 1 NGX_SLAB_EXACT s;
        Some (Some (page_addr s i), s)
      else
        s ← fresh_page i slot (Z.lor (Z.shiftl 1 NGX_SLAB_MAP_SHIFT) shift) NGX_SLAB_BIG s;
        Some (Some (page_addr s i), s)
  end.

(** [core/ngx_slab.c:192-325] if (page->next != page) *)
Definition search_pages (slot shift : Z) (s : slab_pool) : option (option Z * slab_pool) :=
  page ← rd sp_next s (Some (DSlot slot));
  nx ← rd sp_next s page;
  if negb (bool_decide (nx = page)) then
    let fuel := Z.to_nat (sp_npages s + 1) in
    if shift <? ngx_slab_exact_shift then small_pages fuel shift page s
    else if shift =? ngx_slab_exact_shift then exact_pages fuel shift page s
    else
      slab ← rd sp_slab s page;
      big_pages fuel shift (big_mask slab) page s
  else Some (None, s).

(** The address of the block; [None] is NULL.
    [core/ngx_slab.c:152-395] ngx_slab_alloc_locked *)
Definition ngx_slab_alloc_locked (size : Z) (s : slab_pool) : option (option Z * slab_pool) :=
  if ngx_slab_max_size <=? size then
    '(page, s) ← ngx_slab_alloc_pages (Z.shiftr size PAGESIZE_SHIFT + if negb (size mod PAGESIZE =? 0) then 1 else 0) s;
    Some (option_map (page_addr s) page, s)
  else
    let shift := size_shift s size in
    let slot := shift - sp_min_shift s in
    '(p, s) ← search_pages slot shift s;
    match p with
    | Some p => Some (Some p, s)
    | None => alloc_fresh slot shift s
    end.

(** ** Freeing *)

(** What [ngx_slab_free_locked] logs. *)
Inductive freed : Type := Freed | OutsideOfPool | WrongChunk | ChunkAlreadyFree | PageAlreadyFree | WrongPage.

(** A page that was full returns to its list.
    [core/ngx_slab.c:448-456] page->next = slots\[slot\].next *)
Definition relink_page (i slot type : Z) (s : slab_pool) : option slab_pool :=
  let page := Some (DPage i) in
  nx ← rd sp_next s (Some (DSlot slot));
  s ← wr set_next page nx s;
  s ← wr set_next (Some (DSlot slot)) page s;
  s ← wr set_prev page (Some (DSlot slot), type) s;
  nx ← rd sp_next s page;
  wr set_prev nx (page, type) s.

(** Is a word from [n] on not 0?
    [core/ngx_slab.c:473-477] for (n = 1; n < map; n++) *)
Fixpoint used_word (k : nat) (bitmap n : Z) (s : slab_pool) : option bool :=
  match k with
  | O => Some false
  | S k =>
      w ← rd_word s (bitmap + 8 * n);
      if negb (w =? 0) then Some true else used_word k bitmap (n + 1) s
  end.

(** [core/ngx_slab.c:431-484] case NGX_SLAB_SMALL *)
Definition free_small (p i slab : Z) (s : slab_pool) : option (freed * slab_pool) :=
  let shift := Z.land slab NGX_SLAB_SHIFT_MASK in
  let size := Z.shiftl 1 shift in
  if negb (Z.land p (size - 1) =? 0) then Some (WrongChunk, s)
  else
    let n := Z.shiftr (Z.land p (PAGESIZE - 1)) shift in
    let m := Z.shiftl 1 (Z.land n 63) in
    let n := n / 64 in
    let bitmap := Z.ldiff p (PAGESIZE - 1) in
    w ← rd_word s (bitmap + 8 * n);
    if negb (Z.land w m =? 0) then
      nx ← rd sp_next s (Some (DPage i));
      s ← (match nx with None => relink_page i (shift - sp_min_shift s) NGX_SLAB_SMALL s | Some _ => Some s end);
      s ← wr_word (bitmap + 8 * n) (Z.ldiff w m) s;
      let n := map_chunks shift in
      w0 ← rd_word s bitmap;
      if negb (Z.ldiff w0 (Z.shiftl 1 n - 1) =? 0) then Some (Freed, s)
      else
        b ← used_word (Z.to_nat (map_words shift - 1)) bitmap 1 s;
        if (b : bool) then Some (Freed, s)
        else s ← ngx_slab_free_pages i 1 s; Some (Freed, s)
    else Some (ChunkAlreadyFree, s).

(** [core/ngx_slab.c:486-520] case NGX_SLAB_EXACT *)
Definition free_exact (p i slab : Z) (s : slab_pool) : option (freed * slab_pool) :=
  let m := Z.shiftl 1 (Z.shiftr (Z.land p (PAGESIZE - 1)) ngx_slab_exact_shift) in
  if negb (Z.land p (ngx_slab_exact_size - 1) =? 0) then Some (WrongChunk, s)
  else if negb (Z.land slab m =? 0) then
    s ← (if slab =? NGX_SLAB_BUSY then relink_page i (ngx_slab_exact_shift - sp_min_shift s) NGX_SLAB_EXACT s else Some s);
    let slab := Z.ldiff slab m in
    s ← wr set_slab (Some (DPage i)) slab s;
    if negb (slab =? 0) then Some (Freed, s)
    else s ← ngx_slab_free_pages i 1 s; Some (Freed, s)
  else Some (ChunkAlreadyFree, s).

(** [core/ngx_slab.c:522-559] case NGX_SLAB_BIG *)
Definition free_big (p i slab : Z) (s : slab_pool) : option (freed * slab_pool) :=
  let shift := Z.land slab NGX_SLAB_SHIFT_MASK in
  let size := Z.shiftl 1 shift in
  if negb (Z.land p (size - 1) =? 0) then Some (WrongChunk, s)
  else
    let m := Z.shiftl 1 (Z.shiftr (Z.land p (PAGESIZE - 1)) shift + NGX_SLAB_MAP_SHIFT) in
    if negb (Z.land slab m =? 0) then
      nx ← rd sp_next s (Some (DPage i));
      s ← (match nx with None => relink_page i (shift - sp_min_shift s) NGX_SLAB_BIG s | Some _ => Some s end);
      let slab := Z.ldiff slab m in
      s ← wr set_slab (Some (DPage i)) slab s;
      if negb (Z.land slab NGX_SLAB_MAP_MASK =? 0) then Some (Freed, s)
      else s ← ngx_slab_free_pages i 1 s; Some (Freed, s)
    else Some (ChunkAlreadyFree, s).

(** [core/ngx_slab.c:561-586] case NGX_SLAB_PAGE *)
Definition free_page_run (p i slab : Z) (s : slab_pool) : option (freed * slab_pool) :=
  if negb (Z.land p (PAGESIZE - 1) =? 0) then Some (WrongChunk, s)
  else if slab =? NGX_SLAB_PAGE_FREE then Some (PageAlreadyFree, s)
  else if slab =? NGX_SLAB_PAGE_BUSY then Some (WrongPage, s)
  else s ← ngx_slab_free_pages i (Z.ldiff slab NGX_SLAB_PAGE_START) s; Some (Freed, s).

(** [core/ngx_slab.c:409-614] ngx_slab_free_locked *)
Definition ngx_slab_free_locked (p : Z) (s : slab_pool) : option (freed * slab_pool) :=
  if (p <? sp_start s) || (sp_end s <? p) then Some (OutsideOfPool, s)
  else
    let i := Z.shiftr (p - sp_start s) PAGESIZE_SHIFT in
    slab ← rd sp_slab s (Some (DPage i));
    pv ← rd sp_prev s (Some (DPage i));
    let type := pv.2 in
    if type =? NGX_SLAB_SMALL then free_small p i slab s
    else if type =? NGX_SLAB_EXACT then free_exact p i slab s
    else if type =? NGX_SLAB_BIG then free_big p i slab s
    else free_page_run p i slab s.

(** ** Set-up *)

(** [p] is the address after the header of the pool, [end_] the end of its
    memory; [words] is what the memory of the pages holds, which is left as it is.
    [core/ngx_slab.c:72-134] ngx_slab_init *)
Definition ngx_slab_init (words : Z -> Z) (min_shift p end_ : Z) : slab_pool :=
  let size := end_ - p in
  let n := PAGESIZE_SHIFT - min_shift in
  let p := p + n * SIZEOF_PAGE_T in
  let pages := size / (PAGESIZE + SIZEOF_PAGE_T) in
  let start := (p + pages * SIZEOF_PAGE_T + (PAGESIZE - 1)) / PAGESIZE * PAGESIZE in
  let m := pages - (end_ - start) / PAGESIZE in
  let pages := if 0 <? m then pages - m else pages in
  {| sp_min_size := Z.shiftl 1 min_shift; sp_min_shift := min_shift; sp_npages := pages; sp_start := start; sp_end := end_;
     sp_slab := <[DPage 0 := pages]> (fun _ => 0);
     sp_next := <[DFree := Some (DPage 0)]> (<[DPage 0 := Some DFree]>
                  (fun d => match d with DSlot i => Some (DSlot i) | _ => None end));
     sp_prev := <[DPage 0 := (Some DFree, 0)]> (fun _ => (None, 0));
     sp_word := words |}.

(** ** Samples *)

Definition slab_sample : slab_pool := ngx_slab_init (fun _ => 2 ^ 64 - 1) 3 200 (16 * 4096).

(** A sequence of allocations. *)
Fixpoint allocs (sizes : list Z) (s : slab_pool) : option (list (option Z) * slab_pool) :=
  match sizes with
  | [] => Some ([], s)
  | size :: sizes => '(p, s) ← ngx_slab_alloc_locked size s; '(l, s) ← allocs sizes s; Some (p :: l, s)
  end.
Fixpoint frees (l : list Z) (s : slab_pool) : option (list freed * slab_pool) :=
  match l with
  | [] => Some ([], s)
  | p :: l => '(r, s) ← ngx_slab_free_locked p s; '(rs, s) ← frees l s; Some (r :: rs, s)
  end.
