(* ===== verification/NgxSlabInv.v ===== *)
(** * The invariant of a slab pool

    What holds of the descriptors and the bitmaps of a pool between the calls of
    [NgxSlab]: every page is in use as a run or a part of one, free as a run or a
    part of one, or cut into chunks; the free runs and the pages with a free chunk
    are exactly those in their lists. *)
From stdpp Require Import functions.
From S2P Require Import Prelude NgxSlab.

#[local] Set Warnings "-register-all".

(** ** Bits *)

Lemma land_one_bit w i : 0 <= i -> (Z.land w (Z.shiftl 1 i) =? 0) = negb (Z.testbit w i).
Proof.
  intros Hi. rewrite Z.shiftl_1_l. destruct (Z.testbit w i) eqn:E; cbn [negb].
  - apply Z.eqb_neq. intros H. apply (f_equal (fun z => Z.testbit z i)) in H.
    rewrite Z.land_spec, Z.pow2_bits_true, E, Z.bits_0 in H by lia. done.
  - apply Z.eqb_eq. apply Z.bits_inj'. intros k Hk. rewrite Z.land_spec, Z.bits_0.
    destruct (Z.eq_dec k i) as [->|Hne]; [by rewrite E|]. by rewrite Z.pow2_bits_false, andb_false_r by lia.
Qed.

Lemma lor_bit w i k : 0 <= i -> 0 <= k -> Z.testbit (Z.lor w (Z.shiftl 1 i)) k = (k =? i) || Z.testbit w k.
Proof.
  intros Hi Hk. rewrite Z.lor_spec, Z.shiftl_1_l. destruct (Z.eqb_spec k i) as [->|Hne].
  - rewrite Z.pow2_bits_true by lia. by rewrite orb_true_r.
  - by rewrite Z.pow2_bits_false, orb_false_r by lia.
Qed.

Lemma ldiff_bit w i k : 0 <= i -> 0 <= k -> Z.testbit (Z.ldiff w (Z.shiftl 1 i)) k = negb (k =? i) && Z.testbit w k.
Proof.
  intros Hi Hk. rewrite Z.ldiff_spec, Z.shiftl_1_l. destruct (Z.eqb_spec k i) as [->|Hne].
  - rewrite Z.pow2_bits_true by lia. by rewrite andb_false_r.
  - by rewrite Z.pow2_bits_false, andb_true_r by lia.
Qed.

(** A number of [n] bits, by its bits. *)
Lemma bits_bounded w n : 0 <= n -> 0 <= w -> (w < 2 ^ n <-> forall k, n <= k -> Z.testbit w k = false).
Proof.
  intros Hn Hw. split.
  - intros H k Hk. destruct (Z.eq_dec w 0) as [->|Hne]; [apply Z.bits_0|].
    apply Z.bits_above_log2; [done|]. assert (Z.log2 w < n) by (apply Z.log2_lt_pow2; lia). lia.
  - intros H. destruct (Z.lt_ge_cases w (2 ^ n)) as [|Hge]; [done|]. exfalso.
    assert (0 < 2 ^ n) by (apply Z.pow_pos_nonneg; lia).
    assert (n <= Z.log2 w) by (apply Z.log2_le_pow2; lia). specialize (H (Z.log2 w) ltac:(done)).
    rewrite Z.bit_log2 in H by lia. done.
Qed.

Lemma lor_bound w i n : 0 <= i < n -> 0 <= w < 2 ^ n -> 0 <= Z.lor w (Z.shiftl 1 i) < 2 ^ n.
Proof.
  intros Hi [Hw Hb]. assert (H0 : 0 <= Z.lor w (Z.shiftl 1 i)) by (apply Z.lor_nonneg; split; [lia|apply Z.shiftl_nonneg; lia]).
  split; [done|]. apply bits_bounded; [lia|done|]. intros k Hk. rewrite lor_bit by lia.
  rewrite (proj2 (Z.eqb_neq k i)) by lia. apply (proj1 (bits_bounded w n ltac:(lia) Hw) Hb); lia.
Qed.

Lemma ldiff_bound w i n : 0 <= i -> 0 <= n -> 0 <= w < 2 ^ n -> 0 <= Z.ldiff w (Z.shiftl 1 i) < 2 ^ n.
Proof.
  intros Hi Hn [Hw Hb]. assert (H0 : 0 <= Z.ldiff w (Z.shiftl 1 i)) by (apply Z.ldiff_nonneg; lia).
  split; [done|]. apply bits_bounded; [lia|done|]. intros k Hk. rewrite ldiff_bit by lia.
  rewrite (proj1 (bits_bounded w n ltac:(lia) ltac:(lia)) Hb) by lia. by rewrite andb_false_r.
Qed.

(** All bits set. *)
Lemma ones_bits w n : 0 <= n -> 0 <= w < 2 ^ n -> (w = 2 ^ n - 1 <-> forall k, 0 <= k < n -> Z.testbit w k = true).
Proof.
  intros Hn Hw. replace (2 ^ n - 1) with (Z.ones n) by (rewrite Z.ones_equiv; lia). split.
  - intros -> k Hk. by apply Z.ones_spec_low.
  - intros H. apply Z.bits_inj'. intros k Hk. destruct (Z.lt_ge_cases k n).
    + rewrite H, Z.ones_spec_low by lia. done.
    + rewrite Z.ones_spec_high by lia. apply (proj1 (bits_bounded w n ltac:(lia) ltac:(lia))); lia.
Qed.

Lemma first_zero_spec k i w :
  0 <= i ->
  match first_zero k i w with
  | Some j => i <= j < i + Z.of_nat k /\ Z.testbit w j = false
  | None => forall j, i <= j < i + Z.of_nat k -> Z.testbit w j = true
  end.
Proof.
  revert i; induction k as [|k IH]; intros i Hi; cbn [first_zero]; [lia|]. rewrite land_one_bit by done.
  destruct (Z.testbit w i) eqn:E; cbn [negb]; [|split; [lia|done]].
  specialize (IH (i + 1) ltac:(lia)). destruct (first_zero k (i + 1) w); [split; [lia|tauto]|].
  intros j Hj. destruct (Z.eq_dec j i) as [->|]; [done|]. apply IH. lia.
Qed.

(** ** Reading and writing *)

Lemma rd_ok {A} (f : slab_pool -> desc -> A) s d : valid s d = true -> rd f s (Some d) = Some (f s d).
Proof. intros H. unfold rd. by rewrite H. Qed.

Lemma wr_ok {A} (f : desc -> A -> slab_pool -> slab_pool) d v s : valid s d = true -> wr f (Some d) v s = Some (f d v s).
Proof. intros H. unfold wr. by rewrite H. Qed.

Lemma valid_page s i : 0 <= i < sp_npages s -> valid s (DPage i) = true.
Proof. intros H. cbn. apply andb_true_iff. split; zify_bool; lia. Qed.

Lemma valid_slot s i : 0 <= i < 12 - sp_min_shift s -> valid s (DSlot i) = true.
Proof. intros H. cbn. apply andb_true_iff. split; zify_bool; lia. Qed.

(** ** Lists of descriptors *)

(** From [p] the [next] pointers lead over [l] to [h], and back with the type [t]. *)
Fixpoint chain (s : slab_pool) (t : Z) (p : desc) (l : list desc) (h : desc) : Prop :=
  match l with
  | [] => sp_next s p = Some h
  | x :: l => sp_next s p = Some x /\ sp_prev s x = (Some p, t) /\ chain s t x l h
  end.

Lemma last_cons_default {A} (y p : A) l : List.last (y :: l) p = List.last l y.
Proof. revert y p; induction l as [|z l IH]; intros y p; [done|]. change (List.last (z :: l) p = List.last (z :: l) y). by rewrite !IH. Qed.

Lemma chain_frame s s' t p l h :
  chain s t p l h -> (forall d, d ∈ p :: l -> sp_next s' d = sp_next s d) -> (forall d, d ∈ l -> sp_prev s' d = sp_prev s d) ->
  chain s' t p l h.
Proof.
  revert p; induction l as [|x l IH]; intros p H Hn Hp; cbn in *; [by rewrite Hn by left|].
  destruct H as (H1 & H2 & H3). rewrite Hn, Hp by left. split_and!; [done..|]. apply IH; [done|..]; intros d Hd.
  - apply Hn. by right.
  - apply Hp. by right.
Qed.

Lemma chain_app s t p l1 x l2 h :
  chain s t p (l1 ++ x :: l2) h <-> chain s t p l1 x /\ sp_prev s x = (Some (List.last l1 p), t) /\ chain s t x l2 h.
Proof.
  revert p; induction l1 as [|y l1 IH]; intros p; cbn [app chain]; [done|]. rewrite IH.
  rewrite last_cons_default. tauto.
Qed.

(** The same list with another end. *)
Lemma chain_retarget s s' t p l x y :
  chain s t p l x -> NoDup (p :: l) -> (forall d, d ∈ p :: l -> d <> List.last l p -> sp_next s' d = sp_next s d) ->
  sp_next s' (List.last l p) = Some y -> (forall d, d ∈ l -> sp_prev s' d = sp_prev s d) -> chain s' t p l y.
Proof.
  revert p; induction l as [|z l IH]; intros p H Hnd Hn Hl Hp; cbn [chain] in *; [done|].
  destruct H as (H1 & H2 & H3).
  rewrite last_cons_default in *. apply NoDup_cons in Hnd as [Hpz Hnd].
  assert (Hlz : List.last l z ∈ z :: l).
  { clear. destruct l as [|a l _] using rev_ind; [left|]. rewrite last_last. right. apply elem_of_app. right. left. }
  split_and!.
  - rewrite Hn; [done|left|]. intros ->. by apply Hpz.
  - rewrite Hp; [done|left].
  - apply IH; [done..| |done|].
    + intros d Hd Hne. apply Hn; [by right|done].
    + intros d Hd. apply Hp. by right.
Qed.

(** Function updates at a point. *)
Ltac fn := cbn [set_slab set_next set_prev set_word sp_slab sp_next sp_prev sp_word sp_min_size sp_min_shift sp_npages sp_start sp_end];
  unfold insert, fn_insert; repeat case_decide; simplify_eq; try done.

Lemma last_elem {A} (p : A) l : List.last l p ∈ p :: l.
Proof. destruct l as [|a l _] using rev_ind; [left|]. rewrite last_last. right. apply elem_of_app. right. left. Qed.

Lemma hd_elem {A} (h : A) l : hd h l ∈ h :: l.
Proof. destruct l; [left|right; left]. Qed.

(** Taking [x] out of its list. *)
Lemma unlink_ok s t h l1 x l2 :
  chain s t h (l1 ++ x :: l2) h -> NoDup (h :: l1 ++ x :: l2) -> Forall (fun d => valid s d = true) (h :: l1 ++ x :: l2) ->
  let p := List.last l1 h in
  let n := hd h l2 in
  let s' := set_prev n (Some p, t) (set_next p (Some n) s) in
  sp_prev s x = (Some p, t) /\ unlink_page (Some x) (Some p) s = Some s' /\ chain s' t h (l1 ++ l2) h.
Proof.
  intros Hc Hnd Hv p n s'. pose proof (proj1 (chain_app _ _ _ _ _ _ _) Hc) as (H1 & H2 & H3). split; [done|].
  apply NoDup_cons in Hnd as [Hh Hnd]. pose proof Hnd as (Hnd1 & Hd & Hnd2)%NoDup_app.
  apply NoDup_cons in Hnd2 as [Hx Hnd2]. apply Forall_cons in Hv as [Vh [V1 [Vx V2]%Forall_cons]%Forall_app].
  assert (Hxp : p <> x).
  { intros E. pose proof (last_elem h l1) as Hl. unfold p in E. rewrite E in Hl. apply elem_of_cons in Hl as [Hl|Hl].
    - apply Hh. rewrite <- Hl. apply elem_of_app. right. left.
    - apply (Hd x Hl). left. }
  assert (Hnx : sp_next s x = Some n) by (destruct l2; [done|by destruct H3]).
  assert (Vp : valid s p = true).
  { pose proof (last_elem h l1) as Hl. fold p in Hl. apply elem_of_cons in Hl as [->|Hl]; [done|]. rewrite Forall_forall in V1. by apply V1. }
  assert (Vn : valid s n = true) by (unfold n; destruct l2 as [|y l2]; [done|by apply Forall_cons in V2 as [? _]]).
  split.
  - unfold unlink_page. rewrite (rd_ok _ _ _ Vx). cbn [mbind option_bind]. rewrite Hnx, (wr_ok _ _ _ _ Vp). cbn [mbind option_bind].
    rewrite !rd_ok by exact Vx. cbn [mbind option_bind]. replace (sp_next (set_next p (Some n) s) x) with (Some n) by (rewrite <- Hnx; fn).
    change (sp_prev (set_next p (Some n) s) x) with (sp_prev s x). rewrite H2. apply wr_ok. exact Vn.
  - assert (Hhl : h ∉ l1) by (intros E; apply Hh, elem_of_app; by left).
    assert (Hlt : forall y, sp_next s' p = Some y -> (n = h \/ n ∉ l1) -> chain s' t h l1 y).
    { intros y Ey Hn. eapply (chain_retarget s); [exact H1|by constructor| |exact Ey|].
      - intros d _ Hne. fold p in Hne. unfold s'. fn.
      - intros d Hd'. unfold s'. cbn. unfold insert, fn_insert. case_decide as E; [|done]. subst d. destruct Hn as [->|Hn]; done. }
    assert (Esn : sp_next s' p = Some n) by (unfold s'; fn).
    destruct l2 as [|y l2]; cbn [hd] in n.
    + rewrite app_nil_r. apply Hlt; [done|by left].
    + apply chain_app. destruct H3 as (H3 & H4 & H5). apply NoDup_cons in Hnd2 as [Hy Hnd2]. split_and!.
      * apply Hlt; [done|]. right. intros E. apply (Hd y E). right. left.
      * unfold s'. fn.
      * eapply chain_frame; [exact H5|..]; intros d Hd'; unfold s'.
        -- assert (d <> p); [|fn]. intros ->. pose proof (last_elem h l1) as Hl. fold p in Hl. apply elem_of_cons in Hl as [Hl|Hl].
           ++ apply Hh. rewrite <- Hl. apply elem_of_app. right. by right.
           ++ apply (Hd p Hl). by right.
        -- assert (d <> n); [|fn]. intros ->. by apply Hy.
Qed.

(** Putting [x] at the head of a list. *)
Lemma push_ok s s' t h x l :
  chain s t h l h -> NoDup (h :: x :: l) ->
  sp_next s' h = Some x -> sp_next s' x = sp_next s h -> sp_prev s' x = (Some h, t) ->
  (forall d, d ∈ l -> sp_next s' d = sp_next s d /\ sp_prev s' d = if decide (d = hd h l) then (Some x, t) else sp_prev s d) ->
  chain s' t h (x :: l) h.
Proof.
  intros Hc Hnd H1 H2 H3 Hl. cbn [chain]. split_and!; [done..|]. destruct l as [|y l]; cbn [chain hd] in *; [congruence|].
  destruct Hc as (Hc1 & Hc2 & Hc3). rewrite H2. split_and!; [done| |].
  - destruct (Hl y ltac:(left)) as [_ ->]. by rewrite decide_True.
  - apply NoDup_cons in Hnd as [_ [_ [Hy _]%NoDup_cons]%NoDup_cons].
    eapply chain_frame; [exact Hc3|..]; intros d Hd.
    + by destruct (Hl d Hd) as [-> _].
    + destruct (Hl d ltac:(by right)) as [_ ->]. rewrite decide_False; [done|]. by intros ->.
Qed.

(** ** Pages *)

Definition tag (s : slab_pool) (i : Z) : Z := (sp_prev s (DPage i)).2.
Definition slab_at (s : slab_pool) (i : Z) : Z := sp_slab s (DPage i).

(** The type, the number of chunks and the chunks of the bitmap for a size class. *)
Definition type_of (sh : Z) : Z := if sh <? 6 then NGX_SLAB_SMALL else if sh =? 6 then NGX_SLAB_EXACT else NGX_SLAB_BIG.
Definition chunks (sh : Z) : Z := 2 ^ (12 - sh).
Definition reserved (sh : Z) : Z := if sh <? 6 then map_chunks sh else 0.

(** Is the chunk [c] of the page [i] in use? *)
Definition used_bit (s : slab_pool) (i sh c : Z) : bool :=
  if sh <? 6 then Z.testbit (sp_word s (page_addr s i + 8 * (c / 64))) (c mod 64)
  else if sh =? 6 then Z.testbit (slab_at s i) c
  else Z.testbit (slab_at s i) (32 + c).

(** The page [i] is cut into chunks of [2 ^ sh] bytes. *)
Record cut_page (s : slab_pool) (i sh : Z) : Prop := {
  ch_shift : sp_min_shift s <= sh <= 11;
  ch_tag : tag s i = type_of sh;
  ch_small : sh < 6 -> slab_at s i = sh /\ forall k, 0 <= k < map_words sh -> 0 <= sp_word s (page_addr s i + 8 * k) < 2 ^ 64;
  ch_exact : sh = 6 -> 0 <= slab_at s i < 2 ^ 64;
  ch_big : 6 < sh -> Z.land (slab_at s i) 15 = sh /\ 0 <= slab_at s i < 2 ^ (32 + chunks sh);
  ch_reserved c : 0 <= c < reserved sh -> used_bit s i sh c = true
}.

Definition has_free (s : slab_pool) (i sh : Z) : Prop := exists c, 0 <= c < chunks sh /\ used_bit s i sh c = false.

(** The pages after [i] in a run of [k] pages. *)
Definition run (s : slab_pool) (i k v : Z) : Prop :=
  0 < k /\ i + k <= sp_npages s /\ forall j, i < j < i + k -> tag s j = 0 /\ slab_at s j = v.

(** [L] gives the list of each head: the free list and the slots. *)
Definition unlisted (L : desc -> list Z) (i : Z) : Prop := forall h, i ∉ L h.
Definition listed (L : desc -> list Z) (i : Z) (h : desc) : Prop := i ∈ L h /\ forall h', h' <> h -> i ∉ L h'.

Inductive page_kind (s : slab_pool) (L : desc -> list Z) (i : Z) : Prop :=
| pk_inner : tag s i = 0 -> slab_at s i = 0 \/ slab_at s i = NGX_SLAB_PAGE_BUSY -> unlisted L i -> page_kind s L i
| pk_run k :
    tag s i = 0 -> slab_at s i = NGX_SLAB_PAGE_START + k -> run s i k NGX_SLAB_PAGE_BUSY ->
    sp_next s (DPage i) = None -> unlisted L i -> page_kind s L i
| pk_free k : tag s i = 0 -> slab_at s i = k -> run s i k 0 -> listed L i DFree -> page_kind s L i
| pk_chunks sh : cut_page s i sh -> has_free s i sh -> listed L i (DSlot (sh - sp_min_shift s)) -> page_kind s L i
| pk_full sh : cut_page s i sh -> ~ has_free s i sh -> sp_next s (DPage i) = None -> unlisted L i -> page_kind s L i.

(** The heads of the lists and the type of their pages. *)
Definition head (s : slab_pool) (h : desc) : Prop :=
  match h with DFree => True | DSlot m => 0 <= m < 12 - sp_min_shift s | DPage _ => False end.
Definition head_type (s : slab_pool) (h : desc) : Z :=
  match h with DSlot m => type_of (sp_min_shift s + m) | _ => 0 end.

Record slab_params (s : slab_pool) : Prop := {
  pa_shift : 3 <= sp_min_shift s <= 11;
  pa_size : sp_min_size s = 2 ^ sp_min_shift s;
  pa_pages : 0 <= sp_npages s < 2 ^ 48;
  pa_start : 0 <= sp_start s /\ sp_start s mod 4096 = 0;
  pa_end : sp_start s + 4096 * sp_npages s <= sp_end s < 2 ^ 64
}.

Record slab_inv (s : slab_pool) (L : desc -> list Z) : Prop := {
  iv_params : slab_params s;
  iv_list h : head s h -> chain s (head_type s h) h (DPage <$> L h) h /\ NoDup (L h);
  iv_in h i : i ∈ L h -> head s h /\ 0 <= i < sp_npages s;
  iv_page i : 0 <= i < sp_npages s -> page_kind s L i
}.

(** ** Changes to a part of the pages *)

(** [k] pages from [i] that are a run or one page cut into chunks. *)
Definition block (s : slab_pool) (i k : Z) : Prop :=
  (exists v, tag s i = 0 /\ run s i k v /\ (v = NGX_SLAB_PAGE_BUSY /\ slab_at s i = NGX_SLAB_PAGE_START + k \/ v = 0 /\ slab_at s i = k)) \/
  (k = 1 /\ exists sh, cut_page s i sh).

Definition same_params (s s' : slab_pool) : Prop :=
  sp_min_size s' = sp_min_size s /\ sp_min_shift s' = sp_min_shift s /\ sp_npages s' = sp_npages s /\
  sp_start s' = sp_start s /\ sp_end s' = sp_end s.

Lemma type_of_pos sh : 0 < type_of sh.
Proof. unfold type_of. repeat case_match; lia. Qed.

(** The first page of a block is not inside of another. *)
Lemma block_not_inner s i k : sp_npages s < 2 ^ 48 -> 0 <= i -> block s i k -> tag s i = 0 -> slab_at s i <> 0 /\ slab_at s i <> NGX_SLAB_PAGE_BUSY.
Proof.
  intros HN Hi [(v & _ & (Hk & Hb & _) & Hv)|(_ & sh & Hc)] Ht; [lia|].
  pose proof (ch_tag _ _ _ Hc). pose proof (type_of_pos sh). lia.
Qed.

Lemma block_apart s i k j k' :
  sp_npages s < 2 ^ 48 -> 0 <= i -> 0 <= j -> block s i k -> block s j k' -> i <> j -> i + k <= j \/ j + k' <= i.
Proof.
  intros HN Hi Hj B1 B2 Hne. destruct (Z.lt_ge_cases i j).
  - left. destruct (Z.le_gt_cases (i + k) j); [done|]. exfalso.
    destruct B1 as [(v & _ & (Hk & Hb & Hin) & Hv)|(-> & _)]; [|lia]. destruct (Hin j ltac:(lia)) as [Ht Hs].
    destruct (block_not_inner s j k' HN Hj B2 Ht). lia.
  - right. destruct (Z.le_gt_cases (j + k') i); [done|]. exfalso.
    destruct B2 as [(v & _ & (Hk & Hb & Hin) & Hv)|(-> & _)]; [|lia]. destruct (Hin i ltac:(lia)) as [Ht Hs].
    destruct (block_not_inner s i k HN Hi B1 Ht). lia.
Qed.

Definition page_words (s : slab_pool) (j a : Z) : Prop := page_addr s j <= a < page_addr s j + 4096.

(** The page [j] is the same in both pools. *)
Definition same_page (s s' : slab_pool) (L L' : desc -> list Z) (j : Z) : Prop :=
  tag s' j = tag s j /\ slab_at s' j = slab_at s j /\ (sp_next s (DPage j) = None -> sp_next s' (DPage j) = None) /\
  (forall a, page_words s j a -> sp_word s' a = sp_word s a) /\ (forall h, j ∈ L' h <-> j ∈ L h).

(** The type and the bits of the page [j] are the same in both pools. *)
Definition same_data (s s' : slab_pool) (j : Z) : Prop :=
  tag s' j = tag s j /\ slab_at s' j = slab_at s j /\ forall a, page_words s j a -> sp_word s' a = sp_word s a.

Lemma same_page_data s s' L L' j : same_page s s' L L' j -> same_data s s' j.
Proof. intros (H1 & H2 & _ & H4 & _). done. Qed.

Lemma page_addr_eq s i : page_addr s i = sp_start s + 4096 * i.
Proof. unfold page_addr. rewrite Z.shiftl_mul_pow2 by lia. lia. Qed.

Lemma same_params_addr s s' i : same_params s s' -> page_addr s' i = page_addr s i.
Proof. intros (_ & _ & _ & E & _). unfold page_addr. by rewrite E. Qed.

Lemma map_words_bound sh k : 3 <= sh < 6 -> 0 <= k < map_words sh -> 0 <= 8 * k < 4096.
Proof.
  intros Hs Hk. unfold map_words in Hk. assert (sh = 3 \/ sh = 4 \/ sh = 5) as [->|[->| ->]] by lia;
    (match type of Hk with _ <= _ < ?e => let v := eval vm_compute in e in change e with v in Hk end); lia.
Qed.

Lemma chunks_bound sh : 3 <= sh <= 11 -> 2 <= chunks sh <= 512 /\ (6 <= sh -> chunks sh <= 64) /\ (6 < sh -> chunks sh <= 32).
Proof.
  intros H. unfold chunks. assert (2 ^ 1 <= 2 ^ (12 - sh) <= 2 ^ 9) by (split; apply Z.pow_le_mono_r; lia).
  split_and!; [lia|lia| |]; intros; [assert (2 ^ (12 - sh) <= 2 ^ 6) by (apply Z.pow_le_mono_r; lia)|
    assert (2 ^ (12 - sh) <= 2 ^ 5) by (apply Z.pow_le_mono_r; lia)]; lia.
Qed.

Lemma chunks_words sh c : 3 <= sh < 6 -> 0 <= c < chunks sh -> 0 <= c / 64 < map_words sh.
Proof.
  intros Hs Hc. split; [apply Z.div_pos; lia|]. unfold map_words. rewrite Z.shiftl_1_l. fold (chunks sh).
  assert (E : chunks sh = chunks sh / 64 * 64).
  { unfold chunks. assert (sh = 3 \/ sh = 4 \/ sh = 5) as [->|[->| ->]] by lia; reflexivity. }
  apply Z.div_lt_upper_bound; lia.
Qed.

Section SamePage.
Context (s s' : slab_pool) (j : Z).
Hypothesis Hp : same_params s s'.
Hypothesis Hms : 3 <= sp_min_shift s.
Hypothesis Hs : same_data s s' j.

Lemma used_bit_same sh c : sp_min_shift s <= sh -> 0 <= c < chunks sh -> used_bit s' j sh c = used_bit s j sh c.
Proof using Hp Hms Hs.
  intros Hsh Hc. destruct Hs as (_ & Hsl & Hw). unfold used_bit. rewrite (same_params_addr s s' j Hp), Hsl.
  destruct (Z.ltb_spec sh 6); [|done]. rewrite Hw; [done|]. unfold page_words.
  pose proof (chunks_words sh c ltac:(lia) Hc). pose proof (map_words_bound sh (c / 64) ltac:(lia) ltac:(lia)). lia.
Qed.

Lemma reserved_bound sh : 3 <= sh <= 11 -> 0 <= reserved sh <= chunks sh.
Proof.
  intros H. unfold reserved. destruct (Z.ltb_spec sh 6).
  - assert (sh = 3 \/ sh = 4 \/ sh = 5) as [->|[->| ->]] by lia; vm_compute; split; intros; discriminate.
  - pose proof (chunks_bound sh H). lia.
Qed.

Lemma chunked_same sh : cut_page s j sh -> cut_page s' j sh.
Proof using Hp Hms Hs.
  intros [H1 H2 H3 H4 H5 H6]. pose proof Hp as (_ & E & _ & _ & _). pose proof Hs as (Ht & Hsl & Hw). split; rewrite ?Hsl, ?Ht, ?E; try done.
  - intros Hlt. destruct (H3 Hlt) as [Ha Hb]. split; [done|]. intros k Hk. rewrite (same_params_addr s s' j Hp), Hw; [by apply Hb|].
    pose proof (map_words_bound sh k ltac:(lia) Hk). unfold page_words. lia.
  - intros c Hc. pose proof (reserved_bound sh ltac:(lia)). rewrite used_bit_same by lia. by apply H6.
Qed.

Lemma has_free_same sh : sp_min_shift s <= sh -> has_free s' j sh <-> has_free s j sh.
Proof using Hp Hms Hs.
  intros Hsh. split; intros (c & Hc & Hb); exists c; (split; [done|]); [rewrite <- used_bit_same|rewrite used_bit_same]; done.
Qed.
End SamePage.

(** A change of one block keeps the invariant when it does so for the pages of
    the block and for the lists. *)
Lemma inv_update s s' L L' i k :
  slab_inv s L -> block s i k -> 0 <= i -> same_params s s' ->
  (forall j, 0 <= j < sp_npages s -> ~ i <= j < i + k -> same_page s s' L L' j) ->
  (forall j, i <= j < i + k -> page_kind s' L' j) ->
  (forall h, head s h -> chain s' (head_type s h) h (DPage <$> L' h) h /\ NoDup (L' h)) ->
  (forall h j, j ∈ L' h -> head s h /\ 0 <= j < sp_npages s) ->
  slab_inv s' L'.
Proof.
  intros Hinv HB Hi Hp Hout Hin Hl HLin. pose proof Hp as (E1 & E2 & E3 & E4 & E5). destruct (iv_params _ _ Hinv) as [A1 A2 A3 A4 A5].
  assert (Hhead : forall h, head s' h <-> head s h) by (intros [| |]; cbn; rewrite ?E2; done).
  assert (Htype : forall h, head_type s' h = head_type s h) by (intros [| |]; cbn; rewrite ?E2; done).
  split.
  - split; rewrite ?E1, ?E2, ?E3, ?E4, ?E5; done.
  - intros h Hh%Hhead. rewrite Htype. by apply Hl.
  - intros h j Hj. rewrite Hhead, E3. by apply HLin.
  - rewrite E3. intros j Hj. destruct (decide (i <= j < i + k)) as [Hr|Hr]; [by apply Hin|].
    pose proof (Hout j Hj Hr) as Hsame. pose proof Hsame as (Ht & Hsl & Hn & Hw & HL). apply same_page_data in Hsame.
    assert (Hul : unlisted L j -> unlisted L' j) by (intros Hu h Hh%HL; by apply (Hu h)).
    assert (Hli : forall h, listed L j h -> listed L' j h).
    { intros h [Ha Hb]. split; [by apply HL|]. intros h' Hne Hh'%HL. by apply (Hb h'). }
    assert (Hrun : forall m v, run s j m v -> block s j m -> run s' j m v).
    { intros m v (Ha & Hb & Hc) Hbl. destruct (block_apart s i k j m ltac:(lia) Hi ltac:(lia) HB Hbl ltac:(intros ->; apply Hr;
        destruct HB as [(? & _ & (? & _) & _)|(-> & _)]; lia)) as [Hd|Hd];
        (split_and!; [done|by rewrite E3|]); intros x Hx; destruct (Hc x Hx) as [Hc1 Hc2];
        destruct (Hout x ltac:(lia) ltac:(lia)) as (-> & -> & _); done. }
    destruct (iv_page _ _ Hinv j Hj) as [K1 K2 K3|m K1 K2 K3 K4 K5|m K1 K2 K3 K4|sh K1 K2 K3|sh K1 K2 K3 K4].
    + apply pk_inner; rewrite ?Ht, ?Hsl; auto.
    + apply (pk_run _ _ _ m); rewrite ?Ht, ?Hsl; auto. apply Hrun; [done|]. left. eexists. split_and!; [done..|]. by left.
    + apply (pk_free _ _ _ m); rewrite ?Ht, ?Hsl; auto. apply Hrun; [done|]. left. eexists. split_and!; [done..|]. by right.
    + pose proof (ch_shift _ _ _ K1). apply (pk_chunks _ _ _ sh); [eapply (chunked_same s s'); [done|lia|done..]| |rewrite E2; auto].
      apply (has_free_same s s' j Hp ltac:(lia) Hsame); [lia|done].
    + pose proof (ch_shift _ _ _ K1). apply (pk_full _ _ _ sh); [eapply (chunked_same s s'); [done|lia|done..]| |auto|auto].
      rewrite (has_free_same s s' j Hp ltac:(lia) Hsame); [done|lia].
Qed.

(** A list whose descriptors are not touched. *)
Lemma list_frame s s' t h l :
  chain s t h (DPage <$> l) h -> sp_next s' h = sp_next s h ->
  (forall j, j ∈ l -> sp_next s' (DPage j) = sp_next s (DPage j) /\ sp_prev s' (DPage j) = sp_prev s (DPage j)) ->
  chain s' t h (DPage <$> l) h.
Proof.
  intros Hc Hh Hl. eapply chain_frame; [exact Hc|..]; intros d Hd.
  - apply elem_of_cons in Hd as [->|(j & -> & Hj)%list_elem_of_fmap]; [done|]. by apply Hl.
  - apply list_elem_of_fmap in Hd as (j & -> & Hj). by apply Hl.
Qed.
