(* ===== verification/NgxSlabPages.v ===== *)
(** * Pages of a slab pool

    The allocation of runs of pages keeps the invariant, and which blocks of a
    pool are in use. *)
From stdpp Require Import functions.
From S2P Require Import Prelude NgxSlab NgxSlabInv.

#[local] Set Warnings "-register-all".

(** ** Runs of pages *)

(** [s'] differs from [s] in the descriptors of the pages from [i] only. *)
Lemma fill_pages_ok v n i s :
  0 <= i -> i + Z.of_nat n <= sp_npages s ->
  exists s', fill_pages v n i s = Some s' /\ same_params s s' /\ sp_word s' = sp_word s /\
    (forall j, i <= j < i + Z.of_nat n -> slab_at s' j = v /\ sp_next s' (DPage j) = None /\ sp_prev s' (DPage j) = (None, 0)) /\
    (forall d, (forall j, i <= j < i + Z.of_nat n -> d <> DPage j) ->
       sp_slab s' d = sp_slab s d /\ sp_next s' d = sp_next s d /\ sp_prev s' d = sp_prev s d).
Proof.
  revert i s; induction n as [|n IH]; intros i s Hi Hn.
  - exists s. cbn [fill_pages]. split_and!; try done; lia.
  - cbn [fill_pages]. pose proof (valid_page s i ltac:(lia)) as Hv.
    rewrite (wr_ok _ _ _ _ Hv). cbn [mbind option_bind]. rewrite wr_ok by exact Hv. cbn [mbind option_bind].
    rewrite wr_ok by exact Hv. cbn [mbind option_bind]. set (s1 := set_prev _ _ _).
    destruct (IH (i + 1) s1 ltac:(lia) ltac:(cbn; lia)) as (s' & -> & Hp & Hw & Hin & Hout). exists s'. split_and!; [done..| |].
    + intros j Hj. destruct (Z.eq_dec j i) as [->|Hne]; [|apply Hin; lia].
      destruct (Hout (DPage i)) as (H1 & H2 & H3); [intros j Hj'; intros [= ->]; lia|]. unfold slab_at. rewrite H1, H2, H3.
      unfold s1. split_and!; fn.
    + intros d Hd. destruct (Hout d) as (H1 & H2 & H3); [intros j Hj'; apply Hd; lia|]. rewrite H1, H2, H3.
      assert (d <> DPage i) by (apply Hd; lia). unfold s1. split_and!; fn.
Qed.

(** [x] is replaced by [y] in its list. *)
Lemma replace_ok s s' t h l1 x y l2 :
  chain s t h (l1 ++ x :: l2) h -> NoDup (h :: l1 ++ x :: l2) -> y ∉ h :: l1 ++ x :: l2 ->
  sp_next s' (List.last l1 h) = Some y -> sp_next s' y = Some (hd h l2) -> sp_prev s' y = (Some (List.last l1 h), t) ->
  (forall d, d ∈ h :: l1 ++ l2 -> d <> List.last l1 h -> sp_next s' d = sp_next s d) ->
  (forall d, d ∈ l1 ++ l2 -> sp_prev s' d = if decide (d = hd h l2) then (Some y, t) else sp_prev s d) ->
  chain s' t h (l1 ++ y :: l2) h.
Proof.
  intros Hc Hnd Hy H1 H2 H3 Hn Hp. apply chain_app in Hc as (C1 & C2 & C3).
  apply NoDup_cons in Hnd as [Hh Hnd]. apply NoDup_app in Hnd as (N1 & Hd & N2). apply NoDup_cons in N2 as [Hx N2].
  assert (Hh1 : h ∉ l1) by (intros E; apply Hh, elem_of_app; by left).
  apply chain_app. split_and!; [|done|].
  - eapply (chain_retarget s); [exact C1|by constructor| |exact H1|].
    + intros d Hd'. apply Hn. apply elem_of_cons in Hd' as [->|Hd']; [left|right; apply elem_of_app; by left].
    + intros d Hd'. rewrite Hp by (apply elem_of_app; by left). rewrite decide_False; [done|]. intros ->.
      destruct l2 as [|z l2]; [done|]. apply (Hd z Hd'). right. left.
  - destruct l2 as [|z l2]; cbn [hd chain] in *; [done|]. destruct C3 as (_ & _ & C3).
    apply NoDup_cons in N2 as [Hz N2]. split_and!; [done| |].
    + rewrite Hp by (apply elem_of_app; right; left). by rewrite decide_True.
    + eapply chain_frame; [exact C3|..]; intros d Hd'.
      * apply Hn; [right; apply elem_of_app; by right|]. intros ->.
        pose proof (last_elem h l1) as [Hl|Hl]%elem_of_cons; [apply Hh; rewrite <- Hl; apply elem_of_app; right; by right|].
        apply (Hd _ Hl). by right.
      * rewrite Hp by (apply elem_of_app; right; by right). rewrite decide_False; [done|]. by intros ->.
Qed.

Lemma same_params_trans s1 s2 s3 : same_params s1 s2 -> same_params s2 s3 -> same_params s1 s3.
Proof. intros (H1 & H2 & H3 & H4 & H5) (G1 & G2 & G3 & G4 & G5). repeat split; congruence. Qed.

Lemma inner_unlisted s L j :
  slab_inv s L -> 0 <= j < sp_npages s -> tag s j = 0 -> slab_at s j = 0 \/ slab_at s j = NGX_SLAB_PAGE_BUSY -> unlisted L j.
Proof.
  intros Hinv Hj Ht Hv. destruct (iv_params _ _ Hinv) as [_ _ A3 _ _].
  destruct (iv_page _ _ Hinv j Hj) as [_ _ K|m _ K (K1 & K2 & _) _ _|m _ K (K1 & K2 & _) _|sh K _ _|sh K _ _ _]; [done|lia|lia|..];
    pose proof (ch_tag _ _ _ K); pose proof (type_of_pos sh); lia.
Qed.

Lemma free_listed s L i :
  slab_inv s L -> i ∈ L DFree -> 0 <= i < sp_npages s /\ tag s i = 0 /\ run s i (slab_at s i) 0 /\ listed L i DFree.
Proof.
  intros Hinv Hi. destruct (iv_in _ _ Hinv _ _ Hi) as [_ Hr]. split; [done|].
  destruct (iv_page _ _ Hinv i Hr) as [_ _ K|m _ _ _ _ K|m K1 K2 K3 K4|sh _ _ [_ K]|sh _ _ _ K].
  - by apply K in Hi.
  - by apply K in Hi.
  - by subst m.
  - by apply (K DFree) in Hi.
  - by apply K in Hi.
Qed.

(** The descriptors of a list are in the pool and distinct. *)
Lemma list_valid s L h : slab_inv s L -> head s h -> NoDup (h :: (DPage <$> L h)) /\ Forall (fun d => valid s d = true) (h :: (DPage <$> L h)).
Proof.
  intros Hinv Hh. destruct (iv_list _ _ Hinv h Hh) as [_ Hnd]. split.
  - constructor; [|apply NoDup_fmap_2; [by intros ? ? [= ?]|done]]. intros (j & -> & _)%list_elem_of_fmap. done.
  - constructor; [destruct h as [|m|m]; [done|by apply valid_slot|done]|]. apply Forall_forall. intros d (j & -> & Hj)%list_elem_of_fmap.
    apply valid_page. by apply (iv_in _ _ Hinv h j).
Qed.

(** The free list after [pages] of the [n] pages at [i] were taken. *)
Definition carved (f1 : list Z) (i pages n : Z) (f2 : list Z) : list Z :=
  f1 ++ (if pages <? n then [i + pages] else []) ++ f2.

Section Carve.
Context (s : slab_pool) (L : desc -> list Z) (f1 : list Z) (i : Z) (f2 : list Z) (pages : Z).
Hypothesis Hinv : slab_inv s L.
Hypothesis HL : L DFree = f1 ++ i :: f2.
Hypothesis Hpages : 0 < pages <= slab_at s i.
Let n := slab_at s i.
Let p := List.last (DPage <$> f1) DFree.
Let nx := hd DFree (DPage <$> f2).

Lemma carve_run : 0 <= i < sp_npages s /\ tag s i = 0 /\ run s i n 0 /\ listed L i DFree.
Proof using Hinv HL Hpages. apply free_listed; [done|]. rewrite HL. apply elem_of_app. right. left. Qed.

Lemma carve_chain :
  chain s 0 DFree ((DPage <$> f1) ++ DPage i :: (DPage <$> f2)) DFree /\
  NoDup (DFree :: (DPage <$> f1) ++ DPage i :: (DPage <$> f2)) /\
  Forall (fun d => valid s d = true) (DFree :: (DPage <$> f1) ++ DPage i :: (DPage <$> f2)).
Proof using Hinv HL Hpages.
  destruct (iv_list _ _ Hinv DFree I) as [Hc _]. destruct (list_valid s L DFree Hinv I) as [Hnd Hv].
  rewrite HL, fmap_app, fmap_cons in Hc, Hnd, Hv. done.
Qed.

Lemma carve_pred : p = DFree \/ exists j, p = DPage j /\ j ∈ f1.
Proof. pose proof (last_elem DFree (DPage <$> f1)) as [H|(j & H & ?)%list_elem_of_fmap]%elem_of_cons; eauto. Qed.

Lemma carve_succ : nx = DFree \/ exists j, nx = DPage j /\ j ∈ f2.
Proof. pose proof (hd_elem DFree (DPage <$> f2)) as [H|(j & H & ?)%list_elem_of_fmap]%elem_of_cons; eauto. Qed.

Lemma carve_other j : j ∈ f1 ++ f2 -> j <> i /\ tag s j = 0 /\ j ∈ L DFree /\ 0 <= j < sp_npages s.
Proof using Hinv HL Hpages.
  intros Hj. assert (HjL : j ∈ L DFree) by (rewrite HL; rewrite elem_of_app in *; rewrite elem_of_cons; tauto).
  destruct (free_listed s L j Hinv HjL) as (? & ? & _). split_and!; [|tauto|done|lia|lia].
  intros ->. destruct (iv_list _ _ Hinv DFree I) as [_ Hnd]. rewrite HL in Hnd.
  apply NoDup_app in Hnd as (_ & Hd & [Hd' _]%NoDup_cons). apply elem_of_app in Hj as [Hj|Hj]; [apply (Hd i Hj); left|done].
Qed.

Lemma carve_valid : valid s p = true /\ valid s nx = true /\ sp_next s (DPage i) = Some nx /\ sp_prev s (DPage i) = (Some p, 0).
Proof using Hinv HL Hpages.
  destruct carve_chain as (Hc & _ & Hv). apply chain_app in Hc as (_ & Hpv & Hc). split_and!; [..|done].
  - destruct carve_pred as [Ep|(j & Ep & Hj)]; rewrite Ep; [done|]. apply valid_page, carve_other, elem_of_app. by left.
  - destruct carve_succ as [Ep|(j & Ep & Hj)]; rewrite Ep; [done|]. apply valid_page, carve_other, elem_of_app. by right.
  - unfold nx. destruct f2; [done|by destruct Hc].
Qed.

(** What the new links do. *)
Record carve_links (s1 : slab_pool) : Prop := {
  cl_params : same_params s s1;
  cl_word : sp_word s1 = sp_word s;
  cl_chain : chain s1 0 DFree (DPage <$> carved f1 i pages n f2) DFree;
  cl_slab j : slab_at s1 j = if decide (j = i + pages /\ pages < n) then n - pages else slab_at s j;
  cl_tag j : j ∈ carved f1 i pages n f2 -> tag s1 j = 0;
  cl_frame d : d <> DFree -> (forall j, j ∈ carved f1 i pages n f2 -> d <> DPage j) ->
    sp_next s1 d = sp_next s d /\ sp_prev s1 d = sp_prev s d
}.

Lemma carve_whole : n <= pages ->
  exists s1, unlink_page (Some (DPage i)) (Some p) s = Some s1 /\ carve_links s1.
Proof using Hinv HL Hpages.
  intros Hge. destruct carve_chain as (Hc & Hnd & Hv).
  destruct (unlink_ok s 0 DFree (DPage <$> f1) (DPage i) (DPage <$> f2) Hc Hnd Hv) as (_ & Hun & Hch).
  eexists. split; [exact Hun|]. fold p nx. fold p nx in Hch. assert (Ec : carved f1 i pages n f2 = f1 ++ f2).
  { unfold carved. by rewrite (proj2 (Z.ltb_ge pages n)). }
  split; rewrite ?Ec; [done|done|by rewrite fmap_app|..].
  - intros j. rewrite decide_False by lia. done.
  - intros j (_ & Htag & _)%carve_other. unfold tag in *. cbn. unfold insert, fn_insert. by case_decide.
  - intros d Hd Hd'. cbn. unfold insert, fn_insert.
    assert (d <> p) by (destruct carve_pred as [Ep|(j & Ep & Hj)]; rewrite Ep; [done|apply Hd', elem_of_app; by left]).
    assert (d <> nx) by (destruct carve_succ as [Ep|(j & Ep & Hj)]; rewrite Ep; [done|apply Hd', elem_of_app; by right]).
    by rewrite !decide_False by congruence.
Qed.

Lemma carve_split : pages < n ->
  exists s1,
    (s ← wr set_slab (Some (DPage (i + pages))) (n - pages) s;
     nx ← rd sp_next s (Some (DPage i));
     s ← wr set_next (Some (DPage (i + pages))) nx s;
     pv ← rd sp_prev s (Some (DPage i));
     s ← wr set_prev (Some (DPage (i + pages))) pv s;
     s ← wr set_next (untagged pv) (Some (DPage (i + pages))) s;
     nx ← rd sp_next s (Some (DPage i));
     wr set_prev nx (Some (DPage (i + pages)), 0) s) = Some s1 /\ carve_links s1.
Proof using Hinv HL Hpages.
  intros Hlt. destruct carve_chain as (Hc & Hnd & Hv). destruct carve_valid as (Vp & Vn & Hsn & Hsp).
  destruct carve_run as (Hi & _ & (Hk & Hb & Hin) & _). set (r := i + pages).
  assert (Vr : valid s (DPage r) = true) by (apply valid_page; lia). assert (Vi : valid s (DPage i) = true) by (by apply valid_page).
  assert (Hrl : unlisted L r) by (destruct (Hin r ltac:(lia)); eapply inner_unlisted; [done|lia|done|by left]).
  assert (Hrf : forall j, j ∈ f1 ++ f2 -> j <> r) by (intros j (_ & _ & Hj & _)%carve_other ->; by apply (Hrl DFree)).
  assert (Hrp : DPage r <> p) by (destruct carve_pred as [Ep|(j & Ep & Hj)]; rewrite Ep; [done|]; intros [= ->]; apply (Hrf j); [apply elem_of_app; by left|done]).
  assert (Hrn : DPage r <> nx) by (destruct carve_succ as [Ep|(j & Ep & Hj)]; rewrite Ep; [done|]; intros [= ->]; apply (Hrf j); [apply elem_of_app; by right|done]).
  assert (Hip : DPage i <> p) by (destruct carve_pred as [Ep|(j & Ep & Hj)]; rewrite Ep; [done|]; intros [= E]; destruct (carve_other j) as [? _]; [apply elem_of_app; by left|congruence]).
  assert (Hir : DPage i <> DPage r) by (intros [= ?]; lia).
  rewrite (wr_ok _ _ _ _ Vr). cbn [mbind option_bind]. rewrite rd_ok by exact Vi. cbn [mbind option_bind].
  change (sp_next (set_slab (DPage r) (n - pages) s) (DPage i)) with (sp_next s (DPage i)). rewrite Hsn.
  rewrite wr_ok by exact Vr. cbn [mbind option_bind]. rewrite rd_ok by exact Vi. cbn [mbind option_bind].
  change (sp_prev (set_next (DPage r) (Some nx) (set_slab (DPage r) (n - pages) s)) (DPage i)) with (sp_prev s (DPage i)). rewrite Hsp.
  rewrite wr_ok by exact Vr. cbn [mbind option_bind]. change (untagged (Some p, 0)) with (Some p).
  rewrite wr_ok by exact Vp. cbn [mbind option_bind]. rewrite rd_ok by exact Vi. cbn [mbind option_bind]. set (s1 := set_next p _ _).
  replace (sp_next s1 (DPage i)) with (Some nx) by (rewrite <- Hsn; unfold s1; fn).
  rewrite wr_ok by exact Vn. eexists. split; [reflexivity|].
  assert (Ec : carved f1 i pages n f2 = f1 ++ r :: f2) by (unfold carved; by rewrite (proj2 (Z.ltb_lt pages n))).
  split; rewrite ?Ec; [done|done|..].
  - rewrite fmap_app, fmap_cons. eapply (replace_ok s _ 0 DFree _ (DPage i)); [exact Hc|exact Hnd|..]; fold p nx.
    + intros [?|[(j & [= ->] & Hj)%list_elem_of_fmap|[[= ?]|(j & [= ->] & Hj)%list_elem_of_fmap]%elem_of_cons]%elem_of_app]%elem_of_cons;
        [done| |lia|]; apply (Hrf j); auto; apply elem_of_app; auto.
    + unfold s1. fn.
    + unfold s1. fn.
    + unfold s1. fn.
    + intros d Hd Hne. unfold s1. cbn. unfold insert, fn_insert. rewrite !decide_False; [done| |congruence].
      intros <-. apply elem_of_cons in Hd as [|Hd]; [done|]. rewrite <- fmap_app in Hd. apply list_elem_of_fmap in Hd as (j & [= ->] & Hj). by apply (Hrf j).
    + intros d Hd. unfold s1. cbn. unfold insert, fn_insert. rewrite (decide_ext (nx = d) (d = nx)) by (split; congruence).
      case_decide; [done|]. rewrite decide_False; [done|]. intros <-. rewrite <- fmap_app in Hd.
      apply list_elem_of_fmap in Hd as (j & [= ->] & Hj). by apply (Hrf j).
  - intros j. unfold slab_at, s1. cbn. unfold insert, fn_insert. case_decide as E; case_decide as E'; try done; exfalso.
    + apply E'. injection E as E. unfold r in E. lia.
    + apply E. destruct E' as [E' _]. by rewrite E'.
  - intros j Hj. unfold tag, s1. cbn. unfold insert, fn_insert. repeat case_decide; try done. apply carve_other.
    rewrite elem_of_app in *. rewrite elem_of_cons in Hj. intuition congruence.
  - intros d Hd Hd'. unfold s1. cbn. unfold insert, fn_insert.
    assert (d <> p) by (destruct carve_pred as [Ep|(j & Ep & Hj)]; rewrite Ep; [done|apply Hd', elem_of_app; by left]).
    assert (d <> nx) by (destruct carve_succ as [Ep|(j & Ep & Hj)]; rewrite Ep; [done|apply Hd', elem_of_app; right; by right]).
    assert (d <> DPage r) by (apply Hd', elem_of_app; right; left). by rewrite !decide_False by congruence.
Qed.

Let L' := <[DFree := carved f1 i pages n f2]> L.

Lemma carved_elem j : j ∈ carved f1 i pages n f2 <-> j ∈ f1 ++ f2 \/ j = i + pages /\ pages < n.
Proof.
  unfold carved. destruct (Z.ltb_spec pages n); rewrite !elem_of_app, ?elem_of_cons, ?elem_of_nil; intuition lia.
Qed.

Lemma carved_outside j : 0 <= j -> ~ i <= j < i + n -> forall h, j ∈ L' h <-> j ∈ L h.
Proof using Hinv HL Hpages.
  intros Hj Hr h. unfold L', insert, fn_insert. case_decide as E; [|done]. subst h. rewrite carved_elem, HL, !elem_of_app, elem_of_cons.
  destruct carve_run as (_ & _ & (? & _) & _). intuition lia.
Qed.

Lemma carved_nodup : NoDup (carved f1 i pages n f2).
Proof using Hinv HL Hpages.
  destruct (iv_list _ _ Hinv DFree I) as [_ Hnd]. rewrite HL in Hnd. apply NoDup_app in Hnd as (N1 & Hd & [Hi N2]%NoDup_cons).
  assert (N12 : NoDup (f1 ++ f2)) by (apply NoDup_app; split_and!; [done| |done]; intros x H1 H2; apply (Hd x H1); by right).
  unfold carved. destruct (Z.ltb_spec pages n) as [Hlt|]; cbn [app]; [|done]. rewrite <- Permutation_middle. constructor; [|done].
  intros Hin. apply carve_other in Hin as (_ & _ & Hin & _). destruct carve_run as (Hi' & _ & (_ & Hb & Hr) & _).
  destruct (Hr (i + pages) ltac:(lia)) as [Ht Hs]. revert Hin. eapply (inner_unlisted s); [done|lia|done|by left].
Qed.

Section CarveDone.
Context (s1 s' : slab_pool).
Hypothesis H1 : carve_links s1.
Hypothesis Hp' : same_params s1 s'.
Hypothesis Hw' : sp_word s' = sp_word s1.
Hypothesis Hi' : slab_at s' i = NGX_SLAB_PAGE_START + pages /\ sp_next s' (DPage i) = None /\ sp_prev s' (DPage i) = (None, 0).
Hypothesis Hin' : forall j, i < j < i + pages -> slab_at s' j = NGX_SLAB_PAGE_BUSY /\ sp_prev s' (DPage j) = (None, 0).
Hypothesis Hout' : forall d, (forall j, i <= j < i + pages -> d <> DPage j) ->
  sp_slab s' d = sp_slab s1 d /\ sp_next s' d = sp_next s1 d /\ sp_prev s' d = sp_prev s1 d.

Lemma carve_params : same_params s s'.
Proof using H1 Hp'. eapply same_params_trans; [exact (cl_params _ H1)|done]. Qed.

Lemma carve_same d : d <> DFree -> (forall j, i <= j < i + n -> d <> DPage j) -> (forall j, j ∈ f1 ++ f2 -> d <> DPage j) ->
  sp_next s' d = sp_next s d /\ sp_prev s' d = sp_prev s d.
Proof using Hinv HL Hpages H1 Hout'.
  intros Hd Hd1 Hd2. destruct (Hout' d) as (_ & -> & ->); [intros; apply Hd1; lia|]. apply (cl_frame _ H1); [done|].
  intros j [Hj|[-> Hj]]%carved_elem; [by apply Hd2|]. apply Hd1. lia.
Qed.

Lemma carve_tag j : 0 <= j -> ~ i <= j < i + pages -> tag s' j = tag s j /\ slab_at s' j = slab_at s1 j.
Proof using Hinv HL Hpages H1 Hout'.
  intros Hj Hr. destruct (Hout' (DPage j)) as (E1 & _ & E3); [intros x Hx [= ->]; lia|]. unfold tag, slab_at. rewrite E1, E3. split; [|done].
  fold (tag s1 j) (tag s j). destruct (decide (j ∈ carved f1 i pages n f2)) as [Hc|Hc].
  - rewrite (cl_tag _ H1 j Hc). apply carved_elem in Hc as [Hc|[-> Hlt]]; [symmetry; by apply carve_other|].
    destruct carve_run as (_ & _ & (_ & _ & Hr') & _). symmetry. apply Hr'. lia.
  - unfold tag. destruct (cl_frame _ H1 (DPage j)) as [_ ->]; [done| |done]. intros x Hx [= ->]. done.
Qed.

Lemma carve_outside j : 0 <= j -> ~ i <= j < i + n -> same_page s s' L L' j.
Proof using Hinv HL Hpages H1 Hw' Hout'.
  intros Hj Hr. destruct (carve_tag j Hj ltac:(lia)) as [Et Es]. split_and!; [done| | | |by apply carved_outside].
  - rewrite Es, (cl_slab _ H1). rewrite decide_False by lia. done.
  - intros Hn. destruct (decide (j ∈ f1 ++ f2)) as [Hf|Hf].
    + exfalso. destruct (list_valid s L DFree Hinv I) as [Hnd _]. destruct (iv_list _ _ Hinv DFree I) as [Hc _].
      apply carve_other in Hf as (_ & _ & Hf & _). apply list_elem_of_split in Hf as (a & b & E).
      rewrite E, fmap_app, fmap_cons in Hc. apply chain_app in Hc as (_ & _ & Hc). destruct b; cbn in Hc; [congruence|destruct Hc; congruence].
    + destruct (carve_same (DPage j)) as [-> _]; [done|intros x Hx [= ->]; lia|by intros x Hx [= ->]|done].
  - intros a _. by rewrite Hw', (cl_word _ H1).
Qed.

Lemma carve_unlisted j : i <= j < i + n -> j <> i + pages -> unlisted L' j.
Proof using Hinv HL Hpages.
  intros Hj Hne h. destruct carve_run as (Hi & _ & (_ & Hb & Hr) & [Hfi Hfo]).
  unfold L', insert, fn_insert. case_decide as E.
  - rewrite carved_elem. intros [Hc|[Hc _]]; [|done]. apply carve_other in Hc as (Hji & _ & Hc & _). revert Hc.
    destruct (Hr j ltac:(lia)). eapply (inner_unlisted s); [done|lia|done|by left].
  - destruct (Z.eq_dec j i) as [->|Hji]; [apply Hfo; congruence|].
    destruct (Hr j ltac:(lia)). eapply (inner_unlisted s); [done|lia|done|by left].
Qed.

Lemma carve_kinds j : i <= j < i + n -> page_kind s' L' j.
Proof using Hinv HL Hpages H1 Hp' Hi' Hin' Hout'.
  intros Hj. destruct carve_run as (Hi & Hti & (Hk & Hb & Hr) & _). destruct Hi' as (Ei1 & Ei2 & Ei3).
  assert (EN : sp_npages s' = sp_npages s) by (by destruct carve_params as (_ & _ & -> & _)).
  destruct (Z.lt_ge_cases j (i + pages)) as [Hlt|Hge].
  - destruct (Z.eq_dec j i) as [->|Hne].
    + apply (pk_run _ _ _ pages); [unfold tag; by rewrite Ei3|done| |done|apply carve_unlisted; lia].
      split_and!; [lia|lia|]. intros x Hx. destruct (Hin' x Hx) as [? E]. unfold tag. by rewrite E.
    + destruct (Hin' j ltac:(lia)) as [? E]. apply pk_inner; [unfold tag; by rewrite E|by right|apply carve_unlisted; lia].
  - destruct (Hr j ltac:(lia)) as [Htj Hsj]. destruct (carve_tag j ltac:(lia) ltac:(lia)) as [Et Es]. rewrite (cl_slab _ H1) in Es.
    destruct (Z.eq_dec j (i + pages)) as [->|Hne].
    + rewrite decide_True in Es by lia. apply (pk_free _ _ _ (n - pages)); [congruence|done| |].
      * split_and!; [lia|lia|]. intros x Hx. destruct (Hr x ltac:(lia)). destruct (carve_tag x ltac:(lia) ltac:(lia)) as [Et' Es'].
        rewrite (cl_slab _ H1), decide_False in Es' by lia. split; congruence.
      * split; [unfold L', insert, fn_insert; rewrite decide_True by done; apply carved_elem; right; lia|].
        intros h Hh. unfold L', insert, fn_insert. rewrite decide_False by congruence. eapply (inner_unlisted s); [done|lia|done|by left].
    + rewrite decide_False in Es by lia. apply pk_inner; [congruence|left; congruence|apply carve_unlisted; lia].
Qed.

Lemma carve_inv : slab_inv s' L'.
Proof using Hinv HL Hpages H1 Hp' Hw' Hi' Hin' Hout'.
  destruct carve_run as (Hi & Hti & Hrun & _).
  eapply (inv_update s s' L L' i n Hinv); [left; exists 0; eauto|lia|apply carve_params|intros; apply carve_outside; lia|apply carve_kinds| |].
  - intros h Hh. unfold L', insert, fn_insert. case_decide as E.
    + subst h. split; [|apply carved_nodup]. eapply (list_frame s1); [exact (cl_chain _ H1)|by apply Hout'|].
      intros j Hj. apply (Hout' (DPage j)). intros x Hx [= ->]. apply carved_elem in Hj as [Hj|[-> _]]; [|lia].
      apply carve_other in Hj as (Hxi & _ & Hx' & Hxr). revert Hx'. destruct Hrun as (_ & _ & Hr). destruct (Hr x ltac:(lia)).
      eapply (inner_unlisted s); [done|lia|done|by left].
    + destruct (iv_list _ _ Hinv h Hh) as [Hc Hnd]. split; [|done].
      assert (Hj : forall j, j ∈ L h -> ~ i <= j < i + n /\ j ∉ f1 ++ f2).
      { intros j Hj. split.
        - intros Hr. assert (Hu : unlisted L' j \/ j = i + pages) by (destruct (Z.eq_dec j (i + pages)); [tauto|left; apply carve_unlisted; lia]).
          destruct Hu as [Hu| ->].
          + apply (Hu h). unfold L', insert, fn_insert. by rewrite decide_False.
          + revert Hj. destruct Hrun as (_ & Hb & Hr'). destruct (Hr' (i + pages) ltac:(lia)). eapply (inner_unlisted s); [done|lia|done|by left].
        - intros Hf%carve_other. destruct Hf as (_ & _ & Hf & _). apply (free_listed s L j Hinv) in Hf as (_ & _ & _ & [_ Hf]). by apply (Hf h). }
      eapply list_frame; [exact Hc| |].
      * destruct (carve_same h) as [-> _]; [congruence|..|done]; intros j Hj'; by destruct h.
      * intros j Hj'. destruct (Hj j Hj') as [Ha Hb]. apply carve_same; [done|intros x Hx [= ->]; lia|by intros x Hx [= ->]].
  - intros h j. unfold L', insert, fn_insert. case_decide as E; [|by apply (iv_in _ _ Hinv)]. subst h.
    intros [(_ & _ & _ & ?)%carve_other|[-> ?]]%carved_elem; [done|]. destruct Hrun as (? & ? & _). split; [done|lia].
Qed.
End CarveDone.

(** What a successful allocation of pages does. *)
Record took (s' : slab_pool) (M : desc -> list Z) : Prop := {
  tk_inv : slab_inv s' M;
  tk_params : same_params s s';
  tk_tag : tag s' i = 0;
  tk_slab : slab_at s' i = NGX_SLAB_PAGE_START + pages;
  tk_slots h : h <> DFree -> M h = L h;
  tk_outside j : 0 <= j -> ~ i <= j < i + n -> same_page s s' L M j;
  tk_inner j : i < j < i + n -> tag s' j = 0 /\ (slab_at s' j < NGX_SLAB_PAGE_START \/ slab_at s' j = NGX_SLAB_PAGE_BUSY);
  tk_heads d : d <> DFree -> (forall j, d <> DPage j) -> sp_next s' d = sp_next s d
}.

Lemma carve_ok : exists s', carve (Some (DPage i)) pages n s = Some (Some i, s') /\ took s' L'.
Proof using Hinv HL Hpages.
  destruct carve_run as (Hi & Hti & (Hk & Hb & Hr) & Hli). destruct (iv_params _ _ Hinv) as [_ _ A3 _ _].
  unfold carve. cbn [page_index mbind option_bind].
  match goal with |- context [if pages <? n then ?a else ?b] =>
    assert (exists s1, (if pages <? n then a else b) = Some s1 /\ carve_links s1) as (s1 & E1 & H1); [|rewrite E1; clear E1] end.
  { destruct (Z.ltb_spec pages n) as [Hlt|Hge]; [by apply carve_split|].
    destruct carve_valid as (_ & _ & _ & Hpv). rewrite rd_ok by (by apply valid_page). cbn [mbind option_bind]. rewrite Hpv.
    change (untagged (Some p, 0)) with (Some p). by apply carve_whole. }
  pose proof (cl_params _ H1) as (_ & _ & EN & _). cbn [mbind option_bind].
  assert (Vi : valid s1 (DPage i) = true) by (apply valid_page; lia).
  rewrite (wr_ok _ _ _ _ Vi). cbn [mbind option_bind]. rewrite wr_ok by exact Vi. cbn [mbind option_bind].
  rewrite wr_ok by exact Vi. cbn [mbind option_bind]. set (s2 := set_prev _ _ _).
  destruct (fill_pages_ok NGX_SLAB_PAGE_BUSY (Z.to_nat (pages - 1)) (i + 1) s2 ltac:(lia) ltac:(cbn; lia)) as (s' & -> & P' & W' & F1 & F2).
  cbn [mbind option_bind]. exists s'. split; [done|]. replace (i + 1 + Z.of_nat (Z.to_nat (pages - 1))) with (i + pages) in * by lia.
  assert (Fi : slab_at s' i = NGX_SLAB_PAGE_START + pages /\ sp_next s' (DPage i) = None /\ sp_prev s' (DPage i) = (None, 0)).
  { destruct (F2 (DPage i)) as (E1 & E2 & E3); [intros j Hj [= Ej]; lia|]. unfold slab_at. rewrite E1, E2, E3. unfold s2. split_and!; fn.
    rewrite Z.lor_comm, <- Z.add_lor_land. replace (Z.land _ pages) with 0; [lia|]. symmetry. apply Z.bits_inj'. intros k Hk'. rewrite Z.land_spec, Z.bits_0.
    destruct (Z.eq_dec k 63) as [->|]; [|by rewrite Z.pow2_bits_false by lia]. rewrite (proj1 (bits_bounded pages 48 ltac:(lia) ltac:(lia))) by lia. by rewrite andb_false_r. }
  assert (Fin : forall j, i < j < i + pages -> slab_at s' j = NGX_SLAB_PAGE_BUSY /\ sp_prev s' (DPage j) = (None, 0)) by (intros j Hj; destruct (F1 j ltac:(lia)) as (? & ? & ?); done).
  assert (Fout : forall d, (forall j, i <= j < i + pages -> d <> DPage j) ->
    sp_slab s' d = sp_slab s1 d /\ sp_next s' d = sp_next s1 d /\ sp_prev s' d = sp_prev s1 d).
  { intros d Hd. destruct (F2 d) as (-> & -> & ->); [intros; apply Hd; lia|]. assert (d <> DPage i) by (apply Hd; lia). unfold s2. split_and!; fn. }
  split.
  - by apply (carve_inv s1).
  - by apply (carve_params s1).
  - unfold tag. by destruct Fi as (_ & _ & ->).
  - by destruct Fi.
  - intros h Hh. unfold L', insert, fn_insert. by rewrite decide_False.
  - intros j Hj Hr'. by apply (carve_outside s1).
  - intros j Hj. destruct (Z.lt_ge_cases j (i + pages)); [destruct (Fin j ltac:(lia)) as [? E]; unfold tag; rewrite E; split; [done|by right]|].
    destruct (carve_tag s1 s' H1 Fout j ltac:(lia) ltac:(lia)) as [-> ->]. destruct (Hr j Hj) as [? Es]. split; [done|]. left. rewrite (cl_slab _ H1).
    case_decide; lia.
  - intros d Hd Hd'. destruct (Fout d) as (_ & -> & _); [intros; apply Hd'|]. by apply (cl_frame _ H1); [|intros; apply Hd'].
Qed.
End Carve.

Lemma list_short (l : list Z) n : 0 <= n -> NoDup l -> (forall i, i ∈ l -> 0 <= i < n) -> Z.of_nat (length l) <= n.
Proof.
  intros Hn Hnd Hl. assert (Hs : l ⊆+ seqZ 0 n).
  { apply NoDup_submseteq; [done|]. intros i Hi. apply elem_of_seqZ. apply Hl in Hi. lia. }
  apply submseteq_length in Hs. rewrite length_seqZ in Hs. lia.
Qed.

Lemma alloc_pages_loop_ok s L pages fuel f1 f2 :
  slab_inv s L -> 0 < pages -> L DFree = f1 ++ f2 -> (length f2 < fuel)%nat ->
  (exists g1 i g2, L DFree = g1 ++ i :: g2 /\ pages <= slab_at s i /\
     alloc_pages_loop fuel pages (Some (hd DFree (DPage <$> f2))) s = carve (Some (DPage i)) pages (slab_at s i) s) \/
  (alloc_pages_loop fuel pages (Some (hd DFree (DPage <$> f2))) s = Some (None, s) /\ forall i, i ∈ f2 -> slab_at s i < pages).
Proof.
  intros Hinv Hp. revert f1 f2. induction fuel as [|fuel IH]; intros f1 f2 HL Hf; [lia|].
  destruct f2 as [|i f2]; cbn [hd fmap list_fmap].
  - right. split; [done|]. intros i Hi. by apply elem_of_nil in Hi.
  - destruct (free_listed s L i Hinv) as (Hi & _); [rewrite HL; apply elem_of_app; right; left|].
    assert (E : alloc_pages_loop (S fuel) pages (Some (DPage i)) s =
      if pages <=? slab_at s i then carve (Some (DPage i)) pages (slab_at s i) s
      else alloc_pages_loop fuel pages (sp_next s (DPage i)) s).
    { cbn [alloc_pages_loop]. rewrite decide_False by done. by rewrite !rd_ok by (by apply valid_page). }
    rewrite E. clear E. destruct (Z.leb_spec pages (slab_at s i)) as [Hle|Hgt].
    + left. by exists f1, i, f2.
    + destruct (iv_list _ _ Hinv DFree I) as [Hc _]. rewrite HL, fmap_app, fmap_cons in Hc. apply chain_app in Hc as (_ & _ & Hc).
      assert (sp_next s (DPage i) = Some (hd DFree (DPage <$> f2))) as -> by (destruct f2; [done|by destruct Hc]).
      destruct (IH (f1 ++ [i]) f2) as [H|[H H']]; [by rewrite HL, <- app_assoc|cbn in Hf; lia| |].
      * by left.
      * right. split; [done|]. intros j [->|Hj]%elem_of_cons; [done|by apply H'].
Qed.

(** Either the first free run that is long enough is used, or there is none. *)
Lemma alloc_pages_ok s L pages :
  slab_inv s L -> 0 < pages ->
  (exists i s' M, i ∈ L DFree /\ pages <= slab_at s i /\ ngx_slab_alloc_pages pages s = Some (Some i, s') /\ took s L i pages s' M) \/
  (ngx_slab_alloc_pages pages s = Some (None, s) /\ forall i, i ∈ L DFree -> slab_at s i < pages).
Proof.
  intros Hinv Hp. unfold ngx_slab_alloc_pages. destruct (iv_list _ _ Hinv DFree I) as [Hc Hnd].
  destruct (iv_params _ _ Hinv) as [_ _ A3 _ _].
  assert (Hlen := list_short (L DFree) (sp_npages s) ltac:(lia) Hnd (fun i Hi => proj2 (iv_in _ _ Hinv DFree i Hi))).
  assert (sp_next s DFree = Some (hd DFree (DPage <$> L DFree))) as -> by (destruct (L DFree); [done|by destruct Hc]).
  destruct (alloc_pages_loop_ok s L pages (Z.to_nat (sp_npages s + 1)) [] (L DFree) Hinv Hp eq_refl ltac:(lia)) as [(f1 & i & f2 & HL & Hle & ->)|H]; [|by right].
  left. destruct (carve_ok s L f1 i f2 pages Hinv HL ltac:(lia)) as (s' & -> & Ht). eexists i, s', _. split_and!; [|done..|exact Ht].
  rewrite HL. apply elem_of_app. right. left.
Qed.

(** ** Blocks in use *)

(** The size class of a page that is cut into chunks. *)
Definition shift_at (s : slab_pool) (i : Z) : Z :=
  if tag s i =? NGX_SLAB_SMALL then slab_at s i else if tag s i =? NGX_SLAB_EXACT then 6 else Z.land (slab_at s i) NGX_SLAB_SHIFT_MASK.

(** Does a block in use start at an offset in a page? *)
Definition live_page (s : slab_pool) (i off : Z) : bool :=
  if tag s i =? NGX_SLAB_PAGE then (off =? 0) && (NGX_SLAB_PAGE_START <? slab_at s i) && (slab_at s i <? NGX_SLAB_PAGE_BUSY)
  else
    let sh := shift_at s i in
    (off mod 2 ^ sh =? 0) && (reserved sh <=? off / 2 ^ sh) && used_bit s i sh (off / 2 ^ sh).

(** Does a block in use start at an address? *)
Definition live (s : slab_pool) (p : Z) : bool :=
  (sp_start s <=? p) && (p <? sp_start s + 4096 * sp_npages s) &&
  live_page s ((p - sp_start s) / 4096) ((p - sp_start s) mod 4096).

(** The size of the block in use at an address. *)
Definition live_size (s : slab_pool) (p : Z) : Z :=
  let i := (p - sp_start s) / 4096 in
  if tag s i =? NGX_SLAB_PAGE then 4096 * (slab_at s i - NGX_SLAB_PAGE_START) else 2 ^ shift_at s i.

Lemma shift_at_chunked s i sh : cut_page s i sh -> shift_at s i = sh.
Proof.
  intros [H1 H2 H3 H4 H5 _]. unfold shift_at. rewrite H2. unfold type_of.
  destruct (Z.ltb_spec sh 6); [by apply H3|]. destruct (Z.eqb_spec sh 6); [done|]. apply H5. lia.
Qed.

Lemma live_chunked s i sh off :
  cut_page s i sh -> live_page s i off = (off mod 2 ^ sh =? 0) && (reserved sh <=? off / 2 ^ sh) && used_bit s i sh (off / 2 ^ sh).
Proof.
  intros H. unfold live_page. rewrite (ch_tag _ _ _ H), (proj2 (Z.eqb_neq _ _)) by (pose proof (type_of_pos sh); lia).
  by rewrite (shift_at_chunked s i sh H).
Qed.

Lemma off_chunk sh off : 3 <= sh <= 11 -> 0 <= off < 4096 -> 0 <= off / 2 ^ sh < chunks sh.
Proof.
  intros Hs Ho. assert (0 < 2 ^ sh) by (apply Z.pow_pos_nonneg; lia). split; [apply Z.div_pos; lia|].
  apply Z.div_lt_upper_bound; [done|]. unfold chunks. rewrite <- Z.pow_add_r by lia. replace (sh + (12 - sh)) with 12 by lia. lia.
Qed.

Lemma chunk_off sh c : 3 <= sh <= 11 -> 0 <= c < chunks sh -> 0 <= c * 2 ^ sh < 4096.
Proof.
  intros Hs Hc. assert (0 < 2 ^ sh) by (apply Z.pow_pos_nonneg; lia). assert (Hx : c * 2 ^ sh < chunks sh * 2 ^ sh) by nia. unfold chunks in Hx.
  rewrite <- Z.pow_add_r in Hx by lia. replace (12 - sh + sh) with 12 in Hx by lia. split; [nia|lia].
Qed.

Lemma live_same s s' L j off :
  slab_inv s L -> same_params s s' -> same_data s s' j -> 0 <= j < sp_npages s -> 0 <= off < 4096 ->
  live_page s' j off = live_page s j off.
Proof.
  intros Hinv Hp Hs Hj Ho. pose proof Hs as (Ht & Hsl & _). destruct (iv_params _ _ Hinv) as [A1 _ _ _ _].
  assert (Hc : forall sh, cut_page s j sh -> live_page s' j off = live_page s j off).
  { intros sh Hc. pose proof (ch_shift _ _ _ Hc). assert (Hc' : cut_page s' j sh) by (eapply chunked_same; [exact Hp|lia|exact Hs|done]).
    rewrite (live_chunked s j sh), (live_chunked s' j sh) by done.
    rewrite (used_bit_same s s'); [done|done|lia|done|lia|]. apply off_chunk; lia. }
  destruct (iv_page _ _ Hinv j Hj) as [K|? K|? K|sh K _ _|sh K _ _ _]; [..|by eapply Hc|by eapply Hc];
    unfold live_page; by rewrite Ht, Hsl, K.
Qed.

Lemma addr_split s p :
  0 <= sp_npages s -> sp_start s <= p < sp_start s + 4096 * sp_npages s ->
  let i := (p - sp_start s) / 4096 in
  let off := (p - sp_start s) mod 4096 in
  0 <= i < sp_npages s /\ 0 <= off < 4096 /\ p = page_addr s i + off.
Proof.
  intros HN Hp i off. pose proof (Z.mod_pos_bound (p - sp_start s) 4096 ltac:(lia)) as Hm. pose proof (Z.div_mod (p - sp_start s) 4096 ltac:(lia)) as Hd.
  unfold i, off. rewrite page_addr_eq. lia.
Qed.

Lemma live_at s i off : 0 <= i < sp_npages s -> 0 <= off < 4096 -> live s (page_addr s i + off) = live_page s i off.
Proof.
  intros Hi Ho. unfold live. rewrite page_addr_eq. rewrite (proj2 (Z.leb_le _ _)), (proj2 (Z.ltb_lt _ _)) by lia. cbn [andb].
  replace (sp_start s + 4096 * i + off - sp_start s) with (4096 * i + off) by lia.
  by rewrite <- (Z.div_unique (4096 * i + off) 4096 i off), <- (Z.mod_unique (4096 * i + off) 4096 i off) by lia.
Qed.

Lemma live_size_at s i off : 0 <= off < 4096 ->
  live_size s (page_addr s i + off) = if tag s i =? NGX_SLAB_PAGE then 4096 * (slab_at s i - NGX_SLAB_PAGE_START) else 2 ^ shift_at s i.
Proof.
  intros Ho. unfold live_size. rewrite page_addr_eq. replace (sp_start s + 4096 * i + off - sp_start s) with (4096 * i + off) by lia.
  by rewrite <- (Z.div_unique (4096 * i + off) 4096 i off) by lia.
Qed.

(** Pages that are not in use. *)
Lemma live_free s i off : tag s i = 0 -> slab_at s i < NGX_SLAB_PAGE_START \/ slab_at s i = NGX_SLAB_PAGE_BUSY -> live_page s i off = false.
Proof.
  intros Ht Hs. unfold live_page. rewrite Ht. change (0 =? 0) with true. cbn iota.
  destruct (Z.ltb_spec NGX_SLAB_PAGE_START (slab_at s i)), (Z.ltb_spec (slab_at s i) NGX_SLAB_PAGE_BUSY); rewrite ?andb_false_r; try done; lia.
Qed.

Lemma same_data_shift s s' j : same_data s s' j -> shift_at s' j = shift_at s j.
Proof. intros (H1 & H2 & _). unfold shift_at. by rewrite H1, H2. Qed.

(** The blocks in use after a change, page by page. *)
Lemma live_change s s' (F : Z -> bool -> bool) :
  0 <= sp_npages s -> same_params s s' ->
  (forall i off, 0 <= i < sp_npages s -> 0 <= off < 4096 -> live_page s' i off = F (page_addr s i + off) (live_page s i off)) ->
  (forall q, ~ sp_start s <= q < sp_start s + 4096 * sp_npages s -> F q false = false) ->
  forall q, live s' q = F q (live s q).
Proof.
  intros HN Hp Hin Hout q. pose proof Hp as (_ & _ & EN & ES & _).
  destruct (decide (sp_start s <= q < sp_start s + 4096 * sp_npages s)) as [Hq|Hq].
  - destruct (addr_split s q HN Hq) as (Hi & Ho & E). revert Hi Ho E. generalize ((q - sp_start s) / 4096), ((q - sp_start s) mod 4096).
    intros i off Hi Ho ->. rewrite (live_at s) by done. rewrite <- (same_params_addr s s' i Hp) at 1. rewrite (live_at s') by lia. by apply Hin.
  - assert (Hno : forall x, same_params s x -> live x q = false).
    { intros x (_ & _ & E1 & E2 & _). unfold live. rewrite E1, E2.
      destruct (Z.leb_spec (sp_start s) q), (Z.ltb_spec q (sp_start s + 4096 * sp_npages s)); cbn; try done; lia. }
    rewrite !Hno by done. symmetry. by apply Hout.
Qed.

(** An address in use is in a page. *)
Lemma live_page_of s q :
  0 <= sp_npages s -> live s q = true ->
  exists i off, 0 <= i < sp_npages s /\ 0 <= off < 4096 /\ q = page_addr s i + off /\ live_page s i off = true.
Proof.
  intros HN Hl. assert (Hq : sp_start s <= q < sp_start s + 4096 * sp_npages s).
  { unfold live in Hl. destruct (Z.leb_spec (sp_start s) q), (Z.ltb_spec q (sp_start s + 4096 * sp_npages s)); try done; lia. }
  destruct (addr_split s q HN Hq) as (Hi & Ho & E). eexists _, _. split_and!; [apply Hi|apply Hi|apply Ho|apply Ho|exact E|].
  rewrite <- live_at by done. by rewrite <- E.
Qed.

(** Some lists make the invariant hold. *)
Definition slab_ok (s : slab_pool) : Prop := exists L, slab_inv s L.
