(* ===== verification/NgxSlabChunks.v ===== *)
(** * Chunks of a slab pool

    Allocation of chunks: a free bit of a listed page, or a new page. *)
From stdpp Require Import functions.
From S2P Require Import Prelude NgxSlab NgxSlabInv NgxSlabPages.

#[local] Set Warnings "-register-all".

Lemma slot_listed s L m i :
  slab_inv s L -> i ∈ L (DSlot m) ->
  0 <= i < sp_npages s /\ cut_page s i (sp_min_shift s + m) /\ has_free s i (sp_min_shift s + m) /\ listed L i (DSlot m).
Proof.
  intros Hinv Hi. destruct (iv_in _ _ Hinv _ _ Hi) as [_ Hr]. split; [done|].
  destruct (iv_page _ _ Hinv i Hr) as [_ _ K|? _ _ _ _ K|? _ _ _ [_ K]|sh K1 K2 K3|sh _ _ _ K].
  - by apply K in Hi.
  - by apply K in Hi.
  - by apply (K (DSlot m)) in Hi.
  - destruct (decide (DSlot m = DSlot (sh - sp_min_shift s))) as [[= ->]|Hne]; [|by apply (proj2 K3 _ Hne) in Hi].
    by replace (sp_min_shift s + (sh - sp_min_shift s)) with sh by lia.
  - by apply K in Hi.
Qed.

(** ** Taking a page out of a list *)

Record unlinked (s s2 : slab_pool) (h : desc) (t : Z) (l1 l2 : list Z) : Prop := {
  un_params : same_params s s2;
  un_word : sp_word s2 = sp_word s;
  un_slab : sp_slab s2 = sp_slab s;
  un_chain : chain s2 t h (DPage <$> l1 ++ l2) h;
  un_tag j : tag s2 j = tag s j;
  un_frame d : d <> h -> (forall j, j ∈ l1 ++ l2 -> d <> DPage j) -> sp_next s2 d = sp_next s d /\ sp_prev s2 d = sp_prev s d;
  un_next j : sp_next s (DPage j) = None -> sp_next s2 (DPage j) = None
}.

Lemma chain_tag s t h l j : chain s t h (DPage <$> l) h -> j ∈ l -> tag s j = t /\ sp_next s (DPage j) <> None.
Proof.
  intros Hc Hj. apply list_elem_of_split in Hj as (a & b & ->). rewrite fmap_app, fmap_cons in Hc. apply chain_app in Hc as (_ & Hp & Hc).
  unfold tag. rewrite Hp. split; [done|]. destruct b; cbn in Hc; [congruence|]. destruct Hc. congruence.
Qed.

Lemma unlink_page_ok s h t l1 i l2 :
  chain s t h (DPage <$> l1 ++ i :: l2) h -> NoDup (l1 ++ i :: l2) -> (forall j, h <> DPage j) -> valid s h = true ->
  (forall j, j ∈ l1 ++ i :: l2 -> 0 <= j < sp_npages s) ->
  exists p s2, sp_prev s (DPage i) = (Some p, t) /\ unlink_page (Some (DPage i)) (Some p) s = Some s2 /\ unlinked s s2 h t l1 l2.
Proof.
  intros Hc Hnd Hh Vh Hr. pose proof Hc as Hc'. rewrite fmap_app, fmap_cons in Hc'.
  assert (Hnd' : NoDup (h :: (DPage <$> l1) ++ DPage i :: (DPage <$> l2))).
  { rewrite <- fmap_cons, <- fmap_app. constructor; [intros (j & E & _)%list_elem_of_fmap; by apply (Hh j)|].
    apply NoDup_fmap_2; [by intros ? ? [= ?]|done]. }
  destruct (unlink_ok s t h (DPage <$> l1) (DPage i) (DPage <$> l2) Hc' Hnd') as (Hp & Hu & Hch).
  { rewrite <- fmap_cons, <- fmap_app. constructor; [done|]. apply Forall_forall. intros d (j & -> & Hj)%list_elem_of_fmap.
    by apply valid_page, Hr. }
  set (p := List.last (DPage <$> l1) h) in *. set (n := hd h (DPage <$> l2)) in *.
  assert (Ep : p = h \/ exists j, p = DPage j /\ j ∈ l1) by (pose proof (last_elem h (DPage <$> l1)) as [?|(j & ? & ?)%list_elem_of_fmap]%elem_of_cons; eauto).
  assert (En : n = h \/ exists j, n = DPage j /\ j ∈ l2) by (pose proof (hd_elem h (DPage <$> l2)) as [?|(j & ? & ?)%list_elem_of_fmap]%elem_of_cons; eauto).
  eexists p, _. split_and!; [done|exact Hu|]. split; [done|done|done|by rewrite fmap_app|..].
  - intros j. unfold tag. cbn. unfold insert, fn_insert. case_decide as E; [|done]. cbn.
    destruct En as [En|(x & En & Hx)]; [exfalso; apply (Hh j); congruence|].
    assert (j = x) as -> by congruence. symmetry. apply (chain_tag _ _ _ _ _ Hc). apply elem_of_app. right. by right.
  - intros d Hd Hd'. cbn. unfold insert, fn_insert.
    assert (d <> p) by (destruct Ep as [->|(j & -> & Hj)]; [done|apply Hd', elem_of_app; by left]).
    assert (d <> n) by (destruct En as [->|(j & -> & Hj)]; [done|apply Hd', elem_of_app; by right]).
    by rewrite !decide_False by congruence.
  - intros j Hj. cbn. unfold insert, fn_insert. case_decide as E; [|done]. exfalso.
    destruct Ep as [Ep|(x & Ep & Hx)]; [apply (Hh j); congruence|]. assert (j = x) as -> by congruence.
    apply (chain_tag _ _ _ _ x Hc); [apply elem_of_app; by left|done].
Qed.

(** ** Changing the bits of a page *)

(** [s1] is [s] with other bits of the page [i]. *)
Record touched (s s1 : slab_pool) (i : Z) : Prop := {
  to_params : same_params s s1;
  to_next : sp_next s1 = sp_next s;
  to_prev : sp_prev s1 = sp_prev s;
  to_slab j : j <> i -> slab_at s1 j = slab_at s j;
  to_word a : ~ page_words s i a -> sp_word s1 a = sp_word s a
}.

Lemma touched_page s s1 i j L : touched s s1 i -> j <> i -> same_page s s1 L L j.
Proof.
  intros [H1 H2 H3 H4 H5] Hj. unfold same_page, tag. rewrite H2, H3. split_and!; [done|by apply H4|done| |done].
  intros a Ha. apply H5. unfold page_words in *. rewrite !page_addr_eq in *. lia.
Qed.

Section Touch.
Context (s s1 : slab_pool) (L : desc -> list Z) (m i : Z) (l1 l2 : list Z).
Let sh := sp_min_shift s + m.
Hypothesis Hinv : slab_inv s L.
Hypothesis HL : L (DSlot m) = l1 ++ i :: l2.
Hypothesis Ht : touched s s1 i.
Hypothesis Hc : cut_page s1 i sh.

Lemma touch_facts : 0 <= i < sp_npages s /\ cut_page s i sh /\ listed L i (DSlot m) /\ head s (DSlot m) /\ 3 <= sh.
Proof using Hinv HL.
  assert (Hi : i ∈ L (DSlot m)) by (rewrite HL; apply elem_of_app; right; left).
  destruct (slot_listed s L m i Hinv Hi) as (H1 & H2 & _ & H4). destruct (iv_in _ _ Hinv _ _ Hi) as [H5 _].
  destruct (iv_params _ _ Hinv). cbn in H5. unfold sh. split_and!; try done; lia.
Qed.

(** The page still has a free chunk. *)
Lemma touch_inv : has_free s1 i sh -> slab_inv s1 L.
Proof using Hinv HL Ht Hc.
  intros Hf. destruct touch_facts as (Hi & Hci & Hli & Hh & _). pose proof (to_params _ _ _ Ht) as Hp.
  eapply (inv_update s s1 L L i 1 Hinv); [right; split; [done|by exists sh]|lia|done| | | |by apply (iv_in _ _ Hinv)].
  - intros j Hj Hne. eapply touched_page; [exact Ht|lia].
  - intros j Hj. assert (j = i) as -> by lia. apply (pk_chunks _ _ _ sh); [done..|].
    destruct Hp as (_ & E & _). rewrite E. unfold sh. by replace (sp_min_shift s + m - sp_min_shift s) with m by lia.
  - intros h Hh'. destruct (iv_list _ _ Hinv h Hh') as [Hch Hnd]. split; [|done].
    eapply list_frame; [exact Hch|by rewrite (to_next _ _ _ Ht)|]. intros j _. by rewrite (to_next _ _ _ Ht), (to_prev _ _ _ Ht).
Qed.

(** The page has become full. *)
Lemma full_inv : ~ has_free s1 i sh ->
  exists s2, page_full (Some (DPage i)) (type_of sh) s1 = Some s2 /\ slab_inv s2 (<[DSlot m := l1 ++ l2]> L) /\
    same_params s1 s2 /\ sp_word s2 = sp_word s1 /\ sp_slab s2 = sp_slab s1 /\ forall j, tag s2 j = tag s1 j.
Proof using Hinv HL Ht Hc.
  intros Hf. destruct touch_facts as (Hi & Hci & Hli & Hh & Hsh). pose proof (to_params _ _ _ Ht) as Hp.
  assert (EN : sp_npages s1 = sp_npages s) by apply Hp. assert (EM : sp_min_shift s1 = sp_min_shift s) by apply Hp.
  destruct (iv_list _ _ Hinv _ Hh) as [Hch Hnd]. rewrite HL in Hch, Hnd.
  assert (Hch1 : chain s1 (type_of sh) (DSlot m) (DPage <$> l1 ++ i :: l2) (DSlot m)).
  { eapply list_frame; [exact Hch|by rewrite (to_next _ _ _ Ht)|]. intros j _. by rewrite (to_next _ _ _ Ht), (to_prev _ _ _ Ht). }
  assert (Hin : forall j, j ∈ l1 ++ i :: l2 -> 0 <= j < sp_npages s) by (intros j Hj; apply (iv_in _ _ Hinv (DSlot m)); by rewrite HL).
  destruct (unlink_page_ok s1 (DSlot m) (type_of sh) l1 i l2 Hch1 Hnd ltac:(done) ltac:(apply valid_slot; rewrite EM; exact Hh)
    ltac:(by rewrite EN)) as (p & s2 & Hpv & Hun & Hu).
  assert (Vi : valid s1 (DPage i) = true) by (apply valid_page; lia).
  assert (Vi2 : valid s2 (DPage i) = true) by (apply valid_page; rewrite (proj1 (proj2 (proj2 (un_params _ _ _ _ _ _ Hu)))); lia).
  exists (set_prev (DPage i) (None, type_of sh) (set_next (DPage i) None s2)). set (s3 := set_prev _ _ _).
  assert (Htag : forall j, tag s3 j = tag s1 j).
  { intros j. rewrite <- (un_tag _ _ _ _ _ _ Hu). unfold s3, tag. cbn. unfold insert, fn_insert. case_decide as E; [|done].
    injection E as <-. cbn. fold (tag s2 i). rewrite (un_tag _ _ _ _ _ _ Hu). symmetry. by apply (ch_tag _ _ _ Hc). }
  assert (Hps : same_params s1 s3) by exact (un_params _ _ _ _ _ _ Hu).
  assert (Hnotin : forall j, j ∈ l1 ++ l2 -> j <> i).
  { intros j Hj ->. rewrite <- Permutation_middle in Hnd. by apply NoDup_cons in Hnd as [? _]. }
  split_and!; [| |exact Hps|exact (un_word _ _ _ _ _ _ Hu)|exact (un_slab _ _ _ _ _ _ Hu)|exact Htag].
  { unfold page_full. rewrite (rd_ok _ _ _ Vi). cbn [mbind option_bind]. rewrite Hpv. cbn [fst]. rewrite Hun. cbn [mbind option_bind].
    rewrite (wr_ok _ _ _ _ Vi2). cbn [mbind option_bind]. by rewrite wr_ok by exact Vi2. }
  set (L2 := <[DSlot m := l1 ++ l2]> L). pose proof (pa_shift _ (iv_params _ _ Hinv)) as A1.
  assert (Hsame : same_data s1 s3 i).
  { split_and!; [by apply Htag|unfold slab_at; by rewrite <- (un_slab _ _ _ _ _ _ Hu)|]. intros a _. by rewrite <- (un_word _ _ _ _ _ _ Hu). }
  assert (HL2 : forall h j, j <> i -> j ∈ L2 h <-> j ∈ L h).
  { intros h j Hne. unfold L2, insert, fn_insert. case_decide as E; [|done]. subst h. rewrite HL, !elem_of_app, elem_of_cons. tauto. }
  assert (Hd3 : forall d, d <> DPage i -> sp_next s3 d = sp_next s2 d /\ sp_prev s3 d = sp_prev s2 d) by (intros d Hd; unfold s3; split; fn).
  eapply (inv_update s s3 L L2 i 1 Hinv); [right; split; [done|by exists sh]|lia|by eapply same_params_trans|..].
  - intros j Hj Hne. destruct (touched_page s s1 i j L Ht ltac:(lia)) as (T1 & T2 & T3 & T4 & _). split_and!.
    + rewrite Htag. done.
    + rewrite <- T2. unfold slab_at. by rewrite <- (un_slab _ _ _ _ _ _ Hu).
    + intros Hn. destruct (Hd3 (DPage j)) as [-> _]; [intros [= ->]; lia|]. by apply (un_next _ _ _ _ _ _ Hu), T3.
    + intros a Ha. rewrite <- T4 by done. by rewrite <- (un_word _ _ _ _ _ _ Hu).
    + intros h. apply HL2. lia.
  - intros j Hj. assert (j = i) as -> by lia. apply (pk_full _ _ _ sh).
    + eapply (chunked_same s1 s3); [exact Hps|lia|exact Hsame|done].
    + rewrite (has_free_same s1 s3 i Hps ltac:(lia) Hsame); [done|]. unfold sh. cbn in Hh. lia.
    + unfold s3. fn.
    + intros h. unfold L2, insert, fn_insert. case_decide as E; [|by apply (proj2 Hli); congruence]. intros Hj'. by apply (Hnotin i).
  - intros h Hh'. destruct (iv_list _ _ Hinv h Hh') as [Hchh Hndh]. unfold L2, insert, fn_insert. case_decide as E.
    + subst h. split; [|rewrite <- Permutation_middle in Hnd; by apply NoDup_cons in Hnd as [_ ?]].
      eapply (list_frame s2); [exact (un_chain _ _ _ _ _ _ Hu)|by apply Hd3|]. intros j Hj. apply Hd3. intros [= ->]. by apply (Hnotin i).
    + split; [|done].
      assert (Hne : forall j, j ∈ L h -> j ∉ l1 ++ i :: l2).
      { intros j Hj Hj'. rewrite <- HL in Hj'. destruct (slot_listed s L m j Hinv Hj') as (_ & _ & _ & [_ Hx]). by apply (Hx h). }
      eapply list_frame; [exact Hchh|..].
      * destruct (Hd3 h) as [-> _]; [by destruct h|]. destruct (un_frame _ _ _ _ _ _ Hu h) as [-> _]; [congruence|intros j _; by destruct h|].
        by rewrite (to_next _ _ _ Ht).
      * intros j Hj. specialize (Hne j Hj). rewrite elem_of_app, elem_of_cons in Hne.
        destruct (Hd3 (DPage j)) as [-> ->]; [intros [= ->]; tauto|].
        destruct (un_frame _ _ _ _ _ _ Hu (DPage j)) as [-> ->]; [done|intros x Hx [= ->]; rewrite elem_of_app in Hx; tauto|].
        by rewrite (to_next _ _ _ Ht), (to_prev _ _ _ Ht).
  - intros h j Hj. destruct (Z.eq_dec j i) as [->|Hne].
    + split; [|done]. unfold L2, insert, fn_insert in Hj. case_decide; [by subst h|]. by apply (iv_in _ _ Hinv h i).
    + apply HL2 in Hj; [|done]. by apply (iv_in _ _ Hinv).
Qed.
End Touch.

(** Whether a page has a free chunk can be decided. *)
Lemma first_zero_free s i sh : has_free s i sh \/ ~ has_free s i sh.
Proof.
  unfold has_free. destruct (decide (Exists (fun c => used_bit s i sh c = false) (seqZ 0 (chunks sh)))) as [H|H].
  - left. apply Exists_exists in H as (c & Hc%elem_of_seqZ & Hb). exists c. split; [lia|done].
  - right. intros (c & Hc & Hb). apply H, Exists_exists. exists c. split; [apply elem_of_seqZ; lia|done].
Qed.

Lemma full_bits s i sh : ~ has_free s i sh <-> forall c, 0 <= c < chunks sh -> used_bit s i sh c = true.
Proof.
  split.
  - intros H c Hc. destruct (used_bit s i sh c) eqn:E; [done|]. exfalso. apply H. by exists c.
  - intros H (c & Hc & Hb). rewrite H in Hb by done. done.
Qed.

(** ** Taking a chunk *)

(** The chunk [c] of the page [i], which was free, is in use in [s']. *)
Record took_chunk (s : slab_pool) (i sh c : Z) (s' : slab_pool) : Prop := {
  tc_inv : exists M, slab_inv s' M;
  tc_params : same_params s s';
  tc_old : cut_page s i sh;
  tc_chunked : cut_page s' i sh;
  tc_page : 0 <= i < sp_npages s;
  tc_range : 0 <= c < chunks sh;
  tc_was : used_bit s i sh c = false;
  tc_bits c' : 0 <= c' < chunks sh -> used_bit s' i sh c' = (c' =? c) || used_bit s i sh c';
  tc_data j : j <> i -> same_data s s' j
}.

Lemma same_data_trans s s1 s2 j : same_params s s1 -> same_data s s1 j -> same_data s1 s2 j -> same_data s s2 j.
Proof.
  intros Hp (H1 & H2 & H3) (G1 & G2 & G3). split_and!; [congruence|congruence|]. intros a Ha. rewrite G3; [by apply H3|].
  unfold page_words in *. by rewrite (same_params_addr s s1 j Hp).
Qed.

Lemma take_chunk s s1 L m i l1 l2 c (full : bool) :
  let sh := sp_min_shift s + m in
  slab_inv s L -> L (DSlot m) = l1 ++ i :: l2 -> touched s s1 i -> cut_page s1 i sh ->
  0 <= c < chunks sh -> used_bit s i sh c = false ->
  (forall c', 0 <= c' < chunks sh -> used_bit s1 i sh c' = (c' =? c) || used_bit s i sh c') ->
  (full = true <-> ~ has_free s1 i sh) ->
  exists s', (if full then page_full (Some (DPage i)) (type_of sh) s1 else Some s1) = Some s' /\ took_chunk s i sh c s'.
Proof.
  intros sh Hinv HL Ht Hc Hcr Hwas Hbits Hfull.
  destruct (touch_facts s L m i l1 l2 Hinv HL) as (Hi & Hci & _ & _ & Hsh3). pose proof (pa_shift _ (iv_params _ _ Hinv)) as A1.
  pose proof (to_params _ _ _ Ht) as Hp.
  assert (Hdata : forall j, j <> i -> same_data s s1 j) by (intros j Hj; eapply same_page_data, (touched_page s s1 i j L); done).
  destruct full.
  - destruct (full_inv s s1 L m i l1 l2 Hinv HL Ht Hc ltac:(by apply Hfull)) as (s2 & Hpf & Hinv2 & Hp2 & Hw2 & Hs2 & Ht2).
    assert (Hd2 : forall j, same_data s1 s2 j) by (intros j; split_and!; [done|unfold slab_at; by rewrite Hs2|intros a _; by rewrite Hw2]).
    assert (Hp1 : sp_min_shift s1 = sp_min_shift s) by apply Hp.
    exists s2. split; [done|]. split; try done.
    + by eexists.
    + by eapply same_params_trans.
    + eapply (chunked_same s1 s2); [done|lia|done..].
    + intros c' Hc'. rewrite (used_bit_same s1 s2 i Hp2 ltac:(lia) (Hd2 i)); [by apply Hbits|unfold sh; destruct (ch_shift _ _ _ Hci); lia|done].
    + intros j Hj. eapply same_data_trans; [exact Hp|by apply Hdata|apply Hd2].
  - exists s1. split; [done|]. split; try done. exists L. eapply touch_inv; [exact Hinv|exact HL|exact Ht|exact Hc|].
    destruct (first_zero_free s1 i sh) as [H|H]; [done|]. exfalso. assert (false = true) by (by apply Hfull). done.
Qed.

(** Chunks of the exact size. *)
Lemma exact_pages_ok s L m i l2 fuel :
  slab_inv s L -> L (DSlot m) = i :: l2 -> sp_min_shift s + m = 6 ->
  exists c s', exact_pages (S fuel) 6 (Some (DPage i)) s = Some (Some (page_addr s i + Z.shiftl c 6), s') /\ took_chunk s i 6 c s'.
Proof.
  intros Hinv HL Hm. destruct (slot_listed s L m i Hinv ltac:(rewrite HL; left)) as (Hi & Hci & Hf & _). rewrite Hm in Hci, Hf.
  assert (Vi := valid_page s i Hi). cbn [exact_pages]. rewrite (rd_ok sp_slab s _ Vi). cbn [mbind option_bind]. fold (slab_at s i).
  set (w := slab_at s i). pose proof (ch_exact _ _ _ Hci eq_refl) as Hw. fold w in Hw.
  assert (Hub : forall s' c, used_bit s' i 6 c = Z.testbit (slab_at s' i) c) by done.
  assert (E : negb (w =? NGX_SLAB_BUSY) = true).
  { apply negb_true_iff, Z.eqb_neq. intros E. destruct Hf as (c & Hc & Hb). rewrite Hub in Hb. fold w in Hb.
    rewrite (proj1 (ones_bits w 64 ltac:(lia) Hw) E c Hc) in Hb. done. }
  rewrite E. pose proof (first_zero_spec 64 0 w ltac:(lia)) as Hz. destruct (first_zero 64 0 w) as [c|].
  2:{ exfalso. destruct Hf as (c & Hc & Hb). rewrite Hub in Hb. fold w in Hb. rewrite Hz in Hb by (change (chunks 6) with 64 in Hc; lia). done. }
  destruct Hz as [Hc Hbit]. change (0 <= c < chunks 6) in Hc. rewrite (wr_ok _ _ _ _ Vi). cbn [mbind option_bind]. set (w1 := Z.lor w (Z.shiftl 1 c)).
  set (s1 := set_slab (DPage i) w1 s). assert (Ew : slab_at s1 i = w1) by (unfold s1, slab_at; fn).
  assert (Hb1 : forall c', 0 <= c' -> used_bit s1 i 6 c' = (c' =? c) || used_bit s i 6 c').
  { intros c' Hc'. rewrite !Hub, Ew. apply lor_bit; lia. }
  assert (Hw1 : 0 <= w1 < 2 ^ 64) by (change (chunks 6) with 64 in Hc; apply lor_bound; lia).
  assert (Ht : touched s s1 i) by (split; [done|done|done|intros j Hj; unfold s1, slab_at; fn|done]).
  assert (Hc1 : cut_page s1 i 6).
  { destruct Hci as [H1 H2 _ _ _ H6]. split; [exact H1|exact H2|intros; exfalso; lia|intros _; by rewrite Ew|intros; exfalso; lia|]. intros c' Hc'. rewrite Hb1 by lia. rewrite H6 by done. by rewrite orb_true_r. }
  assert (Hfull : (w1 =? NGX_SLAB_BUSY) = true <-> ~ has_free s1 i 6).
  { rewrite Z.eqb_eq, full_bits, (ones_bits w1 64) by (lia || done). change (chunks 6) with 64.
    split; intros H k Hk; [rewrite Hub, Ew|rewrite <- Ew, <- Hub]; by apply H. }
  pose proof (take_chunk s s1 L m i [] l2 c (w1 =? NGX_SLAB_BUSY)) as Htk. cbn zeta in Htk. rewrite Hm in Htk.
  destruct (Htk Hinv HL Ht Hc1 Hc Hbit (fun c' Hc' => Hb1 c' (proj1 Hc')) Hfull) as (s' & Hpf & Htc).
  change (type_of 6) with NGX_SLAB_EXACT in Hpf. rewrite Hpf. cbn [mbind option_bind page_index]. exists c, s'.
  rewrite (same_params_addr s s' i (tc_params _ _ _ _ _ Htc)). done.
Qed.

(** The mask of a page of big chunks. *)
Lemma big_mask_eq sh w : 6 < sh <= 11 -> Z.land w 15 = sh -> big_mask w = Z.shiftl (Z.ones (chunks sh)) 32.
Proof.
  intros Hs E. unfold big_mask. rewrite E. rewrite !Z.shiftl_1_l. fold (chunks sh). unfold chunks.
  assert (sh = 7 \/ sh = 8 \/ sh = 9 \/ sh = 10 \/ sh = 11) as [->|[->|[->|[->| ->]]]] by lia; reflexivity.
Qed.

Lemma mask_bit n k : 0 <= n -> 0 <= k -> Z.testbit (Z.shiftl (Z.ones n) 32) (32 + k) = (k <? n).
Proof.
  intros Hn Hk. rewrite Z.shiftl_spec by lia. replace (32 + k - 32) with k by lia.
  destruct (Z.ltb_spec k n); [by apply Z.ones_spec_low|apply Z.ones_spec_high; lia].
Qed.

Lemma u64_bit i : 0 <= i < 32 -> u64 (Z.shiftl 1 (32 + i)) = Z.shiftl 1 (32 + i).
Proof.
  intros H. unfold u64. rewrite Z.shiftl_1_l. apply Z.mod_small. split; [lia|]. apply Z.pow_lt_mono_r; lia.
Qed.

Lemma big_zero_spec k i n w :
  0 <= n <= 32 -> 0 <= i <= n ->
  match big_zero k i (Z.shiftl (Z.ones n) 32) w with
  | Some j => i <= j < n /\ Z.testbit w (32 + j) = false
  | None => forall j, i <= j < n -> j < i + Z.of_nat k -> Z.testbit w (32 + j) = true
  end.
Proof.
  intros Hn. revert i; induction k as [|k IH]; intros i Hi; cbn [big_zero]; [lia|].
  destruct (Z.eq_dec i n) as [->|Hne].
  - replace (Z.land (u64 (Z.shiftl 1 (32 + n))) (Z.shiftl (Z.ones n) 32) =? 0) with true; [lia|]. symmetry. apply Z.eqb_eq.
    destruct (Z.eq_dec n 32) as [->|]; [reflexivity|]. rewrite u64_bit, Z.land_comm by lia. apply Z.eqb_eq. rewrite land_one_bit by lia.
    rewrite mask_bit, Z.ltb_irrefl by lia. done.
  - rewrite u64_bit by lia. rewrite (Z.land_comm (Z.shiftl 1 (32 + i))), land_one_bit, mask_bit by lia. rewrite (proj2 (Z.ltb_lt i n)) by lia. cbn [negb].
    rewrite land_one_bit by lia. destruct (Z.testbit w (32 + i)) eqn:E; cbn [negb]; [|split; [lia|done]].
    specialize (IH (i + 1) ltac:(lia)). destruct (big_zero k (i + 1) _ w); [split; [lia|tauto]|].
    intros j Hj Hk. destruct (Z.eq_dec j i) as [->|]; [done|]. apply IH; lia.
Qed.

Lemma big_full w n :
  0 <= n <= 32 -> 0 <= w < 2 ^ (32 + n) ->
  Z.land w NGX_SLAB_MAP_MASK = Z.shiftl (Z.ones n) 32 <-> forall c, 0 <= c < n -> Z.testbit w (32 + c) = true.
Proof.
  intros Hn Hw. change NGX_SLAB_MAP_MASK with (Z.shiftl (Z.ones 32) 32). split.
  - intros E c Hc. apply (f_equal (fun z => Z.testbit z (32 + c))) in E. rewrite Z.land_spec, !mask_bit in E by lia.
    rewrite (proj2 (Z.ltb_lt c n)), (proj2 (Z.ltb_lt c 32)), andb_true_r in E by lia. done.
  - intros H. apply Z.bits_inj'. intros k Hk. rewrite Z.land_spec. destruct (Z.lt_ge_cases k 32).
    + rewrite !Z.shiftl_spec_low by lia. apply andb_false_r.
    + replace k with (32 + (k - 32)) by lia. rewrite !mask_bit by lia. destruct (Z.ltb_spec (k - 32) n).
      * rewrite H, (proj2 (Z.ltb_lt (k - 32) 32)) by lia. done.
      * rewrite (proj1 (bits_bounded w (32 + n) ltac:(lia) ltac:(lia)) ltac:(lia)) by lia. done.
Qed.

(** Chunks of more than the exact size. *)
Lemma big_pages_ok s L m i l2 fuel :
  let sh := sp_min_shift s + m in
  slab_inv s L -> L (DSlot m) = i :: l2 -> 6 < sh ->
  exists c s', big_pages (S fuel) sh (big_mask (slab_at s i)) (Some (DPage i)) s = Some (Some (page_addr s i + Z.shiftl c sh), s') /\ took_chunk s i sh c s'.
Proof.
  intros sh Hinv HL Hsh. destruct (slot_listed s L m i Hinv ltac:(rewrite HL; left)) as (Hi & Hci & Hf & _). fold sh in Hci, Hf.
  pose proof (ch_shift _ _ _ Hci) as Hs11. destruct (chunks_bound sh ltac:(pose proof (pa_shift _ (iv_params _ _ Hinv)); lia)) as (Hn & _ & Hn32). specialize (Hn32 Hsh).
  assert (Vi := valid_page s i Hi). cbn [big_pages]. rewrite (rd_ok sp_slab s _ Vi). cbn [mbind option_bind]. fold (slab_at s i).
  set (w := slab_at s i). destruct (ch_big _ _ _ Hci Hsh) as [Hw15 Hw]. fold w in Hw15, Hw. rewrite (big_mask_eq sh w) by (done || lia).
  assert (Hub : forall s' c, used_bit s' i sh c = Z.testbit (slab_at s' i) (32 + c)).
  { intros s' c. unfold used_bit. by rewrite (proj2 (Z.ltb_ge sh 6)), (proj2 (Z.eqb_neq sh 6)) by lia. }
  assert (E : negb (Z.land w NGX_SLAB_MAP_MASK =? Z.shiftl (Z.ones (chunks sh)) 32) = true).
  { apply negb_true_iff, Z.eqb_neq. intros E. destruct Hf as (c & Hc & Hb). rewrite Hub in Hb. fold w in Hb.
    rewrite (proj1 (big_full w (chunks sh) ltac:(lia) Hw) E c Hc) in Hb. done. }
  rewrite E. pose proof (big_zero_spec 64 0 (chunks sh) w ltac:(lia) ltac:(lia)) as Hz. destruct (big_zero 64 0 _ w) as [c|].
  2:{ exfalso. destruct Hf as (c & Hc & Hb). rewrite Hub in Hb. fold w in Hb. rewrite Hz in Hb by lia. done. }
  destruct Hz as [Hc Hbit]. rewrite (wr_ok _ _ _ _ Vi). cbn [mbind option_bind]. set (w1 := Z.lor w (Z.shiftl 1 (32 + c))).
  set (s1 := set_slab (DPage i) w1 s). assert (Ew : slab_at s1 i = w1) by (unfold s1, slab_at; fn).
  assert (Hb1 : forall c', 0 <= c' -> used_bit s1 i sh c' = (c' =? c) || used_bit s i sh c').
  { intros c' Hc'. rewrite !Hub, Ew. unfold w1. rewrite lor_bit by lia. fold w. f_equal. destruct (Z.eqb_spec c' c), (Z.eqb_spec (32 + c') (32 + c)); lia. }
  assert (Hw1 : 0 <= w1 < 2 ^ (32 + chunks sh)) by (apply lor_bound; lia).
  assert (Ht : touched s s1 i) by (split; [done|done|done|intros j Hj; unfold s1, slab_at; fn|done]).
  assert (Hc1 : cut_page s1 i sh).
  { destruct Hci as [H1 H2 _ _ _ H6]. split; [exact H1|exact H2|intros; exfalso; lia|intros; exfalso; lia| |].
    - intros _. rewrite Ew. split; [|done]. rewrite <- Hw15. apply Z.bits_inj'. intros k Hk. unfold w1. rewrite !Z.land_spec, lor_bit by lia.
      destruct (Z.eqb_spec k (32 + c)) as [->|]; [|done]. change 15 with (Z.ones 4). rewrite !Z.ones_spec_high by lia. by rewrite !andb_false_r.
    - intros c' Hc'. rewrite Hb1 by lia. rewrite H6 by done. by rewrite orb_true_r. }
  destruct (take_chunk s s1 L m i [] l2 c (Z.land w1 NGX_SLAB_MAP_MASK =? Z.shiftl (Z.ones (chunks sh)) 32)) as (s' & Hpf & Htc); fold sh; try done.
  - by rewrite Hub.
  - intros c' Hc'. apply Hb1. lia.
  - rewrite Z.eqb_eq, full_bits, (big_full w1 (chunks sh)) by (lia || done). split; intros H k Hk; [rewrite Hub, Ew|rewrite <- Ew, <- Hub]; by apply H.
  - fold sh in Hpf, Htc. assert (Et : type_of sh = NGX_SLAB_BIG) by (unfold type_of; by rewrite (proj2 (Z.ltb_ge sh 6)), (proj2 (Z.eqb_neq sh 6)) by lia).
    rewrite Et in Hpf. rewrite Hpf. cbn [mbind option_bind page_index]. exists c, s'.
    rewrite (same_params_addr s s' i (tc_params _ _ _ _ _ Htc)). done.
Qed.

(** ** Small chunks *)

Lemma small_map sh : 3 <= sh < 6 -> 2 <= map_words sh <= 8 /\ chunks sh = 64 * map_words sh /\ reserved sh = map_chunks sh /\ 1 <= map_chunks sh <= 8 /\
  8 * map_words sh <= map_chunks sh * 2 ^ sh.
Proof.
  intros H. assert (sh = 3 \/ sh = 4 \/ sh = 5) as [->|[->| ->]] by lia; vm_compute; repeat split; intros; discriminate.
Qed.

Lemma word_access s i k : 0 <= i < sp_npages s -> 0 <= k < 512 -> in_pages s (page_addr s i + 8 * k) = true.
Proof. intros Hi Hk. unfold in_pages. rewrite page_addr_eq. apply andb_true_iff. split; zify_bool; lia. Qed.

Definition word (s : slab_pool) (i k : Z) : Z := sp_word s (page_addr s i + 8 * k).

Lemma small_bit s i sh c : 3 <= sh < 6 -> used_bit s i sh c = Z.testbit (word s i (c / 64)) (c mod 64).
Proof. intros H. unfold used_bit, word. by rewrite (proj2 (Z.ltb_lt sh 6)) by lia. Qed.

Lemma word_bits w : 0 <= w < 2 ^ 64 -> w = NGX_SLAB_BUSY <-> forall b, 0 <= b < 64 -> Z.testbit w b = true.
Proof. intros H. apply (ones_bits w 64); [lia|done]. Qed.

(** A bitmap is full when its words are. *)
Lemma small_full s i sh :
  3 <= sh < 6 -> (forall k, 0 <= k < map_words sh -> 0 <= word s i k < 2 ^ 64) ->
  ~ has_free s i sh <-> forall k, 0 <= k < map_words sh -> word s i k = NGX_SLAB_BUSY.
Proof.
  intros Hs Hw. destruct (small_map sh Hs) as (_ & Ec & _). rewrite full_bits. split.
  - intros H k Hk. apply word_bits; [by apply Hw|]. intros b Hb. specialize (H (64 * k + b) ltac:(lia)). rewrite small_bit in H by done.
    replace ((64 * k + b) / 64) with k in H by (apply (Z.div_unique _ _ _ b); lia).
    by replace ((64 * k + b) mod 64) with b in H by (apply (Z.mod_unique _ _ k); lia).
  - intros H c Hc. rewrite small_bit by done. pose proof (chunks_words sh c Hs ltac:(lia)) as Hd.
    apply word_bits; [by apply Hw|by apply H|]. apply Z.mod_pos_bound. lia.
Qed.

Lemma free_word_ok s i k n :
  0 <= i < sp_npages s -> 0 <= n -> n + Z.of_nat k <= 512 ->
  exists b, free_word k (page_addr s i) n s = Some b /\ (b = false <-> forall j, n <= j < n + Z.of_nat k -> word s i j = NGX_SLAB_BUSY).
Proof.
  intros Hi. revert n; induction k as [|k IH]; intros n Hn Hk; cbn [free_word]; [exists false; split; [done|]; split; [lia|done]|].
  unfold rd_word. rewrite word_access by lia. cbn [mbind option_bind]. fold (word s i n).
  destruct (Z.eqb_spec (word s i n) NGX_SLAB_BUSY) as [E|E]; cbn [negb].
  - destruct (IH (n + 1) ltac:(lia) ltac:(lia)) as (b & -> & Hb). exists b. split; [done|]. rewrite Hb. split; intros H j Hj.
    + destruct (Z.eq_dec j n) as [->|]; [done|]. apply H. lia.
    + apply H. lia.
  - exists true. split; [done|]. split; [done|]. intros H. exfalso. apply E, H. lia.
Qed.

(** The page with the bit [b] of the word [n] set. *)
Lemma small_touch s i sh n w :
  0 <= i < sp_npages s -> 3 <= sh < 6 -> 0 <= n < map_words sh ->
  let s1 := set_word (page_addr s i + 8 * n) w s in
  touched s s1 i /\ word s1 i n = w /\ forall k, k <> n -> word s1 i k = word s i k.
Proof.
  intros Hi Hs Hn s1. destruct (small_map sh Hs) as (Hm & _). split_and!.
  - split; [done|done|done|done|]. intros a Ha. unfold s1. cbn. unfold insert, fn_insert. rewrite decide_False; [done|]. intros <-.
    apply Ha. unfold page_words. lia.
  - unfold s1, word. cbn. unfold insert, fn_insert. by rewrite decide_True by done.
  - intros k Hk. unfold s1, word. cbn. unfold insert, fn_insert. change (page_addr (set_word _ _ _) i) with (page_addr s i).
    rewrite decide_False by lia. done.
Qed.

Lemma small_chunked s s1 i sh :
  3 <= sh < 6 -> cut_page s i sh -> touched s s1 i -> sp_slab s1 = sp_slab s ->
  (forall k, 0 <= k < map_words sh -> 0 <= word s1 i k < 2 ^ 64) ->
  (forall c, 0 <= c < reserved sh -> used_bit s1 i sh c = true) -> cut_page s1 i sh.
Proof.
  intros Hs [H1 H2 H3 H4 H5 H6] Ht E Hw Hr. assert (Em : sp_min_shift s1 = sp_min_shift s) by apply (to_params _ _ _ Ht). split.
  - by rewrite Em.
  - unfold tag. by rewrite (to_prev _ _ _ Ht).
  - intros _. unfold slab_at. rewrite E. split; [apply H3; lia|]. intros k Hk. by apply Hw.
  - intros; exfalso; lia.
  - intros; exfalso; lia.
  - done.
Qed.

Lemma small_words_ok s L m i l2 k n :
  let sh := sp_min_shift s + m in
  slab_inv s L -> L (DSlot m) = i :: l2 -> 3 <= sh < 6 -> 0 <= n -> n + Z.of_nat k = map_words sh ->
  (forall j, 0 <= j < n -> word s i j = NGX_SLAB_BUSY) ->
  exists c s', small_words k (Some (DPage i)) sh (map_words sh) (page_addr s i) n s =
    Some (Some (page_addr s i + Z.shiftl c sh), s') /\ took_chunk s i sh c s'.
Proof.
  intros sh Hinv HL Hsh. destruct (slot_listed s L m i Hinv ltac:(rewrite HL; left)) as (Hi & Hci & Hf & _). fold sh in Hci, Hf.
  destruct (small_map sh Hsh) as (Hm & Ec & Er & _). destruct (ch_small _ _ _ Hci ltac:(lia)) as [_ Hwb]. fold (word s i) in Hwb.
  revert n; induction k as [|k IH]; intros n Hn Hk Hbusy; cbn [small_words].
  { exfalso. revert Hf. apply (small_full s i sh Hsh Hwb). intros j Hj. apply Hbusy. lia. }
  unfold rd_word at 1. rewrite word_access by lia. cbn [mbind option_bind]. change (sp_word s (page_addr s i + 8 * n)) with (word s i n).
  set (w := word s i n). assert (Hw := Hwb n ltac:(lia)). change (0 <= w < 2 ^ 64) in Hw.
  destruct (Z.eqb_spec w NGX_SLAB_BUSY) as [E|E]; cbn [negb].
  { apply IH; [lia|lia|]. intros j Hj. destruct (Z.eq_dec j n) as [->|]; [done|]. apply Hbusy. lia. }
  pose proof (first_zero_spec 64 0 w ltac:(lia)) as Hz. destruct (first_zero 64 0 w) as [b|];
    [|exfalso; apply E, word_bits; [done|]; intros b Hb; apply Hz; lia].
  destruct Hz as [Hb Hbit]. change (0 <= b < 64) in Hb. unfold wr_word. rewrite word_access by lia. cbn [mbind option_bind].
  set (w1 := Z.lor w (Z.shiftl 1 b)). destruct (small_touch s i sh n w1 Hi Hsh ltac:(lia)) as (Ht & Ew1 & Ewk).
  set (s1 := set_word _ w1 s) in *. set (c := 64 * n + b).
  assert (Hcd : c / 64 = n /\ c mod 64 = b) by (unfold c; split; [symmetry; apply (Z.div_unique _ _ _ b); lia|symmetry; apply (Z.mod_unique _ _ n); lia]).
  assert (Hw1 : 0 <= w1 < 2 ^ 64) by (apply lor_bound; lia).
  assert (Hb1 : forall c', 0 <= c' < chunks sh -> used_bit s1 i sh c' = (c' =? c) || used_bit s i sh c').
  { intros c' Hc'. rewrite !small_bit by done. pose proof (Z.mod_pos_bound c' 64 ltac:(lia)). pose proof (Z.div_mod c' 64 ltac:(lia)).
    destruct (Z.eq_dec (c' / 64) n) as [En|En].
    - rewrite En, Ew1. unfold w1. rewrite lor_bit by lia. fold w. f_equal. unfold c. destruct (Z.eqb_spec (c' mod 64) b), (Z.eqb_spec c' (64 * n + b)); lia.
    - rewrite Ewk by done. rewrite (proj2 (Z.eqb_neq c' c)); [done|]. intros ->. destruct Hcd. lia. }
  assert (Hwb1 : forall j, 0 <= j < map_words sh -> 0 <= word s1 i j < 2 ^ 64).
  { intros j Hj. destruct (Z.eq_dec j n) as [->|]; [by rewrite Ew1|]. rewrite Ewk by done. by apply Hwb. }
  assert (Hc1 : cut_page s1 i sh).
  { apply (small_chunked s s1); [done..|]. intros c' Hc'. rewrite Hb1 by (pose proof (reserved_bound sh ltac:(lia)); lia).
    rewrite (ch_reserved _ _ _ Hci) by done. apply orb_true_r. }
  destruct (free_word_ok s1 i (Z.to_nat (map_words sh - (n + 1))) (n + 1) Hi ltac:(lia) ltac:(lia)) as (fw & Efw & Hfw).
  change (page_addr s1 i) with (page_addr s i) in Efw.
  assert (Hfull : (w1 =? NGX_SLAB_BUSY) && negb fw = true <-> ~ has_free s1 i sh).
  { rewrite (small_full s1 i sh Hsh Hwb1), andb_true_iff, Z.eqb_eq, negb_true_iff, Hfw. split.
    - intros [H1 H2] j Hj. destruct (Z.lt_trichotomy j n) as [H|[->|H]]; [rewrite Ewk by lia; apply Hbusy; lia|congruence|apply H2; lia].
    - intros H. split; [rewrite <- Ew1; apply H; lia|]. intros j Hj. apply H. lia. }
  assert (Hcr : 0 <= c < chunks sh) by (unfold c; lia).
  assert (Hwas : used_bit s i sh c = false) by (rewrite small_bit by done; destruct Hcd as [-> ->]; done).
  destruct (take_chunk s s1 L m i [] l2 c _ Hinv HL Ht Hc1 Hcr Hwas Hb1 Hfull) as (s' & Hpf & Htc). fold sh in Hpf, Htc.
  assert (Et : type_of sh = NGX_SLAB_SMALL) by (unfold type_of; by rewrite (proj2 (Z.ltb_lt sh 6)) by lia). rewrite Et in Hpf.
  exists c, s'. split; [|done]. replace (Z.shiftl c sh) with (Z.shiftl (n * 64) sh + Z.shiftl b sh) by (unfold c; rewrite !Z.shiftl_mul_pow2 by lia; lia).
  destruct (w1 =? NGX_SLAB_BUSY); cbn [andb] in Hpf; [|by injection Hpf as <-].
  rewrite Efw. cbn [mbind option_bind]. destruct fw; cbn [negb] in Hpf; [by injection Hpf as <-|by rewrite Hpf].
Qed.

(** ** The search *)

(** A chunk of the first page of the list of the slot, if there is one. *)
Lemma search_pages_ok s L m :
  let sh := sp_min_shift s + m in
  slab_inv s L -> 0 <= m < 12 - sp_min_shift s ->
  match L (DSlot m) with
  | [] => search_pages m sh s = Some (None, s)
  | i :: _ => exists c s', search_pages m sh s = Some (Some (page_addr s i + Z.shiftl c sh), s') /\ took_chunk s i sh c s'
  end.
Proof.
  intros sh Hinv Hm. pose proof (pa_shift _ (iv_params _ _ Hinv)) as A1. unfold search_pages.
  destruct (iv_list _ _ Hinv (DSlot m) Hm) as [Hc _]. assert (Vh := valid_slot s m Hm).
  rewrite (rd_ok sp_next s (DSlot m) Vh). cbn [mbind option_bind].
  destruct (L (DSlot m)) as [|i l2] eqn:EL; cbn in Hc.
  - rewrite Hc, (rd_ok sp_next s (DSlot m) Vh), Hc. cbn [mbind option_bind]. by rewrite bool_decide_true by done.
  - destruct Hc as (Hn & _ & Hc). destruct (slot_listed s L m i Hinv ltac:(rewrite EL; left)) as (Hi & _).
    rewrite Hn, (rd_ok sp_next s (DPage i) (valid_page s i Hi)). cbn [mbind option_bind]. rewrite bool_decide_false.
    2:{ destruct l2 as [|j l2]; cbn in Hc; [congruence|]. destruct Hc as (E & _). rewrite E. intros [= ->].
        destruct (iv_list _ _ Hinv (DSlot m) Hm) as [_ Hnd]. rewrite EL in Hnd. apply NoDup_cons in Hnd as [Hnd _]. apply Hnd. left. }
    cbn [negb]. replace (Z.to_nat (sp_npages s + 1)) with (S (Z.to_nat (sp_npages s))) by (pose proof (pa_pages _ (iv_params _ _ Hinv)); lia).
    destruct (Z.ltb_spec sh 6); [|destruct (Z.eqb_spec sh 6) as [E|E]].
    + destruct (small_map sh ltac:(lia)) as (Hmw & _).
      destruct (small_words_ok s L m i l2 (Z.to_nat (map_words sh)) 0 Hinv EL ltac:(lia) ltac:(lia) ltac:(fold sh; lia) ltac:(lia)) as (c & s' & Hsw & Ht).
      exists c, s'. split; [|done]. cbn [small_pages page_index]. cbn [mbind option_bind]. fold sh in Hsw. by rewrite Hsw.
    + rewrite E. by apply (exact_pages_ok s L m i l2).
    + rewrite (rd_ok sp_slab s (DPage i) (valid_page s i Hi)). cbn [mbind option_bind]. apply (big_pages_ok s L m i l2); [done..|]. fold sh. lia.
Qed.

(** ** A new page *)

Lemma clear_words_ok s i k n :
  0 <= i < sp_npages s -> 0 <= n -> n + Z.of_nat k <= 512 ->
  exists s', clear_words k (page_addr s i) n s = Some s' /\ touched s s' i /\ sp_slab s' = sp_slab s /\
    (forall j, n <= j < n + Z.of_nat k -> word s' i j = 0) /\ (forall j, ~ n <= j < n + Z.of_nat k -> word s' i j = word s i j).
Proof.
  intros Hi. revert n s Hi; induction k as [|k IH]; intros n s Hi Hn Hk; cbn [clear_words].
  - exists s. split_and!; [done|split; done|done|lia|done].
  - unfold wr_word. rewrite word_access by lia. cbn [mbind option_bind]. set (s1 := set_word _ _ s).
    destruct (IH (n + 1) s1 Hi ltac:(lia) ltac:(lia)) as (s' & E & [T1 T2 T3 T4 T5] & Es & H1 & H2). exists s'. split; [exact E|].
    assert (Hw : forall j, word s1 i j = if decide (j = n) then 0 else word s i j).
    { intros j. unfold word, s1. cbn. unfold insert, fn_insert. change (page_addr (set_word _ _ _) i) with (page_addr s i). repeat case_decide; lia. }
    split_and!; [split; [exact T1|exact T2|exact T3|exact T4|]|exact Es|..].
    + intros a Ha. rewrite T5 by exact Ha. unfold s1. cbn. unfold insert, fn_insert. rewrite decide_False; [done|]. intros <-. apply Ha. unfold page_words. lia.
    + intros j Hj. destruct (Z.eq_dec j n) as [->|]; [|apply H1; lia]. rewrite H2 by lia. rewrite Hw. by rewrite decide_True.
    + intros j Hj. rewrite H2 by lia. rewrite Hw. by rewrite decide_False by lia.
Qed.

(** A page that is in use as a run of one. *)
Lemma single_run s L i :
  slab_inv s L -> 0 <= i < sp_npages s -> tag s i = 0 -> slab_at s i = NGX_SLAB_PAGE_START + 1 -> block s i 1 /\ unlisted L i.
Proof.
  intros Hinv Hi Ht Hs. destruct (iv_params _ _ Hinv) as [_ _ A3 _ _].
  destruct (iv_page _ _ Hinv i Hi) as [_ [?|?] _|k _ K2 K3 _ K5|k _ K2 (? & ? & _) _|sh K _ _|sh K _ _ _]; [lia|lia| |lia|..].
  - assert (k = 1) as -> by lia. split; [|done]. left. exists NGX_SLAB_PAGE_BUSY. auto.
  - pose proof (ch_tag _ _ _ K). pose proof (type_of_pos sh). lia.
  - pose proof (ch_tag _ _ _ K). pose proof (type_of_pos sh). lia.
Qed.

Section Fresh.
Context (s s1 : slab_pool) (L : desc -> list Z) (m i v : Z).
Let sh := sp_min_shift s + m.
Hypothesis Hinv : slab_inv s L.
Hypothesis Hm : 0 <= m < 12 - sp_min_shift s.
Hypothesis Hi : 0 <= i < sp_npages s.
Hypothesis Htag : tag s i = 0.
Hypothesis Hslab : slab_at s i = NGX_SLAB_PAGE_START + 1.
Hypothesis Hempty : L (DSlot m) = [].
Hypothesis Ht : touched s s1 i.
Let s' := set_next (DSlot m) (Some (DPage i)) (set_prev (DPage i) (Some (DSlot m), type_of sh)
            (set_next (DPage i) (Some (DSlot m)) (set_slab (DPage i) v s1))).

Lemma fresh_page_eq : fresh_page i m v (type_of sh) s1 = Some s'.
Proof using Hm Hi Ht.
  destruct (to_params _ _ _ Ht) as (_ & E2 & E3 & _). assert (Vi : valid s1 (DPage i) = true) by (apply valid_page; lia).
  assert (Vh : valid s1 (DSlot m) = true) by (apply valid_slot; lia). unfold fresh_page.
  rewrite (wr_ok _ _ _ _ Vi). cbn [mbind option_bind]. rewrite wr_ok by exact Vi. cbn [mbind option_bind].
  rewrite wr_ok by exact Vi. cbn [mbind option_bind]. by rewrite wr_ok by exact Vh.
Qed.

Lemma fresh_data j : j <> i -> same_data s s' j.
Proof using Ht.
  intros Hj. destruct (same_page_data _ _ _ _ _ (touched_page s s1 i j (fun _ => []) Ht Hj)) as (T1 & T2 & T4). split_and!.
  - rewrite <- T1. unfold tag, s'. cbn. unfold insert, fn_insert. rewrite decide_False; [done|]. congruence.
  - rewrite <- T2. unfold slab_at, s'. cbn. unfold insert, fn_insert. rewrite decide_False; [done|]. congruence.
  - intros a Ha. by rewrite <- T4.
Qed.

Lemma fresh_inv : cut_page s' i sh -> has_free s' i sh -> slab_inv s' (<[DSlot m := [i]]> L).
Proof using Hinv Hm Hi Htag Hslab Hempty Ht.
  intros Hc Hf. destruct (single_run s L i Hinv Hi Htag Hslab) as [HB Hul]. pose proof (to_params _ _ _ Ht) as Hp.
  assert (Hnx : forall d, d <> DPage i -> d <> DSlot m -> sp_next s' d = sp_next s d /\ sp_prev s' d = sp_prev s d).
  { intros d H1 H2. unfold s'. cbn. unfold insert, fn_insert. rewrite !decide_False by congruence. by rewrite (to_next _ _ _ Ht), (to_prev _ _ _ Ht). }
  assert (HL2 : forall h j, j <> i -> j ∈ <[DSlot m := [i]]> L h <-> j ∈ L h).
  { intros h j Hne. unfold insert, fn_insert. case_decide as E; [|done]. subst h. rewrite Hempty, list_elem_of_singleton, elem_of_nil. tauto. }
  eapply (inv_update s s' L _ i 1 Hinv HB); [lia|exact Hp|..].
  - intros j Hj Hne. destruct (fresh_data j ltac:(lia)) as (T1 & T2 & T3). split_and!; [done|done| |done|].
    + destruct (Hnx (DPage j)) as [-> _]; [intros [= ->]; lia|done|done].
    + intros h. apply HL2. lia.
  - intros j Hj. assert (j = i) as -> by lia. apply (pk_chunks _ _ _ sh); [done..|].
    replace (sp_min_shift s') with (sp_min_shift s) by (symmetry; apply Hp). unfold sh. replace (sp_min_shift s + m - sp_min_shift s) with m by lia.
    split; [unfold insert, fn_insert; rewrite decide_True by done; left|]. intros h Hh. unfold insert, fn_insert. rewrite decide_False by congruence. apply Hul.
  - intros h Hh. destruct (iv_list _ _ Hinv h Hh) as [Hch Hnd]. unfold insert at 1 2, fn_insert at 1 2. case_decide as E.
    + subst h. split; [|apply NoDup_singleton]. cbn [head_type]. fold sh. cbn. unfold s'. split_and!; fn.
    + split; [|done]. eapply list_frame; [exact Hch| |].
      * apply Hnx; [by destruct h|congruence].
      * intros j Hj. apply Hnx; [|done]. intros [= ->]. by apply (Hul h).
  - intros h j Hj. destruct (Z.eq_dec j i) as [->|Hne]; [|apply HL2 in Hj; [by apply (iv_in _ _ Hinv)|done]].
    split; [|done]. unfold insert, fn_insert in Hj. case_decide; [by subst h|]. by apply Hul in Hj.
Qed.
End Fresh.

(** A page of chunks was made of the first page of the free run at [i], with one
    chunk in use. *)
Record took_fresh (s : slab_pool) (L : desc -> list Z) (i sh : Z) (s' : slab_pool) : Prop := {
  tf_inv : exists M, slab_inv s' M;
  tf_params : same_params s s';
  tf_free : i ∈ L DFree;
  tf_chunked : cut_page s' i sh;
  tf_bits c : 0 <= c < chunks sh -> used_bit s' i sh c = (c <=? reserved sh);
  tf_outside j : 0 <= j -> ~ i <= j < i + slab_at s i -> same_data s s' j;
  tf_inner j : i < j < i + slab_at s i -> tag s' j = 0 /\ (slab_at s' j < NGX_SLAB_PAGE_START \/ slab_at s' j = NGX_SLAB_PAGE_BUSY)
}.

Lemma fresh_took s L i s0 M s1 m v :
  let sh := sp_min_shift s + m in
  let s' := set_next (DSlot m) (Some (DPage i)) (set_prev (DPage i) (Some (DSlot m), type_of sh)
              (set_next (DPage i) (Some (DSlot m)) (set_slab (DPage i) v s1))) in
  slab_inv s L -> 0 <= m < 12 - sp_min_shift s -> L (DSlot m) = [] -> i ∈ L DFree -> took s L i 1 s0 M -> touched s0 s1 i ->
  cut_page s' i sh -> (forall c, 0 <= c < chunks sh -> used_bit s' i sh c = (c <=? reserved sh)) ->
  fresh_page i m v (type_of sh) s1 = Some s' /\ took_fresh s L i sh s'.
Proof.
  intros sh s' Hinv Hm HL Hi Htk Ht Hc Hb. destruct (free_listed s L i Hinv Hi) as (Hir & _ & (Hn & _) & _).
  pose proof (tk_params _ _ _ _ _ _ Htk) as Hp0. assert (Em : sp_min_shift s0 = sp_min_shift s) by apply Hp0. assert (EN : sp_npages s0 = sp_npages s) by apply Hp0.
  assert (Hsh : sh = sp_min_shift s0 + m) by lia. pose proof (pa_shift _ (iv_params _ _ Hinv)) as A1.
  assert (Hfree : has_free s' i sh).
  { destruct (chunks_bound sh ltac:(unfold sh; lia)) as (Hcb & _). exists (chunks sh - 1). split; [lia|]. rewrite Hb by lia. apply Z.leb_gt.
    unfold reserved. destruct (Z.ltb_spec sh 6); [|lia]. destruct (small_map sh ltac:(unfold sh in *; lia)) as (? & ? & _ & ? & _). lia. }
  assert (Hd : forall j, j <> i -> same_data s0 s' j) by (intros j Hj; unfold s'; rewrite Hsh; by apply fresh_data).
  assert (E : fresh_page i m v (type_of sh) s1 = Some s') by (unfold s'; rewrite Hsh; apply (fresh_page_eq s0); [lia|lia|done]).
  split; [exact E|]. split; try done.
  - eexists. unfold s' in *. rewrite Hsh in *. eapply (fresh_inv s0 s1 M m i v); try done; [apply (tk_inv _ _ _ _ _ _ Htk)|lia|lia|apply (tk_tag _ _ _ _ _ _ Htk)|
      apply (tk_slab _ _ _ _ _ _ Htk)|by rewrite (tk_slots _ _ _ _ _ _ Htk)].
  - eapply same_params_trans; [exact Hp0|]. exact (to_params _ _ _ Ht).
  - intros j Hj Hr. eapply same_data_trans; [exact Hp0|eapply same_page_data, (tk_outside _ _ _ _ _ _ Htk); lia|apply Hd; lia].
  - intros j Hj. destruct (Hd j ltac:(lia)) as (-> & -> & _). by apply (tk_inner _ _ _ _ _ _ Htk).
Qed.

Section AllocFresh.
Context (s : slab_pool) (L : desc -> list Z) (m i : Z) (s0 : slab_pool) (M : desc -> list Z).
Let sh := sp_min_shift s + m.
Hypothesis Hinv : slab_inv s L.
Hypothesis Hm : 0 <= m < 12 - sp_min_shift s.
Hypothesis HL : L (DSlot m) = [].
Hypothesis Hi : i ∈ L DFree.
Hypothesis Htk : took s L i 1 s0 M.

Lemma fresh_facts : 3 <= sh <= 11 /\ 0 <= i < sp_npages s0 /\ sp_min_shift s0 = sp_min_shift s /\ page_addr s0 i = page_addr s i.
Proof using Hinv Hm Hi Htk.
  pose proof (pa_shift _ (iv_params _ _ Hinv)) as A1. destruct (free_listed s L i Hinv Hi) as (Hir & _).
  pose proof (tk_params _ _ _ _ _ _ Htk) as Hp. assert (EN : sp_npages s0 = sp_npages s) by apply Hp. assert (Em : sp_min_shift s0 = sp_min_shift s) by apply Hp.
  unfold sh. split_and!; try lia. by apply same_params_addr.
Qed.

(** The fields of the new page. *)
Lemma fresh_fields s1 v :
  touched s0 s1 i ->
  let s' := set_next (DSlot m) (Some (DPage i)) (set_prev (DPage i) (Some (DSlot m), type_of sh)
              (set_next (DPage i) (Some (DSlot m)) (set_slab (DPage i) v s1))) in
  tag s' i = type_of sh /\ slab_at s' i = v /\ sp_min_shift s' <= sh <= 11 /\ (forall k, word s' i k = word s1 i k).
Proof using Hinv Hm Hi Htk.
  intros Ht s'. destruct fresh_facts as (? & _ & Em & _). destruct (to_params _ _ _ Ht) as (_ & Em' & _). unfold s', tag, slab_at.
  split_and!; [fn|fn|cbn; unfold sh; lia|lia|done].
Qed.

(** The bitmap of a page of small chunks. *)
Lemma fresh_bitmap : sh < 6 ->
  exists s2, (s ← wr_word (page_addr s0 i) (Z.shiftl 2 (map_chunks sh) - 1) s0;
              clear_words (Z.to_nat (map_words sh - 1)) (page_addr s0 i) 1 s) = Some s2 /\ touched s0 s2 i /\
    word s2 i 0 = Z.ones (map_chunks sh + 1) /\ forall k, 0 < k < map_words sh -> word s2 i k = 0.
Proof using Hinv Hm Hi Htk.
  intros Hlt. destruct fresh_facts as (Hsh & Hir & _). destruct (small_map sh ltac:(lia)) as (Hmw & Ec & Er & Hmc & _).
  unfold wr_word at 1. replace (in_pages s0 (page_addr s0 i)) with true;
    [|symmetry; rewrite <- (Z.add_0_r (page_addr s0 i)); change 0 with (8 * 0); apply word_access; lia].
  cbn [mbind option_bind]. destruct (small_touch s0 i sh 0 (Z.shiftl 2 (map_chunks sh) - 1) Hir ltac:(lia) ltac:(lia)) as (T1 & W0 & Wk).
  replace (page_addr s0 i + 8 * 0) with (page_addr s0 i) in * by lia. set (s1 := set_word (page_addr s0 i) _ s0) in *.
  destruct (clear_words_ok s1 i (Z.to_nat (map_words sh - 1)) 1 Hir ltac:(lia) ltac:(lia)) as (s2 & E2 & T2 & Es2 & Z1 & Z2).
  exists s2. split_and!; [exact E2|..].
  - destruct T1 as [P1 N1 V1 L1 D1], T2 as [P2 N2 V2 L2 D2]. split; [by eapply same_params_trans|congruence|congruence| |].
    + intros j Hj. rewrite L2, L1 by done. done.
    + intros a Ha. rewrite D2; [by apply D1|exact Ha].
  - rewrite Z2 by lia. rewrite W0, Z.shiftl_mul_pow2, Z.ones_equiv, Z.pow_add_r by lia. lia.
  - intros k Hk. apply Z1. lia.
Qed.

Lemma fresh_small : sh < 6 ->
  exists s',
    (s ← wr_word (page_addr s0 i) (Z.shiftl 2 (map_chunks sh) - 1) s0;
     s ← clear_words (Z.to_nat (map_words sh - 1)) (page_addr s0 i) 1 s;
     s ← fresh_page i m sh NGX_SLAB_SMALL s;
     Some (Some (page_addr s i + Z.shiftl 1 sh * map_chunks sh), s)) = Some (Some (page_addr s i + reserved sh * 2 ^ sh), s') /\
    took_fresh s L i sh s'.
Proof using Hinv Hm HL Hi Htk.
  intros Hlt. destruct fresh_facts as (Hsh & Hir & _ & Ea). destruct (small_map sh ltac:(lia)) as (Hmw & Ec & Er & Hmc & _).
  destruct (fresh_bitmap Hlt) as (s2 & E2 & T & Hw0 & Hwk). destruct (fresh_fields s2 sh T) as (I1 & I2 & I3 & I4).
  set (s' := set_next _ _ _) in *.
  assert (Hb : forall c, 0 <= c < chunks sh -> used_bit s' i sh c = (c <=? reserved sh)).
  { intros c Hc. rewrite small_bit, I4, Er by lia. destruct (Z.lt_ge_cases c 64) as [Hc64|Hc64].
    - rewrite (Z.div_small c 64), (Z.mod_small c 64), Hw0 by lia.
      destruct (Z.leb_spec c (map_chunks sh)); [apply Z.ones_spec_low; lia|apply Z.ones_spec_high; lia].
    - rewrite Hwk, Z.bits_0 by (split; [apply Z.div_str_pos; lia|apply chunks_words; [lia|done]]). symmetry. apply Z.leb_gt. lia. }
  assert (Hc : cut_page s' i sh).
  { split; [exact I3|exact I1| |intros; exfalso; lia|intros; exfalso; lia|].
    - intros _. split; [exact I2|]. intros k Hk. change (0 <= word s' i k < 2 ^ 64). rewrite I4. destruct (Z.eq_dec k 0) as [->|]; [|rewrite Hwk by lia; lia].
      rewrite Hw0, Z.ones_equiv. assert (2 ^ (map_chunks sh + 1) <= 2 ^ 9) by (apply Z.pow_le_mono_r; lia).
      pose proof (Z.pow_pos_nonneg 2 (map_chunks sh + 1) ltac:(lia) ltac:(lia)). lia.
    - intros c Hc. rewrite Hb by lia. apply Z.leb_le. lia. }
  destruct (fresh_took s L i s0 M s2 m sh Hinv Hm HL Hi Htk T Hc Hb) as [Ef Htf]. fold sh s' in Ef, Htf.
  assert (Et : type_of sh = NGX_SLAB_SMALL) by (unfold type_of; by rewrite (proj2 (Z.ltb_lt sh 6)) by lia).
  destruct (wr_word (page_addr s0 i) _ s0) as [s1|]; [|done]. cbn [mbind option_bind] in *. rewrite E2. cbn [mbind option_bind].
  rewrite Et in Ef at 1. rewrite Ef. cbn [mbind option_bind]. exists s'. split; [|exact Htf]. do 3 f_equal.
  rewrite (same_params_addr s s' i (tf_params _ _ _ _ _ Htf)), Er, Z.shiftl_1_l. lia.
Qed.

Lemma fresh_slab v : 6 <= sh -> (sh = 6 -> v = 1) -> (6 < sh -> v = Z.lor (Z.shiftl 1 32) sh) ->
  exists s', (s ← fresh_page i m v (type_of sh) s0; Some (Some (page_addr s i), s)) = Some (Some (page_addr s i + reserved sh * 2 ^ sh), s') /\
    took_fresh s L i sh s'.
Proof using Hinv Hm HL Hi Htk.
  intros Hge H6 Hbig. destruct fresh_facts as (Hsh & Hir & _ & Ea). assert (T : touched s0 s0 i) by (split; done).
  destruct (fresh_fields s0 v T) as (I1 & I2 & I3 & _). set (s' := set_next _ _ _) in *.
  assert (Er : reserved sh = 0) by (unfold reserved; by rewrite (proj2 (Z.ltb_ge sh 6))).
  assert (Hv : sh = 6 /\ v = 1 \/ 6 < sh /\ v = 2 ^ 32 + sh).
  { destruct (Z.eq_dec sh 6); [left; auto|right]. split; [lia|]. rewrite Hbig by lia.
    assert (sh = 7 \/ sh = 8 \/ sh = 9 \/ sh = 10 \/ sh = 11) as [->|[->|[->|[->| ->]]]] by lia; reflexivity. }
  assert (Hb : forall c, 0 <= c < chunks sh -> used_bit s' i sh c = (c <=? reserved sh)).
  { intros c Hc. unfold used_bit. rewrite (proj2 (Z.ltb_ge sh 6)), I2, Er by lia. destruct Hv as [[-> ->]|[Hs6 ->]].
    - change (6 =? 6) with true. cbn iota. destruct (Z.eq_dec c 0) as [->|]; [done|]. change 1 with (2 ^ 0) at 1. rewrite Z.pow2_bits_false by lia. symmetry. apply Z.leb_gt. lia.
    - rewrite (proj2 (Z.eqb_neq sh 6)) by lia. replace (32 + c) with (c + 32) by lia. rewrite <- Z.div_pow2_bits by lia.
      replace ((2 ^ 32 + sh) / 2 ^ 32) with (2 ^ 0) by (apply (Z.div_unique _ _ _ sh); lia).
      destruct (Z.eq_dec c 0) as [->|]; [done|]. rewrite Z.pow2_bits_false by lia. symmetry. apply Z.leb_gt. lia. }
  assert (Hc : cut_page s' i sh).
  { destruct (chunks_bound sh Hsh) as (Hn & _). split; [exact I3|exact I1|intros; exfalso; lia|rewrite I2; lia| |intros c Hc; lia].
    intros Hs6. rewrite I2. destruct Hv as [[? _]|[_ ->]]; [lia|]. split.
    - assert (sh = 7 \/ sh = 8 \/ sh = 9 \/ sh = 10 \/ sh = 11) as [->|[->|[->|[->| ->]]]] by lia; reflexivity.
    - assert (2 ^ 33 <= 2 ^ (32 + chunks sh)) by (apply Z.pow_le_mono_r; lia). lia. }
  destruct (fresh_took s L i s0 M s0 m v Hinv Hm HL Hi Htk T Hc Hb) as [Ef Htf]. fold sh s' in Ef, Htf.
  rewrite Ef. cbn [mbind option_bind]. exists s'. split; [|exact Htf]. do 3 f_equal. rewrite (same_params_addr s s' i (tf_params _ _ _ _ _ Htf)), Er. lia.
Qed.
End AllocFresh.

Lemma alloc_fresh_ok s L m :
  let sh := sp_min_shift s + m in
  slab_inv s L -> 0 <= m < 12 - sp_min_shift s -> L (DSlot m) = [] ->
  (exists i s', alloc_fresh m sh s = Some (Some (page_addr s i + reserved sh * 2 ^ sh), s') /\ took_fresh s L i sh s') \/
  (alloc_fresh m sh s = Some (None, s) /\ L DFree = []).
Proof.
  intros sh Hinv Hm HL. unfold alloc_fresh.
  destruct (alloc_pages_ok s L 1 Hinv ltac:(lia)) as [(i & s0 & M & Hi & Hle & -> & Htk)|[-> Hno]]; cbn [mbind option_bind].
  2:{ right. split; [done|]. destruct (L DFree) as [|i l] eqn:E; [done|]. exfalso. specialize (Hno i ltac:(left)).
      destruct (free_listed s L i Hinv) as (_ & _ & (? & _) & _); [rewrite E; left|]. lia. }
  left. exists i. destruct (Z.ltb_spec sh 6) as [Hlt|Hge]; [|destruct (Z.eqb_spec sh 6) as [E6|E6]].
  - by apply (fresh_small s L m i s0 M).
  - assert (Et : type_of sh = NGX_SLAB_EXACT) by (by rewrite E6).
    destruct (fresh_slab s L m i s0 M Hinv Hm HL Hi Htk 1) as (s' & E & H); [done|done|fold sh; lia|]. fold sh in E, H. rewrite Et in E. eauto.
  - assert (Et : type_of sh = NGX_SLAB_BIG) by (unfold type_of; by rewrite (proj2 (Z.ltb_ge sh 6)), (proj2 (Z.eqb_neq sh 6)) by lia).
    destruct (fresh_slab s L m i s0 M Hinv Hm HL Hi Htk (Z.lor (Z.shiftl 1 32) sh)) as (s' & E & H); [done|fold sh; lia|done|].
    fold sh in E, H. rewrite Et in E. eauto.
Qed.
