(* ===== verification/NgxSlabAlloc.v ===== *)
(** * Allocation in a slab pool

    An allocation keeps the invariant and hands out a block that was not in use
    and is large enough, or there is no free run of pages for it. *)
From stdpp Require Import functions.
From S2P Require Import Prelude NgxSlab NgxSlabInv NgxSlabPages NgxSlabChunks.

#[local] Set Warnings "-register-all".

(** ** Blocks in use after an allocation *)

(** The block at [p] is the only one that is new. *)
Record gains (s s' : slab_pool) (p size : Z) : Prop := {
  gn_range : sp_start s <= p < sp_start s + 4096 * sp_npages s;
  gn_was : live s p = false;
  gn_now q : live s' q = live s q || (q =? p);
  gn_size : size <= live_size s' p;
  gn_sizes q : live s q = true -> live_size s' q = live_size s q
}.

(** It is enough to look at pages. *)
Lemma gains_pages s s' i0 off0 size :
  0 <= sp_npages s -> same_params s s' -> 0 <= i0 < sp_npages s -> 0 <= off0 < 4096 ->
  live_page s i0 off0 = false ->
  (forall i off, 0 <= i < sp_npages s -> 0 <= off < 4096 -> live_page s' i off = live_page s i off || ((i =? i0) && (off =? off0))) ->
  size <= (if tag s' i0 =? NGX_SLAB_PAGE then 4096 * (slab_at s' i0 - NGX_SLAB_PAGE_START) else 2 ^ shift_at s' i0) ->
  (forall i off, 0 <= i < sp_npages s -> 0 <= off < 4096 -> live_page s i off = true ->
     tag s' i = tag s i /\ (tag s i = 0 -> slab_at s' i = slab_at s i) /\ shift_at s' i = shift_at s i) ->
  gains s s' (page_addr s i0 + off0) size.
Proof.
  intros HN Hp Hi0 Ho0 Hwas Hnow Hsize Hsizes. pose proof Hp as (_ & _ & EN & ES & _).
  assert (Ea : forall i, page_addr s' i = page_addr s i) by (intros i; by apply same_params_addr). split.
  - rewrite page_addr_eq. lia.
  - by rewrite live_at.
  - apply (live_change s s' (fun q b => b || (q =? page_addr s i0 + off0))); [done|done| |].
    + intros i off Hi Ho. rewrite Hnow by done. f_equal. rewrite !page_addr_eq.
      destruct (Z.eqb_spec i i0), (Z.eqb_spec off off0), (Z.eqb_spec (sp_start s + 4096 * i + off) (sp_start s + 4096 * i0 + off0)); cbn; lia.
    + intros q Hq. apply Z.eqb_neq. rewrite page_addr_eq. lia.
  - rewrite <- Ea, live_size_at by done. done.
  - intros q (i & off & Hi & Ho & -> & Hl)%live_page_of; [|done]. rewrite (live_size_at s) by done. rewrite <- (Ea i), (live_size_at s') by done.
    destruct (Hsizes _ _ Hi Ho Hl) as (-> & H1 & ->). destruct (Z.eqb_spec (tag s i) 0); [by rewrite H1|done].
Qed.

Lemma took_chunk_gains s L i sh c s' size :
  slab_inv s L -> took_chunk s i sh c s' -> size <= 2 ^ sh -> gains s s' (page_addr s i + Z.shiftl c sh) size.
Proof.
  intros Hinv [_ Hp Ho Hn Hi Hc Hwas Hbits Hdata] Hsz. pose proof (ch_shift _ _ _ Ho) as Hsh. pose proof (pa_shift _ (iv_params _ _ Hinv)) as A1.
  assert (Hpow : 0 < 2 ^ sh) by (apply Z.pow_pos_nonneg; lia). rewrite Z.shiftl_mul_pow2 by lia.
  assert (Hoff := chunk_off sh c ltac:(lia) ltac:(lia)).
  assert (Hcr : reserved sh <= c) by (destruct (Z.le_gt_cases (reserved sh) c); [done|]; rewrite (ch_reserved _ _ _ Ho) in Hwas by lia; done).
  apply gains_pages; try done.
  - pose proof (pa_pages _ (iv_params _ _ Hinv)). lia.
  - rewrite (live_chunked s i sh) by done. rewrite Z.div_mul, Hwas by lia. by rewrite andb_false_r.
  - intros j off Hj Hof. destruct (Z.eqb_spec j i) as [->|Hne]; cbn [andb].
    + rewrite (live_chunked s i sh), (live_chunked s' i sh) by done. rewrite Hbits by (apply off_chunk; lia).
      pose proof (Z.div_mod off (2 ^ sh) ltac:(lia)) as Hdm.
      destruct (Z.eqb_spec (off mod 2 ^ sh) 0) as [Em|Em], (Z.eqb_spec (off / 2 ^ sh) c) as [Ed|Ed], (Z.eqb_spec off (c * 2 ^ sh)) as [Eo|Eo]; cbn [andb orb].
      all: try (exfalso; subst c; lia).
      all: try (exfalso; rewrite Eo in *; rewrite Z.div_mul, ?Z.mod_mul in * by lia; lia).
      all: rewrite ?orb_false_r, ?orb_true_r, ?andb_true_r; try done.
      rewrite Ed. by apply Z.leb_le.
    + rewrite orb_false_r. eapply live_same; [exact Hinv|done|by apply Hdata|done..].
  - rewrite (ch_tag _ _ _ Hn), (proj2 (Z.eqb_neq _ _)) by (pose proof (type_of_pos sh); lia). by rewrite (shift_at_chunked s' i sh).
  - intros j off Hj Hof _. destruct (Z.eq_dec j i) as [->|Hne].
    + rewrite (ch_tag _ _ _ Ho), (ch_tag _ _ _ Hn), (shift_at_chunked s i sh), (shift_at_chunked s' i sh) by done. pose proof (type_of_pos sh). split_and!; [done|lia|done].
    + pose proof (Hdata j Hne) as Hd. rewrite (same_data_shift _ _ _ Hd). by destruct Hd as (-> & -> & _).
Qed.

(** A block in the first page of a free run. *)
Lemma run_gains s L i s' off0 size :
  slab_inv s L -> i ∈ L DFree -> same_params s s' -> 0 <= off0 < 4096 ->
  (forall off, 0 <= off < 4096 -> live_page s' i off = (off =? off0)) ->
  (forall j, 0 <= j -> ~ i <= j < i + slab_at s i -> same_data s s' j) ->
  (forall j, i < j < i + slab_at s i -> tag s' j = 0 /\ (slab_at s' j < NGX_SLAB_PAGE_START \/ slab_at s' j = NGX_SLAB_PAGE_BUSY)) ->
  size <= (if tag s' i =? NGX_SLAB_PAGE then 4096 * (slab_at s' i - NGX_SLAB_PAGE_START) else 2 ^ shift_at s' i) ->
  gains s s' (page_addr s i + off0) size.
Proof.
  intros Hinv Hi Hp Ho Hpage Hout Hin Hsize. destruct (free_listed s L i Hinv Hi) as (Hir & Ht & (Hn & Hb & Hr) & _).
  pose proof (pa_pages _ (iv_params _ _ Hinv)) as A3.
  assert (Hfree : forall j off, i <= j < i + slab_at s i -> live_page s j off = false).
  { intros j off Hj. destruct (Z.eq_dec j i) as [->|]; [apply live_free; [done|lia]|]. destruct (Hr j ltac:(lia)). apply live_free; [done|lia]. }
  apply gains_pages; try done; [lia|apply Hfree; lia|..].
  - intros j off Hj Hof. destruct (decide (i <= j < i + slab_at s i)) as [Hjr|Hjr].
    + rewrite Hfree by done. cbn [orb]. destruct (Z.eqb_spec j i) as [->|Hne]; cbn [andb]; [by apply Hpage|].
      destruct (Hin j ltac:(lia)). by apply live_free.
    + rewrite (proj2 (Z.eqb_neq j i)) by lia. cbn [andb]. rewrite orb_false_r. eapply live_same; [exact Hinv|done|apply Hout; lia|done..].
  - intros j off Hj Hof Hl. assert (Hjr : ~ i <= j < i + slab_at s i) by (intros Hjr; rewrite Hfree in Hl by done; done).
    pose proof (Hout j ltac:(lia) Hjr) as Hd. rewrite (same_data_shift _ _ _ Hd). by destruct Hd as (-> & -> & _).
Qed.

(** ** Allocation *)

Lemma shift_loop_ok fuel s shift : 0 < s < 2 ^ Z.of_nat fuel -> shift_loop fuel s shift = shift + Z.log2 s.
Proof.
  revert s shift; induction fuel as [|fuel IH]; intros s shift Hs; cbn [shift_loop]; [cbn in Hs; lia|].
  rewrite Z.shiftr_div_pow2 by lia. change (2 ^ 1) with 2. pose proof (Z.div_mod s 2 ltac:(lia)). pose proof (Z.mod_pos_bound s 2 ltac:(lia)).
  rewrite Nat2Z.inj_succ, Z.pow_succ_r in Hs by lia. destruct (Z.eqb_spec (s / 2) 0) as [E|E].
  - assert (s = 1) as -> by lia. cbn. lia.
  - rewrite IH by lia. replace s with (2 * (s / 2) + s mod 2) at 2 by lia.
    assert (s mod 2 = 0 \/ s mod 2 = 1) as [-> | ->] by lia.
    + rewrite Z.add_0_r, Z.log2_double by lia. lia.
    + rewrite Z.log2_succ_double by lia. lia.
Qed.

Lemma size_shift_ok s size :
  slab_params s -> 0 <= size < 2048 -> sp_min_shift s <= size_shift s size <= 11 /\ size <= 2 ^ size_shift s size.
Proof.
  intros [A1 A2 _ _ _] Hs. unfold size_shift. rewrite A2. destruct (Z.ltb_spec (2 ^ sp_min_shift s) size) as [Hlt|Hge]; [|lia].
  assert (H8 : 2 ^ 3 <= 2 ^ sp_min_shift s) by (apply Z.pow_le_mono_r; lia).
  assert (H64 : 2048 < 2 ^ Z.of_nat 64) by reflexivity. rewrite shift_loop_ok by lia.
  pose proof (Z.log2_spec (size - 1) ltac:(lia)) as [_ Hl]. rewrite Z.pow_succ_r in Hl by apply Z.log2_nonneg.
  assert (sp_min_shift s <= Z.log2 (size - 1)) by (apply Z.log2_le_pow2; lia).
  assert (Z.log2 (size - 1) < 11) by (apply Z.log2_lt_pow2; lia). rewrite Z.pow_add_r by lia. lia.
Qed.

(** There is no free run of pages for a size. *)
Definition no_run (s : slab_pool) (size : Z) : Prop :=
  forall i, 0 <= i < sp_npages s -> tag s i = 0 -> 0 < slab_at s i < NGX_SLAB_PAGE_START -> 4096 * slab_at s i < size.

(** A run that is free is in the free list. *)
Lemma free_run_listed s L i :
  slab_inv s L -> 0 <= i < sp_npages s -> tag s i = 0 -> 0 < slab_at s i < NGX_SLAB_PAGE_START -> i ∈ L DFree.
Proof.
  intros Hinv Hi Ht Hs. destruct (iv_page _ _ Hinv i Hi) as [_ [?|?] _|k _ K2 (? & _) _ _|k _ _ _ [K _]|sh K _ _|sh K _ _ _]; [lia|lia|lia|done|..];
    pose proof (ch_tag _ _ _ K); pose proof (type_of_pos sh); lia.
Qed.

(** What an allocation does. *)
Definition allocated (s : slab_pool) (size : Z) (r : option Z) (s' : slab_pool) : Prop :=
  slab_ok s' /\ same_params s s' /\
  match r with Some p => gains s s' p size | None => s' = s /\ no_run s size end.

Lemma alloc_pages_allocated s L size :
  slab_inv s L -> 2048 <= size ->
  exists r s', ngx_slab_alloc_locked size s = Some (r, s') /\ allocated s size r s'.
Proof.
  intros Hinv Hs. pose proof (pa_pages _ (iv_params _ _ Hinv)) as A3. unfold ngx_slab_alloc_locked. rewrite (proj2 (Z.leb_le 2048 size)) by done.
  set (pages := Z.shiftr size 12 + _).
  assert (Hpg : 4096 * (pages - 1) < size <= 4096 * pages).
  { unfold pages. rewrite Z.shiftr_div_pow2 by lia. change (2 ^ 12) with 4096. pose proof (Z.div_mod size 4096 ltac:(lia)). pose proof (Z.mod_pos_bound size 4096 ltac:(lia)).
    destruct (Z.eqb_spec (size mod 4096) 0); cbn [negb]; lia. }
  destruct (alloc_pages_ok s L pages Hinv ltac:(lia)) as [(i & s0 & M & Hi & Hle & -> & Htk)|[-> Hno]]; cbn [mbind option_bind option_map]; eexists _, _; (split; [reflexivity|]).
  - destruct (free_listed s L i Hinv Hi) as (Hir & _ & (_ & Hb & _) & _). pose proof (tk_params _ _ _ _ _ _ Htk) as Hp.
    split_and!; [eexists; exact (tk_inv _ _ _ _ _ _ Htk)|done|]. rewrite (same_params_addr s s0 i Hp), <- (Z.add_0_r (page_addr s i)).
    eapply (run_gains s L); try done.
    + intros off Hoff. unfold live_page. rewrite (tk_tag _ _ _ _ _ _ Htk), (tk_slab _ _ _ _ _ _ Htk). change (0 =? 0) with true. cbn iota.
      rewrite (proj2 (Z.ltb_lt NGX_SLAB_PAGE_START _)), (proj2 (Z.ltb_lt _ NGX_SLAB_PAGE_BUSY)) by lia. by rewrite !andb_true_r.
    + intros j Hj Hr. eapply same_page_data. by apply (tk_outside _ _ _ _ _ _ Htk).
    + apply (tk_inner _ _ _ _ _ _ Htk).
    + rewrite (tk_tag _ _ _ _ _ _ Htk), (tk_slab _ _ _ _ _ _ Htk). change (0 =? 0) with true. cbn iota. lia.
  - split_and!; [by eexists|done|done|]. intros i Hi Ht Hk. specialize (Hno i (free_run_listed s L i Hinv Hi Ht Hk)). lia.
Qed.

Lemma alloc_chunk_allocated s L size :
  slab_inv s L -> 0 <= size < 2048 ->
  exists r s', ngx_slab_alloc_locked size s = Some (r, s') /\ allocated s size r s'.
Proof.
  intros Hinv Hs. unfold ngx_slab_alloc_locked. rewrite (proj2 (Z.leb_gt 2048 size)) by lia.
  destruct (size_shift_ok s size (iv_params _ _ Hinv) Hs) as [Hsh Hsz]. set (m := size_shift s size - sp_min_shift s).
  assert (Em : size_shift s size = sp_min_shift s + m) by lia. rewrite Em in *. set (sh := sp_min_shift s + m) in *.
  pose proof (search_pages_ok s L m Hinv ltac:(lia)) as Hsp. cbn zeta in Hsp. fold sh in Hsp. destruct (L (DSlot m)) as [|i l2] eqn:EL.
  - rewrite Hsp. cbn [mbind option_bind]. pose proof (alloc_fresh_ok s L m Hinv ltac:(lia) EL) as Haf. cbn zeta in Haf. fold sh in Haf.
    destruct Haf as [(i & s' & -> & Htf)|[-> Hnil]].
    + eexists _, _. split; [reflexivity|]. split_and!; [exact (tf_inv _ _ _ _ _ Htf)|exact (tf_params _ _ _ _ _ Htf)|].
      pose proof (ch_shift _ _ _ (tf_chunked _ _ _ _ _ Htf)) as Hsh'. pose proof (pa_shift _ (iv_params _ _ Hinv)) as A1.
      assert (Hpow : 0 < 2 ^ sh) by (apply Z.pow_pos_nonneg; lia). destruct (chunks_bound sh ltac:(lia)) as (Hcb & _).
      assert (Hrc : reserved sh < chunks sh).
      { unfold reserved. destruct (Z.ltb_spec sh 6); [|lia]. destruct (small_map sh ltac:(lia)) as (? & ? & _ & ? & _). lia. }
      pose proof (reserved_bound sh ltac:(lia)) as Hrb.
      assert (Hoff := chunk_off sh (reserved sh) ltac:(lia) ltac:(lia)).
      eapply (run_gains s L); [done|exact (tf_free _ _ _ _ _ Htf)|exact (tf_params _ _ _ _ _ Htf)|done| |exact (tf_outside _ _ _ _ _ Htf)|exact (tf_inner _ _ _ _ _ Htf)|].
      * intros off Ho. rewrite (live_chunked s' i sh) by exact (tf_chunked _ _ _ _ _ Htf). rewrite (tf_bits _ _ _ _ _ Htf) by (apply off_chunk; lia).
        pose proof (Z.div_mod off (2 ^ sh) ltac:(lia)).
        destruct (Z.eqb_spec (off mod 2 ^ sh) 0), (Z.leb_spec (reserved sh) (off / 2 ^ sh)), (Z.leb_spec (off / 2 ^ sh) (reserved sh)), (Z.eqb_spec off (reserved sh * 2 ^ sh)) as [Eo|Eo]; cbn [andb];
          try done; exfalso; try (rewrite Eo, ?Z.div_mul, ?Z.mod_mul in * by lia; lia).
        assert (Eq : off / 2 ^ sh = reserved sh) by lia. rewrite Eq in *. lia.
      * rewrite (ch_tag _ _ _ (tf_chunked _ _ _ _ _ Htf)), (proj2 (Z.eqb_neq _ _)) by (pose proof (type_of_pos sh); lia).
        by rewrite (shift_at_chunked s' i sh) by exact (tf_chunked _ _ _ _ _ Htf).
    + eexists _, _. split; [reflexivity|]. split_and!; [by eexists|done|done|]. intros i Hi Ht Hk.
      pose proof (free_run_listed s L i Hinv Hi Ht Hk) as Hin. rewrite Hnil in Hin. by apply elem_of_nil in Hin.
  - destruct Hsp as (c & s' & -> & Htc). cbn [mbind option_bind]. eexists _, _. split; [reflexivity|].
    split_and!; [exact (tc_inv _ _ _ _ _ Htc)|exact (tc_params _ _ _ _ _ Htc)|]. by eapply took_chunk_gains.
Qed.

Lemma alloc_locked_ok s L size :
  slab_inv s L -> 0 <= size -> exists r s', ngx_slab_alloc_locked size s = Some (r, s') /\ allocated s size r s'.
Proof. intros Hinv Hs. destruct (Z.lt_ge_cases size 2048); [by eapply alloc_chunk_allocated|by eapply alloc_pages_allocated]. Qed.
