(* ===== verification/NgxSlabFree.v ===== *)
(** * Freeing in a slab pool

    A block that is freed is not in use any more, and nothing else changes; pages
    without a chunk in use return to the free list. *)
From stdpp Require Import functions.
From S2P Require Import Prelude NgxSlab NgxSlabInv NgxSlabPages NgxSlabChunks.

#[local] Set Warnings "-register-all".

(** ** Pages *)

Section Push.
Context (s s1 : slab_pool) (L L1 : desc -> list Z) (i k : Z).
Hypothesis Hinv : slab_inv s L.
Hypothesis HB : block s i k.
Hypothesis Hi : 0 <= i < sp_npages s.
Hypothesis Hp : same_params s s1.
Hypothesis Hslab : slab_at s1 i = k.
Hypothesis Hrun : run s1 i k 0.
Hypothesis Hout : forall j, 0 <= j < sp_npages s -> ~ i <= j < i + k -> same_page s s1 L L1 j.
Hypothesis Hin : forall h j, j ∈ L1 h -> head s h /\ 0 <= j < sp_npages s /\ ~ i <= j < i + k.
Hypothesis Hlist : forall h, head s h -> chain s1 (head_type s h) h (DPage <$> L1 h) h /\ NoDup (L1 h).
Let nx := hd DFree (DPage <$> L1 DFree).
Let page := DPage i.
Let s' := set_next DFree (Some page) (set_prev nx (Some page, 0) (set_next page (Some nx) (set_prev page (Some DFree, 0) s1))).
Let L' := <[DFree := i :: L1 DFree]> L1.

Lemma push_next : sp_next s1 DFree = Some nx.
Proof using All. destruct (Hlist DFree I) as [Hc _]. unfold nx. destruct (L1 DFree); [done|by destruct Hc]. Qed.

Lemma push_nx : nx = DFree \/ exists j, nx = DPage j /\ j ∈ L1 DFree.
Proof using All. pose proof (hd_elem DFree (DPage <$> L1 DFree)) as [H|(j & H & ?)%list_elem_of_fmap]%elem_of_cons; eauto. Qed.

Lemma push_not_listed h : i ∉ L1 h.
Proof using All. intros H. apply Hin in H as (_ & _ & H). destruct Hrun as (? & _). lia. Qed.

Lemma push_nx_page : nx <> page.
Proof using All. destruct push_nx as [E|(j & E & Hj)]; rewrite E; [done|]. intros [= ->]. by apply (push_not_listed DFree). Qed.

Lemma push_eq :
  (s ← wr set_prev (Some page) (Some DFree, 0) s1;
   s ← wr set_next (Some page) (sp_next s DFree) s;
   nx ← rd sp_next s (Some page);
   s ← wr set_prev nx (Some page, 0) s;
   Some (set_next DFree (Some page) s)) = Some s'.
Proof using All.
  assert (EN : sp_npages s1 = sp_npages s) by apply Hp. assert (Vi : valid s1 page = true) by (apply valid_page; lia).
  assert (Vn : valid s1 nx = true) by (destruct push_nx as [E|(j & E & Hj)]; rewrite E; [done|]; apply valid_page; apply Hin in Hj; lia).
  rewrite (wr_ok _ _ _ _ Vi). cbn [mbind option_bind]. change (sp_next (set_prev page (Some DFree, 0) s1) DFree) with (sp_next s1 DFree).
  rewrite push_next, wr_ok by exact Vi. cbn [mbind option_bind]. rewrite rd_ok by exact Vi. cbn [mbind option_bind]. set (s2 := set_next page _ _).
  replace (sp_next s2 page) with (Some nx) by (unfold s2; fn). by rewrite wr_ok by exact Vn.
Qed.

Lemma push_data j : j <> i -> same_data s1 s' j.
Proof using All.
  intros Hj. split_and!; [|done|done]. unfold tag, s'. cbn. unfold insert, fn_insert. repeat case_decide; try done.
  - destruct push_nx as [E|(x & E & Hx)]; [congruence|]. cbn. destruct (Hlist DFree I) as [Hc _].
    assert (x = j) as -> by congruence. symmetry. by apply (chain_tag _ _ _ _ _ Hc).
  - exfalso. unfold page in *. congruence.
Qed.

Lemma push_page : tag s' i = 0 /\ slab_at s' i = k.
Proof using All.
  split; [|exact Hslab]. unfold tag, s'. cbn. unfold insert, fn_insert. rewrite decide_False by exact push_nx_page. by rewrite decide_True.
Qed.

Lemma push_frame d : d <> DFree -> d <> page -> d <> nx -> sp_next s' d = sp_next s1 d /\ sp_prev s' d = sp_prev s1 d.
Proof using All. intros H1 H2 H3. unfold s'. cbn. unfold insert, fn_insert. by rewrite !decide_False by congruence. Qed.

Lemma push_inv : slab_inv s' L'.
Proof using All.
  destruct push_page as [Ht Hs]. pose proof Hrun as (Hk & Hb & Hr). assert (EN : sp_npages s1 = sp_npages s) by apply Hp.
  assert (HLd : forall j h, j <> i -> j ∈ L' h <-> j ∈ L1 h).
  { intros j h Hj. unfold L', insert, fn_insert. case_decide as E; [|done]. subst h. rewrite elem_of_cons. tauto. }
  assert (Hul : forall j, i < j < i + k -> unlisted L' j).
  { intros j Hj h Hx. apply HLd in Hx; [|lia]. apply Hin in Hx. lia. }
  eapply (inv_update s s' L L' i k Hinv HB); [lia|exact Hp|..].
  - intros j Hj Hne. destruct (Hout j Hj Hne) as (O1 & O2 & O3 & O4 & O5). destruct (push_data j ltac:(lia)) as (D1 & D2 & D3). split_and!.
    + congruence.
    + congruence.
    + intros Hn. specialize (O3 Hn). unfold s'. cbn. unfold insert, fn_insert. rewrite !decide_False; [done|unfold page; intros [= ->]; lia|done].
    + intros a Ha. by apply O4.
    + intros h. rewrite HLd by lia. apply O5.
  - intros j Hj. destruct (Z.eq_dec j i) as [->|Hne].
    + apply (pk_free _ _ _ k); [done|done| |].
      * split_and!; [done|exact Hb|]. intros x Hx. destruct (push_data x ltac:(lia)) as (-> & -> & _). by apply Hr.
      * split; [unfold L', insert, fn_insert; rewrite decide_True by done; left|]. intros h Hh. unfold L', insert, fn_insert. rewrite decide_False by congruence. apply push_not_listed.
    + destruct (push_data j Hne) as (D1 & D2 & _). destruct (Hr j ltac:(lia)). apply pk_inner; [congruence|left; congruence|apply Hul; lia].
  - intros h Hh. destruct (Hlist h Hh) as [Hc Hnd]. unfold L', insert, fn_insert. case_decide as E.
    + subst h. split; [|constructor; [apply push_not_listed|done]]. rewrite fmap_cons. apply (push_ok s1); [exact Hc|..].
      * constructor; [by intros [?|(j & ? & _)%list_elem_of_fmap]%elem_of_cons|]. constructor; [|apply NoDup_fmap_2; [by intros ? ? [= ?]|done]].
        intros (j & [= Ej] & Hj)%list_elem_of_fmap. rewrite <- Ej in Hj. by apply (push_not_listed DFree).
      * unfold s'. fn.
      * rewrite push_next. unfold s', page. fn.
      * unfold s'. cbn. unfold insert, fn_insert. rewrite decide_False by exact push_nx_page. by rewrite decide_True.
      * intros d (j & -> & Hj)%list_elem_of_fmap. assert (Hji : DPage j <> page) by (unfold page; intros [= ->]; by apply (push_not_listed DFree)).
        fold nx. unfold s'. cbn. unfold insert, fn_insert. split; [by rewrite !decide_False by congruence|].
        repeat case_decide; try done; congruence.
    + split; [|done]. assert (Hph : page <> h) by (unfold page; destruct h; done).
      eapply list_frame; [exact Hc|unfold s'; cbn; unfold insert, fn_insert; by rewrite !decide_False by congruence|].
      intros j Hj. apply push_frame; [done|unfold page; intros [= ->]; by apply (push_not_listed h)|].
      intros Enx. destruct push_nx as [E'|(x & E' & Hx)]; [congruence|]. assert (x = j) as -> by congruence.
      destruct (Hin h j Hj) as (_ & Hjr & Hjn). destruct (Hout j Hjr Hjn) as (_ & _ & _ & _ & O5). apply O5 in Hj, Hx.
      destruct (free_listed s L j Hinv Hx) as (_ & _ & _ & [_ Hl]). by apply (Hl h).
  - intros h j Hj. destruct (Z.eq_dec j i) as [->|Hne].
    + split; [|done]. unfold L', insert, fn_insert in Hj. case_decide; [by subst h|]. by apply push_not_listed in Hj.
    + apply HLd in Hj; [|done]. by apply Hin in Hj as (? & ? & _).
Qed.
End Push.

(** [k] pages from [i] are free in [s'], and all else is as before. *)
Record gave_back (s s' : slab_pool) (i k : Z) : Prop := {
  gb_inv : exists M, slab_inv s' M;
  gb_params : same_params s s';
  gb_out j : 0 <= j < sp_npages s -> ~ i <= j < i + k -> same_data s s' j;
  gb_in j : i <= j < i + k -> tag s' j = 0 /\ slab_at s' j < NGX_SLAB_PAGE_START
}.

Lemma free_run_ok s L i k :
  slab_inv s L -> 0 <= i < sp_npages s -> tag s i = 0 -> slab_at s i = NGX_SLAB_PAGE_START + k -> run s i k NGX_SLAB_PAGE_BUSY ->
  sp_next s (DPage i) = None -> unlisted L i ->
  exists s', ngx_slab_free_pages i k s = Some s' /\ gave_back s s' i k.
Proof.
  intros Hinv Hi Ht Hs Hr Hn Hu. pose proof Hr as (Hk & Hb & Hbusy). pose proof (pa_pages _ (iv_params _ _ Hinv)) as A3.
  assert (Vi := valid_page s i Hi). unfold ngx_slab_free_pages. rewrite (wr_ok set_slab _ _ _ Vi). cbn [mbind option_bind].
  destruct (fill_pages_ok 0 (Z.to_nat (k - 1)) (i + 1) (set_slab (DPage i) k s) ltac:(lia) ltac:(cbn; lia)) as (s1 & -> & P1 & W1 & F1 & F2).
  cbn [mbind option_bind]. replace (i + 1 + Z.of_nat (Z.to_nat (k - 1))) with (i + k) in * by lia.
  assert (P : same_params s s1) by exact P1. assert (EN : sp_npages s1 = sp_npages s) by apply P.
  destruct (F2 (DPage i)) as (Ei1 & Ei2 & Ei3); [intros j Hj [= ->]; lia|].
  rewrite (rd_ok sp_next s1 (DPage i)) by (apply valid_page; lia). cbn [mbind option_bind]. rewrite Ei2. change (sp_next (set_slab (DPage i) k s) (DPage i)) with (sp_next s (DPage i)). rewrite Hn.
  cbn [mbind option_bind].
  assert (Hsl : slab_at s1 i = k) by (unfold slab_at; rewrite Ei1; fn).
  assert (Hrun : run s1 i k 0).
  { split_and!; [done|lia|]. intros j Hj. destruct (F1 j ltac:(lia)) as (? & _ & E). unfold tag. by rewrite E. }
  assert (Hul : forall h j, j ∈ L h -> ~ i <= j < i + k).
  { intros h j Hj Hjr. destruct (Z.eq_dec j i) as [->|]; [by apply (Hu h)|]. destruct (Hbusy j ltac:(lia)). revert Hj. eapply (inner_unlisted s); [done|lia|done|by right]. }
  assert (Hframe : forall d, (forall j, i <= j < i + k -> d <> DPage j) -> sp_slab s1 d = sp_slab s d /\ sp_next s1 d = sp_next s d /\ sp_prev s1 d = sp_prev s d).
  { intros d Hd. destruct (F2 d) as (-> & -> & ->); [intros; apply Hd; lia|]. assert (d <> DPage i) by (apply Hd; lia). split_and!; [|done|done]. fn. }
  assert (Hout : forall j, 0 <= j < sp_npages s -> ~ i <= j < i + k -> same_page s s1 L L j).
  { intros j Hj Hne. destruct (Hframe (DPage j)) as (E1 & E2 & E3); [intros x Hx [= ->]; lia|]. unfold same_page, tag, slab_at. rewrite E1, E2, E3, W1. done. }
  assert (Hlist : forall h, head s h -> chain s1 (head_type s h) h (DPage <$> L h) h /\ NoDup (L h)).
  { intros h Hh. destruct (iv_list _ _ Hinv h Hh) as [Hc Hnd]. split; [|done]. eapply list_frame; [exact Hc|apply Hframe; intros j _; by destruct h|].
    intros j Hj. apply (Hframe (DPage j)). intros x Hx [= ->]. by apply (Hul h x). }
  assert (HB : block s i k) by (left; eexists; eauto).
  assert (Hin : forall h j, j ∈ L h -> head s h /\ 0 <= j < sp_npages s /\ ~ i <= j < i + k).
  { intros h j Hj. destruct (iv_in _ _ Hinv h j Hj). split_and!; [done|lia|lia|by eapply Hul]. }
  rewrite (push_eq s s1 L L i k) by done. eexists. split; [reflexivity|]. split.
  - eexists. by apply (push_inv s s1 L L i k).
  - exact P.
  - intros j Hj Hne. eapply same_data_trans; [exact P|eapply same_page_data; by apply Hout|]. eapply (push_data s s1 L L i k); try done. lia.
  - intros j Hj. destruct (Z.eq_dec j i) as [->|Hne].
    + destruct (push_page s s1 L L i k) as [-> ->]; try done. lia.
    + destruct (push_data s s1 L L i k Hinv HB Hi P Hsl Hrun Hout Hin Hlist j Hne) as (-> & -> & _). destruct Hrun as (_ & _ & Hr0). destruct (Hr0 j ltac:(lia)) as [-> ->]. lia.
Qed.

Lemma free_chunk_page_ok s L m i :
  slab_inv s L -> i ∈ L (DSlot m) -> exists s', ngx_slab_free_pages i 1 s = Some s' /\ gave_back s s' i 1.
Proof.
  intros Hinv Him. destruct (slot_listed s L m i Hinv Him) as (Hi & Hc & _ & [_ Hli]). destruct (iv_in _ _ Hinv _ _ Him) as [Hh _].
  assert (Vi := valid_page s i Hi). unfold ngx_slab_free_pages. rewrite (wr_ok set_slab _ _ _ Vi). cbn [mbind option_bind].
  change (Z.to_nat (1 - 1)) with 0%nat. cbn [fill_pages]. cbn [mbind option_bind]. set (s0 := set_slab (DPage i) 1 s).
  destruct (iv_list _ _ Hinv _ Hh) as [Hch Hnd]. apply list_elem_of_split in Him as (l1 & l2 & EL). rewrite EL in Hch, Hnd.
  assert (Hch0 : chain s0 (head_type s (DSlot m)) (DSlot m) (DPage <$> l1 ++ i :: l2) (DSlot m)) by (eapply list_frame; [exact Hch|done..]).
  assert (Hin0 : forall j, j ∈ l1 ++ i :: l2 -> 0 <= j < sp_npages s) by (intros j Hj; apply (iv_in _ _ Hinv (DSlot m)); by rewrite EL).
  destruct (unlink_page_ok s0 (DSlot m) _ l1 i l2 Hch0 Hnd ltac:(done) ltac:(by apply valid_slot) Hin0) as (p & s1 & Hpv & Hun & Hu).
  rewrite (rd_ok sp_next s0 (DPage i) Vi). cbn [mbind option_bind].
  destruct (sp_next s0 (DPage i)) as [d|] eqn:En; [|exfalso; by apply (chain_tag _ _ _ _ i Hch0); [apply elem_of_app; right; left|]].
  rewrite (rd_ok sp_prev s0 (DPage i) Vi). cbn [mbind option_bind]. rewrite Hpv. cbn [fst]. rewrite Hun. cbn [mbind option_bind].
  set (L1 := <[DSlot m := l1 ++ l2]> L).
  assert (Hni : i ∉ l1 ++ l2) by (rewrite <- Permutation_middle in Hnd; by apply NoDup_cons in Hnd as [? _]).
  assert (HL1 : forall h j, j <> i -> j ∈ L1 h <-> j ∈ L h).
  { intros h j Hne. unfold L1, insert, fn_insert. case_decide as E; [|done]. subst h. rewrite EL, !elem_of_app, elem_of_cons. tauto. }
  assert (HL1i : forall h, i ∉ L1 h).
  { intros h. unfold L1, insert, fn_insert. case_decide as E; [done|]. apply Hli. congruence. }
  assert (P : same_params s s1) by exact (un_params _ _ _ _ _ _ Hu). assert (EN : sp_npages s1 = sp_npages s) by apply P.
  assert (Hsl : slab_at s1 i = 1) by (unfold slab_at; rewrite (un_slab _ _ _ _ _ _ Hu); unfold s0; fn).
  assert (Hrun : run s1 i 1 0) by (split_and!; [done|lia|lia]).
  assert (Hout : forall j, 0 <= j < sp_npages s -> ~ i <= j < i + 1 -> same_page s s1 L L1 j).
  { intros j Hj Hne. split_and!.
    - by rewrite (un_tag _ _ _ _ _ _ Hu).
    - unfold slab_at. rewrite (un_slab _ _ _ _ _ _ Hu). unfold s0. fn. lia.
    - intros Hn. by apply (un_next _ _ _ _ _ _ Hu).
    - intros a _. by rewrite (un_word _ _ _ _ _ _ Hu).
    - intros h. apply HL1. lia. }
  assert (Hin : forall h j, j ∈ L1 h -> head s h /\ 0 <= j < sp_npages s /\ ~ i <= j < i + 1).
  { intros h j Hj. assert (j <> i) by (intros ->; by apply (HL1i h)). apply HL1 in Hj; [|done]. destruct (iv_in _ _ Hinv h j Hj). split_and!; [done|lia..]. }
  assert (Hlist : forall h, head s h -> chain s1 (head_type s h) h (DPage <$> L1 h) h /\ NoDup (L1 h)).
  { intros h Hh'. destruct (iv_list _ _ Hinv h Hh') as [Hc' Hnd']. unfold L1, insert, fn_insert. case_decide as E.
    - subst h. split; [exact (un_chain _ _ _ _ _ _ Hu)|]. rewrite <- Permutation_middle in Hnd. by apply NoDup_cons in Hnd as [_ ?].
    - split; [|done]. eapply list_frame; [exact Hc'|apply (un_frame _ _ _ _ _ _ Hu); [congruence|intros j _; by destruct h]|].
      intros j Hj. apply (un_frame _ _ _ _ _ _ Hu (DPage j)); [done|]. intros x Hx [= ->].
      assert (Hxm : x ∈ L (DSlot m)) by (rewrite EL; rewrite elem_of_app in *; rewrite elem_of_cons; tauto).
      destruct (slot_listed s L m x Hinv Hxm) as (_ & _ & _ & [_ Hl]). by apply (Hl h). }
  assert (HB : block s i 1) by (right; split; [done|by eexists]).
  rewrite (push_eq s s1 L L1 i 1) by done. eexists. split; [reflexivity|]. split.
  - eexists. by apply (push_inv s s1 L L1 i 1).
  - exact P.
  - intros j Hj Hne. eapply same_data_trans; [exact P|eapply same_page_data; by apply Hout|]. eapply (push_data s s1 L L1 i 1); try done. lia.
  - intros j Hj. assert (j = i) as -> by lia. destruct (push_page s s1 L L1 i 1) as [-> ->]; try done.
Qed.

(** ** Chunks *)

(** [s1] is [s] with the page [i] in the list of its slot. *)
Record linked (s s1 : slab_pool) (L L1 : desc -> list Z) (m i : Z) : Prop := {
  lk_params : same_params s s1;
  lk_data j : same_data s s1 j;
  lk_slab : sp_slab s1 = sp_slab s;
  lk_word : sp_word s1 = sp_word s;
  lk_next j : j <> i -> sp_next s (DPage j) = None -> sp_next s1 (DPage j) = None;
  lk_same h j : j <> i -> j ∈ L1 h <-> j ∈ L h;
  lk_listed : listed L1 i (DSlot m);
  lk_list h : head s h -> chain s1 (head_type s h) h (DPage <$> L1 h) h /\ NoDup (L1 h)
}.

Lemma linked_refl s L m i : slab_inv s L -> i ∈ L (DSlot m) -> linked s s L L m i.
Proof.
  intros Hinv Hi. destruct (slot_listed s L m i Hinv Hi) as (_ & _ & _ & Hl). split; try done. exact (iv_list _ _ Hinv).
Qed.

(** A full page returns to its list. *)
Lemma relink_ok s L m i :
  let sh := sp_min_shift s + m in
  slab_inv s L -> 0 <= m < 12 - sp_min_shift s -> 0 <= i < sp_npages s -> unlisted L i -> tag s i = type_of sh ->
  exists s1 L1, relink_page i m (type_of sh) s = Some s1 /\ linked s s1 L L1 m i.
Proof.
  intros sh Hinv Hm Hi Hu Ht. destruct (iv_list _ _ Hinv (DSlot m) Hm) as [Hc Hnd]. set (nx := hd (DSlot m) (DPage <$> L (DSlot m))).
  assert (Hnx : nx = DSlot m \/ exists j, nx = DPage j /\ j ∈ L (DSlot m))
    by (pose proof (hd_elem (DSlot m) (DPage <$> L (DSlot m))) as [?|(j & ? & ?)%list_elem_of_fmap]%elem_of_cons; eauto).
  assert (En : sp_next s (DSlot m) = Some nx) by (unfold nx; destruct (L (DSlot m)); [done|by destruct Hc]).
  assert (Vi := valid_page s i Hi). assert (Vm := valid_slot s m Hm).
  assert (Vn : valid s nx = true) by (destruct Hnx as [->|(j & -> & Hj)]; [done|]; apply valid_page; by apply (iv_in _ _ Hinv (DSlot m))).
  assert (Hni : nx <> DPage i) by (destruct Hnx as [->|(j & -> & Hj)]; [done|]; intros [= ->]; by apply (Hu (DSlot m))).
  set (s1 := set_prev nx (Some (DPage i), type_of sh) (set_prev (DPage i) (Some (DSlot m), type_of sh) (set_next (DSlot m) (Some (DPage i)) (set_next (DPage i) (Some nx) s)))).
  exists s1, (<[DSlot m := i :: L (DSlot m)]> L). split.
  { unfold relink_page. rewrite (rd_ok sp_next s _ Vm). cbn [mbind option_bind]. rewrite En, (wr_ok set_next _ _ _ Vi). cbn [mbind option_bind].
    rewrite wr_ok by exact Vm. cbn [mbind option_bind]. rewrite wr_ok by exact Vi. cbn [mbind option_bind]. rewrite rd_ok by exact Vi. cbn [mbind option_bind].
    set (s0 := set_prev (DPage i) _ _). replace (sp_next s0 (DPage i)) with (Some nx) by (unfold s0; fn). by rewrite wr_ok by exact Vn. }
  assert (Hfr : forall d, d <> DSlot m -> d <> DPage i -> sp_next s1 d = sp_next s d /\ (d <> nx -> sp_prev s1 d = sp_prev s d)).
  { intros d H1 H2. unfold s1. split; intros; fn. }
  split.
  - done.
  - intros j. split_and!; [|done|done]. unfold tag, s1. cbn. unfold insert, fn_insert. repeat case_decide; try done.
    + destruct Hnx as [?|(x & ? & Hx)]; [congruence|]. assert (x = j) as -> by congruence. cbn. symmetry. by apply (chain_tag _ _ _ _ _ Hc).
    + assert (i = j) as <- by congruence. done.
  - done.
  - done.
  - intros j Hj Hn. destruct (Hfr (DPage j)) as [-> _]; [done|congruence|done].
  - intros h j Hj. unfold insert, fn_insert. case_decide as E; [|done]. subst h. rewrite elem_of_cons. tauto.
  - split; [unfold insert, fn_insert; rewrite decide_True by done; left|]. intros h Hh. unfold insert, fn_insert. rewrite decide_False by congruence. apply Hu.
  - intros h Hh. destruct (iv_list _ _ Hinv h Hh) as [Hch Hndh]. unfold insert at 1 2, fn_insert at 1 2. case_decide as E.
    + subst h. split; [|constructor; [apply Hu|done]]. rewrite fmap_cons. apply (push_ok s); [exact Hc|..].
      * constructor; [by intros [?|(j & ? & _)%list_elem_of_fmap]%elem_of_cons|]. constructor; [|apply NoDup_fmap_2; [by intros ? ? [= ?]|done]].
        intros (j & [= ->] & Hj)%list_elem_of_fmap. by apply (Hu (DSlot m)).
      * unfold s1. fn.
      * rewrite En. unfold s1. fn.
      * cbn [head_type]. fold sh. unfold s1. cbn. unfold insert, fn_insert. rewrite decide_False by done. by rewrite decide_True.
      * intros d (j & -> & Hj)%list_elem_of_fmap. assert (Hji : DPage j <> DPage i) by (intros [= ->]; by apply (Hu (DSlot m))).
        cbn [head_type]. fold sh nx. destruct (Hfr (DPage j)) as [E1 E2]; [done|done|]. split; [done|]. case_decide as E; [|by apply E2].
        unfold s1. cbn. unfold insert, fn_insert. by rewrite decide_True by done.
    + split; [|done]. eapply list_frame; [exact Hch|apply Hfr; [congruence|by destruct h]|]. intros j Hj.
      assert (Hji : DPage j <> DPage i) by (intros [= ->]; by apply (Hu h)). destruct (Hfr (DPage j)) as [E1 E2]; [done|done|]. split; [done|]. apply E2.
      intros Ej. destruct Hnx as [?|(x & ? & Hx)]; [congruence|]. assert (x = j) as -> by congruence.
      destruct (slot_listed s L m j Hinv Hx) as (_ & _ & _ & [_ Hl]). by apply (Hl h).
Qed.

(** Some bits of the page are cleared. *)
Lemma cleared_inv s s1 s2 L L1 m i :
  let sh := sp_min_shift s + m in
  slab_inv s L -> 0 <= i < sp_npages s -> cut_page s i sh -> linked s s1 L L1 m i -> touched s1 s2 i -> cut_page s2 i sh -> has_free s2 i sh ->
  0 <= m < 12 - sp_min_shift s -> slab_inv s2 L1.
Proof.
  intros sh Hinv Hi Hc Hl Ht Hc2 Hf Hm. pose proof (lk_params _ _ _ _ _ _ Hl) as P1.
  assert (P : same_params s s2) by (eapply same_params_trans; [exact P1|exact (to_params _ _ _ Ht)]).
  eapply (inv_update s s2 L L1 i 1 Hinv); [right; split; [done|by exists sh]|lia|exact P|..].
  - intros j Hj Hne. destruct (touched_page s1 s2 i j L1 Ht ltac:(lia)) as (T1 & T2 & T3 & T4 & _). destruct (lk_data _ _ _ _ _ _ Hl j) as (D1 & D2 & D3).
    split_and!; [congruence|congruence| | |intros h; apply (lk_same _ _ _ _ _ _ Hl); lia].
    + intros Hn. apply T3, (lk_next _ _ _ _ _ _ Hl); [lia|done].
    + intros a Ha. rewrite T4; [by apply D3|]. unfold page_words in *. by rewrite (same_params_addr s s1 j P1).
  - intros j Hj. assert (j = i) as -> by lia. apply (pk_chunks _ _ _ sh); [done..|].
    replace (sp_min_shift s2) with (sp_min_shift s) by (symmetry; apply P). unfold sh. replace (sp_min_shift s + m - sp_min_shift s) with m by lia. exact (lk_listed _ _ _ _ _ _ Hl).
  - intros h Hh. destruct (lk_list _ _ _ _ _ _ Hl h Hh) as [Hch Hnd]. split; [|done].
    eapply list_frame; [exact Hch|by rewrite (to_next _ _ _ Ht)|]. intros j _. by rewrite (to_next _ _ _ Ht), (to_prev _ _ _ Ht).
  - intros h j Hj. destruct (Z.eq_dec j i) as [->|Hne].
    + split; [|done]. destruct (decide (h = DSlot m)) as [->|Hne]; [done|]. by apply (proj2 (lk_listed _ _ _ _ _ _ Hl) h) in Hj.
    + apply (lk_same _ _ _ _ _ _ Hl) in Hj; [|done]. by apply (iv_in _ _ Hinv).
Qed.

(** ** Blocks in use *)

(** The block at [p] is the only one that is gone. *)
Record loses (s s' : slab_pool) (p : Z) : Prop := {
  ls_ok : slab_ok s';
  ls_params : same_params s s';
  ls_now q : live s' q = live s q && negb (q =? p);
  ls_sizes q : live s' q = true -> live_size s' q = live_size s q
}.

Lemma loses_pages s s' i0 off0 :
  0 <= sp_npages s -> slab_ok s' -> same_params s s' -> 0 <= off0 < 4096 ->
  (forall i off, 0 <= i < sp_npages s -> 0 <= off < 4096 -> live_page s' i off = live_page s i off && negb ((i =? i0) && (off =? off0))) ->
  (forall i off, 0 <= i < sp_npages s -> 0 <= off < 4096 -> live_page s' i off = true ->
     tag s' i = tag s i /\ (tag s i = 0 -> slab_at s' i = slab_at s i) /\ shift_at s' i = shift_at s i) ->
  loses s s' (page_addr s i0 + off0).
Proof.
  intros HN Hok Hp Ho0 Hnow Hsizes. pose proof Hp as (_ & _ & EN & _ & _). split; [done|done|..].
  - apply (live_change s s' (fun q b => b && negb (q =? page_addr s i0 + off0))); [done|done| |done].
    intros i off Hi Ho. rewrite Hnow by done. f_equal. f_equal. rewrite !page_addr_eq.
    destruct (Z.eqb_spec i i0), (Z.eqb_spec off off0), (Z.eqb_spec (sp_start s + 4096 * i + off) (sp_start s + 4096 * i0 + off0)); cbn; lia.
  - intros q (i & off & Hi & Ho & -> & Hl)%live_page_of; [|lia]. rewrite EN in Hi. rewrite (live_size_at s') by done.
    rewrite (same_params_addr s s' i Hp), (live_size_at s) by done.
    destruct (Hsizes i off Hi Ho Hl) as (-> & H1 & ->). destruct (Z.eqb_spec (tag s i) 0); [by rewrite H1|done].
Qed.

(** The end of freeing a chunk, when its bit is cleared in [s2]: an empty page is
    given back. *)
Lemma free_chunk_done s s1 s2 L L1 m i c (empty : bool) :
  let sh := sp_min_shift s + m in
  slab_inv s L -> 0 <= i < sp_npages s -> 0 <= m < 12 - sp_min_shift s -> cut_page s i sh -> linked s s1 L L1 m i -> touched s1 s2 i ->
  cut_page s2 i sh -> reserved sh <= c < chunks sh ->
  (forall c', 0 <= c' < chunks sh -> used_bit s2 i sh c' = negb (c' =? c) && used_bit s i sh c') ->
  (empty = true -> forall c', reserved sh <= c' < chunks sh -> used_bit s2 i sh c' = false) ->
  exists s', (if empty then s ← ngx_slab_free_pages i 1 s2; Some (Freed, s) else Some (Freed, s2)) = Some (Freed, s') /\
    loses s s' (page_addr s i + c * 2 ^ sh).
Proof.
  intros sh Hinv Hi Hm Hc Hl Ht Hc2 Hcr Hbits Hempty. pose proof (pa_pages _ (iv_params _ _ Hinv)) as A3. pose proof (pa_shift _ (iv_params _ _ Hinv)) as A1.
  pose proof (ch_shift _ _ _ Hc) as Hsh. assert (Hpow : 0 < 2 ^ sh) by (apply Z.pow_pos_nonneg; lia). pose proof (reserved_bound sh ltac:(lia)) as Hrb.
  assert (Hoff := chunk_off sh c ltac:(lia) ltac:(lia)).
  assert (P : same_params s s2) by (eapply same_params_trans; [exact (lk_params _ _ _ _ _ _ Hl)|exact (to_params _ _ _ Ht)]).
  assert (Hf2 : has_free s2 i sh) by (exists c; split; [lia|]; rewrite Hbits by lia; by rewrite Z.eqb_refl).
  assert (Hinv2 : slab_inv s2 L1) by (eapply cleared_inv; done).
  assert (Hd2 : forall j, j <> i -> same_data s s2 j).
  { intros j Hj. eapply same_data_trans; [exact (lk_params _ _ _ _ _ _ Hl)|apply (lk_data _ _ _ _ _ _ Hl)|]. eapply same_page_data, (touched_page s1 s2 i j L1); done. }
  assert (Hpage : forall off, 0 <= off < 4096 -> live_page s2 i off = live_page s i off && negb (off =? c * 2 ^ sh)).
  { intros off Ho. rewrite (live_chunked s i sh), (live_chunked s2 i sh) by done. rewrite Hbits by (apply off_chunk; lia).
    pose proof (Z.div_mod off (2 ^ sh) ltac:(lia)) as Hdm.
    destruct (Z.eqb_spec (off mod 2 ^ sh) 0) as [Em|Em]; cbn [andb]; [|done].
    destruct (Z.eqb_spec (off / 2 ^ sh) c) as [Ed|Ed], (Z.eqb_spec off (c * 2 ^ sh)) as [Eo|Eo]; cbn [andb negb]; rewrite ?andb_false_r, ?andb_true_r; try done; exfalso.
    - subst c. lia.
    - rewrite Eo, Z.div_mul in Ed by lia. done. }
  destruct empty.
  - destruct (free_chunk_page_ok s2 L1 m i Hinv2 (proj1 (lk_listed _ _ _ _ _ _ Hl))) as (s3 & -> & [G1 G2 G3 G4]). cbn [mbind option_bind].
    assert (EN : sp_npages s2 = sp_npages s) by apply P. exists s3. split; [done|]. apply loses_pages; [lia|done|by eapply same_params_trans|done|..].
    + intros j off Hj Ho. destruct (Z.eqb_spec j i) as [->|Hne]; cbn [andb].
      * destruct (G4 i ltac:(lia)) as [T4 S4]. rewrite (live_free s3 i off) by (done || by left). symmetry. rewrite <- Hpage by done.
        rewrite (live_chunked s2 i sh) by done. destruct (Z.leb_spec (reserved sh) (off / 2 ^ sh)); cbn [andb]; [|by rewrite andb_false_r].
        rewrite Hempty; [by rewrite andb_false_r|done|]. pose proof (off_chunk sh off ltac:(lia) Ho). lia.
      * rewrite andb_true_r. eapply live_same; [exact Hinv|by eapply same_params_trans|eapply same_data_trans; [exact P|by apply Hd2|apply G3; lia]|done..].
    + intros j off Hj Ho Hlv. destruct (Z.eq_dec j i) as [->|Hne]; [destruct (G4 i ltac:(lia)) as [T4 S4]; rewrite (live_free s3 i off) in Hlv by (done || by left); done|].
      assert (Hd : same_data s s3 j) by (eapply same_data_trans; [exact P|by apply Hd2|apply G3; lia]). rewrite (same_data_shift _ _ _ Hd). by destruct Hd as (-> & -> & _).
  - exists s2. split; [done|]. apply loses_pages; [lia|by eexists|done|done|..].
    + intros j off Hj Ho. destruct (Z.eqb_spec j i) as [->|Hne]; cbn [andb]; [by apply Hpage|]. rewrite andb_true_r. eapply live_same; [exact Hinv|done|by apply Hd2|done..].
    + intros j off Hj Ho _. destruct (Z.eq_dec j i) as [->|Hne].
      * rewrite (ch_tag _ _ _ Hc), (ch_tag _ _ _ Hc2), (shift_at_chunked s i sh), (shift_at_chunked s2 i sh) by done. pose proof (type_of_pos sh). split_and!; [done|lia|done].
      * pose proof (Hd2 j Hne) as Hd. rewrite (same_data_shift _ _ _ Hd). by destruct Hd as (-> & -> & _).
Qed.

(** The parts of the address of a chunk. *)
Lemma chunk_addr s i sh c :
  slab_params s -> 0 <= i < sp_npages s -> 3 <= sh <= 11 -> 0 <= c < chunks sh ->
  let p := page_addr s i + c * 2 ^ sh in
  Z.land p 4095 = c * 2 ^ sh /\ Z.shiftr (Z.land p 4095) sh = c /\ Z.land p (2 ^ sh - 1) = 0 /\ Z.ldiff p 4095 = page_addr s i.
Proof.
  intros [_ _ _ [_ A4] _] Hi Hsh Hc p. assert (Hpow : 0 < 2 ^ sh) by (apply Z.pow_pos_nonneg; lia).
  assert (Hoff := chunk_off sh c ltac:(lia) ltac:(lia)).
  pose proof (Z.div_mod (sp_start s) 4096 ltac:(lia)) as Hd. set (b := sp_start s / 4096) in *.
  assert (Ep : p = 4096 * (b + i) + c * 2 ^ sh) by (unfold p; rewrite page_addr_eq; lia).
  assert (El : Z.land p 4095 = c * 2 ^ sh).
  { change 4095 with (Z.ones 12). rewrite Z.land_ones by lia. change (2 ^ 12) with 4096. symmetry. apply (Z.mod_unique _ _ (b + i)); lia. }
  split_and!; [done|..].
  - rewrite El, Z.shiftr_div_pow2 by lia. apply Z.div_mul. lia.
  - replace (2 ^ sh - 1) with (Z.ones sh) by (rewrite Z.ones_equiv; lia). rewrite Z.land_ones by lia.
    replace p with ((2 ^ (12 - sh) * (b + i) + c) * 2 ^ sh); [apply Z.mod_mul; lia|]. rewrite Ep.
    replace 4096 with (2 ^ (12 - sh) * 2 ^ sh); [lia|]. rewrite <- Z.pow_add_r by lia. by replace (12 - sh + sh) with 12 by lia.
  - change 4095 with (Z.ones 12). rewrite Z.ldiff_ones_r by lia. rewrite Z.shiftl_mul_pow2, Z.shiftr_div_pow2 by lia. change (2 ^ 12) with 4096.
    replace (p / 4096) with (b + i) by (apply (Z.div_unique _ _ _ (c * 2 ^ sh)); lia). rewrite page_addr_eq. lia.
Qed.

(** ** Freeing a chunk *)

Lemma chunk_page_cases s L i sh :
  slab_inv s L -> 0 <= i < sp_npages s -> cut_page s i sh ->
  (has_free s i sh /\ i ∈ L (DSlot (sh - sp_min_shift s)) /\ sp_next s (DPage i) <> None) \/
  (~ has_free s i sh /\ unlisted L i /\ sp_next s (DPage i) = None).
Proof.
  intros Hinv Hi Hc. pose proof (ch_tag _ _ _ Hc). pose proof (type_of_pos sh).
  destruct (iv_page _ _ Hinv i Hi) as [?|? ?|? ?|sh' K1 K2 [K3 _]|sh' K1 K2 K3 K4]; [lia|lia|lia|..];
    (assert (sh' = sh) as -> by (rewrite <- (shift_at_chunked s i sh'), <- (shift_at_chunked s i sh); done)); [left|by right].
  split_and!; [done..|]. destruct (iv_in _ _ Hinv _ _ K3) as [Hh _]. destruct (iv_list _ _ Hinv _ Hh) as [Hch _].
  by apply (chain_tag _ _ _ _ i Hch).
Qed.

Lemma used_word_ok s i k n :
  0 <= i < sp_npages s -> 0 <= n -> n + Z.of_nat k <= 512 ->
  exists b, used_word k (page_addr s i) n s = Some b /\ (b = false -> forall j, n <= j < n + Z.of_nat k -> word s i j = 0).
Proof.
  intros Hi. revert n; induction k as [|k IH]; intros n Hn Hk; cbn [used_word]; [exists false; split; [done|lia]|].
  unfold rd_word. rewrite word_access by lia. cbn [mbind option_bind]. fold (word s i n).
  destruct (Z.eqb_spec (word s i n) 0) as [E|E]; cbn [negb]; [|by exists true].
  destruct (IH (n + 1) ltac:(lia) ltac:(lia)) as (b & -> & Hb). exists b. split; [done|]. intros Hbf j Hj.
  destruct (Z.eq_dec j n) as [->|]; [done|]. apply Hb; [done|lia].
Qed.

Lemma rd_word_ok s a : in_pages s a = true -> rd_word s a = Some (sp_word s a).
Proof. intros H. unfold rd_word. by rewrite H. Qed.

Section FreeChunk.
Context (s : slab_pool) (L : desc -> list Z) (i sh c : Z).
Hypothesis Hinv : slab_inv s L.
Hypothesis Hi : 0 <= i < sp_npages s.
Hypothesis Hc : cut_page s i sh.
Hypothesis Hcr : reserved sh <= c < chunks sh.
Hypothesis Hused : used_bit s i sh c = true.
Let m := sh - sp_min_shift s.
Let p := page_addr s i + c * 2 ^ sh.

Lemma free_facts : 3 <= sh <= 11 /\ 0 <= c /\ 0 <= m < 12 - sp_min_shift s /\ sh = sp_min_shift s + m.
Proof using All.
  pose proof (ch_shift _ _ _ Hc). pose proof (pa_shift _ (iv_params _ _ Hinv)). pose proof (reserved_bound sh ltac:(lia)). unfold m. lia.
Qed.

Lemma link_step (b : bool) : (b = true <-> ~ has_free s i sh) ->
  exists s1 L1, (if b then relink_page i m (type_of sh) s else Some s) = Some s1 /\ linked s s1 L L1 m i.
Proof using All.
  intros Hb. destruct free_facts as (_ & _ & Hm & Esh). destruct (chunk_page_cases s L i sh Hinv Hi Hc) as [(Hf & Hl & _)|(Hf & Hu & _)].
  - destruct b; [by apply Hb in Hf|]. exists s, L. split; [done|]. by apply linked_refl.
  - assert (b = true) as -> by (by apply Hb). rewrite Esh. apply relink_ok; [done..|]. rewrite <- Esh. by apply (ch_tag _ _ _ Hc).
Qed.

Lemma link_next : match sp_next s (DPage i) with None => relink_page i m (type_of sh) s | Some _ => Some s end =
  if bool_decide (sp_next s (DPage i) = None) then relink_page i m (type_of sh) s else Some s.
Proof using All. by destruct (sp_next s (DPage i)). Qed.

Lemma next_none : bool_decide (sp_next s (DPage i) = None) = true <-> ~ has_free s i sh.
Proof using All.
  rewrite bool_decide_eq_true. destruct (chunk_page_cases s L i sh Hinv Hi Hc) as [(Hf & _ & Hn)|(Hf & _ & Hn)]; tauto.
Qed.

(** The bit [k] of the descriptor of the page is cleared. *)
Lemma clear_slab_bit s1 L1 k : linked s s1 L L1 m i -> 0 <= k ->
  let s2 := set_slab (DPage i) (Z.ldiff (slab_at s i) (Z.shiftl 1 k)) s1 in
  touched s1 s2 i /\ slab_at s2 i = Z.ldiff (slab_at s i) (Z.shiftl 1 k) /\ tag s2 i = tag s i /\ sp_min_shift s2 = sp_min_shift s.
Proof using All.
  intros Hl Hk s2. split_and!.
  - split; [done|done|done| |done]. intros j Hj. unfold s2, slab_at. fn.
  - unfold s2, slab_at. fn.
  - exact (proj1 (lk_data _ _ _ _ _ _ Hl i)).
  - apply (lk_params _ _ _ _ _ _ Hl).
Qed.

Lemma free_exact_ok : sh = 6 -> exists s', free_exact p i (slab_at s i) s = Some (Freed, s') /\ loses s s' p.
Proof using All.
  intros E6. destruct free_facts as (Hsh & Hc0 & Hm & Esh). destruct (chunk_addr s i sh c (iv_params _ _ Hinv) Hi Hsh ltac:(lia)) as (_ & B2 & B3 & _).
  fold p in B2, B3. unfold free_exact. rewrite E6 in B2, B3. change (2 ^ 6 - 1) with 63 in B3. change (64 - 1) with 63. change (4096 - 1) with 4095. rewrite B2, B3.
  change (0 =? 0) with true. cbn [negb]. set (w := slab_at s i). pose proof (ch_exact _ _ _ Hc E6) as Hw. fold w in Hw.
  assert (Hub : forall x c', used_bit x i sh c' = Z.testbit (slab_at x i) c') by (intros; by rewrite E6).
  rewrite land_one_bit by lia. pose proof Hused as Hu. rewrite Hub in Hu. fold w in Hu. rewrite Hu. cbn [negb].
  assert (Hfull : (w =? NGX_SLAB_BUSY) = true <-> ~ has_free s i sh).
  { rewrite Z.eqb_eq, full_bits, (ones_bits w 64) by (lia || done). replace (chunks sh) with 64 by (by rewrite E6). split; intros H k Hk; specialize (H k Hk); by rewrite Hub in *. }
  destruct (link_step _ Hfull) as (s1 & L1 & El & Hl). replace (6 - sp_min_shift s) with m by (unfold m; lia).
  replace (type_of sh) with NGX_SLAB_EXACT in El by (by rewrite E6). rewrite El. cbn [mbind option_bind].
  assert (V1 : valid s1 (DPage i) = true) by (apply valid_page; rewrite (proj1 (proj2 (proj2 (lk_params _ _ _ _ _ _ Hl)))); done).
  rewrite (wr_ok set_slab _ _ _ V1). cbn [mbind option_bind]. destruct (clear_slab_bit s1 L1 c Hl Hc0) as (T & Es2 & Et2 & Em2). fold w in T, Es2, Et2, Em2.
  set (w2 := Z.ldiff w (Z.shiftl 1 c)) in *. set (s2 := set_slab (DPage i) w2 s1) in *.
  assert (Hbits : forall c', 0 <= c' < chunks sh -> used_bit s2 i sh c' = negb (c' =? c) && used_bit s i sh c').
  { intros c' Hc'. rewrite !Hub, Es2. apply ldiff_bit; lia. }
  assert (Hc2 : cut_page s2 i sh).
  { destruct Hc as [H1 H2 _ _ _ H6]. split; [by rewrite Em2|by rewrite Et2|intros; exfalso; lia|intros _; rewrite Es2; apply ldiff_bound; lia|intros; exfalso; lia|].
    intros c' Hc'. rewrite E6 in Hc'. change (reserved 6) with 0 in Hc'. lia. }
  destruct (free_chunk_done s s1 s2 L L1 m i c (w2 =? 0)) as (s' & Hd & Hls); rewrite <- ?Esh; try done.
  - intros Ez c' Hc'. apply Z.eqb_eq in Ez. rewrite Hub, Es2, Ez. apply Z.bits_0.
  - exists s'. rewrite <- Esh in Hls. split; [|done]. rewrite <- Hd. by destruct (w2 =? 0).
Qed.

Lemma free_big_ok : 6 < sh -> exists s', free_big p i (slab_at s i) s = Some (Freed, s') /\ loses s s' p.
Proof using All.
  intros H6. destruct free_facts as (Hsh & Hc0 & Hm & Esh). destruct (chunk_addr s i sh c (iv_params _ _ Hinv) Hi Hsh ltac:(lia)) as (_ & B2 & B3 & _).
  fold p in B2, B3. unfold free_big. set (w := slab_at s i). destruct (ch_big _ _ _ Hc H6) as [Hw15 Hw]. fold w in Hw15, Hw. rewrite Hw15, Z.shiftl_1_l, B3.
  change (4096 - 1) with 4095. rewrite B2. change (0 =? 0) with true. cbn [negb]. destruct (chunks_bound sh Hsh) as (Hn & _ & Hn32). specialize (Hn32 H6).
  assert (Hub : forall x c', used_bit x i sh c' = Z.testbit (slab_at x i) (32 + c')).
  { intros x c'. unfold used_bit. by rewrite (proj2 (Z.ltb_ge sh 6)), (proj2 (Z.eqb_neq sh 6)) by lia. }
  replace (c + 32) with (32 + c) by lia. rewrite land_one_bit by lia. pose proof Hused as Hu. rewrite Hub in Hu. fold w in Hu. rewrite Hu. cbn [negb].
  rewrite (rd_ok sp_next s _ (valid_page s i Hi)). cbn [mbind option_bind]. fold m.
  assert (Et : type_of sh = NGX_SLAB_BIG) by (unfold type_of; by rewrite (proj2 (Z.ltb_ge sh 6)), (proj2 (Z.eqb_neq sh 6)) by lia).
  pose proof link_next as Hln. destruct (link_step _ next_none) as (s1 & L1 & El & Hl). rewrite Et in Hln, El. rewrite Hln, El. cbn [mbind option_bind].
  assert (V1 : valid s1 (DPage i) = true) by (apply valid_page; rewrite (proj1 (proj2 (proj2 (lk_params _ _ _ _ _ _ Hl)))); done).
  rewrite (wr_ok set_slab _ _ _ V1). cbn [mbind option_bind]. destruct (clear_slab_bit s1 L1 (32 + c) Hl ltac:(lia)) as (T & Es2 & Et2 & Em2). fold w in T, Es2, Et2, Em2.
  set (w2 := Z.ldiff w (Z.shiftl 1 (32 + c))) in *. set (s2 := set_slab (DPage i) w2 s1) in *.
  assert (Hbits : forall c', 0 <= c' < chunks sh -> used_bit s2 i sh c' = negb (c' =? c) && used_bit s i sh c').
  { intros c' Hc'. rewrite !Hub, Es2. unfold w2. rewrite ldiff_bit by lia. f_equal. f_equal. destruct (Z.eqb_spec c' c), (Z.eqb_spec (32 + c') (32 + c)); lia. }
  assert (Hc2 : cut_page s2 i sh).
  { destruct Hc as [H1 H2 _ _ _ _]. split; [by rewrite Em2|by rewrite Et2|intros; exfalso; lia|intros; exfalso; lia| |].
    - intros _. rewrite Es2. split; [|apply ldiff_bound; lia]. rewrite <- Hw15. apply Z.bits_inj'. intros k Hk. unfold w2. rewrite !Z.land_spec, ldiff_bit by lia.
      destruct (Z.eqb_spec k (32 + c)) as [->|]; [|done]. change 15 with (Z.ones 4). rewrite !Z.ones_spec_high by lia. by rewrite !andb_false_r.
    - intros c' Hc'. unfold reserved in Hc'. rewrite (proj2 (Z.ltb_ge sh 6)) in Hc' by lia. lia. }
  destruct (free_chunk_done s s1 s2 L L1 m i c (Z.land w2 NGX_SLAB_MAP_MASK =? 0)) as (s' & Hd & Hls); rewrite <- ?Esh; try done.
  - intros Ez c' Hc'. apply Z.eqb_eq in Ez. rewrite Hub, Es2. apply (f_equal (fun z => Z.testbit z (32 + c'))) in Ez.
    assert (0 <= c') by (unfold reserved in Hc'; rewrite (proj2 (Z.ltb_ge sh 6)) in Hc' by lia; lia).
    change NGX_SLAB_MAP_MASK with (Z.shiftl (Z.ones 32) 32) in Ez. rewrite Z.land_spec, mask_bit, Z.bits_0 in Ez by lia.
    rewrite (proj2 (Z.ltb_lt c' 32)), andb_true_r in Ez by lia. done.
  - exists s'. rewrite <- Esh in Hls. split; [|done]. rewrite <- Hd. by destruct (Z.land w2 NGX_SLAB_MAP_MASK =? 0).
Qed.

(** The words of the bitmap without the bit of the chunk. *)
Lemma clear_word_bit s1 L1 : 3 <= sh < 6 -> linked s s1 L L1 m i ->
  let w2 := Z.ldiff (word s i (c / 64)) (Z.shiftl 1 (c mod 64)) in
  let s2 := set_word (page_addr s i + 8 * (c / 64)) w2 s1 in
  touched s1 s2 i /\ cut_page s2 i sh /\ forall c', 0 <= c' < chunks sh -> used_bit s2 i sh c' = negb (c' =? c) && used_bit s i sh c'.
Proof using All.
  intros Hsm Hl w2 s2. destruct free_facts as (_ & Hc0 & _). pose proof (lk_params _ _ _ _ _ _ Hl) as P. assert (EN : sp_npages s1 = sp_npages s) by apply P.
  pose proof (chunks_words sh c Hsm ltac:(lia)) as Hd. destruct (ch_small _ _ _ Hc ltac:(lia)) as [Hs Hwb]. fold (word s i) in Hwb.
  destruct (small_touch s1 i sh (c / 64) w2 ltac:(lia) Hsm Hd) as (T & W1 & Wk). rewrite (same_params_addr s s1 i P) in T, W1, Wk. fold s2 in T, W1, Wk.
  assert (Ew : forall k, word s1 i k = word s i k) by (intros k; unfold word; by rewrite (same_params_addr s s1 i P), (lk_word _ _ _ _ _ _ Hl)).
  pose proof (Z.mod_pos_bound c 64 ltac:(lia)) as Hcm. pose proof (Z.div_mod c 64 ltac:(lia)) as Hdm.
  assert (Hbits : forall c', 0 <= c' < chunks sh -> used_bit s2 i sh c' = negb (c' =? c) && used_bit s i sh c').
  { intros c' Hc'. rewrite !small_bit by done. pose proof (Z.mod_pos_bound c' 64 ltac:(lia)). pose proof (Z.div_mod c' 64 ltac:(lia)).
    destruct (Z.eq_dec (c' / 64) (c / 64)) as [En|En].
    - rewrite En, W1. unfold w2. rewrite ldiff_bit by lia. f_equal. f_equal. destruct (Z.eqb_spec (c' mod 64) (c mod 64)), (Z.eqb_spec c' c); lia.
    - rewrite Wk, Ew by done. rewrite (proj2 (Z.eqb_neq c' c)); [done|]. intros ->. done. }
  split_and!; [done| |done]. split; [|exact (eq_trans (proj1 (lk_data _ _ _ _ _ _ Hl i)) (ch_tag _ _ _ Hc))| |intros; exfalso; lia|intros; exfalso; lia|].
  - replace (sp_min_shift s2) with (sp_min_shift s) by (symmetry; apply P). apply (ch_shift _ _ _ Hc).
  - intros _. split; [unfold slab_at; change (sp_slab s2) with (sp_slab s1); by rewrite (lk_slab _ _ _ _ _ _ Hl)|]. intros k Hk.
    change (0 <= word s2 i k < 2 ^ 64). destruct (Z.eq_dec k (c / 64)) as [->|]; [rewrite W1; apply ldiff_bound; [lia|lia|by apply Hwb]|].
    rewrite Wk, Ew by done. by apply Hwb.
  - intros c' Hc'. pose proof (reserved_bound sh ltac:(lia)). rewrite Hbits by lia. rewrite (ch_reserved _ _ _ Hc) by done.
    by rewrite (proj2 (Z.eqb_neq c' c)) by lia.
Qed.

Lemma free_small_ok : sh < 6 -> exists s', free_small p i (slab_at s i) s = Some (Freed, s') /\ loses s s' p.
Proof using All.
  intros H6. destruct free_facts as (Hsh & Hc0 & Hm & Esh). assert (Hsm : 3 <= sh < 6) by lia.
  destruct (chunk_addr s i sh c (iv_params _ _ Hinv) Hi Hsh ltac:(lia)) as (_ & B2 & B3 & B4). fold p in B2, B3, B4.
  destruct (ch_small _ _ _ Hc H6) as [Hs _]. destruct (small_map sh Hsm) as (Hmw & Ec & Er & Hmc & _). pose proof (chunks_words sh c Hsm ltac:(lia)) as Hd.
  unfold free_small. rewrite Hs. assert (E15 : Z.land sh 15 = sh) by (assert (sh = 3 \/ sh = 4 \/ sh = 5) as [->|[->| ->]] by lia; reflexivity).
  rewrite E15, Z.shiftl_1_l, B3. change (4096 - 1) with 4095. rewrite B2, B4. change (0 =? 0) with true. cbn [negb].
  rewrite (rd_word_ok s (page_addr s i + 8 * (c / 64))) by (apply word_access; lia). cbn [mbind option_bind]. change (sp_word s (page_addr s i + 8 * (c / 64))) with (word s i (c / 64)).
  set (w := word s i (c / 64)). change 63 with (Z.ones 6). rewrite Z.land_ones by lia. change (2 ^ 6) with 64.
  pose proof (Z.mod_pos_bound c 64 ltac:(lia)) as Hcm. rewrite land_one_bit by lia. pose proof Hused as Hu. rewrite small_bit in Hu by done. fold w in Hu. rewrite Hu. cbn [negb].
  rewrite (rd_ok sp_next s _ (valid_page s i Hi)). cbn [mbind option_bind]. fold m.
  assert (Et : type_of sh = NGX_SLAB_SMALL) by (unfold type_of; by rewrite (proj2 (Z.ltb_lt sh 6)) by lia).
  pose proof link_next as Hln. destruct (link_step _ next_none) as (s1 & L1 & El & Hl). rewrite Et in Hln, El. rewrite Hln, El. cbn [mbind option_bind].
  pose proof (lk_params _ _ _ _ _ _ Hl) as P. assert (EN : sp_npages s1 = sp_npages s) by apply P. pose proof (same_params_addr s s1 i P) as Ea.
  assert (Hip : in_pages s1 (page_addr s i + 8 * (c / 64)) = true) by (rewrite <- Ea; apply word_access; lia).
  unfold wr_word. rewrite Hip. cbn [mbind option_bind].
  destruct (clear_word_bit s1 L1 Hsm Hl) as (T & Hc2 & Hbits). fold w in T, Hc2, Hbits. set (s2 := set_word _ _ s1) in *.
  rewrite (rd_word_ok s2 (page_addr s i)) by (rewrite <- Ea, <- (Z.add_0_r (page_addr s1 i)); change 0 with (8 * 0); apply (word_access s1); lia).
  cbn [mbind option_bind]. destruct (used_word_ok s2 i (Z.to_nat (map_words sh - 1)) 1 ltac:(cbn; lia) ltac:(lia) ltac:(lia)) as (b & Eb & Hb).
  replace (page_addr s2 i) with (page_addr s i) in Eb by done. rewrite Eb. cbn [mbind option_bind].
  replace (sp_word s2 (page_addr s i)) with (word s2 i 0) by (unfold word; f_equal; change (page_addr s2 i) with (page_addr s1 i); lia).
  set (z := Z.ldiff (word s2 i 0) (Z.shiftl 1 (map_chunks sh) - 1) =? 0).
  destruct (free_chunk_done s s1 s2 L L1 m i c (z && negb b)) as (s' & Hdone & Hls); rewrite <- ?Esh; try done.
  - intros [Ez Eb']%andb_true_iff c' Hc'. apply negb_true_iff in Eb'. apply Z.eqb_eq in Ez. rewrite small_bit by done.
    pose proof (chunks_words sh c' Hsm ltac:(lia)) as Hd'. destruct (Z.eq_dec (c' / 64) 0) as [E0|E0].
    + rewrite E0. rewrite Z.mod_small by (pose proof (Z.div_small_iff c' 64 ltac:(lia)); lia). apply (f_equal (fun z => Z.testbit z c')) in Ez.
      rewrite Z.shiftl_1_l in Ez. replace (2 ^ map_chunks sh - 1) with (Z.ones (map_chunks sh)) in Ez by (rewrite Z.ones_equiv; lia).
      rewrite Z.ldiff_spec, Z.bits_0, Z.ones_spec_high, andb_true_r in Ez by lia. done.
    + rewrite Hb by (done || lia). apply Z.bits_0.
  - exists s'. rewrite <- Esh in Hls. split; [|done]. rewrite <- Hdone. destruct z, b; done.
Qed.
End FreeChunk.

(** ** Freeing a block *)

Lemma free_page_run_ok s L i :
  slab_inv s L -> 0 <= i < sp_npages s -> tag s i = 0 -> NGX_SLAB_PAGE_START < slab_at s i < NGX_SLAB_PAGE_BUSY ->
  exists s', free_page_run (page_addr s i) i (slab_at s i) s = Some (Freed, s') /\ loses s s' (page_addr s i).
Proof.
  intros Hinv Hi Ht Hs. destruct (iv_params _ _ Hinv) as [_ _ A3 [_ A4] _].
  assert (exists k, slab_at s i = NGX_SLAB_PAGE_START + k /\ run s i k NGX_SLAB_PAGE_BUSY /\ sp_next s (DPage i) = None /\ unlisted L i) as (k & Ek & Hr & Hn & Hu).
  { destruct (iv_page _ _ Hinv i Hi) as [_ [?|?] _|k _ K2 K3 K4 K5|k _ K2 (? & ? & _) _|sh K _ _|sh K _ _ _]; [lia|lia|by exists k|lia|..];
      pose proof (ch_tag _ _ _ K); pose proof (type_of_pos sh); lia. }
  pose proof Hr as (Hk & Hb & Hbusy). unfold free_page_run. change (4096 - 1) with (Z.ones 12). rewrite Z.land_ones by lia.
  replace (page_addr s i mod 2 ^ 12) with 0; [|symmetry; rewrite page_addr_eq; change (2 ^ 12) with 4096; rewrite Z.mul_comm, Z.mod_add by lia; done].
  change (0 =? 0) with true. cbn [negb]. rewrite (proj2 (Z.eqb_neq (slab_at s i) 0)), (proj2 (Z.eqb_neq (slab_at s i) NGX_SLAB_PAGE_BUSY)) by lia.
  replace (Z.ldiff (slab_at s i) NGX_SLAB_PAGE_START) with k.
  2:{ rewrite Ek. symmetry. apply Z.bits_inj'. intros b Hb'. replace (2 ^ 63 + k) with (Z.lor k (Z.shiftl 1 63)); [change (2 ^ 63) with (Z.shiftl 1 63); rewrite ldiff_bit, lor_bit by lia|].
      - destruct (Z.eqb_spec b 63) as [->|]; cbn [negb andb orb]; [|done]. by rewrite (proj1 (bits_bounded k 48 ltac:(lia) ltac:(lia))) by lia.
      - rewrite <- Z.lor_comm, <- Z.add_nocarry_lor; [done|]. apply Z.eqb_eq. rewrite Z.land_comm, land_one_bit by lia.
        by rewrite (proj1 (bits_bounded k 48 ltac:(lia) ltac:(lia))) by lia. }
  destruct (free_run_ok s L i k Hinv Hi Ht Ek Hr Hn Hu) as (s' & -> & [G1 G2 G3 G4]). cbn [mbind option_bind]. exists s'. split; [done|].
  assert (Hin : forall j off, i <= j < i + k -> live_page s' j off = false) by (intros j off Hj; destruct (G4 j Hj); apply live_free; [done|by left]).
  rewrite <- (Z.add_0_r (page_addr s i)). apply loses_pages; [lia|done|done|lia|..].
  - intros j off Hj Ho. destruct (decide (i <= j < i + k)) as [Hjr|Hjr].
    + rewrite Hin by done. destruct (Z.eqb_spec j i) as [->|Hne]; cbn [andb negb]; rewrite ?andb_true_r.
      * unfold live_page. rewrite Ht. change (0 =? 0) with true. cbn iota. by destruct (off =? 0); rewrite ?andb_false_r.
      * destruct (Hbusy j ltac:(lia)). symmetry. apply live_free; [done|by right].
    + rewrite (proj2 (Z.eqb_neq j i)) by lia. cbn [andb negb]. rewrite andb_true_r. eapply live_same; [exact Hinv|done|by apply G3|done..].
  - intros j off Hj Ho Hl. destruct (decide (i <= j < i + k)) as [Hjr|Hjr]; [by rewrite Hin in Hl|]. pose proof (G3 j Hj Hjr) as Hd.
    rewrite (same_data_shift _ _ _ Hd). by destruct Hd as (-> & -> & _).
Qed.

(** The fields that [ngx_slab_free_locked] reads for an address in a page. *)
Lemma free_locked_page s i off :
  slab_params s -> 0 <= i < sp_npages s -> 0 <= off < 4096 ->
  let p := page_addr s i + off in
  ngx_slab_free_locked p s =
    if tag s i =? NGX_SLAB_SMALL then free_small p i (slab_at s i) s
    else if tag s i =? NGX_SLAB_EXACT then free_exact p i (slab_at s i) s
    else if tag s i =? NGX_SLAB_BIG then free_big p i (slab_at s i) s
    else free_page_run p i (slab_at s i) s.
Proof.
  intros [_ _ _ _ A5] Hi Ho p. unfold ngx_slab_free_locked. assert (Ep : p = sp_start s + 4096 * i + off) by (unfold p; by rewrite page_addr_eq).
  rewrite (proj2 (Z.ltb_ge p (sp_start s))), (proj2 (Z.ltb_ge (sp_end s) p)) by lia. cbn [orb].
  replace (Z.shiftr (p - sp_start s) 12) with i by (rewrite Z.shiftr_div_pow2 by lia; change (2 ^ 12) with 4096; apply (Z.div_unique _ _ _ off); lia).
  rewrite (rd_ok sp_slab s _ (valid_page s i Hi)). cbn [mbind option_bind]. by rewrite (rd_ok sp_prev s _ (valid_page s i Hi)).
Qed.

Lemma chunked_tag_ne s i sh : cut_page s i sh -> (tag s i =? NGX_SLAB_PAGE) = false.
Proof. intros H. apply Z.eqb_neq. rewrite (ch_tag _ _ _ H). pose proof (type_of_pos sh). lia. Qed.

Lemma free_locked_ok s L p : slab_inv s L -> live s p = true -> exists s', ngx_slab_free_locked p s = Some (Freed, s') /\ loses s s' p.
Proof.
  intros Hinv Hl. pose proof (pa_pages _ (iv_params _ _ Hinv)) as A3. pose proof (pa_shift _ (iv_params _ _ Hinv)) as A1.
  destruct (live_page_of s p ltac:(lia) Hl) as (i & off & Hi & Ho & -> & Hlp). rewrite free_locked_page by (done || apply (iv_params _ _ Hinv)).
  assert (Hch : forall sh, cut_page s i sh -> exists s',
    (if tag s i =? NGX_SLAB_SMALL then free_small (page_addr s i + off) i (slab_at s i) s
     else if tag s i =? NGX_SLAB_EXACT then free_exact (page_addr s i + off) i (slab_at s i) s
     else if tag s i =? NGX_SLAB_BIG then free_big (page_addr s i + off) i (slab_at s i) s
     else free_page_run (page_addr s i + off) i (slab_at s i) s) = Some (Freed, s') /\ loses s s' (page_addr s i + off)).
  { intros sh Hc. pose proof (ch_shift _ _ _ Hc) as Hsh. assert (0 < 2 ^ sh) by (apply Z.pow_pos_nonneg; lia). rewrite (live_chunked s i sh) in Hlp by done.
    apply andb_true_iff in Hlp as [[Em%Z.eqb_eq Hr%Z.leb_le]%andb_true_iff Hu]. pose proof (off_chunk sh off ltac:(lia) Ho) as Hcb.
    pose proof (Z.div_mod off (2 ^ sh) ltac:(lia)) as Hdm. assert (Hcr : reserved sh <= off / 2 ^ sh < chunks sh) by lia.
    replace off with (off / 2 ^ sh * 2 ^ sh) by lia. rewrite (ch_tag _ _ _ Hc). unfold type_of.
    destruct (Z.ltb_spec sh 6); [|destruct (Z.eqb_spec sh 6)].
    - change (3 =? 3) with true. cbn iota. by apply (free_small_ok s L).
    - change (2 =? 3) with false. change (2 =? 2) with true. cbn iota. subst sh. by apply (free_exact_ok s L i 6).
    - change (1 =? 3) with false. change (1 =? 2) with false. change (1 =? 1) with true. cbn iota. apply (free_big_ok s L); try done; lia. }
  destruct (iv_page _ _ Hinv i Hi) as [K|? K|? K|sh K _ _|sh K _ _ _]; [..|by eapply Hch|by eapply Hch]; clear Hch;
    unfold live_page in Hlp; rewrite K in Hlp |- *; change (0 =? 0) with true in Hlp; cbn iota in Hlp;
    apply andb_true_iff in Hlp as [[->%Z.eqb_eq Hr%Z.ltb_lt]%andb_true_iff Hb%Z.ltb_lt]; rewrite Z.add_0_r;
    change (0 =? 3) with false; change (0 =? 2) with false; change (0 =? 1) with false; cbn iota; by eapply free_page_run_ok.
Qed.

(** ** What is refused *)

(** An address that the checks of [ngx_slab_free_locked] tell from a block: outside of
    the pool, or in a page but not the start of a free run, nor in the bitmap. *)
Definition checked_addr (s : slab_pool) (p : Z) : Prop :=
  p < sp_start s \/ sp_end s < p \/
  exists i off, 0 <= i < sp_npages s /\ 0 <= off < 4096 /\ p = page_addr s i + off /\
    if tag s i =? NGX_SLAB_PAGE then ~ (off = 0 /\ 0 < slab_at s i < NGX_SLAB_PAGE_START) else reserved (shift_at s i) <= off / 2 ^ shift_at s i.

Lemma addr_low s i off sh : slab_params s -> 0 <= sh <= 12 -> Z.land (page_addr s i + off) (2 ^ sh - 1) = off mod 2 ^ sh.
Proof.
  intros [_ _ _ [_ A4] _] Hsh. replace (2 ^ sh - 1) with (Z.ones sh) by (rewrite Z.ones_equiv; lia). rewrite Z.land_ones by lia.
  assert (0 < 2 ^ sh) by (apply Z.pow_pos_nonneg; lia). pose proof (Z.div_mod (sp_start s) 4096 ltac:(lia)) as Hd. set (b := sp_start s / 4096) in *.
  replace (page_addr s i + off) with (off + (2 ^ (12 - sh) * (b + i)) * 2 ^ sh); [apply Z.mod_add; lia|]. rewrite page_addr_eq.
  assert (Hx : 2 ^ (12 - sh) * 2 ^ sh = 4096) by (rewrite <- Z.pow_add_r by lia; by replace (12 - sh + sh) with 12 by lia).
  replace (2 ^ (12 - sh) * (b + i) * 2 ^ sh) with (2 ^ (12 - sh) * 2 ^ sh * (b + i)) by ring. rewrite Hx. lia.
Qed.

Lemma free_chunk_refused s L i sh off :
  slab_inv s L -> 0 <= i < sp_npages s -> cut_page s i sh -> 0 <= off < 4096 -> reserved sh <= off / 2 ^ sh -> live_page s i off = false ->
  exists r, r <> Freed /\ ngx_slab_free_locked (page_addr s i + off) s = Some (r, s).
Proof.
  intros Hinv Hi Hc Ho Hr Hl. pose proof (iv_params _ _ Hinv) as Hpa. pose proof (pa_shift _ Hpa) as A1. pose proof (ch_shift _ _ _ Hc) as Hsh.
  rewrite free_locked_page by done. rewrite (live_chunked s i sh) in Hl by done. assert (0 < 2 ^ sh) by (apply Z.pow_pos_nonneg; lia).
  assert (Hlow := addr_low s i off sh Hpa ltac:(lia)). pose proof (off_chunk sh off ltac:(lia) Ho) as Hcb. pose proof (Z.div_mod off (2 ^ sh) ltac:(lia)) as Hdm.
  assert (Hshift : Z.shiftr (Z.land (page_addr s i + off) 4095) sh = off / 2 ^ sh).
  { change 4095 with (2 ^ 12 - 1). rewrite addr_low by (done || lia). rewrite Z.shiftr_div_pow2 by lia. f_equal. apply Z.mod_small. change (2 ^ 12) with 4096. lia. }
  rewrite (ch_tag _ _ _ Hc). unfold type_of. destruct (Z.ltb_spec sh 6); [|destruct (Z.eqb_spec sh 6) as [E6|E6]].
  - change (3 =? 3) with true. cbn iota. unfold free_small. destruct (ch_small _ _ _ Hc ltac:(lia)) as [Hs _]. rewrite Hs.
    assert (E15 : Z.land sh 15 = sh) by (assert (sh = 3 \/ sh = 4 \/ sh = 5) as [->|[->| ->]] by lia; reflexivity). rewrite E15, Z.shiftl_1_l, Hlow.
    destruct (Z.eqb_spec (off mod 2 ^ sh) 0) as [Em|Em]; cbn [negb]; [|by exists WrongChunk]. change (4096 - 1) with 4095. rewrite Hshift.
    destruct (small_map sh ltac:(lia)) as (? & Ec & _). pose proof (chunks_words sh (off / 2 ^ sh) ltac:(lia) Hcb).
    replace (Z.ldiff (page_addr s i + off) 4095) with (page_addr s i).
    2:{ destruct (chunk_addr s i sh (off / 2 ^ sh) Hpa Hi ltac:(lia) Hcb) as (_ & _ & _ & E). by replace (off / 2 ^ sh * 2 ^ sh) with off in E by lia. }
    rewrite rd_word_ok by (apply word_access; lia). cbn [mbind option_bind]. change 63 with (Z.ones 6). rewrite Z.land_ones by lia. change (2 ^ 6) with 64.
    pose proof (Z.mod_pos_bound (off / 2 ^ sh) 64 ltac:(lia)). rewrite land_one_bit by lia. rewrite small_bit in Hl by lia. unfold word in Hl.
    rewrite (proj2 (Z.leb_le _ _) Hr) in Hl. cbn [andb] in Hl. rewrite Hl. cbn [negb]. by exists ChunkAlreadyFree.
  - change (2 =? 3) with false. change (2 =? 2) with true. cbn iota. unfold free_exact. subst sh. change (64 - 1) with (2 ^ 6 - 1). rewrite Hlow.
    destruct (Z.eqb_spec (off mod 2 ^ 6) 0) as [Em|Em]; cbn [negb]; [|by exists WrongChunk]. change (4096 - 1) with 4095. rewrite Hshift, land_one_bit by lia.
    rewrite (proj2 (Z.leb_le _ _) Hr) in Hl. cbn [andb] in Hl. unfold used_bit in Hl. change (6 <? 6) with false in Hl. change (6 =? 6) with true in Hl. cbn iota in Hl.
    rewrite Hl. cbn [negb]. by exists ChunkAlreadyFree.
  - change (1 =? 3) with false. change (1 =? 2) with false. change (1 =? 1) with true. cbn iota. unfold free_big. destruct (ch_big _ _ _ Hc ltac:(lia)) as [Hs _].
    rewrite Hs, Z.shiftl_1_l, Hlow. destruct (Z.eqb_spec (off mod 2 ^ sh) 0) as [Em|Em]; cbn [negb]; [|by exists WrongChunk]. change (4096 - 1) with 4095.
    rewrite Hshift, land_one_bit by lia. rewrite (proj2 (Z.leb_le _ _) Hr) in Hl. cbn [andb] in Hl. unfold used_bit in Hl.
    rewrite (proj2 (Z.ltb_ge sh 6)), (proj2 (Z.eqb_neq sh 6)) in Hl by lia. replace (off / 2 ^ sh + 32) with (32 + off / 2 ^ sh) by lia. rewrite Hl. cbn [negb]. by exists ChunkAlreadyFree.
Qed.

Lemma free_locked_refused s L p :
  slab_inv s L -> live s p = false -> checked_addr s p -> exists r, r <> Freed /\ ngx_slab_free_locked p s = Some (r, s).
Proof.
  intros Hinv Hl [Hp|[Hp|(i & off & Hi & Ho & -> & Hck)]].
  - exists OutsideOfPool. split; [done|]. unfold ngx_slab_free_locked. by rewrite (proj2 (Z.ltb_lt p (sp_start s))).
  - exists OutsideOfPool. split; [done|]. unfold ngx_slab_free_locked. rewrite (proj2 (Z.ltb_lt (sp_end s) p)) by done. by rewrite orb_true_r.
  - rewrite live_at in Hl by done. pose proof (iv_params _ _ Hinv) as Hpa.
    assert (Hch : forall sh, cut_page s i sh -> exists r, r <> Freed /\ ngx_slab_free_locked (page_addr s i + off) s = Some (r, s)).
    { intros sh Hc. rewrite (chunked_tag_ne _ _ _ Hc), (shift_at_chunked _ _ _ Hc) in Hck. by eapply free_chunk_refused. }
    assert (Hrun : tag s i = 0 -> (off = 0 -> slab_at s i = 0 \/ slab_at s i = NGX_SLAB_PAGE_BUSY) ->
      exists r, r <> Freed /\ ngx_slab_free_locked (page_addr s i + off) s = Some (r, s)).
    { intros Ht H0. rewrite free_locked_page by done. rewrite Ht. change (0 =? 3) with false. change (0 =? 2) with false. change (0 =? 1) with false. cbn iota.
      unfold free_page_run. change (4096 - 1) with (2 ^ 12 - 1). rewrite addr_low by (done || lia). change (2 ^ 12) with 4096. rewrite Z.mod_small by lia.
      destruct (Z.eqb_spec off 0) as [E0|E0]; cbn [negb]; [|by exists WrongChunk]. destruct (H0 E0) as [-> | ->]; [by exists PageAlreadyFree|by exists WrongPage]. }
    destruct (iv_page _ _ Hinv i Hi) as [K1 K2 _|k K1 K2 (Hk & Hb & _) _ _|k K1 K2 (Hk & Hb & _) _|sh K _ _|sh K _ _ _]; [..|by eapply Hch|by eapply Hch].
    + by apply Hrun.
    + apply Hrun; [done|]. intros ->. exfalso. unfold live_page in Hl. rewrite K1, K2 in Hl. change (0 =? 0) with true in Hl. cbn iota in Hl. cbn [andb] in Hl.
      destruct Hpa as [_ _ A3 _ _]. rewrite (proj2 (Z.ltb_lt _ _)), (proj2 (Z.ltb_lt _ _)) in Hl by lia. done.
    + apply Hrun; [done|]. intros ->. exfalso. rewrite K1 in Hck. change (0 =? 0) with true in Hck. cbn iota in Hck. apply Hck. destruct Hpa as [_ _ A3 _ _]. lia.
Qed.
