(* ===== verification/NgxSlabPool.v ===== *)
(** * The slab allocator as a whole

    Any sequence of allocations, of freeing what was allocated and of stores to it
    runs without a fault and hands out blocks that do not overlap; wrong pointers
    are refused.
    The allocator is what the limits on connections and requests ask of it. *)
From stdpp Require Import gmap.
From S2P Require Import Prelude NgxKeyTree NgxSlab NgxSlabInv NgxSlabPages NgxSlabChunks NgxSlabAlloc NgxSlabFree.

#[local] Set Warnings "-register-all,-clear-no-such-hyp".

(** ** Blocks *)

(** A block in use lies in the pages of its run, or in its page after the bitmap. *)
Lemma live_block s L p :
  slab_inv s L -> live s p = true ->
  exists i k, 0 <= i /\ i + k <= sp_npages s /\ block s i k /\ page_addr s i <= p /\ 0 < live_size s p /\
    p + live_size s p <= page_addr s i + 4096 * k /\
    forall q, live s q = true -> page_addr s i <= q < page_addr s i + 4096 -> q = p \/ p + live_size s p <= q \/ q + live_size s q <= p.
Proof.
  intros Hinv Hl. pose proof (pa_pages _ (iv_params _ _ Hinv)) as A3. pose proof (pa_shift _ (iv_params _ _ Hinv)) as A1.
  destruct (live_page_of s p ltac:(lia) Hl) as (i & off & Hi & Ho & -> & Hlp).
  assert (Hq : forall q, page_addr s i <= q < page_addr s i + 4096 -> exists o, 0 <= o < 4096 /\ q = page_addr s i + o)
    by (intros q Hq; exists (q - page_addr s i); lia).
  assert (Hch : forall sh, cut_page s i sh -> exists k, i + k <= sp_npages s /\ block s i k /\ 0 < live_size s (page_addr s i + off) /\
    off + live_size s (page_addr s i + off) <= 4096 * k /\
    forall o, 0 <= o < 4096 -> live_page s i o = true -> o = off \/ off + live_size s (page_addr s i + off) <= o \/ o + live_size s (page_addr s i + o) <= off).
  { intros sh Hc. pose proof (ch_shift _ _ _ Hc) as Hsh. assert (Hpow : 0 < 2 ^ sh) by (apply Z.pow_pos_nonneg; lia).
    assert (Hsz : forall o, 0 <= o < 4096 -> live_size s (page_addr s i + o) = 2 ^ sh).
    { intros o Hoo. rewrite live_size_at by done. by rewrite (chunked_tag_ne _ _ _ Hc), (shift_at_chunked _ _ _ Hc). }
    assert (Hmul : forall o, 0 <= o < 4096 -> live_page s i o = true -> o = 2 ^ sh * (o / 2 ^ sh) /\ 0 <= o / 2 ^ sh < chunks sh).
    { intros o Hoo H. rewrite (live_chunked s i sh) in H by done. apply andb_true_iff in H as [[Em%Z.eqb_eq _]%andb_true_iff _].
      pose proof (Z.div_mod o (2 ^ sh) ltac:(lia)). split; [lia|]. apply off_chunk; lia. }
    destruct (Hmul off Ho Hlp) as [Eo Hob]. exists 1. split_and!; [lia|right; split; [done|by exists sh]|rewrite Hsz by done; lia| |].
    - rewrite Hsz by done. assert (Hx : (off / 2 ^ sh + 1) * 2 ^ sh <= chunks sh * 2 ^ sh) by nia. unfold chunks in Hx. rewrite <- Z.pow_add_r in Hx by lia.
      replace (12 - sh + sh) with 12 in Hx by lia. lia.
    - intros o Hoo Hlo. rewrite !Hsz by done. destruct (Hmul o Hoo Hlo) as [Eo' _].
      destruct (Z.lt_trichotomy (o / 2 ^ sh) (off / 2 ^ sh)) as [H|[H|H]]; [right; right; nia|left; congruence|right; left; nia]. }
  assert (exists k, i + k <= sp_npages s /\ block s i k /\ 0 < live_size s (page_addr s i + off) /\ off + live_size s (page_addr s i + off) <= 4096 * k /\
    forall o, 0 <= o < 4096 -> live_page s i o = true -> o = off \/ off + live_size s (page_addr s i + off) <= o \/ o + live_size s (page_addr s i + o) <= off)
    as (k & H1 & H2 & H3 & H4 & H5).
  { destruct (iv_page _ _ Hinv i Hi) as [K1 K2 _|k K1 K2 K3 _ _|k K1 K2 (Hk & Hb & _) _|sh K _ _|sh K _ _ _]; [..|by eapply Hch|by eapply Hch]; clear Hch.
    - exfalso. rewrite live_free in Hlp; [done|done|]. destruct K2; [left; lia|by right].
    - pose proof K3 as (Hk & Hb & _). rewrite live_size_at by done. rewrite K1, K2. change (0 =? 0) with true. cbn iota.
      assert (H0 : forall o, live_page s i o = true -> o = 0).
      { intros o H. unfold live_page in H. rewrite K1 in H. change (0 =? 0) with true in H. cbn iota in H. by apply andb_true_iff in H as [[?%Z.eqb_eq _]%andb_true_iff _]. }
      pose proof (H0 off Hlp). exists k. split_and!; [done|left; exists NGX_SLAB_PAGE_BUSY; auto|lia|lia|]. intros o _ Hlo. apply H0 in Hlo. left. congruence.
    - exfalso. rewrite live_free in Hlp; [done|done|left; lia]. }
  exists i, k. split_and!; [lia|done|done|lia|done|lia|]. intros q Hlq (o & Hoo & ->)%Hq. rewrite live_at in Hlq by done.
  destruct (H5 o Hoo Hlq) as [->|[?|?]]; [by left|right; left; lia|right; right; lia].
Qed.

(** Two blocks in use do not overlap, and are in the pages. *)
Lemma live_disjoint s L p q :
  slab_inv s L -> live s p = true -> live s q = true -> p <> q -> p + live_size s p <= q \/ q + live_size s q <= p.
Proof.
  intros Hinv Hp Hq Hne. pose proof (pa_pages _ (iv_params _ _ Hinv)) as A3.
  destruct (live_block s L p Hinv Hp) as (i & k & Hi & Hik & HB & Hip & Hsz & Hend & Hsame).
  destruct (live_block s L q Hinv Hq) as (j & k' & Hj & Hjk & HB' & Hjq & Hsz' & Hend' & _). rewrite !page_addr_eq in *.
  destruct (Z.eq_dec i j) as [->|Hij].
  - destruct (Z.lt_ge_cases q (sp_start s + 4096 * j + 4096)) as [Hlt|Hge]; [destruct (Hsame q Hq ltac:(lia)); [congruence|lia]|].
    destruct (live_page_of s q ltac:(lia) Hq) as (x & o & Hx & Ho & E & Hlx). rewrite page_addr_eq in E.
    exfalso. destruct HB' as [(v & _ & (_ & _ & Hr) & Hv)|(-> & _)]; [|lia].
    destruct (Hr x ltac:(lia)) as [Ht Hs]. rewrite live_free in Hlx; [done|done|]. destruct Hv as [[-> _]|[-> _]]; [by right|left; lia].
  - destruct (block_apart s i k j k' ltac:(lia) Hi Hj HB HB' Hij); lia.
Qed.

Lemma live_inside s L p : slab_inv s L -> live s p = true -> sp_start s <= p /\ 0 < live_size s p /\ p + live_size s p <= sp_start s + 4096 * sp_npages s.
Proof. intros Hinv Hl. destruct (live_block s L p Hinv Hl) as (i & k & Hi & Hik & _ & Hp & Hsz & He & _). rewrite page_addr_eq in *. lia. Qed.

(** ** Sequences of operations *)

(** The blocks that are in use and the sizes that were asked for. *)
Abbreviation heap := (gmap Z Z).

Definition slab_rep (s0 s : slab_pool) (H : heap) : Prop :=
  (slab_ok s /\ same_params s0 s) /\ (forall q, live s q = true <-> is_Some (H !! q)) /\ forall q size, H !! q = Some size -> 0 <= size <= live_size s q.

(** Allocations of any size, freeing of what was allocated, and stores of a client
    to its blocks. *)
Inductive slab_step : slab_pool * heap -> slab_pool * heap -> Prop :=
| step_alloc size s H r s' :
    0 <= size -> ngx_slab_alloc_locked size s = Some (r, s') ->
    slab_step (s, H) (s', match r with Some p => <[p := size]> H | None => H end)
| step_free p s H r s' :
    is_Some (H !! p) -> ngx_slab_free_locked p s = Some (r, s') -> slab_step (s, H) (s', delete p H)
| step_write p size w v s H :
    H !! p = Some size -> p <= w < p + size -> slab_step (s, H) (set_word w v s, H).

Lemma rep_alloc s0 s H size :
  slab_rep s0 s H -> 0 <= size -> exists r s', ngx_slab_alloc_locked size s = Some (r, s') /\
    match r with Some p => H !! p = None /\ slab_rep s0 s' (<[p := size]> H) | None => s' = s /\ no_run s size end.
Proof.
  intros [[[L Hinv] Hpa] [Hl Hs]] H0. destruct (alloc_locked_ok s L size Hinv H0) as (r & s' & E & Hok & Hpa' & Hr). exists r, s'. split; [done|].
  destruct r as [p|]; [|done]. destruct Hr as [_ G2 G3 G4 G5].
  assert (Hp : H !! p = None) by (apply eq_None_not_Some; intros Hx%Hl; congruence). split; [done|]. split_and!; [done|by eapply same_params_trans|..].
  - intros q. rewrite G3. destruct (Z.eqb_spec q p) as [->|Hne].
    + rewrite orb_true_r, lookup_insert_eq. split; [by eexists|done].
    + by rewrite orb_false_r, lookup_insert_ne, Hl by done.
  - intros q sz. destruct (Z.eq_dec q p) as [->|Hne]; [rewrite lookup_insert_eq; intros [= <-]; lia|].
    rewrite lookup_insert_ne by done. intros Hq. rewrite G5; [by apply Hs|]. apply Hl. by eexists.
Qed.

Lemma rep_free s0 s H p :
  slab_rep s0 s H -> is_Some (H !! p) -> exists s', ngx_slab_free_locked p s = Some (Freed, s') /\ slab_rep s0 s' (delete p H).
Proof.
  intros [[[L Hinv] Hpa] [Hl Hs]] Hp. destruct (free_locked_ok s L p Hinv ltac:(by apply Hl)) as (s' & E & [F1 F2 F3 F4]). exists s'. split; [done|]. split_and!; [done|by eapply same_params_trans|..].
  - intros q. rewrite F3. destruct (Z.eqb_spec q p) as [->|Hne]; cbn [negb].
    + rewrite andb_false_r, lookup_delete_eq. split; [done|by intros [? ?]].
    + by rewrite andb_true_r, lookup_delete_ne, Hl by done.
  - intros q sz [Hne Hq]%lookup_delete_Some. rewrite F4; [by apply Hs|]. rewrite F3. apply andb_true_iff. split; [apply Hl; by eexists|].
    apply negb_true_iff, Z.eqb_neq. congruence.
Qed.

(** A block in use has no word of a bitmap. *)
Lemma bitmap_apart s L p w i sh k :
  slab_inv s L -> live s p = true -> p <= w < p + live_size s p -> 0 <= i < sp_npages s -> cut_page s i sh -> sh < 6 -> 0 <= k < map_words sh ->
  page_addr s i + 8 * k <> w.
Proof.
  intros Hinv Hl Hw Hi Hc Hsh Hk E. pose proof (pa_pages _ (iv_params _ _ Hinv)) as A3. pose proof (pa_shift _ (iv_params _ _ Hinv)) as A1. pose proof (ch_shift _ _ _ Hc) as Hs.
  pose proof (map_words_bound sh k ltac:(lia) Hk) as Hk8.
  destruct (live_block s L p Hinv Hl) as (j & n & Hj & Hjn & HB & Hp & _ & Hend & _). destruct (Z.eq_dec j i) as [->|Hne].
  - assert (n = 1) as ->.
    { destruct HB as [(v & Ht & _)|[-> _]]; [|done]. rewrite (ch_tag _ _ _ Hc) in Ht. pose proof (type_of_pos sh). lia. }
    destruct (live_page_of s p ltac:(lia) Hl) as (x & off & Hx & Ho & -> & Hlp). rewrite !page_addr_eq in *. assert (x = i) as -> by lia.
    rewrite (live_chunked s i sh) in Hlp by done. apply andb_true_iff in Hlp as [[_ Hres%Z.leb_le]%andb_true_iff _].
    assert (Hoff : reserved sh * 2 ^ sh <= off) by (pose proof (Z.div_mod off (2 ^ sh) ltac:(lia)); pose proof (Z.mod_pos_bound off (2 ^ sh) ltac:(lia)); nia).
    assert (Hr : 8 * map_words sh <= reserved sh * 2 ^ sh) by (assert (sh = 3 \/ sh = 4 \/ sh = 5) as [->|[->| ->]] by lia; vm_compute; discriminate). lia.
  - destruct (block_apart s j n i 1 ltac:(lia) Hj ltac:(lia) HB ltac:(right; split; [done|by exists sh]) Hne); rewrite !page_addr_eq in *; lia.
Qed.

(** A store of a client to its block. *)
Lemma inv_write s L p w v :
  slab_inv s L -> live s p = true -> p <= w < p + live_size s p -> slab_inv (set_word w v s) L /\ forall q, live (set_word w v s) q = live s q.
Proof.
  intros Hinv Hl Hw. pose proof (pa_shift _ (iv_params _ _ Hinv)) as A1. set (s' := set_word w v s).
  assert (Hword : forall i sh k, 0 <= i < sp_npages s -> cut_page s i sh -> sh < 6 -> 0 <= k < map_words sh -> sp_word s' (page_addr s i + 8 * k) = sp_word s (page_addr s i + 8 * k)).
  { intros i sh k Hi Hc Hsh Hk. unfold s'. cbn. apply functions.fn_lookup_insert_ne. intros E. by apply (bitmap_apart s L p w i sh k). }
  assert (Hbit : forall i sh c, 0 <= i < sp_npages s -> cut_page s i sh -> 0 <= c < chunks sh -> used_bit s' i sh c = used_bit s i sh c).
  { intros i sh c Hi Hc Hcc. pose proof (ch_shift _ _ _ Hc). unfold used_bit. destruct (Z.ltb_spec sh 6); [|done]. change (page_addr s' i) with (page_addr s i).
    rewrite (Hword i sh) by (try done; apply chunks_words; lia). done. }
  assert (Hcut : forall i sh, 0 <= i < sp_npages s -> cut_page s i sh -> cut_page s' i sh).
  { intros i sh Hi Hc. pose proof Hc as [C1 C2 C3 C4 C5 C6]. split; [done..| |done|done|].
    - intros Hsh. destruct (C3 Hsh) as [D1 D2]. split; [done|]. intros k Hk. change (page_addr s' i) with (page_addr s i). rewrite (Hword i sh) by done. by apply D2.
    - intros c Hcc. rewrite Hbit; [by apply C6|done|done|]. pose proof (reserved_bound sh ltac:(lia)). lia. }
  assert (Hfree : forall i sh, 0 <= i < sp_npages s -> cut_page s i sh -> has_free s' i sh <-> has_free s i sh).
  { intros i sh Hi Hc. split; intros (c & Hcc & Hb); exists c; (split; [done|]); by rewrite (Hbit i sh) in * by done. }
  split.
  - destruct Hinv as [I1 I2 I3 I4]. split; [by destruct I1; split| |done|].
    { intros h Hh. destruct (I2 h Hh) as [Hch Hnd]. split; [|done]. by eapply chain_frame. }
    intros i Hi.
    destruct (I4 i Hi) as [K1 K2 K3|k K1 K2 K3 K4 K5|k K1 K2 K3 K4|sh K1 K2 K3|sh K1 K2 K3 K4].
    + by apply pk_inner.
    + by eapply pk_run.
    + by eapply pk_free.
    + eapply pk_chunks; [by apply Hcut|by apply Hfree|done].
    + eapply pk_full; [by apply Hcut|by rewrite Hfree|done|done].
  - intros q. unfold live. change (sp_start s') with (sp_start s). change (sp_npages s') with (sp_npages s).
    destruct (Z.leb_spec (sp_start s) q) as [Hq|]; [|done]. destruct (Z.ltb_spec q (sp_start s + 4096 * sp_npages s)) as [Hq'|]; [|done]. cbn [andb].
    set (i := (q - sp_start s) / 4096). set (off := (q - sp_start s) mod 4096).
    assert (Hi : 0 <= i < sp_npages s) by (split; [apply Z.div_pos; lia|apply Z.div_lt_upper_bound; lia]). assert (Ho : 0 <= off < 4096) by (apply Z.mod_pos_bound; lia).
    assert (Hcase : tag s i = 0 \/ exists sh, cut_page s i sh) by (destruct (iv_page _ _ Hinv i Hi); eauto). destruct Hcase as [E|[sh Hc]].
    + unfold live_page. change (tag s' i) with (tag s i). by rewrite E.
    + pose proof (ch_shift _ _ _ Hc). rewrite (live_chunked s' i sh), (live_chunked s i sh) by (try done; by apply Hcut). rewrite (Hbit i sh); [done|done|done|]. apply off_chunk; lia.
Qed.

Lemma rep_write s0 s H p size w v : slab_rep s0 s H -> H !! p = Some size -> p <= w < p + size -> slab_rep s0 (set_word w v s) H.
Proof.
  intros [[[L Hinv] Hpa] [Hl Hs]] Hp Hw. pose proof (Hs p size Hp). destruct (inv_write s L p w v Hinv) as [Hinv' Hlive]; [apply Hl; by eexists|lia|].
  split_and!; [by exists L|done|by intros q; rewrite Hlive|]. intros q x Hq. by apply (Hs q x).
Qed.

Lemma rep_step s0 x y : slab_rep s0 x.1 x.2 -> slab_step x y -> slab_rep s0 y.1 y.2.
Proof.
  intros Hr Hst. destruct Hst as [size s H r s' H0 E|p s H r s' Hp E|p size w v s H Hp Hw]; cbn [fst snd] in *.
  - destruct (rep_alloc s0 s H size Hr H0) as (r' & s1 & E' & Hx). rewrite E in E'. injection E' as -> ->. destruct r'; [tauto|]. by destruct Hx as [-> _].
  - destruct (rep_free s0 s H p Hr Hp) as (s1 & E' & Hx). rewrite E in E'. by injection E' as -> ->.
  - by eapply rep_write.
Qed.

Lemma rep_steps s0 x y : slab_rep s0 x.1 x.2 -> rtc slab_step x y -> slab_rep s0 y.1 y.2.
Proof. intros Hx Hrun. induction Hrun as [|x y z H1 _ IH]; [done|]. apply IH. by eapply rep_step. Qed.

(** ** A new pool *)

(** The pages of a new pool are in its memory, from the first page boundary after the descriptors. *)
Lemma slab_init_pages words min_shift p end_ :
  3 <= min_shift <= 11 -> 0 <= p -> p + 3 * (4096 + 24) <= end_ ->
  let s := ngx_slab_init words min_shift p end_ in
  0 < sp_npages s /\ p < sp_start s /\ sp_start s mod 4096 = 0 /\ sp_start s + 4096 * sp_npages s <= end_ /\
  p + (12 - min_shift) * 24 + sp_npages s * 24 <= sp_start s.
Proof.
  intros Hs Hp He. unfold ngx_slab_init. cbn [sp_npages sp_start]. set (pages := (end_ - p) / (4096 + 24)).
  set (q := p + (12 - min_shift) * 24 + pages * 24 + (4096 - 1)). set (start := q / 4096 * 4096).
  assert (Hpg : 4120 * pages <= end_ - p < 4120 * pages + 4120) by (unfold pages; change (4096 + 24) with 4120; pose proof (Z.div_mod (end_ - p) 4120 ltac:(lia)); pose proof (Z.mod_pos_bound (end_ - p) 4120 ltac:(lia)); lia).
  assert (Hst : q - 4096 < start <= q) by (unfold start; pose proof (Z.div_mod q 4096 ltac:(lia)); pose proof (Z.mod_pos_bound q 4096 ltac:(lia)); lia).
  assert (Hrm : 4096 * ((end_ - start) / 4096) <= end_ - start < 4096 * ((end_ - start) / 4096) + 4096)
    by (pose proof (Z.div_mod (end_ - start) 4096 ltac:(lia)); pose proof (Z.mod_pos_bound (end_ - start) 4096 ltac:(lia)); lia).
  assert (start mod 4096 = 0) by (unfold start; by rewrite Z.mod_mul). set (r := (end_ - start) / 4096) in *.
  destruct (Z.ltb_spec 0 (pages - r)); split_and!; lia.
Qed.

(** A new pool is one free run. *)
Lemma slab_init_ok words min_shift p end_ :
  3 <= min_shift <= 11 -> 0 <= p -> p + 3 * (4096 + 24) <= end_ -> end_ < 2 ^ 59 ->
  let s := ngx_slab_init words min_shift p end_ in slab_ok s /\ forall q, live s q = false.
Proof.
  intros Hs Hp He H59 s. destruct (slab_init_pages words min_shift p end_ Hs Hp He) as (H1 & H2 & H3 & H4 & _). fold s in H1, H2, H3, H4.
  assert (Etag : forall i, tag s i = 0) by (intros i; unfold tag, s; cbn; unfold insert, functions.fn_insert; by case_decide).
  assert (Eslab : forall i, slab_at s i = if decide (i = 0) then sp_npages s else 0).
  { intros i. unfold slab_at, s. cbn. unfold insert, functions.fn_insert. repeat case_decide; congruence. }
  assert (HN : sp_npages s < 2 ^ 48) by lia. split.
  - exists (fun h => match h with DFree => [0] | _ => [] end). split.
    + split; [done|unfold s; cbn; by rewrite Z.shiftl_1_l|lia|split; [lia|done]|]. change (sp_end s) with end_. lia.
    + intros [|m|i] Hh; [|split; [done|constructor]|done]. split; [|apply NoDup_singleton]. by cbn.
    + intros [|m|i] j Hj; [apply list_elem_of_singleton in Hj as ->; split; [done|lia]|by apply elem_of_nil in Hj..].
    + intros i Hi. destruct (decide (i = 0)) as [->|Hne].
      * eapply pk_free; [done|done| |split; [left|intros [|m|j] Hh; [done|by apply not_elem_of_nil..]]].
        rewrite Eslab, decide_True by done. split_and!; [lia|lia|]. intros j Hj. rewrite Eslab, decide_False by lia. done.
      * apply pk_inner; [done|left; rewrite Eslab; by rewrite decide_False|]. intros [|m|j] Hh; [|by apply elem_of_nil in Hh..].
        by apply list_elem_of_singleton in Hh.
  - intros q. unfold live. apply andb_false_iff. right. apply live_free; [done|]. left. rewrite Eslab. case_decide; lia.
Qed.

Lemma slab_init_rep words min_shift p end_ :
  3 <= min_shift <= 11 -> 0 <= p -> p + 3 * (4096 + 24) <= end_ -> end_ < 2 ^ 59 -> slab_rep (ngx_slab_init words min_shift p end_) (ngx_slab_init words min_shift p end_) ∅.
Proof.
  intros H1 H2 H3 H4. destruct (slab_init_ok words min_shift p end_ H1 H2 H3 H4) as [Hok Hl]. split; [by split; [|unfold same_params; split_and!]|split].
  - intros q. rewrite Hl, lookup_empty. split; [done|by intros [? ?]].
  - intros q size. by rewrite lookup_empty.
Qed.

(** Every pool that is reached from a new one. *)
Lemma rep_reached words min_shift p end_ s H :
  3 <= min_shift <= 11 -> 0 <= p -> p + 3 * (4096 + 24) <= end_ -> end_ < 2 ^ 59 ->
  rtc slab_step (ngx_slab_init words min_shift p end_, ∅) (s, H) -> slab_rep (ngx_slab_init words min_shift p end_) s H.
Proof. intros H1 H2 H3 H4. exact (rep_steps _ (_, _) (s, H) (slab_init_rep _ _ _ _ H1 H2 H3 H4)). Qed.

(** ** Any use of a pool *)

(** Where [slab_rep] holds, the blocks do not overlap and are in the pages. *)
Lemma rep_blocks s0 s H a x :
  slab_rep s0 s H -> H !! a = Some x ->
  sp_start s0 <= a /\ a + x <= sp_start s0 + 4096 * sp_npages s0 /\ forall b y, H !! b = Some y -> a <> b -> a + x <= b \/ b + y <= a.
Proof.
  intros [[[L Hinv] (_ & _ & E3 & E4 & _)] [Hl Hs]] Ha. assert (La : live s a = true) by (apply Hl; by eexists).
  pose proof (Hs a x Ha). destruct (live_inside s L a Hinv La) as (H1 & _ & H2). rewrite <- E3, <- E4. split_and!; [done|lia|].
  intros b y Hb Hne. pose proof (Hs b y Hb). destruct (live_disjoint s L a b Hinv La ltac:(apply Hl; by eexists) Hne); lia.
Qed.

(** C11: from a new pool in memory with any contents, after any sequence of allocations, of freeing blocks that were allocated and of stores of the clients to their blocks, the blocks in use are disjoint and lie in the memory of the pool after its descriptors; the next allocation of any size runs without a fault and returns an address that is not in use, or NULL, which it does only when no free run has enough pages; freeing a block in use succeeds. *)
Theorem slab_safe words min_shift p end_ s H :
  3 <= min_shift <= 11 -> 0 <= p -> p + 3 * (4096 + 24) <= end_ -> end_ < 2 ^ 59 ->
  rtc slab_step (ngx_slab_init words min_shift p end_, ∅) (s, H) ->
  (forall a x, H !! a = Some x -> p + (12 - min_shift) * 24 + sp_npages s * 24 <= a /\ a + x <= end_) /\
  (forall a x b y, H !! a = Some x -> H !! b = Some y -> a <> b -> a + x <= b \/ b + y <= a) /\
  (forall size, 0 <= size -> exists r s', ngx_slab_alloc_locked size s = Some (r, s') /\
     match r with Some q => H !! q = None | None => s' = s /\ no_run s size end) /\
  (forall a, is_Some (H !! a) -> exists s', ngx_slab_free_locked a s = Some (Freed, s')).
Proof.
  intros H1 H2 H3 H4 Hrun. pose proof (rep_reached _ _ _ _ _ _ H1 H2 H3 H4 Hrun) as Hr.
  destruct (slab_init_pages words min_shift p end_ H1 H2 H3) as (_ & _ & _ & I4 & I5). pose proof Hr as [[_ (_ & _ & E3 & _)] _]. split_and!.
  - intros a x Ha. destruct (rep_blocks _ _ _ _ _ Hr Ha) as (? & ? & _). rewrite E3. lia.
  - intros a x b y Ha. by apply (rep_blocks _ _ _ _ _ Hr Ha).
  - intros size Hs. destruct (rep_alloc _ _ _ size Hr Hs) as (r & s' & E & Hx). exists r, s'. split; [done|]. destruct r; [|done]. tauto.
  - intros a Ha. destruct (rep_free _ _ _ a Hr Ha) as (s' & E & _). by exists s'.
Qed.

(** C39: in every pool that is reached from a new one, freeing an address outside of the pool, or in one of its pages where it is neither a block in use nor the start of a free run nor in the bitmap of a page, is refused with a message and changes nothing. Nothing is said of the addresses from the end of the last page up to the end of the pool. *)
Theorem slab_free_refused words min_shift p end_ s H a :
  3 <= min_shift <= 11 -> 0 <= p -> p + 3 * (4096 + 24) <= end_ -> end_ < 2 ^ 59 ->
  rtc slab_step (ngx_slab_init words min_shift p end_, ∅) (s, H) -> H !! a = None -> checked_addr s a ->
  exists r, r <> Freed /\ ngx_slab_free_locked a s = Some (r, s).
Proof.
  intros H1 H2 H3 H4 Hrun Ha Hc. pose proof (rep_reached _ _ _ _ _ _ H1 H2 H3 H4 Hrun) as [[[L Hinv] _] [Hl _]].
  eapply free_locked_refused; [done| |done]. destruct (live s a) eqn:E; [|done]. apply Hl in E. rewrite Ha in E. by destruct E.
Qed.

(** ** Samples *)

(** The pool of [slab_sample] with a block of 100 bytes. *)
Definition sample_block : slab_pool := match ngx_slab_alloc_locked 100 slab_sample with Some (_, s) => s | None => slab_sample end.

Lemma sample_block_run : rtc slab_step (slab_sample, ∅) (sample_block, {[4096 := 100]}).
Proof. apply rtc_once. exact (step_alloc 100 slab_sample ∅ (Some 4096) sample_block ltac:(lia) ltac:(vm_compute; reflexivity)). Qed.

Lemma slab_safe_witness :
  exists r s', ngx_slab_alloc_locked 5000 sample_block = Some (r, s') /\ match r with Some q => ({[4096 := 100]} : heap) !! q = None | None => s' = sample_block /\ no_run sample_block 5000 end.
Proof.
  destruct (slab_safe (fun _ => 2 ^ 64 - 1) 3 200 (16 * 4096) sample_block {[4096 := 100]} ltac:(lia) ltac:(lia) ltac:(lia) ltac:(lia) sample_block_run) as (_ & _ & H & _).
  apply H. lia.
Defined.

Lemma slab_free_refused_witness : exists r, r <> Freed /\ ngx_slab_free_locked 4100 sample_block = Some (r, sample_block).
Proof.
  apply (slab_free_refused (fun _ => 2 ^ 64 - 1) 3 200 (16 * 4096) sample_block {[4096 := 100]} 4100 ltac:(lia) ltac:(lia) ltac:(lia) ltac:(lia) sample_block_run).
  - reflexivity.
  - right; right. exists 0, 4. split_and!; [reflexivity| reflexivity| lia|lia|reflexivity|]. vm_compute. discriminate.
Defined.

(** ** What the checks do not catch *)

(** An address at the end of the pool passes the check for the range, and the descriptor after the last is read. *)
Lemma slab_end_accepted : ngx_slab_free_locked (sp_end slab_sample) slab_sample = None.
Proof. vm_compute. reflexivity. Qed.

(** The start of a free run is freed again without a message. *)
Lemma slab_double_free : ('(_, s) ← allocs [8192] slab_sample; '(r, _) ← frees [4096; 4096] s; Some r) = Some [Freed; Freed].
Proof. vm_compute. reflexivity. Qed.

(** The chunk of the bitmap can be freed, and is then handed out. *)
Lemma slab_bitmap_freed :
  ('(_, s) ← allocs [8; 8] slab_sample; '(r, s) ← frees [4096] s; '(l, _) ← allocs [8] s; Some (r, l)) = Some ([Freed], [Some 4096]).
Proof. vm_compute. reflexivity. Qed.

(** Free runs are not joined: when all pages were in use by one and are free again, no two can be had. *)
Lemma slab_fragments :
  ('(l, s) ← allocs (replicate 15 4096) slab_sample; '(_, s) ← frees (omap id l) s; '(l, _) ← allocs [8192; 4096] s; Some l) = Some [None; Some 61440].
Proof. vm_compute. reflexivity. Qed.

(** ** The allocator of a zone *)

(** The pools that come from [s0] and in which the blocks of [K] are in use: what
    a zone allocates once and never frees. *)
Definition zone_ok (s0 : slab_pool) (K : gset Z) (s : slab_pool) : Prop :=
  slab_ok s /\ same_params s0 s /\ forall k, k ∈ K -> live s k = true.
Definition pool_state (s0 : slab_pool) (K : gset Z) : Type := { s : slab_pool | zone_ok s0 K s }.

Lemma zone_alloc s0 K size s :
  zone_ok s0 K s -> exists r s', ngx_slab_alloc_locked (u64 size) s = Some (r, s') /\ allocated s (u64 size) r s' /\ zone_ok s0 K s'.
Proof.
  intros ([L Hinv] & Hp & Hk). destruct (alloc_locked_ok s L (u64 size) Hinv (proj1 (u64_range size))) as (r & s' & E & Ha). exists r, s'. split_and!; [done..|].
  destruct Ha as (H1 & H2 & H3). split_and!; [done|by eapply same_params_trans|]. intros k Hx%Hk. destruct r; [|by destruct H3 as [-> _]].
  by rewrite (gn_now _ _ _ _ H3), Hx.
Qed.

Lemma zone_free s0 K p s :
  zone_ok s0 K s -> live s p = true -> p ∉ K -> exists s', ngx_slab_free_locked p s = Some (Freed, s') /\ loses s s' p /\ zone_ok s0 K s'.
Proof.
  intros ([L Hinv] & Hp & Hk) Hl Hn. destruct (free_locked_ok s L p Hinv Hl) as (s' & E & Hf). exists s'. split_and!; [done..|].
  split_and!; [apply Hf|eapply same_params_trans; [done|apply Hf]|]. intros k Hx. rewrite (ls_now _ _ _ Hf), Hk by done. cbn [andb].
  apply negb_true_iff, Z.eqb_neq. congruence.
Qed.

Lemma alloc_state s0 K size (x : pool_state s0 K) :
  { y : option Z * pool_state s0 K | ngx_slab_alloc_locked (u64 size) (`x) = Some (y.1, `y.2) }.
Proof.
  destruct x as [s Hs]. cbn [proj1_sig]. destruct (ngx_slab_alloc_locked (u64 size) s) as [[r s']|] eqn:E.
  - assert (Hs' : zone_ok s0 K s') by (destruct (zone_alloc s0 K size s Hs) as (? & ? & ? & _ & ?); congruence). by exists (r, exist _ s' Hs').
  - exfalso. destruct (zone_alloc s0 K size s Hs) as (? & ? & ? & _). congruence.
Defined.

Lemma free_state s0 K p (x : pool_state s0 K) :
  { y : pool_state s0 K | live (`x) p = true -> p ∉ K -> ngx_slab_free_locked p (`x) = Some (Freed, `y) }.
Proof.
  destruct (live (`x) p) eqn:El; [|by exists x]. destruct (decide (p ∈ K)) as [|Hn]; [by exists x|]. destruct x as [s Hs]. cbn [proj1_sig] in *.
  destruct (ngx_slab_free_locked p s) as [[r s']|] eqn:E.
  - assert (Hs' : r = Freed /\ zone_ok s0 K s') by (destruct (zone_free s0 K p s Hs El Hn) as (? & ? & _ & ?); split; congruence).
    exists (exist _ s' (proj2 Hs')). cbn. by destruct Hs' as [-> _].
  - exfalso. destruct (zone_free s0 K p s Hs El Hn) as (? & ? & _). congruence.
Defined.

(** The addresses of the pages that are not those of [K]. *)
Definition slab_area (s : slab_pool) (K : gset Z) : gset Z := list_to_set (seqZ (sp_start s) (4096 * sp_npages s)) ∖ K.

Lemma slab_area_spec s K p : p ∈ slab_area s K <-> sp_start s <= p < sp_start s + 4096 * sp_npages s /\ p ∉ K.
Proof. unfold slab_area. by rewrite elem_of_difference, elem_of_list_to_set, elem_of_seqZ. Qed.

(** [ngx_slab_alloc_locked] and [ngx_slab_free_locked] as the operations of a zone. *)
Definition slab_zone (s0 : slab_pool) (K : gset Z) : SlabPool (pool_state s0 K) := {|
  slab_alloc := fun size x => proj1_sig (alloc_state s0 K size x);
  slab_free := fun p x => proj1_sig (free_state s0 K p x);
  slab_used := fun x => filter (fun p => live (`x) p = true) (slab_area s0 K)
|}.

Section Zone.
Context (s0 : slab_pool) (K : gset Z).
#[local] Existing Instance slab_zone.

Lemma slab_used_spec (x : pool_state s0 K) p : p ∈ slab_used x <-> live (`x) p = true /\ p ∉ K.
Proof.
  cbn. rewrite elem_of_filter, slab_area_spec. split; [tauto|]. intros [H Hn]. split; [done|]. split; [|done].
  destruct (proj1 (proj2 (proj2_sig x))) as (_ & _ & <- & <- & _). unfold live in H.
  apply andb_true_iff in H as [[?%Z.leb_le ?%Z.ltb_lt]%andb_true_iff _]; done.
Qed.

Lemma slab_alloc_allocated size (x : pool_state s0 K) r y : slab_alloc size x = (r, y) -> allocated (`x) (u64 size) r (`y).
Proof.
  intros Ea. cbn in Ea. destruct (alloc_state s0 K size x) as [[r1 y1] E]. cbn in *. injection Ea as -> ->.
  destruct (zone_alloc s0 K size (`x) (proj2_sig x)) as (r2 & s2 & E2 & H & _). congruence.
Qed.

(** The allocator is what the zones of the limits ask for. *)
#[export] Instance slab_zone_laws : @SlabLaws (pool_state s0 K) (slab_zone s0 K) (slab_area s0 K).
Proof using All.
  split.
  - intros size x p y (_ & _ & [G1 G2 G3 _ _])%slab_alloc_allocated.
    assert (Hk : p ∉ K) by (intros Hk; apply (proj2_sig x) in Hk; congruence). split_and!.
    + apply slab_area_spec. split; [|done]. destruct (proj1 (proj2 (proj2_sig x))) as (_ & _ & <- & <- & _). exact G1.
    + rewrite slab_used_spec. intros [? _]. congruence.
    + apply set_eq. intros q. rewrite elem_of_union, elem_of_singleton, !slab_used_spec, G3, orb_true_iff, Z.eqb_eq. naive_solver.
  - intros size x y (_ & _ & E & _)%slab_alloc_allocated. apply set_eq. intros q. by rewrite !slab_used_spec, E.
  - intros p x [Hl Hn]%slab_used_spec. apply set_eq. intros q. rewrite elem_of_difference, elem_of_singleton, !slab_used_spec. cbn.
    destruct (free_state s0 K p x) as [y E]. cbn. specialize (E Hl Hn). destruct (zone_free s0 K p (`x) (proj2_sig x) Hl Hn) as (s1 & E1 & [_ _ F3 _] & _).
    assert (s1 = `y) as -> by congruence. rewrite F3, andb_true_iff, negb_true_iff, Z.eqb_neq. tauto.
Qed.
End Zone.
