(* ===== verification/HttpLocations.v ===== *)
(** * Locations

    The choice of the location of a request.  src/nginx-1.4.7/src/http/ngx_http.c
    sorts the locations of a server, nests those whose name extends that of
    another, and makes binary trees of them; ngx_http_core_module.c walks down
    these trees with the path of a request.

    The queues of locations are lists here: [NgxQueue] shows that the links in
    memory implement these, with the same sorting.  A pointer to the configuration
    of a location is the configuration itself. *)
From S2P Require Import Prelude NgxStrings NgxQueue.

#[local] Set Warnings "-register-all".

(** [http/ngx_http_core_module.h:312-326] ngx_http_core_loc_conf_s *)
Record loc_info : Type := {
  l_name : list Z; l_regex : option Z; l_noname : bool; l_named : bool; l_exact_match : bool; l_noregex : bool;
  l_auto_redirect : bool; l_id : Z
}.

(** A location with those nested in it, as configured. *)
Inductive loc_conf : Type := LocConf (info : loc_info) (locations : list loc_conf).

(** An element of the queue of locations, with the queue nested in it.
    [http/ngx_http_core_module.h:451-459] ngx_http_location_queue_t *)
Inductive lq (A : Type) : Type := LQ (exact inclusive : option A) (name : list Z) (lst : list (lq A)).
Arguments LQ {A}.

(** [http/ngx_http_core_module.h:462-473] ngx_http_location_tree_node_s *)
Inductive ltree (A : Type) : Type :=
| LNull
| LNode (lft rgt tree : ltree A) (exact inclusive : option A) (auto_redirect : bool) (len : Z) (name : list Z).
Arguments LNull {A}.
Arguments LNode {A}.

(** A location when the configuration has been read: its tree of static
    locations and its list of regular expressions.
    [http/ngx_http_core_module.h:334-337] ngx_http_core_loc_conf_s *)
Inductive location : Type := Location (info : loc_info) (static_locations : ltree location) (regex_locations : list location).

Definition loc_info_of (c : location) : loc_info := match c with Location info _ _ => info end.
Definition static_of (c : location) : ltree location := match c with Location _ t _ => t end.
Definition regexes_of (c : location) : list location := match c with Location _ _ r => r end.

Definition q_exact {A} (q : lq A) : option A := match q with LQ e _ _ _ => e end.
Definition q_inclusive {A} (q : lq A) : option A := match q with LQ _ i _ _ => i end.
Definition q_name {A} (q : lq A) : list Z := match q with LQ _ _ n _ => n end.
Definition q_list {A} (q : lq A) : list (lq A) := match q with LQ _ _ _ l => l end.

(** [strcmp] of the C library on strings without their final NUL. *)
Fixpoint strcmp (s1 s2 : list Z) : Z :=
  match s1 with
  | [] => - byte s2
  | a :: s1 => if a =? byte s2 then strcmp s1 (tl s2) else a - byte s2
  end.

(** ** Reading the configuration *)

(** [http/ngx_http.c:844-888] ngx_http_add_location *)
Definition ngx_http_add_location (c : location) : lq location :=
  let i := loc_info_of c in
  if l_exact_match i || bool_decide (is_Some (l_regex i)) || l_named i || l_noname i
  then LQ (Some c) None (l_name i) []
  else LQ None (Some c) (l_name i) [].

(** The configuration of an element; one of the two pointers is not NULL.
    [http/ngx_http.c:901-902] first *)
Definition q_conf (q : lq location) : loc_info :=
  match q_exact q, q_inclusive q with
  | Some c, _ => loc_info_of c
  | None, Some c => loc_info_of c
  | None, None => {| l_name := []; l_regex := None; l_noname := false; l_named := false; l_exact_match := false;
                     l_noregex := false; l_auto_redirect := false; l_id := 0 |}
  end.

(** [http/ngx_http.c:891-960] ngx_http_cmp_locations *)
Definition ngx_http_cmp_locations (one two : lq location) : Z :=
  let first := q_conf one in
  let second := q_conf two in
  let regex (i : loc_info) := bool_decide (is_Some (l_regex i)) in
  if l_noname first && negb (l_noname second) then 1
  else if negb (l_noname first) && l_noname second then -1
  else if l_noname first || l_noname second then 0
  else if l_named first && negb (l_named second) then 1
  else if negb (l_named first) && l_named second then -1
  else if l_named first && l_named second then strcmp (l_name first) (l_name second)
  else if regex first && negb (regex second) then 1
  else if negb (regex first) && regex second then -1
  else if regex first || regex second then 0
  else
    let rc := strcmp (l_name first) (l_name second) in
    if (rc =? 0) && negb (l_exact_match first) && l_exact_match second then 1 else rc.

(** The elements before the first that has no name.
    [http/ngx_http.c:698-737] for *)
Fixpoint init_scan (l : list (lq location)) : list (lq location) :=
  match l with
  | [] => []
  | q :: l =>
      if bool_decide (is_Some (l_regex (q_conf q))) then q :: init_scan l
      else if l_named (q_conf q) then q :: init_scan l
      else if l_noname (q_conf q) then []
      else q :: init_scan l
  end.

(** The queue split before the first element of a kind.
    [http/ngx_http.c:743-764] ngx_queue_split(locations, named, &tail) *)
Fixpoint split_at (kind : loc_info -> bool) (l : list (lq location)) : list (lq location) * list (lq location) :=
  match l with
  | [] => ([], [])
  | q :: l' => if kind (q_conf q) then ([], l) else let (a, b) := split_at kind l' in (q :: a, b)
  end.

(** The static locations, those with a regular expression, and the named ones.
    [http/ngx_http.c:669-795] ngx_http_init_locations *)
Definition ngx_http_init_locations (l : list (lq location)) : list (lq location) * list location * list location :=
  let l := queue_sort ngx_http_cmp_locations l in
  let l := init_scan l in
  let (l, named) := split_at l_named l in
  let (l, regex) := split_at (fun i => bool_decide (is_Some (l_regex i))) l in
  (l, omap q_exact regex, omap q_exact named).

(** [q] is the element that is compared with the next ones; [None] is NGX_ERROR.
    [http/ngx_http.c:971-996] while *)
Fixpoint join_loop {A} (q : lq A) (l : list (lq A)) : option (list (lq A)) :=
  match l with
  | [] => Some [q]
  | x :: l =>
      if strcmp (q_name q) (q_name x) =? 0 then
        if bool_decide (is_Some (q_exact q)) && bool_decide (is_Some (q_exact x))
           || bool_decide (is_Some (q_inclusive q)) && bool_decide (is_Some (q_inclusive x))
        then None
        else join_loop (LQ (q_exact q) (q_inclusive x) (q_name q) (q_list q)) l
      else l ← join_loop x l; Some (q :: l)
  end.

(** [http/ngx_http.c:963-999] ngx_http_join_exact_locations *)
Definition ngx_http_join_exact_locations {A} (l : list (lq A)) : option (list (lq A)) :=
  match l with [] => Some [] | q :: l => join_loop q l end.

(** The elements from the head whose name starts with [name], and the rest.
    [http/ngx_http.c:1024-1035] for *)
Fixpoint inside {A} (name : list Z) (l : list (lq A)) : list (lq A) * list (lq A) :=
  match l with
  | [] => ([], [])
  | x :: l' =>
      if (length (q_name x) <? length name)%nat || negb (strncmp name (q_name x) (length name) =? 0) then ([], l)
      else let (a, b) := inside name l' in (x :: a, b)
  end.

(** [http/ngx_http.c:1002-1058] ngx_http_create_locations_list *)
Fixpoint ngx_http_create_locations_list {A} (fuel : nat) (l : list (lq A)) : option (list (lq A)) :=
  match fuel with
  | O => None
  | S fuel =>
      match l with
      | [] | [_] => Some l
      | q :: l =>
          match q_inclusive q with
          | None => l ← ngx_http_create_locations_list fuel l; Some (q :: l)
          | Some _ =>
              match inside (q_name q) l with
              | ([], x) => x ← ngx_http_create_locations_list fuel x; Some (q :: x)
              | (lst, x) =>
                  lst ← ngx_http_create_locations_list fuel (q_list q ++ lst);
                  x ← ngx_http_create_locations_list fuel x;
                  Some (LQ (q_exact q) (q_inclusive q) (q_name q) lst :: x)
              end
          end
      end
  end.

(** [http/ngx_http.c:1092-1093] node->auto_redirect *)
Definition q_redirect (q : lq location) : bool :=
  match q_exact q with Some c => l_auto_redirect (loc_info_of c) | None => false end ||
  match q_inclusive q with Some c => l_auto_redirect (loc_info_of c) | None => false end.

(** The trees under [LNull], for an empty queue, are not made.
    [http/ngx_http.c:1066-1136] ngx_http_create_locations_tree *)
Fixpoint ngx_http_create_locations_tree (fuel : nat) (l : list (lq location)) (prefix : nat) : option (ltree location) :=
  match fuel with
  | O => None
  | S fuel =>
      match l with
      | [] => Some LNull
      | _ =>
          let m := (length l / 2)%nat in
          q ← l !! m;
          let len := (length (q_name q) - prefix)%nat in
          lft ← ngx_http_create_locations_tree fuel (take m l) prefix;
          rgt ← ngx_http_create_locations_tree fuel (drop (S m) l) prefix;
          tree ← ngx_http_create_locations_tree fuel (q_list q) (prefix + len);
          Some (LNode lft rgt tree (q_exact q) (q_inclusive q) (q_redirect q) (u8 (Z.of_nat len)) (drop prefix (q_name q)))
      end
  end.

(** How many locations there are, with the nested ones. *)
Fixpoint q_size {A} (q : lq A) : nat := match q with LQ _ _ _ l => S (foldr (fun q n => q_size q + n)%nat O l) end.
Definition list_size {A} (l : list (lq A)) : nat := foldr (fun q n => q_size q + n)%nat O l.

(** [http/ngx_http.c:829-840] ngx_http_join_exact_locations *)
Definition ngx_http_static_tree (l : list (lq location)) : option (ltree location) :=
  match l with
  | [] => Some LNull
  | _ =>
      l ← ngx_http_join_exact_locations l;
      l ← ngx_http_create_locations_list (S (length l)) l;
      ngx_http_create_locations_tree (S (list_size l)) l 0
  end.

Definition is_static (c : loc_conf) : bool :=
  match c with LocConf i _ => negb (bool_decide (is_Some (l_regex i)) || l_named i || l_noname i) end.

(** Both passes over the locations: the lists of regular expressions are made
    for all of them, the trees only below static locations.
    [http/ngx_http.c:798-841] ngx_http_init_static_location_trees *)
Fixpoint init_location (static : bool) (c : loc_conf) : option location :=
  match c with
  | LocConf info subs =>
      subs ← (fix go (l : list loc_conf) : option (list location) :=
        match l with
        | [] => Some []
        | x :: l => x' ← init_location (static && is_static x) x; l ← go l; Some (x' :: l)
        end) subs;
      let '(l, regex, _) := ngx_http_init_locations (map ngx_http_add_location subs) in
      tree ← (if static then ngx_http_static_tree l else Some LNull);
      Some (Location info tree regex)
  end.

(** ** The location of a request *)

(** The code and the new [r->loc_conf], if any; [None] is the use of a NULL
    pointer.
    [http/ngx_http_core_module.c:1618-1694] ngx_http_core_find_static_location *)
Fixpoint ngx_http_core_find_static_location {A} (uri : list Z) (rv : Z * option A) (t : ltree A) : option (Z * option A) :=
  match t with
  | LNull => Some rv
  | LNode lft rgt tree exact inclusive auto_redirect nlen name =>
      let len := Z.of_nat (length uri) in
      let n := if len <=? nlen then len else nlen in
      let rc := memcmp uri name (Z.to_nat n) in
      if negb (rc =? 0) then ngx_http_core_find_static_location uri rv (if rc <? 0 then lft else rgt)
      else if nlen <? len then
        match inclusive with
        | Some c => ngx_http_core_find_static_location (drop (Z.to_nat n) uri) (NGX_AGAIN, Some c) tree
        | None => ngx_http_core_find_static_location uri rv rgt
        end
      else if len =? nlen then
        match exact, inclusive with
        | Some c, _ => Some (NGX_OK, Some c)
        | None, Some c => Some (NGX_AGAIN, Some c)
        | None, None => None
        end
      else if (len + 1 =? nlen) && auto_redirect then
        match exact, inclusive with
        | Some c, _ => ngx_http_core_find_static_location uri (NGX_DONE, Some c) lft
        | None, Some c => ngx_http_core_find_static_location uri (NGX_DONE, Some c) lft
        | None, None => None
        end
      else ngx_http_core_find_static_location uri rv lft
  end.

Section Find.
Context (regex_exec : Z -> list Z -> Z).

(** The test of the regular expression of a location.
    [http/ngx_http_core_module.c:1586-1586] ngx_http_regex_exec *)
Definition test_regex (c : location) (uri : list Z) : Z :=
  match l_regex (loc_info_of c) with Some re => regex_exec re uri | None => NGX_ERROR end.

(** [find] is the search in a location that was found; the location [lc] stays
    when nothing matches.
    [http/ngx_http_core_module.c:1581-1603] for *)
Fixpoint regex_loop (find : location -> option (Z * location)) (uri : list Z) (rc : Z) (lc : location) (l : list location)
    : option (Z * location) :=
  match l with
  | [] => Some (rc, lc)
  | c :: l =>
      let n := test_regex c uri in
      if n =? NGX_OK then
        '(rc, lc) ← find c;
        Some (if rc =? NGX_ERROR then rc else NGX_OK, lc)
      else if n =? NGX_DECLINED then regex_loop find uri rc lc l
      else Some (NGX_ERROR, lc)
  end.

(** The fuel is the depth of nested locations.
    [http/ngx_http_core_module.c:1541-1608] ngx_http_core_find_location *)
Fixpoint ngx_http_core_find_location (fuel : nat) (c : location) (uri : list Z) : option (Z * location) :=
  match fuel with
  | O => None
  | S fuel =>
      '(rc, found) ← ngx_http_core_find_static_location uri (NGX_DECLINED, None) (static_of c);
      let lc := default c found in
      '(rc, lc, noregex) ←
        (if rc =? NGX_AGAIN then
           '(rc, lc') ← ngx_http_core_find_location fuel lc uri;
           Some (rc, lc', l_noregex (loc_info_of lc))
         else Some (rc, lc, false));
      if (rc =? NGX_OK) || (rc =? NGX_DONE) then Some (rc, lc)
      else if negb noregex then regex_loop (fun c => ngx_http_core_find_location fuel c uri) uri rc lc (regexes_of c)
      else Some (rc, lc)
  end.
End Find.
