(* ===== verification/HttpLocationTrees.v ===== *)
(** * Trees of locations

    The nested lists and the trees that [HttpLocations] makes of the sorted
    locations, and what a walk down a tree finds: the location with the name of
    the path, or the one with the longest name that the path starts with. *)
From stdpp Require Import sorting.
From S2P Require Import Prelude NgxStrings NgxQueue HttpLocations.

#[local] Set Warnings "-register-all".

(** ** Names in their order *)

Lemma lex_refl s : lex s s = Eq.
Proof. by apply lex_eq. Qed.

Lemma lex_app (p s1 s2 : list Z) : lex (p ++ s1) (p ++ s2) = lex s1 s2.
Proof. induction p as [|a p IH]; [done|]. cbn. by rewrite Z.compare_refl. Qed.

Lemma lex_lt_gt s1 s2 : lex s1 s2 = Lt <-> lex s2 s1 = Gt.
Proof. rewrite (lex_antisym s1 s2). by destruct (lex s1 s2). Qed.

Lemma lex_lt_le_trans s1 s2 s3 : lex s1 s2 = Lt -> lex s2 s3 <> Gt -> lex s1 s3 = Lt.
Proof.
  intros H1 H2. destruct (lex s1 s3) eqn:E; [|done|].
  - apply lex_eq in E. subst s3. apply lex_lt_gt in H1. done.
  - exfalso. apply lex_lt_gt in E. assert (H3 : lex s3 s2 <> Gt) by (apply (lex_trans s3 s1 s2); congruence).
    rewrite (lex_antisym s2 s3) in H3. destruct (lex s2 s3) eqn:E'; try done.
    apply lex_eq in E'. subst s3. apply lex_lt_gt in E. congruence.
Qed.

Lemma lex_le_lt_trans s1 s2 s3 : lex s1 s2 <> Gt -> lex s2 s3 = Lt -> lex s1 s3 = Lt.
Proof.
  intros H1 H2. destruct (lex s1 s2) eqn:E; [|by eapply lex_lt_le_trans; [exact E|rewrite H2]|done].
  apply lex_eq in E. by subst.
Qed.

Lemma prefix_le (p s : list Z) : p `prefix_of` s -> lex p s <> Gt.
Proof.
  intros [t ->]. rewrite <- (app_nil_r p) at 1. rewrite lex_app. by destruct t.
Qed.

(** What lies between a prefix of a string and the string has the prefix. *)
Lemma prefix_between (p y u : list Z) : p `prefix_of` u -> lex p y <> Gt -> lex y u <> Gt -> p `prefix_of` y.
Proof.
  intros [t ->]. revert y; induction p as [|a p IH]; intros y H1 H2; [apply prefix_nil|].
  destruct y as [|b y]; [done|]. cbn in H1, H2. destruct (Z.compare_spec a b) as [->|H|H]; [|exfalso..].
  - rewrite Z.compare_refl in H2. apply prefix_cons. by apply IH.
  - rewrite (proj2 (Z.compare_gt_iff b a)) in H2 by lia. done.
  - done.
Qed.

Lemma prefix_eq (p s : list Z) : p `prefix_of` s -> (length s <= length p)%nat -> p = s.
Proof. intros [t ->] H. rewrite length_app in H. destruct t; [by rewrite app_nil_r|cbn in H; lia]. Qed.

Lemma strict_prefix_lt (p s : list Z) : p `prefix_of` s -> p <> s -> lex p s = Lt.
Proof. intros H Hne. pose proof (prefix_le p s H). destruct (lex p s) eqn:E; try done. by apply lex_eq in E. Qed.

(** What [memcmp] tells of a name [s] and the rest [u] of a path. *)
Lemma node_compare (u s : list Z) :
  let n := Nat.min (length u) (length s) in
  let rc := memcmp u s n in
  (rc < 0 -> lex u s = Lt /\ ~ u `prefix_of` s) /\ (0 < rc -> lex s u = Lt /\ ~ s `prefix_of` u) /\
  (rc = 0 -> (length u < length s)%nat -> u `prefix_of` s) /\ (rc = 0 -> (length s <= length u)%nat -> s `prefix_of` u).
Proof.
  cbv zeta. set (n := Nat.min _ _). assert (Hm := memcmp_lex u s n ltac:(lia) ltac:(lia)).
  assert (Hl := lex_take u s n eq_refl). set (rc := memcmp u s n) in *.
  assert (H0 : rc = 0 -> take n u = take n s) by (intros E; rewrite E in Hm; symmetry in Hm; by apply lex_eq in Hm).
  assert (Hp : forall p q : list Z, p `prefix_of` q -> Nat.min (length p) (length q) = n -> take n p = take n q).
  { intros p q [t ->] E. rewrite length_app in E. assert (n = length p) as -> by lia.
    by rewrite take_app_length, take_ge by lia. }
  assert (Hn : rc <> 0 -> take n u <> take n s).
  { intros Hne E. rewrite E, lex_refl in Hm. by apply Z.compare_eq_iff in Hm. }
  split_and!.
  - intros H. rewrite (proj2 (Z.compare_lt_iff rc 0)) in Hm by done. rewrite <- Hm in Hl. split; [done|].
    intros Hu. apply Hn; [lia|]. by apply Hp.
  - intros H. rewrite (proj2 (Z.compare_gt_iff rc 0)) in Hm by lia. rewrite <- Hm in Hl. split; [by apply lex_lt_gt|].
    intros Hu. apply Hn; [lia|]. symmetry. apply Hp; [done|lia].
  - intros E Hlt. specialize (H0 E). rewrite take_ge in H0 by lia. rewrite H0. apply prefix_take.
  - intros E Hlt. specialize (H0 E). rewrite (take_ge s) in H0 by lia. rewrite <- H0. apply prefix_take.
Qed.

(** ** Nested lists *)

Section Forest.
Context {A : Type}.
Implicit Types (q x : lq A) (l : list (lq A)) (u : list Z).

(** An element without those nested in it. *)
Definition leaf q : lq A := LQ (q_exact q) (q_inclusive q) (q_name q) [].

(** The elements of a nested list, in their order. *)
Fixpoint flat_q q : list (lq A) :=
  match q with LQ e i n l => LQ e i n [] :: List.flat_map flat_q l end.
Definition flat l : list (lq A) := List.flat_map flat_q l.

Definition is_inclusive q : Prop := is_Some (q_inclusive q).

(** The names of all elements of a list are longer than that of an element
    before, which is their prefix, only where they are nested in it. *)
Inductive forest : list (lq A) -> Prop :=
| forest_nil : forest []
| forest_cons q l :
    forest (q_list q) -> forest l -> (q_list q <> [] -> is_inclusive q) ->
    Forall (fun x => q_name q `prefix_of` q_name x) (flat (q_list q)) ->
    (is_inclusive q -> Forall (fun x => ~ q_name q `prefix_of` q_name x) (flat l)) ->
    forest (q :: l).

Definition before q x : Prop := lex (q_name q) (q_name x) = Lt.

Lemma flat_q_eq q : flat_q q = leaf q :: flat (q_list q).
Proof. by destruct q. Qed.

Lemma flat_app l1 l2 : flat (l1 ++ l2) = flat l1 ++ flat l2.
Proof. apply flat_map_app. Qed.

Lemma flat_cons q l : flat (q :: l) = leaf q :: flat (q_list q) ++ flat l.
Proof. unfold flat at 1. cbn [List.flat_map]. by rewrite flat_q_eq. Qed.

Lemma flat_leaves l : Forall (fun q => q_list q = []) l -> flat l = l.
Proof.
  induction l as [|[e i n s] l IH]; [done|]. intros [H Hl]%Forall_cons. cbn in H. subst s.
  rewrite flat_cons. cbn. by rewrite IH.
Qed.

Lemma strncmp_prefix_of (p s : list Z) :
  Forall (fun c => 0 < c) p -> (length p <= length s)%nat -> strncmp p s (length p) = 0 <-> p `prefix_of` s.
Proof.
  revert s; induction p as [|a p IH]; intros s Hp Hl; cbn; [split; [intros; apply prefix_nil|done]|].
  destruct s as [|b s]; [cbn in Hl; lia|]. apply Forall_cons in Hp as [Ha Hp]. cbn in *.
  destruct (Z.eqb_spec a b) as [->|Hne].
  - destruct (Z.eqb_spec b 0); [lia|]. rewrite IH by (done || lia). split; [apply prefix_cons|apply prefix_cons_inv_2].
  - split; [lia|]. intros H. by apply prefix_cons_inv_1 in H.
Qed.

Lemma inside_ok u l :
  Forall (fun c => 0 < c) u -> exists a b, inside u l = (a, b) /\ l = a ++ b /\
    Forall (fun x => u `prefix_of` q_name x) a /\ (forall x b', b = x :: b' -> ~ u `prefix_of` q_name x).
Proof.
  intros Hu. induction l as [|x l (a & b & E & -> & Ha & Hb)]; cbn [inside]; [by exists [], []|].
  destruct ((length (q_name x) <? length u)%nat || _) eqn:Et; rewrite ?E.
  - exists [], (x :: a ++ b). split_and!; [done..|]. intros y b' [= <- <-] Hp. pose proof (prefix_length _ _ Hp).
    rewrite (proj2 (Nat.ltb_ge _ _)) in Et by done. cbn [orb] in Et. apply negb_true_iff in Et.
    apply (strncmp_prefix_of u (q_name x)) in Hp; [|done..]. by rewrite Hp in Et.
  - apply orb_false_iff in Et as [E1%Nat.ltb_ge E2%negb_false_iff%Z.eqb_eq]. exists (x :: a), b. split_and!; [done..| |done].
    constructor; [|done]. by apply strncmp_prefix_of.
Qed.

(** Once a name in order does not start with [u], no later one does. *)
Lemma prefix_run u x l :
  lex u (q_name x) <> Gt -> ~ u `prefix_of` q_name x -> Forall (before x) l -> Forall (fun y => ~ u `prefix_of` q_name y) l.
Proof.
  intros Hle Hx Hl. eapply Forall_impl; [exact Hl|]. intros y Hy Hp. apply Hx.
  apply (prefix_between u (q_name x) (q_name y)); [done..|]. by rewrite Hy.
Qed.

Lemma create_list_ok fuel l :
  (length l < fuel)%nat -> StronglySorted before l -> Forall (fun q => q_list q = []) l ->
  Forall (fun q => Forall (fun c => 0 < c) (q_name q)) l ->
  exists l', ngx_http_create_locations_list fuel l = Some l' /\ flat l' = l /\ forest l'.
Proof.
  revert l; induction fuel as [|fuel IH]; intros l Hf Hs Hq Hn; [lia|]. cbn [ngx_http_create_locations_list].
  destruct l as [|q [|x l]].
  - exists []. split_and!; [done..|constructor].
  - exists [q]. apply Forall_cons in Hq as [Hq _]. split_and!; [done|by apply flat_leaves; constructor|].
    constructor; rewrite ?Hq; try done; constructor.
  - apply StronglySorted_inv in Hs as [Hs Hb]. apply Forall_cons in Hq as [Hq1 Hq]. apply Forall_cons in Hn as [Hn1 Hn].
    assert (El : leaf q = q) by (destruct q; cbn in Hq1; by subst).
    destruct (q_inclusive q) as [c|] eqn:Ei.
    + destruct (inside_ok (q_name q) (x :: l) Hn1) as (a & b & -> & E & Ha & Hp). rewrite E in *. clear E x l.
      apply StronglySorted_app in Hs as (_ & Hsa & Hsb).
      apply Forall_app in Hb as [_ Hb], Hq as [Hqa Hqb], Hn as [Hna Hnb]. rewrite length_cons, length_app in Hf.
      assert (Hpb : Forall (fun y => ~ q_name q `prefix_of` q_name y) b).
      { destruct b as [|y b]; [done|]. apply Forall_cons in Hb as [Hy _]. apply StronglySorted_inv in Hsb as [_ Hyb].
        pose proof (Hp y b eq_refl) as Hpy. constructor; [done|]. apply (prefix_run _ y); [by rewrite Hy|done..]. }
      destruct (IH b ltac:(lia) Hsb Hqb Hnb) as (b' & Eb & Fb & Wb).
      destruct a as [|x a].
      * rewrite Eb. exists (q :: b'). split_and!; [done|by rewrite flat_cons, Hq1, El, Fb|].
        constructor; rewrite ?Hq1, ?Fb; try done; constructor.
      * rewrite Hq1. cbn [app]. destruct (IH (x :: a) ltac:(cbn in *; lia) Hsa Hqa Hna) as (a' & -> & Fa & Wa).
        cbn [mbind option_bind]. rewrite Eb. eexists. split_and!; [reflexivity|..].
        -- rewrite flat_cons. unfold leaf. cbn [q_exact q_inclusive q_name q_list]. rewrite Fa, Fb.
           unfold leaf in El. rewrite Ei in El. by rewrite El.
        -- constructor; cbn [q_exact q_inclusive q_name q_list]; rewrite ?Fa, ?Fb; try done. intros _. by exists c.
    + destruct (IH (x :: l) ltac:(cbn in *; lia) Hs Hq Hn) as (l' & -> & Fl & Wl). exists (q :: l').
      split_and!; [done|by rewrite flat_cons, Hq1, El, Fl|].
      constructor; rewrite ?Hq1; try done; [constructor|..]. intros [c Hc]. congruence.
Qed.

Record forest_at l1 q l2 : Prop := {
  fa_left : forest l1; fa_nested : forest (q_list q); fa_right : forest l2;
  fa_inclusive : q_list q <> [] -> is_inclusive q;
  fa_under : Forall (fun x => q_name q `prefix_of` q_name x) (flat (q_list q));
  fa_after : is_inclusive q -> Forall (fun x => ~ q_name q `prefix_of` q_name x) (flat l2);
  fa_before : Forall (fun x => is_inclusive x -> ~ q_name x `prefix_of` q_name q) (flat l1)
}.

Lemma forest_middle l1 q l2 : forest (l1 ++ q :: l2) -> forest_at l1 q l2.
Proof.
  induction l1 as [|y l1 IH]; cbn [app].
  - inversion 1; subst. split; try done; constructor.
  - inversion 1 as [|y' l' Hs Hl Hi Hu Ha]; subst. destruct (IH Hl) as [H1 H2 H3 H4 H5 H6 H7]. split; try done.
    + constructor; try done. intros Hy. specialize (Ha Hy). rewrite flat_app in Ha. by apply Forall_app in Ha as [? _].
    + assert (Hq : is_inclusive y -> ~ q_name y `prefix_of` q_name q).
      { intros Hy. specialize (Ha Hy). rewrite flat_app, flat_cons in Ha. by apply Forall_app in Ha as [_ [Ha _]%Forall_cons]. }
      rewrite flat_cons. constructor; [done|]. apply Forall_app; split; [|done].
      apply Forall_forall. intros x Hx _ Hp. apply Hq.
      * apply Hi. intros E. rewrite E in Hx. by apply elem_of_nil in Hx.
      * rewrite Forall_forall in Hu. etrans; [by apply Hu|done].
Qed.
End Forest.

(** ** Trees *)

(** [t] is a search tree of a list whose names share [prefix] bytes. *)
Inductive tree_of : nat -> ltree location -> list (lq location) -> Prop :=
| tree_of_null prefix : tree_of prefix LNull []
| tree_of_node prefix lft rgt tree l1 q l2 :
    tree_of prefix lft l1 -> tree_of prefix rgt l2 -> tree_of (length (q_name q)) tree (q_list q) ->
    tree_of prefix (LNode lft rgt tree (q_exact q) (q_inclusive q) (q_redirect q) (Z.of_nat (length (q_name q) - prefix))
                      (drop prefix (q_name q))) (l1 ++ q :: l2).

Lemma list_size_app {A} (l1 l2 : list (lq A)) : list_size (l1 ++ l2) = (list_size l1 + list_size l2)%nat.
Proof. unfold list_size. induction l1 as [|x l1 IH]; [done|]. cbn. rewrite IH. lia. Qed.

Lemma list_size_cons {A} (q : lq A) l : list_size (q :: l) = S (list_size (q_list q) + list_size l).
Proof. by destruct q. Qed.

Lemma create_tree_eq fuel l1 q l2 prefix :
  length l1 = (length (l1 ++ q :: l2) / 2)%nat ->
  ngx_http_create_locations_tree (S fuel) (l1 ++ q :: l2) prefix =
  (lft ← ngx_http_create_locations_tree fuel l1 prefix;
   rgt ← ngx_http_create_locations_tree fuel l2 prefix;
   tree ← ngx_http_create_locations_tree fuel (q_list q) (prefix + (length (q_name q) - prefix));
   Some (LNode lft rgt tree (q_exact q) (q_inclusive q) (q_redirect q) (u8 (Z.of_nat (length (q_name q) - prefix)))
     (drop prefix (q_name q)))).
Proof.
  intros E. cbn [ngx_http_create_locations_tree]. rewrite <- E.
  rewrite (list_lookup_middle l1 l2 q _ eq_refl), take_app_length.
  replace (drop (S (length l1)) (l1 ++ q :: l2)) with l2 by (rewrite drop_app_ge by lia; by replace (_ - _)%nat with 1%nat by lia).
  by destruct l1.
Qed.

Lemma create_tree_ok fuel l prefix :
  (list_size l < fuel)%nat -> forest l -> Forall (fun x => prefix <= length (q_name x) <= 255)%nat (flat l) ->
  exists t, ngx_http_create_locations_tree fuel l prefix = Some t /\ tree_of prefix t l.
Proof.
  revert l prefix; induction fuel as [|fuel IH]; intros l prefix Hf Hw Hn; [lia|].
  destruct (decide (l = [])) as [->|Hne]; [exists LNull; split; [done|constructor]|].
  assert (exists l1 q l2, l = l1 ++ q :: l2 /\ length l1 = (length l / 2)%nat) as (l1 & q & l2 & -> & Hm).
  { assert (Hm : (length l / 2 < length l)%nat) by (apply Nat.div_lt; [destruct l; cbn; [done|]|]; lia).
    destruct (lookup_lt_is_Some_2 l _ Hm) as [q Eq]. exists (take (length l / 2) l), q, (drop (S (length l / 2)) l).
    split; [by rewrite take_drop_middle|]. rewrite length_take. lia. }
  rewrite create_tree_eq by done. destruct (forest_middle l1 q l2 Hw) as [H1 H2 H3 H4 H5 _ _].
  rewrite list_size_app, list_size_cons in Hf. rewrite flat_app, flat_cons in Hn.
  apply Forall_app in Hn as [Hn1 [Hq [Hnq Hn2]%Forall_app]%Forall_cons]. cbn [leaf q_name] in Hq.
  destruct (IH l1 prefix ltac:(lia) H1 Hn1) as (t1 & -> & T1). destruct (IH l2 prefix ltac:(lia) H3 Hn2) as (t2 & -> & T2).
  replace (prefix + (length (q_name q) - prefix))%nat with (length (q_name q)) by lia.
  destruct (IH (q_list q) (length (q_name q)) ltac:(lia) H2) as (t3 & -> & T3).
  { eapply Forall_impl; [exact (proj2 (Forall_and _ _) (conj Hnq H5))|]. intros x [Hx Hp%prefix_length]. cbn in *. lia. }
  eexists. split; [reflexivity|]. unfold u8. rewrite Z.mod_small by lia. by constructor.
Qed.

(** ** The walk *)

(** The answer for an element with the name of the path. *)
Definition q_hit (q : lq location) : Z * option location :=
  match q_exact q with Some c => (NGX_OK, Some c) | None => (NGX_AGAIN, q_inclusive q) end.
Definition q_any {A} (q : lq A) : option A := match q_exact q with Some c => Some c | None => q_inclusive q end.

(** The path [u] is under the name of an inclusive element. *)
Definition covers {A} (u : list Z) (q : lq A) : Prop := is_inclusive q /\ q_name q `prefix_of` u.

Definition unnamed {A} (u : list Z) (l : list (lq A)) : Prop := forall x, x ∈ l -> q_name x <> u.

(** What a search for [u] finds in [l], where [rv] stands for nothing. *)
Inductive found (l : list (lq location)) (u : list Z) (rv : Z * option location) : Z * option location -> Prop :=
| found_named q : q ∈ l -> q_name q = u -> found l u rv (q_hit q)
| found_longest q :
    unnamed u l -> q ∈ l -> covers u q ->
    (forall x, x ∈ l -> covers u x -> (length (q_name x) <= length (q_name q))%nat) ->
    found l u rv (NGX_AGAIN, q_inclusive q)
| found_none : unnamed u l -> (forall x, x ∈ l -> ~ covers u x) -> found l u rv rv
| found_redirect q c :
    unnamed u l -> q ∈ l -> q_redirect q = true -> q_name q = u ++ [c] -> found l u rv (NGX_DONE, q_any q).

(** Elements that do not matter for a path. *)
Definition foreign {A} (u : list Z) (l : list (lq A)) : Prop := Forall (fun x => q_name x <> u /\ ~ covers u x) l.

Lemma found_more l1 l2 l u rv res :
  found l1 u rv res -> foreign u l2 -> (forall x, x ∈ l <-> x ∈ l1 \/ x ∈ l2) -> found l u rv res.
Proof.
  intros H Hf Hl. unfold foreign in Hf. rewrite Forall_forall in Hf.
  assert (Hu : unnamed u l1 -> unnamed u l) by (intros Hu x [Hx|Hx]%Hl; [by apply Hu|by apply Hf]).
  destruct H as [q Hq E|q Hn Hq Hc Hm|Hn Hc|q c Hn Hq Hr E].
  - apply found_named; [|done]. apply Hl. by left.
  - apply found_longest; [by apply Hu|apply Hl; by left|done|]. intros x [Hx|Hx]%Hl Hcx; [by apply Hm|]. by apply Hf in Hx as [_ Hx].
  - apply found_none; [by apply Hu|]. intros x [Hx|Hx]%Hl; [by apply Hc|by apply Hf].
  - eapply found_redirect; [by apply Hu|apply Hl; by left|done..].
Qed.

(** A search under an inclusive element. *)
Lemma found_nested l1 q l2 l u rv res :
  found l1 u (NGX_AGAIN, q_inclusive q) res -> covers u q -> q_name q <> u ->
  Forall (fun x => q_name q `prefix_of` q_name x) l1 -> foreign u l2 ->
  (forall x, x ∈ l <-> x = q \/ x ∈ l1 \/ x ∈ l2) -> found l u rv res.
Proof.
  intros H Hq Hqu Hp Hf Hl. unfold foreign in Hf. rewrite Forall_forall in Hf, Hp.
  assert (Hu : unnamed u l1 -> unnamed u l) by (intros Hu x [->|[Hx|Hx]]%Hl; [done|by apply Hu|by apply Hf]).
  destruct H as [x Hx E|x Hn Hx Hc Hm|Hn Hc|x c Hn Hx Hr E].
  - apply found_named; [apply Hl; tauto|done].
  - apply found_longest; [by apply Hu|apply Hl; tauto|done|]. intros y [->|[Hy|Hy]]%Hl Hcy; [by apply prefix_length, Hp|by apply Hm|].
    by apply Hf in Hy as [_ Hy].
  - apply found_longest; [by apply Hu|apply Hl; tauto|done|]. intros y [->|[Hy|Hy]]%Hl Hcy; [done|by apply Hc in Hy|].
    by apply Hf in Hy as [_ Hy].
  - eapply found_redirect; [by apply Hu|apply Hl; tauto|done..].
Qed.

(** A search that goes on after a redirection. *)
Lemma found_redirected l1 q c l2 l u rv res :
  found l1 u (NGX_DONE, q_any q) res -> (forall x, x ∈ l1 -> ~ covers u x) ->
  q_redirect q = true -> q_name q = u ++ [c] -> foreign u l2 ->
  (forall x, x ∈ l <-> x = q \/ x ∈ l1 \/ x ∈ l2) -> found l u rv res.
Proof.
  intros H Hc Hr E Hf Hl. unfold foreign in Hf. rewrite Forall_forall in Hf.
  assert (Hqu : q_name q <> u) by (intros Eu; apply (f_equal length) in E; rewrite length_app, Eu in E; cbn in E; lia).
  assert (Hu : unnamed u l1 -> unnamed u l) by (intros Hu x [->|[Hx|Hx]]%Hl; [done|by apply Hu|by apply Hf]).
  destruct H as [x Hx Ex|x Hn Hx Hcx _|Hn _|x d Hn Hx Hrx Ex].
  - apply found_named; [apply Hl; tauto|done].
  - by apply Hc in Hx.
  - eapply found_redirect; [by apply Hu|apply Hl; tauto|done..].
  - eapply found_redirect; [by apply Hu|apply Hl; tauto|done..].
Qed.

Section Node.
Context {A : Type} (l1 : list (lq A)) (q : lq A) (l2 : list (lq A)) (u : list Z).
Hypothesis Hw : forest_at l1 q l2.
Hypothesis Hs : StronglySorted before (flat (l1 ++ q :: l2)).

Lemma node_sorted :
  StronglySorted before (flat l1) /\ StronglySorted before (flat (q_list q)) /\ StronglySorted before (flat l2) /\
  Forall (fun x => before x q) (flat l1) /\ Forall (before q) (flat (q_list q)) /\ Forall (before q) (flat l2).
Proof using Hs.
  clear Hw. rewrite flat_app, flat_cons in Hs. apply StronglySorted_app in Hs as (H12 & H1 & Hr).
  apply StronglySorted_inv in Hr as [Hr [Hb1 Hb2]%Forall_app]. apply StronglySorted_app in Hr as (_ & Hc & H2).
  split_and!; try done. apply Forall_forall. intros x Hx. by apply (H12 x (leaf q)); [|left].
Qed.

Lemma foreign_after : lex u (q_name q) = Lt -> foreign u (leaf q :: flat (q_list q) ++ flat l2).
Proof using Hs.
  clear Hw. intros Hu. destruct node_sorted as (_ & _ & _ & _ & Hc & H2).
  assert (Hq : Forall (fun x => lex u (q_name x) = Lt) (leaf q :: flat (q_list q) ++ flat l2)).
  { constructor; [done|]. apply Forall_app; split; (eapply Forall_impl; [done|]); intros x Hx;
      apply (lex_lt_le_trans u (q_name q) (q_name x)); [done|by rewrite Hx|done|by rewrite Hx]. }
  eapply Forall_impl; [exact Hq|]. intros x Hx. cbn in Hx. split.
  - intros E. rewrite E, lex_refl in Hx. done.
  - intros [_ Hp%prefix_le]. apply lex_lt_gt in Hx. done.
Qed.

Lemma foreign_before : lex (q_name q) u <> Gt -> foreign u (flat l1).
Proof using Hw Hs.
  intros Hu. destruct node_sorted as (_ & _ & _ & H1 & _ & _). destruct Hw as [_ _ _ _ _ _ Hb].
  apply Forall_forall. intros x Hx. rewrite Forall_forall in H1, Hb. specialize (H1 x Hx). specialize (Hb x Hx).
  unfold before in H1. split.
  - intros E. rewrite E in H1. by apply lex_lt_gt in H1.
  - intros [Hi Hp]. apply (Hb Hi). apply (prefix_between _ _ u); [done| |done]. by rewrite H1.
Qed.

Lemma foreign_under : ~ q_name q `prefix_of` u -> foreign u (leaf q :: flat (q_list q)).
Proof using Hw.
  clear Hs. intros Hu. destruct Hw as [_ _ _ _ Hp _ _].
  assert (Hq : Forall (fun x => q_name q `prefix_of` q_name x) (leaf q :: flat (q_list q))) by (by constructor).
  eapply Forall_impl; [exact Hq|]. intros x Hx. cbn in Hx. split; [by intros <-|]. intros [_ H]. apply Hu. by etrans.
Qed.

Lemma foreign_right : covers u q -> foreign u (flat l2).
Proof using Hw Hs.
  intros [Hi Hu]. destruct node_sorted as (_ & _ & _ & _ & _ & H2). destruct Hw as [_ _ _ _ _ Ha _]. specialize (Ha Hi).
  apply Forall_forall. intros x Hx. rewrite Forall_forall in H2, Ha. specialize (H2 x Hx). specialize (Ha x Hx).
  unfold before in H2. split; [by intros E; rewrite E in Ha|]. intros [_ Hp].
  destruct (prefix_weak_total _ _ _ Hu Hp) as [H|H]; [done|]. apply prefix_le in H. by apply lex_lt_gt in H2.
Qed.

Lemma uncovered_left : u `prefix_of` q_name q -> forall x, x ∈ flat l1 -> ~ covers u x.
Proof using Hw.
  clear Hs. intros Hu x Hx [Hi Hp]. destruct Hw as [_ _ _ _ _ _ Hb]. rewrite Forall_forall in Hb.
  apply (Hb x Hx Hi). by etrans.
Qed.
End Node.

(** How the walk down from a node goes on. *)
Lemma find_node {A} (u : list Z) rv (lft rgt tree : ltree A) ex inc ar s :
  let find u rv t := ngx_http_core_find_static_location u rv t in
  let r := find u rv (LNode lft rgt tree ex inc ar (Z.of_nat (length s)) s) in
  (lex u s = Lt /\ ~ u `prefix_of` s /\ r = find u rv lft) \/
  (lex s u = Lt /\ ~ s `prefix_of` u /\ r = find u rv rgt) \/
  (s = u /\ r = match ex, inc with
                | Some c, _ => Some (NGX_OK, Some c)
                | None, Some c => Some (NGX_AGAIN, Some c)
                | None, None => None
                end) \/
  (exists c u', u = s ++ c :: u' /\
     r = match inc with Some x => find (c :: u') (NGX_AGAIN, Some x) tree | None => find u rv rgt end) \/
  (exists c s', s = u ++ c :: s' /\
     r = (if bool_decide (s' = []) && ar
          then match ex, inc with
               | Some c, _ => find u (NGX_DONE, Some c) lft
               | None, Some c => find u (NGX_DONE, Some c) lft
               | None, None => None
               end
          else find u rv lft)).
Proof.
  cbv zeta. cbn [ngx_http_core_find_static_location]. destruct (node_compare u s) as (H1 & H2 & H3 & H4).
  replace (Z.to_nat _) with (Nat.min (length u) (length s)) by (case_match; zify_bool; lia).
  set (rc := memcmp _ _ _) in *. destruct (Z.eqb_spec rc 0) as [E|E]; cbn [negb].
  2:{ destruct (Z.ltb_spec rc 0) as [Hlt|Hge].
      - left. destruct (H1 Hlt). done.
      - right; left. destruct H2 as [??]; [lia|done]. }
  do 2 right. destruct (Z.ltb_spec (Z.of_nat (length s)) (Z.of_nat (length u))) as [Hl|Hl].
  - right; left. destruct (H4 E ltac:(lia)) as [[|c u'] ->]; [rewrite app_nil_r in Hl; lia|]. exists c, u'. split; [done|].
    destruct inc; [|done]. f_equal. rewrite length_app. rewrite Nat.min_r by lia. apply drop_app_length.
  - destruct (Z.eqb_spec (Z.of_nat (length u)) (Z.of_nat (length s))) as [Hl'|Hl'].
    + left. split; [|done]. apply prefix_eq; [apply H4; [done|lia]|lia].
    + right; right. destruct (H3 E ltac:(lia)) as [[|c s'] ->]; [rewrite app_nil_r in Hl'; lia|]. exists c, s'. split; [done|].
      rewrite length_app, length_cons. destruct s' as [|d s'].
      * rewrite bool_decide_true by done. by rewrite (proj2 (Z.eqb_eq _ _)) by (cbn; lia).
      * rewrite bool_decide_false by done. by rewrite (proj2 (Z.eqb_neq _ _)) by (cbn; lia).
Qed.

(** The result of a walk down a tree of a well-formed list. *)
Definition finds (P w : list Z) (rv : Z * option location) (t : ltree location) (l : list (lq location)) : Prop :=
  exists res, ngx_http_core_find_static_location w rv t = Some res /\ found (flat l) (P ++ w) rv res.

Lemma finds_more P w rv t t' l1 l2 l :
  finds P w rv t l1 -> ngx_http_core_find_static_location w rv t' = ngx_http_core_find_static_location w rv t ->
  foreign (P ++ w) l2 -> (forall x, x ∈ flat l <-> x ∈ flat l1 \/ x ∈ l2) -> finds P w rv t' l.
Proof.
  intros (res & Hr & Hf) E H Hin. exists res. split; [congruence|]. by eapply found_more.
Qed.

Lemma app_cons_ne (u w : list Z) c : u ++ c :: w <> u.
Proof. intros E%(f_equal length). rewrite length_app in E. cbn in E. lia. Qed.

Section FindNode.
Context (P w s : list Z) (l1 : list (lq location)) (q : lq location) (l2 : list (lq location)).
Context (lft rgt tree : ltree location).
Hypothesis Hw : forest_at l1 q l2.
Hypothesis Hs : StronglySorted before (flat (l1 ++ q :: l2)).
Hypothesis Eq : q_name q = P ++ s.
Hypothesis Hany : is_Some (q_any q).
Hypothesis HL : forall rv, finds P w rv lft l1.
Hypothesis HR : forall rv, finds P w rv rgt l2.
Hypothesis HT : forall rv w, finds (q_name q) w rv tree (q_list q).
Let u := P ++ w.
Let t := LNode lft rgt tree (q_exact q) (q_inclusive q) (q_redirect q) (Z.of_nat (length s)) s.

Lemma elem_of_node x : x ∈ flat (l1 ++ q :: l2) <-> x ∈ flat l1 \/ x ∈ leaf q :: flat (q_list q) ++ flat l2.
Proof. by rewrite flat_app, elem_of_app, flat_cons. Qed.

Lemma finds_below c w' rv :
  w = s ++ c :: w' ->
  ngx_http_core_find_static_location w rv t =
    match q_inclusive q with
    | Some x => ngx_http_core_find_static_location (c :: w') (NGX_AGAIN, Some x) tree
    | None => ngx_http_core_find_static_location w rv rgt
    end -> finds P w rv t (l1 ++ q :: l2).
Proof using Hw Hs Eq HR HT.
  intros E Ht. assert (Eu : u = q_name q ++ c :: w') by (unfold u; rewrite Eq, E; by rewrite app_assoc).
  assert (Hpu : q_name q `prefix_of` u) by (by exists (c :: w')).
  assert (Hne : q_name q <> u) by (rewrite Eu; intros H; by symmetry in H; apply app_cons_ne in H).
  assert (Hfb : foreign u (flat l1)) by (eapply foreign_before; [done..|by apply prefix_le]).
  destruct (q_inclusive q) as [x|] eqn:Ei.
  - destruct (HT (NGX_AGAIN, Some x) (c :: w')) as (res & Hr & Hf). exists res. split; [congruence|].
    assert (Hc : covers u q) by (split; [by exists x|done]). rewrite <- Eu in Hf.
    eapply (found_nested _ (leaf q) (flat l1 ++ flat l2)); [cbn [leaf q_inclusive]; rewrite Ei; exact Hf|exact Hc|exact Hne|by destruct Hw| |].
    + apply Forall_app; split; [done|eapply foreign_right; done].
    + intros y. rewrite elem_of_node, elem_of_app, elem_of_cons, elem_of_app. tauto.
  - assert (En : q_list q = []).
    { destruct Hw as [_ _ _ Hi _ _ _]. destruct (q_list q); [done|]. destruct Hi; [done|congruence]. }
    eapply (finds_more _ _ _ _ _ _ (flat l1 ++ [leaf q])); [exact (HR rv)|exact Ht| |].
    + apply Forall_app; split; [done|]. constructor; [|done]. split; [done|]. intros [[y Hy] _]. cbn in Hy. congruence.
    + intros y. rewrite elem_of_node, En, elem_of_app, !elem_of_cons. cbn. rewrite elem_of_nil. tauto.
Qed.

Lemma finds_above c s' rv :
  s = w ++ c :: s' ->
  ngx_http_core_find_static_location w rv t =
    (if bool_decide (s' = []) && q_redirect q
     then match q_exact q, q_inclusive q with
          | Some c, _ => ngx_http_core_find_static_location w (NGX_DONE, Some c) lft
          | None, Some c => ngx_http_core_find_static_location w (NGX_DONE, Some c) lft
          | None, None => None
          end
     else ngx_http_core_find_static_location w rv lft) -> finds P w rv t (l1 ++ q :: l2).
Proof using Hw Hs Eq Hany HL.
  intros E Ht. assert (Eu : q_name q = u ++ c :: s') by (unfold u; rewrite Eq, E; by rewrite app_assoc).
  assert (Hup : u `prefix_of` q_name q) by (by exists (c :: s')).
  assert (Hlt : lex u (q_name q) = Lt) by (apply strict_prefix_lt; [done|]; rewrite Eu; intros H; symmetry in H; by apply app_cons_ne in H).
  assert (Haf := foreign_after l1 q l2 u Hs Hlt).
  destruct (bool_decide (s' = []) && q_redirect q) eqn:Er; [|by eapply finds_more; [exact (HL rv)|exact Ht|exact Haf|exact elem_of_node]].
  apply andb_true_iff in Er as [->%bool_decide_eq_true Er]. destruct (HL (NGX_DONE, q_any q)) as (res & Hr & Hf).
  exists res. split; [rewrite Ht; unfold q_any in *; destruct (q_exact q), (q_inclusive q); try done; by destruct Hany|].
  eapply (found_redirected _ (leaf q) c (flat (q_list q) ++ flat l2)); [exact Hf|eapply uncovered_left; done|exact Er|exact Eu| |].
  - by apply Forall_cons in Haf as [_ ?].
  - intros y. rewrite elem_of_node, elem_of_cons. tauto.
Qed.

Lemma finds_node rv : finds P w rv t (l1 ++ q :: l2).
Proof using Hw Hs Eq Hany HL HR HT.
  destruct (find_node w rv lft rgt tree (q_exact q) (q_inclusive q) (q_redirect q) s)
    as [(Hlt & Hp & Ht)|[(Hlt & Hp & Ht)|[(E & Ht)|[(c & w' & E & Ht)|(c & s' & E & Ht)]]]].
  - eapply finds_more; [exact (HL rv)|exact Ht| |exact elem_of_node]. apply (foreign_after l1); [done|]. by rewrite Eq, lex_app.
  - eapply (finds_more _ _ _ _ _ _ (flat l1 ++ leaf q :: flat (q_list q))); [exact (HR rv)|exact Ht| |].
    + apply Forall_app; split; [eapply foreign_before; [done..|]; by rewrite Eq, lex_app, Hlt|].
      eapply foreign_under; [done|]. rewrite Eq. by intros H%prefix_app_inv.
    + intros x. rewrite elem_of_node, elem_of_app, !elem_of_cons, elem_of_app. tauto.
  - exists (q_hit q). split.
    + unfold t. rewrite Ht. unfold q_hit, q_any in *. destruct (q_exact q), (q_inclusive q); try done; by destruct Hany.
    + apply (found_named _ _ _ (leaf q)); [apply elem_of_node; right; left|]. cbn. by rewrite Eq, E.
  - by apply (finds_below c w').
  - by apply (finds_above c s').
Qed.
End FindNode.

(** A walk down the tree of a list finds what [found] tells of its elements. *)
Lemma tree_finds prefix t l P w rv :
  tree_of prefix t l -> length P = prefix -> forest l -> StronglySorted before (flat l) ->
  Forall (fun x => P `prefix_of` q_name x /\ is_Some (q_any x)) (flat l) -> finds P w rv t l.
Proof.
  intros Ht. revert P w rv. induction Ht as [prefix|prefix lft rgt tree l1 q l2 _ IH1 _ IH2 _ IH3]; intros P w rv HP Hw Hs Hu.
  - exists rv. split; [done|]. apply found_none; intros x Hx; by apply elem_of_nil in Hx.
  - apply forest_middle in Hw. destruct (node_sorted l1 q l2 Hs) as (S1 & S2 & S3 & _).
    rewrite flat_app, flat_cons in Hu. apply Forall_app in Hu as [U1 [[[s Eq] Hany] [Uq U2]%Forall_app]%Forall_cons].
    cbn in Eq, Hany. rewrite <- HP. rewrite Eq, length_app, Nat.add_comm, Nat.add_sub, drop_app_length.
    pose proof Hw as [W1 W2 W3 _ W5 _ _]. apply finds_node; try done; intros.
    + by apply IH1.
    + by apply IH2.
    + apply IH3; try done. apply Forall_forall. intros x Hx. rewrite Forall_forall in W5, Uq. split; [by apply W5|by apply Uq].
Qed.
