(* ===== verification/HttpLocationPriority.v ===== *)
(** * The priority of locations

    The sorting and splitting of the locations of a server, the error for a
    duplicate, and the location that is chosen for a path: an exact one, else a
    prefix that asks for no regular expressions, else the first regular expression
    that matches, else the longest prefix. *)
From stdpp Require Import sorting sets.
From S2P Require Import Prelude NgxStrings NgxQueue HttpLocations HttpLocationTrees.

#[local] Set Warnings "-register-all".

(** ** Sorting *)

Section Sort.
Context {A : Type} (cmp : A -> A -> Z) (ok : A -> Prop).
Hypothesis cmp_total : forall x y, ok x -> ok y -> 0 < cmp x y -> cmp y x <= 0.
Hypothesis cmp_trans : forall x y z, ok x -> ok y -> ok z -> cmp x y <= 0 -> cmp y z <= 0 -> cmp x z <= 0.

Lemma sort_insert_perm q l : sort_insert cmp q l ≡ₚ q :: l.
Proof. clear. induction l as [|x l IH]; cbn [sort_insert]; [done|]. case_match; [done|]. rewrite IH. constructor. Qed.

Definition down (x y : A) : Prop := cmp y x <= 0.

Lemma sort_insert_sorted q l : ok q -> Forall ok l -> StronglySorted down l -> StronglySorted down (sort_insert cmp q l).
Proof using cmp_total cmp_trans.
  intros Hq Hl Hs. induction l as [|x l IH]; cbn [sort_insert]; [repeat constructor|].
  apply Forall_cons in Hl as [Hx Hl]. apply StronglySorted_inv in Hs as [Hs Hb].
  destruct (Z.leb_spec (cmp x q) 0) as [H|H].
  - constructor; [by constructor|]. constructor; [done|]. apply Forall_forall. intros y Hy.
    rewrite Forall_forall in Hb, Hl. eapply (cmp_trans y x q); auto. by apply Hb.
  - constructor; [by apply IH|]. rewrite sort_insert_perm. constructor; [|done]. by apply cmp_total.
Qed.

Lemma sort_insert_filter (P : A -> Prop) {Pdec : forall x, Decision (P x)} q l :
  ok q -> Forall ok l -> StronglySorted down l ->
  filter P (sort_insert cmp q l) = if decide (P q) then sort_insert cmp q (filter P l) else filter P l.
Proof using cmp_total cmp_trans.
  intros Hq Hl Hs. induction l as [|x l IH]; cbn [sort_insert].
  - rewrite !filter_nil, filter_cons, filter_nil. by case_decide.
  - apply Forall_cons in Hl as [Hx Hl]. apply StronglySorted_inv in Hs as [Hs Hb].
    destruct (Z.leb_spec (cmp x q) 0) as [H|H].
    + rewrite (filter_cons _ q). case_decide; [|done].
      assert (Ha : Forall (fun y => cmp y q <= 0) (filter P (x :: l))).
      { apply Forall_forall. intros y [_ [->|Hy]%elem_of_cons]%list_elem_of_filter; [done|].
        rewrite Forall_forall in Hb, Hl. eapply (cmp_trans y x q); auto. by apply Hb. }
      destruct (filter P (x :: l)) as [|y l']; cbn [sort_insert]; [done|]. apply Forall_cons in Ha as [Hy _].
      by rewrite (proj2 (Z.leb_le _ _) Hy).
    + rewrite !filter_cons, IH by done. repeat case_decide; try done. cbn [sort_insert].
      by rewrite (proj2 (Z.leb_gt _ _) H).
Qed.

Lemma queue_sort_snoc l q : queue_sort cmp (l ++ [q]) = rev (sort_insert cmp q (rev (queue_sort cmp l))).
Proof. unfold queue_sort. by rewrite foldl_app, rev_involutive. Qed.

Lemma queue_sort_perm l : queue_sort cmp l ≡ₚ l.
Proof.
  clear. induction l as [|q l IH] using rev_ind; [done|]. rewrite queue_sort_snoc, <- Permutation_rev, sort_insert_perm.
  rewrite <- Permutation_rev, IH. by rewrite Permutation_app_comm.
Qed.

Lemma queue_sort_down l : Forall ok l -> StronglySorted down (rev (queue_sort cmp l)).
Proof using cmp_total cmp_trans.
  induction l as [|q l IH] using rev_ind; [constructor|]. intros [Hl [Hq _]%Forall_cons]%Forall_app.
  rewrite queue_sort_snoc, rev_involutive. apply sort_insert_sorted; [done| |by apply IH].
  by rewrite <- Permutation_rev, queue_sort_perm.
Qed.

Lemma queue_sort_filter (P : A -> Prop) {Pdec : forall x, Decision (P x)} l :
  Forall ok l -> filter P (queue_sort cmp l) = queue_sort cmp (filter P l).
Proof using cmp_total cmp_trans.
  assert (Hr : forall l : list A, filter P (rev l) = rev (filter P l)).
  { clear. intros l. induction l as [|x l IH]; [done|]. cbn [rev]. rewrite filter_app, IH, !filter_cons, filter_nil.
    case_decide; [done|]. by rewrite app_nil_r. }
  induction l as [|q l IH] using rev_ind; [done|]. intros [Hl [Hq _]%Forall_cons]%Forall_app. specialize (IH Hl).
  rewrite queue_sort_snoc, Hr, sort_insert_filter; [|done| |by apply queue_sort_down].
  - rewrite Hr, IH, filter_app, filter_cons, filter_nil. case_decide; [by rewrite queue_sort_snoc|].
    by rewrite rev_involutive, app_nil_r.
  - by rewrite <- Permutation_rev, queue_sort_perm.
Qed.

Lemma queue_sort_flat l : (forall x y, x ∈ l -> y ∈ l -> cmp x y <= 0) -> queue_sort cmp l = l.
Proof.
  clear. intros H. induction l as [|q l IH] using rev_ind; [done|]. rewrite queue_sort_snoc, IH.
  - destruct l as [|x l _] using rev_ind; [done|]. rewrite rev_app_distr. cbn [rev app sort_insert].
    rewrite (proj2 (Z.leb_le _ _)) by (apply H; set_solver). cbn [rev]. by rewrite rev_involutive.
  - intros x y Hx Hy. apply H; set_solver.
Qed.

Lemma queue_sort_sorted l : Forall ok l -> StronglySorted (fun x y => cmp x y <= 0) (queue_sort cmp l).
Proof using cmp_total cmp_trans.
  intros H. apply queue_sort_down in H. revert H. generalize (queue_sort cmp l). intros s.
  induction s as [|x s IH] using rev_ind; [constructor|]. rewrite rev_app_distr. cbn.
  intros [Hs Hx]%StronglySorted_inv. apply StronglySorted_app. split_and!; [|by apply IH|repeat constructor].
  intros y z Hy ->%list_elem_of_singleton. rewrite Forall_forall in Hx. apply Hx. by rewrite <- Permutation_rev.
Qed.
End Sort.

(** ** The order of locations *)

Lemma strcmp_lex s1 s2 :
  Forall (fun c => 0 < c) s1 -> Forall (fun c => 0 < c) s2 -> (strcmp s1 s2 ?= 0) = lex s1 s2.
Proof.
  revert s2; induction s1 as [|a s1 IH]; intros [|b s2] H1 H2; cbn; [done|..].
  - apply Forall_cons in H2 as [Hb _]. apply Z.compare_lt_iff. lia.
  - apply Forall_cons in H1 as [Ha _]. rewrite (proj2 (Z.eqb_neq a 0)) by lia. apply Z.compare_gt_iff. lia.
  - apply Forall_cons in H1 as [Ha H1], H2 as [Hb H2]. destruct (Z.eqb_spec a b) as [->|Hne].
    + rewrite Z.compare_refl. by apply IH.
    + destruct (Z.compare_spec a b); [done|rewrite Z.compare_lt_iff; lia|rewrite Z.compare_gt_iff; lia].
Qed.

Definition is_regex (i : loc_info) : bool := bool_decide (is_Some (l_regex i)).

(** The kinds in the order of [ngx_http_cmp_locations]. *)
Definition rank (i : loc_info) : nat := if l_noname i then 3 else if l_named i then 2 else if is_regex i then 1 else 0.

(** A location is of one kind at most, and its name has no NUL. *)
Definition ok_info (i : loc_info) : Prop :=
  (Nat.b2n (is_regex i) + Nat.b2n (l_named i) + Nat.b2n (l_noname i) <= 1)%nat /\ Forall (fun c => 0 < c) (l_name i).

(** What the order asks of two locations of one kind. *)
Definition same_rank_le (i j : loc_info) : Prop :=
  match rank i with
  | 0%nat => lex (l_name i) (l_name j) = Lt \/ l_name i = l_name j /\ (l_exact_match j = true -> l_exact_match i = true)
  | 2%nat => lex (l_name i) (l_name j) <> Gt
  | _ => True
  end.

Lemma cmp_locations_le a b :
  ok_info (q_conf a) -> ok_info (q_conf b) ->
  ngx_http_cmp_locations a b <= 0 <->
  (rank (q_conf a) < rank (q_conf b))%nat \/
  rank (q_conf a) = rank (q_conf b) /\ same_rank_le (q_conf a) (q_conf b).
Proof.
  intros [Ka Na] [Kb Nb]. unfold ngx_http_cmp_locations, same_rank_le, rank in *.
  generalize dependent (q_conf a). generalize dependent (q_conf b). intros j Kj Nj i Ki Ni.
  assert (Hs := strcmp_lex (l_name i) (l_name j) Ni Nj). change (bool_decide (is_Some (l_regex i))) with (is_regex i).
  change (bool_decide (is_Some (l_regex j))) with (is_regex j).
  assert (Hle : strcmp (l_name i) (l_name j) <= 0 <-> lex (l_name i) (l_name j) <> Gt) by (rewrite <- Hs; apply iff_refl).
  assert (H0 : strcmp (l_name i) (l_name j) = 0 <-> l_name i = l_name j)
    by (rewrite <- lex_eq, <- Hs; by rewrite Z.compare_eq_iff).
  destruct (l_noname i), (l_noname j), (l_named i), (l_named j), (is_regex i), (is_regex j);
    cbn [negb andb orb]; cbn in Ki, Kj; try lia; try (rewrite Hle; by intuition lia).
  destruct (Z.eqb_spec (strcmp (l_name i) (l_name j)) 0) as [E|E]; cbn [andb].
  - rewrite E. apply H0 in E. rewrite E, lex_refl. destruct (l_exact_match i), (l_exact_match j); cbn [negb andb]; intuition (lia || congruence).
  - rewrite Hle. rewrite H0 in E. destruct (lex (l_name i) (l_name j)) eqn:El; [by apply lex_eq in El|..]; intuition (lia || congruence).
Qed.

Definition ok_q (q : lq location) : Prop := ok_info (q_conf q).

Lemma same_rank_total i j : rank i = rank j -> ~ same_rank_le i j -> same_rank_le j i.
Proof.
  unfold same_rank_le. intros ->. destruct (rank j) as [|[|[|n]]]; [|tauto| |tauto].
  - rewrite (lex_antisym (l_name i) (l_name j)). destruct (lex (l_name i) (l_name j)) eqn:E; cbn; [|tauto..].
    apply lex_eq in E. rewrite E. destruct (l_exact_match i), (l_exact_match j); intuition congruence.
  - rewrite (lex_antisym (l_name i) (l_name j)). destruct (lex (l_name i) (l_name j)); cbn; intuition congruence.
Qed.

Lemma same_rank_trans i j k : rank i = rank j -> same_rank_le i j -> same_rank_le j k -> same_rank_le i k.
Proof.
  unfold same_rank_le. intros ->. destruct (rank j) as [|[|[|n]]]; [|tauto| |tauto].
  - intros [H1|[-> H1]] [H2|[E H2]]; [left|left|by left|right; intuition congruence].
    + eapply lex_lt_le_trans; [exact H1|]. by rewrite H2.
    + by rewrite <- E.
  - apply lex_trans.
Qed.

Lemma cmp_locations_total x y : ok_q x -> ok_q y -> 0 < ngx_http_cmp_locations x y -> ngx_http_cmp_locations y x <= 0.
Proof.
  intros Hx Hy H. apply cmp_locations_le; [done..|].
  assert (Hn : ~ ngx_http_cmp_locations x y <= 0) by lia. rewrite (cmp_locations_le x y) in Hn by done.
  destruct (Nat.lt_trichotomy (rank (q_conf x)) (rank (q_conf y))) as [Hlt|[E|Hlt]]; [tauto| |by left].
  right. split; [done|]. apply same_rank_total; tauto.
Qed.

Lemma cmp_locations_trans x y z :
  ok_q x -> ok_q y -> ok_q z -> ngx_http_cmp_locations x y <= 0 -> ngx_http_cmp_locations y z <= 0 ->
  ngx_http_cmp_locations x z <= 0.
Proof.
  intros Hx Hy Hz. rewrite !cmp_locations_le by done. intros [H1|[E1 H1]] [H2|[E2 H2]]; [left; lia|left; lia|left; lia|].
  right. split; [congruence|]. by eapply same_rank_trans.
Qed.

(** ** The lists of a server *)

Definition of_rank (n : nat) (q : lq location) : Prop := rank (q_conf q) = n.
#[export] Instance of_rank_dec n q : Decision (of_rank n q).
Proof. unfold of_rank. apply _. Defined.

Lemma filter_none {A} (P : A -> Prop) {Pdec : forall x, Decision (P x)} l : Forall (fun x => ~ P x) l -> filter P l = [].
Proof. induction 1; [done|]. by rewrite filter_cons, decide_False. Qed.

Lemma ranks_split (l : list (lq location)) :
  StronglySorted (fun x y => rank (q_conf x) <= rank (q_conf y))%nat l ->
  l = filter (of_rank 0) l ++ filter (of_rank 1) l ++ filter (of_rank 2) l ++ filter (of_rank 3) l.
Proof.
  induction l as [|x l IH]; [done|]. intros [Hs Hx]%StronglySorted_inv. rewrite !filter_cons. specialize (IH Hs).
  assert (Hn : forall n, (n < rank (q_conf x))%nat -> filter (of_rank n) l = []).
  { intros n Hn. apply filter_none. eapply Forall_impl; [exact Hx|]. unfold of_rank. cbn. lia. }
  assert (Hr : (rank (q_conf x) <= 3)%nat) by (unfold rank; repeat case_match; lia).
  destruct (rank (q_conf x)) as [|[|[|[|n]]]] eqn:E; [..|lia]; repeat case_decide; unfold of_rank in *; try congruence;
    rewrite ?(Hn 0%nat), ?(Hn 1%nat), ?(Hn 2%nat) in * by lia; cbn [app] in *; by f_equal.
Qed.

(** A location of a kind below [n] is not of the kind [n]. *)
Lemma rank_flags i : ok_info i ->
  l_noname i = (rank i =? 3)%nat /\ l_named i = (rank i =? 2)%nat /\ is_regex i = (rank i =? 1)%nat.
Proof.
  intros [H _]. unfold rank. destruct (l_noname i), (l_named i), (is_regex i); cbn in *; try done; lia.
Qed.

Lemma init_scan_app l1 l2 :
  Forall ok_q l1 -> Forall ok_q l2 -> Forall (fun q => rank (q_conf q) <> 3%nat) l1 -> Forall (of_rank 3) l2 ->
  init_scan (l1 ++ l2) = l1.
Proof.
  intros H1 H2 R1 R2. induction l1 as [|x l1 IH]; cbn [app init_scan].
  - destruct l2 as [|x l2]; [done|]. apply Forall_cons in H2 as [Hx _], R2 as [Rx _]. cbn [init_scan].
    destruct (rank_flags _ Hx) as (En & Em & Er). unfold is_regex, of_rank in *. by rewrite Er, Em, En, Rx.
  - apply Forall_cons in H1 as [Hx H1], R1 as [Rx R1]. rewrite IH by done.
    destruct (rank_flags _ Hx) as (En & _ & _). rewrite En, (proj2 (Nat.eqb_neq _ _) Rx). by repeat case_match.
Qed.

Lemma split_at_app (kind : loc_info -> bool) l1 l2 :
  Forall (fun q => kind (q_conf q) = false) l1 -> Forall (fun q => kind (q_conf q) = true) l2 ->
  split_at kind (l1 ++ l2) = (l1, l2).
Proof.
  intros H1 H2. induction H1 as [|x l1 Hx _ IH]; cbn [app split_at].
  - destruct l2 as [|x l2]; [done|]. apply Forall_cons in H2 as [Hx _]. cbn [split_at]. by rewrite Hx.
  - by rewrite Hx, IH.
Qed.

(** The static locations sorted, the regular expressions in the order of the
    configuration, the named locations sorted. *)
Lemma init_locations_ok l :
  Forall ok_q l ->
  ngx_http_init_locations l =
    (queue_sort ngx_http_cmp_locations (filter (of_rank 0) l), omap q_exact (filter (of_rank 1) l),
     omap q_exact (queue_sort ngx_http_cmp_locations (filter (of_rank 2) l))).
Proof.
  intros Hl. unfold ngx_http_init_locations.
  assert (Hf : forall n, filter (of_rank n) (queue_sort ngx_http_cmp_locations l) =
    queue_sort ngx_http_cmp_locations (filter (of_rank n) l))
    by (intros n; apply (queue_sort_filter _ ok_q cmp_locations_total cmp_locations_trans); done).
  assert (Hok : Forall ok_q (queue_sort ngx_http_cmp_locations l)) by (by rewrite queue_sort_perm).
  assert (Hn : forall n, Forall (fun q => ok_q q /\ of_rank n q) (filter (of_rank n) (queue_sort ngx_http_cmp_locations l))).
  { intros n. apply Forall_forall. intros q [Hq Hin]%list_elem_of_filter. rewrite Forall_forall in Hok. auto. }
  assert (E1 : queue_sort ngx_http_cmp_locations (filter (of_rank 1) l) = filter (of_rank 1) l).
  { apply queue_sort_flat. intros x y [Rx Hx]%list_elem_of_filter [Ry Hy]%list_elem_of_filter. rewrite Forall_forall in Hl.
    apply cmp_locations_le; [by apply Hl..|]. right. unfold same_rank_le. unfold of_rank in *. rewrite Rx. done. }
  rewrite (ranks_split (queue_sort ngx_http_cmp_locations l)).
  - specialize (Hn 0%nat) as H0. specialize (Hn 1%nat) as H1. specialize (Hn 2%nat) as H2. specialize (Hn 3%nat) as H3.
    rewrite !Hf in *. rewrite E1 in *. rewrite !app_assoc. rewrite init_scan_app.
    + rewrite split_at_app; [rewrite split_at_app; [done|..]|..]; rewrite ?Forall_app; rewrite ?Forall_forall in *;
        unfold of_rank in *; split_and?; intros q Hq;
        [destruct (H0 q Hq) as [Ho Hr]|destruct (H1 q Hq) as [Ho Hr]|destruct (H0 q Hq) as [Ho Hr]|
         destruct (H1 q Hq) as [Ho Hr]|destruct (H2 q Hq) as [Ho Hr]];
        destruct (rank_flags _ Ho) as (En & Em & Er); unfold is_regex in Er; cbn in *; by rewrite ?Em, ?Er, Hr.
    + rewrite !Forall_app. split_and!; (eapply Forall_impl; [done|]); by intros q [? ?].
    + eapply Forall_impl; [done|]; by intros q [? ?].
    + unfold of_rank in *. rewrite !Forall_app. split_and!; (eapply Forall_impl; [done|]); intros q [? Hr] E; cbn in *; congruence.
    + eapply Forall_impl; [done|]; by intros q [? ?].
  - assert (Hs := queue_sort_sorted _ ok_q cmp_locations_total cmp_locations_trans l Hl).
    revert Hok Hs. generalize (queue_sort ngx_http_cmp_locations l). clear. intros l Hok. induction 1 as [|x l Hs IH Hx]; [constructor|].
    apply Forall_cons in Hok as [Ho Hok]. constructor; [by apply IH|]. apply Forall_forall. intros y Hy.
    rewrite Forall_forall in Hx, Hok. specialize (Hx y Hy). apply cmp_locations_le in Hx; [lia|done|by apply Hok].
Qed.

(** ** Joining exact and inclusive locations of one name *)

Definition loc_name (c : location) : list Z := l_name (loc_info_of c).
Definition loc_exact (c : location) : bool := l_exact_match (loc_info_of c).

(** What two locations must not have in common. *)
Definition loc_key (c : location) : bool * list Z := (loc_exact c, loc_name c).

(** The locations of an element. *)
Definition parts (q : lq location) : list location := option_list (q_exact q) ++ option_list (q_inclusive q).
Definition all_parts (l : list (lq location)) : list location := List.flat_map parts l.

(** An element holds locations of its name, each of its kind. *)
Record ok_parts (q : lq location) : Prop := {
  op_exact c : q_exact q = Some c -> loc_exact c = true /\ loc_name c = q_name q;
  op_inclusive c : q_inclusive q = Some c -> loc_exact c = false /\ loc_name c = q_name q;
  op_any : is_Some (q_any q);
  op_list : q_list q = [];
  op_name : Forall (fun c => 0 < c) (q_name q)
}.

Definition single (q : lq location) : Prop := q_exact q = None \/ q_inclusive q = None.

(** The order of the sorted elements. *)
Definition join_le (q x : lq location) : Prop :=
  before q x \/ q_name q = q_name x /\ (is_Some (q_exact x) -> q_inclusive q = None).

Lemma parts_name q c : ok_parts q -> c ∈ parts q -> loc_name c = q_name q.
Proof.
  intros [He Hi _ _ _]. unfold parts. rewrite elem_of_app. intros [Hc|Hc].
  - destruct (q_exact q); [|by apply elem_of_nil in Hc]. apply list_elem_of_singleton in Hc as ->. by apply He.
  - destruct (q_inclusive q); [|by apply elem_of_nil in Hc]. apply list_elem_of_singleton in Hc as ->. by apply Hi.
Qed.

Lemma parts_nodup q : ok_parts q -> NoDup (map loc_key (parts q)).
Proof.
  intros [He Hi _ _ _]. unfold parts. destruct (q_exact q) as [c|], (q_inclusive q) as [d|]; cbn [option_list app map];
    try (apply NoDup_singleton || apply NoDup_nil_2).
  constructor; [|apply NoDup_singleton]. intros E%list_elem_of_singleton. unfold loc_key in E.
  destruct (He c eq_refl) as [E1 _], (Hi d eq_refl) as [E2 _]. congruence.
Qed.

Lemma all_parts_cons q l : all_parts (q :: l) = parts q ++ all_parts l.
Proof. done. Qed.

Lemma elem_of_all_parts c l : c ∈ all_parts l <-> exists q, q ∈ l /\ c ∈ parts q.
Proof.
  unfold all_parts. rewrite list_elem_of_In, in_flat_map. by setoid_rewrite list_elem_of_In.
Qed.

Lemma nodup_parts_cons q l :
  ok_parts q -> Forall ok_parts l -> Forall (before q) l ->
  NoDup (map loc_key (all_parts (q :: l))) <-> NoDup (map loc_key (all_parts l)).
Proof.
  intros Hq Hl Hb. rewrite all_parts_cons, map_app, NoDup_app. split; [tauto|]. intros H. split_and!; [by apply parts_nodup| |done].
  intros k (c & -> & Hc)%list_elem_of_fmap (d & E & Hd)%list_elem_of_fmap. apply elem_of_all_parts in Hd as (x & Hx & Hd).
  rewrite Forall_forall in Hl, Hb. specialize (Hb x Hx). unfold loc_key in E. injection E as _ E.
  rewrite (parts_name q c), (parts_name x d) in E by auto. unfold before in Hb. by rewrite E, lex_refl in Hb.
Qed.

(** Two elements of one name: an error, or their join. *)
Lemma join_same q x :
  ok_parts q -> ok_parts x -> single x -> q_name q = q_name x -> (is_Some (q_exact x) -> q_inclusive q = None) ->
  let clash := bool_decide (is_Some (q_exact q)) && bool_decide (is_Some (q_exact x))
           || bool_decide (is_Some (q_inclusive q)) && bool_decide (is_Some (q_inclusive x)) in
  let j := LQ (q_exact q) (q_inclusive x) (q_name q) (q_list q) in
  if clash then exists k, k ∈ map loc_key (parts q) /\ k ∈ map loc_key (parts x)
  else ok_parts j /\ parts j = parts q ++ parts x /\ q_exact x = None.
Proof.
  intros [He Hi Ha Hl Hp] [Ge Gi Ga Gl Gp] Hx En Hle. unfold single, parts, q_any in *. cbn [q_exact q_inclusive].
  assert (Hk : forall c d, loc_exact c = loc_exact d -> loc_name c = q_name q -> loc_name d = q_name x -> loc_key d = loc_key c)
    by (unfold loc_key; intros; f_equal; congruence).
  destruct (q_exact x) as [d|].
  - destruct Hx as [|Hx]; [done|]. rewrite Hx, Hle in * by eauto. destruct (q_exact q) as [c|]; [|by destruct Ha].
    destruct (He c eq_refl), (Ge d eq_refl). exists (loc_key c). split; [left|].
    rewrite <- (Hk c d) by congruence. left.
  - destruct (q_inclusive x) as [d|]; [|by destruct Ga]. destruct (Gi d eq_refl).
    destruct (q_inclusive q) as [c|].
    + destruct (Hi c eq_refl). rewrite (bool_decide_false (is_Some None)) by (by intros [? ?]). rewrite andb_false_r.
      cbn [orb andb]. exists (loc_key c). split; [destruct (q_exact q); [right|]; left|].
      rewrite <- (Hk c d) by congruence. left.
    + destruct (q_exact q) as [c|]; [|by destruct Ha]. rewrite !(bool_decide_false (is_Some None)) by (by intros [? ?]).
      cbn [orb andb]. destruct (He c eq_refl). split; [|done]. split; cbn [q_exact q_inclusive q_name q_list]; try done.
      intros e [= <-]. split; [done|congruence].
Qed.

(** What the loop makes of [q] and the elements after it. *)
Lemma join_loop_ok q l :
  ok_parts q -> Forall ok_parts l -> Forall single l -> Forall (join_le q) l -> StronglySorted join_le l ->
  match join_loop q l with
  | None => ~ NoDup (map loc_key (all_parts (q :: l)))
  | Some l' =>
      NoDup (map loc_key (all_parts (q :: l))) /\ all_parts l' = all_parts (q :: l) /\ Forall ok_parts l' /\
      StronglySorted before l' /\ Forall (fun x => lex (q_name q) (q_name x) <> Gt) l'
  end.
Proof.
  revert q; induction l as [|x l IH]; intros q Hq Hl Hone Hb Hs; cbn [join_loop].
  - split_and!; [unfold all_parts; cbn; rewrite app_nil_r; by apply parts_nodup|done|by constructor|repeat constructor|].
    constructor; [by rewrite lex_refl|done].
  - apply Forall_cons in Hl as [Hx Hl], Hone as [Hox Hone], Hb as [Hqx Hb]. apply StronglySorted_inv in Hs as [Hs Hxl].
    assert (Hlex := strcmp_lex (q_name q) (q_name x) (op_name q Hq) (op_name x Hx)).
    destruct (Z.eqb_spec (strcmp (q_name q) (q_name x)) 0) as [E|E].
    + rewrite E in Hlex. symmetry in Hlex. apply lex_eq in Hlex. destruct Hqx as [Hqx|[_ Hqx]]; [unfold before in Hqx; by rewrite Hlex, lex_refl in Hqx|].
      pose proof (join_same q x Hq Hx Hox Hlex Hqx) as Hj. cbn zeta in Hj. case_match.
      * destruct Hj as (k & H1 & H2). rewrite !all_parts_cons, !map_app, !NoDup_app. intros (_ & Hd & _). apply (Hd k H1).
        apply elem_of_app. by left.
      * destruct Hj as (Hj & Ej & Ex). specialize (IH _ Hj Hl Hone).
        rewrite all_parts_cons, Ej, <- app_assoc, <- !all_parts_cons in IH. apply IH; [|done].
        apply Forall_forall. intros y Hy. rewrite Forall_forall in Hxl. destruct (Hxl y Hy) as [Hy'|[Ey Hy']].
        -- left. unfold before in *. cbn [q_name]. by rewrite Hlex.
        -- right. cbn [q_name q_inclusive]. split; [congruence|done].
    + assert (Hbx : before q x).
      { destruct Hqx as [|[En _]]; [done|]. rewrite En, lex_refl in Hlex. apply Z.compare_eq_iff in Hlex. by rewrite En in E. }
      assert (Hball : Forall (before q) (x :: l)).
      { constructor; [done|]. eapply Forall_impl; [exact Hxl|]. intros y [Hy|[Ey _]]; unfold before in *; [|by rewrite <- Ey].
        eapply lex_lt_le_trans; [exact Hbx|by rewrite Hy]. }
      pose proof (nodup_parts_cons q (x :: l) Hq ltac:(by constructor) Hball) as Hnd.
      specialize (IH x Hx Hl Hone Hxl Hs). destruct (join_loop x l) as [l'|]; cbn [mbind option_bind]; [|tauto].
      destruct IH as (H1 & H2 & H3 & H4 & H5). split_and!; [tauto|by rewrite !(all_parts_cons q), H2|by constructor| |].
      * constructor; [done|]. eapply Forall_impl; [exact H5|]. intros y Hy. eapply lex_lt_le_trans; [exact Hbx|exact Hy].
      * constructor; [by rewrite lex_refl|]. eapply Forall_impl; [exact H5|]. intros y Hy. cbn.
        rewrite (lex_lt_le_trans _ _ _ Hbx Hy). done.
Qed.

Lemma join_exact_ok l :
  Forall ok_parts l -> Forall single l -> StronglySorted join_le l ->
  match ngx_http_join_exact_locations l with
  | None => ~ NoDup (map loc_key (all_parts l))
  | Some l' =>
      NoDup (map loc_key (all_parts l)) /\ all_parts l' = all_parts l /\ Forall ok_parts l' /\ StronglySorted before l'
  end.
Proof.
  destruct l as [|q l]; cbn [ngx_http_join_exact_locations].
  - intros _ _ _. split_and!; [apply NoDup_nil_2|done|done|constructor].
  - intros [Hq Hl]%Forall_cons [_ Ho]%Forall_cons [Hs Hb]%StronglySorted_inv.
    pose proof (join_loop_ok q l Hq Hl Ho Hb Hs) as H. destruct (join_loop q l); [|done]. tauto.
Qed.

(** ** From the locations of a server to the tree *)

Definition static_loc (c : location) : Prop := rank (loc_info_of c) = 0%nat.
#[export] Instance static_loc_dec c : Decision (static_loc c).
Proof. unfold static_loc. apply _. Defined.
Definition regex_loc (c : location) : Prop := rank (loc_info_of c) = 1%nat.
#[export] Instance regex_loc_dec c : Decision (regex_loc c).
Proof. unfold regex_loc. apply _. Defined.

Definition ok_loc (c : location) : Prop := ok_info (loc_info_of c).

Definition covering (u : list Z) (c : location) : Prop := loc_exact c = false /\ loc_name c `prefix_of` u.

(** The static location that is chosen for a path, and the code. *)
Inductive chosen (cs : list location) (u : list Z) : Z * option location -> Prop :=
| chosen_exact c : c ∈ cs -> loc_exact c = true -> loc_name c = u -> chosen cs u (NGX_OK, Some c)
| chosen_prefix c :
    (forall d, d ∈ cs -> loc_exact d = true -> loc_name d <> u) -> c ∈ cs -> covering u c ->
    (forall d, d ∈ cs -> covering u d -> (length (loc_name d) <= length (loc_name c))%nat) ->
    chosen cs u (NGX_AGAIN, Some c)
| chosen_none :
    (forall d, d ∈ cs -> loc_exact d = true -> loc_name d <> u) -> (forall d, d ∈ cs -> ~ covering u d) ->
    chosen cs u (NGX_DECLINED, None)
| chosen_redirect c d b :
    (forall x, x ∈ cs -> loc_name x <> u) -> c ∈ cs -> d ∈ cs -> loc_name c = u ++ [b] -> loc_name d = u ++ [b] ->
    l_auto_redirect (loc_info_of d) = true -> chosen cs u (NGX_DONE, Some c).

Lemma q_conf_add c : q_conf (ngx_http_add_location c) = loc_info_of c.
Proof. unfold ngx_http_add_location. by case_match. Qed.

Lemma add_location_static c :
  ok_loc c -> static_loc c ->
  ngx_http_add_location c = if loc_exact c then LQ (Some c) None (loc_name c) [] else LQ None (Some c) (loc_name c) [].
Proof.
  intros Hc Hr. destruct (rank_flags _ Hc) as (En & Em & Er). unfold is_regex, static_loc in *. rewrite Hr in *.
  unfold ngx_http_add_location, loc_exact, loc_name. rewrite En, Em, Er. by destruct (l_exact_match _).
Qed.

Lemma add_location_ok c :
  ok_loc c -> static_loc c ->
  ok_parts (ngx_http_add_location c) /\ single (ngx_http_add_location c) /\ parts (ngx_http_add_location c) = [c].
Proof.
  intros Hc Hr. rewrite add_location_static by done. unfold single. destruct Hc as [_ Hn].
  destruct (loc_exact c) eqn:E; (split_and!; [split; cbn; try done; by intros d [= <-]|tauto|done]).
Qed.

Lemma cmp_join_le c d :
  ok_loc c -> static_loc c -> ok_loc d -> static_loc d ->
  ngx_http_cmp_locations (ngx_http_add_location c) (ngx_http_add_location d) <= 0 ->
  join_le (ngx_http_add_location c) (ngx_http_add_location d).
Proof.
  intros Hc Rc Hd Rd. rewrite cmp_locations_le by (by rewrite q_conf_add). rewrite !q_conf_add, !add_location_static by done.
  unfold static_loc in *. unfold same_rank_le. rewrite Rc, Rd. intros [H|[_ H]]; [lia|]. unfold join_le, before.
  change (l_name (loc_info_of c)) with (loc_name c) in H. change (l_name (loc_info_of d)) with (loc_name d) in H.
  change (l_exact_match (loc_info_of c)) with (loc_exact c) in H. change (l_exact_match (loc_info_of d)) with (loc_exact d) in H.
  destruct H as [H|[H1 H2]].
  - left. by destruct (loc_exact c), (loc_exact d).
  - right. destruct (loc_exact c), (loc_exact d); cbn; split; try done; intros [? ?]; try done. by specialize (H2 eq_refl).
Qed.

Lemma filter_map_add (P : lq location -> Prop) (Q : location -> Prop)
    {Pdec : forall x, Decision (P x)} {Qdec : forall x, Decision (Q x)} cs :
  (forall c, P (ngx_http_add_location c) <-> Q c) ->
  filter P (map ngx_http_add_location cs) = map ngx_http_add_location (filter Q cs).
Proof.
  intros H. induction cs as [|c cs IH]; [done|]. cbn [map]. rewrite !filter_cons, IH.
  repeat case_decide; try done; by apply H in H0 || (apply H in H1).
Qed.

(** The static queue of a server. *)
Definition static_queue (cs : list location) : list (lq location) :=
  fst (fst (ngx_http_init_locations (map ngx_http_add_location cs))).

Lemma init_add_ok cs :
  Forall ok_loc cs ->
  static_queue cs = queue_sort ngx_http_cmp_locations (map ngx_http_add_location (filter static_loc cs)) /\
  snd (fst (ngx_http_init_locations (map ngx_http_add_location cs))) = filter regex_loc cs.
Proof.
  intros H. unfold static_queue. rewrite init_locations_ok.
  - cbn [fst snd]. rewrite (filter_map_add (of_rank 0) static_loc), (filter_map_add (of_rank 1) regex_loc)
      by (intros c; unfold of_rank; by rewrite q_conf_add). split; [done|].
    clear. induction cs as [|c cs IH]; [done|]. rewrite filter_cons. case_decide as Hc; [|done]. cbn.
    assert (E : q_exact (ngx_http_add_location c) = Some c); [|by rewrite E, IH].
    assert (Er : is_regex (loc_info_of c) = true) by (unfold regex_loc, rank in Hc; by repeat case_match).
    unfold is_regex, ngx_http_add_location in *. by rewrite Er, orb_true_r.
  - apply Forall_forall. intros q (c & -> & Hc)%list_elem_of_fmap. rewrite Forall_forall in H. unfold ok_q. rewrite q_conf_add. by apply H.
Qed.

(** The sorted queue can be joined. *)
Lemma static_queue_ok cs :
  Forall ok_loc cs ->
  Forall ok_parts (static_queue cs) /\ Forall single (static_queue cs) /\ StronglySorted join_le (static_queue cs) /\
  all_parts (static_queue cs) ≡ₚ filter static_loc cs.
Proof.
  intros H. destruct (init_add_ok cs H) as [-> _]. set (ds := filter static_loc cs).
  assert (Hd : forall c, c ∈ ds -> ok_loc c /\ static_loc c).
  { intros c [Hr Hc]%list_elem_of_filter. rewrite Forall_forall in H. auto. }
  assert (Hq : forall q, q ∈ map ngx_http_add_location ds -> exists c, q = ngx_http_add_location c /\ ok_loc c /\ static_loc c).
  { intros q (c & -> & Hc)%list_elem_of_fmap. exists c. auto. }
  assert (Hok : Forall ok_q (map ngx_http_add_location ds)).
  { apply Forall_forall. intros q (c & -> & Hc & _)%Hq. unfold ok_q. by rewrite q_conf_add. }
  assert (Hp := queue_sort_perm ngx_http_cmp_locations (map ngx_http_add_location ds)).
  split_and!.
  - rewrite Hp. apply Forall_forall. intros q (c & -> & Hc & Hr)%Hq. by apply add_location_ok.
  - rewrite Hp. apply Forall_forall. intros q (c & -> & Hc & Hr)%Hq. by apply add_location_ok.
  - assert (Hs := queue_sort_sorted _ ok_q cmp_locations_total cmp_locations_trans _ Hok).
    assert (Hq' : Forall (fun q => exists c, q = ngx_http_add_location c /\ ok_loc c /\ static_loc c)
      (queue_sort ngx_http_cmp_locations (map ngx_http_add_location ds))) by (rewrite Hp; by apply Forall_forall).
    clear Hp Hq Hok. revert Hq'. induction Hs as [|q l Hs IH Hb]; [constructor|]. intros [(c & -> & Hc & Hr) Hl]%Forall_cons.
    constructor; [by apply IH|]. apply Forall_forall. intros x Hx. rewrite Forall_forall in Hl, Hb.
    specialize (Hb x Hx). destruct (Hl x Hx) as (d & -> & Hc' & Hr'). by apply cmp_join_le.
  - unfold all_parts. rewrite Hp. clear Hp Hok Hq. clearbody ds. clear H. induction ds as [|c ds IH]; [done|].
    cbn [map List.flat_map]. destruct (Hd c ltac:(left)) as [Hc Hr]. destruct (add_location_ok c Hc Hr) as (_ & _ & ->).
    cbn. rewrite IH; [done|]. intros d Hin. apply Hd. by right.
Qed.

(** ** The location of a path *)

(** Every location of [cs] is in an element of its name, and the other way. *)
Section Chosen.
Context (l : list (lq location)) (cs : list location) (u : list Z).
Hypothesis Hparts : forall c, c ∈ all_parts l <-> c ∈ cs.
Hypothesis Hok : Forall ok_parts l.
Hypothesis Hsorted : StronglySorted before l.

Lemma part_of c : c ∈ cs -> exists q, q ∈ l /\ q_name q = loc_name c /\
  (if loc_exact c then q_exact q = Some c else q_inclusive q = Some c).
Proof using Hparts Hok.
  clear Hsorted. intros Hc. apply Hparts, elem_of_all_parts in Hc as (q & Hq & Hc). rewrite Forall_forall in Hok.
  specialize (Hok q Hq). exists q. rewrite (parts_name q c) by done. split_and!; [done..|]. destruct Hok as [He Hi _ _ _].
  unfold parts in Hc. destruct (q_exact q) as [d|], (q_inclusive q) as [e|]; cbn in Hc; rewrite ?elem_of_cons, ?elem_of_nil in Hc;
    repeat destruct Hc as [->|Hc]; try done;
    by rewrite ?(proj1 (He _ eq_refl)), ?(proj1 (Hi _ eq_refl)).
Qed.

Lemma elem_of_parts q c : q ∈ l -> q_exact q = Some c \/ q_inclusive q = Some c -> c ∈ cs.
Proof using Hparts.
  clear Hsorted Hok. intros Hq H. apply Hparts, elem_of_all_parts. exists q. split; [done|]. unfold parts. apply elem_of_app.
  destruct H as [->| ->]; [left|right]; left.
Qed.

Lemma named_once q x : q ∈ l -> x ∈ l -> q_name q = q_name x -> q = x.
Proof using Hsorted.
  clear Hok Hparts. revert Hsorted. generalize l. intros l0. induction 1 as [|y l' _ IH Hy]; [by intros ?%elem_of_nil|].
  rewrite Forall_forall in Hy. intros [->|Hq]%elem_of_cons [->|Hx]%elem_of_cons E; [done|..|by apply IH].
  - specialize (Hy x Hx). unfold before in Hy. by rewrite E, lex_refl in Hy.
  - specialize (Hy q Hq). unfold before in Hy. by rewrite <- E, lex_refl in Hy.
Qed.

Lemma covers_covering q c : q ∈ l -> q_inclusive q = Some c -> covers u q <-> covering u c.
Proof using Hok.
  clear Hsorted Hparts. intros Hq E. rewrite Forall_forall in Hok. destruct (Hok q Hq) as [_ Hi _ _ _].
  destruct (Hi c E) as [He Hn]. unfold covers, covering, is_inclusive. rewrite He, Hn, E.
  split; intros [_ H]; [done|]. split; [by exists c|done].
Qed.

Lemma found_chosen res : found l u (NGX_DECLINED, None) res -> chosen cs u res.
Proof using Hparts Hok Hsorted.
  assert (Hun : unnamed u l -> forall c, c ∈ cs -> loc_name c <> u).
  { intros Hn c (q & Hq & E & _)%part_of. rewrite <- E. by apply Hn. }
  assert (Hcov : forall d, d ∈ cs -> covering u d -> exists q, q ∈ l /\ covers u q /\ q_name q = loc_name d).
  { intros d (q & Hq & E & Hd)%part_of Hc. destruct (loc_exact d) eqn:Ed; [by destruct Hc as [Hc _]; rewrite Hc in Ed|].
    exists q. by rewrite (covers_covering q d). }
  pose proof Hok as Hok'. rewrite Forall_forall in Hok'.
  intros [q Hq E|q Hn Hq Hc Hm|Hn Hc|q b Hn Hq Hr E].
  - destruct (Hok' q Hq) as [He Hi Ha _ _]. unfold q_hit, q_any in *. destruct (q_exact q) as [c|] eqn:Ee.
    + destruct (He c eq_refl). apply chosen_exact; [eapply elem_of_parts; [exact Hq|by left]|done|congruence].
    + destruct (q_inclusive q) as [c|] eqn:Ei; [|by destruct Ha]. destruct (Hi c eq_refl) as [H1 H2]. apply chosen_prefix.
      * intros d (x & Hx & Ex & Hd)%part_of Hde Hdn. rewrite Hde in Hd. assert (x = q) as -> by (apply named_once; [done..|congruence]). congruence.
      * eapply elem_of_parts; [exact Hq|by right].
      * split; [done|]. by rewrite H2, E.
      * intros d _ [_ Hd%prefix_length]. by rewrite H2, E.
  - destruct Hc as [[c Ei] Hp]. assert (Hcc : covering u c) by (apply (covers_covering q); [done..|by split; [exists c|]]).
    rewrite Ei. apply chosen_prefix; [intros; by apply Hun|eapply elem_of_parts; [exact Hq|by right]|done|].
    intros d Hd Hcd. destruct (Hcov d Hd Hcd) as (x & Hx & Hcx & <-). destruct (Hok' q Hq) as [_ Hi _ _ _].
    destruct (Hi c Ei) as [_ ->]. by apply Hm.
  - apply chosen_none; [intros; by apply Hun|]. intros d Hd Hcd. destruct (Hcov d Hd Hcd) as (x & Hx & Hcx & _). by apply (Hc x).
  - destruct (Hok' q Hq) as [He Hi Ha _ _].
    assert (Hname : forall c, q_exact q = Some c \/ q_inclusive q = Some c -> c ∈ cs /\ loc_name c = u ++ [b]).
    { intros c Hc. split; [by eapply elem_of_parts|]. destruct Hc as [Hc|Hc]; [apply He in Hc|apply Hi in Hc]; destruct Hc; congruence. }
    assert (exists d, (q_exact q = Some d \/ q_inclusive q = Some d) /\ l_auto_redirect (loc_info_of d) = true) as (d & Hd & Hdr).
    { unfold q_redirect in Hr. apply orb_true_iff in Hr as [Hr|Hr]; [destruct (q_exact q) as [d|]|destruct (q_inclusive q) as [d|]];
        try done; exists d; auto. }
    destruct (Hname d Hd) as [? ?].
    assert (exists c, q_any q = Some c /\ (q_exact q = Some c \/ q_inclusive q = Some c)) as (c & -> & Hc).
    { destruct Ha as [c Ha]. exists c. split; [done|]. unfold q_any in Ha. destruct (q_exact q); auto. }
    destruct (Hname c Hc). by apply (chosen_redirect cs u c d b (Hun Hn)).
Qed.
End Chosen.

(** The tree of the static locations, unless two have the same name and kind. *)
Lemma static_tree_ok cs :
  Forall ok_loc cs -> Forall (fun c => length (loc_name c) <= 255)%nat cs ->
  match ngx_http_static_tree (static_queue cs) with
  | None => ~ NoDup (map loc_key (filter static_loc cs))
  | Some t =>
      NoDup (map loc_key (filter static_loc cs)) /\
      forall u, exists res, ngx_http_core_find_static_location u (NGX_DECLINED, None) t = Some res /\ chosen (filter static_loc cs) u res
  end.
Proof.
  intros Hok Hlen. destruct (static_queue_ok cs Hok) as (Hp & H1 & Hs & Hperm).
  pose proof (join_exact_ok _ Hp H1 Hs) as Hj.
  assert (Hk : NoDup (map loc_key (all_parts (static_queue cs))) <-> NoDup (map loc_key (filter static_loc cs))) by (by rewrite Hperm).
  replace (ngx_http_static_tree (static_queue cs)) with
    (l ← ngx_http_join_exact_locations (static_queue cs); l ← ngx_http_create_locations_list (S (length l)) l;
     ngx_http_create_locations_tree (S (list_size l)) l 0) by (by destruct (static_queue cs)).
  destruct (ngx_http_join_exact_locations (static_queue cs)) as [l|]; cbn [mbind option_bind]; [|tauto].
  destruct Hj as (Hnd & Hparts & Hpl & Hsl).
  destruct (create_list_ok (S (length l)) l) as (l' & -> & Hflat & Hforest); [lia|done|..].
  { eapply Forall_impl; [exact Hpl|]. by intros q []. }
  { eapply Forall_impl; [exact Hpl|]. by intros q []. }
  cbn [mbind option_bind].
  assert (Hpin : forall c, c ∈ all_parts l <-> c ∈ filter static_loc cs) by (intros c; by rewrite Hparts, Hperm).
  destruct (create_tree_ok (S (list_size l')) l' 0) as (t & -> & Ht); [lia|done|..].
  { rewrite Hflat. apply Forall_forall. intros q Hq. rewrite Forall_forall in Hpl. destruct (Hpl q Hq) as [He Hi [c Ha] _ _].
    assert (Hc : c ∈ filter static_loc cs).
    { apply (elem_of_parts l _ Hpin q c Hq). unfold q_any in Ha. destruct (q_exact q); auto. }
    apply list_elem_of_filter in Hc as [_ Hc]. rewrite Forall_forall in Hlen. specialize (Hlen c Hc).
    unfold q_any in Ha. destruct (q_exact q) as [d|]; [injection Ha as ->; destruct (He c eq_refl) as [_ E]|destruct (Hi c Ha) as [_ E]];
      rewrite E in Hlen; lia. }
  split; [tauto|]. intros u. destruct (tree_finds 0 t l' [] u (NGX_DECLINED, None) Ht eq_refl Hforest) as (res & -> & Hf); rewrite ?Hflat in *.
  - done.
  - eapply Forall_impl; [exact Hpl|]. intros q []. split; [apply prefix_nil|done].
  - exists res. split; [done|]. by eapply found_chosen.
Qed.

(** ** A server *)

(** A server whose locations have none nested in them. *)
Definition leaf_conf (i : loc_info) : loc_conf := LocConf i [].
Definition leaf_loc (i : loc_info) : location := Location i LNull [].
Definition server_conf (info : loc_info) (infos : list loc_info) : loc_conf := LocConf info (map leaf_conf infos).

Definition static_locs (infos : list loc_info) : list location := filter static_loc (map leaf_loc infos).
Definition regex_locs (infos : list loc_info) : list location := filter regex_loc (map leaf_loc infos).

Section Priority.
Context (regex_exec : Z -> list Z -> Z).

(** The static location that stays when no regular expression matches. *)
Definition fallback (srv : location) (infos : list loc_info) (u : list Z) (c : location) : Prop :=
  chosen (static_locs infos) u (NGX_AGAIN, Some c) /\ l_noregex (loc_info_of c) = false \/
  chosen (static_locs infos) u (NGX_DECLINED, None) /\ c = srv.

Definition declined (u : list Z) (r : location) : Prop := test_regex regex_exec r u = NGX_DECLINED.

(** The location of a request and the code, in the order of priority. *)
Inductive picked (srv : location) (infos : list loc_info) (u : list Z) : Z * location -> Prop :=
| picked_exact c : chosen (static_locs infos) u (NGX_OK, Some c) -> picked srv infos u (NGX_OK, c)
| picked_redirect c : chosen (static_locs infos) u (NGX_DONE, Some c) -> picked srv infos u (NGX_DONE, c)
| picked_noregex c :
    chosen (static_locs infos) u (NGX_AGAIN, Some c) -> l_noregex (loc_info_of c) = true -> picked srv infos u (NGX_DECLINED, c)
| picked_regex c l1 r l2 :
    fallback srv infos u c -> regex_locs infos = l1 ++ r :: l2 -> Forall (declined u) l1 ->
    test_regex regex_exec r u = NGX_OK -> picked srv infos u (NGX_OK, r)
| picked_error c l1 r l2 :
    fallback srv infos u c -> regex_locs infos = l1 ++ r :: l2 -> Forall (declined u) l1 ->
    test_regex regex_exec r u <> NGX_OK -> test_regex regex_exec r u <> NGX_DECLINED -> picked srv infos u (NGX_ERROR, c)
| picked_fallback c :
    fallback srv infos u c -> Forall (declined u) (regex_locs infos) -> picked srv infos u (NGX_DECLINED, c).

Lemma init_server info infos :
  init_location true (server_conf info infos) =
    (t ← ngx_http_static_tree (static_queue (map leaf_loc infos));
     Some (Location info t (snd (fst (ngx_http_init_locations (map ngx_http_add_location (map leaf_loc infos))))))).
Proof.
  unfold server_conf, static_queue. cbn [init_location].
  set (go := fix go (l : list loc_conf) : option (list location) := match l with [] => Some [] | x :: l0 => _ end).
  assert (E : go (map leaf_conf infos) = Some (map leaf_loc infos)).
  { induction infos as [|i infos IH]; [done|]. cbn [map]. unfold go at 1. fold go. rewrite IH. by destruct (true && is_static (leaf_conf i)). }
  rewrite E. cbn [mbind option_bind]. by destruct (ngx_http_init_locations _) as [[l r] n].
Qed.

Lemma find_leaf fuel i u : ngx_http_core_find_location regex_exec (S fuel) (leaf_loc i) u = Some (NGX_DECLINED, leaf_loc i).
Proof. done. Qed.

Lemma regex_loop_ok fuel u c l :
  (forall r, r ∈ l -> exists i, r = leaf_loc i) ->
  exists res, regex_loop regex_exec (fun c => ngx_http_core_find_location regex_exec (S fuel) c u) u NGX_DECLINED c l = Some res /\
    ((exists l1 r l2, l = l1 ++ r :: l2 /\ Forall (declined u) l1 /\ test_regex regex_exec r u <> NGX_DECLINED /\
        res = if test_regex regex_exec r u =? NGX_OK then (NGX_OK, r) else (NGX_ERROR, c)) \/
     Forall (declined u) l /\ res = (NGX_DECLINED, c)).
Proof.
  induction l as [|r l IH]; intros Hl; cbn [regex_loop]; [eexists; split; [done|]; by right|].
  destruct (Z.eqb_spec (test_regex regex_exec r u) NGX_OK) as [E|E].
  - destruct (Hl r ltac:(left)) as [i ->]. rewrite find_leaf. eexists. split; [done|]. left. exists [], (leaf_loc i), l.
    rewrite E. by split_and!.
  - destruct (Z.eqb_spec (test_regex regex_exec r u) NGX_DECLINED) as [E'|E'].
    + destruct IH as (res & -> & H); [intros; apply Hl; by right|]. exists res. split; [done|].
      destruct H as [(l1 & r' & l2 & -> & H1 & H2 & ->)|[H ->]]; [left; exists (r :: l1), r', l2|right]; split_and?; try done; by constructor.
    + eexists. split; [done|]. left. exists [], r, l. rewrite (proj2 (Z.eqb_neq _ _) E). by split_and!.
Qed.

Lemma pick_fallback fuel srv infos u c :
  fallback srv infos u c -> exists res,
    regex_loop regex_exec (fun c => ngx_http_core_find_location regex_exec (S fuel) c u) u NGX_DECLINED c (regex_locs infos) = Some res /\
    picked srv infos u res.
Proof.
  intros Hf. destruct (regex_loop_ok fuel u c (regex_locs infos)) as (res & -> & H).
  { intros r [_ (i & -> & _)%list_elem_of_fmap]%list_elem_of_filter. by exists i. }
  exists res. split; [done|]. destruct H as [(l1 & r & l2 & E & H1 & H2 & ->)|[H ->]]; [|by apply picked_fallback].
  destruct (Z.eqb_spec (test_regex regex_exec r u) NGX_OK); [by eapply picked_regex|by eapply picked_error].
Qed.

Lemma find_location_ok fuel info t infos u res :
  let srv := Location info t (regex_locs infos) in
  ngx_http_core_find_static_location u (NGX_DECLINED, None) t = Some res -> chosen (static_locs infos) u res ->
  exists r, ngx_http_core_find_location regex_exec (S (S fuel)) srv u = Some r /\ picked srv infos u r.
Proof.
  intros srv E Hc. remember (S fuel) as n eqn:En. cbn [ngx_http_core_find_location static_of srv]. rewrite E. cbn [mbind option_bind].
  assert (Hleaf : forall c, c ∈ static_locs infos -> ngx_http_core_find_location regex_exec n c u = Some (NGX_DECLINED, c)).
  { intros c [_ (i & -> & _)%list_elem_of_fmap]%list_elem_of_filter. subst n. apply find_leaf. }
  pose proof Hc as Hc'. destruct Hc' as [c Hin _ _|c _ Hin _ _| |c d b _ Hin _ _ _ _].
  - eexists. split; [reflexivity|]. by apply picked_exact.
  - change (NGX_AGAIN =? NGX_AGAIN) with true. cbn [default]. rewrite Hleaf by done. cbn iota. cbn [mbind option_bind].
    change ((NGX_DECLINED =? NGX_OK) || (NGX_DECLINED =? NGX_DONE)) with false. cbn iota.
    unfold id. destruct (l_noregex (loc_info_of c)) eqn:Er; cbn [negb]; [eexists; split; [reflexivity|]; by apply picked_noregex|].
    cbn [regexes_of srv]. subst n. apply pick_fallback. left. done.
  - change (NGX_DECLINED =? NGX_AGAIN) with false. cbn iota. cbn [mbind option_bind default negb].
    change ((NGX_DECLINED =? NGX_OK) || (NGX_DECLINED =? NGX_DONE)) with false. cbn iota. cbn [regexes_of srv]. subst n. apply pick_fallback.
    right. done.
  - eexists. split; [reflexivity|]. by apply picked_redirect.
Qed.
End Priority.

(** C17: A server whose locations have no locations in them, and have distinct
    names of at most 255 bytes, up to one exact and one inclusive location of a
    name, is set up, and each request gets the location
    that the documentation tells: the exact location of its path; else, when the
    longest prefix asks for no regular expressions, this prefix; else the first
    regular expression, in the order of the configuration, that matches; else the
    longest prefix, or the server itself.  The answer is the redirection NGX_DONE
    only when no location has the path as its name, and one that redirects has
    it with one more byte. *)
Theorem location_priority (regex_exec : Z -> list Z -> Z) (info : loc_info) (infos : list loc_info) :
  Forall ok_info infos -> Forall (fun i => length (l_name i) <= 255)%nat infos ->
  NoDup (map loc_key (static_locs infos)) ->
  exists srv, init_location true (server_conf info infos) = Some srv /\
    forall fuel u, exists res,
      ngx_http_core_find_location regex_exec (S (S fuel)) srv u = Some res /\ picked regex_exec srv infos u res.
Proof.
  intros Hok Hlen Hnd. rewrite init_server.
  assert (Ho : Forall ok_loc (map leaf_loc infos)) by (by apply Forall_map).
  assert (Hl : Forall (fun c => length (loc_name c) <= 255)%nat (map leaf_loc infos)) by (by apply Forall_map).
  pose proof (static_tree_ok _ Ho Hl) as Ht. destruct (init_add_ok _ Ho) as [_ ->].
  destruct (ngx_http_static_tree _) as [t|]; [|done]. destruct Ht as [_ Ht]. eexists. split; [reflexivity|].
  intros fuel u. destruct (Ht u) as (res & E & Hc). by eapply find_location_ok.
Qed.

(** C18: For a server whose locations have no locations in them, and names of at
    most 255 bytes, the set-up of the locations fails with NGX_ERROR exactly when
    two static locations have the same name and are both exact or both
    inclusive. *)
Theorem locations_duplicate (info : loc_info) (infos : list loc_info) :
  Forall ok_info infos -> Forall (fun i => length (l_name i) <= 255)%nat infos ->
  init_location true (server_conf info infos) = None <-> ~ NoDup (map loc_key (static_locs infos)).
Proof.
  intros Hok Hlen. rewrite init_server.
  assert (Ho : Forall ok_loc (map leaf_loc infos)) by (by apply Forall_map).
  assert (Hl : Forall (fun c => length (loc_name c) <= 255)%nat (map leaf_loc infos)) by (by apply Forall_map).
  pose proof (static_tree_ok _ Ho Hl) as Ht.
  destruct (ngx_http_static_tree _) as [t|]; cbn [mbind option_bind]; [|done]. destruct Ht as [Ht _]. split; [done|tauto].
Qed.

(** ** Samples *)

Definition loc (name : string) (exact noregex redirect : bool) (id : Z) : loc_info :=
  {| l_name := bytes_of_string name; l_regex := None; l_noname := false; l_named := false; l_exact_match := exact;
     l_noregex := noregex; l_auto_redirect := redirect; l_id := id |}.
Definition loc_re (re : Z) (name : string) (id : Z) : loc_info :=
  {| l_name := bytes_of_string name; l_regex := Some re; l_noname := false; l_named := false; l_exact_match := false;
     l_noregex := false; l_auto_redirect := false; l_id := id |}.

(** The server itself. *)
Definition srv_info : loc_info := loc "" false false false 0.

Definition loc_sample : list loc_info :=
  [loc_re 1 "\.php" 1; loc "/" false false false 2; loc "/img/" false true false 3; loc "/a" true false false 4;
   loc "/app/" false false true 5; loc "/a" false false false 6; loc_re 2 "x" 7].

(** The expression 1 matches paths that end with a p, the other none. *)
Definition re_sample (re : Z) (u : list Z) : Z :=
  if (re =? 1) && (List.last u 0 =? 112) then NGX_OK else NGX_DECLINED.

(** The code and the id of the location of a path. *)
Definition find_id (infos : list loc_info) (u : string) : option (Z * Z) :=
  srv ← init_location true (server_conf srv_info infos);
  '(rc, c) ← ngx_http_core_find_location re_sample 2 srv (bytes_of_string u);
  Some (rc, l_id (loc_info_of c)).

Example find_id_sample :
  map (find_id loc_sample) ["/a"; "/ab"; "/img/x.php"; "/x.php"; "/app"; "/app/x"; "x"; "/app/p"]%string =
  [Some (NGX_OK, 4); Some (NGX_DECLINED, 6); Some (NGX_DECLINED, 3); Some (NGX_OK, 1); Some (NGX_DONE, 5); Some (NGX_DECLINED, 5);
   Some (NGX_DECLINED, 0); Some (NGX_OK, 1)].
Proof. vm_compute. reflexivity. Qed.

Lemma location_priority_witness :
  exists srv, init_location true (server_conf srv_info loc_sample) = Some srv /\
    forall fuel u, exists res,
      ngx_http_core_find_location re_sample (S (S fuel)) srv u = Some res /\ picked re_sample srv loc_sample u res.
Proof.
  apply (location_priority re_sample srv_info loc_sample).
  - repeat constructor.
  - repeat constructor.
  - apply (bool_decide_unpack _). vm_compute. exact I.
Defined.

Lemma locations_duplicate_witness :
  init_location true (server_conf srv_info [loc "/a" true false false 1; loc "/" false false false 2; loc "/a" true false false 3]) = None.
Proof.
  apply (locations_duplicate srv_info); [repeat constructor|repeat constructor|].
  apply (bool_decide_unpack _). vm_compute. exact I.
Defined.

(** The length of a name is kept in a byte: a prefix of 300 bytes is taken for
    one of 44 bytes, and a path of 50 bytes is under it. *)
Theorem location_long_name :
  let long := {| l_name := replicate 300 97; l_regex := None; l_noname := false; l_named := false; l_exact_match := false;
                 l_noregex := false; l_auto_redirect := false; l_id := 1 |} in
  (srv ← init_location true (server_conf srv_info [long]);
   '(_, c) ← ngx_http_core_find_location re_sample 2 srv (replicate 50 97);
   Some (l_id (loc_info_of c))) = Some 1.
Proof. vm_compute. reflexivity. Qed.

(** The redirection to a path with a slash is missed when locations whose names
    come between the two lead the walk past it. *)
Theorem location_redirect_missed :
  find_id [loc "/foo/" false false true 1] "/foo" = Some (NGX_DONE, 1) /\
  find_id [loc "/foo/" false false true 1; loc "/foo-a" false false false 2; loc "/foo-b" false false false 3] "/foo" =
    Some (NGX_DECLINED, 0).
Proof. vm_compute. split; reflexivity. Qed.
