(* ===== verification/HttpLimitConn.v ===== *)
(** * The limit on connections

    src/nginx-1.4.7/src/http/modules/ngx_http_limit_conn_module.c: the requests
    in progress are counted per key in a tree in shared memory; a request over
    the limit is refused, and the counts go down when the memory pool of the
    request is destroyed.  Each critical section under the mutex of a zone is a
    function on the zone; the workers interleave at these. *)
From stdpp Require Import gmap list_tactics sorting relations.
From S2P Require Import Prelude NgxCrc32 NgxStrings NgxMemory NgxRbtree NgxRbtreeLogic NgxRbtreeInsert NgxRbtreeDelete NgxKeyTree.

#[local] Set Warnings "-clear-no-such-hyp".

(** [http/modules/ngx_http_limit_conn_module.c:13-18] ngx_http_limit_conn_node_t *)
Record lc_node : Type := { lc_len : Z; lc_conn : Z; lc_data : list Z }.


(** [http/ngx_http_request.h:128-128] NGX_HTTP_INTERNAL_SERVER_ERROR *)
Definition NGX_HTTP_INTERNAL_SERVER_ERROR : Z := 500.

(** [http/modules/ngx_http_limit_conn_module.c:275-313] ngx_http_limit_conn_rbtree_insert_value *)
Definition ngx_http_limit_conn_rbtree_insert_value (ns : gmap Z lc_node) : Z -> Z -> M unit :=
  rb_insert_leaf (key_less lc_data lc_len ns).

(** [http/modules/ngx_http_limit_conn_module.c:316-353] ngx_http_limit_conn_lookup *)
Definition ngx_http_limit_conn_lookup (ns : gmap Z lc_node) (data : list Z) (hash : Z) : M (option Z) :=
  key_find lc_data lc_len ns hash data.

(** What the critical section of the handler finds. *)
Inductive lc_answer : Type :=
| Entered (node : Z)
| Refused
| NoMemory.

Section Zone.
Context {S : Type} `{!SlabPool S}.

(** What is in the shared memory of a zone.
    [http/modules/ngx_http_limit_conn_module.c:27-31] ngx_http_limit_conn_ctx_t *)
Record lc_zone : Type := { lc_tree : rb_tree; lc_nodes : gmap Z lc_node; lc_pool : S }.

(** A new node for a key, in memory that was allocated at [node].
    [http/modules/ngx_http_limit_conn_module.c:225-232] lc = hash *)
Definition lc_add (data : list Z) (hash node : Z) (sp : S) (z : lc_zone) : option lc_zone :=
  let ns := <[node := {| lc_len := u8 (Z.of_nat (length data)); lc_conn := 1; lc_data := data |}]> (lc_nodes z) in
  match (wr (fun n => {| n with rb_key := hash |}) node ;;;
         ngx_rbtree_insert (ngx_http_limit_conn_rbtree_insert_value ns) node) (lc_tree z) with
  | Some (_, tree) => Some {| lc_tree := tree; lc_nodes := ns; lc_pool := sp |}
  | None => None
  end.

(** From the lock to the unlock of the handler.
    [http/modules/ngx_http_limit_conn_module.c:203-256] ngx_shmtx_lock(&shpool->mutex) *)
Definition lc_enter (limit : Z) (data : list Z) (z : lc_zone) : option (lc_answer * lc_zone) :=
  let hash := ngx_crc32_short data in
  match ngx_http_limit_conn_lookup (lc_nodes z) data hash (lc_tree z) with
  | None => None
  | Some (None, _) =>
      let n := 36 + Z.of_nat (length data) in
      match slab_alloc n (lc_pool z) with
      | (None, sp) => Some (NoMemory, {| z with lc_pool := sp |})
      | (Some node, sp) => z ← lc_add data hash node sp z; Some (Entered node, z)
      end
  | Some (Some node, _) =>
      lc ← lc_nodes z !! node;
      if limit <=? lc_conn lc then Some (Refused, z)
      else
        let lc := {| lc with lc_conn := u16 (lc_conn lc + 1) |} in
        Some (Entered node, {| z with lc_nodes := <[node := lc]> (lc_nodes z) |})
  end.

(** [http/modules/ngx_http_limit_conn_module.c:356-384] ngx_http_limit_conn_cleanup *)
Definition ngx_http_limit_conn_cleanup (node : Z) (z : lc_zone) : option lc_zone :=
  lc ← lc_nodes z !! node;
  let lc := {| lc with lc_conn := u16 (lc_conn lc - 1) |} in
  let z := {| z with lc_nodes := <[node := lc]> (lc_nodes z) |} in
  if lc_conn lc =? 0 then
    match ngx_rbtree_delete node (lc_tree z) with
    | Some (_, tree) => Some {| z with lc_tree := tree; lc_pool := slab_free node (lc_pool z) |}
    | None => None
    end
  else Some z.

(** A new zone, with the sentinel allocated at [sentinel].
    [http/modules/ngx_http_limit_conn_module.c:444-450] ngx_rbtree_init *)
Definition lc_zone_init (mem : gmap Z rb_node) (ns : gmap Z lc_node) (sentinel : Z) (sp : S) : option lc_zone :=
  tree ← ngx_rbtree_init mem sentinel;
  Some {| lc_tree := tree; lc_nodes := ns; lc_pool := sp |}.

(** ** The handler *)

(** The cleanups of a memory pool; those of other modules are only a place in
    the list.
    [http/modules/ngx_http_limit_conn_module.c:21-24] ngx_http_limit_conn_cleanup_t *)
Inductive pool_cleanup : Type :=
| LimitConn (zone node : Z)
| OtherCleanup.

Record lc_request : Type := { limit_conn_set : bool; r_cleanup : list pool_cleanup }.

(** [http/modules/ngx_http_limit_conn_module.c:34-37] ngx_http_limit_conn_limit_t *)
Record lc_limit : Type := { lim_zone : Z; lim_conn : Z }.

Abbreviation zones := (gmap Z lc_zone) (only parsing).

(** [http/modules/ngx_http_limit_conn_module.c:387-400] ngx_http_limit_conn_cleanup_all *)
Fixpoint ngx_http_limit_conn_cleanup_all (cln : list pool_cleanup) (zs : zones) : option (list pool_cleanup * zones) :=
  match cln with
  | LimitConn zone node :: next =>
      z ← zs !! zone;
      z ← ngx_http_limit_conn_cleanup node z;
      ngx_http_limit_conn_cleanup_all next (<[zone := z]> zs)
  | _ => Some (cln, zs)
  end.

(** The loop over the limits: [vv zone] is the value of the variable of a zone,
    and [add] tells whether [ngx_pool_cleanup_add] gets memory for a zone.
    [http/modules/ngx_http_limit_conn_module.c:178-271] for *)
Fixpoint lc_loop (status_code : Z) (vv : Z -> option (list Z)) (add : Z -> bool) (limits : list lc_limit)
    (r : lc_request) (zs : zones) : option (Z * lc_request * zones) :=
  match limits with
  | [] => Some (NGX_DECLINED, r, zs)
  | limit :: limits =>
      match vv (lim_zone limit) with
      | None => lc_loop status_code vv add limits r zs
      | Some data =>
          let len := Z.of_nat (length data) in
          if len =? 0 then lc_loop status_code vv add limits r zs
          else if 255 <? len then lc_loop status_code vv add limits r zs
          else
            let r := {| r with limit_conn_set := true |} in
            z ← zs !! lim_zone limit;
            '(answer, z) ← lc_enter (lim_conn limit) data z;
            let zs := <[lim_zone limit := z]> zs in
            match answer with
            | Refused | NoMemory =>
                '(cln, zs) ← ngx_http_limit_conn_cleanup_all (r_cleanup r) zs;
                Some (status_code, {| r with r_cleanup := cln |}, zs)
            | Entered node =>
                if add (lim_zone limit) then
                  lc_loop status_code vv add limits {| r with r_cleanup := LimitConn (lim_zone limit) node :: r_cleanup r |} zs
                else Some (NGX_HTTP_INTERNAL_SERVER_ERROR, r, zs)
            end
      end
  end.

(** [http/modules/ngx_http_limit_conn_module.c:155-272] ngx_http_limit_conn_handler *)
Definition ngx_http_limit_conn_handler (status_code : Z) (vv : Z -> option (list Z)) (add : Z -> bool)
    (limits : list lc_limit) (r : lc_request) (zs : zones) : option (Z * lc_request * zones) :=
  if limit_conn_set r then Some (NGX_DECLINED, r, zs) else lc_loop status_code vv add limits r zs.
End Zone.
Arguments lc_zone : clear implicits.

(** ** The requests that hold a node *)

Section Held.
Context {S : Type} `{!SlabPool S} (s : Z) (area U : gset Z) `{!SlabLaws S area}.

(** The nodes that requests hold, each with its key. *)
Abbreviation held := (list (Z * list Z)) (only parsing).

Definition holders (p : Z) (H : held) : nat := length (filter (fun x => x.1 = p) H).
Definition users (key : list Z) (H : held) : nat := length (filter (fun x => x.2 = key) H).

(** The nodes [A] of the tree are those that are held, one for each key, with
    the number of their holders; the pool has nothing else in use than [U]. *)
Record lc_is (z : lc_zone S) (A : list (Z * Z)) (H : held) : Prop := {
  li_keyed : keyed lc_data lc_len s area A (lc_tree z) (lc_nodes z);
  li_used : slab_used (lc_pool z) = U ∪ list_to_set (map fst A);
  li_apart x : x ∈ A -> x.1 ∉ U;
  li_hash x : x ∈ A -> x.2 = ngx_crc32_short (stored lc_data lc_len (lc_nodes z) x.1);
  li_one x y : x ∈ A -> y ∈ A -> stored lc_data lc_len (lc_nodes z) x.1 = stored lc_data lc_len (lc_nodes z) y.1 -> x = y;
  li_conn x n : x ∈ A -> lc_nodes z !! x.1 = Some n -> lc_conn n = Z.of_nat (holders x.1 H) /\ 1 <= lc_conn n < 2 ^ 16;
  li_held p key : (p, key) ∈ H -> stored lc_data lc_len (lc_nodes z) p = key /\ p ∈ map fst A
}.

Lemma li_in_use z A H x : lc_is z A H -> x ∈ A -> x.1 ∈ slab_used (lc_pool z).
Proof.
  intros Hz Hx. rewrite (li_used _ _ _ Hz). apply elem_of_union_r, elem_of_list_to_set. by apply list_elem_of_fmap_2.
Qed.
End Held.
Section Enter.
Context {S : Type} `{!SlabPool S} (s : Z) (area U : gset Z) `{!SlabLaws S area}.
Abbreviation lstored := (stored lc_data lc_len) (only parsing).

Lemma filter_same {X} (P Q : X -> Prop) `{!forall x, Decision (P x), !forall x, Decision (Q x)} (l : list X) :
  (forall x, x ∈ l -> P x <-> Q x) -> filter P l = filter Q l.
Proof.
  induction l as [|x l IH]; intros Hl; [done|]. rewrite !filter_cons. rewrite IH by (intros y Hy; apply Hl; by right).
  pose proof (Hl x ltac:(left)). repeat case_decide; tauto.
Qed.

(** The requests with the key of a node are its holders. *)
Lemma users_holders (z : lc_zone S) A H p h :
  lc_is s area U z A H -> (p, h) ∈ A -> users (lstored (lc_nodes z) p) H = holders p H.
Proof.
  intros Hz Hp. unfold users, holders. f_equal. apply filter_same. intros [q k] Hq. cbn.
  destruct (li_held _ _ _ _ _ _ Hz q k Hq) as [<- Hqa]. split; [|by intros ->].
  apply list_elem_of_fmap in Hqa as ([q' h'] & -> & Hqa). intros E.
  by assert ((q', h') = (p, h)) as [= -> ->] by exact (li_one _ _ _ _ _ _ Hz _ _ Hqa Hp E).
Qed.

Lemma users_none (z : lc_zone S) A H data :
  lc_is s area U z A H -> has_key lc_data lc_len (lc_nodes z) (ngx_crc32_short data) data A None -> users data H = O.
Proof.
  intros Hz Hnone. unfold users. destruct (filter _ H) as [|[q k] l] eqn:Ef; [done|]. exfalso.
  assert (Hin : (q, k) ∈ filter (fun x => x.2 = data) H) by (rewrite Ef; left).
  apply list_elem_of_filter in Hin as [Ek Hin]. cbn in Ek. subst k.
  destruct (li_held _ _ _ _ _ _ Hz q data Hin) as [Es ([q' h] & Eq & Hq)%list_elem_of_fmap]. cbn in Eq. subst q'.
  pose proof (li_hash _ _ _ _ _ _ Hz _ Hq) as Eh. cbn in Eh. rewrite Es in Eh. subst h. exact (Hnone q Hq Es).
Qed.

Definition held_after (ans : lc_answer) (data : list Z) (H : list (Z * list Z)) : list (Z * list Z) :=
  match ans with Entered p => (p, data) :: H | _ => H end.

(** A key that the handler lets through. *)
Definition lc_key (data : list Z) : Prop := (1 <= length data <= 255)%nat.

Lemma holders_none (z : lc_zone S) A H p : lc_is s area U z A H -> p ∉ map fst A -> holders p H = O.
Proof.
  intros Hz Hp. unfold holders. destruct (filter _ H) as [|[q k] l] eqn:Ef; [done|]. exfalso.
  assert (Hin : (q, k) ∈ filter (fun x => x.1 = p) H) by (rewrite Ef; left).
  apply list_elem_of_filter in Hin as [Eq Hin]. cbn in Eq. subst q.
  by destruct (li_held _ _ _ _ _ _ Hz p k Hin).
Qed.

Lemma lc_add_ok (z : lc_zone S) A H data p sp :
  lc_is s area U z A H -> lc_key data -> has_key lc_data lc_len (lc_nodes z) (ngx_crc32_short data) data A None ->
  p ∈ area -> p ∉ slab_used (lc_pool z) -> slab_used sp = slab_used (lc_pool z) ∪ {[p]} ->
  exists z', lc_add data (ngx_crc32_short data) p sp z = Some z' /\
    lc_is s area U z' ((p, ngx_crc32_short data) :: A) ((p, data) :: H).
Proof.
  intros Hz [Hlen1 Hlen2] Hnone Hp Hu Hsp. set (hash := ngx_crc32_short data) in *.
  assert (HpA : p ∉ map fst A).
  { intros ([q h] & Eq & Hq)%list_elem_of_fmap. cbn in Eq. subst q. apply Hu, (li_in_use _ _ _ _ _ _ _ Hz Hq). }
  assert (Hne : forall x, x ∈ A -> x.1 <> p) by (intros x Hx <-; by apply HpA, list_elem_of_fmap_2).
  set (n := {| lc_len := u8 (Z.of_nat (length data)); lc_conn := 1; lc_data := data |}).
  assert (Hl : Z.to_nat (lc_len n) = length data) by (cbn; unfold u8; rewrite Z.mod_small by lia; lia).
  assert (Hst : lstored (<[p := n]> (lc_nodes z)) p = data) by (rewrite stored_new, Hl; cbn; by rewrite take_ge).
  pose proof (keyed_fresh lc_data lc_len s area A (lc_tree z) (lc_nodes z) p n (li_keyed _ _ _ _ _ _ Hz) Hp HpA) as Hk.
  destruct (keyed_insert lc_data lc_len s area A (lc_tree z) _ p hash Hk Hp HpA) as (t' & E' & Hk').
  { exists n. cbn [fst]. rewrite lookup_insert_eq. split; [done|]. by rewrite Hl. }
  unfold lc_add. fold n. unfold ngx_http_limit_conn_rbtree_insert_value. rewrite E'. eexists; split; [done|].
  assert (HS : forall x, x ∈ A -> lstored (<[p := n]> (lc_nodes z)) x.1 = lstored (lc_nodes z) x.1)
    by (intros x Hx; by apply stored_ne, Hne).
  constructor; cbn [lc_tree lc_nodes lc_pool].
  - done.
  - rewrite Hsp, (li_used _ _ _ _ _ _ Hz). cbn [map fst list_to_set]. clear. set_solver.
  - intros x [->|Hx]%elem_of_cons; [|by apply (li_apart _ _ _ _ _ _ Hz)]. cbn [fst]. intros HU. apply Hu.
    rewrite (li_used _ _ _ _ _ _ Hz). by apply elem_of_union_l.
  - intros x [->|Hx]%elem_of_cons; [cbn [fst snd]; by rewrite Hst|]. rewrite (HS x Hx). by apply (li_hash _ _ _ _ _ _ Hz).
  - intros x y [->|Hx]%elem_of_cons [->|Hy]%elem_of_cons; cbn [fst]; [done|..].
    + rewrite Hst, (HS y Hy). intros E. exfalso. apply (Hnone y.1); [|done].
      pose proof (li_hash _ _ _ _ _ _ Hz y Hy) as Eh. rewrite <- E in Eh. destruct y as [q h]. cbn in *. subst h. done.
    + rewrite Hst, (HS x Hx). intros E. exfalso. apply (Hnone x.1); [|done].
      pose proof (li_hash _ _ _ _ _ _ Hz x Hx) as Eh. rewrite E in Eh. destruct x as [q h]. cbn in *. subst h. done.
    + rewrite (HS x Hx), (HS y Hy). by apply (li_one _ _ _ _ _ _ Hz).
  - intros x m [->|Hx]%elem_of_cons; cbn [fst].
    + rewrite lookup_insert_eq. intros [= <-]. unfold holders. rewrite filter_cons_True by done. cbn [length].
      change (length (filter _ H)) with (holders p H). rewrite (holders_none z A H p Hz HpA). cbn. lia.
    + rewrite lookup_insert_ne by (by apply not_eq_sym, Hne). intros Hm. unfold holders.
      rewrite filter_cons_False by (cbn; by apply not_eq_sym, Hne). by apply (li_conn _ _ _ _ _ _ Hz).
  - intros q k [[= -> ->]|Hq]%elem_of_cons; [split; [done|left]|].
    destruct (li_held _ _ _ _ _ _ Hz q k Hq) as [Es Hin]. split; [|by right].
    rewrite stored_ne; [done|]. intros ->. done.
Qed.
End Enter.

Section Steps.
Context {S : Type} `{!SlabPool S} (s : Z) (area U : gset Z) `{!SlabLaws S area}.
Abbreviation lstored := (stored lc_data lc_len) (only parsing).

(** Another number of holders for one node. *)
Lemma lc_count_ok (z : lc_zone S) A H H' p h n n' :
  lc_is s area U z A H -> (p, h) ∈ A -> lc_nodes z !! p = Some n -> lc_data n' = lc_data n -> lc_len n' = lc_len n ->
  lc_conn n' = Z.of_nat (holders p H') -> 1 <= lc_conn n' < 2 ^ 16 ->
  (forall q, q <> p -> holders q H' = holders q H) ->
  (forall q k, (q, k) ∈ H' -> (q, k) ∈ H \/ q = p /\ k = lstored (lc_nodes z) p) ->
  lc_is s area U {| z with lc_nodes := <[p := n']> (lc_nodes z) |} A H'.
Proof.
  intros Hz Hp Hn Ed El Ec Hc Hh Hin.
  assert (HS : forall q, lstored (<[p := n']> (lc_nodes z)) q = lstored (lc_nodes z) q) by (intros q; by apply (stored_eq _ _ _ p n)).
  constructor; cbn [lc_tree lc_nodes lc_pool].
  - apply (keyed_write _ _ s area A _ _ p n n'); [apply Hz|done..].
  - apply Hz.
  - apply Hz.
  - intros x Hx. rewrite HS. by apply Hz.
  - intros x y Hx Hy. rewrite !HS. by apply (li_one _ _ _ _ _ _ Hz).
  - intros x m Hx. destruct (decide (x.1 = p)) as [Ex|Hne].
    + rewrite Ex, lookup_insert_eq. by intros [= <-].
    + rewrite lookup_insert_ne, Hh by done. by apply Hz.
  - intros q k [Hq|[-> ->]]%Hin; rewrite HS; [by apply (li_held _ _ _ _ _ _ Hz)|]. split; [done|].
    by apply (list_elem_of_fmap_2 fst A (p, h)).
Qed.

Lemma holders_cons p k q (H : list (Z * list Z)) : holders q ((p, k) :: H) = ((if decide (p = q) then 1 else 0) + holders q H)%nat.
Proof. unfold holders. rewrite filter_cons. cbn [fst]. by case_decide. Qed.

(** What the critical section answers.  *)
Definition enter_spec (limit : Z) (data : list Z) (A : list (Z * Z)) (H : list (Z * list Z)) (ans : lc_answer) : Prop :=
  match ans with
  | Entered p => Z.of_nat (users data H) < limit /\ if decide (users data H = O) then p ∉ map fst A else (p, data) ∈ H
  | Refused => limit <= Z.of_nat (users data H)
  | NoMemory => users data H = O
  end.

Lemma lc_enter_ok (z : lc_zone S) A H limit data :
  lc_is s area U z A H -> lc_key data -> 1 <= limit <= 65535 ->
  exists ans z' A', lc_enter limit data z = Some (ans, z') /\ lc_is s area U z' A' (held_after ans data H) /\
    enter_spec limit data A H ans.
Proof.
  intros Hz Hkey Hlim. unfold lc_enter, ngx_http_limit_conn_lookup.
  destruct (key_find_ok _ _ s area A _ _ (ngx_crc32_short data) data (li_keyed _ _ _ _ _ _ Hz)) as (r & -> & Hr).
  destruct r as [p|].
  - destruct Hr as [Hp Hst]. destruct (keyed_in _ _ _ _ _ _ _ _ (li_keyed _ _ _ _ _ _ Hz) Hp) as [_ (n & Hn & _)].
    cbn [fst] in Hn. rewrite Hn. cbn [mbind option_bind]. destruct (li_conn _ _ _ _ _ _ Hz _ n Hp Hn) as [Ec Hc]. cbn [fst] in Ec.
    pose proof (users_holders s area U z A H p _ Hz Hp) as Hu. rewrite Hst in Hu.
    destruct (limit <=? lc_conn n) eqn:El.
    + exists Refused, z, A. split_and!; [done..|]. cbn. rewrite Hu. zify_bool. lia.
    + eexists (Entered p), _, A. split; [done|]. split.
      * eapply (lc_count_ok z A H _ p _ n); [done|exact Hp|done|done|done|..]; cbn [lc_conn held_after].
        -- rewrite holders_cons, decide_True by done. unfold u16. zify_bool. rewrite Z.mod_small by lia. lia.
        -- unfold u16. zify_bool. rewrite Z.mod_small by lia. lia.
        -- intros q Hq. by rewrite holders_cons, decide_False.
        -- intros q k [[= -> ->]|Hq]%elem_of_cons; [right; by rewrite Hst|by left].
      * cbn. rewrite Hu. split; [zify_bool; lia|]. rewrite decide_False by lia.
        unfold holders in Ec. destruct (filter (fun x => x.1 = p) H) as [|[q k] l] eqn:Ef; [cbn in Ec; lia|].
        assert (Hin : (q, k) ∈ filter (fun x => x.1 = p) H) by (rewrite Ef; left).
        apply list_elem_of_filter in Hin as [Eq Hin]. cbn in Eq. subst q.
        destruct (li_held _ _ _ _ _ _ Hz p k Hin) as [Ek _]. by rewrite Ek in Hst; subst k.
  - pose proof (users_none s area U z A H data Hz Hr) as Hu.
    destruct (slab_alloc _ (lc_pool z)) as [[p|] sp] eqn:Ea.
    + apply slab_alloc_some in Ea as (Hp & Hnu & Hsp).
      destruct (lc_add_ok s area U z A H data p sp Hz Hkey Hr Hp Hnu Hsp) as (z' & -> & Hz').
      exists (Entered p), z', ((p, ngx_crc32_short data) :: A). split_and!; [done..|]. cbn. rewrite Hu. split; [lia|].
      rewrite decide_True by done. intros ([q h] & Eq & Hq)%list_elem_of_fmap. cbn in Eq. subst q.
      apply Hnu, (li_in_use _ _ _ _ _ _ _ Hz Hq).
    + apply slab_alloc_none in Ea. exists NoMemory, {| z with lc_pool := sp |}, A. split_and!; [done| |done].
      destruct Hz. constructor; cbn [lc_tree lc_nodes lc_pool]; [done|by rewrite Ea|done..].
Qed.

Lemma holders_perm p H H' : H ≡ₚ H' -> holders p H = holders p H'.
Proof. intros E. unfold holders. by rewrite E. Qed.

Lemma lc_cleanup_ok (z : lc_zone S) A H p key H' :
  lc_is s area U z A H -> H ≡ₚ (p, key) :: H' ->
  exists z' A', ngx_http_limit_conn_cleanup p z = Some z' /\ lc_is s area U z' A' H'.
Proof.
  intros Hz EH. assert (Hin : (p, key) ∈ H) by (rewrite EH; left).
  destruct (li_held _ _ _ _ _ _ Hz p key Hin) as [Hst ([q h] & Eq & Hp)%list_elem_of_fmap]. cbn in Eq. subst q.
  destruct (keyed_in _ _ _ _ _ _ _ _ (li_keyed _ _ _ _ _ _ Hz) Hp) as [_ (n & Hn & _)]. cbn [fst] in Hn.
  unfold ngx_http_limit_conn_cleanup. rewrite Hn. cbn [mbind option_bind].
  destruct (li_conn _ _ _ _ _ _ Hz _ n Hp Hn) as [Ec Hc]. cbn [fst] in Ec.
  rewrite (holders_perm p H _ EH), holders_cons, decide_True in Ec by done.
  assert (Hh : forall q, q <> p -> holders q H' = holders q H).
  { intros q Hq. rewrite (holders_perm q H _ EH), holders_cons, decide_False by done. done. }
  set (n' := {| n with lc_conn := u16 (lc_conn n - 1) |}).
  assert (Ec' : lc_conn n' = lc_conn n - 1) by (cbn; unfold u16; by rewrite Z.mod_small by lia).
  destruct (lc_conn n' =? 0) eqn:E0.
  - apply Z.eqb_eq in E0. assert (HA : (p, h) ∈ A) by done. apply elem_of_Permutation in HA as [A' EA].
    assert (Hk : keyed lc_data lc_len s area A (lc_tree z) (<[p := n']> (lc_nodes z)))
      by (apply (keyed_write _ _ s area A _ _ p n n'); [apply Hz|done..]).
    destruct (keyed_delete _ _ s area A A' p h _ _ Hk EA) as (t' & Et & Hk'). cbn [lc_tree lc_nodes lc_pool] in *.
    change (lc_tree {| z with lc_nodes := _ |}) with (lc_tree z).
    rewrite Et. eexists _, A'. split; [done|].
    assert (Hnd : NoDup (map fst A)) by (eapply keyed_nodup, Hk). rewrite EA in Hnd. cbn in Hnd. apply NoDup_cons in Hnd as [Hnp _].
    assert (Hne : forall x, x ∈ A' -> x.1 <> p) by (intros x Hx <-; by apply Hnp, list_elem_of_fmap_2).
    assert (Hsub : forall x, x ∈ A' -> x ∈ A) by (intros x Hx; rewrite EA; by right).
    assert (HS : forall x, x ∈ A' -> lstored (<[p := n']> (lc_nodes z)) x.1 = lstored (lc_nodes z) x.1)
      by (intros x Hx; by apply stored_ne, Hne).
    constructor; cbn [lc_tree lc_nodes lc_pool].
    + done.
    + rewrite slab_free_used by (by apply (li_in_use _ _ _ _ _ _ (p, h) Hz Hp)). rewrite (li_used _ _ _ _ _ _ Hz), EA.
      pose proof (li_apart _ _ _ _ _ _ Hz _ Hp) as HU. cbn [map fst list_to_set] in *. rewrite <- (elem_of_list_to_set (C := gset Z)) in Hnp.
      clear -HU Hnp. set_solver.
    + intros x Hx. by apply Hz, Hsub.
    + intros x Hx. rewrite HS by done. by apply Hz, Hsub.
    + intros x y Hx Hy. rewrite !HS by done. apply (li_one _ _ _ _ _ _ Hz); by apply Hsub.
    + intros x m Hx. rewrite lookup_insert_ne by (by apply not_eq_sym, Hne). rewrite Hh by (by apply Hne). by apply Hz, Hsub.
    + intros q k Hq. assert (Hqp : q <> p).
      { intros ->. assert (0 < holders p H')%nat; [|lia]. unfold holders.
        assert (Hf : (p, k) ∈ filter (fun x => x.1 = p) H') by (by apply list_elem_of_filter).
        destruct (filter _ H'); [by apply elem_of_nil in Hf|cbn; lia]. }
      destruct (li_held _ _ _ _ _ _ Hz q k) as [Es Hqa]; [rewrite EH; by right|]. split; [by rewrite stored_ne|].
      rewrite EA in Hqa. cbn in Hqa. by apply elem_of_cons in Hqa as [->|].
  - eexists _, A. split; [done|]. apply Z.eqb_neq in E0. eapply (lc_count_ok z A H H' p h n n'); try done; [lia|lia|].
    intros q k Hq. left. rewrite EH. by right.
Qed.
End Steps.

(** ** Interleaved requests *)

Section Interleaving.
Context {S : Type} `{!SlabPool S} (s : Z) (area U : gset Z) `{!SlabLaws S area} (m : Z).

(** The critical sections of the handlers and of the cleanups of any number of
    requests in any worker; the second component is what they hold. *)
Inductive lc_step : lc_zone S * list (Z * list Z) -> lc_zone S * list (Z * list Z) -> Prop :=
| step_enter limit data z H ans z' :
    1 <= limit <= m -> lc_key data -> lc_enter limit data z = Some (ans, z') ->
    lc_step (z, H) (z', held_after ans data H)
| step_leave p key z H H' z' :
    H ≡ₚ (p, key) :: H' -> ngx_http_limit_conn_cleanup p z = Some z' -> lc_step (z, H) (z', H').

Hypothesis m_small : 1 <= m <= 65535.

Definition lc_inv (zH : lc_zone S * list (Z * list Z)) : Prop :=
  (exists A, lc_is s area U zH.1 A zH.2) /\ forall key, Z.of_nat (users key zH.2) <= m.

Lemma users_cons p k key (H : list (Z * list Z)) :
  users key ((p, k) :: H) = ((if decide (k = key) then 1 else 0) + users key H)%nat.
Proof. unfold users. rewrite filter_cons. cbn [snd]. by case_decide. Qed.

Lemma lc_step_inv x y : lc_step x y -> lc_inv x -> lc_inv y.
Proof.
  intros Hstep. destruct Hstep as [limit data z H ans z' Hl Hk E|p key z H H' z' EH E]; intros [[A Hz] Hm]; cbn [fst snd] in *.
  - destruct (lc_enter_ok s area U z A H limit data Hz Hk) as (ans' & z'' & A' & E' & Hz' & Hspec); [lia|].
    rewrite E in E'. injection E' as <- <-. split; [by exists A'|]. intros key. cbn [snd].
    destruct ans as [p| |]; cbn [held_after]; [|by apply Hm..]. rewrite users_cons. destruct Hspec as [Hlt _].
    specialize (Hm key). case_decide as Hd; [subst key; lia|lia].
  - destruct (lc_cleanup_ok s area U z A H p key H' Hz EH) as (z'' & A' & E' & Hz'). rewrite E in E'. injection E' as <-.
    split; [by exists A'|]. intros k. cbn [snd]. specialize (Hm k). unfold users in *. rewrite EH, filter_cons in Hm.
    case_decide; cbn in Hm; lia.
Qed.

(** Without holders there are no nodes. *)
Lemma lc_no_holders z A : lc_is s area U z A [] -> A = [].
Proof.
  intros Hz. destruct A as [|x A]; [done|]. exfalso.
  destruct (keyed_in _ _ _ _ _ _ _ x (li_keyed _ _ _ _ _ _ Hz)) as [_ (n & Hn & _)]; [left|].
  destruct (li_conn _ _ _ _ _ _ Hz x n ltac:(left) Hn) as [Ec Hc]. cbn in Ec. lia.
Qed.

Lemma lc_run_inv z0 z H : lc_is s area U z0 [] [] -> rtc lc_step (z0, []) (z, H) -> lc_inv (z, H).
Proof.
  intros H0 Hrun. refine (rtc_ind_r lc_inv (z0, []) _ _ _ Hrun).
  - split; [by exists []|]. intros key. cbn. lia.
  - intros x y _ Hxy Hx. by eapply lc_step_inv.
Qed.

(** What the invariant gives. *)
Lemma lc_inv_correct z H :
  lc_inv (z, H) ->
  (forall key, Z.of_nat (users key H) <= m) /\
  (forall limit data, 1 <= limit <= m -> lc_key data -> exists ans z',
     lc_enter limit data z = Some (ans, z') /\
     (ans = Refused <-> limit <= Z.of_nat (users data H)) /\ (ans = NoMemory -> users data H = O)) /\
  (forall p key, (p, key) ∈ H -> is_Some (ngx_http_limit_conn_cleanup p z)) /\
  (H = [] -> slab_used (lc_pool z) = U).
Proof.
  intros [[A Hz] Hu]. cbn [fst snd] in *. split_and!; [done|..].
  - intros limit data Hl Hk. destruct (lc_enter_ok s area U z A H limit data Hz Hk) as (ans & z' & A' & E' & _ & Hs); [lia|].
    exists ans, z'. split; [done|]. destruct ans; cbn in Hs; (split; [split|]); intros; try done; lia.
  - intros p key Hp. apply elem_of_Permutation in Hp as [H' EH].
    destruct (lc_cleanup_ok s area U z A H p key H' Hz EH) as (z' & A' & -> & _). by exists z'.
  - intros ->. rewrite (li_used _ _ _ _ _ _ Hz), (lc_no_holders z A Hz). cbn. apply union_empty_r_L.
Qed.

(** The nodes in use are those of the requests in progress. *)
Lemma lc_inv_used z H : lc_inv (z, H) -> slab_used (lc_pool z) = U ∪ list_to_set (map fst H).
Proof.
  intros [[A Hz] _]. cbn [fst snd] in *. rewrite (li_used _ _ _ _ _ _ Hz). f_equal. apply set_eq. intros p. rewrite !elem_of_list_to_set. split.
  - intros Hp. destruct (holders p H) as [|n] eqn:Eh.
    + exfalso. apply list_elem_of_fmap in Hp as (x & -> & Hx). pose proof (li_keyed _ _ _ _ _ _ Hz) as Hk. destruct (keyed_in _ _ _ _ _ _ _ x Hk Hx) as [Ha _].
      destruct Hk as (_ & _ & _ & _ & _ & _ & Hns). destruct (Hns _ Ha) as [nd Hnd].
      destruct (li_conn _ _ _ _ _ _ Hz x nd Hx Hnd) as [E ?]. rewrite Eh in E. lia.
    + unfold holders in Eh. destruct (filter _ H) as [|[q k] l] eqn:Ef; [done|].
      assert (Hq : (q, k) ∈ filter (fun x : Z * list Z => x.1 = p) H) by (rewrite Ef; left).
      apply list_elem_of_filter in Hq as [Eq Hq]. cbn in Eq. subst q. by apply (list_elem_of_fmap_2 fst) in Hq.
  - intros Hp. apply list_elem_of_fmap in Hp as ([q k] & -> & Hq). by apply (li_held _ _ _ _ _ _ Hz q k).
Qed.
End Interleaving.

(** C10: The critical sections of the limit on connections, in which a request
    enters a zone and a request that has entered leaves it: however those of all
    workers interleave, for keys of at most 255 bytes and limits of at most [m],
    none faults, never more than [m] requests with one key are in the zone, a
    request is refused exactly when as many as its limit are, memory runs out only
    for a key that no request has, and the memory of the zone in use is at every
    moment what it was at the start and the nodes of the requests that have not
    left. *)
Theorem limit_conn_interleaved {S : Type} `{!SlabPool S} s area U `{!SlabLaws S area} m z0 z H :
  1 <= m <= 65535 -> lc_is s area U z0 [] [] -> rtc (lc_step m) (z0, []) (z, H) ->
  (forall key, Z.of_nat (users key H) <= m) /\
  (forall limit data, 1 <= limit <= m -> lc_key data -> exists ans z',
     lc_enter limit data z = Some (ans, z') /\
     (ans = Refused <-> limit <= Z.of_nat (users data H)) /\ (ans = NoMemory -> users data H = O)) /\
  (forall p key, (p, key) ∈ H -> is_Some (ngx_http_limit_conn_cleanup p z)) /\
  slab_used (lc_pool z) = U ∪ list_to_set (map fst H).
Proof.
  intros Hm H0 Hrun. assert (Hi : lc_inv s area U m (z, H)) by (eapply lc_run_inv; eauto).
  destruct (lc_inv_correct s area U m Hm z H Hi) as (H1 & H2 & H3 & _). split_and!; [done..|]. by eapply lc_inv_used.
Qed.

(** ** The handler over all its zones *)

Section Handler.
Context {S : Type} `{!SlabPool S} (s : Z) (area U : gset Z) `{!SlabLaws S area}.

(** A zone, a node in it and its key. *)
Abbreviation entries := (list (Z * (Z * list Z))) (only parsing).

Definition of_zone (i : Z) (es : entries) : list (Z * list Z) := map snd (filter (fun e => e.1 = i) es).

(** The zones with what other requests hold and with the entries of this one. *)
Definition zones_are (zs : gmap Z (lc_zone S)) (es : entries) (others : Z -> list (Z * list Z)) : Prop :=
  forall i z, zs !! i = Some z -> exists A H, lc_is s area U z A H /\ H ≡ₚ of_zone i es ++ others i.

Definition cleanups (es : entries) : list pool_cleanup := map (fun e => LimitConn e.1 e.2.1) es.

(** The cleanups of other modules come after ours. *)
Definition apart (cln : list pool_cleanup) : Prop := match cln with LimitConn _ _ :: _ => False | _ => True end.

Lemma of_zone_cons i e es : of_zone i (e :: es) = if decide (e.1 = i) then e.2 :: of_zone i es else of_zone i es.
Proof. unfold of_zone. rewrite filter_cons. by case_decide. Qed.

Lemma lookup_set {X} (zs : gmap Z X) i z j x : <[i := z]> zs !! j = Some x -> j = i /\ x = z \/ j <> i /\ zs !! j = Some x.
Proof.
  destruct (decide (j = i)) as [->|Hne]; [rewrite lookup_insert_eq; intros [= <-]; by left|].
  rewrite lookup_insert_ne by done. by right.
Qed.

Lemma still_there {X} (zs : gmap Z X) i z j : is_Some (zs !! j) -> is_Some (<[i := z]> zs !! j).
Proof. destruct (decide (j = i)) as [->|]; [rewrite lookup_insert_eq; by eauto|by rewrite lookup_insert_ne]. Qed.

Lemma all_still_there (zs : gmap Z (lc_zone S)) i z (es : entries) :
  Forall (fun e => is_Some (zs !! e.1)) es -> Forall (fun e => is_Some (<[i := z]> zs !! e.1)) es.
Proof. intros H. eapply Forall_impl; [exact H|]. intros e. apply still_there. Qed.

Lemma cleanup_all_ok es cln zs others :
  zones_are zs es others -> Forall (fun e => is_Some (zs !! e.1)) es -> apart cln ->
  exists zs', ngx_http_limit_conn_cleanup_all (cleanups es ++ cln) zs = Some (cln, zs') /\ zones_are zs' [] others.
Proof.
  revert zs; induction es as [|[i [p key]] es IH]; intros zs Hzs Hin Ha; cbn [cleanups map app].
  { exists zs. split; [by destruct cln as [|[]]|done]. }
  apply Forall_cons in Hin as [[z Hz] Hin]. cbn [ngx_http_limit_conn_cleanup_all fst snd]. cbn [fst] in Hz. rewrite Hz.
  cbn [mbind option_bind]. destruct (Hzs i z Hz) as (A & H & HA & EH).
  rewrite of_zone_cons, decide_True in EH by done. cbn [snd app] in EH.
  destruct (lc_cleanup_ok s area U z A H p key _ HA EH) as (z' & A' & -> & HA'). cbn [mbind option_bind].
  destruct (IH (<[i := z']> zs)) as (zs' & E' & Hzs').
  - intros j x [[-> ->]|[Hne Hx]]%lookup_set; [by exists A', (of_zone i es ++ others i)|].
    destruct (Hzs j x Hx) as (B & K & HB & EK). exists B, K. split; [done|]. rewrite of_zone_cons, decide_False in EK by done. done.
  - by apply all_still_there.
  - done.
  - by exists zs'.
Qed.

Context (vv : Z -> option (list Z)).

(** The limits that apply to the request, with the key. *)
Definition applies (l : lc_limit) : option (list Z) :=
  match vv (lim_zone l) with Some data => if decide (lc_key data) then Some data else None | None => None end.

Definition applied (limits : list lc_limit) : list (Z * list Z) :=
  omap (fun l => (fun data => (lim_zone l, data)) <$> applies l) limits.

(** A limit is reached, or there is no memory for its key. *)
Definition stopped (others : Z -> list (Z * list Z)) (l : lc_limit) : Prop :=
  exists data, applies l = Some data /\
    (lim_conn l <= Z.of_nat (users data (others (lim_zone l))) \/ users data (others (lim_zone l)) = O).

Definition lc_outcome (status_code rc : Z) (limits : list lc_limit) (others : Z -> list (Z * list Z)) (es es' : entries)
    (cln : list pool_cleanup) (r' : lc_request) : Prop :=
  (rc = NGX_DECLINED /\ map (fun e => (e.1, e.2.2)) es' = rev (applied limits) ++ map (fun e => (e.1, e.2.2)) es /\
   r_cleanup r' = cleanups es' ++ cln) \/
  (rc = status_code /\ es' = [] /\ r_cleanup r' = cln /\ Exists (stopped others) limits).

Lemma lc_skip status_code add l limits r (zs : gmap Z (lc_zone S)) :
  applies l = None -> lc_loop status_code vv add (l :: limits) r zs = lc_loop status_code vv add limits r zs.
Proof.
  unfold applies, lc_key. cbn [lc_loop]. destruct (vv (lim_zone l)) as [data|]; [|done]. case_decide as Hd; [done|]. intros _.
  destruct (Z.of_nat (length data) =? 0) eqn:E0; [done|]. rewrite (proj2 (Z.ltb_lt 255 _)); [done|]. zify_bool. lia.
Qed.

Lemma users_perm key H H' : H ≡ₚ H' -> users key H = users key H'.
Proof. intros E'. unfold users. by rewrite E'. Qed.

Lemma of_zone_fresh i es : i ∉ map fst es -> of_zone i es = [].
Proof.
  intros Hi. unfold of_zone. replace (filter _ es) with (@nil (Z * (Z * list Z))); [done|]. symmetry.
  apply elem_of_nil_inv. intros e [<- He]%list_elem_of_filter. by apply Hi, list_elem_of_fmap_2.
Qed.

Lemma lc_stop_ok (zs : gmap Z (lc_zone S)) es others cln l (z' : lc_zone S) A' H :
  zones_are zs es others -> Forall (fun e => is_Some (zs !! e.1)) es -> apart cln -> lim_zone l ∉ map fst es ->
  lc_is s area U z' A' H -> H ≡ₚ others (lim_zone l) ->
  exists zs', ngx_http_limit_conn_cleanup_all (cleanups es ++ cln) (<[lim_zone l := z']> zs) = Some (cln, zs') /\
    zones_are zs' [] others.
Proof.
  intros Hzs Hes Ha Hfl HA' EH. apply cleanup_all_ok; [|by apply all_still_there|done].
  intros j x [[-> ->]|[Hne Hx]]%lookup_set; [exists A', H; by rewrite of_zone_fresh|by apply Hzs].
Qed.

Lemma lc_loop_ok status_code limits r zs es others cln :
  zones_are zs es others -> Forall (fun e => is_Some (zs !! e.1)) es -> apart cln ->
  Forall (fun l => is_Some (zs !! lim_zone l) /\ 1 <= lim_conn l <= 65535) limits ->
  NoDup (map lim_zone limits) -> (forall l, l ∈ limits -> lim_zone l ∉ map fst es) ->
  r_cleanup r = cleanups es ++ cln ->
  exists rc r' zs' es', lc_loop status_code vv (fun _ => true) limits r zs = Some (rc, r', zs') /\
    zones_are zs' es' others /\ Forall (fun e => is_Some (zs' !! e.1)) es' /\
    lc_outcome status_code rc limits others es es' cln r'.
Proof.
  revert r zs es; induction limits as [|l limits IH]; intros r zs es Hzs Hes Ha Hl Hnd Hfresh Er.
  { eexists NGX_DECLINED, r, zs, es. split_and!; [done..|]. by left. }
  apply Forall_cons in Hl as [[[z Hz] Hconn] Hl]. cbn [map] in Hnd. apply NoDup_cons in Hnd as [Hnl Hnd].
  assert (Hfl : lim_zone l ∉ map fst es) by (apply Hfresh; left).
  destruct (applies l) as [data|] eqn:Eap.
  - assert (Hd : vv (lim_zone l) = Some data /\ lc_key data).
    { unfold applies in Eap. destruct (vv (lim_zone l)); [|done]. case_decide; [|done]. by injection Eap as ->. }
    destruct Hd as [Hv Hk]. cbn [lc_loop]. rewrite Hv. cbv zeta. unfold lc_key in Hk.
    rewrite (proj2 (Z.eqb_neq _ 0)), (proj2 (Z.ltb_ge 255 _)) by lia. rewrite Hz. cbn [mbind option_bind].
    destruct (Hzs _ z Hz) as (A & H & HA & EH). rewrite of_zone_fresh in EH by done. cbn [app] in EH.
    destruct (lc_enter_ok s area U z A H (lim_conn l) data HA Hk Hconn) as (ans & z' & A' & -> & HA' & Hspec).
    cbn [mbind option_bind]. destruct ans as [p| |]; cbn [held_after] in HA'.
    + destruct (IH {| limit_conn_set := true; r_cleanup := LimitConn (lim_zone l) p :: r_cleanup r |}
        (<[lim_zone l := z']> zs) ((lim_zone l, (p, data)) :: es)) as (rc & r' & zs' & es' & E' & Hzs' & Hes' & Ho).
      * intros j x [[-> ->]|[Hne Hx]]%lookup_set.
        -- exists A', ((p, data) :: H). split; [done|]. rewrite of_zone_cons, decide_True by done. cbn [snd app].
           by rewrite of_zone_fresh, EH.
        -- rewrite of_zone_cons, decide_False by (cbn; congruence). by apply Hzs.
      * constructor; [cbn [fst]; rewrite lookup_insert_eq; by eauto|]. by apply all_still_there.
      * done.
      * rewrite Forall_forall in Hl |- *. intros l' Hl'. destruct (Hl l' Hl') as [Hz' Hc']. split; [|done].
        by apply still_there.
      * done.
      * intros l' Hl'. cbn [map fst]. rewrite elem_of_cons. intros [E|E].
        -- apply Hnl. rewrite <- E. by apply list_elem_of_fmap_2.
        -- apply (Hfresh l'); [by right|done].
      * cbn. by rewrite Er.
      * eexists _, _, _, _. split_and!; [exact E'|exact Hzs'|exact Hes'|]. destruct Ho as [(-> & Em & Ec)|(-> & -> & Ec & Hex)].
        -- left. split_and!; [done| |done]. unfold applied. cbn [omap list_omap]. rewrite Eap. cbn [fmap option_fmap option_map rev].
           rewrite Em. cbn [map fst snd]. by rewrite <- app_assoc.
        -- right. split_and!; [done..|]. by right.
    + destruct (lc_stop_ok zs es others cln l z' A' H) as (zs' & E' & Hzs'); [done..|].
      cbn [r_cleanup]. rewrite Er, E'. cbn [mbind option_bind]. eexists _, _, zs', []. split_and!; [done|done|constructor|].
      right. split_and!; [done..|]. left. exists data. split; [done|]. left. cbn in Hspec. by rewrite <- (users_perm data H _ EH).
    + destruct (lc_stop_ok zs es others cln l z' A' H) as (zs' & E' & Hzs'); [done..|].
      cbn [r_cleanup]. rewrite Er, E'. cbn [mbind option_bind]. eexists _, _, zs', []. split_and!; [done|done|constructor|].
      right. split_and!; [done..|]. left. exists data. split; [done|]. right. cbn in Hspec. by rewrite <- (users_perm data H _ EH).
  - rewrite lc_skip by done. destruct (IH r zs es) as (rc & r' & zs' & es' & E' & Hzs' & Hes' & Ho); try done.
    { intros l' Hl'. apply Hfresh. by right. }
    exists rc, r', zs', es'. split_and!; [done..|]. destruct Ho as [(-> & Em & Ec)|(-> & -> & Ec & Hex)].
    + left. split_and!; [done| |done]. unfold applied. cbn [omap list_omap]. by rewrite Eap.
    + right. split_and!; [done..|]. by right.
Qed.
End Handler.

(** The handler of the limit on connections does not fault.  When it lets
    the request pass, the request holds one node for the key of each limit that
    applies to it and has a cleanup for each; when it refuses the request, the
    limit of a zone is reached by other requests or there is no memory for a new
    key, and nothing is held any more; and in both cases the cleanups of the
    request leave the zones with what the other requests hold. *)
Theorem limit_conn_handler {S : Type} `{!SlabPool S} s area U `{!SlabLaws S area} status_code vv limits cln zs others :
  zones_are s area U zs [] others -> apart cln ->
  Forall (fun l => is_Some (zs !! lim_zone l) /\ 1 <= lim_conn l <= 65535) limits -> NoDup (map lim_zone limits) ->
  let r := {| limit_conn_set := false; r_cleanup := cln |} in
  exists rc r' zs' es, ngx_http_limit_conn_handler status_code vv (fun _ => true) limits r zs = Some (rc, r', zs') /\
    zones_are s area U zs' es others /\ lc_outcome vv status_code rc limits others [] es cln r' /\
    exists zs'', ngx_http_limit_conn_cleanup_all (r_cleanup r') zs' = Some (cln, zs'') /\ zones_are s area U zs'' [] others.
Proof.
  intros Hzs Ha Hl Hnd r. unfold ngx_http_limit_conn_handler. cbn [limit_conn_set r].
  destruct (lc_loop_ok s area U vv status_code limits r zs [] others cln) as (rc & r' & zs' & es & E' & Hzs' & Hes' & Ho);
    try done. { intros l Hin. apply not_elem_of_nil. }
  exists rc, r', zs', es. split_and!; [done..|].
  destruct Ho as [(_ & _ & ->)|(_ & -> & -> & _)]; [by apply cleanup_all_ok|].
  by apply (cleanup_all_ok s area U []).
Qed.

(** ** Samples *)

(** Three cells in a zone whose sentinel is at address 1. *)
Definition sample_area : gset Z := {[2; 3; 4]}.

#[local] Instance sample_pool : SlabPool (gset Z) := cell_pool sample_area.

Definition sample_mem : gmap Z rb_node := list_to_map (map (fun a => (a, rb_blank 0)) [1; 2; 3; 4]).

Definition sample_nodes : gmap Z lc_node :=
  list_to_map (map (fun a => (a, {| lc_len := 0; lc_conn := 0; lc_data := [] |})) [2; 3; 4]).

Definition sample_zone : lc_zone (gset Z) :=
  default {| lc_tree := {| rb_mem := ∅; rb_root := 0; rb_sentinel := 0 |}; lc_nodes := ∅; lc_pool := ∅ |}
    (lc_zone_init sample_mem sample_nodes 1 ∅).

Lemma sample_zone_is : lc_is 1 sample_area ∅ sample_zone [] [].
Proof.
  constructor; try (by intros ? ?%elem_of_nil); try (by intros ? ? ?%elem_of_nil); [|done].
  apply (keyed_init lc_data lc_len 1 sample_area sample_mem (rb_blank 0) [(2, rb_blank 0); (3, rb_blank 0); (4, rb_blank 0)]).
  - split; [cbn; apply NoDup_ListNoDup; repeat constructor; cbn; lia|repeat constructor].
  - intros a. unfold sample_area. cbn [map fst].
    rewrite !elem_of_union, !elem_of_singleton, !elem_of_cons, elem_of_nil. tauto.
  - intros a Ha. unfold sample_area in Ha. rewrite !elem_of_union, !elem_of_singleton in Ha.
    destruct Ha as [[->| ->]| ->]; by eexists.
  - vm_compute. reflexivity.
Qed.

(** Two requests with one key and one with another. *)
Definition sample_run : option (list lc_answer * lc_zone (gset Z)) :=
  '(a1, z) ← lc_enter 2 (B! "10.0.0.1") sample_zone;
  '(a2, z) ← lc_enter 2 (B! "10.0.0.2") z;
  '(a3, z) ← lc_enter 2 (B! "10.0.0.1") z;
  '(a4, z) ← lc_enter 2 (B! "10.0.0.1") z;
  Some ([a1; a2; a3; a4], z).

Definition sample_busy : lc_zone (gset Z) := default sample_zone (snd <$> sample_run).

Example sample_run_answers : fst <$> sample_run = Some [Entered 3; Entered 4; Entered 3; Refused].
Proof. by vm_compute. Qed.

Lemma limit_conn_interleaved_witness :
  let H := [(3, B! "10.0.0.1"); (4, B! "10.0.0.2"); (3, B! "10.0.0.1")] in
  (forall key, Z.of_nat (users key H) <= 2) /\
  (forall limit data, 1 <= limit <= 2 -> lc_key data -> exists ans z',
     lc_enter limit data sample_busy = Some (ans, z') /\
     (ans = Refused <-> limit <= Z.of_nat (users data H)) /\ (ans = NoMemory -> users data H = O)) /\
  (forall p key, (p, key) ∈ H -> is_Some (ngx_http_limit_conn_cleanup p sample_busy)) /\
  slab_used (lc_pool sample_busy) = ∅ ∪ list_to_set (map fst H).
Proof.
  apply (limit_conn_interleaved 1 sample_area ∅ 2 sample_zone sample_busy); [lia|exact sample_zone_is|].
  eapply rtc_l; [eapply (step_enter 2 2 (B! "10.0.0.1") _ _ (Entered 3)); [lia|unfold lc_key; cbn; lia|vm_compute; reflexivity]|].
  eapply rtc_l; [eapply (step_enter 2 2 (B! "10.0.0.2") _ _ (Entered 4)); [lia|unfold lc_key; cbn; lia|vm_compute; reflexivity]|].
  eapply rtc_l; [eapply (step_enter 2 2 (B! "10.0.0.1") _ _ (Entered 3)); [lia|unfold lc_key; cbn; lia|vm_compute; reflexivity]|].
  eapply rtc_l; [eapply (step_enter 2 2 (B! "10.0.0.1") _ _ Refused); [lia|unfold lc_key; cbn; lia|vm_compute; reflexivity]|].
  cbn [held_after]. match goal with |- rtc _ (?z, _) _ => replace z with sample_busy by (by vm_compute) end. apply rtc_refl.
Defined.

(** A request with two limits, on the key of the client and on the whole
    server. *)
Definition sample_vv (zone : Z) : option (list Z) := if zone =? 7 then Some (B! "10.0.0.1") else Some (B! "example.org").
Definition sample_limits : list lc_limit := [{| lim_zone := 7; lim_conn := 2 |}; {| lim_zone := 8; lim_conn := 100 |}].
Definition sample_zones : gmap Z (lc_zone (gset Z)) := {[ 7 := sample_zone; 8 := sample_zone ]}.

Lemma limit_conn_handler_witness :
  exists rc r' zs' es,
    ngx_http_limit_conn_handler 503 sample_vv (fun _ => true) sample_limits
      {| limit_conn_set := false; r_cleanup := [OtherCleanup] |} sample_zones = Some (rc, r', zs') /\
    zones_are 1 sample_area ∅ zs' es (fun _ => []) /\
    lc_outcome sample_vv 503 rc sample_limits (fun _ => []) [] es [OtherCleanup] r' /\
    exists zs'', ngx_http_limit_conn_cleanup_all (r_cleanup r') zs' = Some ([OtherCleanup], zs'') /\
      zones_are 1 sample_area ∅ zs'' [] (fun _ => []).
Proof.
  apply (limit_conn_handler 1 sample_area ∅ 503 sample_vv sample_limits [OtherCleanup] sample_zones (fun _ => [])); [|done|..].
  - intros i z Hz. exists [], []. split; [|done]. unfold sample_zones in Hz.
    apply lookup_set in Hz as [[-> ->]|[_ Hz]]; [exact sample_zone_is|].
    apply lookup_singleton_Some in Hz as [_ <-]. exact sample_zone_is.
  - repeat constructor; cbn; try lia; by eexists.
  - apply (bool_decide_unpack _). by vm_compute.
Defined.

(** When there is no memory for the cleanup, the handler answers with an error
    and leaves the node counted, with no cleanup that would release it. *)
Example limit_conn_leak :
  match ngx_http_limit_conn_handler 503 sample_vv (fun _ => false) sample_limits
    {| limit_conn_set := false; r_cleanup := [] |} sample_zones with
  | Some (rc, r, zs) =>
      rc = NGX_HTTP_INTERNAL_SERVER_ERROR /\ r_cleanup r = [] /\
      lc_conn <$> (zs !! 7 ≫= fun z => lc_nodes z !! 3) = Some 1
  | None => False
  end.
Proof. by vm_compute. Qed.
