(* ===== verification/HttpLimitConnZone.v ===== *)
(** * A zone of connection counts in a slab pool

    The set-up of a zone of ngx_http_limit_conn_module.c in new shared memory, and
    the limit on connections over the slab allocator of [NgxSlab]: the theorems of
    [HttpLimitConn] hold of every allocator with the laws of [NgxKeyTree], and
    [NgxSlabPool] proves that this one has them. *)
From stdpp Require Import gmap relations.
From S2P Require Import Prelude NgxCrc32 NgxMemory NgxRbtree NgxRbtreeLogic NgxRbtreeInsert NgxKeyTree NgxSlab NgxSlabInv NgxSlabPages NgxSlabAlloc NgxSlabFree NgxSlabPool HttpLimitConn.

#[local] Set Warnings "-register-all,-clear-no-such-hyp".
#[local] Existing Instance slab_zone.

(** The addresses of [ctx->rbtree], of the sentinel and of [shpool->log_ctx]; no
    addresses are NGX_ERROR.
    [http/modules/ngx_http_limit_conn_module.c:437-462] ngx_http_limit_conn_init_zone *)
Definition lc_zone_alloc (name_len : Z) (s : slab_pool) : option (option (Z * Z * Z) * slab_pool) :=
  '(rbtree, s) ← ngx_slab_alloc_locked 24 s;
  match rbtree with
  | None => Some (None, s)
  | Some rbtree =>
      '(sentinel, s) ← ngx_slab_alloc_locked 40 s;
      match sentinel with
      | None => Some (None, s)
      | Some sentinel =>
          '(log_ctx, s) ← ngx_slab_alloc_locked (23 + name_len) s;
          match log_ctx with
          | None => Some (None, s)
          | Some log_ctx => Some (Some (rbtree, sentinel, log_ctx), s)
          end
      end
  end.

(** The three blocks, and no other, are in use. *)
Lemma lc_zone_alloc_ok words min_shift p end_ name_len rbtree sentinel log_ctx s :
  3 <= min_shift <= 11 -> 0 <= p -> p + 3 * (4096 + 24) <= end_ -> end_ < 2 ^ 59 -> 0 <= name_len ->
  lc_zone_alloc name_len (ngx_slab_init words min_shift p end_) = Some (Some (rbtree, sentinel, log_ctx), s) ->
  slab_ok s /\ forall q, live s q = true <-> q ∈ ({[rbtree; sentinel; log_ctx]} : gset Z).
Proof.
  intros H1 H2 H3 H4 Hn E. pose proof (slab_init_rep words _ _ _ H1 H2 H3 H4) as Hr. unfold lc_zone_alloc in E. set (s0 := ngx_slab_init _ _ _ _) in *.
  assert (Hstep : forall size s H q s', slab_rep s0 s H -> 0 <= size -> ngx_slab_alloc_locked size s = Some (Some q, s') -> slab_rep s0 s' (<[q := size]> H)).
  { intros size s1 H q s' Hs Hz Es. destruct (rep_alloc _ _ _ _ Hs Hz) as (r & s2 & E2 & Hx). rewrite Es in E2. injection E2 as <- <-. apply Hx. }
  destruct (ngx_slab_alloc_locked 24 s0) as [[[a|] s1]|] eqn:E1; cbn [mbind option_bind] in E; [|done..].
  destruct (ngx_slab_alloc_locked 40 s1) as [[[b|] s2]|] eqn:E2; cbn [mbind option_bind] in E; [|done..].
  destruct (ngx_slab_alloc_locked (23 + name_len) s2) as [[[c|] s3]|] eqn:E3; cbn [mbind option_bind] in E; [|done..].
  injection E as -> -> -> ->. eapply Hstep in E1; [|done|lia]. eapply Hstep in E2; [|done|lia]. eapply Hstep in E3; [|done|lia].
  destruct E3 as [[Hok _] [Hl _]]. split; [done|]. intros q. rewrite Hl, !lookup_insert_is_Some, lookup_empty.
  rewrite !elem_of_union, !elem_of_singleton. split; [|intros; destruct (decide (log_ctx = q)), (decide (sentinel = q)), (decide (rbtree = q)); naive_solver].
  intros [|[_ [|[_ [|[_ [? ?]]]]]]]; naive_solver.
Qed.

(** A new zone over memory with a cell for every address. *)
Lemma lc_zone_new {S} `{!SlabPool S} s area U mem (ns : gmap Z lc_node) (sp : S) :
  s ∉ area -> dom mem = {[s]} ∪ area -> dom ns = area -> slab_used sp = U ->
  exists z0, lc_zone_init mem ns s sp = Some z0 /\ lc_is s area U z0 [] [].
Proof.
  intros Hs Hm Hns HU. assert (is_Some (mem !! s)) as [n Hn] by (apply elem_of_dom; rewrite Hm; set_solver). unfold lc_zone_init.
  destruct (ngx_rbtree_init mem s) as [tree|] eqn:Et; [|unfold ngx_rbtree_init in Et; by rewrite Hn in Et].
  eexists. split; [reflexivity|]. constructor; cbn; try (by intros ? ?%elem_of_nil); try (by intros ? ? ?%elem_of_nil).
  - eapply (keyed_init _ _ s area mem n (map_to_list (delete s mem))); [| | |exact Et].
    + rewrite (map_to_list_delete mem s n Hn). split; [apply NoDup_fst_map_to_list|]. apply Forall_forall. intros [a x] Hx. by apply elem_of_map_to_list in Hx.
    + intros a. rewrite list_elem_of_fmap. split.
      * intros Ha. assert (is_Some (mem !! a)) as [x Hx] by (apply elem_of_dom; rewrite Hm; set_solver).
        exists (a, x). split; [done|]. apply elem_of_map_to_list, lookup_delete_Some. split; [|done]. by intros <-.
      * intros ([a' x] & -> & [Hne Hx]%elem_of_map_to_list%lookup_delete_Some). cbn.
        assert (a' ∈ dom mem) by (by eapply elem_of_dom_2). set_solver.
    + intros a Ha. apply elem_of_dom. by rewrite Hns.
  - rewrite HU. by rewrite union_empty_r_L.
Qed.

(** C12: a zone that is set up in new shared memory of any size works with the slab allocator itself: however the requests of all workers interleave, no step faults, never more than the limit of requests with one key are in progress, a request is refused exactly when as many as its limit are, memory runs out only for a key that no request has, and when the last request is done only the three blocks of the set-up are in use. *)
Theorem limit_conn_slab words min_shift p end_ name_len rbtree sentinel log_ctx s :
  3 <= min_shift <= 11 -> 0 <= p -> p + 3 * (4096 + 24) <= end_ -> end_ < 2 ^ 59 -> 0 <= name_len ->
  lc_zone_alloc name_len (ngx_slab_init words min_shift p end_) = Some (Some (rbtree, sentinel, log_ctx), s) ->
  let K : gset Z := {[rbtree; sentinel; log_ctx]} in
  exists Hs : zone_ok s K s, forall mem ns, dom mem = {[sentinel]} ∪ slab_area s K -> dom ns = slab_area s K ->
  exists z0, lc_zone_init mem ns sentinel (exist _ s Hs : pool_state s K) = Some z0 /\
  forall m z H, 1 <= m <= 65535 -> rtc (lc_step m) (z0, []) (z, H) ->
  (forall key, Z.of_nat (users key H) <= m) /\
  (forall limit data, 1 <= limit <= m -> lc_key data -> exists ans z',
     lc_enter limit data z = Some (ans, z') /\
     (ans = Refused <-> limit <= Z.of_nat (users data H)) /\ (ans = NoMemory -> users data H = O)) /\
  (forall a key, (a, key) ∈ H -> is_Some (ngx_http_limit_conn_cleanup a z)) /\
  (H = [] -> forall q, live (proj1_sig (lc_pool z)) q = true <-> q ∈ K).
Proof.
  intros H1 H2 H3 H4 Hn E K. destruct (lc_zone_alloc_ok _ _ _ _ _ _ _ _ _ H1 H2 H3 H4 Hn E) as [Hok Hl]. fold K in Hl.
  assert (Hs : zone_ok s K s) by (split_and!; [done|unfold same_params; by split_and!|intros k; apply Hl]). exists Hs. intros mem ns Hm Hns.
  set (sp := exist _ s Hs : pool_state s K). assert (HU : slab_used sp = ∅).
  { apply set_eq. intros q. rewrite slab_used_spec. change (`sp) with s. rewrite Hl. set_solver. }
  assert (Hsa : sentinel ∉ slab_area s K) by (rewrite slab_area_spec; unfold K; set_solver).
  destruct (lc_zone_new sentinel (slab_area s K) ∅ mem ns sp Hsa Hm Hns HU) as (z0 & Ez & Hz). exists z0. split; [done|]. intros m z H Hr Hrun.
  destruct (lc_inv_correct sentinel (slab_area s K) ∅ m Hr z H (lc_run_inv sentinel (slab_area s K) ∅ m Hr z0 z H Hz Hrun)) as (C1 & C2 & C3 & C4).
  split_and!; [done..|]. intros EH q. apply C4 in EH. assert (Hq : q ∉ slab_used (lc_pool z)) by (rewrite EH; set_solver).
  rewrite slab_used_spec in Hq. split; [intros Hlv; destruct (decide (q ∈ K)); tauto|]. apply (proj2_sig (lc_pool z)).
Qed.

(** ** Samples *)

Definition zone_pool : slab_pool :=
  match lc_zone_alloc 3 (ngx_slab_init (fun _ => 5) 3 200 (4 * 4096)) with Some (_, s) => s | None => slab_sample end.

Example zone_pool_blocks : lc_zone_alloc 3 (ngx_slab_init (fun _ => 5) 3 200 (4 * 4096)) = Some (Some (4128, 8192, 4160), zone_pool).
Proof. vm_compute. reflexivity. Qed.

Definition zone_blocks : gset Z := {[4128; 8192; 4160]}.

(** A request enters a new zone. *)
Lemma limit_conn_slab_witness :
  exists (sp : pool_state zone_pool zone_blocks) z0 ans z',
    lc_zone_init (gset_to_gmap (rb_blank 0) ({[8192]} ∪ slab_area zone_pool zone_blocks))
      (gset_to_gmap {| lc_len := 0; lc_conn := 0; lc_data := [] |} (slab_area zone_pool zone_blocks)) 8192 sp = Some z0 /\
    lc_enter 1 [65] z0 = Some (ans, z') /\ ans <> Refused.
Proof.
  destruct (limit_conn_slab (fun _ => 5) 3 200 (4 * 4096) 3 4128 8192 4160 zone_pool ltac:(lia) ltac:(lia) ltac:(lia) ltac:(lia) ltac:(lia) zone_pool_blocks) as [Hs Hx].
  destruct (Hx _ _ (dom_gset_to_gmap ({[8192]} ∪ slab_area zone_pool zone_blocks) (rb_blank 0))
    (dom_gset_to_gmap (slab_area zone_pool zone_blocks) {| lc_len := 0; lc_conn := 0; lc_data := [] |})) as (z0 & Ez & Hrun).
  destruct (Hrun 1 z0 [] ltac:(lia) (rtc_refl _ _)) as (_ & He & _). destruct (He 1 [65] ltac:(lia) ltac:(unfold lc_key; cbn; lia)) as (ans & z' & E & Hr & _).
  exists (exist _ zone_pool Hs), z0, ans, z'. split_and!; [done|done|]. intros Ha%Hr. cbn in Ha. lia.
Defined.
