(* ===== verification/HttpLimitReq.v ===== *)
(** * The limit on the rate of requests

    src/nginx-1.4.7/src/http/modules/ngx_http_limit_req_module.c: a leaky bucket
    per key, in nodes that are both in a red-black tree and in a queue in the
    order of their last use, in shared memory.  The handler looks up one node
    for each limit, holding the nodes of all but the last by their counts, and
    then either accounts the request in all of them or drops them again.  The
    workers interleave at the critical sections under the mutexes of the zones,
    so the handler is a machine of which each step has at most one critical
    section.

    The node of a tree and the link in the queue are parts of one block; here
    they have one address. *)
From stdpp Require Import gmap list_tactics sorting relations.
From S2P Require Import Prelude NgxCrc32 NgxStrings NgxMemory NgxQueue NgxRbtree NgxRbtreeLogic NgxRbtreeInsert NgxRbtreeDelete NgxKeyTree.

#[local] Set Warnings "-clear-no-such-hyp".

(** [http/modules/ngx_http_limit_req_module.c:13-23] ngx_http_limit_req_node_t *)
Record lr_node : Type := { lr_len : Z; lr_last : Z; lr_excess : Z; lr_count : Z; lr_data : list Z }.

(** [http/modules/ngx_http_limit_req_module.c:325-363] ngx_http_limit_req_rbtree_insert_value *)
Definition ngx_http_limit_req_rbtree_insert_value (ns : gmap Z lr_node) : Z -> Z -> M unit :=
  rb_insert_leaf (key_less lr_data lr_len ns).

(** What the bucket has after one more request at [now].
    [http/modules/ngx_http_limit_req_module.c:409-415] excess *)
Definition lr_bucket (rate now : Z) (lr : lr_node) : Z :=
  let ms := s64 (now - lr_last lr) in
  let excess := s64 (lr_excess lr - u64 (rate * ngx_abs ms) / 1000 + 1000) in
  if excess <? 0 then 0 else excess.

(** Whether a node has been idle long enough to be deleted.
    [http/modules/ngx_http_limit_req_module.c:596-607] ms *)
Definition lr_idle (rate now : Z) (lr : lr_node) : bool :=
  let ms := ngx_abs (s64 (now - lr_last lr)) in
  if ms <? 60000 then false
  else
    let excess := s64 (lr_excess lr - u64 (rate * ms) / 1000) in
    negb (0 <? excess).

Section Zone.
Context {S : Type} `{!SlabPool S}.

(** What is in the shared memory of a zone; [lr_head] is the address of the
    queue.
    [http/modules/ngx_http_limit_req_module.c:26-30] ngx_http_limit_req_shctx_t *)
Record lr_zone : Type :=
  { lr_tree : rb_tree; lr_links : gmap Z ngx_queue_t; lr_head : Z; lr_nodes : gmap Z lr_node; lr_pool : S }.

(** The node at [q] leaves the queue, the tree and the memory.
    [http/modules/ngx_http_limit_req_module.c:610-617] ngx_queue_remove(q) *)
Definition lr_remove (q : Z) (z : lr_zone) : option lr_zone :=
  links ← ngx_queue_remove q (lr_links z);
  match ngx_rbtree_delete q (lr_tree z) with
  | Some (_, tree) =>
      Some {| z with lr_tree := tree; lr_links := links; lr_pool := slab_free q (lr_pool z) |}
  | None => None
  end.

(** [rounds] is [3 - n].
    [http/modules/ngx_http_limit_req_module.c:574-618] while (n < 3) *)
Fixpoint lr_expire_loop (rate now : Z) (rounds : nat) (n : Z) (z : lr_zone) : option lr_zone :=
  match rounds with
  | O => Some z
  | Datatypes.S rounds =>
      empty ← ngx_queue_empty (lr_head z) (lr_links z);
      if empty : bool then Some z
      else
        q ← ngx_queue_last (lr_head z) (lr_links z);
        lr ← lr_nodes z !! q;
        if negb (lr_count lr =? 0) then Some z
        else if negb (n =? 0) && negb (lr_idle rate now lr) then Some z
        else z ← lr_remove q z; lr_expire_loop rate now rounds (n + 1) z
  end.

(** [http/modules/ngx_http_limit_req_module.c:553-619] ngx_http_limit_req_expire *)
Definition ngx_http_limit_req_expire (rate now n : Z) (z : lr_zone) : option lr_zone :=
  lr_expire_loop rate now (Z.to_nat (3 - n)) n z.

(** The node of the key was found at [node]: the answer, the excess, and
    whether the node is held for [ctx->node].
    [http/modules/ngx_http_limit_req_module.c:405-434] if (rc == 0) *)
Definition lr_found (rate burst now : Z) (account : bool) (node : Z) (z : lr_zone) : option (Z * Z * option Z * lr_zone) :=
  links ← ngx_queue_remove node (lr_links z);
  links ← ngx_queue_insert_head (lr_head z) node links;
  let z := {| z with lr_links := links |} in
  lr ← lr_nodes z !! node;
  let excess := lr_bucket rate now lr in
  if burst <? excess then Some (NGX_BUSY, excess, None, z)
  else if account then
    let lr := {| lr with lr_excess := excess; lr_last := now |} in
    Some (NGX_OK, excess, None, {| z with lr_nodes := <[node := lr]> (lr_nodes z) |})
  else
    let lr := {| lr with lr_count := u64 (lr_count lr + 1) |} in
    Some (NGX_AGAIN, excess, Some node, {| z with lr_nodes := <[node := lr]> (lr_nodes z) |}).

(** A new node at [node], in memory of the pool.
    [http/modules/ngx_http_limit_req_module.c:458-482] node->key = hash *)
Definition lr_create (now : Z) (account : bool) (hash : Z) (data : list Z) (node : Z) (z : lr_zone)
    : option (Z * Z * option Z * lr_zone) :=
  let lr := {| lr_len := u8 (Z.of_nat (length data)); lr_excess := 0; lr_data := data;
               lr_last := if account then now else 0; lr_count := if account then 0 else 1 |} in
  let ns := <[node := lr]> (lr_nodes z) in
  match (wr (fun n => {| n with rb_key := hash |}) node ;;;
         ngx_rbtree_insert (ngx_http_limit_req_rbtree_insert_value ns) node) (lr_tree z) with
  | Some (_, tree) =>
      links ← ngx_queue_insert_head (lr_head z) node (lr_links z);
      let z := {| z with lr_tree := tree; lr_links := links; lr_nodes := ns |} in
      if account then Some (NGX_OK, 0, None, z) else Some (NGX_AGAIN, 0, Some node, z)
  | None => None
  end.

(** The key has no node.
    [http/modules/ngx_http_limit_req_module.c:439-456] size *)
Definition lr_absent (rate now : Z) (account : bool) (hash : Z) (data : list Z) (z : lr_zone)
    : option (Z * Z * option Z * lr_zone) :=
  let size := 80 + Z.of_nat (length data) in
  z ← ngx_http_limit_req_expire rate now 1 z;
  match slab_alloc size (lr_pool z) with
  | (Some node, sp) => lr_create now account hash data node {| z with lr_pool := sp |}
  | (None, sp) =>
      z ← ngx_http_limit_req_expire rate now 0 {| z with lr_pool := sp |};
      match slab_alloc size (lr_pool z) with
      | (Some node, sp) => lr_create now account hash data node {| z with lr_pool := sp |}
      | (None, sp) => Some (NGX_ERROR, 0, None, {| z with lr_pool := sp |})
      end
  end.

(** The answer, [*ep], what [ctx->node] becomes if it changes, and the zone.
    [http/modules/ngx_http_limit_req_module.c:366-483] ngx_http_limit_req_lookup *)
Definition ngx_http_limit_req_lookup (rate burst now : Z) (account : bool) (hash : Z) (data : list Z) (z : lr_zone)
    : option (Z * Z * option Z * lr_zone) :=
  match key_find lr_data lr_len (lr_nodes z) hash data (lr_tree z) with
  | None => None
  | Some (Some node, _) => lr_found rate burst now account node z
  | Some (None, _) => lr_absent rate now account hash data z
  end.

(** One more request in a node that is held: the excess it has then.
    [http/modules/ngx_http_limit_req_module.c:515-532] ngx_shmtx_lock(&ctx->shpool->mutex) *)
Definition lr_account_node (rate now node : Z) (z : lr_zone) : option (Z * lr_zone) :=
  lr ← lr_nodes z !! node;
  let excess := lr_bucket rate now lr in
  let lr := {| lr with lr_last := now; lr_excess := excess; lr_count := u64 (lr_count lr - 1) |} in
  Some (excess, {| z with lr_nodes := <[node := lr]> (lr_nodes z) |}).

(** [http/modules/ngx_http_limit_req_module.c:252-256] ctx->node->count-- *)
Definition lr_drop_node (node : Z) (z : lr_zone) : option lr_zone :=
  lr ← lr_nodes z !! node;
  let lr := {| lr with lr_count := u64 (lr_count lr - 1) |} in
  Some {| z with lr_nodes := <[node := lr]> (lr_nodes z) |}.

(** A new zone, with its sentinel and the head of its queue.
    [http/modules/ngx_http_limit_req_module.c:662-665] ngx_rbtree_init *)
Definition lr_zone_init (mem : gmap Z rb_node) (links : gmap Z ngx_queue_t) (ns : gmap Z lr_node) (sentinel queue : Z) (sp : S)
    : option lr_zone :=
  tree ← ngx_rbtree_init mem sentinel;
  links ← ngx_queue_init queue links;
  Some {| lr_tree := tree; lr_links := links; lr_head := queue; lr_nodes := ns; lr_pool := sp |}.
End Zone.
Arguments lr_zone : clear implicits.

(** ** The handler *)

(** [http/modules/ngx_http_limit_req_module.c:44-49] ngx_http_limit_req_limit_t *)
Record lr_limit : Type := { rl_zone : Z; rl_burst : Z; rl_nodelay : bool }.

(** Where a worker is in the handler; the number is [n], the index of the
    limit, of which those below are done in the first loop and to be done in the
    other two. *)
Inductive lr_pc : Type :=
| Looking (n : nat) (rc excess : Z)
| Dropping (n : nat)
| Accounting (n : nat) (max_delay : Z)
| Finished (rc delay : Z).

(** A worker with its request: the limits of the location, the values of the
    variables of the zones, the code for refused requests, [limit_req_set] of the
    main request, and [ctx->node] of each zone, which every worker has for
    itself. *)
Record lr_worker : Type := {
  w_limits : list lr_limit; w_vv : Z -> option (list Z); w_status : Z;
  w_pc : lr_pc; w_set : bool; w_node : gmap Z Z
}.

Section Handler.
Context {S : Type} `{!SlabPool S} (rate : Z -> Z).
Abbreviation zones := (gmap Z (lr_zone S)) (only parsing).

(** The delay by the limit that ended the search.
    [http/modules/ngx_http_limit_req_module.c:497-505] excess = *ep *)
Definition lr_first_delay (limit : option lr_limit) (excess : Z) : Z :=
  match limit with
  | Some l => if (excess =? 0) || rl_nodelay l then 0 else u64 (excess * 1000) / rate (rl_zone l)
  | None => 0
  end.

(** After the loop.
    [http/modules/ngx_http_limit_req_module.c:230-270] if (rc == NGX_DECLINED) *)
Definition lr_conclude (n : nat) (rc excess : Z) (w : lr_worker) : lr_worker :=
  if rc =? NGX_DECLINED then {| w with w_pc := Finished NGX_DECLINED 0 |}
  else if (rc =? NGX_BUSY) || (rc =? NGX_ERROR) then {| w with w_pc := Dropping n; w_set := true |}
  else
    let excess := if rc =? NGX_AGAIN then 0 else excess in
    {| w with w_pc := Accounting n (lr_first_delay (w_limits w !! n) excess); w_set := true |}.

(** One turn of the first loop.
    [http/modules/ngx_http_limit_req_module.c:186-228] for *)
Definition lr_look (now : Z) (n : nat) (rc excess : Z) (w : lr_worker) (zs : zones) : option (lr_worker * zones) :=
  match w_limits w !! n with
  | None => Some (lr_conclude n rc excess w, zs)
  | Some l =>
      match w_vv w (rl_zone l) with
      | None => Some ({| w with w_pc := Looking (Datatypes.S n) rc excess |}, zs)
      | Some data =>
          let len := Z.of_nat (length data) in
          if len =? 0 then Some ({| w with w_pc := Looking (Datatypes.S n) rc excess |}, zs)
          else if 65535 <? len then Some ({| w with w_pc := Looking (Datatypes.S n) rc excess |}, zs)
          else
            z ← zs !! rl_zone l;
            '(rc, excess, node, z) ← ngx_http_limit_req_lookup (rate (rl_zone l)) (rl_burst l) now
              (n =? length (w_limits w) - 1)%nat (ngx_crc32_short data) data z;
            let zs := <[rl_zone l := z]> zs in
            let w := match node with Some p => {| w with w_node := <[rl_zone l := p]> (w_node w) |} | None => w end in
            if negb (rc =? NGX_AGAIN) then Some (lr_conclude n rc excess w, zs)
            else Some ({| w with w_pc := Looking (Datatypes.S n) rc excess |}, zs)
      end
  end.

(** One turn of the loop after a refusal.
    [http/modules/ngx_http_limit_req_module.c:245-261] while (n--) *)
Definition lr_drop (n : nat) (w : lr_worker) (zs : zones) : option (lr_worker * zones) :=
  match n with
  | O => Some ({| w with w_pc := Finished (w_status w) 0 |}, zs)
  | Datatypes.S n =>
      l ← w_limits w !! n;
      match w_node w !! rl_zone l with
      | None => Some ({| w with w_pc := Dropping n |}, zs)
      | Some p =>
          z ← zs !! rl_zone l;
          z ← lr_drop_node p z;
          Some ({| w with w_pc := Dropping n; w_node := delete (rl_zone l) (w_node w) |}, <[rl_zone l := z]> zs)
      end
  end.

(** One turn of the loop of [ngx_http_limit_req_account], and the end of the
    handler.
    [http/modules/ngx_http_limit_req_module.c:507-549] while (n--) *)
Definition lr_account (now : Z) (n : nat) (max_delay : Z) (w : lr_worker) (zs : zones) : option (lr_worker * zones) :=
  match n with
  | O => Some ({| w with w_pc := if max_delay =? 0 then Finished NGX_DECLINED 0 else Finished NGX_AGAIN max_delay |}, zs)
  | Datatypes.S n =>
      l ← w_limits w !! n;
      match w_node w !! rl_zone l with
      | None => Some ({| w with w_pc := Accounting n max_delay |}, zs)
      | Some p =>
          z ← zs !! rl_zone l;
          '(excess, z) ← lr_account_node (rate (rl_zone l)) now p z;
          let delay := if rl_nodelay l then 0 else u64 (excess * 1000) / rate (rl_zone l) in
          let max_delay := if max_delay <? delay then delay else max_delay in
          Some ({| w with w_pc := Accounting n max_delay; w_node := delete (rl_zone l) (w_node w) |}, <[rl_zone l := z]> zs)
      end
  end.

(** The handler from one critical section to the next; the result is the code
    and the delay of the timer.  The failure of [ngx_handle_read_event] is left
    out.
    [http/modules/ngx_http_limit_req_module.c:158-289] ngx_http_limit_req_handler *)
Definition ngx_http_limit_req_handler (now : Z) (w : lr_worker) (zs : zones) : option (lr_worker * zones) :=
  match w_pc w with
  | Looking n rc excess => lr_look now n rc excess w zs
  | Dropping n => lr_drop n w zs
  | Accounting n max_delay => lr_account now n max_delay w zs
  | Finished _ _ => None
  end.

(** A worker takes up a request.
    [http/modules/ngx_http_limit_req_module.c:171-180] if (r->main->limit_req_set) *)
Definition lr_start (limits : list lr_limit) (vv : Z -> option (list Z)) (status : Z) (set : bool) (w : lr_worker) : lr_worker :=
  {| w_limits := limits; w_vv := vv; w_status := status; w_set := set; w_node := w_node w;
     w_pc := if set then Finished NGX_DECLINED 0 else Looking 0 NGX_DECLINED 0 |}.
End Handler.

(** ** What a zone holds *)

(** The nodes in the order of their last use. *)
Abbreviation entries := (list (Z * lr_node)) (only parsing).

(** The bytes that count as the key of a node. *)
Definition lr_key (n : lr_node) : list Z := take (Z.to_nat (lr_len n)) (lr_data n).

Definition tree_node (x : Z * lr_node) : Z * Z := (x.1, ngx_crc32_short (lr_data x.2)).

Section Inv.
Context {S : Type} `{!SlabPool S} (s : Z) (area U : gset Z) `{!SlabLaws S area}.

(** The tree, the queue and the memory in use agree on the nodes [E]; [cnt] is
    by how many workers each node is held. *)
Record lr_is (z : lr_zone S) (E : entries) (cnt : Z -> Z) : Prop := {
  ri_keyed : keyed lr_data lr_len s area (map tree_node E) (lr_tree z) (lr_nodes z);
  ri_queue : queue_is (lr_head z) area (map fst E) (lr_links z);
  ri_node x : x ∈ E -> lr_nodes z !! x.1 = Some x.2;
  ri_len x : x ∈ E -> lr_len x.2 = u8 (Z.of_nat (length (lr_data x.2)));
  ri_used : slab_used (lr_pool z) = U ∪ list_to_set (map fst E);
  ri_apart x : x ∈ E -> x.1 ∉ U;
  ri_count x : x ∈ E -> lr_count x.2 = cnt x.1;
  ri_held p : cnt p <> 0 -> p ∈ map fst E
}.

Lemma ri_nodup z E cnt : lr_is z E cnt -> NoDup (map fst E).
Proof. intros H. pose proof (keyed_nodup _ _ _ _ _ _ _ (ri_keyed _ _ _ H)) as Hn. by rewrite map_map in Hn. Qed.

Lemma ri_stored z E cnt x : lr_is z E cnt -> x ∈ E -> stored lr_data lr_len (lr_nodes z) x.1 = lr_key x.2.
Proof. intros H Hx. unfold stored, node_key, lr_key. by rewrite (ri_node _ _ _ H x Hx). Qed.

Lemma ri_in_use z E cnt x : lr_is z E cnt -> x ∈ E -> x.1 ∈ slab_used (lr_pool z).
Proof. intros H Hx. rewrite (ri_used _ _ _ H). apply elem_of_union_r, elem_of_list_to_set. by apply list_elem_of_fmap_2. Qed.

Lemma ri_other z E1 x E2 cnt y : lr_is z (E1 ++ x :: E2) cnt -> y ∈ E1 ++ E2 -> y.1 <> x.1.
Proof.
  intros H%ri_nodup Hy Ey. rewrite map_app in H. cbn [map] in H. rewrite Permutation_app_comm in H. cbn [app] in H.
  apply NoDup_cons in H as [Hx _]. apply Hx. rewrite <- Ey, <- map_app. apply list_elem_of_fmap_2.
  rewrite elem_of_app in Hy |- *. tauto.
Qed.

(** Other fields of a node. *)
Lemma lr_write_ok z E1 p n E2 cnt n' cnt' :
  lr_is z (E1 ++ (p, n) :: E2) cnt -> lr_data n' = lr_data n -> lr_len n' = lr_len n -> lr_count n' = cnt' p ->
  (forall q, q <> p -> cnt' q = cnt q) ->
  lr_is {| z with lr_nodes := <[p := n']> (lr_nodes z) |} (E1 ++ (p, n') :: E2) cnt'.
Proof.
  intros H Ed El Ec Hcnt. assert (Hp : (p, n) ∈ E1 ++ (p, n) :: E2) by (apply elem_of_app; right; left).
  pose proof (ri_node _ _ _ H _ Hp) as Hn. cbn [fst snd] in Hn.
  assert (Hin : forall x, x ∈ E1 ++ (p, n') :: E2 -> x = (p, n') \/ x ∈ E1 ++ E2).
  { intros x. rewrite !elem_of_app, elem_of_cons. tauto. }
  assert (Hsub : forall x, x ∈ E1 ++ E2 -> x ∈ E1 ++ (p, n) :: E2) by (intros x; rewrite !elem_of_app, elem_of_cons; tauto).
  assert (Em : map fst (E1 ++ (p, n') :: E2) = map fst (E1 ++ (p, n) :: E2)) by (by rewrite !map_app).
  constructor; cbn [lr_tree lr_links lr_head lr_nodes lr_pool]; rewrite ?Em.
  - replace (map tree_node (E1 ++ (p, n') :: E2)) with (map tree_node (E1 ++ (p, n) :: E2));
      [|assert (Et : tree_node (p, n') = tree_node (p, n)) by (unfold tree_node; cbn; by rewrite Ed);
        rewrite !map_app; cbn [map]; by rewrite Et].
    apply (keyed_write _ _ s area _ _ _ p n n'); [apply H|done..].
  - apply H.
  - intros x [->|Hx]%Hin; [cbn; by rewrite lookup_insert_eq|].
    rewrite lookup_insert_ne by (apply not_eq_sym; exact (ri_other z E1 (p, n) E2 cnt x H Hx)). by apply H, Hsub.
  - intros x [->|Hx]%Hin; [cbn; rewrite Ed, El; apply (ri_len _ _ _ H _ Hp)|]. by apply H, Hsub.
  - apply H.
  - intros x [->|Hx]%Hin; [apply (ri_apart _ _ _ H _ Hp)|]. by apply H, Hsub.
  - intros x [->|Hx]%Hin; [done|]. rewrite Hcnt by exact (ri_other z E1 (p, n) E2 cnt x H Hx). by apply H, Hsub.
  - intros q Hq. destruct (decide (q = p)) as [->|Hne]; [by apply (list_elem_of_fmap_2 fst _ (p, n))|].
    apply H. by rewrite <- Hcnt.
Qed.

Lemma lr_use_ok z E1 x E2 cnt :
  lr_is z (E1 ++ x :: E2) cnt ->
  exists links links', ngx_queue_remove x.1 (lr_links z) = Some links /\
    ngx_queue_insert_head (lr_head z) x.1 links = Some links' /\ lr_is {| z with lr_links := links' |} (x :: E1 ++ E2) cnt.
Proof.
  intros H. pose proof (ri_nodup _ _ _ H) as Hnd. assert (Hx : x ∈ E1 ++ x :: E2) by (apply elem_of_app; right; left).
  destruct (keyed_in _ _ _ _ _ _ _ (tree_node x) (ri_keyed _ _ _ H)) as [Ha _]; [by apply list_elem_of_fmap_2|]. cbn in Ha.
  destruct (queue_step (lr_head z) area (Remove x.1) _ _ (ri_queue _ _ _ H)) as (links & E1' & Hq1).
  { cbn. by apply list_elem_of_fmap_2. }
  cbn [queue_abs] in Hq1. rewrite map_app in Hq1, Hnd. cbn [map] in Hq1, Hnd. rewrite remove_filter in Hq1 by done.
  destruct (queue_step (lr_head z) area (InsertHead x.1) _ _ Hq1) as (links' & E2' & Hq2).
  { cbn. split; [done|]. apply NoDup_app in Hnd as (_ & Hd & [Hn _]%NoDup_cons). intros [Hin|Hin]%elem_of_app; [|done].
    apply (Hd _ Hin). left. }
  exists links, links'. split_and!; [done..|].
  assert (Hp : x :: E1 ++ E2 ≡ₚ E1 ++ x :: E2) by solve_Permutation.
  destruct H. constructor; cbn [lr_tree lr_links lr_head lr_nodes lr_pool]; try (by intros y; rewrite Hp; auto).
  - by rewrite Hp.
  - cbn [map]. rewrite map_app. exact Hq2.
  - by rewrite Hp.
Qed.

Lemma lr_remove_ok z E1 x E2 cnt :
  lr_is z (E1 ++ x :: E2) cnt -> lr_count x.2 = 0 ->
  exists z', lr_remove x.1 z = Some z' /\ lr_is z' (E1 ++ E2) cnt.
Proof.
  intros H Hc. pose proof (ri_nodup _ _ _ H) as Hnd. assert (Hx : x ∈ E1 ++ x :: E2) by (apply elem_of_app; right; left).
  pose proof (ri_other z E1 x E2 cnt) as Hne.
  assert (Hsub : forall y, y ∈ E1 ++ E2 -> y ∈ E1 ++ x :: E2) by (intros y; rewrite !elem_of_app, elem_of_cons; tauto).
  destruct (queue_step (lr_head z) area (Remove x.1) _ _ (ri_queue _ _ _ H)) as (links & Eq & Hq).
  { cbn. by apply list_elem_of_fmap_2. }
  cbn [queue_abs queue_do] in Hq, Eq. rewrite map_app in Hq, Hnd. cbn [map] in Hq, Hnd. rewrite remove_filter in Hq by done.
  destruct (keyed_delete _ _ s area _ (map tree_node (E1 ++ E2)) x.1 (tree_node x).2 _ _ (ri_keyed _ _ _ H)) as (t' & Et & Hk).
  { rewrite !map_app. cbn [map]. change (x.1, (tree_node x).2) with (tree_node x). solve_Permutation. }
  unfold lr_remove. rewrite Eq. cbn [mbind option_bind]. rewrite Et. eexists; split; [done|].
  constructor; cbn [lr_tree lr_links lr_head lr_nodes lr_pool].
  - done.
  - by rewrite map_app.
  - intros y Hy. by apply H, Hsub.
  - intros y Hy. by apply H, Hsub.
  - rewrite slab_free_used by (by apply (ri_in_use _ _ _ _ H)). rewrite (ri_used _ _ _ H), !map_app. cbn [map].
    pose proof (ri_apart _ _ _ H x Hx) as HU. apply NoDup_app in Hnd as (_ & Hd & [Hn _]%NoDup_cons).
    rewrite !list_to_set_app_L. cbn [list_to_set].
    assert (Hl : x.1 ∉ map fst E1) by (intros Hin; apply (Hd _ Hin); left).
    rewrite <- (elem_of_list_to_set (C := gset Z)) in Hl, Hn. clear -HU Hl Hn. set_solver.
  - intros y Hy. by apply H, Hsub.
  - intros y Hy. by apply H, Hsub.
  - intros q Hq'. pose proof (ri_held _ _ _ H q Hq') as Hin. rewrite map_app in Hin |- *. cbn [map] in Hin.
    rewrite elem_of_app, elem_of_cons in Hin. rewrite elem_of_app. destruct Hin as [?|[->|?]]; try tauto.
    rewrite <- (ri_count _ _ _ H x Hx) in Hq'. done.
Qed.
End Inv.

(** ** Lookup, on the list of nodes *)

Section Lookup.
Context {S : Type} `{!SlabPool S} (s : Z) (area U : gset Z) `{!SlabLaws S area} (rate now : Z).
Abbreviation zone_is := (lr_is s area U) (only parsing).

(** Expiry takes nodes from the end, here of the reversed list: none that is
    held, and but for the first with [n = 0] none that is not idle. *)
Fixpoint expire_rev (rounds : nat) (n : Z) (E : entries) : entries :=
  match rounds, E with
  | Datatypes.S rounds, x :: E' =>
      if negb (lr_count x.2 =? 0) then E
      else if negb (n =? 0) && negb (lr_idle rate now x.2) then E
      else expire_rev rounds (n + 1) E'
  | _, _ => E
  end.

Definition expired (n : Z) (E : entries) : entries := rev (expire_rev (Z.to_nat (3 - n)) n (rev E)).

Lemma lr_expire_loop_ok rounds n z E cnt :
  zone_is z (rev E) cnt ->
  exists z', lr_expire_loop rate now rounds n z = Some z' /\ zone_is z' (rev (expire_rev rounds n E)) cnt.
Proof.
  revert n z E; induction rounds as [|rounds IH]; intros n z E H; cbn [lr_expire_loop expire_rev]; [by exists z|].
  destruct (queue_ends _ _ _ _ (ri_queue _ _ _ _ _ _ H)) as (_ & Hl & He). rewrite He. cbn [mbind option_bind].
  destruct E as [|x E].
  { rewrite bool_decide_eq_true_2 by done. by exists z. }
  cbn [rev] in *. rewrite map_app in He, Hl. cbn [map] in He, Hl.
  rewrite bool_decide_eq_false_2 by (rewrite map_app; by destruct (map fst (rev E))).
  rewrite last_snoc in Hl. rewrite Hl. cbn [mbind option_bind].
  assert (Hx : x ∈ rev E ++ [x]) by (apply elem_of_app; right; left).
  rewrite (ri_node _ _ _ _ _ _ H x Hx). cbn [mbind option_bind].
  destruct (lr_count x.2 =? 0) eqn:Ec; cbn [negb]; [|by exists z].
  destruct (negb (n =? 0) && negb (lr_idle rate now x.2)) eqn:Ei; [by exists z|].
  destruct (lr_remove_ok s area U z (rev E) x [] cnt H) as (z' & -> & H'); [by apply Z.eqb_eq|].
  rewrite app_nil_r in H'. cbn [mbind option_bind]. by apply IH.
Qed.

Lemma lr_expire_ok n z E cnt :
  zone_is z E cnt -> exists z', ngx_http_limit_req_expire rate now n z = Some z' /\ zone_is z' (expired n E) cnt.
Proof.
  intros H. unfold ngx_http_limit_req_expire, expired. apply lr_expire_loop_ok. by rewrite rev_involutive.
Qed.

(** What is expired is a tail. *)
Lemma expire_rev_tail rounds n E : exists E', E = E' ++ expire_rev rounds n E.
Proof.
  revert n E; induction rounds as [|rounds IH]; intros n E; cbn [expire_rev]; [by exists []|].
  destruct E as [|x E]; [by exists []|]. destruct (negb _); [by exists []|]. destruct (_ && _); [by exists []|].
  destruct (IH (n + 1) E) as [E' HE]. exists (x :: E'). cbn. by rewrite <- HE.
Qed.

Lemma expired_prefix n E : exists E', E = expired n E ++ E'.
Proof.
  destruct (expire_rev_tail (Z.to_nat (3 - n)) n (rev E)) as [E' HE]. exists (rev E'). unfold expired.
  rewrite <- (rev_involutive E) at 1. rewrite HE at 1. by rewrite rev_app_distr.
Qed.

Lemma expired_sub n E x : x ∈ expired n E -> x ∈ E.
Proof. intros Hx. destruct (expired_prefix n E) as [E' HE]. rewrite HE. apply elem_of_app. by left. Qed.

(** The new node. *)
Definition lr_new (account : bool) (data : list Z) : lr_node :=
  {| lr_len := u8 (Z.of_nat (length data)); lr_excess := 0; lr_data := data;
     lr_last := if account then now else 0; lr_count := if account then 0 else 1 |}.

Definition hold (p : Z) (cnt : Z -> Z) : Z -> Z := fun q => if decide (q = p) then cnt q + 1 else cnt q.
Definition hold_if (account : bool) (p : Z) (cnt : Z -> Z) : Z -> Z := if account then cnt else hold p cnt.

Lemma lr_create_ok z E cnt account data p sp :
  zone_is z E cnt -> p ∈ area -> p ∉ slab_used (lr_pool z) -> slab_used sp = slab_used (lr_pool z) ∪ {[p]} ->
  exists z', lr_create now account (ngx_crc32_short data) data p {| z with lr_pool := sp |} =
      Some (if account then NGX_OK else NGX_AGAIN, 0, if account then None else Some p, z') /\
    zone_is z' ((p, lr_new account data) :: E) (hold_if account p cnt).
Proof.
  intros H Hp Hu Hsp. set (n := lr_new account data).
  assert (HpE : p ∉ map fst E).
  { intros (x & -> & Hx)%list_elem_of_fmap. by apply Hu, (ri_in_use _ _ _ _ _ _ _ H). }
  assert (Hp0 : cnt p = 0) by (destruct (decide (cnt p = 0)) as [|Hne]; [done|by apply H in Hne]).
  assert (HpA : p ∉ map fst (map tree_node E)) by (by rewrite map_map).
  assert (Hne : forall x, x ∈ E -> x.1 <> p) by (intros x Hx <-; by apply HpE, list_elem_of_fmap_2).
  assert (Hlen : (Z.to_nat (lr_len n) <= length (lr_data n))%nat).
  { cbn. unfold u8. pose proof (Z.mod_le (Z.of_nat (length data)) (2 ^ 8)). lia. }
  pose proof (keyed_fresh lr_data lr_len s area _ _ _ p n (ri_keyed _ _ _ _ _ _ H) Hp HpA) as Hk.
  destruct (keyed_insert lr_data lr_len s area _ _ _ p (ngx_crc32_short data) Hk Hp HpA) as (t' & Et & Hk').
  { exists n. cbn [fst]. by rewrite lookup_insert_eq. }
  destruct (queue_step (lr_head z) area (InsertHead p) _ _ (ri_queue _ _ _ _ _ _ H)) as (links & El & Hq); [done|].
  unfold lr_create. cbn [lr_tree lr_nodes lr_links lr_head lr_pool]. fold (lr_new account data). fold n.
  unfold ngx_http_limit_req_rbtree_insert_value. rewrite Et. cbn [queue_do] in El. rewrite El. cbn [mbind option_bind].
  set (z' := {| lr_tree := t' |}). exists z'. split; [by destruct account|].
  assert (Hcnt : forall q, q <> p -> hold_if account p cnt q = cnt q).
  { intros q Hqp. unfold hold_if, hold. destruct account; [done|]. by rewrite decide_False. }
  constructor; cbn [z' lr_tree lr_links lr_head lr_nodes lr_pool].
  - exact Hk'.
  - exact Hq.
  - intros x [->|Hx]%elem_of_cons; [cbn; by rewrite lookup_insert_eq|].
    rewrite lookup_insert_ne by (by apply not_eq_sym, Hne). by apply H.
  - intros x [->|Hx]%elem_of_cons; [done|by apply H].
  - rewrite Hsp, (ri_used _ _ _ _ _ _ H). cbn [map fst list_to_set]. clear. set_solver.
  - intros x [->|Hx]%elem_of_cons; [|by apply H]. cbn. intros HU. apply Hu. rewrite (ri_used _ _ _ _ _ _ H).
    by apply elem_of_union_l.
  - intros x [->|Hx]%elem_of_cons.
    + cbn. unfold hold_if, hold. destruct account; [done|]. rewrite decide_True by done. lia.
    + rewrite Hcnt by (by apply Hne). by apply H.
  - intros q Hq'. cbn [map fst]. destruct (decide (q = p)) as [->|Hqp]; [left|]. right. rewrite Hcnt in Hq' by done. by apply H.
Qed.

(** No node has the key. *)
Definition no_key (hash : Z) (data : list Z) (E : entries) : Prop :=
  forall x, x ∈ E -> ngx_crc32_short (lr_data x.2) = hash -> lr_key x.2 <> data.

Lemma lr_pool_ok z E cnt sp :
  zone_is z E cnt -> slab_used sp = slab_used (lr_pool z) -> zone_is {| z with lr_pool := sp |} E cnt.
Proof. intros H Hsp. destruct H. constructor; cbn [lr_tree lr_links lr_head lr_nodes lr_pool]; try done. by rewrite Hsp. Qed.

(** The pool has memory for a new node, at most after the expiry of idle nodes. *)
Definition lr_room (data : list Z) (z : lr_zone S) : Prop :=
  match ngx_http_limit_req_expire rate now 1 z with
  | Some z => (slab_alloc (80 + Z.of_nat (length data)) (lr_pool z)).1 <> None
  | None => False
  end.

(** What a lookup does to the nodes; [room] tells whether there was memory
    without deleting a node by force. *)
Inductive lookup_spec (burst : Z) (account : bool) (data : list Z) (E : entries) (cnt : Z -> Z) (room : bool) :
    Z -> Z -> option Z -> entries -> (Z -> Z) -> Prop :=
| look_busy E1 p n E2 :
    E = E1 ++ (p, n) :: E2 -> lr_key n = data -> ngx_crc32_short (lr_data n) = ngx_crc32_short data ->
    burst < lr_bucket rate now n ->
    lookup_spec burst account data E cnt room NGX_BUSY (lr_bucket rate now n) None ((p, n) :: E1 ++ E2) cnt
| look_ok E1 p n E2 :
    E = E1 ++ (p, n) :: E2 -> lr_key n = data -> ngx_crc32_short (lr_data n) = ngx_crc32_short data ->
    lr_bucket rate now n <= burst -> account = true ->
    lookup_spec burst account data E cnt room NGX_OK (lr_bucket rate now n) None
      ((p, {| n with lr_excess := lr_bucket rate now n; lr_last := now |}) :: E1 ++ E2) cnt
| look_again E1 p n E2 :
    E = E1 ++ (p, n) :: E2 -> lr_key n = data -> ngx_crc32_short (lr_data n) = ngx_crc32_short data ->
    lr_bucket rate now n <= burst -> account = false ->
    lookup_spec burst account data E cnt room NGX_AGAIN (lr_bucket rate now n) (Some p)
      ((p, {| n with lr_count := u64 (lr_count n + 1) |}) :: E1 ++ E2) (hold p cnt)
| look_new p :
    no_key (ngx_crc32_short data) data E -> p ∉ map fst (expired 1 E) ->
    lookup_spec burst account data E cnt room (if account then NGX_OK else NGX_AGAIN) 0 (if account then None else Some p)
      ((p, lr_new account data) :: expired 1 E) (hold_if account p cnt)
| look_forced p :
    no_key (ngx_crc32_short data) data E -> p ∉ map fst (expired 0 (expired 1 E)) -> room = false ->
    lookup_spec burst account data E cnt room (if account then NGX_OK else NGX_AGAIN) 0 (if account then None else Some p)
      ((p, lr_new account data) :: expired 0 (expired 1 E)) (hold_if account p cnt)
| look_error :
    no_key (ngx_crc32_short data) data E -> room = false ->
    lookup_spec burst account data E cnt room NGX_ERROR 0 None (expired 0 (expired 1 E)) cnt.

Lemma lr_found_ok burst account z E1 p n E2 cnt data :
  zone_is z (E1 ++ (p, n) :: E2) cnt -> lr_key n = data -> ngx_crc32_short (lr_data n) = ngx_crc32_short data ->
  0 <= cnt p < 2 ^ 64 - 1 -> forall room,
  exists rc ep node z' E' cnt', lr_found rate burst now account p z = Some (rc, ep, node, z') /\
    zone_is z' E' cnt' /\ lookup_spec burst account data (E1 ++ (p, n) :: E2) cnt room rc ep node E' cnt'.
Proof.
  intros H Hk Hh Hcnt room. destruct (lr_use_ok s area U z E1 (p, n) E2 cnt H) as (l1 & l2 & Eq1 & Eq2 & H').
  cbn [fst] in Eq1, Eq2. unfold lr_found. rewrite Eq1. cbn [mbind option_bind]. rewrite Eq2. cbn [mbind option_bind].
  set (z1 := {| z with lr_links := l2 |}) in *.
  pose proof (ri_node _ _ _ _ _ _ H' (p, n) ltac:(left)) as Hn. cbn [fst snd] in Hn. rewrite Hn. cbn [mbind option_bind].
  assert (Hc : lr_count n = cnt p) by (apply (ri_count _ _ _ _ _ _ H' (p, n)); left).
  destruct (burst <? lr_bucket rate now n) eqn:Eb.
  - eexists _, _, _, _, _, _. split; [done|]. split; [exact H'|]. eapply look_busy; try done. zify_bool. lia.
  - assert (Hb : lr_bucket rate now n <= burst) by (zify_bool; lia). destruct account.
    + eexists _, _, _, _, _, _. split; [done|]. split; [|by eapply look_ok].
      by apply (lr_write_ok s area U z1 [] p n (E1 ++ E2) cnt).
    + eexists _, _, _, _, _, _. split; [done|]. split; [|by eapply look_again].
      apply (lr_write_ok s area U z1 [] p n (E1 ++ E2) cnt); [done..| |].
      * cbn. unfold hold. rewrite decide_True, Hc by done. apply u64_small. lia.
      * intros q Hq. unfold hold. by rewrite decide_False.
Qed.

Lemma lr_absent_ok burst account z E cnt data :
  zone_is z E cnt -> no_key (ngx_crc32_short data) data E ->
  exists rc ep node z' E' cnt' room, lr_absent rate now account (ngx_crc32_short data) data z = Some (rc, ep, node, z') /\
    zone_is z' E' cnt' /\ lookup_spec burst account data E cnt room rc ep node E' cnt' /\ (lr_room data z -> room = true).
Proof.
  intros H Hno. unfold lr_absent, lr_room. destruct (lr_expire_ok 1 z E cnt H) as (z1 & -> & H1). cbn [mbind option_bind].
  assert (Hout : forall z E p, zone_is z E cnt -> p ∉ slab_used (lr_pool z) -> p ∉ map fst E).
  { intros z0 E0 p H0 Hp (x & -> & Hx)%list_elem_of_fmap. by apply Hp, (ri_in_use _ _ _ _ _ _ _ H0). }
  destruct (slab_alloc _ (lr_pool z1)) as [[p|] sp] eqn:Ea.
  - apply slab_alloc_some in Ea as (Hp & Hu & Hsp).
    destruct (lr_create_ok z1 (expired 1 E) cnt account data p sp H1 Hp Hu Hsp) as (z' & -> & H').
    eexists _, _, _, _, _, _, true. split_and!; [done|exact H'| |done]. apply look_new; [done|]. by eapply Hout.
  - apply slab_alloc_none in Ea. apply (lr_pool_ok z1 _ cnt sp) in H1; [|done].
    destruct (lr_expire_ok 0 _ _ cnt H1) as (z2 & -> & H2). cbn [mbind option_bind].
    destruct (slab_alloc _ (lr_pool z2)) as [[p|] sp2] eqn:Eb.
    + apply slab_alloc_some in Eb as (Hp & Hu & Hsp).
      destruct (lr_create_ok z2 _ cnt account data p sp2 H2 Hp Hu Hsp) as (z' & -> & H').
      eexists _, _, _, _, _, _, false. split_and!; [done|exact H'| |done]. apply look_forced; [done| |done]. by eapply Hout.
    + apply slab_alloc_none in Eb. eexists _, _, _, _, _, _, false. split_and!; [done| | |done].
      * by apply lr_pool_ok; [exact H2|].
      * by apply look_error.
Qed.

(** The lookup implements its specification on the list of nodes. *)
Lemma lr_lookup_ok burst account z E cnt data :
  zone_is z E cnt -> (forall p, 0 <= cnt p < 2 ^ 64 - 1) ->
  exists rc ep node z' E' cnt' room,
    ngx_http_limit_req_lookup rate burst now account (ngx_crc32_short data) data z = Some (rc, ep, node, z') /\
    zone_is z' E' cnt' /\ lookup_spec burst account data E cnt room rc ep node E' cnt' /\ (lr_room data z -> room = true).
Proof.
  intros H Hcnt. unfold ngx_http_limit_req_lookup.
  destruct (key_find_ok _ _ s area _ _ _ (ngx_crc32_short data) data (ri_keyed _ _ _ _ _ _ H)) as (r & -> & Hr).
  destruct r as [p|].
  - destruct Hr as [([q n] & [= -> Hh] & Hx)%list_elem_of_fmap Hs]. cbn [fst snd] in *.
    pose proof (ri_stored s area U z E cnt (q, n) H Hx) as Hst. cbn [fst snd] in Hst. rewrite Hs in Hst.
    apply list_elem_of_split in Hx as (E1 & E2 & ->).
    destruct (lr_found_ok burst account z E1 q n E2 cnt data H (eq_sym Hst) (eq_sym Hh) (Hcnt q) true)
      as (rc & ep & node & z' & E' & cnt' & -> & H' & Hs').
    by exists rc, ep, node, z', E', cnt', true.
  - apply (lr_absent_ok burst account z E cnt data H). intros x Hx Hh Hk. apply (Hr x.1).
    + apply list_elem_of_fmap. exists x. split; [|done]. unfold tree_node. by rewrite Hh.
    + by rewrite (ri_stored s area U z E cnt x H Hx).
Qed.
End Lookup.

(** A key of more than 255 bytes is never limited: its length is stored in
    one byte, so that the search for the key finds no node of it, and every
    request gets a new node and passes with no excess, whatever the burst.  Only
    when the zone is out of memory is a request refused. *)
Theorem limit_req_long_key {S : Type} `{!SlabPool S} s area U `{!SlabLaws S area} rate burst now account z E cnt data :
  lr_is s area U z E cnt -> (forall p, 0 <= cnt p < 2 ^ 64 - 1) -> (255 < length data)%nat ->
  exists rc node z' E' cnt',
    ngx_http_limit_req_lookup rate burst now account (ngx_crc32_short data) data z = Some (rc, 0, node, z') /\
    lr_is s area U z' E' cnt' /\ (lr_room rate now data z -> rc = if account then NGX_OK else NGX_AGAIN) /\ rc <> NGX_BUSY.
Proof.
  intros Hz Hcnt Hlen.
  destruct (lr_lookup_ok s area U rate now burst account z E cnt data Hz Hcnt) as (rc & ep & node & z' & E' & cnt' & room & -> & Hz' & Hs & Hr).
  assert (Hno : forall E1 p n E2, E = E1 ++ (p, n) :: E2 -> lr_key n = data -> False).
  { intros E1 p n E2 -> Hk. rewrite <- Hk in Hlen. unfold lr_key in Hlen. rewrite length_take in Hlen.
    pose proof (ri_len _ _ _ _ _ _ Hz (p, n) ltac:(apply elem_of_app; right; left)) as Hl. cbn in Hl. rewrite Hl in Hlen.
    unfold u8 in Hlen. pose proof (Z.mod_pos_bound (Z.of_nat (length (lr_data n))) (2 ^ 8)). lia. }
  destruct Hs; try (exfalso; by eauto).
  - eexists _, _, _, _, _. split; [done|]. split; [exact Hz'|]. split; [done|by destruct account].
  - eexists _, _, _, _, _. split; [done|]. split; [exact Hz'|]. split; [done|by destruct account].
  - eexists _, _, _, _, _. split; [done|]. split; [exact Hz'|]. split; [|done]. intros Hroom. by rewrite Hr in *.
Qed.


(** ** Samples *)

(** Three cells in a zone with its sentinel at address 1 and its queue at 9. *)
Definition lr_sample_area : gset Z := {[2; 3; 4]}.

#[export] Instance lr_sample_pool : SlabPool (gset Z) := cell_pool lr_sample_area.

Definition lr_sample_mem : gmap Z rb_node := list_to_map (map (fun a => (a, rb_blank 0)) [1; 2; 3; 4]).
Definition lr_sample_links : gmap Z ngx_queue_t :=
  list_to_map (map (fun a => (a, {| q_prev := 0; q_next := 0 |})) [9; 2; 3; 4]).
Definition lr_sample_nodes : gmap Z lr_node :=
  list_to_map (map (fun a => (a, {| lr_len := 0; lr_last := 0; lr_excess := 0; lr_count := 0; lr_data := [] |})) [2; 3; 4]).

Definition lr_sample_zone : lr_zone (gset Z) :=
  default {| lr_tree := {| rb_mem := ∅; rb_root := 0; rb_sentinel := 0 |}; lr_links := ∅; lr_head := 0; lr_nodes := ∅; lr_pool := ∅ |}
    (lr_zone_init lr_sample_mem lr_sample_links lr_sample_nodes 1 9 ∅).

Lemma lr_sample_in a : a ∈ lr_sample_area <-> a ∈ [2; 3; 4].
Proof. unfold lr_sample_area. rewrite !elem_of_union, !elem_of_singleton, !elem_of_cons, elem_of_nil. tauto. Qed.

Lemma lr_sample_zone_is : lr_is 1 lr_sample_area ∅ lr_sample_zone [] (fun _ => 0).
Proof.
  constructor; try (by intros ? ?%elem_of_nil); try (by intros ? ? ?%elem_of_nil); try done.
  - apply (keyed_init lr_data lr_len 1 lr_sample_area lr_sample_mem (rb_blank 0) [(2, rb_blank 0); (3, rb_blank 0); (4, rb_blank 0)]).
    + split; [apply (bool_decide_unpack _); by vm_compute|repeat constructor].
    + intros a. apply lr_sample_in.
    + intros a Ha. apply lr_sample_in in Ha. rewrite !elem_of_cons, elem_of_nil in Ha. destruct Ha as [->|[->|[->|[]]]]; by eexists.
    + vm_compute. reflexivity.
  - exists (map (fun a => (a, {| q_prev := 0; q_next := 0 |})) [2; 3; 4]). split.
    + split; [apply (bool_decide_unpack _); by vm_compute|repeat constructor].
    + intros x. rewrite lr_sample_in. cbn. rewrite elem_of_nil. tauto.
Qed.

Definition long_key : list Z := repeat 97 300.

Lemma limit_req_long_key_witness :
  exists rc node z' E' cnt',
    ngx_http_limit_req_lookup 1000 0 5000 true (ngx_crc32_short long_key) long_key lr_sample_zone = Some (rc, 0, node, z') /\
    lr_is 1 lr_sample_area ∅ z' E' cnt' /\ (lr_room 1000 5000 long_key lr_sample_zone -> rc = NGX_OK) /\ rc <> NGX_BUSY.
Proof.
  apply (limit_req_long_key 1 lr_sample_area ∅ 1000 0 5000 true lr_sample_zone [] (fun _ => 0) long_key lr_sample_zone_is).
  - intros p. lia.
  - cbn. lia.
Defined.
