(* ===== verification/HttpLimitReqRate.v ===== *)
(** * The rate that the limit lets through

    The number of requests of one key that pass a limit of
    src/nginx-1.4.7/src/http/modules/ngx_http_limit_req_module.c in an interval
    of time, as a bound on runs of its lookups. *)
From stdpp Require Import gmap list_tactics sorting relations.
From S2P Require Import Prelude NgxCrc32 NgxStrings NgxMemory NgxQueue NgxRbtree NgxRbtreeLogic NgxRbtreeInsert NgxRbtreeDelete NgxKeyTree HttpLimitReq.

#[local] Set Warnings "-clear-no-such-hyp".

(** ** The rate of one key *)

(** Nodes of short keys, one for each. *)
Definition short_keys (E : entries) : Prop :=
  Forall (fun x => (length (lr_data x.2) <= 255)%nat /\ lr_len x.2 = Z.of_nat (length (lr_data x.2))) E /\
  NoDup (map (fun x => lr_data x.2) E).

Definition has_node (k : list Z) (n : lr_node) (E : entries) : Prop := lr_data n = k /\ n ∈ map snd E.
Definition no_node (k : list Z) (E : entries) : Prop := k ∉ map (fun x => lr_data x.2) E.

Lemma short_key x E : short_keys E -> x ∈ E -> lr_key x.2 = lr_data x.2.
Proof.
  intros [H _] Hx. rewrite Forall_forall in H. destruct (H x Hx) as [_ El]. unfold lr_key. rewrite El, Nat2Z.id. by apply take_ge.
Qed.

Lemma has_or_no k E : (exists n, has_node k n E) \/ no_node k E.
Proof.
  destruct (decide (k ∈ map (fun x => lr_data x.2) E)) as [Hin|]; [left|by right].
  apply list_elem_of_fmap in Hin as (x & -> & Hx). exists x.2. split; [done|]. by apply list_elem_of_fmap_2.
Qed.

Lemma keys_apart E1 x E2 y :
  short_keys (E1 ++ x :: E2) -> y ∈ E1 ++ E2 -> lr_data y.2 <> lr_data x.2.
Proof.
  intros [_ Hnd] Hy Ey. rewrite map_app in Hnd. cbn [map] in Hnd. rewrite Permutation_app_comm in Hnd. cbn [app] in Hnd.
  apply NoDup_cons in Hnd as [Hn _]. apply Hn. rewrite <- Ey, <- map_app. apply (list_elem_of_fmap_2 (fun x => lr_data x.2)).
  rewrite elem_of_app in Hy |- *. tauto.
Qed.

Lemma has_one k n n' E : short_keys E -> has_node k n E -> has_node k n' E -> n = n'.
Proof.
  intros Hs [Ek (x & -> & Hx)%list_elem_of_fmap] [Ek' (y & -> & Hy)%list_elem_of_fmap].
  apply list_elem_of_split in Hx as (E1 & E2 & ->). rewrite elem_of_app, elem_of_cons in Hy. destruct Hy as [Hy|[->|Hy]]; [|done|].
  - destruct (keys_apart E1 x E2 y Hs); [apply elem_of_app; by left|congruence].
  - destruct (keys_apart E1 x E2 y Hs); [apply elem_of_app; by right|congruence].
Qed.

Lemma short_keys_perm E E' : E ≡ₚ E' -> short_keys E -> short_keys E'.
Proof. intros HE [H1 H2]. split; by rewrite <- HE. Qed.

Lemma short_keys_sub E E' : short_keys (E ++ E') -> short_keys E.
Proof. intros [[H1 _]%Forall_app H2]. rewrite map_app in H2. by apply NoDup_app in H2 as [H2 _]. Qed.

Lemma short_keys_cons x E :
  (length (lr_data x.2) <= 255)%nat -> lr_len x.2 = Z.of_nat (length (lr_data x.2)) -> no_node (lr_data x.2) E ->
  short_keys E -> short_keys (x :: E).
Proof. intros H1 H2 H3 [H4 H5]. split; [by constructor|]. cbn. by constructor. Qed.

(** A node is replaced by another with the same key, in front. *)
Lemma short_keys_use E1 p n E2 n' :
  lr_data n' = lr_data n -> lr_len n' = lr_len n -> short_keys (E1 ++ (p, n) :: E2) -> short_keys ((p, n') :: E1 ++ E2).
Proof.
  intros Ed El H. assert (H' := H). apply (short_keys_perm _ ((p, n) :: E1 ++ E2)) in H'; [|solve_Permutation].
  destruct H' as [[[L1 L2] H1]%Forall_cons H2]. cbn [map snd] in *. apply NoDup_cons in H2 as [H2 H3].
  apply short_keys_cons; cbn [snd]; rewrite ?Ed, ?El; try done.
Qed.

(** The node of another key stays. *)
Lemma has_use k n0 E1 p n E2 n' :
  lr_data n' = lr_data n -> lr_data n <> k -> has_node k n0 (E1 ++ (p, n) :: E2) -> has_node k n0 ((p, n') :: E1 ++ E2).
Proof.
  intros Ed Hk [Ek H]. split; [done|]. rewrite map_app in H. cbn [map snd] in *. rewrite map_app. rewrite elem_of_app, elem_of_cons in H.
  rewrite elem_of_cons, elem_of_app. destruct H as [H|[->|H]]; [tauto|done|tauto].
Qed.

Lemma no_use k E1 p n E2 n' :
  lr_data n' = lr_data n -> no_node k (E1 ++ (p, n) :: E2) -> no_node k ((p, n') :: E1 ++ E2).
Proof.
  unfold no_node. intros Ed. rewrite map_app. cbn [map snd]. rewrite map_app, Ed, not_elem_of_app, !not_elem_of_cons, not_elem_of_app.
  tauto.
Qed.

Lemma expire_rev_idle rate now rounds n E x :
  1 <= n -> x ∈ E -> x ∈ expire_rev rate now rounds n E \/ lr_idle rate now x.2 = true.
Proof.
  revert n E; induction rounds as [|rounds IH]; intros n E Hn Hx; cbn [expire_rev]; [by left|].
  destruct E as [|y E]; [by left|]. destruct (negb (lr_count _ =? 0)); [by left|].
  rewrite (proj2 (Z.eqb_neq n 0)) by lia. cbn [negb andb]. destruct (lr_idle rate now y.2) eqn:Ei; cbn [negb]; [|by left].
  apply elem_of_cons in Hx as [->|Hx]; [by right|]. apply IH; [lia|done].
Qed.

Lemma in_rev_elem (x : Z * lr_node) E : x ∈ E -> x ∈ rev E.
Proof. rewrite !list_elem_of_In. apply in_rev. Qed.

Lemma expired_idle rate now E x : x ∈ E -> x ∈ expired rate now 1 E \/ lr_idle rate now x.2 = true.
Proof.
  intros Hx. destruct (expire_rev_idle rate now (Z.to_nat (3 - 1)) 1 (rev E) x) as [H|H]; [lia|by apply in_rev_elem| |by right].
  left. unfold expired. by apply in_rev_elem.
Qed.

Lemma expired_short rate now n E : short_keys E -> short_keys (expired rate now n E).
Proof. intros H. destruct (expired_prefix rate now n E) as [E' HE]. rewrite HE in H. by apply short_keys_sub in H. Qed.

Lemma no_expired rate now n k E : no_node k E -> no_node k (expired rate now n E).
Proof.
  intros H Hin. apply H. apply list_elem_of_fmap in Hin as (x & -> & Hx). apply (list_elem_of_fmap_2 (fun x => lr_data x.2)).
  by eapply expired_sub.
Qed.

(** What one lookup does to the node of [k]. *)
Inductive key_step (rate now burst : Z) (k : list Z) (E E' : entries) : bool -> Z -> Prop :=
| key_busy n : has_node k n E -> has_node k n E' -> key_step rate now burst k E E' true NGX_BUSY
| key_ok n :
    has_node k n E -> lr_bucket rate now n <= burst ->
    has_node k {| n with lr_excess := lr_bucket rate now n; lr_last := now |} E' -> key_step rate now burst k E E' true NGX_OK
| key_new : no_node k E -> has_node k (lr_new now true k) E' -> key_step rate now burst k E E' true NGX_OK
| key_same n rc : has_node k n E -> has_node k n E' -> key_step rate now burst k E E' false rc
| key_gone n rc : has_node k n E -> lr_idle rate now n = true -> no_node k E' -> key_step rate now burst k E E' false rc
| key_none rc : no_node k E -> no_node k E' -> key_step rate now burst k E E' false rc.

Lemma lookup_key_step rate now burst k data E cnt rc ep node E' cnt' :
  lookup_spec rate now burst true data E cnt true rc ep node E' cnt' -> short_keys E -> (length data <= 255)%nat ->
  short_keys E' /\ key_step rate now burst k E E' (bool_decide (data = k)) rc.
Proof.
  intros Hs HE Hd. destruct Hs as [E1 p n E2 -> Hk Hh Hb|E1 p n E2 -> Hk Hh Hb _|E1 p n E2 -> Hk Hh Hb Hf|p Hno Hp| |]; try done.
  - assert (Hp : (p, n) ∈ E1 ++ (p, n) :: E2) by (apply elem_of_app; right; left).
    assert (Ed : lr_data n = data) by (rewrite <- Hk; symmetry; exact (short_key (p, n) _ HE Hp)).
    split; [by eapply short_keys_use|]. case_bool_decide as Hdk.
    + subst k. apply (key_busy _ _ _ _ _ _ n); (split; [done|]); [by apply (list_elem_of_fmap_2 snd) in Hp|left].
    + destruct (has_or_no k (E1 ++ (p, n) :: E2)) as [[n0 Hn0]|Hn0].
      * eapply key_same; [done|]. apply (has_use k n0 E1 p n E2); [done|congruence|done].
      * apply key_none; [done|]. by apply (no_use k E1 p n E2).
  - assert (Hp : (p, n) ∈ E1 ++ (p, n) :: E2) by (apply elem_of_app; right; left).
    assert (Ed : lr_data n = data) by (rewrite <- Hk; symmetry; exact (short_key (p, n) _ HE Hp)).
    split; [by eapply short_keys_use; [| |exact HE]|]. case_bool_decide as Hdk.
    + subst k. apply (key_ok _ _ _ _ _ _ n); [|done|]; (split; [done|]); [by apply (list_elem_of_fmap_2 snd) in Hp|left].
    + destruct (has_or_no k (E1 ++ (p, n) :: E2)) as [[n0 Hn0]|Hn0].
      * eapply key_same; [done|]. apply (has_use k n0 E1 p n E2); [done|congruence|done].
      * apply key_none; [done|]. by apply (no_use k E1 p n E2).
  - assert (Hnd : no_node data E).
    { intros (x & Ex & Hx)%list_elem_of_fmap. apply (Hno x Hx); [by rewrite <- Ex|]. by rewrite (short_key x E HE Hx). }
    split.
    { apply short_keys_cons; cbn [lr_new snd lr_data lr_len]; [done| |by apply no_expired|by apply expired_short].
      unfold u8. rewrite Z.mod_small; lia. }
    case_bool_decide as Hdk; [subst k; apply key_new; [done|]; split; [done|left]|].
    destruct (has_or_no k E) as [[n0 Hn0]|Hn0].
    + assert (Hn0' := Hn0). destruct Hn0' as [Ek (x & -> & Hx)%list_elem_of_fmap].
      destruct (expired_idle rate now E x Hx) as [Hin|Hidle].
      * eapply key_same; [done|]. split; [done|]. right. by apply list_elem_of_fmap_2.
      * destruct (has_or_no k ((p, lr_new now true data) :: expired rate now 1 E)) as [[n1 Hn1]|Hn1]; [|by eapply key_gone].
        destruct (has_one k x.2 n1 E HE Hn0); [|by eapply key_same]. destruct Hn1 as [Ek1 Hn1]. split; [done|].
        cbn [map snd] in Hn1. apply elem_of_cons in Hn1 as [->|(y & -> & Hy)%list_elem_of_fmap]; [by cbn in Ek1|].
        apply list_elem_of_fmap_2. by eapply expired_sub.
    + apply key_none; [done|]. intros Hin. cbn [map snd] in Hin. apply elem_of_cons in Hin as [->|Hin]; [done|].
      by eapply no_expired.
Qed.

(** ** Runs of requests under one limit *)

Section Run.
Context {S : Type} `{!SlabPool S} (rate burst : Z).

(** Requests, each with its time and key, on a zone that is the only limit. *)
Fixpoint lr_run (reqs : list (Z * list Z)) (z : lr_zone S) : option (list Z * lr_zone S) :=
  match reqs with
  | [] => Some ([], z)
  | (now, data) :: reqs =>
      '(rc, _, _, z) ← ngx_http_limit_req_lookup rate burst now true (ngx_crc32_short data) data z;
      '(rcs, z) ← lr_run reqs z;
      Some (rc :: rcs, z)
  end.

(** There is memory at each of them. *)
Fixpoint lr_room_run (reqs : list (Z * list Z)) (z : lr_zone S) : Prop :=
  match reqs with
  | [] => True
  | (now, data) :: reqs =>
      lr_room rate now data z /\
      match ngx_http_limit_req_lookup rate burst now true (ngx_crc32_short data) data z with
      | Some (_, _, _, z) => lr_room_run reqs z
      | None => False
      end
  end.

(** The number of requests with key [k] that are let through. *)
Fixpoint passed (k : list Z) (reqs : list (Z * list Z)) (rcs : list Z) : Z :=
  match reqs, rcs with
  | (_, data) :: reqs, rc :: rcs => (if bool_decide (data = k) && (rc =? NGX_OK) then 1 else 0) + passed k reqs rcs
  | _, _ => 0
  end.

(** Times in order from [t] on, up to [t1]. *)
Fixpoint in_order (t t1 : Z) (reqs : list (Z * list Z)) : Prop :=
  match reqs with [] => t <= t1 | (now, _) :: reqs => t <= now /\ in_order now t1 reqs end.

Lemma in_order_le t t1 reqs : in_order t t1 reqs -> t <= t1.
Proof. revert t; induction reqs as [|[now data] reqs IH]; intros t; cbn; [done|]. intros [H1 H2%IH]. lia. Qed.

(** [N] requests have passed since one did at [t0], and [C] nodes were created
    since; it is [t] now. *)
Definition drained (k : list Z) (t0 t N C : Z) (E : entries) : Prop :=
  (exists n, has_node k n E /\ t0 <= lr_last n <= t /\ 0 <= lr_excess n <= burst /\
     1000000 * (N - C) - rate * (lr_last n - t0) <= 1000 * lr_excess n /\ 60000 * C <= lr_last n - t0) \/
  (no_node k E /\ 1000000 * (N - C) <= rate * (t - t0) /\ 60000 * (C + 1) <= t - t0).

Hypothesis rate_pos : 0 <= rate.

(** The bucket without overflow. *)
Lemma bucket_exact t0 t1 now n :
  t0 <= lr_last n <= now -> now <= t1 -> t1 - t0 < 2 ^ 62 -> rate * (t1 - t0) < 2 ^ 62 ->
  0 <= lr_excess n <= burst -> burst < 2 ^ 62 ->
  let ms := now - lr_last n in
  lr_bucket rate now n = Z.max 0 (lr_excess n - rate * ms / 1000 + 1000) /\
  lr_idle rate now n = (60000 <=? ms) && (lr_excess n <=? rate * ms / 1000).
Proof.
  intros Hl Hn HT HR He Hb ms. assert (Hms : 0 <= ms <= t1 - t0) by (subst ms; lia).
  assert (Hr : 0 <= rate * ms <= rate * (t1 - t0)) by nia.
  assert (Hd : 0 <= rate * ms / 1000 <= rate * ms) by (split; [apply Z.div_pos; lia|apply Z.div_le_upper_bound; lia]).
  assert (Ea : ngx_abs (s64 (now - lr_last n)) = ms).
  { rewrite s64_small by (subst ms; lia). unfold ngx_abs. fold ms. rewrite (proj2 (Z.leb_le 0 ms)) by lia. done. }
  unfold lr_bucket, lr_idle. cbv zeta. rewrite Ea, u64_small, !s64_small by lia. split.
  - destruct (_ <? 0) eqn:E0; zify_bool; lia.
  - destruct (ms <? 60000) eqn:E6; [rewrite (proj2 (Z.leb_gt 60000 ms)) by (zify_bool; lia); done|].
    rewrite (proj2 (Z.leb_le 60000 ms)) by (zify_bool; lia). cbn [andb].
    destruct (0 <? _) eqn:E1; cbn [negb]; symmetry; [apply Z.leb_gt|apply Z.leb_le]; zify_bool; lia.
Qed.

Lemma drained_step k t0 t now N C t1 E E' mine rc :
  drained k t0 t N C E -> key_step rate now burst k E E' mine rc -> short_keys E ->
  t0 <= t <= now -> now <= t1 -> t1 - t0 < 2 ^ 62 -> rate * (t1 - t0) < 2 ^ 62 -> 0 <= burst < 2 ^ 62 ->
  exists C', drained k t0 now (N + if mine && (rc =? NGX_OK) then 1 else 0) C' E'.
Proof.
  intros HD Hk HE Ht Hn HT HR Hb.
  assert (Hex : forall n, has_node k n E -> exists C, t0 <= lr_last n <= t /\ 0 <= lr_excess n <= burst /\
     1000000 * (N - C) - rate * (lr_last n - t0) <= 1000 * lr_excess n /\ 60000 * C <= lr_last n - t0).
  { intros n Hin. destruct HD as [(n' & Hn' & H)|[Hno _]].
    - exists C. by rewrite (has_one k n n' E HE Hin Hn').
    - exfalso. destruct Hin as [<- (x & -> & Hx)%list_elem_of_fmap]. by apply Hno, (list_elem_of_fmap_2 (fun x => lr_data x.2)). }
  destruct Hk as [n H1 H2|n H1 Hbk H2|Hno H2|n rc H1 H2|n rc H1 Hid H2|rc H1 H2]; cbn [andb].
  - destruct (Hex n H1) as (C0 & ? & ? & ? & ?). exists C0. left. exists n. split; [done|]. change (NGX_BUSY =? NGX_OK) with false. cbn iota. lia.
  - destruct (Hex n H1) as (C0 & Hl & He & Hd & Hc). exists C0. left. eexists. split; [exact H2|]. cbn [lr_last lr_excess].
    destruct (bucket_exact t0 t1 now n) as [Eb _]; [lia..|]. rewrite Eb in *. set (ms := now - lr_last n) in *.
    pose proof (Z.mul_div_le (rate * ms) 1000 ltac:(lia)). replace (now - t0) with (ms + (lr_last n - t0)) by (subst ms; lia).
    change (NGX_OK =? NGX_OK) with true. cbn iota. repeat split; try lia; nia.
  - exists (C + 1). left. eexists. split; [exact H2|]. cbn [lr_new lr_last lr_excess]. change (NGX_OK =? NGX_OK) with true. cbn iota.
    destruct HD as [(n & [Ek Hin] & _)|(_ & Hd & Hc)].
    { exfalso. apply Hno. apply list_elem_of_fmap in Hin as (x & -> & Hx). rewrite <- Ek.
      by apply (list_elem_of_fmap_2 (fun x => lr_data x.2)). }
    repeat split; try lia; nia.
  - destruct (Hex n H1) as (C0 & ? & ? & ? & ?). exists C0. left. exists n. split; [done|]. lia.
  - destruct (Hex n H1) as (C0 & Hl & He & Hd & Hc). exists C0. right. split; [done|].
    destruct (bucket_exact t0 t1 now n) as [_ Ei]; [lia..|]. rewrite Ei in Hid. set (ms := now - lr_last n) in *.
    pose proof (Z.mul_div_le (rate * ms) 1000 ltac:(lia)). replace (now - t0) with (ms + (lr_last n - t0)) by (subst ms; lia).
    apply andb_true_iff in Hid as [Hi1%Z.leb_le Hi2%Z.leb_le]. split; [nia|lia].
  - exists C. destruct HD as [(n & [Ek Hin] & _)|(_ & Hd & Hc)].
    { exfalso. apply H1. apply list_elem_of_fmap in Hin as (x & -> & Hx). rewrite <- Ek.
      by apply (list_elem_of_fmap_2 (fun x => lr_data x.2)). }
    right. split; [done|]. split; [nia|lia].
Qed.

Context (s : Z) (area U : gset Z) `{!SlabLaws S area}.
Abbreviation free_zone := (fun z E => lr_is s area U z E (fun _ => 0)) (only parsing).

(** One request. *)
Lemma run_step now data z E :
  free_zone z E -> short_keys E -> (length data <= 255)%nat -> lr_room rate now data z ->
  exists rc ep node z' E', ngx_http_limit_req_lookup rate burst now true (ngx_crc32_short data) data z = Some (rc, ep, node, z') /\
    free_zone z' E' /\ short_keys E' /\ forall k, key_step rate now burst k E E' (bool_decide (data = k)) rc.
Proof.
  intros Hz HE Hd Hroom.
  destruct (lr_lookup_ok s area U rate now burst true z E (fun _ => 0) data Hz) as (rc & ep & node & z' & E' & cnt' & room & -> & Hz' & Hs & Hr).
  { intros p. lia. }
  rewrite (Hr Hroom) in Hs. assert (cnt' = fun _ => 0) as -> by (destruct Hs; done).
  exists rc, ep, node, z', E'. split_and!; [done..| |]; [by destruct (lookup_key_step _ _ _ data _ _ _ _ _ _ _ _ Hs HE Hd)|].
  intros k. by destruct (lookup_key_step _ _ _ k _ _ _ _ _ _ _ _ Hs HE Hd).
Qed.

Lemma run_history reqs z E rest :
  free_zone z E -> short_keys E -> Forall (fun x => (length x.2 <= 255)%nat) reqs -> lr_room_run (reqs ++ rest) z ->
  exists rcs z' E', lr_run reqs z = Some (rcs, z') /\ free_zone z' E' /\ short_keys E' /\ lr_room_run rest z'.
Proof.
  revert z E; induction reqs as [|[now data] reqs IH]; intros z E Hz HE Hk Hr; [by exists [], z, E|].
  apply Forall_cons in Hk as [Hd Hk]. destruct Hr as [Hroom Hr].
  destruct (run_step now data z E Hz HE Hd Hroom) as (rc & ep & node & z1 & E1 & El & Hz1 & HE1 & _).
  cbn [lr_run]. rewrite El in *. cbn [mbind option_bind].
  destruct (IH z1 E1 Hz1 HE1 Hk Hr) as (rcs & z' & E' & -> & Hz' & HE' & Hr'). by eexists _, z', E'.
Qed.

Section Window.
Context (k : list Z) (t0 t1 : Z).
Hypothesis span : t1 - t0 < 2 ^ 62.
Hypothesis drain : rate * (t1 - t0) < 2 ^ 62.
Hypothesis small_burst : 0 <= burst < 2 ^ 62.

(** After a request has passed at [t']. *)
Lemma run_after t' t N C reqs z E :
  free_zone z E -> short_keys E -> Forall (fun x => (length x.2 <= 255)%nat) reqs -> lr_room_run reqs z ->
  t0 <= t' <= t -> in_order t t1 reqs -> drained k t' t N C E ->
  exists rcs z' C', lr_run reqs z = Some (rcs, z') /\
    1000000 * (N + passed k reqs rcs - C') <= 1000 * burst + rate * (t1 - t') /\ 60000 * C' <= t1 - t'.
Proof.
  revert t N C z E; induction reqs as [|[now data] reqs IH]; intros t N C z E Hz HE Hk Hr Ht Ho HD.
  - cbn in Ho. exists [], z, C. split; [done|]. cbn [passed].
    destruct HD as [(n & _ & ? & ? & ? & ?)|(_ & ? & ?)]; split; nia.
  - apply Forall_cons in Hk as [Hd Hk]. destruct Hr as [Hroom Hr]. destruct Ho as [Hle Ho]. pose proof (in_order_le _ _ _ Ho).
    destruct (run_step now data z E Hz HE Hd Hroom) as (rc & ep & node & z1 & E1 & El & Hz1 & HE1 & Hs).
    cbn [lr_run]. rewrite El in *. cbn [mbind option_bind].
    destruct (drained_step k t' t now N C t1 E E1 _ rc HD (Hs k) HE) as [C1 HD1]; [lia|lia|lia|nia|lia|].
    assert (Ht' : t0 <= t' <= now) by lia.
    destruct (IH now _ C1 z1 E1 Hz1 HE1 Hk Hr Ht' Ho HD1) as (rcs & z' & C' & -> & H1 & H2).
    eexists _, z', C'. split; [done|]. cbn [passed]. split; [|lia].
    destruct (bool_decide (data = k) && (rc =? NGX_OK)); lia.
Qed.

Lemma run_window t reqs z E :
  free_zone z E -> short_keys E -> Forall (fun x => (length x.2 <= 255)%nat) reqs -> lr_room_run reqs z ->
  t0 <= t -> in_order t t1 reqs ->
  exists rcs z' C, lr_run reqs z = Some (rcs, z') /\
    1000000 * (passed k reqs rcs - 1 - C) <= 1000 * burst + rate * (t1 - t0) /\ 60000 * C <= t1 - t0.
Proof.
  revert t z E; induction reqs as [|[now data] reqs IH]; intros t z E Hz HE Hk Hr Ht Ho.
  - cbn in Ho. exists [], z, 0. split; [done|]. cbn [passed]. split; [nia|lia].
  - apply Forall_cons in Hk as [Hd Hk]. destruct Hr as [Hroom Hr]. destruct Ho as [Hle Ho]. pose proof (in_order_le _ _ _ Ho).
    destruct (run_step now data z E Hz HE Hd Hroom) as (rc & ep & node & z1 & E1 & El & Hz1 & HE1 & Hs).
    cbn [lr_run]. rewrite El in *. cbn [mbind option_bind]. specialize (Hs k).
    destruct (bool_decide (data = k) && (rc =? NGX_OK)) eqn:Ep.
    + apply andb_true_iff in Ep as [Ek Eok%Z.eqb_eq]. rewrite Ek in Hs. subst rc.
      assert (HD : drained k now now 0 0 E1).
      { left. inversion Hs as [|n H1 Hb H2|H1 H2| | |]; subst.
        - eexists. split; [exact H2|]. cbn [lr_last lr_excess]. unfold lr_bucket in *.
          destruct (_ <? 0) eqn:E0; repeat split; try lia; zify_bool; lia.
        - eexists. split; [exact H2|]. cbn. lia. }
      assert (Ht' : t0 <= now <= now) by lia.
      destruct (run_after now now 0 0 reqs z1 E1 Hz1 HE1 Hk Hr Ht' Ho HD) as (rcs & z' & C & -> & H1 & H2).
      eexists _, z', C. split; [done|]. cbn [passed]. rewrite Ek. change (NGX_OK =? NGX_OK) with true. cbn iota. cbn [andb]. split; [nia|lia].
    + assert (Ht' : t0 <= now) by lia.
      destruct (IH now z1 E1 Hz1 HE1 Hk Hr Ht' Ho) as (rcs & z' & C & -> & H1 & H2).
      eexists _, z', C. split; [done|]. cbn [passed]. rewrite Ep. split; [lia|lia].
Qed.
End Window.
End Run.

(** C9: While a zone has memory for its keys, all of at most 255 bytes, the requests of one key that a
    limit lets through in any interval of T milliseconds, after any history, are
    at most one, plus the burst, plus the rate times T, plus one for every full
    minute: an idle node is forgotten after a minute, and the first request of
    a new node is free.  Rates and bursts are in thousandths of a request. *)
Theorem limit_req_rate {S : Type} `{!SlabPool S} rate burst s area U `{!SlabLaws S area} before window k t0 t1 z0 :
  lr_is s area U z0 [] (fun _ => 0) -> lr_room_run rate burst (before ++ window) z0 ->
  Forall (fun x => (length x.2 <= 255)%nat) (before ++ window) -> in_order t0 t1 window ->
  0 <= rate -> t1 - t0 < 2 ^ 62 -> rate * (t1 - t0) < 2 ^ 62 -> 0 <= burst < 2 ^ 62 ->
  exists rcs z rcs' z', lr_run rate burst before z0 = Some (rcs, z) /\ lr_run rate burst window z = Some (rcs', z') /\
    1000000 * (passed k window rcs' - 1 - (t1 - t0) / 60000) <= 1000 * burst + rate * (t1 - t0).
Proof.
  intros Hz Hr [Hk1 Hk2]%Forall_app Ho Hrate HT HR Hb.
  destruct (run_history rate burst s area U before z0 [] window Hz) as (rcs & z & E & -> & Hz1 & HE1 & Hr1); [|done..|].
  { split; constructor. }
  destruct (run_window rate burst Hrate s area U k t0 t1 HT HR Hb t0 window z E Hz1 HE1 Hk2 Hr1) as (rcs' & z' & C & Ew & H1 & H2); [lia|done|].
  exists rcs, z, rcs', z'. split_and!; [done..|].
  assert (HC : C <= (t1 - t0) / 60000) by (apply Z.div_le_lower_bound; lia). lia.
Qed.

(** Two requests per second with a burst of one, in quick succession and a
    second later. *)
Definition lr_sample_before : list (Z * list Z) := [(1000, B! "10.0.0.1"); (1000, B! "10.0.0.2")].
Definition lr_sample_window : list (Z * list Z) :=
  [(1100, B! "10.0.0.1"); (1200, B! "10.0.0.1"); (2200, B! "10.0.0.1"); (2200, B! "10.0.0.1"); (2200, B! "10.0.0.1")].

Example lr_sample_answers :
  fst <$> lr_run 2000 1000 (lr_sample_before ++ lr_sample_window) lr_sample_zone =
  Some [NGX_OK; NGX_OK; NGX_OK; NGX_BUSY; NGX_OK; NGX_OK; NGX_BUSY].
Proof. vm_compute. reflexivity. Qed.

Lemma limit_req_rate_witness :
  exists rcs z rcs' z', lr_run 2000 1000 lr_sample_before lr_sample_zone = Some (rcs, z) /\
    lr_run 2000 1000 lr_sample_window z = Some (rcs', z') /\
    1000000 * (passed (B! "10.0.0.1") lr_sample_window rcs' - 1 - (2200 - 1100) / 60000) <= 1000 * 1000 + 2000 * (2200 - 1100).
Proof.
  apply (limit_req_rate 2000 1000 1 lr_sample_area ∅ lr_sample_before lr_sample_window (B! "10.0.0.1") 1100 2200 lr_sample_zone
    lr_sample_zone_is); [|repeat constructor; cbn; lia|cbn; lia|lia..].
  vm_compute. repeat split; congruence.
Defined.
