(* ===== verification/HttpLimitReqWorkers.v ===== *)
(** * The limit on the rate with many workers

    The handler of src/nginx-1.4.7/src/http/modules/ngx_http_limit_req_module.c
    in any number of workers that share the zones and interleave at their
    critical sections. *)
From stdpp Require Import gmap list_tactics sorting relations.
From S2P Require Import Prelude NgxCrc32 NgxStrings NgxMemory NgxQueue NgxRbtree NgxRbtreeLogic NgxRbtreeInsert NgxRbtreeDelete NgxKeyTree HttpLimitReq.

#[local] Set Warnings "-clear-no-such-hyp".

(** ** Interleaved workers *)

Section Workers.
Context {S : Type} `{!SlabPool S} (s : Z) (area U : gset Z) `{!SlabLaws S area} (rate : Z -> Z).
Abbreviation zones := (gmap Z (lr_zone S)) (only parsing).

(** The number of workers that hold the node [p] of the zone [i]. *)
Definition holds_node (i p : Z) (w : lr_worker) : Prop := w_node w !! i = Some p.
#[local] Instance holds_node_dec i p w : Decision (holds_node i p w).
Proof. unfold holds_node. apply _. Defined.

Definition node_holders (ws : list lr_worker) (i p : Z) : Z := Z.of_nat (length (filter (holds_node i p) ws)).

Lemma holders_update ws k w w' i p :
  ws !! k = Some w ->
  node_holders (<[k := w']> ws) i p =
  node_holders ws i p - (if decide (holds_node i p w) then 1 else 0) + (if decide (holds_node i p w') then 1 else 0).
Proof.
  intros Hk. rewrite insert_take_drop by (by eapply lookup_lt_Some). rewrite <- (take_drop_middle ws k w Hk) at 3.
  unfold node_holders. rewrite !filter_app, !filter_cons, !length_app. repeat case_decide; cbn [length]; lia.
Qed.

Lemma node_holders_bound ws i p : 0 <= node_holders ws i p <= Z.of_nat (length ws).
Proof. unfold node_holders. pose proof (length_filter (holds_node i p) ws). lia. Qed.

(** The limits below [n] at which the worker may hold nodes. *)
Definition pc_index (pc : lr_pc) : nat :=
  match pc with Looking n _ _ => n | Dropping n => n | Accounting n _ => n | Finished _ _ => 0 end.

Record worker_ok (zs : zones) (w : lr_worker) : Prop := {
  wk_zones : Forall (fun l => is_Some (zs !! rl_zone l)) (w_limits w);
  wk_nodup : NoDup (map rl_zone (w_limits w));
  wk_index : (pc_index (w_pc w) <= length (w_limits w))%nat;
  wk_none : match w_pc w with Looking _ rc _ => rc = NGX_DECLINED -> w_node w = ∅ | _ => True end;
  wk_node i p : w_node w !! i = Some p -> exists j l, (j < pc_index (w_pc w))%nat /\ w_limits w !! j = Some l /\ rl_zone l = i
}.

Definition zones_ok (zs : zones) (ws : list lr_worker) : Prop :=
  forall i z, zs !! i = Some z -> exists E, lr_is s area U z E (node_holders ws i).

(** The worker at [k] of all workers. *)
Record workers_ok (zs : zones) (ws : list lr_worker) : Prop := {
  ws_zones : zones_ok zs ws;
  ws_each : Forall (worker_ok zs) ws;
  ws_few : Z.of_nat (length ws) < 2 ^ 64 - 1
}.

Lemma lr_is_ext z E cnt cnt' : (forall p, cnt p = cnt' p) -> lr_is s area U z E cnt -> lr_is s area U z E cnt'.
Proof.
  intros Hc [H1 H2 H3 H4 H5 H6 H7 H8]. constructor; try done; [intros x Hx; by rewrite <- Hc, H7|].
  intros p Hp. apply H8. by rewrite Hc.
Qed.

(** The zones that are there stay. *)
Lemma worker_ok_zones zs zs' w : (forall i, is_Some (zs !! i) -> is_Some (zs' !! i)) -> worker_ok zs w -> worker_ok zs' w.
Proof. intros Hz [H1 H2 H3 H4 H5]. constructor; try done. eapply Forall_impl; [exact H1|]. intros l. apply Hz. Qed.

Lemma zone_there (zs : zones) i z j : is_Some (zs !! j) -> is_Some (<[i := z]> zs !! j).
Proof. destruct (decide (j = i)) as [->|]; [rewrite lookup_insert_eq; by eauto|by rewrite lookup_insert_ne]. Qed.

(** A step of the worker [k] that changes no zone and no [ctx->node]. *)
Lemma step_local zs ws k w w' :
  workers_ok zs ws -> ws !! k = Some w -> w_node w' = w_node w -> worker_ok zs w' -> workers_ok zs (<[k := w']> ws).
Proof.
  intros [H1 H2 H3] Hk Hn Hw. constructor.
  - intros i z Hz. destruct (H1 i z Hz) as [E HE]. exists E. eapply lr_is_ext; [|exact HE]. intros p. cbn.
    rewrite (holders_update ws k w w') by done. unfold holds_node. repeat case_decide; try lia; congruence.
  - by apply Forall_insert.
  - by rewrite length_insert.
Qed.

(** A step of the worker [k] on the zone [i]. *)
Lemma step_zone zs ws k w w' i z' E' cnt' :
  workers_ok zs ws -> ws !! k = Some w -> is_Some (zs !! i) -> lr_is s area U z' E' cnt' ->
  (forall p, cnt' p = node_holders (<[k := w']> ws) i p) -> (forall j, j <> i -> w_node w' !! j = w_node w !! j) ->
  worker_ok zs w' -> workers_ok (<[i := z']> zs) (<[k := w']> ws).
Proof.
  intros [H1 H2 H3] Hk Hi HE Hc Hn Hw.
  assert (Hmono : forall j, is_Some (zs !! j) -> is_Some (<[i := z']> zs !! j)) by (intros j; apply zone_there).
  constructor.
  - intros j z Hz. destruct (decide (j = i)) as [->|Hne].
    + rewrite lookup_insert_eq in Hz. injection Hz as <-. exists E'. by eapply lr_is_ext.
    + rewrite lookup_insert_ne in Hz by done. destruct (H1 j z Hz) as [E0 HE0]. exists E0. eapply lr_is_ext; [|exact HE0].
      intros p. cbn. rewrite (holders_update ws k w w') by done. unfold holds_node. specialize (Hn j Hne).
      repeat case_decide; try lia; congruence.
  - apply Forall_insert; [|by eapply worker_ok_zones]. eapply Forall_impl; [exact H2|]. intros x. by apply worker_ok_zones.
  - by rewrite length_insert.
Qed.

(** Releasing a node that is held. *)
Definition unhold (p : Z) (cnt : Z -> Z) : Z -> Z := fun q => if decide (q = p) then cnt q - 1 else cnt q.

Lemma held_split z E cnt p : lr_is s area U z E cnt -> cnt p <> 0 -> exists E1 n E2, E = E1 ++ (p, n) :: E2.
Proof.
  intros H Hp. apply H in Hp. apply list_elem_of_fmap in Hp as ([q n] & -> & Hp).
  apply list_elem_of_split in Hp as (E1 & E2 & ->). by exists E1, n, E2.
Qed.

Lemma lr_release_ok z E cnt p n' :
  lr_is s area U z E cnt -> 0 < cnt p < 2 ^ 64 ->
  (forall n, lr_data (n' n) = lr_data n /\ lr_len (n' n) = lr_len n /\ lr_count (n' n) = u64 (lr_count n - 1)) ->
  exists n E', lr_nodes z !! p = Some n /\
    lr_is s area U {| z with lr_nodes := <[p := n' n]> (lr_nodes z) |} E' (unhold p cnt).
Proof.
  intros H Hp Hn'. destruct (held_split z E cnt p H) as (E1 & n & E2 & ->); [lia|]. destruct (Hn' n) as (Hd & Hl & Hc).
  assert (Hin : (p, n) ∈ E1 ++ (p, n) :: E2) by (apply elem_of_app; right; left).
  exists n, (E1 ++ (p, n' n) :: E2). split; [by apply (ri_node _ _ _ _ _ _ H (p, n))|].
  apply (lr_write_ok s area U z E1 p n E2 cnt); [done..| |].
  - rewrite Hc. pose proof (ri_count _ _ _ _ _ _ H _ Hin) as E. cbn in E. rewrite E. unfold unhold. rewrite decide_True by done.
    apply u64_small. lia.
  - intros q Hq. unfold unhold. by rewrite decide_False.
Qed.

(** How many steps are left, at most. *)
Definition pc_left (w : lr_worker) : nat :=
  match w_pc w with
  | Looking n _ _ => 2 * length (w_limits w) + 3 - n
  | Dropping n => n + 1
  | Accounting n _ => n + 1
  | Finished _ _ => 0
  end.

Lemma lr_conclude_ok zs n rc excess w :
  worker_ok zs {| w with w_pc := Looking n rc excess |} ->
  let w' := lr_conclude rate n rc excess w in
  worker_ok zs w' /\ w_node w' = w_node w /\ w_limits w' = w_limits w /\ (pc_left w' <= n + 1)%nat.
Proof.
  intros [H1 H2 Hn Hd H4] w'. unfold w', lr_conclude. cbn in Hd. destruct (rc =? NGX_DECLINED) eqn:Ed.
  - split_and!; [|done|done|cbn; lia]. constructor; try done; cbn [w_pc pc_index]; [lia|].
    cbn. intros i p. rewrite Hd by (by apply Z.eqb_eq). by rewrite lookup_empty.
  - destruct ((rc =? NGX_BUSY) || (rc =? NGX_ERROR)); split_and!; try done; cbn; lia.
Qed.

(** The next turn of the first loop without a lookup. *)
Lemma look_skip zs w n rc excess l :
  worker_ok zs w -> w_pc w = Looking n rc excess -> w_limits w !! n = Some l ->
  worker_ok zs {| w with w_pc := Looking (Datatypes.S n) rc excess |}.
Proof.
  intros [H1 H2 H3 H4 H5] Hpc Hl. rewrite Hpc in *. constructor; try done; cbn [w_pc pc_index w_limits w_node].
  - by apply lookup_lt_Some in Hl.
  - intros i p (j & l' & Hj & H)%H5. exists j, l'. cbn in Hj. split; [lia|done].
Qed.

(** At the limit [n] the worker holds no node yet. *)
Lemma look_free zs w n rc excess l :
  worker_ok zs w -> w_pc w = Looking n rc excess -> w_limits w !! n = Some l -> w_node w !! rl_zone l = None.
Proof.
  intros [H1 H2 H3 H4 H5] Hpc Hl. destruct (w_node w !! rl_zone l) as [p|] eqn:Ep; [|done]. exfalso.
  destruct (H5 _ _ Ep) as (j & l' & Hj & Hl' & Ez). rewrite Hpc in Hj. cbn in Hj.
  assert (j = n); [|lia]. eapply (NoDup_lookup (map rl_zone (w_limits w)) j n (rl_zone l) H2);
    by rewrite list_lookup_fmap, ?Hl, ?Hl'; cbn; f_equal.
Qed.

(** The worker after a lookup at the limit [n] that gave the node [node]. *)
Definition with_node (i : Z) (node : option Z) (w : lr_worker) : lr_worker :=
  match node with Some p => {| w with w_node := <[i := p]> (w_node w) |} | None => w end.

Lemma with_node_ok zs w n rc excess l node rc' excess' :
  worker_ok zs w -> w_pc w = Looking n rc excess -> w_limits w !! n = Some l -> (node <> None -> rc' = NGX_AGAIN) ->
  rc' <> NGX_DECLINED ->
  worker_ok zs {| (with_node (rl_zone l) node w) with w_pc := Looking (if rc' =? NGX_AGAIN then Datatypes.S n else n) rc' excess' |}.
Proof.
  intros [H1 H2 H3 H4 H5] Hpc Hl Hnode Hrc. rewrite Hpc in *. pose proof (lookup_lt_Some _ _ _ Hl) as Hlt.
  assert (Ew : w_limits (with_node (rl_zone l) node w) = w_limits w) by (by destruct node).
  constructor; cbn [w_pc pc_index w_limits w_node]; rewrite ?Ew; try done.
  - cbn in H3. destruct (rc' =? NGX_AGAIN); lia.
  - intros i p Hp. assert (Hcase : w_node w !! i = Some p \/ i = rl_zone l /\ rc' = NGX_AGAIN).
    { destruct node as [q|]; [|by left]. cbn in Hp. destruct (decide (i = rl_zone l)) as [->|Hne]; [right; by auto|].
      rewrite lookup_insert_ne in Hp by done. by left. }
    destruct Hcase as [(j & l' & Hj & H)%H5|[-> ->]].
    + exists j, l'. split; [|done]. cbn in Hj. destruct (rc' =? NGX_AGAIN); lia.
    + exists n, l. change (NGX_AGAIN =? NGX_AGAIN) with true. cbn iota. split; [lia|done].
Qed.

Lemma lookup_spec_rc r now burst account data E cnt room rc ep node E' cnt' :
  lookup_spec r now burst account data E cnt room rc ep node E' cnt' ->
  rc <> NGX_DECLINED /\
  match node with Some p => rc = NGX_AGAIN /\ forall q, cnt' q = hold p cnt q | None => rc <> NGX_AGAIN /\ cnt' = cnt end.
Proof. by destruct 1; try destruct account. Qed.

Lemma lr_look_ok now zs ws k w n rc excess :
  workers_ok zs ws -> ws !! k = Some w -> w_pc w = Looking n rc excess ->
  exists w' zs', lr_look rate now n rc excess w zs = Some (w', zs') /\ workers_ok zs' (<[k := w']> ws) /\ (pc_left w' < pc_left w)%nat.
Proof.
  intros Hws Hk Hpc. assert (Hw : worker_ok zs w) by (eapply Forall_lookup_1; [apply Hws|done]).
  assert (Hn : (n <= length (w_limits w))%nat) by (pose proof (wk_index _ _ Hw) as H; by rewrite Hpc in H).
  assert (Ew : w = {| w with w_pc := Looking n rc excess |}) by (destruct w; cbn in Hpc; by subst).
  assert (Eleft : pc_left w = (2 * length (w_limits w) + 3 - n)%nat) by (unfold pc_left; by rewrite Hpc).
  unfold lr_look. destruct (w_limits w !! n) as [l|] eqn:El.
  2:{ assert (Hw' := Hw). rewrite Ew in Hw'. destruct (lr_conclude_ok zs n rc excess w Hw') as (H1 & H2 & H3 & H4).
      eexists _, zs. split; [done|]. split; [by eapply step_local|]. lia. }
  pose proof (lookup_lt_Some _ _ _ El) as Hlt.
  assert (Hskip : exists w' zs', Some ({| w with w_pc := Looking (Datatypes.S n) rc excess |}, zs) = Some (w', zs') /\
    workers_ok zs' (<[k := w']> ws) /\ (pc_left w' < pc_left w)%nat).
  { eexists _, zs. split; [done|]. split; [|rewrite Eleft; cbn; lia].
    eapply step_local; [done|exact Hk|done|]. by eapply look_skip. }
  destruct (w_vv w (rl_zone l)) as [data|]; [|done]. cbv zeta.
  destruct (Z.of_nat (length data) =? 0); [done|]. destruct (65535 <? Z.of_nat (length data)); [done|]. clear Hskip.
  pose proof (Forall_lookup_1 _ _ _ _ (wk_zones _ _ Hw) El) as Hi. cbn beta in Hi. destruct Hi as [z Hz]. rewrite Hz.
  cbn [mbind option_bind]. destruct (ws_zones _ _ Hws _ _ Hz) as [E HE].
  destruct (lr_lookup_ok s area U (rate (rl_zone l)) now (rl_burst l) (n =? length (w_limits w) - 1)%nat z E _ data HE)
    as (rc' & ep & node & z' & E' & cnt' & room & -> & HE' & Hspec & _).
  { intros p. pose proof (node_holders_bound ws (rl_zone l) p). pose proof (ws_few _ _ Hws). lia. }
  cbn [mbind option_bind]. apply lookup_spec_rc in Hspec as [Hrc Hnode]. fold (with_node (rl_zone l) node w).
  pose proof (look_free zs w n rc excess l Hw Hpc El) as Hfree.
  assert (Hok := with_node_ok zs w n rc excess l node rc' ep Hw Hpc El).
  assert (Hoth : forall j, j <> rl_zone l -> w_node (with_node (rl_zone l) node w) !! j = w_node w !! j).
  { intros j Hj. destruct node; [|done]. cbn. by rewrite lookup_insert_ne. }
  assert (Hcnt : forall w', w_node w' = w_node (with_node (rl_zone l) node w) ->
    forall p, cnt' p = node_holders (<[k := w']> ws) (rl_zone l) p).
  { intros w' En p. rewrite (holders_update ws k w w') by done. unfold holds_node. rewrite decide_False by (by rewrite Hfree).
    destruct node as [q|]; cbn in En; destruct Hnode as [_ Ec].
    - rewrite Ec. unfold hold. assert (Eq : w_node w' !! rl_zone l = Some q) by (by rewrite En, lookup_insert_eq).
      repeat case_decide; try lia; congruence.
    - rewrite Ec. rewrite decide_False by (by rewrite En, Hfree). lia. }
  destruct (rc' =? NGX_AGAIN) eqn:Ea; cbn [negb].
  - eexists _, _. split; [done|]. split.
    + eapply step_zone; [done|exact Hk|by eauto|exact HE'|by apply Hcnt|done|]. apply Hok; [by destruct node as [q|]; [destruct Hnode|]|done].
    + rewrite Eleft. destruct node; cbn; lia.
  - assert (Hnn : node = None). { destruct node as [q|]; [|done]. destruct Hnode as [-> _]. done. }
    subst node. cbn [with_node] in *. destruct (lr_conclude_ok zs n rc' ep w) as (H1 & H2 & H3 & H4); [by apply Hok|].
    eexists _, _. split; [done|]. split; [|rewrite Eleft; lia].
    eapply step_zone; [done|exact Hk|by eauto|exact HE'|by apply Hcnt|by intros j Hj; rewrite H2|done].
Qed.

(** A worker goes down by one limit, of which it holds no node or releases it. *)
Lemma down_ok zs w w' n l :
  worker_ok zs w -> pc_index (w_pc w) = Datatypes.S n -> w_limits w !! n = Some l ->
  w_limits w' = w_limits w -> pc_index (w_pc w') = n -> (forall m rc e, w_pc w' <> Looking m rc e) ->
  w_node w' !! rl_zone l = None -> (forall j, j <> rl_zone l -> w_node w' !! j = w_node w !! j) -> worker_ok zs w'.
Proof.
  intros [H1 H2 H3 H4 H5] Hpc Hl El Hpc' Hlook Hno Hoth. constructor; rewrite ?El, ?Hpc'; try done; [lia| |].
  - destruct (w_pc w') eqn:E; try done. by destruct (Hlook n0 rc excess).
  - intros i p Hp. assert (Hne : i <> rl_zone l) by (intros ->; by rewrite Hno in Hp). rewrite Hoth in Hp by done.
    destruct (H5 i p Hp) as (j & l' & Hj & Hl' & Ei). exists j, l'. rewrite Hpc in Hj. split; [|done].
    destruct (decide (j = n)) as [->|]; [|lia]. rewrite Hl in Hl'. injection Hl' as <-. done.
Qed.

(** The count of the released node. *)
Lemma unhold_count ws k w w' i p :
  ws !! k = Some w -> w_node w !! i = Some p -> w_node w' !! i = None ->
  0 < node_holders ws i p /\ forall q, unhold p (node_holders ws i) q = node_holders (<[k := w']> ws) i q.
Proof.
  intros Hk Hp Hn. split.
  - pose proof (holders_update ws k w w' i p Hk) as H. pose proof (node_holders_bound (<[k := w']> ws) i p).
    rewrite decide_True in H by done. rewrite decide_False in H by (unfold holds_node; by rewrite Hn). lia.
  - intros q. rewrite (holders_update ws k w w') by done. unfold holds_node, unhold. rewrite (decide_False (P := w_node w' !! i = Some q)) by (by rewrite Hn).
    repeat case_decide; try lia; congruence.
Qed.

Lemma limit_at zs w n : worker_ok zs w -> pc_index (w_pc w) = Datatypes.S n -> exists l z, w_limits w !! n = Some l /\ zs !! rl_zone l = Some z.
Proof.
  intros Hw Hpc. pose proof (wk_index _ _ Hw) as Hi. rewrite Hpc in Hi.
  destruct (lookup_lt_is_Some_2 (w_limits w) n Hi) as [l Hl]. destruct (Forall_lookup_1 _ _ _ _ (wk_zones _ _ Hw) Hl) as [z Hz].
  by exists l, z.
Qed.

Lemma lr_drop_ok zs ws k w n :
  workers_ok zs ws -> ws !! k = Some w -> w_pc w = Dropping n ->
  exists w' zs', lr_drop n w zs = Some (w', zs') /\ workers_ok zs' (<[k := w']> ws) /\ (pc_left w' < pc_left w)%nat.
Proof.
  intros Hws Hk Hpc. assert (Hw : worker_ok zs w) by (eapply Forall_lookup_1; [apply Hws|done]).
  assert (Eleft : pc_left w = (n + 1)%nat) by (unfold pc_left; by rewrite Hpc).
  destruct n as [|n]; cbn [lr_drop].
  { eexists _, zs. split; [done|]. split; [|rewrite Eleft; cbn; lia]. eapply step_local; [done|exact Hk|done|].
    destruct Hw as [H1 H2 H3 H4 H5]. rewrite Hpc in *. by constructor. }
  destruct (limit_at zs w n Hw) as (l & z & Hl & Hz); [by rewrite Hpc|]. rewrite Hl. cbn [mbind option_bind].
  destruct (w_node w !! rl_zone l) as [p|] eqn:Ep.
  - rewrite Hz. cbn [mbind option_bind]. destruct (ws_zones _ _ Hws _ _ Hz) as [E HE].
    set (w' := {| w with w_pc := Dropping n; w_node := delete (rl_zone l) (w_node w) |}).
    assert (Hdel : w_node w' !! rl_zone l = None) by (cbn; apply lookup_delete_eq).
    assert (Hoth : forall j, j <> rl_zone l -> w_node w' !! j = w_node w !! j) by (intros j Hj; cbn; by rewrite lookup_delete_ne).
    destruct (unhold_count ws k w w' (rl_zone l) p Hk Ep Hdel) as [Hpos Hcnt].
    destruct (lr_release_ok z E _ p (fun lr => {| lr with lr_count := u64 (lr_count lr - 1) |}) HE) as (m & E' & Hm & HE'); [|done|].
    { pose proof (node_holders_bound ws (rl_zone l) p). pose proof (ws_few _ _ Hws). lia. }
    unfold lr_drop_node. rewrite Hm. cbn [mbind option_bind]. eexists _, _. split; [done|]. split; [|rewrite Eleft; cbn; lia].
    eapply (step_zone zs ws k w w'); [done..|by eauto|exact HE'|done|done|].
    apply (down_ok zs w w' n l); try done. by rewrite Hpc.
  - eexists _, zs. split; [done|]. split; [|rewrite Eleft; cbn; lia]. eapply step_local; [done|exact Hk|done|].
    apply (down_ok zs w _ n l); try done. by rewrite Hpc.
Qed.

Lemma lr_account_ok now zs ws k w n max_delay :
  workers_ok zs ws -> ws !! k = Some w -> w_pc w = Accounting n max_delay ->
  exists w' zs', lr_account rate now n max_delay w zs = Some (w', zs') /\ workers_ok zs' (<[k := w']> ws) /\ (pc_left w' < pc_left w)%nat.
Proof.
  intros Hws Hk Hpc. assert (Hw : worker_ok zs w) by (eapply Forall_lookup_1; [apply Hws|done]).
  assert (Eleft : pc_left w = (n + 1)%nat) by (unfold pc_left; by rewrite Hpc).
  destruct n as [|n]; cbn [lr_account].
  { eexists _, zs. split; [done|]. split; [|rewrite Eleft; cbn; destruct (max_delay =? 0); cbn; lia].
    eapply step_local; [done|exact Hk|done|].
    destruct Hw as [H1 H2 H3 H4 H5]. rewrite Hpc in *. by constructor; cbn; destruct (max_delay =? 0). }
  destruct (limit_at zs w n Hw) as (l & z & Hl & Hz); [by rewrite Hpc|]. rewrite Hl. cbn [mbind option_bind].
  destruct (w_node w !! rl_zone l) as [p|] eqn:Ep.
  - rewrite Hz. cbn [mbind option_bind]. destruct (ws_zones _ _ Hws _ _ Hz) as [E HE].
    set (next d := {| w with w_pc := Accounting n d; w_node := delete (rl_zone l) (w_node w) |}).
    assert (Hdel : forall d, w_node (next d) !! rl_zone l = None) by (intros d; cbn; apply lookup_delete_eq).
    assert (Hoth : forall d j, j <> rl_zone l -> w_node (next d) !! j = w_node w !! j)
      by (intros d j Hj; cbn; by rewrite lookup_delete_ne).
    destruct (lr_release_ok z E _ p (fun lr => {| lr with lr_last := now; lr_excess := lr_bucket (rate (rl_zone l)) now lr;
      lr_count := u64 (lr_count lr - 1) |}) HE) as (m & E' & Hm & HE'); [|done|].
    { destruct (unhold_count ws k w (next 0) (rl_zone l) p Hk Ep (Hdel 0)) as [Hpos _].
      pose proof (node_holders_bound ws (rl_zone l) p). pose proof (ws_few _ _ Hws). lia. }
    unfold lr_account_node. rewrite Hm. cbn [mbind option_bind]. eexists _, _. split; [done|]. split; [|rewrite Eleft; cbn; lia].
    match goal with |- workers_ok _ (<[_ := {| w with w_pc := Accounting n ?d; w_node := _ |}]> _) => fold (next d) end.
    eapply (step_zone zs ws k w (next _)); [done..|by eauto|exact HE'|by apply (unhold_count ws k w)|by apply Hoth|].
    apply (down_ok zs w (next _) n l); try done; [by rewrite Hpc|by apply Hoth].
  - eexists _, zs. split; [done|]. split; [|rewrite Eleft; cbn; lia]. eapply step_local; [done|exact Hk|done|].
    apply (down_ok zs w _ n l); try done. by rewrite Hpc.
Qed.

Lemma lr_handler_ok now zs ws k w :
  workers_ok zs ws -> ws !! k = Some w -> (forall rc d, w_pc w <> Finished rc d) ->
  exists w' zs', ngx_http_limit_req_handler rate now w zs = Some (w', zs') /\ workers_ok zs' (<[k := w']> ws) /\
    (pc_left w' < pc_left w)%nat.
Proof.
  intros Hws Hk Hpc. unfold ngx_http_limit_req_handler. destruct (w_pc w) as [n rc e|n|n d|rc d] eqn:E.
  - by apply lr_look_ok.
  - by apply lr_drop_ok.
  - by apply lr_account_ok.
  - by destruct (Hpc rc d).
Qed.

(** The system of all workers: one of them makes a step of the handler at some
    time, or takes up its next request. *)
Inductive sys_step : zones * list lr_worker -> zones * list lr_worker -> Prop :=
| sys_handler k now w w' zs zs' ws :
    ws !! k = Some w -> ngx_http_limit_req_handler rate now w zs = Some (w', zs') -> sys_step (zs, ws) (zs', <[k := w']> ws)
| sys_start k w rc d limits vv status set zs ws :
    ws !! k = Some w -> w_pc w = Finished rc d ->
    Forall (fun l => is_Some (zs !! rl_zone l)) limits -> NoDup (map rl_zone limits) ->
    sys_step (zs, ws) (zs, <[k := lr_start limits vv status set w]> ws).

Lemma finished_free zs w rc d : worker_ok zs w -> w_pc w = Finished rc d -> w_node w = ∅.
Proof.
  intros [_ _ _ _ H5] Hpc. apply map_empty. intros i. destruct (w_node w !! i) as [p|] eqn:Ep; [|done].
  destruct (H5 i p Ep) as (j & l & Hj & _). rewrite Hpc in Hj. cbn in Hj. lia.
Qed.

Lemma sys_step_ok x y : sys_step x y -> workers_ok x.1 x.2 -> workers_ok y.1 y.2.
Proof.
  intros Hstep. destruct Hstep as [k now w w' zs zs' ws Hk E|k w rc d limits vv status set zs ws Hk Hpc Hl Hnd]; cbn [fst snd]; intros Hws.
  - destruct (lr_handler_ok now zs ws k w Hws Hk) as (w1 & zs1 & E1 & H1 & _).
    + intros rc d Hf. unfold ngx_http_limit_req_handler in E. by rewrite Hf in E.
    + rewrite E in E1. by injection E1 as <- <-.
  - eapply step_local; [done|exact Hk|done|]. assert (Hw : worker_ok zs w) by (eapply Forall_lookup_1; [apply Hws|done]).
    pose proof (finished_free zs w rc d Hw Hpc) as Hn. constructor; cbn; try done.
    + destruct set; cbn; lia.
    + by destruct set.
    + intros i p. by rewrite Hn, lookup_empty.
Qed.
End Workers.

(** C8: However the workers interleave at the critical sections of the limits
    on the rate, none ever faults: a node that a worker holds between two of
    them is not deleted, the counts of the nodes are the numbers of the workers
    that hold them, and the tree, the queue and the memory in use of every zone
    agree.  A worker in the handler can always go on and is done after at most
    three steps more than twice the number of its limits, and it holds no node
    then. *)
Theorem limit_req_interleaved {S : Type} `{!SlabPool S} s area U `{!SlabLaws S area} rate zs0 ws0 zs ws :
  workers_ok s area U zs0 ws0 -> rtc (sys_step rate) (zs0, ws0) (zs, ws) ->
  (forall i z, zs !! i = Some z -> exists E, lr_is s area U z E (node_holders ws i)) /\
  (forall k w, ws !! k = Some w -> (pc_left w <= 2 * length (w_limits w) + 3)%nat /\
     match w_pc w with
     | Finished _ _ => w_node w = ∅
     | _ => forall now, exists w' zs', ngx_http_limit_req_handler rate now w zs = Some (w', zs') /\ (pc_left w' < pc_left w)%nat
     end).
Proof.
  intros H0 Hrun. assert (Hinv : workers_ok s area U zs ws).
  { refine (rtc_ind_r (fun x => workers_ok s area U x.1 x.2) (zs0, ws0) H0 _ _ Hrun).
    intros x y _ Hxy Hx. by eapply sys_step_ok. }
  split; [apply Hinv|]. intros k w Hk. assert (Hw : worker_ok zs w) by (eapply Forall_lookup_1; [apply Hinv|done]).
  split.
  { pose proof (wk_index _ _ Hw) as Hi. unfold pc_left. destruct (w_pc w); cbn in Hi |- *; lia. }
  assert (Hgo : (forall rc d, w_pc w <> Finished rc d) ->
    forall now, exists w' zs', ngx_http_limit_req_handler rate now w zs = Some (w', zs') /\ (pc_left w' < pc_left w)%nat).
  { intros Hf now. destruct (lr_handler_ok s area U rate now zs ws k w Hinv Hk Hf) as (w' & zs' & E & _ & Hl). by exists w', zs'. }
  destruct (w_pc w) as [| | |rc d] eqn:Hpc; [by apply Hgo..|]. by eapply finished_free.
Qed.

(** Two workers, each with a request under two limits. *)
Definition lr_idle_worker : lr_worker :=
  {| w_limits := []; w_vv := fun _ => None; w_status := 503; w_pc := Finished NGX_DECLINED 0; w_set := false; w_node := ∅ |}.
Definition lr_sample_limits : list lr_limit :=
  [{| rl_zone := 7; rl_burst := 0; rl_nodelay := false |}; {| rl_zone := 8; rl_burst := 5000; rl_nodelay := true |}].
Definition lr_sample_request : lr_worker := lr_start lr_sample_limits (fun _ => Some (B! "10.0.0.1")) 503 false lr_idle_worker.
Definition lr_sample_zones : gmap Z (lr_zone (gset Z)) := {[ 7 := lr_sample_zone; 8 := lr_sample_zone ]}.

(** The first worker after its lookup in the first zone. *)
Definition lr_sample_first : lr_worker * gmap Z (lr_zone (gset Z)) :=
  default (lr_idle_worker, ∅) (ngx_http_limit_req_handler (fun _ => 1000) 5000 lr_sample_request lr_sample_zones).

Lemma lr_sample_workers : workers_ok 1 lr_sample_area ∅ lr_sample_zones [lr_idle_worker; lr_idle_worker].
Proof.
  constructor; [| |cbn; lia].
  - intros i z Hz. exists []. assert (Ez : z = lr_sample_zone).
    { unfold lr_sample_zones in Hz. destruct (decide (i = 7)) as [->|]; [by rewrite lookup_insert_eq in Hz; simplify_eq|].
      rewrite lookup_insert_ne in Hz by done. by apply lookup_singleton_Some in Hz as [_ <-]. }
    rewrite Ez. apply (lr_is_ext 1 lr_sample_area ∅ lr_sample_zone [] (fun _ => 0)); [done|exact lr_sample_zone_is].
  - repeat constructor; cbn; try done; lia.
Qed.

Lemma limit_req_interleaved_witness :
  let ws := [lr_sample_first.1; lr_sample_request] in
  let zs := lr_sample_first.2 in
  (forall i z, zs !! i = Some z -> exists E, lr_is 1 lr_sample_area ∅ z E (node_holders ws i)) /\
  (forall k w, ws !! k = Some w -> (pc_left w <= 2 * length (w_limits w) + 3)%nat /\
     match w_pc w with
     | Finished _ _ => w_node w = ∅
     | _ => forall now, exists w' zs',
         ngx_http_limit_req_handler (fun _ => 1000) now w zs = Some (w', zs') /\ (pc_left w' < pc_left w)%nat
     end).
Proof.
  apply (limit_req_interleaved 1 lr_sample_area ∅ (fun _ => 1000) lr_sample_zones [lr_idle_worker; lr_idle_worker]
    lr_sample_first.2 [lr_sample_first.1; lr_sample_request] lr_sample_workers).
  assert (Hl : Forall (fun l => is_Some (lr_sample_zones !! rl_zone l)) lr_sample_limits) by (repeat constructor; by eexists).
  assert (Hn : NoDup (map rl_zone lr_sample_limits)) by (apply (bool_decide_unpack _); by vm_compute).
  eapply rtc_l; [eapply (sys_start _ 0%nat lr_idle_worker NGX_DECLINED 0 lr_sample_limits (fun _ => Some (B! "10.0.0.1")) 503 false); [done|done|exact Hl|exact Hn]|].
  eapply rtc_l; [eapply (sys_start _ 1%nat lr_idle_worker NGX_DECLINED 0 lr_sample_limits (fun _ => Some (B! "10.0.0.1")) 503 false); [done|done|exact Hl|exact Hn]|].
  eapply rtc_l; [eapply (sys_handler _ 0%nat 5000 _ lr_sample_first.1 _ lr_sample_first.2); [done|]|apply rtc_refl].
  unfold lr_sample_first. vm_compute. reflexivity.
Defined.
