(* ===== verification/NgxEventTimer.v ===== *)
(** * The timers of the event loop

    src/nginx-1.4.7/src/event/ngx_event_timer.c and ngx_event_timer.h, over the
    red-black tree of [NgxRbtree].  An event and its timer node have the same
    address here.  The handlers of events are a parameter: the class
    [TimerHandler] says what the loop needs of them, and it is shown for the
    handlers that are sequences of [ngx_add_timer] with a positive delay and of
    [if (ev->timer_set) ngx_del_timer(ev)].

    Keys are points in time modulo 2^64; all of them, and the current time, are
    taken to be within half of the range from some [base]. *)
From stdpp Require Import gmap list_tactics sorting.
From S2P Require Import Prelude NgxRbtree NgxRbtreeLogic NgxRbtreeInsert NgxRbtreeDelete.

(** [event/ngx_event.h:67-68] ngx_event_s *)
Record timers : Type := { tm_tree : rb_tree; tm_timer_set : gset Z; tm_timedout : gset Z }.

(** [event/ngx_event_timer.h:17-17] NGX_TIMER_INFINITE *)
Definition NGX_TIMER_INFINITE : Z := u64 (-1).
(** [event/ngx_event_timer.h:19-19] NGX_TIMER_LAZY_DELAY *)
Definition NGX_TIMER_LAZY_DELAY : Z := 300.

(** [event/ngx_event_timer.c:27-48] ngx_event_timer_init *)
Definition ngx_event_timer_init (mem : gmap Z rb_node) (sentinel : Z) : option timers :=
  match ngx_rbtree_init mem sentinel with
  | Some t => Some {| tm_tree := t; tm_timer_set := ∅; tm_timedout := ∅ |}
  | None => None
  end.

(** [ngx_current_msec] is [now].
    [event/ngx_event_timer.c:51-73] ngx_event_find_timer *)
Definition ngx_event_find_timer (now : Z) : M Z :=
  root <- get_root ;;
  sentinel <- get_sentinel ;;
  if root =? sentinel then ret NGX_TIMER_INFINITE
  else
    n <- nodes ;;
    node <- ngx_rbtree_min (S n) root ;;
    key <- rd rb_key node ;;
    let timer := s64 (key - now) in
    ret (if 0 <? timer then timer else 0).

(** [event/ngx_event_timer.h:36-55] ngx_event_del_timer *)
Definition ngx_event_del_timer (ev : Z) (tm : timers) : option timers :=
  match ngx_rbtree_delete ev (tm_tree tm) with
  | Some (_, t) => Some {| tm with tm_tree := t; tm_timer_set := tm_timer_set tm ∖ {[ev]} |}
  | None => None
  end.

(** [event/ngx_event_timer.h:86-98] ev->timer.key = key *)
Definition set_timer (key ev : Z) (tm : timers) : option timers :=
  match (wr (fun n => {| n with rb_key := key |}) ev ;;; ngx_rbtree_insert ngx_rbtree_insert_timer_value ev) (tm_tree tm) with
  | Some (_, t) => Some {| tm with tm_tree := t; tm_timer_set := tm_timer_set tm ∪ {[ev]} |}
  | None => None
  end.

(** [event/ngx_event_timer.h:58-99] ngx_event_add_timer *)
Definition ngx_event_add_timer (now ev timer : Z) (tm : timers) : option timers :=
  let key := u64 (now + timer) in
  if decide (ev ∈ tm_timer_set tm) then
    match rd rb_key ev (tm_tree tm) with
    | Some (old, _) =>
        let diff := s64 (key - old) in
        if ngx_abs diff <? NGX_TIMER_LAZY_DELAY then Some tm
        else match ngx_event_del_timer ev tm with Some tm => set_timer key ev tm | None => None end
    | None => None
    end
  else set_timer key ev tm.

(** The first timer: its event and its key.
    [event/ngx_event_timer.c:88-94] node = ngx_rbtree_min(root, sentinel) *)
Definition first_timer : M (option (Z * Z)) :=
  root <- get_root ;;
  sentinel <- get_sentinel ;;
  if root =? sentinel then ret None
  else
    n <- nodes ;;
    node <- ngx_rbtree_min (S n) root ;;
    key <- rd rb_key node ;;
    ret (Some (node, key)).

(** [handler] is what [ev->handler] does to the timers; the events are returned
    in the order in which they were handled.
    [event/ngx_event_timer.c:76-158] ngx_event_expire_timers *)
Fixpoint ngx_event_expire_timers (now : Z) (handler : Z -> timers -> option timers) (fuel : nat) (tm : timers)
    : option (list Z * timers) :=
  match fuel with
  | O => None
  | S fuel =>
      match first_timer (tm_tree tm) with
      | None => None
      | Some (None, _) => Some ([], tm)
      | Some (Some (ev, key), _) =>
          if s64 (key - now) <=? 0 then
            match ngx_event_del_timer ev tm with
            | None => None
            | Some tm =>
                match handler ev {| tm with tm_timedout := tm_timedout tm ∪ {[ev]} |} with
                | None => None
                | Some tm =>
                    match ngx_event_expire_timers now handler fuel tm with
                    | Some (evs, tm) => Some (ev :: evs, tm)
                    | None => None
                    end
                end
            end
          else Some ([], tm)
      end
  end.

(** ** What the timers are *)

Section Timers.
Context (s base now : Z) (evs : gset Z).
Hypothesis now_in : in_window base now.

(** The timers [L] in the order of their keys; the other events are out of the
    tree. *)
Definition has_timers (L : list (Z * Z)) (tm : timers) : Prop :=
  exists R, represents timer_lt s L R (tm_tree tm) /\ Forall (fun x => in_window base x.2) L /\
    tm_timer_set tm = list_to_set (map fst L) /\
    (forall e, e ∈ evs -> e ∉ tm_timer_set tm -> e ∈ map fst R).

Definition expired (x : Z * Z) : Prop := s64 (x.2 - now) <= 0.

#[export] Instance expired_dec x : Decision (expired x).
Proof. unfold expired. apply _. Defined.

Lemma events_nodup L tm : has_timers L tm -> NoDup (map fst L).
Proof. intros (R & H & _). apply represents_nodup in H. by apply NoDup_app in H as [? _]. Qed.

(** ** Reading *)

Lemma rd_key L1 a k L2 R st :
  represents timer_lt s (L1 ++ (a, k) :: L2) R st -> rd rb_key a st = Some (k, st).
Proof.
  intros (sn & rp & t & H & _ & _ & (ctx & c & l & r & -> & _)%inorder_locate & _).
  assert (Hw : wp (rd rb_key a) (fun x st' => x = k /\ st' = st) st)
    by (by apply (wp_rd_node s sn rp _ ctx false c l a k r R _ _ H)).
  destruct (wp_some _ _ _ Hw) as (x & st' & E' & -> & ->). done.
Qed.

Lemma first_timer_ok L R st :
  represents timer_lt s L R st -> first_timer st = Some (head L, st).
Proof.
  intros Hr. assert (Hr' := Hr). destruct Hr' as (sn & rp & t & H & _ & _ & Hio & _).
  assert (Hw : wp first_timer (fun x st' => x = head L /\ st' = st) st).
  { unfold first_timer. apply wp_bind, (wp_get_root _ _ _ _ _ H). apply wp_bind, (wp_get_sentinel _ _ _ _ _ H).
    destruct t as [|c l p k r].
    { cbn [ptr]. rewrite Z.eqb_refl. apply wp_ret. by subst L. }
    cbn [ptr]. rewrite (proj2 (Z.eqb_neq _ _) (hole_ne_sentinel s sn rp [] false c l p k r R st H)).
    apply wp_bind, (wp_nodes _ _ _ _ _ H). intros n Hn.
    apply wp_bind, (wp_min s sn rp (S n) [] c l p k r R _ st H).
    { cbn [length] in Hn. rewrite length_app, length_cells in Hn. lia. }
    intros ctx2 c2 b kb y Et Hleft. rewrite Et, inorder_ctx, (lefts_left ctx2 Hleft) in Hio. cbn [inorder app] in Hio.
    subst L. unfold wp, bind. by rewrite (rd_key [] b kb _ R st Hr). }
  destruct (wp_some _ _ _ Hw) as (x & st' & E' & -> & ->). done.
Qed.

(** The first timer is the nearest. *)
Lemma first_least x L y :
  Forall (fun x => in_window base x.2) (x :: L) -> StronglySorted (not_after timer_lt) (x :: L) -> y ∈ L ->
  s64 (x.2 - now) <= s64 (y.2 - now).
Proof.
  intros [Hx HL]%Forall_cons [_ Hs]%StronglySorted_inv Hy. rewrite Forall_forall in HL, Hs.
  specialize (HL y Hy). specialize (Hs y Hy). unfold not_after in Hs.
  rewrite (timer_less base y.2 x.2 HL Hx) in Hs. rewrite !(timer_less base) by done. zify_bool. lia.
Qed.

(** The time to wait for events is infinite without timers, and otherwise
    the time to the nearest of them, 0 when it has passed, on a clock that may
    wrap. *)
Theorem find_timer_nearest L tm :
  has_timers L tm ->
  exists d, ngx_event_find_timer now (tm_tree tm) = Some (d, tm_tree tm) /\
    match L with
    | [] => d = NGX_TIMER_INFINITE
    | _ => (exists x, x ∈ L /\ d = Z.max 0 (s64 (x.2 - now))) /\ Forall (fun x => d <= Z.max 0 (s64 (x.2 - now))) L
    end.
Proof.
  intros (R & Hr & HP & _ & _). pose proof (first_timer_ok L R (tm_tree tm) Hr) as Hf.
  assert (Heq : ngx_event_find_timer now (tm_tree tm) =
    Some (match head L with None => NGX_TIMER_INFINITE | Some x => Z.max 0 (s64 (x.2 - now)) end, tm_tree tm)).
  { revert Hf. unfold ngx_event_find_timer, first_timer, bind, get_root, get_sentinel, ret.
    destruct (rb_root _ =? rb_sentinel _); [by intros [= <-]|]. destruct (nodes _) as [[n st1]|]; [|done].
    destruct (ngx_rbtree_min _ _ _) as [[nd st2]|]; [|done]. destruct (rd rb_key nd st2) as [[key st3]|]; [|done].
    intros [= <- <-]. cbn. do 3 f_equal. destruct (0 <? s64 (key - now)) eqn:E'; zify_bool; lia. }
  rewrite Heq. eexists; split; [done|]. destruct L as [|x L]; [done|]. cbn [head].
  split; [exists x; split; [left|done]|]. destruct Hr as (_ & _ & _ & _ & _ & _ & _ & Hs).
  constructor; [done|]. apply Forall_forall. intros y Hy. pose proof (first_least x L y HP Hs Hy). lia.
Qed.

(** ** Changing the timers *)

Lemma remove_middle (A B : gset Z) a : a ∉ A -> a ∉ B -> (A ∪ ({[a]} ∪ B)) ∖ {[a]} = A ∪ B.
Proof.
  intros HA HB. apply set_eq. intros x. rewrite elem_of_difference, !elem_of_union, elem_of_singleton.
  destruct (decide (x = a)) as [->|]; tauto.
Qed.

Lemma del_timer_ok L1 a k L2 tm :
  has_timers (L1 ++ (a, k) :: L2) tm ->
  exists tm', ngx_event_del_timer a tm = Some tm' /\ has_timers (L1 ++ L2) tm' /\ tm_timedout tm' = tm_timedout tm /\
    tm_timer_set tm' = tm_timer_set tm ∖ {[a]}.
Proof.
  intros Ht. pose proof (events_nodup _ _ Ht) as Hnd. destruct Ht as (R & Hr & HP & Hset & Hev).
  destruct (wp_some _ _ _ (rb_delete_represents _ _ _ _ _ _ _ _ Hr)) as ([] & t' & E' & c & Hr').
  unfold ngx_event_del_timer. rewrite E'. eexists; split; [done|]. split; [|done].
  exists ((a, wiped c) :: R). rewrite Forall_app, Forall_cons in HP. rewrite map_app in Hnd. cbn [map fst] in Hnd.
  split_and!; [done|rewrite Forall_app; tauto| |].
  - cbn [tm_timer_set]. rewrite Hset, !map_app, !list_to_set_app_L. cbn [map fst list_to_set].
    apply NoDup_app in Hnd as (_ & Hd & [Ha _]%NoDup_cons). 
    apply remove_middle; rewrite elem_of_list_to_set; [|done]. intros Hin. apply (Hd a Hin). left.
  - cbn [tm_timer_set map fst]. intros e He Hn. destruct (decide (e = a)) as [->|Hne]; [left|].
    right. apply Hev; [done|]. clear -Hn Hne. set_solver.
Qed.

Lemma set_timer_ok key a L tm :
  has_timers L tm -> a ∈ evs -> a ∉ tm_timer_set tm -> in_window base key ->
  exists tm', set_timer key a tm = Some tm' /\ has_timers (ordered_insert timer_lt (a, key) L) tm' /\
    tm_timedout tm' = tm_timedout tm.
Proof.
  intros (R & Hr & HP & Hset & Hev) Ha Hn Hkey.
  pose proof (Hev a Ha Hn) as Hin. apply list_elem_of_fmap in Hin as ([a' n] & Ea & Hin). cbn in Ea. subst a'.
  apply elem_of_Permutation in Hin as [R' HR]. apply (represents_perm _ _ _ _ _ _ HR) in Hr.
  assert (Hw : wp (wr (fun n => {| n with rb_key := key |}) a ;;; ngx_rbtree_insert ngx_rbtree_insert_timer_value a)
    (fun _ st' => represents timer_lt s (ordered_insert timer_lt (a, key) L) R' st') (tm_tree tm)).
  { apply wp_bind, (wp_set_key _ s key a n L R' _ _ Hr). clear Hr. intros st Hr.
    exact (rb_insert_outcome _ (fun x => in_window base x.2) s L R' a _ st Hr HP Hkey). }
  destruct (wp_some _ _ _ Hw) as ([] & t' & E' & Hr'). unfold set_timer. rewrite E'.
  eexists; split; [done|]. split; [|done]. exists R'. cbn [tm_tree tm_timer_set].
  split_and!; [done|by rewrite ordered_insert_perm; constructor| |].
  - rewrite ordered_insert_perm, Hset. cbn [map fst list_to_set]. by rewrite (union_comm_L {[a]}).
  - intros e He Hne. assert (e ∈ map fst R) as Hin by (apply Hev; clear -He Hne; set_solver). rewrite HR in Hin. cbn [map fst] in Hin.
    apply elem_of_cons in Hin as [->|]; [clear -Hne; set_solver|done].
Qed.

(** The events whose timer is set are those of the list. *)
Lemma timer_set_iff L tm a :
  has_timers L tm -> a ∈ tm_timer_set tm <-> exists L1 k L2, L = L1 ++ (a, k) :: L2.
Proof.
  intros (R & _ & _ & -> & _). rewrite elem_of_list_to_set, list_elem_of_fmap. split.
  - intros ([a' k] & Ea & (L1 & L2 & ->)%list_elem_of_split). cbn in Ea. subst a'. by exists L1, k, L2.
  - intros (L1 & k & L2 & ->). exists (a, k). split; [done|]. apply elem_of_app. right. left.
Qed.

(** What [ngx_add_timer] makes of the timers. *)
Inductive added (a key : Z) (L : list (Z * Z)) : list (Z * Z) -> Prop :=
| added_new : a ∉ map fst L -> added a key L (ordered_insert timer_lt (a, key) L)
| added_lazy L1 k L2 : L = L1 ++ (a, k) :: L2 -> ngx_abs (s64 (key - k)) < NGX_TIMER_LAZY_DELAY -> added a key L L
| added_again L1 k L2 : L = L1 ++ (a, k) :: L2 -> added a key L (ordered_insert timer_lt (a, key) (L1 ++ L2)).

Lemma add_timer_ok a timer L tm :
  has_timers L tm -> a ∈ evs -> in_window base (u64 (now + timer)) ->
  exists tm' L', ngx_event_add_timer now a timer tm = Some tm' /\ has_timers L' tm' /\
    tm_timedout tm' = tm_timedout tm /\ added a (u64 (now + timer)) L L'.
Proof.
  intros Ht Ha Hkey. set (key := u64 (now + timer)) in *. unfold ngx_event_add_timer. fold key.
  destruct (decide (a ∈ tm_timer_set tm)) as [Hs|Hs].
  - apply (timer_set_iff L tm a Ht) in Hs as (L1 & k & L2 & ->).
    assert (Ht' := Ht). destruct Ht' as (R & Hr & _). rewrite (rd_key L1 a k L2 R _ Hr). cbv zeta.
    destruct (ngx_abs (s64 (key - k)) <? NGX_TIMER_LAZY_DELAY) eqn:El.
    + exists tm, (L1 ++ (a, k) :: L2). split_and!; [done|done|done|].
      eapply added_lazy; [done|]. by apply Z.ltb_lt.
    + destruct (del_timer_ok L1 a k L2 tm Ht) as (tm1 & -> & Ht1 & Hto & Hset).
      destruct (set_timer_ok key a (L1 ++ L2) tm1 Ht1 Ha) as (tm' & -> & Ht2 & Hto2); [|done|].
      { rewrite Hset. apply not_elem_of_difference. right. by apply elem_of_singleton. }
      eexists tm', _. split_and!; [done|exact Ht2|by rewrite Hto2|]. by eapply added_again.
  - destruct (set_timer_ok key a L tm Ht Ha Hs Hkey) as (tm' & -> & Ht2 & Hto2).
    eexists tm', _. split_and!; [done|exact Ht2|done|]. apply added_new.
    destruct Ht as (R & _ & _ & Hset & _). by rewrite Hset, elem_of_list_to_set in Hs.
Qed.

Lemma filter_insert (P : Z * Z -> Prop) `{!forall x, Decision (P x)} x L :
  ~ P x -> filter P (ordered_insert timer_lt x L) = filter P L.
Proof.
  intros Hx. induction L as [|y L IH]; cbn [ordered_insert]; [by rewrite filter_cons_False|].
  destruct (s64 _ <? 0); [by rewrite filter_cons_False|]. rewrite !filter_cons. by rewrite IH.
Qed.

Lemma others_filter a (L1 : list (Z * Z)) k L2 :
  filter (fun x => x.1 <> a) (L1 ++ (a, k) :: L2) = filter (fun x => x.1 <> a) (L1 ++ L2).
Proof. rewrite !filter_app. f_equal. rewrite filter_cons_False; [done|]. cbn. tauto. Qed.

(** Setting a timer always succeeds; afterwards the event has one timer, less
    than [NGX_TIMER_LAZY_DELAY] away from the wanted time, and the timers of the
    other events are the same in the same order. *)
Theorem add_timer_armed a timer L tm :
  has_timers L tm -> a ∈ evs -> in_window base (u64 (now + timer)) ->
  exists tm' L' k, ngx_event_add_timer now a timer tm = Some tm' /\ has_timers L' tm' /\
    (a, k) ∈ L' /\ NoDup (map fst L') /\ ngx_abs (s64 (u64 (now + timer) - k)) < NGX_TIMER_LAZY_DELAY /\
    filter (fun x => x.1 <> a) L' = filter (fun x => x.1 <> a) L.
Proof.
  intros Ht Ha Hkey. destruct (add_timer_ok a timer L tm Ht Ha Hkey) as (tm' & L' & E' & Ht' & _ & Hadd).
  assert (Hin : forall L, (a, u64 (now + timer)) ∈ ordered_insert timer_lt (a, u64 (now + timer)) L)
    by (intros L0; rewrite ordered_insert_perm; left).
  assert (Hz : ngx_abs (s64 (u64 (now + timer) - u64 (now + timer))) < NGX_TIMER_LAZY_DELAY) by (by rewrite Z.sub_diag).
  assert (Hnd := events_nodup L' tm' Ht').
  destruct Hadd as [Hn|L1 k L2 -> Hl|L1 k L2 ->]; eexists tm', _, _; (split; [exact E'|]); (split; [exact Ht'|]).
  - split_and!; [apply Hin|done|done|]. rewrite filter_insert; [done|]. cbn. tauto.
  - split_and!; [|done|exact Hl|done]. apply elem_of_app. right. left.
  - split_and!; [apply Hin|done|done|]. rewrite filter_insert; [|cbn; tauto]. by rewrite others_filter.
Qed.

(** ** Expiring *)

(** What the loop needs of the handlers of events: they leave the timers in
    order and add none that has expired. *)
Class TimerHandler (handler : Z -> timers -> option timers) : Prop :=
  handler_keeps : forall ev L tm, has_timers L tm ->
    exists L' tm', handler ev tm = Some tm' /\ has_timers L' tm' /\
      filter expired L' `sublist_of` filter expired L.

Lemma expired_head x L tm :
  has_timers (x :: L) tm -> ~ expired x -> Forall (fun y => ~ expired y) (x :: L).
Proof.
  intros (R & (_ & _ & _ & _ & _ & _ & _ & Hs) & HP & _) Hx. constructor; [done|]. apply Forall_forall. intros y Hy.
  pose proof (first_least x L y HP Hs Hy). unfold expired in *. lia.
Qed.

(** What the loop does to the timers [L]: as long as the first of them has
    expired, it is taken out of the tree, its event is marked as timed out and
    has no timer, and its handler is called; the timers that are left after the
    call are those that the loop goes on with. *)
Inductive expiring (handler : Z -> timers -> option timers)
    : list (Z * Z) -> timers -> list Z -> list (Z * Z) -> timers -> Prop :=
| expiring_end L tm : Forall (fun x => ~ expired x) L -> expiring handler L tm [] L tm
| expiring_call ev key L tm tm1 L2 tm2 fired L' tm' :
    expired (ev, key) -> has_timers L tm1 ->
    tm_timedout tm1 = tm_timedout tm ∪ {[ev]} -> ev ∉ tm_timer_set tm1 ->
    handler ev tm1 = Some tm2 -> has_timers L2 tm2 ->
    expiring handler L2 tm2 fired L' tm' ->
    expiring handler ((ev, key) :: L) tm (ev :: fired) L' tm'.

(** A handler that clears no timer of another event that has expired. *)
Definition clears_none (handler : Z -> timers -> option timers) : Prop :=
  forall ev L tm L' tm', has_timers L tm -> handler ev tm = Some tm' -> has_timers L' tm' ->
    filter expired L' = filter expired L.

Lemma has_timers_head L L' tm : has_timers L tm -> has_timers L' tm -> head L' = head L.
Proof.
  intros (R & Hr & _) (R' & Hr' & _).
  pose proof (first_timer_ok _ R _ Hr) as E. rewrite (first_timer_ok _ R' _ Hr') in E. congruence.
Qed.

(** The timers of a tree are determined by it. *)
Lemma has_timers_unique L L' tm : has_timers L tm -> has_timers L' tm -> L = L'.
Proof.
  revert L' tm. induction L as [|[ev key] L IH]; intros L' tm H H'.
  all: pose proof (has_timers_head _ _ _ H H') as E.
  - by destruct L'.
  - destruct L' as [|x L']; [done|]. cbn in E. injection E as ->. f_equal.
    destruct (del_timer_ok [] ev key L tm H) as (tm1 & E1 & H1 & _).
    destruct (del_timer_ok [] ev key L' tm H') as (tm2 & E2 & H2 & _).
    assert (tm2 = tm1) as -> by congruence. by apply (IH L' tm1).
Qed.

(** As handlers that leave the timers alone do. *)
Lemma clears_none_idle : clears_none (fun _ tm => Some tm).
Proof. intros ev L tm L' tm' H [= <-] H'. by rewrite (has_timers_unique L L' tm). Qed.

Lemma expiring_all handler L tm fired L' tm' :
  clears_none handler -> expiring handler L tm fired L' tm' -> fired = map fst (filter expired L).
Proof.
  intros Hc. induction 1 as [L tm Hn|ev key L tm tm1 L2 tm2 fired L' tm' He Ht1 _ _ Eh Ht2 _ IH].
  - induction Hn as [|x L Hx _ IH]; [done|]. by rewrite filter_cons_False.
  - rewrite filter_cons_True by done. cbn [map fst]. f_equal. by rewrite IH, (Hc ev L tm1 L2 tm2).
Qed.

(** C4: One pass over the timers ends, after at most one round for each timer
    that has expired, whatever the handlers do as long as they add no timer
    that has expired already.  In each round the event of the first timer is
    taken out of the tree, marked as timed out, and its handler is called
    ([expiring]); no expired timer is left, the events are handled in the order
    of their timers and none before its time, and when no handler clears an
    expired timer of another event, exactly the expired events are handled. *)
Theorem expire_timers_all handler `{!TimerHandler handler} fuel L tm :
  has_timers L tm -> (length (filter expired L) < fuel)%nat ->
  exists fired L' tm', ngx_event_expire_timers now handler fuel tm = Some (fired, tm') /\
    has_timers L' tm' /\ Forall (fun x => ~ expired x) L' /\
    expiring handler L tm fired L' tm' /\ fired `sublist_of` map fst (filter expired L) /\
    (clears_none handler -> fired = map fst (filter expired L)).
Proof.
  intros Ht Hfuel.
  enough (exists fired L' tm', ngx_event_expire_timers now handler fuel tm = Some (fired, tm') /\
    has_timers L' tm' /\ Forall (fun x => ~ expired x) L' /\ expiring handler L tm fired L' tm' /\
    fired `sublist_of` map fst (filter expired L)) as (fired & L' & tm' & ? & ? & ? & ? & ?).
  { exists fired, L', tm'. split_and!; try done. intros Hc. by eapply expiring_all. }
  revert L tm Ht Hfuel; induction fuel as [|fuel IH]; intros L tm Ht Hfuel; [lia|]. cbn [ngx_event_expire_timers].
  assert (Ht' := Ht). destruct Ht' as (R & Hr & _). rewrite (first_timer_ok L R _ Hr). clear R Hr.
  destruct L as [|[ev key] L]; cbn [head].
  { exists [], [], tm. split_and!; [done..|constructor|constructor; constructor|constructor]. }
  destruct (s64 (key - now) <=? 0) eqn:Ee.
  2:{ assert (Hn : Forall (fun x => ~ expired x) ((ev, key) :: L))
        by (apply (expired_head _ _ tm Ht); unfold expired; cbn; zify_bool; lia).
      exists [], ((ev, key) :: L), tm. split_and!; [done..|by constructor|apply sublist_nil_l]. }
  assert (Hx : expired (ev, key)) by (unfold expired; cbn; zify_bool; lia).
  rewrite filter_cons_True in Hfuel |- * by done. cbn [length map fst] in Hfuel |- *.
  destruct (del_timer_ok [] ev key L tm Ht) as (tm1 & -> & Ht1 & Hto & Hset). cbn [app] in Ht1.
  destruct (handler_keeps (handler := handler) ev L {| tm1 with tm_timedout := tm_timedout tm1 ∪ {[ev]} |} Ht1)
    as (L2 & tm2 & Eh & Ht2 & Hsub). rewrite Eh.
  destruct (IH L2 tm2 Ht2) as (fired & L' & tm' & -> & Ht3 & Hnone & Hexp & Hf).
  { apply sublist_length in Hsub. lia. }
  exists (ev :: fired), L', tm'. split_and!; [done..| |].
  - eapply (expiring_call _ ev key L tm {| tm1 with tm_timedout := tm_timedout tm1 ∪ {[ev]} |});
      [done|exact Ht1| | |exact Eh|exact Ht2|done]; cbn.
    + by rewrite Hto.
    + rewrite Hset. rewrite elem_of_difference, elem_of_singleton. tauto.
  - apply sublist_skip. etrans; [exact Hf|]. exact (fmap_sublist fst _ _ Hsub).
Qed.

(** ** Handlers that only set and clear timers *)

Inductive timer_op : Type :=
| AddTimer (ev timer : Z)
| DelTimer (ev : Z).

Definition run_op (op : timer_op) (tm : timers) : option timers :=
  match op with
  | AddTimer ev timer => ngx_event_add_timer now ev timer tm
  | DelTimer ev => if decide (ev ∈ tm_timer_set tm) then ngx_event_del_timer ev tm else Some tm
  end.

Fixpoint run_ops (ops : list timer_op) (tm : timers) : option timers :=
  match ops with
  | [] => Some tm
  | op :: ops => match run_op op tm with Some tm => run_ops ops tm | None => None end
  end.

Definition op_ok (op : timer_op) : Prop :=
  match op with
  | AddTimer ev timer => ev ∈ evs /\ 0 < timer < 2 ^ 63 /\ in_window base (u64 (now + timer))
  | DelTimer _ => True
  end.

Lemma later_not_expired a timer : 0 < timer < 2 ^ 63 -> ~ expired (a, u64 (now + timer)).
Proof.
  intros Ht. unfold expired. cbn. rewrite (s64_cong _ timer); [rewrite s64_small by lia; lia|].
  unfold u64. rewrite Zminus_mod_idemp_l. f_equal. lia.
Qed.

Lemma sublist_filter_skip (P : Z * Z -> Prop) `{!forall x, Decision (P x)} L1 x L2 :
  filter P (L1 ++ L2) `sublist_of` filter P (L1 ++ x :: L2).
Proof.
  rewrite !filter_app. apply sublist_app; [done|]. rewrite filter_cons. destruct (decide (P x)); [|done].
  by apply sublist_cons.
Qed.

Lemma run_op_ok op L tm :
  op_ok op -> has_timers L tm ->
  exists L' tm', run_op op tm = Some tm' /\ has_timers L' tm' /\ filter expired L' `sublist_of` filter expired L.
Proof.
  destruct op as [ev timer|ev]; cbn [op_ok run_op].
  - intros (Hev & Ht & Hw) Hts. destruct (add_timer_ok ev timer L tm Hts Hev Hw) as (tm' & L' & E' & Hts' & _ & Hadd).
    exists L', tm'. split_and!; [done..|]. pose proof (later_not_expired ev timer Ht) as Hn.
    destruct Hadd as [_|L1 k L2 -> _|L1 k L2 ->]; [by rewrite filter_insert|done|].
    rewrite filter_insert by done. apply sublist_filter_skip.
  - intros _ Hts. destruct (decide _) as [Hin|_]; [|by exists L, tm].
    apply (timer_set_iff L tm ev Hts) in Hin as (L1 & k & L2 & ->).
    destruct (del_timer_ok L1 ev k L2 tm Hts) as (tm' & E' & Hts' & _). exists (L1 ++ L2), tm'.
    split_and!; [done..|]. apply sublist_filter_skip.
Qed.

#[export] Instance ops_handler (ops : Z -> timers -> list timer_op) :
  (forall ev tm, Forall op_ok (ops ev tm)) -> TimerHandler (fun ev tm => run_ops (ops ev tm) tm).
Proof.
  intros Hops ev L tm Hts. pose proof (Hops ev tm) as Hl. revert Hl. generalize (ops ev tm) as l. intros l Hl.
  revert L tm Hts. induction Hl as [|op l Hop _ IH]; intros L tm Hts; cbn [run_ops]; [by exists L, tm|].
  destruct (run_op_ok op L tm Hop Hts) as (L1 & tm1 & -> & Hts1 & Hs1).
  destruct (IH L1 tm1 Hts1) as (L2 & tm2 & E2 & Hts2 & Hs2). exists L2, tm2. split_and!; [done..|]. by etrans.
Qed.
End Timers.

(** The timers of [rb_sample], at time 6: two have expired.  The handler of the
    first sets the timer of another event, that of the second sets its own
    again. *)
Definition sample_timers : timers := {| tm_tree := rb_sample; tm_timer_set := {[2; 3; 4]}; tm_timedout := ∅ |}.

Definition sample_ops (ev : Z) (_ : timers) : list timer_op :=
  if ev =? 3 then [AddTimer 5 1000; DelTimer 5; AddTimer 5 10] else if ev =? 2 then [AddTimer 2 500] else [].

Lemma sample_has_timers :
  has_timers 1 (2 ^ 64 - 10) {[2; 3; 4; 5]} [(3, 2 ^ 64 - 10); (2, 5); (4, 30)] sample_timers.
Proof.
  exists [(5, rb_blank 5)]. split_and!; [exact rb_sample_represents| |by vm_compute|].
  - repeat (apply Forall_cons; split; [by split; vm_compute|]). constructor.
  - intros e. cbn. rewrite !elem_of_union, !elem_of_singleton. rewrite list_elem_of_singleton. tauto.
Qed.

Lemma sample_now : in_window (2 ^ 64 - 10) 6.
Proof. by split; vm_compute. Qed.

Lemma find_timer_nearest_witness :
  exists d, ngx_event_find_timer 6 rb_sample = Some (d, rb_sample) /\
    ((exists x, x ∈ [(3, 2 ^ 64 - 10); (2, 5); (4, 30)] /\ d = Z.max 0 (s64 (x.2 - 6))) /\
     Forall (fun x => d <= Z.max 0 (s64 (x.2 - 6))) [(3, 2 ^ 64 - 10); (2, 5); (4, 30)]).
Proof. exact (find_timer_nearest 1 (2 ^ 64 - 10) 6 _ sample_now _ sample_timers sample_has_timers). Defined.

Lemma add_timer_armed_witness :
  exists tm' L' k, ngx_event_add_timer 6 4 100 sample_timers = Some tm' /\
    has_timers 1 (2 ^ 64 - 10) {[2; 3; 4; 5]} L' tm' /\
    (4, k) ∈ L' /\ NoDup (map fst L') /\ ngx_abs (s64 (u64 (6 + 100) - k)) < NGX_TIMER_LAZY_DELAY /\
    filter (fun x => x.1 <> 4) L' = filter (fun x => x.1 <> 4) [(3, 2 ^ 64 - 10); (2, 5); (4, 30)].
Proof.
  apply (add_timer_armed 1 (2 ^ 64 - 10) 6 {[2; 3; 4; 5]} 4 100 _ sample_timers sample_has_timers).
  - by vm_compute.
  - by split; vm_compute.
Defined.

Lemma expire_timers_all_witness :
  exists fired L' tm',
    ngx_event_expire_timers 6 (fun ev tm => run_ops 6 (sample_ops ev tm) tm) 3 sample_timers = Some (fired, tm') /\
    has_timers 1 (2 ^ 64 - 10) {[2; 3; 4; 5]} L' tm' /\ Forall (fun x => ~ expired 6 x) L' /\
    expiring 1 (2 ^ 64 - 10) 6 {[2; 3; 4; 5]} (fun ev tm => run_ops 6 (sample_ops ev tm) tm)
      [(3, 2 ^ 64 - 10); (2, 5); (4, 30)] sample_timers fired L' tm' /\
    fired `sublist_of` map fst (filter (expired 6) [(3, 2 ^ 64 - 10); (2, 5); (4, 30)]) /\
    (clears_none 1 (2 ^ 64 - 10) 6 {[2; 3; 4; 5]} (fun ev tm => run_ops 6 (sample_ops ev tm) tm) ->
     fired = map fst (filter (expired 6) [(3, 2 ^ 64 - 10); (2, 5); (4, 30)])).
Proof.
  unshelve eapply (expire_timers_all 1 (2 ^ 64 - 10) 6 {[2; 3; 4; 5]} sample_now _ 3 _ sample_timers sample_has_timers).
  - apply (ops_handler 1 (2 ^ 64 - 10) 6 {[2; 3; 4; 5]}). intros ev tm. unfold sample_ops.
    destruct (ev =? 3), (ev =? 2); repeat constructor; by vm_compute.
  - by vm_compute.
Defined.

Example sample_expired :
  match ngx_event_expire_timers 6 (fun ev tm => run_ops 6 (sample_ops ev tm) tm) 3 sample_timers with
  | Some (fired, tm) => fired = [3; 2] /\ tm_timedout tm = {[3; 2]} /\ tm_timer_set tm = {[2; 4; 5]} /\
      rb_inorder 10 (tm_tree tm) (rb_root (tm_tree tm)) = [16; 30; 506]
  | None => False
  end.
Proof. by vm_compute. Qed.
